(* ===== verification/_CoqProject ===== *)
-Q . S2P
Prelude.v
Transaction.v
JsText.v
Regex.v
ShellScanner.v
ShellScannerFacts.v
CommandAnalyzer.v
CommandAnalyzerFacts.v
PathGlob.v
SedScript.v
ReadOnlyAccess.v
ShellFileWrites.v
PolicyTypes.v
NodePath.v
GhPrCreate.v
DeclaredCommands.v
DeclaredCommandsFacts.v
CommandPredicates.v
PolicyEvaluator.v
PolicyEvaluatorFacts.v
PolicyDocument.v
DefaultPolicy.v
MessageEnvelope.v
Sorting.v
SessionState.v
MessageQueue.v
Guards.v
Tickets.v
JsDate.v
CronExpression.v
CronCalendar.v
CronCalendarFacts.v
TriggerLedger.v
TriggerEngine.v
TriggerEngineFacts.v
CronSource.v
FireRetention.v
PlaybookKernel.v
Conditions.v
Templates.v
SecretMasker.v
CanonicalJsonFacts.v
TemplatesFacts.v
SecretMaskerFacts.v
TodoCalls.v
TodoFold.v
TodoFoldFacts.v
TodoDelivery.v
TranscriptReader.v
TodoTracker.v
TodoTrackerFacts.v
HumanDraft.v
HumanDraftFacts.v
TriggerService.v
TriggerServiceFacts.v
Lineage.v
TriggerActions.v
SilentRun.v
TableSource.v
TableSourceFacts.v
DeliveryReconciler.v
Delivery.v
DeliveryFacts.v
DeliveryClaims.v
DeliveryLiveness.v
FloorClasses.v
Escalation.v
EscalationFacts.v
EscalationHistory.v
EscalationClaims.v
ArbiterRunner.v
ArbiterRunnerFacts.v
Governance.v
GovernanceFacts.v
GovernanceQueue.v
DataStore.v
DataStoreFacts.v
DataStoreClaims.v
HumanGates.v
SessionStateOffers.v
