(* ===== verification/Prelude.v ===== *)
(** * OpenFleet: verification development

    OpenFleet is a daemon ([packages/core]) with a shared contract ([packages/shared]) and a
    desktop application ([apps/desktop]).  The daemon runs coding agents in terminal
    sessions.  Before an agent runs a tool, the daemon judges the call against a command
    policy; it types messages from other agents and from the user into a session when the
    session can take one; and it fires triggers (on a schedule or on events) that send
    messages or start runs.  This library models the parts that decide: nothing here is I/O.
    The paths below are relative to [packages/core/src], those of the shared contract start
    with [shared/].

    ** Parts, files and how they call each other

    Command policy, from the text of a command to a verdict:
    - [ShellScanner] ([policy/shellScanner.ts]): shell text to words, operators and
      redirections, with the scripts of its substitutions.  The record [scanner] is the
      fields of the class, every method a function on it.  Facts in [ShellScannerFacts].
    - [CommandAnalyzer] ([policy/commandAnalyzer.ts]) calls the scanner and lists the simple
      commands a text runs, through [sh -c], [eval], [find -exec], heredocs, subshells,
      substitutions and wrappers.  Facts in [CommandAnalyzerFacts].
    - [PathGlob] ([policy/pathGlob.ts]), [SedScript] ([policy/sedScript.ts]),
      [ReadOnlyAccess] ([policy/searchArguments.ts], [policy/readOnlyAccess.ts]),
      [ShellFileWrites] ([policy/shellFileWrites.ts]), [GhPrCreate] ([policy/ghPrCreate.ts]),
      [DeclaredCommands] ([policy/declaredCommands.ts]) with [DeclaredCommandsFacts], on the
      paths of [NodePath]: the tests a rule can ask of one simple command.
    - [CommandPredicates] ([policy/commandPredicates.ts]) composes those tests over the
      contract of [PolicyTypes] ([shared/src/commandPolicy.ts]).
    - [PolicyEvaluator] ([policy/policyEvaluator.ts]): profile of the role, applicable rules,
      verdict.  Facts in [PolicyEvaluatorFacts].
    - [PolicyDocument] ([policy/policyDocument.ts]): the delivered document merged with the
      override of the user.
    - [DefaultPolicy] ([policy/defaultCommandPolicy.ts], [policy/commandPolicySettings.ts]):
      the delivered document itself, judged by the evaluator above.

    Sessions and messages:
    - [SessionState] ([sessions/stateMachine.ts]): the state machine of a session.
    - [MessageEnvelope] ([sessions/messageEnvelope.ts]): the markers around an agent message.
    - [MessageQueue] ([sessions/messageQueue.ts], [sessions/daemonLines.ts]): the queue of
      messages, a table of which [Sorting] gives the order.
    - [HumanDraft] ([sessions/humanDraft.ts]) with [HumanDraftFacts]: whether the prompt may
      hold text of the human, read from the keys; the facts specify the prompt itself.
    - [DeliveryReconciler] ([sessions/deliveryReconciler.ts], [harness/textTypedByPaste.ts]): whether
      the CLI took a message that was submitted, by digests.
    - [Delivery] ([sessions/sessionService.ts], the delivery machine): how a message reaches the
      terminal of a session, through the phases typing, typed, submitted and reviewing, with the keys
      of the human, the output of the terminal, the hooks of the CLI, closes and relaunches
      between the steps, in a state and exception monad in which every call may throw.  It calls the queue,
      the draft, the state machine, the envelope and the reconciler above.  [DeliveryFacts] states an abstract protocol
      and shows that every operation follows it, [DeliveryClaims] what the protocol implies,
      [DeliveryLiveness] that a session that answers gets its whole queue.

    Triggers:
    - [JsDate] (the calendar of the language), [CronExpression] ([shared/src/cronExpression.ts]),
      [CronCalendar] ([triggers/cronCalendar.ts]) with [CronCalendarFacts]: the slots of a
      schedule in a time zone.
    - [TriggerLedger] ([triggers/fireLedger.ts], [triggers/firePolicy.ts],
      [triggers/triggerRepository.ts]): the rows of the fires and of the triggers.
    - [TriggerEngine] ([triggers/triggerEngine.ts]) with [TriggerEngineFacts]: accepting,
      running, replaying and recovering fires, in a state and exception monad, over the
      interface [World] of what the engine is given.
    - [CronSource] ([triggers/cronSource.ts]): the timers that offer
      slots to an engine, known through the class [BacklogEngine]; the trigger engine is one
      instance, a recorder of offers another.
    - [FireRetention] ([triggers/fireRetention.ts]): the purge of old events.
    - [TriggerService] ([triggers/triggerService.ts], [triggers/kernelConditions.ts], the schemas
      of conditions and policies of [shared/src/triggers.ts]) with [TriggerServiceFacts]: what
      callers may do to triggers.  The proof of a human is the class [HumanProofVerifier]; the
      ledger of nonces is its instance [createOperatorHumanProof]
      ([secrets/operatorHumanProof.ts]).
    - [Lineage] ([managers/lineage.ts]): the root of a session and the sessions beneath one.
    - [TriggerActions] ([triggers/triggerActions.ts], [triggers/triggerMessage.ts],
      [triggers/sessionTriggerScope.ts], [triggers/triggerCursors.ts]): what a RUN does, to which
      sessions, the text of the message it sends, and what sources remember between two boots.
    - [SilentRun] ([triggers/silentRunSource.ts]) and [TableSource]
      ([triggers/tableSource.ts]) with [TableSourceFacts]: two more sources of offers, each over the
      class of what it reads and calls ([SilentWorld], [TableWorld]); the facts run them over any
      world, wrapped in one that records what was met and submitted ([met_world]).
    - [SessionStateOffers] ([triggers/sessionStateSource.ts]): the source of stays in a state and of failures, with its waits, timers and cursors, over the class
      [StateWorld].

    Playbooks, the shared kernel ([playbooks/kernel/]):
    - [PlaybookKernel] ([kernelError.ts], [dottedPath.ts], [secretName.ts],
      [canonicalDigest.ts]): JavaScript values, calls that may throw, canonical JSON.  Facts in
      [CanonicalJsonFacts].  Numbers are the interface [JsNumbers] with its laws.
    - [Conditions] ([conditionEvaluator.ts]), [Templates] ([tokenResolver.ts]) with
      [TemplatesFacts], [SecretMasker] ([secretMasker.ts]) with [SecretMaskerFacts]: the
      conditions of a rule, the tokens of a template and the masking of its outputs.

    Todos ([todos/]):
    - [TodoCalls] ([todoText.ts], [todoHookCall.ts], [shared/src/todos.ts]): what is read of a
      hook or of a transcript record, with the interface [TextTools].
    - [TodoFold] ([todoFold.ts]) with [TodoFoldFacts] (bounds) and [TodoDelivery] (once per
      call, hook against transcript).
    - [TranscriptReader] ([transcriptChunkReader.ts]): chunks of whole lines.
    - [TodoTracker] ([todoTracker.ts]) with [TodoTrackerFacts]: the queue of each session, its
      reads and its timers, as a sequence of events.

    Escalation of plan questions ([escalation/]):
    - [FloorClasses] ([floorClasses.ts], [questionRouting.ts], the classes of
      [shared/src/escalation.ts]): who answers a question of a plan.
    - [Escalation] ([escalationRepository.ts], [escalationService.ts], [escalationBody.ts], the check of
      [criteriaApproval.ts], [review/sanitizedReproClaim.ts], [governance/visibleText.ts], the list for the human of
      [shared/src/workingState.ts]): the four tables, and each operation as a transaction [Tx] that gives new tables or an error.
      [EscalationFacts] states when tables are well formed and what each statement and operation keeps,
      [EscalationHistory] what holds after every history of calls, [EscalationClaims] what one call does.
    - [ArbiterRunner] ([arbiterRunner.ts], and the tools of [mcp/escalationTools.ts] and [mcp/arbiterTools.ts] that drive it): the runs of the
      arbiters over those tables, cut where the code waits, so that creations, closes, timers and the events of sessions end in any order;
      [ArbiterRunnerFacts] has the coverage of the waiting batches, the counts of runs and the histories.

    Governance ([governance/]):
    - [Governance] ([governanceQueueService.ts], [proposalRepository.ts], [waitingProposalRepository.ts], [lawRepository.ts],
      [proposalInput.ts], [shared/src/governance.ts]): the proposals managers file and humans answer, the list where they wait, the laws and
      the grants.  [GovernanceFacts] has the effect of each statement and the classes [KeepsStatements] and [KeepsWrites], through which a relation
      that the statements keep is kept by every operation; [GovernanceQueue] the bounds, the one queue that the two tables are and
      what filings and denials do, and where laws and grants come from.
    - [HumanGates] ([approvalService.ts], [silentBlockDetector.ts]): the permissions a hook waits for, and the prompts nobody answers, with their timers.

    Data stores ([stores/]):
    - [DataStore] ([dataStoreService.ts], [dataStoreRepository.ts], [rowGuard.ts], [shared/src/dataStores.ts]): the tables agents and humans keep, their
      columns, rows, views and the history of the rows, each call a transaction over the tables.  [DataStoreFacts] cuts every call that commits
      into elementary changes (the relation [change]) and shows what each keeps; [DataStoreClaims] has the histories of calls and the claims.
      The types of a recorded change are those of [TableSource], which reads this history.

    Small guards:
    - [Guards]: [policy/refusalRepeatGuard.ts], [triggers/fireBreaker.ts],
      [usage/oncePerWindowPerKey.ts].
    - [Tickets]: [api/wsTicketStore.ts], [secrets/nonceLedger.ts].

    [Prelude] (this file) has the tactics, the hint database and the loops; [Transaction] the monad of the calls that
    commit or leave the tables, with the relations it keeps; [Sorting] the order of rows; [JsText] and
    [Regex] the strings and regular expressions of JavaScript.

    ** How the code is represented

    A JavaScript string is the list of its UTF-16 code units ([JsText.str]).  An object used
    as a map is the list of its entries in insertion order ([PolicyTypes.rec]); a SQL table is
    the list of its rows in rowid order, an [UPDATE] maps over it and returns how many rows
    changed.  Dates that the database keeps as ISO texts are their epoch milliseconds.  A
    [throw] is [None] or the exception of the monad; every reading of a clock or of a random
    id is an argument.

    A [while] loop is a body [St → St + R] iterated by [run_loop] with fuel and a default
    result.  The fuel is a bound of the loop computed from its input (the length of the text
    or of the list plus one or two, the [segment_fuel] of a glob, the measure of the search of a
    gap), and [loop_total] with the measure of the loop shows that the default is never
    reached: the termination theorems of the scanner and of the profiles, the round trips and
    the equivalences are proved through it.  The recursion of the analyzer into nested
    scripts is bounded by its own constant [MAX_NESTING_DEPTH].  The read loop of the todo
    tracker has the fuel [READ_FUEL], which [a_read_ends] shows to be enough whatever the file
    becomes meanwhile; the messages dropped before one is typed are at most the rows of the
    queue ([type_next_enough]); the walk along the display columns of a data store has two turns more than
    there are columns, enough by [walk_total].

    ** Parameters

    What the sources call and do not contain is an argument: the file system
    ([realpathNative], [processCwd]) of the declared commands, [toLowerCase] beyond ASCII, the
    parsers of the schema library ([PolicyDocument.Schemas]), the Unicode table of the
    characters the CLI removes ([strip] in [MessageEnvelope]), what [Intl] knows of a time zone
    ([wallClockAsUtc], [zoneOf]), [toISOString], and the dependencies of the trigger engine
    (the class [World]); the numbers of the language ([JsNumbers]), its URL parser, [JSON.parse]
    and [Date.parse], the hash of a digest, Unicode normalisation and its format category, and the masking of
    credentials in todo texts ([TextTools]) and in the texts of questions; the CLI whose prompt the human draft follows ([shows], [reacts]); whether a working state keeps under its byte limit;
    the length of the stored config of a view.  Hypotheses on them are stated where they are used, and a witness
    instantiates each.

    ** What the theorems show

    - The scanner ends on every text and reads back the quoted rendering of any arguments;
      the analyzer stays in its bounds and loses neither inline scripts nor substitutions.
    - The path globs, the arguments of declared commands and the fields of cron expressions
      are decided exactly as declarative definitions say; an accepted sed script belongs to a
      harmless grammar; an accepted declared command stays in the worktree, with every guard of the code.
    - The evaluator refines a relational specification of the verdict; refusals are
      justified; vouching covers every command of a completely read text; observation is a
      dry run of enforcement; merging an override gives exactly the announced rules and roles.
    - Under the delivered policy, the writes that show in the words of a vouched shell command
      (redirections, tee, dd, sed -i, cp and mv) are confined, and core rules cannot be switched off by a
      role.  What a program writes through other options of its own is outside the statement.
    - An agent message cannot forge its envelope and unwraps to its body; the queue is
      first in, first out; a message is typed exactly at the end of a turn.
    - The effect of a fire happens at most once, through every history and every crash point;
      fires only move forward; an edited trigger is disarmed.
    - Only a human arms a trigger, for one revision and one graph, once per gesture; stored
      triggers are sound, a request writes all or nothing whichever calls and listeners throw, accepted conditions never throw.
    - A trigger acts only as its RUN says, and nothing of a record leaves the
      envelope of its message; a silence offered was a silence, offered once; the cursor of a table trigger
      passes no due change that was not handed to the engine, in a world that changes during the calls, and when no submission
      throws each is handed over once and none is left behind; a stay in a state is offered when it has lasted, only to a trigger that watches it, and what came due during a stop is offered
      at the boot up to a call that throws; lineages are exact over any parent links.
    - A question of a plan goes to whom its class, its words and its paths say; through every history the escalations stay in
      step with the questions, rows only move forward and there is no third round; a hand-over fails closed, an
      answer settles its card and criteria are approved only when everything is answered; no waiting batch is left without its
      arbiter, through crashes and boots, and the arbiters of a ticket stay within the quota.
    - The governance queue is one bounded queue per manager, in the order of the filings; filings are exact, a denial always lands, and
      laws and grants go back to a decision of a human.
    - Through every history of calls the natural key of a data store names one row, each cell fits its column, display columns never loop, the history
      tells the revision and the cells of every row and counts the rows of a store; a write that names a revision meets the row that was read, and a guarded journal only grows.
      A hook that asks a human is answered once, as its row records; a prompt nobody answers is raised once, and lowered when it ends.
    - When the draft of the human is absent the prompt is empty, for any CLI that does with its keys what the source relies on
      and keys that their timing tells apart from a lone Escape.
    - The delivery of messages refines its protocol whatever fails; nothing is announced or recorded
      as delivered that was not typed and submitted; a message without invisible characters is
      submitted once per time it is queued, and queued again at most once; an idle session that answers, with nothing that holds delivery back, gets every message, in order.
    - The slots of a schedule are the matching minutes, cron triggers offer each slot once and
      no live slot is missed; the readings of a wall clock around a change of offset are exact.
    - Tickets and nonces are single use and bounded, the breaker caps every minute, the repeat
      guard escalates exactly on its specification, the purge forgets exactly the old events.

    - Canonical JSON identifies content; conditions hold exactly by their groups and announce
      every refusal; a template is replaced in one pass, secrets stay in their slots, untrusted
      data neither steers a command nor moves the host of a request, and masking leaves no
      piece of a secret.
    - The fold of todo calls keeps its bounds, its snapshots meet the schema of the wire, a call
      folds once and the transcript delivers what the hook does; reading a transcript ends and hands over every whole line; the tracker stays
      bounded through every event, and live calls replay over the history.

    Some examples and lemmas record behaviours the comments of the code do not announce:
    [sed_line_length_hides_in_place], [sort_output_abbreviation_is_vouched],
    [invalid_role_drops_all_roles], [header_carriage_return_survives],
    [search_gives_up_before_a_slot], [late_fire_is_missed_as_a_cause],
    [tail_of_a_long_line_is_read], [an_arrow_after_an_escape_loses_the_draft],
    [a_failed_catch_up_ignores_the_writes], [a_failed_read_presses_enter_twice],
    [a_failed_read_strands_the_typing], [a_discarded_message_is_submitted],
    [a_large_working_state_refuses_the_hand_over], [questions_of_one_name_share_their_answer],
    [a_clock_that_goes_back_answers_for_another_proposal], [a_refused_batch_loses_the_later_ones],
    [a_listener_that_throws_leaves_the_arming].

    ** What is not modelled

    Terminals and processes, HTTP and WebSocket transport, file watching, SQL migrations, the
    MCP servers and the Angular application are I/O or presentation.  Of the decision logic,
    not modelled: of the session service, the launch of sessions and the recording of models (orchestration of the harness and of git); the
    service and rules of playbooks, managers,
    notes, the masking of credentials in commands and logs, usage accounting and the texts of the notices of decisions.  Of the data stores: the
    pages of rows and of the history of one row, and the observers told after a commit; the numbers of cells are integers. *)

From Stdlib Require Export NArith ZArith Lia Ascii.
From stdpp Require Export base option list gmap strings.
From stdpp Require Export tactics.


(** ** Tactics and hints

    [div_lia] is [lia] with quotients and remainders; [in_list] proves membership
    in a list given by its cells; [each_in H tac] runs [tac] on every element of an
    explicit list that [H] may be talking about. *)
Ltac div_lia := Z.to_euclidean_division_equations; lia.
Ltac in_list := rewrite ?elem_of_app, ?elem_of_cons; tauto.
Ltac each_in H tac := repeat (apply elem_of_cons in H as [->|H]; [tac|]); by apply elem_of_nil in H.

Create HintDb fleet.
#[export] Hint Resolve list_elem_of_here list_elem_of_further Forall_nil_2 Forall_cons_2 : fleet.

(** ** Loops

    Every [while] loop of the source is a body of type [St → St + R]: [inl s']
    is one more turn with the mutated locals [s'], [inr r] leaves the loop with
    the value [r] (the guard is false, or a [return] was reached).  [loop]
    iterates it with fuel; [None] means that the fuel ran out. *)
Section Loops.
Context {St R : Type}.
Variable body : St → St + R.

Fixpoint loop (fuel : nat) (s : St) : option R :=
  match fuel with
  | O => None
  | S n => match body s with inl s' => loop n s' | inr r => Some r end
  end.

Lemma loop_total (I : St → Prop) (m : St → nat) :
  (∀ s s', I s → body s = inl s' → I s' ∧ m s' < m s) →
  ∀ fuel s, I s → m s < fuel → is_Some (loop fuel s).
Proof.
  intros Hstep fuel. induction fuel as [|n IH]; intros s HI Hm; [lia|].
  simpl. destruct (body s) as [s'|r] eqn:Hb; [|by eauto].
  destruct (Hstep _ _ HI Hb). apply IH; [done|lia].
Qed.

Lemma loop_inv (I : St → Prop) (Q : R → Prop) :
  (∀ s s', I s → body s = inl s' → I s') →
  (∀ s r, I s → body s = inr r → Q r) →
  ∀ fuel s r, I s → loop fuel s = Some r → Q r.
Proof.
  intros Hstep Hexit fuel. induction fuel as [|n IH]; intros s r HI; [done|].
  simpl. destruct (body s) as [s'|r'] eqn:Hb; [by eauto|].
  intros [= ->]. by eauto.
Qed.

Lemma loop_mono fuel fuel' s r :
  fuel ≤ fuel' → loop fuel s = Some r → loop fuel' s = Some r.
Proof.
  revert fuel' s. induction fuel as [|n IH]; intros [|n'] s Hle; try done; [lia|].
  simpl. destruct (body s); [|done]. apply IH. lia.
Qed.

Lemma loop_agree fuel fuel' s r r' :
  loop fuel s = Some r → loop fuel' s = Some r' → r = r'.
Proof.
  intros H1 H2. destruct (decide (fuel ≤ fuel')) as [Hle|Hgt].
  - apply (loop_mono _ _ _ _ Hle) in H1. congruence.
  - apply (loop_mono fuel' fuel) in H2; [congruence|lia].
Qed.
End Loops.

(** [run_loop] is the value of a loop, with a fallback that the totality
    theorems show is never used. *)
Definition run_loop {St R} (body : St → St + R) (fuel : nat) (s : St) (fallback : R) : R :=
  default fallback (loop body fuel s).

Lemma run_loop_spec {St R} (body : St → St + R) (I : St → Prop) (m : St → nat) (Q : R → Prop) fuel s fallback :
  (∀ s s', I s → body s = inl s' → I s' ∧ m s' < m s) →
  (∀ s r, I s → body s = inr r → Q r) →
  I s → m s < fuel → Q (run_loop body fuel s fallback).
Proof.
  intros Hstep Hexit HI Hm. unfold run_loop.
  destruct (loop_total body I m Hstep fuel s HI Hm) as [r Hr]. rewrite Hr. simpl.
  apply (loop_inv body I Q) with fuel s; [|done|done|done].
  intros s1 s2 H1 H2. by destruct (Hstep _ _ H1 H2).
Qed.

Lemma run_loop_fuel {St R} (body : St → St + R) (I : St → Prop) (m : St → nat) fuel fuel' s fb fb' :
  (∀ s s', I s → body s = inl s' → I s' ∧ m s' < m s) →
  I s → m s < fuel → m s < fuel' →
  run_loop body fuel s fb = run_loop body fuel' s fb'.
Proof.
  intros Hstep HI H1 H2. unfold run_loop.
  destruct (loop_total body I m Hstep fuel s HI H1) as [r Hr].
  destruct (loop_total body I m Hstep fuel' s HI H2) as [r' Hr'].
  rewrite Hr, Hr'. simpl. by eapply loop_agree.
Qed.

(** One turn of a loop, for symbolic execution. *)
Lemma run_loop_step {St R} (body : St → St + R) fuel s s' fb :
  body s = inl s' → run_loop body (S fuel) s fb = run_loop body fuel s' fb.
Proof. intros H. unfold run_loop. simpl. by rewrite H. Qed.

Lemma run_loop_exit {St R} (body : St → St + R) fuel s r fb :
  body s = inr r → run_loop body (S fuel) s fb = r.
Proof. intros H. unfold run_loop. simpl. by rewrite H. Qed.
