(* ===== verification/Transaction.v ===== *)
(** * Transactions over tables

    The components that keep their state in the database run their calls in [inTransaction]: an operation gives new tables and a value, or an error that
    leaves the tables as they were ([after]).  This file has that monad, for any tables and any errors, its loops, and how to open a call that
    succeeded. *)
From S2P Require Import Prelude.

Section Monad.
Context {St Err : Type}.
Definition Txn (A : Type) : Type := St → Err + St * A.
#[export] Instance Txn_ret : MRet Txn := λ A a t, inr (t, a).
#[export] Instance Txn_bind : MBind Txn := λ A B k m t, match m t with inr (t', a) => k a t' | inl e => inl e end.
Definition refuse {A} (e : Err) : Txn A := λ _, inl e.
Definition reads {A} (f : St → A) : Txn A := λ t, inr (t, f t).
Definition writes (f : St → St) : Txn unit := λ t, inr (f t, ()).
(** [for (const x of l) f(x)] *)
Fixpoint each {A} (f : A → Txn unit) (l : list A) : Txn unit := match l with [] => mret () | x :: rest => _ ← f x; each f rest end.
(** [l.filter((x) => f(x))] with a filter that writes. *)
Fixpoint filterTx {A} (f : A → Txn bool) (l : list A) : Txn (list A) :=
  match l with [] => mret [] | x :: rest => isKept ← f x; kept ← filterTx f rest; mret (if isKept : bool then x :: kept else kept) end.
(** What a call leaves in the database: a call that throws is rolled back. *)
Definition after {A} (m : Txn A) (t : St) : St := match m t with inr (t', _) => t' | inl _ => t end.

Lemma bind_inr {A B} (m : Txn A) (k : A → Txn B) t t' b : (m ≫= k) t = inr (t', b) ↔ ∃ t1 a, m t = inr (t1, a) ∧ k a t1 = inr (t', b).
Proof.
  unfold mbind, Txn_bind. destruct (m t) as [e|[t1 a]] eqn:E; split.
  - done.
  - by intros (?&?&?&?).
  - intros Hk. by exists t1, a.
  - intros (t2&a2&[= <- <-]&Hk). done.
Qed.
Lemma reads_inr {A} (f : St → A) t t' a : reads f t = inr (t', a) ↔ t' = t ∧ a = f t.
Proof. unfold reads. naive_solver. Qed.
Lemma writes_inr f t t' a : writes f t = inr (t', a) ↔ t' = f t.
Proof. unfold writes. destruct a. naive_solver. Qed.
Lemma ret_inr {A} (a b : A) t t' : (mret a : Txn A) t = inr (t', b) ↔ t' = t ∧ b = a.
Proof. unfold mret, Txn_ret. naive_solver. Qed.
Lemma refuse_inr {A} e t t' (a : A) : refuse e t = inr (t', a) ↔ False.
Proof. done. Qed.
Lemma bind_run {A B} (m : Txn A) (k : A → Txn B) t t1 a : m t = inr (t1, a) → (m ≫= k) t = k a t1.
Proof. unfold mbind, Txn_bind. by intros ->. Qed.
Lemma each_runs {A} (f : A → Txn unit) l t : (∀ x t, ∃ t', f x t = inr (t', ())) → ∃ t', each f l t = inr (t', ()).
Proof.
  intros Hf. revert t. induction l as [|x l IH]; intros t; cbn; [by exists t|]. destruct (Hf x t) as [t1 H1]. rewrite (bind_run _ _ _ _ _ H1). apply IH.
Qed.
Lemma filterTx_runs {A} (f : A → Txn bool) l t : (∀ x t, ∃ r, f x t = inr r) → ∃ r, filterTx f l t = inr r.
Proof.
  intros Hf. revert t. induction l as [|x l IH]; intros t; cbn; [by eexists|]. destruct (Hf x t) as [[t1 b] H1]. rewrite (bind_run _ _ _ _ _ H1).
  destruct (IH t1) as [[t2 kept] H2]. rewrite (bind_run _ _ _ _ _ H2). by eexists.
Qed.
(** A relation that holds of the tables as they are and of what a call that succeeds makes of them holds of what it leaves. *)
Lemma after_keeps {A} (m : Txn A) t (P : St → Prop) : P t → (∀ t' a, m t = inr (t', a) → P t') → P (after m t).
Proof. intros Ht H. unfold after. destruct (m t) as [e|[t' a]]; [done|by eapply H]. Qed.

(** ** Relations every successful call keeps *)
Section Preserves.
Context (R : relation St) `{!PreOrder R}.
(** The tables a successful call leaves are related to those it found. *)
Definition preserves {A} (m : Txn A) : Prop := ∀ t t' a, m t = inr (t', a) → R t t'.
Lemma preserves_same {A} (m : Txn A) : (∀ t t' a, m t = inr (t', a) → t' = t) → preserves m.
Proof. intros H t t' a ->%H. reflexivity. Qed.
Lemma preserves_ret {A} (a : A) : preserves (mret a).
Proof. apply preserves_same. by intros t t' a' [-> _]%ret_inr. Qed.
Lemma preserves_reads {A} (f : St → A) : preserves (reads f).
Proof. apply preserves_same. by intros t t' a' [-> _]%reads_inr. Qed.
Lemma preserves_refuse {A} e : preserves (refuse (A:=A) e).
Proof. by intros t t' a. Qed.
Lemma preserves_writes f : (∀ t, R t (f t)) → preserves (writes f).
Proof. intros Hf t t' a ->%writes_inr. apply Hf. Qed.
Lemma preserves_bind {A B} (m : Txn A) (k : A → Txn B) : preserves m → (∀ a, preserves (k a)) → preserves (m ≫= k).
Proof. intros Hm Hk t t' b H. apply bind_inr in H as (t1&a&H1&H2). etrans; [by eapply Hm|by eapply Hk]. Qed.
Lemma preserves_each {A} (f : A → Txn unit) l : (∀ x, preserves (f x)) → preserves (each f l).
Proof. intros Hf. induction l as [|x l IH]; cbn; [apply preserves_ret|]. apply preserves_bind; [apply Hf|done]. Qed.
Lemma preserves_filterTx {A} (f : A → Txn bool) l : (∀ x, preserves (f x)) → preserves (filterTx f l).
Proof. intros Hf. induction l as [|x l IH]; cbn; [apply preserves_ret|]. apply preserves_bind; [apply Hf|]. intros ?. apply preserves_bind; [done|]. intros ?. apply preserves_ret. Qed.
Lemma preserves_after {A} (m : Txn A) t : preserves m → R t (after m t).
Proof. intros H. apply (after_keeps m t (R t)); [reflexivity|]. intros t' a. apply H. Qed.
End Preserves.
End Monad.
Arguments Txn : clear implicits.
Create HintDb tx.
#[export] Hint Resolve preserves_ret preserves_reads preserves_refuse : tx.
(** Takes an operation apart along its binds, its loops and its branches; what is known of the operations it calls is in the hint database [tx]. *)
Ltac tx_preserves :=
  repeat first
    [ progress (intros; cbv beta zeta) | solve [eauto with tx typeclass_instances] | (apply preserves_bind; [apply _| |]) | (apply preserves_each; [apply _|]) | (apply preserves_filterTx; [apply _|])
    | (apply preserves_writes; intros ?; done) | match goal with |- preserves _ (match ?x with _ => _ end) => destruct x end ].

(** Opens a successful transaction call by call. *)
Ltac tx_inv :=
  repeat match goal with
  | H : (_ ≫= _) _ = inr _ |- _ => apply bind_inr in H as (?&?&?&H)
  | H : reads _ _ = inr _ |- _ => apply reads_inr in H as [-> ->]
  | H : writes _ _ = inr _ |- _ => apply writes_inr in H as ->
  | H : mret _ _ = inr _ |- _ => apply ret_inr in H as [-> ->]
  | H : refuse _ _ = inr _ |- _ => by apply refuse_inr in H
  | H : inl _ = inr _ |- _ => discriminate H
  end.
