(* ===== verification/JsText.v ===== *)
(** * JavaScript strings

    A JavaScript string is a sequence of UTF-16 code units: [str] is a list of
    numbers.  This file holds the string operations the modelled code uses. *)
From stdpp Require Import pretty.
From S2P Require Import Prelude.

Abbreviation str := (list N).

(** The code unit of an ASCII character, and the string of an ASCII literal. *)
Definition chr (a : ascii) : N := N_of_ascii a.
Arguments chr _%_char_scope : simpl never.
Fixpoint js (s : string) : str :=
  match s with
  | EmptyString => []
  | String a s' => chr a :: js s'
  end.
Arguments js _%_string_scope : simpl never.

Definition TAB : N := 9.
Definition LF : N := 10.
Definition CR : N := 13.
Definition DQUOTE : N := 34.
Definition BACKSLASH : N := 92.

(** [===] on strings and characters. *)
Definition str_eqb (a b : str) : bool := bool_decide (a = b).
Definition mem_str (a : str) (l : list str) : bool := existsb (str_eqb a) l.
Definition mem_chr (c : N) (l : list N) : bool := existsb (N.eqb c) l.

(** [s.slice(i, j)] and [s.slice(i)] for indices that are not negative. *)
Definition slice (s : str) (i j : nat) : str := take (j - i) (drop i s).
Definition slice_from (s : str) (i : nat) : str := drop i s.

(** [s.indexOf(c, from)] and [s.lastIndexOf(c)]; [None] is -1. *)
Fixpoint find_unit (c : N) (s : str) (i : nat) : option nat :=
  match s with
  | [] => None
  | d :: s' => if N.eqb d c then Some i else find_unit c s' (S i)
  end.
Definition indexOf (s : str) (c : N) (from : nat) : option nat := find_unit c (drop from s) from.

Fixpoint lastIndexOf (c : N) (s : str) : option nat :=
  match s with
  | [] => None
  | d :: s' =>
      match lastIndexOf c s' with
      | Some i => Some (S i)
      | None => if N.eqb d c then Some O else None
      end
  end.

Fixpoint startsWith (s p : str) : bool :=
  match p, s with
  | [], _ => true
  | _ :: _, [] => false
  | d :: p', c :: s' => N.eqb c d && startsWith s' p'
  end.
Definition startsWithAt (s p : str) (i : nat) : bool := startsWith (drop i s) p.
Definition endsWith (s p : str) : bool := startsWith (reverse s) (reverse p).

(** [s.includes(p)]. *)
Fixpoint includes (s p : str) : bool :=
  startsWith s p || match s with [] => false | _ :: s' => includes s' p end.

(** [s.split(c)] for a separator of one code unit: never empty. *)
Fixpoint split_on (c : N) (s : str) : list str :=
  match s with
  | [] => [[]]
  | d :: s' =>
      if N.eqb d c then [] :: split_on c s'
      else match split_on c s' with
           | [] => [[d]]
           | w :: ws => (d :: w) :: ws
           end
  end.

(** [a < b]: the order of the code units. *)
Fixpoint str_ltb (a b : str) : bool :=
  match a, b with
  | [], [] => false
  | [], _ :: _ => true
  | _ :: _, [] => false
  | x :: a', y :: b' => N.ltb x y || (N.eqb x y && str_ltb a' b')
  end.
Definition str_le (a b : str) : Prop := str_ltb b a = false.
#[export] Instance str_le_dec : RelDecision str_le.
Proof. intros a b. unfold str_le. apply _. Defined.

(** [String(n)] of an integer. *)
Definition String_of_nat (n : nat) : str := js (pretty n).
Definition String_of_Z (n : Z) : str := js (pretty n).

(** [l.join(sep)]. *)
Fixpoint join (sep : str) (l : list str) : str :=
  match l with
  | [] => []
  | [s] => s
  | s :: l' => s ++ sep ++ join sep l'
  end.

(** Character classes; a range test on a code unit. *)
Definition in_range (lo hi c : N) : bool := N.leb lo c && N.leb c hi.
Definition is_digit (c : N) : bool := in_range 48 57 c.
Definition is_lower (c : N) : bool := in_range 97 122 c.
Definition is_upper (c : N) : bool := in_range 65 90 c.
Definition is_alpha (c : N) : bool := is_lower c || is_upper c.
Definition is_alnum (c : N) : bool := is_alpha c || is_digit c.

Fixpoint take_while (p : N → bool) (s : str) : str :=
  match s with
  | [] => []
  | c :: s' => if p c then c :: take_while p s' else []
  end.
Fixpoint drop_while (p : N → bool) (s : str) : str :=
  match s with
  | [] => []
  | c :: s' => if p c then drop_while p s' else s
  end.

(** [toUpperCase] as far as an ASCII result goes: the code units outside ASCII
    whose upper case is ASCII are the dotless i, the long s, the sharp s and the
    Latin ligatures; every other one keeps a unit outside ASCII in the result. *)
Definition upper_unit (c : N) : str :=
  if is_lower c then [c - 32]%N
  else if N.eqb c 305 then js "I"
  else if N.eqb c 383 then js "S"
  else if N.eqb c 223 then js "SS"
  else if N.eqb c 64256 then js "FF"
  else if N.eqb c 64257 then js "FI"
  else if N.eqb c 64258 then js "FL"
  else if N.eqb c 64259 then js "FFI"
  else if N.eqb c 64260 then js "FFL"
  else if N.eqb c 64261 || N.eqb c 64262 then js "ST"
  else [c].
Definition toUpperCase (s : str) : str := concat (upper_unit <$> s).

(** [Number(text)] and [parseInt(text, base)] of a run of digits. *)
Definition digit_value (c : N) : N :=
  if is_digit c then c - 48
  else if is_lower c then c - 87
  else c - 55.
Definition number_in_base (base : N) (s : str) : N :=
  fold_left (λ acc c, acc * base + digit_value c)%N s 0%N.
Definition Number_of (s : str) : N := number_in_base 10 s.

(** [/^\d+$/.test(s)] *)
Definition all_digits (s : str) : bool := negb (bool_decide (s = [])) && forallb is_digit s.

(** Lemmas. *)
Lemma str_eqb_eq a b : str_eqb a b = true ↔ a = b.
Proof. unfold str_eqb. apply bool_decide_eq_true. Qed.
Lemma str_eqb_neq a b : str_eqb a b = false ↔ a ≠ b.
Proof. unfold str_eqb. apply bool_decide_eq_false. Qed.
Lemma str_eqb_refl a : str_eqb a a = true.
Proof. by apply str_eqb_eq. Qed.

Lemma mem_str_In a l : mem_str a l = true ↔ In a l.
Proof.
  unfold mem_str. rewrite existsb_exists. split.
  - by intros (x & Hx & ->%str_eqb_eq).
  - intros H. exists a. split; [done|apply str_eqb_refl].
Qed.

Lemma find_unit_Some c s i j :
  find_unit c s i = Some j →
  ∃ k, j = i + k ∧ s !! k = Some c ∧ ∀ k', k' < k → s !! k' ≠ Some c.
Proof.
  revert i. induction s as [|d s IH]; intros i; simpl; [done|].
  destruct (N.eqb_spec d c) as [->|Hne].
  - intros [= <-]. exists 0. split_and!; [lia|done|lia].
  - intros (k & -> & Hk & Hmin)%IH. exists (S k). split_and!; [lia|done|].
    intros [|k'] Hk'; simpl; [congruence|]. apply Hmin. lia.
Qed.

Lemma find_unit_None c s i : find_unit c s i = None ↔ c ∉ s.
Proof.
  revert i. induction s as [|d s IH]; intros i; simpl.
  { rewrite elem_of_nil. naive_solver. }
  rewrite not_elem_of_cons. destruct (N.eqb_spec d c) as [->|Hne]; [naive_solver|].
  rewrite IH. naive_solver.
Qed.

Lemma find_unit_app_skip c s t i :
  c ∉ s → find_unit c (s ++ t) i = find_unit c t (i + length s).
Proof.
  revert i. induction s as [|d s IH]; intros i; simpl.
  { by rewrite Nat.add_0_r. }
  rewrite not_elem_of_cons. intros [Hne Hs].
  destruct (N.eqb_spec d c); [congruence|]. rewrite IH by done. f_equal. lia.
Qed.

Lemma indexOf_Some s c from j :
  indexOf s c from = Some j →
  from ≤ j ∧ j < length s ∧ s !! j = Some c ∧ ∀ k, from ≤ k < j → s !! k ≠ Some c.
Proof.
  unfold indexOf. intros (k & -> & Hk & Hmin)%find_unit_Some.
  rewrite lookup_drop in Hk. split_and!; [lia|by eapply lookup_lt_Some|done|].
  intros k' Hk'. specialize (Hmin (k' - from)). rewrite lookup_drop in Hmin.
  replace (from + (k' - from)) with k' in Hmin by lia. apply Hmin. lia.
Qed.

(** Reading at a position of a string split there. *)
Lemma lookup_at_split (pre post : str) c : (pre ++ c :: post) !! length pre = Some c.
Proof. by rewrite lookup_app_r, Nat.sub_diag by lia. Qed.
Lemma lookup_after_split (pre post : str) k : (pre ++ post) !! (length pre + k) = post !! k.
Proof. rewrite lookup_app_r by lia. f_equal. lia. Qed.
Lemma drop_at_split (pre post : str) k : drop (length pre + k) (pre ++ post) = drop k post.
Proof. rewrite <- drop_drop. by rewrite drop_app_length. Qed.
Lemma slice_at_split (pre mid post : str) :
  slice (pre ++ mid ++ post) (length pre) (length pre + length mid) = mid.
Proof.
  unfold slice. rewrite drop_app_length. replace (_ + _ - _) with (length mid) by lia.
  by rewrite take_app_length.
Qed.

Lemma startsWith_iff s p : startsWith s p = true ↔ ∃ rest, s = p ++ rest.
Proof.
  revert s. induction p as [|d p IH]; intros s; simpl; [split; [by exists s|by destruct s]|].
  destruct s as [|c s]; simpl; [split; [done|by intros [? ?]]|]. rewrite andb_true_iff, N.eqb_eq, IH. split.
  - intros [-> [rest ->]]. by exists rest.
  - intros [rest [= -> ->]]. split; [done|by exists rest].
Qed.
Lemma includes_chr s c : includes s [c] = true ↔ c ∈ s.
Proof.
  induction s as [|d s IH]; cbn [includes startsWith orb]; [split; [done|by intros ?%elem_of_nil]|].
  rewrite orb_true_iff, IH, elem_of_cons, andb_true_iff, N.eqb_eq. destruct s; cbn [startsWith]; naive_solver.
Qed.

(** ** [split] and [join] *)
Lemma split_on_app c s t : split_on c (s ++ c :: t) = split_on c s ++ split_on c t.
Proof.
  induction s as [|d s IH]; simpl.
  - by rewrite N.eqb_refl.
  - destruct (N.eqb d c); simpl; [by rewrite IH|].
    rewrite IH. destruct (split_on c s) eqn:E; simpl; [|done].
    by destruct s as [|x s]; simpl in E; repeat case_match.
Qed.
Lemma split_on_no_sep c s : c ∉ s → split_on c s = [s].
Proof.
  induction s as [|d s IH]; simpl; [done|]. rewrite not_elem_of_cons. intros [Hne Hs].
  destruct (N.eqb_spec d c); [congruence|]. by rewrite IH.
Qed.
Lemma split_on_join c lines : lines ≠ [] → Forall (λ l, c ∉ l) lines → split_on c (join [c] lines) = lines.
Proof.
  induction lines as [|l lines IH]; [done|]. intros _ Hall.
  pose proof (Forall_inv Hall) as Hl. pose proof (Forall_inv_tail Hall) as Hrest.
  destruct lines as [|l2 lines]; [by apply split_on_no_sep|].
  change (join [c] (l :: l2 :: lines)) with (l ++ c :: join [c] (l2 :: lines)).
  rewrite split_on_app, split_on_no_sep, IH by done. done.
Qed.
Lemma split_on_lines c s : Forall (λ l, c ∉ l) (split_on c s) ∧ split_on c s ≠ [].
Proof.
  induction s as [|d s [IH Hne]]; simpl.
  { split; [repeat constructor; by intros ?%elem_of_nil|done]. }
  destruct (N.eqb_spec d c); [split; [constructor; [by intros ?%elem_of_nil|done]|done]|].
  destruct (split_on c s) as [|w ws]; [done|]. split; [|done].
  constructor; [|exact (Forall_inv_tail IH)]. rewrite not_elem_of_cons. split; [congruence|exact (Forall_inv IH)].
Qed.
Lemma join_split_on c s : join [c] (split_on c s) = s.
Proof.
  induction s as [|d s IH]; simpl; [done|]. destruct (split_on_lines c s) as [_ Hne].
  destruct (N.eqb_spec d c) as [->|].
  - destruct (split_on c s) as [|w ws]; [done|]. change (join [c] ([] :: w :: ws)) with (c :: join [c] (w :: ws)). by rewrite IH.
  - destruct (split_on c s) as [|w ws]; [done|]. destruct ws as [|w2 ws]; [simpl in *; congruence|].
    change (join [c] ((d :: w) :: w2 :: ws)) with (d :: join [c] (w :: w2 :: ws)). by rewrite IH.
Qed.

(** ** The order of strings *)
Lemma str_ltb_irrefl a : str_ltb a a = false.
Proof. induction a as [|x a IH]; simpl; [done|]. by rewrite N.ltb_irrefl, N.eqb_refl, IH. Qed.
Lemma str_ltb_trans a b c : str_ltb a b = true → str_ltb b c = true → str_ltb a c = true.
Proof.
  revert b c. induction a as [|x a IH]; intros [|y b] [|z c]; simpl; try done.
  rewrite !orb_true_iff, !andb_true_iff, !N.ltb_lt, !N.eqb_eq. intros [?|[-> ?]] [?|[-> ?]]; try (left; lia).
  right. eauto.
Qed.
Lemma str_ltb_total a b : str_ltb a b = true ∨ a = b ∨ str_ltb b a = true.
Proof.
  revert b. induction a as [|x a IH]; intros [|y b]; simpl; auto.
  rewrite !orb_true_iff, !andb_true_iff, !N.ltb_lt, !N.eqb_eq.
  destruct (N.lt_trichotomy x y) as [?|[->|?]]; auto. destruct (IH b) as [?|[->|?]]; auto.
Qed.
#[export] Instance str_le_total : Total str_le.
Proof.
  intros a b. unfold str_le. destruct (str_ltb a b) eqn:E1, (str_ltb b a) eqn:E2; auto.
  pose proof (str_ltb_trans a b a E1 E2) as H. by rewrite str_ltb_irrefl in H.
Qed.
#[export] Instance str_le_antisymm : AntiSymm (=) str_le.
Proof. intros a b. unfold str_le. destruct (str_ltb_total a b) as [E|[E|E]]; congruence. Qed.
#[export] Instance str_le_trans : Transitive str_le.
Proof.
  intros a b c. unfold str_le. intros Hab Hbc. destruct (str_ltb c a) eqn:E; [|done].
  destruct (str_ltb_total a b) as [H|[->|H]]; [|congruence|congruence].
  pose proof (str_ltb_trans _ _ _ E H). congruence.
Qed.

(** The characters of a literal determine it. *)
#[export] Instance js_inj : Inj (=) (=) js.
Proof.
  intros s. induction s as [|a s IH]; intros [|b t]; cbn; try done. intros [= Hc Ht].
  rewrite (IH t Ht). f_equal. rewrite <- (ascii_N_embedding a), <- (ascii_N_embedding b). unfold chr in Hc. by rewrite Hc.
Qed.

(** The text of a number: digits, after a minus sign when it is negative. *)
Lemma pretty_go_digits n s :
  Forall (λ c, is_digit c = true) (js s) → Forall (λ c, is_digit c = true) (js (pretty_N_go n s)) ∧ ((0 < n)%N ∨ js s ≠ [] → js (pretty_N_go n s) ≠ []).
Proof.
  revert s. induction (N.lt_wf_0 n) as [n _ IH]. intros s Hs.
  assert (n = 0 ∨ 0 < n)%N as [->|Hn] by lia; [rewrite pretty_N_go_0; naive_solver lia|].
  rewrite pretty_N_go_step by done. destruct (IH (n / 10)%N (N.div_lt n 10 Hn eq_refl) (String (pretty_N_char (n mod 10)) s)) as [H1 H2].
  { constructor; [|done]. assert (Hall : forallb (λ i, is_digit (chr (pretty_N_char (N.of_nat i)))) (seq 0 10) = true) by reflexivity.
    rewrite forallb_forall in Hall. specialize (Hall (N.to_nat (n mod 10))). rewrite N2Nat.id in Hall. apply Hall, in_seq.
    pose proof (N.mod_lt n 10 ltac:(done)) as Hm. revert Hm. generalize (n mod 10)%N. lia. }
  split; [done|]. intros _. apply H2. by right.
Qed.
Lemma pretty_N_digits (n : N) : Forall (λ c, is_digit c = true) (js (pretty n)) ∧ js (pretty n) ≠ [].
Proof.
  unfold pretty, pretty_N. case_decide; [split; [repeat constructor|done]|].
  destruct (pretty_go_digits n EmptyString) as [H1 H2]; [constructor|]. split; [done|]. apply H2. left. lia.
Qed.
Lemma String_of_Z_units z :
  ∃ sign digits, String_of_Z z = sign ++ digits ∧ (sign = [] ∨ sign = js "-") ∧ digits ≠ [] ∧ Forall (λ c, is_digit c = true) digits.
Proof.
  unfold String_of_Z. destruct z as [|p|p].
  - exists [], (js "0"). split_and!; [done|by left|done|repeat constructor].
  - exists [], (js (pretty (Npos p))). destruct (pretty_N_digits (Npos p)). split_and!; [done|by left|done|done].
  - exists (js "-"), (js (pretty (Npos p))). destruct (pretty_N_digits (Npos p)). split_and!; [done|by right|done|done].
Qed.
#[export] Instance String_of_Z_inj : Inj (=) (=) String_of_Z.
Proof. intros a b H. by apply (inj js), (inj pretty) in H. Qed.
#[export] Instance String_of_nat_inj : Inj (=) (=) String_of_nat.
Proof. intros a b H. by apply (inj js), (inj pretty) in H. Qed.
