(* ===== verification/Regex.v ===== *)
(** * Regular expressions

    The [RegExp.prototype.test] of the modelled code: expressions over code units
    with zero-width assertions (anchors, word boundaries, a negative look-ahead of
    one character), run by derivatives.  [re_test_correct] relates the executable
    matcher to the positional meaning of an expression. *)
From S2P Require Import Prelude JsText.

(** An assertion looks at the code units before and after its position. *)
Inductive re :=
  | REmpty
  | REps
  | RChr (p : N → bool)
  | RSeq (r1 r2 : re)
  | RAlt (r1 r2 : re)
  | RStar (r : re)
  | RAssert (f : option N → option N → bool).

(** ** Meaning: [re_span s r i j] holds when [r] matches [s] from index [i] to [j]. *)
Definition before (s : str) (i : nat) : option N := match i with O => None | S k => s !! k end.

Inductive re_span (s : str) : re → nat → nat → Prop :=
  | span_eps i : i ≤ length s → re_span s REps i i
  | span_chr p i c : s !! i = Some c → p c = true → re_span s (RChr p) i (S i)
  | span_seq r1 r2 i j k : re_span s r1 i j → re_span s r2 j k → re_span s (RSeq r1 r2) i k
  | span_alt_l r1 r2 i j : re_span s r1 i j → re_span s (RAlt r1 r2) i j
  | span_alt_r r1 r2 i j : re_span s r2 i j → re_span s (RAlt r1 r2) i j
  | span_star_nil r i : i ≤ length s → re_span s (RStar r) i i
  | span_star_cons r i j k : i < j → re_span s r i j → re_span s (RStar r) j k → re_span s (RStar r) i k
  | span_assert f i : i ≤ length s → f (before s i) (s !! i) = true → re_span s (RAssert f) i i.

(** ** The matcher *)
Fixpoint nullable (p n : option N) (r : re) : bool :=
  match r with
  | REmpty | RChr _ => false
  | REps | RStar _ => true
  | RSeq r1 r2 => nullable p n r1 && nullable p n r2
  | RAlt r1 r2 => nullable p n r1 || nullable p n r2
  | RAssert f => f p n
  end.

Definition mk_seq (r1 r2 : re) : re :=
  match r1 with REmpty => REmpty | REps => r2 | _ => match r2 with REmpty => REmpty | _ => RSeq r1 r2 end end.
Definition mk_alt (r1 r2 : re) : re :=
  match r1, r2 with REmpty, r | r, REmpty => r | _, _ => RAlt r1 r2 end.

(** What is left of [r] after the code unit [c], when [p] came before. *)
Fixpoint deriv (p : option N) (c : N) (r : re) : re :=
  match r with
  | REmpty | REps | RAssert _ => REmpty
  | RChr f => if f c then REps else REmpty
  | RSeq r1 r2 =>
      mk_alt (mk_seq (deriv p c r1) r2) (if nullable p (Some c) r1 then deriv p c r2 else REmpty)
  | RAlt r1 r2 => mk_alt (deriv p c r1) (deriv p c r2)
  | RStar r1 => mk_seq (deriv p c r1) (RStar r1)
  end.

(** Some prefix of the rest of the text matches [r]; [p] is the code unit before it. *)
Fixpoint re_prefix (p : option N) (r : re) (s : str) : bool :=
  nullable p (s !! 0) r ||
  match s with
  | [] => false
  | c :: s' => match deriv p c r with REmpty => false | r' => re_prefix (Some c) r' s' end
  end.
Fixpoint re_search (p : option N) (r : re) (s : str) : bool :=
  re_prefix p r s || match s with [] => false | c :: s' => re_search (Some c) r s' end.
(** [r.test(s)] *)
Definition re_test (r : re) (s : str) : bool := re_search None r s.

(** ** Building expressions *)
Definition is_word (c : N) : bool := is_alnum c || N.eqb c (chr "_").
Definition is_space (c : N) : bool :=
  mem_chr c [9; 10; 11; 12; 13; 32; 160; 5760; 8232; 8233; 8239; 8287; 12288; 65279]%N || in_range 8192 8202 c.
(** [s.trim()] and [s.split(/\s+/)]; [inside] tells that the scan is within a separator. *)
Definition trim (s : str) : str := reverse (drop_while is_space (reverse (drop_while is_space s))).
Fixpoint split_spaces (inside : bool) (s : str) : list str :=
  match s with
  | [] => [[]]
  | c :: s' =>
      if is_space c then (if inside then split_spaces true s' else [] :: split_spaces true s')
      else match split_spaces false s' with
           | [] => [[c]]
           | w :: ws => (c :: w) :: ws
           end
  end.
Definition word_at (o : option N) : bool := match o with Some c => is_word c | None => false end.

Definition r_bound : re := RAssert (λ p n, xorb (word_at p) (word_at n)).
Definition r_start : re := RAssert (λ p _, bool_decide (p = None)).
Definition r_end : re := RAssert (λ _ n, bool_decide (n = None)).
(** [(?!class)] *)
Definition r_not_ahead (f : N → bool) : re := RAssert (λ _ n, match n with Some c => negb (f c) | None => true end).
Definition r_opt (r : re) : re := RAlt r REps.
Definition r_plus (r : re) : re := RSeq r (RStar r).
Definition r_lit (s : str) : re := foldr (λ c r, RSeq (RChr (N.eqb c)) r) REps s.
Definition r_any_of (l : list str) : re := foldr (λ s r, RAlt (r_lit s) r) REmpty l.
Definition r_seq (l : list re) : re := foldr RSeq REps l.
Definition r_alt (l : list re) : re := foldr RAlt REmpty l.
(** A class listed by its characters, its complement. *)
Definition one_of (s : str) : N → bool := λ c, mem_chr c s.
Definition none_of (s : str) : N → bool := λ c, negb (mem_chr c s).
Definition r_cls (f : N → bool) : re := RChr f.
Definition r_space_star : re := RStar (RChr is_space).

(** ** Correctness *)
Section Correct.
Variable s : str.

Lemma span_bounds r i j : re_span s r i j → i ≤ j ≤ length s.
Proof.
  induction 1; try lia. match goal with H : s !! _ = Some _ |- _ => apply lookup_lt_Some in H end. lia.
Qed.

Lemma nullable_span r i :
  i ≤ length s → nullable (before s i) (s !! i) r = true ↔ re_span s r i i.
Proof.
  intros Hi. induction r as [| |f|r1 IH1 r2 IH2|r1 IH1 r2 IH2|r IH|f]; simpl.
  - split; [done|inversion 1].
  - split; [by constructor|done].
  - split; [done|inversion 1; lia].
  - rewrite andb_true_iff, IH1, IH2. split.
    + intros [? ?]. by econstructor.
    + inversion 1 as [| |? ? ? j ? Ha Hb| | | | |]; subst.
      pose proof (span_bounds _ _ _ Ha). pose proof (span_bounds _ _ _ Hb).
      by replace j with i in * by lia.
  - rewrite orb_true_iff, IH1, IH2. split.
    + intros [?|?]; by constructor.
    + inversion 1; subst; auto.
  - split; [by constructor|done].
  - split; [by constructor|by inversion 1].
Qed.

Lemma mk_seq_span r1 r2 i k : re_span s (mk_seq r1 r2) i k ↔ re_span s (RSeq r1 r2) i k.
Proof.
  split.
  - destruct r1; simpl; try (destruct r2; done || by inversion 1).
    intros H. pose proof (span_bounds _ _ _ H). econstructor; [constructor; lia|done].
  - inversion 1 as [| |? ? ? j ? Ha Hb| | | | |]; subst.
    destruct r1; simpl; try (destruct r2; try (by inversion Hb); by econstructor).
    + by inversion Ha.
    + by inversion Ha; subst.
Qed.

Lemma mk_alt_span r1 r2 i k : re_span s (mk_alt r1 r2) i k ↔ re_span s r1 i k ∨ re_span s r2 i k.
Proof.
  assert (Halt : re_span s (RAlt r1 r2) i k ↔ re_span s r1 i k ∨ re_span s r2 i k).
  { split; [inversion 1; auto|intros []; by constructor]. }
  assert (Hnone : ¬ re_span s REmpty i k) by by inversion 1.
  unfold mk_alt. destruct r1, r2; try exact Halt; split; auto; by intros [?|?].
Qed.

Lemma deriv_span r i c k :
  s !! i = Some c → re_span s (deriv (before s i) c r) (S i) k ↔ i < k ∧ re_span s r i k.
Proof.
  intros Hc. pose proof (lookup_lt_Some _ _ _ Hc) as Hlt. revert k.
  induction r as [| |f|r1 IH1 r2 IH2|r1 IH1 r2 IH2|r IH|f]; intros k; simpl.
  - split; [by inversion 1|intros [_ H]; by inversion H].
  - split; [by inversion 1|intros [? H]; inversion H; lia].
  - destruct (f c) eqn:Hf; split.
    + inversion 1; subst. split; [lia|by econstructor].
    + intros [_ H]. inversion H; subst. constructor. lia.
    + by inversion 1.
    + intros [_ H]. inversion H; subst. congruence.
  - rewrite mk_alt_span, mk_seq_span. split.
    + intros [H|H].
      * inversion H as [| |? ? ? j ? Ha Hb| | | | |]; subst. apply IH1 in Ha as [? ?].
        pose proof (span_bounds _ _ _ Hb). split; [lia|by econstructor].
      * destruct (nullable _ _ r1) eqn:Hn; [|by inversion H]. rewrite <- Hc in Hn.
        apply nullable_span in Hn; [|lia]. apply IH2 in H as [? ?]. split; [done|by econstructor].
    + intros [Hk H]. inversion H as [| |? ? ? j ? Ha Hb| | | | |]; subst.
      pose proof (span_bounds _ _ _ Ha). destruct (decide (i < j)).
      * left. econstructor; [by apply IH1|done].
      * replace j with i in * by lia. right.
        assert (nullable (before s i) (Some c) r1 = true) as ->.
        { rewrite <- Hc. apply nullable_span; [lia|done]. }
        by apply IH2.
  - rewrite mk_alt_span, IH1, IH2. split.
    + intros [[? ?]|[? ?]]; split; auto; by constructor.
    + intros [? H]. inversion H; subst; auto.
  - rewrite mk_seq_span. split.
    + intros H. inversion H as [| |? ? ? j ? Ha Hb| | | | |]; subst. apply IH in Ha as [? ?].
      pose proof (span_bounds _ _ _ Hb). split; [lia|by econstructor].
    + intros [Hk H]. inversion H as [| | | | |?|? ? j ? ? Ha Hb|]; subst; [lia|].
      econstructor; [by apply IH|done].
  - split; [by inversion 1|intros [? H]; inversion H; lia].
Qed.

Lemma re_prefix_span n : ∀ i r,
  length s - i ≤ n → i ≤ length s →
  re_prefix (before s i) r (drop i s) = true ↔ ∃ k, re_span s r i k.
Proof.
  induction n as [|n IH]; intros i r Hn Hi.
  - assert (i = length s) as -> by lia. rewrite drop_ge by lia. simpl. rewrite orb_false_r.
    rewrite <- (lookup_ge_None_2 s (length s)) by lia. rewrite nullable_span by lia. split; [by eauto|].
    intros [k H]. pose proof (span_bounds _ _ _ H). by replace k with (length s) in H by lia.
  - destruct (drop i s) as [|c rest] eqn:Hd.
    { assert (length s ≤ i) by (apply (f_equal length) in Hd; rewrite length_drop in Hd; simpl in Hd; lia).
      rewrite <- Hd. apply IH; lia. }
    assert (Hc : s !! i = Some c) by (rewrite <- (Nat.add_0_r i), <- lookup_drop, Hd; done).
    pose proof (lookup_lt_Some _ _ _ Hc) as Hlt.
    assert (Hrest : drop (S i) s = rest).
    { rewrite <- (Nat.add_1_r i), <- drop_drop, Hd. done. }
    assert (Hnull : nullable (before s i) ((c :: rest) !! 0) r = true ↔ re_span s r i i).
    { simpl. rewrite <- Hc. apply nullable_span. lia. }
    assert (Hder : match deriv (before s i) c r with REmpty => false | r' => re_prefix (Some c) r' rest end = true
      ↔ ∃ k, re_span s (deriv (before s i) c r) (S i) k).
    { assert (Hb : before s (S i) = Some c) by done. rewrite <- Hrest.
      destruct (deriv (before s i) c r) eqn:E; try (rewrite <- Hb; apply IH; lia).
      split; [done|]. intros [k H]. inversion H. }
    cbn [re_prefix]. rewrite orb_true_iff, Hnull, Hder. split.
    + intros [?|[k H]]; [by eauto|]. apply deriv_span in H as [_ ?]; [by eauto|done].
    + intros [k H]. pose proof (span_bounds _ _ _ H). destruct (decide (k = i)) as [->|]; [by left|].
      right. exists k. apply deriv_span; [done|]. split; [lia|done].
Qed.

Lemma re_search_span n : ∀ i r,
  length s - i ≤ n → i ≤ length s →
  re_search (before s i) r (drop i s) = true ↔ ∃ j k, i ≤ j ∧ re_span s r j k.
Proof.
  induction n as [|n IH]; intros i r Hn Hi.
  - assert (i = length s) as -> by lia. pose proof (re_prefix_span 0 (length s) r ltac:(lia) ltac:(lia)) as Hp.
    rewrite drop_ge in * by lia. cbn [re_search]. rewrite orb_false_r, Hp. split.
    + intros [k H]. by exists (length s), k.
    + intros (j & k & Hj & H). pose proof (span_bounds _ _ _ H). replace j with (length s) in H by lia. by eauto.
  - destruct (drop i s) as [|c rest] eqn:Hd.
    { assert (length s ≤ i) by (apply (f_equal length) in Hd; rewrite length_drop in Hd; simpl in Hd; lia).
      rewrite <- Hd. apply IH; lia. }
    assert (Hc : s !! i = Some c) by (rewrite <- (Nat.add_0_r i), <- lookup_drop, Hd; done).
    pose proof (lookup_lt_Some _ _ _ Hc) as Hlt.
    assert (Hrest : drop (S i) s = rest).
    { rewrite <- (Nat.add_1_r i), <- drop_drop, Hd. done. }
    pose proof (re_prefix_span (length s) i r ltac:(lia) Hi) as Hp. rewrite Hd in Hp.
    pose proof (IH (S i) r ltac:(lia) ltac:(lia)) as Hs. simpl in Hs. rewrite Hrest, Hc in Hs.
    cbn [re_search]. rewrite orb_true_iff, Hp, Hs. split.
    + intros [[k H]|(j & k & Hj & H)]; [by exists i, k|]. exists j, k. split; [lia|done].
    + intros (j & k & Hj & H). destruct (decide (j = i)) as [->|]; [by left; eauto|].
      right. exists j, k. split; [lia|done].
Qed.
End Correct.

Lemma re_test_correct r s : re_test r s = true ↔ ∃ i j, re_span s r i j.
Proof.
  unfold re_test. pose proof (re_search_span s (length s) 0 r ltac:(lia) ltac:(lia)) as H. simpl in H.
  rewrite drop_0 in H. rewrite H. split.
  - intros (i & j & _ & ?). by eauto.
  - intros (i & j & ?). exists i, j. split; [lia|done].
Qed.

Example re_test_boundary : re_test (r_seq [r_bound; r_lit (js "tee"); r_bound]) (js "x | tee f") = true.
Proof. vm_compute. reflexivity. Qed.
Example re_test_inside : re_test (r_seq [r_bound; r_lit (js "tee"); r_bound]) (js "steel") = false.
Proof. vm_compute. reflexivity. Qed.

(** Dropping and trimming only lose units. *)
Lemma drop_while_elem (p : N → bool) c s : c ∈ drop_while p s → c ∈ s.
Proof. induction s as [|x s IH]; simpl; [done|]. destruct (p x); [|done]. intros Hc. right. by apply IH. Qed.
Lemma trim_elem c s : c ∈ trim s → c ∈ s.
Proof. unfold trim. rewrite elem_of_reverse. intros Hc%drop_while_elem. rewrite elem_of_reverse in Hc. by eapply drop_while_elem. Qed.

(** ** Reading a match back *)
Lemma at_seq s a b i k : re_span s (RSeq a b) i k → ∃ j, re_span s a i j ∧ re_span s b j k.
Proof. inversion 1; subst. eauto. Qed.
Lemma at_chr s f i k : re_span s (RChr f) i k → ∃ c, s !! i = Some c ∧ f c = true ∧ k = S i.
Proof. inversion 1; subst. eauto. Qed.
Lemma at_assert s f i k : re_span s (RAssert f) i k → f (before s i) (s !! i) = true ∧ k = i.
Proof. inversion 1; subst. eauto. Qed.
Lemma at_alt s a b i k : re_span s (RAlt a b) i k → re_span s a i k ∨ re_span s b i k.
Proof. inversion 1; subst; eauto. Qed.
Lemma at_eps s i k : re_span s REps i k → k = i.
Proof. by inversion 1. Qed.
Lemma at_lit s w i j : re_span s (r_lit w) i j → j = i + length w ∧ drop i s = w ++ drop j s.
Proof.
  revert i. induction w as [|c w IH]; intros i; cbn [r_lit foldr]; [intros ->%at_eps; split; [cbn; lia|done]|].
  intros (k & (d & Hd & ->%N.eqb_eq & ->)%at_chr & [-> Hw]%IH)%at_seq. split; [cbn; lia|]. rewrite (drop_S s d i Hd). cbn. by rewrite Hw.
Qed.
Lemma at_any_of s l i j : re_span s (r_any_of l) i j → ∃ w, w ∈ l ∧ re_span s (r_lit w) i j.
Proof.
  induction l as [|w l IH]; cbn [r_any_of foldr]; [by inversion 1|]. intros [Hs|(w' & ? & ?)%IH]%at_alt; [exists w; split; [by left|done]|]. exists w'. split; [by right|done].
Qed.
