(* ===== verification/ShellScanner.v ===== *)
(** * The shell scanner

    Model of [packages/core/src/policy/shellScanner.ts]: shell text is split into
    words, control operators and redirections, in one pass, keeping the scripts
    that its substitutions run.  The mutable fields of class [ShellScanner] are
    the record [scanner]; each method is a function on it. *)
From S2P Require Import Prelude JsText.

(** ** Tokens *)
Inductive ControlOperator :=
  | OpSemicolon | OpAnd | OpOr | OpPipe | OpPipeBoth | OpBackground
  | OpNewline | OpOpen | OpClose.

Inductive RedirectOperator :=
  | RWrite | RAppend | RClobber | RBoth | RBothAppend | RRead
  | RHeredoc | RHereString | RDupOut | RDupIn | RReadWrite.

#[export] Instance ControlOperator_eq_dec : EqDecision ControlOperator.
Proof. solve_decision. Defined.
#[export] Instance RedirectOperator_eq_dec : EqDecision RedirectOperator.
Proof. solve_decision. Defined.

Record HeredocBody := mkHeredocBody { body : str; expandsSubstitutions : bool }.

Inductive ShellToken :=
  | Word (text : str) (isQuoted : bool) (substitutions : list str)
  | Operator (operator : ControlOperator)
  | Redirect (operator : RedirectOperator) (fd : option N) (heredoc : option HeredocBody).

Record ScanResult := mkScanResult { tokens_of : list ShellToken; scan_isPartial : bool }.
Record SubstitutionScan := mkSubstitutionScan { scripts_of : list str; subst_isPartial : bool }.

Inductive NestingFrame := FParen | FBrace | FDouble.

(** ** Character tables *)

(** [REDIRECT_OPERATORS_LONGEST_FIRST]; the flag marks [<<-], which strips tabs. *)
Definition REDIRECT_OPERATORS_LONGEST_FIRST : list (str * RedirectOperator * bool) :=
  [ (js "<<<", RHereString, false); (js "<<-", RHeredoc, true); (js "&>>", RBothAppend, false);
    (js ">>", RAppend, false); (js ">|", RClobber, false); (js ">&", RDupOut, false);
    (js "<<", RHeredoc, false); (js "<&", RDupIn, false); (js "<>", RReadWrite, false);
    (js "&>", RBoth, false); (js ">", RWrite, false); (js "<", RRead, false) ].
Definition DOUBLE_QUOTE_ESCAPABLE : list N := [chr "$"; chr "`"; DQUOTE; BACKSLASH].
Definition ANSI_SIMPLE_ESCAPES : list (N * N) :=
  [ (chr "n", LF); (chr "t", TAB); (chr "r", CR); (chr "a", 7%N); (chr "b", 8%N); (chr "e", 27%N);
    (chr "f", 12%N); (chr "v", 11%N); (BACKSLASH, BACKSLASH); (chr "'", chr "'");
    (DQUOTE, DQUOTE); (chr "?", chr "?") ].
Definition BLANK_CHARACTERS : list N := [chr " "; TAB; CR].
Definition CONTROL_CHARACTERS : list (N * ControlOperator) :=
  [ (chr ";", OpSemicolon); (chr "&", OpBackground); (chr "|", OpPipe);
    (chr "(", OpOpen); (chr ")", OpClose) ].

Fixpoint assoc_unit {A} (c : N) (l : list (N * A)) : option A :=
  match l with
  | [] => None
  | (k, v) :: l' => if N.eqb c k then Some v else assoc_unit c l'
  end.

Definition isDigits (text : str) : bool := negb (bool_decide (text = [])) && forallb is_digit text.
Definition isOctalDigit (c : N) : bool := in_range 48 55 c.
Definition isHexDigit (c : N) : bool := is_digit c || in_range 97 102 c || in_range 65 70 c.

(** ** Closing delimiters *)

(** The index of the backtick that closes the one opening at [openIndex]. *)
Definition backtick_step (source : str) (index : nat) : nat + option nat :=
  match source !! index with
  | None => inr None
  | Some c =>
      if N.eqb c BACKSLASH then inl (index + 2)
      else if N.eqb c (chr "`") then inr (Some index)
      else inl (index + 1)
  end.
Definition findClosingBacktick (source : str) (openIndex : nat) : option nat :=
  run_loop (backtick_step source) (S (length source)) (openIndex + 1) None.

Fixpoint unescapeBackticks (script : str) : str :=
  match script with
  | [] => []
  | c :: rest =>
      if N.eqb c BACKSLASH then
        match rest with
        | d :: rest' =>
            if mem_chr d [chr "`"; BACKSLASH; chr "$"] then d :: unescapeBackticks rest'
            else c :: unescapeBackticks rest
        | [] => [c]
        end
      else c :: unescapeBackticks rest
  end.

(** One turn of the loop of [findClosingIndex]; the innermost frame is the head
    of [frames]. *)
Definition closing_step (source : str) (st : nat * list NestingFrame)
  : nat * list NestingFrame + option nat :=
  let '(index, frames) := st in
  match source !! index with
  | None => inr None
  | Some character =>
      let next := source !! (index + 1) in
      if N.eqb character BACKSLASH then inl (index + 2, frames)
      else if N.eqb character (chr "`") then
        match findClosingBacktick source index with
        | None => inr None
        | Some closing => inl (closing + 1, frames)
        end
      else if N.eqb character (chr "$") && bool_decide (next = Some (chr "(")) then
        inl (index + 2, FParen :: frames)
      else if N.eqb character (chr "$") && bool_decide (next = Some (chr "{")) then
        inl (index + 2, FBrace :: frames)
      else
        match frames with
        | FDouble :: outer =>
            inl (index + 1, if N.eqb character DQUOTE then outer else frames)
        | _ =>
            if N.eqb character (chr "'") then
              match indexOf source (chr "'") (index + 1) with
              | None => inr None
              | Some closing => inl (closing + 1, frames)
              end
            else if N.eqb character DQUOTE then inl (index + 1, FDouble :: frames)
            else
              match frames with
              | FParen :: outer =>
                  if N.eqb character (chr "(") then inl (index + 1, FParen :: frames)
                  else if N.eqb character (chr ")") then
                    match outer with [] => inr (Some index) | _ => inl (index + 1, outer) end
                  else inl (index + 1, frames)
              | FBrace :: outer =>
                  if N.eqb character (chr "}") then
                    match outer with [] => inr (Some index) | _ => inl (index + 1, outer) end
                  else inl (index + 1, frames)
              | _ => inl (index + 1, frames)
              end
        end
  end.
Definition findClosingIndex (source : str) (from : nat) (opener : NestingFrame) : option nat :=
  run_loop (closing_step source) (S (length source)) (from, [opener]) None.

Definition isArithmetic (inner : str) : bool :=
  startsWith inner [chr "("] && endsWith inner [chr ")"].

(** The scripts run by the substitutions of text that is not itself parsed as shell. *)
Definition substitution_step (text : str) (st : nat * list str * bool)
  : nat * list str * bool + SubstitutionScan :=
  let '(index, scripts, isPartial) := st in
  match text !! index with
  | None => inr (mkSubstitutionScan scripts isPartial)
  | Some character =>
      if N.eqb character BACKSLASH then inl (index + 2, scripts, isPartial)
      else if N.eqb character (chr "`") then
        let closing := findClosingBacktick text index in
        let end_ := default (length text) closing in
        inl (end_ + 1, scripts ++ [unescapeBackticks (slice text (index + 1) end_)],
             isPartial || bool_decide (closing = None))
      else if N.eqb character (chr "$") && bool_decide (text !! (index + 1) = Some (chr "(")) then
        let closing := findClosingIndex text (index + 2) FParen in
        let end_ := default (length text) closing in
        let inner := slice text (index + 2) end_ in
        inl (end_ + 1, if isArithmetic inner then scripts else scripts ++ [inner],
             isPartial || bool_decide (closing = None))
      else inl (index + 1, scripts, isPartial)
  end.
Definition substitutionScriptsOf (text : str) : SubstitutionScan :=
  run_loop (substitution_step text) (S (length text)) (0, [], false) (mkSubstitutionScan [] false).

(** [decodeAnsiEscape]: the decoded text and the number of code units consumed. *)
Definition decodeAnsiEscape (source : str) (backslashIndex : nat) : str * nat :=
  match source !! (backslashIndex + 1) with
  | None => ([BACKSLASH], 1)
  | Some escaped =>
      match assoc_unit escaped ANSI_SIMPLE_ESCAPES with
      | Some simple => ([simple], 2)
      | None =>
          let maxDigits := if N.eqb escaped (chr "x") then 2 else 4 in
          let digits := take_while isHexDigit (take maxDigits (drop (backslashIndex + 2) source)) in
          if (N.eqb escaped (chr "x") || N.eqb escaped (chr "u")) && negb (bool_decide (digits = []))
          then ([number_in_base 16 digits], 2 + length digits)
          else if isOctalDigit escaped then
            let octal := take_while isOctalDigit (take 3 (drop (backslashIndex + 1) source)) in
            ([number_in_base 8 octal], 1 + length octal)
          else ([BACKSLASH; escaped], 2)
      end
  end.

(** ** The scanner *)
Record WordUnderConstruction := mkWord
  { isStarted : bool; wordQuoted : bool; wordText : str; wordSubstitutions : list str }.

(** The pending heredoc refers to its token by its index in [tokens]: the source
    keeps a reference to the token object and fills its [heredoc] later. *)
Record PendingHeredoc := mkPendingHeredoc
  { heredocToken : nat; delimiter : str; heredocExpands : bool; stripsTabs : bool }.

Record scanner := mkScanner
  { position : nat;
    isPartial : bool;
    tokens : list ShellToken;
    pendingHeredocs : list PendingHeredoc;
    heredocAwaitingDelimiter : option (nat * bool);
    word : WordUnderConstruction }.

Definition emptyWord : WordUnderConstruction := mkWord false false [] [].
Definition initial_scanner : scanner := mkScanner 0 false [] [] None emptyWord.

Definition set_position (p : nat) (st : scanner) : scanner :=
  mkScanner p (isPartial st) (tokens st) (pendingHeredocs st) (heredocAwaitingDelimiter st) (word st).
Definition advance (n : nat) (st : scanner) : scanner := set_position (position st + n) st.
Definition or_partial (b : bool) (st : scanner) : scanner :=
  mkScanner (position st) (isPartial st || b) (tokens st) (pendingHeredocs st)
    (heredocAwaitingDelimiter st) (word st).
Definition push_token (t : ShellToken) (st : scanner) : scanner :=
  mkScanner (position st) (isPartial st) (tokens st ++ [t]) (pendingHeredocs st)
    (heredocAwaitingDelimiter st) (word st).
Definition set_word (w : WordUnderConstruction) (st : scanner) : scanner :=
  mkScanner (position st) (isPartial st) (tokens st) (pendingHeredocs st)
    (heredocAwaitingDelimiter st) w.
Definition set_awaiting (a : option (nat * bool)) (st : scanner) : scanner :=
  mkScanner (position st) (isPartial st) (tokens st) (pendingHeredocs st) a (word st).

Definition startWord (st : scanner) : scanner :=
  set_word (mkWord true (wordQuoted (word st)) (wordText (word st)) (wordSubstitutions (word st))) st.
(** [this.word.text += text] *)
Definition add_text (text : str) (st : scanner) : scanner :=
  set_word (mkWord (isStarted (word st)) (wordQuoted (word st)) (wordText (word st) ++ text)
              (wordSubstitutions (word st))) st.
(** [this.word.substitutions.push(...scripts)] *)
Definition add_scripts (scripts : list str) (st : scanner) : scanner :=
  set_word (mkWord (isStarted (word st)) (wordQuoted (word st)) (wordText (word st))
              (wordSubstitutions (word st) ++ scripts)) st.
Definition append (text : str) (st : scanner) : scanner := add_text text (startWord st).
Definition markQuoted (st : scanner) : scanner :=
  set_word (mkWord true true (wordText (word st)) (wordSubstitutions (word st))) st.
Definition addSubstitution (raw script : str) (st : scanner) : scanner :=
  add_scripts [script] (append raw st).

Definition registerHeredocDelimiter (text : str) (quoted : bool) (st : scanner) : scanner :=
  match heredocAwaitingDelimiter st with
  | None => st
  | Some (token, strips) =>
      mkScanner (position st) (isPartial st) (tokens st)
        (pendingHeredocs st ++ [mkPendingHeredoc token text (negb quoted) strips])
        None (word st)
  end.

Definition endWord (st : scanner) : scanner :=
  if isStarted (word st) then
    let text := wordText (word st) in
    let quoted := wordQuoted (word st) in
    set_word emptyWord
      (registerHeredocDelimiter text quoted
         (push_token (Word text quoted (wordSubstitutions (word st))) st))
  else st.

Definition takeFileDescriptorPrefix (st : scanner) : option N * scanner :=
  let w := word st in
  if isStarted w && negb (wordQuoted w) && bool_decide (wordSubstitutions w = []) && isDigits (wordText w)
  then (Some (Number_of (wordText w)), set_word emptyWord st)
  else (None, st).

(** [token.heredoc = body] on the token object kept at index [i]. *)
Definition set_heredoc (i : nat) (h : HeredocBody) (ts : list ShellToken) : list ShellToken :=
  match ts !! i with
  | Some (Redirect op fd _) => <[i := Redirect op fd (Some h)]> ts
  | _ => ts
  end.

Section Scan.
Variable source : str.

Definition redirectOperatorAt (p : nat) : option (str * RedirectOperator * bool) :=
  find (λ '(text, _, _), startsWithAt source text p) REDIRECT_OPERATORS_LONGEST_FIRST.

Definition isProcessSubstitutionAt (p : nat) : bool :=
  (bool_decide (source !! p = Some (chr "<")) || bool_decide (source !! p = Some (chr ">")))
  && bool_decide (source !! (p + 1) = Some (chr "(")).

Definition skipBlank (st : scanner) : scanner := advance 1 (endWord st).

Definition skipComment (st : scanner) : scanner :=
  set_position (default (length source) (indexOf source LF (position st))) st.

(** One line of a heredoc body: position, lines read so far, terminated. *)
Definition heredoc_step (pending : PendingHeredoc) (s : nat * list str * bool)
  : nat * list str * bool + nat * list str * bool :=
  let '(p, lines, isTerminated) := s in
  if bool_decide (p < length source) && negb isTerminated then
    let lineEnd := indexOf source LF p in
    let end_ := default (length source) lineEnd in
    let line := slice source p end_ in
    let p' := match lineEnd with None => length source | Some e => e + 1 end in
    let comparable := if stripsTabs pending then drop_while (N.eqb TAB) line else line in
    let terminated := str_eqb comparable (delimiter pending) in
    inl (p', if terminated then lines else lines ++ [line], terminated)
  else inr s.

Definition readHeredocBody (st : scanner) (pending : PendingHeredoc) : scanner :=
  let '(p, lines, isTerminated) :=
    run_loop (heredoc_step pending) (length source + 2) (position st, [], false) (position st, [], false) in
  let body := mkHeredocBody (join [LF] lines) (heredocExpands pending) in
  mkScanner p (isPartial st || negb isTerminated) (set_heredoc (heredocToken pending) body (tokens st))
    (pendingHeredocs st) (heredocAwaitingDelimiter st) (word st).

Definition readPendingHeredocBodies (st : scanner) : scanner :=
  let spliced := mkScanner (position st) (isPartial st) (tokens st) []
                   (heredocAwaitingDelimiter st) (word st) in
  fold_left readHeredocBody (pendingHeredocs st) spliced.

Definition scanNewline (st : scanner) : scanner :=
  readPendingHeredocBodies (advance 1 (push_token (Operator OpNewline) (endWord st))).

Definition scanControl (single : ControlOperator) (st : scanner) : scanner :=
  let st := endWord st in
  let doubled := slice source (position st) (position st + 2) in
  if str_eqb doubled (js "&&") then advance 2 (push_token (Operator OpAnd) st)
  else if str_eqb doubled (js "||") then advance 2 (push_token (Operator OpOr) st)
  else if str_eqb doubled (js "|&") then advance 2 (push_token (Operator OpPipeBoth) st)
  else advance 1 (push_token (Operator single) st).

Definition scanRedirect (matched : str * RedirectOperator * bool) (st : scanner) : scanner :=
  let '(text, operator, strips) := matched in
  let '(fd, st) :=
    if startsWith text [chr "&"] then (None, st) else takeFileDescriptorPrefix st in
  let st := match fd with None => endWord st | Some _ => st end in
  let token := length (tokens st) in
  let st := advance (length text) (push_token (Redirect operator fd None) st) in
  if bool_decide (operator = RHeredoc) then set_awaiting (Some (token, strips)) st else st.

Definition readSingleQuoted (st : scanner) : scanner :=
  let st := markQuoted st in
  let closing := indexOf source (chr "'") (position st + 1) in
  let end_ := default (length source) closing in
  set_position (end_ + 1)
    (add_text (slice source (position st + 1) end_) (or_partial (bool_decide (closing = None)) st)).

Definition readDoubleQuotedEscape (st : scanner) : scanner :=
  match source !! (position st + 1) with
  | Some escaped =>
      if mem_chr escaped DOUBLE_QUOTE_ESCAPABLE then advance 2 (add_text [escaped] st)
      else if N.eqb escaped LF then advance 2 st
      else advance 1 (add_text [BACKSLASH] st)
  | None => advance 1 (add_text [BACKSLASH] st)
  end.

Definition readEscape (st : scanner) : scanner :=
  let escaped := source !! (position st + 1) in
  let st := advance 2 st in
  if bool_decide (escaped = Some LF) then st
  else add_text [default BACKSLASH escaped] (markQuoted st).

Definition readBackticks (st : scanner) : scanner :=
  let closing := findClosingBacktick source (position st) in
  let end_ := default (length source) closing in
  set_position (end_ + 1)
    (addSubstitution (slice source (position st) (end_ + 1))
       (unescapeBackticks (slice source (position st + 1) end_))
       (or_partial (bool_decide (closing = None)) st)).

Definition readDollarParenthesis (st : scanner) : scanner :=
  let closing := findClosingIndex source (position st + 2) FParen in
  let end_ := default (length source) closing in
  let inner := slice source (position st + 2) end_ in
  let raw := slice source (position st) (end_ + 1) in
  let st' := or_partial (bool_decide (closing = None)) st in
  set_position (end_ + 1)
    (if isArithmetic inner then append raw st' else addSubstitution raw inner st').

Definition readParameterExpansion (st : scanner) : scanner :=
  let closing := findClosingIndex source (position st + 2) FBrace in
  let end_ := default (length source) closing in
  let nested := substitutionScriptsOf (slice source (position st + 2) end_) in
  set_position (end_ + 1)
    (add_scripts (scripts_of nested)
       (append (slice source (position st) (end_ + 1))
          (or_partial (bool_decide (closing = None)) st))).

Definition readProcessSubstitution (st : scanner) : scanner :=
  let closing := findClosingIndex source (position st + 2) FParen in
  let end_ := default (length source) closing in
  set_position (end_ + 1)
    (addSubstitution (slice source (position st) (end_ + 1)) (slice source (position st + 2) end_)
       (or_partial (bool_decide (closing = None)) st)).

Definition ansi_step (st : scanner) : scanner + scanner :=
  match source !! position st with
  | None => inr (or_partial true st)
  | Some character =>
      if N.eqb character (chr "'") then inr (advance 1 st)
      else if N.eqb character BACKSLASH then
        let '(text, consumed) := decodeAnsiEscape source (position st) in
        inl (advance consumed (add_text text st))
      else inl (advance 1 (add_text [character] st))
  end.
Definition readAnsiCQuoted (st : scanner) : scanner :=
  let st := advance 2 (markQuoted st) in
  run_loop ansi_step (S (length source)) st st.

Definition readDollar (insideDoubleQuotes : bool) (st : scanner) : scanner :=
  let next := source !! (position st + 1) in
  if bool_decide (next = Some (chr "(")) then readDollarParenthesis st
  else if bool_decide (next = Some (chr "{")) then readParameterExpansion st
  else if bool_decide (next = Some (chr "'")) && negb insideDoubleQuotes then readAnsiCQuoted st
  else if bool_decide (next = Some DQUOTE) && negb insideDoubleQuotes then advance 1 st
  else advance 1 (append [chr "$"] st).

Definition double_quoted_step (st : scanner) : scanner + scanner :=
  match source !! position st with
  | None => inr (or_partial true st)
  | Some character =>
      if N.eqb character DQUOTE then inr (advance 1 st)
      else if N.eqb character BACKSLASH then inl (readDoubleQuotedEscape st)
      else if N.eqb character (chr "`") then inl (readBackticks st)
      else if N.eqb character (chr "$") then inl (readDollar true st)
      else inl (advance 1 (add_text [character] st))
  end.
Definition readDoubleQuoted (st : scanner) : scanner :=
  let st := advance 1 (markQuoted st) in
  run_loop double_quoted_step (S (length source)) st st.

Definition scanWordPart (character : N) (st : scanner) : scanner :=
  if N.eqb character (chr "'") then readSingleQuoted st
  else if N.eqb character DQUOTE then readDoubleQuoted st
  else if N.eqb character BACKSLASH then readEscape st
  else if N.eqb character (chr "`") then readBackticks st
  else if N.eqb character (chr "$") then readDollar false st
  else if isProcessSubstitutionAt (position st) then readProcessSubstitution st
  else advance 1 (append [character] st).

Definition scanNext (character : N) (st : scanner) : scanner :=
  let isCommentStart := N.eqb character (chr "#") && negb (isStarted (word st)) in
  if mem_chr character BLANK_CHARACTERS then skipBlank st
  else if N.eqb character LF then scanNewline st
  else if isCommentStart then skipComment st
  else
    match redirectOperatorAt (position st), isProcessSubstitutionAt (position st) with
    | Some matched, false => scanRedirect matched st
    | _, _ =>
        match assoc_unit character CONTROL_CHARACTERS with
        | Some single => scanControl single st
        | None => scanWordPart character st
        end
    end.

Definition scan_step (st : scanner) : scanner + scanner :=
  match source !! position st with
  | None => inr st
  | Some character => inl (scanNext character st)
  end.

Definition scan_loop (fuel : nat) (st : scanner) : scanner := run_loop scan_step fuel st st.

Definition scan_result (st : scanner) : ScanResult :=
  let st := endWord st in
  let hasUnreadHeredoc :=
    negb (bool_decide (pendingHeredocs st = [])) || negb (bool_decide (heredocAwaitingDelimiter st = None)) in
  mkScanResult (tokens st) (isPartial st || hasUnreadHeredoc).

(** [new ShellScanner(source).scan()] *)
Definition scanShell : ScanResult := scan_result (scan_loop (S (length source)) initial_scanner).
End Scan.
