(* ===== verification/ShellScannerFacts.v ===== *)
(** * Facts about the shell scanner

    Termination of the single pass, bounds of the delimiter searches, and the
    round trip through shell quoting. *)
From S2P Require Import Prelude JsText ShellScanner.

(** ** Delimiter searches stay inside the text *)
Lemma backtick_step_progress source index index' :
  backtick_step source index = inl index' → index < index' ∧ index < length source.
Proof.
  unfold backtick_step. destruct (source !! index) as [c|] eqn:Hc; [|done].
  apply lookup_lt_Some in Hc. intros H. repeat case_match; simplify_eq; lia.
Qed.

Lemma findClosingBacktick_bounds source openIndex closing :
  findClosingBacktick source openIndex = Some closing →
  openIndex < closing < length source ∧ source !! closing = Some (chr "`").
Proof.
  unfold findClosingBacktick.
  assert (Q : (λ r, ∀ j, r = Some j → openIndex < j < length source ∧ source !! j = Some (chr "`"))
    (run_loop (backtick_step source) (S (length source)) (openIndex + 1) None)); [|auto].
  apply (run_loop_spec _ (λ i, openIndex < i) (λ i, length source - i)).
  - intros s s' HI Hs. apply backtick_step_progress in Hs. lia.
  - intros s r HI Hr j ->. unfold backtick_step in Hr.
    destruct (source !! s) as [c|] eqn:Hc; [|done].
    destruct (N.eqb c BACKSLASH) eqn:?; [done|].
    destruct (N.eqb_spec c (chr "`")) as [->|]; simplify_eq.
    split; [|done]. split; [lia|]. by eapply lookup_lt_Some.
  - lia.
  - lia.
Qed.

Lemma closing_step_progress source index frames index' frames' :
  closing_step source (index, frames) = inl (index', frames') →
  index < index' ∧ index < length source.
Proof.
  unfold closing_step. destruct (source !! index) as [c|] eqn:Hc; [|done].
  apply lookup_lt_Some in Hc. intros H.
  repeat case_match; simplify_eq;
    repeat match goal with
    | E : findClosingBacktick _ _ = Some _ |- _ => apply findClosingBacktick_bounds in E
    | E : indexOf _ _ _ = Some _ |- _ => apply indexOf_Some in E
    end; lia.
Qed.

Lemma closing_step_found source index frames closing :
  closing_step source (index, frames) = inr (Some closing) →
  closing = index ∧ index < length source.
Proof.
  unfold closing_step. destruct (source !! index) as [c|] eqn:Hc; [|done].
  apply lookup_lt_Some in Hc. intros H. repeat case_match; simplify_eq; lia.
Qed.

Lemma findClosingIndex_bounds source from opener closing :
  findClosingIndex source from opener = Some closing → from ≤ closing < length source.
Proof.
  unfold findClosingIndex.
  assert (Q : (λ r, ∀ j, r = Some j → from ≤ j < length source)
    (run_loop (closing_step source) (S (length source)) (from, [opener]) None)); [|auto].
  apply (run_loop_spec _ (λ s, from ≤ s.1) (λ s, length source - s.1)).
  - intros [i fs] [i' fs'] HI Hs. apply closing_step_progress in Hs. simpl in *. lia.
  - intros [i fs] r HI Hr j ->. apply closing_step_found in Hr. simpl in *. lia.
  - simpl. lia.
  - simpl. lia.
Qed.

(** ** Every method of the scanner moves forward *)
Section Progress.
Variable source : str.

Lemma endWord_position st : position (endWord st) = position st.
Proof.
  unfold endWord, registerHeredocDelimiter. case_match; [|done]. simpl.
  by destruct (heredocAwaitingDelimiter st) as [[]|].
Qed.

Lemma readHeredocBody_position st pending :
  position st ≤ position (readHeredocBody source st pending).
Proof.
  unfold readHeredocBody.
  assert (Q : (λ r : nat * list str * bool, position st ≤ r.1.1)
    (run_loop (heredoc_step source pending) (length source + 2) (position st, [], false)
       (position st, [], false))).
  { apply (run_loop_spec _ (λ s : nat * list str * bool, position st ≤ s.1.1)
      (λ s : nat * list str * bool, if s.2 then 0 else S (length source - s.1.1))).
    - intros [[p ls] t] [[p' ls'] t'] HI Hs. unfold heredoc_step in Hs.
      destruct (bool_decide_reflect (p < length source)) as [Hp|]; [|done].
      destruct t; [done|]. simpl in Hs. simplify_eq. simpl in *.
      destruct (indexOf source LF p) as [e|] eqn:He; [apply indexOf_Some in He|];
        split; try lia; destruct (str_eqb _ _); lia.
    - intros [[p ls] t] r HI Hr. unfold heredoc_step in Hr. case_match; by simplify_eq.
    - done.
    - simpl. lia. }
  destruct (run_loop _ _ _ _) as [[p ls] t]. exact Q.
Qed.

Lemma readPendingHeredocBodies_position st :
  position st ≤ position (readPendingHeredocBodies source st).
Proof.
  unfold readPendingHeredocBodies.
  match goal with |- _ ≤ position (fold_left _ _ ?s) => set (st0 := s) end.
  change (position st) with (position st0). generalize st0. clear st0.
  induction (pendingHeredocs st) as [|p ps IH]; intros st0; simpl; [done|].
  etrans; [|apply IH]. apply readHeredocBody_position.
Qed.

Lemma scanNewline_progress st : position st < position (scanNewline source st).
Proof.
  unfold scanNewline. eapply Nat.lt_le_trans; [|apply readPendingHeredocBodies_position].
  simpl. rewrite endWord_position. lia.
Qed.

Lemma scanControl_progress single st : position st < position (scanControl source single st).
Proof.
  unfold scanControl. repeat case_match; simpl; rewrite endWord_position; lia.
Qed.

Lemma redirectOperatorAt_nonempty p text op strips :
  redirectOperatorAt source p = Some (text, op, strips) → 0 < length text.
Proof.
  unfold redirectOperatorAt. intros [Hin _]%find_some.
  repeat (destruct Hin as [[= <- _ _]|Hin]; [simpl; lia|]). done.
Qed.

Lemma scanRedirect_progress p matched st :
  redirectOperatorAt source p = Some matched →
  position st < position (scanRedirect matched st).
Proof.
  destruct matched as [[text op] strips]. intros Hlen%redirectOperatorAt_nonempty.
  unfold scanRedirect, takeFileDescriptorPrefix.
  repeat case_match; simplify_eq; simpl; rewrite ?endWord_position; simpl; lia.
Qed.

Lemma readSingleQuoted_progress st c :
  source !! position st = Some c → position st < position (readSingleQuoted source st).
Proof.
  intros Hc%lookup_lt_Some. unfold readSingleQuoted. simpl.
  destruct (indexOf _ _ _) as [e|] eqn:He; simpl; [apply indexOf_Some in He|]; lia.
Qed.

Lemma readBackticks_progress st c :
  source !! position st = Some c → position st < position (readBackticks source st).
Proof.
  intros Hc%lookup_lt_Some. unfold readBackticks. simpl.
  destruct (findClosingBacktick _ _) as [e|] eqn:He; simpl; [apply findClosingBacktick_bounds in He|]; lia.
Qed.

(** The three readers of a two-character opener share their end position. *)
Lemma closing_end_progress p opener c :
  source !! p = Some c →
  p < default (length source) (findClosingIndex source (p + 2) opener) + 1.
Proof.
  intros Hc%lookup_lt_Some.
  destruct (findClosingIndex _ _ _) as [e|] eqn:He; simpl; [apply findClosingIndex_bounds in He|]; lia.
Qed.

Lemma decodeAnsiEscape_consumes p : 0 < (decodeAnsiEscape source p).2.
Proof. unfold decodeAnsiEscape. repeat case_match; simpl; lia. Qed.

(** An inner loop that starts at or after a position ends there or later. *)
Lemma inner_loop_monotone (step : scanner → scanner + scanner) st :
  (∀ s s', step s = inl s' → position s < position s' ∧ position s < length source) →
  (∀ s r, step s = inr r → position s ≤ position r) →
  position st ≤ position (run_loop step (S (length source)) st st).
Proof.
  intros Hgo Hexit.
  apply (run_loop_spec step (λ s, position st ≤ position s) (λ s, length source - position s)
           (λ r, position st ≤ position r)).
  - intros s s' HI Hs. apply Hgo in Hs. lia.
  - intros s r HI Hr. apply Hexit in Hr. lia.
  - done.
  - lia.
Qed.

Lemma ansi_step_progress s s' :
  ansi_step source s = inl s' → position s < position s' ∧ position s < length source.
Proof.
  unfold ansi_step. destruct (source !! position s) as [c|] eqn:Hc; [|done].
  apply lookup_lt_Some in Hc. pose proof (decodeAnsiEscape_consumes (position s)) as Hd.
  destruct (decodeAnsiEscape _ _) as [t n]. simpl in Hd.
  intros H. repeat case_match; simplify_eq; simpl; lia.
Qed.

Lemma readAnsiCQuoted_progress st : position st < position (readAnsiCQuoted source st).
Proof.
  unfold readAnsiCQuoted. eapply Nat.lt_le_trans; [|apply inner_loop_monotone].
  - simpl. lia.
  - apply ansi_step_progress.
  - unfold ansi_step. intros s r H. repeat case_match; simplify_eq; simpl; lia.
Qed.

Lemma readDollar_progress inside st c :
  source !! position st = Some c → position st < position (readDollar source inside st).
Proof.
  intros Hc. unfold readDollar.
  destruct (bool_decide _); [by eapply closing_end_progress|].
  destruct (bool_decide _); [by eapply closing_end_progress|].
  destruct (_ && _); [apply readAnsiCQuoted_progress|].
  destruct (_ && _); simpl; lia.
Qed.

Lemma readDoubleQuotedEscape_progress st :
  position st < position (readDoubleQuotedEscape source st).
Proof. unfold readDoubleQuotedEscape. repeat case_match; simpl; lia. Qed.

Lemma double_quoted_step_progress s s' :
  double_quoted_step source s = inl s' → position s < position s' ∧ position s < length source.
Proof.
  unfold double_quoted_step. destruct (source !! position s) as [c|] eqn:Hc; [|done].
  pose proof (lookup_lt_Some _ _ _ Hc).
  intros Hs. repeat case_match; simplify_eq; split; try lia.
  - apply readDoubleQuotedEscape_progress.
  - by eapply readBackticks_progress.
  - by eapply readDollar_progress.
  - simpl. lia.
Qed.

Lemma readDoubleQuoted_progress st : position st < position (readDoubleQuoted source st).
Proof.
  unfold readDoubleQuoted. eapply Nat.lt_le_trans; [|apply inner_loop_monotone].
  - simpl. lia.
  - apply double_quoted_step_progress.
  - unfold double_quoted_step. intros s r H. repeat case_match; simplify_eq; simpl; lia.
Qed.

Lemma scanWordPart_progress st c :
  source !! position st = Some c → position st < position (scanWordPart source c st).
Proof.
  intros Hc. unfold scanWordPart.
  destruct (N.eqb c (chr "'")); [by eapply readSingleQuoted_progress|].
  destruct (N.eqb c DQUOTE); [apply readDoubleQuoted_progress|].
  destruct (N.eqb c BACKSLASH).
  { unfold readEscape. case_match; simpl; lia. }
  destruct (N.eqb c (chr "`")); [by eapply readBackticks_progress|].
  destruct (N.eqb c (chr "$")); [by eapply readDollar_progress|].
  destruct (isProcessSubstitutionAt _ _); [by eapply closing_end_progress|].
  simpl. lia.
Qed.

Lemma scanNext_progress st c :
  source !! position st = Some c → position st < position (scanNext source c st).
Proof.
  intros Hc. unfold scanNext.
  destruct (mem_chr c BLANK_CHARACTERS).
  { unfold skipBlank. simpl. rewrite endWord_position. lia. }
  destruct (N.eqb_spec c LF) as [->|Hlf]; [apply scanNewline_progress|].
  destruct (_ && _) eqn:Hcomment.
  { unfold skipComment. simpl.
    destruct (indexOf source LF (position st)) as [e|] eqn:He; simpl.
    - apply indexOf_Some in He as (Hge & _ & Hat & _).
      destruct (decide (e = position st)) as [->|]; [congruence|lia].
    - by eapply lookup_lt_Some. }
  destruct (redirectOperatorAt source (position st)) as [matched|] eqn:Hr;
    destruct (isProcessSubstitutionAt source (position st)) eqn:Hp.
  2: by eapply scanRedirect_progress.
  all: destruct (assoc_unit c CONTROL_CHARACTERS);
    [apply scanControl_progress|by apply scanWordPart_progress].
Qed.

Lemma scan_step_progress s s' :
  scan_step source s = inl s' → position s < position s' ∧ position s < length source.
Proof.
  unfold scan_step. destruct (source !! position s) as [c|] eqn:Hc; [|done].
  intros [= <-]. split; [by apply scanNext_progress|by eapply lookup_lt_Some].
Qed.

Lemma scan_loop_reads_all fuel st :
  length source < fuel → length source ≤ position (scan_loop source fuel st).
Proof.
  intros Hf. apply (run_loop_spec _ (λ _, True) (λ s, length source - position s)
    (λ r, length source ≤ position r)).
  - intros s s' _ Hs. apply scan_step_progress in Hs. split; [done|lia].
  - intros s r _. unfold scan_step. destruct (source !! position s) eqn:Hc; [done|].
    intros [= <-]. by apply lookup_ge_None.
  - done.
  - lia.
Qed.

Lemma scan_loop_fuel fuel fuel' st :
  length source < fuel → length source < fuel' →
  scan_loop source fuel st = scan_loop source fuel' st.
Proof.
  intros Hf Hf'. apply (run_loop_fuel _ (λ _, True) (λ s, length source - position s)).
  - intros s s' _ Hs. apply scan_step_progress in Hs. split; [done|lia].
  - done.
  - lia.
  - lia.
Qed.
End Progress.

(** ** Symbolic execution *)
Section Execution.
Variable source : str.

(** The scanner run to the end of the text from a state. *)
Definition scan_from (st : scanner) : scanner := scan_loop source (S (length source)) st.

Lemma scan_from_step st c :
  source !! position st = Some c → scan_from st = scan_from (scanNext source c st).
Proof.
  intros Hc. unfold scan_from.
  rewrite (scan_loop_fuel source (S (length source)) (S (S (length source))) st) by lia.
  unfold scan_loop at 1. erewrite run_loop_step; [|unfold scan_step; by rewrite Hc].
  apply (run_loop_fuel _ (λ _, True) (λ s, length source - position s)); try (done || lia).
  intros s s' _ Hs%scan_step_progress. split; [done|lia].
Qed.

Lemma scan_from_end st : length source ≤ position st → scan_from st = st.
Proof.
  intros Hp%lookup_ge_None. unfold scan_from, scan_loop. apply run_loop_exit.
  unfold scan_step. by rewrite Hp.
Qed.

(** The operator read at a position depends on the text that follows only. *)
Lemma redirectOperatorAt_rest p rest :
  drop p source = rest →
  redirectOperatorAt source p = find (λ '(text, _, _), startsWith rest text) REDIRECT_OPERATORS_LONGEST_FIRST.
Proof. unfold redirectOperatorAt, startsWithAt. by intros ->. Qed.

Lemma scanNext_single_quote st rest :
  drop (position st) source = chr "'" :: rest →
  scanNext source (chr "'") st = readSingleQuoted source st.
Proof. intros Hd. unfold scanNext. by rewrite (redirectOperatorAt_rest _ _ Hd). Qed.

Lemma scanNext_backslash st rest :
  drop (position st) source = BACKSLASH :: rest →
  scanNext source BACKSLASH st = readEscape source st.
Proof. intros Hd. unfold scanNext. by rewrite (redirectOperatorAt_rest _ _ Hd). Qed.

Lemma drop_lookup p c rest : drop p source = c :: rest → source !! p = Some c.
Proof. intros Hd. rewrite <- (Nat.add_0_r p), <- lookup_drop, Hd. done. Qed.

Lemma drop_next p s rest : drop p source = s ++ rest → drop (p + length s) source = rest.
Proof. intros Hd. by rewrite <- drop_drop, Hd, drop_app_length. Qed.

Lemma indexOf_rest p c s rest :
  drop p source = s ++ c :: rest → c ∉ s → indexOf source c p = Some (p + length s).
Proof.
  intros Hd Hs. unfold indexOf. rewrite Hd, find_unit_app_skip by done. simpl.
  by rewrite N.eqb_refl.
Qed.

Lemma slice_rest p s rest : drop p source = s ++ rest → slice source p (p + length s) = s.
Proof.
  intros Hd. unfold slice. rewrite Hd. replace (p + length s - p) with (length s) by lia.
  by rewrite take_app_length.
Qed.

Lemma or_partial_false st : or_partial false st = st.
Proof. destruct st. unfold or_partial. simpl. by rewrite orb_false_r. Qed.

(** A single-quoted run is read verbatim, whatever it holds. *)
Lemma scan_single_quoted st s rest :
  drop (position st) source = chr "'" :: s ++ chr "'" :: rest → chr "'" ∉ s →
  scan_from st = scan_from (set_position (position st + length s + 2) (add_text s (markQuoted st))).
Proof.
  intros Hd Hs. rewrite (scan_from_step _ (chr "'")) by by eapply drop_lookup.
  rewrite (scanNext_single_quote _ _ Hd). f_equal. unfold readSingleQuoted.
  change (position (markQuoted st)) with (position st).
  assert (Hd1 : drop (position st + 1) source = s ++ chr "'" :: rest).
  { exact (drop_next _ [chr "'"] _ Hd). }
  rewrite (indexOf_rest _ _ _ _ Hd1 Hs). simpl. rewrite or_partial_false.
  rewrite (slice_rest _ _ _ Hd1). unfold set_position. simpl. f_equal. lia.
Qed.

(** A backslash keeps the next character, unless that is a line break. *)
Lemma scan_escaped st c rest :
  drop (position st) source = BACKSLASH :: c :: rest → c ≠ LF →
  scan_from st = scan_from (set_position (position st + 2) (add_text [c] (markQuoted st))).
Proof.
  intros Hd Hc. rewrite (scan_from_step _ BACKSLASH) by by eapply drop_lookup.
  rewrite (scanNext_backslash _ _ Hd). f_equal. unfold readEscape.
  assert (Hn : source !! (position st + 1) = Some c).
  { eapply drop_lookup. exact (drop_next _ [BACKSLASH] _ Hd). }
  rewrite Hn. rewrite bool_decide_eq_false_2 by congruence. done.
Qed.

Lemma scan_space st rest :
  drop (position st) source = chr " " :: rest →
  scan_from st = scan_from (advance 1 (endWord st)).
Proof. intros Hd. by rewrite (scan_from_step _ (chr " ")) by by eapply drop_lookup. Qed.
End Execution.

(** ** Shell quoting

    [quote_word w] is the usual single-quoted form of an argument: each quote of
    [w] becomes quote, backslash, quote, quote. *)
Definition quote_segments (segments : list str) : str :=
  chr "'" :: join (js "'\''") segments ++ [chr "'"].
Definition quote_word (w : str) : str := quote_segments (split_on (chr "'") w).

(** Two quoted pieces in a row add up to one. *)
Lemma quoted_compose p1 p2 t1 t2 st :
  set_position p2 (add_text t2 (markQuoted (set_position p1 (add_text t1 (markQuoted st))))) =
  set_position p2 (add_text (t1 ++ t2) (markQuoted st)).
Proof.
  destruct st as [? ? ? ? ? [? ? t ?]]. unfold set_position, add_text, markQuoted, set_word.
  simpl. by rewrite app_assoc.
Qed.

Section Quoting.
Variable source : str.

Lemma scan_quoted_segments segments : ∀ st rest,
  segments ≠ [] → Forall (λ w, chr "'" ∉ w) segments →
  drop (position st) source = quote_segments segments ++ rest →
  scan_from source st =
  scan_from source (set_position (position st + length (quote_segments segments))
                      (add_text (join [chr "'"] segments) (markQuoted st))).
Proof.
  induction segments as [|s [|s' segments] IH]; intros st rest Hne Hall Hd; [done| |].
  - inversion_clear Hall. unfold quote_segments in *. simpl in *.
    rewrite <- app_assoc in Hd. erewrite scan_single_quoted by done.
    do 2 f_equal. rewrite length_app. simpl. lia.
  - inversion_clear Hall as [|?? Hs Hrest].
    assert (Hshape : quote_segments (s :: s' :: segments) ++ rest =
      chr "'" :: s ++ chr "'" :: BACKSLASH :: chr "'" :: quote_segments (s' :: segments) ++ rest).
    { unfold quote_segments. change (join (js "'\''") (s :: s' :: segments))
        with (s ++ js "'\''" ++ join (js "'\''") (s' :: segments)).
      generalize (join (js "'\''") (s' :: segments)). intros J.
      simpl. rewrite <- ?app_assoc. simpl. by rewrite <- ?app_assoc. }
    assert (Hlen : length (quote_segments (s :: s' :: segments)) =
      length s + 4 + length (quote_segments (s' :: segments))).
    { apply (f_equal length) in Hshape. revert Hshape.
      rewrite length_app. cbn [length]. rewrite length_app. cbn [length]. rewrite length_app. lia. }
    rewrite Hshape in Hd. rewrite (scan_single_quoted _ _ _ _ Hd Hs).
    set (st1 := set_position _ _).
    assert (Hd1 : drop (position st1) source =
      BACKSLASH :: chr "'" :: quote_segments (s' :: segments) ++ rest).
    { unfold st1, set_position. cbn [position].
      replace (position st + length s + 2) with (position st + length (chr "'" :: s ++ [chr "'"]))
        by (cbn [length]; rewrite length_app; simpl; lia).
      apply drop_next. rewrite Hd. cbn [app]. f_equal. by rewrite <- app_assoc. }
    rewrite (scan_escaped _ _ _ _ Hd1) by done. set (st2 := set_position _ _).
    assert (Hd2 : drop (position st2) source = quote_segments (s' :: segments) ++ rest).
    { exact (drop_next source _ [BACKSLASH; chr "'"] _ Hd1). }
    rewrite (IH st2 rest) by done. f_equal.
    change (join [chr "'"] (s :: s' :: segments)) with (s ++ [chr "'"] ++ join [chr "'"] (s' :: segments)).
    unfold st2, st1. rewrite !quoted_compose. f_equal.
    cbn [position set_position]. rewrite Hlen. lia.
Qed.

Lemma scan_quoted_word st w rest :
  drop (position st) source = quote_word w ++ rest →
  scan_from source st =
  scan_from source (set_position (position st + length (quote_word w)) (add_text w (markQuoted st))).
Proof.
  intros Hd. unfold quote_word in *.
  rewrite (scan_quoted_segments _ _ _ (proj2 (split_on_lines _ _)) (proj1 (split_on_lines _ _)) Hd).
  by rewrite join_split_on.
Qed.

(** The scanner between two words. *)
Definition idle_at (p : nat) (ts : list ShellToken) : scanner := mkScanner p false ts [] None emptyWord.
Definition quoted_token (w : str) : ShellToken := Word w true [].

Lemma scan_quoted_words ws : ∀ p ts,
  drop p source = join [chr " "] (quote_word <$> ws) → p ≤ length source →
  scan_result (scan_from source (idle_at p ts)) = mkScanResult (ts ++ (quoted_token <$> ws)) false.
Proof.
  induction ws as [|w [|w' ws] IH]; intros p ts Hd Hp.
  - rewrite scan_from_end.
    + unfold scan_result. simpl. by rewrite app_nil_r.
    + apply (f_equal length) in Hd. rewrite length_drop in Hd. simpl in *. lia.
  - change (join [chr " "] (quote_word <$> [w])) with (quote_word w) in Hd.
    rewrite (scan_quoted_word (idle_at p ts) w []) by by rewrite app_nil_r.
    rewrite scan_from_end.
    + done.
    + apply (f_equal length) in Hd. rewrite length_drop in Hd. unfold set_position. cbn [position]. 
      change (position (idle_at p ts)) with p. lia.
  - change (join [chr " "] (quote_word <$> w :: w' :: ws))
      with (quote_word w ++ [chr " "] ++ join [chr " "] (quote_word <$> w' :: ws)) in Hd.
    rewrite (scan_quoted_word (idle_at p ts) w _ Hd). set (st1 := set_position _ _).
    assert (Hd1 : drop (position st1) source = [chr " "] ++ join [chr " "] (quote_word <$> w' :: ws)).
    { exact (drop_next source _ _ _ Hd). }
    rewrite (scan_space source st1 _ Hd1).
    change (advance 1 (endWord st1)) with (idle_at (p + length (quote_word w) + 1) (ts ++ [quoted_token w])).
    rewrite IH.
    + by rewrite <- app_assoc.
    + exact (drop_next source _ [chr " "] _ Hd1).
    + apply (f_equal length) in Hd. rewrite length_drop, length_app, length_app in Hd.
      cbn [length] in Hd. lia.
Qed.
End Quoting.

Lemma scanShell_quoted_words ws :
  scanShell (join [chr " "] (quote_word <$> ws)) = mkScanResult (quoted_token <$> ws) false.
Proof. apply (scan_quoted_words _ ws 0 []); [done|lia]. Qed.

(** The scanner terminates on every text: its single pass reads to the end of
    the source, and more turns of the loop would not change the result. *)
Theorem scanShell_terminates source extra :
  length source ≤ position (scan_loop source (S (length source)) initial_scanner) ∧
  scan_result (scan_loop source (S (length source) + extra) initial_scanner) = scanShell source.
Proof.
  split; [apply scan_loop_reads_all; lia|]. unfold scanShell. f_equal. apply scan_loop_fuel; lia.
Qed.

(** C26. Round trip through shell quoting: scanning the single-quoted forms of any
    words (operators, substitutions, quotes and line breaks included), separated
    by spaces, gives back exactly those words, with no substitution to run, no
    operator, and never a partial reading. *)
Theorem scanShell_quoting_roundtrip ws :
  scanShell (join [chr " "] (quote_word <$> ws)) = mkScanResult (quoted_token <$> ws) false.
Proof. apply scanShell_quoted_words. Qed.
