(* ===== verification/CommandAnalyzer.v ===== *)
(** * The command analyzer

    Model of [packages/core/src/policy/commandAnalyzer.ts]: the tokens of a shell
    text become the simple commands it runs, looking through substitutions,
    heredocs, [sh -c], [eval], [find -exec] and transparent wrappers.  The class
    [AnalysisRun] is the record [AnalysisRun]; its methods take and return it. *)
From S2P Require Import Prelude JsText ShellScanner.

Definition MAX_COMMAND_CHARS : N := 64 * 1024.
Definition MAX_NESTING_DEPTH : nat := 5.
Definition MAX_COMMANDS : N := 2000.

Inductive CommandOrigin :=
  | Otop | Oinline_shell | Osubstitution | Osubshell | Oeval | Oheredoc_script.
Inductive AnalysisStatus := Complete | Partial | LimitExceeded.

#[export] Instance CommandOrigin_eq_dec : EqDecision CommandOrigin.
Proof. solve_decision. Defined.
#[export] Instance AnalysisStatus_eq_dec : EqDecision AnalysisStatus.
Proof. solve_decision. Defined.

Record CommandRedirect := mkRedirect
  { redirectOperator : RedirectOperator; redirectFd : option N; target : str; heredocBody : option str }.

Record SimpleCommand := mkCommand
  { program : str;
    invokedAs : str;
    args : list str;
    assignments : list str;
    wrappers : list str;
    wrapperOptions : list str;
    redirects : list CommandRedirect;
    fedByPipe : bool;
    origin : CommandOrigin;
    depth : nat;
    textHasBareAssignment : bool }.

Record CommandAnalysis := mkAnalysis { analysis_status : AnalysisStatus; analysis_commands : list SimpleCommand }.

Record Placement := mkPlacement { placeOrigin : CommandOrigin; placeDepth : nat }.
Record PlainWord := mkPlainWord { plainText : str; plainQuoted : bool }.
Record PendingCommand := mkPending
  { words : list PlainWord;
    pendingRedirects : list CommandRedirect;
    pendingSubstitutions : list str;
    pendingBodies : list HeredocBody }.
(** [redirectAwaitingTarget] holds the heredoc of the token and the index of the
    shared redirect object in [pendingRedirects]. *)
Record ScriptState := mkScriptState
  { pending : PendingCommand;
    redirectAwaitingTarget : option (option HeredocBody * nat);
    subshellDepth : nat;
    pipeFeedsNext : bool }.

Record WrapperSpec := mkWrapperSpec { optionsWithValue : list str; takesAssignments : bool }.
Definition TRANSPARENT_WRAPPERS : list (str * WrapperSpec) :=
  [ (js "env", mkWrapperSpec [js "-u"; js "-C"; js "--unset"; js "--chdir"] true);
    (js "rtk", mkWrapperSpec [] false);
    (js "time", mkWrapperSpec [js "-f"; js "-o"; js "--format"; js "--output"] false);
    (js "command", mkWrapperSpec [] false);
    (js "nice", mkWrapperSpec [js "-n"; js "--adjustment"] false);
    (js "nohup", mkWrapperSpec [] false);
    (js "exec", mkWrapperSpec [js "-a"] false);
    (js "xargs", mkWrapperSpec [js "-n"; js "-I"; js "-L"; js "-P"; js "-s"; js "-E"; js "-d"; js "-a";
                                js "--max-args"; js "--replace"; js "--max-procs"] false) ].
Definition LEADING_KEYWORDS : list str :=
  [js "if"; js "then"; js "elif"; js "else"; js "fi"; js "while"; js "until"; js "do"; js "done"; js "!"; js "{"; js "}"].
Definition SHELL_PROGRAMS : list str := [js "sh"; js "bash"; js "zsh"; js "dash"; js "ksh"].
Definition SHELL_OPTIONS_WITH_VALUE : list str := [js "-o"; js "+o"; js "-O"; js "+O"; js "--rcfile"; js "--init-file"].
Definition FIND_EXEC_OPTIONS : list str := [js "-exec"; js "-execdir"; js "-ok"; js "-okdir"].
Definition FIND_EXEC_TERMINATORS : list str := [js ";"; js "+"].
Definition BARE_REDIRECT_PROGRAM : str := js ":".

Fixpoint assoc_str {A} (s : str) (l : list (str * A)) : option A :=
  match l with
  | [] => None
  | (k, v) :: l' => if str_eqb s k then Some v else assoc_str s l'
  end.

(** [/^[A-Za-z_][A-Za-z0-9_]*=/] *)
Definition isAssignment (text : str) : bool :=
  match text with
  | [] => false
  | c :: rest =>
      (is_alpha c || N.eqb c (chr "_")) &&
      match drop_while (λ d, is_alnum d || N.eqb d (chr "_")) rest with
      | d :: _ => N.eqb d (chr "=")
      | [] => false
      end
  end.
Definition basenameOf (path : str) : str :=
  match lastIndexOf (chr "/") path with
  | Some i => slice_from path (i + 1)
  | None => path
  end.

(** ** Shell invocations *)
Record ShellInvocation := mkInvocation { inlineScript : option str; readsStdin : bool }.

(** Leaves the loop with the index of the first word that is not an option. *)
Definition shell_options_step (arguments : list str) (s : nat * bool * bool)
  : nat * bool * bool + nat * bool * bool :=
  let '(index, hasCommandOption, hasStdinOption) := s in
  match arguments !! index with
  | None => inr s
  | Some arg =>
      if str_eqb arg (js "--") then inr (index + 1, hasCommandOption, hasStdinOption)
      else
        let isOption := (startsWith arg (js "-") || startsWith arg (js "+")) && bool_decide (1 < length arg) in
        if negb isOption then inr s
        else
          let isLongOption := startsWith arg (js "--") in
          inl (index + (if mem_str arg SHELL_OPTIONS_WITH_VALUE then 2 else 1),
               if isLongOption then hasCommandOption else hasCommandOption || includes arg (js "c"),
               if isLongOption then hasStdinOption else hasStdinOption || includes arg (js "s"))
  end.
Definition parseShellInvocation (arguments : list str) : ShellInvocation :=
  let '(index, hasCommandOption, hasStdinOption) :=
    run_loop (shell_options_step arguments) (S (length arguments)) (0, false, false) (0, false, false) in
  if hasCommandOption then mkInvocation (arguments !! index) false
  else mkInvocation None (hasStdinOption || negb (bool_decide (index < length arguments))).

(** ** Keywords and wrappers *)
Fixpoint dropLeadingKeywords (ws : list PlainWord) : list PlainWord :=
  match ws with
  | [] => []
  | w :: rest =>
      if plainQuoted w || negb (mem_str (plainText w) LEADING_KEYWORDS) then ws
      else dropLeadingKeywords rest
  end.

Definition wrapper_option_step (texts : list str) (spec : WrapperSpec) (s : nat * list str * list str)
  : nat * list str * list str + nat * list str * list str :=
  let '(index, assigned, options) := s in
  match texts !! index with
  | None => inr s
  | Some text =>
      let isOption := startsWith text (js "-") && bool_decide (1 < length text) in
      if str_eqb text (js "--") then inr (index + 1, assigned, options)
      else if isOption then
        let width := if mem_str text (optionsWithValue spec) then 2 else 1 in
        inl (index + width, assigned, options ++ take width (drop index texts))
      else if takesAssignments spec && isAssignment text then inl (index + 1, assigned ++ [text], options)
      else inr s
  end.
Definition skipWrapper (texts : list str) (wrapperIndex : nat) (spec : WrapperSpec)
  (assigned options : list str) : nat * list str * list str :=
  let isRtkProxy := bool_decide (texts !! wrapperIndex = Some (js "rtk"))
                    && bool_decide (texts !! (wrapperIndex + 1) = Some (js "proxy")) in
  let start := (wrapperIndex + 1 + (if isRtkProxy then 1 else 0), assigned, options) in
  run_loop (wrapper_option_step texts spec) (S (length texts)) start start.

Record Unwrapped := mkUnwrapped
  { programIndex : nat; unwrappedAssignments : list str; unwrappedWrappers : list str; unwrappedOptions : list str }.

Definition unwrap_step (texts : list str) (s : Unwrapped) : Unwrapped + Unwrapped :=
  match texts !! programIndex s with
  | None => inr s
  | Some text =>
      if isAssignment text then
        inl (mkUnwrapped (programIndex s + 1) (unwrappedAssignments s ++ [text]) (unwrappedWrappers s) (unwrappedOptions s))
      else
        match assoc_str (basenameOf text) TRANSPARENT_WRAPPERS with
        | Some spec =>
            let '(index, assigned, options) :=
              skipWrapper texts (programIndex s) spec (unwrappedAssignments s) (unwrappedOptions s) in
            inl (mkUnwrapped index assigned (unwrappedWrappers s ++ [basenameOf text]) options)
        | None => inr s
        end
  end.
Definition unwrapProgram (texts : list str) : Unwrapped :=
  run_loop (unwrap_step texts) (S (length texts)) (mkUnwrapped 0 [] [] []) (mkUnwrapped 0 [] [] []).

Definition emptyPending : PendingCommand := mkPending [] [] [] [].

(** ** The run *)
Record AnalysisRun := mkRun
  { commands : list SimpleCommand; status : AnalysisStatus; hasBareAssignment : bool; isStopped : bool }.

Definition markPartial (run : AnalysisRun) : AnalysisRun :=
  mkRun (commands run) (match status run with Complete => Partial | s => s end) (hasBareAssignment run) (isStopped run).
Definition markLimitExceeded (run : AnalysisRun) : AnalysisRun :=
  mkRun (commands run) LimitExceeded (hasBareAssignment run) (isStopped run).
Definition stop (run : AnalysisRun) : AnalysisRun :=
  mkRun (commands run) (status run) (hasBareAssignment run) true.
Definition noteBareAssignment (run : AnalysisRun) : AnalysisRun :=
  mkRun (commands run) (status run) true (isStopped run).
Definition push_command (c : SimpleCommand) (run : AnalysisRun) : AnalysisRun :=
  mkRun (commands run ++ [c]) (status run) (hasBareAssignment run) (isStopped run).

Definition is_full (run : AnalysisRun) : bool := (MAX_COMMANDS <=? N.of_nat (length (commands run)))%N.

(** The command [emitCommand] builds from its words; its program is empty when
    the words name none. *)
Definition commandOf (texts : list str) (reds : list CommandRedirect) (fed : bool) (placement : Placement)
  : SimpleCommand :=
  let u := unwrapProgram texts in
  let invoked := default [] (texts !! programIndex u) in
  let namedProgram := basenameOf invoked in
  let prog :=
    if str_eqb namedProgram [] && negb (bool_decide (reds = [])) then BARE_REDIRECT_PROGRAM
    else namedProgram in
  mkCommand prog invoked (drop (programIndex u + 1) texts) (unwrappedAssignments u) (unwrappedWrappers u)
    (unwrappedOptions u) reds fed (placeOrigin placement) (placeDepth placement) false.

Definition noteIfBareAssignment (texts : list str) (run : AnalysisRun) : AnalysisRun :=
  let u := unwrapProgram texts in
  let namesNoProgram := bool_decide (length texts ≤ programIndex u) in
  let isBareAssignment := namesNoProgram && negb (bool_decide (unwrappedAssignments u = []))
                          && bool_decide (unwrappedWrappers u = []) in
  if isBareAssignment then noteBareAssignment run else run.

Section Analysis.
(** The recursive call, tied by [analyzeNested] below. *)
Variable nested : AnalysisRun → str → CommandOrigin → Placement → AnalysisRun.

Definition analyzeStdinScript (command : SimpleCommand) (placement : Placement) (run : AnalysisRun) : AnalysisRun :=
  fold_left (λ run redirect,
    let script :=
      match redirectOperator redirect with
      | RHeredoc => heredocBody redirect
      | RHereString => Some (target redirect)
      | _ => None
      end in
    match script with
    | Some script => nested run script Oheredoc_script placement
    | None => run
    end) (redirects command) run.

Definition analyzeNestedScripts (command : SimpleCommand) (placement : Placement) (run : AnalysisRun) : AnalysisRun :=
  if str_eqb (program command) (js "eval") then nested run (join [chr " "] (args command)) Oeval placement
  else if negb (mem_str (program command) SHELL_PROGRAMS) then run
  else
    let invocation := parseShellInvocation (args command) in
    match inlineScript invocation with
    | Some script => nested run script Oinline_shell placement
    | None => if readsStdin invocation then analyzeStdinScript command placement run else run
    end.

(** One turn of the loop of [analyzeFindExec], given [emitCommand]. *)
Definition find_exec_step (emit : list str → AnalysisRun → AnalysisRun) (arguments : list str)
  (s : nat * AnalysisRun) : nat * AnalysisRun + AnalysisRun :=
  let '(index, run) := s in
  match arguments !! index with
  | None => inr run
  | Some arg =>
      if negb (mem_str arg FIND_EXEC_OPTIONS) then inl (index + 1, run)
      else
        let terminator :=
          fst <$> list_find (λ a, mem_str a FIND_EXEC_TERMINATORS = true) (drop (index + 1) arguments) in
        let end_ := match terminator with Some k => index + 1 + k | None => length arguments end in
        inl (end_ + 1, emit (take (end_ - (index + 1)) (drop (index + 1) arguments)) run)
  end.

(** The rest of [emitCommand] once the command is built: the cap on the number of
    commands, then the scripts the command itself runs. *)
Definition reportCommand (emit : list str → AnalysisRun → AnalysisRun) (command : SimpleCommand)
  (placement : Placement) (run : AnalysisRun) : AnalysisRun :=
  if is_full run then stop (markLimitExceeded run)
  else
    let run := analyzeNestedScripts command placement (push_command command run) in
    if str_eqb (program command) (js "find")
    then run_loop (find_exec_step emit (args command)) (S (length (args command))) (0, run) run
    else run.

(** [emitCommand]; the fuel bounds the nesting of [find -exec find -exec ...],
    each of which is shorter than the one around it. *)
Fixpoint emitCommand (fuel : nat) (texts : list str) (reds : list CommandRedirect) (fed : bool)
  (placement : Placement) (run : AnalysisRun) : AnalysisRun :=
  match fuel with
  | O => run
  | S fuel' =>
      let command := commandOf texts reds fed placement in
      let run := noteIfBareAssignment texts run in
      if str_eqb (program command) [] then run
      else reportCommand (λ texts run, emitCommand fuel' texts [] false placement run) command placement run
  end.

Definition analyzeHeredocExpansions (heredoc : HeredocBody) (context : Placement) (run : AnalysisRun) : AnalysisRun :=
  if negb (expandsSubstitutions heredoc) then run
  else
    let scan := substitutionScriptsOf (body heredoc) in
    let run := if subst_isPartial scan then markPartial run else run in
    fold_left (λ run script, nested run script Osubstitution context) (scripts_of scan) run.

Definition flush (state : ScriptState) (context : Placement) (run : AnalysisRun) : ScriptState * AnalysisRun :=
  let p := pending state in
  let cleared := mkScriptState emptyPending None (subshellDepth state) (pipeFeedsNext state) in
  let run := fold_left (λ run script, nested run script Osubstitution context) (pendingSubstitutions p) run in
  let run := fold_left (λ run heredoc, analyzeHeredocExpansions heredoc context run) (pendingBodies p) run in
  let commandWords := dropLeadingKeywords (words p) in
  let isBareRedirect := bool_decide (commandWords = []) && negb (bool_decide (pendingRedirects p = [])) in
  if bool_decide (commandWords = []) && negb isBareRedirect then (cleared, run)
  else
    let isInSubshell := bool_decide (0 < subshellDepth state) && bool_decide (placeOrigin context = Otop) in
    let placement := mkPlacement (if isInSubshell then Osubshell else placeOrigin context) (placeDepth context) in
    let texts := plainText <$> commandWords in
    let run := emitCommand (S (length texts)) texts (pendingRedirects p) (pipeFeedsNext state) placement run in
    (mkScriptState emptyPending None (subshellDepth state) false, run).

Definition consumeWord (text : str) (quoted : bool) (substitutions : list str) (state : ScriptState) : ScriptState :=
  let p := pending state in
  let subs := pendingSubstitutions p ++ substitutions in
  match redirectAwaitingTarget state with
  | None =>
      mkScriptState (mkPending (words p ++ [mkPlainWord text quoted]) (pendingRedirects p) subs (pendingBodies p))
        None (subshellDepth state) (pipeFeedsNext state)
  | Some (heredoc, i) =>
      let reds := alter (λ r, mkRedirect (redirectOperator r) (redirectFd r) text
                                (match heredoc with Some h => Some (body h) | None => heredocBody r end))
                    i (pendingRedirects p) in
      mkScriptState (mkPending (words p) reds subs (pendingBodies p ++ option_list heredoc))
        None (subshellDepth state) (pipeFeedsNext state)
  end.

Definition consumeRedirect (op : RedirectOperator) (fd : option N) (heredoc : option HeredocBody)
  (state : ScriptState) : ScriptState :=
  let p := pending state in
  mkScriptState
    (mkPending (words p) (pendingRedirects p ++ [mkRedirect op fd [] None]) (pendingSubstitutions p) (pendingBodies p))
    (Some (heredoc, length (pendingRedirects p))) (subshellDepth state) (pipeFeedsNext state).

Definition consumeOperator (op : ControlOperator) (state : ScriptState) (context : Placement) (run : AnalysisRun)
  : ScriptState * AnalysisRun :=
  let '(state, run) := flush state context run in
  let depth :=
    match op with
    | OpOpen => subshellDepth state + 1
    | OpClose => subshellDepth state - 1
    | _ => subshellDepth state
    end in
  let pipe :=
    match op with
    | OpPipe | OpPipeBoth => true
    | OpOpen | OpClose => pipeFeedsNext state
    | _ => false
    end in
  (mkScriptState (pending state) (redirectAwaitingTarget state) depth pipe, run).

Definition consume (token : ShellToken) (state : ScriptState) (context : Placement) (run : AnalysisRun)
  : ScriptState * AnalysisRun :=
  match token with
  | Word text quoted substitutions => (consumeWord text quoted substitutions state, run)
  | Redirect op fd heredoc => (consumeRedirect op fd heredoc state, run)
  | Operator op => consumeOperator op state context run
  end.

(** The loop over the tokens: a stopped run returns without flushing. *)
Fixpoint consume_all (tokens : list ShellToken) (state : ScriptState) (context : Placement) (run : AnalysisRun)
  : AnalysisRun :=
  match tokens with
  | [] => (flush state context run).2
  | token :: rest =>
      if isStopped run then run
      else
        let '(state, run) := consume token state context run in
        consume_all rest state context run
  end.

Definition initial_script : ScriptState := mkScriptState emptyPending None 0 false.

Definition analyzeScript (source : str) (context : Placement) (run : AnalysisRun) : AnalysisRun :=
  let scan := scanShell source in
  let run := if scan_isPartial scan then markPartial run else run in
  consume_all (tokens_of scan) initial_script context run.
End Analysis.

(** [levels] bounds the recursion; the guard on the depth is reached first. *)
Fixpoint analyzeNested (levels : nat) (run : AnalysisRun) (script : str) (o : CommandOrigin) (placement : Placement)
  : AnalysisRun :=
  let depth := placeDepth placement + 1 in
  if bool_decide (MAX_NESTING_DEPTH < depth) then markLimitExceeded run
  else
    match levels with
    | O => run
    | S levels' => analyzeScript (analyzeNested levels') script (mkPlacement o depth) run
    end.

Definition initial_run : AnalysisRun := mkRun [] Complete false false.

Definition set_bare_assignment (c : SimpleCommand) : SimpleCommand :=
  mkCommand (program c) (invokedAs c) (args c) (assignments c) (wrappers c) (wrapperOptions c) (redirects c)
    (fedByPipe c) (origin c) (depth c) true.

Definition analyzeCommand (text : str) : CommandAnalysis :=
  if (MAX_COMMAND_CHARS <? N.of_nat (length text))%N then mkAnalysis LimitExceeded []
  else
    let run := analyzeScript (analyzeNested MAX_NESTING_DEPTH) text (mkPlacement Otop 0) initial_run in
    mkAnalysis (status run)
      (if hasBareAssignment run then set_bare_assignment <$> commands run else commands run).
