(* ===== verification/CommandAnalyzerFacts.v ===== *)
(** * Facts about the command analyzer

    The whole analysis is built from a handful of run transformers.  A predicate
    on transformers that is closed under those building blocks ([RunClosed])
    holds of every analysis; two instances give the bounds of the result and the
    fact that nested scripts are never lost. *)
From S2P Require Import Prelude JsText ShellScanner ShellScannerFacts CommandAnalyzer.

(** ** Wrappers are really removed *)
Lemma skipWrapper_progress texts wrapperIndex spec assigned options :
  wrapperIndex < length texts →
  wrapperIndex < (skipWrapper texts wrapperIndex spec assigned options).1.1.
Proof.
  intros Hlt. unfold skipWrapper.
  apply (run_loop_spec _ (λ s : nat * list str * list str, wrapperIndex < s.1.1)
    (λ s : nat * list str * list str, length texts - s.1.1)
    (λ s : nat * list str * list str, wrapperIndex < s.1.1)).
  - intros [[i a] o] [[i' a'] o'] HI Hs. unfold wrapper_option_step in Hs.
    destruct (texts !! i) as [t|] eqn:Ht; [|done]. apply lookup_lt_Some in Ht.
    simpl in *. repeat case_match; simplify_eq; lia.
  - intros [[i a] o] r HI Hs. unfold wrapper_option_step in Hs.
    simpl in *. repeat case_match; simplify_eq; simpl; lia.
  - simpl. lia.
  - simpl. lia.
Qed.

(** The word [unwrapProgram] stops at is neither an assignment nor a wrapper. *)
Lemma unwrapProgram_stops texts t :
  texts !! programIndex (unwrapProgram texts) = Some t →
  isAssignment t = false ∧ assoc_str (basenameOf t) TRANSPARENT_WRAPPERS = None.
Proof.
  set (Q := λ u, ∀ t, texts !! programIndex u = Some t →
    isAssignment t = false ∧ assoc_str (basenameOf t) TRANSPARENT_WRAPPERS = None).
  assert (HQ : Q (unwrapProgram texts)); [|by apply HQ].
  apply (run_loop_spec (unwrap_step texts) (λ _, True) (λ s, length texts - programIndex s) Q).
  - intros s s' _ Hs. unfold unwrap_step in Hs.
    destruct (texts !! programIndex s) as [x|] eqn:Hx; [|done]. apply lookup_lt_Some in Hx.
    split; [done|]. destruct (isAssignment x); simplify_eq; [simpl; lia|].
    destruct (assoc_str _ _) as [spec|]; [|done].
    pose proof (skipWrapper_progress texts (programIndex s) spec
      (unwrappedAssignments s) (unwrappedOptions s) Hx) as Hp.
    destruct (skipWrapper _ _ _ _ _) as [[i a] o]. simplify_eq. simpl in *. lia.
  - intros s r _ Hs t' Ht'. unfold unwrap_step in Hs.
    destruct (texts !! programIndex s) as [x|] eqn:Hx; simplify_eq; try congruence.
    destruct (isAssignment x) eqn:Ha; [done|].
    destruct (assoc_str _ _) eqn:Hw; [by destruct (skipWrapper _ _ _ _ _) as [[??]?]|].
    simplify_eq. split; congruence.
  - done.
  - simpl. lia.
Qed.

(** ** Closed predicates on run transformers *)
(** What every reported command satisfies. *)
Definition command_ok (c : SimpleCommand) : Prop :=
  depth c ≤ MAX_NESTING_DEPTH ∧ program c ≠ [] ∧ assoc_str (program c) TRANSPARENT_WRAPPERS = None.

Class RunClosed (C : (AnalysisRun → AnalysisRun) → Prop) := {
  rc_ext f g : (∀ r, f r = g r) → C f → C g;
  rc_id : C (λ r, r);
  rc_compose f g : C f → C g → C (λ r, g (f r));
  rc_partial : C markPartial;
  rc_limit : C markLimitExceeded;
  rc_bare : C noteBareAssignment;
  rc_emit c k : command_ok c → C k →
    C (λ r, if is_full r then stop (markLimitExceeded r) else k (push_command c r));
  rc_unless_stopped f : C f → C (λ r, if isStopped r then r else f r)
}.

Create HintDb runs.

Lemma commandOf_ok texts reds fed pl :
  placeDepth pl ≤ MAX_NESTING_DEPTH → program (commandOf texts reds fed pl) ≠ [] →
  command_ok (commandOf texts reds fed pl).
Proof.
  intros Hpl Hprog. split_and!; [done|done|]. simpl in *. destruct (_ && _); [by vm_compute|].
  destruct (texts !! programIndex (unwrapProgram texts)) as [t|] eqn:Ht; [|done].
  by apply unwrapProgram_stops in Ht as [_ ?].
Qed.

Section Closure.
Context (C : (AnalysisRun → AnalysisRun) → Prop) `{HC : RunClosed C}.
#[local] Hint Extern 1 (C _) =>
  first [apply rc_id | apply rc_partial | apply rc_limit | apply rc_bare] : runs.

Lemma rc_fold {A} (f : AnalysisRun → A → AnalysisRun) (l : list A) :
  (∀ a, a ∈ l → C (λ r, f r a)) → C (λ r, fold_left f l r).
Proof.
  induction l as [|a l IH]; intros Hf; simpl; [apply rc_id|].
  apply (rc_compose (λ r, f r a)).
  - apply Hf. set_solver.
  - apply IH. intros b Hb. apply Hf. set_solver.
Qed.

Lemma rc_if (b : bool) f g : C f → C g → C (λ r, if b then f r else g r).
Proof. by destruct b. Qed.

Section Nested.
Variable nested : AnalysisRun → str → CommandOrigin → Placement → AnalysisRun.
Hypothesis nested_closed : ∀ script o pl, placeDepth pl ≤ MAX_NESTING_DEPTH → C (λ r, nested r script o pl).

Lemma analyzeNestedScripts_closed command pl :
  placeDepth pl ≤ MAX_NESTING_DEPTH → C (λ r, analyzeNestedScripts nested command pl r).
Proof.
  intros Hpl. unfold analyzeNestedScripts. repeat apply rc_if; auto with runs.
  destruct (inlineScript _); [by auto|]. apply rc_if; auto with runs.
  unfold analyzeStdinScript. apply rc_fold. intros redirect _.
  destruct (redirectOperator redirect); try apply rc_id; [|by auto].
  destruct (heredocBody redirect); auto with runs.
Qed.

Lemma find_exec_step_progress emit arguments j r j' r' :
  find_exec_step emit arguments (j, r) = inl (j', r') → j < j' ∧ j < length arguments.
Proof.
  unfold find_exec_step. destruct (arguments !! j) eqn:Hj; [|done].
  apply lookup_lt_Some in Hj. intros Hs. repeat case_match; simplify_eq; lia.
Qed.

Lemma find_exec_closed emit arguments g : ∀ fuel i,
  (∀ texts, C (emit texts)) → length arguments - i < fuel →
  C (λ r, run_loop (find_exec_step emit arguments) fuel (i, r) (g r)).
Proof.
  induction fuel as [|fuel IH]; intros i Hemit Hi; [lia|].
  destruct (arguments !! i) as [arg|] eqn:Harg.
  2: { eapply rc_ext; [|apply rc_id]. intros r. symmetry. apply run_loop_exit.
       unfold find_exec_step. by rewrite Harg. }
  pose proof (lookup_lt_Some _ _ _ Harg) as Hlt.
  destruct (mem_str arg FIND_EXEC_OPTIONS) eqn:Hopt.
  - set (fnd := fst <$> list_find (λ a, mem_str a FIND_EXEC_TERMINATORS = true) (drop (i + 1) arguments)).
    set (end_ := match fnd with Some k => i + 1 + k | None => length arguments end).
    set (texts := take (end_ - (i + 1)) (drop (i + 1) arguments)).
    assert (Hend : i < end_ + 1) by (unfold end_; destruct fnd; lia).
    eapply (rc_ext (λ r, run_loop (find_exec_step emit arguments) fuel (end_ + 1, emit texts r) (g r))).
    + intros r. symmetry. apply run_loop_step. unfold find_exec_step. by rewrite Harg, Hopt.
    + assert (Hk : C (λ r, run_loop (find_exec_step emit arguments) fuel (end_ + 1, r) (g r))).
      { apply (IH (end_ + 1)); [done|lia]. }
      eapply rc_ext; [|apply (rc_compose (emit texts) _ (Hemit texts) Hk)].
      intros r. simpl. apply (run_loop_fuel _ (λ _, True) (λ s, length arguments - s.1)); try done; try (simpl; lia).
      intros [j r1] [j' r'] _ Hs%find_exec_step_progress. simpl in *. split; [done|lia].
  - eapply rc_ext; [|apply (IH (i + 1)); [done|lia]].
    intros r. symmetry. apply run_loop_step. unfold find_exec_step. by rewrite Harg, Hopt.
Qed.

Lemma emitCommand_closed fuel : ∀ texts reds fed pl,
  placeDepth pl ≤ MAX_NESTING_DEPTH → C (emitCommand nested fuel texts reds fed pl).
Proof.
  induction fuel as [|fuel IH]; intros texts reds fed pl Hpl; [apply rc_id|].
  cbn [emitCommand]. pose proof (commandOf_ok texts reds fed pl Hpl) as Hok.
  set (command := commandOf texts reds fed pl) in *.
  assert (Hnote : C (noteIfBareAssignment texts)).
  { unfold noteIfBareAssignment. apply rc_if; auto with runs. }
  destruct (str_eqb (program command) []) eqn:Hprog; [done|].
  apply (rc_compose (noteIfBareAssignment texts)); [done|].
  set (emit := λ texts run, emitCommand nested fuel texts [] false pl run).
  set (exec := λ r, if str_eqb (program command) (js "find")
    then run_loop (find_exec_step emit (args command)) (S (length (args command))) (0, r) r else r).
  apply (rc_emit command (λ r, exec (analyzeNestedScripts nested command pl r)));
    [by apply Hok, str_eqb_neq|].
  apply (rc_compose (analyzeNestedScripts nested command pl) exec).
  { by apply analyzeNestedScripts_closed. }
  apply rc_if; [|apply rc_id]. apply (find_exec_closed _ _ (λ r, r)); [|lia].
  intros texts'. by apply IH.
Qed.

Lemma analyzeHeredocExpansions_closed heredoc context :
  placeDepth context ≤ MAX_NESTING_DEPTH → C (analyzeHeredocExpansions nested heredoc context).
Proof.
  intros Hc. unfold analyzeHeredocExpansions. apply rc_if; [apply rc_id|].
  apply (rc_compose (λ run, if (_ : bool) then markPartial run else run)).
  { apply rc_if; auto with runs. }
  apply rc_fold. auto.
Qed.

(** The state a flush leaves does not depend on the run. *)
Definition flushed (state : ScriptState) : ScriptState :=
  let p := pending state in
  let commandWords := dropLeadingKeywords (words p) in
  let isBareRedirect := bool_decide (commandWords = []) && negb (bool_decide (pendingRedirects p = [])) in
  mkScriptState emptyPending None (subshellDepth state)
    (if bool_decide (commandWords = []) && negb isBareRedirect then pipeFeedsNext state else false).

Lemma flush_state state context run : (flush nested state context run).1 = flushed state.
Proof. unfold flush, flushed. by case_match. Qed.

Lemma flush_closed state context :
  placeDepth context ≤ MAX_NESTING_DEPTH → C (λ r, (flush nested state context r).2).
Proof.
  intros Hc. unfold flush.
  set (f1 := λ run, fold_left (λ run script, nested run script Osubstitution context)
                      (pendingSubstitutions (pending state)) run).
  set (f2 := λ run, fold_left (λ run heredoc, analyzeHeredocExpansions nested heredoc context run)
                      (pendingBodies (pending state)) run).
  assert (H12 : C (λ r, f2 (f1 r))).
  { apply rc_compose; apply rc_fold; [by auto|].
    intros h _. by apply analyzeHeredocExpansions_closed. }
  case_match; [done|]. cbn [snd]. apply (rc_compose _ _ H12). by apply emitCommand_closed.
Qed.

(** The state after an operator, and its run. *)
Definition after_operator (op : ControlOperator) (state : ScriptState) : ScriptState :=
  (consumeOperator (λ r _ _ _, r) op state (mkPlacement Otop 0) initial_run).1.

Lemma consumeOperator_state op state context run :
  (consumeOperator nested op state context run).1 = after_operator op state.
Proof.
  unfold after_operator, consumeOperator.
  pose proof (flush_state state context run) as H1.
  assert (H2 : (flush (λ r _ _ _, r) state (mkPlacement Otop 0) initial_run).1 = flushed state).
  { unfold flush, flushed. by case_match. }
  destruct (flush nested state context run) as [s1 r1], (flush _ state _ initial_run) as [s2 r2].
  simpl in *. by subst.
Qed.

Lemma consumeOperator_run op state context run :
  (consumeOperator nested op state context run).2 = (flush nested state context run).2.
Proof. unfold consumeOperator. by destruct (flush nested state context run). Qed.

Definition after_token (token : ShellToken) (state : ScriptState) : ScriptState :=
  match token with
  | Word text quoted substitutions => consumeWord text quoted substitutions state
  | Redirect op fd heredoc => consumeRedirect op fd heredoc state
  | Operator op => after_operator op state
  end.

Lemma consume_state token state context run :
  (consume nested token state context run).1 = after_token token state.
Proof. destruct token; [done| |done]. apply consumeOperator_state. Qed.

Lemma consume_closed token state context :
  placeDepth context ≤ MAX_NESTING_DEPTH → C (λ r, (consume nested token state context r).2).
Proof.
  intros Hc. destruct token; simpl; [apply rc_id| |apply rc_id].
  eapply rc_ext; [|by apply (flush_closed state context)].
  intros r. symmetry. apply consumeOperator_run.
Qed.

Lemma consume_all_closed tokens : ∀ state context,
  placeDepth context ≤ MAX_NESTING_DEPTH → C (consume_all nested tokens state context).
Proof.
  induction tokens as [|token tokens IH]; intros state context Hc; simpl.
  { by apply flush_closed. }
  apply rc_unless_stopped.
  eapply (rc_ext (λ r, consume_all nested tokens (after_token token state) context
                         (consume nested token state context r).2)).
  { intros r. rewrite <- (consume_state token state context r).
    by destruct (consume nested token state context r). }
  apply (rc_compose (λ r, (consume nested token state context r).2)); [by apply consume_closed|by apply IH].
Qed.

Lemma analyzeScript_closed source context :
  placeDepth context ≤ MAX_NESTING_DEPTH → C (analyzeScript nested source context).
Proof.
  intros Hc. unfold analyzeScript.
  apply (rc_compose (λ run, if scan_isPartial (scanShell source) then markPartial run else run)).
  { apply rc_if; auto with runs. }
  by apply consume_all_closed.
Qed.
End Nested.

Lemma analyzeNested_closed levels : ∀ script o pl, C (λ r, analyzeNested levels r script o pl).
Proof.
  induction levels as [|levels IH]; intros script o pl; simpl;
    case_bool_decide as Hd; auto with runs.
  apply analyzeScript_closed; [auto|simpl; lia].
Qed.
End Closure.

(** ** First instance: well-formed runs that only grow *)
Definition status_rank (s : AnalysisStatus) : nat :=
  match s with Complete => 0 | Partial => 1 | LimitExceeded => 2 end.

Record run_ok (r : AnalysisRun) : Prop := {
  ok_count : (N.of_nat (length (commands r)) <= MAX_COMMANDS)%N;
  ok_commands : Forall command_ok (commands r);
  ok_stopped : isStopped r = true → status r = LimitExceeded
}.

Record extends (r r' : AnalysisRun) : Prop := {
  ext_commands : commands r `prefix_of` commands r';
  ext_status : status_rank (status r) ≤ status_rank (status r');
  ext_bare : hasBareAssignment r = true → hasBareAssignment r' = true;
  ext_stopped : isStopped r = true → isStopped r' = true
}.

#[export] Instance extends_preorder : PreOrder extends.
Proof.
  split; [by split|]. intros r1 r2 r3 [] []. split; [by etrans|lia|auto|auto].
Qed.

Definition grows (f : AnalysisRun → AnalysisRun) : Prop := ∀ r, run_ok r → run_ok (f r) ∧ extends r (f r).

#[export] Instance grows_closed : RunClosed grows.
Proof.
  split.
  - intros f g Hfg Hf r Hr. rewrite <- Hfg. auto.
  - intros r Hr. done.
  - intros f g Hf Hg r Hr. destruct (Hf r Hr) as [H1 H2], (Hg (f r) H1) as [H3 H4].
    split; [done|]. by etrans.
  - intros [cs s b st] [H1 H2 H3]. simpl in *. split; [|by split; destruct s; simpl; auto with lia].
    split; try done. simpl. intros Hst. by rewrite (H3 Hst).
  - intros [cs s b st] [H1 H2 H3]. split; split; simpl in *; auto. destruct s; simpl; lia.
  - intros [cs s b st] [H1 H2 H3]. split; split; simpl in *; auto.
  - intros c k Hc Hk r [H1 H2 H3]. unfold is_full. destruct (N.leb_spec MAX_COMMANDS (N.of_nat (length (commands r)))).
    { split; split; simpl; auto. destruct (status r); simpl; lia. }
    destruct (Hk (push_command c r)) as [H4 H5].
    { split; simpl; [rewrite length_app; simpl; lia| |done]. apply Forall_app; auto. }
    split; [done|]. etrans; [|done]. split; simpl; auto. by apply prefix_app_r.
  - intros f Hf r Hr. destruct (isStopped r); auto. by split.
Qed.

(** ** Second instance: an analysis is a fixed contribution to the run

    Whatever the run it starts from, a transformer appends the same commands,
    unless they do not fit under the cap: then the run is stopped. *)
Definition status_join (s s' : AnalysisStatus) : AnalysisStatus :=
  match s, s' with
  | LimitExceeded, _ | _, LimitExceeded => LimitExceeded
  | Partial, _ | _, Partial => Partial
  | Complete, Complete => Complete
  end.
Definition run_app (r d : AnalysisRun) : AnalysisRun :=
  mkRun (commands r ++ commands d) (status_join (status r) (status d))
    (hasBareAssignment r || hasBareAssignment d) false.
Definition fits (r d : AnalysisRun) : Prop :=
  (N.of_nat (length (commands r) + length (commands d)) <= MAX_COMMANDS)%N.
Definition contributes (f : AnalysisRun → AnalysisRun) (d : AnalysisRun) : Prop :=
  ∀ r, isStopped r = false → (N.of_nat (length (commands r)) <= MAX_COMMANDS)%N →
    (fits r d ∧ f r = run_app r d) ∨ (¬ fits r d ∧ isStopped (f r) = true).
Definition uniform (f : AnalysisRun → AnalysisRun) : Prop :=
  (∀ r, isStopped r = true → isStopped (f r) = true) ∧ ∃ d, contributes f d.

Lemma run_app_assoc r d e : run_app (run_app r d) e = run_app r (run_app d e).
Proof.
  unfold run_app. simpl. rewrite app_assoc. f_equal.
  - by destruct (status r), (status d), (status e).
  - by rewrite orb_assoc.
Qed.

Lemma contributes_compose f g d e :
  (∀ r, isStopped r = true → isStopped (g r) = true) →
  contributes f d → contributes g e → contributes (λ r, g (f r)) (run_app d e).
Proof.
  intros Hsticky Hf Hg r Hr Hlen. unfold contributes, fits in *. simpl. rewrite length_app.
  destruct (Hf r Hr Hlen) as [[Hfit ->]|[Hno Hstop]].
  - destruct (Hg (run_app r d)) as [[Hfit' ->]|[Hno' Hstop']]; simpl in *;
      rewrite ?length_app in *; [done|lia| |].
    + left. split; [lia|]. apply run_app_assoc.
    + right. split; [lia|done].
  - right. split; [lia|]. by apply Hsticky.
Qed.

#[export] Instance uniform_closed : RunClosed uniform.
Proof.
  assert (Hnil : ∀ f s b, (∀ r, f r = mkRun (commands r) (status_join (status r) s) (hasBareAssignment r || b) (isStopped r)) →
    uniform f).
  { intros f s b Hf. split; [intros r; by rewrite Hf|]. exists (mkRun [] s b false).
    intros r Hr Hlen. left. unfold fits. simpl. rewrite Nat.add_0_r, Hf, Hr. split; [done|].
    unfold run_app. simpl. by rewrite app_nil_r. }
  split.
  - intros f g Hfg [H1 [d H2]]. split; [intros r; rewrite <- Hfg; auto|].
    exists d. intros r. rewrite <- Hfg. auto.
  - apply (Hnil _ Complete false). intros [? s ? ?]. simpl. rewrite orb_false_r. by destruct s.
  - intros f g [H1 [d Hd]] [H2 [e He]]. split; [auto|]. exists (run_app d e). by apply contributes_compose.
  - apply (Hnil _ Partial false). intros [? s ? ?]. unfold markPartial. simpl. rewrite orb_false_r. by destruct s.
  - apply (Hnil _ LimitExceeded false). intros [? s ? ?]. unfold markLimitExceeded. simpl. rewrite orb_false_r. by destruct s.
  - apply (Hnil _ Complete true). intros [? s ? ?]. unfold noteBareAssignment. simpl. rewrite orb_true_r. by destruct s.
  - intros c k _ [H1 [d Hd]]. split.
    { intros r Hr. destruct (is_full r); [done|]. by apply H1. }
    exists (run_app (mkRun [c] Complete false false) d). intros r Hr Hlen. unfold fits, is_full in *. simpl.
    destruct (N.leb_spec MAX_COMMANDS (N.of_nat (length (commands r)))).
    { right. split; [lia|done]. }
    destruct (Hd (push_command c r)) as [[Hfit ->]|[Hno Hstop]]; unfold fits in *; simpl in *;
      rewrite ?length_app in *; simpl in *; [done|lia| |].
    + left. split; [lia|]. unfold run_app. simpl. rewrite <- app_assoc. f_equal.
      by destruct (status r), (status d).
    + right. split; [lia|done].
  - intros f [H1 [d Hd]]. split; [intros r Hr; by rewrite Hr|]. exists d. intros r Hr Hlen. rewrite Hr. auto.
Qed.

(** ** The run of a whole command *)
Definition top_placement : Placement := mkPlacement Otop 0.
Definition command_run (text : str) : AnalysisRun :=
  analyzeScript (analyzeNested MAX_NESTING_DEPTH) text top_placement initial_run.

Lemma initial_run_ok : run_ok initial_run.
Proof. by split. Qed.

Lemma command_run_ok text : run_ok (command_run text).
Proof.
  apply (analyzeScript_closed grows (analyzeNested MAX_NESTING_DEPTH)); [|simpl; lia|apply initial_run_ok].
  intros. apply (analyzeNested_closed grows).
Qed.

Lemma analyzeCommand_not_limited text :
  analysis_status (analyzeCommand text) ≠ LimitExceeded →
  analysis_status (analyzeCommand text) = status (command_run text) ∧
  isStopped (command_run text) = false ∧
  analysis_commands (analyzeCommand text) =
    (if hasBareAssignment (command_run text) then set_bare_assignment <$> commands (command_run text)
     else commands (command_run text)).
Proof.
  unfold analyzeCommand. destruct (_ <? _)%N; [done|]. fold top_placement. fold (command_run text).
  simpl. intros Hs. split_and!; [done| |done].
  destruct (isStopped (command_run text)) eqn:Hst; [|done].
  by apply (ok_stopped _ (command_run_ok text)) in Hst.
Qed.

(** The analysis of a nested script on its own, at depth one. *)
Definition nested_run (script : str) (o : CommandOrigin) : AnalysisRun :=
  analyzeNested MAX_NESTING_DEPTH initial_run script o top_placement.

Lemma nested_contribution script o :
  ∃ d, contributes (λ r, analyzeNested MAX_NESTING_DEPTH r script o top_placement) d ∧
       (fits initial_run d → nested_run script o = run_app initial_run d).
Proof.
  destruct (analyzeNested_closed uniform MAX_NESTING_DEPTH script o top_placement) as [_ [d Hd]].
  exists d. split; [done|]. intros Hfit.
  destruct (Hd initial_run) as [[_ ?]|[? _]]; done.
Qed.

Lemma nested_appends script o r :
  run_ok r → isStopped (analyzeNested MAX_NESTING_DEPTH r script o top_placement) = false →
  commands (analyzeNested MAX_NESTING_DEPTH r script o top_placement) =
  commands r ++ commands (nested_run script o).
Proof.
  intros Hr Hst. destruct (nested_contribution script o) as (d & Hd & Hn).
  destruct (isStopped r) eqn:Hsr.
  { destruct (analyzeNested_closed grows MAX_NESTING_DEPTH script o top_placement r Hr) as [_ Hext].
    apply (ext_stopped _ _ Hext) in Hsr. congruence. }
  destruct (Hd r Hsr (ok_count _ Hr)) as [[Hfit ->]|[_ ?]]; [|congruence].
  simpl. rewrite Hn; [done|]. unfold fits in *. simpl. lia.
Qed.

(** The recursive call of a whole analysis. *)
Definition nested : AnalysisRun → str → CommandOrigin → Placement → AnalysisRun :=
  analyzeNested MAX_NESTING_DEPTH.
#[local] Arguments nested : simpl never.

Lemma nested_grows script o pl : grows (λ r, nested r script o pl).
Proof. apply (analyzeNested_closed grows). Qed.

Section Substitutions.
Variable s : str.

Lemma fold_nested_reports scripts : ∀ r c,
  run_ok r → s ∈ scripts →
  isStopped (fold_left (λ run script, nested run script Osubstitution top_placement) scripts r) = false →
  c ∈ commands (nested_run s Osubstitution) →
  c ∈ commands (fold_left (λ run script, nested run script Osubstitution top_placement) scripts r).
Proof.
  induction scripts as [|x scripts IH]; intros r c Hr Hs Hst Hc; [set_solver|]. simpl in *.
  destruct (nested_grows x Osubstitution top_placement r Hr) as [Hok _].
  assert (Hrest : grows (λ r, fold_left (λ run script, nested run script Osubstitution top_placement) scripts r)).
  { apply (rc_fold grows). intros a _. apply nested_grows. }
  destruct (Hrest _ Hok) as [_ Hext]. apply elem_of_cons in Hs as [->|Hs]; [|by apply IH].
  assert (Hst' : isStopped (nested r x Osubstitution top_placement) = false).
  { destruct (isStopped (nested r x _ _)) eqn:E; [|done]. apply (ext_stopped _ _ Hext) in E. congruence. }
  destruct (ext_commands _ _ Hext) as [k Hk]. rewrite Hk.
  rewrite (nested_appends x Osubstitution r Hr Hst' : commands (nested r x _ _) = _). set_solver.
Qed.

Lemma flush_reports state r c :
  run_ok r → s ∈ pendingSubstitutions (pending state) →
  isStopped (flush nested state top_placement r).2 = false →
  c ∈ commands (nested_run s Osubstitution) → c ∈ commands (flush nested state top_placement r).2.
Proof.
  intros Hr Hs Hst Hc.
  set (r1 := fold_left (λ run script, nested run script Osubstitution top_placement)
               (pendingSubstitutions (pending state)) r).
  assert (Hr1 : run_ok r1).
  { apply (rc_fold grows (λ run script, nested run script Osubstitution top_placement)); [|done].
    intros a _. apply nested_grows. }
  (* the rest of the flush, from [r1] *)
  set (state' := mkScriptState (mkPending (words (pending state)) (pendingRedirects (pending state)) []
    (pendingBodies (pending state))) (redirectAwaitingTarget state) (subshellDepth state) (pipeFeedsNext state)).
  assert (Hsplit : (flush nested state top_placement r).2 = (flush nested state' top_placement r1).2).
  { unfold flush. simpl. fold r1. by case_match. }
  assert (Hext : extends r1 (flush nested state' top_placement r1).2).
  { apply (flush_closed grows nested); [|simpl; lia|done]. intros. apply nested_grows. }
  rewrite Hsplit in *. destruct (ext_commands _ _ Hext) as [k ->]. apply elem_of_app. left.
  apply fold_nested_reports; try done. fold r1.
  destruct (isStopped r1) eqn:E; [|done]. apply (ext_stopped _ _ Hext) in E. congruence.
Qed.

Definition carries (tokens : list ShellToken) : Prop :=
  ∃ w q subs, Word w q subs ∈ tokens ∧ s ∈ subs.

Lemma consume_all_reports tokens : ∀ state r c,
  run_ok r → s ∈ pendingSubstitutions (pending state) ∨ carries tokens →
  isStopped (consume_all nested tokens state top_placement r) = false →
  c ∈ commands (nested_run s Osubstitution) →
  c ∈ commands (consume_all nested tokens state top_placement r).
Proof.
  assert (Hn : ∀ script o pl, placeDepth pl ≤ MAX_NESTING_DEPTH → grows (λ r, nested r script o pl)).
  { intros. apply nested_grows. }
  induction tokens as [|t tokens IH]; intros state r c Hr Hs Hst Hc; simpl in *.
  { destruct Hs as [Hs|(?&?&?&[]%not_elem_of_nil&_)]. by apply flush_reports. }
  destruct (isStopped r) eqn:Hsr; [congruence|].
  pose proof (consume_state nested t state top_placement r) as Hstate.
  destruct (consume_closed grows nested Hn t state top_placement ltac:(simpl; lia) r Hr) as [Hok Hext].
  destruct (consume nested t state top_placement r) as [state' r'] eqn:Hcons. simpl in *. subst state'.
  destruct t as [w q subs|op|op fd h]; simpl in *; simplify_eq.
  - apply IH; auto. destruct Hs as [Hs|(w' & q' & subs' & [[= -> -> ->]|Hin]%elem_of_cons & Hs)].
    + left. unfold consumeWord. destruct (redirectAwaitingTarget state) as [[]|]; simpl; set_solver.
    + left. unfold consumeWord. destruct (redirectAwaitingTarget state) as [[]|]; simpl; set_solver.
    + right. by exists w', q', subs'.
  - destruct Hs as [Hs|(w' & q' & subs' & [?|Hin]%elem_of_cons & Hs)]; [|done|].
    + destruct (consume_all_closed grows nested Hn tokens (after_operator op state) top_placement
        ltac:(simpl; lia) r' Hok) as [_ Hext'].
      destruct (ext_commands _ _ Hext') as [k ->]. apply elem_of_app. left.
      assert (Hst' : isStopped r' = false).
      { destruct (isStopped r') eqn:E; [|done]. apply (ext_stopped _ _ Hext') in E. congruence. }
      assert (Hrun : r' = (flush nested state top_placement r).2).
      { rewrite <- consumeOperator_run with (op := op). by rewrite Hcons. }
      rewrite Hrun in *. by apply flush_reports.
    + apply IH; auto. right. by exists w', q', subs'.
  - apply IH; auto. destruct Hs as [Hs|(w' & q' & subs' & [?|Hin]%elem_of_cons & Hs)]; [by left|done|].
    right. by exists w', q', subs'.
Qed.

Lemma command_run_reports text c :
  carries (tokens_of (scanShell text)) → isStopped (command_run text) = false →
  c ∈ commands (nested_run s Osubstitution) → c ∈ commands (command_run text).
Proof.
  intros Hs Hst Hc. unfold command_run, analyzeScript in *.
  apply consume_all_reports; auto. destruct (scan_isPartial _); by split.
Qed.
End Substitutions.

(** Bounds of the analysis: whatever the text, at most 2000 commands are
    reported, each at most five levels deep, each with a program that is not
    empty and is not one of the transparent wrappers ([env], [xargs], ...). *)
Theorem analyzeCommand_bounds text :
  (N.of_nat (length (analysis_commands (analyzeCommand text))) <= MAX_COMMANDS)%N ∧
  Forall command_ok (analysis_commands (analyzeCommand text)).
Proof.
  unfold analyzeCommand. destruct (_ <? _)%N; [split; [done|constructor]|].
  fold top_placement. fold (command_run text). destruct (command_run_ok text) as [Hn Hc _].
  cbn [analysis_commands]. destruct (hasBareAssignment _); [|done].
  rewrite length_fmap. split; [done|]. apply Forall_fmap.
  eapply Forall_impl; [|exact Hc]. by intros c (? & ? & ?).
Qed.

(** No command hides in a substitution: when a word of the text carries the
    script [s] of a command or process substitution, every command found in [s]
    is reported for the text too, unless the analysis says that a limit was
    exceeded. *)
Theorem substitution_commands_reported text s c :
  carries s (tokens_of (scanShell text)) →
  analysis_status (analyzeCommand text) ≠ LimitExceeded →
  c ∈ commands (nested_run s Osubstitution) →
  c ∈ analysis_commands (analyzeCommand text) ∨
  set_bare_assignment c ∈ analysis_commands (analyzeCommand text).
Proof.
  intros Hs Hst Hc. destruct (analyzeCommand_not_limited text Hst) as (_ & Hrun & ->).
  apply (command_run_reports s text c Hs Hrun) in Hc.
  destruct (hasBareAssignment _); [right|by left]. by apply list_elem_of_fmap_2.
Qed.

Definition substitution_example : str := js "echo $(rm -rf build)".
Definition rm_in_substitution : SimpleCommand :=
  mkCommand (js "rm") (js "rm") [js "-rf"; js "build"] [] [] [] [] false Osubstitution 1 false.

Lemma substitution_commands_reported_witness :
  rm_in_substitution ∈ analysis_commands (analyzeCommand substitution_example) ∨
  set_bare_assignment rm_in_substitution ∈ analysis_commands (analyzeCommand substitution_example).
Proof.
  apply (substitution_commands_reported substitution_example (js "rm -rf build")).
  - exists (js "$(rm -rf build)"), false, [js "rm -rf build"]. vm_compute.
    split; [right; left|left].
  - vm_compute. done.
  - vm_compute. left.
Defined.

(** ** [bash -c] *)
Definition shell_c_text (script : str) : str :=
  join [chr " "] (quote_word <$> [js "bash"; js "-c"; script]).
Definition shell_c_command (script : str) : SimpleCommand :=
  mkCommand (js "bash") (js "bash") [js "-c"; script] [] [] [] [] false Otop 0 false.

Lemma parse_shell_c script :
  startsWith script (js "-") = false → startsWith script (js "+") = false →
  parseShellInvocation [js "-c"; script] = mkInvocation (Some script) false.
Proof.
  intros Hm Hp. unfold parseShellInvocation. change (length [js "-c"; script]) with 2.
  erewrite (run_loop_step (shell_options_step [js "-c"; script])); [|by vm_compute].
  rewrite (run_loop_exit _ _ _ (1, true, false)); [done|]. unfold shell_options_step. simpl (_ !! _). cbv iota beta.
  rewrite Hm, Hp. destruct (str_eqb script (js "--")) eqn:E; [|done].
  apply str_eqb_eq in E. by subst.
Qed.

Lemma command_run_shell_c script :
  startsWith script (js "-") = false → startsWith script (js "+") = false →
  command_run (shell_c_text script) =
  nested (push_command (shell_c_command script) initial_run) script Oinline_shell top_placement.
Proof.
  intros Hm Hp. unfold command_run, analyzeScript, shell_c_text. rewrite scanShell_quoted_words.
  fold nested. transitivity (analyzeNestedScripts nested (shell_c_command script) top_placement
    (push_command (shell_c_command script) initial_run)); [reflexivity|].
  unfold analyzeNestedScripts. change (args (shell_c_command script)) with [js "-c"; script].
  by rewrite (parse_shell_c script Hm Hp).
Qed.

(** [bash -c] hides nothing: analysing the properly quoted invocation of a
    script reports the [bash] command followed by exactly the commands of the
    script analysed at depth one, with the same status, unless a limit was
    exceeded. *)
Theorem shell_c_transparent script :
  startsWith script (js "-") = false → startsWith script (js "+") = false →
  analysis_status (analyzeCommand (shell_c_text script)) ≠ LimitExceeded →
  let inner := nested_run script Oinline_shell in
  analysis_status (analyzeCommand (shell_c_text script)) = status inner ∧
  analysis_commands (analyzeCommand (shell_c_text script)) =
    (if hasBareAssignment inner then set_bare_assignment <$> shell_c_command script :: commands inner
     else shell_c_command script :: commands inner).
Proof.
  intros Hm Hp Hst inner. destruct (analyzeCommand_not_limited _ Hst) as (-> & Hrun & ->).
  rewrite (command_run_shell_c script Hm Hp) in *. subst inner.
  destruct (nested_contribution script Oinline_shell) as (d & Hd & Hn).
  destruct (Hd (push_command (shell_c_command script) initial_run)) as [[Hfit Heq]|[_ ?]];
    [done|done| |unfold nested in *; congruence].
  unfold nested. rewrite Heq, Hn by (unfold fits in *; simpl in *; lia).
  destruct d as [cs st b ?]. by destruct st, b.
Qed.

Lemma shell_c_transparent_witness :
  analysis_commands (analyzeCommand (shell_c_text (js "git push; rm x"))) =
  [shell_c_command (js "git push; rm x");
   mkCommand (js "git") (js "git") [js "push"] [] [] [] [] false Oinline_shell 1 false;
   mkCommand (js "rm") (js "rm") [js "x"] [] [] [] [] false Oinline_shell 1 false].
Proof.
  assert (H : analysis_status (analyzeCommand (shell_c_text (js "git push; rm x"))) ≠ LimitExceeded)
    by (vm_compute; done).
  destruct (shell_c_transparent (js "git push; rm x") eq_refl eq_refl H) as [_ ->].
  vm_compute. reflexivity.
Defined.
