(* ===== verification/PathGlob.v ===== *)
(** * Path globs

    Model of [packages/core/src/policy/pathGlob.ts]: the two-pointer matcher of one
    segment and the row-by-row matcher of a path, with a declarative meaning of
    globs and the proofs that the two matchers decide it. *)
From S2P Require Import Prelude JsText.

Definition STAR : N := chr "*".
Definition QUESTION : N := chr "?".
Definition ROOT_SEGMENT : str := js "/".

Definition segmentsOf (path : str) : list str :=
  let named := filter (λ segment, segment ≠ [] ∧ segment ≠ js ".") (split_on (chr "/") path) in
  if startsWith path (js "/") then ROOT_SEGMENT :: named else named.

(** ** One segment *)

(** The locals of [segmentMatches]: pattern index, text index, and the last star
    with the text index it restarts from ([starIndex === -1] is [None]). *)
Record cursor := mkCursor { patternIndex : nat; textIndex : nat; star : option (nat * nat) }.

Definition segment_step (pattern text : str) (s : cursor) : cursor + bool :=
  match text !! textIndex s with
  | None =>
      (* while (pattern[patternIndex] === '*') patternIndex += 1 *)
      inr (bool_decide (drop_while (N.eqb STAR) (drop (patternIndex s) pattern) = []))
  | Some textCharacter =>
      let patternCharacter := pattern !! patternIndex s in
      if bool_decide (patternCharacter = Some STAR) then
        inl (mkCursor (patternIndex s + 1) (textIndex s) (Some (patternIndex s, textIndex s)))
      else if bool_decide (patternCharacter = Some QUESTION) || bool_decide (patternCharacter = Some textCharacter) then
        inl (mkCursor (patternIndex s + 1) (textIndex s + 1) (star s))
      else
        match star s with
        | Some (starIndex, starTextIndex) =>
            inl (mkCursor (starIndex + 1) (starTextIndex + 1) (Some (starIndex, starTextIndex + 1)))
        | None => inr false
        end
  end.
Definition segment_fuel (pattern text : str) : nat :=
  (length text + 1) * (length text + length pattern + 1).
Definition segmentMatches (pattern text : str) : bool :=
  run_loop (segment_step pattern text) (segment_fuel pattern text) (mkCursor 0 0 None) false.

(** ** A path *)

(** The cells 1.. of a row: [previous] is the rest of the row above, [last] the cell on the left. *)
Fixpoint row_cells (patternSegment : str) (previous : list bool) (last : bool) (pathSegments : list str)
  {struct pathSegments} : list bool :=
  match pathSegments, previous with
  | pathSegment :: rest, above_left :: ((above :: _) as previous') =>
      let cell := if str_eqb patternSegment (js "**") then above || last
                  else above_left && segmentMatches patternSegment pathSegment in
      cell :: row_cells patternSegment previous' cell rest
  | _, _ => []
  end.
Definition next_row (pathSegments : list str) (previous : list bool) (patternSegment : str) : list bool :=
  let first := str_eqb patternSegment (js "**") && default false (previous !! 0) in
  first :: row_cells patternSegment previous first pathSegments.
Definition globMatches (pattern path : str) : bool :=
  let pathSegments := segmentsOf path in
  let initial := true :: replicate (length pathSegments) false in
  let row := fold_left (next_row pathSegments) (segmentsOf pattern) initial in
  default false (row !! length pathSegments).

(** ** What a glob means *)
Inductive segment_glob : str → str → Prop :=
  | sg_nil : segment_glob [] []
  | sg_star_stop p t : segment_glob p t → segment_glob (STAR :: p) t
  | sg_star_eat p c t : segment_glob (STAR :: p) t → segment_glob (STAR :: p) (c :: t)
  | sg_one p c t : segment_glob p t → segment_glob (QUESTION :: p) (c :: t)
  | sg_char p c t : c ≠ STAR → segment_glob p t → segment_glob (c :: p) (c :: t).

Inductive path_glob : list str → list str → Prop :=
  | pg_nil : path_glob [] []
  | pg_any ps l1 l2 : path_glob ps l2 → path_glob (js "**" :: ps) (l1 ++ l2)
  | pg_segment p ps s l : p ≠ js "**" → segment_glob p s → path_glob ps l → path_glob (p :: ps) (s :: l).

(** ** The segment matcher decides [segment_glob] *)
Lemma segment_glob_star_inv p t :
  segment_glob (STAR :: p) t ↔ ∃ k, k ≤ length t ∧ segment_glob p (drop k t).
Proof.
  split.
  - remember (STAR :: p) as q eqn:Hq. intros H. revert p Hq.
    induction H as [|p' t' H _|p' c t' H IH|p' c t' H _|p' c t' Hc H _]; intros p Hq; simplify_eq.
    + exists 0. split; [lia|done].
    + destruct (IH p eq_refl) as (k & Hk & Hm). exists (S k). split; [simpl; lia|done].
  - intros (k & Hk & H). revert t Hk H. induction k as [|k IH]; intros t Hk H.
    + by apply sg_star_stop.
    + destruct t as [|c t]; simpl in *; [lia|]. apply sg_star_eat, IH; [lia|done].
Qed.

(** A character that is not a star consumes exactly one character. *)
Definition char_matches (c d : N) : Prop := c = QUESTION ∨ c = d.

Lemma segment_glob_char_inv c p t :
  c ≠ STAR → segment_glob (c :: p) t ↔ ∃ d t', t = d :: t' ∧ char_matches c d ∧ segment_glob p t'.
Proof.
  intros Hc. split.
  - inversion 1; subst; try done; eexists _, _; (split; [done|split; [|done]]); [by left|by right].
  - intros (d & t' & -> & [->| ->] & H); by constructor.
Qed.

Lemma segment_glob_plain q r t :
  STAR ∉ q → segment_glob (q ++ r) t → length q ≤ length t ∧ segment_glob r (drop (length q) t).
Proof.
  revert t. induction q as [|c q IH]; intros t Hq H; [split; [simpl; lia|done]|].
  rewrite not_elem_of_cons in Hq. destruct Hq as [Hc Hq]. simpl in H.
  apply segment_glob_char_inv in H as (d & t' & -> & _ & H); [|congruence].
  apply IH in H as [? ?]; [|done]. simpl. split; [lia|done].
Qed.

Lemma segment_glob_empty_text p : segment_glob p [] ↔ drop_while (N.eqb STAR) p = [].
Proof.
  induction p as [|c p IH]; [split; [done|constructor]|]. cbn [drop_while].
  destruct (N.eqb_spec STAR c) as [<-|Hc].
  - rewrite <- IH, segment_glob_star_inv. split.
    + intros (k & Hk & H). by rewrite drop_nil in H.
    + intros H. by exists 0.
  - split; [|done]. intros H. apply segment_glob_char_inv in H as (d & t' & ? & _); [done|congruence].
Qed.

Section Segment.
Variables pattern text : str.

(** What is left to try: the current attempt, and the later restarts of the star. *)
Definition pending_match (s : cursor) : Prop :=
  segment_glob (drop (patternIndex s) pattern) (drop (textIndex s) text) ∨
  ∃ si sti k, star s = Some (si, sti) ∧ sti < k ≤ length text ∧
    segment_glob (drop (si + 1) pattern) (drop k text).

Record cursor_ok (s : cursor) : Prop := {
  co_pattern : patternIndex s ≤ length pattern;
  co_text : textIndex s ≤ length text;
  co_star : ∀ si sti, star s = Some (si, sti) →
    sti ≤ textIndex s ∧ si + 1 ≤ patternIndex s ∧
    (textIndex s - sti = patternIndex s - (si + 1)) ∧
    STAR ∉ take (patternIndex s - (si + 1)) (drop (si + 1) pattern);
  co_meaning : (segment_glob pattern text ↔ pending_match s)
}.

(** The run of plain characters after the star, and what follows it. *)
Lemma star_tail s si sti :
  cursor_ok s → star s = Some (si, sti) →
  ∃ q, (STAR ∉ q) ∧ length q = textIndex s - sti ∧ drop (si + 1) pattern = q ++ drop (patternIndex s) pattern.
Proof.
  intros Hs Hstar. destruct (co_star s Hs si sti Hstar) as (H1 & H2 & H3 & H4).
  exists (take (patternIndex s - (si + 1)) (drop (si + 1) pattern)). split_and!; [done| |].
  - rewrite length_take, length_drop. pose proof (co_pattern s Hs). lia.
  - rewrite <- (take_drop (patternIndex s - (si + 1)) (drop (si + 1) pattern)) at 1.
    f_equal. rewrite drop_drop. f_equal. lia.
Qed.

(** A later restart of the star reaches, past its plain run, a later position. *)
Lemma restart_later s si sti k :
  cursor_ok s → star s = Some (si, sti) → sti < k ≤ length text →
  segment_glob (drop (si + 1) pattern) (drop k text) →
  ∃ k', textIndex s < k' ≤ length text ∧ segment_glob (drop (patternIndex s) pattern) (drop k' text).
Proof.
  intros Hs Hstar Hk H. destruct (star_tail s si sti Hs Hstar) as (q & Hq & Hlen & Heq).
  rewrite Heq in H. apply segment_glob_plain in H as [Hle H]; [|done].
  rewrite length_drop in Hle. rewrite drop_drop in H. exists (k + length q).
  pose proof (co_text s Hs). destruct (co_star s Hs si sti Hstar) as (? & _). split; [lia|done].
Qed.

Lemma drop_lookup_cons (l : str) i c : l !! i = Some c → drop i l = c :: drop (S i) l.
Proof. apply drop_S. Qed.

Lemma step_star s :
  cursor_ok s → textIndex s < length text → pattern !! patternIndex s = Some STAR →
  cursor_ok (mkCursor (patternIndex s + 1) (textIndex s) (Some (patternIndex s, textIndex s))).
Proof.
  intros Hs Ht Hp. pose proof (lookup_lt_Some _ _ _ Hp) as Hlp. split; simpl; [lia|lia| |].
  - intros si sti [= <- <-]. split_and!; try lia. rewrite Nat.sub_diag. apply not_elem_of_nil.
  - rewrite (co_meaning s Hs). unfold pending_match. simpl.
    rewrite (drop_lookup_cons _ _ _ Hp), segment_glob_star_inv, length_drop.
    replace (patternIndex s + 1) with (S (patternIndex s)) by lia. split.
    + intros [(k & Hk & H)|(si & sti & k & Hstar & Hk & H)].
      * rewrite drop_drop in H. destruct (decide (k = 0)) as [->|].
        { left. by rewrite Nat.add_0_r in H. }
        right. exists (patternIndex s), (textIndex s), (textIndex s + k).
        replace (patternIndex s + 1) with (S (patternIndex s)) by lia. split_and!; [done|lia|lia|done].
      * destruct (restart_later s si sti k Hs Hstar Hk H) as (k' & Hk' & H').
        rewrite (drop_lookup_cons _ _ _ Hp), segment_glob_star_inv in H'.
        destruct H' as (j & Hj & H'). rewrite length_drop in Hj. rewrite drop_drop in H'.
        right. exists (patternIndex s), (textIndex s), (k' + j).
        replace (patternIndex s + 1) with (S (patternIndex s)) by lia. split_and!; [done|lia|lia|done].
    + intros [H|(si & sti & k & [= <- <-] & Hk & H)].
      * left. exists 0. split; [lia|]. by rewrite drop_0.
      * left. exists (k - textIndex s). split; [lia|]. rewrite drop_drop.
        replace (textIndex s + (k - textIndex s)) with k by lia.
        by replace (patternIndex s + 1) with (S (patternIndex s)) in H by lia.
Qed.

Lemma step_char s c d :
  cursor_ok s → pattern !! patternIndex s = Some c → c ≠ STAR → text !! textIndex s = Some d →
  char_matches c d →
  cursor_ok (mkCursor (patternIndex s + 1) (textIndex s + 1) (star s)).
Proof.
  intros Hs Hp Hc Ht Hm. pose proof (lookup_lt_Some _ _ _ Hp) as Hlp. pose proof (lookup_lt_Some _ _ _ Ht) as Hlt.
  split; simpl; [lia|lia| |].
  - intros si sti Hstar. destruct (co_star s Hs si sti Hstar) as (H1 & H2 & H3 & H4).
    split_and!; try lia. replace (patternIndex s + 1 - (si + 1)) with (S (patternIndex s - (si + 1))) by lia.
    rewrite (take_S_r _ _ c).
    + rewrite not_elem_of_app, list_elem_of_singleton. split; [done|congruence].
    + rewrite lookup_drop. rewrite <- Hp. f_equal. lia.
  - rewrite (co_meaning s Hs). unfold pending_match. simpl. f_equiv.
    rewrite (drop_lookup_cons _ _ _ Hp), (drop_lookup_cons _ _ _ Ht), segment_glob_char_inv by done.
    replace (patternIndex s + 1) with (S (patternIndex s)) by lia.
    replace (textIndex s + 1) with (S (textIndex s)) by lia.
    split; [by intros (? & ? & [= <- <-] & _ & ?)|]. intros H. by eexists _, _.
Qed.

(** The current attempt cannot succeed. *)
Definition dead (s : cursor) : Prop :=
  ¬ segment_glob (drop (patternIndex s) pattern) (drop (textIndex s) text).

Lemma step_restart s si sti :
  cursor_ok s → dead s → textIndex s < length text → star s = Some (si, sti) →
  cursor_ok (mkCursor (si + 1) (sti + 1) (Some (si, sti + 1))).
Proof.
  intros Hs Hdead Ht Hstar. destruct (co_star s Hs si sti Hstar) as (H1 & H2 & _ & _).
  pose proof (co_pattern s Hs). split; simpl; [lia|lia| |].
  - intros ? ? [= <- <-]. split_and!; try lia. rewrite Nat.sub_diag. apply not_elem_of_nil.
  - rewrite (co_meaning s Hs). unfold pending_match. simpl. split.
    + intros [H3|(si' & sti' & k & Hstar' & Hk & H3)]; [done|].
      rewrite Hstar in Hstar'. simplify_eq. destruct (decide (k = sti' + 1)) as [->|]; [by left|].
      right. exists si', (sti' + 1), k. split_and!; [done|lia|lia|done].
    + intros [H3|(si' & sti' & k & [= <- <-] & Hk & H3)]; right.
      * exists si, sti, (sti + 1). split_and!; [done|lia|lia|done].
      * exists si, sti, k. split_and!; [done|lia|lia|done].
Qed.

Lemma mismatch_dead s d :
  text !! textIndex s = Some d → pattern !! patternIndex s ≠ Some STAR →
  pattern !! patternIndex s ≠ Some QUESTION → pattern !! patternIndex s ≠ Some d → dead s.
Proof.
  intros Ht Hs Hq Hd H. rewrite (drop_lookup_cons _ _ _ Ht) in H.
  destruct (pattern !! patternIndex s) as [c|] eqn:Hp.
  - rewrite (drop_lookup_cons _ _ _ Hp) in H.
    apply segment_glob_char_inv in H as (? & ? & [= <- <-] & [->| ->] & _); congruence.
  - apply lookup_ge_None in Hp. rewrite drop_ge in H by done. inversion H.
Qed.

Lemma exit_meaning s :
  cursor_ok s → text !! textIndex s = None →
  segment_glob pattern text ↔ drop_while (N.eqb STAR) (drop (patternIndex s) pattern) = [].
Proof.
  intros Hs Ht. apply lookup_ge_None in Ht as Hge. pose proof (co_text s Hs).
  rewrite <- segment_glob_empty_text, (co_meaning s Hs). unfold pending_match.
  rewrite (drop_ge text (textIndex s)) by lia. split; [|by left].
  intros [H1|(si & sti & k & Hstar & Hk & H1)]; [done|].
  destruct (restart_later s si sti k Hs Hstar Hk H1) as (k' & Hk' & _). lia.
Qed.

Lemma segment_step_ok s s' :
  cursor_ok s → segment_step pattern text s = inl s' →
  cursor_ok s' ∧ textIndex s < length text ∧
  ((textIndex s + patternIndex s < textIndex s' + patternIndex s' ∧
    (∀ si sti, star s = Some (si, sti) → ∃ si' sti', star s' = Some (si', sti') ∧ sti ≤ sti')) ∨
   ∃ si sti, star s = Some (si, sti) ∧ star s' = Some (si, sti + 1)).
Proof.
  intros Hs. unfold segment_step. destruct (text !! textIndex s) as [d|] eqn:Ht; [|done].
  pose proof (lookup_lt_Some _ _ _ Ht) as Hlt.
  destruct (bool_decide_reflect (pattern !! patternIndex s = Some STAR)) as [Hp|Hp].
  { intros [= <-]. split_and!; [by apply step_star|done|]. left. simpl. split; [lia|].
    intros si sti Hstar. destruct (co_star s Hs si sti Hstar) as (? & _). eauto. }
  destruct (bool_decide_reflect (pattern !! patternIndex s = Some QUESTION)) as [Hq|Hq];
    [|destruct (bool_decide_reflect (pattern !! patternIndex s = Some d)) as [Hd|Hd]]; simpl.
  - intros [= <-]. split_and!; [|done|].
    + eapply step_char; [done|exact Hq|done|exact Ht|by left].
    + left. simpl. split; [lia|]. eauto.
  - intros [= <-]. split_and!; [|done|].
    + eapply step_char; [done|exact Hd|congruence|exact Ht|by right].
    + left. simpl. split; [lia|]. eauto.
  - destruct (star s) as [[si sti]|] eqn:Hstar; [|done]. intros [= <-].
    split_and!; [|done|right; by eauto].
    apply (step_restart s); auto. by eapply mismatch_dead.
Qed.

Definition cursor_measure (s : cursor) : nat :=
  (length text - match star s with Some (_, sti) => sti | None => 0 end) * (length text + length pattern + 1)
  + ((length text - textIndex s) + (length pattern - patternIndex s)).

Lemma segment_step_decreases s s' :
  cursor_ok s → segment_step pattern text s = inl s' → cursor_measure s' < cursor_measure s.
Proof.
  intros Hs Hstep. destruct (segment_step_ok s s' Hs Hstep) as (Hs' & Hlt & Hcase).
  pose proof (co_text s Hs). pose proof (co_pattern s Hs).
  pose proof (co_text s' Hs'). pose proof (co_pattern s' Hs'). unfold cursor_measure.
  destruct Hcase as [[Hsum Hstars]|(si & sti & Hstar & Hstar')].
  - apply Nat.add_le_lt_mono; [|lia]. apply Nat.mul_le_mono_r.
    destruct (star s) as [[si sti]|]; [|lia].
    destruct (Hstars si sti eq_refl) as (si' & sti' & -> & ?). lia.
  - rewrite Hstar, Hstar'. destruct (co_star s Hs si sti Hstar) as (? & _).
    replace (length text - sti) with (S (length text - (sti + 1))) by lia. lia.
Qed.

Lemma segmentMatches_decides : segmentMatches pattern text = true ↔ segment_glob pattern text.
Proof.
  unfold segmentMatches.
  apply (run_loop_spec (segment_step pattern text) cursor_ok cursor_measure
    (λ b, b = true ↔ segment_glob pattern text)).
  - intros s s' Hs Hstep. split; [by destruct (segment_step_ok s s' Hs Hstep)|by apply segment_step_decreases].
  - intros s b Hs. unfold segment_step. destruct (text !! textIndex s) as [d|] eqn:Ht.
    + destruct (bool_decide_reflect (pattern !! patternIndex s = Some STAR)) as [Hp|Hp]; [done|].
      destruct (bool_decide_reflect (pattern !! patternIndex s = Some QUESTION)) as [Hq|Hq]; [done|].
      destruct (bool_decide_reflect (pattern !! patternIndex s = Some d)) as [Hd|Hd]; [done|]. simpl.
      destruct (star s) as [[si sti]|] eqn:Hstar; [done|]. intros [= <-]. split; [done|].
      rewrite (co_meaning s Hs). intros [H|(? & ? & ? & ? & _)]; [|congruence].
      by apply (mismatch_dead s d) in H.
    + intros [= <-]. rewrite bool_decide_eq_true. symmetry. by apply exit_meaning.
  - split; simpl; [lia|lia|done|]. unfold pending_match. simpl. rewrite !drop_0. split; [by left|].
    by intros [?|(? & ? & ? & ? & _)].
  - unfold cursor_measure, segment_fuel. simpl. lia.
Qed.
End Segment.

(** ** The path matcher decides [path_glob] *)
Lemma path_glob_app ps qs l :
  path_glob (ps ++ qs) l ↔ ∃ l1 l2, l = l1 ++ l2 ∧ path_glob ps l1 ∧ path_glob qs l2.
Proof.
  split.
  - revert l. induction ps as [|p ps IH]; intros l H; simpl in *.
    { exists [], l. split_and!; [done|constructor|done]. }
    inversion H as [|? m1 m2 H'|? ? s m Hp Hs H']; subst.
    + apply IH in H' as (k1 & k2 & -> & H1 & H2). exists (m1 ++ k1), k2.
      split_and!; [by rewrite app_assoc|by constructor|done].
    + apply IH in H' as (k1 & k2 & -> & H1 & H2). exists (s :: k1), k2.
      split_and!; [done|by constructor|done].
  - intros (l1 & l2 & -> & H1 & H2). induction H1; simpl; [done| |by constructor].
    rewrite <- app_assoc. by constructor.
Qed.

Lemma path_glob_any_single l : path_glob [js "**"] l.
Proof. rewrite <- (app_nil_r l). constructor. constructor. Qed.

Lemma path_glob_snoc_any ps l :
  path_glob (ps ++ [js "**"]) l ↔ ∃ k, k ≤ length l ∧ path_glob ps (take k l).
Proof.
  rewrite path_glob_app. split.
  - intros (l1 & l2 & -> & H & _). exists (length l1). rewrite length_app, take_app_length. split; [lia|done].
  - intros (k & Hk & H). exists (take k l), (drop k l).
    split_and!; [by rewrite take_drop|done|apply path_glob_any_single].
Qed.

Lemma path_glob_snoc_segment ps p l :
  p ≠ js "**" → path_glob (ps ++ [p]) l ↔ ∃ l' s, l = l' ++ [s] ∧ path_glob ps l' ∧ segment_glob p s.
Proof.
  intros Hp. rewrite path_glob_app. split.
  - intros (l1 & l2 & -> & H1 & H2). inversion H2 as [| |? ? s m Hne Hs H3]; subst; [congruence|].
    inversion H3; subst. by exists l1, s.
  - intros (l' & s & -> & H1 & H2). exists l', [s]. split_and!; [done|done|by repeat constructor].
Qed.

(** A row is right when its cell [k] tells whether the pattern matches the first
    [k] segments of the path. *)
Definition row_ok (pathSegments : list str) (ps : list str) (row : list bool) : Prop :=
  length row = S (length pathSegments) ∧
  ∀ k b, row !! k = Some b → (b = true ↔ path_glob ps (take k pathSegments)).

(** The cells computed after the first [i]. *)
Lemma row_cells_ok segs ps p : ∀ rest i previous last,
  drop i segs = rest → length previous = S (length rest) →
  (∀ k b, previous !! k = Some b → (b = true ↔ path_glob ps (take (i + k) segs))) →
  (last = true ↔ path_glob (ps ++ [p]) (take i segs)) →
  length (row_cells p previous last rest) = length rest ∧
  ∀ k b, row_cells p previous last rest !! k = Some b →
    (b = true ↔ path_glob (ps ++ [p]) (take (i + S k) segs)).
Proof.
  induction rest as [|s rest IH]; intros i previous last Hd Hlen Hprev Hlast.
  { split; [done|]. intros k b H. by destruct k. }
  destruct previous as [|a0 [|a1 previous]]; simpl in Hlen; try lia.
  assert (Hi : segs !! i = Some s) by (rewrite <- (Nat.add_0_r i), <- lookup_drop, Hd; done).
  pose proof (lookup_lt_Some _ _ _ Hi) as Hlt.
  set (cell := if str_eqb p (js "**") then a1 || last else a0 && segmentMatches p s).
  change (row_cells p (a0 :: a1 :: previous) last (s :: rest)) with (cell :: row_cells p (a1 :: previous) cell rest).
  assert (Hcell : cell = true ↔ path_glob (ps ++ [p]) (take (S i) segs)).
  { pose proof (Hprev 0 a0 eq_refl) as H0. pose proof (Hprev 1 a1 eq_refl) as H1.
    rewrite Nat.add_0_r in H0. replace (i + 1) with (S i) in H1 by lia.
    unfold cell. destruct (str_eqb p (js "**")) eqn:Hp.
    - apply str_eqb_eq in Hp as ->. rewrite orb_true_iff, H1, Hlast, !path_glob_snoc_any, !length_take. split.
      + intros [H|(k & Hk & H)].
        * exists (S i). rewrite take_take, Nat.min_id. split; [lia|done].
        * exists k. rewrite take_take in *. split; [lia|].
          by replace (k `min` S i) with (k `min` i) by lia.
      + intros (k & Hk & H). rewrite take_take in H. destruct (decide (k ≤ i)).
        * right. exists k. rewrite take_take. replace (k `min` i) with (k `min` S i) by lia. split; [lia|done].
        * left. by replace (k `min` S i) with (S i) in H by lia.
    - apply str_eqb_neq in Hp. rewrite andb_true_iff, H0, segmentMatches_decides, path_glob_snoc_segment by done.
      rewrite (take_S_r _ _ _ Hi). split.
      + intros [? ?]. by eexists _, _.
      + by intros (l' & s' & [-> [= ->]]%app_inj_2 & ? & ?). }
  destruct (IH (S i) (a1 :: previous) cell) as [Hl Hc].
  - rewrite <- (Nat.add_1_r i), <- drop_drop, Hd. done.
  - simpl. lia.
  - intros k b Hk. rewrite (Hprev (S k) b Hk). by replace (i + S k) with (S i + k) by lia.
  - done.
  - split; [simpl; lia|]. intros [|k] b; simpl.
    + intros [= <-]. by rewrite Nat.add_1_r.
    + intros Hk. rewrite (Hc k b Hk). by replace (S i + S k) with (i + S (S k)) by lia.
Qed.

Lemma next_row_ok segs ps p row : row_ok segs ps row → row_ok segs (ps ++ [p]) (next_row segs row p).
Proof.
  intros [Hlen Hrow]. unfold next_row. destruct row as [|a0 row]; [done|]. simpl (_ !! _). simpl default.
  set (first := str_eqb p (js "**") && a0).
  assert (Hfirst : first = true ↔ path_glob (ps ++ [p]) (take 0 segs)).
  { pose proof (Hrow 0 a0 eq_refl) as H0. rewrite take_0 in *. unfold first. rewrite andb_true_iff, H0.
    destruct (str_eqb p (js "**")) eqn:Hp.
    - apply str_eqb_eq in Hp as ->. rewrite path_glob_snoc_any. split.
      + intros [_ H]. by exists 0.
      + intros (k & Hk & H). rewrite take_nil in H. done.
    - apply str_eqb_neq in Hp. rewrite path_glob_snoc_segment by done. split; [by intros [? _]|].
      intros (l' & s & Heq & _). by destruct l'. }
  destruct (row_cells_ok segs ps p segs 0 (a0 :: row) first) as [Hl Hc]; try done.
  split; [simpl; lia|]. intros [|k] b; [by intros [= <-]|]. apply Hc.
Qed.

Lemma initial_row_ok segs : row_ok segs [] (true :: replicate (length segs) false).
Proof.
  split; [simpl; by rewrite length_replicate|]. intros [|k] b.
  - intros [= <-]. rewrite take_0. split; [constructor|done].
  - simpl. intros [-> Hk]%lookup_replicate. split; [done|]. intros H.
    destruct segs as [|s segs]; simpl in *; [lia|inversion H].
Qed.

Lemma globMatches_decides pattern path :
  globMatches pattern path = true ↔ path_glob (segmentsOf pattern) (segmentsOf path).
Proof.
  unfold globMatches. set (segs := segmentsOf path).
  assert (Hrows : ∀ qs ps row, row_ok segs ps row →
    row_ok segs (ps ++ qs) (fold_left (next_row segs) qs row)).
  { induction qs as [|q qs IH]; intros ps row Hrow; simpl; [by rewrite app_nil_r|].
    rewrite (cons_middle q ps qs), app_assoc. by apply IH, next_row_ok. }
  destruct (Hrows (segmentsOf pattern) [] _ (initial_row_ok segs)) as [Hlen Hcell]. simpl in *.
  destruct (fold_left _ _ _ !! length segs) as [b|] eqn:Hb.
  - simpl. rewrite (Hcell _ _ Hb), take_ge by lia. done.
  - apply lookup_ge_None in Hb. lia.
Qed.

(** The two-pointer matcher of one path segment, with its backtracking to the
    last star, terminates and answers exactly what the glob means: a star stands
    for any run of characters, a question mark for one character, and every
    other character for itself. *)
Theorem segmentMatches_correct pattern text :
  segmentMatches pattern text = true ↔ segment_glob pattern text.
Proof. apply segmentMatches_decides. Qed.

(** C27. The row-by-row path matcher answers exactly what a path glob means: its
    segments match one by one, and a double-star segment stands for any number
    of segments, none included. *)
Theorem globMatches_correct pattern path :
  globMatches pattern path = true ↔ path_glob (segmentsOf pattern) (segmentsOf path).
Proof. apply globMatches_decides. Qed.

Example globMatches_deep : globMatches (js "/repo/**/*.ts") (js "/repo/src/app/./main.ts") = true.
Proof. vm_compute. reflexivity. Qed.
Example globMatches_sibling : globMatches (js "/repo/*.ts") (js "/repo/src/main.ts") = false.
Proof. vm_compute. reflexivity. Qed.
