(* ===== verification/SedScript.v ===== *)
(** * Read-only sed scripts

    Model of [packages/core/src/policy/sedScript.ts]: a script is accepted only when
    it reads to the end as commands that select, print, delete and substitute.
    [REFUSED] is [None]. *)
From S2P Require Import Prelude JsText.

Definition SIMPLE_COMMANDS : list N :=
  [chr "p"; chr "P"; chr "d"; chr "D"; chr "n"; chr "N"; chr "g"; chr "G"; chr "h"; chr "H"; chr "x"; chr "=";
   chr "l"; chr "q"; chr "Q"].
Definition COMMANDS_WITH_OPTIONAL_NUMBER : list N := [chr "l"; chr "q"; chr "Q"].
Definition SUBSTITUTION_FLAGS : list N := [chr "g"; chr "p"; chr "I"; chr "i"; chr "M"; chr "m"].
Definition SEPARATORS : list N := [chr " "; TAB; chr ";"; LF].
Definition SPACES : list N := [chr " "; TAB].

(** [while (p(script[index])) index += 1] *)
Definition skip_while (p : N → bool) (script : str) (from : nat) : nat :=
  from + length (take_while p (drop from script)).
Definition skipSeparators : str → nat → nat := skip_while (λ c, mem_chr c SEPARATORS).
Definition skipSpaces : str → nat → nat := skip_while (λ c, mem_chr c SPACES).
Definition skipDigits : str → nat → nat := skip_while is_digit.

Definition delimited_step (script : str) (delimiter : N) (index : nat) : nat + option nat :=
  match script !! index with
  | None => inr None
  | Some c =>
      if N.eqb c BACKSLASH then inl (index + 2)
      else if N.eqb c delimiter then inr (Some (index + 1))
      else inl (index + 1)
  end.
Definition skipDelimited (script : str) (from : nat) (delimiter : N) : option nat :=
  run_loop (delimited_step script delimiter) (S (length script)) from None.

Definition char_is (script : str) (i : nat) (p : N → bool) : bool :=
  match script !! i with Some c => p c | None => false end.

Definition skipOneAddress (script : str) (from : nat) : option nat :=
  match script !! from with
  | None => Some from
  | Some character =>
      if is_digit character then
        let afterNumber := skipDigits script from in
        Some (if char_is script afterNumber (N.eqb (chr "~")) then skipDigits script (afterNumber + 1) else afterNumber)
      else if N.eqb character (chr "$") then Some (from + 1)
      else if negb (N.eqb character (chr "/") || N.eqb character BACKSLASH) then Some from
      else
        let delimiter := if N.eqb character BACKSLASH then script !! (from + 1) else Some (chr "/") in
        match delimiter with
        | None => None
        | Some delimiter =>
            match skipDelimited script (if N.eqb character BACKSLASH then from + 2 else from + 1) delimiter with
            | None => None
            | Some afterRegex =>
                Some (if char_is script afterRegex (λ c, N.eqb c (chr "I") || N.eqb c (chr "M"))
                      then afterRegex + 1 else afterRegex)
            end
        end
  end.

Definition skipAddresses (script : str) (from : nat) : option nat :=
  match skipOneAddress script from with
  | None => None
  | Some afterFirst =>
      let hasRange := bool_decide (from < afterFirst) && char_is script afterFirst (N.eqb (chr ",")) in
      match (if hasRange then skipOneAddress script (afterFirst + 1) else Some afterFirst) with
      | None => None
      | Some afterRange =>
          let afterSpaces := skipSpaces script afterRange in
          Some (if char_is script afterSpaces (N.eqb (chr "!")) then skipSpaces script (afterSpaces + 1) else afterSpaces)
      end
  end.

Definition bad_delimiter (d : N) : bool := N.eqb d BACKSLASH || N.eqb d LF.

Definition skipSubstitution (script : str) (commandIndex : nat) : option nat :=
  match script !! (commandIndex + 1) with
  | None => None
  | Some delimiter =>
      if bad_delimiter delimiter then None
      else
        match skipDelimited script (commandIndex + 2) delimiter with
        | None => None
        | Some afterPattern =>
            match skipDelimited script afterPattern delimiter with
            | None => None
            | Some afterReplacement =>
                Some (skip_while (λ c, mem_chr c SUBSTITUTION_FLAGS || is_digit c) script afterReplacement)
            end
        end
  end.

Definition skipTransliteration (script : str) (commandIndex : nat) : option nat :=
  match script !! (commandIndex + 1) with
  | None => None
  | Some delimiter =>
      if bad_delimiter delimiter then None
      else
        match skipDelimited script (commandIndex + 2) delimiter with
        | None => None
        | Some afterSource => skipDelimited script afterSource delimiter
        end
  end.

Definition skipCommand (script : str) (commandIndex : nat) : option nat :=
  match script !! commandIndex with
  | None => None
  | Some command =>
      if N.eqb command (chr "s") then skipSubstitution script commandIndex
      else if N.eqb command (chr "y") then skipTransliteration script commandIndex
      else if negb (mem_chr command SIMPLE_COMMANDS) then None
      else Some (if mem_chr command COMMANDS_WITH_OPTIONAL_NUMBER then skipDigits script (commandIndex + 1)
                 else commandIndex + 1)
  end.

Definition sed_step (script : str) (index : nat) : nat + bool :=
  if bool_decide (length script ≤ index) then inr true
  else
    match skipAddresses script index with
    | None => inr false
    | Some afterAddresses =>
        match skipCommand script afterAddresses with
        | None => inr false
        | Some afterCommand =>
            let afterSpaces := skipSpaces script afterCommand in
            let endsCommand := bool_decide (length script ≤ afterSpaces)
                               || char_is script afterSpaces (λ c, mem_chr c SEPARATORS) in
            if negb endsCommand then inr false
            else inl (skipSeparators script afterSpaces)
        end
    end.
Definition isReadOnlySedScript (script : str) : bool :=
  run_loop (sed_step script) (S (length script)) (skipSeparators script 0) false.

(** ** A grammar of the accepted scripts *)

(** Text up to and including the closing delimiter, with backslash escapes. *)
Inductive delimited (d : N) : str → Prop :=
  | del_close : d ≠ BACKSLASH → delimited d [d]
  | del_escape c s : delimited d s → delimited d (BACKSLASH :: c :: s)
  | del_char c s : c ≠ BACKSLASH → c ≠ d → delimited d s → delimited d (c :: s).

(** A command and its operands: nothing that writes a file ([w], [W]), reads one
    ([r], [R]), executes ([e]), edits text blocks or branches; the flags of a
    substitution are among [g p I i M m] and numbers. *)
Inductive sed_command : str → Prop :=
  | sc_simple c : mem_chr c SIMPLE_COMMANDS = true → sed_command [c]
  | sc_numbered c ds : mem_chr c COMMANDS_WITH_OPTIONAL_NUMBER = true → Forall (λ d, is_digit d = true) ds →
      sed_command (c :: ds)
  | sc_substitute d pat rep flags : bad_delimiter d = false → delimited d pat → delimited d rep →
      Forall (λ c, mem_chr c SUBSTITUTION_FLAGS || is_digit c = true) flags →
      sed_command (chr "s" :: d :: pat ++ rep ++ flags)
  | sc_transliterate d src dst : bad_delimiter d = false → delimited d src → delimited d dst →
      sed_command (chr "y" :: d :: src ++ dst).

(** Addresses: a line number with an optional step, the last line, a regular
    expression between delimiters; then an optional range and negation. *)
Inductive regex_flag : str → Prop :=
  | rf_none : regex_flag []
  | rf_some c : c = chr "I" ∨ c = chr "M" → regex_flag [c].
Inductive one_address : str → Prop :=
  | oa_none : one_address []
  | oa_number ds : Forall (λ d, is_digit d = true) ds → one_address ds
  | oa_step ds es : Forall (λ d, is_digit d = true) ds → Forall (λ d, is_digit d = true) es →
      one_address (ds ++ chr "~" :: es)
  | oa_last : one_address [chr "$"]
  | oa_regex x f : delimited (chr "/") x → regex_flag f → one_address (chr "/" :: x ++ f)
  | oa_custom d x f : delimited d x → regex_flag f → one_address (BACKSLASH :: d :: x ++ f).
Definition spaces (s : str) : Prop := Forall (λ c, mem_chr c SPACES = true) s.
Inductive address_range : str → Prop :=
  | ar_one a : one_address a → address_range a
  | ar_two a b : a ≠ [] → one_address a → one_address b → address_range (a ++ chr "," :: b).
Inductive sed_address : str → Prop :=
  | sa_plain a sp : address_range a → spaces sp → sed_address (a ++ sp)
  | sa_negated a sp sp' : address_range a → spaces sp → spaces sp' → sed_address (a ++ sp ++ chr "!" :: sp').

Inductive sed_script : str → Prop :=
  | ss_end : sed_script []
  | ss_command a c gap rest :
      sed_address a → sed_command c → Forall (λ x, mem_chr x SEPARATORS = true) gap →
      (gap = [] → rest = []) → sed_script rest → sed_script (a ++ c ++ gap ++ rest).

(** ** Soundness *)
Lemma take_while_Forall p s : Forall (λ c, p c = true) (take_while p s).
Proof. induction s as [|c s IH]; simpl; [constructor|]. destruct (p c) eqn:E; by constructor. Qed.
Lemma take_drop_while p s : take_while p s ++ drop_while p s = s.
Proof. induction s as [|c s IH]; simpl; [done|]. destruct (p c); simpl; congruence. Qed.

(** [reads script i x j]: the text from [i] is [x] up to [j]. *)
Definition reads (script : str) (i : nat) (x : str) (j : nat) : Prop :=
  drop i script = x ++ drop j script ∧ j = i + length x.

Lemma reads_nil script i : reads script i [] i.
Proof. split; [done|simpl; lia]. Qed.
Lemma reads_one script i c : script !! i = Some c → reads script i [c] (i + 1).
Proof. intros H. split; [|done]. rewrite (drop_S _ _ _ H). simpl. by rewrite Nat.add_1_r. Qed.
Lemma reads_app script i x j y k : reads script i x j → reads script j y k → reads script i (x ++ y) k.
Proof.
  intros [H1 ->] [H2 ->]. split.
  - by rewrite H1, H2, app_assoc.
  - rewrite length_app. lia.
Qed.
Lemma reads_while script i p :
  reads script i (take_while p (drop i script)) (skip_while p script i).
Proof.
  split; [|done]. unfold skip_while. rewrite <- drop_drop.
  rewrite <- (take_drop_while p (drop i script)) at 1. f_equal.
  rewrite <- (take_drop_while p (drop i script)) at 3. by rewrite drop_app_length.
Qed.
Lemma skip_while_le p script i : i ≤ skip_while p script i.
Proof. unfold skip_while. lia. Qed.

Lemma delimited_step_reads script d i j :
  skipDelimited script i d = Some j → ∃ x, reads script i x j ∧ delimited d x.
Proof.
  unfold skipDelimited, run_loop. destruct (loop _ _ i) as [r|] eqn:Hl; simpl; [|done].
  intros ->. revert i Hl. generalize (S (length script)) as n.
  induction n as [|n IH]; intros i; [done|]. cbn [loop]. unfold delimited_step at 1.
  destruct (script !! i) as [c|] eqn:Hc; [|done].
  destruct (N.eqb_spec c BACKSLASH) as [->|Hb].
  - intros (x & Hx & Hd)%IH. destruct (script !! (i + 1)) as [e|] eqn:He.
    + exists ([BACKSLASH; e] ++ x). split; [|by constructor].
      eapply reads_app; [|exact Hx]. replace (i + 2) with (i + 1 + 1) by lia.
      eapply (reads_app _ _ [BACKSLASH]); by apply reads_one.
    + apply lookup_ge_None in He. destruct Hx as [Hx _]. rewrite drop_ge in Hx by lia.
      destruct Hd; done.
  - destruct (N.eqb_spec c d) as [->|Hne].
    + intros [= <-]. exists [d]. split; [by apply reads_one|by constructor].
    + intros (x & Hx & Hd)%IH. exists ([c] ++ x). split; [|by constructor].
      eapply reads_app; [by apply reads_one|done].
Qed.

Lemma char_is_true script i p : char_is script i p = true → ∃ c, script !! i = Some c ∧ p c = true.
Proof. unfold char_is. destruct (script !! i); [by eauto|done]. Qed.

(** An optional character after a reading. *)
Lemma reads_optional script i p :
  ∃ x, reads script i x (if char_is script i p then i + 1 else i) ∧
       (x = [] ∨ ∃ c, x = [c] ∧ p c = true).
Proof.
  destruct (char_is script i p) eqn:E.
  - apply char_is_true in E as (c & Hc & Hp). exists [c]. split; [by apply reads_one|by eauto].
  - exists []. split; [apply reads_nil|by left].
Qed.

(** The regular expression of an address and its flag. *)
Lemma reads_regex script i d j :
  skipDelimited script i d = Some j →
  ∃ x f, reads script i (x ++ f)
    (if char_is script j (λ c, N.eqb c (chr "I") || N.eqb c (chr "M")) then j + 1 else j) ∧
    delimited d x ∧ regex_flag f.
Proof.
  intros (x & Hx & Hd)%delimited_step_reads.
  destruct (reads_optional script j (λ c, N.eqb c (chr "I") || N.eqb c (chr "M"))) as (f & Hf & Hflag).
  exists x, f. split_and!; [by eapply reads_app|done|].
  destruct Hflag as [->|(c & -> & Hc)]; constructor.
  by apply orb_true_iff in Hc as [->%N.eqb_eq| ->%N.eqb_eq]; auto.
Qed.

Lemma skipOneAddress_reads script i j :
  skipOneAddress script i = Some j → ∃ a, reads script i a j ∧ one_address a.
Proof.
  unfold skipOneAddress. destruct (script !! i) as [c|] eqn:Hc.
  2: { intros [= <-]. exists []. split; [apply reads_nil|constructor]. }
  destruct (is_digit c) eqn:Hdig.
  { intros [= <-]. pose proof (reads_while script i is_digit) as H1.
    pose proof (take_while_Forall is_digit (drop i script)) as H2.
    destruct (char_is script (skipDigits script i) _) eqn:Ht.
    - apply char_is_true in Ht as (t & Ht & <-%N.eqb_eq).
      eexists (_ ++ [chr "~"] ++ _). split.
      + eapply reads_app; [exact H1|]. eapply reads_app; [by apply reads_one|apply reads_while].
      + exact (oa_step _ _ H2 (take_while_Forall _ _)).
    - eexists. split; [exact H1|by apply oa_number]. }
  destruct (N.eqb_spec c (chr "$")) as [->|_].
  { intros [= <-]. exists [chr "$"]. split; [by apply reads_one|apply oa_last]. }
  destruct (N.eqb_spec c BACKSLASH) as [->|Hb].
  - simpl. destruct (script !! (i + 1)) as [d|] eqn:Hd; [|done].
    destruct (skipDelimited script (i + 2) d) as [k|] eqn:Hk; [|done]. intros [= <-].
    apply reads_regex in Hk as (x & f & Hx & Hdx & Hf).
    exists ([BACKSLASH] ++ [d] ++ x ++ f). split; [|exact (oa_custom d x f Hdx Hf)].
    eapply reads_app; [by apply reads_one|]. eapply reads_app; [by apply reads_one|].
    by replace (i + 1 + 1) with (i + 2) by lia.
  - destruct (N.eqb_spec c (chr "/")) as [->|Hs]; simpl.
    + destruct (skipDelimited script (i + 1) (chr "/")) as [k|] eqn:Hk; [|done]. intros [= <-].
      apply reads_regex in Hk as (x & f & Hx & Hdx & Hf).
      exists ([chr "/"] ++ x ++ f). split; [|exact (oa_regex x f Hdx Hf)].
      eapply reads_app; [by apply reads_one|done].
    + intros [= <-]. exists []. split; [apply reads_nil|constructor].
Qed.

Lemma skipAddresses_reads script i j :
  skipAddresses script i = Some j → ∃ a, reads script i a j ∧ sed_address a.
Proof.
  unfold skipAddresses. destruct (skipOneAddress script i) as [k|] eqn:H1; [|done].
  apply skipOneAddress_reads in H1 as (a1 & Ha1 & Hone1).
  assert (Hrange : ∀ m, (if bool_decide (i < k) && char_is script k (N.eqb (chr ","))
      then skipOneAddress script (k + 1) else Some k) = Some m → ∃ a, reads script i a m ∧ address_range a).
  { intros m. destruct (bool_decide_reflect (i < k)); simpl.
    - destruct (char_is script k _) eqn:Hcomma.
      + apply char_is_true in Hcomma as (c & Hc & <-%N.eqb_eq).
        intros (a2 & Ha2 & Hone2)%skipOneAddress_reads. exists (a1 ++ [chr ","] ++ a2). split.
        * eapply reads_app; [done|]. eapply reads_app; [by apply reads_one|done].
        * refine (ar_two a1 a2 _ Hone1 Hone2). intros ->. destruct Ha1 as [_ ->]. simpl in *. lia.
      + intros [= <-]. exists a1. split; [done|by constructor].
    - intros [= <-]. exists a1. split; [done|by constructor]. }
  destruct (if _ && _ then _ else _) as [m|]; [|done].
  destruct (Hrange m eq_refl) as (a & Ha & Hr). intros [= <-].
  pose proof (reads_while script m (λ c, mem_chr c SPACES)) as Hsp.
  pose proof (take_while_Forall (λ c, mem_chr c SPACES) (drop m script)) as Hall.
  destruct (char_is script (skipSpaces script m) _) eqn:Hneg.
  - apply char_is_true in Hneg as (c & Hc & <-%N.eqb_eq).
    eexists (a ++ _ ++ [chr "!"] ++ _). split.
    + eapply reads_app; [done|]. eapply reads_app; [exact Hsp|].
      eapply reads_app; [by apply reads_one|apply reads_while].
    + exact (sa_negated a _ _ Hr Hall (take_while_Forall _ _)).
  - eexists (a ++ _). split; [eapply reads_app; [done|exact Hsp]|by constructor].
Qed.

Lemma skipCommand_reads script i j :
  skipCommand script i = Some j → ∃ c, reads script i c j ∧ sed_command c ∧ c ≠ [].
Proof.
  unfold skipCommand. destruct (script !! i) as [c|] eqn:Hc; [|done].
  destruct (N.eqb_spec c (chr "s")) as [->|Hs].
  { unfold skipSubstitution. destruct (script !! (i + 1)) as [d|] eqn:Hd; [|done].
    destruct (bad_delimiter d) eqn:Hbad; [done|].
    destruct (skipDelimited script (i + 2) d) as [k|] eqn:Hk; [|done].
    destruct (skipDelimited script k d) as [m|] eqn:Hm; [|done]. intros [= <-].
    apply delimited_step_reads in Hk as (x & Hx & Hdx). apply delimited_step_reads in Hm as (y & Hy & Hdy).
    eexists ([chr "s"] ++ [d] ++ x ++ y ++ _). split_and!.
    - eapply reads_app; [by apply reads_one|]. eapply reads_app; [by apply reads_one|].
      replace (i + 1 + 1) with (i + 2) by lia. eapply reads_app; [done|]. eapply reads_app; [done|].
      apply reads_while.
    - exact (sc_substitute d x y _ Hbad Hdx Hdy (take_while_Forall _ _)).
    - done. }
  destruct (N.eqb_spec c (chr "y")) as [->|Hy].
  { unfold skipTransliteration. destruct (script !! (i + 1)) as [d|] eqn:Hd; [|done].
    destruct (bad_delimiter d) eqn:Hbad; [done|].
    destruct (skipDelimited script (i + 2) d) as [k|] eqn:Hk; [|done]. intros Hm.
    apply delimited_step_reads in Hk as (x & Hx & Hdx). apply delimited_step_reads in Hm as (y & Hy & Hdy).
    exists ([chr "y"] ++ [d] ++ x ++ y). split_and!; [|exact (sc_transliterate d x y Hbad Hdx Hdy)|done].
    eapply reads_app; [by apply reads_one|]. eapply reads_app; [by apply reads_one|].
    replace (i + 1 + 1) with (i + 2) by lia. by eapply reads_app. }
  destruct (mem_chr c SIMPLE_COMMANDS) eqn:Hsimple; cbn [negb]; [|done].
  destruct (mem_chr c COMMANDS_WITH_OPTIONAL_NUMBER) eqn:Hnum; intros [= <-].
  - eexists ([c] ++ _). split_and!.
    + eapply reads_app; [by apply reads_one|apply reads_while].
    + exact (sc_numbered c _ Hnum (take_while_Forall _ _)).
    + done.
  - exists [c]. split_and!; [by apply reads_one|exact (sc_simple c Hsimple)|done].
Qed.

Lemma sed_loop_sound script n : ∀ i,
  loop (sed_step script) n i = Some true → sed_script (drop i script).
Proof.
  induction n as [|n IH]; intros i; [done|]. cbn [loop]. unfold sed_step at 1.
  case_bool_decide as Hi. { intros _. rewrite drop_ge by done. constructor. }
  destruct (skipAddresses script i) as [j|] eqn:Hj; [|done].
  destruct (skipCommand script j) as [k|] eqn:Hk; [|done].
  apply skipAddresses_reads in Hj as (a & Ha & Hsa). apply skipCommand_reads in Hk as (c & Hc & Hsc & Hne).
  set (m := skipSpaces script k). destruct (_ || _) eqn:Hend; simpl; [|done]. intros Hrest%IH.
  pose proof (reads_while script k (λ c, mem_chr c SPACES)) as Hsp. fold (skipSpaces script k) in Hsp. fold m in Hsp.
  pose proof (reads_while script m (λ c, mem_chr c SEPARATORS)) as Hsep.
  pose proof (reads_app _ _ _ _ _ _ Hsp Hsep) as Hgap. set (gap := _ ++ _) in Hgap.
  pose proof (reads_app _ _ _ _ _ _ Ha (reads_app _ _ _ _ _ _ Hc Hgap)) as [-> _].
  rewrite <- !app_assoc. constructor; try done.
  - apply Forall_app. split; [|apply take_while_Forall].
    eapply Forall_impl; [|apply take_while_Forall]. intros x. unfold mem_chr. simpl.
    rewrite !orb_true_iff. tauto.
  - intros Hnil. destruct Hsep as [Hsep1 Hsep2], Hsp as [_ Hsp2].
    apply app_eq_nil in Hnil as [Hn1 Hn2]. rewrite Hn1 in Hsp2. rewrite Hn2 in Hsep1, Hsep2. simpl in *.
    apply orb_true_iff in Hend as [Hend|Hend].
    + apply bool_decide_eq_true in Hend. apply drop_ge. unfold skipSeparators. lia.
    + apply char_is_true in Hend as (x & Hx & Hp). rewrite (drop_S _ _ _ Hx) in Hn2. simpl in Hn2.
      by rewrite Hp in Hn2.
Qed.

(** The loop of the scan always ends by itself. *)
Lemma sed_loop_total script : is_Some (loop (sed_step script) (S (length script)) (skipSeparators script 0)).
Proof.
  apply (loop_total _ (λ _, True) (λ i, length script - i)); [|done|lia].
  intros i j _. unfold sed_step. case_bool_decide as Hi; [done|].
  destruct (skipAddresses script i) as [a|] eqn:Ha; [|done].
  destruct (skipCommand script a) as [k|] eqn:Hk; [|done]. case_match; [done|]. intros [= <-].
  apply skipAddresses_reads in Ha as (x & [_ ->] & _). apply skipCommand_reads in Hk as (y & [_ ->] & _ & Hy).
  split; [done|]. destruct y; [done|].
  pose proof (skip_while_le (λ c, mem_chr c SEPARATORS) script (skipSpaces script (i + length x + length (n :: y)))).
  pose proof (skip_while_le (λ c, mem_chr c SPACES) script (i + length x + length (n :: y))).
  unfold skipSeparators, skipSpaces in *. simpl in *. lia.
Qed.

(** An accepted sed script is a sequence of addressed commands of a grammar
    without file writes, file reads, execution, text blocks or branches, and
    whose substitutions carry no [w] or [e] flag; and the check always ends. *)
Theorem isReadOnlySedScript_sound script :
  isReadOnlySedScript script = true →
  ∃ lead rest, script = lead ++ rest ∧ Forall (λ c, mem_chr c SEPARATORS = true) lead ∧ sed_script rest.
Proof.
  unfold isReadOnlySedScript, run_loop. destruct (sed_loop_total script) as [b Hb]. rewrite Hb. simpl. intros ->.
  apply sed_loop_sound in Hb. destruct (reads_while script 0 (λ c, mem_chr c SEPARATORS)) as [Hlead _].
  rewrite drop_0 in Hlead. eexists _, _. split_and!; [exact Hlead|apply take_while_Forall|exact Hb].
Qed.

Lemma isReadOnlySedScript_sound_witness :
  ∃ lead rest, js " 2,$s/a\/b/c/gp; /x/!d" = lead ++ rest ∧
    Forall (λ c, mem_chr c SEPARATORS = true) lead ∧ sed_script rest.
Proof. apply isReadOnlySedScript_sound. vm_compute. reflexivity. Defined.

Example sed_write_refused : isReadOnlySedScript (js "p;w /tmp/out") = false.
Proof. vm_compute. reflexivity. Qed.
Example sed_write_flag_refused : isReadOnlySedScript (js "s/a/b/w out") = false.
Proof. vm_compute. reflexivity. Qed.
