(* ===== verification/ReadOnlyAccess.v ===== *)
(** * Plain reads

    Models of [packages/core/src/policy/searchArguments.ts] and
    [packages/core/src/policy/readOnlyAccess.ts]: which simple commands only read,
    and only under given roots. *)
From S2P Require Import Prelude JsText Regex ShellScanner CommandAnalyzer SedScript.

(** ** Search arguments *)
Definition OPTIONS_WITH_VALUE : list str :=
  [js "-g"; js "--glob"; js "--iglob"; js "-t"; js "--type"; js "-T"; js "--type-not"; js "-A"; js "-B"; js "-C"; js "-m";
   js "--max-count"; js "--max-depth"; js "-d"; js "-j"; js "--threads"; js "--encoding"; js "--include"; js "--exclude";
   js "--exclude-dir"; js "--include-dir"].
Definition RIPGREP_OPTIONS_WITH_VALUE : list str := [js "-E"; js "-r"; js "--replace"].
Definition PATTERN_OPTIONS : list str := [js "-e"; js "--regexp"].
Definition PATTERN_FILE_OPTIONS : list str := [js "-f"; js "--file"].

Record SearchArguments := mkSearchArguments
  { isPatternGivenByOption : bool; searchedPaths : list str; patternFiles : list str }.

(** The loop of [parseSearchArguments]; a valued option skips the word after it. *)
Fixpoint search_loop (valuedOptions : list str) (given : bool) (positionals files : list str) (l : list str)
  : bool * list str * list str :=
  match l with
  | [] => (given, positionals, files)
  | arg :: rest =>
      if mem_str arg PATTERN_OPTIONS then
        match rest with
        | [] => (true, positionals, files)
        | _ :: rest' => search_loop valuedOptions true positionals files rest'
        end
      else if mem_str arg PATTERN_FILE_OPTIONS then
        match rest with
        | [] => (true, positionals, files)
        | next :: rest' => search_loop valuedOptions true positionals (files ++ [next]) rest'
        end
      else if mem_str arg valuedOptions then
        match rest with
        | [] => (given, positionals, files)
        | _ :: rest' => search_loop valuedOptions given positionals files rest'
        end
      else if startsWith arg (js "-") && negb (str_eqb arg (js "-")) then
        search_loop valuedOptions given positionals files rest
      else search_loop valuedOptions given (positionals ++ [arg]) files rest
  end.
Definition parseSearchArguments (prog : str) (arguments : list str) : SearchArguments :=
  let valuedOptions :=
    if str_eqb prog (js "rg") then OPTIONS_WITH_VALUE ++ RIPGREP_OPTIONS_WITH_VALUE else OPTIONS_WITH_VALUE in
  let '(given, positionals, files) := search_loop valuedOptions false [] [] arguments in
  mkSearchArguments given (if given then positionals else drop 1 positionals) files.

(** ** Paths and roots *)
Record ReadScope := mkReadScope { cwd : str; roots : list str }.

Definition READ_ONLY_PROGRAMS : list str :=
  [js "sed"; js "grep"; js "rg"; js "cat"; js "head"; js "tail"; js "wc"; js "ls"; js "sort"; js "uniq"; js "cut"; js "tr";
   js "awk"; js "find"].
Definition WRITE_REDIRECTS : list RedirectOperator := [RWrite; RAppend; RClobber; RBoth; RBothAppend].
Definition NULL_DEVICE : str := js "/dev/null".
Definition SED_LONG_OPTIONS : list str :=
  [js "--quiet"; js "--silent"; js "--regexp-extended"; js "--null-data"; js "--separate"; js "--unbuffered"; js "--posix"; js "--debug"].
Definition FIND_WRITING_OR_RUNNING_PREFIXES : list str := [js "-delete"; js "-exec"; js "-ok"; js "-fprint"; js "-fls"].
Definition AWK_FORBIDDEN_SCRIPT_TEXT : re :=
  r_alt [r_lit (js "system"); r_lit (js "getline"); RChr (one_of (js ">|"))].

Definition isOption (arg : str) : bool := startsWith arg (js "-") && bool_decide (1 < length arg).
Definition positionalsOf (arguments : list str) : list str := filter (λ arg, isOption arg = false) arguments.

(** [resolved.pop()] removes the last segment of a list that is built in order. *)
Definition path_step (resolved : list str) (segment : str) : list str :=
  if str_eqb segment (js "..") then take (length resolved - 1) resolved
  else if negb (str_eqb segment []) && negb (str_eqb segment (js ".")) then resolved ++ [segment]
  else resolved.
Definition normalizedSegments (path : str) : list str :=
  fold_left path_step (split_on (chr "/") path) [].

Fixpoint is_prefix (root path : list str) : bool :=
  match root, path with
  | [], _ => true
  | _ :: _, [] => false
  | a :: root', b :: path' => str_eqb b a && is_prefix root' path'
  end.
Definition isInsideRoot (path root : list str) : bool := negb (bool_decide (root = [])) && is_prefix root path.

Definition isReadableUnderRoots (operand : str) (scope : ReadScope) : bool :=
  if str_eqb operand (js "-") then true
  else
    let isResolvable := negb (existsb (one_of (js "$`")) operand) && negb (startsWith operand (js "~")) in
    if negb isResolvable then false
    else
      let absolute := if startsWith operand (js "/") then operand else cwd scope ++ js "/" ++ operand in
      let segments := normalizedSegments absolute in
      existsb (λ root, isInsideRoot segments (normalizedSegments root)) (roots scope).

Definition is_number (s : str) : bool := isDigits s.
Definition isDescriptorTarget (t : str) : bool := str_eqb t (js "-") || is_number t.

Definition redirectIsHarmless (redirect : CommandRedirect) (scope : ReadScope) : bool :=
  let op := redirectOperator redirect in
  let isDescriptorDuplication :=
    (bool_decide (op = RDupOut) || bool_decide (op = RDupIn)) && isDescriptorTarget (target redirect) in
  if isDescriptorDuplication then true
  else if bool_decide (op = RRead) then isReadableUnderRoots (target redirect) scope
  else bool_decide (op ∈ WRITE_REDIRECTS) && str_eqb (target redirect) NULL_DEVICE.

(** ** Arguments of each program: whether it only reads, and the files it names *)
Record Inspection := mkInspection { isReadOnly : bool; files : list str }.
Definition not_read_only : Inspection := mkInspection false [].

(** The loop of [sedIsReadOnly]: [None] is the early refusal. *)
Fixpoint sed_arguments (scripts positionals : list str) (l : list str) : option (list str * list str) :=
  match l with
  | [] => Some (scripts, positionals)
  | arg :: rest =>
      if startsWith arg (js "--expression=") then
        sed_arguments (scripts ++ [slice_from arg (length (js "--expression="))]) positionals rest
      else if str_eqb arg (js "--expression") then
        match rest with
        | [] => Some (scripts ++ [[]], positionals)
        | next :: rest' => sed_arguments (scripts ++ [next]) positionals rest'
        end
      else if startsWith arg (js "--") then
        if mem_str arg SED_LONG_OPTIONS then sed_arguments scripts positionals rest else None
      else if isOption arg then
        let cluster := slice_from arg 1 in
        if existsb (one_of (js "if")) cluster then None
        else
          match indexOf cluster (chr "e") 0 with
          | Some expressionAt =>
              let inline := slice_from cluster (expressionAt + 1) in
              if negb (str_eqb inline []) then sed_arguments (scripts ++ [inline]) positionals rest
              else
                match rest with
                | [] => Some (scripts ++ [[]], positionals)
                | next :: rest' => sed_arguments (scripts ++ [next]) positionals rest'
                end
          | None =>
              if existsb (one_of (js "l")) cluster then
                match rest with
                | [] => Some (scripts, positionals)
                | _ :: rest' => sed_arguments scripts positionals rest'
                end
              else sed_arguments scripts positionals rest
          end
      else sed_arguments scripts (positionals ++ [arg]) rest
  end.
Definition sedIsReadOnly (arguments : list str) : Inspection :=
  match sed_arguments [] [] arguments with
  | None => not_read_only
  | Some (scripts, positionals) =>
      let hasExpressionOption := negb (bool_decide (scripts = [])) in
      let allScripts := if hasExpressionOption then scripts else take 1 positionals in
      let named := if hasExpressionOption then positionals else drop 1 positionals in
      mkInspection (negb (bool_decide (allScripts = [])) && forallb isReadOnlySedScript allScripts) named
  end.

Fixpoint awk_arguments (positionals : list str) (l : list str) : option (list str) :=
  match l with
  | [] => Some positionals
  | arg :: rest =>
      if str_eqb arg (js "-F") || str_eqb arg (js "-v") then
        match rest with [] => Some positionals | _ :: rest' => awk_arguments positionals rest' end
      else if startsWith arg (js "-F") || (startsWith arg (js "-v") && bool_decide (2 < length arg)) then
        awk_arguments positionals rest
      else if isOption arg then None
      else awk_arguments (positionals ++ [arg]) rest
  end.
Definition awkIsReadOnly (arguments : list str) : Inspection :=
  match awk_arguments [] arguments with
  | None => not_read_only
  | Some [] => mkInspection false []
  | Some (script :: named) => mkInspection (negb (re_test AWK_FORBIDDEN_SCRIPT_TEXT script)) named
  end.

Definition searchIsReadOnly (prog : str) (arguments : list str) : Inspection :=
  let runsAPreprocessor := str_eqb prog (js "rg")
    && existsb (λ arg, startsWith arg (js "--pre") || startsWith arg (js "--hostname-bin")) arguments in
  let parsed := parseSearchArguments prog arguments in
  mkInspection (negb runsAPreprocessor) (searchedPaths parsed ++ patternFiles parsed).

Definition sortIsReadOnly (arguments : list str) : Inspection :=
  let writesOrRuns := existsb (λ arg, startsWith arg (js "--output") || startsWith arg (js "--compress-program")
    || (isOption arg && negb (startsWith arg (js "--")) && existsb (one_of (js "oT")) arg)) arguments in
  mkInspection (negb writesOrRuns) (positionalsOf arguments).

Definition uniqIsReadOnly (arguments : list str) : Inspection :=
  let named := positionalsOf arguments in mkInspection (bool_decide (length named ≤ 1)) named.

Fixpoint find_start_paths (l : list str) : list str :=
  match l with
  | [] => []
  | arg :: rest =>
      if startsWith arg (js "-") || str_eqb arg (js "!") || str_eqb arg (js "(") then []
      else arg :: find_start_paths rest
  end.
Definition findIsReadOnly (arguments : list str) : Inspection :=
  let writesOrRuns := existsb (λ arg, existsb (startsWith arg) FIND_WRITING_OR_RUNNING_PREFIXES) arguments in
  let startPaths := find_start_paths arguments in
  mkInspection (negb writesOrRuns) (match startPaths with [] => [js "."] | _ => startPaths end).

Definition inspectArguments (command : SimpleCommand) : Inspection :=
  let prog := program command in
  let arguments := args command in
  if str_eqb prog (js "sed") then sedIsReadOnly arguments
  else if str_eqb prog (js "awk") then awkIsReadOnly arguments
  else if str_eqb prog (js "grep") || str_eqb prog (js "rg") then searchIsReadOnly prog arguments
  else if str_eqb prog (js "sort") then sortIsReadOnly arguments
  else if str_eqb prog (js "uniq") then uniqIsReadOnly arguments
  else if str_eqb prog (js "find") then findIsReadOnly arguments
  else mkInspection true (positionalsOf arguments).

Definition isPlainInvocation (command : SimpleCommand) : bool :=
  mem_str (program command) READ_ONLY_PROGRAMS
  && bool_decide (wrappers command = []) && bool_decide (assignments command = [])
  && bool_decide (origin command ∈ [Otop; Osubshell]).

Definition isPlainReadWithin (command : SimpleCommand) (scope : ReadScope) : bool :=
  if negb (isPlainInvocation command) then false
  else if negb (forallb (λ redirect, redirectIsHarmless redirect scope) (redirects command)) then false
  else
    let inspection := inspectArguments command in
    isReadOnly inspection && forallb (λ file, isReadableUnderRoots file scope) (files inspection).

(** ** What a path operand reaches

    [walk dir names] is the directory reached from [dir] (its names from the root)
    by following [names] one at a time: [..] goes up and stays at the root, [.]
    and empty names stay, any other name goes down. *)
Inductive walk : list str → list str → list str → Prop :=
  | walk_done d : walk d [] d
  | walk_up d x names d' : walk d names d' → walk (d ++ [x]) (js ".." :: names) d'
  | walk_up_root names d' : walk [] names d' → walk [] (js ".." :: names) d'
  | walk_stay d n names d' : n = [] ∨ n = js "." → walk d names d' → walk d (n :: names) d'
  | walk_down d n names d' : n ≠ js ".." → n ≠ [] → n ≠ js "." → walk (d ++ [n]) names d' → walk d (n :: names) d'.

Lemma fold_path_step_walk names : ∀ d, walk d names (fold_left path_step names d).
Proof.
  induction names as [|n names IH]; intros d; simpl; [constructor|]. unfold path_step at 2.
  destruct (str_eqb n (js "..")) eqn:Hup.
  - apply str_eqb_eq in Hup as ->. destruct d as [|x d] using rev_ind; [by constructor|].
    rewrite length_app. simpl. replace (length d + 1 - 1) with (length d) by lia.
    rewrite take_app_length. by constructor.
  - apply str_eqb_neq in Hup. destruct (str_eqb n []) eqn:H0; simpl.
    { apply str_eqb_eq in H0 as ->. apply walk_stay; [by left|done]. }
    destruct (str_eqb n (js ".")) eqn:H1; simpl.
    { apply str_eqb_eq in H1 as ->. apply walk_stay; [by right|done]. }
    apply str_eqb_neq in H0, H1. by apply walk_down.
Qed.

Lemma normalizedSegments_relative base operand :
  normalizedSegments (base ++ js "/" ++ operand) =
  fold_left path_step (split_on (chr "/") operand) (normalizedSegments base).
Proof.
  unfold normalizedSegments. change (js "/" ++ operand) with (chr "/" :: operand).
  by rewrite split_on_app, fold_left_app.
Qed.

Lemma is_prefix_prefix root path : is_prefix root path = true → root `prefix_of` path.
Proof.
  revert path. induction root as [|a root IH]; intros path; simpl; [intros _; apply prefix_nil|].
  destruct path as [|b path]; [done|]. intros [->%str_eqb_eq H]%andb_true_iff. by apply prefix_cons, IH.
Qed.

(** The directory an operand is resolved from. *)
Definition start_of (operand : str) (scope : ReadScope) : list str :=
  if startsWith operand (js "/") then [] else normalizedSegments (cwd scope).

Lemma isReadableUnderRoots_walk operand scope :
  isReadableUnderRoots operand scope = true → operand ≠ js "-" →
  ∃ place root, walk (start_of operand scope) (split_on (chr "/") operand) place ∧
    root ∈ roots scope ∧ normalizedSegments root ≠ [] ∧ normalizedSegments root `prefix_of` place.
Proof.
  unfold isReadableUnderRoots. intros H Hd. apply str_eqb_neq in Hd. rewrite Hd in H.
  destruct (negb _) eqn:Hres; [done|].
  apply existsb_exists in H as (root & Hroot & Hin). unfold isInsideRoot in Hin.
  apply andb_true_iff in Hin as [Hne Hpre]. rewrite negb_true_iff, bool_decide_eq_false in Hne.
  apply is_prefix_prefix in Hpre. eexists _, root.
  split_and!; [|by apply list_elem_of_In|done|exact Hpre].
  unfold start_of. destruct (startsWith operand (js "/")).
  - apply fold_path_step_walk.
  - rewrite normalizedSegments_relative. apply fold_path_step_walk.
Qed.

(** A redirection that opens a file for writing. *)
Definition opens_for_writing (r : CommandRedirect) : Prop :=
  redirectOperator r ∈ [RWrite; RAppend; RClobber; RBoth; RBothAppend; RReadWrite] ∨
  (redirectOperator r = RDupOut ∧ isDescriptorTarget (target r) = false).

Lemma redirectIsHarmless_write r scope :
  redirectIsHarmless r scope = true → opens_for_writing r → target r = NULL_DEVICE.
Proof.
  unfold redirectIsHarmless, opens_for_writing. destruct (redirectOperator r); simpl; intros H [Hw|[Hop Hd]];
    try done; try (by apply str_eqb_eq); try (rewrite ?Hd in *; done); set_solver.
Qed.

Lemma redirectIsHarmless_read r scope :
  redirectIsHarmless r scope = true → redirectOperator r = RRead → isReadableUnderRoots (target r) scope = true.
Proof. unfold redirectIsHarmless. intros H Hr. by rewrite Hr in H. Qed.

(** A path operand that is accepted reaches a place under one of the roots:
    following its names one at a time from the working directory (or from the
    file system root when it is absolute), parent steps included, ends at a
    directory whose path starts with all the names of a root. *)
Theorem isReadableUnderRoots_confined operand scope :
  isReadableUnderRoots operand scope = true → operand ≠ js "-" →
  ∃ place root, walk (start_of operand scope) (split_on (chr "/") operand) place ∧
    root ∈ roots scope ∧ normalizedSegments root ≠ [] ∧ normalizedSegments root `prefix_of` place.
Proof. apply isReadableUnderRoots_walk. Qed.

Lemma isReadableUnderRoots_confined_witness :
  let scope := mkReadScope (js "/work/tree/src") [js "/work/tree"] in
  ∃ place root, walk (start_of (js "../docs/./a.md") scope) (split_on (chr "/") (js "../docs/./a.md")) place ∧
    root ∈ roots scope ∧ normalizedSegments root ≠ [] ∧ normalizedSegments root `prefix_of` place.
Proof.
  intros scope. apply (isReadableUnderRoots_confined (js "../docs/./a.md") scope); vm_compute; done.
Defined.

(** A command that is vouched for as a plain read runs one of the listed
    programs directly, opens nothing for writing but the null device, takes its
    input redirections and every file the inspection of its arguments names from under the roots, and
    the inspection of a sed accepts all its scripts. *)
Lemma isPlainReadWithin_parts command scope :
  isPlainReadWithin command scope = true →
  mem_str (program command) READ_ONLY_PROGRAMS = true ∧ wrappers command = [] ∧ assignments command = [] ∧
  (∀ r, r ∈ redirects command → opens_for_writing r → target r = NULL_DEVICE) ∧
  (∀ r, r ∈ redirects command → redirectOperator r = RRead → isReadableUnderRoots (target r) scope = true) ∧
  (∀ f, f ∈ files (inspectArguments command) → isReadableUnderRoots f scope = true) ∧
  (program command = js "sed" → isReadOnly (sedIsReadOnly (args command)) = true).
Proof.
  unfold isPlainReadWithin. destruct (isPlainInvocation command) eqn:Hplain; simpl; [|done].
  destruct (forallb _ (redirects command)) eqn:Hred; simpl; [|done].
  intros [Hro Hfiles]%andb_true_iff. rewrite forallb_forall in Hred, Hfiles.
  unfold isPlainInvocation in Hplain. rewrite !andb_true_iff, !bool_decide_eq_true in Hplain.
  destruct Hplain as [[[Hp Hw] Ha] _]. split_and!; try done.
  - intros r Hr. apply (redirectIsHarmless_write r scope), Hred. by apply list_elem_of_In.
  - intros r Hr. apply redirectIsHarmless_read, Hred. by apply list_elem_of_In.
  - intros f Hf. apply Hfiles. by apply list_elem_of_In.
  - intros Hsed. unfold inspectArguments in Hro. by rewrite Hsed in Hro.
Qed.

Definition plain_read_example : SimpleCommand :=
  mkCommand (js "sed") (js "sed") [js "-n"; js "1,3p"; js "src/a.ts"] [] [] []
    [mkRedirect RWrite (Some 2%N) (js "/dev/null") None] false Otop 0 false.
Lemma isPlainReadWithin_parts_holds :
  mem_str (program plain_read_example) READ_ONLY_PROGRAMS = true ∧
  isReadOnly (sedIsReadOnly (args plain_read_example)) = true.
Proof.
  destruct (isPlainReadWithin_parts plain_read_example (mkReadScope (js "/work") [js "/work"]))
    as (H1 & _ & _ & _ & _ & _ & H2).
  - vm_compute. reflexivity.
  - split; [exact H1|apply H2; reflexivity].
Defined.

(** GNU sort accepts an abbreviated long option, and [--outp=FILE] is an output
    file: the check only knows options that start with [--output]. *)
Theorem sort_output_abbreviation_is_vouched :
  isPlainReadWithin (mkCommand (js "sort") (js "sort") [js "--outp=/etc/hosts"; js "notes.txt"] [] [] [] [] false Otop 0 false)
    (mkReadScope (js "/w") [js "/w"]) = true.
Proof. vm_compute. reflexivity. Qed.
