(* ===== verification/ShellFileWrites.v ===== *)
(** * Writes outside the roots

    Model of [packages/core/src/policy/shellFileWrites.ts]: redirections, [tee],
    [sed -i], [dd of=] and interpreters whose inline code opens a file for writing. *)
From S2P Require Import Prelude JsText Regex ShellScanner CommandAnalyzer SedScript ReadOnlyAccess.

Definition FILE_WRITING_REDIRECTS : list RedirectOperator := [RWrite; RAppend; RClobber; RBoth; RBothAppend; RReadWrite].
Definition HARMLESS_DEVICES : list str := [js "/dev/null"; js "/dev/stdout"; js "/dev/stderr"; js "/dev/tty"].
Definition DESCRIPTOR_DEVICE_PREFIX : str := js "/dev/fd/".

(** ** The expressions, written as in the source *)
Definition lit (s : string) : re := r_lit (js s).
Arguments lit _%_string_scope.
Definition quote_mark : re := RChr (λ c, N.eqb c (chr "'") || N.eqb c DQUOTE).
Definition ws : re := r_space_star.
Definition mode_letters : re := RStar (RChr (one_of (js "rwxabt+"))).
Definition write_letter : re := RChr (one_of (js "wax+")).
(** A quoted mode string that has one of the write letters. *)
Definition write_mode : re := r_seq [quote_mark; mode_letters; write_letter; mode_letters; quote_mark].
(** An optional [mode =] keyword. *)
Definition mode_keyword : re := r_opt (r_seq [lit "mode"; ws; lit "="; ws]).

Definition INTERPRETER_PROGRAM : re :=
  r_seq [r_start;
         r_alt [RSeq (lit "python") (RStar (RChr (λ c, is_digit c || N.eqb c (chr "."))));
                RSeq (lit "node") (r_opt (lit "js")); lit "deno"; lit "bun"; lit "ruby"; lit "perl"; lit "php"];
         r_end].
Definition INLINE_CODE_OPTION : re :=
  r_seq [r_start; lit "-"; RStar (RChr is_alpha); RChr (one_of (js "ceEp"))].
Definition INLINE_CODE_LONG_OPTIONS : list str := [js "--eval"; js "--print"; js "--command"].
Definition INLINE_CODE_SUBCOMMANDS : list str := [js "eval"].
Definition PERL_IN_PLACE_OPTION : re :=
  r_seq [r_start; lit "-"; r_not_ahead (one_of (js "MmI")); RStar (RChr is_alnum); lit "i"].
Definition SED_SCRIPT_OPTIONS : list str := [js "-e"; js "-f"; js "--expression"; js "--file"].

Definition OPEN_FOR_WRITING : re :=
  r_seq [r_bound; lit "open"; ws; lit "("; ws;
         r_plus (RAlt (RChr (none_of (js ",()"))) (r_seq [lit "("; RStar (RChr (none_of (js "()"))); lit ")"]));
         lit ","; ws; mode_keyword; write_mode].
Definition OPEN_WITH_MODE_KEYWORD : re :=
  r_seq [r_bound; lit "open"; ws; lit "("; RStar (RChr (none_of (js ")"))); r_bound; lit "mode"; ws; lit "="; ws; write_mode].
Definition PATH_OPEN_FOR_WRITING : re := r_seq [lit ".open"; ws; lit "("; ws; mode_keyword; write_mode].
Definition ALIASED_OPEN_FOR_WRITING : re :=
  r_seq [lit "("; ws; RStar (RChr (none_of (js "()"))); lit ","; ws; quote_mark;
         r_any_of [js "w"; js "wb"; js "wt"; js "x"; js "xb"; js "ab"; js "a+"; js "w+"; js "r+"];
         quote_mark; ws; RChr (one_of (js ",)"))].
Definition WRITE_CALLS : re :=
  r_alt [r_seq [r_bound;
                r_any_of [js "write_text"; js "write_bytes"; js "writeFile"; js "writeFileSync"; js "writeTextFile";
                          js "appendFile"; js "appendFileSync"; js "createWriteStream"; js "copyFile"; js "copyFileSync";
                          js "file_put_contents"; js "binwrite"];
                r_bound];
         r_seq [r_bound; lit "Bun.write"; r_bound];
         r_seq [r_bound; r_any_of [js "File"; js "IO"]; lit ".write"; r_bound];
         RSeq (lit "O_") (r_any_of [js "WRONLY"; js "RDWR"; js "CREAT"])].
Definition OPEN_SYNC_FOR_WRITING : re :=
  r_seq [r_bound; r_any_of [js "openSync"; js "fopen"]; ws; lit "("; RStar (RChr (none_of (js ")"))); quote_mark;
         RChr (one_of (js "wax"))].
Definition RUBY_FILE_OPEN_FOR_WRITING : re :=
  r_seq [r_bound; lit "File.open"; ws; r_opt (lit "("); RStar (RChr (none_of (js ")"))); quote_mark; RChr (one_of (js "wa"))].
Definition PERL_OPEN_FOR_WRITING : re :=
  r_seq [r_bound; lit "open"; ws; r_opt (lit "("); RStar (RChr (none_of (js ";"))); quote_mark; ws; r_opt (lit "+"); lit ">"].
Definition SHELLS_OUT : re :=
  r_seq [r_bound;
         r_any_of [js "os.system"; js "subprocess"; js "popen"; js "child_process"; js "execSync"; js "spawnSync";
                   js "exec_sync"; js "system"];
         r_bound].
Definition SHELL_WRITE_TEXT : re :=
  r_alt [r_seq [RChr (none_of (js "-=>")); lit ">"; r_opt (lit ">"); ws;
                RChr (λ c, is_word c || one_of (js "./'$~") c || N.eqb c DQUOTE)];
         r_seq [r_bound; lit "tee"; r_bound];
         r_seq [r_bound; lit "sed"; r_plus (RChr is_space); lit "-i"];
         r_seq [r_bound; lit "dd"; RChr is_space]].
Definition DECODES_A_PAYLOAD : re :=
  r_alt [lit "b64decode"; lit "unhexlify"; lit "fromhex"; lit "zlib.decompress"; lit "marshal.loads";
         r_seq [r_bound; lit "atob"; ws; lit "("];
         r_seq [lit "Buffer.from("; RStar (RChr (none_of (js ")"))); quote_mark; r_any_of [js "base64"; js "hex"]; quote_mark]].
Definition RUNS_DECODED_CODE : re :=
  r_alt [r_seq [r_bound; r_any_of [js "exec"; js "eval"; js "compile"; js "Function"]; ws; lit "("];
         r_seq [r_bound; lit "import"; r_bound];
         r_seq [r_bound; lit "require"; r_bound]].
Definition CODE_WRITE_PATTERNS : list re :=
  [OPEN_FOR_WRITING; OPEN_WITH_MODE_KEYWORD; PATH_OPEN_FOR_WRITING; ALIASED_OPEN_FOR_WRITING; WRITE_CALLS;
   OPEN_SYNC_FOR_WRITING; RUBY_FILE_OPEN_FOR_WRITING; PERL_OPEN_FOR_WRITING].

(** ** Targets and programs *)
Definition operandsOf (arguments : list str) : list str := filter (λ arg, isOption arg = false) arguments.

Definition isHarmlessTarget (t : str) (scope : ReadScope) : bool :=
  let isDevice := mem_str t HARMLESS_DEVICES || startsWith t DESCRIPTOR_DEVICE_PREFIX in
  isDevice || isReadableUnderRoots t scope.

Definition redirectWritesFileOutside (redirect : CommandRedirect) (scope : ReadScope) : bool :=
  let op := redirectOperator redirect in
  let isDescriptorDuplication := bool_decide (op = RDupOut) && isDescriptorTarget (target redirect) in
  let writesAFile := negb isDescriptorDuplication
    && (bool_decide (op ∈ FILE_WRITING_REDIRECTS) || bool_decide (op = RDupOut)) in
  writesAFile && negb (str_eqb (target redirect) []) && negb (isHarmlessTarget (target redirect) scope).

Definition sedRewritesFileOutside (arguments : list str) (scope : ReadScope) (namesFilesOnStdin : bool) : bool :=
  let rewritesInPlace := existsb (λ arg, startsWith arg (js "--in-place")
    || (isOption arg && negb (startsWith arg (js "--")) && includes arg (js "i"))) arguments in
  if negb rewritesInPlace then false
  else
    let scriptCount := Nat.max 1 (length (filter (λ arg, mem_str arg SED_SCRIPT_OPTIONS = true) arguments)) in
    let named := drop scriptCount (operandsOf arguments) in
    if namesFilesOnStdin && bool_decide (named = []) then true
    else existsb (λ file, negb (isHarmlessTarget file scope)) named.

Definition ddWritesFileOutside (arguments : list str) (scope : ReadScope) : bool :=
  let outputs := (λ arg, slice_from arg (length (js "of="))) <$> filter (λ arg, startsWith arg (js "of=") = true) arguments in
  existsb (λ output, negb (isHarmlessTarget output scope)) outputs.

Definition hasInlineCode (arguments : list str) : bool :=
  let isCodeOption arg := re_test INLINE_CODE_OPTION arg
    || existsb (λ option, str_eqb arg option || startsWith arg (option ++ js "=")) INLINE_CODE_LONG_OPTIONS in
  existsb isCodeOption arguments || mem_str (default [] (head arguments)) INLINE_CODE_SUBCOMMANDS.

Definition codeTextOf (command : SimpleCommand) : str :=
  let stdinScripts := concat ((λ redirect,
    match redirectOperator redirect with
    | RHeredoc => [default [] (heredocBody redirect)]
    | RHereString => [target redirect]
    | _ => []
    end) <$> redirects command) in
  join [LF] ((if hasInlineCode (args command) then args command else []) ++ stdinScripts).

Definition codeWritesAFile (code : str) : bool :=
  if existsb (λ pattern, re_test pattern code) CODE_WRITE_PATTERNS then true
  else
    let shellsOutToAWrite := re_test SHELLS_OUT code && re_test SHELL_WRITE_TEXT code in
    let runsAHiddenPayload := re_test DECODES_A_PAYLOAD code && re_test RUNS_DECODED_CODE code in
    shellsOutToAWrite || runsAHiddenPayload.

Definition interpreterWritesAFile (command : SimpleCommand) : bool :=
  let isPerlInPlace := str_eqb (program command) (js "perl") && existsb (re_test PERL_IN_PLACE_OPTION) (args command) in
  isPerlInPlace || codeWritesAFile (codeTextOf command).

Definition programWritesFileOutside (command : SimpleCommand) (scope : ReadScope) : bool :=
  let prog := program command in
  let arguments := args command in
  let namesFilesOnStdin := mem_str (js "xargs") (wrappers command) in
  if str_eqb prog (js "tee") then
    (namesFilesOnStdin && bool_decide (operandsOf arguments = []))
    || existsb (λ file, negb (isHarmlessTarget file scope)) (operandsOf arguments)
  else if str_eqb prog (js "sed") then sedRewritesFileOutside arguments scope namesFilesOnStdin
  else if str_eqb prog (js "dd") then ddWritesFileOutside arguments scope
  else re_test INTERPRETER_PROGRAM prog && interpreterWritesAFile command.

Definition writesFileOutside (command : SimpleCommand) (scope : ReadScope) : bool :=
  existsb (λ redirect, redirectWritesFileOutside redirect scope) (redirects command)
  || programWritesFileOutside command scope.

(** ** Facts *)
Lemma redirect_reported r scope :
  redirectWritesFileOutside r scope = true ↔
  opens_for_writing r ∧ target r ≠ [] ∧ isHarmlessTarget (target r) scope = false.
Proof.
  unfold redirectWritesFileOutside, opens_for_writing.
  rewrite !andb_true_iff, !negb_true_iff, str_eqb_neq.
  destruct (redirectOperator r); simpl; try destruct (isDescriptorTarget (target r)); simpl;
    split; intros H; destruct_and?; split_and?; try done; try (set_solver); naive_solver.
Qed.

Lemma read_programs_are_not_writers prog :
  mem_str prog READ_ONLY_PROGRAMS = true → prog ≠ js "sed" →
  str_eqb prog (js "tee") = false ∧ str_eqb prog (js "sed") = false ∧
  str_eqb prog (js "dd") = false ∧ re_test INTERPRETER_PROGRAM prog = false.
Proof.
  intros H Hsed. apply mem_str_In in H.
  repeat (destruct H as [<-|H]; [try done; split_and!; vm_compute; reflexivity|]). done.
Qed.

(** A command is reported exactly when one of its redirections opens a file
    for writing at a target outside the roots that is not a harmless device
    (descriptor duplications, reads and empty targets do not count), or when its
    program itself writes one. *)
Theorem writesFileOutside_redirects command scope :
  writesFileOutside command scope = true ↔
  (∃ r, r ∈ redirects command ∧ opens_for_writing r ∧ target r ≠ [] ∧ isHarmlessTarget (target r) scope = false) ∨
  programWritesFileOutside command scope = true.
Proof.
  unfold writesFileOutside. rewrite orb_true_iff, existsb_exists. f_equiv. f_equiv. intros r.
  by rewrite <- list_elem_of_In, redirect_reported.
Qed.

(** The two judgements agree: a command vouched for as a plain read under some
    roots is never reported as writing outside of them ([sed] apart, whose
    in-place flag is judged on its own). *)
Theorem plain_read_writes_nothing_outside command scope :
  isPlainReadWithin command scope = true → program command ≠ js "sed" →
  writesFileOutside command scope = false.
Proof.
  unfold isPlainReadWithin. destruct (isPlainInvocation command) eqn:Hplain; simpl; [|done].
  destruct (forallb _ (redirects command)) eqn:Hred; simpl; [|done]. intros _ Hsed.
  unfold isPlainInvocation in Hplain. rewrite !andb_true_iff in Hplain. destruct Hplain as [[[Hp _] _] _].
  rewrite forallb_forall in Hred.
  destruct (read_programs_are_not_writers _ Hp Hsed) as (H1 & H2 & H3 & H4).
  unfold writesFileOutside, programWritesFileOutside. rewrite H1, H2, H3, H4. simpl. rewrite orb_false_r.
  destruct (existsb _ _) eqn:He; [|done]. apply existsb_exists in He as (r & Hr & Hout).
  apply redirect_reported in Hout as (Hw & _ & Hh). apply Hred in Hr.
  apply (redirectIsHarmless_write r scope) in Hr; [|done]. rewrite Hr in Hh. by vm_compute in Hh.
Qed.

Definition plain_cat : SimpleCommand :=
  mkCommand (js "cat") (js "cat") [js "a"] [] [] [] [mkRedirect RWrite (Some 2%N) (js "/dev/null") None] false Otop 0 false.
Lemma plain_read_writes_nothing_outside_witness :
  writesFileOutside plain_cat (mkReadScope (js "/w") [js "/w"]) = false.
Proof.
  apply plain_read_writes_nothing_outside; vm_compute; [reflexivity|discriminate].
Defined.

(** On BSD sed [-l] takes no value, so the option swallowed here as its value
    edits the file in place. *)
Example sed_line_length_hides_in_place :
  isPlainReadWithin
    (mkCommand (js "sed") (js "sed") [js "-l"; js "-i.bak"; js "s/a/b/"; js "f"] [] [] [] [] false Otop 0 false)
    (mkReadScope (js "/w") [js "/w"]) = true.
Proof. vm_compute. reflexivity. Qed.

Example inline_python_write :
  writesFileOutside
    (mkCommand (js "python3") (js "python3") [js "-c"; js "open('f', 'w').write('x')"] [] [] [] [] false Otop 0 false)
    (mkReadScope (js "/w") [js "/w"]) = true.
Proof. vm_compute. reflexivity. Qed.
Example inline_python_read :
  writesFileOutside
    (mkCommand (js "python3") (js "python3") [js "-c"; js "print(open('f').read())"] [] [] [] [] false Otop 0 false)
    (mkReadScope (js "/w") [js "/w"]) = false.
Proof. vm_compute. reflexivity. Qed.
