(* ===== verification/PolicyTypes.v ===== *)
(** * The policy contract

    Model of [packages/shared/src/commandPolicy.ts]: rules, predicates, profiles,
    the policy document, the request of one tool call and the verdict, and the
    schema of a declared command.  A JavaScript object used as a map is [rec]: its
    entries in enumeration order (keys are names, never array indices). *)
From S2P Require Import Prelude JsText Regex ShellScanner.

Abbreviation rec A := (list (str * A)).

Definition has_own {A} (r : rec A) (k : str) : bool := existsb (λ e, str_eqb e.1 k) r.
Fixpoint get {A} (r : rec A) (k : str) : option A :=
  match r with
  | [] => None
  | (k', v) :: r' => if str_eqb k' k then Some v else get r' k
  end.
(** [r[k] = v]: in place when the key exists, at the end otherwise. *)
Fixpoint put {A} (r : rec A) (k : str) (v : A) : rec A :=
  match r with
  | [] => [(k, v)]
  | (k', v') :: r' => if str_eqb k' k then (k', v) :: r' else (k', v') :: put r' k v
  end.
(** [{ ...a, ...b }] *)
Definition spread {A} (a b : rec A) : rec A := fold_left (λ r e, put r e.1 e.2) b a.

Inductive PolicyMode := ModeEnforce | ModeObserve | ModeOff.
Inductive ProfileMode := ProfileEnforce | ProfileObserve.
Inductive RuleDecision := Deny | Allow | Ask.
Inductive RuleActor := ActorSession | ActorSubagent | ActorAny.
Inductive RulePresence := PresenceAttended | PresenceUnattended | PresenceAny.
Inductive RuleCoverage := SomeCommand | EveryCommand.
Inductive PolicyPresence := Attended | Unattended.
Inductive PolicyActor := SessionActor | SubagentActor.
Inductive PolicySource := PreToolUse | PermissionRequest.

#[export] Instance PolicyMode_eq_dec : EqDecision PolicyMode.
Proof. solve_decision. Defined.
#[export] Instance ProfileMode_eq_dec : EqDecision ProfileMode.
Proof. solve_decision. Defined.
#[export] Instance RuleDecision_eq_dec : EqDecision RuleDecision.
Proof. solve_decision. Defined.
#[export] Instance PolicyPresence_eq_dec : EqDecision PolicyPresence.
Proof. solve_decision. Defined.
#[export] Instance PolicyActor_eq_dec : EqDecision PolicyActor.
Proof. solve_decision. Defined.
#[export] Instance RuleCoverage_eq_dec : EqDecision RuleCoverage.
Proof. solve_decision. Defined.

Record FlagGroups := mkFlagGroups
  { flags_all : option (list (list str)); flags_any : option (list (list str)); flags_none : option (list (list str)) }.

(** [OneOrMany]: a text or a list of texts. *)
Inductive OneOrMany := One (s : str) | Many (l : list str).

(** [p_otherKeys] are the keys of the object that are not in the interface. *)
Inductive RulePredicate := mkPredicate
  { p_program : option OneOrMany;
    p_subcommand : option OneOrMany;
    p_flags : option FlagGroups;
    p_commandPrefix : option (list (list str));
    p_repoWideSearch : option bool;
    p_writesPathMatching : option (list str);
    p_argMatching : option (list str);
    p_readsOnlyWithin : option (list str);
    p_recipientIsFleetSession : option bool;
    p_writesFilesOutside : option (list str);
    p_runsDeclaredCommand : option (list str);
    p_anyOf : option (list RulePredicate);
    p_allOf : option (list RulePredicate);
    p_not : option RulePredicate;
    p_otherKeys : list str }.

Record PolicyRule := mkRule
  { rule_id : str;
    rule_tools : option (list str);
    rule_harnesses : option (list str);
    rule_actor : option RuleActor;
    rule_presence : option RulePresence;
    rule_models : option (list str);
    rule_appliesTo : option RuleCoverage;
    rule_decision : RuleDecision;
    rule_when : RulePredicate;
    rule_reason : str;
    rule_alternative : option str;
    rule_escapeMarker : option str }.

Record PolicyProfile := mkProfile
  { profile_extends : option str; profile_rules : list str; profile_mode : option ProfileMode }.

Definition POLICY_DOCUMENT_VERSION : Z := 1.
Record CommandPolicyDocument := mkDocument
  { doc_version : Z;
    doc_mode : PolicyMode;
    doc_profiles : rec PolicyProfile;
    doc_roleToProfile : rec str;
    doc_rules : list PolicyRule }.

Record PolicyRequest := mkRequest
  { req_sessionId : str;
    req_harness : str;
    req_role : option str;
    req_model : option str;
    req_presence : PolicyPresence;
    req_actor : PolicyActor;
    req_source : PolicySource;
    req_toolName : str;
    req_command : option str;
    req_filePaths : option (list str);
    req_recipient : option str;
    req_recipientNamesManager : option bool;
    req_cwd : str;
    req_worktreeRoot : option str;
    req_scratchRoots : list str;
    req_toolResultsRoot : option str }.

Record ObservedRefusal := mkObserved { obs_ruleId : str; obs_reason : str; obs_alternative : option str }.
Inductive PolicyVerdict :=
  | VAllow (allowedBy : option str) (observed : option ObservedRefusal) (degraded : bool)
  | VDeny (ruleId reason alternative : str)
  | VAsk (ruleId reason : str).

(** ** Declared commands *)
Definition MAX_DECLARED_COMMANDS : nat := 50.
Definition MAX_DECLARED_COMMAND_CHARS : nat := 120.
Definition declaredUnit (c : N) : bool := is_alnum c || one_of (js "_.:/= -") c.
Definition DECLARED_COMMAND_PATTERN (s : str) : bool :=
  match s with [] => false | c :: rest => is_alnum c && forallb declaredUnit rest end.

Definition CHECK_SCRIPT : re :=
  r_any_of [js "test"; js "lint"; js "typecheck"; js "type-check"; js "type:check"].
Definition space_or_end : re := r_alt [r_lit (js " "); r_end].
Definition KNOWN_LAUNCHER_FORMS : list re :=
  [ r_seq [r_start; r_any_of [js "pytest"; js "mypy"; js "vitest"; js "jest"; js "tsc"; js "eslint"]; space_or_end];
    r_seq [r_start; r_lit (js "ruff check"); space_or_end];
    r_seq [r_start; r_lit (js "make");
           RStar (r_seq [r_lit (js " "); RChr is_word; RStar (RChr (λ c, is_alnum c || one_of (js "_.:-") c))]); r_end];
    r_seq [r_start; r_any_of [js "pnpm"; js "npm"; js "yarn"]; r_lit (js " ");
           r_alt [CHECK_SCRIPT; r_seq [r_lit (js "run "); CHECK_SCRIPT]]; space_or_end];
    r_seq [r_start; r_lit (js "cargo "); r_any_of [js "test"; js "clippy"; js "check"]; space_or_end];
    r_seq [r_start; r_lit (js "go "); r_any_of [js "test"; js "vet"]; space_or_end] ].
Definition startsWithKnownLauncher (command : str) : bool := existsb (λ form, re_test form command) KNOWN_LAUNCHER_FORMS.

(** [DeclaredCommandSchema.safeParse(command).success] *)
Definition DeclaredCommandSchema (command : str) : bool :=
  bool_decide (length command ≤ MAX_DECLARED_COMMAND_CHARS) && DECLARED_COMMAND_PATTERN command
  && startsWithKnownLauncher command.
Definition DeclaredCommandsSchema (commands : list str) : bool :=
  forallb DeclaredCommandSchema commands && bool_decide (length commands ≤ MAX_DECLARED_COMMANDS).

(** ** Records *)
Lemma has_own_get {A} (r : rec A) k : has_own r k = true ↔ is_Some (get r k).
Proof.
  induction r as [|[k' v] r IH]; simpl.
  { split; [done|by intros [? ?]]. }
  destruct (str_eqb k' k); simpl; [|done]. split; eauto.
Qed.
Lemma get_put {A} (r : rec A) k v k' : get (put r k v) k' = if str_eqb k k' then Some v else get r k'.
Proof.
  induction r as [|[k0 v0] r IH]; simpl; [done|].
  destruct (str_eqb k0 k) eqn:H0; simpl.
  - apply str_eqb_eq in H0 as ->. by destruct (str_eqb k k').
  - rewrite IH. destruct (str_eqb k0 k') eqn:H1; [|done].
    destruct (str_eqb k k') eqn:H2; [|done]. apply str_eqb_eq in H1, H2. subst.
    by rewrite str_eqb_refl in H0.
Qed.
(** The last entry of [b] for a key wins over [a]. *)
Lemma get_spread {A} (b a : rec A) k :
  NoDup b.*1 → get (spread a b) k = match get b k with Some v => Some v | None => get a k end.
Proof.
  unfold spread. revert a. induction b as [|[k0 v0] b IH]; intros a Hnd; simpl; [done|].
  apply list.NoDup_cons in Hnd as [Hn Hnd]. rewrite IH by done. rewrite get_put.
  destruct (get b k) as [v|] eqn:Hg; [|by destruct (str_eqb k0 k)].
  destruct (str_eqb k0 k) eqn:H0; [|done]. apply str_eqb_eq in H0 as ->. exfalso. apply Hn.
  clear -Hg. induction b as [|[k1 v1] b IH]; simpl in *; [done|]. rewrite elem_of_cons.
  destruct (str_eqb k1 k) eqn:H1; [apply str_eqb_eq in H1 as ->; by left|right; auto].
Qed.
Lemma get_key {A} (r : rec A) k v : get r k = Some v → k ∈ r.*1.
Proof.
  induction r as [|[k0 v0] r IH]; simpl; [done|]. destruct (str_eqb k0 k) eqn:Hk.
  - apply str_eqb_eq in Hk as ->. intros _. left.
  - intros H. right. auto.
Qed.

(** ** Maps built by [put] *)
Lemma put_elem {A} (r : rec A) k v e : e ∈ put r k v → e = (k, v) ∨ e ∈ r.
Proof.
  induction r as [|[k0 v0] r IH]; simpl; [intros ->%list_elem_of_singleton; by left|].
  destruct (str_eqb k0 k) eqn:Hk; rewrite !elem_of_cons; [apply str_eqb_eq in Hk as ->; tauto|naive_solver].
Qed.
Lemma put_keys {A} (r : rec A) k v : (put r k v).*1 = if has_own r k then r.*1 else r.*1 ++ [k].
Proof.
  induction r as [|[k0 v0] r IH]; csimpl; [done|].
  unfold has_own in *. csimpl. destruct (str_eqb k0 k); csimpl; [done|]. rewrite IH. by destruct (existsb _ r).
Qed.
Lemma has_own_keys {A} (r : rec A) k : has_own r k = true ↔ k ∈ r.*1.
Proof.
  unfold has_own. rewrite existsb_exists, list_elem_of_fmap. split.
  - intros (e & He%list_elem_of_In & <-%str_eqb_eq). by exists e.
  - intros (e & -> & He). exists e. rewrite <- list_elem_of_In. split; [done|apply str_eqb_refl].
Qed.
Lemma put_keys_NoDup {A} (r : rec A) k v : NoDup r.*1 → NoDup (put r k v).*1.
Proof.
  intros Hnd. rewrite put_keys. destruct (has_own r k) eqn:Hk; [done|].
  apply list.NoDup_app. split; [done|]. split; [|apply list.NoDup_singleton].
  intros x Hx ->%list_elem_of_singleton. apply has_own_keys in Hx. congruence.
Qed.
Lemma get_sound {A} (r : rec A) k v : get r k = Some v → (k, v) ∈ r.
Proof.
  induction r as [|[k0 v0] r IH]; simpl; [done|]. destruct (str_eqb k0 k) eqn:Hk; [|intros; right; auto].
  apply str_eqb_eq in Hk as ->. intros [= ->]. left.
Qed.
Lemma get_elem {A} (r : rec A) k v : NoDup r.*1 → (k, v) ∈ r → get r k = Some v.
Proof.
  induction r as [|[k0 v0] r IH]; intros Hnd Hin; [by apply elem_of_nil in Hin|].
  simpl in Hnd. apply list.NoDup_cons in Hnd as [Hn Hnd]. simpl.
  apply elem_of_cons in Hin as [[= -> ->]|Hin]; [by rewrite str_eqb_refl|].
  destruct (str_eqb k0 k) eqn:Hk; [|auto]. apply str_eqb_eq in Hk as ->. destruct Hn.
  apply list_elem_of_fmap. by exists (k, v).
Qed.

(** [map.delete(k)] *)
Definition del {A} (r : rec A) (k : str) : rec A := filter (λ e : str * A, e.1 ≠ k) r.

Lemma get_del_eq {A} (r : rec A) k : get (del r k) k = None.
Proof.
  unfold del. induction r as [|[k0 v] r IH]; [done|]. rewrite filter_cons. case_decide as Hd; [|done].
  simpl. simpl in Hd. apply str_eqb_neq in Hd. by rewrite Hd.
Qed.
Lemma get_del_ne {A} (r : rec A) k k' : k ≠ k' → get (del r k) k' = get r k'.
Proof.
  intros Hne. unfold del. induction r as [|[x v] r IH]; [done|]. rewrite filter_cons. destruct (decide _) as [Hx|Hx]; cbn in *; destruct (str_eqb x k') eqn:E; try done.
  apply str_eqb_eq in E. destruct Hx. congruence.
Qed.
Lemma get_del {A} (r : rec A) k k' : get (del r k) k' = if str_eqb k k' then None else get r k'.
Proof. destruct (str_eqb k k') eqn:E; [apply str_eqb_eq in E as ->; apply get_del_eq|]. apply get_del_ne. by apply str_eqb_neq. Qed.
Lemma get_filter_Some {A} (P : str * A → Prop) `{∀ e, Decision (P e)} (r : rec A) k v :
  NoDup r.*1 → get (filter P r) k = Some v → get r k = Some v ∧ P (k, v).
Proof.
  induction r as [|[k0 v0] r IH]; [done|]. csimpl. intros [Hn Hnd]%list.NoDup_cons. rewrite filter_cons.
  destruct (str_eqb k0 k) eqn:Hk.
  - apply str_eqb_eq in Hk as ->. case_decide as HP; simpl; [rewrite str_eqb_refl; by intros [= <-]|].
    intros Hg%get_key. exfalso. apply Hn. apply list_elem_of_fmap in Hg as (e & -> & [_ He]%list_elem_of_filter).
    apply list_elem_of_fmap. by exists e.
  - case_decide; simpl; [rewrite Hk|]; by apply IH.
Qed.
Lemma del_keys_NoDup {A} (P : str * A → Prop) `{∀ e, Decision (P e)} (r : rec A) : NoDup r.*1 → NoDup (filter P r).*1.
Proof. intros Hnd. eapply sublist_NoDup; [exact Hnd|]. apply fmap_sublist, sublist_filter. Qed.
Lemma put_length {A} (r : rec A) k v : length (put r k v) ≤ S (length r).
Proof. induction r as [|[k0 v0] r IH]; simpl; [lia|]. destruct (str_eqb k0 k); simpl; lia. Qed.
