(* ===== verification/NodePath.v ===== *)
(** * POSIX paths

    The functions of [node:path] (POSIX flavour) the modelled code uses, on top of
    the lexical normalisation of [ReadOnlyAccess]. *)
From S2P Require Import Prelude JsText ReadOnlyAccess.

Definition sep : str := js "/".
Definition isAbsolute (path : str) : bool := startsWith path sep.

(** One segment of [normalizeString]; a relative path keeps the [..] that lead out of it. *)
Definition normalize_step (allowAboveRoot : bool) (resolved : list str) (segment : str) : list str :=
  if str_eqb segment [] || str_eqb segment (js ".") then resolved
  else if str_eqb segment (js "..") then
    match head (reverse resolved) with
    | Some l => if str_eqb l (js "..") then (if allowAboveRoot then resolved ++ [segment] else resolved)
                else take (length resolved - 1) resolved
    | None => if allowAboveRoot then [segment] else []
    end
  else resolved ++ [segment].
Definition normalize_segments (allowAboveRoot : bool) (path : str) : list str :=
  fold_left (normalize_step allowAboveRoot) (split_on (chr "/") path) [].

(** [path.normalize]: an absolute path stays absolute, a final separator is kept. *)
Definition normalize (path : str) : str :=
  if str_eqb path [] then js "."
  else
    let absolute := isAbsolute path in
    let text := join sep (normalize_segments (negb absolute) path) in
    let trailing := endsWith path sep in
    match text with
    | [] => if absolute then sep else if trailing then js "./" else js "."
    | _ => (if absolute then sep else []) ++ text ++ (if trailing then sep else [])
    end.
Definition path_join (parts : list str) : str :=
  let kept := filter (λ p : str, p ≠ []) parts in
  normalize (join sep kept).

(** [path.resolve(path)]; [processCwd] is [process.cwd()], an absolute path. *)
Definition resolve (processCwd path : str) : str :=
  let full := if isAbsolute path then path else processCwd ++ sep ++ path in
  sep ++ join sep (normalizedSegments full).

(** [path.dirname] and [path.basename] of a path without a final separator. *)
Definition dirname (path : str) : str :=
  match lastIndexOf (chr "/") path with
  | None => js "."
  | Some O => sep
  | Some i => take i path
  end.
Definition basename (path : str) : str :=
  match lastIndexOf (chr "/") path with
  | None => path
  | Some i => drop (S i) path
  end.

Lemma lastIndexOf_Some c s i : lastIndexOf c s = Some i → s !! i = Some c ∧ c ∉ drop (S i) s.
Proof.
  revert i. induction s as [|d s IH]; intros i; simpl; [done|].
  destruct (lastIndexOf c s) as [j|] eqn:Hj.
  - intros [= <-]. destruct (IH j eq_refl). by split.
  - destruct (N.eqb_spec d c) as [->|]; [|done]. intros [= <-]. simpl. split; [done|].
    clear -Hj. rewrite drop_0. induction s as [|d s IH]; [set_solver|]. simpl in Hj.
    destruct (lastIndexOf c s) eqn:Hs; [done|]. destruct (N.eqb_spec d c) as [|Hne]; [done|].
    specialize (IH eq_refl). rewrite not_elem_of_cons. by split.
Qed.

Lemma startsWith_nil s : startsWith s [] = true.
Proof. by destruct s. Qed.
Lemma isAbsolute_slash rest : isAbsolute (chr "/" :: rest) = true.
Proof. exact (startsWith_nil rest). Qed.
Lemma isAbsolute_inv path : isAbsolute path = true → ∃ rest, path = chr "/" :: rest.
Proof.
  unfold isAbsolute. change sep with [chr "/"]. destruct path as [|c rest]; [done|]. cbn [startsWith].
  destruct (N.eqb_spec c (chr "/")) as [->|]; [by exists rest|done].
Qed.

Lemma absolute_has_separator rest : lastIndexOf (chr "/") (chr "/" :: rest) ≠ None.
Proof. cbn [lastIndexOf]. by destruct (lastIndexOf (chr "/") rest); rewrite ?N.eqb_refl. Qed.

(** The parent of an absolute path that is not its own parent is shorter. *)
Lemma dirname_shorter path : isAbsolute path = true → dirname path ≠ path → length (dirname path) < length path.
Proof.
  unfold dirname. intros [rest ->]%isAbsolute_inv Hne.
  destruct (lastIndexOf (chr "/") (chr "/" :: rest)) as [[|i]|] eqn:Hi.
  - destruct rest; [done|]. change (length sep) with 1. cbn [length]. lia.
  - apply lastIndexOf_Some in Hi as [Hi _]. apply lookup_lt_Some in Hi. rewrite length_take. lia.
  - by apply absolute_has_separator in Hi.
Qed.

Lemma dirname_absolute path : isAbsolute path = true → isAbsolute (dirname path) = true.
Proof.
  unfold dirname. intros [rest ->]%isAbsolute_inv.
  destruct (lastIndexOf (chr "/") (chr "/" :: rest)) as [[|i]|] eqn:Hi; [done|apply isAbsolute_slash|].
  by apply absolute_has_separator in Hi.
Qed.

Lemma resolve_absolute p path : isAbsolute (resolve p path) = true.
Proof. apply isAbsolute_slash. Qed.
