(* ===== verification/GhPrCreate.v ===== *)
(** * Pull request creations

    Model of [packages/core/src/policy/ghPrCreate.ts]: which [gh], [gh api] and
    [glab] commands open a pull or merge request, and the head branch they name. *)
From S2P Require Import Prelude JsText Regex ShellScanner CommandAnalyzer.

Definition REPO_OPTIONS_WITH_VALUE : list str := [js "-R"; js "--repo"].
Definition HEAD_OPTIONS_WITH_VALUE : list str := [js "--head"; js "-H"].
Definition HEAD_ASSIGNMENT_PREFIX : str := js "--head=".
Definition SHORT_HEAD_PREFIX : str := js "-H".
Definition OWNER_SEPARATOR : N := chr ":".

Record PullRequestCreation := mkCreation { headBranch : option str }.

(** ** Repository options *)
Definition isInlineRepoOption (arg : str) : bool :=
  startsWith arg (js "--repo=") || (startsWith arg (js "-R") && bool_decide (2 < length arg)).
Fixpoint argsWithoutLeadingRepoOptions (l : list str) : list str :=
  match l with
  | [] => []
  | arg :: rest =>
      if mem_str arg REPO_OPTIONS_WITH_VALUE then
        match rest with [] => [] | _ :: rest' => argsWithoutLeadingRepoOptions rest' end
      else if isInlineRepoOption arg then argsWithoutLeadingRepoOptions rest
      else l
  end.

Definition GROUPS_THAT_TAKE_REPO_OPTIONS_BEFORE_THE_ACTION : list (str * str) :=
  [(js "gh", js "pr"); (js "glab", js "mr")].
Definition argsWithoutRepoOptionsAroundGroup (prog : str) (arguments : list str) : list str :=
  match argsWithoutLeadingRepoOptions arguments with
  | [] => []
  | group :: afterGroup =>
      if bool_decide (assoc_str prog GROUPS_THAT_TAKE_REPO_OPTIONS_BEFORE_THE_ACTION = Some group)
      then group :: argsWithoutLeadingRepoOptions afterGroup
      else group :: afterGroup
  end.

(** ** Head branches *)
Fixpoint headValueOf (l : list str) : option str :=
  match l with
  | [] => None
  | arg :: rest =>
      if mem_str arg HEAD_OPTIONS_WITH_VALUE then head rest
      else if startsWith arg HEAD_ASSIGNMENT_PREFIX then Some (slice_from arg (length HEAD_ASSIGNMENT_PREFIX))
      else if startsWith arg SHORT_HEAD_PREFIX && bool_decide (length SHORT_HEAD_PREFIX < length arg)
              && negb (startsWith arg (js "--"))
      then Some (slice_from arg (length SHORT_HEAD_PREFIX))
      else headValueOf rest
  end.

Definition branchOf (headValue : str) : str :=
  slice_from headValue (match lastIndexOf OWNER_SEPARATOR headValue with Some i => i + 1 | None => 0 end).
Definition creationWithHead (headValue : option str) : PullRequestCreation :=
  let branch := match headValue with None => [] | Some v => branchOf v end in
  mkCreation (if str_eqb branch [] then None else Some branch).

Definition GLAB_SOURCE_BRANCH_OPTIONS : list str := [js "--source-branch"; js "-s"].
Definition GLAB_SOURCE_BRANCH_ASSIGNMENT_PREFIX : str := js "--source-branch=".
Fixpoint glabSourceBranchOf (l : list str) : option str :=
  match l with
  | [] => None
  | arg :: rest =>
      if mem_str arg GLAB_SOURCE_BRANCH_OPTIONS then head rest
      else if startsWith arg GLAB_SOURCE_BRANCH_ASSIGNMENT_PREFIX
      then Some (slice_from arg (length GLAB_SOURCE_BRANCH_ASSIGNMENT_PREFIX))
      else glabSourceBranchOf rest
  end.

(** ** [gh api] *)
Definition API_METHOD_OPTIONS : list str := [js "-X"; js "--method"].
Definition API_METHOD_ASSIGNMENT_PREFIX : str := js "--method=".
Definition API_FIELD_OPTIONS : list str := [js "-f"; js "-F"; js "--field"; js "--raw-field"].
Definition API_FIELD_ASSIGNMENT_PREFIXES : list str := [js "--field="; js "--raw-field="].
Definition API_OPTIONS_WITH_OTHER_VALUE : list str :=
  [js "-H"; js "--header"; js "-q"; js "--jq"; js "-t"; js "--template"; js "--hostname"; js "--cache"].
Definition PULLS_ENDPOINT : re :=
  r_seq [r_alt [r_start; r_lit (js "/")]; r_lit (js "pulls"); r_opt (r_lit (js "/")); r_end].
Definition HEAD_FIELD_PREFIX : str := js "head=".

Record ApiRequest := mkApiRequest
  { endpoint : option str; method : option str; fields : list str; hasInput : bool }.

(** [/^-[fF]./]: the dot is any code unit but a line terminator. *)
Definition isAttachedShortField (arg : str) : bool :=
  match arg with
  | d :: f :: c :: _ =>
      N.eqb d (chr "-") && (N.eqb f (chr "f") || N.eqb f (chr "F")) && negb (mem_chr c [LF; CR; 8232; 8233]%N)
  | _ => false
  end.

Fixpoint api_loop (request : ApiRequest) (l : list str) : ApiRequest :=
  let '(mkApiRequest e m fs inp) := request in
  match l with
  | [] => request
  | arg :: rest =>
      if mem_str arg API_METHOD_OPTIONS then
        match rest with
        | [] => mkApiRequest e None fs inp
        | next :: rest' => api_loop (mkApiRequest e (Some next) fs inp) rest'
        end
      else if startsWith arg API_METHOD_ASSIGNMENT_PREFIX then
        api_loop (mkApiRequest e (Some (slice_from arg (length API_METHOD_ASSIGNMENT_PREFIX))) fs inp) rest
      else if startsWith arg (js "-X") && negb (startsWith arg (js "--")) then
        api_loop (mkApiRequest e (Some (slice_from arg 2)) fs inp) rest
      else if mem_str arg API_FIELD_OPTIONS then
        match rest with
        | [] => request
        | next :: rest' => api_loop (mkApiRequest e m (fs ++ [next]) inp) rest'
        end
      else
        match find (startsWith arg) API_FIELD_ASSIGNMENT_PREFIXES with
        | Some fieldPrefix => api_loop (mkApiRequest e m (fs ++ [slice_from arg (length fieldPrefix)]) inp) rest
        | None =>
            if isAttachedShortField arg then api_loop (mkApiRequest e m (fs ++ [slice_from arg 2]) inp) rest
            else if str_eqb arg (js "--input") then
              match rest with
              | [] => mkApiRequest e m fs true
              | _ :: rest' => api_loop (mkApiRequest e m fs true) rest'
              end
            else if mem_str arg API_OPTIONS_WITH_OTHER_VALUE then
              match rest with [] => request | _ :: rest' => api_loop request rest' end
            else
              let isPositional := negb (startsWith arg (js "-")) in
              api_loop (mkApiRequest (match e with
                                      | None => if isPositional then Some arg else None
                                      | Some _ => e
                                      end) m fs inp) rest
        end
  end.
Definition apiRequestOf (arguments : list str) : ApiRequest := api_loop (mkApiRequest None None [] false) arguments.

Definition apiCreationOf (arguments : list str) : option PullRequestCreation :=
  let '(mkApiRequest e m fs inp) := apiRequestOf arguments in
  let endpointPath := take_while (none_of (js "?#")) <$> e in
  let targetsPulls := match endpointPath with None => false | Some p => re_test PULLS_ENDPOINT p end in
  let carriesBody := bool_decide (0 < length fs) || inp in
  let effectiveMethod := toUpperCase (default (if carriesBody then js "POST" else js "GET") m) in
  if negb targetsPulls || negb (str_eqb effectiveMethod (js "POST")) then None
  else
    let headField := find (λ field, startsWith field HEAD_FIELD_PREFIX) fs in
    Some (creationWithHead ((λ field, slice_from field (length HEAD_FIELD_PREFIX)) <$> headField)).

Definition creationOf (command : SimpleCommand) : option PullRequestCreation :=
  let prog := program command in
  if str_eqb prog (js "glab") then
    match argsWithoutRepoOptionsAroundGroup prog (args command) with
    | group :: action :: options =>
        if str_eqb group (js "mr") && (str_eqb action (js "create") || str_eqb action (js "new"))
        then Some (creationWithHead (glabSourceBranchOf options)) else None
    | _ => None
    end
  else if negb (str_eqb prog (js "gh")) then None
  else
    match argsWithoutRepoOptionsAroundGroup prog (args command) with
    | [] => None
    | group :: rest =>
        if str_eqb group (js "api") then apiCreationOf rest
        else
          match rest with
          | action :: options =>
              if str_eqb group (js "pr") && str_eqb action (js "create")
              then Some (creationWithHead (headValueOf options)) else None
          | [] => None
          end
    end.

Definition pullRequestCreationsOf (commandText : str) : list PullRequestCreation :=
  omap creationOf (analysis_commands (analyzeCommand commandText)).

(** ** Repository options never hide a creation *)

(** A run of repository options: each one alone, or followed by its value. *)
Inductive repo_options : list str → Prop :=
  | repo_none : repo_options []
  | repo_valued o v l : o ∈ REPO_OPTIONS_WITH_VALUE → repo_options l → repo_options (o :: v :: l)
  | repo_inline o l : isInlineRepoOption o = true → repo_options l → repo_options (o :: l).

Lemma inline_not_valued o : isInlineRepoOption o = true → mem_str o REPO_OPTIONS_WITH_VALUE = false.
Proof.
  intros Ho. destruct (mem_str o REPO_OPTIONS_WITH_VALUE) eqn:Hm; [|done].
  apply mem_str_In in Hm as [<-|[<-|[]]]; vm_compute in Ho; discriminate.
Qed.

Lemma leading_repo_options_skipped l rest :
  repo_options l → argsWithoutLeadingRepoOptions (l ++ rest) = argsWithoutLeadingRepoOptions rest.
Proof.
  induction 1 as [|o v l Ho _ IH|o l Ho _ IH]; [done| |]; cbn [app argsWithoutLeadingRepoOptions].
  - replace (mem_str o REPO_OPTIONS_WITH_VALUE) with true; [done|].
    symmetry. apply mem_str_In. by apply list_elem_of_In.
  - by rewrite (inline_not_valued _ Ho), Ho.
Qed.

(** What [argsWithoutLeadingRepoOptions] removes is a run of repository options
    (the last one may lack its value), and what it leaves does not start with one. *)
Lemma leading_repo_options_split : ∀ n l, length l ≤ n →
  ∃ opts, repo_options opts ∧
    (l = opts ++ argsWithoutLeadingRepoOptions l ∨
     argsWithoutLeadingRepoOptions l = [] ∧ ∃ o, o ∈ REPO_OPTIONS_WITH_VALUE ∧ l = opts ++ [o]).
Proof.
  induction n as [|n IH]; intros [|a l] Hlen; simpl in Hlen; try lia;
    try (exists []; split; [constructor|by left]).
  cbn [argsWithoutLeadingRepoOptions].
  destruct (mem_str a REPO_OPTIONS_WITH_VALUE) eqn:Hm; [|destruct (isInlineRepoOption a) eqn:Hi].
  - apply mem_str_In, list_elem_of_In in Hm. destruct l as [|v l].
    { exists []. split; [constructor|]. right. split; [done|]. by exists a. }
    destruct (IH l) as (opts & Ho & Hl); [simpl in Hlen; lia|].
    exists (a :: v :: opts). split; [by constructor|].
    destruct Hl as [Hl|(Hl & o & Hin & ->)]; [left|right].
    + simpl. by rewrite <- Hl.
    + split; [done|]. by exists o.
  - destruct (IH l) as (opts & Ho & Hl); [lia|].
    exists (a :: opts). split; [by constructor|].
    destruct Hl as [Hl|(Hl & o & Hin & ->)]; [left|right].
    + simpl. by rewrite <- Hl.
    + split; [done|]. by exists o.
  - exists []. split; [constructor|by left].
Qed.

Lemma plain_word_kept w l :
  mem_str w REPO_OPTIONS_WITH_VALUE = false → isInlineRepoOption w = false →
  argsWithoutLeadingRepoOptions (w :: l) = w :: l.
Proof. intros H1 H2. cbn [argsWithoutLeadingRepoOptions]. by rewrite H1, H2. Qed.

Lemma around_group_normal prog group action l1 l2 options :
  assoc_str prog GROUPS_THAT_TAKE_REPO_OPTIONS_BEFORE_THE_ACTION = Some group →
  mem_str group REPO_OPTIONS_WITH_VALUE = false → isInlineRepoOption group = false →
  mem_str action REPO_OPTIONS_WITH_VALUE = false → isInlineRepoOption action = false →
  repo_options l1 → repo_options l2 →
  argsWithoutRepoOptionsAroundGroup prog (l1 ++ group :: l2 ++ action :: options) = group :: action :: options.
Proof.
  intros Hg Hg1 Hg2 Ha1 Ha2 H1 H2. unfold argsWithoutRepoOptionsAroundGroup.
  rewrite leading_repo_options_skipped, plain_word_kept by done.
  rewrite bool_decide_true by done. by rewrite leading_repo_options_skipped, plain_word_kept.
Qed.

(** Repository options around the group never hide a pull or merge request
    creation: with any run of [-R r], [--repo r], [--repo=r], [-Rr] before the
    group and before the action, [gh pr create] and [glab mr create] (or [new]) are
    reported with exactly the head branch their remaining options name. *)
Theorem repo_options_never_hide_a_creation c l1 l2 options :
  repo_options l1 → repo_options l2 →
  (program c = js "gh" → args c = l1 ++ js "pr" :: l2 ++ js "create" :: options →
   creationOf c = Some (creationWithHead (headValueOf options))) ∧
  (∀ action, action ∈ [js "create"; js "new"] →
   program c = js "glab" → args c = l1 ++ js "mr" :: l2 ++ action :: options →
   creationOf c = Some (creationWithHead (glabSourceBranchOf options))).
Proof.
  intros H1 H2. split.
  - intros Hp Ha. unfold creationOf. rewrite Hp, Ha.
    by rewrite (around_group_normal (js "gh") (js "pr") (js "create")).
  - intros action Hin Hp Ha. unfold creationOf. rewrite Hp, Ha.
    rewrite !elem_of_cons, elem_of_nil in Hin. destruct Hin as [->|[->|[]]];
      by rewrite (around_group_normal (js "glab") (js "mr")).
Qed.

Definition sample_gh : SimpleCommand :=
  mkCommand (js "gh") (js "gh")
    [js "-R"; js "o/r"; js "pr"; js "--repo=o/r"; js "create"; js "--head"; js "me:topic"]
    [] [] [] [] false Otop 0 false.
Lemma repo_options_never_hide_a_creation_witness :
  creationOf sample_gh = Some (mkCreation (Some (js "topic"))).
Proof.
  transitivity (Some (creationWithHead (headValueOf [js "--head"; js "me:topic"]))); [|reflexivity].
  destruct (repo_options_never_hide_a_creation sample_gh [js "-R"; js "o/r"] [js "--repo=o/r"]
              [js "--head"; js "me:topic"]) as [Hgh _].
  - apply repo_valued; [left|constructor].
  - apply repo_inline; [reflexivity|constructor].
  - apply Hgh; reflexivity.
Defined.

Example api_post_is_a_creation :
  pullRequestCreationsOf (js "cd x && gh api repos/o/r/pulls -f head=me:topic -f base=main")
  = [mkCreation (Some (js "topic"))].
Proof. vm_compute. reflexivity. Qed.
