(* ===== verification/DeclaredCommands.v ===== *)
(** * Declared commands

    Model of [packages/core/src/policy/declaredCommands.ts]: when a simple command
    is one of the test, lint and typecheck commands a project declared, run inside
    the worktree.  The file system is a parameter: [realpathNative] is
    [realpathSync.native], [None] when it throws. *)
From S2P Require Import Prelude JsText Regex ShellScanner CommandAnalyzer ReadOnlyAccess PolicyTypes NodePath.

Record Scope := mkScope { worktreeRoot : str; scopeCwd : str; writableRoots : list str }.
Record Invocation := mkInvoked { inv_words : list str; inv_bases : list str }.

Definition UNSAFE_UNITS : list N := js "$`~;|&<>(){}!" ++ [LF; CR; BACKSLASH].
Definition UNSAFE_TEXT (s : str) : bool := existsb (λ c, mem_chr c UNSAFE_UNITS) s.
Definition UNSAFE_PATH_TEXT (s : str) : bool := existsb (λ c, mem_chr c (UNSAFE_UNITS ++ js "*?[]")) s.
Definition BARE_PROGRAM (s : str) : bool :=
  match s with [] => false | c :: rest => is_alnum c && forallb (λ d, is_alnum d || one_of (js "._:-") d) rest end.
Definition ALLOWED_ENVIRONMENT_NAMES : list str :=
  [js "CI"; js "NODE_ENV"; js "FORCE_COLOR"; js "NO_COLOR"; js "PYTHONDONTWRITEBYTECODE"; js "PYTHONUNBUFFERED"; js "TZ"; js "LANG"].
Definition PLAIN_ENVIRONMENT_VALUE (s : str) : bool := forallb (λ d, is_alnum d || one_of (js "_.:-") d) s.
Definition PACKAGE_VERSION_CONSTRAINT : re :=
  r_seq [r_any_of [js "=="; js ">="; js "<="; js "~="; js "!="; js "<"; js ">"];
         r_plus (RChr is_digit); RStar (RSeq (r_lit (js ".")) (r_plus (RChr is_digit))); r_opt (r_lit (js ".*"))].
Definition PYTEST_PACKAGE_SPEC : re :=
  r_seq [r_start;
         r_alt [r_lit (js "pytest"); r_lit (js "coverage");
                r_seq [r_lit (js "pytest"); RChr (one_of (js "-_"));
                       r_any_of [js "cov"; js "xdist"; js "asyncio"; js "mock"; js "timeout"; js "randomly"]]];
         r_opt PACKAGE_VERSION_CONSTRAINT; r_end].
Definition PLAIN_NAME (s : str) : bool :=
  negb (bool_decide (s = [])) && forallb (λ d, is_alnum d || one_of (js "_.-") d) s.

Definition UV_FLAGS : list str :=
  [js "--frozen"; js "--locked"; js "--offline"; js "--no-sync"; js "-q"; js "--quiet"; js "--all-extras"; js "--dev"; js "--no-dev"].
Definition UV_PATH_OPTIONS : list str := [js "--directory"; js "--project"].
Definition UV_NAME_OPTIONS : list str := [js "--extra"; js "--group"].
Definition DIRECTORY_OPTIONS_OF_PNPM : list str := [js "-C"; js "--dir"].
Definition DIRECTORY_OPTIONS_OF_MAKE : list str := [js "-C"; js "--directory"].

Definition COVERAGE_REPORT_WITHOUT_FILE : re :=
  r_seq [r_start; r_any_of [js "term"; js "term-missing"; js "annotate"]; r_opt (r_lit (js ":skip-covered")); r_end].

(** ** Option policies *)
Inductive ValueRule := VPattern (test : str → bool) | VWorktreePath | VWritablePath | VCoverageReport.
Record OptionPolicy := mkOptionPolicy
  { op_flags : list str;
    op_clusterLetters : str;
    op_valued : list (str * ValueRule);
    op_allowsOperands : bool;
    op_onlyFirstOperand : option str }.

Definition one_word_of (l : list str) : ValueRule := VPattern (λ s, mem_str s l).
Definition all_units (p : N → bool) : ValueRule := VPattern (λ s, negb (bool_decide (s = [])) && forallb p s).
Definition ANY_TEXT : ValueRule := VPattern (λ _, true).
Definition NUMBER : ValueRule := VPattern is_number.
Definition JOBS : ValueRule := VPattern (λ s, mem_str s [js "auto"; js "logical"] || is_number s).
Definition RULE_CODES : ValueRule := all_units (λ c, is_alnum c || N.eqb c (chr ",")).
Definition OPTION_POLICY_WITHOUT_OPTIONS : OptionPolicy := mkOptionPolicy [] [] [] true None.

Definition OPTION_POLICIES : list (str * OptionPolicy) :=
  [ (js "pytest", mkOptionPolicy
      [js "--quiet"; js "--verbose"; js "--exitfirst"; js "--no-header"; js "--disable-warnings"; js "--lf"; js "--ff"; js "--nf";
       js "--last-failed"; js "--failed-first"; js "--new-first"; js "--collect-only"; js "--showlocals"; js "--strict-markers";
       js "--strict-config"; js "--cov"; js "--no-cov"; js "--cov-branch"; js "--setup-show"; js "--cache-clear"]
      (js "qvxsl")
      [ (js "-k", ANY_TEXT); (js "-m", ANY_TEXT); (js "-n", JOBS); (js "-r", all_units is_alpha);
        (js "--tb", one_word_of [js "auto"; js "long"; js "short"; js "line"; js "native"; js "no"]);
        (js "--maxfail", NUMBER); (js "--durations", NUMBER); (js "--timeout", NUMBER);
        (js "--color", one_word_of [js "yes"; js "no"; js "auto"]);
        (js "--capture", one_word_of [js "fd"; js "sys"; js "no"; js "tee-sys"]);
        (js "--cov", VWorktreePath); (js "--cov-fail-under", NUMBER); (js "--cov-report", VCoverageReport);
        (js "--rootdir", VWorktreePath); (js "--ignore", VWorktreePath); (js "--junitxml", VWritablePath);
        (js "--basetemp", VWritablePath) ]
      true None);
    (js "ruff", mkOptionPolicy
      [js "--quiet"; js "--statistics"; js "--diff"; js "--no-cache"; js "--exit-zero"; js "--no-fix"]
      (js "q")
      [ (js "--select", RULE_CODES); (js "--ignore", RULE_CODES); (js "--extend-select", RULE_CODES);
        (js "--output-format", one_word_of [js "concise"; js "full"; js "json"; js "grouped"; js "github"; js "pylint"]) ]
      true None);
    (js "mypy", mkOptionPolicy
      [js "--strict"; js "--no-incremental"; js "--pretty"; js "--show-error-codes"; js "--no-error-summary"; js "--ignore-missing-imports"]
      (js "qv")
      [ (js "--python-version", all_units (λ c, is_digit c || N.eqb c (chr "."))) ]
      true None);
    (js "vitest", mkOptionPolicy
      [js "--run"; js "--coverage"; js "--passWithNoTests"; js "--silent"; js "--no-color"]
      []
      [ (js "--reporter", one_word_of [js "default"; js "dot"; js "verbose"]); (js "--watch", one_word_of [js "false"]);
        (js "--bail", NUMBER); (js "--retry", NUMBER); (js "-t", ANY_TEXT); (js "--testNamePattern", ANY_TEXT) ]
      true (Some (js "run")));
    (js "tsc", mkOptionPolicy [js "--noEmit"; js "--pretty"] [] [] false None);
    (js "eslint", mkOptionPolicy [js "--quiet"; js "--no-cache"] [] [] true None);
    (js "make", mkOptionPolicy [] [] [] false None) ].

(** ** Paths *)
Definition asScopedPath (path base : str) : str := if isAbsolute path then path else path_join [base; path].
Definition hasParentSegment (path : str) : bool := mem_str (js "..") (split_on (chr "/") path).
Definition isBelow (path root : str) : bool := startsWith path (if endsWith root sep then root else root ++ sep).
Definition isInside (path root : str) : bool := str_eqb path root || isBelow path root.

Definition splitOption (arg : str) : str * option str :=
  match (if startsWith arg (js "--") then indexOf arg (chr "=") 0 else None) with
  | None => (arg, None)
  | Some separator => (take separator arg, Some (slice_from arg (separator + 1)))
  end.

Section FileSystem.
Variable realpathNative : str → option str.
Variable processCwd : str.

Definition resolve_step (absolute : str) (s : str * list str) : str * list str + str :=
  let '(existing, missingTail) := s in
  match realpathNative existing with
  | Some real => inr (path_join (real :: reverse missingTail))
  | None =>
      let parent := dirname existing in
      if str_eqb parent existing then inr absolute
      else inl (parent, missingTail ++ [basename existing])
  end.
Definition resolvedPath (path : str) : str :=
  let absolute := resolve processCwd path in
  run_loop (resolve_step absolute) (S (length absolute)) (absolute, []) absolute.

Definition resolvedWhere (path : str) (accepted_roots bases : list str) (isAccepted : str → str → bool) : bool :=
  if UNSAFE_PATH_TEXT path || hasParentSegment path then false
  else
    let startingPoints := if isAbsolute path then [[]] else bases in
    forallb (λ base, existsb (λ root, isAccepted (resolvedPath (asScopedPath path base)) root) accepted_roots) startingPoints.
Definition resolvedInside (path : str) (accepted_roots bases : list str) : bool := resolvedWhere path accepted_roots bases isInside.
Definition resolvedBelow (path : str) (accepted_roots bases : list str) : bool := resolvedWhere path accepted_roots bases isBelow.

(** ** Launchers *)
Definition uvValueIsAccepted (name value : str) (scope : Scope) (bases : list str) : bool :=
  if mem_str name UV_PATH_OPTIONS then resolvedInside value [worktreeRoot scope] bases
  else if mem_str name UV_NAME_OPTIONS then PLAIN_NAME value
  else str_eqb name (js "--with") && re_test PYTEST_PACKAGE_SPEC value.

(** The directory a launcher option names, from the first base. *)
Definition launcherDirectory (value : str) (bases : list str) : str :=
  resolvedPath (asScopedPath value (default [] (head bases))).

(** The option loop of [stripUv] on the words that are left. *)
Fixpoint uv_loop (scope : Scope) (bases directories : list str) (l : list str) : option Invocation :=
  match l with
  | [] => Some (mkInvoked [] directories)
  | word :: rest =>
      if negb (startsWith word (js "-")) then Some (mkInvoked l directories)
      else
        let '(name, inlineValue) := splitOption word in
        if mem_str name UV_FLAGS && bool_decide (inlineValue = None) then uv_loop scope bases directories rest
        else
          let push value := if mem_str name UV_PATH_OPTIONS then directories ++ [launcherDirectory value bases] else directories in
          match inlineValue with
          | Some value =>
              if uvValueIsAccepted name value scope bases then uv_loop scope bases (push value) rest else None
          | None =>
              match rest with
              | [] => None
              | value :: rest' =>
                  if uvValueIsAccepted name value scope bases then uv_loop scope bases (push value) rest' else None
              end
          end
  end.
Definition stripUv (invocation : Invocation) (scope : Scope) : option Invocation :=
  match inv_words invocation with
  | _ :: second :: rest =>
      if str_eqb second (js "run") then uv_loop scope (inv_bases invocation) (inv_bases invocation) rest else None
  | _ => None
  end.

Fixpoint directory_loop (scope : Scope) (directoryOptions : list str) (first : str) (bases directories : list str) (l : list str)
  : option Invocation :=
  match l with
  | [] => Some (mkInvoked [first] directories)
  | word :: rest =>
      if negb (startsWith word (js "-")) then Some (mkInvoked (first :: l) directories)
      else
        let '(name, inlineValue) := splitOption word in
        let accepted value := mem_str name directoryOptions && resolvedInside value [worktreeRoot scope] bases in
        match inlineValue with
        | Some value =>
            if accepted value
            then directory_loop scope directoryOptions first bases (directories ++ [launcherDirectory value bases]) rest
            else None
        | None =>
            match rest with
            | [] => None
            | value :: rest' =>
                if accepted value
                then directory_loop scope directoryOptions first bases (directories ++ [launcherDirectory value bases]) rest'
                else None
            end
        end
  end.
Definition stripDirectoryOptions (invocation : Invocation) (scope : Scope) (directoryOptions : list str) : option Invocation :=
  match inv_words invocation with
  | [] => None
  | first :: rest => directory_loop scope directoryOptions first (inv_bases invocation) (inv_bases invocation) rest
  end.

Definition stripPnpm (invocation : Invocation) (scope : Scope) : option Invocation :=
  match stripDirectoryOptions invocation scope DIRECTORY_OPTIONS_OF_PNPM with
  | None => None
  | Some stripped =>
      match inv_words stripped with
      | _ :: subcommand :: afterSubcommand =>
          if str_eqb subcommand (js "exec") then Some (mkInvoked afterSubcommand (inv_bases stripped)) else Some stripped
      | _ => Some stripped
      end
  end.

Definition launcherOf (program : str) : option (Invocation → Scope → option Invocation) :=
  if str_eqb program (js "uv") then Some stripUv
  else if str_eqb program (js "pnpm") then Some stripPnpm
  else if str_eqb program (js "make") then Some (λ invocation scope, stripDirectoryOptions invocation scope DIRECTORY_OPTIONS_OF_MAKE)
  else None.
Definition MAX_LAUNCHER_DEPTH : nat := 3.

Fixpoint launcher_loop (depth : nat) (current : Invocation) (scope : Scope) : option Invocation :=
  match depth with
  | O => Some current
  | S depth' =>
      match launcherOf (default [] (head (inv_words current))) with
      | None => Some current
      | Some launcher =>
          match launcher current scope with
          | None => None
          | Some next =>
              if bool_decide (head (inv_words next) = head (inv_words current)) then Some next
              else launcher_loop depth' next scope
          end
      end
  end.
Definition withoutLaunchers (first : Invocation) (scope : Scope) : option Invocation :=
  launcher_loop MAX_LAUNCHER_DEPTH first scope.

(** ** Arguments *)
Definition coverageReportTargetIsWritable (value : str) (scope : Scope) (bases : list str) : bool :=
  if re_test COVERAGE_REPORT_WITHOUT_FILE value then true
  else
    match indexOf value (chr ":") 0 with
    | None => false
    | Some i => let t := slice_from value (i + 1) in
                negb (str_eqb t []) && resolvedBelow t (writableRoots scope) bases
    end.

Definition valueIsAccepted (rule : ValueRule) (value : str) (scope : Scope) (bases : list str) : bool :=
  match rule with
  | VPattern test => test value
  | VWorktreePath => resolvedInside value [worktreeRoot scope] bases
  | VWritablePath => resolvedBelow value (writableRoots scope) bases
  | VCoverageReport => coverageReportTargetIsWritable value scope bases
  end.

(** How many words an option at the head of [arg :: rest] takes; [None] refuses it. *)
Definition widthOfLongOption (arg : str) (rest : list str) (policy : OptionPolicy) (scope : Scope) (bases : list str) : option nat :=
  let '(name, inlineValue) := splitOption arg in
  if bool_decide (inlineValue = None) && mem_str name (op_flags policy) then Some 1
  else
    match assoc_str name (op_valued policy), match inlineValue with Some v => Some v | None => head rest end with
    | Some rule, Some value =>
        if valueIsAccepted rule value scope bases
        then Some (if bool_decide (inlineValue = None) then 2 else 1) else None
    | _, _ => None
    end.
Definition widthOfShortOption (arg : str) (rest : list str) (policy : OptionPolicy) (scope : Scope) (bases : list str) : option nat :=
  let attachedValue := slice_from arg 2 in
  match assoc_str (take 2 arg) (op_valued policy) with
  | Some rule =>
      match (if str_eqb attachedValue [] then head rest else Some attachedValue) with
      | Some value =>
          if valueIsAccepted rule value scope bases then Some (if str_eqb attachedValue [] then 2 else 1) else None
      | None => None
      end
  | None =>
      let letters := slice_from arg 1 in
      if bool_decide (0 < length letters) && forallb (λ letter, mem_chr letter (op_clusterLetters policy)) letters
      then Some 1 else None
  end.

(** [arg.split('::')[0]] *)
Fixpoint before_double_colon (arg : str) : str :=
  match arg with
  | [] => []
  | c :: rest => if startsWith arg (js "::") then [] else c :: before_double_colon rest
  end.

Definition arguments_step (policy : OptionPolicy) (scope : Scope) (bases : list str) (s : list str * nat)
  : list str * nat + bool :=
  let '(remaining, operandCount) := s in
  match remaining with
  | [] => inr true
  | arg :: rest =>
      if negb (startsWith arg (js "-")) then
        let path := before_double_colon arg in
        let isForbiddenSubcommand := bool_decide (operandCount = 0) &&
          match op_onlyFirstOperand policy with None => false | Some only => negb (str_eqb arg only) end in
        if negb (op_allowsOperands policy) || isForbiddenSubcommand || negb (resolvedInside path [worktreeRoot scope] bases)
        then inr false
        else inl (rest, operandCount + 1)
      else
        match (if startsWith arg (js "--") then widthOfLongOption arg rest policy scope bases
               else widthOfShortOption arg rest policy scope bases) with
        | None => inr false
        | Some width => inl (drop width remaining, operandCount)
        end
  end.
Definition argumentsStaySafe (arguments : list str) (policy : OptionPolicy) (scope : Scope) (bases : list str) : bool :=
  let hasArgumentFile := existsb (λ arg, startsWith arg (js "@")) arguments in
  if hasArgumentFile || existsb UNSAFE_TEXT arguments then false
  else run_loop (arguments_step policy scope bases) (S (length arguments)) (arguments, 0) false.

(** ** The command *)
Definition declaredRedirectIsHarmless (redirect : CommandRedirect) (scope : Scope) : bool :=
  let op := redirectOperator redirect in
  let isDescriptorDuplication :=
    (bool_decide (op = RDupOut) || bool_decide (op = RDupIn)) && isDescriptorTarget (target redirect) in
  if isDescriptorDuplication then true
  else if bool_decide (op = RRead) then resolvedInside (target redirect) [worktreeRoot scope] [scopeCwd scope]
  else if negb (bool_decide (op ∈ WRITE_REDIRECTS)) then false
  else str_eqb (target redirect) NULL_DEVICE || resolvedBelow (target redirect) (writableRoots scope) [scopeCwd scope].

(** [slice(0, -1)] and [slice(0)] when there is no equals sign. *)
Definition isAllowedAssignment (assignment : str) : bool :=
  match indexOf assignment (chr "=") 0 with
  | Some separator =>
      mem_str (take separator assignment) ALLOWED_ENVIRONMENT_NAMES
      && PLAIN_ENVIRONMENT_VALUE (slice_from assignment (separator + 1))
  | None => mem_str (take (length assignment - 1) assignment) ALLOWED_ENVIRONMENT_NAMES && PLAIN_ENVIRONMENT_VALUE assignment
  end.
Definition hasPlainLaunch (command : SimpleCommand) : bool :=
  forallb (λ wrapper, str_eqb wrapper (js "env")) (wrappers command) && bool_decide (wrapperOptions command = [])
  && forallb isAllowedAssignment (assignments command).

Definition isChangeToWorktree (command : SimpleCommand) (scope : Scope) : bool :=
  match args command with
  | [t] =>
      if startsWith t (js "-") then false
      else if UNSAFE_PATH_TEXT t || hasParentSegment t then false
      else
        let reached := resolvedPath (asScopedPath t (scopeCwd scope)) in
        str_eqb reached (worktreeRoot scope) || str_eqb reached (resolvedPath (scopeCwd scope))
  | _ => false
  end.

Definition PROGRAMS_WITH_A_SUBCOMMAND : list str := [js "pnpm"; js "npm"; js "yarn"; js "cargo"; js "go"; js "make"].
Definition SCRIPT_RUNNERS : list str := [js "pnpm"; js "npm"; js "yarn"].
Definition wordsNamingTheCommand (declaredWords : list str) : nat :=
  match declaredWords with
  | [] => 1
  | prog :: rest =>
      if mem_str prog SCRIPT_RUNNERS && bool_decide (head rest = Some (js "run")) then 3
      else if mem_str prog PROGRAMS_WITH_A_SUBCOMMAND then 2 else 1
  end.

Definition declaredWordsOf (declared : str) : list str := filter (λ word : str, word ≠ []) (split_on (chr " ") declared).
Definition matchesDeclaredForm (invocation : Invocation) (declared : str) (scope : Scope) : bool :=
  let declaredWords := declaredWordsOf declared in
  let startsWithDeclaredWords := bool_decide (0 < length declaredWords) && is_prefix declaredWords (inv_words invocation) in
  let policy := default OPTION_POLICY_WITHOUT_OPTIONS (head declaredWords ≫= λ w, assoc_str w OPTION_POLICIES) in
  let argumentsOfInvocation := drop (wordsNamingTheCommand declaredWords) (inv_words invocation) in
  startsWithDeclaredWords && argumentsStaySafe argumentsOfInvocation policy scope (inv_bases invocation).

Definition scopeOf (request : PolicyRequest) : option Scope :=
  match req_worktreeRoot request with
  | None => None
  | Some root =>
      let worktree := resolvedPath root in
      let cwd := resolvedPath (req_cwd request) in
      if negb (isInside cwd worktree) then None
      else Some (mkScope worktree cwd (resolvedPath <$> ((root ++ js "/.scratch") :: req_scratchRoots request)))
  end.

Definition isPlainTopLevelCommand (command : SimpleCommand) : bool :=
  bool_decide (origin command = Otop) && negb (fedByPipe command) && negb (textHasBareAssignment command)
  && hasPlainLaunch command.

Definition runsDeclaredCommand (command : SimpleCommand) (declared : list str) (request : PolicyRequest) : bool :=
  let hasCarriageReturn := match req_command request with None => false | Some text => mem_chr CR text end in
  match scopeOf request with
  | None => false
  | Some scope =>
      if bool_decide (declared = []) || negb (isPlainTopLevelCommand command) || hasCarriageReturn then false
      else if negb (forallb (λ redirect, declaredRedirectIsHarmless redirect scope) (redirects command)) then false
      else if str_eqb (program command) (js "cd") then bool_decide (wrappers command = []) && isChangeToWorktree command scope
      else
        match withoutLaunchers (mkInvoked (invokedAs command :: args command) [scopeCwd scope; worktreeRoot scope]) scope with
        | None => false
        | Some launched =>
            BARE_PROGRAM (default [] (head (inv_words launched)))
            && existsb (λ form, matchesDeclaredForm launched form scope) declared
        end
  end.
End FileSystem.

(** [commands[kind]?.command ?? []] for the three kinds, in order. *)
Definition declaredCommandsFrom (test lint typecheck : option str) : list str :=
  filter (λ command, DeclaredCommandSchema command = true)
    (omap (λ command : option str, command) [test; lint; typecheck]).
