(* ===== verification/DeclaredCommandsFacts.v ===== *)
(** * Declared commands: facts

    Path resolution terminates on the deepest existing ancestor, the argument loop
    accepts exactly a small grammar, and a vouched command stays in the worktree. *)
From S2P Require Import Prelude JsText Regex ShellScanner CommandAnalyzer ReadOnlyAccess PolicyTypes NodePath DeclaredCommands.

Section FileSystem.
Variable realpathNative : str → option str.
Variable processCwd : str.
Abbreviation resolvedPath := (resolvedPath realpathNative processCwd).
Abbreviation resolvedInside := (resolvedInside realpathNative processCwd).
Abbreviation resolvedBelow := (resolvedBelow realpathNative processCwd).

(** ** Resolution of a path that may not exist *)

(** The [n]-th ancestor of a path and the names left behind, outermost first. *)
Fixpoint ancestor (n : nat) (path : str) : str :=
  match n with O => path | S m => dirname (ancestor m path) end.
Fixpoint names_below (n : nat) (path : str) : list str :=
  match n with O => [] | S m => basename (ancestor m path) :: names_below m path end.

Lemma ancestor_absolute n path : isAbsolute path = true → isAbsolute (ancestor n path) = true.
Proof. intros H. induction n; simpl; [done|]. by apply dirname_absolute. Qed.

Lemma resolve_loop_spec absolute n :
  isAbsolute absolute = true →
  (∀ k, k < n → realpathNative (ancestor k absolute) = None) →
  ∀ fuel, length (ancestor n absolute) < fuel →
  ∃ r, loop (resolve_step realpathNative absolute) fuel (ancestor n absolute, reverse (names_below n absolute)) = Some r ∧
    ((∃ m real, n ≤ m ∧ (∀ k, k < m → realpathNative (ancestor k absolute) = None) ∧
        realpathNative (ancestor m absolute) = Some real ∧ r = path_join (real :: names_below m absolute)) ∨
     ((∀ k, realpathNative (ancestor k absolute) = None) ∧ r = absolute)).
Proof.
  intros Habs Hbefore fuel. revert n Hbefore. induction fuel as [|fuel IH]; intros n Hbefore Hlen; [lia|].
  cbn [loop resolve_step]. destruct (realpathNative (ancestor n absolute)) as [real|] eqn:Hreal.
  { rewrite reverse_involutive. eexists. split; [done|]. left. exists n, real. by split_and!. }
  assert (Hupto : ∀ k, k < S n → realpathNative (ancestor k absolute) = None).
  { intros k Hk. destruct (decide (k = n)) as [->|]; [done|]. apply Hbefore. lia. }
  destruct (str_eqb (dirname (ancestor n absolute)) (ancestor n absolute)) eqn:Htop.
  - eexists. split; [done|]. right. split; [|done]. intros k. destruct (decide (k < S n)) as [|Hk]; [auto|].
    apply str_eqb_eq in Htop. replace (ancestor k absolute) with (ancestor n absolute); [done|].
    assert (∃ d, k = d + n) as [d ->] by (exists (k - n); lia). clear -Htop.
    induction d as [|d IHd]; simpl; [done|]. by rewrite <- IHd, Htop.
  - apply str_eqb_neq in Htop.
    destruct (IH (S n) Hupto) as (r & Hr & Hspec).
    { simpl. pose proof (dirname_shorter _ (ancestor_absolute n _ Habs) Htop). lia. }
    exists r. split.
    + rewrite <- Hr. f_equal. cbn [ancestor names_below]. by rewrite reverse_cons.
    + destruct Hspec as [(m & real & ? & ?)|?]; [left|by right]. exists m, real. split; [lia|done].
Qed.

(** [resolvedPath] terminates on every path and every file system, and gives
    the real path of the deepest existing ancestor followed by the missing names
    (or the absolute path when no ancestor exists). *)
Theorem resolvedPath_correct path :
  let absolute := resolve processCwd path in
  is_Some (loop (resolve_step realpathNative absolute) (S (length absolute)) (absolute, [])) ∧
  ((∃ m real, (∀ k, k < m → realpathNative (ancestor k absolute) = None) ∧
      realpathNative (ancestor m absolute) = Some real ∧
      resolvedPath path = path_join (real :: names_below m absolute)) ∨
   ((∀ k, realpathNative (ancestor k absolute) = None) ∧ resolvedPath path = absolute)).
Proof.
  intros absolute. unfold DeclaredCommands.resolvedPath, run_loop. fold absolute.
  destruct (resolve_loop_spec absolute 0 (resolve_absolute _ _)) with (fuel := S (length absolute))
    as (r & Hr & Hspec); [lia|simpl; lia|].
  change (reverse (names_below 0 absolute)) with (@nil str) in Hr. change (ancestor 0 absolute) with absolute in Hr.
  rewrite Hr. split; [by eexists|]. cbn [default].
  destruct Hspec as [(m & real & _ & ?)|?]; [left; by exists m, real|by right].
Qed.

(** ** The grammar of accepted arguments
    [inside] tells where an operand may lead, [allowed] the values of an option. *)
Section Grammar.
Variable policy : OptionPolicy.
Variable inside : str → Prop.
Variable allowed : ValueRule → str → Prop.

(** [safe_arguments n l]: [l] is accepted after [n] operands. *)
Inductive safe_arguments : nat → list str → Prop :=
  | safe_end n : safe_arguments n []
  | safe_operand n arg rest :
      startsWith arg (js "-") = false → op_allowsOperands policy = true →
      (n = 0 → ∀ only, op_onlyFirstOperand policy = Some only → arg = only) →
      inside (before_double_colon arg) →
      safe_arguments (n + 1) rest → safe_arguments n (arg :: rest)
  | safe_flag n arg rest :
      startsWith arg (js "--") = true → splitOption arg = (arg, None) → arg ∈ op_flags policy →
      safe_arguments n rest → safe_arguments n (arg :: rest)
  | safe_long_inline n arg name value rule rest :
      startsWith arg (js "--") = true → splitOption arg = (name, Some value) →
      assoc_str name (op_valued policy) = Some rule → allowed rule value →
      safe_arguments n rest → safe_arguments n (arg :: rest)
  | safe_long_next n arg value rule rest :
      startsWith arg (js "--") = true → splitOption arg = (arg, None) → (arg ∉ op_flags policy) →
      assoc_str arg (op_valued policy) = Some rule → allowed rule value →
      safe_arguments n rest → safe_arguments n (arg :: value :: rest)
  | safe_short_attached n arg rule rest :
      startsWith arg (js "-") = true → startsWith arg (js "--") = false → drop 2 arg ≠ [] →
      assoc_str (take 2 arg) (op_valued policy) = Some rule → allowed rule (drop 2 arg) →
      safe_arguments n rest → safe_arguments n (arg :: rest)
  | safe_short_next n arg value rule rest :
      startsWith arg (js "-") = true → startsWith arg (js "--") = false → drop 2 arg = [] →
      assoc_str (take 2 arg) (op_valued policy) = Some rule → allowed rule value →
      safe_arguments n rest → safe_arguments n (arg :: value :: rest)
  | safe_cluster n arg rest :
      startsWith arg (js "-") = true → startsWith arg (js "--") = false →
      assoc_str (take 2 arg) (op_valued policy) = None → drop 1 arg ≠ [] →
      (∀ letter, letter ∈ drop 1 arg → letter ∈ op_clusterLetters policy) →
      safe_arguments n rest → safe_arguments n (arg :: rest).
End Grammar.
Lemma safe_arguments_mono policy (inside inside' : str → Prop) (allowed allowed' : ValueRule → str → Prop) n l :
  (∀ p, inside p → inside' p) → (∀ rule v, allowed rule v → allowed' rule v) → safe_arguments policy inside allowed n l → safe_arguments policy inside' allowed' n l.
Proof.
  intros Hi Ha. induction 1; [apply safe_end|eapply safe_operand|eapply safe_flag|eapply safe_long_inline|eapply safe_long_next|eapply safe_short_attached|eapply safe_short_next|eapply safe_cluster]; eauto.
Qed.

Section Arguments.
Variable policy : OptionPolicy.
Variable scope : Scope.
Variable bases : list str.
Abbreviation accepted := (valueIsAccepted realpathNative processCwd).
Abbreviation safe := (safe_arguments policy (λ path, resolvedInside path [worktreeRoot scope] bases = true) (λ rule value, accepted rule value scope bases = true)).

Lemma dash_of_double arg : startsWith arg (js "--") = true → startsWith arg (js "-") = true.
Proof.
  change (js "--") with [chr "-"; chr "-"]. change (js "-") with [chr "-"].
  destruct arg as [|c arg]; [done|]. cbn [startsWith].
  destruct (N.eqb c (chr "-")); [|done]. simpl. by destruct arg.
Qed.

Lemma splitOption_None arg name : splitOption arg = (name, None) → name = arg.
Proof. unfold splitOption. destruct (if startsWith _ _ then _ else _); naive_solver. Qed.

(** The three kinds of word the loop meets. *)
Lemma safe_operand_iff n arg rest :
  startsWith arg (js "-") = false →
  safe n (arg :: rest) ↔
  op_allowsOperands policy = true ∧
  (n = 0 → ∀ only, op_onlyFirstOperand policy = Some only → arg = only) ∧
  resolvedInside (before_double_colon arg) [worktreeRoot scope] bases = true ∧ safe (n + 1) rest.
Proof.
  intros Hd. split; [|intros (?&?&?&?); by apply safe_operand].
  intros Hs; inversion Hs; subst; try (by split_and!); try congruence;
    match goal with H : startsWith arg (js "--") = true |- _ => apply dash_of_double in H end; congruence.
Qed.

(** Inversion of a derivation, with the readings of the same word unified. *)
Ltac invert_safe Hs :=
  inversion Hs; subst; simplify_eq; cbv beta in *;
  repeat match goal with
         | H1 : splitOption ?a = _, H2 : splitOption ?a = _ |- _ => rewrite H1 in H2; simplify_eq
         | H1 : assoc_str ?a ?b = _, H2 : assoc_str ?a ?b = _ |- _ => rewrite H1 in H2; simplify_eq
         end; try congruence.

Lemma safe_long_iff n arg rest :
  startsWith arg (js "--") = true →
  safe n (arg :: rest) ↔
  ∃ w, widthOfLongOption realpathNative processCwd arg rest policy scope bases = Some w ∧
       safe n (drop w (arg :: rest)).
Proof.
  intros Hd. pose proof (dash_of_double _ Hd) as Hd1. unfold widthOfLongOption.
  destruct (splitOption arg) as [name [v|]] eqn:Hsplit.
  - cbn [bool_decide andb]. rewrite bool_decide_false by done. cbn [andb].
    split.
    + intros Hs; invert_safe Hs.
      match goal with H : assoc_str _ _ = _, H' : valueIsAccepted _ _ _ _ _ _ = _ |- _ =>
        exists 1; rewrite H; simpl; rewrite H' end. done.
    + destruct (assoc_str name (op_valued policy)) as [rule|] eqn:Hrule; [|naive_solver].
      destruct (accepted rule v scope bases) eqn:Ha; [|naive_solver].
      intros (w & [= <-] & Hs). by eapply safe_long_inline.
  - pose proof (splitOption_None _ _ Hsplit) as ->. rewrite bool_decide_true by done. cbn [andb].
    destruct (mem_str arg (op_flags policy)) eqn:Hflag.
    + apply mem_str_In, list_elem_of_In in Hflag. split.
      * intros Hs; invert_safe Hs. by exists 1.
      * intros (w & [= <-] & Hs). by apply safe_flag.
    + assert (Hnot : arg ∉ op_flags policy).
      { intros Hin%list_elem_of_In%mem_str_In. congruence. }
      split.
      * intros Hs; invert_safe Hs. exists 2. split; [|done].
        match goal with H : assoc_str _ _ = _, H' : valueIsAccepted _ _ _ _ _ _ = _ |- _ => by rewrite H; simpl; rewrite H' end.
      * destruct (assoc_str arg (op_valued policy)) as [rule|] eqn:Hrule; [|naive_solver].
        destruct rest as [|v rest]; simpl; [naive_solver|].
        destruct (accepted rule v scope bases) eqn:Ha; [|naive_solver].
        intros (w & [= <-] & Hs). by eapply safe_long_next.
Qed.

Lemma forallb_mem letters allowed :
  forallb (λ c, mem_chr c allowed) letters = true ↔ ∀ c, c ∈ letters → c ∈ allowed.
Proof.
  rewrite forallb_forall. unfold mem_chr. split; intros H c Hc.
  - apply list_elem_of_In in Hc. apply H, existsb_exists in Hc as (d & Hd & ->%N.eqb_eq). by apply list_elem_of_In.
  - apply existsb_exists. exists c. split; [|apply N.eqb_refl]. apply list_elem_of_In, H. by apply list_elem_of_In.
Qed.

Lemma safe_short_iff n arg rest :
  startsWith arg (js "-") = true → startsWith arg (js "--") = false →
  safe n (arg :: rest) ↔
  ∃ w, widthOfShortOption realpathNative processCwd arg rest policy scope bases = Some w ∧
       safe n (drop w (arg :: rest)).
Proof.
  intros Hd Hdd. unfold widthOfShortOption, slice_from.
  destruct (assoc_str (take 2 arg) (op_valued policy)) as [rule|] eqn:Hrule.
  - destruct (str_eqb (drop 2 arg) []) eqn:Hatt.
    + apply str_eqb_eq in Hatt. split.
      * intros Hs; invert_safe Hs. exists 2. split; [|done].
        match goal with H' : valueIsAccepted _ _ _ _ _ _ = _ |- _ => by simpl; rewrite H' end.
      * destruct rest as [|v rest]; simpl; [naive_solver|].
        destruct (accepted rule v scope bases) eqn:Ha; [|naive_solver].
        intros (w & [= <-] & Hs). by eapply safe_short_next.
    + apply str_eqb_neq in Hatt. split.
      * intros Hs; invert_safe Hs. exists 1. split; [|done].
        match goal with H' : valueIsAccepted _ _ _ _ _ _ = _ |- _ => by rewrite H' end.
      * destruct (accepted rule (drop 2 arg) scope bases) eqn:Ha; [|naive_solver].
        intros (w & [= <-] & Hs). by eapply safe_short_attached.
  - split.
    + intros Hs; invert_safe Hs. exists 1. split; [|done].
      rewrite bool_decide_true by (destruct (drop 1 arg); [done|simpl; lia]).
      rewrite (proj2 (forallb_mem _ _)) by done. done.
    + destruct (bool_decide (0 < length (drop 1 arg))) eqn:Hlen; [|naive_solver].
      destruct (forallb _ (drop 1 arg)) eqn:Hall; [|naive_solver].
      intros (w & [= <-] & Hs). apply bool_decide_eq_true in Hlen.
      apply safe_cluster; try done; [|by apply forallb_mem]. intros E. rewrite E in Hlen. simpl in Hlen. lia.
Qed.

Lemma width_positive arg rest w :
  widthOfLongOption realpathNative processCwd arg rest policy scope bases = Some w ∨
  widthOfShortOption realpathNative processCwd arg rest policy scope bases = Some w → 0 < w.
Proof. unfold widthOfLongOption, widthOfShortOption. intros [H|H]; repeat case_match; simplify_eq; lia. Qed.

(** One turn of the loop, against the grammar. *)
Lemma arguments_step_spec l n :
  match arguments_step realpathNative processCwd policy scope bases (l, n) with
  | inl (l', n') => (safe n l ↔ safe n' l') ∧ length l' < length l
  | inr b => safe n l ↔ b = true
  end.
Proof.
  destruct l as [|arg rest]; cbn [arguments_step]; [split; [done|constructor]|].
  destruct (startsWith arg (js "-")) eqn:Hd; cbn [negb].
  - destruct (startsWith arg (js "--")) eqn:Hdd.
    + destruct (widthOfLongOption _ _ _ _ _ _ _) as [w|] eqn:Hw.
      * pose proof (width_positive _ _ _ (or_introl Hw)). split; [|rewrite length_drop; simpl; lia].
        rewrite (safe_long_iff n arg rest Hdd), Hw. naive_solver.
      * rewrite (safe_long_iff n arg rest Hdd), Hw. naive_solver.
    + destruct (widthOfShortOption _ _ _ _ _ _ _) as [w|] eqn:Hw.
      * pose proof (width_positive _ _ _ (or_intror Hw)). split; [|rewrite length_drop; simpl; lia].
        rewrite (safe_short_iff n arg rest Hd Hdd), Hw. naive_solver.
      * rewrite (safe_short_iff n arg rest Hd Hdd), Hw. naive_solver.
  - pose proof (safe_operand_iff n arg rest Hd) as Hop.
    destruct (op_allowsOperands policy); cbn [negb orb]; [|rewrite Hop; naive_solver].
    destruct (resolvedInside (before_double_colon arg) [worktreeRoot scope] bases);
      cbn [negb]; rewrite ?orb_true_r; [|rewrite Hop; naive_solver].
    rewrite orb_false_r. destruct (decide (n = 0)) as [->|Hn].
    2:{ rewrite bool_decide_false by done. simpl. split; [|simpl; lia]. rewrite Hop. naive_solver. }
    rewrite bool_decide_true by done. cbn [andb].
    destruct (op_onlyFirstOperand policy) as [only|]; [|split; [|simpl; lia]; rewrite Hop; naive_solver].
    destruct (str_eqb arg only) eqn:Ho; cbn [negb].
    + apply str_eqb_eq in Ho as ->. split; [|simpl; lia]. rewrite Hop. naive_solver.
    + apply str_eqb_neq in Ho. rewrite Hop. naive_solver.
Qed.

Lemma arguments_loop_spec fuel l n :
  length l < fuel →
  ∃ b, loop (arguments_step realpathNative processCwd policy scope bases) fuel (l, n) = Some b ∧
       (safe n l ↔ b = true).
Proof.
  revert l n. induction fuel as [|fuel IH]; intros l n Hlen; [lia|]. cbn [loop].
  pose proof (arguments_step_spec l n) as Hstep.
  destruct (arguments_step _ _ _ _ _ (l, n)) as [[l' n']|b]; [|by exists b].
  destruct Hstep as [Hiff Hlt]. destruct (IH l' n') as (b & Hb & Hs); [lia|].
  exists b. split; [done|]. by rewrite Hiff.
Qed.

Lemma existsb_false_iff (p : str → bool) l : existsb p l = false ↔ ∀ arg, arg ∈ l → p arg = false.
Proof.
  rewrite <- not_true_iff_false, existsb_exists. split.
  - intros H arg Hin. destruct (p arg) eqn:Hp; [|done]. destruct H. exists arg. by rewrite <- list_elem_of_In.
  - intros H (x & Hin%list_elem_of_In & Hp). by rewrite H in Hp.
Qed.

Lemma argumentsStaySafe_iff l :
  argumentsStaySafe realpathNative processCwd l policy scope bases = true ↔
  (∀ arg, arg ∈ l → startsWith arg (js "@") = false ∧ UNSAFE_TEXT arg = false) ∧ safe 0 l.
Proof.
  destruct (arguments_loop_spec (S (length l)) l 0) as (b & Hb & ->); [lia|].
  unfold argumentsStaySafe, run_loop. rewrite Hb. cbn [default].
  pose proof (existsb_false_iff (λ arg, startsWith arg (js "@")) l) as H1.
  pose proof (existsb_false_iff UNSAFE_TEXT l) as H2.
  destruct (existsb (λ arg, startsWith arg (js "@")) l); cbn [orb].
  { split; [done|]. intros [H _]. enough (true = false) by done. apply H1. intros arg Hin. by apply H. }
  destruct (existsb UNSAFE_TEXT l).
  { split; [done|]. intros [H _]. enough (true = false) by done. apply H2. intros arg Hin. by apply H. }
  naive_solver.
Qed.

(** [argumentsStaySafe] terminates and accepts exactly the argument lists
    without argument files or shell metacharacters that the option policy's grammar
    derives: listed flags and clusters, listed valued options with an accepted value,
    operands inside the worktree.  No other word can be smuggled in. *)
Theorem argumentsStaySafe_correct l :
  is_Some (loop (arguments_step realpathNative processCwd policy scope bases) (S (length l)) (l, 0)) ∧
  (argumentsStaySafe realpathNative processCwd l policy scope bases = true ↔
   (∀ arg, arg ∈ l → startsWith arg (js "@") = false ∧ UNSAFE_TEXT arg = false) ∧ safe 0 l).
Proof.
  split; [|apply argumentsStaySafe_iff].
  destruct (arguments_loop_spec (S (length l)) l 0) as (b & Hb & _); [lia|by eexists].
Qed.
End Arguments.

(** ** Confinement to the worktree *)
Abbreviation runsDeclaredCommand := (runsDeclaredCommand realpathNative processCwd).

(** An accepted path is accepted from every base it may start from. *)
Lemma resolvedWhere_base path rs bases acc base :
  resolvedWhere realpathNative processCwd path rs bases acc = true → base ∈ bases →
  ∃ root, root ∈ rs ∧ acc (resolvedPath (asScopedPath path base)) root = true.
Proof.
  unfold resolvedWhere. destruct (UNSAFE_PATH_TEXT path || hasParentSegment path); [done|]. intros H Hb.
  assert (Hex : existsb (λ root, acc (resolvedPath (asScopedPath path base)) root) rs = true).
  { rewrite forallb_forall in H. destruct (isAbsolute path) eqn:Habs.
    - unfold asScopedPath in *. rewrite Habs in *. apply (H []). by left.
    - apply H. by apply list_elem_of_In. }
  apply existsb_exists in Hex as (root & Hin & Hr). exists root. by rewrite list_elem_of_In.
Qed.

Lemma resolvedInside_base path root bases base :
  resolvedInside path [root] bases = true → base ∈ bases → isInside (resolvedPath (asScopedPath path base)) root = true.
Proof.
  intros H Hb. destruct (resolvedWhere_base _ _ _ _ _ H Hb) as (r & Hr & Hi).
  by apply list_elem_of_singleton in Hr as ->.
Qed.

(** *** Where a path leads: the names of its roots, in words *)
Definition at_or_below (path root : str) : Prop := path = root ∨ ∃ rest, path = (if endsWith root sep then root else root ++ sep) ++ rest.
Definition strictly_below (path root : str) : Prop := ∃ rest, path = (if endsWith root sep then root else root ++ sep) ++ rest.
(** A path without a shell or glob character nor a parent segment, that leads into a root from wherever it may start. *)
Definition leads (into : str → str → Prop) (roots bases : list str) (path : str) : Prop :=
  (∀ c, c ∈ path → c ∉ UNSAFE_UNITS ++ js "*?[]") ∧ js ".." ∉ split_on (chr "/") path ∧
  ∀ base, base ∈ (if isAbsolute path then [[]] else bases) → ∃ root, root ∈ roots ∧ into (resolvedPath (asScopedPath path base)) root.
Lemma isBelow_below path root : isBelow path root = true → strictly_below path root.
Proof. apply startsWith_iff. Qed.
Lemma isInside_at path root : isInside path root = true → at_or_below path root.
Proof. intros [->%str_eqb_eq|?%isBelow_below]%orb_true_iff; [by left|by right]. Qed.
Lemma resolvedWhere_leads (into : str → str → Prop) acc path roots bases : (∀ p r, acc p r = true → into p r) → resolvedWhere realpathNative processCwd path roots bases acc = true → leads into roots bases path.
Proof.
  intros Hacc. unfold resolvedWhere. destruct (UNSAFE_PATH_TEXT path) eqn:Hu; [done|]. destruct (hasParentSegment path) eqn:Hp; cbn [orb]; [done|]. intros H. split_and!.
  - intros c Hc Hin. unfold UNSAFE_PATH_TEXT in Hu. apply not_true_iff_false in Hu. destruct Hu. apply existsb_exists. exists c. split; [by apply list_elem_of_In|]. unfold mem_chr. apply existsb_exists. exists c. split; [by apply list_elem_of_In|apply N.eqb_refl].
  - intros Hin. unfold hasParentSegment in Hp. apply list_elem_of_In, mem_str_In in Hin. congruence.
  - intros base Hb. rewrite forallb_forall in H. apply list_elem_of_In, H, existsb_exists in Hb as (root & Hr & Ha). exists root. split; [by apply list_elem_of_In|by apply Hacc].
Qed.
Lemma resolvedInside_leads path roots bases : resolvedInside path roots bases = true → leads at_or_below roots bases path.
Proof. apply resolvedWhere_leads, isInside_at. Qed.
Lemma resolvedBelow_leads path roots bases : resolvedBelow path roots bases = true → leads strictly_below roots bases path.
Proof. apply resolvedWhere_leads, isBelow_below. Qed.
(** The values of an option: a text its pattern knows, a path of the worktree, a path below a writable root, or a coverage report, on the terminal or in a file below a writable root. *)
Definition value_allowed (scope : Scope) (bases : list str) (rule : ValueRule) (value : str) : Prop :=
  match rule with
  | VPattern test => test value = true
  | VWorktreePath => leads at_or_below [worktreeRoot scope] bases value
  | VWritablePath => leads strictly_below (writableRoots scope) bases value
  | VCoverageReport => value ∈ (λ w : str * str, w.1 ++ w.2) <$> list_prod [js "term"; js "term-missing"; js "annotate"] [[]; js ":skip-covered"] ∨ ∃ kind file, value = kind ++ js ":" ++ file ∧ leads strictly_below (writableRoots scope) bases file
  end.
(** An assignment of one of the names, of letters, digits and [_.:-] only. *)
Definition plain_assignment (a : str) : Prop :=
  ∃ name value, name ∈ ALLOWED_ENVIRONMENT_NAMES ∧ (a = name ++ js "=" ++ value ∧ Forall (λ d, is_alnum d = true ∨ d ∈ js "_.:-") value ∨ a = name ++ value ∧ length value ≤ 1 ∧ Forall (λ d, is_alnum d = true ∨ d ∈ js "_.:-") a).
Lemma unit_elem c l : mem_chr c l = true ↔ c ∈ l.
Proof. unfold mem_chr. rewrite existsb_exists. split; [intros (d & Hd & ->%N.eqb_eq); by apply list_elem_of_In|]. intros Hc. exists c. split; [by apply list_elem_of_In|apply N.eqb_refl]. Qed.
Lemma plain_units s : PLAIN_ENVIRONMENT_VALUE s = true → Forall (λ d, is_alnum d = true ∨ d ∈ js "_.:-") s.
Proof. intros H. apply Forall_forall. intros d Hd. unfold PLAIN_ENVIRONMENT_VALUE in H. rewrite forallb_forall in H. apply H, orb_true_iff in Hd as [?|Hd]; [by left|right]. by apply unit_elem. Qed.
Lemma allowed_assignment a : isAllowedAssignment a = true → plain_assignment a.
Proof.
  unfold isAllowedAssignment. destruct (indexOf a (chr "=") 0) as [j|] eqn:Hj; intros [Hn%mem_str_In%list_elem_of_In Hv%plain_units]%andb_true_iff.
  - apply indexOf_Some in Hj as (_ & _ & Hj & _). exists (take j a), (slice_from a (j + 1)). split; [done|]. left. split; [|done]. unfold slice_from. rewrite Nat.add_1_r, <- (take_drop_middle a j (chr "=") Hj) at 1. done.
  - exists (take (length a - 1) a), (drop (length a - 1) a). split; [done|]. right. rewrite take_drop, length_drop. split_and!; [done|lia|done].
Qed.
Lemma terminal_report value : re_test COVERAGE_REPORT_WITHOUT_FILE value = true → value ∈ (λ w : str * str, w.1 ++ w.2) <$> list_prod [js "term"; js "term-missing"; js "annotate"] [[]; js ":skip-covered"].
Proof.
  rewrite re_test_correct. intros (i & j & Hs). unfold COVERAGE_REPORT_WITHOUT_FILE, r_seq in Hs. cbn [foldr] in Hs. apply at_seq in Hs as (k & [Hb ->]%at_assert & Hs). apply bool_decide_eq_true in Hb.
  apply at_seq in Hs as (k1 & (w & Hw & [-> Hd]%at_lit)%at_any_of & Hs). assert (i = 0) as ->.
  { destruct i as [|i]; [done|]. cbn in Hb. apply lookup_ge_None in Hb. rewrite drop_ge in Hd by lia. destruct w; [|done]. exfalso. revert Hw. apply (bool_decide_unpack _). vm_compute. exact I. }
  rewrite drop_0 in Hd. cbn [Nat.add] in *. apply at_seq in Hs as (k2 & Hopt & Hs). apply at_seq in Hs as (k3 & [Hn _]%at_assert & _). apply bool_decide_eq_true in Hn. apply lookup_ge_None in Hn.
  assert (∃ v, v ∈ [[]; js ":skip-covered"] ∧ drop (length w) value = v) as (v & Hv & Hdv).
  { apply at_alt in Hopt as [[-> Hx]%at_lit| ->%at_eps].
    - rewrite (drop_ge value (_ + _)), app_nil_r in Hx by done. eexists. split; [|exact Hx]. right. by left.
    - exists []. split; [by left|]. by apply drop_ge. }
  rewrite Hdv in Hd. apply list_elem_of_fmap. exists (w, v). split; [done|]. apply list_elem_of_In, in_prod; by apply list_elem_of_In.
Qed.
Lemma accepted_allowed scope bases rule value : valueIsAccepted realpathNative processCwd rule value scope bases = true → value_allowed scope bases rule value.
Proof.
  destruct rule; cbn [valueIsAccepted value_allowed]; [done|apply resolvedInside_leads|apply resolvedBelow_leads|]. unfold coverageReportTargetIsWritable. destruct (re_test _ value) eqn:Hr; [intros _; left; by apply terminal_report|].
  destruct (indexOf value (chr ":") 0) as [j|] eqn:Hj; [|done]. intros [_ Hb%resolvedBelow_leads]%andb_true_iff. right. apply indexOf_Some in Hj as (_ & _ & Hj & _). exists (take j value), (slice_from value (j + 1)). split; [|done].
  unfold slice_from. rewrite Nat.add_1_r, <- (take_drop_middle value j (chr ":") Hj) at 1. done.
Qed.
Definition inside_worktree (scope : Scope) (base : str) : Prop := isInside base (worktreeRoot scope) = true.
(** The directories relative paths may start from: there is one, and all are in the worktree. *)
Definition confined (scope : Scope) (bases : list str) : Prop :=
  bases ≠ [] ∧ Forall (inside_worktree scope) bases.

Lemma confined_snoc scope bases directories value :
  bases ≠ [] → confined scope directories → resolvedInside value [worktreeRoot scope] bases = true →
  confined scope (directories ++ [launcherDirectory realpathNative processCwd value bases]).
Proof.
  intros Hne [Hds Hin] H. split; [by destruct directories|]. apply Forall_app. split; [done|].
  apply Forall_singleton. unfold launcherDirectory. destruct bases as [|b bases]; [done|].
  apply (resolvedInside_base _ _ _ _ H). simpl. left.
Qed.

Lemma uv_loop_confined scope bases : bases ≠ [] → ∀ n l directories i,
  length l ≤ n → confined scope directories →
  uv_loop realpathNative processCwd scope bases directories l = Some i → confined scope (inv_bases i).
Proof.
  intros Hne n. induction n as [|n IH]; intros [|w l] ds i Hlen Hds; simpl in Hlen; try lia;
    cbn [uv_loop]; try (by intros [= <-]).
  destruct (startsWith w (js "-")); cbn [negb]; [|by intros [= <-]].
  assert (Hpush : ∀ name v, uvValueIsAccepted realpathNative processCwd name v scope bases = true →
    confined scope (if mem_str name UV_PATH_OPTIONS then ds ++ [launcherDirectory realpathNative processCwd v bases] else ds)).
  { intros name v. unfold uvValueIsAccepted. destruct (mem_str name UV_PATH_OPTIONS); [|done]. by apply confined_snoc. }
  destruct (splitOption w) as [name [v|]].
  - rewrite bool_decide_false, andb_false_r by done. case_match; [|done]. apply IH; [lia|auto].
  - rewrite bool_decide_true, andb_true_r by done. destruct (mem_str name UV_FLAGS); [apply IH; [lia|done]|].
    destruct l as [|v l]; [done|]. simpl in Hlen. case_match; [|done]. apply IH; [lia|auto].
Qed.

Lemma directory_loop_confined scope options first bases : bases ≠ [] → ∀ n l directories i,
  length l ≤ n → confined scope directories →
  directory_loop realpathNative processCwd scope options first bases directories l = Some i →
  confined scope (inv_bases i).
Proof.
  intros Hne n. induction n as [|n IH]; intros [|w l] ds i Hlen Hds; simpl in Hlen; try lia;
    cbn [directory_loop]; try (by intros [= <-]).
  destruct (startsWith w (js "-")); cbn [negb]; [|by intros [= <-]].
  assert (Hpush : ∀ name v, mem_str name options && resolvedInside v [worktreeRoot scope] bases = true →
    confined scope (ds ++ [launcherDirectory realpathNative processCwd v bases])).
  { intros name v [_ Hv]%andb_true_iff. by apply confined_snoc. }
  destruct (splitOption w) as [name [v|]].
  - case_match; [|done]. apply IH; [lia|eauto].
  - destruct l as [|v l]; [done|]. simpl in Hlen. case_match; [|done]. apply IH; [lia|eauto].
Qed.

Lemma launcher_confined scope prog launcher i i' :
  launcherOf realpathNative processCwd prog = Some launcher →
  confined scope (inv_bases i) → launcher i scope = Some i' → confined scope (inv_bases i').
Proof.
  assert (Hdir : ∀ options j, confined scope (inv_bases i) →
    stripDirectoryOptions realpathNative processCwd i scope options = Some j → confined scope (inv_bases j)).
  { intros options j Hc. unfold stripDirectoryOptions. destruct (inv_words i); [done|].
    eapply directory_loop_confined; [apply Hc|done|done]. }
  unfold launcherOf. intros Hl Hc Hi. repeat case_match; simplify_eq; [| |by eapply Hdir].
  - revert Hi. unfold stripUv. repeat case_match; try done. eapply uv_loop_confined; [apply Hc|done|done].
  - revert Hi. unfold stripPnpm. destruct (stripDirectoryOptions _ _ i scope _) as [st|] eqn:Hst; [|done].
    apply Hdir in Hst; [|done]. repeat case_match; intros [= <-]; done.
Qed.

Lemma withoutLaunchers_confined scope i i' :
  confined scope (inv_bases i) →
  withoutLaunchers realpathNative processCwd i scope = Some i' → confined scope (inv_bases i').
Proof.
  unfold withoutLaunchers. generalize MAX_LAUNCHER_DEPTH. intros depth. revert i.
  induction depth as [|depth IH]; intros i Hc; cbn [launcher_loop]; [by intros [= <-]|].
  destruct (launcherOf _ _ _) as [launcher|] eqn:Hl; [|by intros [= <-]].
  destruct (launcher i scope) as [next|] eqn:Hn; [|done].
  pose proof (launcher_confined _ _ _ _ _ Hl Hc Hn).
  case_match; [by intros [= <-]|]. by apply IH.
Qed.

(** Where the redirections of a vouched command may go. *)
Definition redirect_confined (scope : Scope) (r : CommandRedirect) : Prop :=
  (redirectOperator r ∈ [RDupOut; RDupIn] ∧ isDescriptorTarget (target r) = true) ∨
  (redirectOperator r = RRead ∧ leads at_or_below [worktreeRoot scope] [scopeCwd scope] (target r)) ∨
  (redirectOperator r ∈ WRITE_REDIRECTS ∧ (target r = NULL_DEVICE ∨ leads strictly_below (writableRoots scope) [scopeCwd scope] (target r))).

Lemma redirect_is_confined scope r :
  declaredRedirectIsHarmless realpathNative processCwd r scope = true → redirect_confined scope r.
Proof.
  unfold declaredRedirectIsHarmless, redirect_confined.
  destruct ((bool_decide (redirectOperator r = RDupOut) || bool_decide (redirectOperator r = RDupIn))
            && isDescriptorTarget (target r)) eqn:Hdup.
  { intros _. left. apply andb_true_iff in Hdup as [Hop ?]. split; [|done].
    rewrite !elem_of_cons. apply orb_true_iff in Hop as [?%bool_decide_eq_true|?%bool_decide_eq_true]; tauto. }
  destruct (bool_decide (redirectOperator r = RRead)) eqn:Hread.
  { intros H. right. left. split; [by apply bool_decide_eq_true in Hread|].
    by apply resolvedInside_leads. }
  destruct (bool_decide (redirectOperator r ∈ WRITE_REDIRECTS)) eqn:Hwrite; cbn [negb]; [|done].
  intros H. right. right. split; [by apply bool_decide_eq_true in Hwrite|].
  apply orb_true_iff in H as [->%str_eqb_eq|H]; [by left|right]. by apply resolvedBelow_leads.
Qed.

(** What a vouched command that is not [cd] runs: after its launchers, the words
    of a declared command followed by arguments of the program's grammar, read from
    directories of the worktree. *)
Definition runs_declared_form (scope : Scope) (command : SimpleCommand) (declared : list str) : Prop :=
  ∃ launched form policy,
    withoutLaunchers realpathNative processCwd
      (mkInvoked (invokedAs command :: args command) [scopeCwd scope; worktreeRoot scope]) scope = Some launched ∧
    BARE_PROGRAM (default [] (head (inv_words launched))) = true ∧ form ∈ declared ∧ declaredWordsOf form ≠ [] ∧ declaredWordsOf form `prefix_of` inv_words launched ∧
    policy = default OPTION_POLICY_WITHOUT_OPTIONS (head (declaredWordsOf form) ≫= λ w, assoc_str w OPTION_POLICIES) ∧
    confined scope (inv_bases launched) ∧
    Forall (λ arg, startsWith arg (js "@") = false ∧ UNSAFE_TEXT arg = false)
      (drop (wordsNamingTheCommand (declaredWordsOf form)) (inv_words launched)) ∧
    safe_arguments policy (leads at_or_below [worktreeRoot scope] (inv_bases launched)) (value_allowed scope (inv_bases launched)) 0
      (drop (wordsNamingTheCommand (declaredWordsOf form)) (inv_words launched)).

Lemma matchesDeclaredForm_runs scope command declared launched :
  inside_worktree scope (scopeCwd scope) →
  withoutLaunchers realpathNative processCwd
    (mkInvoked (invokedAs command :: args command) [scopeCwd scope; worktreeRoot scope]) scope = Some launched →
  BARE_PROGRAM (default [] (head (inv_words launched))) = true →
  existsb (λ form, matchesDeclaredForm realpathNative processCwd launched form scope) declared = true →
  runs_declared_form scope command declared.
Proof.
  intros Hcwd Hl Hbare Hex. apply existsb_exists in Hex as (form & Hin & Hm). unfold matchesDeclaredForm in Hm.
  apply andb_true_iff in Hm as [[Hlen Hpre]%andb_true_iff [Hargs Hsafe]%argumentsStaySafe_iff].
  eexists launched, form, _. split_and!; [done|done|by apply list_elem_of_In| | |reflexivity| | |eapply safe_arguments_mono; [..|exact Hsafe]; [intros path; apply resolvedInside_leads|intros rule value; apply accepted_allowed]].
  - apply bool_decide_eq_true in Hlen. intros E. rewrite E in Hlen. simpl in Hlen. lia.
  - by apply is_prefix_prefix.
  - eapply withoutLaunchers_confined; [|exact Hl]. split; [done|]. cbn [inv_bases].
    apply List.Forall_cons; [exact Hcwd|]. apply Forall_singleton. unfold inside_worktree, isInside.
    by rewrite str_eqb_refl.
  - apply Forall_forall. intros arg Harg%list_elem_of_In. by apply Hargs.
Qed.

(** C37. A command [runsDeclaredCommand] vouches for stays in the worktree: the
    session's directory is inside it, the text of the request has no carriage return, the command is at the top level, fed by no pipe, in a text
    without bare assignments, wrapped by [env] without options only, with assignments of the allowed names to plain values;
    every redirection is a descriptor, a read inside
    the worktree, the null device or a write strictly below a writable root; and it either is a [cd] without wrapper to the worktree or to the
    session's directory, or runs, after launchers that only named directories of the worktree, the words of a declared command followed by arguments of the grammar of its program,
    free of argument files and shell characters: listed flags, listed options with a value their rule allows, and operands.
    A path in an operand or in an option value has no shell or glob character nor parent segment, and leads, from every directory it may start from, into the worktree, or strictly below a writable root where it names an output. *)
Theorem runsDeclaredCommand_confined command declared request :
  runsDeclaredCommand command declared request = true →
  ∃ root scope,
    req_worktreeRoot request = Some root ∧
    scope = mkScope (resolvedPath root) (resolvedPath (req_cwd request))
              (resolvedPath <$> (root ++ js "/.scratch") :: req_scratchRoots request) ∧
    inside_worktree scope (scopeCwd scope) ∧ (∀ text, req_command request = Some text → CR ∉ text) ∧
    Forall (redirect_confined scope) (redirects command) ∧
    origin command = Otop ∧ fedByPipe command = false ∧ textHasBareAssignment command = false ∧
    Forall (λ w, w = js "env") (wrappers command) ∧ wrapperOptions command = [] ∧ Forall plain_assignment (assignments command) ∧
    if decide (program command = js "cd")
    then wrappers command = [] ∧ ∃ t, args command = [t] ∧ startsWith t (js "-") = false ∧ (∀ c, c ∈ t → c ∉ UNSAFE_UNITS ++ js "*?[]") ∧ js ".." ∉ split_on (chr "/") t ∧
         resolvedPath (asScopedPath t (scopeCwd scope)) ∈ [worktreeRoot scope; resolvedPath (scopeCwd scope)]
    else runs_declared_form scope command declared.
Proof.
  unfold DeclaredCommands.runsDeclaredCommand, scopeOf.
  destruct (req_worktreeRoot request) as [root|]; [|done].
  destruct (isInside (resolvedPath (req_cwd request)) (resolvedPath root)) eqn:Hcwd; cbn [negb]; [|done].
  set (scope := mkScope _ _ _). case_match eqn:Hplain; [done|].
  destruct (forallb _ (redirects command)) eqn:Hr; cbn [negb]; [|done]. intros H.
  apply orb_false_iff in Hplain as [[_ Hplain%negb_false_iff]%orb_false_iff Hcr].
  unfold isPlainTopLevelCommand, hasPlainLaunch in Hplain.
  rewrite !andb_true_iff, !negb_true_iff, !bool_decide_eq_true in Hplain.
  destruct Hplain as (((Htop & Hpipe) & Hbare) & (Hwrap & Hopts) & Hassign).
  exists root, scope. split_and!; try done.
  - intros text E. rewrite E in Hcr. intros Hin%unit_elem. congruence.
  - apply Forall_forall. intros r Hin. apply redirect_is_confined.
    rewrite forallb_forall in Hr. by apply Hr.
  - apply Forall_forall. intros w Hin. rewrite forallb_forall in Hwrap. by apply str_eqb_eq, Hwrap.
  - apply Forall_forall. intros w Hin. rewrite forallb_forall in Hassign. by apply allowed_assignment, Hassign.
  - destruct (decide (program command = js "cd")) as [Hcd|Hcd].
    + rewrite Hcd, str_eqb_refl in H. apply andb_true_iff in H as [Hw%bool_decide_eq_true H]. split; [done|]. unfold isChangeToWorktree in H.
      destruct (args command) as [|t [|]]; try done. exists t. split; [done|]. destruct (startsWith t (js "-")); [done|]. split; [done|].
      destruct (UNSAFE_PATH_TEXT t || hasParentSegment t) eqn:Hsafe; [done|]. apply orb_false_iff in Hsafe as [Hu Hp]. split_and!.
      * intros c Hc Hin. apply not_true_iff_false in Hu. destruct Hu. apply existsb_exists. exists c. split; [by apply list_elem_of_In|by apply unit_elem].
      * intros Hin%list_elem_of_In%mem_str_In. unfold hasParentSegment in Hp. congruence.
      * rewrite !elem_of_cons. apply orb_true_iff in H as [->%str_eqb_eq| ->%str_eqb_eq]; tauto.
    + apply str_eqb_neq in Hcd. rewrite Hcd in H.
      destruct (withoutLaunchers _ _ _ scope) as [launched|] eqn:Hl; [|done].
      apply andb_true_iff in H as [Hb H]. by apply matchesDeclaredForm_runs with launched.
Qed.
End FileSystem.

(** ** A concrete file system: every path exists and is real. *)
Definition real_everywhere (path : str) : option str := Some path.
Definition sample_request : PolicyRequest :=
  mkRequest (js "s1") (js "claude-cli") None None Unattended SessionActor PreToolUse (js "Bash")
    (Some (js "uv run pytest -q tests > .scratch/out.txt")) None None None (js "/w/pkg") (Some (js "/w")) [js "/w/pkg/.scratch"] None.
Definition sample_pytest : SimpleCommand :=
  mkCommand (js "uv") (js "uv") [js "run"; js "--directory"; js "sub"; js "pytest"; js "-qx"; js "--tb=short"; js "tests/test_a.py::t"]
    [js "CI=1"] [js "env"] [] [mkRedirect RWrite None (js ".scratch/out.txt") None] false Otop 0 false.

Lemma runsDeclaredCommand_confined_witness :
  ∃ root, req_worktreeRoot sample_request = Some root ∧
          runs_declared_form real_everywhere (js "/") (mkScope (js "/w") (js "/w/pkg") [js "/w/.scratch"; js "/w/pkg/.scratch"]) sample_pytest [js "pytest"].
Proof.
  destruct (runsDeclaredCommand_confined real_everywhere (js "/") sample_pytest [js "pytest"] sample_request)
    as (root & scope & Hroot & Hscope & _ & _ & _ & _ & _ & _ & _ & _ & _ & Hruns); [vm_compute; reflexivity|].
  exists root. split; [exact Hroot|]. injection Hroot as <-.
  rewrite decide_False in Hruns by (vm_compute; discriminate).
  rewrite Hscope in Hruns. exact Hruns.
Defined.
