(* ===== verification/CommandPredicates.v ===== *)
(** * Rule predicates

    Model of [packages/core/src/policy/commandPredicates.ts]: what a rule asks of
    one simple command, or of a tool call that names files. *)
From S2P Require Import Prelude JsText Regex ShellScanner CommandAnalyzer PathGlob SedScript ReadOnlyAccess ShellFileWrites.
From S2P Require Import PolicyTypes NodePath GhPrCreate DeclaredCommands.

Record PredicateContext := mkContext
  { ctx_command : option SimpleCommand; ctx_writtenPaths : list str; ctx_request : PolicyRequest }.

Fixpoint r_times (n : nat) (r : re) : re := match n with O => REps | S m => RSeq r (r_times m r) end.
Fixpoint r_upto (n : nat) (r : re) : re := match n with O => REps | S m => r_opt (RSeq r (r_upto m r)) end.
Definition r_hex : re := RChr isHexDigit.
Definition SESSION_ID_OR_PREFIX : re :=
  r_seq [r_start; r_times 8 r_hex; r_upto 4 (r_seq [r_lit (js "-"); r_hex; r_upto 11 r_hex]); r_end].
Definition GIT_OPTIONS_WITH_VALUE : list str :=
  [js "-C"; js "-c"; js "--git-dir"; js "--work-tree"; js "--namespace"; js "--exec-path"].
Definition FILE_COPYING_PROGRAMS : list str := [js "cp"; js "mv"].
Definition SEARCH_PROGRAMS : list str := [js "rg"; js "grep"].
Definition WORKTREE_TEMPLATE : str := js "{worktree}".
Definition SCRATCH_TEMPLATE : str := js "{scratch}".
Definition TOOL_RESULTS_TEMPLATE : str := js "{toolResults}".

Definition asList (value : OneOrMany) : list str := match value with One s => [s] | Many l => l end.
Definition isOptionToken (token : str) : bool := startsWith token (js "-") && bool_decide (1 < length token).
Definition nonOptionArgs (arguments : list str) : list str := filter (λ arg, isOptionToken arg = false) arguments.

(** The loop of [subcommandOf] on the arguments that are left. *)
Fixpoint subcommand_loop (skipsValuedOptions : bool) (l : list str) : option str :=
  match l with
  | [] => None
  | arg :: rest =>
      if negb (isOptionToken arg) then Some arg
      else if skipsValuedOptions && mem_str arg GIT_OPTIONS_WITH_VALUE then
        match rest with [] => None | _ :: rest' => subcommand_loop skipsValuedOptions rest' end
      else subcommand_loop skipsValuedOptions rest
  end.
Definition subcommandOf (command : SimpleCommand) : option str :=
  subcommand_loop (str_eqb (program command) (js "git")) (args command).

(** A string iterates by code points: a surrogate pair is one element. *)
Fixpoint code_points (s : str) : list str :=
  match s with
  | [] => []
  | hi :: rest =>
      match rest with
      | lo :: rest' =>
          if in_range 55296 56319 hi && in_range 56320 57343 lo then [hi; lo] :: code_points rest'
          else [hi] :: code_points rest
      | [] => [[hi]]
      end
  end.

Fixpoint flagsOf (l : list str) : list str * list str :=
  match l with
  | [] => ([], [])
  | arg :: rest =>
      if str_eqb arg (js "--") then ([], [])
      else
        let '(short, long) := flagsOf rest in
        if startsWith arg (js "--") then (short, take_while (λ c, negb (N.eqb c (chr "="))) (slice_from arg 2) :: long)
        else if isOptionToken arg then (code_points (slice_from arg 1) ++ short, long)
        else (short, long)
  end.

Definition hasFlagGroups (command : SimpleCommand) (groups : FlagGroups) : bool :=
  let '(short, long) := flagsOf (args command) in
  let isGroupPresent (aliases : list str) :=
    existsb (λ alias, if bool_decide (length alias = 1) then mem_str alias short else mem_str alias long) aliases in
  let hasAll := match flags_all groups with None => true | Some l => forallb isGroupPresent l end in
  let hasAny := match flags_any groups with None => true | Some l => existsb isGroupPresent l end in
  let hasNone := match flags_none groups with None => true | Some l => negb (existsb isGroupPresent l) end in
  hasAll && hasAny && hasNone.

Fixpoint words_match (sequence words : list str) : bool :=
  match sequence, words with
  | [], _ => true
  | _ :: _, [] => false
  | alternatives :: sequence', w :: words' => mem_str w (split_on (chr "|") alternatives) && words_match sequence' words'
  end.
Definition startsWithWords (command : SimpleCommand) (sequence : list str) : bool :=
  let prog := program command in
  let selectsRepositoryByOption := str_eqb prog (js "gh") || str_eqb prog (js "glab") in
  let arguments := if selectsRepositoryByOption then argsWithoutRepoOptionsAroundGroup prog (args command) else args command in
  words_match sequence (prog :: arguments).

Definition isRecursiveFlag (arg : str) : bool :=
  str_eqb arg (js "--recursive")
  || (startsWith arg (js "-") && negb (startsWith arg (js "--")) && (includes arg (js "r") || includes arg (js "R"))).

Definition isRepoWideSearch (command : SimpleCommand) : bool :=
  if fedByPipe command || negb (mem_str (program command) SEARCH_PROGRAMS) then false
  else
    let isGrepWithoutRecursion := str_eqb (program command) (js "grep") && negb (existsb isRecursiveFlag (args command)) in
    if isGrepWithoutRecursion then false
    else bool_decide (searchedPaths (parseSearchArguments (program command) (args command)) = []).

Definition writtenPathsOf (command : SimpleCommand) : list str :=
  let redirected := target <$> filter (λ redirect,
      (bool_decide (redirectOperator redirect ∈ FILE_WRITING_REDIRECTS)
       || (bool_decide (redirectOperator redirect = RDupOut) && negb (isDescriptorTarget (target redirect)))) = true)
    (redirects command) in
  let operands := nonOptionArgs (args command) in
  let lastOperand := drop (length operands - 1) operands in
  let byProgram :=
    if str_eqb (program command) (js "tee") then operands
    else if mem_str (program command) FILE_COPYING_PROGRAMS then lastOperand
    else if str_eqb (program command) (js "dd")
      then (λ arg, slice_from arg 3) <$> filter (λ arg, startsWith arg (js "of=") = true) (args command)
    else [] in
  redirected ++ byProgram.

Definition resolveTemplate (request : PolicyRequest) (template : str) : list str :=
  if startsWith template WORKTREE_TEMPLATE then
    match req_worktreeRoot request with
    | None => []
    | Some root => [root ++ slice_from template (length WORKTREE_TEMPLATE)]
    end
  else if str_eqb template SCRATCH_TEMPLATE then req_scratchRoots request
  else if str_eqb template TOOL_RESULTS_TEMPLATE then
    match req_toolResultsRoot request with None => [] | Some root => [root] end
  else [template].
Definition rootsOf (templates : list str) (request : PolicyRequest) : list str := concat (resolveTemplate request <$> templates).

Definition addressesFleetSession (request : PolicyRequest) : bool :=
  match req_recipient request with
  | None => false
  | Some recipient =>
      re_test SESSION_ID_OR_PREFIX recipient || bool_decide (req_recipientNamesManager request = Some true)
  end.

(** [key === undefined || check(key)] *)
Definition absent_or {A} (key : option A) (check : A → bool) : bool :=
  match key with None => true | Some v => check v end.
(** [command !== undefined && check(command)] *)
Definition on_command (context : PredicateContext) (check : SimpleCommand → bool) : bool :=
  match ctx_command context with None => false | Some command => check command end.

Section FileSystem.
Variable realpathNative : str → option str.
Variable processCwd : str.

Fixpoint matchesPredicate (predicate : RulePredicate) (context : PredicateContext) {struct predicate} : bool :=
  let request := ctx_request context in
  match predicate with
  | mkPredicate prog sub flags prefix repoWide writesMatching argMatching readsOnly fleet writesOutside declared anyOf allOf not_ others =>
      bool_decide (others = [])
      && absent_or prog (λ names, on_command context (λ c, mem_str (program c) (asList names)))
      && absent_or sub (λ names, on_command context (λ c, mem_str (default [] (subcommandOf c)) (asList names)))
      && absent_or flags (λ groups, on_command context (λ c, hasFlagGroups c groups))
      && absent_or prefix (λ sequences, on_command context (λ c, existsb (startsWithWords c) sequences))
      && absent_or repoWide (λ expected, Bool.eqb (on_command context isRepoWideSearch) expected)
      && absent_or writesMatching (λ globs,
           existsb (λ path, existsb (λ glob, globMatches glob path) globs)
             (ctx_writtenPaths context ++ match ctx_command context with None => [] | Some c => writtenPathsOf c end))
      && absent_or argMatching (λ globs, on_command context (λ c, existsb (λ arg, existsb (λ glob, globMatches glob arg) globs) (args c)))
      && absent_or readsOnly (λ templates, on_command context (λ c, isPlainReadWithin c (mkReadScope (req_cwd request) (rootsOf templates request))))
      && absent_or fleet (λ expected, Bool.eqb (addressesFleetSession request) expected)
      && absent_or writesOutside (λ templates, on_command context (λ c, writesFileOutside c (mkReadScope (req_cwd request) (rootsOf templates request))))
      && absent_or declared (λ forms, on_command context (λ c, runsDeclaredCommand realpathNative processCwd c forms request))
      && match anyOf with None => true | Some children => existsb (λ child, matchesPredicate child context) children end
      && match allOf with None => true | Some children => forallb (λ child, matchesPredicate child context) children end
      && match not_ with None => true | Some child => negb (matchesPredicate child context) end
  end.
End FileSystem.

(** ** Options of git never hide its subcommand *)
Inductive git_options : list str → Prop :=
  | git_none : git_options []
  | git_valued o v l : o ∈ GIT_OPTIONS_WITH_VALUE → git_options l → git_options (o :: v :: l)
  | git_plain o l : isOptionToken o = true → (o ∉ GIT_OPTIONS_WITH_VALUE) → git_options l → git_options (o :: l).

(** [subcommandOf] sees a git subcommand behind any run of global options,
    with or without values: after such a run it is the first word that follows, and
    only a command made of options alone has no subcommand. *)
Theorem git_subcommand_is_seen c options :
  program c = js "git" → git_options options →
  (∀ w rest, isOptionToken w = false → args c = options ++ w :: rest → subcommandOf c = Some w) ∧
  (args c = options → subcommandOf c = None).
Proof.
  intros Hgit Hopt. unfold subcommandOf. rewrite Hgit, str_eqb_refl.
  assert (Hskip : ∀ tail, subcommand_loop true (options ++ tail) = subcommand_loop true tail).
  { intros tail. induction Hopt as [|o v l Ho _ IH|o l Ho Hn _ IH]; [done| |]; cbn [app subcommand_loop].
    - assert (isOptionToken o = true) as ->.
      { assert (Hall : Forall (λ o, isOptionToken o = true) GIT_OPTIONS_WITH_VALUE) by repeat constructor.
        rewrite List.Forall_forall in Hall. by apply Hall, list_elem_of_In. }
      replace (mem_str o GIT_OPTIONS_WITH_VALUE) with true; [done|].
      symmetry. by apply mem_str_In, list_elem_of_In.
    - rewrite Ho. replace (mem_str o GIT_OPTIONS_WITH_VALUE) with false; [done|].
      destruct (mem_str o _) eqn:Hm; [|done]. by apply mem_str_In, list_elem_of_In in Hm. }
  split.
  - intros w rest Hw ->. rewrite Hskip. cbn [subcommand_loop]. by rewrite Hw.
  - intros ->. rewrite <- (app_nil_r options). by rewrite Hskip.
Qed.

Definition sample_git : SimpleCommand :=
  mkCommand (js "git") (js "git") [js "-C"; js "push"; js "--no-pager"; js "push"; js "origin"] [] [] [] [] false Otop 0 false.
Lemma git_subcommand_is_seen_witness : subcommandOf sample_git = Some (js "push").
Proof.
  apply (git_subcommand_is_seen sample_git [js "-C"; js "push"; js "--no-pager"]) with (rest := [js "origin"]);
    [reflexivity| |reflexivity|reflexivity].
  apply git_valued; [left|]. apply git_plain; [reflexivity| |constructor].
  apply (bool_decide_unpack _). vm_compute. exact I.
Defined.
