(* ===== verification/PolicyEvaluator.v ===== *)
(** * The policy evaluator

    Model of [packages/core/src/policy/policyEvaluator.ts]: the profile of a role,
    the rules it applies, and the verdict on one tool call.  The predicates of the
    model are total, so the [catch] of [matchesWithoutFailing] is never taken.
    [toLowerCase] is the Unicode case mapping, a parameter; so is the file system. *)
From S2P Require Import Prelude JsText ShellScanner CommandAnalyzer PolicyTypes CommandPredicates.

Definition DEFAULT_PROFILE : str := js "default".
Definition BASH_TOOL : str := js "Bash".
Definition ALLOW : PolicyVerdict := VAllow None None false.

Record ProfilePlan := mkPlan { plan_ruleIds : list str; plan_isObserving : bool }.

Definition hasProfile (profiles : rec PolicyProfile) (name : str) : bool := has_own profiles name.

(** [ruleIdsOfProfile] with the set of visited names; [None] when the fuel runs out. *)
Fixpoint rule_ids (fuel : nat) (profiles : rec PolicyProfile) (name : str) (visited : list str) : option (list str) :=
  match fuel with
  | O => None
  | S fuel' =>
      if mem_str name visited then Some []
      else
        match get profiles name with
        | None => Some []
        | Some profile =>
            match profile_extends profile with
            | None => Some (profile_rules profile)
            | Some parent =>
                inherited ← rule_ids fuel' profiles parent (name :: visited);
                Some (inherited ++ profile_rules profile)
            end
        end
  end.
Definition ruleIdsOfProfile (profiles : rec PolicyProfile) (name : str) : list str :=
  default [] (rule_ids (S (length profiles)) profiles name []).

(** [[...new Set(ids)]] *)
Definition unique (ids : list str) : list str :=
  fold_left (λ seen i, if mem_str i seen then seen else seen ++ [i]) ids [].

Definition isEscapedByMarker (rule : PolicyRule) (request : PolicyRequest) : bool :=
  match rule_escapeMarker rule, req_command request with
  | Some marker, Some command => bool_decide (req_presence request = Attended) && includes command marker
  | _, _ => false
  end.

Definition contextsOf (request : PolicyRequest) (analysis : option CommandAnalysis) : list PredicateContext :=
  match analysis with
  | Some a => (λ command, mkContext (Some command) [] request) <$> analysis_commands a
  | None => [mkContext None (default [] (req_filePaths request)) request]
  end.

Definition refusalOf (rule : PolicyRule) (isObserving : bool) : PolicyVerdict :=
  if isObserving then VAllow None (Some (mkObserved (rule_id rule) (rule_reason rule) (rule_alternative rule))) false
  else if bool_decide (rule_decision rule = Ask) then VAsk (rule_id rule) (rule_reason rule)
  else VDeny (rule_id rule) (rule_reason rule) (default [] (rule_alternative rule)).

(** [new Map(rules.map(rule => [rule.id, rule]))]: the last rule of an id is kept. *)
Definition rulesById (rules : list PolicyRule) : rec PolicyRule := fold_left (λ r rule, put r (rule_id rule) rule) rules [].

Section Evaluator.
Variable toLowerCase : str → str.
Variable realpathNative : str → option str.
Variable processCwd : str.

Definition caseInsensitiveIncludes (haystack needle : str) : bool := includes (toLowerCase haystack) (toLowerCase needle).

Definition profileNameFor (role : option str) (policy : CommandPolicyDocument) : str :=
  match role with
  | None => DEFAULT_PROFILE
  | Some r =>
      let wanted := toLowerCase r in
      match find (λ entry : str * str, str_eqb (toLowerCase entry.1) wanted) (doc_roleToProfile policy) with
      | None => DEFAULT_PROFILE
      | Some mapping => mapping.2
      end
  end.
Definition profileNameOf (role : option str) (policy : CommandPolicyDocument) : str :=
  let mappedName := profileNameFor role policy in
  if hasProfile (doc_profiles policy) mappedName then mappedName else DEFAULT_PROFILE.

Definition planFor (request : PolicyRequest) (policy : CommandPolicyDocument) : ProfilePlan :=
  let mappedName := profileNameFor (req_role request) policy in
  let name := if hasProfile (doc_profiles policy) mappedName then mappedName else DEFAULT_PROFILE in
  let profile := get (doc_profiles policy) name in
  let isObserving := bool_decide (doc_mode policy = ModeObserve) || bool_decide (profile ≫= profile_mode = Some ProfileObserve) in
  mkPlan (unique (ruleIdsOfProfile (doc_profiles policy) name)) isObserving.

Definition isInScope (rule : PolicyRule) (request : PolicyRequest) : bool :=
  let toolMatches := absent_or (rule_tools rule) (mem_str (req_toolName request)) in
  let harnessMatches := absent_or (rule_harnesses rule) (mem_str (req_harness request)) in
  let actorMatches := match rule_actor rule with
                      | None | Some ActorAny => true
                      | Some ActorSession => bool_decide (req_actor request = SessionActor)
                      | Some ActorSubagent => bool_decide (req_actor request = SubagentActor)
                      end in
  let presenceMatches := match rule_presence rule with
                         | None | Some PresenceAny => true
                         | Some PresenceAttended => bool_decide (req_presence request = Attended)
                         | Some PresenceUnattended => bool_decide (req_presence request = Unattended)
                         end in
  let modelMatches := absent_or (rule_models rule) (λ aliases,
    match req_model request with None => false | Some model => existsb (caseInsensitiveIncludes model) aliases end) in
  toolMatches && harnessMatches && actorMatches && presenceMatches && modelMatches.

Definition ruleMatches (rule : PolicyRule) (contexts : list PredicateContext) (analysis : option CommandAnalysis) : bool :=
  let holds := matchesPredicate realpathNative processCwd (rule_when rule) in
  let mustCoverEveryCommand := bool_decide (rule_appliesTo rule = Some EveryCommand) in
  if negb mustCoverEveryCommand then existsb holds contexts
  else
    let isFullyRead := bool_decide (analysis_status <$> analysis = Some Complete) && bool_decide (0 < length contexts) in
    isFullyRead && forallb holds contexts.

Definition applicableRulesOf (plan : ProfilePlan) (policy : CommandPolicyDocument) (request : PolicyRequest) : list PolicyRule :=
  omap (λ ruleId,
    match get (rulesById (doc_rules policy)) ruleId with
    | Some rule => if isInScope rule request && negb (isEscapedByMarker rule request) then Some rule else None
    | None => None
    end) (plan_ruleIds plan).

(** The loop over the applicable rules. *)
Fixpoint rules_loop (matching : PolicyRule → bool) (isObserving : bool) (allowedBy : option str) (rules : list PolicyRule)
  : PolicyVerdict :=
  match rules with
  | [] => match allowedBy with None => ALLOW | Some _ => VAllow allowedBy None false end
  | rule :: rest =>
      if negb (matching rule) then rules_loop matching isObserving allowedBy rest
      else if negb (bool_decide (rule_decision rule = Allow)) then refusalOf rule isObserving
      else rules_loop matching isObserving (match allowedBy with None => Some (rule_id rule) | _ => allowedBy end) rest
  end.

Definition evaluateCommandPolicy (request : PolicyRequest) (policy : CommandPolicyDocument) : PolicyVerdict :=
  if bool_decide (doc_mode policy = ModeOff) then ALLOW
  else
    let isBashCall := str_eqb (req_toolName request) BASH_TOOL in
    if isBashCall && bool_decide (req_command request = None) then ALLOW
    else
      let analysis := if isBashCall then analyzeCommand <$> req_command request else None in
      if bool_decide (analysis_status <$> analysis = Some LimitExceeded) then VAllow None None true
      else
        let contexts := contextsOf request analysis in
        let plan := planFor request policy in
        rules_loop (λ rule, ruleMatches rule contexts analysis) (plan_isObserving plan) None
          (applicableRulesOf plan policy request).
End Evaluator.
