(* ===== verification/PolicyEvaluatorFacts.v ===== *)
(** * The policy evaluator: facts

    Profiles terminate on cyclic inheritance, the rule loop implements a relational
    specification of the verdict, refusals are justified, a vouching rule covered the
    whole command, and watching never refuses. *)
From S2P Require Import Prelude JsText ShellScanner CommandAnalyzer PolicyTypes CommandPredicates PolicyEvaluator.

(** ** Profile inheritance *)

(** The inheritance chain of a profile: it ends at a missing profile, at a profile
    without parent, or at a profile that was already on it. *)
Inductive chain (profiles : rec PolicyProfile) : list str → str → list PolicyProfile → Prop :=
  | chain_seen visited name : name ∈ visited → chain profiles visited name []
  | chain_missing visited name : get profiles name = None → chain profiles visited name []
  | chain_root visited name p :
      (name ∉ visited) → get profiles name = Some p → profile_extends p = None → chain profiles visited name [p]
  | chain_parent visited name p parent ps :
      (name ∉ visited) → get profiles name = Some p → profile_extends p = Some parent →
      chain profiles (name :: visited) parent ps → chain profiles visited name (p :: ps).

Lemma rule_ids_chain profiles : ∀ fuel name visited,
  NoDup visited → visited ⊆ profiles.*1 → length profiles < fuel + length visited →
  ∃ ps, chain profiles visited name ps ∧ rule_ids fuel profiles name visited = Some (concat (reverse (profile_rules <$> ps))).
Proof.
  induction fuel as [|fuel IH]; intros name visited Hnd Hsub Hlen.
  { exfalso. pose proof (submseteq_length _ _ (NoDup_submseteq _ _ Hnd Hsub)) as H. rewrite length_fmap in H. simpl in Hlen. lia. }
  cbn [rule_ids]. destruct (mem_str name visited) eqn:Hv.
  { exists []. split; [|done]. apply chain_seen. by apply mem_str_In, list_elem_of_In in Hv. }
  assert (Hn : name ∉ visited) by (intros Hin%list_elem_of_In%mem_str_In; congruence).
  destruct (get profiles name) as [p|] eqn:Hp; [|exists []; split; [by apply chain_missing|done]].
  destruct (profile_extends p) as [parent|] eqn:He.
  - destruct (IH parent (name :: visited)) as (ps & Hc & Hr).
    + by apply list.NoDup_cons.
    + intros x Hx. apply elem_of_cons in Hx as [->|Hx]; [by eapply get_key|by apply Hsub].
    + simpl. lia.
    + exists (p :: ps). split; [by eapply chain_parent|]. rewrite Hr. simpl.
      rewrite reverse_cons, concat_app. simpl. by rewrite app_nil_r.
  - exists [p]. split; [by apply chain_root|]. simpl. by rewrite app_nil_r.
Qed.

Lemma chain_det profiles visited name ps ps' :
  chain profiles visited name ps → chain profiles visited name ps' → ps = ps'.
Proof.
  intros H. revert ps'. induction H as [| | |visited name p parent ps Hn Hp He Hc IH];
    intros ps'; inversion 1; subst; try done; try congruence. f_equal; [congruence|].
  apply IH. congruence.
Qed.

(** [ruleIdsOfProfile] terminates on every set of profiles, cyclic inheritance
    included (the fuel of the model, one more than the number of profiles, is always
    enough), and gives the rules of the inheritance chain, the most distant ancestor's
    first, each profile of the chain counted once. *)
Theorem ruleIdsOfProfile_terminates profiles name :
  is_Some (rule_ids (S (length profiles)) profiles name []) ∧
  ∃ ps, chain profiles [] name ps ∧ (∀ ps', chain profiles [] name ps' → ps' = ps) ∧
        ruleIdsOfProfile profiles name = concat (reverse (profile_rules <$> ps)).
Proof.
  destruct (rule_ids_chain profiles (S (length profiles)) name []) as (ps & Hc & Hr);
    [constructor|set_solver|simpl; lia|].
  split; [by eexists|]. exists ps. split; [done|]. split; [|unfold ruleIdsOfProfile; by rewrite Hr].
  intros ps' Hc'. by eapply chain_det.
Qed.

(** ** The verdict as a relation *)
Section Decided.
Variable matching : PolicyRule → bool.
Variable isObserving : bool.

(** What the ordered applicable rules decide: the first matching rule that refuses,
    else the first matching rule, which vouches, else nothing. *)
Inductive decided (rules : list PolicyRule) : PolicyVerdict → Prop :=
  | decided_refused pre r post :
      rules = pre ++ r :: post → (∀ x, x ∈ pre → matching x = true → rule_decision x = Allow) →
      matching r = true → rule_decision r ≠ Allow → decided rules (refusalOf r isObserving)
  | decided_vouched pre r post :
      rules = pre ++ r :: post → (∀ x, x ∈ pre → matching x = false) → matching r = true →
      (∀ x, x ∈ rules → matching x = true → rule_decision x = Allow) →
      decided rules (VAllow (Some (rule_id r)) None false)
  | decided_silent : (∀ x, x ∈ rules → matching x = false) → decided rules ALLOW.

Lemma rules_loop_vouched rules a :
  (∃ pre r post, rules = pre ++ r :: post ∧ (∀ x, x ∈ pre → matching x = true → rule_decision x = Allow) ∧
     matching r = true ∧ rule_decision r ≠ Allow ∧ rules_loop matching isObserving (Some a) rules = refusalOf r isObserving) ∨
  ((∀ x, x ∈ rules → matching x = true → rule_decision x = Allow) ∧
   rules_loop matching isObserving (Some a) rules = VAllow (Some a) None false).
Proof.
  induction rules as [|x rules IH]; cbn [rules_loop]; [right; split; [by intros ? ?%elem_of_nil|done]|].
  destruct (matching x) eqn:Hm; cbn [negb].
  - destruct (bool_decide (rule_decision x = Allow)) eqn:Ha; cbn [negb].
    + apply bool_decide_eq_true in Ha. destruct IH as [(pre & r & post & -> & Hpre & ?)|[Hall ?]].
      * left. exists (x :: pre), r, post. split_and!; try done; try tauto. intros y [->|Hy]%elem_of_cons; auto.
      * right. split; [|done]. intros y [->|Hy]%elem_of_cons; auto.
    + apply bool_decide_eq_false in Ha. left. exists [], x, rules. split_and!; try done. by intros ? ?%elem_of_nil.
  - destruct IH as [(pre & r & post & -> & Hpre & ?)|[Hall ?]].
    + left. exists (x :: pre), r, post. split_and!; try done; try tauto. intros y [->|Hy]%elem_of_cons; [congruence|auto].
    + right. split; [|done]. intros y [->|Hy]%elem_of_cons; [congruence|auto].
Qed.

Lemma rules_loop_decided rules : decided rules (rules_loop matching isObserving None rules).
Proof.
  induction rules as [|x rules IH]; cbn [rules_loop]; [apply decided_silent; by intros ? ?%elem_of_nil|].
  destruct (matching x) eqn:Hm; cbn [negb].
  - destruct (bool_decide (rule_decision x = Allow)) eqn:Ha; cbn [negb].
    + apply bool_decide_eq_true in Ha.
      destruct (rules_loop_vouched rules (rule_id x)) as [(pre & r & post & -> & Hpre & Hr & Hd & ->)|[Hall ->]].
      * apply (decided_refused _ (x :: pre) r post); [done| |done|done]. intros y [->|Hy]%elem_of_cons; auto.
      * apply (decided_vouched _ [] x rules); [done|by intros ? ?%elem_of_nil|done|].
        intros y [->|Hy]%elem_of_cons; auto.
    + apply bool_decide_eq_false in Ha. apply (decided_refused _ [] x rules); [done|by intros ? ?%elem_of_nil|done|done].
  - inversion IH as [pre r post Hsplit Hpre Hr Hd|pre r post Hsplit Hpre Hr Hall|Hnone]; subst.
    + apply (decided_refused _ (x :: pre) r post); [done| |done|done]. intros y [->|Hy]%elem_of_cons; [congruence|auto].
    + apply (decided_vouched _ (x :: pre) r post); [done| |done|]; intros y [->|Hy]%elem_of_cons; auto; congruence.
    + apply decided_silent. intros y [->|Hy]%elem_of_cons; auto.
Qed.

Lemma rules_loop_refused pre r post a :
  (∀ x, x ∈ pre → matching x = true → rule_decision x = Allow) → matching r = true → rule_decision r ≠ Allow →
  rules_loop matching isObserving a (pre ++ r :: post) = refusalOf r isObserving.
Proof.
  intros Hpre Hr Hd. revert a Hpre. induction pre as [|x pre IH]; intros a Hpre; cbn [app rules_loop].
  - rewrite Hr. cbn [negb]. by rewrite bool_decide_false.
  - assert (Hx := Hpre x (list_elem_of_here _ _)).
    assert (Hrest : ∀ y, y ∈ pre → matching y = true → rule_decision y = Allow).
    { intros y Hy. apply Hpre. by right. }
    destruct (matching x); cbn [negb]; [|by apply IH]. rewrite bool_decide_true by auto. cbn [negb]. by apply IH.
Qed.

Lemma rules_loop_skip pre rest a :
  (∀ x, x ∈ pre → matching x = false) →
  rules_loop matching isObserving a (pre ++ rest) = rules_loop matching isObserving a rest.
Proof.
  intros Hpre. induction pre as [|x pre IH]; cbn [app rules_loop]; [done|].
  rewrite (Hpre x (list_elem_of_here _ _)). cbn [negb]. apply IH. intros y Hy. apply Hpre. by right.
Qed.

(** The relation determines the verdict. *)
Lemma decided_loop rules v : decided rules v ↔ v = rules_loop matching isObserving None rules.
Proof.
  split; [|intros ->; apply rules_loop_decided].
  intros [pre r post -> Hpre Hr Hd|pre r post -> Hpre Hr Hall|Hnone].
  - by rewrite rules_loop_refused.
  - rewrite rules_loop_skip by done. cbn [rules_loop]. rewrite Hr. cbn [negb].
    rewrite bool_decide_true by (apply Hall; [set_solver|done]). cbn [negb].
    destruct (rules_loop_vouched post (rule_id r)) as [(p2 & r2 & q2 & -> & _ & Hr2 & Hd2 & _)|[_ ->]]; [|done].
    destruct Hd2. apply Hall; [set_solver|done].
  - rewrite <- (app_nil_r rules). by rewrite rules_loop_skip.
Qed.
End Decided.

(** ** The rules a request is judged by *)
Lemma rulesById_sound rules k r : get (rulesById rules) k = Some r → r ∈ rules ∧ rule_id r = k.
Proof.
  unfold rulesById.
  enough (H : ∀ acc, (∀ k r, get acc k = Some r → rule_id r = k) →
    get (fold_left (λ m rule, put m (rule_id rule) rule) rules acc) k = Some r →
    (r ∈ rules ∨ get acc k = Some r) ∧ rule_id r = k).
  { intros Hg. destruct (H [] ltac:(done) Hg) as [[?|?] ?]; done. }
  induction rules as [|x rules IH]; intros acc Hacc; simpl; [by eauto|].
  intros Hg. destruct (IH (put acc (rule_id x) x)) as [Hin Hk]; [|done|].
  - intros k' r'. rewrite get_put. destruct (str_eqb (rule_id x) k') eqn:E; [|by apply Hacc].
    intros [= <-]. by apply str_eqb_eq.
  - split; [|done]. destruct Hin as [?|Hput]; [left; by right|]. revert Hput. rewrite get_put.
    destruct (str_eqb (rule_id x) k); [|by right]. intros [= <-]. left. left.
Qed.

Section Verdicts.
Variable toLowerCase : str → str.
Variable realpathNative : str → option str.
Variable processCwd : str.
Abbreviation evaluate := (evaluateCommandPolicy toLowerCase realpathNative processCwd).
Abbreviation holds := (matchesPredicate realpathNative processCwd).

Definition analysisOf (request : PolicyRequest) : option CommandAnalysis :=
  if str_eqb (req_toolName request) BASH_TOOL then analyzeCommand <$> req_command request else None.
(** A rule of the request's profile that is in scope, not escaped, and whose predicate matches. *)
Definition matchesRequest (request : PolicyRequest) (rule : PolicyRule) : bool :=
  ruleMatches realpathNative processCwd rule (contextsOf request (analysisOf request)) (analysisOf request).
Abbreviation rulesFor request policy := (applicableRulesOf toLowerCase (planFor toLowerCase request policy) policy request).

(** When the rules are consulted: the policy is on, a shell call has its text, and
    the analysis stayed within its limits. *)
Definition judged (request : PolicyRequest) (policy : CommandPolicyDocument) : Prop :=
  doc_mode policy ≠ ModeOff ∧ (req_toolName request = BASH_TOOL → req_command request ≠ None) ∧
  analysis_status <$> analysisOf request ≠ Some LimitExceeded.

Lemma evaluate_judged request policy :
  judged request policy →
  evaluate request policy = rules_loop (matchesRequest request) (plan_isObserving (planFor toLowerCase request policy)) None (rulesFor request policy).
Proof.
  intros (Hoff & Hbash & Hlim). unfold evaluateCommandPolicy. rewrite bool_decide_false by done.
  unfold matchesRequest, analysisOf in *. destruct (str_eqb (req_toolName request) BASH_TOOL) eqn:Hb; cbn [andb].
  - apply str_eqb_eq in Hb. rewrite bool_decide_false by auto. by rewrite bool_decide_false.
  - by rewrite bool_decide_false.
Qed.

Lemma evaluate_not_judged request policy :
  ¬ judged request policy → evaluate request policy = ALLOW ∨ evaluate request policy = VAllow None None true.
Proof.
  intros Hn. unfold evaluateCommandPolicy. case_bool_decide as Hoff; [by left|].
  destruct (str_eqb (req_toolName request) BASH_TOOL) eqn:Hb; cbn [andb].
  - case_bool_decide as Hc; [by left|]. case_bool_decide as Hl; [by right|]. destruct Hn.
    unfold judged, analysisOf. by rewrite Hb.
  - rewrite bool_decide_false by done. destruct Hn. unfold judged, analysisOf. rewrite Hb.
    split_and!; [done| |done]. intros E. apply str_eqb_neq in Hb. done.
Qed.

Lemma judged_by_verdict request policy :
  evaluate request policy ≠ ALLOW → evaluate request policy ≠ VAllow None None true → judged request policy.
Proof.
  intros H1 H2.
  destruct (decide (doc_mode policy = ModeOff ∨ (req_toolName request = BASH_TOOL ∧ req_command request = None) ∨
                    analysis_status <$> analysisOf request = Some LimitExceeded)) as [Hno|Hyes].
  - destruct (evaluate_not_judged request policy); [unfold judged; tauto|done|done].
  - unfold judged. tauto.
Qed.

(** C1. The evaluator implements the relational specification: on a judged request
    the verdict is exactly the one the ordered applicable rules decide, so the first
    matching rule that denies or asks wins whatever allow rules precede it, an allow rule
    only vouches when nothing refuses, and nothing matching means allow. *)
Theorem evaluateCommandPolicy_refines request policy verdict :
  judged request policy →
  evaluate request policy = verdict ↔
  decided (matchesRequest request) (plan_isObserving (planFor toLowerCase request policy)) (rulesFor request policy) verdict.
Proof. intros Hj. rewrite decided_loop, evaluate_judged by done. split; congruence. Qed.

Lemma applicable_sound request policy rule :
  rule ∈ rulesFor request policy →
  rule ∈ doc_rules policy ∧ rule_id rule ∈ plan_ruleIds (planFor toLowerCase request policy) ∧
  isInScope toLowerCase rule request = true ∧ isEscapedByMarker rule request = false.
Proof.
  unfold applicableRulesOf. rewrite list_elem_of_omap. intros (k & Hk & Hg).
  destruct (get (rulesById (doc_rules policy)) k) as [r|] eqn:Hr; [|done].
  apply rulesById_sound in Hr as [Hin <-].
  destruct (isInScope toLowerCase r request) eqn:Hs; [|done]. destruct (isEscapedByMarker r request) eqn:He; [done|].
  by injection Hg as <-.
Qed.

(** Every refusal is justified and enforced: a deny or an ask names a rule of
    the document that the role's profile lists, that is in scope for the call, not
    escaped, matching, and of that decision; the policy and the profile are enforcing. *)
Theorem refusals_are_justified request policy id reason :
  (∃ alternative, evaluate request policy = VDeny id reason alternative) ∨ evaluate request policy = VAsk id reason →
  doc_mode policy = ModeEnforce ∧ plan_isObserving (planFor toLowerCase request policy) = false ∧
  ∃ rule, rule ∈ doc_rules policy ∧ rule_id rule = id ∧ rule_reason rule = reason ∧
    id ∈ plan_ruleIds (planFor toLowerCase request policy) ∧
    isInScope toLowerCase rule request = true ∧ isEscapedByMarker rule request = false ∧
    matchesRequest request rule = true ∧
    match evaluate request policy with
    | VDeny _ _ alternative => rule_decision rule = Deny ∧ alternative = default [] (rule_alternative rule)
    | VAsk _ _ => rule_decision rule = Ask
    | VAllow _ _ _ => False
    end.
Proof.
  intros H. assert (Hj : judged request policy) by (apply judged_by_verdict; intros E; rewrite E in H; naive_solver).
  pose proof (rules_loop_decided (matchesRequest request) (plan_isObserving (planFor toLowerCase request policy))
                (rulesFor request policy)) as Hdec.
  rewrite <- (evaluate_judged _ _ Hj) in Hdec. set (v := evaluate request policy) in *.
  destruct Hdec as [pre r post Hsplit _ Hm Hd| |]; [|naive_solver|naive_solver].
  unfold refusalOf in *. destruct (plan_isObserving (planFor toLowerCase request policy)) eqn:Ho; [naive_solver|].
  assert (Hin : r ∈ rulesFor request policy) by (rewrite Hsplit; set_solver).
  apply applicable_sound in Hin as (Hdoc & Hid & Hscope & Hesc).
  split; [|split; [done|]].
  - unfold planFor in Ho. cbn in Ho. apply orb_false_iff in Ho as [Ho _]. apply bool_decide_eq_false in Ho.
    destruct Hj as [Hoff _]. by destruct (doc_mode policy).
  - exists r. destruct (rule_decision r) eqn:Hdr; [|done|].
    + rewrite bool_decide_false in * by done. destruct H as [[alt [= E1 E2 E3]]|[=]]. subst. by split_and!.
    + rewrite bool_decide_true in * by done. destruct H as [[alt [=]]|[= E1 E2]]. subst. by split_and!.
Qed.

(** A vouched shell command was vouched as a whole: when an allow rule that must
    cover every command is the one that vouches, the text was read completely, has at
    least one command, and the rule's predicate holds of every one of them. *)
Theorem vouched_command_is_covered request policy id text :
  evaluate request policy = VAllow (Some id) None false →
  req_toolName request = BASH_TOOL → req_command request = Some text →
  ∃ rule, rule ∈ doc_rules policy ∧ rule_id rule = id ∧ rule_decision rule = Allow ∧
    (rule_appliesTo rule = Some EveryCommand →
     analysis_status (analyzeCommand text) = Complete ∧ analysis_commands (analyzeCommand text) ≠ [] ∧
     Forall (λ c, holds (rule_when rule) (mkContext (Some c) [] request) = true) (analysis_commands (analyzeCommand text))).
Proof.
  intros Hv Htool Htext. assert (Hj : judged request policy) by (apply judged_by_verdict; rewrite Hv; discriminate).
  pose proof (rules_loop_decided (matchesRequest request) (plan_isObserving (planFor toLowerCase request policy))
                (rulesFor request policy)) as Hdec.
  rewrite <- (evaluate_judged _ _ Hj), Hv in Hdec.
  inversion Hdec as [pre r post Hsplit _ Hm Hd Href|pre r post Hsplit _ Hm Hall Hid|]; subst.
  { unfold refusalOf in Href. repeat case_match; done. }
  assert (Hin : r ∈ rulesFor request policy) by (rewrite Hsplit; set_solver).
  exists r. split; [by apply applicable_sound in Hin as [? _]|]. split; [done|]. split; [by apply Hall|].
  intros Hevery. unfold matchesRequest, ruleMatches, analysisOf in Hm.
  rewrite Htool, str_eqb_refl, Htext, bool_decide_true in Hm by done. cbn [negb fmap option_fmap option_map contextsOf] in Hm.
  apply andb_true_iff in Hm as [[Hc%bool_decide_eq_true Hlen%bool_decide_eq_true]%andb_true_iff Hall'].
  rewrite length_fmap in Hlen. split; [congruence|]. split.
  - intros E. rewrite E in Hlen. simpl in Hlen. lia.
  - apply List.Forall_forall. intros c Hc'. rewrite forallb_forall in Hall'. apply Hall'.
    apply in_map_iff. by exists c.
Qed.

(** ** Watching is a dry run *)
Definition with_mode (mode : PolicyMode) (policy : CommandPolicyDocument) : CommandPolicyDocument :=
  mkDocument (doc_version policy) mode (doc_profiles policy) (doc_roleToProfile policy) (doc_rules policy).

(** The verdict a watching policy gives where an enforcing one gives [v]. *)
Definition watched_as (v w : PolicyVerdict) : Prop :=
  match v with
  | VAllow _ _ _ => w = v
  | VDeny id reason alternative => ∃ a, w = VAllow None (Some (mkObserved id reason a)) false ∧ default [] a = alternative
  | VAsk id reason => ∃ a, w = VAllow None (Some (mkObserved id reason a)) false
  end.

Lemma rules_loop_watched matching a rules :
  watched_as (rules_loop matching false a rules) (rules_loop matching true a rules).
Proof.
  revert a. induction rules as [|r rules IH]; intros a; cbn [rules_loop]; [by destruct a|].
  destruct (matching r); cbn [negb]; [|done].
  destruct (bool_decide (rule_decision r = Allow)); cbn [negb]; [done|].
  unfold refusalOf. destruct (bool_decide (rule_decision r = Ask)); simpl; eauto.
Qed.

(** Observe mode is a faithful dry run: for a profile that is not itself
    watching, it lets every call through and records exactly the rule, reason and
    alternative enforcement would have refused with, and changes nothing else. *)
Theorem observe_is_a_dry_run request policy :
  plan_isObserving (planFor toLowerCase request (with_mode ModeEnforce policy)) = false →
  watched_as (evaluate request (with_mode ModeEnforce policy)) (evaluate request (with_mode ModeObserve policy)).
Proof.
  intros Ho. unfold evaluateCommandPolicy. cbn [doc_mode with_mode]. rewrite !bool_decide_false by done.
  case_match; [done|]. case_match; [done|]. rewrite Ho.
  change (plan_isObserving (planFor toLowerCase request (with_mode ModeObserve policy))) with true.
  apply rules_loop_watched.
Qed.
End Verdicts.

(** ** A concrete policy: no forced push; plain reads of the worktree are vouched for. *)
Definition empty_predicate : RulePredicate :=
  mkPredicate None None None None None None None None None None None None None None [].
Definition no_force_push : PolicyRule :=
  mkRule (js "no-force-push") (Some [js "Bash"]) None None None None None Deny
    (mkPredicate (Some (One (js "git"))) (Some (One (js "push"))) (Some (mkFlagGroups None (Some [[js "f"; js "force"]]) None))
       None None None None None None None None None None None [])
    (js "forced push") (Some (js "push without force")) None.
Definition reads_vouched : PolicyRule :=
  mkRule (js "plain-reads") None None None None None (Some EveryCommand) Allow
    (mkPredicate None None None None None None None (Some [js "{worktree}"]) None None None None None None [])
    (js "reads") None None.
Definition sample_policy : CommandPolicyDocument :=
  mkDocument 1 ModeEnforce
    [(js "base", mkProfile (Some (js "default")) [js "no-force-push"] None);
     (js "default", mkProfile (Some (js "base")) [js "plain-reads"] None)]
    [(js "worker", js "base")] [no_force_push; reads_vouched].
Definition bash_request (text : string) : PolicyRequest :=
  mkRequest (js "s1") (js "claude-cli") (Some (js "worker")) None Unattended SessionActor PreToolUse BASH_TOOL
    (Some (js text)) None None None (js "/w") (Some (js "/w")) [] None.
Definition id_case (s : str) : str := s.
Definition no_files (path : str) : option str := None.
Abbreviation sample_evaluate text :=
  (evaluateCommandPolicy id_case no_files (js "/") (bash_request text) sample_policy).

Lemma evaluateCommandPolicy_refines_witness :
  decided (matchesRequest no_files (js "/") (bash_request "cat a && git -C x push -f")) false [reads_vouched; no_force_push]
    (VDeny (js "no-force-push") (js "forced push") (js "push without force")).
Proof.
  apply (evaluateCommandPolicy_refines id_case no_files (js "/") (bash_request "cat a && git -C x push -f") sample_policy).
  - split_and!; [discriminate|intros _; discriminate|vm_compute; discriminate].
  - vm_compute. reflexivity.
Defined.

Lemma refusals_are_justified_witness :
  doc_mode sample_policy = ModeEnforce ∧
  ∃ rule, rule ∈ doc_rules sample_policy ∧ rule_id rule = js "no-force-push" ∧ rule_decision rule = Deny.
Proof.
  destruct (refusals_are_justified id_case no_files (js "/") (bash_request "cat a && git -C x push -f") sample_policy
              (js "no-force-push") (js "forced push")) as (Hm & _ & r & Hin & Hid & _ & _ & _ & _ & _ & Hd).
  - left. exists (js "push without force"). vm_compute. reflexivity.
  - split; [exact Hm|]. exists r. split; [exact Hin|]. split; [exact Hid|].
    replace (sample_evaluate "cat a && git -C x push -f")
      with (VDeny (js "no-force-push") (js "forced push") (js "push without force")) in Hd by (vm_compute; reflexivity).
    exact (proj1 Hd).
Defined.

Lemma vouched_command_is_covered_witness :
  ∃ rule, rule_id rule = js "plain-reads" ∧ analysis_commands (analyzeCommand (js "cat a | head -3")) ≠ [].
Proof.
  destruct (vouched_command_is_covered id_case no_files (js "/") (bash_request "cat a | head -3") sample_policy
              (js "plain-reads") (js "cat a | head -3")) as (r & Hin & Hid & Hd & Hc);
    [vm_compute; reflexivity|reflexivity|reflexivity|].
  exists r. split; [exact Hid|]. apply Hc.
  unfold sample_policy in Hin. cbn [doc_rules] in Hin.
  apply elem_of_cons in Hin as [->|Hin]; [vm_compute in Hid; discriminate|].
  apply list_elem_of_singleton in Hin as ->. reflexivity.
Defined.

Lemma observe_is_a_dry_run_witness :
  ∃ a, evaluateCommandPolicy id_case no_files (js "/") (bash_request "git push --force") (with_mode ModeObserve sample_policy)
       = VAllow None (Some (mkObserved (js "no-force-push") (js "forced push") a)) false.
Proof.
  assert (Hw := observe_is_a_dry_run id_case no_files (js "/") (bash_request "git push --force") sample_policy eq_refl).
  replace (evaluateCommandPolicy id_case no_files (js "/") (bash_request "git push --force") (with_mode ModeEnforce sample_policy))
    with (VDeny (js "no-force-push") (js "forced push") (js "push without force")) in Hw by (vm_compute; reflexivity).
  destruct Hw as (a & Hw & _). exists a. exact Hw.
Defined.
