(* ===== verification/PolicyDocument.v ===== *)
(** * The policy document and the user's override

    Model of [packages/core/src/policy/policyDocument.ts]: the delivered document
    merged with a hand-edited override, of which whatever is invalid is dropped and
    reported.  The validation library is a parameter: [Schemas] holds the parser of
    each schema, which gives the data or the text of its error. *)
From S2P Require Import Prelude JsText PolicyTypes PolicyEvaluator PolicyEvaluatorFacts.

(** A JSON value; numbers are only compared with the document version. *)
Inductive json :=
  | JNull
  | JBool (b : bool)
  | JNum (n : Z)
  | JStr (s : str)
  | JArr (l : list json)
  | JObj (fields : list (str * json)).

Inductive PolicyDocumentIssue :=
  | IDocument (message : str)
  | IField (field message : str)
  | IRule (index : nat) (ruleId : option str) (message : str)
  | IProfile (profile message : str).

Definition ALLOW_DECLARED_COMMANDS_RULE_ID : str := js "allow-declared-commands".

Record ParsedOverride := mkParsed
  { po_mode : option PolicyMode;
    po_declaredCommands : list str;
    po_disabledRules : list str;
    po_rules : list PolicyRule;
    po_profiles : rec PolicyProfile;
    po_roleToProfile : rec str;
    po_issues : list PolicyDocumentIssue }.

Record CommandPolicyOverride := mkOverride
  { ov_mode : option PolicyMode;
    ov_unattended : option (option bool);
    ov_declaredCommands : option (list str);
    ov_disabledRules : option (list str);
    ov_rules : option (list PolicyRule);
    ov_profiles : option (rec PolicyProfile);
    ov_roleToProfile : option (rec str) }.

(** [schema.safeParse(raw)]: the data, or the text of the error. *)
Record Schemas := mkSchemas
  { modeSchema : json → PolicyMode + str;
    declaredCommandsSchema : json → list str + str;
    ruleIdListSchema : json → list str + str;
    ruleSchema : json → PolicyRule + str;
    profileSchema : json → PolicyProfile + str;
    roleMappingSchema : json → str + str;
    unattendedSchema : json → option bool + str }.

Definition OVERRIDE_KEYS : list str :=
  [js "version"; js "mode"; js "unattended"; js "declaredCommands"; js "disabledRules"; js "rules"; js "profiles"; js "roleToProfile"].

Definition isPlainObject (value : json) : option (list (str * json)) :=
  match value with JObj fields => Some fields | _ => None end.

(** Each parser gives its result and the issues it pushes. *)
Definition parseField {T} (raw : option json) (schema : json → T + str) (field : str)
  : option T * list PolicyDocumentIssue :=
  match raw with
  | None => (None, [])
  | Some value =>
      match schema value with
      | inl data => (Some data, [])
      | inr message => (None, [IField field message])
      end
  end.

Definition idOfEntry (entry : json) : option str :=
  match isPlainObject entry with
  | Some fields => match get fields (js "id") with Some (JStr s) => Some s | _ => None end
  | None => None
  end.

Section Validation.
Variable schemas : Schemas.

Fixpoint parse_rule_entries (index : nat) (entries : list json) : list PolicyRule * list PolicyDocumentIssue :=
  match entries with
  | [] => ([], [])
  | entry :: rest =>
      let '(rules, issues) := parse_rule_entries (S index) rest in
      match ruleSchema schemas entry with
      | inl rule => (rule :: rules, issues)
      | inr message => (rules, IRule index (idOfEntry entry) message :: issues)
      end
  end.
Definition parseRules (raw : option json) : list PolicyRule * list PolicyDocumentIssue :=
  match raw with
  | None => ([], [])
  | Some (JArr entries) => parse_rule_entries 0 entries
  | Some _ => ([], [IField (js "rules") (js "rules must be a list")])
  end.

Fixpoint parse_profile_entries (profiles : rec PolicyProfile) (entries : list (str * json))
  : rec PolicyProfile * list PolicyDocumentIssue :=
  match entries with
  | [] => (profiles, [])
  | (name, entry) :: rest =>
      match profileSchema schemas entry with
      | inl profile => parse_profile_entries (put profiles name profile) rest
      | inr message =>
          let '(result, issues) := parse_profile_entries profiles rest in (result, IProfile name message :: issues)
      end
  end.
Definition parseProfiles (raw : option json) : rec PolicyProfile * list PolicyDocumentIssue :=
  match raw with
  | None => ([], [])
  | Some value =>
      match isPlainObject value with
      | None => ([], [IField (js "profiles") (js "profiles must be an object")])
      | Some fields => parse_profile_entries [] fields
      end
  end.

Fixpoint parse_role_entries (mappings : rec str) (entries : list (str * json)) : rec str * list PolicyDocumentIssue :=
  match entries with
  | [] => (mappings, [])
  | (role, profile) :: rest =>
      match roleMappingSchema schemas profile with
      | inl name => parse_role_entries (put mappings role name) rest
      | inr _ =>
          let '(result, issues) := parse_role_entries mappings rest in
          (result, IField (js "roleToProfile") (role ++ js ": a profile name is required") :: issues)
      end
  end.
Definition parseRoleMappings (raw : option json) : rec str * list PolicyDocumentIssue :=
  match raw with
  | None => ([], [])
  | Some value =>
      match isPlainObject value with
      | None => ([], [IField (js "roleToProfile") (js "roleToProfile must be an object")])
      | Some fields => parse_role_entries [] fields
      end
  end.

Definition parseOverride (override : list (str * json)) : ParsedOverride :=
  let unknown := (λ key, IField key (js "unknown key")) <$> filter (λ key, mem_str key OVERRIDE_KEYS = false) override.*1 in
  let '(mode, i1) := parseField (get override (js "mode")) (modeSchema schemas) (js "mode") in
  let '(declared, i2) := parseField (get override (js "declaredCommands")) (declaredCommandsSchema schemas) (js "declaredCommands") in
  let '(disabled, i3) := parseField (get override (js "disabledRules")) (ruleIdListSchema schemas) (js "disabledRules") in
  let '(rules, i4) := parseRules (get override (js "rules")) in
  let '(profiles, i5) := parseProfiles (get override (js "profiles")) in
  let '(roles, i6) := parseRoleMappings (get override (js "roleToProfile")) in
  mkParsed mode (default [] declared) (default [] disabled) rules profiles roles (unknown ++ i1 ++ i2 ++ i3 ++ i4 ++ i5 ++ i6).

Definition mergeRules (delivered : list PolicyRule) (disabledIds : list str) (replacements : list PolicyRule) : list PolicyRule :=
  let replacementsById := rulesById replacements in
  let kept := (λ rule, default rule (get replacementsById (rule_id rule)))
              <$> filter (λ rule, mem_str (rule_id rule) disabledIds = false) delivered in
  let keptIds := rule_id <$> kept in
  let added := filter (λ rule, mem_str (rule_id rule) keptIds = false) replacementsById.*2 in
  kept ++ added.

(** The merged mappings, and the issues pushed for unknown profiles. *)
Fixpoint merge_roles (merged : rec str) (profiles : rec PolicyProfile) (mappings : rec str)
  : rec str * list PolicyDocumentIssue :=
  match mappings with
  | [] => (merged, [])
  | (role, profile) :: rest =>
      if has_own profiles profile then merge_roles (put merged role profile) profiles rest
      else
        let '(result, issues) := merge_roles merged profiles rest in
        (result, IField (js "roleToProfile") (role ++ js ": unknown profile " ++ profile) :: issues)
  end.
Definition mergeRoleMappings (delivered : CommandPolicyDocument) (parsed : ParsedOverride) (profiles : rec PolicyProfile)
  : rec str * list PolicyDocumentIssue :=
  merge_roles (doc_roleToProfile delivered) profiles (po_roleToProfile parsed).

Definition isSupportedVersion (override : list (str * json)) : bool :=
  match get override (js "version") with Some (JNum n) => Z.eqb n POLICY_DOCUMENT_VERSION | _ => false end.

Definition is_field_issue (field : str) (issue : PolicyDocumentIssue) : bool :=
  match issue with IField f _ => str_eqb f field | _ => false end.
Definition validPartsOfOverride (delivered : CommandPolicyDocument) (override : list (str * json)) : CommandPolicyOverride :=
  if negb (isSupportedVersion override) then mkOverride None None None None None None None
  else
    let parsed := parseOverride override in
    let isStatedAndValid field := has_own override field && negb (existsb (is_field_issue field) (po_issues parsed)) in
    let stated {T} (field : str) (value : T) := if isStatedAndValid field then Some value else None in
    let knownProfiles := spread (doc_profiles delivered) (po_profiles parsed) in
    let roleToProfile := filter (λ e : str * str, has_own knownProfiles e.2 = true) (po_roleToProfile parsed) in
    let unattended := match get override (js "unattended") with
                      | None => None
                      | Some raw => match unattendedSchema schemas raw with inl data => Some data | inr _ => None end
                      end in
    mkOverride (po_mode parsed) unattended
      (stated (js "declaredCommands") (po_declaredCommands parsed)) (stated (js "disabledRules") (po_disabledRules parsed))
      (stated (js "rules") (po_rules parsed)) (stated (js "profiles") (po_profiles parsed))
      (stated (js "roleToProfile") roleToProfile).

Definition with_declared (rule : PolicyRule) (declaredCommands : list str) : PolicyRule :=
  let w := rule_when rule in
  mkRule (rule_id rule) (rule_tools rule) (rule_harnesses rule) (rule_actor rule) (rule_presence rule) (rule_models rule)
    (rule_appliesTo rule) (rule_decision rule)
    (mkPredicate (p_program w) (p_subcommand w) (p_flags w) (p_commandPrefix w) (p_repoWideSearch w) (p_writesPathMatching w)
       (p_argMatching w) (p_readsOnlyWithin w) (p_recipientIsFleetSession w) (p_writesFilesOutside w) (Some declaredCommands)
       (p_anyOf w) (p_allOf w) (p_not w) (p_otherKeys w))
    (rule_reason rule) (rule_alternative rule) (rule_escapeMarker rule).
Definition withDeclaredCommands (rules : list PolicyRule) (declaredCommands : list str) : list PolicyRule :=
  if bool_decide (length declaredCommands = 0) then rules
  else (λ rule, if str_eqb (rule_id rule) ALLOW_DECLARED_COMMANDS_RULE_ID then with_declared rule declaredCommands else rule) <$> rules.

(** [describe] prints the version of an override that is not supported. *)
Variable describe : option json → str.
Definition resolveCommandPolicy (delivered : CommandPolicyDocument) (override : option json)
  : CommandPolicyDocument * list PolicyDocumentIssue :=
  match override with
  | None => (delivered, [])
  | Some raw =>
      match isPlainObject raw with
      | None => (delivered, [IDocument (js "the override must be a JSON object")])
      | Some fields =>
          if negb (isSupportedVersion fields) then
            (delivered, [IDocument (js "unsupported override version " ++ describe (get fields (js "version")) ++ js ", expected 1")])
          else
            let parsed := parseOverride fields in
            let profiles := spread (doc_profiles delivered) (po_profiles parsed) in
            let '(roleToProfile, roleIssues) := mergeRoleMappings delivered parsed profiles in
            (mkDocument (doc_version delivered) (default (doc_mode delivered) (po_mode parsed)) profiles roleToProfile
               (withDeclaredCommands (mergeRules (doc_rules delivered) (po_disabledRules parsed) (po_rules parsed))
                  (po_declaredCommands parsed)),
             po_issues parsed ++ roleIssues)
      end
  end.
End Validation.

(** * Facts about the document and the override

    What a merged document contains for every rule id and every role, whatever the
    override holds, and what the reduced override loses. *)
(** ** Lookup by rule id: the last rule of an id *)
Lemma get_rulesById_snoc l x k :
  get (rulesById (l ++ [x])) k = if str_eqb (rule_id x) k then Some x else get (rulesById l) k.
Proof. unfold rulesById. rewrite fold_left_app. simpl. apply get_put. Qed.

Lemma get_rulesById_unique l x k :
  (∃ y, y ∈ l ∧ rule_id y = k) → (∀ y, y ∈ l → rule_id y = k → y = x) → get (rulesById l) k = Some x.
Proof.
  induction l as [|y l IH] using rev_ind; [intros (? & ?%elem_of_nil & _); done|].
  intros Hex Hall. rewrite get_rulesById_snoc. destruct (str_eqb (rule_id y) k) eqn:Hk.
  - apply str_eqb_eq in Hk. f_equal. apply Hall; [set_solver|done].
  - apply str_eqb_neq in Hk. apply IH; [|intros z Hz; apply Hall; set_solver].
    destruct Hex as (z & [Hz| ->%list_elem_of_singleton]%elem_of_app & Hid); [by exists z|done].
Qed.

Lemma get_rulesById_None l k : get (rulesById l) k = None ↔ ∀ y, y ∈ l → rule_id y ≠ k.
Proof.
  induction l as [|y l IH] using rev_ind; [split; [by intros _ ? ?%elem_of_nil|done]|].
  rewrite get_rulesById_snoc. destruct (str_eqb (rule_id y) k) eqn:Hk.
  - apply str_eqb_eq in Hk. split; [done|]. intros H. destruct (H y); [set_solver|done].
  - apply str_eqb_neq in Hk. rewrite IH. split; intros H z Hz; [|apply H; set_solver].
    apply elem_of_app in Hz as [?|Hz%list_elem_of_singleton]; [by apply H|by subst].
Qed.

Lemma get_rulesById_fmap (f : PolicyRule → PolicyRule) l k :
  (∀ r, rule_id (f r) = rule_id r) → get (rulesById (f <$> l)) k = f <$> get (rulesById l) k.
Proof.
  intros Hf. induction l as [|y l IH] using rev_ind; [done|].
  rewrite fmap_app. simpl. rewrite !get_rulesById_snoc, Hf. by destruct (str_eqb (rule_id y) k).
Qed.

Lemma get_rulesById_filter (keep : str → bool) l k :
  get (rulesById (filter (λ r, keep (rule_id r) = true) l)) k = if keep k then get (rulesById l) k else None.
Proof.
  induction l as [|y l IH] using rev_ind; [by destruct (keep k)|].
  rewrite list.filter_app. destruct (keep (rule_id y)) eqn:Hy.
  - rewrite filter_cons_True by done. rewrite filter_nil, !get_rulesById_snoc, IH.
    destruct (str_eqb (rule_id y) k) eqn:Hk; [|done]. apply str_eqb_eq in Hk as <-. by rewrite Hy.
  - rewrite filter_cons_False by (by rewrite Hy). rewrite filter_nil, app_nil_r, IH, get_rulesById_snoc.
    destruct (str_eqb (rule_id y) k) eqn:Hk; [|done]. apply str_eqb_eq in Hk as <-. by rewrite Hy.
Qed.

(** The values of the map of rules, under their own ids. *)
Lemma rulesById_value rules r : r ∈ (rulesById rules).*2 → get (rulesById rules) (rule_id r) = Some r.
Proof.
  assert (Hwf : NoDup (rulesById rules).*1 ∧ ∀ e, e ∈ rulesById rules → rule_id e.2 = e.1).
  { unfold rulesById. induction rules as [|x rules IH] using rev_ind.
    - split; [constructor|by intros ? ?%elem_of_nil].
    - rewrite fold_left_app. simpl. destruct IH as [Hnd Hid]. split; [by apply put_keys_NoDup|].
      intros e [->|He]%put_elem; [done|auto]. }
  destruct Hwf as [Hnd Hid]. intros ([k v] & -> & He)%list_elem_of_fmap. simpl.
  pose proof (Hid _ He) as Hk. simpl in Hk. rewrite Hk. by apply get_elem.
Qed.

(** ** The merged rules *)
Lemma kept_ids (m : rec PolicyRule) :
  (∀ k r, get m k = Some r → rule_id r = k) →
  ∀ r, rule_id (default r (get m (rule_id r))) = rule_id r.
Proof. intros Hm r. destruct (get m (rule_id r)) as [x|] eqn:Hx; [by apply Hm|done]. Qed.

Lemma mergeRules_lookup delivered disabled replacements k :
  get (rulesById (mergeRules delivered disabled replacements)) k =
  match get (rulesById replacements) k with
  | Some r => Some r
  | None => if mem_str k disabled then None else get (rulesById delivered) k
  end.
Proof.
  set (byId := rulesById replacements).
  assert (Hid : ∀ k r, get byId k = Some r → rule_id r = k) by (intros ? ? []%rulesById_sound; done).
  set (f := λ rule, default rule (get byId (rule_id rule))).
  assert (Hf : ∀ r, rule_id (f r) = rule_id r) by (intros r; by apply kept_ids).
  set (kept := f <$> filter (λ rule, mem_str (rule_id rule) disabled = false) delivered).
  set (added := filter (λ rule, mem_str (rule_id rule) (rule_id <$> kept) = false) byId.*2).
  change (mergeRules delivered disabled replacements) with (kept ++ added).
  destruct (get byId k) as [x|] eqn:Hk.
  - apply get_rulesById_unique.
    + destruct (mem_str k (rule_id <$> kept)) eqn:Hin.
      * apply mem_str_In, list_elem_of_In, list_elem_of_fmap in Hin as (y & -> & Hy). exists y. set_solver.
      * exists x. split; [|by apply Hid]. apply elem_of_app. right. apply list_elem_of_filter. split.
        { by rewrite (Hid _ _ Hk). }
        clear -Hk. induction byId as [|[k0 v0] m IH]; simpl in *; [done|].
        destruct (str_eqb k0 k); [injection Hk as ->; left|right; auto].
    + intros y [Hy|Hy]%elem_of_app Hyk.
      * apply list_elem_of_fmap in Hy as (z & -> & _). rewrite Hf in Hyk. unfold f. by rewrite Hyk, Hk.
      * apply list_elem_of_filter in Hy as [_ Hy%rulesById_value]. fold byId in Hy. congruence.
  - assert (Hnone : ∀ y, y ∈ added → rule_id y ≠ k).
    { intros y [_ Hy%rulesById_value]%list_elem_of_filter E. fold byId in Hy. congruence. }
    assert (Hkept : get (rulesById kept) k = if mem_str k disabled then None else get (rulesById delivered) k).
    { unfold kept. rewrite (get_rulesById_fmap f) by done.
      assert (Hflt : get (rulesById (filter (λ rule, mem_str (rule_id rule) disabled = false) delivered)) k
              = if mem_str k disabled then None else get (rulesById delivered) k).
      { rewrite (list_filter_iff _ (λ r, negb (mem_str (rule_id r) disabled) = true));
          [|intros r; by rewrite negb_true_iff].
        rewrite (get_rulesById_filter (λ i, negb (mem_str i disabled))). by destruct (mem_str k disabled). }
      rewrite Hflt. destruct (mem_str k disabled); [done|].
      destruct (get (rulesById delivered) k) as [r|] eqn:Hr; [|done]. simpl. unfold f.
      apply rulesById_sound in Hr as [_ ->]. by rewrite Hk. }
    rewrite <- Hkept. clear -Hnone. induction added as [|y added IH] using rev_ind; [by rewrite app_nil_r|].
    rewrite app_assoc, get_rulesById_snoc.
    assert (Hy : rule_id y ≠ k) by (apply Hnone; set_solver). apply str_eqb_neq in Hy. rewrite Hy.
    apply IH. intros z Hz. apply Hnone. set_solver.
Qed.

Lemma withDeclared_lookup rules declared k :
  get (rulesById (withDeclaredCommands rules declared)) k =
  (λ r, if bool_decide (declared ≠ []) && str_eqb k ALLOW_DECLARED_COMMANDS_RULE_ID then with_declared r declared else r)
    <$> get (rulesById rules) k.
Proof.
  unfold withDeclaredCommands. destruct declared as [|d declared].
  - rewrite bool_decide_true, bool_decide_false by naive_solver. by destruct (get _ k).
  - rewrite bool_decide_false, bool_decide_true by done. rewrite get_rulesById_fmap by (intros r; by case_match).
    destruct (get (rulesById rules) k) as [r|] eqn:Hr; [|done]. simpl.
    by apply rulesById_sound in Hr as [_ ->].
Qed.

(** ** The merged roles *)
Lemma merge_roles_sound profiles mappings : ∀ merged role p,
  get (merge_roles merged profiles mappings).1 role = Some p →
  get merged role = Some p ∨ (has_own profiles p = true ∧ (role, p) ∈ mappings).
Proof.
  induction mappings as [|[r0 p0] mappings IH]; intros merged role p; simpl; [by left|].
  destruct (has_own profiles p0) eqn:Hp.
  - intros [Hput|[? ?]]%IH; [|right; split; [done|by right]]. rewrite get_put in Hput.
    destruct (str_eqb r0 role) eqn:Hr; [|by left]. injection Hput as <-. apply str_eqb_eq in Hr as ->.
    right. split; [done|left].
  - destruct (merge_roles merged profiles mappings) as [result issues] eqn:Hm. simpl. intros H.
    destruct (IH merged role p) as [?|[? ?]]; [by rewrite Hm|by left|right; split; [done|by right]].
Qed.

Section Resolution.
Variable schemas : Schemas.
Variable describe : option json → str.
Abbreviation resolved := (resolveCommandPolicy schemas describe).

(** The fields of an override that applies: a JSON object of the supported version. *)
Definition applied_fields (override : option json) : option (list (str * json)) :=
  match override ≫= isPlainObject with
  | Some fields => if isSupportedVersion fields then Some fields else None
  | None => None
  end.

(** The rules after any override, valid or not: an override that does not apply
    leaves the delivered document; one that applies gives, for every rule id, the user's
    last valid rule of that id, else nothing when the user disabled the id, else the
    delivered rule, with the declared commands put into their own rule only.  A bad edit
    never loses a delivered rule that the user did not disable. *)
Theorem resolveCommandPolicy_rules delivered override :
  match applied_fields override with
  | None => (resolved delivered override).1 = delivered
  | Some fields =>
      let parsed := parseOverride schemas fields in
      ∀ k, get (rulesById (doc_rules (resolved delivered override).1)) k =
        (λ r, if bool_decide (po_declaredCommands parsed ≠ []) && str_eqb k ALLOW_DECLARED_COMMANDS_RULE_ID
              then with_declared r (po_declaredCommands parsed) else r)
        <$> match get (rulesById (po_rules parsed)) k with
            | Some r => Some r
            | None => if mem_str k (po_disabledRules parsed) then None else get (rulesById (doc_rules delivered)) k
            end
  end.
Proof.
  unfold applied_fields, resolveCommandPolicy. destruct override as [raw|]; [|done]. simpl.
  destruct (isPlainObject raw) as [fields|]; [|done].
  destruct (isSupportedVersion fields); [|done]. cbn [negb]. intros k.
  destruct (mergeRoleMappings _ _ _) as [roles issues]. cbn [fst doc_rules].
  by rewrite withDeclared_lookup, mergeRules_lookup.
Qed.

(** The roles after any override: a role of the resolved document keeps the
    profile it was delivered with, or has one that exists in the resolved document. *)
Theorem resolveCommandPolicy_roles delivered override role profile :
  get (doc_roleToProfile (resolved delivered override).1) role = Some profile →
  get (doc_roleToProfile delivered) role = Some profile ∨
  has_own (doc_profiles (resolved delivered override).1) profile = true.
Proof.
  unfold resolveCommandPolicy. destruct override as [raw|]; [|by left].
  destruct (isPlainObject raw) as [fields|]; [|by left].
  destruct (isSupportedVersion fields); [|by left]. cbn [negb].
  destruct (mergeRoleMappings _ _ _) as [roles issues] eqn:Hm. cbn [fst doc_roleToProfile doc_profiles].
  unfold mergeRoleMappings in Hm. intros Hg.
  replace roles with (merge_roles (doc_roleToProfile delivered)
    (spread (doc_profiles delivered) (po_profiles (parseOverride schemas fields)))
    (po_roleToProfile (parseOverride schemas fields))).1 in Hg by (by rewrite Hm).
  apply merge_roles_sound in Hg as [?|[? _]]; [by left|by right].
Qed.

Lemma parse_role_entries_issue entries : ∀ mappings,
  (∃ role raw e, (role, raw) ∈ entries ∧ roleMappingSchema schemas raw = inr e) →
  existsb (is_field_issue (js "roleToProfile")) (parse_role_entries schemas mappings entries).2 = true.
Proof.
  induction entries as [|[r0 raw0] entries IH]; intros mappings (role & raw & e & Hin & He); simpl.
  { by apply elem_of_nil in Hin. }
  destruct (roleMappingSchema schemas raw0) as [name|e0] eqn:H0.
  - apply IH. apply elem_of_cons in Hin as [[= -> ->]|Hin]; [congruence|]. by exists role, raw, e.
  - destruct (parse_role_entries schemas mappings entries) as [result issues].
    cbn [snd existsb is_field_issue]. by rewrite str_eqb_refl.
Qed.

(** One invalid role mapping makes the reduced override lose every role mapping,
    also the valid ones [resolveCommandPolicy] applies: the issue it leaves bears the name
    of the whole field. *)
Theorem invalid_role_drops_all_roles delivered fields entries role raw error :
  isSupportedVersion fields = true →
  get fields (js "roleToProfile") = Some (JObj entries) →
  (role, raw) ∈ entries → roleMappingSchema schemas raw = inr error →
  ov_roleToProfile (validPartsOfOverride schemas delivered fields) = None.
Proof.
  intros Hv Hroles Hin He. unfold validPartsOfOverride. rewrite Hv. cbn [negb ov_roleToProfile].
  replace (existsb (is_field_issue (js "roleToProfile")) (po_issues (parseOverride schemas fields))) with true;
    [by rewrite andb_false_r|]. symmetry.
  pose proof (parse_role_entries_issue entries [] (ex_intro _ role (ex_intro _ raw (ex_intro _ error (conj Hin He))))) as Hex.
  unfold parseOverride. rewrite Hroles. cbn [parseRoleMappings isPlainObject].
  destruct (parseField (get fields (js "mode")) _ _), (parseField (get fields (js "declaredCommands")) _ _),
    (parseField (get fields (js "disabledRules")) _ _), (parseRules _ _), (parseProfiles _ _),
    (parse_role_entries schemas [] entries). cbn [po_issues snd] in *.
  rewrite !existsb_app, Hex. by rewrite !orb_true_r.
Qed.
End Resolution.

(** ** Concrete schemas *)
Definition sample_schemas : Schemas :=
  mkSchemas (λ _, inr []) (λ _, inr []) (λ raw, match raw with JArr [JStr s] => inl [s] | _ => inr [] end)
    (λ _, inr []) (λ _, inr []) (λ raw, match raw with JStr (c :: s) => inl (c :: s) | _ => inr [] end) (λ _, inr []).
Definition sample_override : list (str * json) :=
  [(js "version", JNum 1); (js "roleToProfile", JObj [(js "helper", JStr (js "base")); (js "other", JStr [])])].

Lemma resolveCommandPolicy_roles_witness :
  has_own (doc_profiles (resolveCommandPolicy sample_schemas (λ _, []) sample_policy (Some (JObj sample_override))).1) (js "base") = true.
Proof.
  destruct (resolveCommandPolicy_roles sample_schemas (λ _, []) sample_policy (Some (JObj sample_override)) (js "helper") (js "base"))
    as [Hd|Hr]; [vm_compute; reflexivity|vm_compute in Hd; discriminate|exact Hr].
Defined.

(** The mapping of [helper] applies, and the reduced override has lost it. *)
Lemma invalid_role_drops_all_roles_witness :
  get (doc_roleToProfile (resolveCommandPolicy sample_schemas (λ _, []) sample_policy (Some (JObj sample_override))).1) (js "helper")
  = Some (js "base") ∧
  ov_roleToProfile (validPartsOfOverride sample_schemas sample_policy sample_override) = None.
Proof.
  split; [vm_compute; reflexivity|].
  apply (invalid_role_drops_all_roles sample_schemas sample_policy sample_override
           [(js "helper", JStr (js "base")); (js "other", JStr [])] (js "other") (JStr []) []);
    [reflexivity|reflexivity|right; left|reflexivity].
Defined.
