(* ===== verification/DefaultPolicy.v ===== *)
(** * The delivered command policy: [policy/defaultCommandPolicy.ts]

    The document OpenFleet ships, and what holds of every call judged by it. *)
From S2P Require Import Prelude JsText Regex ShellScanner CommandAnalyzer ReadOnlyAccess ShellFileWrites PolicyTypes CommandPredicates PolicyEvaluator PolicyEvaluatorFacts PolicyDocument.

Definition GIT_DIR_GLOBS : list str := [js "**/.git"; js "**/.git/**"].
Definition BROAD_FIND_ROOTS : list str := [js "/"; js "/*"; js "/Users/*"; js "/home/*"; js "~"; js "~/**"; js "$HOME"; js "$HOME/**"; js ".."; js "../**"].
Definition EXPENSIVE_MODELS : list str := [js "fable"; js "opus"].
Definition HEAVY_SCRIPT_NAMES : str := js "test|build|lint|typecheck|type:check|type-check|e2e".
Definition WORKING_DIRECTORIES : list str := [js "{worktree}"; js "{scratch}"; js "{toolResults}"].
Definition FILE_WRITING_TOOLS : list str := [js "Write"; js "Edit"; js "NotebookEdit"].
Definition SCRATCH_DIRECTORIES : list str := [js "{scratch}"; js "{worktree}/.scratch"; js "{toolResults}"].

(** Predicates with the given keys only. *)
Definition always : RulePredicate := mkPredicate None None None None None None None None None None None None None None [].
Definition on_program (name : str) (sub : option OneOrMany) (flags : option FlagGroups) : RulePredicate :=
  mkPredicate (Some (One name)) sub flags None None None None None None None None None None None [].
Definition on_prefix (sequences : list (list str)) : RulePredicate :=
  mkPredicate None None None (Some sequences) None None None None None None None None None None [].
Definition on_args (globs : list str) : RulePredicate :=
  mkPredicate None None None None None None (Some globs) None None None None None None None [].
Definition on_written_paths (globs : list str) : RulePredicate :=
  mkPredicate None None None None None (Some globs) None None None None None None None None [].
Definition on_repo_wide_search : RulePredicate :=
  mkPredicate None None None None (Some true) None None None None None None None None None [].
Definition on_plain_reads (roots : list str) : RulePredicate :=
  mkPredicate None None None None None None None (Some roots) None None None None None None [].
Definition on_fleet_recipient : RulePredicate :=
  mkPredicate None None None None None None None None (Some true) None None None None None [].
Definition on_writes_outside (roots : list str) : RulePredicate :=
  mkPredicate None None None None None None None None None (Some roots) None None None None [].
Definition on_declared (forms : list str) : RulePredicate :=
  mkPredicate None None None None None None None None None None (Some forms) None None None [].
Definition any_of (l : list RulePredicate) : RulePredicate :=
  mkPredicate None None None None None None None None None None None (Some l) None None [].
Definition all_of (l : list RulePredicate) : RulePredicate :=
  mkPredicate None None None None None None None None None None None None (Some l) None [].

Definition noForcedRecursiveRm : PolicyRule :=
  mkRule (js "no-forced-recursive-rm") (Some [js "Bash"]) (None) (None) (Some PresenceUnattended) (None) (None) Deny
    (on_program (js "rm") None (Some (mkFlagGroups (Some [[js "r"; js "R"; js "recursive"]; [js "f"; js "force"]]) None None)))
    (js "rm -rf asks for a confirmation nobody sees.")
    (Some (js "Use `rm -r <path>` on a path inside your worktree or scratchpad, or `find <dir> -delete`.")) (None).
Definition noForcedGitClean : PolicyRule :=
  mkRule (js "no-forced-git-clean") (Some [js "Bash"]) (None) (None) (Some PresenceUnattended) (None) (None) Deny
    (on_program (js "git") (Some (One (js "clean"))) (Some (mkFlagGroups (Some [[js "f"; js "force"]]) None (Some [[js "n"; js "dry-run"]]))))
    (js "git clean -f deletes files without a visible confirmation.")
    (Some (js "Remove the files you want with `rm <path>` inside your worktree, or tell your manager (message_parent).")) (None).
Definition noWriteIntoGitDir : PolicyRule :=
  mkRule (js "no-write-into-git-dir") (Some (js "Bash" :: FILE_WRITING_TOOLS)) (None) (None) (Some PresenceUnattended) (None) (None) Deny
    (on_written_paths GIT_DIR_GLOBS)
    (js "Never write inside a .git directory (worktree or main repository).")
    (Some (js "To ignore a file use the worktree .gitignore, or tell your manager (message_parent).")) (None).
Definition noFindDeleteOnBroadPaths : PolicyRule :=
  mkRule (js "no-find-delete-on-broad-paths") (Some [js "Bash"]) (None) (None) (Some PresenceUnattended) (None) (None) Deny
    (all_of [on_program (js "find") None None; on_args [js "-delete"]; on_args BROAD_FIND_ROOTS])
    (js "find -delete on the filesystem root, a home directory or a parent of your worktree deletes outside your work.")
    (Some (js "Run `find <dir> -delete` on a directory inside your worktree or scratchpad.")) (None).
Definition noHumanQuestionsUnattended : PolicyRule :=
  mkRule (js "no-human-questions-unattended") (Some [js "AskUserQuestion"; js "ExitPlanMode"]) (None) (None) (Some PresenceUnattended) (None) (None) Deny
    (always)
    (js "No human is watching this session, so a question to the user is never answered.")
    (Some (js "Report to your manager with `message_parent` and continue with the safest reading of the task.")) (None).
Definition ASK_USER_QUESTION_TOOL : str := js "AskUserQuestion".
Definition MANAGER_ASK_USER_RULE_ID : str := js "manager-ask-user-via-ladder".
Definition managerAskUserViaLadder : PolicyRule :=
  mkRule MANAGER_ASK_USER_RULE_ID (Some [ASK_USER_QUESTION_TOOL]) (None) (None) (Some PresenceUnattended) (None) (None) Deny
    (always)
    (js "A manager with a superior does not ask the human in free text: the ladder routes its questions by class.")
    (Some (js "Submit your plan questions with `submit_plan_questions`; the daemon sends a human only the ones that need one.")) (None).
Definition delegateHeavyCommands : PolicyRule :=
  mkRule (js "delegate-heavy-commands") (Some [js "Bash"]) (Some [js "claude-cli"]) (Some ActorSession) (None) (Some EXPENSIVE_MODELS) (None) Deny
    (any_of [on_prefix
      [[js "pnpm"; js "test|vitest|build|lint|typecheck|type:check|type-check|e2e"];
       [js "pnpm"; js "run"; HEAVY_SCRIPT_NAMES];
       [js "npm"; js "test"];
       [js "npm"; js "run"; js "test|build|lint"];
       [js "npx"; js "vitest|playwright|tsc"];
       [js "vitest"];
       [js "tsc"];
       [js "playwright"; js "test"];
       [js "cargo"; js "test|build|clippy"];
       [js "turbo"; js "run"]];
     on_repo_wide_search])
    (js "Heavy mechanical command in the main session.")
    (Some (js "Run it in a Haiku sub-agent (Agent tool, model haiku) and read its condensed result.")) (Some (js "# fix60-ok")).
Definition allowReadOnlyPipelines : PolicyRule :=
  mkRule (js "allow-read-only-pipelines") (Some [js "Bash"]) (None) (None) (None) (None) (Some EveryCommand) Allow
    (on_plain_reads WORKING_DIRECTORIES)
    (js "A pipeline that only reads files inside the working directories needs no confirmation.")
    (None) (None).
(** Inert until the declared commands of the policy file fill the list. *)
Definition allowDeclaredCommands : PolicyRule :=
  mkRule ALLOW_DECLARED_COMMANDS_RULE_ID (Some [js "Bash"]) (None) (None) (Some PresenceUnattended) (None) (Some EveryCommand) Allow
    (on_declared [])
    (js "A declared test, lint or typecheck command, run inside the worktree, needs no confirmation.")
    (None) (None).
Definition FINDINGS_GATE_RULE_ID : str := js "findings-gate-pr-create".
Definition API_CALLS_THAT_MAY_POST : RulePredicate :=
  mkPredicate None None (Some (mkFlagGroups None (Some [[js "f"]; [js "F"]; [js "X"]; [js "field"]; [js "raw-field"]; [js "method"]; [js "input"]]) None)) None None None None None None None None None None None [].
Definition findingsGatePrCreate : PolicyRule :=
  mkRule FINDINGS_GATE_RULE_ID (Some [js "Bash"]) (None) (None) (None) (None) (None) Deny
    (any_of [on_prefix [[js "gh"; js "pr"; js "create"]; [js "glab"; js "mr"; js "create|new"]];
      all_of [on_prefix [[js "gh"; js "api"]]; on_args [js "**/pulls*"; js "**/pulls/?*"]; API_CALLS_THAT_MAY_POST]])
    (js "findings_required: the ticket of this branch lacks the findings that open a pull request.")
    (Some (js "Have QE, QA and the delivery review report on the head commit, or ask your manager for a logged step skip.")) (None).
Definition SEND_MESSAGE_GUARD_RULE_ID : str := js "no-generic-send-message-to-fleet-session".
Definition noGenericSendMessageToFleetSession : PolicyRule :=
  mkRule SEND_MESSAGE_GUARD_RULE_ID (Some [js "SendMessage"]) (None) (None) (None) (None) (None) Deny
    (on_fleet_recipient)
    (js "SendMessage only reaches your own sub-agents, never a session or a manager of the fleet.")
    (Some (js "To a manager use `message_argus`; to any other session use `send_session_message`. SendMessage stays valid for your sub-agents.")) (None).
Definition NO_SHELL_FILE_WRITES_RULE_ID : str := js "no-shell-file-writes".
Definition noShellFileWrites : PolicyRule :=
  mkRule NO_SHELL_FILE_WRITES_RULE_ID (Some [js "Bash"]) (None) (None) (Some PresenceUnattended) (None) (None) Deny
    (on_writes_outside SCRATCH_DIRECTORIES)
    (js "A file written through the shell (redirect, heredoc, tee, sed -i, an interpreter) asks for a confirmation nobody sees.")
    (Some (js "Create or change the file with the Write tool (a whole file) or the Edit tool (a replacement); NotebookEdit for a notebook. Command output may go to .scratch/.")) (None).
Definition noGitPublish : PolicyRule :=
  mkRule (js "no-git-publish") (Some [js "Bash"]) (None) (None) (None) (None) (None) Deny
    (on_program (js "git") (Some (Many [js "commit"; js "push"])) None)
    (js "This role verifies the work and does not publish it.")
    (Some (js "Report what you found to your manager with `message_parent`.")) (None).
Definition noGitMutations : PolicyRule :=
  mkRule (js "no-git-mutations") (Some [js "Bash"]) (None) (None) (None) (None) (None) Deny
    (any_of [on_program (js "git") (Some (Many [js "commit"; js "push"; js "reset"; js "checkout"; js "clean"; js "rebase"; js "merge"])) None; on_program (js "rm") None None])
    (js "A review leaves the repository exactly as it found it.")
    (Some (js "Describe the change you propose in your report instead of making it.")) (None).
Definition noFileWrites : PolicyRule :=
  mkRule (js "no-file-writes") (Some FILE_WRITING_TOOLS) (None) (None) (None) (None) (None) Deny
    (always)
    (js "A review does not modify files.")
    (Some (js "Describe the change you propose in your report instead of making it.")) (None).

Definition defaultProfileRuleIds : list str :=
  rule_id <$> [noForcedRecursiveRm; noForcedGitClean; noWriteIntoGitDir; noFindDeleteOnBroadPaths; noHumanQuestionsUnattended; noShellFileWrites;
               findingsGatePrCreate; noGenericSendMessageToFleetSession; allowReadOnlyPipelines].
(** [flatMap]: the ladder rule goes ahead of the generic refusal of questions. *)
Definition managerProfileRuleIds : list str :=
  concat ((λ ruleId, if str_eqb ruleId (rule_id noHumanQuestionsUnattended) then [rule_id managerAskUserViaLadder; ruleId] else [ruleId]) <$> defaultProfileRuleIds).

Definition DEFAULT_COMMAND_POLICY : CommandPolicyDocument :=
  mkDocument 1 ModeEnforce
    [(js "default", mkProfile None defaultProfileRuleIds None);
     (js "dev", mkProfile (Some (js "default")) [rule_id allowDeclaredCommands; rule_id delegateHeavyCommands] None);
     (js "qe", mkProfile (Some (js "default")) [rule_id allowDeclaredCommands] (Some ProfileObserve));
     (js "qa", mkProfile (Some (js "default")) [rule_id noGitPublish] (Some ProfileObserve));
     (js "review", mkProfile (Some (js "default")) [rule_id noFileWrites; rule_id noGitMutations] (Some ProfileObserve));
     (js "manager", mkProfile None managerProfileRuleIds None)]
    [(js "DEV", js "dev"); (js "QE", js "qe"); (js "QA", js "qa"); (js "ADV", js "review"); (js "REVIEW", js "review"); (js "manager", js "manager")]
    [noForcedRecursiveRm; noForcedGitClean; noWriteIntoGitDir; noFindDeleteOnBroadPaths; managerAskUserViaLadder; noHumanQuestionsUnattended;
     noShellFileWrites; findingsGatePrCreate; noGenericSendMessageToFleetSession; delegateHeavyCommands; allowReadOnlyPipelines; allowDeclaredCommands;
     noGitPublish; noGitMutations; noFileWrites].
(** [defaultCommandPolicySettings().document] of [policy/commandPolicySettings.ts]: the delivered document, watching only. *)
Definition defaultSettingsDocument : CommandPolicyDocument := with_mode ModeObserve DEFAULT_COMMAND_POLICY.

(** ** The document is well formed

    What [PolicyRuleSchema] asks of a rule beyond the shape of its fields. *)
Definition MAX_RULE_TEXT_CHARS : nat := 280.
Definition MAX_RULE_ID_CHARS : nat := 80.
Definition RULE_ID_PATTERN (s : str) : bool :=
  match s with
  | [] => false
  | c :: s' => (is_lower c || is_digit c) && forallb (λ d, is_lower d || is_digit d || N.eqb d (chr "-")) s'
  end.
Definition RuleText (s : str) : bool := let t := trim s in bool_decide (1 ≤ length t) && bool_decide (length t ≤ MAX_RULE_TEXT_CHARS).
Definition PolicyRuleChecks (rule : PolicyRule) : bool :=
  bool_decide (length (rule_id rule) ≤ MAX_RULE_ID_CHARS) && RULE_ID_PATTERN (rule_id rule) && RuleText (rule_reason rule)
  && absent_or (rule_alternative rule) RuleText
  && (negb (bool_decide (rule_decision rule = Deny)) || bool_decide (is_Some (rule_alternative rule))).
(** No rule is listed twice, every rule a profile lists is delivered, every profile a profile extends or a role maps to exists. *)
Definition references_resolve (d : CommandPolicyDocument) : bool :=
  bool_decide (NoDup (rule_id <$> doc_rules d))
  && forallb (λ p : str * PolicyProfile,
       forallb (λ i, mem_str i (rule_id <$> doc_rules d)) (profile_rules p.2) && absent_or (profile_extends p.2) (has_own (doc_profiles d)))
     (doc_profiles d)
  && forallb (λ r : str * str, has_own (doc_profiles d) r.2) (doc_roleToProfile d).
(** The delivered policy passes the checks a saved rule must pass (an id of dashed lowercase words, a
    reason and an alternative of at most 280 characters, an alternative for every denial), and every rule,
    profile and role it refers to exists. *)
Theorem delivered_policy_is_well_formed :
  doc_version DEFAULT_COMMAND_POLICY = POLICY_DOCUMENT_VERSION ∧ forallb PolicyRuleChecks (doc_rules DEFAULT_COMMAND_POLICY) = true ∧
  references_resolve DEFAULT_COMMAND_POLICY = true.
Proof. split_and!; vm_compute; reflexivity. Qed.

(** ** Every role keeps the core rules *)
Definition core_rules : list PolicyRule :=
  [noForcedRecursiveRm; noForcedGitClean; noWriteIntoGitDir; noFindDeleteOnBroadPaths; noHumanQuestionsUnattended; noShellFileWrites;
   findingsGatePrCreate; noGenericSendMessageToFleetSession].
Section Delivered.
Variable toLowerCase : str → str.
Variable realpathNative : str → option str.
Variable processCwd : str.
Variable request : PolicyRequest.
Variable mode : PolicyMode.
Abbreviation D := (with_mode mode DEFAULT_COMMAND_POLICY).
Abbreviation plan := (planFor toLowerCase request D).

Lemma plan_of_a_profile : ∃ p, p ∈ doc_profiles DEFAULT_COMMAND_POLICY ∧ plan_ruleIds plan = unique (ruleIdsOfProfile (doc_profiles DEFAULT_COMMAND_POLICY) p.1).
Proof.
  assert (∃ n, plan_ruleIds plan = unique (ruleIdsOfProfile (doc_profiles DEFAULT_COMMAND_POLICY) n) ∧ has_own (doc_profiles DEFAULT_COMMAND_POLICY) n = true) as (n & Hn & Hhas).
  { unfold planFor. cbn [plan_ruleIds]. destruct (hasProfile (doc_profiles D) (profileNameFor toLowerCase (req_role request) D)) eqn:E.
    - by eexists.
    - exists DEFAULT_PROFILE. split; [done|]. vm_compute. reflexivity. }
  unfold has_own in Hhas. apply existsb_exists in Hhas as (p & Hp & Heq). apply str_eqb_eq in Heq as <-.
  exists p. split; [by apply list_elem_of_In|done].
Qed.
Lemma core_rule_listed rule : rule ∈ core_rules → rule_id rule ∈ plan_ruleIds plan.
Proof.
  intros Hr. destruct plan_of_a_profile as (p & Hp & ->).
  assert (forallb (λ p : str * PolicyProfile, forallb (λ r, mem_str (rule_id r) (unique (ruleIdsOfProfile (doc_profiles DEFAULT_COMMAND_POLICY) p.1))) core_rules)
            (doc_profiles DEFAULT_COMMAND_POLICY) = true) as Hall by (vm_compute; reflexivity).
  rewrite forallb_forall in Hall. specialize (Hall p (proj1 (list_elem_of_In _ _) Hp)). cbv beta in Hall.
  rewrite forallb_forall in Hall. specialize (Hall rule (proj1 (list_elem_of_In _ _) Hr)). cbv beta in Hall.
  by apply list_elem_of_In, mem_str_In.
Qed.
Lemma core_rule_found rule : rule ∈ core_rules → get (rulesById (doc_rules DEFAULT_COMMAND_POLICY)) (rule_id rule) = Some rule.
Proof. intros H. unfold core_rules in H. each_in H ltac:(vm_compute; reflexivity). Qed.
Lemma core_rule_applies rule :
  rule ∈ core_rules → isInScope toLowerCase rule request = true → rule ∈ applicableRulesOf toLowerCase plan D request.
Proof.
  intros Hr Hscope. unfold applicableRulesOf. rewrite list_elem_of_omap. exists (rule_id rule). split; [by apply core_rule_listed|].
  change (doc_rules D) with (doc_rules DEFAULT_COMMAND_POLICY). rewrite core_rule_found by done. rewrite Hscope.
  assert (isEscapedByMarker rule request = false) as ->; [|done].
  unfold isEscapedByMarker. replace (rule_escapeMarker rule) with (@None str); [done|]. unfold core_rules in Hr.
  each_in Hr done.
Qed.
End Delivered.

Section DeliveredVerdicts.
Variable toLowerCase : str → str.
Variable realpathNative : str → option str.
Variable processCwd : str.
Abbreviation evaluate := (evaluateCommandPolicy toLowerCase realpathNative processCwd).

(** When a rule that refuses applies and matches, the verdict is the refusal of such a rule. *)
Lemma refusal_of_a_match request policy rule :
  judged request policy → rule ∈ applicableRulesOf toLowerCase (planFor toLowerCase request policy) policy request →
  matchesRequest realpathNative processCwd request rule = true → rule_decision rule ≠ Allow →
  ∃ r, r ∈ doc_rules policy ∧ rule_decision r ≠ Allow ∧ matchesRequest realpathNative processCwd request r = true ∧
       evaluate request policy = refusalOf r (plan_isObserving (planFor toLowerCase request policy)).
Proof.
  intros Hj Hin Hm Hd. rewrite (evaluate_judged _ _ _ _ _ Hj).
  pose proof (rules_loop_decided (matchesRequest realpathNative processCwd request) (plan_isObserving (planFor toLowerCase request policy))
                (applicableRulesOf toLowerCase (planFor toLowerCase request policy) policy request)) as [pre r post Hsplit _ Hr Hdr|pre r post Hsplit _ Hr Hall|Hnone].
  - exists r. split_and!; try done. eapply (applicable_sound toLowerCase). rewrite Hsplit. in_list.
  - destruct Hd. by apply Hall.
  - rewrite Hnone in Hm; done.
Qed.
(** A vouched call is one no applicable refusal matches. *)
Lemma vouched_refuses_nothing request policy id rule :
  evaluate request policy = VAllow (Some id) None false → rule ∈ applicableRulesOf toLowerCase (planFor toLowerCase request policy) policy request →
  rule_decision rule ≠ Allow → matchesRequest realpathNative processCwd request rule = false.
Proof.
  intros Hv Hin Hd. destruct (matchesRequest realpathNative processCwd request rule) eqn:Hm; [|done].
  assert (judged request policy) as Hj by (apply (judged_by_verdict toLowerCase realpathNative processCwd); by rewrite Hv).
  destruct (refusal_of_a_match request policy rule Hj Hin Hm Hd) as (r & _ & Hr & _ & E). rewrite Hv in E.
  unfold refusalOf in E. repeat case_match; done.
Qed.

(** C3. Whatever the role, no call escapes the core rules of the delivered policy: when the policy is on and one
    of them is in scope of a judged call and matches it, the verdict is the refusal of a delivered rule that
    matches (a denial, since the delivered rules that refuse all deny), or its observation in observe mode. *)
Theorem delivered_core_rules_bite (request : PolicyRequest) (mode : PolicyMode) (rule : PolicyRule)
    (Hj : judged request (with_mode mode DEFAULT_COMMAND_POLICY)) (Hrule : rule ∈ core_rules)
    (Hscope : isInScope toLowerCase rule request = true) (Hm : matchesRequest realpathNative processCwd request rule = true) :
  ∃ r, r ∈ doc_rules DEFAULT_COMMAND_POLICY ∧ rule_decision r = Deny ∧ matchesRequest realpathNative processCwd request r = true ∧
    evaluate request (with_mode mode DEFAULT_COMMAND_POLICY) =
    if plan_isObserving (planFor toLowerCase request (with_mode mode DEFAULT_COMMAND_POLICY))
    then VAllow None (Some (mkObserved (rule_id r) (rule_reason r) (rule_alternative r))) false
    else VDeny (rule_id r) (rule_reason r) (default [] (rule_alternative r)).
Proof.
  assert (rule_decision rule ≠ Allow) as Hd.
  { unfold core_rules in Hrule. each_in Hrule done. }
  destruct (refusal_of_a_match request _ rule Hj (core_rule_applies toLowerCase request mode rule Hrule Hscope) Hm Hd) as (r & Hin & Hr & Hmr & ->).
  change (doc_rules (with_mode mode DEFAULT_COMMAND_POLICY)) with (doc_rules DEFAULT_COMMAND_POLICY) in Hin.
  assert (rule_decision r = Deny) as Hdeny.
  { cbn [doc_rules DEFAULT_COMMAND_POLICY] in Hin. each_in Hin done. }
  exists r. split_and!; try done. unfold refusalOf. by rewrite Hdeny.
Qed.

(** ** What a vouched command may write
    The facts of a command line, read off its words. *)

(** A word that is not an option: [-] alone is an operand. *)
Definition operand (w : str) : bool := match w with d :: _ :: _ => negb (N.eqb d (chr "-")) | _ => true end.
(** A file the command opens for writing: by a redirection, as a file of [tee], as the output of [dd]. *)
Inductive opens_path (c : SimpleCommand) (path : str) : Prop :=
  | by_redirection r : r ∈ redirects c → opens_for_writing r → target r = path → path ≠ [] → opens_path c path
  | by_tee : program c = js "tee" → path ∈ args c → operand path = true → opens_path c path
  | by_dd : program c = js "dd" → js "of=" ++ path ∈ args c → opens_path c path.
(** A file [sed -i] rewrites: an operand after the scripts. *)
Definition rewrites_in_place (c : SimpleCommand) (path : str) : Prop :=
  program c = js "sed" ∧
  (∃ w, w ∈ args c ∧ ((∃ rest, w = js "--in-place" ++ rest) ∨ (∃ d rest, w = chr "-" :: d :: rest ∧ d ≠ chr "-" ∧ chr "i" ∈ d :: rest))) ∧
  ∃ before after, args c = before ++ path :: after ∧ operand path = true ∧
    1 ≤ length (filter (λ w, operand w = true) before) ∧
    length (filter (λ w, w ∈ [js "-e"; js "-f"; js "--expression"; js "--file"]) (args c)) ≤ length (filter (λ w, operand w = true) before).
(** The file [cp] and [mv] write: their last operand. *)
Definition copies_onto (c : SimpleCommand) (path : str) : Prop :=
  program c ∈ [js "cp"; js "mv"] ∧
  ∃ before after, args c = before ++ path :: after ∧ operand path = true ∧ Forall (λ w, operand w = false) after.
(** The words before [--] hold one of the letters in a cluster of short options, or one of the long options. *)
Definition asks_for (letters : list N) (names : list str) (c : SimpleCommand) : Prop :=
  ∃ before after w, args c = before ++ w :: after ∧ Forall (λ x, x ≠ js "--") (before ++ [w]) ∧
    ((∃ d rest letter, w = chr "-" :: d :: rest ∧ d ≠ chr "-" ∧ letter ∈ letters ∧ letter ∈ d :: rest) ∨
     (∃ name, name ∈ names ∧ w = js "--" ++ name)).
(** A path a write may name: a standard device, a descriptor, or a path whose text the shell leaves alone and whose
    names, followed one at a time from the working directory, end under one of the roots. *)
Definition confined_to (scope : ReadScope) (path : str) : Prop :=
  path ∈ [js "/dev/null"; js "/dev/stdout"; js "/dev/stderr"; js "/dev/tty"; js "-"] ∨ (∃ rest, path = js "/dev/fd/" ++ rest) ∨
  (chr "$" ∉ path ∧ chr "`" ∉ path ∧ ∃ place root, walk (start_of path scope) (split_on (chr "/") path) place ∧
     root ∈ roots scope ∧ normalizedSegments root ≠ [] ∧ normalizedSegments root `prefix_of` place).

Lemma operand_isOption w : operand w = negb (isOption w).
Proof.
  unfold isOption. change (js "-") with [chr "-"]. destruct w as [|d [|e w]]; cbn [startsWith operand]; [done| |].
  - rewrite bool_decide_false by (cbn; lia). by rewrite andb_false_r.
  - rewrite bool_decide_true by (cbn; lia). by rewrite !andb_true_r.
Qed.
Lemma operands_eq (l : list str) : filter (λ w, isOption w = false) l = filter (λ w, operand w = true) l.
Proof. apply list_filter_iff. intros w. rewrite operand_isOption. by destruct (isOption w). Qed.
Lemma harmless_confined path scope : isHarmlessTarget path scope = true → confined_to scope path.
Proof.
  unfold isHarmlessTarget, confined_to. rewrite !orb_true_iff. intros [[H%mem_str_In%list_elem_of_In|H]|H].
  - left. unfold HARMLESS_DEVICES in H. set_solver.
  - right; left. by apply startsWith_iff.
  - destruct (decide (path = js "-")) as [->|Hd]; [left; set_solver|]. right; right.
    pose proof (isReadableUnderRoots_walk _ _ H Hd) as Hw. unfold isReadableUnderRoots in H. apply str_eqb_neq in Hd. rewrite Hd in H.
    destruct (existsb (one_of (js "$`")) path) eqn:Hx; [done|]. split_and!; [| |exact Hw].
    1,2: intros Hc; apply not_true_iff_false in Hx; apply Hx, existsb_exists; eexists; split; [by apply list_elem_of_In|vm_compute; reflexivity].
Qed.
(** A file named in the words of a command that is not reported as writing outside is confined. *)
Lemma unreported_opens c scope path : writesFileOutside c scope = false → opens_path c path → confined_to scope path.
Proof.
  intros Hw Ho. apply harmless_confined, not_false_iff_true. intros Hh. apply not_true_iff_false in Hw. apply Hw, writesFileOutside_redirects.
  destruct Ho as [r Hr Hop Ht Hne|Hp Hin Hop|Hp Hin].
  - left. exists r. rewrite Ht. by split_and!.
  - right. unfold programWritesFileOutside. rewrite Hp, str_eqb_refl, orb_true_iff. right. apply existsb_exists. exists path. rewrite Hh. split; [|done].
    apply list_elem_of_In. unfold operandsOf. rewrite operands_eq. by apply list_elem_of_filter.
  - right. unfold programWritesFileOutside, ddWritesFileOutside. rewrite Hp. change (str_eqb (js "dd") (js "tee")) with false. change (str_eqb (js "dd") (js "sed")) with false.
    rewrite str_eqb_refl. apply existsb_exists. exists path. rewrite Hh. split; [|done]. apply list_elem_of_In, list_elem_of_fmap. exists (js "of=" ++ path).
    split; [done|]. apply list_elem_of_filter. split; [apply startsWith_iff; by eexists|done].
Qed.
Lemma unreported_rewrites c scope path : writesFileOutside c scope = false → rewrites_in_place c path → confined_to scope path.
Proof.
  intros Hw (Hp & (w & Hin & Hopt) & before & after & Hargs & Hop & H1 & H2). apply harmless_confined, not_false_iff_true. intros Hh. apply not_true_iff_false in Hw.
  apply Hw, writesFileOutside_redirects. right. unfold programWritesFileOutside. rewrite Hp. change (str_eqb (js "sed") (js "tee")) with false. rewrite str_eqb_refl.
  unfold sedRewritesFileOutside. match goal with |- (if negb ?b then _ else _) = true => assert (b = true) as -> end.
  { apply existsb_exists. exists w. split; [by apply list_elem_of_In|]. destruct Hopt as [[rest ->]|(d & rest & -> & Hd & Hi)].
    - rewrite orb_true_iff. left. apply startsWith_iff. by eexists.
    - rewrite orb_true_iff. right. rewrite !andb_true_iff, negb_true_iff. split_and!.
      + apply negb_false_iff. rewrite <- operand_isOption. done.
      + apply not_true_iff_false. rewrite startsWith_iff. intros [r [= E]]. done.
      + apply includes_chr. by right. }
  cbn [negb]. assert (path ∈ drop (Nat.max 1 (length (filter (λ arg, mem_str arg SED_SCRIPT_OPTIONS = true) (args c)))) (operandsOf (args c))) as Hd.
  { unfold operandsOf. rewrite operands_eq. rewrite Hargs at 2. rewrite list.filter_app, filter_cons_True by done. rewrite drop_app_le.
    - in_list.
    - apply Nat.max_lub; [done|]. etrans; [|exact H2]. apply Nat.eq_le_incl. f_equal. apply list_filter_iff. intros x. by rewrite mem_str_In, <- list_elem_of_In. }
  match goal with |- (if ?b then _ else _) = true => destruct b; [done|] end.
  apply existsb_exists. exists path. rewrite Hh. split; [by apply list_elem_of_In|done].
Qed.
(** The paths of the rule on git directories are those the words name. *)
Lemma opened_is_written c path : opens_path c path → path ∈ writtenPathsOf c.
Proof.
  unfold writtenPathsOf. rewrite elem_of_app. intros [r Hr Hop <- Hne|Hp Hin Hop|Hp Hin].
  - left. apply list_elem_of_fmap. exists r. split; [done|]. apply list_elem_of_filter. split; [|done]. rewrite orb_true_iff, andb_true_iff, negb_true_iff.
    destruct Hop as [H|[H1 H2]]; [left; by apply bool_decide_true|right]. by rewrite bool_decide_true.
  - right. rewrite Hp, str_eqb_refl. unfold nonOptionArgs. change isOptionToken with isOption. rewrite operands_eq. by apply list_elem_of_filter.
  - right. rewrite Hp. change (str_eqb (js "dd") (js "tee")) with false. change (mem_str (js "dd") FILE_COPYING_PROGRAMS) with false. rewrite str_eqb_refl.
    apply list_elem_of_fmap. exists (js "of=" ++ path). split; [done|]. apply list_elem_of_filter. split; [apply startsWith_iff; by eexists|done].
Qed.
Lemma copied_is_written c path : copies_onto c path → path ∈ writtenPathsOf c.
Proof.
  intros (Hp & before & after & Hargs & Hop & Hafter). unfold writtenPathsOf. rewrite elem_of_app. right.
  assert (path ∈ drop (length (nonOptionArgs (args c)) - 1) (nonOptionArgs (args c))) as Hin.
  { unfold nonOptionArgs. change isOptionToken with isOption. rewrite operands_eq, Hargs, list.filter_app, filter_cons_True by done.
    replace (filter (λ w, operand w = true) after) with (@nil str).
    - rewrite length_app. cbn [length]. replace (_ + 1 - 1) with (length (filter (λ w, operand w = true) before)) by lia. rewrite drop_app_length. in_list.
    - symmetry. clear Hargs. induction Hafter as [|w after Hw _ IH]; [done|]. rewrite filter_cons_False by (by rewrite Hw). exact IH. }
  rewrite !elem_of_cons in Hp. destruct Hp as [Hp|[Hp|Hp]]; [..|by apply elem_of_nil in Hp]; rewrite Hp; exact Hin.
Qed.
Lemma git_segment_matches path : js ".git" ∈ split_on (chr "/") path → existsb (λ glob, PathGlob.globMatches glob path) GIT_DIR_GLOBS = true.
Proof.
  intros Hin. apply existsb_exists. exists (js "**/.git/**"). split; [right; by left|]. apply PathGlob.globMatches_decides.
  change (PathGlob.segmentsOf (js "**/.git/**")) with [js "**"; js ".git"; js "**"].
  assert (js ".git" ∈ PathGlob.segmentsOf path) as (l1 & l2 & ->)%list_elem_of_split.
  { unfold PathGlob.segmentsOf. assert (js ".git" ∈ filter (λ segment, segment ≠ [] ∧ segment ≠ js ".") (split_on (chr "/") path)) as H by (apply list_elem_of_filter; split; [split; discriminate|done]).
    case_match; [by right|done]. }
  apply PathGlob.pg_any. apply PathGlob.pg_segment; [discriminate|by apply PathGlob.segmentMatches_decides|]. rewrite <- (app_nil_r l2). apply PathGlob.pg_any, PathGlob.pg_nil.
Qed.
(** A letter of a cluster is one of its code points. *)
Lemma code_points_letter s c : in_range 55296 57343 c = false → c ∈ s → [c] ∈ code_points s.
Proof.
  intros Hc. assert (∀ n s, length s ≤ n → c ∈ s → [c] ∈ code_points s) as H; [|by apply (H (length s))].
  induction n as [|n IH]; intros [|hi rest] Hn Hin; cbn [length] in Hn; try lia; try (by apply elem_of_nil in Hin). destruct rest as [|lo rest].
  - apply list_elem_of_singleton in Hin as ->. by left.
  - cbn [code_points]. destruct (in_range 55296 56319 hi && in_range 56320 57343 lo) eqn:E.
    + apply andb_true_iff in E as [E1 E2]. unfold in_range in *. rewrite andb_true_iff, !N.leb_le in E1, E2. rewrite andb_false_iff, !N.leb_gt in Hc.
      right. apply IH; [cbn [length] in Hn; lia|]. rewrite !elem_of_cons in Hin. destruct Hin as [->|[->|Hin]]; [lia|lia|done].
    + apply elem_of_cons in Hin as [->|Hin]; [by left|]. right. apply (IH (lo :: rest)); [cbn [length] in *; lia|done].
Qed.
Lemma flagsOf_letter l letter c rest : letter = [c] → in_range 55296 57343 c = false →
  ∀ before d after, l = before ++ (chr "-" :: d :: after) :: rest → Forall (λ x, x ≠ js "--") (before ++ [chr "-" :: d :: after]) → d ≠ chr "-" → c ∈ d :: after →
  letter ∈ (flagsOf l).1.
Proof.
  intros -> Hc before d after -> Hf Hd Hin. induction before as [|w before IH]; cbn [app flagsOf] in *.
  - inversion Hf as [|? ? Hne _]; subst. apply str_eqb_neq in Hne. rewrite Hne. destruct (flagsOf rest) as [short long].
    assert (startsWith (chr "-" :: d :: after) (js "--") = false) as ->.
    { apply not_true_iff_false. rewrite startsWith_iff. by intros [r [= E]]. }
    change isOptionToken with isOption. assert (isOption (chr "-" :: d :: after) = true) as -> by (apply negb_false_iff; by rewrite <- operand_isOption).
    cbn [fst]. apply elem_of_app. left. by apply code_points_letter.
  - inversion Hf as [|? ? Hne Hf']; subst. apply str_eqb_neq in Hne. rewrite Hne. specialize (IH Hf'). destruct (flagsOf _) as [short long]. cbn [fst] in *.
    repeat case_match; cbn [fst]; [done|apply elem_of_app; by right|done].
Qed.
Lemma flagsOf_name l name rest : take_while (λ c, negb (N.eqb c (chr "="))) name = name → name ≠ [] →
  ∀ before, l = before ++ (js "--" ++ name) :: rest → Forall (λ x, x ≠ js "--") before → name ∈ (flagsOf l).2.
Proof.
  intros Hname Hne before -> Hf. induction before as [|w before IH]; cbn [app flagsOf] in *.
  - assert (str_eqb (js "--" ++ name) (js "--") = false) as E by (apply str_eqb_neq; change (chr "-" :: chr "-" :: name ≠ js "--"); intros [= E]; done).
    change (chr "-" :: chr "-" :: name) with (js "--" ++ name). rewrite E. destruct (flagsOf rest) as [short long].
    assert (startsWith (js "--" ++ name) (js "--") = true) as -> by (apply startsWith_iff; by eexists). cbn [snd]. apply elem_of_cons. left. symmetry. exact Hname.
  - inversion Hf as [|? ? Hx Hf']; subst. apply str_eqb_neq in Hx. rewrite Hx. specialize (IH Hf'). destruct (flagsOf _) as [short long]. cbn [snd] in *.
    repeat case_match; cbn [snd]; [by right|done|done].
Qed.
Lemma asks_for_group letters names c aliases :
  Forall (λ x, in_range 55296 57343 x = false) letters → Forall (λ n, take_while (λ u, negb (N.eqb u (chr "="))) n = n ∧ length n ≠ 1 ∧ n ≠ []) names →
  (∀ x, x ∈ letters → [x] ∈ aliases) → (∀ n, n ∈ names → n ∈ aliases) → asks_for letters names c →
  existsb (λ alias, if bool_decide (length alias = 1) then mem_str alias (flagsOf (args c)).1 else mem_str alias (flagsOf (args c)).2) aliases = true.
Proof.
  intros Hl Hn HL HN (before & after & w & Hargs & Hf & [(d & rest & letter & -> & Hd & Hin & Hmem)|(name & Hin & ->)]); apply existsb_exists.
  - exists [letter]. split; [by apply list_elem_of_In, HL|]. rewrite bool_decide_true by done. apply mem_str_In, list_elem_of_In.
    rewrite list.Forall_forall in Hl. by eapply (flagsOf_letter _ _ letter after); eauto.
  - rewrite list.Forall_forall in Hn. destruct (Hn _ Hin) as (H1 & H2 & H3). exists name. split; [by apply list_elem_of_In, HN|]. rewrite bool_decide_false by done.
    apply mem_str_In, list_elem_of_In. eapply (flagsOf_name _ name after); eauto. by apply Forall_app in Hf as [? _].
Qed.

Lemma forced_removal_flags c : asks_for [chr "r"; chr "R"] [js "recursive"] c → asks_for [chr "f"] [js "force"] c →
  hasFlagGroups c (mkFlagGroups (Some [[js "r"; js "R"; js "recursive"]; [js "f"; js "force"]]) None None) = true.
Proof.
  intros Hr Hf. unfold hasFlagGroups.
  apply (asks_for_group _ _ _ [js "r"; js "R"; js "recursive"]) in Hr; [|repeat constructor; done|repeat constructor; done|intros x Hx; each_in Hx ltac:(auto with fleet)|intros x Hx; each_in Hx ltac:(auto with fleet)].
  apply (asks_for_group _ _ _ [js "f"; js "force"]) in Hf; [|repeat constructor; done|repeat constructor; done|intros x Hx; each_in Hx ltac:(auto with fleet)|intros x Hx; each_in Hx ltac:(auto with fleet)].
  destruct (flagsOf (args c)) as [short long]. cbn [fst snd flags_all flags_any flags_none forallb] in *. by rewrite Hr, Hf.
Qed.
Lemma unreported_xargs c scope : writesFileOutside c scope = false → program c = js "tee" → js "xargs" ∈ wrappers c → ∃ path, path ∈ args c ∧ operand path = true.
Proof.
  intros Hw Hp Hx. unfold writesFileOutside, programWritesFileOutside in Hw. rewrite Hp, str_eqb_refl in Hw.
  rewrite !orb_false_iff, andb_false_iff, bool_decide_eq_false in Hw. destruct Hw as (_ & [Hm|Hne] & _).
  { apply not_true_iff_false in Hm. destruct Hm. by apply mem_str_In, list_elem_of_In. }
  unfold operandsOf in Hne. rewrite operands_eq in Hne. destruct (filter _ _) as [|path l] eqn:E; [done|]. exists path.
  assert (path ∈ filter (λ w, operand w = true) (args c)) as [? ?]%list_elem_of_filter; [|done]. rewrite E. by left.
Qed.
(** No simple command of a vouched text is matched by a core rule on the command line. *)
Lemma vouched_matches_no_rule (request : PolicyRequest) (mode : PolicyMode) (id text : str) rule c :
  evaluate request (with_mode mode DEFAULT_COMMAND_POLICY) = VAllow (Some id) None false →
  req_toolName request = BASH_TOOL → req_command request = Some text → req_presence request = Unattended →
  rule ∈ [noForcedRecursiveRm; noShellFileWrites; noWriteIntoGitDir] → c ∈ analysis_commands (analyzeCommand text) →
  matchesPredicate realpathNative processCwd (rule_when rule) (mkContext (Some c) [] request) = false.
Proof.
  intros Hv Htool Htext Hpresence Hrule Hc.
  assert (rule ∈ core_rules ∧ isInScope toLowerCase rule request = true ∧ rule_decision rule ≠ Allow ∧ rule_appliesTo rule = None) as (Hcore & Hscope & Hd & Happ).
  { unfold isInScope. rewrite Htool, Hpresence. rewrite !elem_of_cons in Hrule. destruct_or! Hrule; [..|by apply elem_of_nil in Hrule]; subst rule;
      (split; [unfold core_rules; rewrite !elem_of_cons; tauto|]); done. }
  pose proof (vouched_refuses_nothing _ _ _ _ Hv (core_rule_applies toLowerCase request mode rule Hcore Hscope) Hd) as Hm.
  unfold matchesRequest, ruleMatches, analysisOf in Hm. rewrite Happ, Htool, Htext, bool_decide_false in Hm by done. cbn [negb] in Hm.
  rewrite str_eqb_refl in Hm. cbn [fmap option_fmap option_map contextsOf] in Hm.
  apply not_true_iff_false in Hm. apply not_true_iff_false. intros Hmc. apply Hm, existsb_exists. exists (mkContext (Some c) [] request).
  split; [|done]. apply list_elem_of_In, list_elem_of_fmap. by exists c.
Qed.

End DeliveredVerdicts.

(** The delivered settings watch only: nothing is refused before usage shows which refusals are right. *)
Corollary delivered_settings_refuse_nothing toLowerCase realpathNative processCwd request :
  ∃ a w d, evaluateCommandPolicy toLowerCase realpathNative processCwd request defaultSettingsDocument = VAllow a w d.
Proof.
  unfold evaluateCommandPolicy. rewrite bool_decide_false by done. case_match; [by do 3 eexists|]. case_match; [by do 3 eexists|].
  change (plan_isObserving _) with true.
  match goal with |- context [rules_loop ?m true None ?rules] => destruct (rules_loop_decided m true rules) end; by do 3 eexists.
Qed.

(** Worked examples: a forced removal and a plain read, in an unattended session of a role that has no profile. *)
Definition unattended_request (text : string) : PolicyRequest :=
  mkRequest (js "s1") (js "claude-cli") (Some (js "worker")) None Unattended SessionActor PreToolUse BASH_TOOL
    (Some (js text)) None None None (js "/w") (Some (js "/w")) [] None.
Lemma delivered_core_rules_bite_witness :
  ∃ r, r ∈ doc_rules DEFAULT_COMMAND_POLICY ∧ rule_decision r = Deny ∧
    evaluateCommandPolicy id_case no_files (js "/") (unattended_request "cd src && rm -rf build") (with_mode ModeEnforce DEFAULT_COMMAND_POLICY) =
    VDeny (rule_id r) (rule_reason r) (default [] (rule_alternative r)).
Proof.
  destruct (delivered_core_rules_bite id_case no_files (js "/") (unattended_request "cd src && rm -rf build") ModeEnforce noForcedRecursiveRm) as (r & Hin & Hd & _ & E).
  - split_and!; [discriminate|intros _; discriminate|vm_compute; discriminate].
  - apply list_elem_of_here.
  - vm_compute. reflexivity.
  - vm_compute. reflexivity.
  - exists r. split_and!; [exact Hin|exact Hd|exact E].
Defined.
Definition vouched_line : string := "cat a 2> /dev/null | head -3".
