(* ===== verification/Sorting.v ===== *)
(** * Stable sorting

    The order of [ORDER BY key, rowid] on a table kept in rowid order, and of
    JavaScript's [sort] (which is stable) by a numeric key. *)
From S2P Require Import Prelude.

Section Sorting.
Context {A : Type} (key : A → Z).

Fixpoint insert_by (x : A) (l : list A) : list A :=
  match l with
  | [] => [x]
  | y :: l' => if Z.ltb (key x) (key y) then x :: l else y :: insert_by x l'
  end.
Definition sort_by (l : list A) : list A := fold_left (λ acc x, insert_by x acc) l [].

Inductive sorted : list A → Prop :=
  | sorted_nil : sorted []
  | sorted_cons x l : (∀ y, y ∈ l → (key x ≤ key y)%Z) → sorted l → sorted (x :: l).

Lemma insert_by_perm x l : insert_by x l ≡ₚ x :: l.
Proof.
  induction l as [|y l IH]; simpl; [done|]. destruct (Z.ltb _ _); [done|].
  rewrite IH. by rewrite Permutation_swap.
Qed.
Lemma insert_by_sorted x l : sorted l → sorted (insert_by x l).
Proof.
  induction 1 as [|y l Hy Hl IH]; simpl; [constructor; [by intros ? ?%elem_of_nil|constructor]|].
  destruct (Z.ltb_spec (key x) (key y)).
  - constructor; [|by constructor]. intros z [->|Hz]%elem_of_cons; [lia|]. specialize (Hy z Hz). lia.
  - constructor; [|done]. intros z Hz. rewrite insert_by_perm in Hz. apply elem_of_cons in Hz as [->|Hz]; [lia|auto].
Qed.
Lemma sort_by_fold l acc :
  fold_left (λ acc x, insert_by x acc) l acc ≡ₚ l ++ acc ∧ (sorted acc → sorted (fold_left (λ acc x, insert_by x acc) l acc)).
Proof.
  revert acc. induction l as [|x l IH]; intros acc; simpl; [done|].
  destruct (IH (insert_by x acc)) as [Hp Hs]. split.
  - rewrite Hp, insert_by_perm. by rewrite Permutation_middle.
  - intros Hacc. by apply Hs, insert_by_sorted.
Qed.
Lemma sort_by_perm l : sort_by l ≡ₚ l.
Proof. unfold sort_by. etransitivity; [apply sort_by_fold|]. by rewrite app_nil_r. Qed.
Lemma sort_by_sorted l : sorted (sort_by l).
Proof. unfold sort_by. apply sort_by_fold. constructor. Qed.

Section Filter.
Variable P : A → bool.
Abbreviation keep := (filter (λ x, P x = true)).

Lemma insert_by_filter x l :
  sorted l → keep (insert_by x l) = if P x then insert_by x (keep l) else keep l.
Proof.
  induction 1 as [|y l Hy Hl IH]; cbn [insert_by].
  - rewrite filter_cons, !filter_nil. destruct (P x); by case_decide.
  - destruct (Z.ltb_spec (key x) (key y)) as [Hlt|Hge].
    + destruct (P x) eqn:Hx.
      * rewrite (filter_cons_True _ x) by done. symmetry.
        assert (Hhead : ∀ z, z ∈ keep (y :: l) → (key x < key z)%Z).
        { intros z [_ Hz]%list_elem_of_filter. apply elem_of_cons in Hz as [->|Hz]; [done|]. specialize (Hy z Hz). lia. }
        destruct (keep (y :: l)) as [|z rest] eqn:E; [done|]. cbn [insert_by].
        destruct (Z.ltb_spec (key x) (key z)); [done|]. specialize (Hhead z). assert (z ∈ z :: rest) by left. naive_solver lia.
      * rewrite (filter_cons_False _ x) by (by rewrite Hx). done.
    + destruct (P y) eqn:HPy.
      * rewrite !(filter_cons_True _ y) by done. rewrite IH. destruct (P x); [|done]. cbn [insert_by].
        destruct (Z.ltb_spec (key x) (key y)); [lia|done].
      * rewrite !(filter_cons_False _ y) by (by rewrite HPy). done.
Qed.
(** Sorting and selecting commute. *)
Lemma sort_by_filter l : sort_by (keep l) = keep (sort_by l).
Proof.
  induction l as [|x l IH] using rev_ind; [done|].
  rewrite list.filter_app. unfold sort_by in *. rewrite !fold_left_app. cbn [fold_left].
  rewrite insert_by_filter by (apply sort_by_sorted). rewrite filter_cons, filter_nil.
  destruct (P x); case_decide; try done; cbn [fold_left]; by rewrite IH.
Qed.
End Filter.

(** A new element with the largest key goes to the end. *)
Lemma insert_by_last x l : (∀ y, y ∈ l → (key y ≤ key x)%Z) → insert_by x l = l ++ [x].
Proof.
  induction l as [|y l IH]; intros H; [done|]. cbn [insert_by app].
  destruct (Z.ltb_spec (key x) (key y)) as [Hlt|_]; [specialize (H y); assert (y ∈ y :: l) by left; naive_solver lia|].
  rewrite IH; [done|]. intros z Hz. apply H. by right.
Qed.
Lemma sort_by_snoc l x : sort_by (l ++ [x]) = insert_by x (sort_by l).
Proof. unfold sort_by. by rewrite fold_left_app. Qed.
End Sorting.

(** Sorting looks only at the keys. *)
Lemma sort_by_fmap {A B} (f : A → B) (kA : A → Z) (kB : B → Z) l :
  (∀ x, kB (f x) = kA x) → sort_by kB (f <$> l) = f <$> sort_by kA l.
Proof.
  intros Hk. assert (Hins : ∀ x m, insert_by kB (f x) (f <$> m) = f <$> insert_by kA x m).
  { intros x m. induction m as [|y m IH]; csimpl; [done|]. rewrite !Hk. destruct (Z.ltb _ _); [done|].
    csimpl. by rewrite IH. }
  induction l as [|x l IH] using rev_ind; [done|].
  rewrite fmap_app. csimpl. by rewrite !sort_by_snoc, IH, Hins.
Qed.
