(* ===== verification/SessionState.v ===== *)
(** * The session state machine

    Model of [packages/core/src/sessions/stateMachine.ts]: how hooks of the CLI, the
    answer to a permission and the end of the process move a session. *)
From S2P Require Import Prelude JsText.

Inductive SessionState := Starting | Generating | WaitingPermission | WaitingInput | Idle | Closed.
#[export] Instance SessionState_eq_dec : EqDecision SessionState.
Proof. solve_decision. Defined.

(** The fields of a hook event the machine reads. *)
Inductive ClaudeHookEvent :=
  | SessionStart (source : option str)
  | SessionEnd (reason : option str)
  | UserPromptSubmit
  | PreToolUseEvent
  | PostToolUseEvent
  | PermissionRequestEvent
  | Notification (notification_type : str)
  | Stop.

Inductive SessionInput :=
  | Hook (event : ClaudeHookEvent) (turnContinues : bool)
  | PermissionResolved
  | HarnessExit
  | TranscriptInterrupted.

Definition isWaitingOnHuman (state : SessionState) : bool :=
  match state with WaitingPermission | WaitingInput => true | _ => false end.

Definition isCompaction (event : ClaudeHookEvent) : bool :=
  match event with SessionStart (Some source) => str_eqb source (js "compact") | _ => false end.
Definition isClear (event : ClaudeHookEvent) : bool :=
  match event with SessionEnd (Some reason) => str_eqb reason (js "clear") | _ => false end.
Definition startsClearedConversation (event : ClaudeHookEvent) : bool :=
  match event with SessionStart (Some source) => str_eqb source (js "clear") | _ => false end.

Definition stateAfterNotification (current : SessionState) (notificationType : str) : SessionState :=
  if str_eqb notificationType (js "permission_prompt") then WaitingPermission
  else if str_eqb notificationType (js "agent_needs_input") then WaitingInput
  else if str_eqb notificationType (js "idle_prompt") then (if isWaitingOnHuman current then current else Idle)
  else current.

Definition stateAfterHook (current : SessionState) (event : ClaudeHookEvent) : SessionState :=
  match event with
  | SessionStart _ => if isCompaction event then current else Idle
  | SessionEnd _ => Closed
  | UserPromptSubmit => Generating
  | PreToolUseEvent | PostToolUseEvent => Generating
  | PermissionRequestEvent => WaitingPermission
  | Stop => Idle
  | Notification t => stateAfterNotification current t
  end.

Definition nextState (current : SessionState) (input : SessionInput) : SessionState :=
  if bool_decide (current = Closed) then Closed
  else
    match input with
    | HarnessExit => Closed
    | PermissionResolved => Generating
    | TranscriptInterrupted => Idle
    | Hook event turnContinues => if turnContinues then Generating else stateAfterHook current event
    end.

Definition provesTurnEnded (input : SessionInput) : bool :=
  match input with
  | TranscriptInterrupted => true
  | Hook event turnContinues =>
      if turnContinues then false
      else
        match event with
        | Stop => true
        | SessionStart _ => negb (isCompaction event)
        | Notification t => str_eqb t (js "idle_prompt") || str_eqb t (js "agent_needs_input")
        | _ => false
        end
  | _ => false
  end.

Definition canDeliverNow (state : SessionState) : bool := match state with Idle | WaitingInput => true | _ => false end.

(** ** Runs *)
Definition run (state : SessionState) (inputs : list SessionInput) : SessionState := fold_left nextState inputs state.
(** The two inputs that end a session. *)
Definition ends (input : SessionInput) : bool :=
  match input with HarnessExit => true | Hook (SessionEnd _) false => true | _ => false end.

Lemma nextState_closed_iff s i : nextState s i = Closed ↔ s = Closed ∨ ends i = true.
Proof.
  unfold nextState. case_bool_decide as Hs; [tauto|].
  destruct i as [[src|r| | | | |t|] []| | |]; simpl; unfold stateAfterNotification; repeat case_match; naive_solver.
Qed.

(** A session is closed exactly when its process exited or the CLI ended the
    session at some point of its history, and it never reopens. *)
Theorem session_closed_iff_ended inputs s :
  run s inputs = Closed ↔ s = Closed ∨ ∃ i, i ∈ inputs ∧ ends i = true.
Proof.
  unfold run. revert s. induction inputs as [|i inputs IH]; intros s; simpl.
  - split; [by left|]. intros [?|(i & ?%elem_of_nil & _)]; done.
  - rewrite IH, nextState_closed_iff. split.
    + intros [[?|?]|(j & ? & ?)]; [by left|right; exists i; split; [left|done]|right; exists j; split; [by right|done]].
    + intros [?|(j & [->|?]%elem_of_cons & ?)]; [tauto|tauto|right; by exists j].
Qed.

(** A message is never delivered in the middle of a turn: a session becomes
    deliverable only by an input that proves the turn ended, and such an input makes
    every open session deliverable, except that an idle reminder leaves a pending
    permission dialog pending. *)
Theorem deliverable_exactly_at_turn_end s i :
  (canDeliverNow s = false → canDeliverNow (nextState s i) = true → provesTurnEnded i = true) ∧
  (provesTurnEnded i = true → s ≠ Closed →
   canDeliverNow (nextState s i) = true ∨ (s = WaitingPermission ∧ nextState s i = WaitingPermission)).
Proof.
  unfold nextState. split.
  - intros Hs. case_bool_decide; [by subst|].
    destruct i as [[[src|]|r| | | | |t|] []| | |]; simpl; unfold stateAfterNotification; try done.
    + destruct (str_eqb src (js "compact")); simpl; congruence.
    + destruct (str_eqb t (js "permission_prompt")); [done|]. destruct (str_eqb t (js "agent_needs_input")); [by rewrite orb_true_r|].
      destruct (str_eqb t (js "idle_prompt")); [done|]. congruence.
  - intros Hp Hc. rewrite bool_decide_false by done.
    destruct i as [[src|r| | | | |t|] []| | |]; simpl in *; unfold stateAfterNotification; try done; auto.
    + destruct src as [src|]; [|by left]. simpl in *. destruct (str_eqb src (js "compact")); [done|by left].
    + destruct (str_eqb t (js "permission_prompt")) eqn:E1.
      { apply str_eqb_eq in E1 as ->. done. }
      destruct (str_eqb t (js "agent_needs_input")); [by left|]. rewrite orb_false_r in Hp. rewrite Hp.
      destruct s; simpl; naive_solver.
Qed.
Lemma deliverable_exactly_at_turn_end_witness :
  canDeliverNow (nextState Generating (Hook Stop false)) = true ∨
  (Generating = WaitingPermission ∧ nextState Generating (Hook Stop false) = WaitingPermission).
Proof. apply (proj2 (deliverable_exactly_at_turn_end Generating (Hook Stop false))); [reflexivity|discriminate]. Defined.

(** A pending permission is not lost to the reminders of the CLI: only an answer,
    an interruption, the end of the session or a hook that shows the turn moved on takes a
    session out of the waiting state; notifications and compactions never do, unless the
    agent asks for input. *)
Theorem permission_stays_pending inputs :
  Forall (λ i, ∃ event, i = Hook event false ∧
     (isCompaction event = true ∨ event = PermissionRequestEvent ∨
      ∃ t, event = Notification t ∧ t ≠ js "agent_needs_input")) inputs →
  run WaitingPermission inputs = WaitingPermission.
Proof.
  unfold run. induction 1 as [|i inputs (event & -> & Hev) _ IH]; [done|]. simpl.
  replace (nextState WaitingPermission (Hook event false)) with WaitingPermission; [done|]. symmetry.
  unfold nextState. rewrite bool_decide_false by done.
  destruct Hev as [Hc|[->|(t & -> & Ht)]]; [|done|].
  - destruct event; try done. simpl in *. by rewrite Hc.
  - simpl. unfold stateAfterNotification. apply str_eqb_neq in Ht. rewrite Ht. by repeat case_match.
Qed.
Lemma permission_stays_pending_witness :
  run WaitingPermission [Hook (Notification (js "idle_prompt")) false; Hook (SessionStart (Some (js "compact"))) false] = WaitingPermission.
Proof.
  apply permission_stays_pending. constructor.
  - eexists. split; [reflexivity|]. right. right. eexists. split; [reflexivity|discriminate].
  - constructor; [|constructor]. eexists. split; [reflexivity|]. left. reflexivity.
Defined.
