(* ===== verification/MessageQueue.v ===== *)
(** * The message queue

    Models of [packages/core/src/sessions/messageQueue.ts] and
    [packages/core/src/sessions/daemonLines.ts].  The table [message_queue] is the list
    of its rows in rowid order; a date is its epoch milliseconds (ISO texts sort as
    instants).  [ORDER BY created_at] breaks ties by rowid, as the index scan does. *)
From S2P Require Import Prelude JsText MessageEnvelope Sorting.

(** ** Daemon lines *)
Definition PULSE_PREFIX : str := js "[pulse]".
Definition DAEMON_LINE_PREFIXES : list str :=
  [PULSE_PREFIX; js "[scheduled event"; js "[child_restarted]"; js "[child_restart_exhausted]"; js "[harness_exited]";
   js "[sleep]"; js "[openfleet]"; js "[verdict]"; js "[arbiter]"].
Definition ENVELOPE_HEADER_PREFIX : str := js "[from agent ".
Definition ENVELOPE_BEGIN_LINE : str := [LF] ++ AGENT_MESSAGE_BEGIN ++ [LF].

(** The text after the first occurrence of [p]: [substr(body, instr(body, p) + length(p))]. *)
Fixpoint after_first (p s : str) : option str :=
  if startsWith s p then Some (drop (length p) s)
  else match s with [] => None | _ :: s' => after_first p s' end.
Definition envelopePayload (body : str) : option str :=
  if startsWith body ENVELOPE_HEADER_PREFIX then after_first ENVELOPE_BEGIN_LINE body else None.
Definition opensWith (prefix body : str) : bool :=
  startsWith body prefix || match envelopePayload body with Some payload => startsWith payload prefix | None => false end.
Definition isDaemonLine (body : str) : bool := existsb (λ prefix, opensWith prefix body) DAEMON_LINE_PREFIXES.

(** [text LIKE 'prefix%']: SQLite compares ASCII letters without case. *)
Definition ascii_lower (c : N) : N := if is_upper c then (c + 32)%N else c.
Definition like_prefix (prefix text : str) : bool := startsWith (ascii_lower <$> text) (ascii_lower <$> prefix).

(** ** The table *)
Inductive MessageStatus := Queued | Delivered.
#[export] Instance MessageStatus_eq_dec : EqDecision MessageStatus.
Proof. solve_decision. Defined.

Record QueuedMessage := mkMessage
  { msg_id : str;
    msg_sessionId : str;
    msg_fromSessionId : option str;
    msg_body : str;
    msg_status : MessageStatus;
    msg_createdAt : Z;
    msg_deliveredAt : option Z }.
Abbreviation table := (list QueuedMessage).

Definition with_body (body : str) (m : QueuedMessage) : QueuedMessage :=
  mkMessage (msg_id m) (msg_sessionId m) (msg_fromSessionId m) body (msg_status m) (msg_createdAt m) (msg_deliveredAt m).
Definition with_status (status : MessageStatus) (deliveredAt : option Z) (m : QueuedMessage) : QueuedMessage :=
  mkMessage (msg_id m) (msg_sessionId m) (msg_fromSessionId m) (msg_body m) status (msg_createdAt m) deliveredAt.

Definition is_queued (m : QueuedMessage) : bool := bool_decide (msg_status m = Queued).
(** [UPDATE ... SET ... WHERE]: the rows that satisfy the condition are changed. *)
Definition update_where (condition : QueuedMessage → bool) (change : QueuedMessage → QueuedMessage) (t : table) : table :=
  (λ m, if condition m then change m else m) <$> t.
Definition delete_where (condition : QueuedMessage → bool) (t : table) : table := filter (λ m, negb (condition m) = true) t.
Definition select (condition : QueuedMessage → bool) (t : table) : table := filter (λ m, condition m = true) t.

Definition getById (t : table) (id : str) : option QueuedMessage := find (λ m, str_eqb (msg_id m) id) t.

(** [None]: the insert violates the primary key and throws. *)
Definition enqueue (t : table) (id sessionId : str) (fromSessionId : option str) (body : str) (now : Z)
  : option (table * QueuedMessage) :=
  match getById t id with
  | Some _ => None
  | None => let message := mkMessage id sessionId fromSessionId body Queued now None in Some (t ++ [message], message)
  end.

Definition hasQueued (t : table) (sessionId body : str) : bool :=
  existsb (λ m, str_eqb (msg_sessionId m) sessionId && is_queued m && str_eqb (msg_body m) body) t.

Definition replaceQueuedBody (t : table) (id body : str) : table * bool :=
  let condition m := str_eqb (msg_id m) id && is_queued m in
  (update_where condition (with_body body) t, existsb condition t).

Definition pending_of (sessionId : str) (m : QueuedMessage) : bool := str_eqb (msg_sessionId m) sessionId && is_queued m.
Definition nextPending (t : table) (sessionId : str) (skipDaemonLines : bool) : option QueuedMessage :=
  head (sort_by msg_createdAt
    (select (λ m, pending_of sessionId m && (if skipDaemonLines then negb (isDaemonLine (msg_body m)) else true)) t)).
Definition listQueued (t : table) (sessionId : str) : list QueuedMessage :=
  sort_by msg_createdAt (select (pending_of sessionId) t).

Definition discardQueued (t : table) (sessionId messageId : str) : table * bool :=
  let condition m := str_eqb (msg_id m) messageId && pending_of sessionId m in
  (delete_where condition t, existsb condition t).
Definition discardQueuedDaemonLines (t : table) (sessionId : str) : table :=
  delete_where (λ m, pending_of sessionId m && bool_decide (msg_fromSessionId m = None) && startsWith (msg_body m) PULSE_PREFIX) t.

Definition markDelivered (t : table) (id : str) (now : Z) : table :=
  update_where (λ m, str_eqb (msg_id m) id) (with_status Delivered (Some now)) t.
Definition requeueDelivered (t : table) (id : str) : table * bool :=
  let condition m := str_eqb (msg_id m) id && bool_decide (msg_status m = Delivered) in
  (update_where condition (with_status Queued None) t, existsb condition t).

Definition countDeliveredSince (t : table) (sessionId : str) (since : Z) : nat :=
  length (select (λ m, str_eqb (msg_sessionId m) sessionId && bool_decide (msg_status m = Delivered)
    && match msg_deliveredAt m with Some at_ => Z.leb since at_ | None => false end
    && negb (like_prefix PULSE_PREFIX (msg_body m)) && negb (like_prefix (js "handoff:") (msg_id m))) t).
Definition countPending (t : table) (sessionId : str) : nat := length (select (pending_of sessionId) t).
Definition countPendingFromSender (t : table) (sessionId fromSessionId : str) : nat :=
  length (select (λ m, pending_of sessionId m && bool_decide (msg_fromSessionId m = Some fromSessionId)) t).

Record ChildExchange := mkExchange { lastChildMessage : option str; hasExchangeSince : bool }.
(** The last row the child wrote, and the rows after it. *)
Fixpoint last_from (managerId childId : str) (t : table) : option (QueuedMessage * table) :=
  match t with
  | [] => None
  | m :: rest =>
      match last_from managerId childId rest with
      | Some found => Some found
      | None =>
          if str_eqb (msg_sessionId m) managerId && bool_decide (msg_fromSessionId m = Some childId) then Some (m, rest) else None
      end
  end.
Definition childExchangeOf (t : table) (managerId childId : str) : ChildExchange :=
  match last_from managerId childId t with
  | None => mkExchange None false
  | Some (m, following) =>
      mkExchange (Some (unwrapAgentMessage (msg_body m))) (existsb (λ r, str_eqb (msg_sessionId r) childId) following)
  end.

(** ** The queue of a session, as an abstract FIFO *)
Definition ids_unique (t : table) : Prop := NoDup (msg_id <$> t).

Lemma listQueued_elem t sessionId m :
  m ∈ listQueued t sessionId ↔ m ∈ t ∧ msg_sessionId m = sessionId ∧ msg_status m = Queued.
Proof.
  unfold listQueued, select. rewrite sort_by_perm, list_elem_of_filter. unfold pending_of, is_queued.
  rewrite andb_true_iff, str_eqb_eq, bool_decide_eq_true. tauto.
Qed.

Lemma nextPending_head t sessionId : nextPending t sessionId false = head (listQueued t sessionId).
Proof.
  unfold nextPending, listQueued, select. f_equal. f_equal. apply list_filter_iff. intros m. by rewrite andb_true_r.
Qed.

Lemma select_update_out condition change p t :
  (∀ m, m ∈ t → condition m = true → p m = true → p (change m) = false) →
  (∀ m, condition m = true → p m = false → p (change m) = false) →
  select p (update_where condition change t) = select (λ m, p m && negb (condition m)) t.
Proof.
  intros Hout Hstay. unfold select, update_where. induction t as [|m t IH]; [done|]. csimpl.
  rewrite !filter_cons. rewrite IH by (intros x Hx; apply Hout; by right).
  destruct (condition m) eqn:Hc; [|rewrite andb_true_r; done].
  rewrite andb_false_r. destruct (p m) eqn:Hp.
  - rewrite (Hout m) by (done || left). done.
  - rewrite (Hstay m) by done. done.
Qed.

Lemma select_remove_id p t id :
  select (λ m, p m && negb (str_eqb (msg_id m) id)) t = select (λ m, negb (str_eqb (msg_id m) id)) (select p t).
Proof.
  unfold select. rewrite list_filter_filter. apply list_filter_iff. intros m. rewrite andb_true_iff. tauto.
Qed.

Lemma select_all p t : (∀ m, m ∈ t → p m = true) → select p t = t.
Proof.
  unfold select. induction t as [|m t IH]; intros H; [done|]. rewrite filter_cons_True by (apply H; left).
  rewrite IH; [done|]. intros x Hx. apply H. by right.
Qed.

Lemma remove_head_id (l : table) m :
  NoDup (msg_id <$> m :: l) → select (λ x, negb (str_eqb (msg_id x) (msg_id m))) (m :: l) = l.
Proof.
  csimpl. intros [Hn _]%list.NoDup_cons. unfold select. rewrite filter_cons_False by (rewrite str_eqb_refl; done).
  apply select_all. intros x Hx. apply negb_true_iff, str_eqb_neq. intros E. apply Hn.
  apply list_elem_of_fmap. by exists x.
Qed.

Lemma listQueued_ids t sessionId : ids_unique t → NoDup (msg_id <$> listQueued t sessionId).
Proof.
  unfold ids_unique, listQueued, select. intros Hnd.
  rewrite (fmap_Permutation _ _ _ (sort_by_perm msg_createdAt _)).
  eapply sublist_NoDup; [exact Hnd|]. apply fmap_sublist, sublist_filter.
Qed.

(** Delivering a message removes exactly it from the queue. *)
Lemma markDelivered_queue t id now sessionId :
  listQueued (markDelivered t id now) sessionId = select (λ m, negb (str_eqb (msg_id m) id)) (listQueued t sessionId).
Proof.
  unfold listQueued, markDelivered. rewrite select_update_out.
  - rewrite select_remove_id. unfold select. by rewrite (sort_by_filter msg_createdAt (λ m, negb (str_eqb (msg_id m) id))).
  - intros m _ _ _. unfold pending_of, is_queued. simpl. by rewrite andb_false_r.
  - intros m _ _. unfold pending_of, is_queued. simpl. by rewrite andb_false_r.
Qed.

(** The table implements a FIFO per session: the next pending message is the head of
    the session's queue, delivering it leaves the tail, enqueuing a message that is not
    older appends it at the end and leaves the queues of the other sessions alone, and a
    discarded message is removed from its place. *)
Theorem message_queue_is_fifo t sessionId :
  ids_unique t →
  (∀ m, nextPending t sessionId false = Some m →
     ∃ rest, listQueued t sessionId = m :: rest ∧ ∀ now, listQueued (markDelivered t (msg_id m) now) sessionId = rest) ∧
  (nextPending t sessionId false = None ↔ listQueued t sessionId = []) ∧
  (∀ id sid from body now t' m, enqueue t id sid from body now = Some (t', m) →
     ids_unique t' ∧
     ((∀ x, x ∈ listQueued t sessionId → (msg_createdAt x ≤ now)%Z) →
      listQueued t' sessionId = listQueued t sessionId ++ if decide (sid = sessionId) then [m] else [])) ∧
  (∀ id, listQueued (discardQueued t sessionId id).1 sessionId
         = select (λ m, negb (str_eqb (msg_id m) id)) (listQueued t sessionId)).
Proof.
  intros Hu. rewrite nextPending_head. split; [|split; [|split]].
  - intros m Hm. pose proof (listQueued_ids t sessionId Hu) as Hnd.
    destruct (listQueued t sessionId) as [|x rest] eqn:Hl; [done|]. injection Hm as ->.
    exists rest. split; [done|]. intros now. rewrite markDelivered_queue, Hl. by apply remove_head_id.
  - destruct (listQueued t sessionId); naive_solver.
  - intros id sid from body now t' m He. unfold enqueue in He.
    destruct (getById t id) eqn:Hg; [done|]. injection He as <- <-. split.
    + unfold ids_unique in *. rewrite fmap_app. apply list.NoDup_app. split; [done|]. split; [|apply list.NoDup_singleton].
      intros x Hx ->%list_elem_of_singleton. apply list_elem_of_fmap in Hx as (y & Hy & Hin).
      unfold getById in Hg. eapply find_none in Hg; [|by apply list_elem_of_In]. apply str_eqb_neq in Hg. by simpl in Hy.
    + intros Hlate. unfold listQueued, select in *. rewrite list.filter_app.
      set (m := mkMessage id sid from body Queued now None).
      assert (Hp : pending_of sessionId m = str_eqb sid sessionId) by (apply andb_true_r).
      destruct (decide (sid = sessionId)) as [->|Hne].
      * rewrite filter_cons_True by (rewrite Hp; apply str_eqb_refl). rewrite filter_nil, sort_by_snoc. by apply insert_by_last.
      * rewrite filter_cons_False by (rewrite Hp; by intros ?%str_eqb_eq). by rewrite filter_nil, !app_nil_r.
  - intros id. unfold listQueued, discardQueued, delete_where, select. cbn [fst]. rewrite <- sort_by_filter. f_equal.
    rewrite !list_filter_filter. apply list_filter_iff. intros m. rewrite !negb_true_iff.
    destruct (str_eqb (msg_id m) id), (pending_of sessionId m); naive_solver.
Qed.

Definition sample_table : table :=
  [mkMessage (js "a") (js "s") None (js "first") Queued 1 None; mkMessage (js "b") (js "s") (Some (js "c")) (js "second") Queued 2 None].
Lemma message_queue_is_fifo_witness :
  ∃ rest, listQueued sample_table (js "s") = mkMessage (js "a") (js "s") None (js "first") Queued 1 None :: rest ∧
          ∀ now, listQueued (markDelivered sample_table (js "a") now) (js "s") = rest.
Proof.
  assert (Hu : ids_unique sample_table) by (apply (bool_decide_unpack _); vm_compute; exact I).
  exact (proj1 (message_queue_is_fifo sample_table (js "s") Hu) _ eq_refl).
Defined.

(** ** Daemon lines inside an envelope *)
Lemma after_first_found p s r :
  (∀ c, head p = Some c → c ∉ s) → p ≠ [] → after_first p (s ++ p ++ r) = Some r.
Proof.
  intros Hc Hp. destruct p as [|c p]; [done|]. specialize (Hc c eq_refl).
  induction s as [|d s IH]; cbn [app].
  - assert (Hs : startsWith (c :: p ++ r) (c :: p) = true).
    { cbn [startsWith]. rewrite N.eqb_refl. clear. induction p as [|d p IHp]; cbn [app]; [by destruct r|].
      cbn [startsWith]. by rewrite N.eqb_refl. }
    cbn [after_first]. rewrite Hs. f_equal. cbn [length drop]. by rewrite drop_app_length.
  - apply not_elem_of_cons in Hc as [Hne Hc]. cbn [after_first startsWith].
    destruct (N.eqb_spec d c); [congruence|]. cbn [andb]. by apply IH.
Qed.

Lemma startsWith_before_sep x c r p : c ∉ p → startsWith (x ++ c :: r) p = startsWith x p.
Proof.
  revert x. induction p as [|d p IH]; intros x Hc; [by destruct x|].
  apply not_elem_of_cons in Hc as [Hne Hc]. destruct x as [|y x]; cbn [app startsWith].
  - destruct (N.eqb_spec c d); [congruence|done].
  - by rewrite IH.
Qed.

(** A daemon line is recognised through the envelope: a message an agent sends is
    kept back as a daemon line exactly when the text inside its envelope opens with one
    of the daemon's prefixes, whatever the header says. *)
Theorem enveloped_daemon_line strip fromSessionId fromBranch messageId body :
  isDaemonLine (wrapAgentMessage strip fromSessionId fromBranch messageId body) =
  existsb (startsWith (neutralizeEnvelopeMarkers strip (wrappedText fromSessionId fromBranch messageId body))) DAEMON_LINE_PREFIXES.
Proof.
  unfold isDaemonLine, wrapAgentMessage.
  set (inner := neutralizeEnvelopeMarkers strip _). set (a := (splitHeaderField (take _ _)).1).
  set (b := (splitHeaderField (default _ _)).1). set (c := (splitHeaderField messageId).1).
  set (stored := join [LF] _).
  assert (Hstored : stored = headerLine a b c ++ ENVELOPE_BEGIN_LINE ++ inner ++ LF :: AGENT_MESSAGE_END) by reflexivity.
  assert (Hpayload : envelopePayload stored = Some (inner ++ LF :: AGENT_MESSAGE_END)).
  { unfold envelopePayload. replace (startsWith stored ENVELOPE_HEADER_PREFIX) with true by (rewrite Hstored; reflexivity).
    rewrite Hstored. apply after_first_found; [|discriminate]. intros d [= <-].
    apply headerLine_no_LF; apply splitHeaderField_display. }
  assert (Hopens : ∀ p, p ∈ DAEMON_LINE_PREFIXES → opensWith p stored = startsWith inner p).
  { intros p Hp. unfold opensWith. rewrite Hpayload.
    assert (Hall : Forall (λ p, startsWith stored p = false ∧ forallb (λ d, negb (N.eqb d LF)) p = true) DAEMON_LINE_PREFIXES)
      by (rewrite Hstored; repeat constructor).
    rewrite List.Forall_forall in Hall. destruct (Hall p) as [H1 H2]; [by apply list_elem_of_In|]. rewrite H1. cbn [orb].
    apply startsWith_before_sep. by apply no_LF_in. }
  clearbody stored. clear -Hopens. induction DAEMON_LINE_PREFIXES as [|p ps IH]; [done|]. cbn [existsb].
  rewrite Hopens by left. f_equal. apply IH. intros q Hq. apply Hopens. by right.
Qed.
