(* ===== verification/Guards.v ===== *)
(** * Rate guards

    Models of the small stateful guards of the daemon: the repeat guard of refused
    commands ([policy/refusalRepeatGuard.ts]), the breaker of trigger fires
    ([triggers/fireBreaker.ts]) and the once-per-window filter
    ([usage/oncePerWindowPerKey.ts]).  Each is related to a specification over the whole
    history of its calls. *)
From S2P Require Import Prelude JsText Sorting.

(** ** The repeat guard *)
Module RepeatGuard.
Definition key : Type := str * str.
Record RepeatEscalation := mkRepeat { count : nat; windowSeconds : Z }.
(** [JSON.stringify([sessionId, ruleId])] is one to one: the pair is the key. *)
Record guard := mkGuard { refusalTimes : gmap key (list Z); lastEscalationAt : gmap key Z }.
Definition initial : guard := mkGuard ∅ ∅.

Section Settings.
Variable settings : RepeatEscalation.
Definition windowMs : Z := windowSeconds settings * 1000.

Definition registerAndShouldEscalate (g : guard) (k : key) (now : Z) : guard * bool :=
  let recent := filter (λ time, (now - time < windowMs)%Z) (default [] (refusalTimes g !! k)) ++ [now] in
  let times := <[k := recent]> (refusalTimes g) in
  let alreadyToldThisWindow := match lastEscalationAt g !! k with
                               | Some last => bool_decide (now - last < windowMs)%Z
                               | None => false
                               end in
  let hasRepeatedEnough := bool_decide (count settings ≤ length recent) in
  if negb hasRepeatedEnough || alreadyToldThisWindow then (mkGuard times (lastEscalationAt g), false)
  else (mkGuard times (<[k := now]> (lastEscalationAt g)), true).

(** One call: its key, its time and its answer. *)
Record call := mkCall { call_key : key; call_time : Z; call_answer : bool }.
Fixpoint register_all (g : guard) (history : list call) (inputs : list (key * Z)) : guard * list call :=
  match inputs with
  | [] => (g, history)
  | (k, now) :: rest =>
      let '(g', answer) := registerAndShouldEscalate g k now in
      register_all g' (history ++ [mkCall k now answer]) rest
  end.

(** The specification of one answer, from the calls before it. *)
Definition recent_calls (history : list call) (k : key) (now : Z) : list call :=
  filter (λ c, call_key c = k ∧ (now - call_time c < windowMs)%Z) history.
Definition should_escalate (history : list call) (k : key) (now : Z) : Prop :=
  count settings ≤ length (recent_calls history k now) + 1 ∧
  ∀ c, c ∈ recent_calls history k now → call_answer c = false.

Inductive answered_right : list call → Prop :=
  | right_nil : answered_right []
  | right_snoc history c :
      answered_right history → (call_answer c = true ↔ should_escalate history (call_key c) (call_time c)) →
      answered_right (history ++ [c]).

(** Calls come at times that do not go back. *)
Definition not_after (history : list call) (now : Z) : Prop := ∀ c, c ∈ history → (call_time c ≤ now)%Z.
Definition last_known (last : option Z) (history : list call) (k : key) : Prop :=
  match last with
  | None => ∀ c, c ∈ history → call_key c = k → call_answer c = false
  | Some last => (∃ c, c ∈ history ∧ call_key c = k ∧ call_answer c = true ∧ call_time c = last) ∧
                 ∀ c, c ∈ history → call_key c = k → call_answer c = true → (call_time c ≤ last)%Z
  end.
Record remembers (g : guard) (history : list call) : Prop := mkRemembers
  { remembers_times : ∀ k now, not_after history now →
      filter (λ time, (now - time < windowMs)%Z) (default [] (refusalTimes g !! k)) = call_time <$> recent_calls history k now;
    remembers_last : ∀ k, last_known (lastEscalationAt g !! k) history k }.

(** A call that changes nothing for a key: it answered false, or had another key. *)
Lemma last_known_snoc last history k c :
  last_known last history k → call_answer c = false ∨ call_key c ≠ k → last_known last (history ++ [c]) k.
Proof.
  intros Hl Hc. destruct last as [last|]; simpl in *.
  - destruct Hl as [(d & Hd & ?) Hmax]. split; [exists d; split; [apply elem_of_app; by left|done]|].
    intros e [He| ->%list_elem_of_singleton]%elem_of_app Hk Ha; [by apply Hmax|]. destruct Hc; congruence.
  - intros e [He| ->%list_elem_of_singleton]%elem_of_app Hk; [by apply Hl|]. destruct Hc; congruence.
Qed.

Lemma told_iff g history k now :
  remembers g history → not_after history now →
  match lastEscalationAt g !! k with Some last => bool_decide (now - last < windowMs)%Z | None => false end = true ↔
  ∃ c, c ∈ recent_calls history k now ∧ call_answer c = true.
Proof.
  intros [_ Hlast] Hna. specialize (Hlast k). destruct (lastEscalationAt g !! k) as [last|]; simpl in Hlast.
  - destruct Hlast as [(c & Hin & Hk & Ha & <-) Hmax]. rewrite bool_decide_eq_true. split.
    + intros Hw. exists c. split; [|done]. apply list_elem_of_filter. by split_and!.
    + intros (d & [[Hdk Hdw] Hd]%list_elem_of_filter & Hda). specialize (Hmax d Hd Hdk Hda). lia.
  - split; [done|]. intros (d & [[Hdk _] Hd]%list_elem_of_filter & Hda). rewrite (Hlast d) in Hda; done.
Qed.

Lemma recent_snoc history c k now :
  recent_calls (history ++ [c]) k now =
  recent_calls history k now ++ (if decide (call_key c = k ∧ (now - call_time c < windowMs)%Z) then [c] else []).
Proof. unfold recent_calls. rewrite list.filter_app, filter_cons, filter_nil. done. Qed.

(** Older calls leave the window and do not come back. *)
Lemma recent_narrow history k before now :
  (before ≤ now)%Z →
  filter (λ time, (now - time < windowMs)%Z) (call_time <$> recent_calls history k before) = call_time <$> recent_calls history k now.
Proof.
  intros Hle. unfold recent_calls. induction history as [|c history IH]; [done|]. rewrite !filter_cons.
  destruct (decide (call_key c = k ∧ (before - call_time c < windowMs)%Z)) as [[Hk Hb]|Hn]; csimpl.
  - rewrite filter_cons, IH. destruct (decide (now - call_time c < windowMs)%Z) as [Hw|Hw].
    + rewrite decide_True by done. done.
    + rewrite decide_False by tauto. done.
  - rewrite IH, decide_False; [done|]. intros [? ?]. apply Hn. split; [done|lia].
Qed.

Lemma register_remembers g history k now g' answer :
  remembers g history → not_after history now → registerAndShouldEscalate g k now = (g', answer) →
  remembers g' (history ++ [mkCall k now answer]) ∧ (answer = true ↔ should_escalate history k now).
Proof.
  intros Hr Hna Hreg. pose proof (told_iff g history k now Hr Hna) as Htold. destruct Hr as [Htimes Hlast].
  unfold registerAndShouldEscalate in Hreg. rewrite (Htimes k now Hna) in Hreg.
  set (recent := (call_time <$> recent_calls history k now) ++ [now]) in *.
  set (told := match lastEscalationAt g !! k with Some last => _ | None => false end) in *.
  assert (Hlen : length recent = length (recent_calls history k now) + 1).
  { unfold recent. by rewrite length_app, length_fmap. }
  assert (Htimes' : ∀ last b k' now', not_after (history ++ [mkCall k now b]) now' →
    filter (λ time, (now' - time < windowMs)%Z) (default [] (refusalTimes (mkGuard (<[k := recent]> (refusalTimes g)) last) !! k'))
    = call_time <$> recent_calls (history ++ [mkCall k now b]) k' now').
  { intros last b k' now' Hna'. cbn [refusalTimes]. rewrite recent_snoc, fmap_app. cbn [call_key call_time].
    assert (Hle : (now ≤ now')%Z) by (apply (Hna' (mkCall k now b)); set_solver).
    assert (Hna0 : not_after history now') by (intros c Hc; apply Hna'; set_solver).
    destruct (decide (k = k')) as [<-|Hne].
    - rewrite lookup_insert_eq. change (default [] (Some recent)) with recent. unfold recent. rewrite list.filter_app, recent_narrow by done. f_equal.
      rewrite filter_cons, filter_nil. destruct (decide (now' - now < windowMs)%Z);
        [by rewrite decide_True|by rewrite decide_False by tauto].
    - rewrite lookup_insert_ne by done. rewrite (Htimes k' now' Hna0). rewrite decide_False by tauto. by rewrite app_nil_r. }
  destruct (bool_decide (count settings ≤ length recent)) eqn:Hcount; cbn [negb orb] in Hreg.
  - apply bool_decide_eq_true in Hcount. destruct told eqn:Htd; injection Hreg as <- <-.
    + destruct (proj1 Htold eq_refl) as (c & Hc & Hca). split; [|split; [done|]].
      * split; [apply Htimes'|]. intros k'. apply last_known_snoc; [apply Hlast|by left].
      * intros [_ Hall]. by rewrite (Hall c Hc) in Hca.
    + split; [split; [apply Htimes'|]|split; [|done]].
      * intros k'. cbn [lastEscalationAt]. destruct (decide (k = k')) as [<-|Hne].
        -- rewrite lookup_insert_eq. split; [eexists; split; [apply elem_of_app; right; left|done]|].
           intros c [Hc| ->%list_elem_of_singleton]%elem_of_app _ _; [by apply Hna|done].
        -- rewrite lookup_insert_ne by done. apply last_known_snoc; [apply Hlast|by right].
      * intros _. split; [lia|]. intros c Hc. destruct (call_answer c) eqn:Hca; [|done].
        assert (false = true) by (apply Htold; by exists c). done.
  - apply bool_decide_eq_false in Hcount. injection Hreg as <- <-. split; [|split; [done|]].
    + split; [apply Htimes'|]. intros k'. apply last_known_snoc; [apply Hlast|by left].
    + intros [? _]. lia.
Qed.

(** Times that never go back, starting after the history. *)
Inductive in_order : Z → list (key * Z) → Prop :=
  | order_nil before : in_order before []
  | order_cons before k now rest : (before ≤ now)%Z → in_order now rest → in_order before ((k, now) :: rest).

Lemma register_all_right inputs : ∀ g history before,
  remembers g history → answered_right history → not_after history before → in_order before inputs →
  answered_right (register_all g history inputs).2.
Proof.
  induction inputs as [|[k now] inputs IH]; intros g history before Hr Ha Hna Hord; [done|].
  inversion Hord as [|? ? ? ? Hle Hrest]; subst. cbn [register_all].
  assert (Hna' : not_after history now) by (intros c Hc; specialize (Hna c Hc); lia).
  destruct (registerAndShouldEscalate g k now) as [g' answer] eqn:Hreg.
  destruct (register_remembers _ _ _ _ _ _ Hr Hna' Hreg) as [Hr' Hans].
  apply (IH g' _ now); [done|by apply right_snoc| |done].
  intros c [Hc| ->%list_elem_of_singleton]%elem_of_app; [by apply Hna'|simpl; lia].
Qed.

(** The repeat guard implements its contract over every history of refusals whose
    clock does not go back: it asks for an escalation exactly when the session hit the
    same rule [count] times within the window and nothing was said about it within the
    window, so one escalation per window and never one missed. *)
Theorem repeat_guard_correct inputs before :
  in_order before inputs → answered_right (register_all initial [] inputs).2.
Proof.
  intros Hord. apply (register_all_right inputs initial [] before); [|constructor| |done].
  - split; [|intros k]; [by intros k now _|]. unfold initial. cbn [lastEscalationAt]. rewrite lookup_empty.
    by intros c ?%elem_of_nil.
  - by intros c ?%elem_of_nil.
Qed.
End Settings.

Definition sample_inputs : list (key * Z) := [((js "s", js "r"), 0%Z); ((js "s", js "r"), 10%Z); ((js "s", js "r"), 20%Z)].
Lemma repeat_guard_correct_witness :
  answered_right (mkRepeat 2 300) (register_all (mkRepeat 2 300) initial [] sample_inputs).2.
Proof.
  apply (repeat_guard_correct (mkRepeat 2 300) sample_inputs 0).
  repeat (constructor; [lia|]). constructor.
Defined.
End RepeatGuard.

(** ** The fire breaker *)
Module FireBreaker.
Definition MAX_FIRES_PER_MINUTE : nat := 30.
Definition WINDOW_MS : Z := 60000.

Fixpoint shift_expired (now : Z) (startedAt : list Z) : list Z :=
  match startedAt with
  | [] => []
  | t :: rest => if Z.leb WINDOW_MS (now - t) then shift_expired now rest else startedAt
  end.
(** [tryStart()] at a reading of the clock: the times that are left, and the answer. *)
Definition tryStart (startedAt : list Z) (now : Z) : list Z * bool :=
  let live := shift_expired now startedAt in
  if bool_decide (MAX_FIRES_PER_MINUTE ≤ length live) then (live, false) else (live ++ [now], true).

(** The effects started by a sequence of calls, from a state and the effects before. *)
Fixpoint start_all (startedAt started : list Z) (times : list Z) : list Z * list Z :=
  match times with
  | [] => (startedAt, started)
  | now :: rest =>
      let '(startedAt', isStarted) := tryStart startedAt now in
      start_all startedAt' (if isStarted then started ++ [now] else started) rest
  end.

Definition in_window (from : Z) (t : Z) : bool := Z.leb from t && Z.ltb t (from + WINDOW_MS).
Definition started_within (from : Z) (started : list Z) : nat := length (filter (λ t, in_window from t = true) started).
Inductive nondecreasing : Z → list Z → Prop :=
  | nondecreasing_nil before : nondecreasing before []
  | nondecreasing_cons before now rest : (before ≤ now)%Z → nondecreasing now rest → nondecreasing before (now :: rest).

(** The times kept are the end of the history; the dropped ones are a minute old. *)
Record tracks (now : Z) (startedAt started : list Z) : Prop := mkTracks
  { tracks_split : ∃ old, started = old ++ startedAt ∧ ∀ t, t ∈ old → (t ≤ now - WINDOW_MS)%Z;
    tracks_cap : ∀ from, started_within from started ≤ MAX_FIRES_PER_MINUTE }.

Lemma shift_expired_split now startedAt :
  ∃ old, startedAt = old ++ shift_expired now startedAt ∧ ∀ t, t ∈ old → (t ≤ now - WINDOW_MS)%Z.
Proof.
  induction startedAt as [|t rest (old & Hold & Hall)]; simpl; [exists []; split; [done|by intros ? ?%elem_of_nil]|].
  destruct (Z.leb_spec WINDOW_MS (now - t)).
  - exists (t :: old). split; [by rewrite Hold at 1|]. intros x [->|Hx]%elem_of_cons; [lia|auto].
  - exists []. split; [done|by intros ? ?%elem_of_nil].
Qed.

Lemma started_within_app from l1 l2 : started_within from (l1 ++ l2) = started_within from l1 + started_within from l2.
Proof. unfold started_within. by rewrite list.filter_app, length_app. Qed.
Lemma started_within_le from l : started_within from l ≤ length l.
Proof. unfold started_within. apply length_filter. Qed.
Lemma started_within_none from l : (∀ t, t ∈ l → in_window from t = false) → started_within from l = 0.
Proof.
  unfold started_within. induction l as [|t l IH]; intros H; [done|].
  rewrite filter_cons_False by (rewrite (H t); [done|left]). apply IH. intros x Hx. apply H. by right.
Qed.

Lemma tryStart_tracks before now startedAt started startedAt' answer :
  (before ≤ now)%Z → tracks before startedAt started → tryStart startedAt now = (startedAt', answer) →
  tracks now startedAt' (if answer then started ++ [now] else started).
Proof.
  intros Hle [(old & Hsplit & Hold) Hcap] Htry. unfold tryStart in Htry.
  destruct (shift_expired_split now startedAt) as (expired & Hexp & Hexpired).
  set (live := shift_expired now startedAt) in *.
  assert (Hdropped : ∀ t, t ∈ old ++ expired → (t ≤ now - WINDOW_MS)%Z).
  { intros t [Ht|Ht]%elem_of_app; [specialize (Hold t Ht); lia|auto]. }
  assert (Hstarted : started = (old ++ expired) ++ live) by (by rewrite Hsplit, Hexp, app_assoc).
  case_bool_decide as Hfull; injection Htry as <- <-.
  - split; [by exists (old ++ expired)|done].
  - split; [exists (old ++ expired); split; [by rewrite Hstarted, <- app_assoc|done]|].
    intros from. destruct (in_window from now) eqn:Hw.
    + rewrite Hstarted, <- app_assoc, started_within_app, started_within_none.
      * etransitivity; [apply started_within_le|]. rewrite length_app. simpl. lia.
      * intros t Ht%Hdropped. unfold in_window in *. apply andb_true_iff in Hw as [_ Hw%Z.ltb_lt].
        apply andb_false_iff. left. apply Z.leb_gt. lia.
    + rewrite started_within_app, (started_within_none _ [now]); [by rewrite Nat.add_0_r|].
      by intros t ->%list_elem_of_singleton.
Qed.

(** The breaker keeps its cap over every sequence of calls whose clock does not go
    back: no sliding window of a minute, wherever it starts, holds more than thirty
    started effects. *)
Theorem breaker_caps_every_minute times before from :
  nondecreasing before times → started_within from (start_all [] [] times).2 ≤ MAX_FIRES_PER_MINUTE.
Proof.
  intros Hord. assert (Htr : tracks before [] []).
  { split; [exists []; split; [done|by intros ? ?%elem_of_nil]|]. intros f. unfold started_within. simpl. lia. }
  revert Htr Hord. generalize (@nil Z) at 1 3 as startedAt. generalize (@nil Z) as started. revert before.
  induction times as [|now times IH]; intros before started startedAt Htr Hord; [apply Htr|].
  inversion Hord as [|? ? ? Hle Hrest]; subst. cbn [start_all].
  destruct (tryStart startedAt now) as [startedAt' answer] eqn:Htry.
  apply (IH now); [by eapply tryStart_tracks|done].
Qed.
Lemma breaker_caps_every_minute_witness :
  started_within 0 (start_all [] [] (replicate 40 7%Z)).2 ≤ MAX_FIRES_PER_MINUTE.
Proof. apply (breaker_caps_every_minute (replicate 40 7%Z) 7). repeat (constructor; [lia|]). constructor. Defined.

(** The breaker refuses only when it must: with the times in order, a refused call
    means that exactly thirty effects started within the minute before it, so a call
    that fits is never refused. *)
Theorem breaker_refuses_only_when_full startedAt now :
  sorted (λ t, t) startedAt → length startedAt ≤ MAX_FIRES_PER_MINUTE → Forall (λ t, (t ≤ now)%Z) startedAt →
  (tryStart startedAt now).2 = false ↔ length (filter (λ t, (now - t < WINDOW_MS)%Z) startedAt) = MAX_FIRES_PER_MINUTE.
Proof.
  intros Hsort Hlen Hpast.
  assert (Hlive : shift_expired now startedAt = filter (λ t, (now - t < WINDOW_MS)%Z) startedAt).
  { clear Hlen Hpast. induction Hsort as [|t l Ht Hl IH]; simpl; [done|].
    destruct (Z.leb_spec WINDOW_MS (now - t)).
    - rewrite filter_cons_False by lia. done.
    - rewrite filter_cons_True by lia. f_equal. clear -Ht H. induction l as [|u l IHl]; [done|].
      assert (t ≤ u)%Z by (apply Ht; left). rewrite filter_cons_True by lia. f_equal. apply IHl. intros y Hy. apply Ht. by right. }
  unfold tryStart. rewrite Hlive.
  pose proof (length_filter (λ t, (now - t < WINDOW_MS)%Z) startedAt). case_bool_decide; simpl; split; try done; lia.
Qed.
Lemma breaker_refuses_only_when_full_witness :
  (tryStart (replicate 30 7%Z) 9).2 = false ↔ length (filter (λ t, (9 - t < WINDOW_MS)%Z) (replicate 30 7%Z)) = MAX_FIRES_PER_MINUTE.
Proof.
  apply (breaker_refuses_only_when_full (replicate 30 7%Z) 9);
    [|vm_compute; lia|repeat constructor; lia].
  assert (H : ∀ n, sorted (λ t, t) (replicate n 7%Z)).
  { intros n. induction n as [|n IH]; [constructor|]. constructor; [|exact IH]. intros y Hy. apply elem_of_replicate in Hy. lia. }
  apply H.
Defined.
End FireBreaker.

(** ** Once per window *)
Module OncePerWindow.
Section Window.
Variable windowMs : Z.

Definition admits (lastAdmittedAt : gmap str Z) (key : str) (now : Z) : gmap str Z * bool :=
  let isInsideTheWindow := match lastAdmittedAt !! key with
                           | Some last => bool_decide (now - last < windowMs)%Z
                           | None => false
                           end in
  if isInsideTheWindow then (lastAdmittedAt, false) else (<[key := now]> lastAdmittedAt, true).
Definition forget (lastAdmittedAt : gmap str Z) (key : str) : gmap str Z := delete key lastAdmittedAt.

Inductive step := Admit (key : str) (now : Z) | Forget (key : str).
(** The admitted requests of a sequence of calls, oldest first. *)
Fixpoint admitted (m : gmap str Z) (steps : list step) : list (str * Z) :=
  match steps with
  | [] => []
  | Admit key now :: rest =>
      let '(m', answer) := admits m key now in (if answer then [(key, now)] else []) ++ admitted m' rest
  | Forget key :: rest => admitted (forget m key) rest
  end.

Lemma admitted_spaced_from m steps key last t :
  m !! key = Some last → (∀ s, s ∈ steps → s ≠ Forget key) →
  head (filter (λ e : str * Z, e.1 = key) (admitted m steps)) = Some (key, t) → (windowMs ≤ t - last)%Z.
Proof.
  revert m. induction steps as [|[k now|k] steps IH]; intros m Hm Hno; cbn [admitted]; [done| |].
  - assert (Hno' : ∀ s, s ∈ steps → s ≠ Forget key) by (intros s Hs; apply Hno; by right).
    unfold admits. destruct (decide (k = key)) as [->|Hne].
    + rewrite Hm. case_bool_decide as Hin; cbn [app]; [by apply IH|].
      rewrite filter_cons_True by done. intros [= <-]. lia.
    + destruct (match m !! k with Some _ => _ | None => _ end); cbn [app]; [by apply IH|].
      rewrite filter_cons_False by done. apply IH; [by rewrite lookup_insert_ne|done].
  - intros H. apply (IH (forget m k)); [|intros s Hs; apply Hno; by right|done].
    unfold forget. rewrite lookup_delete_ne; [done|]. intros ->. by destruct (Hno (Forget key)); [left|].
Qed.

(** Two requests of the same key that were let through are a full window apart, as
    long as the key was not forgotten between them; other keys never matter. *)
Theorem admitted_requests_are_spaced m key now steps t :
  (admits m key now).2 = true → (∀ s, s ∈ steps → s ≠ Forget key) →
  head (filter (λ e : str * Z, e.1 = key) (admitted (admits m key now).1 steps)) = Some (key, t) → (windowMs ≤ t - now)%Z.
Proof.
  intros Ha Hno. apply admitted_spaced_from; [|done]. unfold admits in *.
  destruct (match m !! key with Some _ => _ | None => _ end); [done|]. simpl. apply lookup_insert_eq.
Qed.
End Window.
Lemma admitted_requests_are_spaced_witness : (1000 ≤ 1500 - 200)%Z.
Proof.
  apply (admitted_requests_are_spaced 1000 ∅ (js "k") 200 [Admit (js "k") 900; Admit (js "z") 1000; Admit (js "k") 1500] 1500);
    [reflexivity| |vm_compute; reflexivity].
  intros s Hs ->. rewrite !elem_of_cons in Hs. by destruct Hs as [?|[?|[?|?%elem_of_nil]]].
Defined.
End OncePerWindow.
