(* ===== verification/Tickets.v ===== *)
(** * Single-use credentials

    Models of [packages/core/src/api/wsTicketStore.ts] and
    [packages/core/src/secrets/nonceLedger.ts].  A JavaScript [Map] is the list of its
    entries in insertion order; every reading of a clock is an argument. *)
From S2P Require Import Prelude JsText PolicyTypes.


(** ** WebSocket tickets *)
Module WsTickets.
Section Store.
Variable ttlMs : Z.
Variable maxOutstanding : nat.

Definition sweepExpired (now : Z) (m : rec Z) : rec Z := filter (λ e : str * Z, (now < e.2)%Z) m.
Definition evict_step (m : rec Z) : rec Z + rec Z :=
  if bool_decide (maxOutstanding ≤ length m) then inl (drop 1 m) else inr m.
Definition evictOldest (m : rec Z) : rec Z := run_loop evict_step (S (length m)) m m.
Definition issue (m : rec Z) (sweepTime issueTime : Z) (ticket : str) : rec Z :=
  put (evictOldest (sweepExpired sweepTime m)) ticket (issueTime + ttlMs)%Z.
Definition consume (m : rec Z) (now : Z) (ticket : str) : rec Z * bool :=
  (del m ticket, match get m ticket with Some expiresAt => bool_decide (now < expiresAt)%Z | None => false end).
Definition size (m : rec Z) : nat := length m.

Inductive operation := Issue (sweepTime issueTime : Z) (ticket : str) | Consume (now : Z) (ticket : str).
Definition apply_operation (m : rec Z) (o : operation) : rec Z :=
  match o with Issue s t ticket => issue m s t ticket | Consume now ticket => (consume m now ticket).1 end.
Definition apply_all (m : rec Z) (os : list operation) : rec Z := fold_left apply_operation os m.

Hypothesis capacity : 0 < maxOutstanding.

Lemma evict_loop m fuel : length m < fuel →
  ∃ n, loop evict_step fuel m = Some (drop n m) ∧ length (drop n m) < maxOutstanding.
Proof.
  revert m. induction fuel as [|fuel IH]; intros m Hlen; [lia|]. cbn [loop]. unfold evict_step at 1.
  case_bool_decide as Hfull; [|exists 0; rewrite drop_0; split; [done|lia]].
  destruct m as [|e m]; simpl in Hfull; [lia|]. simpl drop. rewrite drop_0.
  destruct (IH m) as (n & Hn & Hle); [simpl in Hlen; lia|]. by exists (S n).
Qed.
Lemma evictOldest_spec m : ∃ n, evictOldest m = drop n m ∧ length (drop n m) < maxOutstanding.
Proof.
  destruct (evict_loop m (S (length m))) as (n & Hn & Hle); [lia|]. exists n. unfold evictOldest, run_loop. by rewrite Hn.
Qed.

(** Issuing a ticket terminates and the store stays bounded: whatever sequence of
    operations, no more than [maxOutstanding] tickets are outstanding. *)
Theorem ticket_store_is_bounded m os :
  length m ≤ maxOutstanding →
  (∀ m', is_Some (loop evict_step (S (length m')) m')) ∧ size (apply_all m os) ≤ maxOutstanding.
Proof.
  intros Hm. split.
  - intros m'. destruct (evict_loop m' (S (length m'))) as (n & Hn & _); [lia|by eexists].
  - unfold size, apply_all. revert m Hm. induction os as [|o os IH]; intros m Hm; simpl; [done|]. apply IH.
    destruct o as [s t ticket|now ticket]; simpl.
    + unfold issue. destruct (evictOldest_spec (sweepExpired s m)) as (n & -> & Hlt).
      pose proof (put_length (drop n (sweepExpired s m)) ticket (t + ttlMs)%Z). lia.
    + unfold del. pose proof (length_filter (λ e : str * Z, e.1 ≠ ticket) m). lia.
Qed.

(** A ticket not issued stays absent. *)
Lemma absent_stays_absent m os ticket :
  get m ticket = None → Forall (λ o, ∀ s t, o ≠ Issue s t ticket) os → get (apply_all m os) ticket = None.
Proof.
  unfold apply_all. intros Hm Hos. revert m Hm. induction Hos as [|o os Ho _ IH]; intros m Hm; simpl; [done|]. apply IH.
  assert (Hsub : ∀ m', (∀ e, e ∈ m' → e ∈ m) → get m' ticket = None).
  { intros m' Hin. destruct (get m' ticket) as [v|] eqn:Hg; [|done]. exfalso.
    apply get_key, list_elem_of_fmap in Hg as (e & -> & He%Hin).
    assert (Hk : has_own m e.1 = true) by (apply has_own_keys, list_elem_of_fmap; by exists e).
    apply has_own_get in Hk as [? Hk]. congruence. }
  destruct o as [s t other|now other]; simpl.
  - unfold issue. rewrite get_put. destruct (str_eqb other ticket) eqn:Hk.
    { apply str_eqb_eq in Hk as ->. by destruct (Ho s t). }
    apply Hsub. destruct (evictOldest_spec (sweepExpired s m)) as (n & -> & _). intros e He.
    apply (list_elem_of_filter (λ e : str * Z, (s < e.2)%Z)). fold (sweepExpired s m).
    rewrite <- (take_drop n (sweepExpired s m)). apply elem_of_app. by right.
  - apply Hsub. intros e [_ He]%list_elem_of_filter. done.
Qed.

(** A ticket opens at most one connection: once it was presented, whether or not it
    was accepted, every later presentation is refused until the same token is issued
    again; a presentation is accepted exactly when the ticket is known and not expired. *)
Theorem ticket_is_single_use m now ticket os later :
  Forall (λ o, ∀ s t, o ≠ Issue s t ticket) os →
  (consume (apply_all (consume m now ticket).1 os) later ticket).2 = false ∧
  ((consume m now ticket).2 = true ↔ ∃ expiresAt, get m ticket = Some expiresAt ∧ (now < expiresAt)%Z).
Proof.
  intros Hos. split.
  - unfold consume at 1. cbn [snd]. rewrite absent_stays_absent; [done| |done]. apply get_del_eq.
  - unfold consume. cbn [snd]. destruct (get m ticket) as [e|]; [|naive_solver]. rewrite bool_decide_eq_true. naive_solver.
Qed.
End Store.
Lemma ticket_store_is_bounded_witness :
  size (apply_all 30000 2 [] [Issue 0 0 (js "a"); Issue 1 1 (js "b"); Issue 2 2 (js "c")]) ≤ 2.
Proof. apply (ticket_store_is_bounded 30000 2); [lia|simpl; lia]. Defined.
Lemma ticket_is_single_use_witness :
  (consume (apply_all 30000 2 (consume [(js "a", 30000%Z)] 5 (js "a")).1 [Issue 1 1 (js "b")]) 6 (js "a")).2 = false.
Proof. apply (ticket_is_single_use 30000 2); [lia|]. constructor; [intros s t E; discriminate E|constructor]. Defined.
End WsTickets.

(** ** Operator nonces *)
Module Nonces.
Definition NONCE_LIFETIME_MS : Z := 30000.
Definition MAX_LIVE_NONCES : nat := 16.
Definition MIN_REGISTERED_NONCE_CHARS : nat := 16.
Definition MAX_REGISTERED_NONCE_CHARS : nat := 128.
Definition NONCE_CHARACTERS (s : str) : bool :=
  negb (bool_decide (s = [])) && forallb (λ c, is_alnum c || N.eqb c (chr "_") || N.eqb c (chr "-")) s.

Inductive OperatorAction := SetSecret | ClearSecret | ArmTrigger.
#[export] Instance OperatorAction_eq_dec : EqDecision OperatorAction.
Proof. solve_decision. Defined.
(** [bindingKeyOf] is the JSON text of the four fields, one to one: the record is the key. *)
Record OperatorBinding := mkBinding { action : OperatorAction; scopeKind : str; scopeId : str; bindingName : str }.
#[export] Instance OperatorBinding_eq_dec : EqDecision OperatorBinding.
Proof. solve_decision. Defined.
Record live := mkLive { expiresAt : Z; bindingKey : OperatorBinding }.

(** [reading nonce] is the clock when the entry of [nonce] is examined. *)
Definition dropExpired (reading : str → Z) (m : rec live) : rec live :=
  filter (λ e : str * live, ¬ (expiresAt e.2 ≤ reading e.1)%Z) m.
Definition dropOldestBeyondTheCap (m : rec live) : rec live :=
  let dropped := (take (length m - MAX_LIVE_NONCES) m).*1 in
  fold_left del dropped m.

Definition isWellFormed (nonce : str) : bool :=
  bool_decide (MIN_REGISTERED_NONCE_CHARS ≤ length nonce) && bool_decide (length nonce ≤ MAX_REGISTERED_NONCE_CHARS)
  && NONCE_CHARACTERS nonce.
Definition register (m : rec live) (reading : str → Z) (now : Z) (nonce : str) (binding : OperatorBinding) : rec live * bool :=
  if negb (isWellFormed nonce) then (m, false)
  else (dropOldestBeyondTheCap (put (dropExpired reading m) nonce (mkLive (now + NONCE_LIFETIME_MS)%Z binding)), true).
Definition redeem (m : rec live) (now : Z) (nonce : str) (binding : OperatorBinding) : rec live * bool :=
  match get m nonce with
  | None => (m, false)
  | Some l => (del m nonce, bool_decide (bindingKey l = binding) && bool_decide (now < expiresAt l)%Z)
  end.

(** What happened to one nonce: the calls that named it, in order, with their times. *)
Inductive call :=
  | Register (reading : str → Z) (now : Z) (nonce : str) (binding : OperatorBinding)
  | Redeem (now : Z) (nonce : str) (binding : OperatorBinding).
Definition apply_call (m : rec live) (c : call) : rec live :=
  match c with
  | Register reading now nonce binding => (register m reading now nonce binding).1
  | Redeem now nonce binding => (redeem m now nonce binding).1
  end.
Definition apply_calls (m : rec live) (cs : list call) : rec live := fold_left apply_call cs m.

(** Every live entry goes back to a registration of the nonce with that binding, after
    which nothing redeemed it. *)
Definition minted (history : list call) (nonce : str) (l : live) : Prop :=
  ∃ before reading now after,
    history = before ++ Register reading now nonce (bindingKey l) :: after ∧
    isWellFormed nonce = true ∧ expiresAt l = (now + NONCE_LIFETIME_MS)%Z ∧
    ∀ t b, Redeem t nonce b ∉ after.
Definition justified (history : list call) (m : rec live) : Prop :=
  NoDup m.*1 ∧ ∀ nonce l, get m nonce = Some l → minted history nonce l.

Lemma fold_del_filter (ks : list str) (m : rec live) : fold_left del ks m = filter (λ e : str * live, e.1 ∉ ks) m.
Proof.
  revert m. induction ks as [|k ks IH]; intros m; cbn [fold_left].
  - induction m as [|e m IHm]; [done|]. rewrite filter_cons_True by set_solver. by rewrite <- IHm.
  - rewrite IH. unfold del. rewrite list_filter_filter. apply list_filter_iff. intros e. rewrite not_elem_of_cons. tauto.
Qed.

Lemma minted_snoc history c nonce l : minted history nonce l → (∀ t b, c ≠ Redeem t nonce b) → minted (history ++ [c]) nonce l.
Proof.
  intros (before & reading & now & after & -> & Hw & He & Hno) Hc.
  exists before, reading, now, (after ++ [c]). split_and!; try done; [by rewrite <- app_assoc|].
  intros t b. rewrite not_elem_of_app. split; [done|]. intros E%list_elem_of_singleton. by destruct (Hc t b).
Qed.

Lemma register_justified history m reading now nonce binding :
  justified history m → justified (history ++ [Register reading now nonce binding]) (register m reading now nonce binding).1.
Proof.
  intros [Hnd Hj]. unfold register. destruct (isWellFormed nonce) eqn:Hw; cbn [negb fst].
  - unfold dropOldestBeyondTheCap. rewrite fold_del_filter.
    assert (Hnd' : NoDup (put (dropExpired reading m) nonce (mkLive (now + NONCE_LIFETIME_MS)%Z binding)).*1).
    { apply put_keys_NoDup. by apply del_keys_NoDup. }
    split; [by apply del_keys_NoDup|]. intros k l Hg. apply get_filter_Some in Hg as [Hg _]; [|done].
    rewrite get_put in Hg. destruct (str_eqb nonce k) eqn:Hk.
    + apply str_eqb_eq in Hk as <-. injection Hg as <-. exists history, reading, now, [].
      split_and!; try done. by intros t b ?%elem_of_nil.
    + apply get_filter_Some in Hg as [Hg _]; [|done]. apply minted_snoc; [by apply Hj|done].
  - split; [done|]. intros k l Hg. apply minted_snoc; [by apply Hj|done].
Qed.

Lemma redeem_justified history m now nonce binding :
  justified history m → justified (history ++ [Redeem now nonce binding]) (redeem m now nonce binding).1.
Proof.
  intros [Hnd Hj]. unfold redeem. destruct (get m nonce) as [l0|] eqn:Hg0; cbn [fst].
  - split; [by apply del_keys_NoDup|]. intros k l Hg. apply get_filter_Some in Hg as [Hg Hk]; [|done]. simpl in Hk.
    apply minted_snoc; [by apply Hj|]. intros t b [= -> -> ->]. done.
  - split; [done|]. intros k l Hg. apply minted_snoc; [by apply Hj|]. intros t b [= -> -> ->]. congruence.
Qed.

Lemma calls_justified cs : justified cs (apply_calls [] cs).
Proof.
  induction cs as [|c cs IH] using rev_ind; [split; [constructor|done]|].
  unfold apply_calls in *. rewrite fold_left_app. cbn [fold_left].
  destruct c; [by apply register_justified|by apply redeem_justified].
Qed.

(** An operator nonce authorises exactly what it was minted for, once, in time: a
    redeemed nonce was registered well-formed with that very binding, nothing presented
    it since, and its thirty seconds are not over; afterwards it is gone. *)
Theorem nonce_redeemed_only_as_minted cs now nonce binding :
  (redeem (apply_calls [] cs) now nonce binding).2 = true →
  (∃ before reading registered after,
     cs = before ++ Register reading registered nonce binding :: after ∧ isWellFormed nonce = true ∧
     (now < registered + NONCE_LIFETIME_MS)%Z ∧ ∀ t b, Redeem t nonce b ∉ after) ∧
  get (redeem (apply_calls [] cs) now nonce binding).1 nonce = None.
Proof.
  destruct (calls_justified cs) as [_ Hj]. unfold redeem. destruct (get (apply_calls [] cs) nonce) as [l|] eqn:Hg; [|done].
  cbn [fst snd]. intros [Hb%bool_decide_eq_true Ht%bool_decide_eq_true]%andb_true_iff.
  split; [|apply get_del_eq]. destruct (Hj _ _ Hg) as (before & reading & t0 & after & -> & Hw & He & Hno). subst binding.
  exists before, reading, t0, after. split_and!; try done. lia.
Qed.

Definition sample_nonce : str := js "abcdefghijklmnop".
Definition sample_binding : OperatorBinding := mkBinding SetSecret (js "project") (js "p1") (js "TOKEN").
Lemma nonce_redeemed_only_as_minted_witness :
  get (redeem (apply_calls [] [Register (λ _, 0%Z) 0 sample_nonce sample_binding]) 10 sample_nonce sample_binding).1 sample_nonce = None.
Proof.
  apply (nonce_redeemed_only_as_minted [Register (λ _, 0%Z) 0 sample_nonce sample_binding] 10 sample_nonce sample_binding).
  vm_compute. reflexivity.
Defined.
End Nonces.
