(* ===== verification/JsDate.v ===== *)
(** * Dates

    The proleptic Gregorian calendar of the language: [Date.UTC] and the UTC
    getters of a [Date], on integral milliseconds since 1970 and inside the
    range of a [Date] (about 273,790 years around 1970). *)
From S2P Require Import Prelude.
Open Scope Z_scope.

Definition MS_PER_DAY : Z := 86400000.

Definition DayFromYear (y : Z) : Z := 365 * (y - 1970) + (y - 1969) / 4 - (y - 1901) / 100 + (y - 1601) / 400.
Definition is_leap (y : Z) : bool := (Z.eqb (y mod 4) 0 && negb (Z.eqb (y mod 100) 0)) || Z.eqb (y mod 400) 0.
Definition DaysInYear (y : Z) : Z := if is_leap y then 366 else 365.

(** The year a day belongs to: an estimate by the mean length of a year, off by at most one. *)
Definition YearFromDay (d : Z) : Z :=
  let y := 1970 + d * 400 / 146097 in
  if Z.ltb d (DayFromYear y) then y - 1 else if Z.leb (DayFromYear (y + 1)) d then y + 1 else y.

(** The first day of a month (numbered from 0) within its year. *)
Definition MonthStart (leap : bool) (m : Z) : Z :=
  match m with
  | 0 => 0 | 1 => 31 | 2 => 59 | 3 => 90 | 4 => 120 | 5 => 151 | 6 => 181 | 7 => 212 | 8 => 243 | 9 => 273 | 10 => 304 | 11 => 334 | _ => 365
  end + (if leap && Z.leb 2 m then 1 else 0).
Definition DaysInMonth (leap : bool) (m : Z) : Z := MonthStart leap (m + 1) - MonthStart leap m.

Fixpoint month_search (leap : bool) (dayInYear : Z) (candidates : list Z) : Z :=
  match candidates with
  | [] => 0
  | m :: ms => if Z.leb (MonthStart leap m) dayInYear then m else month_search leap dayInYear ms
  end.
Definition MonthInYear (leap : bool) (dayInYear : Z) : Z := month_search leap dayInYear [11; 10; 9; 8; 7; 6; 5; 4; 3; 2; 1; 0].

(** [Date.UTC(year, month, date, hours, minutes)] with the month numbered from 0; a year from 0 to 99 is one of the 1900s. *)
Definition MakeDay (year month date : Z) : Z :=
  let y := year + month / 12 in
  DayFromYear y + MonthStart (is_leap y) (month mod 12) + date - 1.
Definition full_year (year : Z) : Z := if Z.leb 0 year && Z.leb year 99 then 1900 + year else year.
Definition UTC (year month date hour minute : Z) : Z :=
  MakeDay (full_year year) month date * MS_PER_DAY + hour * 3600000 + minute * 60000.

(** The UTC getters; the month is numbered from 0 and a week starts on Sunday. *)
Definition dayOf (ms : Z) : Z := ms / MS_PER_DAY.
Definition getUTCFullYear (ms : Z) : Z := YearFromDay (dayOf ms).
Definition dayInYear (d : Z) : Z := d - DayFromYear (YearFromDay d).
Definition getUTCMonth (ms : Z) : Z := MonthInYear (is_leap (getUTCFullYear ms)) (dayInYear (dayOf ms)).
Definition getUTCDate (ms : Z) : Z := dayInYear (dayOf ms) - MonthStart (is_leap (getUTCFullYear ms)) (getUTCMonth ms) + 1.
Definition getUTCHours (ms : Z) : Z := ms mod MS_PER_DAY / 3600000.
Definition getUTCMinutes (ms : Z) : Z := ms mod 3600000 / 60000.
Definition getUTCDay (ms : Z) : Z := (dayOf ms + 4) mod 7.

Example leap_day_of_2004 : (UTC 2004 1 29 0 0, getUTCDay (UTC 2004 1 29 0 0)) = (1078012800000, 0).
Proof. vm_compute. reflexivity. Qed.

(** ** Round trips *)
Lemma DayFromYear_succ y : DayFromYear (y + 1) = DayFromYear y + DaysInYear y.
Proof.
  unfold DayFromYear, DaysInYear, is_leap.
  destruct (Z.eqb_spec (y mod 4) 0), (Z.eqb_spec (y mod 100) 0), (Z.eqb_spec (y mod 400) 0); simpl; div_lia.
Qed.
Lemma YearFromDay_spec d : DayFromYear (YearFromDay d) ≤ d < DayFromYear (YearFromDay d + 1).
Proof.
  unfold YearFromDay. set (y := 1970 + d * 400 / 146097).
  assert (DayFromYear (y - 1) ≤ d < DayFromYear (y + 2)) as H by (unfold DayFromYear, y; div_lia).
  destruct (Z.ltb_spec d (DayFromYear y)) as [|Hlo]; [replace (y - 1 + 1) with y by lia; lia|].
  destruct (Z.leb_spec (DayFromYear (y + 1)) d) as [|Hhi]; [replace (y + 1 + 1) with (y + 2) by lia; lia|lia].
Qed.
Lemma DayFromYear_mono y z : y ≤ z → DayFromYear y ≤ DayFromYear z.
Proof. intros H. unfold DayFromYear. div_lia. Qed.
Lemma YearFromDay_unique d y : DayFromYear y ≤ d < DayFromYear (y + 1) → YearFromDay d = y.
Proof.
  intros H. pose proof (YearFromDay_spec d) as Hs.
  destruct (Z.lt_trichotomy (YearFromDay d) y) as [Hlt|[->|Hgt]]; [|done|].
  - pose proof (DayFromYear_mono (YearFromDay d + 1) y ltac:(lia)). lia.
  - pose proof (DayFromYear_mono (y + 1) (YearFromDay d) ltac:(lia)). lia.
Qed.
Lemma dayInYear_bounds d : 0 ≤ dayInYear d < DaysInYear (YearFromDay d).
Proof. unfold dayInYear. pose proof (YearFromDay_spec d). rewrite DayFromYear_succ in *. lia. Qed.

Lemma MonthInYear_spec (leap : bool) (n : Z) :
  0 ≤ n < (if leap then 366 else 365) →
  0 ≤ MonthInYear leap n ≤ 11 ∧ MonthStart leap (MonthInYear leap n) ≤ n < MonthStart leap (MonthInYear leap n + 1).
Proof.
  intros Hn. unfold MonthInYear, month_search.
  repeat match goal with |- context [Z.leb (MonthStart leap ?m) n] => destruct (Z.leb_spec (MonthStart leap m) n) end;
    unfold MonthStart in *; destruct leap; simpl in *; lia.
Qed.
Lemma month_bounds ms : 0 ≤ getUTCMonth ms ≤ 11.
Proof. apply MonthInYear_spec, dayInYear_bounds. Qed.
Lemma date_bounds ms : 1 ≤ getUTCDate ms ≤ DaysInMonth (is_leap (getUTCFullYear ms)) (getUTCMonth ms).
Proof.
  pose proof (MonthInYear_spec _ _ (dayInYear_bounds (dayOf ms))) as [_ H]. unfold getUTCDate, DaysInMonth, getUTCMonth, getUTCFullYear in *. lia.
Qed.
Lemma weekday_bounds ms : 0 ≤ getUTCDay ms ≤ 6.
Proof. unfold getUTCDay. pose proof (Z.mod_pos_bound (dayOf ms + 4) 7). lia. Qed.

Lemma MakeDay_of_fields ms : MakeDay (getUTCFullYear ms) (getUTCMonth ms) (getUTCDate ms) = dayOf ms.
Proof.
  unfold MakeDay. pose proof (month_bounds ms). rewrite Z.div_small, Z.mod_small, Z.add_0_r by lia.
  unfold getUTCDate, dayInYear, getUTCFullYear. lia.
Qed.
(** A year the code reads back as it was written. *)
Definition ordinary_year (y : Z) : Prop := y < 0 ∨ 99 < y.
Lemma full_year_ordinary y : ordinary_year y → full_year y = y.
Proof. unfold ordinary_year, full_year. intros H. destruct (Z.leb_spec 0 y), (Z.leb_spec y 99); simpl; lia. Qed.
Lemma UTC_of_day ms hour minute :
  ordinary_year (getUTCFullYear ms) →
  UTC (getUTCFullYear ms) (getUTCMonth ms) (getUTCDate ms) hour minute = dayOf ms * MS_PER_DAY + hour * 3600000 + minute * 60000.
Proof. intros H. unfold UTC. by rewrite full_year_ordinary, MakeDay_of_fields. Qed.
Lemma UTC_of_fields ms :
  ordinary_year (getUTCFullYear ms) →
  UTC (getUTCFullYear ms) (getUTCMonth ms) (getUTCDate ms) (getUTCHours ms) (getUTCMinutes ms) = ms - ms mod 60000.
Proof.
  intros H. rewrite UTC_of_day by done. unfold dayOf, getUTCHours, getUTCMinutes, MS_PER_DAY. div_lia.
Qed.

(** The fields of an instant whose day and time of day are known. *)
Lemma dayOf_compose d r : 0 ≤ r < MS_PER_DAY → dayOf (d * MS_PER_DAY + r) = d.
Proof. unfold dayOf. intros H. rewrite Z.div_add_l by done. rewrite Z.div_small; lia. Qed.
Lemma hours_compose d h m : 0 ≤ h ≤ 23 → 0 ≤ m ≤ 59 → getUTCHours (d * MS_PER_DAY + h * 3600000 + m * 60000) = h.
Proof. unfold getUTCHours, MS_PER_DAY. intros. div_lia. Qed.
Lemma minutes_compose d h m : 0 ≤ h ≤ 23 → 0 ≤ m ≤ 59 → getUTCMinutes (d * MS_PER_DAY + h * 3600000 + m * 60000) = m.
Proof. unfold getUTCMinutes, MS_PER_DAY. intros. div_lia. Qed.
Lemma same_day_fields a b :
  dayOf a = dayOf b → getUTCFullYear a = getUTCFullYear b ∧ getUTCMonth a = getUTCMonth b ∧ getUTCDate a = getUTCDate b ∧ getUTCDay a = getUTCDay b.
Proof. intros H. unfold getUTCDate, getUTCMonth, getUTCDay, getUTCFullYear. by rewrite H. Qed.

(** Every instant from the year 100 on has an ordinary year. *)
Definition FIRST_ORDINARY_MS : Z := DayFromYear 100 * MS_PER_DAY.
Lemma ordinary_from ms : FIRST_ORDINARY_MS ≤ ms → ordinary_year (getUTCFullYear ms).
Proof.
  unfold FIRST_ORDINARY_MS. intros H. right. unfold getUTCFullYear. pose proof (YearFromDay_spec (dayOf ms)) as Hs.
  assert (DayFromYear 100 ≤ dayOf ms). { unfold dayOf. apply Z.div_le_lower_bound; unfold MS_PER_DAY in *; lia. }
  destruct (Z.leb_spec (YearFromDay (dayOf ms)) 99) as [Hle|]; [|lia].
  pose proof (DayFromYear_mono (YearFromDay (dayOf ms) + 1) 100 ltac:(lia)). lia.
Qed.
