(* ===== verification/CronExpression.v ===== *)
(** * Cron expressions: [shared/src/cronExpression.ts]

    The parser of five-field expressions and the test of a day against a
    schedule.  A set of numbers is a [gset Z].  [Number] of a run of digits is
    exact here; the code rounds beyond 2^53, far above every bound it compares
    with, so both refuse the same tokens. *)
From S2P Require Import Prelude JsText Regex.
Open Scope Z_scope.

Definition MAX_CRON_EXPRESSION_CHARS : nat := 100.

Record CronSchedule := mkSchedule
  { minutes : gset Z; hours : gset Z; daysOfMonth : gset Z; months : gset Z; daysOfWeek : gset Z;
    isDayOfMonthWildcard : bool; isDayOfWeekWildcard : bool }.
Record CivilDay := mkDay { month : Z; dayOfMonth : Z; weekday : Z }.
Record FieldSpec := mkSpec { specMin : Z; specMax : Z; names : list str; firstNameValue : Z }.

Definition MINUTE : FieldSpec := mkSpec 0 59 [] 0.
Definition HOUR : FieldSpec := mkSpec 0 23 [] 0.
Definition DAY_OF_MONTH : FieldSpec := mkSpec 1 31 [] 0.
Definition MONTH : FieldSpec :=
  mkSpec 1 12 [js "JAN"; js "FEB"; js "MAR"; js "APR"; js "MAY"; js "JUN"; js "JUL"; js "AUG"; js "SEP"; js "OCT"; js "NOV"; js "DEC"] 1.
Definition DAY_OF_WEEK : FieldSpec :=
  mkSpec 0 7 [js "SUN"; js "MON"; js "TUE"; js "WED"; js "THU"; js "FRI"; js "SAT"] 0.
Definition LONGEST_MONTH_DAYS : list Z := [31; 29; 31; 30; 31; 30; 31; 31; 30; 31; 30; 31].

Definition FIELD_CHARACTERS (field : str) : bool :=
  negb (bool_decide (field = [])) && forallb (λ c, is_alnum c || one_of (js "*,/-") c) field.

(** [names.indexOf(token)]; a spec without names has the empty list. *)
Fixpoint name_index (token : str) (l : list str) (i : Z) : option Z :=
  match l with
  | [] => None
  | n :: l' => if str_eqb n token then Some i else name_index token l' (i + 1)
  end.
Definition valueOf (token : str) (spec : FieldSpec) : option Z :=
  if all_digits token then Some (Z.of_N (Number_of token))
  else name_index (toUpperCase token) (names spec) (firstNameValue spec).

Definition rangeOf (base : str) (spec : FieldSpec) : option (Z * Z) :=
  if str_eqb base (js "*") then Some (specMin spec, specMax spec)
  else
    let bounds := match split_on (chr "-") base with
                  | [first] => v ← valueOf first spec; Some (v, v)
                  | [first; last] => from ← valueOf first spec; to ← valueOf last spec; Some (from, to)
                  | _ => None
                  end in
    '(from, to) ← bounds;
    if Z.leb (specMin spec) from && Z.leb to (specMax spec) && Z.leb from to then Some (from, to) else None.

(** [for (let value = from; value <= to; value += step) values.push(value)] *)
Fixpoint values_from (fuel : nat) (value to step : Z) : list Z :=
  match fuel with
  | O => []
  | S n => if Z.leb value to then value :: values_from n (value + step) to step else []
  end.
Definition values_between (from to step : Z) : list Z := values_from (Z.to_nat (to - from + 1)) from to step.

Definition itemValuesOf (item : str) (spec : FieldSpec) : option (list Z) :=
  let parsed := match split_on (chr "/") item with
                | [base] => Some (base, None)
                | [base; stepText] => Some (base, Some stepText)
                | _ => None
                end in
  '(base, stepText) ← parsed;
  if str_eqb base [] then None
  else
    let step := match stepText with
                | None => 1
                | Some t => if all_digits t then Z.of_N (Number_of t) else 0
                end in
    let span := specMax spec - specMin spec + 1 in
    let isStepSound := Z.leb 1 step && Z.leb step span in
    '(from, to) ← rangeOf base spec;
    let isSingleValueWithStep := bool_decide (is_Some stepText) && negb (mem_chr (chr "-") base) && negb (str_eqb base (js "*")) in
    if isStepSound then Some (values_between from (if isSingleValueWithStep then specMax spec else to) step) else None.

(** The loop over the items of a field; [None] is the early return. *)
Fixpoint add_items (spec : FieldSpec) (values : gset Z) (items : list str) : option (gset Z) :=
  match items with
  | [] => Some values
  | item :: items' => itemValues ← itemValuesOf item spec; add_items spec (values ∪ list_to_set itemValues) items'
  end.
Definition fieldValuesOf (field : str) (spec : FieldSpec) : option (gset Z) :=
  if FIELD_CHARACTERS field then add_items spec ∅ (split_on (chr ",") field) else None.

Definition isWildcard (field : str) : bool := startsWith field (js "*").
Definition withQuestionMarksAsStars (expression : str) : str := (λ c, if N.eqb c (chr "?") then chr "*" else c) <$> expression.

(** [months] holds numbers from 1 to 12; another index would read [undefined], against which no comparison holds. *)
Definition longestMonth (m : Z) : option Z := if Z.leb 1 m then LONGEST_MONTH_DAYS !! Z.to_nat (m - 1) else None.
Definition daysOfMonthEverExist (days ms : gset Z) : bool :=
  existsb (λ m, existsb (λ d, match longestMonth m with Some n => Z.leb d n | None => false end) (elements days)) (elements ms).

Definition cronScheduleOf (expression : str) : option CronSchedule :=
  if bool_decide (MAX_CRON_EXPRESSION_CHARS < length expression)%nat then None
  else
    match split_spaces false (trim (withQuestionMarksAsStars expression)) with
    | [minuteField; hourField; dayOfMonthField; monthField; dayOfWeekField] =>
        minutes ← fieldValuesOf minuteField MINUTE;
        hours ← fieldValuesOf hourField HOUR;
        daysOfMonth ← fieldValuesOf dayOfMonthField DAY_OF_MONTH;
        months ← fieldValuesOf monthField MONTH;
        weekdays ← fieldValuesOf dayOfWeekField DAY_OF_WEEK;
        let daysOfWeek : gset Z := set_map (λ day, day mod 7) weekdays in
        let isDayOfMonthWildcard := isWildcard dayOfMonthField in
        let isDayOfWeekWildcard := isWildcard dayOfWeekField in
        let onlyDaysOfMonthDecide := negb isDayOfMonthWildcard && isDayOfWeekWildcard in
        if onlyDaysOfMonthDecide && negb (daysOfMonthEverExist daysOfMonth months) then None
        else Some (mkSchedule minutes hours daysOfMonth months daysOfWeek isDayOfMonthWildcard isDayOfWeekWildcard)
    | _ => None
    end.

Definition daySatisfies (schedule : CronSchedule) (day : CivilDay) : bool :=
  if negb (bool_decide (month day ∈ months schedule)) then false
  else
    let matchesDayOfMonth := bool_decide (dayOfMonth day ∈ daysOfMonth schedule) in
    let matchesDayOfWeek := bool_decide (weekday day ∈ daysOfWeek schedule) in
    let bothAreRestricted := negb (isDayOfMonthWildcard schedule) && negb (isDayOfWeekWildcard schedule) in
    if bothAreRestricted then matchesDayOfMonth || matchesDayOfWeek else matchesDayOfMonth && matchesDayOfWeek.

(** Worked examples. *)
Example every_quarter :
  (λ s, (elements (minutes s), size (hours s))) <$> cronScheduleOf (js "*/15 * * * *") = Some (elements (list_to_set [0; 15; 30; 45] : gset Z), 24%nat).
Proof. vm_compute. reflexivity. Qed.
Example thirtieth_of_february : cronScheduleOf (js "0 0 30 FEB ?") = None.
Proof. vm_compute. reflexivity. Qed.
Example weekdays_by_name :
  (λ s, elements (daysOfWeek s)) <$> cronScheduleOf (js "0 9 * * mon-fri,7") = (λ s : gset Z, elements s) <$> Some (list_to_set [0;1;2;3;4;5]).
Proof. vm_compute. reflexivity. Qed.

(** ** What a field denotes

    The grammar of one comma-separated item, as a relation between its text and
    the arithmetic progression [lo, lo + step, ...] up to [hi]. *)
Inductive value_text (spec : FieldSpec) (token : str) : Z → Prop :=
  | value_number : all_digits token = true → value_text spec token (Z.of_N (Number_of token))
  | value_name i : all_digits token = false → names spec !! i = Some (toUpperCase token) →
      (∀ j, (j < i)%nat → names spec !! j ≠ Some (toUpperCase token)) → value_text spec token (firstNameValue spec + Z.of_nat i).
Inductive range_text (spec : FieldSpec) : bool → str → Z → Z → Prop :=
  | range_star : range_text spec false (js "*") (specMin spec) (specMax spec)
  | range_single t v : t ≠ js "*" → chr "-" ∉ t → value_text spec t v → specMin spec ≤ v ≤ specMax spec → range_text spec true t v v
  | range_two a b lo hi : chr "-" ∉ a → chr "-" ∉ b → value_text spec a lo → value_text spec b hi →
      specMin spec ≤ lo → lo ≤ hi → hi ≤ specMax spec → range_text spec false (a ++ [chr "-"] ++ b) lo hi.
Inductive item_text (spec : FieldSpec) : str → Z → Z → Z → Prop :=
  | item_plain single base lo hi : base ≠ [] → chr "/" ∉ base → range_text spec single base lo hi → specMin spec ≤ specMax spec → item_text spec base lo hi 1
  | item_stepped base n lo hi : base ≠ [] → chr "/" ∉ base → chr "/" ∉ n → range_text spec false base lo hi → all_digits n = true →
      1 ≤ Z.of_N (Number_of n) ≤ specMax spec - specMin spec + 1 → item_text spec (base ++ [chr "/"] ++ n) lo hi (Z.of_N (Number_of n))
  | item_open base n v : base ≠ [] → chr "/" ∉ base → chr "/" ∉ n → range_text spec true base v v → all_digits n = true →
      1 ≤ Z.of_N (Number_of n) ≤ specMax spec - specMin spec + 1 → item_text spec (base ++ [chr "/"] ++ n) v (specMax spec) (Z.of_N (Number_of n)).

Lemma split_on_inv c s parts : split_on c s = parts → join [c] parts = s ∧ Forall (λ w, c ∉ w) parts.
Proof. intros <-. split; [apply join_split_on|apply split_on_lines]. Qed.
Lemma split_on_two c a b : c ∉ a → c ∉ b → split_on c (a ++ [c] ++ b) = [a; b].
Proof. intros Ha Hb. change ([c] ++ b) with (c :: b). rewrite split_on_app, !split_on_no_sep by done. done. Qed.

Lemma name_index_Some token l i v :
  name_index token l i = Some v ↔ ∃ k, l !! k = Some token ∧ (∀ j, (j < k)%nat → l !! j ≠ Some token) ∧ v = i + Z.of_nat k.
Proof.
  revert i. induction l as [|n l IH]; intros i; simpl.
  { split; [done|]. intros (k & Hk & _). by rewrite lookup_nil in Hk. }
  destruct (str_eqb n token) eqn:E.
  - apply str_eqb_eq in E as ->. split.
    + intros [= <-]. exists 0%nat. split_and!; [done|lia|lia].
    + intros ([|k] & Hk & Hfirst & ->); [f_equal; lia|]. by destruct (Hfirst 0%nat ltac:(lia)).
  - apply str_eqb_neq in E. rewrite IH. split.
    + intros (k & Hk & Hfirst & ->). exists (S k). split_and!; [done| |lia].
      intros [|j] Hj; simpl; [congruence|]. apply Hfirst. lia.
    + intros ([|k] & Hk & Hfirst & ->); [simpl in Hk; congruence|]. exists k. split_and!; [done| |lia].
      intros j Hj. apply (Hfirst (S j)). lia.
Qed.
Lemma valueOf_correct token spec v : valueOf token spec = Some v ↔ value_text spec token v.
Proof.
  unfold valueOf. destruct (all_digits token) eqn:E.
  - split; [intros [= <-]; by constructor|]. by inversion 1; simplify_eq; try congruence.
  - rewrite name_index_Some. split.
    + intros (k & ? & ? & ->). by constructor.
    + inversion 1 as [|i ? Hi Hfirst]; [congruence|]. by exists i.
Qed.
Lemma valueOf_nonempty spec v : valueOf [] spec = Some v → [] ∈ names spec.
Proof. cbn. rewrite name_index_Some. intros (k & Hk & _). by apply list_elem_of_lookup_2 in Hk. Qed.

Definition is_single (base : str) : bool := negb (mem_chr (chr "-") base) && negb (str_eqb base (js "*")).
Lemma mem_chr_elem c s : mem_chr c s = true ↔ c ∈ s.
Proof.
  unfold mem_chr. rewrite existsb_exists, list_elem_of_In. split.
  - intros (d & Hd & ->%N.eqb_eq). done.
  - intros Hc. exists c. by rewrite N.eqb_refl.
Qed.
Lemma is_single_spec base : is_single base = true ↔ chr "-" ∉ base ∧ base ≠ js "*".
Proof. unfold is_single. by rewrite andb_true_iff, !negb_true_iff, <- not_true_iff_false, mem_chr_elem, str_eqb_neq. Qed.
Lemma range_text_single spec single base lo hi : range_text spec single base lo hi → single = is_single base.
Proof.
  inversion 1; subst; symmetry.
  - done.
  - by apply is_single_spec.
  - apply not_true_iff_false. rewrite is_single_spec. intros [Hno _]. apply Hno. rewrite !elem_of_app, list_elem_of_singleton. tauto.
Qed.

(** The two bounds of a range that is not a star, before they are checked. *)
Definition boundsOf (base : str) (spec : FieldSpec) : option (Z * Z) :=
  match split_on (chr "-") base with
  | [first] => v ← valueOf first spec; Some (v, v)
  | [first; last] => from ← valueOf first spec; to ← valueOf last spec; Some (from, to)
  | _ => None
  end.
Lemma rangeOf_unfold base spec :
  rangeOf base spec =
  if str_eqb base (js "*") then Some (specMin spec, specMax spec)
  else '(from, to) ← boundsOf base spec;
       if Z.leb (specMin spec) from && Z.leb to (specMax spec) && Z.leb from to then Some (from, to) else None.
Proof. done. Qed.
Lemma boundsOf_correct base spec lo hi :
  boundsOf base spec = Some (lo, hi) ↔
  (chr "-" ∉ base ∧ value_text spec base lo ∧ lo = hi) ∨
  (∃ a b, base = a ++ [chr "-"] ++ b ∧ chr "-" ∉ a ∧ chr "-" ∉ b ∧ value_text spec a lo ∧ value_text spec b hi).
Proof.
  unfold boundsOf. split.
  - destruct (split_on_inv (chr "-") base _ eq_refl) as [Hjoin Hall]. intros H.
    destruct (split_on (chr "-") base) as [|a [|b [|]]]; try done.
    + simpl in Hjoin. subst a. left. pose proof (Forall_inv Hall). simplify_option_eq. split_and!; [done|by apply valueOf_correct|done].
    + simpl in Hjoin. right. exists a, b. pose proof (Forall_inv Hall). pose proof (Forall_inv (Forall_inv_tail Hall)).
      simplify_option_eq. split_and!; try done; by apply valueOf_correct.
  - intros [(Hno & Hv & <-)|(a & b & -> & Ha & Hb & Hva & Hvb)].
    + rewrite split_on_no_sep by done. apply valueOf_correct in Hv. by rewrite Hv.
    + rewrite split_on_two by done. apply valueOf_correct in Hva, Hvb. by rewrite Hva, Hvb.
Qed.
Lemma rangeOf_correct base spec lo hi : rangeOf base spec = Some (lo, hi) ↔ range_text spec (is_single base) base lo hi.
Proof.
  rewrite rangeOf_unfold. split.
  - destruct (str_eqb base (js "*")) eqn:E.
    { apply str_eqb_eq in E as ->. intros [= <- <-]. constructor. }
    apply str_eqb_neq in E. destruct (boundsOf base spec) as [[from to]|] eqn:Hb; [|done]. cbn.
    destruct (Z.leb_spec (specMin spec) from), (Z.leb_spec to (specMax spec)), (Z.leb_spec from to); try done. intros [= <- <-].
    apply boundsOf_correct in Hb as [(Hno & Hv & <-)|(a & b & -> & Ha & Hb & Hva & Hvb)].
    + rewrite (proj2 (is_single_spec base)) by done. by constructor.
    + pose proof (range_two spec a b from to) as Hr. by rewrite <- (range_text_single _ _ _ _ _ (Hr Ha Hb Hva Hvb ltac:(lia) ltac:(lia) ltac:(lia))); auto.
  - inversion 1 as [|t v Hne Hno Hv Hin|a b ? ? Ha Hb Hva Hvb ? ? ?]; subst.
    + done.
    + apply str_eqb_neq in Hne as ->. rewrite (proj2 (boundsOf_correct _ _ _ _)) by (left; done). cbn.
      by rewrite !(proj2 (Z.leb_le _ _)) by lia.
    + destruct (str_eqb (a ++ [chr "-"] ++ b) (js "*")) eqn:E.
      { apply str_eqb_eq in E. assert (chr "-" ∈ js "*") as Hin; [|vm_compute in Hin; set_solver].
        rewrite <- E, !elem_of_app, list_elem_of_singleton. tauto. }
      rewrite (proj2 (boundsOf_correct _ _ lo hi)) by (right; by exists a, b). cbn.
      by rewrite !(proj2 (Z.leb_le _ _)) by lia.
Qed.

Lemma values_from_elem fuel value to step v :
  1 ≤ step → to - value < Z.of_nat fuel → v ∈ values_from fuel value to step ↔ value ≤ v ≤ to ∧ (step | v - value).
Proof.
  intros Hstep. revert value. induction fuel as [|n IH]; intros value Hfuel; simpl.
  { rewrite elem_of_nil. split; [done|lia]. }
  destruct (Z.leb_spec value to) as [Hle|Hgt].
  2:{ rewrite elem_of_nil. split; [done|lia]. }
  rewrite elem_of_cons, IH by lia. split.
  - intros [->|[Hin Hdiv]]; [split; [lia|]; rewrite Z.sub_diag; apply Z.divide_0_r|].
    split; [lia|]. replace (v - value) with (v - (value + step) + step) by lia. apply Z.divide_add_r; [done|apply Z.divide_refl].
  - intros [Hin Hdiv]. destruct (decide (v = value)) as [->|Hne]; [by left|]. right.
    pose proof (Z.divide_pos_le step (v - value) ltac:(lia) Hdiv). split; [lia|].
    replace (v - (value + step)) with (v - value - step) by lia. apply Z.divide_sub_r; [done|apply Z.divide_refl].
Qed.
Lemma values_between_elem from to step v :
  1 ≤ step → v ∈ values_between from to step ↔ from ≤ v ≤ to ∧ (step | v - from).
Proof.
  intros Hstep. unfold values_between. destruct (decide (from ≤ to)) as [Hle|Hgt].
  - apply values_from_elem; lia.
  - replace (Z.to_nat (to - from + 1)) with 0%nat by lia. simpl. rewrite elem_of_nil. split; [done|lia].
Qed.

(** The step and the upper bound an item uses. *)
Lemma itemValuesOf_plain base spec :
  chr "/" ∉ base →
  itemValuesOf base spec =
  if str_eqb base [] then None
  else '(from, to) ← rangeOf base spec; if Z.leb 1 (specMax spec - specMin spec + 1) then Some (values_between from to 1) else None.
Proof. intros Hno. unfold itemValuesOf. by rewrite split_on_no_sep. Qed.
Lemma itemValuesOf_step base n spec :
  chr "/" ∉ base → chr "/" ∉ n →
  itemValuesOf (base ++ [chr "/"] ++ n) spec =
  if str_eqb base [] then None
  else
    let step := if all_digits n then Z.of_N (Number_of n) else 0 in
    '(from, to) ← rangeOf base spec;
    if Z.leb 1 step && Z.leb step (specMax spec - specMin spec + 1)
    then Some (values_between from (if is_single base then specMax spec else to) step) else None.
Proof. intros Hb Hn. unfold itemValuesOf. by rewrite split_on_two. Qed.
Lemma item_split item :
  (∃ base, chr "/" ∉ base ∧ item = base) ∨ (∃ base n, chr "/" ∉ base ∧ chr "/" ∉ n ∧ item = base ++ [chr "/"] ++ n) ∨
  (∀ spec, itemValuesOf item spec = None ∧ ∀ lo hi step, ¬ item_text spec item lo hi step).
Proof.
  destruct (split_on_inv (chr "/") item _ eq_refl) as [Hjoin Hall].
  destruct (split_on (chr "/") item) as [|a [|b [|c rest]]] eqn:E.
  - by destruct (split_on_lines (chr "/") item).
  - left. exists a. split; [exact (Forall_inv Hall)|]. by simpl in Hjoin.
  - right; left. exists a, b. split_and!; [exact (Forall_inv Hall)|exact (Forall_inv (Forall_inv_tail Hall))|]. by simpl in Hjoin.
  - right; right. intros spec. split; [unfold itemValuesOf; by rewrite E|].
    clear Hjoin Hall. intros lo hi step. inversion 1; subst; [rewrite split_on_no_sep in E by done|rewrite split_on_two in E by done..]; done.
Qed.
Lemma itemValuesOf_correct item spec values :
  itemValuesOf item spec = Some values ↔ ∃ lo hi step, item_text spec item lo hi step ∧ values = values_between lo hi step.
Proof.
  destruct (item_split item) as [(base & Hb & ->)|[(base & n & Hb & Hn & ->)|Hnone]].
  - rewrite itemValuesOf_plain by done. split.
    + destruct (str_eqb base []) eqn:E; [done|]. apply str_eqb_neq in E.
      destruct (rangeOf base spec) as [[from to]|] eqn:Hr; [|done]. cbn. destruct (Z.leb_spec 1 (specMax spec - specMin spec + 1)); [|done].
      intros [= <-]. exists from, to, 1. split; [|done]. apply (item_plain _ (is_single base)); [done..| |lia]. by apply rangeOf_correct.
    + intros (lo & hi & step & Hitem & ->). inversion Hitem as [single ? ? ? Hne _ Hrange Hspec|? ? ? ? ? ? Hn|? ? ? ? ? Hn]; subst.
      2,3: exfalso; apply Hb; rewrite !elem_of_app, list_elem_of_singleton; tauto.
      apply str_eqb_neq in Hne as ->. rewrite (range_text_single _ _ _ _ _ Hrange) in Hrange. apply rangeOf_correct in Hrange as ->. cbn.
      by rewrite (proj2 (Z.leb_le _ _)) by lia.
  - rewrite itemValuesOf_step by done. split.
    + destruct (str_eqb base []) eqn:E; [done|]. apply str_eqb_neq in E. cbv zeta.
      destruct (rangeOf base spec) as [[from to]|] eqn:Hr; [|done]. apply rangeOf_correct in Hr. cbn.
      destruct (all_digits n) eqn:Hdig; [|by cbn].
      destruct (Z.leb_spec 1 (Z.of_N (Number_of n))), (Z.leb_spec (Z.of_N (Number_of n)) (specMax spec - specMin spec + 1)); try done.
      intros [= <-]. destruct (is_single base) eqn:Hs.
      * assert (from = to) as <- by by inversion Hr. exists from, (specMax spec), (Z.of_N (Number_of n)). split; [|done]. by constructor.
      * exists from, to, (Z.of_N (Number_of n)). split; [|done]. by constructor.
    + intros (lo & hi & step & Hitem & ->).
      assert (∃ single lo' hi', range_text spec single base lo' hi' ∧ base ≠ [] ∧ all_digits n = true ∧ 1 ≤ Z.of_N (Number_of n) ≤ specMax spec - specMin spec + 1 ∧
        lo = lo' ∧ step = Z.of_N (Number_of n) ∧ hi = (if single then specMax spec else hi')) as (single & lo' & hi' & Hr & Hne & Hdig & Hn' & -> & -> & ->).
      { remember (base ++ [chr "/"] ++ n) as item eqn:Hi.
        destruct Hitem as [single base' ? ? ? Hno|base' n' lo hi ? Hb' Hn'|base' n' v ? Hb' Hn'].
        - exfalso; apply Hno; rewrite Hi, !elem_of_app, list_elem_of_singleton; tauto.
        - apply (f_equal (split_on (chr "/"))) in Hi. rewrite !split_on_two in Hi by done. simplify_eq. by exists false, lo, hi.
        - apply (f_equal (split_on (chr "/"))) in Hi. rewrite !split_on_two in Hi by done. simplify_eq. by exists true, v, v. }
      apply str_eqb_neq in Hne as ->. pose proof (range_text_single _ _ _ _ _ Hr) as Hs. rewrite Hs in Hr. apply rangeOf_correct in Hr as ->. cbn. rewrite Hdig.
      rewrite !(proj2 (Z.leb_le _ _)) by lia. cbn. by rewrite Hs.
  - destruct (Hnone spec) as [-> Hno]. split; [done|]. intros (lo & hi & step & Hitem & _). by destruct (Hno _ _ _ Hitem).
Qed.

(** [v] is one of the numbers an item of the field stands for. *)
Definition denoted (spec : FieldSpec) (items : list str) (v : Z) : Prop :=
  ∃ item lo hi step, item ∈ items ∧ item_text spec item lo hi step ∧ lo ≤ v ≤ hi ∧ (step | v - lo).
Definition well_formed_item (spec : FieldSpec) (item : str) : Prop := ∃ lo hi step, item_text spec item lo hi step.

Lemma range_text_bounds spec single base lo hi :
  specMin spec ≤ specMax spec → range_text spec single base lo hi → specMin spec ≤ lo ∧ lo ≤ hi ∧ hi ≤ specMax spec.
Proof. intros Hs. inversion 1; subst; lia. Qed.
Lemma item_text_bounds spec item lo hi step :
  item_text spec item lo hi step → specMin spec ≤ lo ∧ lo ≤ hi ∧ hi ≤ specMax spec ∧ 1 ≤ step.
Proof.
  inversion 1 as [? ? ? ? ? ? Hr|? ? ? ? ? ? ? Hr|? ? ? ? ? ? Hr]; subst; apply range_text_bounds in Hr; lia.
Qed.
Lemma item_text_functional spec item lo hi step lo' hi' step' v :
  item_text spec item lo hi step → item_text spec item lo' hi' step' →
  lo ≤ v ≤ hi ∧ (step | v - lo) ↔ lo' ≤ v ≤ hi' ∧ (step' | v - lo').
Proof.
  intros H1 H2. pose proof (item_text_bounds _ _ _ _ _ H1). pose proof (item_text_bounds _ _ _ _ _ H2).
  rewrite <- !values_between_elem by lia.
  assert (itemValuesOf item spec = Some (values_between lo hi step)) as E1 by (apply itemValuesOf_correct; eauto).
  assert (itemValuesOf item spec = Some (values_between lo' hi' step')) as E2 by (apply itemValuesOf_correct; eauto).
  rewrite E1 in E2. by injection E2 as ->.
Qed.
Lemma add_items_correct spec items acc :
  match add_items spec acc items with
  | Some values => Forall (well_formed_item spec) items ∧ ∀ v, v ∈ values ↔ v ∈ acc ∨ denoted spec items v
  | None => ¬ Forall (well_formed_item spec) items
  end.
Proof.
  revert acc. induction items as [|item items IH]; intros acc; cbn.
  { split; [done|]. intros v. split; [by left|]. intros [?|(? & ? & ? & ? & Hin & _)]; [done|]. by apply elem_of_nil in Hin. }
  destruct (itemValuesOf item spec) as [l|] eqn:E; cbn.
  - apply itemValuesOf_correct in E as (lo & hi & step & Hitem & ->). specialize (IH (acc ∪ list_to_set (values_between lo hi step))).
    destruct (add_items _ _ items) as [values|].
    + destruct IH as [Hall Hv]. split; [constructor; [by exists lo, hi, step|done]|]. intros v. rewrite Hv, elem_of_union, elem_of_list_to_set.
      rewrite values_between_elem by (apply item_text_bounds in Hitem; lia). split.
      * intros [[?|[]]|(i & a & b & s & Hin & H)]; [by left|right|right].
        -- exists item, lo, hi, step. rewrite elem_of_cons. tauto.
        -- exists i, a, b, s. rewrite elem_of_cons. tauto.
      * intros [?|(i & a & b & s & [->|Hin]%elem_of_cons & Hi & H)]; [by left; left| |right; by exists i, a, b, s].
        left; right. by apply (item_text_functional spec item lo hi step a b s).
    + intros Hall. apply IH. by inversion Hall.
  - intros Hall. inversion Hall as [|? ? (lo & hi & step & Hitem)]; subst.
    assert (itemValuesOf item spec = Some (values_between lo hi step)) by (apply itemValuesOf_correct; eauto). congruence.
Qed.

(** A cron field is accepted exactly when it is made of the allowed characters and each of its
    comma-separated items is a star, a number or name, or an ordered range within the bounds of the field,
    with an optional step of at most the width of the field; it then denotes exactly the numbers of those
    progressions (a single value with a step runs to the maximum of the field). *)
Theorem fieldValuesOf_correct (field : str) (spec : FieldSpec) :
  match fieldValuesOf field spec with
  | Some values =>
      FIELD_CHARACTERS field = true ∧ Forall (well_formed_item spec) (split_on (chr ",") field) ∧
      ∀ v, v ∈ values ↔ denoted spec (split_on (chr ",") field) v
  | None => FIELD_CHARACTERS field = true → ¬ Forall (well_formed_item spec) (split_on (chr ",") field)
  end.
Proof.
  unfold fieldValuesOf. destruct (FIELD_CHARACTERS field); [|done].
  pose proof (add_items_correct spec (split_on (chr ",") field) ∅) as H. destruct (add_items _ _ _); [|done].
  destruct H as [Hall Hv]. split_and!; [done..|]. intros v. rewrite Hv. set_solver.
Qed.

Lemma fieldValuesOf_bounds field spec values :
  fieldValuesOf field spec = Some values → (∀ v, v ∈ values → specMin spec ≤ v ≤ specMax spec) ∧ ∃ v, v ∈ values.
Proof.
  intros E. unfold fieldValuesOf in E. destruct (FIELD_CHARACTERS field); [|done].
  pose proof (add_items_correct spec (split_on (chr ",") field) ∅) as H. rewrite E in H. destruct H as [Hall Hv]. split.
  - intros v. rewrite Hv. intros [?|(i & lo & hi & step & _ & Hi & H)]; [set_solver|]. apply item_text_bounds in Hi. lia.
  - pose proof (proj2 (split_on_lines (chr ",") field)) as Hne. destruct (split_on (chr ",") field) as [|i items]; [done|].
    inversion Hall as [|? ? (lo & hi & step & Hi)]; subst. exists lo. apply Hv. right. exists i, lo, hi, step.
    apply item_text_bounds in Hi as ?. split_and!; [auto with fleet|done|lia|lia|]. rewrite Z.sub_diag. apply Z.divide_0_r.
Qed.

(** A star, with or without a step, always keeps the first value of its field. *)
Lemma digits_not_star s : all_digits s = true → s !! 0%nat ≠ Some (chr "*").
Proof. destruct s as [|c s]; [done|]. cbn. intros H [= ->]. by rewrite andb_false_l in H. Qed.
Definition starred (s : str) : Prop := s !! 0%nat = Some (chr "*").
Lemma starred_app s t : s ≠ [] → starred (s ++ t) ↔ starred s.
Proof. by destruct s. Qed.
Lemma starred_no_value spec s v : names spec = [] → starred s → ¬ value_text spec s v.
Proof. intros Hn Hs. inversion 1 as [Hd|i ? Hi]; [by apply digits_not_star in Hd|]. by rewrite Hn, lookup_nil in Hi. Qed.
Lemma starred_range spec single base lo hi : names spec = [] → starred base → range_text spec single base lo hi → lo = specMin spec.
Proof.
  intros Hn Hs. inversion 1 as [|? ? ? ? Hv|a b ? ? ? ? Hva]; subst; [done| |].
  - by apply starred_no_value in Hv.
  - destruct a as [|c a]; [done|]. apply starred_app in Hs; [|done]. by apply starred_no_value in Hva.
Qed.
Lemma starred_item spec item lo hi step : names spec = [] → starred item → item_text spec item lo hi step → lo = specMin spec.
Proof.
  intros Hn Hs. inversion 1 as [? ? ? ? ? ? Hr|? ? ? ? ? ? ? Hr|? ? ? ? ? ? Hr]; subst;
    (apply starred_range in Hr; [done|done|]); [done|by apply starred_app in Hs..].
Qed.
Lemma split_on_first c d s : d ≠ c → ∃ w ws, split_on c (d :: s) = (d :: w) :: ws.
Proof. intros Hne. simpl. destruct (N.eqb_spec d c); [done|]. destruct (split_on c s) as [|w ws]; eauto. Qed.
Lemma wildcard_keeps_first spec field values :
  names spec = [] → isWildcard field = true → fieldValuesOf field spec = Some values → specMin spec ∈ values.
Proof.
  intros Hn Hw E. unfold fieldValuesOf in E. destruct (FIELD_CHARACTERS field); [|done].
  pose proof (add_items_correct spec (split_on (chr ",") field) ∅) as H. rewrite E in H. destruct H as [Hall Hv]. apply Hv. right.
  unfold isWildcard in Hw. destruct field as [|c field]; [done|]. cbn in Hw. apply andb_prop in Hw as [->%N.eqb_eq _].
  change (chr "*" :: field) with (js "*" ++ field) in *.
  destruct (split_on (chr ",") (js "*" ++ field)) as [|i items] eqn:Ei;
    [by destruct (split_on_lines (chr ",") (js "*" ++ field))|].
  assert (starred i) as Hi.
  { destruct (split_on_first (chr ",") (chr "*") field) as (w & ws & Hw); [done|]. change (js "*" ++ field) with (chr "*" :: field) in Ei.
    rewrite Hw in Ei. injection Ei as <- _. done. }
  inversion Hall as [|? ? (lo & hi & step & Hitem)]; subst. exists i, lo, hi, step.
  pose proof (item_text_bounds _ _ _ _ _ Hitem). assert (lo = specMin spec) as -> by (by eapply starred_item).
  split_and!; [auto with fleet|done|lia|lia|]. rewrite Z.sub_diag. apply Z.divide_0_r.
Qed.

(** What an accepted expression guarantees: every set is inhabited and within the bounds of its field, and
    one of the days it asks for exists in a leap year. *)
Record schedule_sound (s : CronSchedule) : Prop := mkSound
  { sound_minutes : (∃ m, m ∈ minutes s) ∧ ∀ m, m ∈ minutes s → 0 ≤ m ≤ 59;
    sound_hours : (∃ h, h ∈ hours s) ∧ ∀ h, h ∈ hours s → 0 ≤ h ≤ 23;
    sound_daysOfMonth : (∃ d, d ∈ daysOfMonth s) ∧ ∀ d, d ∈ daysOfMonth s → 1 ≤ d ≤ 31;
    sound_months : (∃ m, m ∈ months s) ∧ ∀ m, m ∈ months s → 1 ≤ m ≤ 12;
    sound_daysOfWeek : (∃ w, w ∈ daysOfWeek s) ∧ ∀ w, w ∈ daysOfWeek s → 0 ≤ w ≤ 6;
    sound_day : (negb (isDayOfMonthWildcard s) && negb (isDayOfWeekWildcard s) = true) ∨
                ∃ m d n, m ∈ months s ∧ d ∈ daysOfMonth s ∧ longestMonth m = Some n ∧ d ≤ n }.

Lemma daysOfMonthEverExist_spec ds ms :
  daysOfMonthEverExist ds ms = true ↔ ∃ m d n, m ∈ ms ∧ d ∈ ds ∧ longestMonth m = Some n ∧ d ≤ n.
Proof.
  unfold daysOfMonthEverExist. rewrite existsb_exists. split.
  - intros (m & Hm & (d & Hd & H)%existsb_exists). destruct (longestMonth m) as [n|] eqn:E; [|done].
    exists m, d, n. rewrite <- list_elem_of_In, elem_of_elements in Hm, Hd. split_and!; [done..|]. by apply Z.leb_le.
  - intros (m & d & n & Hm & Hd & E & Hle). exists m. rewrite <- list_elem_of_In, elem_of_elements. split; [done|].
    apply existsb_exists. exists d. rewrite <- list_elem_of_In, elem_of_elements, E. split; [done|]. by apply Z.leb_le.
Qed.
Lemma longestMonth_some m : 1 ≤ m ≤ 12 → ∃ n, longestMonth m = Some n ∧ 1 ≤ n.
Proof.
  intros Hb. assert (m = 1 ∨ m = 2 ∨ m = 3 ∨ m = 4 ∨ m = 5 ∨ m = 6 ∨ m = 7 ∨ m = 8 ∨ m = 9 ∨ m = 10 ∨ m = 11 ∨ m = 12) as Hc by lia.
  destruct_or! Hc; subst; eexists; (split; [reflexivity|lia]).
Qed.
Lemma cronScheduleOf_sound expression s : cronScheduleOf expression = Some s → schedule_sound s.
Proof.
  unfold cronScheduleOf. case_bool_decide; [done|].
  destruct (split_spaces _ _) as [|f1 [|f2 [|f3 [|f4 [|f5 [|]]]]]]; try done.
  intros Hs. destruct (fieldValuesOf f1 MINUTE) as [v1|] eqn:E1; [|done]. destruct (fieldValuesOf f2 HOUR) as [v2|] eqn:E2; [|done].
  destruct (fieldValuesOf f3 DAY_OF_MONTH) as [v3|] eqn:E3; [|done]. destruct (fieldValuesOf f4 MONTH) as [v4|] eqn:E4; [|done].
  destruct (fieldValuesOf f5 DAY_OF_WEEK) as [v5|] eqn:E5; [|done]. cbn in Hs.
  pose proof (wildcard_keeps_first DAY_OF_MONTH f3 v3 eq_refl) as Hfirst.
  apply fieldValuesOf_bounds in E1 as [B1 N1], E2 as [B2 N2], E3 as E3', E4 as [B4 N4], E5 as [B5 N5]. destruct E3' as [B3 N3].
  assert (isWildcard f3 = true → ∃ m d n, m ∈ v4 ∧ d ∈ v3 ∧ longestMonth m = Some n ∧ d ≤ n) as Hstar.
  { intros Hw. destruct N4 as [m Hm]. pose proof (B4 m Hm) as Hb. cbn in Hb.
    destruct (longestMonth_some m Hb) as (n & En & Hn). exists m, 1, n. split_and!; auto. }
  destruct (isWildcard f3) eqn:W3, (isWildcard f5) eqn:W5; cbn in Hs;
    try (destruct (daysOfMonthEverExist v3 v4) eqn:Hex; cbn in Hs; [|done]); injection Hs as <-;
    (constructor; cbn; [by split..| |]); try (by right; apply Hstar); try (by left); try (right; by apply daysOfMonthEverExist_spec).
  all: split; [destruct N5 as [w Hw]; exists (w mod 7); set_solver|].
  all: intros w (d & -> & Hd)%elem_of_map; pose proof (Z.mod_pos_bound d 7); lia.
Qed.
