(* ===== verification/CronCalendar.v ===== *)
(** * The slots of a cron schedule: [triggers/cronCalendar.ts]

    Instants are integral milliseconds since 1970.  What [Intl.DateTimeFormat]
    knows of a time zone is the parameter [wallClockAsUtc]: [Date.UTC] of the
    year, month, day, hour, minute and second it prints for an instant.  The
    offset, the readings of a wall clock, the search of the end of a gap and the
    two searches of slots are the code. *)
From S2P Require Import Prelude JsText Sorting JsDate CronExpression.
Open Scope Z_scope.

Definition MINUTE_MS : Z := 60000.
Definition DAY_MS : Z := 86400000.
Definition HOURS_IN_A_DAY : nat := 24.
Definition MAX_DAYS_SEARCHED : Z := 366 * 8.

Record CivilFields := mkCivil { civilYear : Z; civilMonth : Z; civilDay : Z; civilHour : Z; civilMinute : Z }.
(** The day of a schedule with its year. *)
Record YearDay := mkYearDay { dayYear : Z; dayFields : CivilDay }.

Definition sort_numbers (l : list Z) : list Z := sort_by (λ x, x) l.

Section Zone.
Variable wallClockAsUtc : Z → Z.

(** [Math.round] of a quotient by a minute: halves go up. *)
Definition offsetMinutesAt (instantMs : Z) : Z :=
  (wallClockAsUtc instantMs - instantMs / 1000 * 1000 + MINUTE_MS / 2) / MINUTE_MS.

Definition civilUtcMsOf (civil : CivilFields) : Z :=
  UTC (civilYear civil) (civilMonth civil - 1) (civilDay civil) (civilHour civil) (civilMinute civil).

Definition fieldsAtUtc (wallClock : Z) : CivilFields * Z :=
  (mkCivil (getUTCFullYear wallClock) (getUTCMonth wallClock + 1) (getUTCDate wallClock) (getUTCHours wallClock) (getUTCMinutes wallClock),
   getUTCDay wallClock).
Definition localFieldsAt (instantMs : Z) : CivilFields * Z := fieldsAtUtc (instantMs + offsetMinutesAt instantMs * MINUTE_MS).

(** The set of the two offsets, in insertion order. *)
Definition offsetsAround (civilUtcMs : Z) : list Z :=
  let before := offsetMinutesAt (civilUtcMs - DAY_MS) in
  let after := offsetMinutesAt (civilUtcMs + DAY_MS) in
  if Z.eqb before after then [before] else [before; after].
Definition instantsReading (civil : CivilFields) : list Z :=
  let civilUtcMs := civilUtcMsOf civil in
  let candidates := (λ offset, civilUtcMs - offset * MINUTE_MS) <$> offsetsAround civilUtcMs in
  sort_numbers (filter (λ instant, civilUtcMsOf (localFieldsAt instant).1 = civilUtcMs) candidates).

(** The binary search, on minutes: [inr] leaves the loop. *)
Definition gap_step (offsetBefore : Z) (s : Z * Z) : Z * Z + Z :=
  let '(stillBefore, alreadyAfter) := s in
  if Z.ltb 1 (alreadyAfter - stillBefore) then
    let middle := (stillBefore + alreadyAfter) / 2 in
    if Z.eqb (offsetMinutesAt (middle * MINUTE_MS)) offsetBefore then inl (middle, alreadyAfter) else inl (stillBefore, middle)
  else inr alreadyAfter.
Definition gap_search (offsetBefore stillBefore alreadyAfter : Z) : Z :=
  run_loop (gap_step offsetBefore) (S (Z.to_nat (alreadyAfter - stillBefore))) (stillBefore, alreadyAfter) alreadyAfter.
Definition endOfTheGapSwallowing (civil : CivilFields) : Z :=
  let civilUtcMs := civilUtcMsOf civil in
  let offsetBefore := offsetMinutesAt (civilUtcMs - DAY_MS) in
  let offsetAfter := offsetMinutesAt (civilUtcMs + DAY_MS) in
  let stillBefore := (civilUtcMs - offsetAfter * MINUTE_MS) / MINUTE_MS in
  let alreadyAfter := - (- (civilUtcMs - offsetBefore * MINUTE_MS) / MINUTE_MS) in
  gap_search offsetBefore stillBefore alreadyAfter * MINUTE_MS.

Section Schedule.
Variable schedule : CronSchedule.

Definition firesEveryHour : bool := bool_decide (size (hours schedule) = HOURS_IN_A_DAY).
Definition sortedHours : list Z := sort_numbers (elements (hours schedule)).
Definition sortedMinutes : list Z := sort_numbers (elements (minutes schedule)).

(** What one wall clock time adds to the slots of its day. *)
Definition slotsOfTime (day : YearDay) (hour minute : Z) : list Z :=
  let civil := mkCivil (dayYear day) (month (dayFields day)) (dayOfMonth (dayFields day)) hour minute in
  match instantsReading civil with
  | [] => [endOfTheGapSwallowing civil]
  | first :: rest => if firesEveryHour then first :: rest else [first]
  end.
Definition slotsOfDay (day : YearDay) : list Z :=
  if daySatisfies schedule (dayFields day) then
    let slots : gset Z := list_to_set (concat ((λ hour, concat ((λ minute, slotsOfTime day hour minute) <$> sortedMinutes)) <$> sortedHours)) in
    sort_numbers (elements slots)
  else [].

Definition dayAt (referenceDayUtcMs daysFromReference : Z) : YearDay :=
  let date := referenceDayUtcMs + daysFromReference * DAY_MS in
  mkYearDay (getUTCFullYear date) (mkDay (getUTCMonth date + 1) (getUTCDate date) (getUTCDay date)).
Definition localDayStartUtcMs (instantMs : Z) : Z :=
  let local := (localFieldsAt instantMs).1 in
  UTC (civilYear local) (civilMonth local - 1) (civilDay local) 0 0.

(** The [for] loop of [nextAfter], [days] turns from [offset]. *)
Fixpoint next_from (days : nat) (offset referenceDay afterMs : Z) : option Z :=
  match days with
  | O => None
  | S n =>
      match find (λ slot, Z.ltb afterMs slot) (slotsOfDay (dayAt referenceDay offset)) with
      | Some next => Some next
      | None => next_from n (offset + 1) referenceDay afterMs
      end
  end.
Definition nextAfter (afterMs : Z) : option Z :=
  next_from (Z.to_nat (MAX_DAYS_SEARCHED + 2)) (-1) (localDayStartUtcMs afterMs) afterMs.

Definition in_range_slots (referenceDay offset afterMs atMs : Z) : list Z :=
  filter (λ slot, (Z.ltb afterMs slot && Z.leb slot atMs) = true) (slotsOfDay (dayAt referenceDay offset)).
(** The [for] loop of [newestBetween], at most [days] turns down from [offset]. *)
Fixpoint newest_from (days : nat) (offset referenceDay afterMs atMs : Z) (limit : nat) (found : list Z) : list Z :=
  match days with
  | O => found
  | S n =>
      if bool_decide (length found < limit)%nat
      then newest_from n (offset - 1) referenceDay afterMs atMs limit (found ++ reverse (in_range_slots referenceDay offset afterMs atMs))
      else found
  end.
Definition newestBetween (afterMs atMs : Z) (limit : nat) : list Z :=
  let referenceDay := localDayStartUtcMs atMs in
  let oldestDay := localDayStartUtcMs afterMs in
  let daysBack := Z.min MAX_DAYS_SEARCHED ((referenceDay - oldestDay + DAY_MS / 2) / DAY_MS + 1) in
  take limit (newest_from (Z.to_nat (daysBack + 2)) 1 referenceDay afterMs atMs limit []).
End Schedule.
End Zone.

(** A zone whose offset never changes. *)
Definition fixed_zone (offset : Z) (instantMs : Z) : Z := instantMs / 1000 * 1000 + offset * MINUTE_MS.

(** Worked example: the next "0 9 * * mon-fri" after Friday 2 January 2026 at 10:00 UTC is Monday the 5th at 9:00. *)
Example next_weekday_morning :
  (s ← cronScheduleOf (js "0 9 * * mon-fri"); nextAfter (fixed_zone 0) s (UTC 2026 0 2 10 0)) = Some (UTC 2026 0 5 9 0).
Proof. vm_compute. reflexivity. Qed.
