(* ===== verification/CronCalendarFacts.v ===== *)
(** * Facts on the slots of a cron schedule

    Time zones with one change of offset around a wall clock time: the readings
    and the end of a gap.  Zones whose offset never changes: the searches of
    slots against the minutes that match the schedule. *)
From S2P Require Import Prelude JsText Sorting JsDate CronExpression CronCalendar.
Open Scope Z_scope.

Lemma sort_numbers_elem x l : x ∈ sort_numbers l ↔ x ∈ l.
Proof. unfold sort_numbers. by rewrite sort_by_perm. Qed.
Lemma civil_of_fields w : ordinary_year (getUTCFullYear w) → civilUtcMsOf (fieldsAtUtc w).1 = w - w mod 60000.
Proof. intros H. unfold civilUtcMsOf, fieldsAtUtc. cbn [fst civilYear civilMonth civilDay civilHour civilMinute]. rewrite Z.add_simpl_r. by apply UTC_of_fields. Qed.
Lemma UTC_minute y m d h mi : UTC y m d h mi mod 60000 = 0.
Proof.
  unfold UTC, MS_PER_DAY. set (k := MakeDay _ _ _).
  replace (k * 86400000 + h * 3600000 + mi * 60000) with ((k * 1440 + h * 60 + mi) * 60000) by lia. by apply Z_mod_mult.
Qed.

(** ** Changes of offset *)
Section Zone.
Variable wallClockAsUtc : Z → Z.
Notation offsetAt := (offsetMinutesAt wallClockAsUtc).

(** A search between a minute before the change and a minute after it finds the change. *)
Lemma gap_search_finds before lo hi T :
  lo < T ≤ hi → (∀ m, lo ≤ m < T → offsetAt (m * MINUTE_MS) = before) → (∀ m, T ≤ m ≤ hi → offsetAt (m * MINUTE_MS) ≠ before) →
  gap_search wallClockAsUtc before lo hi = T.
Proof.
  intros HT Hlo Hhi. unfold gap_search.
  apply (run_loop_spec _ (λ s : Z * Z, lo ≤ s.1 ∧ s.1 < T ≤ s.2 ∧ s.2 ≤ hi) (λ s, Z.to_nat (s.2 - s.1)) (λ r, r = T)).
  - intros [a b] s' (H1 & H2 & H3) Hs. cbn [fst snd] in *. unfold gap_step in Hs.
    destruct (Z.ltb_spec 1 (b - a)) as [Hgap|]; [|done].
    assert (a < (a + b) / 2 < b) as Hmid by div_lia. revert Hs. generalize dependent ((a + b) / 2). intros mid Hmid Hs.
    destruct (Z.eqb_spec (offsetAt (mid * MINUTE_MS)) before) as [Heq|Hne]; injection Hs as <-; cbn [fst snd].
    + assert (mid < T) by (destruct (Z.ltb_spec mid T); [done|]; destruct (Hhi mid); [lia|done]). lia.
    + assert (T ≤ mid) by (destruct (Z.leb_spec T mid); [done|]; destruct Hne; apply Hlo; lia). lia.
  - intros [a b] r (H1 & H2 & H3) Hs. cbn [fst snd] in *. unfold gap_step in Hs.
    destruct (Z.ltb_spec 1 (b - a)); [by destruct (Z.eqb _ _)|]. injection Hs as <-. lia.
  - cbn. lia.
  - cbn. lia.
Qed.

(** The offset is under a day, and around the wall clock time [c] it changes at most once, at the minute [T]. *)
Record changes_once (c T before after : Z) : Prop := mkChanges
  { offset_small : ∀ t, -1440 < offsetAt t < 1440;
    offset_before : ∀ t, c - DAY_MS ≤ t → t < T * MINUTE_MS → t ≤ c + DAY_MS → offsetAt t = before;
    offset_after : ∀ t, c - DAY_MS ≤ t → T * MINUTE_MS ≤ t → t ≤ c + DAY_MS → offsetAt t = after;
    change_near : c - DAY_MS < T * MINUTE_MS ≤ c + DAY_MS }.

Section Change.
Context (civil : CivilFields) (T before after : Z).
Notation c := (civilUtcMsOf civil).
Context (Hzone : changes_once c T before after) (Hyear : FIRST_ORDINARY_MS + 2 * DAY_MS ≤ c).

Lemma offsets_around : offsetAt (c - DAY_MS) = before ∧ offsetAt (c + DAY_MS) = after.
Proof.
  destruct Hzone as [Hsmall Hbefore Hafter Hnear]. unfold DAY_MS in *. split; [apply Hbefore|apply Hafter]; lia.
Qed.
Lemma reads_civil t :
  t mod 60000 = 0 → c - DAY_MS < t < c + DAY_MS → (civilUtcMsOf (localFieldsAt wallClockAsUtc t).1 = c ↔ t + offsetAt t * MINUTE_MS = c).
Proof.
  intros Ht Hnear. destruct Hzone as [Hsmall _ _ _]. specialize (Hsmall t). unfold localFieldsAt. rewrite civil_of_fields.
  2:{ apply ordinary_from. unfold DAY_MS, MINUTE_MS in *. lia. }
  assert ((t + offsetAt t * MINUTE_MS) mod 60000 = 0) as ->; [|lia]. unfold MINUTE_MS. by rewrite Z.mod_add.
Qed.
Lemma instantsReading_elem t : t ∈ instantsReading wallClockAsUtc civil ↔ t + offsetAt t * MINUTE_MS = c.
Proof.
  pose proof (UTC_minute (civilYear civil) (civilMonth civil - 1) (civilDay civil) (civilHour civil) (civilMinute civil)) as Hmin.
  change (c mod 60000 = 0) in Hmin. destruct offsets_around as [Hb Ha]. pose proof Hzone as [Hsmall Hbefore Hafter Hnear].
  assert (∀ o, -1440 < o < 1440 → (c - o * MINUTE_MS) mod 60000 = 0 ∧ c - DAY_MS < c - o * MINUTE_MS < c + DAY_MS) as Hcand.
  { intros o Ho. unfold MINUTE_MS, DAY_MS. split; [|lia]. replace (c - o * 60000) with (c + (- o) * 60000) by lia. by rewrite Z.mod_add. }
  assert (∀ o, o ∈ offsetsAround wallClockAsUtc c ↔ o = before ∨ o = after) as Hset.
  { intros o. unfold offsetsAround. rewrite Hb, Ha. destruct (Z.eqb_spec before after) as [->|]; set_solver. }
  unfold instantsReading. rewrite sort_numbers_elem, list_elem_of_filter, list_elem_of_fmap. split.
  - intros (Hread & o & -> & Ho). apply Hset in Ho. rewrite reads_civil in Hread; [done|..];
      destruct (Hcand o); try done; destruct Ho as [->| ->]; [rewrite <- Hb|rewrite <- Ha|rewrite <- Hb|rewrite <- Ha]; apply Hsmall.
  - intros Hread. destruct (Hcand (offsetAt t) (Hsmall t)) as [H1 H2]. replace (c - offsetAt t * MINUTE_MS) with t in * by lia.
    split; [by apply reads_civil|]. exists (offsetAt t). split; [lia|]. apply Hset.
    destruct (Z.ltb_spec t (T * MINUTE_MS)); [left; apply Hbefore|right; apply Hafter]; lia.
Qed.

(** The wall clock jumps over the time. *)
Definition swallowed : Prop := T * MINUTE_MS + before * MINUTE_MS ≤ c < T * MINUTE_MS + after * MINUTE_MS.
Lemma offsets_small : (-1440 < before < 1440) ∧ -1440 < after < 1440.
Proof. destruct (offsets_around) as [<- <-]. split; apply Hzone. Qed.
Lemma swallowed_iff : instantsReading wallClockAsUtc civil = [] ↔ swallowed.
Proof.
  destruct offsets_small as [Hsb Hsa]. destruct Hzone as [Hsmall Hbefore Hafter Hnear].
  unfold swallowed, MINUTE_MS, DAY_MS in *. split.
  - intros Hnil. assert (∀ t, t + offsetAt t * 60000 ≠ c) as Hno.
    { intros t Ht. apply instantsReading_elem in Ht. rewrite Hnil in Ht. by apply elem_of_nil in Ht. }
    split.
    + destruct (Z.leb_spec (T * 60000 + before * 60000) c); [done|]. destruct (Hno (c - before * 60000)). rewrite Hbefore; lia.
    + destruct (Z.ltb_spec c (T * 60000 + after * 60000)); [done|]. destruct (Hno (c - after * 60000)). rewrite Hafter; lia.
  - intros Hgap. apply list.elem_of_nil_inv. intros t Ht%instantsReading_elem.
    specialize (Hsmall t). unfold MINUTE_MS in Ht. destruct (Z.ltb_spec t (T * 60000)); [rewrite Hbefore in Ht|rewrite Hafter in Ht]; lia.
Qed.
Lemma end_of_the_gap : swallowed → endOfTheGapSwallowing wallClockAsUtc civil = T * MINUTE_MS.
Proof.
  pose proof (UTC_minute (civilYear civil) (civilMonth civil - 1) (civilDay civil) (civilHour civil) (civilMinute civil)) as Hmin.
  change (c mod 60000 = 0) in Hmin. destruct offsets_around as [Hb Ha]. destruct offsets_small as [Hsb Hsa]. destruct Hzone as [Hsmall Hbefore Hafter Hnear].
  unfold swallowed. intros Hgap. unfold endOfTheGapSwallowing. rewrite Hb, Ha. f_equal. unfold MINUTE_MS, DAY_MS in *.
  apply gap_search_finds; unfold MINUTE_MS.
  - split; div_lia.
  - intros m Hm. apply Hbefore; div_lia.
  - intros m Hm. rewrite Hafter; div_lia.
Qed.
End Change.
End Zone.

(** In a time zone whose offset changes at most once within a day of a wall clock time, the readings found
    for that time are exactly the instants at which the zone shows it (none, one or two), there is none exactly
    when the change jumps over the time, and the slot used instead is then the very instant of the change. *)
Theorem wall_clock_readings_correct (wallClockAsUtc : Z → Z) (civil : CivilFields) (T before after : Z)
    (Hzone : changes_once wallClockAsUtc (civilUtcMsOf civil) T before after)
    (Hyear : FIRST_ORDINARY_MS + 2 * DAY_MS ≤ civilUtcMsOf civil) :
  (∀ t, t ∈ instantsReading wallClockAsUtc civil ↔ t + offsetMinutesAt wallClockAsUtc t * MINUTE_MS = civilUtcMsOf civil) ∧
  (instantsReading wallClockAsUtc civil = [] ↔ swallowed civil T before after) ∧
  (swallowed civil T before after → endOfTheGapSwallowing wallClockAsUtc civil = T * MINUTE_MS).
Proof.
  split_and!.
  - intros t. by apply (instantsReading_elem _ _ T before after).
  - by apply swallowed_iff.
  - by apply end_of_the_gap.
Qed.
(** Paris in the spring of 2026: at 01:00 UTC on 29 March the offset goes from 60 to 120 minutes, and 02:30 does not exist. *)
Definition paris_spring (instantMs : Z) : Z :=
  instantMs / 1000 * 1000 + (if Z.ltb instantMs (UTC 2026 2 29 1 0) then 60 else 120) * MINUTE_MS.
Lemma paris_offset t : offsetMinutesAt paris_spring t = if Z.ltb t (UTC 2026 2 29 1 0) then 60 else 120.
Proof. unfold offsetMinutesAt, paris_spring, MINUTE_MS. destruct (Z.ltb _ _); div_lia. Qed.
Lemma paris_change_time : UTC 2026 2 29 1 0 = 29579100 * MINUTE_MS ∧ civilUtcMsOf (mkCivil 2026 3 29 2 30) = 29579190 * MINUTE_MS.
Proof. split; vm_compute; reflexivity. Qed.
Lemma paris_changes_once : changes_once paris_spring (civilUtcMsOf (mkCivil 2026 3 29 2 30)) 29579100 60 120.
Proof.
  destruct paris_change_time as [Htime ->].
  constructor; [intros t..|unfold MINUTE_MS, DAY_MS; lia]; rewrite paris_offset, Htime; destruct (Z.ltb_spec t (29579100 * MINUTE_MS)); lia.
Qed.
Lemma paris_swallowed : swallowed (mkCivil 2026 3 29 2 30) 29579100 60 120.
Proof. unfold swallowed. destruct paris_change_time as [_ ->]. unfold MINUTE_MS. lia. Qed.
Lemma wall_clock_readings_correct_witness :
  instantsReading paris_spring (mkCivil 2026 3 29 2 30) = [] ∧ endOfTheGapSwallowing paris_spring (mkCivil 2026 3 29 2 30) = 29579100 * MINUTE_MS.
Proof.
  destruct (wall_clock_readings_correct paris_spring (mkCivil 2026 3 29 2 30) 29579100 60 120 paris_changes_once) as (_ & Hnil & Hend).
  - vm_compute. congruence.
  - split; [exact (proj2 Hnil paris_swallowed)|exact (Hend paris_swallowed)].
Defined.

(** ** Zones whose offset never changes *)
Lemma fixed_offset o t : offsetMinutesAt (fixed_zone o) t = o.
Proof. unfold offsetMinutesAt, fixed_zone, MINUTE_MS. div_lia. Qed.

(** The wall clock of the instant is one of the times of the schedule. *)
Definition matches_schedule (wallClockAsUtc : Z → Z) (schedule : CronSchedule) (t : Z) : Prop :=
  let '(f, weekday) := localFieldsAt wallClockAsUtc t in
  t mod MINUTE_MS = 0 ∧ daySatisfies schedule (mkDay (civilMonth f) (civilDay f) weekday) = true ∧
  civilHour f ∈ hours schedule ∧ civilMinute f ∈ minutes schedule.

Section Fixed.
Context (o : Z) (s : CronSchedule) (Ho : -1440 < o < 1440) (Hs : schedule_sound s).
Notation zone := (fixed_zone o).
Notation local t := (t + o * MINUTE_MS).
Notation slotsAt k i := (slotsOfDay zone s (dayAt (k * DAY_MS) i)).

Lemma fixed_readings civil x :
  FIRST_ORDINARY_MS + 2 * DAY_MS ≤ civilUtcMsOf civil → x ∈ instantsReading zone civil ↔ x = civilUtcMsOf civil - o * MINUTE_MS.
Proof.
  intros Hyear. rewrite (instantsReading_elem zone civil (civilUtcMsOf civil / 60000) o o); [rewrite fixed_offset; lia| |done].
  constructor; [intros t; by rewrite fixed_offset|intros; apply fixed_offset..|]. unfold MINUTE_MS, DAY_MS. div_lia.
Qed.
Lemma fixed_slotsOfTime day hour minute x :
  FIRST_ORDINARY_MS + 2 * DAY_MS ≤ UTC (dayYear day) (month (dayFields day) - 1) (dayOfMonth (dayFields day)) hour minute →
  x ∈ slotsOfTime zone s day hour minute ↔
  x = UTC (dayYear day) (month (dayFields day) - 1) (dayOfMonth (dayFields day)) hour minute - o * MINUTE_MS.
Proof.
  intros Hyear. unfold slotsOfTime. set (civil := mkCivil _ _ _ _ _).
  change (UTC _ _ _ _ _) with (civilUtcMsOf civil) in *. pose proof (λ y, fixed_readings civil y Hyear) as Hread.
  destruct (instantsReading zone civil) as [|first rest].
  { exfalso. apply (elem_of_nil (civilUtcMsOf civil - o * MINUTE_MS)). by apply Hread. }
  assert (first = civilUtcMsOf civil - o * MINUTE_MS) as -> by (apply Hread; auto with fleet).
  destruct (firesEveryHour s); [apply Hread|]. by rewrite list_elem_of_singleton.
Qed.

Lemma dayAt_UTC k i hour minute :
  FIRST_ORDINARY_MS ≤ (k + i) * DAY_MS → let day := dayAt (k * DAY_MS) i in
  UTC (dayYear day) (month (dayFields day) - 1) (dayOfMonth (dayFields day)) hour minute = (k + i) * DAY_MS + hour * 3600000 + minute * 60000.
Proof.
  intros Hyear. cbn [dayAt dayYear dayFields month dayOfMonth]. rewrite Z.add_simpl_r, <- Z.mul_add_distr_r, UTC_of_day by by apply ordinary_from.
  unfold dayOf, DAY_MS, MS_PER_DAY. by rewrite Z.div_mul.
Qed.
Lemma fixed_slotsAt k i x :
  FIRST_ORDINARY_MS + 2 * DAY_MS ≤ (k + i) * DAY_MS →
  x ∈ slotsAt k i ↔
  daySatisfies s (dayFields (dayAt (k * DAY_MS) i)) = true ∧
  ∃ h m, h ∈ hours s ∧ m ∈ minutes s ∧ x = (k + i) * DAY_MS + h * 3600000 + m * 60000 - o * MINUTE_MS.
Proof.
  intros Hyear. unfold slotsOfDay. destruct (daySatisfies _ _); [|split; [by intros ?%elem_of_nil|by intros [? _]]].
  rewrite sort_numbers_elem, elem_of_elements, elem_of_list_to_set.
  assert (∀ h m, h ∈ hours s → m ∈ minutes s → x ∈ slotsOfTime zone s (dayAt (k * DAY_MS) i) h m ↔ x = (k + i) * DAY_MS + h * 3600000 + m * 60000 - o * MINUTE_MS) as Htime.
  { intros h m Hh%(sound_hours _ Hs) Hm%(sound_minutes _ Hs). pose proof (dayAt_UTC k i h m) as HU. cbv zeta in HU.
    unfold FIRST_ORDINARY_MS, DAY_MS in *. rewrite fixed_slotsOfTime, HU; [done|lia|rewrite HU; [unfold FIRST_ORDINARY_MS, DAY_MS; lia|lia]]. }
  rewrite list_elem_of_In, in_concat. setoid_rewrite <- list_elem_of_In. split.
  - intros (l & (h & -> & Hh)%list_elem_of_fmap & Hx). rewrite list_elem_of_In, in_concat in Hx. setoid_rewrite <- list_elem_of_In in Hx.
    destruct Hx as (l & (m & -> & Hm)%list_elem_of_fmap & Hx).
    unfold sortedHours, sortedMinutes in *. rewrite sort_numbers_elem, elem_of_elements in Hh, Hm. split; [done|]. exists h, m. split_and!; [done..|]. by apply Htime.
  - intros (_ & h & m & Hh & Hm & Hx). eexists. split.
    + apply list_elem_of_fmap. exists h. split; [reflexivity|]. unfold sortedHours. by rewrite sort_numbers_elem, elem_of_elements.
    + rewrite list_elem_of_In, in_concat. setoid_rewrite <- list_elem_of_In. eexists. split; [|by apply (Htime h m)].
      apply list_elem_of_fmap. exists m. split; [reflexivity|]. unfold sortedMinutes. by rewrite sort_numbers_elem, elem_of_elements.
Qed.
(** The slots of a day are the minutes of that day that match the schedule. *)
Lemma fixed_slots k i x :
  FIRST_ORDINARY_MS + 2 * DAY_MS ≤ (k + i) * DAY_MS → x ∈ slotsAt k i ↔ matches_schedule zone s x ∧ dayOf (local x) = k + i.
Proof.
  intros Hyear. rewrite fixed_slotsAt by done. unfold matches_schedule, localFieldsAt, fieldsAtUtc. rewrite fixed_offset.
  cbn [civilMonth civilDay civilHour civilMinute dayAt dayFields]. rewrite <- Z.mul_add_distr_r.
  assert (dayOf ((k + i) * DAY_MS) = k + i) as Hday by (unfold dayOf, DAY_MS, MS_PER_DAY; by rewrite Z.div_mul). split.
  - intros (Hsat & h & m & Hh & Hm & ->). pose proof (sound_hours _ Hs) as [_ Bh]. pose proof (sound_minutes _ Hs) as [_ Bm].
    specialize (Bh h Hh). specialize (Bm m Hm). rewrite Z.sub_simpl_r. change DAY_MS with MS_PER_DAY in *.
    assert (dayOf ((k + i) * MS_PER_DAY + h * 3600000 + m * 60000) = k + i) as Hd.
    { rewrite <- Z.add_assoc. apply dayOf_compose. unfold MS_PER_DAY. lia. }
    destruct (same_day_fields ((k + i) * MS_PER_DAY + h * 3600000 + m * 60000) ((k + i) * MS_PER_DAY)) as (_ & -> & -> & ->); [lia|].
    rewrite hours_compose, minutes_compose by done. split_and!; try done. unfold MS_PER_DAY, MINUTE_MS.
    replace ((k + i) * 86400000 + h * 3600000 + m * 60000 - o * 60000) with (((k + i) * 1440 + h * 60 + m - o) * 60000) by lia. by apply Z_mod_mult.
  - intros ((Hmod & Hsat & Hh & Hm) & Hd). destruct (same_day_fields (local x) ((k + i) * DAY_MS)) as (_ & HM & HD & HW); [lia|].
    rewrite <- HM, <- HD, <- HW. split; [done|]. do 2 eexists. split_and!; [exact Hh|exact Hm|]. revert Hd Hmod.
    unfold dayOf, getUTCHours, getUTCMinutes, MS_PER_DAY, DAY_MS, MINUTE_MS. intros <-. div_lia.
Qed.
Lemma fixed_dayStart t : FIRST_ORDINARY_MS ≤ local t → localDayStartUtcMs zone t = dayOf (local t) * DAY_MS.
Proof.
  intros Hyear. unfold localDayStartUtcMs, localFieldsAt, fieldsAtUtc. cbn [fst civilYear civilMonth civilDay].
  rewrite fixed_offset, Z.add_simpl_r, UTC_of_day by by apply ordinary_from. unfold DAY_MS, MS_PER_DAY. lia.
Qed.
End Fixed.

(** ** The searches *)
Lemma slotsOfDay_sorted zone s day : sorted (λ x, x) (slotsOfDay zone s day).
Proof. unfold slotsOfDay. destruct (daySatisfies _ _); [apply sort_by_sorted|constructor]. Qed.
Lemma slotsOfDay_NoDup zone s day : NoDup (slotsOfDay zone s day).
Proof.
  unfold slotsOfDay. destruct (daySatisfies _ _); [|constructor]. unfold sort_numbers. rewrite sort_by_perm. apply NoDup_elements.
Qed.
Lemma find_first_sorted l after :
  sorted (λ x, x) l →
  match find (λ slot, Z.ltb after slot) l with
  | Some x => x ∈ l ∧ after < x ∧ ∀ y, y ∈ l → after < y → x ≤ y
  | None => ∀ y, y ∈ l → y ≤ after
  end.
Proof.
  induction 1 as [|x l Hle Hs IH]; cbn; [by intros y ?%elem_of_nil|].
  destruct (Z.ltb_spec after x) as [Hlt|Hge].
  - split_and!; [auto with fleet|done|]. intros y [->|Hy]%elem_of_cons _; [lia|by apply Hle].
  - destruct (find _ l) as [y|].
    + destruct IH as (Hin & Hlt & Hmin). split_and!; [auto with fleet|done|]. intros z [->|Hz]%elem_of_cons Hlt'; [lia|by apply Hmin].
    + intros y [->|Hy]%elem_of_cons; [lia|by apply IH].
Qed.
Lemma next_from_spec zone s days offset ref after :
  match next_from zone s days offset ref after with
  | Some x => ∃ i, offset ≤ i < offset + Z.of_nat days ∧ x ∈ slotsOfDay zone s (dayAt ref i) ∧ after < x ∧
      (∀ y, y ∈ slotsOfDay zone s (dayAt ref i) → after < y → x ≤ y) ∧
      (∀ j y, offset ≤ j < i → y ∈ slotsOfDay zone s (dayAt ref j) → y ≤ after)
  | None => ∀ j y, offset ≤ j < offset + Z.of_nat days → y ∈ slotsOfDay zone s (dayAt ref j) → y ≤ after
  end.
Proof.
  revert offset. induction days as [|n IH]; intros offset; cbn [next_from]; [intros; lia|].
  pose proof (find_first_sorted _ after (slotsOfDay_sorted zone s (dayAt ref offset))) as Hf. destruct (find _ _) as [x|].
  - destruct Hf as (? & ? & ?). exists offset. split_and!; try done; lia.
  - specialize (IH (offset + 1)). destruct (next_from zone s n (offset + 1) ref after) as [x|].
    + destruct IH as (i & Hi & Hin & Hlt & Hmin & Hprev). exists i. split_and!; try done; try lia.
      intros j y Hj. destruct (decide (j = offset)) as [->|]; [apply Hf|apply Hprev; lia].
    + intros j y Hj. destruct (decide (j = offset)) as [->|]; [apply Hf|apply IH; lia].
Qed.

Lemma dayOf_mono a b : a ≤ b → dayOf a ≤ dayOf b.
Proof. intros H. unfold dayOf. by apply Z.div_le_mono. Qed.
(** C36. In a zone of constant offset, the next slot of an accepted expression is the first minute strictly after the
    instant whose local date and time satisfy the five fields; when the search gives up, no minute of the
    following MAX_DAYS_SEARCHED days does. *)
Theorem nextAfter_is_the_first_match (o : Z) (expression : str) (s : CronSchedule) (after : Z)
    (Ho : -1440 < o < 1440) (Hs : cronScheduleOf expression = Some s) (Hafter : FIRST_ORDINARY_MS + 5 * DAY_MS ≤ after) :
  match nextAfter (fixed_zone o) s after with
  | Some slot => after < slot ∧ matches_schedule (fixed_zone o) s slot ∧ ∀ t, after < t < slot → ¬ matches_schedule (fixed_zone o) s t
  | None => ∀ t, after < t → dayOf (t + o * MINUTE_MS) ≤ dayOf (after + o * MINUTE_MS) + MAX_DAYS_SEARCHED → ¬ matches_schedule (fixed_zone o) s t
  end.
Proof.
  apply cronScheduleOf_sound in Hs. set (k := dayOf (after + o * MINUTE_MS)).
  assert (FIRST_ORDINARY_MS + 3 * DAY_MS ≤ k * DAY_MS) as Hk.
  { unfold k, dayOf, FIRST_ORDINARY_MS, DAY_MS, MS_PER_DAY, MINUTE_MS in *. div_lia. }
  assert (∀ i, -1 ≤ i → FIRST_ORDINARY_MS + 2 * DAY_MS ≤ (k + i) * DAY_MS) as Hki by (unfold DAY_MS in *; lia).
  unfold nextAfter. rewrite fixed_dayStart by (unfold DAY_MS, MINUTE_MS in *; lia). fold k.
  pose proof (next_from_spec (fixed_zone o) s (Z.to_nat (MAX_DAYS_SEARCHED + 2)) (-1) (k * DAY_MS) after) as Hspec.
  assert (∀ t, after < t → k ≤ dayOf (t + o * MINUTE_MS)) as Hlater by (intros t Ht; apply dayOf_mono; lia).
  destruct (next_from _ _ _ _ _ _) as [slot|].
  - destruct Hspec as (i & Hi & Hin & Hlt & Hmin & Hprev). apply fixed_slots in Hin as [Hm Hd]; [|done..|by apply Hki; lia].
    split_and!; [done..|]. intros t Ht Hmt. pose proof (Hlater t ltac:(lia)).
    pose proof (dayOf_mono (t + o * MINUTE_MS) (slot + o * MINUTE_MS) ltac:(lia)) as Hle.
    assert (t ∈ slotsOfDay (fixed_zone o) s (dayAt (k * DAY_MS) (dayOf (t + o * MINUTE_MS) - k))) as Hin by (apply fixed_slots; [done..|apply Hki; lia|split; [done|lia]]).
    destruct (decide (dayOf (t + o * MINUTE_MS) - k = i)) as [Heq|Hne]; [rewrite Heq in Hin; apply Hmin in Hin; lia|].
    apply Hprev in Hin; lia.
  - intros t Ht Hd Hmt. pose proof (Hlater t Ht). apply (Z.lt_irrefl t). eapply Z.le_lt_trans; [|exact Ht].
    apply (Hspec (dayOf (t + o * MINUTE_MS) - k)); [unfold MAX_DAYS_SEARCHED in *; lia|]. apply fixed_slots; [done..|apply Hki; lia|split; [done|lia]].
Qed.
(** Every working day at nine, in a zone one hour ahead of UTC. *)
Definition weekday_mornings : CronSchedule :=
  mkSchedule {[0]} {[9]} (list_to_set (values_between 1 31 1)) (list_to_set (values_between 1 12 1)) (list_to_set [1; 2; 3; 4; 5]) true false.
Lemma weekday_mornings_parsed : cronScheduleOf (js "0 9 * * mon-fri") = Some weekday_mornings.
Proof. vm_compute. reflexivity. Qed.
Lemma weekday_mornings_next : nextAfter (fixed_zone 60) weekday_mornings (UTC 2026 0 2 10 0) = Some (UTC 2026 0 5 8 0).
Proof. vm_compute. reflexivity. Qed.
Lemma nextAfter_is_the_first_match_witness :
  nextAfter (fixed_zone 60) weekday_mornings (UTC 2026 0 2 10 0) = Some (UTC 2026 0 5 8 0) ∧
  ∀ t, UTC 2026 0 2 10 0 < t < UTC 2026 0 5 8 0 → ¬ matches_schedule (fixed_zone 60) weekday_mornings t.
Proof.
  split; [exact weekday_mornings_next|].
  pose proof (nextAfter_is_the_first_match 60 (js "0 9 * * mon-fri") weekday_mornings (UTC 2026 0 2 10 0)) as H.
  rewrite weekday_mornings_next in H. apply H; [done|exact weekday_mornings_parsed|vm_compute; congruence].
Defined.

(** The in-range slots of [days] days, newest first. *)
Fixpoint days_down (zone : Z → Z) (s : CronSchedule) (days : nat) (offset ref after at_ : Z) : list Z :=
  match days with
  | O => []
  | S n => reverse (in_range_slots zone s ref offset after at_) ++ days_down zone s n (offset - 1) ref after at_
  end.
Lemma newest_from_take zone s days offset ref after at_ limit found :
  take limit (newest_from zone s days offset ref after at_ limit found) = take limit (found ++ days_down zone s days offset ref after at_).
Proof.
  revert offset found. induction days as [|n IH]; intros offset found; cbn [newest_from days_down]; [by rewrite app_nil_r|].
  case_bool_decide as Hlen; [by rewrite IH, <- app_assoc|]. symmetry. apply take_app_le. lia.
Qed.
Lemma in_range_elem zone s ref i after at_ x :
  x ∈ in_range_slots zone s ref i after at_ ↔ (after < x ≤ at_) ∧ x ∈ slotsOfDay zone s (dayAt ref i).
Proof.
  unfold in_range_slots. rewrite list_elem_of_filter, andb_true_iff, Z.ltb_lt, Z.leb_le. done.
Qed.
Lemma days_down_elem zone s days offset ref after at_ x :
  x ∈ days_down zone s days offset ref after at_ ↔
  (after < x ≤ at_) ∧ ∃ i, offset - Z.of_nat days < i ≤ offset ∧ x ∈ slotsOfDay zone s (dayAt ref i).
Proof.
  revert offset. induction days as [|n IH]; intros offset; cbn [days_down].
  { rewrite elem_of_nil. split; [done|]. intros (_ & i & Hi & _). lia. }
  rewrite elem_of_app, elem_of_reverse, in_range_elem, IH. split.
  - intros [[Hx Hin]|(Hx & i & Hi & Hin)]; (split; [done|]); [exists offset|exists i]; (split; [lia|done]).
  - intros (Hx & i & Hi & Hin). destruct (decide (i = offset)) as [->|]; [by left|right]. split; [done|]. exists i. split; [lia|done].
Qed.

(** Strictly decreasing lists. *)
Inductive decreasing : list Z → Prop :=
  | decreasing_nil : decreasing []
  | decreasing_cons x l : (∀ y, y ∈ l → y < x) → decreasing l → decreasing (x :: l).
Lemma decreasing_app l k : decreasing l → decreasing k → (∀ x y, x ∈ l → y ∈ k → y < x) → decreasing (l ++ k).
Proof.
  induction 1 as [|x l Hx Hl IH]; intros Hk Hlt; [done|]. constructor.
  - intros y [Hy|Hy]%elem_of_app; [by apply Hx|]. apply Hlt; [auto with fleet|done].
  - apply IH; [done|]. intros; apply Hlt; [auto with fleet|done].
Qed.
Lemma decreasing_reverse l : sorted (λ x, x) l → NoDup l → decreasing (reverse l).
Proof.
  induction 1 as [|x l Hle Hs IH]; intros Hnd; [constructor|]. apply list.NoDup_cons in Hnd as [Hx Hnd]. rewrite reverse_cons.
  apply decreasing_app; [by apply IH|repeat constructor; by intros ? ?%elem_of_nil|].
  intros y z Hy ->%list_elem_of_singleton. rewrite elem_of_reverse in Hy. pose proof (Hle y Hy). assert (x ≠ y) by congruence. lia.
Qed.
Lemma decreasing_take n l : decreasing l → decreasing (take n l).
Proof.
  intros H. revert n. induction H as [|x l Hx Hl IH]; intros [|n]; cbn; constructor; [|done].
  intros y Hy. apply Hx. eapply elem_of_take in Hy as (i & Hi & _). by apply list_elem_of_lookup_2 in Hi.
Qed.
(** What a prefix of a decreasing list leaves out is older than all it keeps. *)
Lemma decreasing_left_out n l t : decreasing l → t ∈ l → t ∉ take n l → length (take n l) = n ∧ ∀ x, x ∈ take n l → t < x.
Proof.
  intros H. revert n. induction H as [|x l Hx Hl IH]; intros [|n] Ht Hout; cbn in *; try done.
  { split; [done|]. by intros ? ?%elem_of_nil. }
  apply not_elem_of_cons in Hout as [Hne Hout]. apply elem_of_cons in Ht as [->|Ht]; [done|].
  destruct (IH n Ht Hout) as [Hlen Hlt]. split; [lia|]. intros y [->|Hy]%elem_of_cons; [by apply Hx|by apply Hlt].
Qed.
Lemma sorted_filter P `{!∀ x, Decision (P x)} l : sorted (λ x : Z, x) l → sorted (λ x, x) (filter P l).
Proof.
  induction 1 as [|x l Hle Hs IH]; [constructor|]. rewrite filter_cons. case_decide; [|done]. constructor; [|done].
  intros y [_ Hy]%list_elem_of_filter. by apply Hle.
Qed.
Lemma days_down_decreasing o s days offset k after at_ :
  -1440 < o < 1440 → schedule_sound s → (∀ i, offset - Z.of_nat days < i ≤ offset → FIRST_ORDINARY_MS + 2 * DAY_MS ≤ (k + i) * DAY_MS) →
  decreasing (days_down (fixed_zone o) s days offset (k * DAY_MS) after at_).
Proof.
  intros Ho Hs. revert offset. induction days as [|n IH]; intros offset Hk; cbn [days_down]; [constructor|].
  apply decreasing_app; [|apply IH; intros; apply Hk; lia|].
  - apply decreasing_reverse; unfold in_range_slots; [apply sorted_filter, slotsOfDay_sorted|apply list.NoDup_filter, slotsOfDay_NoDup].
  - intros x y Hx (_ & i & Hi & Hy)%days_down_elem. rewrite elem_of_reverse, in_range_elem in Hx. destruct Hx as [_ Hx].
    apply (proj1 (fixed_slots o s Ho Hs k offset x (Hk offset ltac:(lia)))) in Hx as [_ Hx].
    apply (proj1 (fixed_slots o s Ho Hs k i y (Hk i ltac:(lia)))) in Hy as [_ Hy].
    destruct (Z.ltb_spec y x); [done|]. pose proof (dayOf_mono (x + o * MINUTE_MS) (y + o * MINUTE_MS) ltac:(lia)). lia.
Qed.

Lemma newestBetween_spec (o : Z) (s : CronSchedule) (after at_ : Z) (limit : nat)
    (Ho : -1440 < o < 1440) (Hs : schedule_sound s)
    (Hafter : FIRST_ORDINARY_MS + 5 * DAY_MS ≤ after) (Hat : after ≤ at_) :
  let slots := newestBetween (fixed_zone o) s after at_ limit in
  decreasing slots ∧ (length slots ≤ limit)%nat ∧
  (∀ t, t ∈ slots → (after < t ≤ at_) ∧ matches_schedule (fixed_zone o) s t) ∧
  (∀ t, after < t ≤ at_ → matches_schedule (fixed_zone o) s t →
     dayOf (at_ + o * MINUTE_MS) - MAX_DAYS_SEARCHED ≤ dayOf (t + o * MINUTE_MS) →
     t ∈ slots ∨ (length slots = limit ∧ ∀ x, x ∈ slots → t < x)).
Proof.
  set (k := dayOf (at_ + o * MINUTE_MS)). set (k0 := dayOf (after + o * MINUTE_MS)).
  assert (FIRST_ORDINARY_MS + 3 * DAY_MS ≤ k0 * DAY_MS) as Hk0.
  { unfold k0, dayOf, FIRST_ORDINARY_MS, DAY_MS, MS_PER_DAY, MINUTE_MS in *. div_lia. }
  assert (k0 ≤ k) as Hkk by (apply dayOf_mono; lia). set (back := Z.min MAX_DAYS_SEARCHED (k - k0 + 1)).
  assert (∀ i, 1 - Z.of_nat (Z.to_nat (back + 2)) < i ≤ 1 → FIRST_ORDINARY_MS + 2 * DAY_MS ≤ (k + i) * DAY_MS) as Hki.
  { intros i Hi. unfold back, MAX_DAYS_SEARCHED, DAY_MS in *. lia. }
  intros slots. assert (slots = take limit (days_down (fixed_zone o) s (Z.to_nat (back + 2)) 1 (k * DAY_MS) after at_)) as ->.
  { unfold slots, newestBetween. rewrite !fixed_dayStart by (unfold DAY_MS, MINUTE_MS in *; lia). fold k k0.
    replace (k * DAY_MS - k0 * DAY_MS + DAY_MS / 2) with (DAY_MS / 2 + (k - k0) * DAY_MS) by lia. rewrite Z.div_add by done.
    change (DAY_MS / 2 / DAY_MS) with 0. rewrite Z.add_0_l. fold back. apply newest_from_take. }
  assert (decreasing (days_down (fixed_zone o) s (Z.to_nat (back + 2)) 1 (k * DAY_MS) after at_)) as Hdec by by apply days_down_decreasing.
  split_and!; [by apply decreasing_take|rewrite length_take; lia| |].
  - intros t Ht. eapply elem_of_take in Ht as (j & Hj & _). apply list_elem_of_lookup_2, days_down_elem in Hj as (Hx & i & Hi & Hin).
    split; [done|]. by apply (fixed_slots o s Ho Hs k i t (Hki i Hi)).
  - intros t Ht Hm Hd.
    pose proof (dayOf_mono (after + o * MINUTE_MS) (t + o * MINUTE_MS) ltac:(lia)) as H1. pose proof (dayOf_mono (t + o * MINUTE_MS) (at_ + o * MINUTE_MS) ltac:(lia)) as H2.
    fold k0 in H1. fold k in H2. destruct (decide (t ∈ take limit (days_down (fixed_zone o) s (Z.to_nat (back + 2)) 1 (k * DAY_MS) after at_))) as [|Hout]; [by left|right].
    apply decreasing_left_out; [done| |done]. apply days_down_elem. split; [done|]. exists (dayOf (t + o * MINUTE_MS) - k).
    assert (1 - Z.of_nat (Z.to_nat (back + 2)) < dayOf (t + o * MINUTE_MS) - k ≤ 1) as Hi by (unfold back, MAX_DAYS_SEARCHED in *; lia).
    split; [done|]. apply fixed_slots; [done..|by apply Hki|split; [done|lia]].
Qed.
Lemma newestBetween_days zone s after at_ limit :
  ∃ days ref, newestBetween zone s after at_ limit = take limit (days_down zone s days 1 ref after at_).
Proof. unfold newestBetween. cbv zeta. do 2 eexists. rewrite newest_from_take, app_nil_l. reflexivity. Qed.
Lemma newestBetween_within zone s after at_ limit x : x ∈ newestBetween zone s after at_ limit → after < x ≤ at_.
Proof.
  destruct (newestBetween_days zone s after at_ limit) as (days & ref & ->).
  intros (i & Hi & _)%elem_of_take. by apply list_elem_of_lookup_2, days_down_elem in Hi as [? _].
Qed.

(** In a zone of constant offset, the newest slots between two instants are exactly the most recent
    minutes of the interval that match the schedule, newest first, each once, at most as many as asked; a
    matching minute is left out only when that many newer ones are listed, or when it is older than
    MAX_DAYS_SEARCHED days. *)
Theorem newestBetween_lists_the_latest (o : Z) (expression : str) (s : CronSchedule) (after at_ : Z) (limit : nat)
    (Ho : -1440 < o < 1440) (Hs : cronScheduleOf expression = Some s)
    (Hafter : FIRST_ORDINARY_MS + 5 * DAY_MS ≤ after) (Hat : after ≤ at_) :
  let slots := newestBetween (fixed_zone o) s after at_ limit in
  decreasing slots ∧ (length slots ≤ limit)%nat ∧
  (∀ t, t ∈ slots → (after < t ≤ at_) ∧ matches_schedule (fixed_zone o) s t) ∧
  (∀ t, after < t ≤ at_ → matches_schedule (fixed_zone o) s t →
     dayOf (at_ + o * MINUTE_MS) - MAX_DAYS_SEARCHED ≤ dayOf (t + o * MINUTE_MS) →
     t ∈ slots ∨ (length slots = limit ∧ ∀ x, x ∈ slots → t < x)).
Proof. apply newestBetween_spec; [done|by eapply cronScheduleOf_sound|done..]. Qed.
Lemma weekday_mornings_newest :
  newestBetween (fixed_zone 60) weekday_mornings (UTC 2026 0 1 0 0) (UTC 2026 0 6 0 0) 2 = [UTC 2026 0 5 8 0; UTC 2026 0 2 8 0].
Proof. vm_compute. reflexivity. Qed.
Lemma newestBetween_lists_the_latest_witness :
  decreasing (newestBetween (fixed_zone 60) weekday_mornings (UTC 2026 0 1 0 0) (UTC 2026 0 6 0 0) 2).
Proof.
  apply (newestBetween_lists_the_latest 60 (js "0 9 * * mon-fri") weekday_mornings (UTC 2026 0 1 0 0) (UTC 2026 0 6 0 0) 2);
    [done|exact weekday_mornings_parsed|vm_compute; congruence|vm_compute; congruence].
Defined.

(** ** Accepted expressions fire *)
Definition numbers (lo : Z) (n : nat) : list Z := (λ i, lo + Z.of_nat i) <$> seq 0 n.
Lemma numbers_elem lo n x : x ∈ numbers lo n ↔ lo ≤ x < lo + Z.of_nat n.
Proof.
  unfold numbers. rewrite list_elem_of_fmap. split.
  - intros (i & -> & Hi%elem_of_seq). lia.
  - intros H. exists (Z.to_nat (x - lo)). split; [lia|]. apply elem_of_seq. lia.
Qed.
Definition falls_on (m d w year : Z) : bool :=
  let ms := MakeDay year (m - 1) d * MS_PER_DAY in
  Z.eqb (getUTCFullYear ms) year && Z.eqb (getUTCMonth ms + 1) m && Z.eqb (getUTCDate ms) d && Z.eqb (getUTCDay ms) w.
Lemma forallb_numbers f lo n x : forallb f (numbers lo n) = true → lo ≤ x < lo + Z.of_nat n → f x = true.
Proof. rewrite forallb_forall. intros H Hx. by apply H, list_elem_of_In, numbers_elem. Qed.
(** In the 28 years from 2000 every date falls on every day of the week. *)
Definition falls_within_cycle (m d w : Z) : bool := match find (falls_on m d w) (numbers 2000 28) with Some _ => true | None => false end.
Definition longest (m : Z) : nat := match longestMonth m with Some n => Z.to_nat n | None => O end.
Lemma cycle_checked :
  forallb (λ m, forallb (λ d, forallb (falls_within_cycle m d) (numbers 0 7)) (numbers 1 (longest m))) (numbers 1 12) = true.
Proof. vm_compute. reflexivity. Qed.
Lemma every_date_every_weekday m d w n :
  1 ≤ m ≤ 12 → longestMonth m = Some n → 1 ≤ d ≤ n → 0 ≤ w ≤ 6 → ∃ year, 2000 ≤ year < 2028 ∧ falls_on m d w year = true.
Proof.
  intros Hm Hn Hd Hw. pose proof (forallb_numbers _ 1 12 m cycle_checked ltac:(lia)) as H. cbv beta in H.
  apply (forallb_numbers _ 1 (longest m) d) in H; [|unfold longest; rewrite Hn; lia].
  apply (forallb_numbers _ 0 7 w) in H; [|lia]. unfold falls_within_cycle in H. destruct (find _ _) as [y|] eqn:E; [|done].
  apply find_some in E as [Hy E]. rewrite <- list_elem_of_In, numbers_elem in Hy. exists y. split; [lia|done].
Qed.
Lemma daySatisfies_all s day :
  month day ∈ months s → dayOfMonth day ∈ daysOfMonth s ∨ negb (isDayOfMonthWildcard s) && negb (isDayOfWeekWildcard s) = true →
  weekday day ∈ daysOfWeek s → daySatisfies s day = true.
Proof.
  intros Hm Hd Hw. unfold daySatisfies. rewrite (bool_decide_true (month day ∈ _)), (bool_decide_true (weekday day ∈ _)) by done. cbn.
  destruct Hd as [Hd| ->]; [|by rewrite orb_true_r]. rewrite bool_decide_true by done. by destruct (_ && _).
Qed.
(** No accepted expression is dead: among the days of the years 2000 to 2027 (one turn of the 28-year cycle) there is a real
    calendar day that satisfies the three day fields, so the schedule has slots, since its hours and minutes
    are never empty. *)
Theorem accepted_expression_fires (expression : str) (s : CronSchedule) (Hs : cronScheduleOf expression = Some s) :
  (∃ h m, h ∈ hours s ∧ m ∈ minutes s) ∧
  ∃ ms, 2000 ≤ getUTCFullYear ms < 2028 ∧ daySatisfies s (mkDay (getUTCMonth ms + 1) (getUTCDate ms) (getUTCDay ms)) = true.
Proof.
  apply cronScheduleOf_sound in Hs as [[(mi & Hmi) _] [(h & Hh) _] [_ Bd] [(m0 & Hm0) Bm] [(w & Hw) Bw] Hday]. split; [by exists h, mi|].
  assert (∃ m d n, m ∈ months s ∧ (d ∈ daysOfMonth s ∨ negb (isDayOfMonthWildcard s) && negb (isDayOfWeekWildcard s) = true) ∧
    longestMonth m = Some n ∧ 1 ≤ d ≤ n) as (m & d & n & Hm & Hd & En & Hdn).
  { destruct Hday as [Hor|(m & d & n & Hm & Hd & En & Hle)].
    - destruct (longestMonth_some m0 (Bm m0 Hm0)) as (n & En & Hn). exists m0, 1, n. split_and!; [done|by right|done|lia|lia].
    - exists m, d, n. split_and!; [done|by left|done|by apply Bd|done]. }
  destruct (every_date_every_weekday m d w n) as (year & Hy & H); [by apply Bm|done..|by apply Bw|].
  unfold falls_on in H. rewrite !andb_true_iff, !Z.eqb_eq in H. destruct H as [[[HY HM] HD] HW].
  exists (MakeDay year (m - 1) d * MS_PER_DAY). split; [by rewrite HY|]. rewrite HM, HD, HW. by apply daySatisfies_all.
Qed.
Lemma accepted_expression_fires_witness :
  ∃ ms, 2000 ≤ getUTCFullYear ms < 2028 ∧ daySatisfies weekday_mornings (mkDay (getUTCMonth ms + 1) (getUTCDate ms) (getUTCDay ms)) = true.
Proof. exact (proj2 (accepted_expression_fires (js "0 9 * * mon-fri") weekday_mornings weekday_mornings_parsed)). Defined.

(** The first of January when it is a Sunday: both day fields must hold, since the second starts with a star. *)
Definition sunday_new_year : CronSchedule := mkSchedule {[0]} {[0]} {[1]} {[1]} {[0]} false true.
Lemma sunday_new_year_parsed : cronScheduleOf (js "0 0 1 1 */7") = Some sunday_new_year.
Proof. vm_compute. reflexivity. Qed.
(** The search of eight years does not reach every slot: after 2 January 2023 this expression, which is accepted,
    has no next slot, although 1 January 2034 matches it. *)
Theorem search_gives_up_before_a_slot :
  nextAfter (fixed_zone 0) sunday_new_year (UTC 2023 0 2 0 0) = None ∧ matches_schedule (fixed_zone 0) sunday_new_year (UTC 2034 0 1 0 0).
Proof. split; [vm_compute; reflexivity|]. unfold matches_schedule. vm_compute. split_and!; reflexivity. Qed.
