(* ===== verification/TriggerLedger.v ===== *)
(** * The ledger of trigger fires

    Models of [packages/core/src/triggers/fireLedger.ts] (the table [trigger_fires], its
    rows in rowid order), of [firePolicy.ts] (the daily cap and the cooldown) and of the
    repository of triggers ([triggerRepository.ts]).  Dates are epoch milliseconds. *)
From S2P Require Import Prelude JsText PolicyTypes PolicyDocument Sorting.

Inductive TriggerLedgerState := Accepted | Attempted | Completed | Cancelled | NeedsReview.
#[export] Instance TriggerLedgerState_eq_dec : EqDecision TriggerLedgerState.
Proof. solve_decision. Defined.
Inductive TriggerFireReason :=
  | Interrupted | Stale | Superseded | Batched | Disarmed | TargetUnavailable | TargetNotEligible
  | Cooldown | DailyCap | BreakerOpen | ChainDepth | ActionFailed.
#[export] Instance TriggerFireReason_eq_dec : EqDecision TriggerFireReason.
Proof. solve_decision. Defined.

(** A row of [trigger_fires]; the fire the code passes around is its row. *)
Record TriggerFire := mkFire
  { fire_id : str;
    fire_triggerId : str;
    fire_dedupKey : str;
    fire_state : TriggerLedgerState;
    fire_firedAt : Z;
    fire_settledAt : option Z;
    fire_settleReason : option TriggerFireReason;
    fire_runId : option str;
    fire_eventDigest : str;
    fire_eventJson : str;
    fire_chainDepth : Z;
    fire_effectStartedAt : option Z }.
Abbreviation fires := (list TriggerFire).

Definition FORGOTTEN_EVENT_JSON : str := js "{}".
Definition STATES_THAT_REACHED_THE_EFFECT : list TriggerLedgerState := [Attempted; Completed; NeedsReview].
Definition STATES_THAT_CAN_BE_FORGOTTEN : list TriggerLedgerState := [Completed; Cancelled].
Definition reached (f : TriggerFire) : bool := bool_decide (fire_state f ∈ STATES_THAT_REACHED_THE_EFFECT).
Definition has_id (id : str) (f : TriggerFire) : bool := str_eqb (fire_id f) id.
Definition is_state (state : TriggerLedgerState) (f : TriggerFire) : bool := bool_decide (fire_state f = state).

(** ** Reading *)
Definition getFire (t : fires) (id : str) : option TriggerFire := find (has_id id) t.
Definition same_key (triggerId dedupKey : str) (f : TriggerFire) : bool :=
  str_eqb (fire_triggerId f) triggerId && str_eqb (fire_dedupKey f) dedupKey.
Definition getByDedupKey (t : fires) (triggerId dedupKey : str) : option TriggerFire := find (same_key triggerId dedupKey) t.
(** Newest first: [ORDER BY fired_at DESC, rowid DESC]. *)
Definition listOfTrigger (t : fires) (triggerId : str) (limit : nat) (state : option TriggerLedgerState) : fires :=
  take limit (reverse (sort_by fire_firedAt (filter (λ f, fire_triggerId f = triggerId ∧
    match state with None => true | Some st => is_state st f end = true) t))).
Definition listAccepted (t : fires) : fires := sort_by fire_firedAt (filter (λ f, fire_state f = Accepted) t).
Definition listAcceptedOf (t : fires) (triggerId : str) : fires :=
  sort_by fire_firedAt (filter (λ f, fire_triggerId f = triggerId ∧ fire_state f = Accepted) t).
Definition countEffectsStartedBetween (t : fires) (triggerId : str) (from until : Z) (exceptId : str) : nat :=
  length (filter (λ f, fire_triggerId f = triggerId ∧ fire_id f ≠ exceptId ∧ reached f = true ∧
    match fire_effectStartedAt f with Some at_ => Z.leb from at_ && Z.ltb at_ until | None => false end = true) t).
(** [MAX(...)] over no row is [NULL]. *)
Definition max_option (l : list Z) : option Z :=
  match l with [] => None | x :: l' => Some (fold_left Z.max l' x) end.
Definition latestReachedEffectAt (t : fires) (triggerId exceptId : str) : option Z :=
  max_option ((λ f, default (fire_firedAt f) (fire_settledAt f))
    <$> filter (λ f, fire_triggerId f = triggerId ∧ fire_id f ≠ exceptId ∧ reached f = true) t).

(** A message of [message_queue]: its id, its session and when it was queued. *)
Record QueuedRow := mkQueuedRow { queued_id : str; queued_session : str; queued_at : Z }.
Definition messaged (messages : list QueuedRow) (sessionIds : list str) (from until : option Z) (f : TriggerFire) : bool :=
  existsb (λ m, str_eqb (queued_id m) (fire_id f) && mem_str (queued_session m) sessionIds
    && match from with Some a => Z.leb a (queued_at m) | None => true end
    && match until with Some b => Z.leb (queued_at m) b | None => true end) messages.
Definition causesOf (t : fires) (messages : list QueuedRow) (sessionIds : list str) (since until : Z) : list (str * Z) :=
  if bool_decide (length sessionIds = 0) then []
  else remove_dups ((λ f, (fire_triggerId f, fire_chainDepth f))
    <$> filter (λ f, messaged messages sessionIds (Some since) (Some until) f = true ∧ reached f = true) t).
Definition deepestChainMessagedSince (t : fires) (messages : list QueuedRow) (sessionIds : list str) (since : Z) : Z :=
  if bool_decide (length sessionIds = 0) then 0
  else default 0%Z (max_option (fire_chainDepth
    <$> filter (λ f, messaged messages sessionIds None None f = true ∧ (since ≤ fire_firedAt f)%Z ∧ reached f = true) t)).

(** ** Writing *)
Definition set_state (state : TriggerLedgerState) (settledAt : option Z) (reason : option TriggerFireReason)
  (runId : option str) (effectStartedAt : option Z) (f : TriggerFire) : TriggerFire :=
  mkFire (fire_id f) (fire_triggerId f) (fire_dedupKey f) state (fire_firedAt f) settledAt reason runId
    (fire_eventDigest f) (fire_eventJson f) (fire_chainDepth f) effectStartedAt.
Definition update_fires (condition : TriggerFire → bool) (change : TriggerFire → TriggerFire) (t : fires) : fires :=
  (λ f, if condition f then change f else f) <$> t.

(** [None]: the insert breaks the primary key and throws. *)
Definition acceptFire (t : fires) (fire : TriggerFire) : option (fires * bool * TriggerFire) :=
  match getByDedupKey t (fire_triggerId fire) (fire_dedupKey fire) with
  | Some existing => Some (t, false, existing)
  | None => match getFire t (fire_id fire) with Some _ => None | None => Some (t ++ [fire], true, fire) end
  end.

Definition attempting (id : str) (f : TriggerFire) : bool := has_id id f && is_state Accepted f.
Definition markAttempted (t : fires) (id : str) (effectStartedAt : Z) : fires * bool :=
  (update_fires (attempting id)
     (λ f, set_state Attempted (fire_settledAt f) (fire_settleReason f) (fire_runId f) (Some effectStartedAt) f) t,
   existsb (attempting id) t).
Definition markCompleted (t : fires) (id : str) (settledAt : Z) (runId : option str) : fires :=
  update_fires (λ f, has_id id f && is_state Attempted f)
    (λ f, set_state Completed (Some settledAt) (fire_settleReason f)
            (match runId with Some r => Some r | None => fire_runId f end) (fire_effectStartedAt f) f) t.
Definition markCancelled (t : fires) (id : str) (settledAt : Z) (reason : TriggerFireReason) : fires :=
  update_fires (λ f, has_id id f && (is_state Accepted f || is_state Attempted f))
    (λ f, set_state Cancelled (Some settledAt) (Some reason) (fire_runId f) (fire_effectStartedAt f) f) t.
Definition markInterruptedForReview (t : fires) (settledAt : Z) : fires * nat :=
  (update_fires (is_state Attempted)
     (λ f, set_state NeedsReview (Some settledAt) (Some Interrupted) (fire_runId f) (fire_effectStartedAt f) f) t,
   length (filter (λ f, is_state Attempted f = true) t)).

(** The rows after [afterRowid] that can be forgotten, with their rowids (from 1). *)
Definition forgettable (settledBefore : Z) (f : TriggerFire) : bool :=
  bool_decide (fire_state f ∈ STATES_THAT_CAN_BE_FORGOTTEN)
  && match fire_settledAt f with Some at_ => Z.ltb at_ settledBefore | None => false end
  && negb (str_eqb (fire_eventJson f) FORGOTTEN_EVENT_JSON).
Definition forget_event (f : TriggerFire) : TriggerFire :=
  mkFire (fire_id f) (fire_triggerId f) (fire_dedupKey f) (fire_state f) (fire_firedAt f) (fire_settledAt f)
    (fire_settleReason f) (fire_runId f) (fire_eventDigest f) FORGOTTEN_EVENT_JSON (fire_chainDepth f) (fire_effectStartedAt f).
Fixpoint forget_rows (settledBefore : Z) (rowid afterRowid batchSize : nat) (t : fires) : fires * nat * nat :=
  match t with
  | [] => ([], 0, afterRowid)
  | f :: rest =>
      match batchSize with
      | O => (t, 0, afterRowid)
      | S batch' =>
          if bool_decide (afterRowid < rowid) && forgettable settledBefore f then
            let '(rest', forgotten, lastRowid) := forget_rows settledBefore (S rowid) rowid batch' rest in
            (forget_event f :: rest', S forgotten, lastRowid)
          else
            let '(rest', forgotten, lastRowid) := forget_rows settledBefore (S rowid) afterRowid batchSize rest in
            (f :: rest', forgotten, lastRowid)
      end
  end.
Definition forgetSettledEvents (t : fires) (settledBefore : Z) (afterRowid batchSize : nat) : fires * nat * nat :=
  forget_rows settledBefore 1 afterRowid batchSize t.

(** ** Triggers *)
Inductive TriggerBatchMode := PerEvent | PerBatch.
Inductive TriggerBacklogPolicy := FireAll | FireLatestOnly | DiscardStale.
#[export] Instance TriggerBatchMode_eq_dec : EqDecision TriggerBatchMode.
Proof. solve_decision. Defined.
#[export] Instance TriggerBacklogPolicy_eq_dec : EqDecision TriggerBacklogPolicy.
Proof. solve_decision. Defined.
Record TriggerPolicy := mkTriggerPolicy
  { cooldownSeconds : Z;
    maxFiresPerDay : option nat;
    batchMode : TriggerBatchMode;
    backlogPolicy : TriggerBacklogPolicy;
    backlogMaxAgeMinutes : option Z }.
(** [approvedGraphOf(trigger)]: what a human approves when arming. *)
Record ApprovedGraph := mkGraph
  { ownerManagerId : option str; when_ : json; conditions : json; run_ : json; policy : TriggerPolicy }.
Record TriggerRecord := mkTrigger
  { trigger_id : str;
    trigger_projectId : str;
    trigger_title : str;
    trigger_graph : ApprovedGraph;
    contentRev : Z;
    armedAt : option Z;
    approvedRev : option Z;
    approvedGraphDigest : option str;
    trigger_createdAt : Z;
    trigger_updatedAt : Z }.
Abbreviation triggers_table := (list TriggerRecord).

Definition getTrigger (t : triggers_table) (id : str) : option TriggerRecord := find (λ r, str_eqb (trigger_id r) id) t.
(** [ORDER BY created_at, id]: ids are compared as texts. *)
Definition comes_before (a b : TriggerRecord) : bool :=
  Z.ltb (trigger_createdAt a) (trigger_createdAt b)
  || (Z.eqb (trigger_createdAt a) (trigger_createdAt b) && str_ltb (trigger_id a) (trigger_id b)).
Fixpoint insert_in_order (r : TriggerRecord) (t : triggers_table) : triggers_table :=
  match t with
  | [] => [r]
  | x :: rest => if comes_before r x then r :: t else x :: insert_in_order r rest
  end.
Definition in_creation_order (t : triggers_table) : triggers_table := fold_right insert_in_order [] t.
Definition listOfProject (t : triggers_table) (projectId : str) : triggers_table :=
  in_creation_order (filter (λ r, trigger_projectId r = projectId) t).
Definition listArmed (t : triggers_table) : triggers_table :=
  in_creation_order (filter (λ r, armedAt r ≠ None) t).
(** A new trigger is at the first revision and not armed; [None]: the id is taken and the insert throws. *)
Definition insertTrigger (t : triggers_table) (id projectId title : str) (graph : ApprovedGraph) (createdAt : Z)
  : option triggers_table :=
  match getTrigger t id with
  | Some _ => None
  | None => Some (t ++ [mkTrigger id projectId title graph 1 None None None createdAt createdAt])
  end.
(** The fires of a deleted trigger go with it: [ON DELETE CASCADE]. *)
Definition deleteTrigger (t : triggers_table) (ledger : fires) (id : str) : triggers_table * fires * bool :=
  (filter (λ r, trigger_id r ≠ id) t, filter (λ f, fire_triggerId f ≠ id) ledger,
   existsb (λ r, str_eqb (trigger_id r) id) t).
(** What an edit gives; [content_ownerManagerId] is [Some None] when it clears the owner. *)
Record TriggerContent := mkContent
  { content_title : option str; content_when : option json; content_conditions : option json; content_run : option json;
    content_policy : option TriggerPolicy; content_ownerManagerId : option (option str) }.
Definition edited_graph (content : TriggerContent) (g : ApprovedGraph) : ApprovedGraph :=
  mkGraph (default (ownerManagerId g) (content_ownerManagerId content)) (default (when_ g) (content_when content))
    (default (conditions g) (content_conditions content)) (default (run_ g) (content_run content))
    (default (policy g) (content_policy content)).
Definition replaceContent (t : triggers_table) (id : str) (expectedRev : Z) (content : TriggerContent) (now : Z)
  : triggers_table * bool :=
  let condition r := str_eqb (trigger_id r) id && Z.eqb (contentRev r) expectedRev in
  ((λ r, if condition r
         then mkTrigger (trigger_id r) (trigger_projectId r) (default (trigger_title r) (content_title content))
                (edited_graph content (trigger_graph r))
                (contentRev r + 1) None None None (trigger_createdAt r) now
         else r) <$> t,
   existsb condition t).
Definition arm (t : triggers_table) (id : str) (rev : Z) (digest : str) (now : Z) : triggers_table * bool :=
  let condition r := str_eqb (trigger_id r) id && Z.eqb (contentRev r) rev in
  ((λ r, if condition r
         then mkTrigger (trigger_id r) (trigger_projectId r) (trigger_title r) (trigger_graph r) (contentRev r)
                (Some now) (Some rev) (Some digest) (trigger_createdAt r) (trigger_updatedAt r)
         else r) <$> t,
   existsb condition t).
Definition disarm (t : triggers_table) (id : str) : triggers_table :=
  (λ r, if str_eqb (trigger_id r) id
        then mkTrigger (trigger_id r) (trigger_projectId r) (trigger_title r) (trigger_graph r) (contentRev r)
               None None None (trigger_createdAt r) (trigger_updatedAt r)
        else r) <$> t.

(** ** The policy of a fire *)
Inductive FireVerdict := Proceed | Cancel (reason : TriggerFireReason) | Hold (waitMs : Z).

(** [dayBounds now] is the local day of [now]: [localDayBoundsIso]. *)
Definition policyVerdictOf (dayBounds : Z → Z * Z) (trigger : TriggerRecord) (fire : TriggerFire) (ledger : fires) (now : Z)
  : FireVerdict :=
  let p := policy (trigger_graph trigger) in
  let '(from, until) := dayBounds now in
  let firesToday := countEffectsStartedBetween ledger (trigger_id trigger) from until (fire_id fire) in
  let isOverTheDailyCap := match maxFiresPerDay p with Some cap => bool_decide (cap ≤ firesToday) | None => false end in
  if isOverTheDailyCap then Cancel DailyCap
  else
    let cooldownEndsAt := match latestReachedEffectAt ledger (trigger_id trigger) (fire_id fire) with
                          | None => 0%Z
                          | Some at_ => (at_ + cooldownSeconds p * 1000)%Z
                          end in
    let isInCooldown := Z.ltb 0 (cooldownSeconds p) && Z.ltb now cooldownEndsAt in
    if negb isInCooldown then Proceed
    else if bool_decide (batchMode p = PerBatch) then Hold (cooldownEndsAt - now)
    else Cancel Cooldown.
