(* ===== verification/TriggerEngine.v ===== *)
(** * The trigger engine

    Model of [packages/core/src/triggers/triggerEngine.ts].  The engine is a program in a
    state and exception monad over the database (ledger, triggers, queued messages) and
    the memory of the daemon (breaker, drain timers).  [fuse] counts the database writes
    left before the daemon is killed: a spent fuse stops the program at that write with
    everything already written kept, so every crash point between two writes is a run of
    the model.  What the engine is given (clock, ids, digests, conditions, actions) is the
    interface [World]. *)
From S2P Require Import Prelude JsText PolicyTypes PolicyDocument Sorting Guards TriggerLedger.

Definition MAX_EVENT_JSON_CHARS : nat := 8192.
Definition MAX_CHAIN_DEPTH : Z := 2.
Definition MINUTE_MS : Z := 60000.
Definition DEFAULT_STALE_BACKLOG_MINUTES : Z := 60.
Definition CHAIN_CAUSE_WINDOW_MINUTES : Z := 60.

Inductive ActionResult := ActionCompleted (runId : option str) | ActionCancelled (reason : TriggerFireReason).

(** What the daemon hands the engine: the successive readings of the clock, the ids it
    mints, the digests, the conditions of a trigger on an event, and the action of a
    trigger, which may throw ([None]) and may queue messages. *)
Class World := mkWorld
  { clock : nat → Z;
    newId : nat → str;
    graphDigest : ApprovedGraph → str;
    eventDigest : json → str;
    stringify : json → str;
    conditionsHold : json → json → bool;
    dayBounds : Z → Z * Z;
    perform : TriggerRecord → TriggerFire → nat → option ActionResult * list QueuedRow }.

Record SettledFire := mkSettled { settled_triggerId : str; settled_fireId : str; settled_state : TriggerLedgerState; settled_reason : option TriggerFireReason }.

Record engine := mkEngine
  { triggers : triggers_table;
    ledger : fires;
    messages : list QueuedRow;
    breaker : list Z;
    drainTimers : rec Z;
    ticks : nat;
    mintedIds : nat;
    fuse : option nat;
    effects : list str;
    settled : list SettledFire }.

(** ** The monad: [None] when an exception escapes or the daemon dies. *)
Definition M (A : Type) : Type := engine → engine * option A.
Global Instance M_ret : MRet M := λ A a s, (s, Some a).
Global Instance M_bind : MBind M := λ A B k m s, match m s with (s', Some a) => k a s' | (s', None) => (s', None) end.
Definition throw {A} : M A := λ s, (s, None).
Definition gets {A} (f : engine → A) : M A := λ s, (s, Some (f s)).
Fixpoint forEach {A} (f : A → M unit) (l : list A) : M unit :=
  match l with [] => mret () | x :: rest => f x ≫= λ _, forEach f rest end.

(** One database write: the fuse burns first. *)
Definition db_write {A} (change : engine → engine * option A) : M A := λ s,
  match fuse s with
  | Some O => (s, None)
  | Some (S n) => change (mkEngine (triggers s) (ledger s) (messages s) (breaker s) (drainTimers s) (ticks s) (mintedIds s) (Some n) (effects s) (settled s))
  | None => change s
  end.
Definition set_ledger (t : fires) (s : engine) : engine :=
  mkEngine (triggers s) t (messages s) (breaker s) (drainTimers s) (ticks s) (mintedIds s) (fuse s) (effects s) (settled s).
Definition set_triggers (t : triggers_table) (s : engine) : engine :=
  mkEngine t (ledger s) (messages s) (breaker s) (drainTimers s) (ticks s) (mintedIds s) (fuse s) (effects s) (settled s).
Definition set_memory (b : list Z) (timers : rec Z) (s : engine) : engine :=
  mkEngine (triggers s) (ledger s) (messages s) b timers (ticks s) (mintedIds s) (fuse s) (effects s) (settled s).
Definition write_ledger (change : fires → fires) : M unit := db_write (λ s, (set_ledger (change (ledger s)) s, Some ())).

Section Engine.
Context `{World}.

Definition readClock : M Z := λ s,
  (mkEngine (triggers s) (ledger s) (messages s) (breaker s) (drainTimers s) (S (ticks s)) (mintedIds s) (fuse s) (effects s) (settled s),
   Some (clock (ticks s))).
Definition mintId : M str := λ s,
  (mkEngine (triggers s) (ledger s) (messages s) (breaker s) (drainTimers s) (ticks s) (S (mintedIds s)) (fuse s) (effects s) (settled s),
   Some (newId (mintedIds s))).
Definition onSettled (e : SettledFire) : M unit := λ s,
  (mkEngine (triggers s) (ledger s) (messages s) (breaker s) (drainTimers s) (ticks s) (mintedIds s) (fuse s) (effects s) (settled s ++ [e]), Some ()).

Definition isArmedAsItStands (trigger : TriggerRecord) : bool :=
  bool_decide (armedAt trigger ≠ None) && bool_decide (approvedGraphDigest trigger = Some (graphDigest (trigger_graph trigger))).

Definition string_field (fields : list (str * json)) (k : str) : list str :=
  match get fields k with Some (JStr s) => [s] | _ => [] end.
Definition sessionIdsOf (event : json) : list str :=
  match event with
  | JObj fields =>
      match get fields (js "session") with
      | Some (JObj session) => string_field session (js "id") ++ string_field session (js "parentId")
      | _ => []
      end
  | _ => []
  end.

Definition chainDepthOf (event : json) : M Z :=
  now ← readClock;
  depth ← gets (λ s, deepestChainMessagedSince (ledger s) (messages s) (sessionIdsOf event) (now - CHAIN_CAUSE_WINDOW_MINUTES * MINUTE_MS)%Z);
  mret (depth + 1)%Z.

Inductive Acceptance := Filtered | EventTooLarge | Duplicate (fire : TriggerFire) | NewFire (fire : TriggerFire).

Definition insertFire (fire : TriggerFire) : M (bool * TriggerFire) :=
  db_write (λ s, match acceptFire (ledger s) fire with
                 | Some (t, wasAccepted, f) => (set_ledger t s, Some (wasAccepted, f))
                 | None => (s, None)
                 end).
Definition accept (trigger : TriggerRecord) (dedupKey : str) (event : json) (firedAtMs : Z) (causedByChainDepth : option Z) : M Acceptance :=
  if negb (conditionsHold (conditions (trigger_graph trigger)) event) then mret Filtered
  else
    let eventJson := stringify event in
    if bool_decide (MAX_EVENT_JSON_CHARS < length eventJson) then mret EventTooLarge
    else
      id ← mintId;
      depth ← chainDepthOf event;
      result ← insertFire (mkFire id (trigger_id trigger) dedupKey Accepted firedAtMs None None None (eventDigest event) eventJson
                             (Z.max depth (default 0 causedByChainDepth + 1))%Z None);
      mret (if result.1 : bool then NewFire result.2 else Duplicate result.2).

Definition cancel (fire : TriggerFire) (reason : TriggerFireReason) : M unit :=
  now ← readClock;
  _ ← write_ledger (λ t, markCancelled t (fire_id fire) now reason);
  onSettled (mkSettled (fire_triggerId fire) (fire_id fire) Cancelled (Some reason)).
Definition cancelled (fire : TriggerFire) (reason : TriggerFireReason) : M TriggerLedgerState :=
  _ ← cancel fire reason; mret Cancelled.

Definition openBreaker (trigger : TriggerRecord) (fire : TriggerFire) : M TriggerLedgerState :=
  _ ← db_write (λ s, (set_triggers (disarm (triggers s) (trigger_id trigger)) s, Some ()));
  _ ← cancel fire BreakerOpen;
  mret Cancelled.

(** A timer is its trigger and its delay; [scheduleDrain] keeps the one already set. *)
Definition scheduleDrain (triggerId : str) (waitMs : Z) : M unit := λ s,
  if has_own (drainTimers s) triggerId then (s, Some ())
  else (set_memory (breaker s) (put (drainTimers s) triggerId waitMs) s, Some ()).
Definition breakerTryStartAt (now : Z) : M bool := λ s,
  let '(b, isStarted) := FireBreaker.tryStart (breaker s) now in (set_memory b (drainTimers s) s, Some isStarted).
Definition breakerTryStart : M bool := now ← readClock; breakerTryStartAt now.

(** The action runs: its fire is recorded in [effects], its messages are queued. *)
Definition performSafely (trigger : TriggerRecord) (fire : TriggerFire) (batchSize : nat) : M ActionResult := λ s,
  let '(result, queued) := perform trigger fire batchSize in
  (mkEngine (triggers s) (ledger s) (messages s ++ queued) (breaker s) (drainTimers s) (ticks s) (mintedIds s) (fuse s)
     (effects s ++ [fire_id fire]) (settled s),
   Some (default (ActionCancelled ActionFailed) result)).

Definition attempt (fire : TriggerFire) (effectStartedAt : Z) : M bool :=
  db_write (λ s, let '(t, owns) := markAttempted (ledger s) (fire_id fire) effectStartedAt in (set_ledger t s, Some owns)).
Definition settle (fire : TriggerFire) (result : ActionResult) (settledAt : Z) : M TriggerLedgerState :=
  match result with
  | ActionCompleted runId =>
      _ ← write_ledger (λ t, markCompleted t (fire_id fire) settledAt runId);
      _ ← onSettled (mkSettled (fire_triggerId fire) (fire_id fire) Completed None);
      mret Completed
  | ActionCancelled reason =>
      _ ← write_ledger (λ t, markCancelled t (fire_id fire) settledAt reason);
      _ ← onSettled (mkSettled (fire_triggerId fire) (fire_id fire) Cancelled (Some reason));
      mret Cancelled
  end.
Definition run (trigger : TriggerRecord) (fire : TriggerFire) (batchSize : nat) : M TriggerLedgerState :=
  startedAt ← readClock;
  stillOwnsTheFire ← attempt fire startedAt;
  if negb stillOwnsTheFire then gets (λ s, default Cancelled (fire_state <$> getFire (ledger s) (fire_id fire)))
  else
    result ← performSafely trigger fire batchSize;
    settledAt ← readClock;
    settle fire result settledAt.

Definition process (trigger : TriggerRecord) (fire : TriggerFire) (batchSize : nat) : M TriggerLedgerState :=
  if Z.ltb MAX_CHAIN_DEPTH (fire_chainDepth fire) then cancelled fire ChainDepth
  else
    now ← readClock;
    verdict ← gets (λ s, policyVerdictOf dayBounds trigger fire (ledger s) now);
    match verdict with
    | Cancel reason => cancelled fire reason
    | Hold waitMs => _ ← scheduleDrain (trigger_id trigger) waitMs; mret Accepted
    | Proceed =>
        isStarted ← breakerTryStart;
        if negb isStarted then openBreaker trigger fire else run trigger fire batchSize
    end.

Inductive SubmitResult := NotArmed | SubmitFiltered | SubmitTooLarge | SubmitDuplicate (fireId : str) | Fired (fireId : str) (state : TriggerLedgerState).
Definition submit (triggerId dedupKey : str) (event : json) (causedByChainDepth : option Z) : M SubmitResult :=
  found ← gets (λ s, getTrigger (triggers s) triggerId);
  match found with
  | None => mret NotArmed
  | Some trigger =>
      if negb (isArmedAsItStands trigger) then mret NotArmed
      else
        now ← readClock;
        accepted ← accept trigger dedupKey event now causedByChainDepth;
        match accepted with
        | Filtered => mret SubmitFiltered
        | EventTooLarge => mret SubmitTooLarge
        | Duplicate fire => mret (SubmitDuplicate (fire_id fire))
        | NewFire fire => state ← process trigger fire 1; mret (Fired (fire_id fire) state)
        end
  end.

Definition backlogMaxAgeMsOf (trigger : TriggerRecord) : option Z :=
  let p := policy (trigger_graph trigger) in
  match backlogMaxAgeMinutes p with
  | Some minutes => Some (minutes * MINUTE_MS)%Z
  | None => if bool_decide (backlogPolicy p = DiscardStale) then Some (DEFAULT_STALE_BACKLOG_MINUTES * MINUTE_MS)%Z else None
  end.
Definition isFreshEnough (trigger : TriggerRecord) (now : Z) (fire : TriggerFire) : bool :=
  match backlogMaxAgeMsOf trigger with Some maxAge => Z.leb (now - fire_firedAt fire) maxAge | None => true end.
Definition replayBacklogOf (trigger : TriggerRecord) (acceptedFires : fires) : M unit :=
  now ← readClock;
  if negb (isArmedAsItStands trigger) then forEach (λ fire, cancel fire Disarmed) acceptedFires
  else
    let fresh := filter (λ fire, isFreshEnough trigger now fire = true) acceptedFires in
    let latestOnly := bool_decide (backlogPolicy (policy (trigger_graph trigger)) = FireLatestOnly) in
    let kept := if latestOnly then drop (length fresh - 1) fresh else fresh in
    let superseded := if latestOnly then take (length fresh - 1) fresh else [] in
    _ ← forEach (λ fire, cancel fire Stale) (filter (λ fire, isFreshEnough trigger now fire = false) acceptedFires);
    _ ← forEach (λ fire, cancel fire Superseded) superseded;
    forEach (λ fire, _ ← process trigger fire 1; mret ()) kept.

Record Offer := mkOffer { offer_dedupKey : str; offer_event : json; offer_dueAtMs : Z; offer_cause : option Z }.
Fixpoint accept_offers (trigger : TriggerRecord) (offers : list Offer) : M fires :=
  match offers with
  | [] => mret []
  | offer :: rest =>
      accepted ← accept trigger (offer_dedupKey offer) (offer_event offer) (offer_dueAtMs offer) (offer_cause offer);
      others ← accept_offers trigger rest;
      mret (match accepted with NewFire fire => fire :: others | _ => others end)
  end.
Definition submitBacklog (triggerId : str) (offers : list Offer) : M unit :=
  found ← gets (λ s, getTrigger (triggers s) triggerId);
  match found with
  | None => mret ()
  | Some trigger =>
      if negb (isArmedAsItStands trigger) then mret ()
      else
        acceptedFires ← accept_offers trigger (sort_by offer_dueAtMs offers);
        if bool_decide (0 < length acceptedFires) then replayBacklogOf trigger acceptedFires else mret ()
  end.

(** The fires by trigger, in the order a trigger is first met. *)
Definition groupByTrigger (l : fires) : rec fires :=
  fold_left (λ groups f, put groups (fire_triggerId f) (default [] (get groups (fire_triggerId f)) ++ [f])) l [].
Definition replayAcceptedBacklog : M unit :=
  groups ← gets (λ s, groupByTrigger (listAccepted (ledger s)));
  forEach (λ group : str * fires,
    found ← gets (λ s, getTrigger (triggers s) group.1);
    match found with None => mret () | Some trigger => replayBacklogOf trigger group.2 end) groups.
Definition recover : M unit :=
  now ← readClock;
  _ ← write_ledger (λ t, (markInterruptedForReview t now).1);
  replayAcceptedBacklog.
Definition stop : M unit := λ s, (set_memory (breaker s) [] s, Some ()).

Definition drainBatchOf (triggerId : str) : M unit :=
  trigger ← gets (λ s, getTrigger (triggers s) triggerId);
  held ← gets (λ s, listAcceptedOf (ledger s) triggerId);
  match head (reverse held) with
  | None => mret ()
  | Some newest =>
      match trigger with
      | Some t =>
          if isArmedAsItStands t then
            _ ← forEach (λ fire, cancel fire Batched) (take (length held - 1) held);
            _ ← process t newest (length held);
            mret ()
          else forEach (λ fire, cancel fire Disarmed) held
      | None => forEach (λ fire, cancel fire Disarmed) held
      end
  end.
(** The callback of a drain timer. *)
Definition clearDrainTimer (triggerId : str) : M unit := λ s,
  (set_memory (breaker s) (filter (λ e : str * Z, e.1 ≠ triggerId) (drainTimers s)) s, Some ()).
Definition drainTimerFires (triggerId : str) : M unit :=
  _ ← clearDrainTimer triggerId; drainBatchOf triggerId.
End Engine.
