(* ===== verification/TriggerEngineFacts.v ===== *)
(** * The trigger engine: facts

    An invariant of the ledger and the performed effects that every program of the engine
    preserves from every state and at every crash point, and what follows: the effect of
    a fire happens at most once, and a fire never leaves a final state. *)
From S2P Require Import Prelude JsText PolicyTypes PolicyDocument Sorting Guards TriggerLedger TriggerEngine.

(** ** The life of a fire *)
Definition key_of (f : TriggerFire) : str * str := (fire_triggerId f, fire_dedupKey f).
(** [accepted] may go anywhere, [attempted] only to a final state, a final state nowhere. *)
Definition may_become (a b : TriggerLedgerState) : Prop := a = b ∨ a = Accepted ∨ (a = Attempted ∧ b ≠ Accepted).
Lemma may_become_trans a b c : may_become a b → may_become b c → may_become a c.
Proof. unfold may_become. naive_solver. Qed.
Lemma may_become_not_accepted a b : may_become a b → a ≠ Accepted → b ≠ Accepted.
Proof. unfold may_become. naive_solver. Qed.

(** The same fire, later. *)
Definition same_fire (f f' : TriggerFire) : Prop :=
  fire_id f' = fire_id f ∧ key_of f' = key_of f ∧ fire_firedAt f' = fire_firedAt f ∧ may_become (fire_state f) (fire_state f').
Definition grows (t t' : fires) : Prop := ∀ f, f ∈ t → ∃ f', f' ∈ t' ∧ same_fire f f'.

Lemma same_fire_refl f : same_fire f f.
Proof. repeat split. by left. Qed.
Global Instance grows_preorder : PreOrder grows.
Proof.
  split.
  - intros t f Hf. exists f. split; [done|apply same_fire_refl].
  - intros t1 t2 t3 H12 H23 f Hf. destruct (H12 f Hf) as (f2 & Hf2 & Hs2). destruct (H23 f2 Hf2) as (f3 & Hf3 & Hs3).
    exists f3. split; [done|]. unfold same_fire in *. destruct Hs2 as (?&?&?&?), Hs3 as (?&?&?&?).
    split_and!; try congruence. by eapply may_become_trans.
Qed.

(** ** The invariant *)
Record consistent (t : fires) (performed : list str) : Prop := mkConsistent
  { ids_unique : NoDup (fire_id <$> t);
    keys_unique : NoDup (key_of <$> t);
    performed_once : NoDup performed;
    performed_attempted : ∀ e, e ∈ performed → ∃ f, f ∈ t ∧ fire_id f = e ∧ fire_state f ≠ Accepted }.
Definition sound (s : engine) : Prop := consistent (ledger s) (effects s).
Definition later (s s' : engine) : Prop := grows (ledger s) (ledger s') ∧ effects s `prefix_of` effects s'.
Global Instance later_preorder : PreOrder later.
Proof.
  split; [intros s; split; reflexivity|].
  intros s1 s2 s3 [H1 H2] [H3 H4]. split; [by transitivity (ledger s2)|by transitivity (effects s2)].
Qed.

(** A program that keeps the invariant and only moves fires forward, crash or not. *)
Class Safe {A} (m : M A) : Prop := safe : ∀ s, sound s → sound (m s).1 ∧ later s (m s).1.

Lemma safe_quiet {A} (m : M A) : (∀ s, ledger (m s).1 = ledger s ∧ effects (m s).1 = effects s) → Safe m.
Proof. intros Hm s Hs. unfold sound, later. destruct (Hm s) as [-> ->]. done. Qed.
Global Instance safe_ret {A} (a : A) : Safe (mret a).
Proof. by apply safe_quiet. Qed.
Global Instance safe_gets {A} (f : engine → A) : Safe (gets f).
Proof. by apply safe_quiet. Qed.
Global Instance safe_bind {A B} (m : M A) (k : A → M B) : Safe m → (∀ a, Safe (k a)) → Safe (m ≫= k).
Proof.
  intros Hm Hk s Hs. destruct (Hm s Hs) as [Hs1 Hl1]. unfold mbind, M_bind. destruct (m s) as [s1 [a|]]; [|done].
  destruct (Hk a s1 Hs1) as [Hs2 Hl2]. split; [done|]. simpl in *. by transitivity s1.
Qed.
Global Instance safe_if {A} (b : bool) (m1 m2 : M A) : Safe m1 → Safe m2 → Safe (if b then m1 else m2).
Proof. by destruct b. Qed.
Global Instance safe_forEach {A} (f : A → M unit) l : (∀ x, Safe (f x)) → Safe (forEach f l).
Proof. intros Hf. induction l as [|x l IH]; cbn [forEach]; apply _. Qed.

Lemma safe_db_write {A} (change : engine → engine * option A) :
  (∀ s, sound s → sound (change s).1 ∧ later s (change s).1) → Safe (db_write change).
Proof.
  intros Hc s Hs. unfold db_write. destruct (fuse s) as [[|n]|]; [done| |by apply Hc].
  destruct s as [tr le ms br dt ti mi fu ef se]. simpl.
  exact (Hc (mkEngine tr le ms br dt ti mi (Some n) ef se) Hs).
Qed.

(** ** Updates of the ledger *)
Lemma update_same condition change t f :
  (∀ f, condition f = true → same_fire f (change f)) → f ∈ t →
  ∃ f', f' ∈ update_fires condition change t ∧ same_fire f f'.
Proof.
  intros Hc Hf. exists (if condition f then change f else f). split.
  - apply list_elem_of_fmap. by exists f.
  - destruct (condition f) eqn:E; [by apply Hc|apply same_fire_refl].
Qed.
Lemma update_fmap {B} (g : TriggerFire → B) condition change t :
  (∀ f, condition f = true → g (change f) = g f) → g <$> update_fires condition change t = g <$> t.
Proof.
  intros Hg. unfold update_fires. rewrite <- list_fmap_compose. apply list_fmap_ext. intros i f _. simpl.
  destruct (condition f) eqn:E; [by apply Hg|done].
Qed.
Lemma update_consistent condition change t performed :
  (∀ f, condition f = true → same_fire f (change f)) → consistent t performed →
  consistent (update_fires condition change t) performed.
Proof.
  intros Hc [Hids Hkeys Hperf Hatt]. split; [| |done|].
  - rewrite update_fmap; [done|]. intros f Hf. by apply Hc.
  - rewrite update_fmap; [done|]. intros f Hf. by apply Hc.
  - intros e He. destruct (Hatt e He) as (f & Hf & Hid & Hst).
    destruct (update_same condition change t f Hc Hf) as (f' & Hf' & Hsame & _ & _ & Hb).
    exists f'. split_and!; [done|congruence|by eapply may_become_not_accepted].
Qed.
Global Instance safe_update condition change :
  (∀ f, condition f = true → same_fire f (change f)) → Safe (write_ledger (update_fires condition change)).
Proof.
  intros Hc. apply safe_db_write. intros s Hs. split.
  - by apply update_consistent.
  - split; [|done]. intros f Hf. by apply update_same.
Qed.

Lemma set_state_same st settledAt reason runId started f :
  may_become (fire_state f) st → same_fire f (set_state st settledAt reason runId started f).
Proof. by repeat split. Qed.
Lemma is_state_eq st f : is_state st f = true → fire_state f = st.
Proof. apply bool_decide_eq_true. Qed.

Global Instance safe_markCancelled id now reason : Safe (write_ledger (λ t, markCancelled t id now reason)).
Proof.
  apply safe_update. intros f [_ [Hf%is_state_eq|Hf%is_state_eq]%orb_true_iff]%andb_true_iff;
    apply set_state_same; rewrite Hf; unfold may_become; naive_solver.
Qed.
Global Instance safe_markCompleted id now runId : Safe (write_ledger (λ t, markCompleted t id now runId)).
Proof.
  apply safe_update. intros f [_ Hf%is_state_eq]%andb_true_iff.
  apply set_state_same; rewrite Hf; unfold may_become; naive_solver.
Qed.
Global Instance safe_markInterrupted now : Safe (write_ledger (λ t, (markInterruptedForReview t now).1)).
Proof.
  apply safe_update. intros f Hf%is_state_eq. apply set_state_same; rewrite Hf; unfold may_become; naive_solver.
Qed.

Lemma getFire_None t id : getFire t id = None → ∀ f, f ∈ t → fire_id f ≠ id.
Proof. intros Hg f Hf%list_elem_of_In. eapply find_none in Hg; [|exact Hf]. by apply str_eqb_neq in Hg. Qed.
Lemma getByDedupKey_None t a b : getByDedupKey t a b = None → ∀ f, f ∈ t → key_of f ≠ (a, b).
Proof.
  intros Hg f Hf%list_elem_of_In. eapply find_none in Hg; [|exact Hf]. unfold same_key in Hg.
  intros [= <- <-]. by rewrite !str_eqb_refl in Hg.
Qed.
Lemma NoDup_snoc {B} (g : TriggerFire → B) t f : NoDup (g <$> t) → (∀ f', f' ∈ t → g f' ≠ g f) → NoDup (g <$> t ++ [f]).
Proof.
  intros Hnd Hnew. rewrite fmap_app. apply list.NoDup_app. split; [done|]. split; [|apply list.NoDup_singleton].
  intros x Hx ->%list_elem_of_singleton. apply list_elem_of_fmap in Hx as (f' & Hf' & Hin). by apply (Hnew f').
Qed.
Global Instance safe_insertFire fire : Safe (insertFire fire).
Proof.
  apply safe_db_write. intros s [Hids Hkeys Hperf Hatt]. unfold acceptFire.
  destruct (getByDedupKey _ _ _) eqn:Hk; [done|]. destruct (getFire _ _) eqn:Hg; [done|]. simpl. split.
  - split; simpl; [|  |done|].
    + apply NoDup_snoc; [done|]. by apply getFire_None.
    + apply NoDup_snoc; [done|]. by apply getByDedupKey_None.
    + intros e He. destruct (Hatt e He) as (f & Hf & ?). exists f. split; [apply elem_of_app; by left|done].
  - split; simpl; [|done]. intros f Hf. exists f. split; [apply elem_of_app; by left|apply same_fire_refl].
Qed.

Lemma NoDup_fmap_inj {B} (g : TriggerFire → B) t x y : NoDup (g <$> t) → x ∈ t → y ∈ t → g x = g y → x = y.
Proof.
  induction t as [|z t IH]; [by intros _ ?%elem_of_nil|]. csimpl. intros [Hn Hnd]%list.NoDup_cons Hx Hy Hg.
  assert (Hin : ∀ w, w ∈ t → g w ≠ g z).
  { intros w Hw E. apply Hn. rewrite <- E. apply list_elem_of_fmap. by exists w. }
  apply elem_of_cons in Hx as [->|Hx], Hy as [->|Hy]; [done| | |by apply IH].
  - by destruct (Hin y Hy).
  - by destruct (Hin x Hx).
Qed.

(** ** Starting an effect *)
Lemma attempt_safe fire startedAt s :
  sound s →
  let s' := (attempt fire startedAt s).1 in
  sound s' ∧ later s s' ∧
  ((attempt fire startedAt s).2 = Some true →
   effects s' = effects s ∧ (fire_id fire ∉ effects s') ∧ ∃ f, f ∈ ledger s' ∧ fire_id f = fire_id fire ∧ fire_state f ≠ Accepted).
Proof.
  intros Hs.
  assert (Hchange : ∀ f, attempting (fire_id fire) f = true →
    same_fire f (set_state Attempted (fire_settledAt f) (fire_settleReason f) (fire_runId f) (Some startedAt) f)).
  { intros f [_ Hf%is_state_eq]%andb_true_iff. apply set_state_same. rewrite Hf. unfold may_become. tauto. }
  assert (Hcore : ∀ s, sound s →
    let '(t, owns) := markAttempted (ledger s) (fire_id fire) startedAt in
    consistent t (effects s) ∧ grows (ledger s) t ∧
    (owns = true → (fire_id fire ∉ effects s) ∧ ∃ f, f ∈ t ∧ fire_id f = fire_id fire ∧ fire_state f ≠ Accepted)).
  { clear s Hs. intros s Hs. unfold markAttempted. split_and!.
    - by apply update_consistent.
    - intros f Hf. by apply update_same.
    - intros (f & Hf%list_elem_of_In & Ha)%existsb_exists. pose proof Ha as [Hid%str_eqb_eq Hst%is_state_eq]%andb_true_iff.
      split.
      + intros He. destruct Hs as [Hids _ _ Hatt]. destruct (Hatt _ He) as (g & Hg & Hgid & Hgst). apply Hgst.
        enough (g = f) by congruence. apply (NoDup_fmap_inj fire_id (ledger s)); congruence || done.
      + eexists. split; [apply list_elem_of_fmap; exists f; split; [reflexivity|done]|]. rewrite Ha. simpl. done. }
  unfold attempt, db_write. destruct (fuse s) as [[|n]|] eqn:Hfuse.
  - split; [done|]. split; [reflexivity|done].
  - destruct s as [tr le ms br dt ti mi fu ef se].
    destruct (Hcore (mkEngine tr le ms br dt ti mi (Some n) ef se) Hs) as (H1 & H2 & H3).
    split; [exact H1|]. split; [split; [exact H2|reflexivity]|]. intros [= Ho]. split; [reflexivity|]. exact (H3 Ho).
  - destruct (Hcore s Hs) as (H1 & H2 & H3).
    split; [exact H1|]. split; [split; [exact H2|reflexivity]|]. intros [= Ho]. split; [reflexivity|]. exact (H3 Ho).
Qed.

Section Programs.
Context `{World}.

Global Instance safe_readClock : Safe readClock.
Proof. by apply safe_quiet. Qed.
Global Instance safe_mintId : Safe mintId.
Proof. by apply safe_quiet. Qed.
Global Instance safe_onSettled e : Safe (onSettled e).
Proof. by apply safe_quiet. Qed.
Global Instance safe_stop : Safe stop.
Proof. by apply safe_quiet. Qed.
Global Instance safe_clearDrainTimer id : Safe (clearDrainTimer id).
Proof. by apply safe_quiet. Qed.
Global Instance safe_scheduleDrain id wait : Safe (scheduleDrain id wait).
Proof. apply safe_quiet. intros s. unfold scheduleDrain. by destruct (has_own _ _). Qed.
Global Instance safe_breakerTryStart : Safe breakerTryStart.
Proof.
  apply safe_bind; [apply _|]. intros now. apply safe_quiet. intros s. unfold breakerTryStartAt.
  by destruct (FireBreaker.tryStart (breaker s) now).
Qed.
Lemma safe_disarm id : Safe (db_write (λ s, (set_triggers (disarm (triggers s) id) s, Some ()))).
Proof. apply safe_db_write. intros s Hs. split; [exact Hs|]. split; reflexivity. Qed.
Existing Instance safe_disarm.

Global Instance safe_cancel fire reason : Safe (cancel fire reason).
Proof. apply _. Qed.
Global Instance safe_cancelled fire reason : Safe (cancelled fire reason).
Proof. apply _. Qed.
Global Instance safe_openBreaker trigger fire : Safe (openBreaker trigger fire).
Proof. apply _. Qed.
Global Instance safe_settle fire result settledAt : Safe (settle fire result settledAt).
Proof. destruct result; apply _. Qed.

(** The only place where an effect starts: the fire was accepted, and no longer is. *)
Global Instance safe_run trigger fire batchSize : Safe (run trigger fire batchSize).
Proof.
  apply safe_bind; [apply _|]. intros startedAt s Hs.
  destruct (attempt_safe fire startedAt s Hs) as (Hs1 & Hl1 & Howns). unfold mbind, M_bind.
  destruct (attempt fire startedAt s) as [s1 [[]|]]; cbn [negb]; [|done|done]. simpl in Hs1, Hl1, Howns.
  destruct (Howns eq_refl) as (_ & Hnew & Hrow). clear Howns.
  unfold performSafely. destruct (perform trigger fire batchSize) as [result queued].
  set (s2 := mkEngine _ _ _ _ _ _ _ _ _ _).
  assert (Hs2 : sound s2).
  { destruct Hs1 as [Hids Hkeys Hperf Hatt]. split; simpl; [done|done| |].
    - apply list.NoDup_app. split; [done|]. split; [|apply list.NoDup_singleton].
      by intros x Hx ->%list_elem_of_singleton.
    - intros e [He| ->%list_elem_of_singleton]%elem_of_app; [by apply Hatt|done]. }
  assert (Hl2 : later s1 s2) by (split; simpl; [reflexivity|by eexists]).
  destruct (safe (m := settledAt ← readClock; settle fire (default (ActionCancelled ActionFailed) result) settledAt) s2 Hs2) as [Hs3 Hl3].
  split; [exact Hs3|]. transitivity s1; [done|]. transitivity s2; [done|exact Hl3].
Qed.

Global Instance safe_process trigger fire batchSize : Safe (process trigger fire batchSize).
Proof.
  unfold process. apply safe_if; [apply _|]. apply safe_bind; [apply _|]. intros now. apply safe_bind; [apply _|].
  intros [|reason|wait]; apply _.
Qed.
Global Instance safe_chainDepthOf event : Safe (chainDepthOf event).
Proof. apply _. Qed.
Global Instance safe_accept trigger key event at_ cause : Safe (accept trigger key event at_ cause).
Proof. unfold accept. apply _. Qed.
Global Instance safe_submit triggerId key event cause : Safe (submit triggerId key event cause).
Proof.
  unfold submit. apply safe_bind; [apply _|]. intros [trigger|]; [|apply _]. apply safe_if; [apply _|].
  apply safe_bind; [apply _|]. intros now. apply safe_bind; [apply _|]. intros []; apply _.
Qed.
Global Instance safe_replayBacklogOf trigger l : Safe (replayBacklogOf trigger l).
Proof. unfold replayBacklogOf. apply _. Qed.
Global Instance safe_accept_offers trigger offers : Safe (accept_offers trigger offers).
Proof. induction offers as [|offer offers IH]; cbn [accept_offers]; apply _. Qed.
Global Instance safe_submitBacklog triggerId offers : Safe (submitBacklog triggerId offers).
Proof. unfold submitBacklog. apply safe_bind; [apply _|]. intros []; apply _. Qed.
Global Instance safe_recover : Safe recover.
Proof.
  unfold recover, replayAcceptedBacklog. repeat (apply safe_bind; [apply _|]; intros ?).
  apply safe_forEach. intros group. apply safe_bind; [apply _|]. intros []; apply _.
Qed.
Global Instance safe_drainTimerFires triggerId : Safe (drainTimerFires triggerId).
Proof.
  unfold drainTimerFires, drainBatchOf. apply safe_bind; [apply _|]. intros _. apply safe_bind; [apply _|]. intros trigger.
  apply safe_bind; [apply _|]. intros held. destruct (head (reverse held)); [|apply _]. destruct trigger; apply _.
Qed.
End Programs.

(** ** Forgetting old events *)
Definition forgotten_from (settledBefore : Z) (f f' : TriggerFire) : Prop :=
  f' = f ∨ (f' = forget_event f ∧ forgettable settledBefore f = true).
Lemma forget_rows_pointwise settledBefore t : ∀ rowid after batch,
  Forall2 (forgotten_from settledBefore) t (forget_rows settledBefore rowid after batch t).1.1.
Proof.
  assert (Hrefl : ∀ l, Forall2 (forgotten_from settledBefore) l l).
  { intros l. induction l; constructor; [by left|done]. }
  induction t as [|f t IH]; intros rowid after [|batch]; cbn [forget_rows]; try apply Hrefl.
  destruct (bool_decide (after < rowid) && forgettable settledBefore f) eqn:Hf.
  - specialize (IH (S rowid) rowid batch). destruct (forget_rows _ _ _ _ t) as [[t' n] last]. constructor; [|done].
    right. apply andb_true_iff in Hf. tauto.
  - specialize (IH (S rowid) after (S batch)). destruct (forget_rows _ _ _ _ t) as [[t' n] last]. constructor; [by left|done].
Qed.
Lemma forgotten_same settledBefore f f' : forgotten_from settledBefore f f' → same_fire f f'.
Proof. intros [->|[-> _]]; [apply same_fire_refl|]. repeat split. by left. Qed.
Lemma forgotten_consistent settledBefore t t' performed :
  Forall2 (forgotten_from settledBefore) t t' → consistent t performed → consistent t' performed ∧ grows t t'.
Proof.
  intros Hall [Hids Hkeys Hperf Hatt].
  assert (Hgrow : grows t t').
  { intros f Hf. apply list_elem_of_lookup in Hf as [i Hi]. destruct (Forall2_lookup_l _ _ _ _ _ Hall Hi) as (f' & Hi' & Hff).
    exists f'. split; [by eapply list_elem_of_lookup_2|by eapply forgotten_same]. }
  assert (Hmap : ∀ B (g : TriggerFire → B), (∀ f f', same_fire f f' → g f' = g f) → g <$> t' = g <$> t).
  { intros B g Hg. clear -Hall Hg. induction Hall as [|f f' t t' Hf _ IH]; [done|]. csimpl. rewrite IH. f_equal.
    by eapply Hg, forgotten_same. }
  split; [|done]. split; [| |done|].
  - rewrite Hmap; [done|]. by intros f f' (?&?&?&?).
  - rewrite Hmap; [done|]. by intros f f' (?&?&?&?).
  - intros e He. destruct (Hatt e He) as (f & Hf & Hid & Hst). destruct (Hgrow f Hf) as (f' & Hf' & Hi & _ & _ & Hb).
    exists f'. split_and!; [done|congruence|by eapply may_become_not_accepted].
Qed.

(** ** Histories of the daemon *)
Inductive operation :=
  | OpSubmit (triggerId dedupKey : str) (event : json) (cause : option Z)
  | OpSubmitBacklog (triggerId : str) (offers : list Offer)
  | OpDrainTimer (triggerId : str)
  | OpRecover
  | OpStop
  | OpForget (settledBefore : Z) (afterRowid batchSize : nat)
  | OpTriggers (change : triggers_table → triggers_table)
  | OpMessages (change : list QueuedRow → list QueuedRow)
  | OpReboot (killedAfter : option nat).

Section Histories.
Context `{World}.

(** A reboot loses the memory of the daemon and keeps the database; [killedAfter] is how
    many writes the new process makes before it is killed. *)
Definition apply_operation (o : operation) (s : engine) : engine :=
  match o with
  | OpSubmit triggerId key event cause => (submit triggerId key event cause s).1
  | OpSubmitBacklog triggerId offers => (submitBacklog triggerId offers s).1
  | OpDrainTimer triggerId => (drainTimerFires triggerId s).1
  | OpRecover => (recover s).1
  | OpStop => (stop s).1
  | OpForget settledBefore after batch => set_ledger (forgetSettledEvents (ledger s) settledBefore after batch).1.1 s
  | OpTriggers change => set_triggers (change (triggers s)) s
  | OpMessages change =>
      mkEngine (triggers s) (ledger s) (change (messages s)) (breaker s) (drainTimers s) (ticks s) (mintedIds s) (fuse s) (effects s) (settled s)
  | OpReboot killedAfter =>
      mkEngine (triggers s) (ledger s) (messages s) [] [] (ticks s) (mintedIds s) killedAfter (effects s) (settled s)
  end.
Definition apply_operations (os : list operation) (s : engine) : engine := fold_left (λ s o, apply_operation o s) os s.

Lemma operation_safe o s : sound s → sound (apply_operation o s) ∧ later s (apply_operation o s).
Proof.
  intros Hs. destruct o as [tid key event cause|tid offers|tid| | |sb after batch|change|change|kill]; simpl;
    try (by apply safe); try (split; [exact Hs|split; reflexivity]).
  destruct (forgotten_consistent sb (ledger s) _ (effects s) (forget_rows_pointwise sb (ledger s) 1 after batch) Hs) as [? ?].
  split; [done|]. by split.
Qed.
Lemma operations_safe os s : sound s → sound (apply_operations os s) ∧ later s (apply_operations os s).
Proof.
  unfold apply_operations. revert s. induction os as [|o os IH]; intros s Hs; simpl; [by split|].
  destruct (operation_safe o s Hs) as [Hs1 Hl1]. destruct (IH _ Hs1) as [Hs2 Hl2]. split; [done|by etransitivity].
Qed.

Definition fresh_database (s : engine) : Prop := ledger s = [] ∧ effects s = [].

(** C4. At most once: in every history of the daemon that starts on an empty ledger, with
    any interleaving of events, backlogs, batch timers, recoveries, retention, edits of the
    triggers and kills after any number of database writes, the effect of a fire is
    started at most once, and no two effects belong to the same trigger and dedup key. *)
Theorem effects_happen_at_most_once os s :
  fresh_database s →
  NoDup (effects (apply_operations os s)) ∧
  ∀ e1 e2 f1 f2, e1 ∈ effects (apply_operations os s) → e2 ∈ effects (apply_operations os s) →
    f1 ∈ ledger (apply_operations os s) → f2 ∈ ledger (apply_operations os s) →
    fire_id f1 = e1 → fire_id f2 = e2 → key_of f1 = key_of f2 → e1 = e2.
Proof.
  intros [Hl He]. assert (Hs : sound s).
  { unfold sound. rewrite Hl, He. split; [constructor|constructor|constructor|]. by intros e ?%elem_of_nil. }
  destruct (operations_safe os s Hs) as [[_ Hkeys Hperf _] _]. split; [done|].
  intros e1 e2 f1 f2 _ _ Hf1 Hf2 <- <- Hk. f_equal. by eapply NoDup_fmap_inj.
Qed.

(** The ledger never forgets and never goes back: through any history, every fire
    stays in the ledger under its id, trigger, key and date; a fire that left [accepted]
    never returns to it, a completed, cancelled or reviewed fire never changes state, and
    the started effects are only added to. *)
Theorem fires_only_move_forward os s f :
  sound s → f ∈ ledger s →
  (∃ f', f' ∈ ledger (apply_operations os s) ∧ same_fire f f' ∧
         (fire_state f ∉ [Accepted; Attempted] → fire_state f' = fire_state f)) ∧
  effects s `prefix_of` effects (apply_operations os s).
Proof.
  intros Hs Hf. destruct (operations_safe os s Hs) as [_ [Hg Hp]]. split; [|done].
  destruct (Hg f Hf) as (f' & Hf' & Hsame). exists f'. split; [done|]. split; [done|].
  destruct Hsame as (_ & _ & _ & [Heq|[Ha|[Ha _]]]); intros Hn; [done| |]; rewrite Ha in Hn; set_solver.
Qed.
End Histories.

(** ** The policy of a fire *)
Lemma max_option_spec l : match max_option l with None => l = [] | Some m => m ∈ l ∧ ∀ x, x ∈ l → (x ≤ m)%Z end.
Proof.
  destruct l as [|x l]; [done|]. cbn [max_option]. revert x. induction l as [|y l IH]; intros x; simpl.
  - split; [left|]. by intros z ->%list_elem_of_singleton.
  - destruct (IH (Z.max x y)) as [Hin Hmax]. split.
    + apply elem_of_cons in Hin as [->|Hin]; [|by do 2 right].
      destruct (Z.max_spec x y) as [[_ ->]|[_ ->]]; [right; left|left].
    + intros z. rewrite !elem_of_cons. assert (Z.max x y ≤ fold_left Z.max l (Z.max x y))%Z by (apply Hmax; left).
      intros [->|[->|Hz]]; [lia|lia|]. apply Hmax. by right.
Qed.

(** What lets a fire proceed: the policy lets an effect start exactly when the effects
    the trigger started on that local day are below its cap and, if it has a cooldown,
    every earlier effect of the trigger ended at least that long ago; otherwise the fire is
    cancelled for the reason that applies, the cap first, or held for the rest of the
    cooldown when the trigger works by batches. *)
Theorem policyVerdictOf_correct dayBounds trigger fire ledger now :
  (0 ≤ now)%Z →
  let p := policy (trigger_graph trigger) in
  let today := countEffectsStartedBetween ledger (trigger_id trigger) (dayBounds now).1 (dayBounds now).2 (fire_id fire) in
  let capped := ∃ cap, maxFiresPerDay p = Some cap ∧ cap ≤ today in
  let cooling := (0 < cooldownSeconds p)%Z ∧ ∃ f, f ∈ ledger ∧ fire_triggerId f = trigger_id trigger ∧ fire_id f ≠ fire_id fire ∧
    fire_state f ∈ STATES_THAT_REACHED_THE_EFFECT ∧ (now < default (fire_firedAt f) (fire_settledAt f) + cooldownSeconds p * 1000)%Z in
  match policyVerdictOf dayBounds trigger fire ledger now with
  | Proceed => ¬ capped ∧ ¬ cooling
  | Cancel DailyCap => capped
  | Cancel Cooldown => ¬ capped ∧ cooling ∧ batchMode p = PerEvent
  | Cancel _ => False
  | Hold waitMs => ¬ capped ∧ cooling ∧ batchMode p = PerBatch ∧ (0 < waitMs)%Z
  end.
Proof.
  intros Hnow p today capped cooling. unfold policyVerdictOf. fold p.
  assert (Hcap : match maxFiresPerDay p with Some cap => bool_decide (cap ≤ today) | None => false end = true ↔ capped).
  { unfold capped. destruct (maxFiresPerDay p); [rewrite bool_decide_eq_true|]; naive_solver. }
  destruct (dayBounds now) as [from until] eqn:Hday. cbn [fst snd] in today. fold today.
  destruct (match maxFiresPerDay p with Some _ => _ | None => _ end); [by apply Hcap|].
  assert (Hnot : ¬ capped) by (intros ?%Hcap; done). clear Hcap.
  pose proof (max_option_spec ((λ f, default (fire_firedAt f) (fire_settledAt f))
    <$> filter (λ f, fire_triggerId f = trigger_id trigger ∧ fire_id f ≠ fire_id fire ∧ reached f = true) ledger)) as Hmax.
  fold (latestReachedEffectAt ledger (trigger_id trigger) (fire_id fire)) in Hmax.
  set (ends := match latestReachedEffectAt ledger (trigger_id trigger) (fire_id fire) with None => 0%Z | Some at_ => _ end).
  assert (Hcool : Z.ltb 0 (cooldownSeconds p) && Z.ltb now ends = true ↔ cooling).
  { unfold cooling, ends. rewrite andb_true_iff, !Z.ltb_lt. split; intros [Hc Hx]; (split; [done|]).
    - destruct (latestReachedEffectAt _ _ _) as [m|]; [|lia]. destruct Hmax as [Hin _].
      apply list_elem_of_fmap in Hin as (f & -> & [(Ht & Hi & Hr) Hf]%list_elem_of_filter).
      exists f. split_and!; try done. by apply bool_decide_eq_true in Hr.
    - destruct Hx as (f & Hf & Ht & Hi & Hr & Hlt).
      assert (Hin : default (fire_firedAt f) (fire_settledAt f) ∈ ((λ f, default (fire_firedAt f) (fire_settledAt f))
        <$> filter (λ f, fire_triggerId f = trigger_id trigger ∧ fire_id f ≠ fire_id fire ∧ reached f = true) ledger)).
      { apply list_elem_of_fmap. exists f. split; [done|]. apply list_elem_of_filter. split; [|done].
        split_and!; try done. by apply bool_decide_eq_true. }
      destruct (latestReachedEffectAt _ _ _) as [m|]; [|rewrite Hmax in Hin; by apply elem_of_nil in Hin].
      apply Hmax in Hin. lia. }
  destruct (Z.ltb 0 (cooldownSeconds p) && Z.ltb now ends) eqn:Hc; cbn [negb].
  - assert (cooling) by (by apply Hcool). apply andb_true_iff in Hc as [_ Hc%Z.ltb_lt].
    case_bool_decide as Hb; [split_and!; try done; lia|]. split_and!; try done. by destruct (batchMode p).
  - split; [done|]. by intros ?%Hcool.
Qed.

(** ** Editing a trigger disarms it *)
Lemma existsb_unique (t : triggers_table) c :
  existsb c t = true ↔ ∃ r, r ∈ t ∧ c r = true.
Proof. rewrite existsb_exists. setoid_rewrite list_elem_of_In. done. Qed.

Lemma arm_refused t id rev digest now :
  (∀ r, r ∈ t → str_eqb (trigger_id r) id && Z.eqb (contentRev r) rev = false) → arm t id rev digest now = (t, false).
Proof.
  intros Hfalse. unfold arm. f_equal.
  - induction t as [|y t IH]; [done|]. csimpl. rewrite (Hfalse y) by left. f_equal. apply IH.
    intros z Hz. apply Hfalse. by right.
  - destruct (existsb _ t) eqn:E; [|done]. apply existsb_unique in E as (y & Hy & Hc). by rewrite Hfalse in Hc.
Qed.

(** An approval never arms what was not approved: after an edit of a trigger succeeds,
    the trigger is disarmed, and an arming for the revision before the edit is refused and
    changes nothing. *)
Theorem edited_trigger_is_disarmed `{World} t id rev content now t' r digest later_ :
  NoDup (trigger_id <$> t) → replaceContent t id rev content now = (t', true) →
  r ∈ t' → trigger_id r = id →
  isArmedAsItStands r = false ∧ arm t' id rev digest later_ = (t', false).
Proof.
  unfold replaceContent. intros Hnd [= <- Hex] Hr Hid. apply existsb_unique in Hex as (r0 & Hr0 & Hc0).
  pose proof Hc0 as [Hid0%str_eqb_eq Hrev0%Z.eqb_eq]%andb_true_iff.
  apply list_elem_of_fmap in Hr as (x & -> & Hx).
  assert (Huniq : ∀ y, y ∈ t → trigger_id y = id → y = r0).
  { intros y Hy Hyid. clear -Hnd Hy Hr0 Hyid Hid0. induction t as [|z t IH]; [by apply elem_of_nil in Hy|].
    csimpl in Hnd. apply list.NoDup_cons in Hnd as [Hn Hnd].
    assert (Hin : ∀ w, w ∈ t → trigger_id w ≠ trigger_id z).
    { intros w Hw E. apply Hn. rewrite <- E. apply list_elem_of_fmap. by exists w. }
    apply elem_of_cons in Hy as [->|Hy], Hr0 as [->|Hr0]; [done| | |by apply IH].
    - destruct (Hin r0 Hr0). congruence.
    - destruct (Hin y Hy). congruence. }
  assert (Hxid : trigger_id x = id) by (destruct (str_eqb (trigger_id x) id && _); exact Hid).
  pose proof (Huniq x Hx Hxid) as ->. rewrite Hc0. split; [done|].
  apply arm_refused. intros y Hy. apply list_elem_of_fmap in Hy as (z & -> & Hz).
  destruct (str_eqb (trigger_id z) id && Z.eqb (contentRev z) rev) eqn:Hc; [|done]. simpl.
  apply andb_true_iff in Hc as [_ Hc%Z.eqb_eq]. apply andb_false_iff. right. apply Z.eqb_neq. lia.
Qed.

(** ** A concrete world *)
Definition sample_world : World :=
  mkWorld (λ n, (Z.of_nat n * 1000)%Z) (λ n, [N.of_nat n]) (λ _, js "d") (λ _, []) (λ _, js "{}") (λ _ _, true)
    (λ _, (0%Z, 86400000%Z)) (λ _ _ _, (Some (ActionCompleted None), [])).
Definition sample_graph : ApprovedGraph := mkGraph None JNull JNull JNull (mkTriggerPolicy 0 None PerEvent FireAll None).
Definition sample_trigger : TriggerRecord :=
  mkTrigger (js "t") (js "p") (js "title") sample_graph 1 (Some 0%Z) (Some 1%Z) (Some (js "d")) 0 0.
Definition sample_engine : engine := mkEngine [sample_trigger] [] [] [] [] 0 0 (Some 2) [] [].
(** The daemon is killed after the effect started, before its end is written. *)
Definition killed_mid_effect : list operation :=
  [OpSubmit (js "t") (js "k") JNull None; OpReboot None; OpRecover; OpSubmit (js "t") (js "k") JNull None].

Lemma effects_happen_at_most_once_witness :
  effects (apply_operations (H := sample_world) killed_mid_effect sample_engine) = [[0%N]] ∧
  NoDup (effects (apply_operations (H := sample_world) killed_mid_effect sample_engine)).
Proof.
  split; [vm_compute; reflexivity|].
  apply (effects_happen_at_most_once (H := sample_world) killed_mid_effect sample_engine). split; reflexivity.
Defined.

Definition reviewed_fire : TriggerFire :=
  mkFire (js "f") (js "t") (js "k") NeedsReview 0 (Some 5%Z) (Some Interrupted) None [] [] 1 (Some 1%Z).
Lemma fires_only_move_forward_witness :
  effects (mkEngine [sample_trigger] [reviewed_fire] [] [] [] 0 0 None [js "f"] [])
  `prefix_of` effects (apply_operations (H := sample_world) killed_mid_effect (mkEngine [sample_trigger] [reviewed_fire] [] [] [] 0 0 None [js "f"] [])).
Proof.
  apply (fires_only_move_forward (H := sample_world) killed_mid_effect _ reviewed_fire); [|left].
  split; simpl; [apply list.NoDup_singleton|apply list.NoDup_singleton|apply list.NoDup_singleton|].
  intros e ->%list_elem_of_singleton. exists reviewed_fire. split; [left|]. split; [reflexivity|discriminate].
Defined.

Lemma policyVerdictOf_correct_witness :
  ¬ (∃ cap, maxFiresPerDay (policy sample_graph) = Some cap ∧ cap ≤ 0).
Proof.
  exact (proj1 (policyVerdictOf_correct (λ _, (0%Z, 1%Z)) sample_trigger reviewed_fire [] 7 ltac:(lia))).
Defined.

(** An edit of the title alone. *)
Definition sample_edit : TriggerContent := mkContent (Some (js "new title")) None None None None None.
Lemma edited_trigger_is_disarmed_witness :
  ∃ t' r, r ∈ t' ∧ trigger_id r = js "t" ∧
    isArmedAsItStands (H := sample_world) r = false ∧ arm t' (js "t") 1 (js "d") 9 = (t', false).
Proof.
  eexists (replaceContent [sample_trigger] (js "t") 1 sample_edit 3).1, _. split; [left|]. split; [reflexivity|].
  apply (edited_trigger_is_disarmed (H := sample_world) [sample_trigger] (js "t") 1 sample_edit 3);
    [apply list.NoDup_singleton|reflexivity|left|reflexivity].
Defined.

(** ** A late fire is not seen as a cause

    A fire whose event was due at 0 and whose message reached the session two hours
    later: the causes of the session in the last hour list it, with its depth, but the
    depth given to the next fire of that session is the one of an event nothing caused,
    because [deepestChainMessagedSince] dates the chain with the event instead of the message. *)
Definition late_fire : TriggerFire := mkFire (js "f") (js "t") (js "k") Completed 0 (Some 7200000%Z) None None [] [] 2 (Some 7200000%Z).
Definition late_message : QueuedRow := mkQueuedRow (js "f") (js "s") 7200000.
Theorem late_fire_is_missed_as_a_cause :
  let since := (7260000 - CHAIN_CAUSE_WINDOW_MINUTES * MINUTE_MS)%Z in
  causesOf [late_fire] [late_message] [js "s"] since 7260000 = [(js "t", 2%Z)] ∧
  deepestChainMessagedSince [late_fire] [late_message] [js "s"] since = 0%Z.
Proof. split; vm_compute; reflexivity. Qed.
