(* ===== verification/CronSource.v ===== *)
(** * The cron source: [triggers/cronSource.ts]

    One timer per armed cron trigger; a wake offers the engine the slots between
    the cursor of the trigger and the clock.  The engine is the interface
    [BacklogEngine], of which the trigger engine is an instance; [zoneOf] is what
    [Intl] knows of a named zone and [isoOf] is [toISOString].  The dates the
    database keeps as ISO strings are milliseconds here. *)
From S2P Require Import Prelude JsText PolicyTypes PolicyDocument Sorting JsDate CronExpression CronCalendar CronCalendarFacts TriggerLedger TriggerEngine.
Open Scope Z_scope.

Definition MAX_WAIT_MS : Z := 60 * CronCalendar.MINUTE_MS.
Definition ON_TIME_WITHIN_MS : Z := 2 * CronCalendar.MINUTE_MS.
Definition MAX_LIVE_SLOTS : nat := Z.to_nat (ON_TIME_WITHIN_MS / CronCalendar.MINUTE_MS + 1).
Definition RUN_ALL_CAP : nat := 5.

(** What the cron source uses of the engine and of the triggers: offering a
    backlog ([false] when the call throws) and listing the armed triggers. *)
Class BacklogEngine (E : Type) := mkBacklogEngine
  { offerBacklog : E → str → list Offer → E * bool;
    armedTriggers : E → list TriggerRecord }.
#[export] Instance trigger_engine_backlog `{World} : BacklogEngine engine :=
  {| offerBacklog e triggerId offers :=
       match submitBacklog triggerId offers e with (e', Some _) => (e', true) | (e', None) => (e', false) end;
     armedTriggers e := listArmed (triggers e) |}.

Inductive CatchUp := Skip | RunOnce | RunAll.
Record CronWhen := mkCronWhen { expression : str; timezone : str; catchUp : CatchUp }.
(** The stored [when] of a trigger passed [CronWhenSchema], so the three fields are there when its source is [cron]. *)
Definition catchUpOf (s : str) : option CatchUp :=
  if str_eqb s (js "skip") then Some Skip
  else if str_eqb s (js "run_once") then Some RunOnce
  else if str_eqb s (js "run_all") then Some RunAll
  else None.
Definition field_text (fields : list (str * json)) (k : str) : option str :=
  match get fields k with Some (JStr s) => Some s | _ => None end.
Definition cronWhenOf (w : json) : option CronWhen :=
  match w with
  | JObj fields =>
      source ← field_text fields (js "source");
      if str_eqb source (js "cron") then
        e ← field_text fields (js "expression");
        z ← field_text fields (js "timezone");
        c ← field_text fields (js "catchUp") ≫= catchUpOf;
        Some (mkCronWhen e z c)
      else None
  | _ => None
  end.
Definition isCronTrigger (trigger : TriggerRecord) : bool := bool_decide (is_Some (cronWhenOf (when_ (trigger_graph trigger)))).

(** A stored cursor: the one of a cron trigger, or the one of another kind of source. *)
Inductive StoredCursor := CronCursor (through : Z) | OtherCursor.
Definition isCronCursor (stored : option StoredCursor) : option Z := match stored with Some (CronCursor through) => Some through | _ => None end.

(** [String(value).padStart(2, '0')] of a number from 0 to 99, and [String(year)] of a non-negative year. *)
Definition digit_text (d : Z) : N := (48 + Z.to_N d)%N.
Definition twoDigits (value : Z) : str := [digit_text (value / 10); digit_text (value mod 10)].
Fixpoint decimal (fuel : nat) (value : Z) (acc : str) : str :=
  match fuel with
  | O => acc
  | S n => let acc' := digit_text (value mod 10) :: acc in if Z.ltb value 10 then acc' else decimal n (value / 10) acc'
  end.
Definition yearText (year : Z) : str := decimal 10 year [].

Section Source.
Context {E : Type} `{BacklogEngine E}.
Variable zoneOf : str → Z → Z.
Variable isoOf : Z → str.

Record source := mkSource { cursors : gmap str StoredCursor; timers : gmap str Z }.

Definition dedupKeyOf (slotMs : Z) : str := js "cron:" ++ isoOf slotMs.
Definition eventOf (timeZone : str) (slotMs : Z) : json :=
  let local := (localFieldsAt (zoneOf timeZone) slotMs).1 in
  let localDate := yearText (civilYear local) ++ js "-" ++ twoDigits (civilMonth local) ++ js "-" ++ twoDigits (civilDay local) in
  let localTime := twoDigits (civilHour local) ++ js ":" ++ twoDigits (civilMinute local) in
  JObj [(js "slot", JObj [(js "at", JStr (isoOf slotMs)); (js "localDate", JStr localDate); (js "localTime", JStr localTime)])].
Definition offerOf (timeZone : str) (slotMs : Z) : Offer := mkOffer (dedupKeyOf slotMs) (eventOf timeZone slotMs) slotMs None.

(** The missed slots a catch-up keeps, newest first. *)
Definition MISSED_SLOTS_KEPT_BY (c : CatchUp) (missedNewestFirst : list Z) : list Z :=
  match c with Skip => [] | RunOnce => take 1 missedNewestFirst | RunAll => take RUN_ALL_CAP missedNewestFirst end.

Definition armedCronTriggers (e : E) : list TriggerRecord := filter (λ t, isCronTrigger t = true) (armedTriggers e).
Definition armedCronTrigger (e : E) (triggerId : str) : option TriggerRecord := find (λ t, str_eqb (trigger_id t) triggerId) (armedCronTriggers e).
Definition cancelTimer (triggerId : str) (s : source) : source := mkSource (cursors s) (delete triggerId (timers s)).
Definition saveCursor (triggerId : str) (through : Z) (s : source) : source := mkSource (<[triggerId := CronCursor through]> (cursors s)) (timers s).
Definition cursorOf (s : source) (trigger : TriggerRecord) : option Z := isCronCursor (cursors s !! trigger_id trigger).
(** The schedule and the zone of a trigger; [None] when the expression is refused. *)
Definition calendarOf (trigger : TriggerRecord) : option (CronSchedule * (Z → Z)) :=
  w ← cronWhenOf (when_ (trigger_graph trigger));
  schedule ← cronScheduleOf (expression w);
  Some (schedule, zoneOf (timezone w)).
Definition cursorAtArmingOf (trigger : TriggerRecord) : option Z := armedAt trigger.

Definition setTimer (e : E) (triggerId : str) (now : Z) (s : source) : source :=
  let s := cancelTimer triggerId s in
  match armedCronTrigger e triggerId ≫= calendarOf with
  | Some (schedule, zone) =>
      match nextAfter zone schedule now with
      | Some nextSlot => mkSource (cursors s) (<[triggerId := Z.min (Z.max (nextSlot - now) 1) MAX_WAIT_MS]> (timers s))
      | None => s
      end
  | None => s
  end.
Definition startFromNow (e : E) (trigger : TriggerRecord) (now nowAtTimer : Z) (s : source) : source :=
  if isCronTrigger trigger then
    let through := Z.max (default 0 (cursorOf s trigger)) now in
    setTimer e (trigger_id trigger) nowAtTimer (saveCursor (trigger_id trigger) through s)
  else s.

(** The slots a wake finds due: the live ones and the missed ones, newest first. *)
Definition dueSlots (zone : Z → Z) (schedule : CronSchedule) (throughMs now : Z) : list Z * list Z :=
  let firstLiveMs := now - ON_TIME_WITHIN_MS in
  (newestBetween zone schedule (Z.max throughMs (firstLiveMs - 1)) now MAX_LIVE_SLOTS,
   newestBetween zone schedule throughMs (firstLiveMs - 1) RUN_ALL_CAP).
Definition newestDue (due : list Z * list Z) : option Z := match due.1 with slot :: _ => Some slot | [] => head due.2 end.
Definition slotsToOffer (c : CatchUp) (due : list Z * list Z) : list Z := sort_numbers (due.1 ++ MISSED_SLOTS_KEPT_BY c due.2).

(** [wake], under [guarded]: an exception of the engine leaves the cursor and the timer as they are at that point. *)
Definition wake (e : E) (trigger : TriggerRecord) (now nowAtTimer : Z) (s : source) : E * source :=
  let s := cancelTimer (trigger_id trigger) s in
  match (match cursorOf s trigger with Some through => Some through | None => cursorAtArmingOf trigger end) with
  | None => (e, startFromNow e trigger now nowAtTimer s)
  | Some throughMs =>
      match cronWhenOf (when_ (trigger_graph trigger)), calendarOf trigger with
      | Some w, Some (schedule, zone) =>
          let due := dueSlots zone schedule throughMs now in
          match newestDue due with
          | None => (e, setTimer e (trigger_id trigger) nowAtTimer s)
          | Some newest =>
              let offers := offerOf (timezone w) <$> slotsToOffer (catchUp w) due in
              match offerBacklog e (trigger_id trigger) offers with
              | (e', true) => (e', setTimer e' (trigger_id trigger) nowAtTimer (saveCursor (trigger_id trigger) newest s))
              | (e', false) => (e', s)
              end
          end
      | _, _ => (e, s)
      end
  end.
(** The callback of a timer. *)
Definition timerFires (e : E) (triggerId : str) (now nowAtTimer : Z) (s : source) : E * source :=
  let s := cancelTimer triggerId s in
  match armedCronTrigger e triggerId with
  | Some current => wake e current now nowAtTimer s
  | None => (e, s)
  end.
Definition sync (e : E) (triggerId : str) (s : source) : source :=
  match armedCronTrigger e triggerId with Some _ => s | None => cancelTimer triggerId s end.
(** [start] wakes every armed trigger in turn; [readings i] are the two readings of the clock of the i-th wake. *)
Fixpoint start_all (readings : nat → Z * Z) (i : nat) (armed : list TriggerRecord) (es : E * source) : E * source :=
  match armed with
  | [] => es
  | trigger :: rest => start_all readings (S i) rest (wake es.1 trigger (readings i).1 (readings i).2 es.2)
  end.
Definition start (readings : nat → Z * Z) (e : E) (s : source) : E * source := start_all readings 0 (armedCronTriggers e) (e, s).
Definition stopSource (s : source) : source := mkSource (cursors s) ∅.
End Source.

(** * Facts about the source

    The wakes of one trigger, whatever the engine answers: which slots they
    offer and how the cursor moves.  The zones are those of constant offset. *)
Open Scope Z_scope.
#[local] Strategy opaque [newestBetween nextAfter].

(** An engine that notes what it is offered; [accepts] tells whether its next call succeeds. *)
Record recorder := mkRecorder { armed : list TriggerRecord; log : list Offer; accepts : bool }.
#[export] Instance recorder_backlog : BacklogEngine recorder :=
  {| offerBacklog e _ offers := if accepts e then (mkRecorder (armed e) (log e ++ offers) true, true) else (e, false);
     armedTriggers := armed |}.
Definition offered (e : recorder) : list Z := offer_dueAtMs <$> log e.

(** The slots of one wake. *)
Section Due.
Context (o : Z) (s : CronSchedule) (Ho : -1440 < o < 1440) (Hs : schedule_sound s).
Notation zone := (fixed_zone o).

Lemma newest_head after at_ limit x :
  FIRST_ORDINARY_MS + 5 * DAY_MS ≤ after → x ∈ newestBetween zone s after at_ limit →
  ∃ y, head (newestBetween zone s after at_ limit) = Some y ∧ x ≤ y ∧ after < y ≤ at_.
Proof.
  intros Hafter Hx. pose proof (newestBetween_within _ _ _ _ _ _ Hx) as Hr.
  destruct (newestBetween_spec o s after at_ limit Ho Hs Hafter ltac:(lia)) as (Hdec & _ & Hin & _).
  inversion Hdec as [Heq|y l Hy Hl Heq]; rewrite <- Heq in *; [by apply elem_of_nil in Hx|].
  exists y. split_and!; [done| |apply Hin, elem_of_cons; by left..].
  apply elem_of_cons in Hx as [->|Hx]; [lia|]. specialize (Hy x Hx). lia.
Qed.
Lemma kept_sub c l x : x ∈ MISSED_SLOTS_KEPT_BY c l → x ∈ l.
Proof. destruct c; cbn; [by intros ?%elem_of_nil|intros (i & Hi & _)%elem_of_take; by apply list_elem_of_lookup_2 in Hi..]. Qed.

Context (through now : Z) (Hthrough : FIRST_ORDINARY_MS + 5 * DAY_MS ≤ through).
Notation due := (dueSlots zone s through now).

Lemma live_within x : x ∈ due.1 → through < x ∧ now - ON_TIME_WITHIN_MS ≤ x ≤ now.
Proof. intros H%newestBetween_within. lia. Qed.
Lemma missed_within x : x ∈ due.2 → through < x < now - ON_TIME_WITHIN_MS.
Proof. intros H%newestBetween_within. lia. Qed.
Lemma offered_elem c x : x ∈ slotsToOffer c due → x ∈ due.1 ∨ x ∈ due.2.
Proof. unfold slotsToOffer. rewrite sort_numbers_elem, elem_of_app. intros [|?%kept_sub]; tauto. Qed.
(** Everything a wake offers is after the cursor, at most the newest slot found due, and offered once. *)
Lemma offered_upto c x : x ∈ slotsToOffer c due → ∃ newest, newestDue due = Some newest ∧ through < x ≤ newest.
Proof.
  intros Hx%offered_elem. unfold newestDue. destruct Hx as [Hx|Hx].
  - pose proof (live_within x Hx). destruct (newest_head (Z.max through (now - ON_TIME_WITHIN_MS - 1)) now MAX_LIVE_SLOTS x) as (y & Hy & Hle & _); [lia|done|].
    unfold dueSlots in *. cbn [fst snd] in *. destruct (newestBetween _ _ _ now _) as [|z l]; [done|]. injection Hy as ->. exists y. split; [done|lia].
  - pose proof (missed_within x Hx). destruct due.1 as [|z l] eqn:E.
    + destruct (newest_head through (now - ON_TIME_WITHIN_MS - 1) RUN_ALL_CAP x Hthrough Hx) as (y & Hy & Hle & _). exists y. split; [done|lia].
    + exists z. split; [done|]. pose proof (live_within z) as Hz. rewrite E in Hz. specialize (Hz ltac:(auto with fleet)). lia.
Qed.
Lemma newestDue_after newest : newestDue due = Some newest → through < newest ≤ now.
Proof.
  unfold newestDue. destruct due.1 as [|z l] eqn:E.
  - destruct due.2 as [|z l] eqn:E2; [done|]. intros [= ->]. pose proof (missed_within newest) as Hz. rewrite E2 in Hz.
    specialize (Hz ltac:(auto with fleet)). unfold ON_TIME_WITHIN_MS, CronCalendar.MINUTE_MS in *. lia.
  - intros [= ->]. pose proof (live_within newest) as Hz. rewrite E in Hz. specialize (Hz ltac:(auto with fleet)). lia.
Qed.
Lemma decreasing_NoDup l : decreasing l → NoDup l.
Proof. induction 1 as [|x l Hx Hl IH]; constructor; [|done]. intros Hin. specialize (Hx x Hin). lia. Qed.
Lemma newest_NoDup after at_ limit : FIRST_ORDINARY_MS + 5 * DAY_MS ≤ after → NoDup (newestBetween zone s after at_ limit).
Proof.
  intros Hafter. destruct (decide (after ≤ at_)) as [Hle|Hgt].
  - apply decreasing_NoDup. by destruct (newestBetween_spec o s after at_ limit Ho Hs Hafter Hle).
  - replace (newestBetween zone s after at_ limit) with (@nil Z); [constructor|]. symmetry. apply list.elem_of_nil_inv.
    intros x Hx%newestBetween_within. lia.
Qed.
Lemma kept_prefix c l : ∃ n, MISSED_SLOTS_KEPT_BY c l = take n l.
Proof. destruct c; [by exists 0%nat|by exists 1%nat|by exists RUN_ALL_CAP]. Qed.
Lemma offered_NoDup c : NoDup (slotsToOffer c due).
Proof.
  unfold slotsToOffer, sort_numbers. rewrite sort_by_perm. apply list.NoDup_app. split_and!.
  - apply newest_NoDup. lia.
  - intros x Hl%live_within Hk%kept_sub%missed_within. lia.
  - destruct (kept_prefix c due.2) as [n ->]. eapply sublist_NoDup; [by apply (newest_NoDup through (now - ON_TIME_WITHIN_MS - 1) RUN_ALL_CAP)|].
    apply sublist_take.
Qed.
End Due.

(** A slot is live for two minutes, and at most three slots are: none of them is cut off by the limit. *)
Lemma live_complete o s through now t :
  -1440 < o < 1440 → schedule_sound s → FIRST_ORDINARY_MS + 5 * DAY_MS ≤ through →
  through < t → now - ON_TIME_WITHIN_MS ≤ t ≤ now → matches_schedule (fixed_zone o) s t → t ∈ (dueSlots (fixed_zone o) s through now).1.
Proof.
  intros Ho Hs Hthrough Hlt Hlive Hm. unfold dueSlots. cbn [fst].
  destruct (newestBetween_spec o s (Z.max through (now - ON_TIME_WITHIN_MS - 1)) now MAX_LIVE_SLOTS Ho Hs) as (Hdec & _ & Hin & Hall); [lia|lia|].
  assert (∀ x, matches_schedule (fixed_zone o) s x → x mod 60000 = 0) as Hmin.
  { intros x. unfold matches_schedule. destruct (localFieldsAt _ _). by intros [? _]. }
  destruct (Hall t ltac:(lia) Hm) as [|[Hlen Hnewer]]; [|done|].
  { unfold ON_TIME_WITHIN_MS, CronCalendar.MINUTE_MS, MAX_DAYS_SEARCHED, dayOf, MS_PER_DAY in *. div_lia. }
  exfalso. change MAX_LIVE_SLOTS with 3%nat in Hlen.
  destruct (newestBetween _ _ _ now _) as [|x [|y [|z [|? ?]]]]; try done.
  pose proof (Hin x ltac:(auto with fleet)) as [Hx Mx%Hmin]. pose proof (Hin y ltac:(auto with fleet)) as [Hy My%Hmin]. pose proof (Hin z ltac:(auto with fleet)) as [Hz Mz%Hmin].
  pose proof (Hnewer z ltac:(auto with fleet)) as Hzt. apply Hmin in Hm.
  inversion Hdec as [|? ? Hxy Hdec']; subst. inversion Hdec' as [|? ? Hyz _]; subst.
  specialize (Hxy y ltac:(auto with fleet)). specialize (Hyz z ltac:(auto with fleet)). unfold ON_TIME_WITHIN_MS, CronCalendar.MINUTE_MS in *. div_lia.
Qed.

Section Wakes.
Context (zoneOf : str → Z → Z) (isoOf : Z → str).
Context (trigger : TriggerRecord) (w : CronWhen) (s : CronSchedule) (o a : Z).
Context (Hwhen : cronWhenOf (when_ (trigger_graph trigger)) = Some w) (Hexpr : cronScheduleOf (expression w) = Some s).
Context (Hzone : zoneOf (timezone w) = fixed_zone o) (Ho : -1440 < o < 1440).
Context (Harmed : armedAt trigger = Some a).

(** The instant up to which the slots are dealt with. *)
Definition throughOf (src : source) : Z := default a (cursorOf src trigger).
(** One wake at a time, the engine answering as told. *)
Fixpoint wakes (inputs : list (Z * Z * bool)) (e : recorder) (src : source) : recorder * source :=
  match inputs with
  | [] => (e, src)
  | (now, nowAtTimer, isAccepted) :: rest =>
      let '(e', src') := wake zoneOf isoOf (mkRecorder (armed e) (log e) isAccepted) trigger now nowAtTimer src in wakes rest e' src'
  end.

Lemma setTimer_cursor (e : recorder) now src : cursorOf (setTimer zoneOf e (trigger_id trigger) now src) trigger = cursorOf src trigger.
Proof. unfold setTimer, cursorOf, cancelTimer. cbn. repeat case_match; done. Qed.
Lemma offered_offers (e : recorder) l b : offered (mkRecorder (armed e) (log e ++ (offerOf zoneOf isoOf (timezone w) <$> l)) b) = offered e ++ l.
Proof. unfold offered. cbn. rewrite fmap_app, <- list_fmap_compose. f_equal. apply list_fmap_id. Qed.
(** What a wake does to the log and to the cursor. *)
Lemma wake_spec (e : recorder) now nowAtTimer src :
  let due := dueSlots (fixed_zone o) s (throughOf src) now in
  let '(e', src') := wake zoneOf isoOf e trigger now nowAtTimer src in
  match newestDue due with
  | Some newest => if accepts e then offered e' = offered e ++ slotsToOffer (catchUp w) due ∧ throughOf src' = newest
                   else offered e' = offered e ∧ throughOf src' = throughOf src
  | None => offered e' = offered e ∧ throughOf src' = throughOf src
  end.
Proof.
  cbv zeta. unfold wake, cursorAtArmingOf, calendarOf. rewrite Hwhen. cbn [mbind option_bind]. rewrite Hexpr, Hzone. cbn [mbind option_bind].
  replace (match cursorOf (cancelTimer (trigger_id trigger) src) trigger with Some t => Some t | None => armedAt trigger end) with (Some (throughOf src))
    by (unfold throughOf; change (cursorOf (cancelTimer (trigger_id trigger) src) trigger) with (cursorOf src trigger); rewrite Harmed; by destruct (cursorOf src trigger)).
  cbv match. destruct (newestDue _) as [newest|].
  - cbn [offerBacklog recorder_backlog]. destruct (accepts e).
    + split; [apply offered_offers|]. unfold throughOf. rewrite setTimer_cursor. unfold cursorOf, saveCursor. cbn. by rewrite lookup_insert_eq.
    + done.
  - split; [done|]. unfold throughOf. by rewrite setTimer_cursor.
Qed.
Record dealt_with (e : recorder) (src : source) : Prop := mkDealt
  { dealt_start : FIRST_ORDINARY_MS + 5 * DAY_MS ≤ throughOf src;
    dealt_once : NoDup (offered e);
    dealt_upto : ∀ x, x ∈ offered e → x ≤ throughOf src }.
Lemma wake_dealt e now nowAtTimer src :
  dealt_with e src → let '(e', src') := wake zoneOf isoOf e trigger now nowAtTimer src in dealt_with e' src'.
Proof.
  intros [Hstart Honce Hupto]. pose proof (cronScheduleOf_sound _ _ Hexpr) as Hs.
  pose proof (wake_spec e now nowAtTimer src) as Hw. cbv zeta in Hw. destruct (wake _ _ _ _ _ _ _) as [e' src'].
  pose proof (offered_upto o s Ho Hs (throughOf src) now Hstart (catchUp w)) as Hin.
  pose proof (newestDue_after o s (throughOf src) now) as Hnew.
  destruct (newestDue _) as [newest|]; [|destruct Hw as [Hoff Hthr]; constructor; rewrite ?Hoff, ?Hthr; done].
  destruct (accepts e); destruct Hw as [Hoff Hthr]; [|constructor; rewrite ?Hoff, ?Hthr; done].
  specialize (Hnew newest eq_refl). constructor; rewrite ?Hoff, ?Hthr; [lia| |].
  - apply list.NoDup_app. split_and!; [done| |by apply offered_NoDup].
    intros x Hx Hx'. apply Hupto in Hx. apply Hin in Hx' as (? & [= <-] & ?). lia.
  - intros x [Hx|Hx]%elem_of_app; [apply Hupto in Hx; lia|]. apply Hin in Hx as (? & [= <-] & ?). lia.
Qed.
Lemma wakes_dealt inputs e src : dealt_with e src → dealt_with (wakes inputs e src).1 (wakes inputs e src).2.
Proof.
  revert e src. induction inputs as [|[[now nowAtTimer] ok] rest IH]; intros e src Hd; [done|]. cbn [wakes].
  assert (dealt_with (mkRecorder (armed e) (log e) ok) src) as Hd' by (destruct Hd; by constructor).
  apply (wake_dealt _ now nowAtTimer) in Hd'. destruct (wake _ _ _ _ _ _ _) as [e' src']. by apply IH.
Qed.
End Wakes.

(** However often and at whatever times a cron trigger is woken, and whichever of the offers fail, no slot is
    part of two successful offers: each wake offers only slots after the cursor, and the cursor moves to
    the newest slot it found due. *)
Theorem slots_are_offered_once (zoneOf : str → Z → Z) (isoOf : Z → str) (trigger : TriggerRecord) (w : CronWhen) (s : CronSchedule)
    (o a : Z) (armed : list TriggerRecord) (ok : bool) (src : source) (inputs : list (Z * Z * bool))
    (Hwhen : cronWhenOf (when_ (trigger_graph trigger)) = Some w) (Hexpr : cronScheduleOf (expression w) = Some s)
    (Hzone : zoneOf (timezone w) = fixed_zone o) (Ho : -1440 < o < 1440) (Harmed : armedAt trigger = Some a)
    (Hstart : FIRST_ORDINARY_MS + 5 * DAY_MS ≤ throughOf trigger a src) :
  NoDup (offered (wakes zoneOf isoOf trigger inputs (mkRecorder armed [] ok) src).1).
Proof.
  apply (wakes_dealt zoneOf isoOf trigger w s o a Hwhen Hexpr Hzone Ho Harmed).
  constructor; [done|constructor|]. by intros x ?%elem_of_nil.
Qed.
(** A slot found within two minutes of its instant is never lost: a wake whose offer succeeds offers every minute
    that matches the schedule, is after the cursor and is at most two minutes old, and with the catch-up
    policy [skip] it offers nothing older. *)
Theorem live_slots_are_offered (zoneOf : str → Z → Z) (isoOf : Z → str) (trigger : TriggerRecord) (w : CronWhen) (s : CronSchedule)
    (o a : Z) (e : recorder) (src : source) (now nowAtTimer : Z)
    (Hwhen : cronWhenOf (when_ (trigger_graph trigger)) = Some w) (Hexpr : cronScheduleOf (expression w) = Some s)
    (Hzone : zoneOf (timezone w) = fixed_zone o) (Ho : -1440 < o < 1440) (Harmed : armedAt trigger = Some a)
    (Hstart : FIRST_ORDINARY_MS + 5 * DAY_MS ≤ throughOf trigger a src) (Haccepts : accepts e = true) :
  ∃ slots, offered (wake zoneOf isoOf e trigger now nowAtTimer src).1 = offered e ++ slots ∧
    (∀ t, throughOf trigger a src < t → now - ON_TIME_WITHIN_MS ≤ t ≤ now → matches_schedule (fixed_zone o) s t → t ∈ slots) ∧
    (catchUp w = Skip → ∀ t, t ∈ slots → now - ON_TIME_WITHIN_MS ≤ t ≤ now).
Proof.
  pose proof (cronScheduleOf_sound _ _ Hexpr) as Hs.
  pose proof (wake_spec zoneOf isoOf trigger w s o a Hwhen Hexpr Hzone Harmed e now nowAtTimer src) as Hw. cbv zeta in Hw.
  pose proof (λ t, live_complete o s (throughOf trigger a src) now t Ho Hs Hstart) as Hlive.
  pose proof (live_within o s (throughOf trigger a src) now) as Hwithin.
  destruct (wake _ _ _ _ _ _ _) as [e' src']. rewrite Haccepts in Hw. destruct (newestDue _) as [newest|] eqn:Hnew.
  - destruct Hw as [Hoff _]. eexists. split; [exact Hoff|]. unfold slotsToOffer. split.
    + intros t H1 H2 H3. rewrite sort_numbers_elem, elem_of_app. left. by apply Hlive.
    + intros Hskip t. rewrite Hskip, sort_numbers_elem, elem_of_app. intros [Ht|Ht]; [apply Hwithin in Ht; tauto|by apply elem_of_nil in Ht].
  - destruct Hw as [Hoff _]. exists []. rewrite app_nil_r. split_and!; [done| |by intros _ t ?%elem_of_nil].
    intros t H1 H2 H3. pose proof (Hlive t H1 H2 H3) as Ht. unfold newestDue in Hnew.
    destruct (dueSlots _ _ _ _).1; [by apply elem_of_nil in Ht|done].
Qed.

(** A trigger armed on 1 January 2026, firing on working days at nine, one hour ahead of UTC. *)
Definition morning_when : json :=
  JObj [(js "source", JStr (js "cron")); (js "expression", JStr (js "0 9 * * mon-fri")); (js "timezone", JStr (js "Etc/GMT-1")); (js "catchUp", JStr (js "run_all"))].
Definition morning_trigger : TriggerRecord :=
  mkTrigger (js "t") (js "p") (js "morning") (mkGraph None morning_when (JArr []) JNull (mkTriggerPolicy 0 None PerEvent FireAll None))
    1 (Some 1767225600000) (Some 1) None 1767225600000 1767225600000.
Definition morning_cron : CronWhen := mkCronWhen (js "0 9 * * mon-fri") (js "Etc/GMT-1") RunAll.
Definition any_zone (_ : str) : Z → Z := fixed_zone 60.
Definition no_cursor : source := mkSource ∅ ∅.
Lemma morning_when_read : cronWhenOf (when_ (trigger_graph morning_trigger)) = Some morning_cron.
Proof. vm_compute. reflexivity. Qed.
Lemma morning_start : FIRST_ORDINARY_MS + 5 * DAY_MS ≤ throughOf morning_trigger 1767225600000 no_cursor.
Proof. vm_compute. congruence. Qed.
Lemma slots_are_offered_once_witness :
  NoDup (offered (wakes any_zone (λ _, []) morning_trigger [(1767340800000, 1767340800000, true); (1767600000000, 1767600000000, false); (1767600000000, 1767600000000, true)]
                    (mkRecorder [morning_trigger] [] true) no_cursor).1).
Proof.
  exact (slots_are_offered_once any_zone (λ _, []) morning_trigger morning_cron weekday_mornings 60 1767225600000 [morning_trigger] true no_cursor _
           morning_when_read weekday_mornings_parsed eq_refl (conj eq_refl eq_refl) eq_refl morning_start).
Defined.
Lemma live_slots_are_offered_witness :
  ∃ slots, offered (wake any_zone (λ _, []) (mkRecorder [morning_trigger] [] true) morning_trigger 1767340830000 1767340830000 no_cursor).1 = [] ++ slots ∧
    (∀ t, 1767225600000 < t → 1767340830000 - ON_TIME_WITHIN_MS ≤ t ≤ 1767340830000 → matches_schedule (fixed_zone 60) weekday_mornings t → t ∈ slots) ∧
    (catchUp morning_cron = Skip → ∀ t, t ∈ slots → 1767340830000 - ON_TIME_WITHIN_MS ≤ t ≤ 1767340830000).
Proof.
  exact (live_slots_are_offered any_zone (λ _, []) morning_trigger morning_cron weekday_mornings 60 1767225600000 (mkRecorder [morning_trigger] [] true) no_cursor
           1767340830000 1767340830000 morning_when_read weekday_mornings_parsed eq_refl (conj eq_refl eq_refl) eq_refl morning_start eq_refl).
Defined.
(** The wakes above offer the slots of Thursday 1 (missed), Friday 2 and Monday 5 January, at 8:00 UTC. *)
Example morning_offers :
  offered (wakes any_zone (λ _, []) morning_trigger [(1767340800000, 1767340800000, true); (1767600000000, 1767600000000, false); (1767600000000, 1767600000000, true)]
             (mkRecorder [morning_trigger] [] true) no_cursor).1 = [UTC 2026 0 1 8 0; UTC 2026 0 2 8 0; UTC 2026 0 5 8 0].
Proof. vm_compute. reflexivity. Qed.
