(* ===== verification/FireRetention.v ===== *)
(** * Forgetting old events: [triggers/fireRetention.ts]

    The daily purge of the events of settled fires, batch by batch.  The purge
    hands the event loop back between two batches; [isStoppedBefore i] tells
    whether [stop] was called before its i-th batch. *)
From S2P Require Import Prelude JsText TriggerLedger.

Definition DEFAULT_FIRE_RETENTION_DAYS : Z := 90.
Definition FIRE_PRUNE_BATCH_SIZE : nat := 1000.
Definition MILLISECONDS_PER_DAY : Z := 24 * 60 * 60 * 1000.
Definition FIRE_PRUNE_INTERVAL_MS : Z := MILLISECONDS_PER_DAY.
Definition FROM_THE_FIRST_ROW : nat := 0.

Record FirePruneReport := mkReport { forgotten : nat; batches : nat }.

(** The daily timer: [nextRun] is the delay of the run that is armed. *)
Record retention := mkRetention { isStopped : bool; nextRun : option Z }.
Definition scheduleNextRun (r : retention) : retention := mkRetention (isStopped r) (Some FIRE_PRUNE_INTERVAL_MS).
Definition startRetention (r : retention) : retention := scheduleNextRun (mkRetention false (nextRun r)).
Definition stopRetention (r : retention) : retention := mkRetention true None.

Section Purge.
Variable batchSize : nat.
Variable settledBefore : Z.
Variable isStoppedBefore : nat → bool.

(** The locals of the loop: the ledger, [afterRowid], [isLastBatch] and the report. *)
Record purge := mkPurge { purge_ledger : fires; afterRowid : nat; isLastBatch : bool; report : FirePruneReport }.
Definition purge_step (p : purge) : purge + purge :=
  if negb (isLastBatch p) && negb (isStoppedBefore (batches (report p))) then
    let '(ledger', n, lastRowid) := forgetSettledEvents (purge_ledger p) settledBefore (afterRowid p) batchSize in
    inl (mkPurge ledger' lastRowid (bool_decide (n < batchSize)) (mkReport (forgotten (report p) + n) (S (batches (report p)))))
  else inr p.
(** Fuel: every batch but the last forgets a full batch of events. *)
Definition purge_loop (ledger : fires) : purge :=
  let initial := mkPurge ledger FROM_THE_FIRST_ROW false (mkReport 0 0) in
  run_loop purge_step (S (S (S (length ledger)))) initial initial.
End Purge.

Definition forgetOldEvents (clock retentionDays : Z) (isStoppedBefore : nat → bool) (ledger : fires) : fires * FirePruneReport :=
  let p := purge_loop FIRE_PRUNE_BATCH_SIZE (clock - retentionDays * MILLISECONDS_PER_DAY) isStoppedBefore ledger in
  (purge_ledger p, report p).

(** ** What a purge does *)
Section Facts.
Context (sb : Z).
Definition forget_if_old (f : TriggerFire) : TriggerFire := if forgettable sb f then forget_event f else f.
Definition old_count (t : fires) : nat := length (filter (λ f, forgettable sb f = true) t).
Lemma old_count_app t u : old_count (t ++ u) = old_count t + old_count u.
Proof. unfold old_count. by rewrite list.filter_app, length_app. Qed.
Lemma old_count_cons f t : old_count (f :: t) = (if forgettable sb f then S (old_count t) else old_count t).
Proof. unfold old_count. rewrite filter_cons. by destruct (forgettable sb f). Qed.
Lemma forgotten_is_not_old f : forgettable sb (forget_if_old f) = false.
Proof.
  unfold forget_if_old. destruct (forgettable sb f) eqn:E; [|done]. unfold forgettable. cbn [forget_event fire_eventJson]. by rewrite str_eqb_refl, andb_false_r.
Qed.
Lemma forget_if_old_idemp f : forget_if_old (forget_if_old f) = forget_if_old f.
Proof. unfold forget_if_old at 1. by rewrite forgotten_is_not_old. Qed.
(** No row up to rowid [last] is left to forget, the first row of [t] having rowid [first]. *)
Definition done_upto (first last : nat) (t : fires) : Prop := ∀ i f, t !! i = Some f → first + i ≤ last → forgettable sb f = false.

Lemma done_upto_cons first last f t : done_upto first last (f :: t) ↔ (first ≤ last → forgettable sb f = false) ∧ done_upto (S first) last t.
Proof.
  unfold done_upto. split.
  - intros H. split; [intros Hle; apply (H 0 f); [done|lia]|]. intros i g Hi Hle. apply (H (S i) g); [done|lia].
  - intros [Hf Ht] [|i] g Hi Hle; [injection Hi as <-; apply Hf; lia|]. apply (Ht i g); [done|lia].
Qed.
(** One batch forgets the old events of a prefix of the table, of the whole table when it is not full. *)
Lemma forget_rows_batch t : ∀ rowid after batch,
  done_upto rowid after t →
  let '(t', n, last) := forget_rows sb rowid after batch t in
  ∃ t1 t2, t = t1 ++ t2 ∧ t' = (forget_if_old <$> t1) ++ t2 ∧ n = old_count t1 ∧ n ≤ batch ∧ (n < batch → t2 = []) ∧ done_upto rowid last t'.
Proof.
  induction t as [|f t IH]; intros rowid after batch Hdone; cbn [forget_rows].
  { exists [], []. split_and!; try done. cbn. lia. }
  destruct batch as [|batch]; [by exists [], (f :: t); split_and!; try done; lia|].
  apply done_upto_cons in Hdone as [Hf Ht].
  destruct (bool_decide (after < rowid) && forgettable sb f) eqn:Hold.
  - apply andb_prop in Hold as [_ Hold].
    specialize (IH (S rowid) rowid batch ltac:(intros i g _ ?; lia)). destruct (forget_rows sb (S rowid) rowid batch t) as [[t' n] last].
    destruct IH as (t1 & t2 & -> & -> & -> & Hle & Hlast & Hd). exists (f :: t1), t2.
    assert (forget_if_old f = forget_event f) as E by (unfold forget_if_old; by rewrite Hold).
    split_and!; [done|cbn; by rewrite E|by rewrite old_count_cons, Hold|lia|intros; apply Hlast; lia|].
    apply done_upto_cons. split; [|done]. intros _. rewrite <- E. apply forgotten_is_not_old.
  - assert (forgettable sb f = false) as Hno.
    { apply andb_false_iff in Hold as [Hr%bool_decide_eq_false|?]; [apply Hf; lia|done]. }
    specialize (IH (S rowid) after (S batch) Ht). destruct (forget_rows sb (S rowid) after (S batch) t) as [[t' n] last].
    destruct IH as (t1 & t2 & -> & -> & -> & Hle & Hlast & Hd). exists (f :: t1), t2.
    assert (forget_if_old f = f) as E by (unfold forget_if_old; by rewrite Hno).
    split_and!; [done|cbn; by rewrite E|by rewrite old_count_cons, Hno|done|done|].
    apply done_upto_cons. done.
Qed.

(** The loop, never stopped, with a batch size of at least one. *)
Context (batch : nat) (Hbatch : 0 < batch) (ledger : fires).
Record purge_inv (p : purge) : Prop := mkPurgeInv
  { inv_rows : done_upto 1 (afterRowid p) (purge_ledger p);
    inv_same : forget_if_old <$> purge_ledger p = forget_if_old <$> ledger;
    inv_count : forgotten (report p) + old_count (purge_ledger p) = old_count ledger;
    inv_last : isLastBatch p = true → purge_ledger p = forget_if_old <$> ledger }.
Lemma old_count_done t : old_count (forget_if_old <$> t) = 0.
Proof.
  induction t as [|f t IH]; [done|]. rewrite fmap_cons, old_count_cons, forgotten_is_not_old. done.
Qed.
Lemma forget_twice (t : fires) : forget_if_old <$> (forget_if_old <$> t) = forget_if_old <$> t.
Proof. rewrite <- list_fmap_compose. apply list_fmap_ext. intros i f _. apply forget_if_old_idemp. Qed.
Lemma purge_step_inv p p' :
  purge_inv p → purge_step batch sb (λ _, false) p = inl p' →
  purge_inv p' ∧ (old_count (purge_ledger p') + (if isLastBatch p' then 0 else 1) < old_count (purge_ledger p) + (if isLastBatch p then 0 else 1))%nat.
Proof.
  intros [Hrows Hsame Hcount Hlast] Hstep. unfold purge_step in Hstep. destruct (isLastBatch p); [done|]. cbn [negb andb] in Hstep.
  pose proof (forget_rows_batch (purge_ledger p) 1 (afterRowid p) batch Hrows) as Hb. unfold forgetSettledEvents in Hstep.
  destruct (forget_rows _ _ _ _ _) as [[t' n] last]. destruct Hb as (t1 & t2 & E1 & -> & -> & Hle & Hfull & Hd). injection Hstep as <-.
  cbn [purge_ledger isLastBatch report forgotten afterRowid batches].
  rewrite E1, old_count_app in Hcount. rewrite E1 in Hsame. rewrite E1, !old_count_app, old_count_done. split.
  - constructor; cbn [purge_ledger isLastBatch report forgotten afterRowid batches]; [done| |rewrite old_count_app, old_count_done; lia|].
    + rewrite <- Hsame, !fmap_app, forget_twice. done.
    + intros Hlt%bool_decide_eq_true. rewrite (Hfull Hlt), app_nil_r in *. done.
  - case_bool_decide; lia.
Qed.
Lemma purge_loop_spec :
  let p := purge_loop batch sb (λ _, false) ledger in purge_ledger p = forget_if_old <$> ledger ∧ forgotten (report p) = old_count ledger.
Proof.
  cbv zeta. unfold purge_loop.
  apply (run_loop_spec _ purge_inv (λ p, old_count (purge_ledger p) + (if isLastBatch p then 0 else 1))%nat
           (λ p, purge_ledger p = forget_if_old <$> ledger ∧ forgotten (report p) = old_count ledger)).
  - apply purge_step_inv.
  - intros p r [Hrows Hsame Hcount Hlast] Hstep. unfold purge_step in Hstep. destruct (isLastBatch p) eqn:El; cbn in Hstep.
    + injection Hstep as <-. specialize (Hlast eq_refl). split; [done|]. rewrite Hlast, old_count_done in Hcount. lia.
    + by destruct (forgetSettledEvents _ _ _ _) as [[? ?] ?].
  - constructor; cbn [purge_ledger isLastBatch report forgotten afterRowid]; [intros i f _ Hle; unfold FROM_THE_FIRST_ROW in Hle; lia|done|done|done].
  - cbn. unfold old_count. pose proof (length_filter (λ f, forgettable sb f = true) ledger). lia.
Qed.
End Facts.

(** The purge ends and does exactly its job: run to its end on any ledger, it empties the event of every completed
    or cancelled fire settled before the retention limit and counts it, and leaves every other row, and
    every other field, as it was. *)
Theorem purge_forgets_exactly_the_old_events (clock retentionDays : Z) (ledger : fires) :
  let limit := (clock - retentionDays * MILLISECONDS_PER_DAY)%Z in
  let '(ledger', r) := forgetOldEvents clock retentionDays (λ _, false) ledger in
  ledger' = ((λ f, if forgettable limit f then forget_event f else f) <$> ledger) ∧
  forgotten r = length (filter (λ f, forgettable limit f = true) ledger).
Proof. apply purge_loop_spec. unfold FIRE_PRUNE_BATCH_SIZE. lia. Qed.
