(* ===== verification/PlaybookKernel.v ===== *)
(** * The kernel of playbooks: values, refusals, canonical JSON

    Models of [packages/core/src/playbooks/kernel/]: [kernelError.ts], [dottedPath.ts],
    [secretName.ts] and [canonicalDigest.ts].  A JavaScript value is a tree: sharing is not
    observable here, and the code refuses a cyclic structure.  Numbers are an interface, with
    what the code uses of them: [===], finiteness, their text and the sign of a difference. *)
From stdpp Require Import sorting.
From S2P Require Import Prelude JsText Regex PolicyTypes.

(** ** Refusals *)
Inductive KernelErrorCode :=
  | TooManyConditions | UnknownOperator | UnknownToken | UnresolvedReference | SecretMissing
  | InvalidSecretName | SecretNotAllowedHere | UntrustedReference | NonCanonicalUrl | UrlAuthorityChanged
  | HeaderInjection | SecretTooShort | NotCanonicalJson.

(** A call that may throw a [KernelError]. *)
Inductive attempt (A : Type) :=
  | Returns (a : A)
  | Throws (code : KernelErrorCode).
Arguments Returns {A} _.
Arguments Throws {A} _.

Definition attempt_bind {A B} (x : attempt A) (k : A → attempt B) : attempt B :=
  match x with Returns a => k a | Throws code => Throws code end.
Declare Scope attempt_scope.
Delimit Scope attempt_scope with attempt.
Notation "x <- e ;; k" := (attempt_bind e (λ x, k)) (at level 100, e at next level, right associativity) : attempt_scope.
Open Scope attempt_scope.

(** The values of a list of calls, or the refusal of the first that throws. *)
Fixpoint all_of {A} (l : list (attempt A)) : attempt (list A) :=
  match l with
  | [] => Returns []
  | x :: l' => a <- x ;; rest <- all_of l' ;; Returns (a :: rest)
  end.

Lemma all_of_Returns {A} (l : list (attempt A)) r : all_of l = Returns r ↔ Forall2 (λ x a, x = Returns a) l r.
Proof.
  revert r. induction l as [|x l IH]; intros r; simpl.
  { split; [intros [= <-]; constructor|inversion 1; done]. }
  destruct x as [a|]; simpl; [|split; [done|inversion 1; congruence]].
  destruct (all_of l) as [r'|] eqn:E; simpl.
  - split; [intros [= <-]; constructor; [done|by apply IH]|].
    inversion 1 as [|? b ? r2 Hb Hr]; subst. injection Hb as <-. apply IH in Hr. congruence.
  - split; [done|]. inversion 1 as [|? b ? r2 Hb Hr]; subst. apply IH in Hr. congruence.
Qed.

(** ** Numbers *)
Class JsNumbers := {
  number : Type;
  number_eqb : number → number → bool;
  isFinite : number → bool;
  number_text : number → str;
  (** [Math.sign(a - b)]; [None] is [NaN]. *)
  sign_of_difference : number → number → option comparison;
  number_of_nat : nat → number;
  isSafeInteger : number → bool;
}.

(** What the language promises of the text of a finite number: it starts with a digit or a
    minus sign, has no character of the JSON punctuation, and denotes one number. *)
Definition numeral_start (c : N) : bool := is_digit c || N.eqb c (chr "-").
Definition numeral_unit (c : N) : bool := is_alnum c || mem_chr c (js "-+.").
Class JsNumberLaws `{JsNumbers} := {
  number_text_start n : isFinite n = true → ∃ c t, number_text n = c :: t ∧ numeral_start c = true;
  number_text_units n : isFinite n = true → forallb numeral_unit (number_text n) = true;
  number_text_eq n m : isFinite n = true → isFinite m = true → number_text n = number_text m ↔ number_eqb n m = true;
}.

(** The integers, for examples. *)
Definition integers : JsNumbers :=
  {| number := Z; number_eqb := Z.eqb; isFinite _ := true; number_text := String_of_Z;
     sign_of_difference a b := Some (Z.compare a b); number_of_nat := Z.of_nat;
     isSafeInteger z := Z.leb (Z.abs z) 9007199254740991 |}.

(** ** Values *)
Section Values.
Context `{JsNumbers}.

(** An array has a hole where it has no element; a plain object is its own members in
    enumeration order; [VInstance] is an object of another prototype, [VOther] a value of
    another type (a function, a symbol) known by its identity. *)
Inductive value :=
  | VUndefined
  | VNull
  | VBool (b : bool)
  | VNumber (n : number)
  | VString (s : str)
  | VArray (elements : list (option value))
  | VObject (members : rec value)
  | VInstance
  | VOther (identity : N).

(** Reading [value[segment]] of an own member; the own names of an array are its indices and
    [length]. *)
Fixpoint index_from (i : nat) (elements : list (option value)) (segment : str) : option value :=
  match elements with
  | [] => None
  | e :: rest => if str_eqb segment (String_of_nat i) then e else index_from (S i) rest segment
  end.
Definition own_member (current : value) (segment : str) : option value :=
  match current with
  | VArray elements =>
      if str_eqb segment (js "length") then Some (VNumber (number_of_nat (length elements)))
      else index_from 0 elements segment
  | VObject members => get members segment
  | _ => None
  end.
Definition valueAtDottedPath (root : value) (path : str) : value :=
  fold_left (λ current segment, default VUndefined (own_member current segment)) (split_on (chr ".") path) root.
End Values.

(** ** Names of secrets *)
Definition name_start (c : N) : bool := is_alpha c || N.eqb c (chr "_").
Definition SECRET_NAME (name : str) : bool :=
  match name with [] => false | c :: rest => name_start c && forallb is_word rest end.

(** ** [JSON.stringify] of a string *)
Definition is_high_surrogate (c : N) : bool := in_range 55296 56319 c.
Definition is_low_surrogate (c : N) : bool := in_range 56320 57343 c.
Definition hex_digit (n : N) : N := if N.ltb n 10 then n + 48 else n + 87.
Definition hex4 (c : N) : str :=
  [hex_digit (c / 4096 mod 16); hex_digit (c / 256 mod 16); hex_digit (c / 16 mod 16); hex_digit (c mod 16)]%N.
Definition unicode_escape (c : N) : str := BACKSLASH :: chr "u" :: hex4 c.
Definition json_unit (c : N) : str :=
  if N.eqb c 8 then BACKSLASH :: js "b"
  else if N.eqb c TAB then BACKSLASH :: js "t"
  else if N.eqb c LF then BACKSLASH :: js "n"
  else if N.eqb c 12 then BACKSLASH :: js "f"
  else if N.eqb c CR then BACKSLASH :: js "r"
  else if N.eqb c DQUOTE then [BACKSLASH; DQUOTE]
  else if N.eqb c BACKSLASH then [BACKSLASH; BACKSLASH]
  else if N.ltb c 32 then unicode_escape c
  else [c].
Fixpoint json_units (s : str) : str :=
  match s with
  | [] => []
  | c :: s' =>
      if is_high_surrogate c then
        match s' with
        | d :: s'' => if is_low_surrogate d then c :: d :: json_units s'' else unicode_escape c ++ json_units s'
        | [] => unicode_escape c
        end
      else if is_low_surrogate c then unicode_escape c ++ json_units s'
      else json_unit c ++ json_units s'
  end.
Definition json_string (s : str) : str := DQUOTE :: json_units s ++ [DQUOTE].

(** ** Canonical JSON *)
Section Canonical.
Context `{JsNumbers}.

Definition MAX_DEPTH : nat := 64.
Definition comma : str := js ",".
Definition hasHole (elements : list (option value)) : bool := existsb (λ e, match e with None => true | Some _ => false end) elements.

Definition written_member (written : rec (attempt str)) (key : str) : attempt str :=
  text <- default (Throws NotCanonicalJson) (get written key) ;; Returns (json_string key ++ js ":" ++ text).
Definition is_undefined (v : value) : bool := match v with VUndefined => true | _ => false end.

(** [depth] is the number of ancestors; every refusal has the same code. *)
Fixpoint canonicalTextOf (depth : nat) (v : value) : attempt str :=
  match v with
  | VNull => Returns (js "null")
  | VString s => Returns (json_string s)
  | VBool b => Returns (if b then js "true" else js "false")
  | VNumber n => if isFinite n then Returns (number_text n) else Throws NotCanonicalJson
  | VUndefined | VOther _ | VInstance => Throws NotCanonicalJson
  | VArray elements =>
      if bool_decide (MAX_DEPTH ≤ depth) then Throws NotCanonicalJson
      else if hasHole elements then Throws NotCanonicalJson
      else
        writtenElements <- all_of ((λ e, match e with
                                         | None | Some VUndefined => Returns (js "null")
                                         | Some element => canonicalTextOf (S depth) element
                                         end) <$> elements) ;;
        Returns (js "[" ++ join comma writtenElements ++ js "]")
  | VObject members =>
      if bool_decide (MAX_DEPTH ≤ depth) then Throws NotCanonicalJson
      else
        let written := (λ m : str * value, (m.1, canonicalTextOf (S depth) m.2)) <$> members in
        let sortedKeys := merge_sort str_le members.*1 in
        let keysToWrite := filter (λ key, is_undefined (default VUndefined (get members key)) = false) sortedKeys in
        writtenMembers <- all_of (written_member written <$> keysToWrite) ;;
        Returns (js "{" ++ join comma writtenMembers ++ js "}")
  end.
Definition canonicalJsonOf (v : value) : attempt str := canonicalTextOf 0 v.
(** [sha256] is the hash of the platform. *)
Definition canonicalDigestOf (sha256 : str → str) (v : value) : attempt str := text <- canonicalJsonOf v ;; Returns (sha256 text).
End Canonical.
