(* ===== verification/Conditions.v ===== *)
(** * Conditions on data

    Model of [packages/core/src/playbooks/kernel/conditionEvaluator.ts]: conditions on the
    members of a context, joined by [and] and [or].  [toLowerCase] is the Unicode case
    mapping, a parameter.  An operator is read from its name, since the code refuses an
    unknown one at run time. *)
From stdpp Require Import sorting.
From S2P Require Import Prelude JsText Regex PolicyTypes PlaybookKernel.

Inductive ConditionOperator :=
  | Ocontains | Oends_with | Oeq | Oexists | Ogt | Ogte | Olt | Olte | Oneq | Onot_contains | Onot_exists | Ostarts_with.
#[export] Instance ConditionOperator_eq_dec : EqDecision ConditionOperator.
Proof. solve_decision. Defined.
Definition CONDITION_OPERATORS : rec ConditionOperator :=
  [(js "contains", Ocontains); (js "ends_with", Oends_with); (js "eq", Oeq); (js "exists", Oexists); (js "gt", Ogt); (js "gte", Ogte);
   (js "lt", Olt); (js "lte", Olte); (js "neq", Oneq); (js "not_contains", Onot_contains); (js "not_exists", Onot_exists);
   (js "starts_with", Ostarts_with)].

Inductive Join := JoinAnd | JoinOr.
Definition MAX_CONDITIONS : nat := 32.

Section Evaluator.
Context `{JsNumbers}.
Variable toLowerCase : str → str.

Record Condition := mkCondition
  { condition_path : str; operator : str; condition_value : value; caseInsensitive : bool; join_with : option Join }.
Record Comparison := mkComparison { actual : value; expected : value; comparison_caseInsensitive : bool }.

Definition isPresent (v : value) : bool := match v with VUndefined | VNull => false | _ => true end.
Definition foldedCase (v : value) (caseInsensitive : bool) : value :=
  match v with VString s => if caseInsensitive then VString (toLowerCase s) else v | _ => v end.
Definition folded_text (s : str) (caseInsensitive : bool) : str := if caseInsensitive then toLowerCase s else s.
Definition isJsonStructure (v : value) : bool := match v with VArray _ | VObject _ | VInstance => true | _ => false end.

(** [a === b], of which one is not a structure. *)
Definition strictly_equal (a b : value) : bool :=
  match a, b with
  | VUndefined, VUndefined | VNull, VNull => true
  | VBool x, VBool y => Bool.eqb x y
  | VNumber n, VNumber m => number_eqb n m
  | VString s, VString t => str_eqb s t
  | VOther i, VOther j => N.eqb i j
  | _, _ => false
  end.
Definition areEqual (c : Comparison) : attempt bool :=
  let foldedActual := foldedCase (actual c) (comparison_caseInsensitive c) in
  let foldedExpected := foldedCase (expected c) (comparison_caseInsensitive c) in
  if isJsonStructure foldedActual && isJsonStructure foldedExpected then
    actualText <- canonicalJsonOf foldedActual ;; expectedText <- canonicalJsonOf foldedExpected ;;
    Returns (str_eqb actualText expectedText)
  else Returns (strictly_equal foldedActual foldedExpected).

(** [elements.some(test)]; a hole is skipped. *)
Fixpoint some_element (test : value → attempt bool) (elements : list (option value)) : attempt bool :=
  match elements with
  | [] => Returns false
  | None :: rest => some_element test rest
  | Some e :: rest => b <- test e ;; if b then Returns true else some_element test rest
  end.
Definition holds (c : Comparison) : attempt bool :=
  match actual c, expected c with
  | VArray elements, _ => some_element (λ element, areEqual (mkComparison element (expected c) (comparison_caseInsensitive c))) elements
  | VString s, VString t => Returns (includes (folded_text s (comparison_caseInsensitive c)) (folded_text t (comparison_caseInsensitive c)))
  | _, _ => Returns false
  end.
Definition onStrings (compare : str → str → bool) (c : Comparison) : attempt bool :=
  match actual c, expected c with
  | VString s, VString t => Returns (compare (folded_text s (comparison_caseInsensitive c)) (folded_text t (comparison_caseInsensitive c)))
  | _, _ => Returns false
  end.
(** The position of [NaN] satisfies no test. *)
Definition ordering (accepts : comparison → bool) (c : Comparison) : attempt bool :=
  match actual c, expected c with
  | VNumber n, VNumber m => Returns (match sign_of_difference n m with Some position => accepts position | None => false end)
  | VString s, VString t =>
      let foldedActual := folded_text s (comparison_caseInsensitive c) in
      let foldedExpected := folded_text t (comparison_caseInsensitive c) in
      Returns (accepts (if str_ltb foldedActual foldedExpected then Lt else if str_ltb foldedExpected foldedActual then Gt else Eq))
  | _, _ => Returns false
  end.
Definition negated (b : attempt bool) : attempt bool := x <- b ;; Returns (negb x).

Definition OPERATOR_VERDICTS (operator : ConditionOperator) (c : Comparison) : attempt bool :=
  match operator with
  | Oeq => areEqual c
  | Oneq => negated (areEqual c)
  | Ocontains => holds c
  | Onot_contains => negated (holds c)
  | Ostarts_with => onStrings startsWith c
  | Oends_with => onStrings endsWith c
  | Ogt => ordering (λ position, match position with Gt => true | _ => false end) c
  | Ogte => ordering (λ position, match position with Lt => false | _ => true end) c
  | Olt => ordering (λ position, match position with Lt => true | _ => false end) c
  | Olte => ordering (λ position, match position with Gt => false | _ => true end) c
  | Oexists => Returns (isPresent (actual c))
  | Onot_exists => Returns (negb (isPresent (actual c)))
  end.
Definition verdictOfCondition (condition : Condition) (context : value) : attempt bool :=
  match get CONDITION_OPERATORS (operator condition) with
  | None => Throws UnknownOperator
  | Some op =>
      OPERATOR_VERDICTS op (mkComparison (valueAtDottedPath context (condition_path condition)) (condition_value condition)
        (caseInsensitive condition))
  end.

Definition isOr (condition : Condition) : bool := match join_with condition with Some JoinOr => true | _ => false end.
(** The groups so far, the current one last; [position] is the number of conditions read. *)
Definition push_last (groups : list (list bool)) (verdict : bool) : list (list bool) :=
  match reverse groups with
  | [] => groups
  | current :: others => reverse others ++ [current ++ [verdict]]
  end.
Fixpoint groups_from (position : nat) (groups : list (list bool)) (conditions : list Condition) (context : value) : attempt (list (list bool)) :=
  match conditions with
  | [] => Returns groups
  | condition :: rest =>
      let opensAGroup := bool_decide (0 < position) && isOr condition in
      let opened := if opensAGroup then groups ++ [[]] else groups in
      verdict <- verdictOfCondition condition context ;;
      groups_from (S position) (push_last opened verdict) rest context
  end.
Definition evaluateConditions (conditions : list Condition) (context : value) : attempt bool :=
  if bool_decide (MAX_CONDITIONS < length conditions) then Throws TooManyConditions
  else
    groups <- groups_from 0 [[]] conditions context ;;
    Returns (bool_decide (length conditions = 0) || existsb (forallb id) groups).

(** ** What the groups mean *)

(** A run of conditions that starts the rule or an [or], is cut before the next [or], and holds entirely. *)
Definition holding_group (conditions : list Condition) (context : value) : Prop :=
  ∃ earlier first others later, conditions = earlier ++ (first :: others) ++ later ∧
    (earlier = [] ∨ isOr first = true) ∧ Forall (λ c, isOr c = false) others ∧ (∀ next, head later = Some next → isOr next = true) ∧
    Forall (λ c, verdictOfCondition c context = Returns true) (first :: others).

Section Groups.
Variable context : value.
Definition verdict (c : Condition) : bool := match verdictOfCondition c context with Returns b => b | Throws _ => false end.
Fixpoint some_group (current : bool) (conditions : list Condition) : bool :=
  match conditions with
  | [] => current
  | c :: rest => if isOr c then current || some_group (verdict c) rest else some_group (current && verdict c) rest
  end.
Lemma push_last_snoc finished current v : push_last (finished ++ [current]) v = finished ++ [current ++ [v]].
Proof. unfold push_last. by rewrite reverse_snoc, reverse_involutive. Qed.
Lemma groups_from_some_group conditions : ∀ position finished current groups,
  0 < position → groups_from position (finished ++ [current]) conditions context = Returns groups →
  existsb (forallb id) groups = existsb (forallb id) finished || some_group (forallb id current) conditions.
Proof.
  induction conditions as [|c rest IH]; intros position finished current groups Hpos; cbn [groups_from some_group].
  { intros [= <-]. rewrite existsb_app. cbn. by rewrite orb_false_r. }
  rewrite bool_decide_true by done. unfold verdict at 1 2. destruct (verdictOfCondition c context) as [v|] eqn:Hv; [|done]. cbn [andb attempt_bind].
  destruct (isOr c).
  - rewrite (push_last_snoc (finished ++ [current]) [] v). intros Hg. rewrite (IH (S position) _ _ _ (Nat.lt_0_succ _) Hg), existsb_app. cbn.
    by rewrite orb_false_r, andb_true_r, orb_assoc.
  - rewrite push_last_snoc. intros Hg. rewrite (IH (S position) _ _ _ (Nat.lt_0_succ _) Hg), forallb_app. cbn. by rewrite andb_true_r.
Qed.
Definition cut_here (later : list Condition) : Prop := ∀ next, head later = Some next → isOr next = true.
Lemma some_group_spec conditions : ∀ current, some_group current conditions = true ↔
  (current = true ∧ ∃ others later, conditions = others ++ later ∧ Forall (λ c, isOr c = false ∧ verdict c = true) others ∧ cut_here later) ∨
  (∃ earlier first others later, conditions = earlier ++ first :: others ++ later ∧ isOr first = true ∧ verdict first = true ∧
     Forall (λ c, isOr c = false ∧ verdict c = true) others ∧ cut_here later).
Proof.
  induction conditions as [|c rest IH]; intros current; cbn [some_group].
  { split.
    - intros ->. left. split; [done|]. exists [], []. split_and!; [done|constructor|done].
    - intros [[-> _]|(earlier & first & others & later & E & _)]; [done|]. by destruct earlier. }
  destruct (isOr c) eqn:Hor.
  - rewrite orb_true_iff, IH. split.
    + intros [->|[[Hv (others & later & -> & Ho & Hl)]|(earlier & first & others & later & -> & H1 & H2 & H3 & H4)]].
      * left. split; [done|]. exists [], (c :: rest). split_and!; [done|constructor|]. by intros next [= <-].
      * right. by exists [], c, others, later.
      * right. by exists (c :: earlier), first, others, later.
    + intros [[-> _]|(earlier & first & others & later & E & H1 & H2 & H3 & H4)]; [by left|]. right.
      destruct earlier as [|x earlier]; injection E as -> ->; [left; split; [done|]; by exists others, later|].
      right. by exists earlier, first, others, later.
  - rewrite IH, andb_true_iff. split.
    + intros [[[-> Hv] (others & later & -> & Ho & Hl)]|(earlier & first & others & later & -> & H1 & H2 & H3 & H4)].
      * left. split; [done|]. exists (c :: others), later. split_and!; [done| |done]. by constructor.
      * right. by exists (c :: earlier), first, others, later.
    + intros [[-> (others & later & E & Ho & Hl)]|(earlier & first & others & later & E & H1 & H2 & H3 & H4)].
      * destruct others as [|x others].
        { cbn in E. subst later. specialize (Hl c eq_refl). congruence. }
        injection E as -> ->. apply list.Forall_cons in Ho as [[_ Hv] Ho]. left. split; [done|]. by exists others, later.
      * destruct earlier as [|x earlier]; injection E as -> ->; [congruence|]. right. by exists earlier, first, others, later.
Qed.
Lemma verdict_true c : verdict c = true ↔ verdictOfCondition c context = Returns true.
Proof. unfold verdict. destruct (verdictOfCondition c context); [|done]. split; [by intros ->|by intros [= ->]]. Qed.
Lemma holding_group_iff first rest :
  holding_group (first :: rest) context ↔ some_group (verdict first) rest = true.
Proof.
  rewrite some_group_spec. unfold holding_group. split.
  - intros (earlier & f & others & later & E & Hstart & Ho & Hl & Hall). apply list.Forall_cons in Hall as [Hf Hall].
    assert (Hboth : Forall (λ c, isOr c = false ∧ verdict c = true) others).
    { apply list.Forall_and. split; [done|]. eapply list.Forall_impl; [exact Hall|]. intros c. apply verdict_true. }
    destruct earlier as [|x earlier]; injection E as -> ->.
    + left. split; [by apply verdict_true|]. by exists others, later.
    + right. exists earlier, f, others, later. destruct Hstart as [|Hor]; [done|]. split_and!; try done. by apply verdict_true.
  - assert (Hback : ∀ others, Forall (λ c, isOr c = false ∧ verdict c = true) others →
      Forall (λ c, isOr c = false) others ∧ Forall (λ c, verdictOfCondition c context = Returns true) others).
    { intros others [Ha Hb]%list.Forall_and. split; [done|]. eapply list.Forall_impl; [exact Hb|]. intros c. apply verdict_true. }
    intros [[Hv (others & later & -> & Ho & Hl)]|(earlier & f & others & later & -> & Hor & Hv & Ho & Hl)]; apply Hback in Ho as [Ho1 Ho2].
    + exists [], first, others, later. split_and!; [done|by left|done|done|]. constructor; [by apply verdict_true|done].
    + exists (first :: earlier), f, others, later. split_and!; [done|by right|done|done|]. constructor; [by apply verdict_true|done].
Qed.
Lemma groups_from_returns conditions : ∀ position groups,
  (∃ result, groups_from position groups conditions context = Returns result) ↔ Forall (λ c, ∃ b, verdictOfCondition c context = Returns b) conditions.
Proof.
  induction conditions as [|c rest IH]; intros position groups; cbn [groups_from]; [split; [constructor|eauto]|].
  rewrite list.Forall_cons. destruct (verdictOfCondition c context) as [v|] eqn:Hv; cbn [attempt_bind]; [rewrite IH|]; naive_solver.
Qed.
End Groups.

(** A rule of at most [MAX_CONDITIONS] conditions whose operators all give a verdict returns,
    and it holds exactly when it is empty or one of its groups holds entirely: a run of
    conditions between two [or]s (the join of the first condition does not count). *)
Theorem evaluateConditions_correct conditions context :
  length conditions ≤ MAX_CONDITIONS → Forall (λ c, ∃ b, verdictOfCondition c context = Returns b) conditions →
  ∃ b, evaluateConditions conditions context = Returns b ∧ (b = true ↔ conditions = [] ∨ holding_group conditions context).
Proof.
  intros Hlen Hall. unfold evaluateConditions. rewrite bool_decide_false by lia.
  destruct conditions as [|c rest]; [exists true; split; [done|naive_solver]|].
  destruct (proj2 (groups_from_returns context (c :: rest) 0 [[]]) Hall) as [groups Hg]. rewrite Hg. cbn [attempt_bind]. eexists. split; [done|].
  cbn [groups_from] in Hg. rewrite bool_decide_false in Hg by lia. cbn [andb] in Hg.
  apply list.Forall_cons in Hall as [[v Hv] _]. rewrite Hv in Hg. cbn [attempt_bind] in Hg.
  change (push_last [[]] v) with ([] ++ [[v]]) in Hg.
  rewrite (groups_from_some_group context rest 1 [] [v] groups ltac:(lia) Hg), holding_group_iff. cbn.
  assert (verdict context c = v) as -> by (unfold verdict; by rewrite Hv). rewrite andb_true_r. naive_solver.
Qed.

(** A refusal is always announced: more than [MAX_CONDITIONS] conditions throw
    [too_many_conditions]; otherwise the first condition without a verdict decides the
    refusal, and one whose operator has an unknown name throws [unknown_operator]. *)
Theorem evaluateConditions_refusals conditions context :
  (MAX_CONDITIONS < length conditions → evaluateConditions conditions context = Throws TooManyConditions) ∧
  (∀ earlier c later code, length conditions ≤ MAX_CONDITIONS → conditions = earlier ++ c :: later →
     Forall (λ c, ∃ b, verdictOfCondition c context = Returns b) earlier → verdictOfCondition c context = Throws code →
     evaluateConditions conditions context = Throws code) ∧
  (∀ c, get CONDITION_OPERATORS (operator c) = None → verdictOfCondition c context = Throws UnknownOperator).
Proof.
  unfold evaluateConditions. split_and!.
  - intros Hlen. by rewrite bool_decide_true.
  - intros earlier c later code Hlen -> Hall Hc. rewrite bool_decide_false by lia.
    assert (Hgo : ∀ position groups, groups_from position groups (earlier ++ c :: later) context = Throws code); [|by rewrite Hgo].
    induction Hall as [|x earlier [b Hb] _ IH]; intros position groups; cbn [groups_from app]; [by rewrite Hc|].
    rewrite Hb. cbn [attempt_bind]. apply IH. cbn in Hlen. lia.
  - intros c Hc. unfold verdictOfCondition. by rewrite Hc.
Qed.

(** Values never coerce: a number compared with a string is as no match, and its negations hold. *)
Lemma no_coercion op n s ci :
  OPERATOR_VERDICTS op (mkComparison (VNumber n) (VString s) ci) =
  Returns (bool_decide (op = Oneq ∨ op = Onot_contains ∨ op = Oexists)).
Proof. destruct op, ci; vm_compute; done. Qed.
End Evaluator.

(** [row.n > 2 and row.n < 3, or tag contains x]: the first group fails, the second holds. *)
#[local] Existing Instance integers.
Definition sample_context : value :=
  VObject [(js "row", VObject [(js "n", VNumber 3%Z)]); (js "tags", VArray [Some (VString (js "x"))])].
Definition sample_conditions : list Condition :=
  [mkCondition (js "row.n") (js "gt") (VNumber 2%Z) false (Some JoinOr); mkCondition (js "row.n") (js "lt") (VNumber 3%Z) false None;
   mkCondition (js "tags") (js "contains") (VString (js "x")) false (Some JoinOr)].
Lemma evaluateConditions_correct_witness :
  evaluateConditions (λ s, s) sample_conditions sample_context = Returns true ∧
  ∃ b, evaluateConditions (λ s, s) sample_conditions sample_context = Returns b ∧
    (b = true ↔ sample_conditions = [] ∨ holding_group (λ s, s) sample_conditions sample_context).
Proof.
  split; [vm_compute; reflexivity|].
  apply (evaluateConditions_correct (λ s, s) sample_conditions sample_context); [vm_compute; lia|].
  repeat constructor; eexists; vm_compute; reflexivity.
Defined.
