(* ===== verification/Templates.v ===== *)
(** * Templates

    Model of [packages/core/src/playbooks/kernel/tokenResolver.ts]: the tokens of a template,
    where each may stand, and their replacement by values.  The URL parser of the platform is
    a parameter: [parseUrl] gives the parts of a URL, or [None] when the constructor throws. *)
From S2P Require Import Prelude JsText Regex PolicyTypes PlaybookKernel.

(** ** Tokens *)
Inductive TokenKind :=
  | Kinputs (path : str)
  | Ksteps (stepId path : str)
  | Kitem
  | Kindex
  | Ksecret (name : str).
Record TemplateToken := mkToken { kind : TokenKind; raw : str; start : nat }.

Inductive TemplateSlot := ScriptArgs | ScriptEnv | HttpUrl | HttpHeaders | HttpAuth | HttpBody | TextSlot.
#[export] Instance TemplateSlot_eq_dec : EqDecision TemplateSlot.
Proof. solve_decision. Defined.
Record UntrustedSources := mkUntrusted { untrustedStepIds : list str; isItemUntrusted : bool }.
Record TemplateViolation := mkViolation { violation_code : KernelErrorCode; violation_token : str; violation_slot : TemplateSlot }.
Definition SLOTS_ACCEPTING_SECRETS : list TemplateSlot := [ScriptEnv; HttpHeaders; HttpAuth].
Definition SLOTS_REFUSING_UNTRUSTED : list TemplateSlot := [ScriptArgs; ScriptEnv; HttpUrl; HttpHeaders; HttpAuth].

(** Two opening braces, a run without braces, two closing braces, at the start of the text. *)
Definition isBrace (c : N) : bool := N.eqb c (chr "{") || N.eqb c (chr "}").
Definition TOKEN_PATTERN (s : str) : option str :=
  if startsWith s (js "{{") then
    let body := take_while (λ c, negb (isBrace c)) (drop 2 s) in
    if startsWith (drop (2 + length body) s) (js "}}") then Some (js "{{" ++ body ++ js "}}") else None
  else None.

(** [PATH]: names joined by dots. *)
Definition path_unit (c : N) : bool := is_alnum c || N.eqb c (chr "_") || N.eqb c (chr "-").
Definition is_segment (s : str) : bool := negb (str_eqb s []) && forallb path_unit s.
Definition PATH (s : str) : bool := forallb is_segment (split_on (chr ".") s).
Definition INPUT_REFERENCE (reference : str) : option str :=
  let path := drop 7 reference in
  if startsWith reference (js "inputs.") && PATH path then Some path else None.
Definition STEP_REFERENCE (reference : str) : option (str * str) :=
  if startsWith reference (js "steps.") then
    let rest := drop 6 reference in
    match indexOf rest (chr ".") 0 with
    | None => None
    | Some dot => if is_segment (take dot rest) && PATH (drop (S dot) rest) then Some (take dot rest, drop (S dot) rest) else None
    end
  else None.
Definition SECRET_REFERENCE_PREFIX : str := js "secret:".

(** [raw.slice(2, -2)] *)
Definition inner (raw : str) : str := take (length raw - 4) (drop 2 raw).
Definition kindOf (reference : str) : attempt TokenKind :=
  if str_eqb reference (js "item") then Returns Kitem
  else if str_eqb reference (js "index") then Returns Kindex
  else if startsWith reference SECRET_REFERENCE_PREFIX then
    let name := drop (length SECRET_REFERENCE_PREFIX) reference in
    if SECRET_NAME name then Returns (Ksecret name) else Throws InvalidSecretName
  else
    match INPUT_REFERENCE reference with
    | Some path => Returns (Kinputs path)
    | None =>
        match STEP_REFERENCE reference with
        | Some (stepId, path) => Returns (Ksteps stepId path)
        | None => Throws UnknownToken
        end
    end.
Definition tokenOf (raw : str) (start : nat) : attempt TemplateToken :=
  k <- kindOf (trim (inner raw)) ;; Returns (mkToken k raw start).

(** [template.matchAll(TOKEN_PATTERN)]: [skip] code units belong to the last match. *)
Fixpoint matches_from (position skip : nat) (s : str) : list (nat * str) :=
  match s with
  | [] => []
  | _ :: s' =>
      match skip with
      | S more => matches_from (S position) more s'
      | O =>
          match TOKEN_PATTERN s with
          | Some raw => (position, raw) :: matches_from (S position) (length raw - 1) s'
          | None => matches_from (S position) 0 s'
          end
      end
  end.
Definition tokensOf (template : str) : attempt (list TemplateToken) :=
  all_of ((λ m : nat * str, tokenOf m.2 m.1) <$> matches_from 0 0 template).

(** ** The authority of a URL *)
Definition scheme_unit (c : N) : bool := is_alnum c || mem_chr c (js "+.-").
(** [/^[a-z][a-z0-9+.-]*:\/\//i]: the length of the match, 0 when there is none. *)
Definition URL_SCHEME_PREFIX (s : str) : nat :=
  match s with
  | c :: rest =>
      let scheme := take_while scheme_unit rest in
      if is_alpha c && startsWith (drop (length scheme) rest) (js "://") then 1 + length scheme + 3 else 0
  | [] => 0
  end.
Definition ends_authority (c : N) : bool := mem_chr c (js "/?#").
Definition endOfAuthorityOf (urlTemplate : str) : nat :=
  let authorityStart := URL_SCHEME_PREFIX urlTemplate in
  authorityStart + length (take_while (λ c, negb (ends_authority c)) (drop authorityStart urlTemplate)).
Definition CANONICAL_URL_START (s : str) : bool :=
  match URL_SCHEME_PREFIX s with
  | O => startsWith s (js "{{")
  | n => match s !! n with Some c => negb (ends_authority c || N.eqb c BACKSLASH) | None => false end
  end.
Definition CHARACTERS_THE_URL_PARSER_REWRITES (s : str) : bool :=
  existsb (λ c, N.ltb c 32 || N.eqb c 127 || N.eqb c BACKSLASH) s.
Definition hasCanonicalUrlAuthority (urlText : str) : bool :=
  CANONICAL_URL_START urlText && negb (CHARACTERS_THE_URL_PARSER_REWRITES urlText).

(** ** What a template may not hold *)
Definition referencesUntrustedData (token : TemplateToken) (untrusted : UntrustedSources) : bool :=
  match kind token with
  | Ksteps stepId _ => mem_str stepId (untrustedStepIds untrusted)
  | Kitem => isItemUntrusted untrusted
  | _ => false
  end.
Definition is_secret (token : TemplateToken) : bool := match kind token with Ksecret _ => true | _ => false end.
Definition violationsOf (slot : TemplateSlot) (untrusted : option UntrustedSources) (endOfAuthority : nat) (token : TemplateToken)
  : list TemplateViolation :=
  if is_secret token && negb (bool_decide (slot ∈ SLOTS_ACCEPTING_SECRETS)) then [mkViolation SecretNotAllowedHere (raw token) slot]
  else
    let isInSensitivePart := bool_decide (start token < endOfAuthority) in
    let isUntrustedWhereRefused :=
      match untrusted with
      | None => false
      | Some u => bool_decide (slot ∈ SLOTS_REFUSING_UNTRUSTED) && isInSensitivePart && referencesUntrustedData token u
      end in
    if isUntrustedWhereRefused then [mkViolation UntrustedReference (raw token) slot] else [].
Definition findTemplateViolations (template : str) (slot : TemplateSlot) (untrusted : option UntrustedSources) : attempt (list TemplateViolation) :=
  let isUrl := bool_decide (slot = HttpUrl) in
  if isUrl && negb (hasCanonicalUrlAuthority template) then Returns [mkViolation NonCanonicalUrl template slot]
  else
    let endOfAuthority := if isUrl then endOfAuthorityOf template else length template in
    tokens <- tokensOf template ;;
    Returns (concat (violationsOf slot untrusted endOfAuthority <$> tokens)).
Definition assertTemplateAllowed (template : str) (slot : TemplateSlot) (untrusted : option UntrustedSources) : attempt unit :=
  violations <- findTemplateViolations template slot untrusted ;;
  match violations with
  | [] => Returns ()
  | first :: _ => Throws (violation_code first)
  end.

(** ** Resolution *)
Section Resolution.
Context `{JsNumbers}.

Record ResolutionScope := mkScope
  { inputs : value; steps : value; item : value; index : option number; secretValueOf : str → option str }.
Record Resolution := mkResolution { text : str; secretNames : list str }.

Definition textOf (v : value) : attempt str :=
  match v with
  | VUndefined | VNull => Throws UnresolvedReference
  | VString s => Returns s
  | VNumber n => Returns (number_text n)
  | VBool b => Returns (if b then js "true" else js "false")
  | _ => canonicalJsonOf v
  end.
(** [usedSecretNames.add(name)] *)
Definition add_name (names : list str) (name : str) : list str := if mem_str name names then names else names ++ [name].
Definition valueOfToken (token : TemplateToken) (scope : ResolutionScope) (usedSecretNames : list str) : attempt (str * list str) :=
  match kind token with
  | Kinputs path => t <- textOf (valueAtDottedPath (inputs scope) path) ;; Returns (t, usedSecretNames)
  | Ksteps stepId path => t <- textOf (valueAtDottedPath (steps scope) (stepId ++ js "." ++ path)) ;; Returns (t, usedSecretNames)
  | Kitem => t <- textOf (item scope) ;; Returns (t, usedSecretNames)
  | Kindex => t <- textOf (match index scope with Some n => VNumber n | None => VUndefined end) ;; Returns (t, usedSecretNames)
  | Ksecret name =>
      match secretValueOf scope name with
      | None | Some [] => Throws SecretMissing
      | Some v => Returns (v, add_name usedSecretNames name)
      end
  end.
(** The loop over the tokens: the text so far, how far the template is copied, the secrets used. *)
Fixpoint resolve_tokens (template : str) (scope : ResolutionScope) (tokens : list TemplateToken) (text : str) (copiedUpTo : nat) (used : list str)
  : attempt Resolution :=
  match tokens with
  | [] => Returns (mkResolution (text ++ drop copiedUpTo template) used)
  | token :: rest =>
      r <- valueOfToken token scope used ;;
      resolve_tokens template scope rest (text ++ slice template copiedUpTo (start token) ++ r.1) (start token + length (raw token)) r.2
  end.
Definition resolveTemplate (template : str) (scope : ResolutionScope) : attempt Resolution :=
  tokens <- tokensOf template ;; resolve_tokens template scope tokens [] 0 [].

(** ** Headers and URLs *)
Definition LINE_BREAK_OR_NUL (s : str) : bool := existsb (λ c, N.eqb c CR || N.eqb c LF || N.eqb c 0) s.
Definition assertResolvedHeadersAreSafe (headers : rec str) : attempt unit :=
  if existsb (λ h : str * str, LINE_BREAK_OR_NUL h.1 || LINE_BREAK_OR_NUL h.2) headers then Throws HeaderInjection else Returns ().

Record URL := mkURL { protocol : str; username : str; password : str; hostname : str; port : str; href : str }.
Definition authority_of (url : URL) : list str := [protocol url; username url; password url; hostname url; port url].
Variable parseUrl : str → option URL.
Definition parsedUrl (urlText : str) : attempt URL := match parseUrl urlText with Some url => Returns url | None => Throws NonCanonicalUrl end.
Definition resolveHttpUrl (template : str) (scope : ResolutionScope) (untrusted : option UntrustedSources) : attempt str :=
  _ <- assertTemplateAllowed template HttpUrl untrusted ;;
  authority <- resolveTemplate (take (endOfAuthorityOf template) template) scope ;;
  let resolvedAuthority := text authority in
  if negb (hasCanonicalUrlAuthority resolvedAuthority) then Throws NonCanonicalUrl
  else
    resolved <- resolveTemplate template scope ;;
    url <- parsedUrl (text resolved) ;;
    expectedAuthority <- parsedUrl resolvedAuthority ;;
    if bool_decide (authority_of url = authority_of expectedAuthority) then Returns (href url) else Throws UrlAuthorityChanged.
End Resolution.
