(* ===== verification/SecretMasker.v ===== *)
(** * The secret masker

    Model of [packages/core/src/playbooks/kernel/secretMasker.ts]: every spelling of a secret
    in an output is replaced by a marker, and a text that is too long is cut without splitting
    one.  The scanning expression of the code is the alternation of the spellings, longest
    first, restarted one unit after each match: at every position, the first spelling that
    matches there. *)
From S2P Require Import Prelude JsText Regex PolicyTypes Sorting PlaybookKernel.

Definition MIN_SECRET_LENGTH : nat := 8.
Record SecretToMask := mkSecret { secret_name : str; secret_value : str }.
Record Match := mkMatch { match_start : nat; match_end : nat; match_name : str }.

Definition markerOf (name : str) : str := js "[secret:" ++ name ++ js "]".

(** ** Characters *)

(** [Array.from(text)]: the units of each code point. *)
Fixpoint code_points (s : str) : list str :=
  match s with
  | [] => []
  | c :: s' =>
      match s' with
      | d :: s'' => if is_high_surrogate c && is_low_surrogate d then [c; d] :: code_points s'' else [c] :: code_points s'
      | [] => [[c]]
      end
  end.
Definition lengthInCharacters (s : str) : nat := length (code_points s).

(** The bytes of a code point in UTF-8; [None] for half of a surrogate pair. *)
Definition code_of (point : str) : option N :=
  match point with
  | [c] => if is_high_surrogate c || is_low_surrogate c then None else Some c
  | [c; d] => Some (65536 + (c - 55296) * 1024 + (d - 56320))%N
  | _ => None
  end.
Definition utf8_of (code : N) : list N :=
  (if N.ltb code 128 then [code]
  else if N.ltb code 2048 then [192 + code / 64; 128 + code mod 64]
  else if N.ltb code 65536 then [224 + code / 4096; 128 + code / 64 mod 64; 128 + code mod 64]
  else [240 + code / 262144; 128 + code / 4096 mod 64; 128 + code / 64 mod 64; 128 + code mod 64])%N.
Definition utf8 (s : str) : option (list N) :=
  bytes_of ← mapM (λ point, utf8_of <$> code_of point) (code_points s); Some (concat bytes_of).

(** ** Spellings *)
Definition upper_hex_digit (n : N) : N := (if N.ltb n 10 then n + 48 else n + 55)%N.
Definition percent (byte : N) : str := [chr "%"; upper_hex_digit (byte / 16)%N; upper_hex_digit (byte mod 16)%N].
Definition unreserved (c : N) : bool := is_alnum c || mem_chr c (js "-_.!~*'()").
(** [None]: the URIError of a lone surrogate. *)
Definition encodeURIComponent (s : str) : option str :=
  bytes_of ← mapM (λ point, utf8_of <$> code_of point) (code_points s);
  Some (concat ((λ bytes, match bytes with
                          | [b] => if unreserved b then [b] else percent b
                          | _ => concat (percent <$> bytes)
                          end) <$> bytes_of)).

Definition base64_digit (c62 c63 : N) (n : N) : N :=
  (if N.ltb n 26 then n + 65 else if N.ltb n 52 then n + 71 else if N.ltb n 62 then n - 4 else if N.eqb n 62 then c62 else c63)%N.
(** Base 64 without its padding. *)
Fixpoint base64_bytes (c62 c63 : N) (bytes : list N) : str :=
  match bytes with
  | a :: b :: c :: rest =>
      base64_digit c62 c63 (a / 4) :: base64_digit c62 c63 (a mod 4 * 16 + b / 16) ::
      base64_digit c62 c63 (b mod 16 * 4 + c / 64) :: base64_digit c62 c63 (c mod 64) :: base64_bytes c62 c63 rest
  | [a; b] => [base64_digit c62 c63 (a / 4); base64_digit c62 c63 (a mod 4 * 16 + b / 16); base64_digit c62 c63 (b mod 16 * 4)]
  | [a] => [base64_digit c62 c63 (a / 4); base64_digit c62 c63 (a mod 4 * 16)]
  | [] => []
  end%N.

Definition unicodeEscapeOf (c : N) : str := if N.leb c 127 then [c] else unicode_escape c.
(** [text.replaceAll(from, to)] for a one-unit [from] that [to] may contain. *)
Definition replace_unit (from : N) (to : str) (s : str) : str := concat ((λ c, if N.eqb c from then to else [c]) <$> s).
Definition jsonFormsOf (value : str) : list str :=
  let asStringifyWritesIt := json_units value in
  let withUnicodeEscapes := concat (unicodeEscapeOf <$> asStringifyWritesIt) in
  let escapedSlash := BACKSLASH :: js "/" in
  [asStringifyWritesIt; withUnicodeEscapes; replace_unit (chr "/") escapedSlash asStringifyWritesIt;
   replace_unit (chr "/") escapedSlash withUnicodeEscapes].
(** [urlEncoded.replaceAll('%20', '+')] *)
Fixpoint plus_for_space (s : str) : str :=
  match s with
  | a :: rest =>
      match rest with
      | b :: c :: rest' => if startsWith s (js "%20") then chr "+" :: plus_for_space rest' else a :: plus_for_space rest
      | _ => a :: plus_for_space rest
      end
  | [] => []
  end.
Definition formsOf (value : str) : option (list str) :=
  urlEncoded ← encodeURIComponent value;
  bytes ← utf8 value;
  Some ([value; urlEncoded; plus_for_space urlEncoded; base64_bytes (chr "+") (chr "/") bytes; base64_bytes (chr "-") (chr "_") bytes]
        ++ jsonFormsOf value).

(** ** Hexadecimal sequences *)
Definition isHex (c : N) : bool := is_digit c || in_range 97 102 c || in_range 65 70 c.
(** The length of the [%XX] or [\uXXXX] that starts a text, 0 when none does. *)
Definition hex_sequence (s : str) : nat :=
  match s with
  | c :: a :: b :: rest =>
      if N.eqb c (chr "%") && isHex a && isHex b then 3
      else match rest with
           | d :: e :: f :: _ => if N.eqb c BACKSLASH && N.eqb a (chr "u") && isHex b && isHex d && isHex e && isHex f then 6 else 0
           | _ => 0
           end
  | _ => 0
  end.
(** The units of a spelling, each with whether it lies in such a sequence. *)
Fixpoint marked_units (skip : nat) (s : str) : list (N * bool) :=
  match s with
  | [] => []
  | c :: s' =>
      match skip with
      | S more => (c, true) :: marked_units more s'
      | O => match hex_sequence s with
             | O => (c, false) :: marked_units 0 s'
             | S more => (c, true) :: marked_units more s'
             end
      end
  end.
Definition lower_unit (c : N) : N := if is_upper c then (c + 32)%N else c.
Definition withLowercaseHex (s : str) : str := (λ m : N * bool, if m.2 then lower_unit m.1 else m.1) <$> marked_units 0 s.
(** A unit of the pattern of a spelling: a hexadecimal letter of a sequence in either case. *)
Definition unit_matches (m : N * bool) (c : N) : bool :=
  N.eqb c m.1 || (m.2 && isHex m.1 && negb (is_digit m.1) && N.eqb (lower_unit c) (lower_unit m.1)).
Fixpoint units_match (units : list (N * bool)) (s : str) : bool :=
  match units, s with
  | [], _ => true
  | _ :: _, [] => false
  | m :: units', c :: s' => unit_matches m c && units_match units' s'
  end.
(** [patternOf(spelling)] at the start of a text. *)
Definition patternOf (spelling : str) (s : str) : bool := units_match (marked_units 0 spelling) s.

(** ** The masker *)
Inductive creation (A : Type) := Created (masker : A) | Refused (code : KernelErrorCode) | UriError.
Arguments Created {A} _.
Arguments Refused {A} _.
Arguments UriError {A}.

Definition assertMaskable (secret : SecretToMask) : option KernelErrorCode :=
  if negb (SECRET_NAME (secret_name secret)) then Some InvalidSecretName
  else if bool_decide (lengthInCharacters (secret_value secret) < MIN_SECRET_LENGTH) then Some SecretTooShort
  else None.

(** The owners in insertion order, then sorted by length, longest first ([sort] is stable). *)
Definition add_owner (name : str) (owners : rec str) (form : str) : rec str := if has_own owners form then owners else owners ++ [(form, name)].
Definition add_secret (owners : rec str) (named : str * list str) : rec str := fold_left (add_owner named.1) (withLowercaseHex <$> named.2) owners.
Definition namesBySpelling (named_forms : list (str * list str)) : rec str :=
  sort_by (λ owner : str * str, (- Z.of_nat (length owner.1))%Z) (fold_left add_secret named_forms []).

(** The match at a position: the first spelling of the alternation. *)
Definition match_at (nameOf : rec str) (position : nat) (s : str) : option Match :=
  match find (λ owner : str * str, patternOf owner.1 s) nameOf with
  | Some (spelling, _) =>
      let found := take (length spelling) s in
      Some (mkMatch position (position + length found) (default [] (get nameOf (withLowercaseHex found))))
  | None => None
  end.
Fixpoint matches_from_position (nameOf : rec str) (position : nat) (s : str) : list Match :=
  let here := match match_at nameOf position s with Some m => [m] | None => [] end in
  match s with
  | [] => here
  | _ :: s' => here ++ matches_from_position nameOf (S position) s'
  end.
Definition matchesOf (nameOf : rec str) (s : str) : list Match := matches_from_position nameOf 0 s.

(** The loop of [maskedWith]: the text so far, how far it is copied, the end of the region and
    the names it has; [None] is the [regionEnd] of -1. *)
Record Masking := mkMasking { masked : str; copiedUpTo : nat; regionEnd : option nat; regionNames : list str }.
Definition beyond (position : nat) (limit : option nat) : bool := match limit with Some l => bool_decide (l < position) | None => true end.
Definition at_or_beyond (position : nat) (limit : option nat) : bool := match limit with Some l => bool_decide (l ≤ position) | None => true end.
Definition closeRegion (m : Masking) : str := masked m ++ concat (markerOf <$> regionNames m).
Definition mask_match (text : str) (m : Masking) (found : Match) : Masking :=
  let startsNewRegion := at_or_beyond (match_start found) (regionEnd m) in
  let extendsRegion := beyond (match_end found) (regionEnd m) in
  let opened :=
    if startsNewRegion
    then mkMasking (closeRegion m ++ slice text (copiedUpTo m) (match_start found)) (copiedUpTo m) (regionEnd m) []
    else m in
  if startsNewRegion || extendsRegion then
    mkMasking (masked opened) (match_end found) (Some (match_end found))
      (if mem_str (match_name found) (regionNames opened) then regionNames opened else regionNames opened ++ [match_name found])
  else opened.
Definition maskedWith (text : str) (matches : list Match) : str :=
  let m := fold_left (mask_match text) matches (mkMasking [] 0 None []) in
  closeRegion m ++ drop (copiedUpTo m) text.

(** The region of matches that holds [position] strictly inside. *)
Fixpoint region_crossing (matches : list Match) (position : nat) (region : option (nat * nat)) : option nat :=
  let crosses := match region with Some (s, e) => bool_decide (s < position) && bool_decide (position < e) | None => false end in
  match matches with
  | [] => if crosses then fst <$> region else None
  | found :: rest =>
      match region with
      | Some (s, e) =>
          if bool_decide (match_start found < e) then region_crossing rest position (Some (s, max e (match_end found)))
          else if crosses then Some s
          else region_crossing rest position (Some (match_start found, match_end found))
      | None => region_crossing rest position (Some (match_start found, match_end found))
      end
  end.
Definition startOfRegionCrossing (matches : list Match) (position : nat) : option nat := region_crossing matches position None.
Definition unit_before_is_high (text : str) (cut : nat) : bool :=
  match cut with O => false | S k => match text !! k with Some c => is_high_surrogate c | None => false end end.
Definition cutPositionOf (text : str) (matches : list Match) (maxChars : nat) : nat :=
  let cut := default maxChars (startOfRegionCrossing matches maxChars) in
  if unit_before_is_high text cut then cut - 1 else cut.

Definition DEFAULT_MAX_INPUT_CHARS : nat := Z.to_nat 262144.
Definition TRUNCATION_MARKER : str := js "[truncated]".
Definition mask (nameOf : rec str) (maxInputChars : nat) (text : str) : str :=
  if bool_decide (length text ≤ maxInputChars) then maskedWith text (matchesOf nameOf text)
  else
    let longestSpelling := foldr max 1 ((λ owner : str * str, length owner.1) <$> nameOf) in
    let window := take (maxInputChars + longestSpelling - 1) text in
    let matches := matchesOf nameOf window in
    let cut := cutPositionOf text matches maxInputChars in
    let matchesBeforeTheCut := filter (λ m, match_end m ≤ cut) matches in
    maskedWith (take cut text) matchesBeforeTheCut ++ TRUNCATION_MARKER.
Definition named_forms (secret : SecretToMask) : option (str * list str) :=
  forms ← formsOf (secret_value secret); Some (secret_name secret, forms).
Definition createSecretMasker (secrets : list SecretToMask) (maxInputChars : nat) : creation (str → str) :=
  match omap assertMaskable secrets with
  | code :: _ => Refused code
  | [] =>
      match mapM named_forms secrets with
      | None => UriError
      | Some named => Created (mask (namesBySpelling named) maxInputChars)
      end
  end.
