(* ===== verification/CanonicalJsonFacts.v ===== *)
(** * Canonical JSON: facts

    The canonical text of a value determines its content and nothing else: two values have
    the same text exactly when they hold the same data, whatever the order of their keys. *)
From stdpp Require Import sorting.
From S2P Require Import Prelude JsText Regex PolicyTypes PlaybookKernel.

(** ** Strings are read back *)
Definition unescape (c : N) : N :=
  if N.eqb c (chr "b") then 8 else if N.eqb c (chr "t") then TAB else if N.eqb c (chr "n") then LF
  else if N.eqb c (chr "f") then 12 else if N.eqb c (chr "r") then CR else c.
(** The string that a JSON literal starting after its quote denotes, and the text after it. *)
Fixpoint read_units (s : str) : option (str * str) :=
  match s with
  | [] => None
  | c :: rest =>
      if N.eqb c DQUOTE then Some ([], rest)
      else if N.eqb c BACKSLASH then
        match rest with
        | e :: rest1 =>
            if N.eqb e (chr "u") then
              match rest1 with
              | a :: b :: x :: y :: rest2 =>
                  match read_units rest2 with
                  | Some (u, after) => Some (number_in_base 16 [a; b; x; y] :: u, after)
                  | None => None
                  end
              | _ => None
              end
            else match read_units rest1 with Some (u, after) => Some (unescape e :: u, after) | None => None end
        | [] => None
        end
      else match read_units rest with Some (u, after) => Some (c :: u, after) | None => None end
  end.

Lemma digit_value_hex n : (n < 16)%N → digit_value (hex_digit n) = n.
Proof.
  intros Hn. assert (Hall : forallb (λ k, N.eqb (digit_value (hex_digit (N.of_nat k))) (N.of_nat k)) (seq 0 16) = true) by reflexivity.
  rewrite forallb_forall in Hall. specialize (Hall (N.to_nat n)). rewrite N2Nat.id in Hall.
  apply N.eqb_eq, Hall, in_seq. lia.
Qed.
Lemma hex4_value c : (c < 65536)%N → number_in_base 16 (hex4 c) = c.
Proof.
  intros Hc. unfold hex4, number_in_base. cbn [fold_left].
  rewrite !digit_value_hex by (apply N.mod_lt; done). zify. div_lia.
Qed.
Lemma read_unicode_escape c rest u after :
  (c < 65536)%N → read_units rest = Some (u, after) → read_units (unicode_escape c ++ rest) = Some (c :: u, after).
Proof.
  intros Hc Hr. unfold unicode_escape. cbn [app].
  change (match read_units rest with Some (u, after) => Some (number_in_base 16 (hex4 c) :: u, after) | None => None end = Some (c :: u, after)).
  by rewrite Hr, hex4_value.
Qed.
Lemma read_plain c rest u after :
  c ≠ DQUOTE → c ≠ BACKSLASH → read_units rest = Some (u, after) → read_units (c :: rest) = Some (c :: u, after).
Proof. intros H1 H2 Hr. cbn [read_units]. apply N.eqb_neq in H1, H2. by rewrite H1, H2, Hr. Qed.
Lemma surrogate_plain c : is_high_surrogate c || is_low_surrogate c = true → c ≠ DQUOTE ∧ c ≠ BACKSLASH ∧ (c < 65536)%N.
Proof.
  unfold is_high_surrogate, is_low_surrogate, in_range, DQUOTE, BACKSLASH. rewrite orb_true_iff, !andb_true_iff, !N.leb_le. lia.
Qed.
Lemma read_escape e rest u after :
  N.eqb e (chr "u") = false → read_units rest = Some (u, after) → read_units (BACKSLASH :: e :: rest) = Some (unescape e :: u, after).
Proof. intros He Hr. cbn [read_units]. change (N.eqb BACKSLASH DQUOTE) with false. change (N.eqb BACKSLASH BACKSLASH) with true. cbn iota. by rewrite He, Hr. Qed.
Lemma read_json_unit c rest u after :
  read_units rest = Some (u, after) → read_units (json_unit c ++ rest) = Some (c :: u, after).
Proof.
  intros Hr. unfold json_unit.
  destruct (N.eqb_spec c 8) as [->|?]; [by apply (read_escape (chr "b"))|].
  destruct (N.eqb_spec c TAB) as [->|?]; [by apply (read_escape (chr "t"))|].
  destruct (N.eqb_spec c LF) as [->|?]; [by apply (read_escape (chr "n"))|].
  destruct (N.eqb_spec c 12) as [->|?]; [by apply (read_escape (chr "f"))|].
  destruct (N.eqb_spec c CR) as [->|?]; [by apply (read_escape (chr "r"))|].
  destruct (N.eqb_spec c DQUOTE) as [->|?]; [by apply (read_escape DQUOTE)|].
  destruct (N.eqb_spec c BACKSLASH) as [->|?]; [by apply (read_escape BACKSLASH)|].
  destruct (N.ltb_spec c 32); [apply read_unicode_escape; [lia|done]|by apply read_plain].
Qed.
Lemma read_json_units n : ∀ s rest, length s ≤ n → read_units (json_units s ++ DQUOTE :: rest) = Some (s, rest).
Proof.
  induction n as [|n IH]; intros [|c s] rest Hlen; simpl in Hlen; [done|lia|done|]. cbn [json_units].
  destruct (is_high_surrogate c) eqn:Hhigh.
  - destruct (surrogate_plain c) as (H1 & H2 & H3); [by rewrite Hhigh|].
    destruct s as [|d s]; [by apply read_unicode_escape|]. destruct (is_low_surrogate d) eqn:Hlow.
    + destruct (surrogate_plain d) as (H4 & H5 & _); [by rewrite Hlow, orb_true_r|].
      simpl in Hlen. do 2 (cbn [app]; apply read_plain; [done..|]). apply IH. lia.
    + rewrite <- app_assoc. apply read_unicode_escape; [done|]. apply IH. lia.
  - destruct (is_low_surrogate c) eqn:Hlow; rewrite <- app_assoc.
    + destruct (surrogate_plain c) as (_ & _ & H3); [by rewrite Hlow, orb_true_r|]. apply read_unicode_escape; [done|]. apply IH. lia.
    + apply read_json_unit, IH. lia.
Qed.
(** A literal ends where it ends, whatever follows. *)
Lemma json_string_prefix s t rest rest' : json_string s ++ rest = json_string t ++ rest' → s = t ∧ rest = rest'.
Proof.
  unfold json_string. cbn [app]. intros [= E]. rewrite <- !app_assoc in E. cbn [app] in E.
  pose proof (read_json_units (length s) s rest (le_n _)) as H1. rewrite E, (read_json_units (length t)) in H1 by done. by injection H1.
Qed.

(** ** Content *)
Section Content.
Context `{JsNumberLaws}.

Definition element_of (e : option value) : value := match e with Some VUndefined | None => VNull | Some v => v end.
Definition member (members : rec value) (key : str) (v : value) : Prop := get members key = Some v ∧ is_undefined v = false.

(** Two values hold the same data: undefined members are absent, undefined elements are null,
    and the order of the keys does not count. *)
Inductive same_content : value → value → Prop :=
  | same_null : same_content VNull VNull
  | same_bool b : same_content (VBool b) (VBool b)
  | same_number n m : number_eqb n m = true → same_content (VNumber n) (VNumber m)
  | same_string s : same_content (VString s) (VString s)
  | same_array es fs : length es = length fs →
      (∀ i e f, es !! i = Some e → fs !! i = Some f → same_content (element_of e) (element_of f)) →
      same_content (VArray es) (VArray fs)
  | same_object ms ns : (∀ key, (∃ v, member ms key v) ↔ (∃ w, member ns key w)) →
      (∀ key v w, member ms key v → member ns key w → same_content v w) →
      same_content (VObject ms) (VObject ns).

(** An object has one member per name, at every depth. *)
Inductive js_value : value → Prop :=
  | js_undefined : js_value VUndefined
  | js_null : js_value VNull
  | js_bool b : js_value (VBool b)
  | js_number n : js_value (VNumber n)
  | js_string s : js_value (VString s)
  | js_array es : (∀ v, Some v ∈ es → js_value v) → js_value (VArray es)
  | js_object ms : NoDup ms.*1 → (∀ key v, (key, v) ∈ ms → js_value v) → js_value (VObject ms)
  | js_instance : js_value VInstance
  | js_other identity : js_value (VOther identity).

Lemma value_nested_ind (P : value → Prop) :
  P VUndefined → P VNull → (∀ b, P (VBool b)) → (∀ n, P (VNumber n)) → (∀ s, P (VString s)) →
  (∀ es, (∀ v, Some v ∈ es → P v) → P (VArray es)) →
  (∀ ms, (∀ key v, (key, v) ∈ ms → P v) → P (VObject ms)) → P VInstance → (∀ identity, P (VOther identity)) → ∀ v, P v.
Proof.
  intros Hu Hn Hb Hnum Hs Ha Ho Hi Hoth. fix IH 1. intros [| | | | |es|ms| |]; [exact Hu|exact Hn|apply Hb|apply Hnum|apply Hs| | |exact Hi|apply Hoth].
  - apply Ha. induction es as [|e es IHes]; [intros ? Hnil%elem_of_nil; destruct Hnil|].
    intros v [E|Hv]%elem_of_cons; [|exact (IHes v Hv)]. destruct e as [w|]; [|discriminate]. injection E as ->. apply IH.
  - apply Ho. induction ms as [|m ms IHms]; [intros ? ? Hnil%elem_of_nil; destruct Hnil|].
    intros key v [E|Hv]%elem_of_cons; [|exact (IHms key v Hv)]. destruct m as [k w]. injection E as -> ->. apply IH.
Qed.

(** ** What is written *)
Lemma member_elem ms key v : member ms key v → (key, v) ∈ ms.
Proof. intros [Hg _]. by apply get_sound. Qed.
Lemma written_element d e :
  hasHole [e] = false →
  match e with None | Some VUndefined => Returns (js "null") | Some v => canonicalTextOf (S d) v end = canonicalTextOf (S d) (element_of e).
Proof. by destruct e as [[]|]. Qed.
Lemma get_written {B} (f : value → B) ms key : get ((λ m : str * value, (m.1, f m.2)) <$> ms) key = f <$> get ms key.
Proof. induction ms as [|[k v] ms IH]; csimpl; [done|]. by destruct (str_eqb k key). Qed.

(** The text of an array: one text per element. *)
Lemma array_text d es t :
  canonicalTextOf d (VArray es) = Returns t →
  ∃ ts, Forall2 (λ e u, canonicalTextOf (S d) (element_of e) = Returns u) es ts ∧ t = js "[" ++ join comma ts ++ js "]".
Proof.
  cbn [canonicalTextOf]. case_bool_decide; [done|]. destruct (hasHole es) eqn:Hh; [done|].
  destruct (all_of _) as [ts|] eqn:E; [|done]. intros [= <-]. exists ts. split; [|done].
  apply all_of_Returns in E. apply Forall2_fmap_l in E. revert Hh. induction E as [|e u es ts Heu Hrest IH]; intros Hh; [constructor|].
  cbn in Hh. apply orb_false_iff in Hh as [Hh1 Hh2]. constructor; [|by apply IH].
  rewrite <- written_element; [done|]. cbn. by rewrite Hh1.
Qed.

(** The keys an object is written with: the names of its members, in order. *)
Definition written_keys (ms : rec value) : list str :=
  filter (λ key, is_undefined (default VUndefined (get ms key)) = false) (merge_sort str_le ms.*1).
Lemma written_keys_elem ms key : key ∈ written_keys ms ↔ ∃ v, member ms key v.
Proof.
  unfold written_keys. rewrite list_elem_of_filter, (merge_sort_Permutation str_le). unfold member. split.
  - intros [Hu Hk]. destruct (get ms key) as [v|]; [by exists v|done].
  - intros (v & Hg & Hu). rewrite Hg. split; [done|]. apply get_sound in Hg. apply list_elem_of_fmap. by exists (key, v).
Qed.
Lemma StronglySorted_filter {A} (R : relation A) (P : A → Prop) `{∀ x, Decision (P x)} l :
  StronglySorted R l → StronglySorted R (filter P l).
Proof.
  induction 1 as [|x l Hl IH Hx]; [constructor|]. rewrite filter_cons. case_decide; [|done].
  constructor; [done|]. rewrite List.Forall_forall in *. intros y Hy. apply Hx. apply list_elem_of_In, list_elem_of_filter in Hy as [_ Hy].
  by apply list_elem_of_In.
Qed.
(** Keys in order and without repetition are determined by their set. *)
Lemma written_keys_eq ms ns :
  NoDup ms.*1 → NoDup ns.*1 → (∀ key, key ∈ written_keys ms ↔ key ∈ written_keys ns) → written_keys ms = written_keys ns.
Proof.
  intros Hm Hn Hiff. apply (StronglySorted_unique str_le).
  - apply StronglySorted_filter, StronglySorted_merge_sort; apply _.
  - apply StronglySorted_filter, StronglySorted_merge_sort; apply _.
  - apply NoDup_Permutation; [| |done]; unfold written_keys; apply list.NoDup_filter; by rewrite (merge_sort_Permutation str_le).
Qed.
Lemma object_text d ms t :
  canonicalTextOf d (VObject ms) = Returns t →
  ∃ ts, Forall2 (λ key u, ∃ v x, member ms key v ∧ canonicalTextOf (S d) v = Returns x ∧ u = json_string key ++ js ":" ++ x) (written_keys ms) ts ∧
    t = js "{" ++ join comma ts ++ js "}".
Proof.
  cbn [canonicalTextOf]. case_bool_decide; [done|]. fold (written_keys ms).
  destruct (all_of _) as [ts|] eqn:E; [|done]. intros [= <-]. exists ts. split; [|done].
  apply all_of_Returns in E. apply Forall2_fmap_l in E.
  pose proof (λ key, proj1 (written_keys_elem ms key)) as Hin. revert Hin. induction E as [|key u keys us Hu _ IH]; intros Hin; constructor.
  2: { apply IH. intros k Hk. apply Hin. by right. }
  destruct (Hin key) as [v Hv]; [left|].
  unfold compose, written_member in Hu. rewrite (get_written (canonicalTextOf (S d))), (proj1 Hv) in Hu. csimpl in Hu.
  destruct (canonicalTextOf (S d) v) as [x|] eqn:Hx; [|done]. exists v, x. split_and!; [done|done|]. by injection Hu as <-.
Qed.

(** ** One text, one content *)
Definition stops (rest : str) : Prop := match rest with [] => True | c :: _ => numeral_unit c = false end.
(** What a value starts with tells which kind of value it is. *)
Definition unit_kind (c : N) : nat :=
  if numeral_start c then 0 else if N.eqb c DQUOTE then 1 else if N.eqb c (chr "[") then 2 else if N.eqb c (chr "{") then 3
  else if N.eqb c (chr "n") then 4 else if N.eqb c (chr "t") then 5
  else if N.eqb c (chr "f") then 6 else 8.
Definition value_kind (v : value) : nat :=
  match v with
  | VNumber _ => 0 | VString _ => 1 | VArray _ => 2 | VObject _ => 3 | VNull => 4 | VBool true => 5 | VBool false => 6
  | _ => 7
  end.
Lemma text_kind d v t : canonicalTextOf d v = Returns t → ∃ c t', t = c :: t' ∧ unit_kind c = value_kind v.
Proof.
  destruct v as [| |[]|n|s|es|ms| |]; try done.
  - intros [= <-]. by eexists _, _.
  - intros [= <-]. by eexists _, _.
  - intros [= <-]. by eexists _, _.
  - cbn [canonicalTextOf]. destruct (isFinite n) eqn:Hn; [|done]. intros [= <-].
    destruct (number_text_start n Hn) as (c & t' & -> & Hc). exists c, t'. split; [done|]. unfold unit_kind. by rewrite Hc.
  - intros [= <-]. by eexists _, _.
  - intros (ts & _ & ->)%array_text. by eexists _, _.
  - intros (ts & _ & ->)%object_text. by eexists _, _.
Qed.

Lemma text_start d v t close : canonicalTextOf d v = Returns t → unit_kind close = 8 → ∃ c t', t = c :: t' ∧ c ≠ close.
Proof. intros (c & t' & -> & Hc)%text_kind Hclose. exists c, t'. split; [done|]. intros ->. by destruct v as [| |[]| | | | | |]; simplify_eq/=; rewrite Hclose in Hc. Qed.

(** Texts separated by commas up to a closing mark are read back one by one. *)
Lemma join_cons t ts : join comma (t :: ts) = t ++ concat ((λ u, comma ++ u) <$> ts).
Proof.
  revert t. induction ts as [|u ts IH]; intros t; [cbn; by rewrite app_nil_r|].
  change (join comma (t :: u :: ts)) with (t ++ comma ++ join comma (u :: ts)). rewrite IH. reflexivity.
Qed.
Definition separable (ts us : list str) : Prop :=
  ∀ t u rest rest', t ∈ ts → u ∈ us → stops rest → stops rest' → t ++ rest = u ++ rest' → t = u.
Lemma separable_tail t u ts us : separable (t :: ts) (u :: us) → separable ts us.
Proof. intros Hs x y rest rest' Hx Hy. apply Hs; by right. Qed.
Lemma separated_tail close rest : numeral_unit close = false → ∀ ts, stops (concat ((λ u, comma ++ u) <$> ts) ++ close :: rest).
Proof. by intros Hc [|t ts]. Qed.
Lemma separated_prefix close rest rest' ts : numeral_unit close = false → close ≠ chr "," → ∀ us,
  separable ts us →
  concat ((λ u, comma ++ u) <$> ts) ++ close :: rest = concat ((λ u, comma ++ u) <$> us) ++ close :: rest' → ts = us ∧ rest = rest'.
Proof.
  intros Hclose Hcomma. induction ts as [|t ts IH]; intros [|u us] Hs; csimpl; rewrite <- ?app_assoc.
  - by intros [= ->].
  - intros [= E]. destruct (Hcomma E).
  - intros [= E]. destruct (Hcomma (eq_sym E)).
  - intros [= E].
    assert (t = u) as ->.
    { eapply Hs; [left|left| | |exact E]; by apply separated_tail. }
    apply app_inv_head in E. apply IH in E as [-> ->]; [done|]. by eapply separable_tail.
Qed.
Lemma join_prefix close rest rest' ts us :
  numeral_unit close = false → close ≠ chr "," → separable ts us →
  (∀ t, t ∈ ts ∨ t ∈ us → ∃ c t', t = c :: t' ∧ c ≠ close) →
  join comma ts ++ close :: rest = join comma us ++ close :: rest' → ts = us ∧ rest = rest'.
Proof.
  intros Hclose Hcomma Hs Hstart. destruct ts as [|t ts], us as [|u us]; [cbn; by intros [= ->]|..].
  - destruct (Hstart u) as (c & u' & -> & Hc); [right; left|]. rewrite join_cons. cbn. intros [= E]. congruence.
  - destruct (Hstart t) as (c & t' & -> & Hc); [left; left|]. rewrite join_cons. cbn. intros [= E]. congruence.
  - rewrite !join_cons, <- !app_assoc. intros E.
    assert (t = u) as ->. { eapply Hs; [left|left| | |exact E]; by apply separated_tail. }
    apply app_inv_head in E. apply separated_prefix in E as [-> ->]; [done..|]. by eapply separable_tail.
Qed.

(** The text of [v] is read back from a longer text as the text of a value of the same content. *)
Definition readable (v : value) : Prop :=
  ∀ w d d' tv tw rest rest', js_value v → js_value w → canonicalTextOf d v = Returns tv → canonicalTextOf d' w = Returns tw →
    stops rest → stops rest' → tv ++ rest = tw ++ rest' → same_content v w ∧ tv = tw.
Lemma same_kind d d' v w tv tw rest rest' :
  canonicalTextOf d v = Returns tv → canonicalTextOf d' w = Returns tw → tv ++ rest = tw ++ rest' → value_kind v = value_kind w.
Proof.
  intros (c & t & -> & <-)%text_kind (c' & t' & -> & <-)%text_kind. by intros [= ->].
Qed.
Lemma readable_scalar v : match v with VArray _ | VObject _ => False | _ => True end → readable v.
Proof.
  intros Hscalar w d d' tv tw rest rest' Hv Hw Htv Htw Hr Hr' E. pose proof (same_kind _ _ _ _ _ _ _ _ Htv Htw E) as Hk.
  destruct v as [| |[]|n|s|es|ms| |]; try done; destruct w as [| |[]|m|u|fs|ns| |]; try done; simplify_eq/=; try by split; [constructor|].
  - destruct (isFinite n) eqn:Hn, (isFinite m) eqn:Hm; try done. simplify_eq.
    assert (number_text n = number_text m) as Et.
    { pose proof (number_text_units n Hn) as Hun. pose proof (number_text_units m Hm) as Hum.
      revert E Hun Hum. generalize (number_text n) as a, (number_text m) as b. clear -Hr Hr'.
      induction a as [|x a IH]; intros [|y b]; cbn; [done| | |].
      - intros -> _ [Hy _]%andb_true_iff. cbn in Hr. congruence.
      - intros <- [Hx _]%andb_true_iff _. cbn in Hr'. congruence.
      - intros [= -> E] [_ Ha]%andb_true_iff [_ Hb]%andb_true_iff. f_equal. by apply IH. }
    split; [|done]. constructor. by apply number_text_eq.
  - destruct (json_string_prefix s u rest rest') as [-> _]; [by cbn; f_equal|]. by split; [constructor|].
Qed.
Lemma element_js es e : js_value (VArray es) → e ∈ es → js_value (element_of e).
Proof. inversion 1 as [| | | | |? Hes| | |]; subst. intros He. destruct e as [v|]; [|constructor]. specialize (Hes v He). destruct v; done || constructor. Qed.
Lemma member_js ms key v : js_value (VObject ms) → member ms key v → js_value v.
Proof. inversion 1 as [| | | | | |? ? Hms| |]; subst. intros Hm%member_elem. by eapply Hms. Qed.

Lemma array_readable es : (∀ v, Some v ∈ es → readable v) → readable (VArray es).
Proof.
  intros IH w d d' tv tw rest rest' Hv Hw Htv Htw Hr Hr' E. pose proof (same_kind _ _ _ _ _ _ _ _ Htv Htw E) as Hk.
  destruct w as [| |[]|m|u|fs|ns| |]; try done.
  assert (IHe : ∀ e, e ∈ es → readable (element_of e)).
  { intros [v|] He; [|by apply readable_scalar]. specialize (IH v He). destruct v; done || by apply readable_scalar. }
  apply array_text in Htv as (ts & Hts & ->). apply array_text in Htw as (us & Hus & ->).
  rewrite <- !app_assoc in E. apply app_inv_head in E.
  apply (join_prefix (chr "]")) in E as [<- _]; [split; [|done]|done|done| |].
  - apply same_array; [transitivity (length ts); [|symmetry]; by eapply Forall2_length|]. intros i e f He Hf.
    destruct (Forall2_lookup_l _ _ _ _ _ Hts He) as (t & Ht & Het). destruct (Forall2_lookup_l _ _ _ _ _ Hus Hf) as (t' & Ht' & Hft).
    simplify_eq. apply list_elem_of_lookup_2 in He, Hf.
    by apply (IHe e He (element_of f) (S d) (S d') t t [] [] (element_js es e Hv He) (element_js fs f Hw Hf)).
  - intros t u r r' Ht Hu Hsr Hsr' Eq. apply list_elem_of_lookup in Ht as (i & Hi), Hu as (j & Hj).
    destruct (Forall2_lookup_r _ _ _ _ _ Hts Hi) as (e & He & Het). destruct (Forall2_lookup_r _ _ _ _ _ Hus Hj) as (f & Hf & Hft).
    apply list_elem_of_lookup_2 in He, Hf. 
    by apply (IHe e He (element_of f) (S d) (S d') t u r r' (element_js es e Hv He) (element_js fs f Hw Hf)).
  - intros t [Ht|Ht]; apply list_elem_of_lookup in Ht as (i & Hi).
    + destruct (Forall2_lookup_r _ _ _ _ _ Hts Hi) as (e & _ & He). by eapply text_start.
    + destruct (Forall2_lookup_r _ _ _ _ _ Hus Hi) as (e & _ & He). by eapply text_start.
Qed.

Lemma member_unique ms key v w : member ms key v → member ms key w → v = w.
Proof. intros [E1 _] [E2 _]. congruence. Qed.
Lemma object_readable ms : (∀ key v, (key, v) ∈ ms → readable v) → readable (VObject ms).
Proof.
  intros IH w d d' tv tw rest rest' Hv Hw Htv Htw Hr Hr' E. pose proof (same_kind _ _ _ _ _ _ _ _ Htv Htw E) as Hk.
  destruct w as [| |[]|m|u|fs|ns| |]; try done.
  assert (IHm : ∀ key v k w x y r r', member ms key v → member ns k w → canonicalTextOf (S d) v = Returns x → canonicalTextOf (S d') w = Returns y →
    stops r → stops r' → (json_string key ++ js ":" ++ x) ++ r = (json_string k ++ js ":" ++ y) ++ r' → key = k ∧ x = y ∧ same_content v w).
  { intros key v k w x y r r' Hm Hn Hx Hy Hsr Hsr' Eq. rewrite <- !app_assoc in Eq. apply json_string_prefix in Eq as [-> Eq].
    apply app_inv_head in Eq. destruct (IH k v (member_elem _ _ _ Hm) w (S d) (S d') x y r r' (member_js ms k v Hv Hm) (member_js ns k w Hw Hn)) as [? ?]; done. }
  apply object_text in Htv as (ts & Hts & ->). apply object_text in Htw as (us & Hus & ->).
  rewrite <- !app_assoc in E. apply app_inv_head in E.
  apply (join_prefix (chr "}")) in E as [<- _]; [split; [|done]|done|done| |].
  - assert (Hpair : ∀ i key k, written_keys ms !! i = Some key → written_keys ns !! i = Some k →
      key = k ∧ ∃ v w, member ms key v ∧ member ns k w ∧ same_content v w).
    { intros i key k Hi Hj. destruct (Forall2_lookup_l _ _ _ _ _ Hts Hi) as (t & Ht & v & x & Hm & Hx & ->).
      destruct (Forall2_lookup_l _ _ _ _ _ Hus Hj) as (t' & Ht' & w & y & Hn & Hy & ->).
      assert (Et : json_string key ++ js ":" ++ x = json_string k ++ js ":" ++ y) by congruence.
      destruct (IHm key v k w x y [] []) as (-> & -> & Hs); try done; [by rewrite Et|]. split; [done|]. by exists v, w. }
    assert (Hkeys : written_keys ms = written_keys ns).
    { apply list_eq_same_length with (length ts); [by eapply Forall2_length|by eapply Forall2_length|].
      intros i key k _ Hi Hj. by apply (Hpair i). }
    apply same_object.
    + intros key. by rewrite <- !written_keys_elem, Hkeys.
    + intros key v w Hm Hn. assert (Hin : key ∈ written_keys ms) by (apply written_keys_elem; by exists v).
      apply list_elem_of_lookup in Hin as (i & Hi). destruct (Hpair i key key) as (_ & v' & w' & Hm' & Hn' & Hs); [done|by rewrite <- Hkeys|].
      by rewrite (member_unique _ _ _ _ Hm Hm'), (member_unique _ _ _ _ Hn Hn').
  - intros t u r r' Ht Hu Hsr Hsr' Eq. apply list_elem_of_lookup in Ht as (i & Hi), Hu as (j & Hj).
    destruct (Forall2_lookup_r _ _ _ _ _ Hts Hi) as (key & _ & v & x & Hm & Hx & ->).
    destruct (Forall2_lookup_r _ _ _ _ _ Hus Hj) as (k & _ & w & y & Hn & Hy & ->).
    by destruct (IHm key v k w x y r r') as (-> & -> & _).
  - intros t [Ht|Ht]; apply list_elem_of_lookup in Ht as (i & Hi).
    + destruct (Forall2_lookup_r _ _ _ _ _ Hts Hi) as (key & _ & v & x & _ & _ & ->). by eexists DQUOTE, _.
    + destruct (Forall2_lookup_r _ _ _ _ _ Hus Hi) as (key & _ & v & x & _ & _ & ->). by eexists DQUOTE, _.
Qed.
Lemma every_value_readable v : readable v.
Proof. induction v using value_nested_ind; first [by apply readable_scalar|by apply array_readable|by apply object_readable]. Qed.

Lemma same_content_same_text v w :
  same_content v w → js_value v → js_value w → ∀ d d' tv tw, canonicalTextOf d v = Returns tv → canonicalTextOf d' w = Returns tw → tv = tw.
Proof.
  induction 1 as [| |n m Hnm| |es fs Hlen _ IH|ms ns Hkeys _ IH]; intros Hv Hw d d' tv tw.
  - cbn. congruence.
  - cbn. congruence.
  - cbn [canonicalTextOf]. destruct (isFinite n) eqn:Hn, (isFinite m) eqn:Hm; try done. intros [= <-] [= <-]. by apply number_text_eq.
  - cbn. congruence.
  - intros (ts & Hts & ->)%array_text (us & Hus & ->)%array_text. do 2 f_equal. f_equal.
    apply list_eq_same_length with (length ts); [|done|].
    { rewrite <- (Forall2_length Hus), <- (Forall2_length Hts). done. }
    intros i t u _ Hi Hj. destruct (Forall2_lookup_r _ _ _ _ _ Hts Hi) as (e & He & Het), (Forall2_lookup_r _ _ _ _ _ Hus Hj) as (f & Hf & Hft).
    by apply (IH i e f He Hf (element_js es e Hv (list_elem_of_lookup_2 _ _ _ He)) (element_js fs f Hw (list_elem_of_lookup_2 _ _ _ Hf)) (S d) (S d')).
  - intros (ts & Hts & ->)%object_text (us & Hus & ->)%object_text. do 2 f_equal. f_equal.
    assert (Hk : written_keys ms = written_keys ns).
    { inversion Hv; inversion Hw; subst. apply written_keys_eq; [done..|]. intros key. by rewrite !written_keys_elem. }
    rewrite <- Hk in Hus. apply list_eq_same_length with (length ts); [|done|].
    { rewrite <- (Forall2_length Hus), <- (Forall2_length Hts). done. }
    intros i t u _ Hi Hj.
    destruct (Forall2_lookup_r _ _ _ _ _ Hts Hi) as (key & Hkey & v & x & Hm & Hx & ->), (Forall2_lookup_r _ _ _ _ _ Hus Hj) as (k & Hkey' & w & y & Hn & Hy & ->).
    assert (k = key) as -> by congruence. by rewrite (IH key v w Hm Hn (member_js ms key v Hv Hm) (member_js ns key w Hw Hn) (S d) (S d') x y Hx Hy).
Qed.

(** C39. Canonical JSON identifies content: two values that have a canonical form have the same
    text exactly when they hold the same data, whatever the order of their keys and with
    undefined members left out. *)
Theorem canonical_json_identifies_content v w tv tw :
  js_value v → js_value w → canonicalJsonOf v = Returns tv → canonicalJsonOf w = Returns tw → (tv = tw ↔ same_content v w).
Proof.
  intros Hv Hw Htv Htw. split.
  - intros ->. by apply (every_value_readable v w 0 0 tw tw [] []).
  - intros Hs. by eapply same_content_same_text.
Qed.
End Content.

(** ** The integers are such numbers *)
#[local] Existing Instance integers.
#[export] Instance integers_laws : JsNumberLaws.
Proof.
  split.
  - intros n _. destruct (String_of_Z_units n) as (sign & digits & E & Hs & Hne & Hd). cbn [number_text integers]. rewrite E. destruct Hs as [->| ->]; [|by eexists _, _].
    destruct Hd as [|c digits Hc Hd]; [done|]. exists c, digits. split; [done|]. unfold numeral_start. by rewrite Hc.
  - intros n _. destruct (String_of_Z_units n) as (sign & digits & E & Hs & _ & Hd). cbn. rewrite E, forallb_app.
    apply andb_true_iff. split; [by destruct Hs as [->| ->]|]. clear E. induction Hd as [|c digits Hc _ IH]; [done|]. cbn.
    unfold numeral_unit, is_alnum. by rewrite Hc, orb_true_r.
  - intros n m _ _. cbn. rewrite Z.eqb_eq. split; [by intros ?%(inj String_of_Z)|by intros ->].
Qed.

Definition unordered_json : value := VObject [(js "b", VArray [Some (VNumber 1%Z); Some VUndefined]); (js "a", VString (js "x")); (js "c", VUndefined)].
Definition ordered_json : value := VObject [(js "a", VString (js "x")); (js "b", VArray [Some (VNumber 1%Z); Some VNull])].
Ltac js_value_by_cases :=
  repeat match goal with
  | |- js_value (VArray _) => constructor
  | |- js_value (VObject _) => constructor; [cbn [fmap list_fmap fst]; refine (bool_decide_unpack _ _); vm_compute; exact I|]
  | |- js_value _ => constructor
  | |- ∀ _, _ => intro
  | Hin : _ ∈ [] |- _ => by apply elem_of_nil in Hin
  | Hin : _ ∈ _ :: _ |- _ => apply elem_of_cons in Hin as [Hin|Hin]
  | Heq : _ = _ |- _ => progress simplify_eq/=
  end.
Lemma unordered_json_ok : js_value unordered_json.
Proof. unfold unordered_json. js_value_by_cases. Qed.
Lemma ordered_json_ok : js_value ordered_json.
Proof. unfold ordered_json. js_value_by_cases. Qed.
Lemma canonical_json_identifies_content_witness :
  canonicalJsonOf unordered_json = canonicalJsonOf ordered_json ∧ same_content unordered_json ordered_json.
Proof.
  split; [vm_compute; reflexivity|].
  apply (canonical_json_identifies_content unordered_json ordered_json _ _ unordered_json_ok ordered_json_ok eq_refl eq_refl).
  vm_compute. reflexivity.
Defined.

(** A structure nested deeper than the limit, a hole and a function have no canonical form. *)
Example refused_json :
  canonicalJsonOf (Nat.iter 65 (λ v, VArray [Some v]) VNull) = Throws NotCanonicalJson ∧
  canonicalJsonOf (VArray [None]) = Throws NotCanonicalJson ∧ canonicalJsonOf (VObject [(js "f", VOther 0)]) = Throws NotCanonicalJson.
Proof. vm_compute. done. Qed.
