(* ===== verification/TemplatesFacts.v ===== *)
(** * Templates: facts

    A template is read once, from left to right, and its tokens are replaced in one pass.
    What a slot refuses cannot influence what the slot receives: secrets outside the slots
    that accept them, data the author did not write in the slots that steer a command, and
    the authority of a URL. *)
From S2P Require Import Prelude JsText Regex PolicyTypes PlaybookKernel Templates.

(** ** Tokens in a text *)
Lemma take_while_all p s : forallb p (take_while p s) = true.
Proof. induction s as [|c s IH]; simpl; [done|]. destruct (p c) eqn:E; simpl; [by rewrite E|done]. Qed.
Lemma take_while_stop p s rest : forallb p s = true → (∀ c, head rest = Some c → p c = false) → take_while p (s ++ rest) = s.
Proof.
  induction s as [|c s IH]; simpl; intros Hs Hr.
  - destruct rest as [|c rest]; [done|]. simpl. by rewrite (Hr c).
  - apply andb_true_iff in Hs as [-> Hs]. by rewrite IH.
Qed.
Lemma take_while_split p s : s = take_while p s ++ drop (length (take_while p s)) s.
Proof. induction s as [|c s IH]; simpl; [done|]. destruct (p c); simpl; [by f_equal|done]. Qed.
Definition plain (body : str) : Prop := forallb (λ c, negb (isBrace c)) body = true.
Lemma TOKEN_PATTERN_iff s raw :
  TOKEN_PATTERN s = Some raw ↔ ∃ body rest, raw = js "{{" ++ body ++ js "}}" ∧ plain body ∧ s = raw ++ rest.
Proof.
  unfold TOKEN_PATTERN. split.
  - destruct (startsWith s (js "{{")) eqn:Hs; [|done]. apply startsWith_iff in Hs as [rest ->].
    change (drop 2 (js "{{" ++ rest)) with rest. set (body := take_while _ rest).
    change (drop (2 + length body) (js "{{" ++ rest)) with (drop (length body) rest).
    destruct (startsWith _ (js "}}")) eqn:He; [|done]. intros [= <-]. apply startsWith_iff in He as [rest' He].
    exists body, rest'. split_and!; [done|apply take_while_all|]. rewrite (take_while_split (λ c, negb (isBrace c)) rest) at 1. fold body.
    rewrite He. cbn [app]. by rewrite <- app_assoc.
  - intros (body & rest & -> & Hb & ->). rewrite <- !app_assoc.
    assert (Hstart : startsWith (js "{{" ++ body ++ js "}}" ++ rest) (js "{{") = true) by (apply startsWith_iff; eauto). rewrite Hstart.
    change (drop 2 (js "{{" ++ body ++ js "}}" ++ rest)) with (body ++ js "}}" ++ rest).
    rewrite take_while_stop; [|done|by intros c [= <-]].
    change (drop (2 + length body) (js "{{" ++ body ++ js "}}" ++ rest)) with (drop (length body) (body ++ js "}}" ++ rest)).
    rewrite drop_app_length. assert (Hend : startsWith (js "}}" ++ rest) (js "}}") = true) by (apply startsWith_iff; eauto). by rewrite Hend.
Qed.

(** A text read from left to right: tokens where one starts, single code units elsewhere. *)
Inductive part := Unit (c : N) | Token (raw : str).
Inductive reads : str → list part → Prop :=
  | reads_nil : reads [] []
  | reads_token token rest parts : TOKEN_PATTERN (token ++ rest) = Some token → reads rest parts → reads (token ++ rest) (Token token :: parts)
  | reads_unit c s parts : TOKEN_PATTERN (c :: s) = None → reads s parts → reads (c :: s) (Unit c :: parts).
Definition part_text (p : part) : str := match p with Unit c => [c] | Token raw => raw end.

Lemma reads_total n : ∀ s, length s ≤ n → ∃ parts, reads s parts.
Proof.
  induction n as [|n IH]; intros [|c s] Hlen; simpl in Hlen; try (exists []; constructor); [lia|].
  destruct (TOKEN_PATTERN (c :: s)) as [raw|] eqn:Ht.
  - pose proof Ht as (body & rest & Hraw & _ & E)%TOKEN_PATTERN_iff. destruct (IH rest) as [parts Hp].
    { apply (f_equal length) in E. rewrite length_app, Hraw, length_app in E. simpl in E. change (length (js "{{")) with 2 in E. lia. }
    exists (Token raw :: parts). rewrite E in *. by constructor.
  - destruct (IH s) as [parts Hp]; [lia|]. exists (Unit c :: parts). by constructor.
Qed.
Lemma reads_text s parts : reads s parts → concat (part_text <$> parts) = s.
Proof. induction 1; csimpl; [done|by f_equal|by f_equal]. Qed.

(** ** The positions of the matches *)
Fixpoint positions (position : nat) (parts : list part) : list (nat * str) :=
  match parts with
  | [] => []
  | Unit _ :: rest => positions (S position) rest
  | Token raw :: rest => (position, raw) :: positions (position + length raw) rest
  end.
Lemma matches_skip position u rest : matches_from position (length u) (u ++ rest) = matches_from (position + length u) 0 rest.
Proof. revert position. induction u as [|c u IH]; intros position; simpl; [by rewrite Nat.add_0_r|]. rewrite IH. f_equal. lia. Qed.
Lemma matches_positions s parts : reads s parts → ∀ position, matches_from position 0 s = positions position parts.
Proof.
  induction 1 as [|raw rest parts Ht _ IH|c s parts Ht _ IH]; intros position; [done| |cbn [matches_from positions]; by rewrite Ht, IH].
  pose proof Ht as (body & rest' & Hraw & _ & E)%TOKEN_PATTERN_iff. clear E. destruct raw as [|c u]; [by destruct body|].
  cbn [app matches_from positions] in *. rewrite Ht. f_equal.
  replace (length (c :: u) - 1) with (length u) by (simpl; lia). rewrite matches_skip, IH. f_equal. simpl. lia.
Qed.
Lemma matches_bounds s : ∀ position skip p raw,
  (p, raw) ∈ matches_from position skip s → position ≤ p ∧ p < position + length s ∧ ∃ rest, drop (p - position) s = raw ++ rest ∧ TOKEN_PATTERN (raw ++ rest) = Some raw.
Proof.
  induction s as [|c s IH]; intros position skip p raw; [by intros ?%elem_of_nil|]. cbn [matches_from].
  assert (Hlater : ∀ k, (p, raw) ∈ matches_from (S position) k s →
    position ≤ p ∧ p < position + length (c :: s) ∧ ∃ rest, drop (p - position) (c :: s) = raw ++ rest ∧ TOKEN_PATTERN (raw ++ rest) = Some raw).
  { intros k (H1 & H2 & H3)%IH. split_and!; [lia|simpl; lia|]. by replace (p - position) with (S (p - S position)) by lia. }
  destruct skip as [|skip]; [|apply Hlater]. destruct (TOKEN_PATTERN (c :: s)) as [r|] eqn:Ht; [|apply Hlater].
  intros [[= -> ->]|Hin]%elem_of_cons; [|by eapply Hlater]. split_and!; [lia|simpl; lia|]. rewrite Nat.sub_diag.
  pose proof Ht as (body & rest & Hraw & _ & E)%TOKEN_PATTERN_iff. exists rest. by rewrite <- E.
Qed.

(** ** Resolution, part by part *)
Section Resolution.
Context `{JsNumbers}.

Fixpoint resolve_parts (scope : ResolutionScope) (parts : list part) (used : list str) : attempt Resolution :=
  match parts with
  | [] => Returns (mkResolution [] used)
  | Unit c :: rest => r <- resolve_parts scope rest used ;; Returns (mkResolution (c :: text r) (secretNames r))
  | Token raw :: rest =>
      k <- kindOf (trim (inner raw)) ;;
      v <- valueOfToken (mkToken k raw 0) scope used ;;
      r <- resolve_parts scope rest v.2 ;;
      Returns (mkResolution (v.1 ++ text r) (secretNames r))
  end.
Definition prepend (s : str) (r : attempt Resolution) : attempt Resolution := x <- r ;; Returns (mkResolution (s ++ text x) (secretNames x)).

Lemma resolve_tokens_parts scope s parts : reads s parts → ∀ template pre units tokens acc used,
  template = pre ++ units ++ s →
  all_of ((λ m : nat * str, tokenOf m.2 m.1) <$> positions (length pre + length units) parts) = Returns tokens →
  resolve_tokens template scope tokens acc (length pre) used = prepend (acc ++ units) (resolve_parts scope parts used).
Proof.
  induction 1 as [|tok rest parts Ht _ IH|c s parts Ht _ IH]; intros template pre units tokens acc used Htemplate.
  - cbn. intros [= <-]. cbn. subst template. by rewrite !app_nil_r, drop_app_length.
  - cbn [positions]. csimpl. unfold tokenOf at 1. cbn [resolve_parts fst snd]. destruct (kindOf _) as [k|]; [|done]. cbn [attempt_bind].
    destruct (all_of _) as [tokens'|] eqn:Hrest; [|done]. cbn [attempt_bind]. intros [= <-]. cbn [resolve_tokens start raw].
    assert (Hsame : valueOfToken (mkToken k tok (length pre + length units)) scope used = valueOfToken (mkToken k tok 0) scope used) by done.
    rewrite Hsame. destruct (valueOfToken _ scope used) as [[v used']|]; [|done]. cbn [attempt_bind fst snd].
    replace (length pre + length units + length tok) with (length (pre ++ units ++ tok)) by (rewrite !length_app; lia).
    rewrite (IH template (pre ++ units ++ tok) [] tokens').
    + rewrite app_nil_r. assert (Hslice : slice template (length pre) (length pre + length units) = units) by (rewrite Htemplate; apply slice_at_split).
      rewrite Hslice. destruct (resolve_parts scope parts used') as [r|]; [|done]. cbn. by rewrite !app_assoc.
    + by rewrite Htemplate, <- !app_assoc.
    + cbn [length]. rewrite Nat.add_0_r. rewrite !length_app. rewrite <- Hrest. do 3 f_equal. lia.
  - cbn [positions]. intros Hall.
    rewrite (IH template pre (units ++ [c]) tokens).
    + cbn [resolve_parts]. destruct (resolve_parts scope parts used) as [r|]; [|done]. cbn. by rewrite <- !app_assoc.
    + by rewrite Htemplate, <- app_assoc.
    + rewrite length_app. simpl. by replace (length pre + (length units + 1)) with (S (length pre + length units)) by lia.
Qed.
Lemma parts_have_tokens scope parts used r : resolve_parts scope parts used = Returns r → ∀ position,
  ∃ tokens, all_of ((λ m : nat * str, tokenOf m.2 m.1) <$> positions position parts) = Returns tokens.
Proof.
  revert used r. induction parts as [|[c|raw] parts IH]; intros used r; cbn [resolve_parts positions].
  - intros _ position. by exists [].
  - destruct (resolve_parts scope parts used) as [r'|] eqn:E; [|done]. intros _ position. by eapply IH.
  - destruct (kindOf _) as [k|] eqn:Hk; [|done]. cbn [attempt_bind]. destruct (valueOfToken _ _ _) as [v|]; [|done]. cbn [attempt_bind].
    destruct (resolve_parts scope parts v.2) as [r'|] eqn:E; [|done]. intros _ position.
    destruct (IH _ _ E (position + length raw)) as [tokens Ht]. eexists. csimpl. unfold tokenOf at 1. cbn [fst snd]. rewrite Hk. cbn [attempt_bind].
    by rewrite Ht.
Qed.

(** A template is replaced in one pass: reading it from left to right, the result is the text
    with each token replaced by its value and every other code unit kept, and the names of the
    secrets it read; a value that looks like a token is not expanded. *)
Theorem resolveTemplate_is_one_pass template scope r :
  resolveTemplate template scope = Returns r ↔
  ∃ parts, reads template parts ∧ concat (part_text <$> parts) = template ∧ resolve_parts scope parts [] = Returns r.
Proof.
  assert (Hall : ∀ parts, reads template parts → ∀ tokens, tokensOf template = Returns tokens →
    resolveTemplate template scope = prepend [] (resolve_parts scope parts [])).
  { intros parts Hp tokens Ht. unfold resolveTemplate. rewrite Ht. cbn [attempt_bind]. unfold tokensOf in Ht. rewrite (matches_positions _ _ Hp) in Ht.
    by apply (resolve_tokens_parts scope template parts Hp template [] [] tokens [] []). }
  assert (Hid : ∀ x, prepend [] x = x) by (intros [[]|]; done).
  destruct (reads_total _ template (le_n _)) as [parts Hp]. split.
  - intros E. exists parts. split_and!; [done|by apply reads_text|]. unfold resolveTemplate in E. destruct (tokensOf template) as [tokens|] eqn:Ht; [|done].
    specialize (Hall parts Hp tokens eq_refl). unfold resolveTemplate in Hall. rewrite Ht in Hall. rewrite Hid in Hall. congruence.
  - intros (parts' & Hp' & _ & E). destruct (parts_have_tokens _ _ _ _ E 0) as [tokens Ht].
    rewrite (Hall parts' Hp' tokens), Hid; [done|]. unfold tokensOf. by rewrite (matches_positions _ _ Hp').
Qed.

(** ** What a slot refuses has no influence *)
Lemma resolve_tokens_ext template scope scope' tokens :
  (∀ token used, token ∈ tokens → valueOfToken token scope used = valueOfToken token scope' used) →
  ∀ acc copied used, resolve_tokens template scope tokens acc copied used = resolve_tokens template scope' tokens acc copied used.
Proof.
  induction tokens as [|token tokens IH]; intros Hext acc copied used; cbn [resolve_tokens]; [done|].
  rewrite Hext by left. destruct (valueOfToken token scope' used) as [v|]; [|done]. cbn [attempt_bind]. apply IH.
  intros t u Ht. apply Hext. by right.
Qed.
Lemma resolveTemplate_ext template scope scope' :
  (∀ tokens token used, tokensOf template = Returns tokens → token ∈ tokens → valueOfToken token scope used = valueOfToken token scope' used) →
  resolveTemplate template scope = resolveTemplate template scope'.
Proof.
  intros Hext. unfold resolveTemplate. destruct (tokensOf template) as [tokens|] eqn:E; [|done]. cbn [attempt_bind].
  apply resolve_tokens_ext. intros token used. by apply Hext.
Qed.
(** An allowed template is canonical in a URL, and none of its tokens is refused. *)
Definition end_of_sensitive_part (slot : TemplateSlot) (template : str) : nat :=
  if bool_decide (slot = HttpUrl) then endOfAuthorityOf template else length template.
Lemma allowed_tokens template slot untrusted :
  assertTemplateAllowed template slot untrusted = Returns () →
  ∃ tokens, tokensOf template = Returns tokens ∧ Forall (λ token, violationsOf slot untrusted (end_of_sensitive_part slot template) token = []) tokens.
Proof.
  unfold assertTemplateAllowed, findTemplateViolations, end_of_sensitive_part. destruct (_ && negb _); [done|].
  destruct (tokensOf template) as [tokens|]; [|done]. cbn [attempt_bind]. intros Hv. exists tokens. split; [done|].
  destruct (concat _) as [|v l] eqn:E; [|done]. apply concat_nil_Forall, Forall_fmap in E. exact E.
Qed.
Lemma not_secret_value token scope scope' used :
  is_secret token = false → inputs scope = inputs scope' → steps scope = steps scope' → item scope = item scope' → index scope = index scope' →
  valueOfToken token scope used = valueOfToken token scope' used.
Proof. unfold is_secret, valueOfToken. intros Hs -> -> -> ->. by destruct (kind token). Qed.

(** Outside the slots that accept secrets, an allowed template resolves to the same text
    whatever the secrets are. *)
Theorem secrets_stay_in_their_slots template slot untrusted scope secrets :
  assertTemplateAllowed template slot untrusted = Returns () → slot ∉ SLOTS_ACCEPTING_SECRETS →
  resolveTemplate template scope = resolveTemplate template (mkScope (inputs scope) (steps scope) (item scope) (index scope) secrets).
Proof.
  intros (tokens & Ht & Hall)%allowed_tokens Hslot. apply resolveTemplate_ext. intros tokens' token used Ht' Hin.
  assert (tokens' = tokens) as -> by congruence.
  apply not_secret_value; try done. rewrite Stdlib.Lists.List.Forall_forall in Hall. specialize (Hall token (proj1 (list_elem_of_In _ _) Hin)).
  unfold violationsOf in Hall. rewrite (bool_decide_false _ Hslot) in Hall. by destruct (is_secret token).
Qed.

(** Two scopes that differ only in the data of untrusted sources. *)
Record same_trusted (untrusted : UntrustedSources) (scope scope' : ResolutionScope) : Prop := {
  trusted_inputs : inputs scope = inputs scope';
  trusted_index : index scope = index scope';
  trusted_secrets : secretValueOf scope = secretValueOf scope';
  trusted_item : isItemUntrusted untrusted = false → item scope = item scope';
  trusted_steps stepId path : is_segment stepId = true → mem_str stepId (untrustedStepIds untrusted) = false →
    valueAtDottedPath (steps scope) (stepId ++ js "." ++ path) = valueAtDottedPath (steps scope') (stepId ++ js "." ++ path);
}.
Lemma step_id_is_a_name reference stepId path : kindOf reference = Returns (Ksteps stepId path) → is_segment stepId = true.
Proof.
  unfold kindOf. repeat (case_match; try done). intros [= <- <-].
  match goal with H : STEP_REFERENCE _ = Some _ |- _ => unfold STEP_REFERENCE in H; revert H end.
  repeat (case_match; try done). intros [= <- <-]. by match goal with H : _ && _ = true |- _ => apply andb_true_iff in H as [? _] end.
Qed.
Lemma trusted_value untrusted scope scope' token used :
  same_trusted untrusted scope scope' → kindOf (trim (inner (raw token))) = Returns (kind token) → referencesUntrustedData token untrusted = false →
  valueOfToken token scope used = valueOfToken token scope' used.
Proof.
  intros [E1 E2 E3 E4 E5]. unfold referencesUntrustedData, valueOfToken. destruct (kind token) as [path|stepId path| | |name]; intros Hk Hu.
  - by rewrite E1.
  - rewrite E5; [done| |done]. by eapply step_id_is_a_name.
  - by rewrite E4.
  - by rewrite E2.
  - by rewrite E3.
Qed.
Lemma token_starts_inside template tokens token :
  tokensOf template = Returns tokens → token ∈ tokens → (start token, raw token) ∈ matches_from 0 0 template ∧ kindOf (trim (inner (raw token))) = Returns (kind token).
Proof.
  unfold tokensOf. intros Ht%all_of_Returns Hin. apply Forall2_fmap_l in Ht. apply list_elem_of_lookup in Hin as (i & Hi).
  destruct (Forall2_lookup_r _ _ _ _ _ Ht Hi) as ([p r] & Hm & Htok). unfold compose, tokenOf in Htok. cbn [fst snd] in Htok.
  destruct (kindOf (trim (inner r))) as [k|] eqn:Hk; [|done]. injection Htok as <-. cbn. split; [by eapply list_elem_of_lookup_2|done].
Qed.
Lemma sensitive_token_is_trusted slot untrusted end_ token :
  slot ∈ SLOTS_REFUSING_UNTRUSTED → violationsOf slot (Some untrusted) end_ token = [] → start token < end_ →
  referencesUntrustedData token untrusted = false.
Proof.
  intros Hslot. unfold violationsOf. destruct (is_secret token && _); [done|].
  intros Hv Hlt. rewrite !bool_decide_true in Hv by done. cbn [andb] in Hv. by destruct (referencesUntrustedData token untrusted).
Qed.

(** In a slot that steers a command, a request or its credentials, an allowed template
    resolves to the same text whatever the untrusted steps and items hold. *)
Theorem untrusted_data_cannot_steer template slot untrusted scope scope' :
  assertTemplateAllowed template slot (Some untrusted) = Returns () → slot ∈ SLOTS_REFUSING_UNTRUSTED → slot ≠ HttpUrl →
  same_trusted untrusted scope scope' → resolveTemplate template scope = resolveTemplate template scope'.
Proof.
  intros (tokens & Ht & Hall)%allowed_tokens Hslot Hurl Hsame. apply resolveTemplate_ext. intros tokens' token used Ht' Hin.
  assert (tokens' = tokens) as -> by congruence. destruct (token_starts_inside _ _ _ Ht Hin) as [Hm Hk].
  apply (trusted_value untrusted); [done|done|]. rewrite Stdlib.Lists.List.Forall_forall in Hall. specialize (Hall token (proj1 (list_elem_of_In _ _) Hin)).
  eapply sensitive_token_is_trusted; [done|exact Hall|]. unfold end_of_sensitive_part. rewrite bool_decide_false by done.
  apply matches_bounds in Hm. lia.
Qed.

(** ** The authority of a URL *)

(** The tokens of a beginning of a text are tokens of the text, unless one lies across its end. *)
Lemma pattern_prefix s raw n : TOKEN_PATTERN (take n s) = Some raw → TOKEN_PATTERN s = Some raw.
Proof.
  rewrite !TOKEN_PATTERN_iff. intros (body & rest & Hraw & Hb & E). exists body, (rest ++ drop n s). split_and!; [done..|].
  by rewrite app_assoc, <- E, take_drop.
Qed.
Lemma pattern_cut s raw n : TOKEN_PATTERN s = Some raw → TOKEN_PATTERN (take n s) = None → n < length raw.
Proof.
  intros Hs Hn. destruct (decide (n < length raw)) as [|Hge]; [done|]. exfalso.
  apply TOKEN_PATTERN_iff in Hs as (body & rest & Hraw & Hb & ->).
  assert (Hsome : TOKEN_PATTERN (take n (raw ++ rest)) = Some raw); [|congruence].
  apply TOKEN_PATTERN_iff. exists body, (take (n - length raw) rest). split_and!; [done..|]. by rewrite take_app_ge by lia.
Qed.
Lemma prefix_matches s : ∀ position skip n p raw, (p, raw) ∈ matches_from position skip (take n s) →
  (p, raw) ∈ matches_from position skip s ∨
  ∃ q across, (q, across) ∈ matches_from position skip s ∧ q < position + n < q + length across.
Proof.
  induction s as [|c s IH]; intros position skip [|n] p raw; cbn [take matches_from]; try (by intros ?%elem_of_nil).
  assert (Hlater : ∀ k, (p, raw) ∈ matches_from (S position) k (take n s) →
    (p, raw) ∈ matches_from (S position) k s ∨
    ∃ q across, (q, across) ∈ matches_from (S position) k s ∧ q < position + S n < q + length across).
  { intros k Hin. apply IH in Hin as [?|(q & across & Hq & Hlt)]; [by left|right; exists q, across; split; [done|lia]]. }
  destruct skip as [|skip]; [|apply Hlater]. change (c :: take n s) with (take (S n) (c :: s)).
  destruct (TOKEN_PATTERN (take (S n) (c :: s))) as [r|] eqn:Hcut.
  - rewrite (pattern_prefix _ _ _ Hcut). intros [->|Hin]%elem_of_cons; [left; left|].
    apply Hlater in Hin as [?|(q & across & Hq & Hlt)]; [left; by right|right; exists q, across; split; [by right|done]].
  - destruct (TOKEN_PATTERN (c :: s)) as [r|] eqn:Hwhole.
    + intros _. right. exists position, r. split; [left|]. pose proof (pattern_cut _ _ _ Hwhole Hcut). lia.
    + intros Hin. by apply Hlater.
Qed.

(** A reference has no character that ends an authority. *)
Definition inside_authority (s : str) : Prop := forallb (λ c, negb (ends_authority c)) s = true.
Lemma forallb_elem (p : N → bool) s : forallb p s = true ↔ ∀ c, c ∈ s → p c = true.
Proof. rewrite forallb_forall. by setoid_rewrite list_elem_of_In. Qed.
Lemma split_on_elem sep c s : c ∈ s → c = sep ∨ ∃ w, w ∈ split_on sep s ∧ c ∈ w.
Proof.
  rewrite <- (join_split_on sep s) at 1. generalize (split_on sep s) as ws. induction ws as [|w ws IH]; [by intros ?%elem_of_nil|].
  destruct ws as [|w2 ws]; [intros Hc; right; exists w; split; [left|done]|].
  change (join [sep] (w :: w2 :: ws)) with (w ++ [sep] ++ join [sep] (w2 :: ws)). rewrite !elem_of_app, list_elem_of_singleton.
  intros [Hc|[->|Hc]]; [right; exists w; split; [left|done]|by left|]. destruct (IH Hc) as [->|(x & Hx & Hcx)]; [by left|].
  right. exists x. split; [by right|done].
Qed.
Lemma path_unit_inside c : path_unit c = true → ends_authority c = false.
Proof.
  intros Hp. destruct (ends_authority c) eqn:E; [|done]. unfold ends_authority, mem_chr in E.
  change (js "/?#") with [47; 63; 35]%N in E. cbn [existsb] in E. rewrite !orb_true_iff, !N.eqb_eq in E.
  destruct E as [->|[->|[->|?]]]; by vm_compute in Hp.
Qed.
Lemma word_inside c : is_word c = true → ends_authority c = false.
Proof. unfold is_word. intros Hw. apply path_unit_inside. unfold path_unit. by rewrite Hw. Qed.
Lemma segment_inside s : is_segment s = true → inside_authority s.
Proof.
  unfold is_segment. intros [_ Hs]%andb_true_iff. apply forallb_elem. intros c Hc. apply negb_true_iff, path_unit_inside.
  by apply (proj1 (forallb_elem path_unit s) Hs).
Qed.
Lemma PATH_inside s : PATH s = true → inside_authority s.
Proof.
  unfold PATH. rewrite forallb_forall. intros Hp. apply forallb_elem. intros c Hc. destruct (split_on_elem (chr ".") c s Hc) as [->|(w & Hw & Hcw)]; [done|].
  specialize (Hp w (proj1 (list_elem_of_In _ _) Hw)). apply segment_inside in Hp. by apply (proj1 (forallb_elem _ w) Hp).
Qed.
Lemma inside_app s u : inside_authority s → inside_authority u → inside_authority (s ++ u).
Proof. unfold inside_authority. rewrite forallb_app. by intros -> ->. Qed.
Lemma reference_inside reference k : kindOf reference = Returns k → inside_authority reference.
Proof.
  unfold kindOf. destruct (str_eqb reference (js "item")) eqn:E1; [by apply str_eqb_eq in E1 as ->|].
  destruct (str_eqb reference (js "index")) eqn:E2; [by apply str_eqb_eq in E2 as ->|].
  destruct (startsWith reference SECRET_REFERENCE_PREFIX) eqn:E3.
  { apply startsWith_iff in E3 as [name ->]. rewrite drop_app_length. destruct (SECRET_NAME name) eqn:Hn; [|done]. intros _.
    apply inside_app; [done|]. destruct name as [|c name]; [done|]. cbn in Hn. apply andb_true_iff in Hn as [Hc Hn].
    apply forallb_elem. intros d [->|Hd]%elem_of_cons; apply negb_true_iff, word_inside.
    - unfold name_start in Hc. unfold is_word, is_alnum. destruct (is_alpha c); [done|]. cbn in Hc. by rewrite Hc, orb_true_r.
    - by apply (proj1 (forallb_elem is_word name) Hn). }
  unfold INPUT_REFERENCE. destruct (startsWith reference (js "inputs.")) eqn:E4; cbn [andb].
  - apply startsWith_iff in E4 as [path ->]. change (drop 7 (js "inputs." ++ path)) with path.
    destruct (PATH path) eqn:Hp; [intros _; apply inside_app; [done|by apply PATH_inside]|]. done.
  - unfold STEP_REFERENCE. destruct (startsWith reference (js "steps.")) eqn:E5; [|done].
    apply startsWith_iff in E5 as [rest ->]. change (drop 6 (js "steps." ++ rest)) with rest.
    destruct (indexOf rest (chr ".") 0) as [dot|] eqn:Hdot; [|done]. destruct (_ && _) eqn:Hp; [|done]. intros _.
    apply andb_true_iff in Hp as [Hs%segment_inside Hp%PATH_inside]. apply indexOf_Some in Hdot as (_ & _ & Hdot & _).
    apply inside_app; [done|]. rewrite <- (take_drop_middle rest dot (chr ".") Hdot). apply inside_app; [done|].
    by apply (inside_app [chr "."]).
Qed.
Lemma trim_keeps c s : c ∈ s → is_space c = false → c ∈ trim s.
Proof.
  assert (Hd : ∀ l, c ∈ l → is_space c = false → c ∈ drop_while is_space l).
  { induction l as [|x l IH]; [by intros ?%elem_of_nil|]. intros [->|Hc]%elem_of_cons Hs; cbn [drop_while]; [rewrite Hs; left|].
    destruct (is_space x); [by apply IH|by right]. }
  intros Hc Hs. unfold trim. rewrite elem_of_reverse. apply Hd; [|done]. rewrite elem_of_reverse. by apply Hd.
Qed.

(** No token of an allowed template lies across the end of the authority. *)
Lemma endOfAuthority_unit template c : template !! endOfAuthorityOf template = Some c → ends_authority c = true.
Proof.
  unfold endOfAuthorityOf. rewrite <- lookup_drop. set (rest := drop _ template). clearbody rest. clear template.
  induction rest as [|d rest IH]; cbn [take_while]; [done|]. destruct (ends_authority d) eqn:E; cbn [negb length]; [by intros [= <-]|apply IH].
Qed.
Lemma token_not_across template tokens token n c :
  tokensOf template = Returns tokens → token ∈ tokens → template !! n = Some c → ends_authority c = true →
  ¬ (start token < n < start token + length (raw token)).
Proof.
  intros Ht Hin Hc Hend Hlt. destruct (token_starts_inside _ _ _ Ht Hin) as [Hm Hk]. apply reference_inside in Hk.
  apply matches_bounds in Hm as (_ & _ & rest & Hdrop & Hpattern). rewrite Nat.sub_0_r in Hdrop.
  apply TOKEN_PATTERN_iff in Hpattern as (body & rest' & Hraw & Hplain & _).
  assert (Hc' : raw token !! (n - start token) = Some c).
  { rewrite <- (lookup_app_l _ rest) by lia. rewrite <- Hdrop, lookup_drop. by replace (start token + (n - start token)) with n by lia. }
  assert (Hbrace : isBrace c = false).
  { destruct (isBrace c) eqn:E; [|done]. unfold isBrace in E. apply orb_true_iff in E as [E|E]; apply N.eqb_eq in E as ->; done. }
  assert (Hbody : c ∈ body).
  { apply list_elem_of_lookup_2 in Hc'. rewrite Hraw, !elem_of_app in Hc'. destruct Hc' as [Hb|[Hb|Hb]]; [|done|];
      (apply elem_of_cons in Hb as [->|Hb]; [done|]; apply elem_of_cons in Hb as [->|Hb]; [done|by apply elem_of_nil in Hb]). }
  assert (Hinner : inner (raw token) = body).
  { unfold inner. rewrite Hraw. change (drop 2 (js "{{" ++ body ++ js "}}")) with (body ++ js "}}"). rewrite !length_app.
    change (length (js "{{")) with 2. change (length (js "}}")) with 2. replace (2 + (length body + 2) - 4) with (length body) by lia. apply take_app_length. }
  rewrite Hinner in Hk. pose proof (proj1 (forallb_elem _ _) Hk c) as Hno. cbn beta in Hno. rewrite Hend in Hno. enough (c ∈ trim body) by naive_solver.
  apply trim_keeps; [done|].
  unfold ends_authority, mem_chr in Hend. change (js "/?#") with [47; 63; 35]%N in Hend. cbn [existsb] in Hend. rewrite !orb_true_iff, !N.eqb_eq in Hend.
  by destruct Hend as [->|[->|[->|?]]].
Qed.
Lemma authority_tokens template tokens authorityTokens token :
  tokensOf template = Returns tokens → tokensOf (take (endOfAuthorityOf template) template) = Returns authorityTokens → token ∈ authorityTokens →
  ∃ same, same ∈ tokens ∧ kind same = kind token ∧ start same < endOfAuthorityOf template.
Proof.
  set (n := endOfAuthorityOf template). intros Ht Ha Hin. destruct (token_starts_inside _ _ _ Ha Hin) as [Hm Hk].
  pose proof (matches_bounds _ _ _ _ _ Hm) as (_ & Hlt & _). rewrite length_take in Hlt.
  assert (Hfind : ∀ p r, (p, r) ∈ matches_from 0 0 template → ∃ same, same ∈ tokens ∧ start same = p ∧ raw same = r).
  { intros p r Hpr. unfold tokensOf in Ht. apply all_of_Returns, Forall2_fmap_l in Ht. apply list_elem_of_lookup in Hpr as (i & Hi).
    destruct (Forall2_lookup_l _ _ _ _ _ Ht Hi) as (same & Hs & Htok). unfold compose, tokenOf in Htok. cbn [fst snd] in Htok.
    destruct (kindOf (trim (inner r))) as [k|]; [|done]. injection Htok as <-. eexists. split; [by eapply list_elem_of_lookup_2|done]. }
  apply prefix_matches in Hm as [Hm|(q & across & Hq & Hacross)].
  - destruct (Hfind _ _ Hm) as (same & Hsame & Hstart & Hraw). exists same. split_and!; [done| |lia].
    destruct (token_starts_inside _ _ _ Ht Hsame) as [_ Hk']. rewrite Hraw in Hk'. congruence.
  - exfalso. destruct (Hfind _ _ Hq) as (same & Hsame & Hstart & Hraw). subst. destruct (template !! n) as [c|] eqn:Hc.
    + apply (token_not_across template tokens same n c Ht Hsame Hc); [by apply (endOfAuthority_unit template)|lia].
    + apply lookup_ge_None in Hc. destruct (token_starts_inside _ _ _ Ht Hsame) as [Hm _].
      apply matches_bounds in Hm as (_ & _ & rest & Hdrop & _). apply (f_equal length) in Hdrop. rewrite length_drop, length_app in Hdrop. lia.
Qed.

(** C30. Untrusted data cannot choose where a request goes: for an http_url template that resolves
    under two scopes differing only in untrusted data, the two URLs have the same scheme,
    credentials, host and port. *)
Theorem untrusted_data_cannot_move_the_host parseUrl template untrusted scope scope' h h' :
  same_trusted untrusted scope scope' →
  resolveHttpUrl parseUrl template scope (Some untrusted) = Returns h → resolveHttpUrl parseUrl template scope' (Some untrusted) = Returns h' →
  ∃ url url', href url = h ∧ href url' = h' ∧ authority_of url = authority_of url' ∧
    (∃ r, resolveTemplate template scope = Returns r ∧ parseUrl (text r) = Some url) ∧
    (∃ r, resolveTemplate template scope' = Returns r ∧ parseUrl (text r) = Some url').
Proof.
  intros Hsame. unfold resolveHttpUrl. destruct (assertTemplateAllowed template HttpUrl (Some untrusted)) as [[]|] eqn:Hallowed; [|done].
  apply allowed_tokens in Hallowed as (tokens & Ht & Hall). cbn [attempt_bind].
  assert (Hauthority : resolveTemplate (take (endOfAuthorityOf template) template) scope = resolveTemplate (take (endOfAuthorityOf template) template) scope').
  { apply resolveTemplate_ext. intros authorityTokens token used Ha Hin.
    destruct (authority_tokens _ _ _ _ Ht Ha Hin) as (same & Hsin & Hkind & Hlt).
    assert (referencesUntrustedData same untrusted = false) as Hu.
    { rewrite Stdlib.Lists.List.Forall_forall in Hall. specialize (Hall same (proj1 (list_elem_of_In _ _) Hsin)).
      eapply sensitive_token_is_trusted; [|exact Hall|done]. by do 2 right; left. }
    apply (trusted_value untrusted); [done|apply (token_starts_inside _ _ _ Ha Hin)|]. unfold referencesUntrustedData in *. by rewrite <- Hkind. }
  rewrite <- Hauthority. destruct (resolveTemplate (take _ template) scope) as [authority|]; [|done]. cbn [attempt_bind].
  destruct (hasCanonicalUrlAuthority _); [|done]. cbn [negb].
  destruct (resolveTemplate template scope) as [r|] eqn:Hr; [|done]. destruct (resolveTemplate template scope') as [r'|] eqn:Hr'; [|done]. cbn [attempt_bind].
  unfold parsedUrl. destruct (parseUrl (text r)) as [url|] eqn:Hurl; [|done]. destruct (parseUrl (text r')) as [url'|] eqn:Hurl'; [|done]. cbn [attempt_bind].
  destruct (parseUrl (text authority)) as [expected|]; [|done]. cbn [attempt_bind].
  case_bool_decide as E; [|done]. case_bool_decide as E'; [|done]. intros [= <-] [= <-].
  exists url, url'. split_and!; [done..|congruence|by exists r|by exists r'].
Qed.
End Resolution.

(** ** Examples *)
#[local] Existing Instance integers.
Definition sample_scope (answer : str) : ResolutionScope :=
  mkScope (VObject [(js "host", VString (js "api.example.org")); (js "n", VNumber 3%Z)])
    (VObject [(js "ask", VObject [(js "answer", VString answer)])]) VUndefined None (λ _, None).
Definition sample_untrusted : UntrustedSources := mkUntrusted [js "ask"] false.
Lemma sample_scopes_agree a b : same_trusted sample_untrusted (sample_scope a) (sample_scope b).
Proof.
  split; try done. intros stepId path Hname Hs. unfold valueAtDottedPath. change (js ".") with [chr "."]. cbn [app].
  rewrite split_on_app, !fold_left_app. rewrite (split_on_no_sep (chr ".") stepId).
  - cbn. unfold mem_str in Hs. cbn in Hs. rewrite orb_false_r in Hs. apply str_eqb_neq in Hs.
    destruct (str_eqb (js "ask") stepId) eqn:E; [|done]. apply str_eqb_eq in E. congruence.
  - unfold is_segment in Hname. apply andb_true_iff in Hname as [_ Hname]. intros Hdot. by apply (proj1 (forallb_elem path_unit stepId) Hname) in Hdot.
Qed.
Lemma secrets_stay_in_their_slots_witness :
  resolveTemplate (js "{{inputs.n}} {{ inputs.host }}") (sample_scope []) = Returns (mkResolution (js "3 api.example.org") []) ∧
  resolveTemplate (js "{{inputs.n}} {{ inputs.host }}") (sample_scope []) =
  resolveTemplate (js "{{inputs.n}} {{ inputs.host }}") (mkScope (inputs (sample_scope [])) (steps (sample_scope [])) VUndefined None (λ _, Some (js "hunter22"))).
Proof.
  split; [vm_compute; reflexivity|].
  apply (secrets_stay_in_their_slots (js "{{inputs.n}} {{ inputs.host }}") TextSlot None (sample_scope []) (λ _, Some (js "hunter22")));
    [vm_compute; reflexivity|unfold SLOTS_ACCEPTING_SECRETS; rewrite !not_elem_of_cons; split_and!; try done; by intros ?%elem_of_nil].
Defined.
Lemma untrusted_data_cannot_steer_witness :
  resolveTemplate (js "--host={{inputs.host}}") (sample_scope (js "a")) = resolveTemplate (js "--host={{inputs.host}}") (sample_scope (js "b")).
Proof.
  apply (untrusted_data_cannot_steer (js "--host={{inputs.host}}") ScriptArgs sample_untrusted (sample_scope (js "a")) (sample_scope (js "b")));
    [vm_compute; reflexivity|left|done|apply sample_scopes_agree].
Defined.
(** A parser that splits off the scheme and the host. *)
Definition sample_parser (s : str) : option URL :=
  let n := URL_SCHEME_PREFIX s in
  Some (mkURL (take n s) [] [] (take_while (λ c, negb (ends_authority c)) (drop n s)) [] s).
Definition sample_url : str := js "https://{{inputs.host}}/search?q={{steps.ask.answer}}".
Lemma untrusted_data_cannot_move_the_host_witness :
  resolveHttpUrl sample_parser sample_url (sample_scope (js "a@evil/")) (Some sample_untrusted) = Returns (js "https://api.example.org/search?q=a@evil/") ∧
  ∃ url url', href url = js "https://api.example.org/search?q=a@evil/" ∧ href url' = js "https://api.example.org/search?q=b" ∧
    authority_of url = authority_of url'.
Proof.
  split; [vm_compute; reflexivity|].
  destruct (untrusted_data_cannot_move_the_host sample_parser sample_url sample_untrusted (sample_scope (js "a@evil/")) (sample_scope (js "b"))
    (js "https://api.example.org/search?q=a@evil/") (js "https://api.example.org/search?q=b") (sample_scopes_agree _ _)) as (u & u' & H1 & H2 & H3 & _);
    [vm_compute; reflexivity|vm_compute; reflexivity|]. by exists u, u'.
Defined.
