(* ===== verification/SecretMaskerFacts.v ===== *)
(** * The secret masker: facts

    What is hidden is exactly what a spelling of a secret covers, and the cut of a long text
    leaves no piece of one. *)
From S2P Require Import Prelude JsText Regex PolicyTypes Sorting PlaybookKernel SecretMasker.

(** ** Regions *)

(** A stretch of text that is kept, then one that is replaced by the markers of its names. *)
Record segment := mkSegment { kept : str; hidden : str; names : list str }.
Definition rendered (segments : list segment) : str := concat ((λ g, kept g ++ concat (markerOf <$> names g)) <$> segments).
Definition original (segments : list segment) : str := concat ((λ g, kept g ++ hidden g) <$> segments).
(** For each unit of the original, whether it is hidden. *)
Definition flags (segments : list segment) : list bool :=
  concat ((λ g, replicate (length (kept g)) false ++ replicate (length (hidden g)) true) <$> segments).
Definition covered (matches : list Match) (p : nat) : Prop := ∃ m, m ∈ matches ∧ match_start m ≤ p < match_end m.

Lemma flags_length segments : length (flags segments) = length (original segments).
Proof.
  induction segments as [|g segments IH]; [done|]. unfold flags, original in *. csimpl. rewrite !length_app, !length_replicate, IH. done.
Qed.
Lemma flags_app a b : flags (a ++ b) = flags a ++ flags b.
Proof. unfold flags. by rewrite fmap_app, concat_app. Qed.
Lemma original_app a b : original (a ++ b) = original a ++ original b.
Proof. unfold original. by rewrite fmap_app, concat_app. Qed.
Lemma rendered_app a b : rendered (a ++ b) = rendered a ++ rendered b.
Proof. unfold rendered. by rewrite fmap_app, concat_app. Qed.

Section Masking.
Variable text : str.
Definition valid_match (m : Match) : Prop := match_start m < match_end m ≤ length text.

(** The markers of a hidden stretch are those of matches that lie in it, and there is one. *)
Definition marked (finished : list Match) (h : str) (l : list str) : Prop :=
  (h ≠ [] → l ≠ []) ∧ ∀ name, name ∈ l → ∃ m a b, m ∈ finished ∧ match_name m = name ∧ h = a ++ slice text (match_start m) (match_end m) ++ b.
Lemma marked_more finished found h l : marked finished h l → marked (finished ++ [found]) h l.
Proof. intros [? Hl]. split; [done|]. intros name (m & a & b & ? & ?)%Hl. exists m, a, b. split; [apply elem_of_app; by left|done]. Qed.

(** The state of the loop after the matches [finished], of start [bound] at most: closed
    segments, then the units [k] kept and [h] hidden of the open region. *)
Record masking_inv (finished : list Match) (bound : nat) (m : Masking) (segments : list segment) (k h : str) : Prop := {
  inv_region : regionEnd m = Some (copiedUpTo m) ∨ (regionEnd m = None ∧ finished = [] ∧ copiedUpTo m = 0);
  inv_text : take (copiedUpTo m) text = original segments ++ k ++ h;
  inv_length : length (original segments ++ k ++ h) = copiedUpTo m;
  inv_masked : masked m = rendered segments ++ k;
  inv_bound : length (original segments ++ k) ≤ bound;
  inv_ends : Forall (λ found, match_end found ≤ copiedUpTo m) finished;
  inv_flags p : p < copiedUpTo m → (flags segments ++ replicate (length k) false ++ replicate (length h) true) !! p = Some true ↔ covered finished p;
  inv_names : marked finished h (regionNames m) ∧ ∀ g, g ∈ segments → marked finished (hidden g) (names g);
}.

Lemma covered_snoc finished found p : covered (finished ++ [found]) p ↔ covered finished p ∨ match_start found ≤ p < match_end found.
Proof.
  unfold covered. setoid_rewrite elem_of_app. setoid_rewrite list_elem_of_singleton. split.
  - intros (m & [Hm| ->] & Hp); eauto.
  - intros [(m & Hm & Hp)|Hp]; eauto.
Qed.
Lemma covered_below finished limit p : Forall (λ found, match_end found ≤ limit) finished → covered finished p → p < limit.
Proof. rewrite Stdlib.Lists.List.Forall_forall. intros Hall (m & Hm%list_elem_of_In & Hp). specialize (Hall m Hm). cbn in Hall. lia. Qed.
Lemma take_slice (s : str) i j : i ≤ j → take j s = take i s ++ slice s i j.
Proof. intros Hij. unfold slice. rewrite <- (take_drop i (take j s)), take_take, Nat.min_l by done. by rewrite skipn_firstn_comm. Qed.
Lemma slice_cut (s : str) i j k : i ≤ j → j ≤ k → slice s i k = slice s i j ++ slice s j k.
Proof. intros Hi Hj. unfold slice. rewrite <- (take_drop (j - i) (take (k - i) (drop i s))), take_take, skipn_firstn_comm, drop_drop. f_equal; [f_equal; lia|]. f_equal; [lia|]. f_equal. lia. Qed.
Lemma slice_take (s : str) i j n : j ≤ n → slice (take n s) i j = slice s i j.
Proof. intros Hn. unfold slice. rewrite skipn_firstn_comm, take_take. f_equal. lia. Qed.
Lemma slice_length (s : str) i j : i ≤ j → j ≤ length s → length (slice s i j) = j - i.
Proof. intros Hi Hj. unfold slice. rewrite length_take, length_drop. lia. Qed.
Lemma replicate_lookup_iff (b c : bool) n p : replicate n b !! p = Some c ↔ b = c ∧ p < n.
Proof. rewrite lookup_replicate. naive_solver. Qed.
Lemma flags_lookup segments (k h : str) p : length (flags segments) + length k ≤ p → p < length (flags segments) + length k + length h →
  (flags segments ++ replicate (length k) false ++ replicate (length h) true) !! p = Some true.
Proof.
  intros H1 H2. rewrite lookup_app_r by lia. rewrite lookup_app_r by (rewrite length_replicate; lia). rewrite length_replicate.
  apply replicate_lookup_iff. split; [done|lia].
Qed.
Lemma mask_match_new finished bound m segments k h found :
  masking_inv finished bound m segments k h → valid_match found → bound ≤ match_start found → at_or_beyond (match_start found) (regionEnd m) = true →
  masking_inv (finished ++ [found]) (match_start found) (mask_match text m found) (segments ++ [mkSegment k h (regionNames m)])
    (slice text (copiedUpTo m) (match_start found)) (slice text (match_start found) (match_end found)).
Proof.
  intros [Hregion Htext Hlength Hmasked Hbound Hends Hflags [Hopen Hnames]] [Hv1 Hv2] Hge Hnew.
  assert (Hcopied : copiedUpTo m ≤ match_start found).
  { destruct Hregion as [Hr|(_ & _ & ->)]; [|lia]. rewrite Hr in Hnew. cbn in Hnew. by apply bool_decide_eq_true in Hnew. }
  assert (Horiginal : original (segments ++ [mkSegment k h (regionNames m)]) = take (copiedUpTo m) text).
  { unfold original. rewrite fmap_app, concat_app. cbn. by rewrite app_nil_r, Htext. }
  assert (Hl : length (original (segments ++ [mkSegment k h (regionNames m)])) = copiedUpTo m) by (by rewrite Horiginal, Htext).
  assert (Hs1 : length (slice text (copiedUpTo m) (match_start found)) = match_start found - copiedUpTo m) by (apply slice_length; lia).
  assert (Hs2 : length (slice text (match_start found) (match_end found)) = match_end found - match_start found) by (apply slice_length; lia).
  unfold mask_match. rewrite Hnew. cbn [orb masked copiedUpTo regionEnd regionNames]. split; cbn [masked copiedUpTo regionEnd regionNames].
  - by left.
  - rewrite Horiginal, app_assoc, <- take_slice by done. apply take_slice. lia.
  - rewrite !length_app, Hl, Hs1, Hs2. lia.
  - unfold closeRegion, rendered. rewrite fmap_app, concat_app, Hmasked. cbn. by rewrite app_nil_r, <- !app_assoc.
  - rewrite length_app, Hl, Hs1. lia.
  - apply Forall_app. split; [|repeat constructor; lia]. eapply list.Forall_impl; [exact Hends|]. cbn. lia.
  - intros p Hp. rewrite covered_snoc.
    assert (Hfl : length (flags (segments ++ [mkSegment k h (regionNames m)])) = copiedUpTo m) by (by rewrite flags_length).
    destruct (decide (p < copiedUpTo m)) as [Hlt|Hge2].
    + rewrite lookup_app_l by lia. rewrite <- Hflags by done. unfold flags. rewrite fmap_app, concat_app. cbn. rewrite app_nil_r. naive_solver lia.
    + assert (Hno : ¬ covered finished p) by (intros Hc; pose proof (covered_below _ _ _ Hends Hc); lia).
      rewrite lookup_app_r, Hfl by lia. destruct (decide (p < match_start found)) as [Hbefore|Hafter].
      * rewrite lookup_app_l by (rewrite length_replicate; lia). rewrite replicate_lookup_iff. naive_solver lia.
      * rewrite lookup_app_r, length_replicate by (rewrite length_replicate; lia). rewrite replicate_lookup_iff. naive_solver lia.
  - split.
    + split; [done|]. intros name ->%list_elem_of_singleton. exists found, [], []. split_and!; [apply elem_of_app; right; by left|done|by rewrite app_nil_r].
    + intros g [Hg| ->%list_elem_of_singleton]%elem_of_app; apply marked_more; [by apply Hnames|done].
Qed.
Lemma mask_match_inside finished bound m segments k h found :
  masking_inv finished bound m segments k h → valid_match found → bound ≤ match_start found → at_or_beyond (match_start found) (regionEnd m) = false →
  ∃ h', masking_inv (finished ++ [found]) (match_start found) (mask_match text m found) segments k h'.
Proof.
  intros [Hregion Htext Hlength Hmasked Hbound Hends Hflags [Hopen Hnames]] [Hv1 Hv2] Hge Hnew.
  destruct Hregion as [Hr|(Hr & _ & _)]; [|by rewrite Hr in Hnew]. rewrite Hr in Hnew. cbn in Hnew. apply bool_decide_eq_false in Hnew.
  rewrite !length_app in Hlength. rewrite length_app in Hbound.
  assert (Hhidden : ∀ p, match_start found ≤ p → p < copiedUpTo m → covered finished p).
  { intros p H1 H2. apply Hflags; [done|]. apply flags_lookup; rewrite flags_length; lia. }
  unfold mask_match. rewrite Hr. cbn [at_or_beyond beyond]. rewrite (bool_decide_false (copiedUpTo m ≤ match_start found)) by done. cbn [orb].
  case_bool_decide as Hext; cbn [masked copiedUpTo regionEnd regionNames].
  - assert (Hs : length (slice text (copiedUpTo m) (match_end found)) = match_end found - copiedUpTo m) by (apply slice_length; lia).
    exists (h ++ slice text (copiedUpTo m) (match_end found)). split; cbn [masked copiedUpTo regionEnd regionNames].
    + by left.
    + rewrite (take_slice text (copiedUpTo m) (match_end found)) by lia. by rewrite Htext, <- !app_assoc.
    + rewrite !length_app, Hs. lia.
    + done.
    + rewrite length_app. lia.
    + apply Forall_app. split; [|repeat constructor; lia]. eapply list.Forall_impl; [exact Hends|]. cbn. lia.
    + intros p Hp. rewrite covered_snoc. rewrite length_app, replicate_add.
      destruct (decide (p < copiedUpTo m)) as [Hlt|Hge2].
      * rewrite !app_assoc, lookup_app_l by (rewrite !length_app, !length_replicate, flags_length; lia).
        rewrite <- app_assoc, Hflags by done. split; [by left|]. intros [?|?]; [done|apply Hhidden; lia].
      * split; [right; lia|]. intros _. rewrite <- replicate_add, <- length_app. apply flags_lookup; rewrite flags_length, ?length_app, ?Hs; lia.
    + split; [|intros g Hg; by apply marked_more, Hnames]. split; [intros _ E; destruct (mem_str _ _) eqn:Em; [rewrite E in Em; done|by destruct (regionNames m)]|].
      assert (Hold : ∀ name, name ∈ regionNames m → ∃ m0 a b, m0 ∈ finished ++ [found] ∧ match_name m0 = name ∧ h ++ slice text (copiedUpTo m) (match_end found) = a ++ slice text (match_start m0) (match_end m0) ++ b).
      { intros name (m0 & a & b & Hm0 & Hn & ->)%Hopen. exists m0, a, (b ++ slice text (copiedUpTo m) (match_end found)). rewrite <- !app_assoc. split_and!; [apply elem_of_app; by left|done|done]. }
      intros name Hin. assert (name ∈ regionNames m ∨ name = match_name found) as [Hin'| ->]; [|by apply Hold|].
      { destruct (mem_str _ _); [by left|]. apply elem_of_app in Hin as [?| ->%list_elem_of_singleton]; auto. }
      set (o := length (original segments) + length k) in *. assert (h = slice text o (copiedUpTo m)) as Eh.
      { unfold slice. rewrite <- skipn_firstn_comm, Htext, app_assoc. symmetry. apply drop_app_length'. rewrite length_app. done. }
      exists found, (slice text o (match_start found)), []. split_and!; [apply elem_of_app; right; by left|done|]. rewrite app_nil_r, Eh, <- !slice_cut by lia. done.
  - exists h. split; [by left|done|by rewrite !length_app|done|rewrite length_app; lia| | |split; [by apply marked_more|intros g Hg; by apply marked_more, Hnames]].
    + apply Forall_app. split; [done|repeat constructor; lia].
    + intros p Hp. rewrite Hflags, covered_snoc by done. split; [by left|]. intros [?|?]; [done|apply Hhidden; lia].
Qed.

(** Matches in order of start. *)
Definition ordered (bound : nat) (matches : list Match) : Prop :=
  ∀ i m, matches !! i = Some m → bound ≤ match_start m ∧ ∀ j m', i < j → matches !! j = Some m' → match_start m ≤ match_start m'.
Lemma ordered_cons bound found matches : ordered bound (found :: matches) → bound ≤ match_start found ∧ ordered (match_start found) matches.
Proof.
  intros Ho. split; [by apply (Ho 0 found)|]. intros i m Hi. split; [apply (proj2 (Ho 0 found eq_refl) (S i) m); [lia|done]|].
  intros j m' Hij Hj. apply (proj2 (Ho (S i) m Hi) (S j) m'); [lia|done].
Qed.
Lemma mask_all matches : ∀ finished bound m segments k h,
  masking_inv finished bound m segments k h → Forall valid_match matches → ordered bound matches →
  ∃ bound' segments' k' h', masking_inv (finished ++ matches) bound' (fold_left (mask_match text) matches m) segments' k' h'.
Proof.
  induction matches as [|found matches IH]; intros finished bound m segments k h Hinv Hvalid Hord.
  { rewrite app_nil_r. eauto. }
  apply list.Forall_cons in Hvalid as [Hv Hvalid]. apply ordered_cons in Hord as [Hb Hord]. cbn [fold_left].
  replace (finished ++ found :: matches) with ((finished ++ [found]) ++ matches) by (by rewrite <- app_assoc).
  destruct (at_or_beyond (match_start found) (regionEnd m)) eqn:E.
  - eapply IH; [by eapply mask_match_new|done|done].
  - destruct (mask_match_inside _ _ _ _ _ _ _ Hinv Hv Hb E) as [h' Hinv']. by eapply IH.
Qed.
(** What is hidden is what the matches cover; the rest is kept, in order. *)
Lemma maskedWith_spec matches :
  Forall valid_match matches → ordered 0 matches →
  ∃ segments last, maskedWith text matches = rendered segments ++ last ∧ text = original segments ++ last ∧
    (∀ p, (flags segments !! p = Some true ↔ covered matches p)) ∧ ∀ g, g ∈ segments → marked matches (hidden g) (names g).
Proof.
  intros Hvalid Hord.
  destruct (mask_all matches [] 0 (mkMasking [] 0 None []) [] [] []) as (bound & segments & k & h & [Hregion Htext Hlength Hmasked Hbound Hends Hflags [Hopen Hnames]]); [|done|done|].
  { split; cbn; [by right|done|done|done|lia|constructor|intros p Hp; lia|]. split; [split; [done|by intros ? ?%elem_of_nil]|by intros ? ?%elem_of_nil]. }
  unfold maskedWith. set (m := fold_left _ _ _) in *. exists (segments ++ [mkSegment k h (regionNames m)]), (drop (copiedUpTo m) text).
  assert (Ho : original (segments ++ [mkSegment k h (regionNames m)]) = take (copiedUpTo m) text).
  { unfold original. rewrite fmap_app, concat_app. cbn. by rewrite app_nil_r, Htext. }
  assert (Hfl : length (flags (segments ++ [mkSegment k h (regionNames m)])) = copiedUpTo m) by (by rewrite flags_length, Ho, Htext).
  split_and!.
  - unfold closeRegion, rendered. rewrite fmap_app, concat_app, Hmasked. cbn. by rewrite app_nil_r, <- !app_assoc.
  - by rewrite Ho, take_drop.
  - intros p. cbn in Hflags. destruct (decide (p < copiedUpTo m)) as [Hlt|Hge].
    + rewrite <- Hflags by done. unfold flags. rewrite fmap_app, concat_app. cbn. by rewrite app_nil_r.
    + rewrite lookup_ge_None_2 by lia. split; [done|]. intros Hc. pose proof (covered_below _ _ _ Hends Hc). lia.
  - intros g [Hg| ->%list_elem_of_singleton]%elem_of_app; [by apply Hnames|done].
Qed.
End Masking.

(** ** Matches *)
Lemma marked_units_length s : ∀ skip, length (marked_units skip s) = length s.
Proof.
  induction s as [|c s IH]; intros skip; [done|]. cbn [marked_units]. destruct skip as [|skip]; [|cbn; by rewrite IH].
  destruct (hex_sequence (c :: s)) as [|more]; cbn; by rewrite IH.
Qed.
Lemma units_match_length units s : units_match units s = true → length units ≤ length s.
Proof.
  revert s. induction units as [|m units IH]; intros [|c s]; cbn; try done; try lia. intros [_ Hm]%andb_true_iff. apply IH in Hm. lia.
Qed.
Lemma patternOf_length spelling s : patternOf spelling s = true → length spelling ≤ length s.
Proof. unfold patternOf. intros Hm%units_match_length. by rewrite marked_units_length in Hm. Qed.

(** A spelling occurs at position [i] of a text, up to the case of its hexadecimal sequences. *)
Definition occurs (nameOf : rec str) (text : str) (spelling : str) (i : nat) : Prop :=
  spelling ∈ nameOf.*1 ∧ patternOf spelling (drop i text) = true.

Definition longest_first (nameOf : rec str) : Prop := sorted (λ owner : str * str, (- Z.of_nat (length owner.1))%Z) nameOf.
Lemma find_longest nameOf (test : str * str → bool) owner :
  longest_first nameOf → owner ∈ nameOf → test owner = true →
  ∃ first, find test nameOf = Some first ∧ first ∈ nameOf ∧ test first = true ∧ length owner.1 ≤ length first.1.
Proof.
  induction 1 as [|x l Hx Hl IH]; [by intros ?%elem_of_nil|]. intros Ho Ht. cbn [find].
  destruct (test x) eqn:E.
  - exists x. split_and!; [done|left|done|]. apply elem_of_cons in Ho as [->|Ho]; [done|]. specialize (Hx owner Ho). cbn in Hx. lia.
  - apply elem_of_cons in Ho as [->|Ho]; [congruence|]. destruct (IH Ho Ht) as (first & H1 & H2 & H3 & H4).
    exists first. split_and!; try done. by right.
Qed.
Lemma find_sound {A} (test : A → bool) l x : find test l = Some x → x ∈ l ∧ test x = true.
Proof. intros Hf. apply find_some in Hf as [Hin Ht]. split; [by apply list_elem_of_In|done]. Qed.

Lemma match_at_sound nameOf position s m :
  match_at nameOf position s = Some m →
  match_start m = position ∧ ∃ spelling, spelling ∈ nameOf.*1 ∧ patternOf spelling s = true ∧ match_end m = position + length spelling.
Proof.
  unfold match_at. destruct (find _ nameOf) as [[spelling name]|] eqn:Hf; [|done]. intros [= <-]. cbn. split; [done|].
  apply find_sound in Hf as [Hin Ht]. exists spelling. split_and!; [apply list_elem_of_fmap; by exists (spelling, name)|done|].
  rewrite length_take, Nat.min_l; [done|by apply patternOf_length].
Qed.
Lemma match_at_complete nameOf position s spelling :
  longest_first nameOf → spelling ∈ nameOf.*1 → patternOf spelling s = true →
  ∃ m, match_at nameOf position s = Some m ∧ match_start m = position ∧ position + length spelling ≤ match_end m.
Proof.
  intros Hs Hin Hp. apply list_elem_of_fmap in Hin as (owner & -> & Hin).
  destruct (find_longest nameOf (λ o : str * str, patternOf o.1 s) owner Hs Hin Hp) as ([spelling name] & Hf & _ & Ht & Hlen).
  unfold match_at. rewrite Hf. eexists. split; [done|]. cbn in *. split; [done|]. rewrite length_take, Nat.min_l; [lia|by apply patternOf_length].
Qed.
Lemma matches_elem nameOf s : ∀ position m,
  m ∈ matches_from_position nameOf position s ↔ ∃ i, i ≤ length s ∧ match_at nameOf (position + i) (drop i s) = Some m.
Proof.
  assert (Hhere : ∀ position s m, m ∈ (match match_at nameOf position s with Some x => [x] | None => [] end) ↔ match_at nameOf position s = Some m).
  { intros position u m. destruct (match_at nameOf position u) as [x|]; [rewrite list_elem_of_singleton; naive_solver|]. rewrite elem_of_nil. naive_solver. }
  induction s as [|c s IH]; intros position m; cbn [matches_from_position].
  - rewrite Hhere. split.
    + intros E. exists 0. by rewrite Nat.add_0_r.
    + intros ([|i] & Hi & E); [by rewrite Nat.add_0_r in E|cbn in Hi; lia].
  - rewrite elem_of_app, Hhere, IH. split.
    + intros [E|(i & Hi & E)]; [exists 0; split; [lia|by rewrite Nat.add_0_r]|]. exists (S i). split; [cbn; lia|]. by rewrite <- Nat.add_succ_comm.
    + intros ([|i] & Hi & E); [left; by rewrite Nat.add_0_r in E|]. right. exists i. split; [cbn in Hi; lia|]. by rewrite Nat.add_succ_comm.
Qed.
Lemma matchesOf_elem nameOf s m : m ∈ matchesOf nameOf s ↔ match_start m ≤ length s ∧ match_at nameOf (match_start m) (drop (match_start m) s) = Some m.
Proof.
  unfold matchesOf. rewrite matches_elem. cbn. split.
  - intros (i & Hi & E). destruct (match_at_sound _ _ _ _ E) as [-> _]. done.
  - intros [Hi E]. eauto.
Qed.
Lemma ordered_weaken bound bound' l : bound' ≤ bound → ordered bound l → ordered bound' l.
Proof. intros Hb Ho i m Hi. destruct (Ho i m Hi). split; [lia|done]. Qed.
Lemma ordered_here bound x l : bound ≤ match_start x → ordered (match_start x) l → ordered bound (x :: l).
Proof.
  intros Hb Ho [|i] m Hi.
  - injection Hi as <-. split; [done|]. intros [|j] m' Hj Hm; [lia|]. by apply (Ho j m').
  - cbn in Hi. destruct (Ho i m Hi) as [H1 H2]. split; [lia|]. intros [|j] m' Hj Hm; [lia|]. apply (H2 j m'); [lia|done].
Qed.
Lemma matches_ordered nameOf s : ∀ position, ordered position (matches_from_position nameOf position s).
Proof.
  assert (Hone : ∀ position u, ordered position (match match_at nameOf position u with Some x => [x] | None => [] end)).
  { intros position u. destruct (match_at nameOf position u) as [x|] eqn:E; [|by intros i m Hi]. apply match_at_sound in E as [<- _].
    apply ordered_here; [done|]. by intros i m Hi. }
  induction s as [|c s IH]; intros position; cbn [matches_from_position]; [apply Hone|].
  destruct (match_at nameOf position (c :: s)) as [x|] eqn:E; cbn [app]; [|eapply ordered_weaken; [|apply IH]; lia].
  apply match_at_sound in E as [Hs _]. apply ordered_here; [lia|]. eapply ordered_weaken; [|apply IH]. lia.
Qed.
Lemma matches_valid nameOf s : Forall (λ o : str * str, o.1 ≠ []) nameOf → Forall (valid_match s) (matchesOf nameOf s).
Proof.
  intros Hne. apply Stdlib.Lists.List.Forall_forall. intros m Hm%list_elem_of_In%matchesOf_elem. destruct Hm as [Hlen Hm].
  apply match_at_sound in Hm as (_ & spelling & Hin & Hp & Hend). pose proof (patternOf_length _ _ Hp) as Hl. rewrite length_drop in Hl.
  assert (spelling ≠ []).
  { apply list_elem_of_fmap in Hin as (o & -> & Ho). rewrite Stdlib.Lists.List.Forall_forall in Hne. by apply Hne, list_elem_of_In. }
  destruct spelling as [|c spelling]; [done|]. unfold valid_match. cbn in *. lia.
Qed.
(** The matches cover what the spellings cover. *)
Lemma matches_cover nameOf s p : longest_first nameOf →
  covered (matchesOf nameOf s) p ↔ ∃ spelling i, occurs nameOf s spelling i ∧ i ≤ p < i + length spelling.
Proof.
  intros Hsort. unfold covered, occurs. split.
  - intros (m & (Hlen & Hm)%matchesOf_elem & Hp). apply match_at_sound in Hm as (_ & spelling & Hin & Hpat & Hend).
    exists spelling, (match_start m). split; [done|lia].
  - intros (spelling & i & [Hin Hpat] & Hp). destruct (match_at_complete nameOf i (drop i s) spelling Hsort Hin Hpat) as (m & Hm & Hstart & Hend).
    exists m. split; [|lia]. apply matchesOf_elem. rewrite Hstart. split; [|done].
    pose proof (patternOf_length _ _ Hpat) as Hl. rewrite length_drop in Hl. lia.
Qed.

Lemma units_match_take units n : ∀ s, length units ≤ n → units_match units (take n s) = units_match units s.
Proof.
  revert n. induction units as [|m units IH]; intros n s Hn; [by destruct (take n s), s|]. destruct n as [|n]; [cbn in Hn; lia|].
  destruct s as [|c s]; [done|]. cbn in *. by rewrite IH by lia.
Qed.
Lemma marked_units_fst s : ∀ skip, (marked_units skip s).*1 = s.
Proof.
  induction s as [|c s IH]; intros skip; [done|]. cbn [marked_units]. destruct skip as [|skip]; [|cbn; by rewrite IH].
  destruct (hex_sequence (c :: s)); cbn; by rewrite IH.
Qed.
(** ** Every spelling of a secret is scanned for *)
Definition sequence_unit (c : N) : bool := N.eqb c (chr "u") || isHex c.
Definition lowered (m : N * bool) : N := if m.2 then lower_unit m.1 else m.1.
(** Two units that the search of sequences does not tell apart. *)
Definition alike (c d : N) : Prop :=
  N.eqb c (chr "%") = N.eqb d (chr "%") ∧ N.eqb c BACKSLASH = N.eqb d BACKSLASH ∧ N.eqb c (chr "u") = N.eqb d (chr "u") ∧ isHex c = isHex d.
Ltac alike_rewrites := cbn; repeat match goal with E : _ = _ |- _ => rewrite ?E; clear E end.
Lemma hex_sequence_alike s t : Forall2 alike s t → hex_sequence s = hex_sequence t.
Proof.
  intros H.
  do 6 (destruct H as [|? ? ? ? (? & ? & ? & ?) H]; [by alike_rewrites|]). by alike_rewrites.
Qed.
Lemma isHex_lower c : isHex (lower_unit c) = isHex c.
Proof.
  unfold lower_unit, isHex, is_upper, is_digit, in_range. destruct (N.leb 65 c && N.leb c 90) eqn:E; [|done].
  rewrite andb_true_iff, !N.leb_le in E. apply Bool.eq_iff_eq_true. rewrite !orb_true_iff, !andb_true_iff, !N.leb_le. lia.
Qed.
Lemma lower_alike c : sequence_unit c = true ∨ lower_unit c = c → alike c (lower_unit c).
Proof.
  intros [Hc| ->]; [|by split_and!]. split_and!; [| | |by rewrite isHex_lower].
  all: unfold sequence_unit, isHex, is_digit, in_range in Hc; unfold lower_unit, is_upper, in_range; destruct (N.leb 65 c && N.leb c 90) eqn:E; [|done].
  all: rewrite andb_true_iff, !N.leb_le in E; rewrite !orb_true_iff, !andb_true_iff, !N.leb_le, N.eqb_eq in Hc.
  all: unfold BACKSLASH; change (chr "u") with 117%N in *; change (chr "%") with 37%N; apply Bool.eq_iff_eq_true; rewrite !N.eqb_eq; lia.
Qed.
Lemma hex_sequence_units s more : hex_sequence s = S more →
  ∃ c rest, s = c :: rest ∧ lower_unit c = c ∧ forallb sequence_unit (take more rest) = true.
Proof.
  destruct s as [|c [|a [|b rest]]]; try done. cbn.
  destruct (N.eqb_spec c (chr "%")) as [->|Hp]; cbn [andb].
  - destruct (isHex a) eqn:Ha, (isHex b) eqn:Hb; cbn [andb]; try by (repeat case_match; try done).
    intros [= <-]. exists (chr "%"), (a :: b :: rest). split_and!; [done|done|]. cbn. unfold sequence_unit. by rewrite Ha, Hb, !orb_true_r.
  - destruct rest as [|d [|e [|f rest]]]; try done.
    destruct (N.eqb_spec c BACKSLASH) as [->|]; cbn [andb]; [|done]. destruct (N.eqb_spec a (chr "u")) as [->|]; cbn [andb]; [|done].
    destruct (isHex b) eqn:Hb, (isHex d) eqn:Hd, (isHex e) eqn:He, (isHex f) eqn:Hf; cbn [andb]; try done. intros [= <-].
    eexists _, _. split_and!; [done|done|]. cbn. unfold sequence_unit. by rewrite Hb, Hd, He, Hf, !orb_true_r.
Qed.
Lemma marked_alike s : ∀ skip, forallb sequence_unit (take skip s) = true → Forall2 alike s (lowered <$> marked_units skip s).
Proof.
  induction s as [|c s IH]; intros skip Hs; [constructor|]. cbn [marked_units]. destruct skip as [|skip].
  - destruct (hex_sequence (c :: s)) as [|more] eqn:E; csimpl.
    + constructor; [by split_and!|by apply IH].
    + apply hex_sequence_units in E as (? & ? & [= <- <-] & Hl & Hu). constructor; [apply lower_alike; by right|by apply IH].
  - cbn in Hs. apply andb_true_iff in Hs as [Hc Hs]. csimpl. constructor; [apply lower_alike; by left|by apply IH].
Qed.
Lemma marked_lowered s : ∀ skip, forallb sequence_unit (take skip s) = true →
  marked_units skip (lowered <$> marked_units skip s) = (λ m, (lowered m, m.2)) <$> marked_units skip s.
Proof.
  induction s as [|c s IH]; intros skip Hs; [done|].
  pose proof (marked_alike (c :: s) skip Hs) as Ha. cbn [marked_units] in *. destruct skip as [|skip].
  - apply hex_sequence_alike in Ha. destruct (hex_sequence (c :: s)) as [|more] eqn:E.
    + clear E. csimpl in *. by rewrite <- Ha, IH.
    + apply hex_sequence_units in E as (? & ? & [= <- <-] & Hl & Hu). csimpl in *. by rewrite <- Ha, IH.
  - cbn in Hs. apply andb_true_iff in Hs as [_ Hs]. csimpl. by rewrite IH.
Qed.
Lemma marks_match s rest : ∀ skip, forallb sequence_unit (take skip s) = true →
  units_match ((λ m, (lowered m, m.2)) <$> marked_units skip s) (s ++ rest) = true.
Proof.
  assert (Hunit : ∀ c, sequence_unit c = true ∨ lower_unit c = c → unit_matches (lower_unit c, true) c = true).
  { intros c [Hc|E]; unfold unit_matches; cbn [fst snd]; [|by rewrite E, N.eqb_refl].
    destruct (is_upper c) eqn:Hup; [|by unfold lower_unit; rewrite Hup, N.eqb_refl]. apply orb_true_iff. right.
    unfold sequence_unit in Hc. apply orb_true_iff in Hc as [->%N.eqb_eq|Hc]; [done|]. rewrite isHex_lower, Hc. cbn [andb].
    assert (Hlow : lower_unit c = (c + 32)%N) by (unfold lower_unit; by rewrite Hup).
    unfold is_upper, in_range in Hup. rewrite andb_true_iff, !N.leb_le in Hup.
    assert (Hlow' : lower_unit (c + 32) = (c + 32)%N).
    { unfold lower_unit. destruct (is_upper (c + 32)) eqn:E; [|done]. unfold is_upper, in_range in E. rewrite andb_true_iff, !N.leb_le in E. lia. }
    rewrite Hlow, Hlow', N.eqb_refl, andb_true_r. apply negb_true_iff. unfold is_digit, in_range. apply andb_false_iff. right. apply N.leb_gt. lia. }
  induction s as [|c s IH]; intros skip Hs; [by destruct rest|]. cbn [marked_units]. destruct skip as [|skip].
  - destruct (hex_sequence (c :: s)) as [|more] eqn:E; csimpl.
    + unfold unit_matches at 1. cbn. by rewrite N.eqb_refl, IH.
    + apply hex_sequence_units in E as (? & ? & [= <- <-] & Hl & Hu). cbn. rewrite Hunit by (by right). by rewrite IH.
  - cbn in Hs. apply andb_true_iff in Hs as [Hc Hs]. csimpl. cbn. rewrite Hunit by (by left). by rewrite IH.
Qed.
(** The pattern of a form matches the form as it was written. *)
Lemma form_matches form rest : patternOf (withLowercaseHex form) (form ++ rest) = true.
Proof.
  unfold patternOf, withLowercaseHex. change (λ m : N * bool, if m.2 then lower_unit m.1 else m.1) with lowered.
  rewrite marked_lowered by done. by apply marks_match.
Qed.
Lemma lower_lower c : lower_unit (lower_unit c) = lower_unit c.
Proof.
  unfold lower_unit at 2 3. destruct (is_upper c) eqn:E; [|unfold lower_unit; by rewrite E]. unfold lower_unit. destruct (is_upper (c + 32)) eqn:E'; [|done]. unfold is_upper, in_range in *. rewrite andb_true_iff, !N.leb_le in *. lia.
Qed.
Lemma lowercase_idem form : withLowercaseHex (withLowercaseHex form) = withLowercaseHex form.
Proof.
  unfold withLowercaseHex at 1 3. change (λ m : N * bool, if m.2 then lower_unit m.1 else m.1) with lowered. unfold withLowercaseHex. change (λ m : N * bool, if m.2 then lower_unit m.1 else m.1) with lowered.
  rewrite marked_lowered, <- list_fmap_compose by done. apply list_fmap_ext. intros i [c []] _; cbn; [apply lower_lower|done].
Qed.
(** What a pattern matches is its spelling, up to the case of the hexadecimal sequences. *)
Lemma unit_alike m c : unit_matches m c = true → alike m.1 c ∧ lowered m = lowered (c, m.2).
Proof.
  destruct m as [d f]. unfold unit_matches. cbn [fst snd]. intros [->%N.eqb_eq|H]%orb_true_iff; [split; [by split_and!|done]|].
  apply andb_true_iff in H as [[[-> Hd]%andb_true_iff Hn%negb_true_iff]%andb_true_iff Hl%N.eqb_eq]. split; [|unfold lowered; cbn; congruence].
  assert (isHex c = true) as Hc by (by rewrite <- isHex_lower, Hl, isHex_lower). assert (is_digit c = false) as Hnc.
  { apply not_true_is_false. intros Hdig. unfold lower_unit, is_upper, is_digit, isHex, in_range in *. destruct (_ && _) eqn:E1 in Hl; destruct (_ && _) eqn:E2 in Hl; rewrite ?orb_true_iff, ?andb_true_iff, ?andb_false_iff, ?N.leb_le, ?N.leb_gt in *; lia. }
  assert (∀ x, isHex x = true → is_digit x = false → x ≠ chr "%" ∧ x ≠ BACKSLASH ∧ x ≠ chr "u") as Hx.
  { intros x H1 H2. unfold isHex in H1. rewrite H2 in H1. unfold in_range, BACKSLASH in *. change (chr "u") with 117%N. change (chr "%") with 37%N. rewrite !orb_true_iff, !andb_true_iff, !N.leb_le in H1. split_and!; destruct H1 as [[?|?]|?]; try done; lia. }
  destruct (Hx d Hd Hn) as (D1 & D2 & D3), (Hx c Hc Hnc) as (C1 & C2 & C3). apply N.eqb_neq in D1, D2, D3, C1, C2, C3. unfold alike. cbn [fst]. by rewrite D1, D2, D3, C1, C2, C3, Hc, Hd.
Qed.
Lemma marks_alike s : ∀ skip t, units_match (marked_units skip s) t = true → length t = length s → Forall2 alike s t ∧ (lowered <$> marked_units skip s) = lowered <$> zip t (marked_units skip s).*2.
Proof.
  induction s as [|c s IH]; intros skip [|d t] Hm Hl; try done. injection Hl as Hl. cbn [marked_units] in *.
  destruct skip as [|skip]; [destruct (hex_sequence (c :: s)) as [|more]|]; cbn [units_match] in Hm; apply andb_true_iff in Hm as [[Ha Hlo]%unit_alike Hm]; apply IH in Hm as [Hall Hrest]; try done; (split; [by constructor|]); csimpl; cbn [snd] in Hlo; by rewrite Hrest, Hlo.
Qed.
Lemma marks_same s t : Forall2 alike s t → ∀ skip, (marked_units skip s).*2 = (marked_units skip t).*2.
Proof.
  induction 1 as [|c d s t Hc Hs IH]; intros skip; [done|]. cbn [marked_units]. destruct skip as [|skip]; [|csimpl; by rewrite IH]. rewrite (hex_sequence_alike (c :: s) (d :: t)) by (by constructor). destruct (hex_sequence (d :: t)); csimpl; by rewrite IH.
Qed.
Lemma found_spelling spelling s : patternOf spelling s = true → withLowercaseHex (take (length spelling) s) = withLowercaseHex spelling.
Proof.
  intros Hp. pose proof (patternOf_length _ _ Hp) as Hl. unfold patternOf in Hp. set (t := take (length spelling) s). assert (length t = length spelling) as Ht by (unfold t; rewrite length_take; lia).
  assert (units_match (marked_units 0 spelling) t = true) as Hm by (unfold t; by rewrite units_match_take by (by rewrite marked_units_length)).
  destruct (marks_alike spelling 0 t Hm Ht) as [Ha E]. unfold withLowercaseHex. change (λ m : N * bool, if m.2 then lower_unit m.1 else m.1) with lowered. rewrite E, (marks_same _ _ Ha 0). f_equal.
  rewrite <- (marked_units_fst t 0) at 2. symmetry. apply zip_fst_snd.
Qed.
(** The name of a match is that of the spelling it has. *)
Definition spelled_low (nameOf : rec str) : Prop := ∀ k, k ∈ nameOf.*1 → withLowercaseHex k = k.
Lemma match_owner nameOf s m : spelled_low nameOf → m ∈ matchesOf nameOf s → match_end m ≤ length s ∧ get nameOf (withLowercaseHex (slice s (match_start m) (match_end m))) = Some (match_name m).
Proof.
  intros Hlow (Hlen & Hm)%matchesOf_elem. destruct m as [st en nm]. cbn [match_start match_end match_name] in *. unfold match_at in Hm. destruct (find _ nameOf) as [[spelling name]|] eqn:Hf; [|done]. apply find_sound in Hf as [Hin Ht]. cbn [fst] in Ht. injection Hm as <- <-.
  pose proof (patternOf_length _ _ Ht) as Hl. rewrite length_drop in Hl. rewrite length_take, length_drop, Nat.min_l by lia. split; [lia|]. unfold slice. rewrite Nat.add_comm, Nat.add_sub. rewrite (found_spelling _ _ Ht).
  assert (spelling ∈ nameOf.*1) as Hk by (apply list_elem_of_fmap; by exists (spelling, name)). rewrite (Hlow _ Hk). apply has_own_keys, has_own_get in Hk as [n ->]. done.
Qed.

(** ** The cut of a long text *)
Definition crosses (m : Match) (position : nat) : Prop := match_start m < position < match_end m.
(** The matches [finished] lie in earlier regions, none of which crosses the position, or in the current one. *)
Definition regions_inv (position bound : nat) (region : option (nat * nat)) (finished : list Match) : Prop :=
  match region with
  | None => finished = []
  | Some (s, e) => s ≤ bound ∧ ∀ m, m ∈ finished → (match_end m ≤ s ∧ ¬ crosses m position) ∨ (s ≤ match_start m ∧ match_end m ≤ e)
  end.
Lemma region_crossing_spec position matches : ∀ region finished bound,
  ordered bound matches → regions_inv position bound region finished →
  match region_crossing matches position region with
  | Some s => s < position ∧ ∀ m, m ∈ finished ++ matches → ¬ crosses m s
  | None => ∀ m, m ∈ finished ++ matches → ¬ crosses m position
  end.
Proof.
  assert (Hfound : ∀ s e bound finished matches, ordered bound matches → regions_inv position bound (Some (s, e)) finished →
    ∀ m, m ∈ finished ++ matches → ¬ crosses m s).
  { intros s e bound finished matches' Ho [Hs Hinv] m [Hm|Hm]%elem_of_app; unfold crosses.
    - destruct (Hinv m Hm) as [[? _]|[? ?]]; lia.
    - apply list_elem_of_lookup in Hm as (i & Hi). destruct (Ho i m Hi). lia. }
  induction matches as [|found rest IH]; intros region finished bound Ho Hinv; cbn [region_crossing].
  - destruct region as [[s e]|]; [|cbn in Hinv; subst; by intros m ?%elem_of_nil].
    destruct (bool_decide (s < position) && bool_decide (position < e)) eqn:E; cbn.
    + apply andb_true_iff in E as [E1%bool_decide_eq_true E2%bool_decide_eq_true]. split; [done|]. by eapply Hfound.
    + intros m. rewrite app_nil_r. intros Hm. destruct Hinv as [_ Hinv]. destruct (Hinv m Hm) as [[_ ?]|[H1 H2]]; [done|]. unfold crosses.
      apply andb_false_iff in E as [E%bool_decide_eq_false|E%bool_decide_eq_false]; lia.
  - pose proof Ho as [Hb Ho']%ordered_cons. replace (finished ++ found :: rest) with ((finished ++ [found]) ++ rest) by (by rewrite <- app_assoc).
    destruct region as [[s e]|].
    + destruct Hinv as [Hs Hinv]. case_bool_decide as Hin.
      * eapply IH; [exact Ho'|]. split; [lia|]. intros m [Hm|Hm]%elem_of_app.
        -- destruct (Hinv m Hm) as [?|[? ?]]; [by left|right; lia].
        -- apply list_elem_of_singleton in Hm as ->. right. lia.
      * destruct (bool_decide (s < position) && bool_decide (position < e)) eqn:E.
        { apply andb_true_iff in E as [E1%bool_decide_eq_true _]. split; [done|]. rewrite <- app_assoc. by eapply (Hfound s e bound). }
        eapply IH; [exact Ho'|]. split; [lia|]. intros m [Hm|Hm]%elem_of_app.
        -- left. unfold crosses. destruct (Hinv m Hm) as [[? ?]|[? ?]]; [split; [lia|done]|]. split; [lia|].
           apply andb_false_iff in E as [E%bool_decide_eq_false|E%bool_decide_eq_false]; lia.
        -- apply list_elem_of_singleton in Hm as ->. right. lia.
    + cbn in Hinv. subst finished. eapply IH; [exact Ho'|]. split; [lia|]. intros m Hm. apply list_elem_of_singleton in Hm as ->. right. lia.
Qed.
Lemma crossing_cut matches position : ordered 0 matches →
  let cut := default position (startOfRegionCrossing matches position) in cut ≤ position ∧ ∀ m, m ∈ matches → ¬ crosses m cut.
Proof.
  intros Ho. pose proof (region_crossing_spec position matches None [] 0 Ho eq_refl) as H. unfold startOfRegionCrossing. cbn in H.
  destruct (region_crossing matches position None) as [s|]; cbn; [split; [lia|apply H]|split; [lia|done]].
Qed.

(** A spelling does not end inside a surrogate pair. *)
Definition ends_whole (spelling : str) : Prop := ∃ c, list.last spelling = Some c ∧ is_high_surrogate c = false.
Lemma units_match_last units : ∀ s, units_match units s = true → ∀ m, list.last units = Some m →
  ∃ c, s !! (length units - 1) = Some c ∧ unit_matches m c = true.
Proof.
  induction units as [|x units IH]; intros s Hm m Hl; [done|]. destruct s as [|c s]; [done|]. cbn in Hm. apply andb_true_iff in Hm as [Hc Hm].
  destruct units as [|y units]; [injection Hl as <-; by exists c|].
  destruct (IH s Hm m) as (d & Hd & Hmd); [by rewrite last_cons_cons in Hl|]. exists d. split; [|done]. cbn in *. by rewrite Nat.sub_0_r in Hd.
Qed.
Lemma high_not_hex c m : is_high_surrogate c = true → unit_matches m c = true → c = m.1.
Proof.
  unfold unit_matches. intros Hc [E%N.eqb_eq|E]%orb_true_iff; [done|]. exfalso.
  apply andb_true_iff in E as [E Hl%N.eqb_eq]. apply andb_true_iff in E as [E _]. apply andb_true_iff in E as [_ Hh].
  unfold isHex, is_digit, is_high_surrogate, in_range in *. rewrite !orb_true_iff, !andb_true_iff, !N.leb_le in *.
  unfold lower_unit, is_upper, in_range in Hl. destruct (_ && _) eqn:E1 in Hl; destruct (_ && _) eqn:E2 in Hl;
    rewrite ?andb_true_iff, ?andb_false_iff, ?N.leb_le, ?N.leb_gt in *; lia.
Qed.
Lemma match_ends_whole nameOf s m : Forall (λ o : str * str, ends_whole o.1) nameOf → m ∈ matchesOf nameOf s → unit_before_is_high s (match_end m) = false.
Proof.
  intros Hall (Hlen & Hm)%matchesOf_elem. apply match_at_sound in Hm as (_ & spelling & Hin & Hp & Hend).
  assert (Hw : ends_whole spelling).
  { apply list_elem_of_fmap in Hin as (o & -> & Ho). rewrite Stdlib.Lists.List.Forall_forall in Hall. by apply Hall, list_elem_of_In. }
  destruct Hw as (c & Hc & Hhigh). unfold patternOf in Hp.
  assert (Hlast : ∃ x, list.last (marked_units 0 spelling) = Some x ∧ x.1 = c).
  { rewrite <- (marked_units_fst spelling 0), fmap_last in Hc. destruct (list.last (marked_units 0 spelling)) as [x|]; [|done]. cbn in Hc. exists x. split; [done|congruence]. }
  destruct Hlast as (x & Hx & <-). destruct (units_match_last _ _ Hp x Hx) as (d & Hd & Hxd). rewrite marked_units_length, lookup_drop in Hd.
  assert (spelling ≠ []) by (by intros ->). destruct spelling as [|a spelling]; [done|]. cbn in *. rewrite Nat.sub_0_r in Hd.
  rewrite Hend, Nat.add_succ_r. cbn. rewrite Hd. destruct (is_high_surrogate d) eqn:E; [|done]. rewrite <- (high_not_hex d x E Hxd) in Hhigh. congruence.
Qed.

Lemma patternOf_window spelling text i n : i + length spelling ≤ n → patternOf spelling (drop i (take n text)) = patternOf spelling (drop i text).
Proof. intros Hn. rewrite skipn_firstn_comm. unfold patternOf. apply units_match_take. rewrite marked_units_length. lia. Qed.
Lemma patternOf_window_sound spelling text i n : patternOf spelling (drop i (take n text)) = true → patternOf spelling (drop i text) = true.
Proof.
  intros Hp. pose proof (patternOf_length _ _ Hp) as Hl. rewrite length_drop, length_take in Hl.
  destruct spelling as [|c spelling]; [by destruct (drop i text)|]. rewrite <- (patternOf_window _ text i n); [done|]. cbn in *. lia.
Qed.
Lemma ordered_filter P `{∀ m, Decision (P m)} bound l : ordered bound l → ordered bound (filter P l).
Proof.
  revert bound. induction l as [|x l IH]; intros bound Ho; [by intros i m Hi|]. apply ordered_cons in Ho as [Hb Ho]. rewrite filter_cons.
  case_decide; [apply ordered_here; [done|by apply IH]|]. eapply ordered_weaken; [exact Hb|by apply IH].
Qed.
Lemma longest_bound nameOf spelling : spelling ∈ nameOf.*1 → length spelling ≤ foldr max 1 ((λ owner : str * str, length owner.1) <$> nameOf).
Proof.
  intros Hin. apply list_elem_of_fmap in Hin as (o & -> & Ho). induction nameOf as [|x l IH]; [by apply elem_of_nil in Ho|].
  apply elem_of_cons in Ho as [->|Ho]; csimpl; [lia|]. specialize (IH Ho). lia.
Qed.
Lemma longest_pos nameOf : 1 ≤ foldr max 1 ((λ owner : str * str, length owner.1) <$> nameOf).
Proof. induction nameOf as [|x l IH]; csimpl; lia. Qed.

Section Mask.
Variable nameOf : rec str.
Hypothesis Hsorted : longest_first nameOf.
Hypothesis Hwhole : Forall (λ o : str * str, ends_whole o.1) nameOf.
Hypothesis Hlow : spelled_low nameOf.

Lemma spellings_nonempty : Forall (λ o : str * str, o.1 ≠ []) nameOf.
Proof. eapply list.Forall_impl; [exact Hwhole|]. intros o (c & Hc & _) E. by rewrite E in Hc. Qed.

(** No match lies across the cut. *)
Lemma cut_splits_no_match text n maxChars :
  maxChars ≤ n → let matches := matchesOf nameOf (take n text) in let cut := cutPositionOf text matches maxChars in
  cut ≤ maxChars ∧ ∀ m, m ∈ matches → match_start m < cut → match_end m ≤ cut.
Proof.
  intros Hn matches cut. destruct (crossing_cut matches maxChars (matches_ordered nameOf _ 0)) as [Hle Hno].
  set (cut0 := default maxChars (startOfRegionCrossing matches maxChars)) in *. unfold cut, cutPositionOf. fold cut0.
  destruct (unit_before_is_high text cut0) eqn:Hhigh.
  - destruct cut0 as [|k] eqn:Hcut0; [done|]. split; [lia|]. intros m Hm Hlt. specialize (Hno m Hm). unfold crosses in Hno. rewrite Nat.sub_1_r in *. cbn in *.
    destruct (decide (match_end m = S k)) as [E|]; [|lia]. exfalso.
    pose proof (match_ends_whole nameOf _ m Hwhole Hm) as Hw. rewrite E in Hw. cbn in Hw. rewrite lookup_take in Hw.
    rewrite decide_True in Hw by lia. congruence.
  - split; [done|]. intros m Hm Hlt. specialize (Hno m Hm). unfold crosses in Hno. lia.
Qed.

Definition hides (text : str) (maxInputChars : nat) (output : str) : Prop :=
  ∃ cut segments last suffix,
    output = rendered segments ++ last ++ suffix ∧ take cut text = original segments ++ last ∧
    (length text ≤ maxInputChars → cut = length text ∧ suffix = []) ∧
    (maxInputChars < length text → cut ≤ maxInputChars ∧ suffix = TRUNCATION_MARKER) ∧
    (∀ spelling i, occurs nameOf text spelling i → i < cut → i + length spelling ≤ cut) ∧
    (∀ p, p < cut → flags segments !! p = Some true ↔ ∃ spelling i, occurs nameOf text spelling i ∧ i ≤ p < i + length spelling) ∧
    ∀ g, g ∈ segments → (hidden g ≠ [] → names g ≠ []) ∧ ∀ name, name ∈ names g → ∃ a found b, hidden g = a ++ found ++ b ∧ get nameOf (withLowercaseHex found) = Some name.
Lemma occurrence_fits text spelling i : occurs nameOf text spelling i → spelling ≠ [] → i + length spelling ≤ length text.
Proof. intros [_ Hp] Hne. apply patternOf_length in Hp. rewrite length_drop in Hp. destruct spelling; [done|]. cbn in *. lia. Qed.
Lemma spelling_nonempty text spelling i : occurs nameOf text spelling i → spelling ≠ [].
Proof.
  intros [Hin _]. apply list_elem_of_fmap in Hin as (o & -> & Ho). pose proof spellings_nonempty as Hne.
  rewrite Stdlib.Lists.List.Forall_forall in Hne. by apply Hne, list_elem_of_In.
Qed.
Lemma mask_hides text maxInputChars : hides text maxInputChars (mask nameOf maxInputChars text).
Proof.
  unfold mask. case_bool_decide as Hlen.
  - destruct (maskedWith_spec text (matchesOf nameOf text) (matches_valid _ _ spellings_nonempty) (matches_ordered _ _ _)) as (segments & last & H1 & H2 & H3 & H4).
    exists (length text), segments, last, []. split_and!; [by rewrite app_nil_r|by rewrite firstn_all|done|lia| | |].
    + intros spelling i Ho _. by eapply occurrence_fits, spelling_nonempty.
    + intros p _. rewrite H3. by apply matches_cover.
    + intros g Hg. destruct (H4 g Hg) as [Hne Hn]. split; [done|]. intros name (m & a & b & Hm & <- & E)%Hn. exists a, (slice text (match_start m) (match_end m)), b. split; [done|]. by apply match_owner.
  - set (longest := foldr max 1 _). set (n := maxInputChars + longest - 1). set (matches := matchesOf nameOf (take n text)). set (cut := cutPositionOf text matches maxInputChars).
    pose proof (longest_pos nameOf) as Hpos. fold longest in Hpos.
    destruct (cut_splits_no_match text n maxInputChars ltac:(lia)) as [Hcut Hno]. fold matches cut in Hcut, Hno.
    assert (Hmatch : ∀ spelling i, occurs nameOf text spelling i → i < cut → ∃ m, m ∈ matches ∧ match_start m = i ∧ i + length spelling ≤ match_end m ∧ match_end m ≤ cut).
    { intros spelling i Ho Hi. pose proof Ho as [Hin Hp]. pose proof (longest_bound nameOf spelling Hin) as Hlb. fold longest in Hlb.
      rewrite <- (patternOf_window spelling text i n) in Hp by lia.
      destruct (match_at_complete nameOf i _ spelling Hsorted Hin Hp) as (m & Hm & Hs & He). exists m.
      assert (m ∈ matches). { apply matchesOf_elem. rewrite Hs. split; [rewrite length_take; lia|done]. }
      split_and!; [done|done|done|]. apply Hno; [done|lia]. }
    destruct (maskedWith_spec (take cut text) (filter (λ m, match_end m ≤ cut) matches)) as (segments & last & H1 & H2 & H3 & H4).
    { apply Stdlib.Lists.List.Forall_forall. intros m (Hend & Hm)%list_elem_of_In%list_elem_of_filter.
      pose proof (matches_valid nameOf (take n text) spellings_nonempty) as Hv. rewrite Stdlib.Lists.List.Forall_forall in Hv.
      destruct (Hv m (proj1 (list_elem_of_In _ _) Hm)) as [? ?]. split; [done|]. rewrite length_take. lia. }
    { apply ordered_filter, matches_ordered. }
    exists cut, segments, last, TRUNCATION_MARKER. split_and!; [by rewrite H1, <- app_assoc|done|lia|done| | |].
    + intros spelling i Ho Hi. destruct (Hmatch spelling i Ho Hi) as (m & _ & _ & ? & ?). lia.
    + intros p Hp. rewrite H3. unfold covered. split.
      * intros (m & (_ & Hm)%list_elem_of_filter & Hpm). apply matchesOf_elem in Hm as [Hl Hm].
        apply match_at_sound in Hm as (_ & spelling & Hin & Hpat & Hend). exists spelling, (match_start m). split; [|lia].
        split; [done|]. by eapply patternOf_window_sound.
      * intros (spelling & i & Ho & Hi). destruct (Hmatch spelling i Ho ltac:(lia)) as (m & Hm & Hs & He & Hc).
        exists m. split; [by apply list_elem_of_filter|lia].
    + intros g Hg. destruct (H4 g Hg) as [Hne Hn]. split; [done|]. intros name (m & a & b & (Hend & Hm)%list_elem_of_filter & <- & E)%Hn. exists a, (slice text (match_start m) (match_end m)), b. rewrite slice_take in E by done. split; [done|].
      destruct (match_owner nameOf _ m Hlow Hm) as [Hl Ho]. rewrite length_take in Hl. rewrite slice_take in Ho by lia. done.
Qed.
End Mask.

Lemma lower_high c : is_high_surrogate (lower_unit c) = is_high_surrogate c.
Proof.
  unfold lower_unit, is_upper, is_high_surrogate, in_range. destruct (N.leb 65 c && N.leb c 90) eqn:E; [|done].
  rewrite andb_true_iff, !N.leb_le in E. apply Bool.eq_iff_eq_true. rewrite !andb_true_iff, !N.leb_le. lia.
Qed.
Lemma ends_whole_lowered form : ends_whole form → ends_whole (withLowercaseHex form).
Proof.
  intros (c & Hc & Hh). unfold ends_whole, withLowercaseHex. rewrite <- (marked_units_fst form 0), fmap_last in Hc. rewrite fmap_last.
  destruct (list.last (marked_units 0 form)) as [[x []]|]; [| |done]; cbn in *; simplify_eq; eexists; split; try done. by rewrite lower_high.
Qed.
Lemma withLowercaseHex_length form : length (withLowercaseHex form) = length form.
Proof. unfold withLowercaseHex. by rewrite length_fmap, marked_units_length. Qed.

(** ** Spellings end on whole characters *)
Lemma ends_whole_app a b : b ≠ [] → ends_whole (a ++ b) ↔ ends_whole b.
Proof. intros Hb. unfold ends_whole. destruct b as [|x b]; [done|]. by rewrite last_app_cons. Qed.
Lemma ends_whole_snoc a c : ends_whole (a ++ [c]) ↔ is_high_surrogate c = false.
Proof. unfold ends_whole. rewrite last_snoc. naive_solver. Qed.
Lemma low_is_not_high c : is_low_surrogate c = true → is_high_surrogate c = false.
Proof. unfold is_low_surrogate, is_high_surrogate, in_range. rewrite andb_true_iff, andb_false_iff, !N.leb_le, !N.leb_gt. lia. Qed.
Lemma small_is_not_high c : (c < 55296)%N → is_high_surrogate c = false.
Proof. intros Hc. unfold is_high_surrogate, in_range. apply andb_false_iff. left. apply N.leb_gt. lia. Qed.
Lemma concat_ends (pieces : list str) : pieces ≠ [] → Forall ends_whole pieces → ends_whole (concat pieces).
Proof.
  induction pieces as [|p pieces IH] using rev_ind; [done|]. intros _ Hall. apply Forall_app in Hall as [_ Hp]. rewrite list.Forall_singleton in Hp.
  rewrite concat_app. cbn. rewrite app_nil_r. apply ends_whole_app; [|done]. destruct Hp as (c & Hc & _). by intros ->.
Qed.
Lemma code_points_concat s : concat (code_points s) = s.
Proof.
  remember (length s) as n eqn:Hn. assert (Hle : length s ≤ n) by lia. clear Hn. revert s Hle.
  induction n as [|n IH]; intros [|c s] Hle; cbn in Hle; try done; [lia|]. cbn [code_points]. destruct s as [|d s]; [done|].
  destruct (is_high_surrogate c && is_low_surrogate d); cbn [concat app]; f_equal; [f_equal|]; apply IH; cbn in *; lia.
Qed.
Lemma code_points_pairs s : Forall (λ point, match point with [_] => True | [c; d] => is_high_surrogate c = true ∧ is_low_surrogate d = true | _ => False end) (code_points s).
Proof.
  remember (length s) as n eqn:Hn. assert (Hle : length s ≤ n) by lia. clear Hn. revert s Hle.
  induction n as [|n IH]; intros [|c s] Hle; cbn in Hle; try constructor; [lia|]. cbn [code_points]. destruct s as [|d s]; [repeat constructor|].
  destruct (is_high_surrogate c && is_low_surrogate d) eqn:E; [apply andb_true_iff in E|]; constructor; try done; apply IH; cbn in *; lia.
Qed.
Definition whole_string (s : str) : Prop := Forall (λ point, is_Some (code_of point)) (code_points s).
Lemma whole_point point : is_Some (code_of point) →
  match point with [_] => True | [c; d] => is_high_surrogate c = true ∧ is_low_surrogate d = true | _ => False end → ends_whole point.
Proof.
  destruct point as [|c [|d [|]]]; try done; cbn.
  - destruct (is_high_surrogate c) eqn:E; cbn; [by intros []|]. intros _ _. by exists c.
  - intros _ [_ Hd%low_is_not_high]. by exists d.
Qed.
Lemma whole_points s : whole_string s → Forall ends_whole (code_points s).
Proof.
  unfold whole_string. pose proof (code_points_pairs s) as Hp. rewrite !Stdlib.Lists.List.Forall_forall in *. intros Hw point Hin.
  apply whole_point; [by apply Hw|by apply Hp].
Qed.
Lemma points_nonempty s : s ≠ [] → code_points s ≠ [].
Proof. destruct s as [|c s]; [done|]. intros _. cbn [code_points]. destruct s as [|d s]; [done|]. by destruct (_ && _). Qed.
Lemma mapM_whole s bytes : mapM (λ point, utf8_of <$> code_of point) (code_points s) = Some bytes →
  whole_string s ∧ length bytes = length (code_points s) ∧ Forall (λ l, l ≠ []) bytes.
Proof.
  intros H. apply mapM_Some in H. unfold whole_string. induction H as [|point l points bytes Hl _ IH]; [split_and!; [constructor|done|constructor]|].
  destruct IH as (H1 & H2 & H3). destruct (code_of point) as [code|] eqn:E; [|done]. injection Hl as <-. split_and!; cbn; [constructor; eauto|lia|].
  constructor; [|done]. unfold utf8_of. by repeat case_match.
Qed.
Lemma percent_ends b : ends_whole (percent b).
Proof.
  exists (upper_hex_digit (b mod 16)). split; [done|]. apply small_is_not_high. pose proof (N.mod_lt b 16 ltac:(done)) as Hm.
  unfold upper_hex_digit. destruct (N.ltb _ _); revert Hm; generalize (b mod 16)%N; lia.
Qed.
Lemma unreserved_small c : unreserved c = true → (c < 128)%N.
Proof.
  unfold unreserved, is_alnum, is_alpha, is_lower, is_upper, is_digit, in_range, mem_chr. rewrite !orb_true_iff, !andb_true_iff, !N.leb_le, existsb_exists.
  intros [?|(x & Hx & ->%N.eqb_eq)]; [lia|]. apply list_elem_of_In in Hx. each_in Hx ltac:(done).
Qed.
Lemma url_encoded_ends s u : s ≠ [] → encodeURIComponent s = Some u → ends_whole u.
Proof.
  intros Hne. unfold encodeURIComponent. destruct (mapM _ _) as [bytes|] eqn:Hm; [|done]. cbn. intros [= <-].
  apply mapM_whole in Hm as (_ & Hlen & Hb). apply concat_ends.
  { pose proof (points_nonempty s Hne). destruct bytes; [destruct (code_points s); done|done]. }
  apply Forall_fmap. eapply list.Forall_impl; [exact Hb|]. intros [|b [|b2 l]] Hl; [done|..]; unfold compose; cbn beta iota.
  - destruct (unreserved b) eqn:E; [|apply percent_ends]. exists b. split; [done|]. apply small_is_not_high. apply unreserved_small in E. lia.
  - apply (concat_ends (percent <$> (b :: b2 :: l))); [done|]. apply Forall_fmap. apply list.Forall_true. intros x. apply percent_ends.
Qed.
Lemma plus_for_space_ends n : ∀ s, length s ≤ n → ends_whole s → ends_whole (plus_for_space s).
Proof.
  induction n as [|n IH]; intros [|a s] Hlen (x & Hx & Hh); cbn in Hlen; try done; [lia|]. cbn [plus_for_space].
  assert (Hstep : s ≠ [] → ends_whole (a :: plus_for_space s)).
  { intros Hne. apply (ends_whole_app [a]); [destruct s as [|b [|c [|]]]; try done; cbn; by case_match|]. apply IH; [lia|].
    exists x. split; [|done]. destruct s; [done|]. by rewrite last_cons_cons in Hx. }
  destruct s as [|b [|c rest]]; [cbn; injection Hx as ->; by exists x|by apply Hstep|]. destruct (startsWith _ (js "%20")) eqn:E; [|by apply Hstep].
  destruct rest as [|d rest]; [by exists (chr "+")|]. apply (ends_whole_app [chr "+"]); [cbn; by repeat case_match|]. apply IH; [cbn in *; lia|].
  exists x. split; [|done]. by rewrite !last_cons_cons in Hx.
Qed.
Lemma base64_ends c62 c63 n : (c62 < 128)%N → (c63 < 128)%N → ∀ bytes, length bytes ≤ n → bytes ≠ [] → ends_whole (base64_bytes c62 c63 bytes).
Proof.
  intros H62 H63. assert (Hd : ∀ k, (k < 64)%N → is_high_surrogate (base64_digit c62 c63 k) = false).
  { intros k Hk. apply small_is_not_high. unfold base64_digit. repeat case_match; lia. }
  induction n as [|n IH]; intros [|a [|b [|c rest]]] Hlen Hne; cbn in Hlen; try done; try lia; cbn [base64_bytes].
  - eexists. split; [done|]. apply Hd. pose proof (N.mod_lt a 4 ltac:(done)) as Hm. revert Hm. generalize (a mod 4)%N. lia.
  - eexists. split; [done|]. apply Hd. pose proof (N.mod_lt b 16 ltac:(done)) as Hm. revert Hm. generalize (b mod 16)%N. lia.
  - destruct rest as [|d rest].
    + eexists. split; [done|]. apply Hd. by apply N.mod_lt.
    + apply (ends_whole_app [_; _; _; _]); [by destruct rest as [|? [|? ?]]|]. apply IH; [cbn in *; lia|done].
Qed.

Lemma hex_digit_small n : (n < 16)%N → (hex_digit n < 55296)%N.
Proof. unfold hex_digit. destruct (N.ltb n 10); lia. Qed.
Lemma unicode_escape_ends c : ends_whole (unicode_escape c).
Proof. exists (hex_digit (c mod 16)). split; [done|]. apply small_is_not_high, hex_digit_small. by apply N.mod_lt. Qed.
Lemma json_unit_ends c : is_high_surrogate c = false → ends_whole (json_unit c).
Proof. intros Hc. unfold json_unit. repeat (case_match; [by eexists|]). case_match; [apply unicode_escape_ends|by exists c]. Qed.
Lemma json_units_ends n : ∀ s, length s ≤ n → whole_string s → s ≠ [] → ends_whole (json_units s).
Proof.
  induction n as [|n IH]; intros [|c s] Hlen Hw Hne; cbn in Hlen; try done; [lia|]. unfold whole_string in Hw. cbn [code_points json_units] in *.
  assert (Happ : ∀ a t, length t ≤ n → whole_string t → ends_whole a → ends_whole (a ++ json_units t)).
  { intros a t Ht Hwt Ha. destruct t as [|x t]; [by rewrite app_nil_r|]. pose proof (IH (x :: t) Ht Hwt ltac:(done)) as Hrest.
    apply ends_whole_app; [|done]. destruct Hrest as (y & Hy & _). by intros E; rewrite E in Hy. }
  destruct s as [|d s].
  - rewrite list.Forall_singleton in Hw. cbn in Hw. destruct (is_high_surrogate c) eqn:Hh; cbn in Hw; [by destruct Hw|].
    destruct (is_low_surrogate c); [by destruct Hw|]. rewrite app_nil_r. by apply json_unit_ends.
  - destruct (is_high_surrogate c) eqn:Hh; cbn [andb] in Hw.
    + destruct (is_low_surrogate d) eqn:Hl; apply list.Forall_cons in Hw as [Hc Hw].
      * apply (Happ [c; d]); [cbn in Hlen; lia|done|]. exists d. split; [done|by apply low_is_not_high].
      * cbn in Hc. rewrite Hh in Hc. by destruct Hc.
    + apply list.Forall_cons in Hw as [Hc Hw]. destruct (is_low_surrogate c); [apply Happ; [cbn in *; lia|done|apply unicode_escape_ends]|].
      apply Happ; [cbn in *; lia|done|by apply json_unit_ends].
Qed.
Lemma replace_unit_ends from to s : ends_whole to → ends_whole s → ends_whole (replace_unit from to s).
Proof.
  intros Hto (c & Hc & Hh). unfold replace_unit. destruct s as [|x s _] using rev_ind; [done|]. rewrite last_snoc in Hc. injection Hc as ->.
  rewrite fmap_app, concat_app. cbn. rewrite app_nil_r. destruct (N.eqb c from).
  - apply ends_whole_app; [|done]. destruct Hto as (y & Hy & _). by intros ->.
  - by apply ends_whole_snoc.
Qed.
Lemma escaped_ends s : s ≠ [] → ends_whole (concat (unicodeEscapeOf <$> s)).
Proof.
  intros Hne. apply concat_ends; [by destruct s|]. apply Forall_fmap, list.Forall_true. intros c. unfold compose, unicodeEscapeOf.
  destruct (N.leb_spec c 127); [|apply unicode_escape_ends]. exists c. split; [done|]. apply small_is_not_high. lia.
Qed.
Lemma formsOf_end_whole value forms : value ≠ [] → formsOf value = Some forms → Forall ends_whole forms.
Proof.
  intros Hne. unfold formsOf. destruct (encodeURIComponent value) as [url|] eqn:Hurl; [|done]. cbn.
  destruct (utf8 value) as [bytes|] eqn:Hutf; [|done]. cbn. intros [= <-].
  assert (Hu : ends_whole url) by (by eapply url_encoded_ends).
  assert (Hw : whole_string value ∧ bytes ≠ []).
  { unfold utf8 in Hutf. destruct (mapM _ _) as [l|] eqn:Hm; [|done]. cbn in Hutf. injection Hutf as <-. apply mapM_whole in Hm as (Hw & Hlen & Hb).
    split; [done|]. pose proof (points_nonempty value Hne). destruct l as [|x l]; [by destruct (code_points value)|]. apply list.Forall_cons in Hb as [Hx _]. by destruct x. }
  destruct Hw as [Hw Hbytes].
  assert (Hj : ends_whole (json_units value)) by (by eapply json_units_ends).
  assert (Hjne : json_units value ≠ []) by (destruct Hj as (y & Hy & _); by intros E; rewrite E in Hy).
  repeat (apply list.Forall_cons; split); [|done| | | |done| | | |constructor].
  - rewrite <- (code_points_concat value). apply concat_ends; [by apply points_nonempty|by apply whole_points].
  - by eapply plus_for_space_ends.
  - by eapply base64_ends.
  - by eapply base64_ends.
  - by apply escaped_ends.
  - apply replace_unit_ends; [by eexists|done].
  - apply replace_unit_ends; [by eexists|by apply escaped_ends].
Qed.

(** ** The spellings of the secrets *)
Lemma add_owner_keys name owners form k : k ∈ (add_owner name owners form).*1 ↔ k ∈ owners.*1 ∨ k = form.
Proof.
  unfold add_owner. destruct (has_own owners form) eqn:E.
  - apply has_own_keys in E. naive_solver.
  - rewrite fmap_app, elem_of_app. cbn. by rewrite list_elem_of_singleton.
Qed.
Lemma add_owners_keys name forms : ∀ owners k, k ∈ (fold_left (add_owner name) forms owners).*1 ↔ k ∈ owners.*1 ∨ k ∈ forms.
Proof.
  induction forms as [|f forms IH]; intros owners k; cbn [fold_left]; [rewrite elem_of_nil; naive_solver|].
  rewrite IH, add_owner_keys, elem_of_cons. naive_solver.
Qed.
Lemma namesBySpelling_keys named k :
  k ∈ (namesBySpelling named).*1 ↔ ∃ name forms form, (name, forms) ∈ named ∧ form ∈ forms ∧ k = withLowercaseHex form.
Proof.
  unfold namesBySpelling. rewrite (fmap_Permutation _ _ _ (sort_by_perm _ _)).
  assert (Hgo : ∀ owners, k ∈ (fold_left add_secret named owners).*1 ↔
    k ∈ owners.*1 ∨ ∃ name forms form, (name, forms) ∈ named ∧ form ∈ forms ∧ k = withLowercaseHex form).
  { induction named as [|[name forms] named IH]; intros owners; cbn [fold_left]; [split; [by left|intros [?|(? & ? & ? & Hn & _)]; [done|by apply elem_of_nil in Hn]]|].
    rewrite IH. unfold add_secret. cbn [fst snd]. rewrite add_owners_keys. split.
    - intros [[?|(form & -> & Hform)%list_elem_of_fmap]|(n & fs & form & Hin & Hform & ->)]; [by left|right..].
      + exists name, forms, form. split_and!; [left|done|done].
      + exists n, fs, form. split_and!; [by right|done|done].
    - intros [?|(n & fs & form & Hin & Hform & ->)]; [by left; left|]. apply elem_of_cons in Hin as [[= -> ->]|Hin]; [left; right; apply list_elem_of_fmap; eauto|right; eauto 6]. }
  rewrite Hgo. cbn. rewrite elem_of_nil. naive_solver.
Qed.
Lemma named_owner named k name : (k, name) ∈ namesBySpelling named → ∃ forms form, (name, forms) ∈ named ∧ form ∈ forms ∧ k = withLowercaseHex form.
Proof.
  unfold namesBySpelling. rewrite (sort_by_perm _ _).
  assert (Hforms : ∀ n forms owners, (k, name) ∈ fold_left (add_owner n) forms owners → (k, name) ∈ owners ∨ name = n ∧ k ∈ forms).
  { intros n forms. induction forms as [|f forms IH]; intros owners; cbn [fold_left]; [by left|]. intros [Hin|[-> Hin]]%IH; [|right; split; [done|by right]]. unfold add_owner in Hin. destruct (has_own owners f); [by left|].
    apply elem_of_app in Hin as [Hin|[= -> ->]%list_elem_of_singleton]; [by left|right; split; [done|by left]]. }
  assert (Hgo : ∀ owners, (k, name) ∈ fold_left add_secret named owners → (k, name) ∈ owners ∨ ∃ forms form, (name, forms) ∈ named ∧ form ∈ forms ∧ k = withLowercaseHex form).
  { induction named as [|[n forms] named IH]; intros owners; cbn [fold_left]; [by left|]. intros [Hin|(fs & form & Hin & ?)]%IH; [|right; exists fs, form; split; [by right|done]].
    apply Hforms in Hin as [Hin|[-> (form & -> & Hform)%list_elem_of_fmap]]; [by left|right]. exists forms, form. split; [by left|done]. }
  intros [Hin|?]%Hgo; [by apply elem_of_nil in Hin|done].
Qed.
(** Some form of some secret. *)
Definition spelling_of (secrets : list SecretToMask) (form : str) : Prop :=
  ∃ secret forms, secret ∈ secrets ∧ formsOf (secret_value secret) = Some forms ∧ form ∈ forms.
Lemma named_keys secrets named k : mapM named_forms secrets = Some named →
  k ∈ (namesBySpelling named).*1 ↔ ∃ form, spelling_of secrets form ∧ k = withLowercaseHex form.
Proof.
  intros Hm. rewrite namesBySpelling_keys. apply mapM_Some in Hm. unfold spelling_of. split.
  - intros (name & forms & form & Hin & Hform & ->). apply list_elem_of_lookup in Hin as (i & Hi).
    destruct (Forall2_lookup_r _ _ _ _ _ Hm Hi) as (secret & Hs & Hn). unfold named_forms in Hn.
    destruct (formsOf (secret_value secret)) as [f|] eqn:E; [|done]. cbn in Hn. injection Hn as <- <-.
    exists form. split; [|done]. exists secret, f. split_and!; [by eapply list_elem_of_lookup_2|done|done].
  - intros (form & (secret & forms & Hin & Hf & Hform) & ->). apply list_elem_of_lookup in Hin as (i & Hi).
    destruct (Forall2_lookup_l _ _ _ _ _ Hm Hi) as ([name f] & Hs & Hn). unfold named_forms in Hn. rewrite Hf in Hn. cbn in Hn. injection Hn as <- <-.
    eexists _, _, form. split_and!; [by eapply list_elem_of_lookup_2|done|done].
Qed.

(** A text is a form of a secret of that name, up to the case of the hexadecimal sequences. *)
Definition owned_by (secrets : list SecretToMask) (name found : str) : Prop :=
  ∃ secret forms form, secret ∈ secrets ∧ secret_name secret = name ∧ formsOf (secret_value secret) = Some forms ∧ form ∈ forms ∧ withLowercaseHex found = withLowercaseHex form.
Lemma owner_of secrets named found name : mapM named_forms secrets = Some named → get (namesBySpelling named) (withLowercaseHex found) = Some name → owned_by secrets name found.
Proof.
  intros Hm%mapM_Some (forms & form & Hin & Hform & E)%get_sound%named_owner. apply list_elem_of_lookup in Hin as (i & Hi). destruct (Forall2_lookup_r _ _ _ _ _ Hm Hi) as (secret & Hs & Hn). unfold named_forms in Hn.
  destruct (formsOf (secret_value secret)) as [f|] eqn:Ef; [|done]. cbn in Hn. injection Hn as <- <-. exists secret, f, form. split_and!; try done. by eapply list_elem_of_lookup_2.
Qed.
(** C28. Masking leaves no piece of a secret.  The output is the text up to a cut (all of it when it
    is short enough, else at most the ceiling, followed by the truncation marker) in which
    some stretches are replaced by markers; every occurrence of a form of a secret that
    starts before the cut ends before it and is replaced, every one of its units, and no other unit is;
    a stretch that is replaced has a marker, and each of its markers has the name of a secret a form of
    which is in that stretch, up to the case of hexadecimal sequences. *)
Theorem masking_leaves_no_piece secrets maxInputChars masker text :
  createSecretMasker secrets maxInputChars = Created masker →
  ∃ cut segments last suffix,
    masker text = rendered segments ++ last ++ suffix ∧ take cut text = original segments ++ last ∧
    (length text ≤ maxInputChars → cut = length text ∧ suffix = []) ∧
    (maxInputChars < length text → cut ≤ maxInputChars ∧ suffix = TRUNCATION_MARKER) ∧
    (∀ before form after, text = before ++ form ++ after → spelling_of secrets form → length before < cut →
      length before + length form ≤ cut ∧ ∀ p, length before ≤ p < length before + length form → flags segments !! p = Some true) ∧
    (∀ p, p < cut → flags segments !! p = Some true → ∃ before found after name, text = before ++ found ++ after ∧ length before ≤ p < length before + length found ∧ owned_by secrets name found) ∧
    ∀ g, g ∈ segments → (hidden g ≠ [] → names g ≠ []) ∧ ∀ name, name ∈ names g → ∃ a found b, hidden g = a ++ found ++ b ∧ owned_by secrets name found.
Proof.
  unfold createSecretMasker. destruct (omap assertMaskable secrets) as [|code] eqn:Hok; [|done].
  destruct (mapM named_forms secrets) as [named|] eqn:Hnamed; [|done]. intros [= <-].
  assert (Hvalue : ∀ secret, secret ∈ secrets → secret_value secret ≠ []).
  { intros secret Hin E. assert (Hnone : assertMaskable secret = None).
    { destruct (assertMaskable secret) as [code|] eqn:Ec; [|done]. assert (code ∈ omap assertMaskable secrets) by (apply list_elem_of_omap; eauto).
      rewrite Hok in *. by apply elem_of_nil in H. }
    unfold assertMaskable in Hnone. rewrite E in Hnone. cbn in Hnone. by destruct (SECRET_NAME _). }
  assert (Hlow : spelled_low (namesBySpelling named)). { intros k (form & _ & ->)%(named_keys secrets named k Hnamed). apply lowercase_idem. }
  destruct (mask_hides (namesBySpelling named)) with (text := text) (maxInputChars := maxInputChars)
    as (cut & segments & last & suffix & H1 & H2 & H3 & H4 & H5 & H6 & H7).
  { apply sort_by_sorted. }
  { apply Stdlib.Lists.List.Forall_forall. intros [k name] Hk%list_elem_of_In.
    assert (Hkey : k ∈ (namesBySpelling named).*1) by (apply list_elem_of_fmap; by exists (k, name)).
    apply (named_keys secrets named k Hnamed) in Hkey as (form & (secret & forms & Hin & Hf & Hform) & ->). cbn.
    apply ends_whole_lowered. pose proof (formsOf_end_whole _ _ (Hvalue secret Hin) Hf) as Hall. rewrite Stdlib.Lists.List.Forall_forall in Hall.
    by apply Hall, list_elem_of_In. }
  { done. }
  exists cut, segments, last, suffix. split_and!; [done..| | |].
  - intros before form after Etext Hs Hlt. assert (Ho : occurs (namesBySpelling named) text (withLowercaseHex form) (length before)).
    { split; [apply (named_keys secrets named _ Hnamed); by exists form|]. rewrite Etext, drop_app_length. apply form_matches. }
    pose proof (H5 _ _ Ho Hlt) as Hend. rewrite withLowercaseHex_length in Hend. split; [done|]. intros p Hp. apply H6; [lia|].
    exists (withLowercaseHex form), (length before). rewrite withLowercaseHex_length. split; [done|lia].
  - intros p Hp (spelling & i & [Hin Hpat] & Hi)%H6; [|done]. pose proof (patternOf_length _ _ Hpat) as Hl. rewrite length_drop in Hl.
    assert (∃ name, get (namesBySpelling named) spelling = Some name) as (name & Hname). { apply has_own_get, has_own_keys, Hin. }
    exists (take i text), (take (length spelling) (drop i text)), (drop (length spelling) (drop i text)), name. rewrite !take_drop, !length_take, length_drop, !Nat.min_l by lia. split_and!; [done|lia|lia|].
    eapply owner_of; [done|]. by rewrite (found_spelling _ _ Hpat), (Hlow _ Hin).
  - intros g Hg. destruct (H7 g Hg) as [Hne Hn]. split; [done|]. intros name (a & found & b & E & Ho)%Hn. exists a, found, b. split; [done|]. by eapply owner_of.
Qed.

Definition sample_secrets : list SecretToMask := [mkSecret (js "KEY") (js "hunter22 x")].
Definition sample_masker : str → str := match createSecretMasker sample_secrets 20 with Created m => m | _ => id end.
Lemma sample_masker_created : createSecretMasker sample_secrets 20 = Created sample_masker.
Proof. reflexivity. Qed.
Example sample_cut : sample_masker (js "please say hunter22 x twice") = js "please say [truncated]".
Proof. vm_compute. reflexivity. Qed.
Lemma sample_masked : sample_masker (js "say hunter22 x twice") = js "say [secret:KEY] twice".
Proof. vm_compute. reflexivity. Qed.
Lemma masking_leaves_no_piece_witness :
  ∃ segments last, js "say [secret:KEY] twice" = rendered segments ++ last ∧ js "say hunter22 x twice" = original segments ++ last ∧ (∀ p, 4 ≤ p < 14 → flags segments !! p = Some true)
    ∧ ∀ g name, g ∈ segments → name ∈ names g → name = js "KEY".
Proof.
  destruct (masking_leaves_no_piece sample_secrets 20 sample_masker (js "say hunter22 x twice") sample_masker_created)
    as (cut & segments & last & suffix & H1 & H2 & H3 & _ & H5 & _ & H7). rewrite sample_masked in H1. destruct H3 as [-> ->]; [vm_compute; lia|]. rewrite app_nil_r in H1.
  exists segments, last. split_and!; [exact H1|rewrite <- H2; reflexivity| |].
  - intros p Hp. apply (H5 (js "say ") (js "hunter22 x") (js " twice")); [reflexivity| |vm_compute; lia|exact Hp]. eexists (mkSecret (js "KEY") (js "hunter22 x")), _. split_and!; [left|vm_compute; reflexivity|left].
  - intros g name Hg Hn. destruct (H7 g Hg) as [_ Hnames]. destruct (Hnames name Hn) as (_ & _ & _ & _ & secret & _ & _ & Hin & <- & _). apply list_elem_of_singleton in Hin as ->. reflexivity.
Defined.
