(* ===== verification/TodoCalls.v ===== *)
(** * Todo calls: what is read of a hook or of a transcript

    Models of [packages/core/src/todos/todoText.ts] and [todoHookCall.ts], with the constants
    of [packages/shared/src/todos.ts].  A payload is a [value] parsed from JSON; narrowing
    reads a few capped scalars of it.  Unicode normalisation and the masking of credentials
    ([redact.ts]) are operations of the interface [TextTools]: nothing is assumed of them. *)
From S2P Require Import Prelude JsText Regex PolicyTypes PlaybookKernel.

Inductive TodoStatus := Pending | InProgress | Completed.
#[export] Instance TodoStatus_eq_dec : EqDecision TodoStatus.
Proof. solve_decision. Defined.
Definition TODO_STATUSES : rec TodoStatus := [(js "pending", Pending); (js "in_progress", InProgress); (js "completed", Completed)].
Inductive TodoSource := TaskTools | TodoWriteTool.
Inductive TodoToolName := TaskCreate | TaskUpdate | TaskList | TodoWrite.
#[export] Instance TodoToolName_eq_dec : EqDecision TodoToolName.
Proof. solve_decision. Defined.
Definition TODO_TOOL_NAMES : rec TodoToolName :=
  [(js "TaskCreate", TaskCreate); (js "TaskUpdate", TaskUpdate); (js "TaskList", TaskList); (js "TodoWrite", TodoWrite)].
Definition MAX_TODO_ITEMS : nat := 100.
Definition MAX_TRACKED_TASKS : nat := 500.
Definition MAX_TODO_TEXT : nat := 200.
Definition MAX_PENDING_CALLS : nat := 100.
Definition MAX_HOOK_LIST_ENTRIES : nat := MAX_TRACKED_TASKS.
Definition SEEN_CALLS_KEPT : nat := Z.to_nat 2000.

(** ** Texts *)
Class TextTools := {
  normalizeNFC : str → str;
  maskedSecrets : str → str;
  maskingCutCredential : str → str;
}.

Definition TODO_TEXT_HEAD_LENGTH : nat := MAX_TODO_TEXT * 2.
Definition ELLIPSIS : str := [8230%N].
Definition CONTROL_CODE_POINT_RANGES : list (N * N) :=
  [(0, 31); (127, 159); (8206, 8207); (8232, 8233); (8234, 8238); (8294, 8297)]%N.
Definition CONTROLS_AND_WHITESPACE (c : N) : bool :=
  existsb (λ range : N * N, in_range range.1 range.2 c) CONTROL_CODE_POINT_RANGES || is_space c.

(** [text.replace(CONTROLS_AND_WHITESPACE, ' ')]: each run becomes one space. *)
Fixpoint runs_to_space (inside : bool) (s : str) : str :=
  match s with
  | [] => []
  | c :: rest =>
      if CONTROLS_AND_WHITESPACE c then (if inside then [] else [32%N]) ++ runs_to_space true rest
      else c :: runs_to_space false rest
  end.
(** [text.replace(LONE_SURROGATE, U+FFFD)]; [previous] is the unit before. *)
Fixpoint without_lone_surrogates (previous : option N) (s : str) : str :=
  match s with
  | [] => []
  | c :: rest =>
      let followed := match rest with d :: _ => is_low_surrogate d | [] => false end in
      let preceded := match previous with Some p => is_high_surrogate p | None => false end in
      let lone := (is_high_surrogate c && negb followed) || (is_low_surrogate c && negb preceded) in
      (if lone then 65533%N else c) :: without_lone_surrogates (Some c) rest
  end.
Definition cutToMaxText (text : str) : str :=
  if Nat.leb (length text) MAX_TODO_TEXT then text
  else
    let room := MAX_TODO_TEXT - length ELLIPSIS in
    let cutsASurrogatePair := match text !! (room - 1) with Some c => is_high_surrogate c | None => false end in
    take (if cutsASurrogatePair then room - 1 else room) text ++ ELLIPSIS.

Section Narrowing.
Context `{JsNumbers} `{TextTools}.

Definition normalisedTodoText (raw : str) : str :=
  let wasCutByTheHead := Nat.leb TODO_TEXT_HEAD_LENGTH (length raw) in
  let oneLine := trim (runs_to_space false (normalizeNFC (without_lone_surrogates None (take TODO_TEXT_HEAD_LENGTH raw)))) in
  let withoutCutCredential := if wasCutByTheHead then maskingCutCredential oneLine else oneLine in
  cutToMaxText (maskedSecrets withoutCutCredential).

(** ** Narrowed calls *)
Definition MAX_TOOL_USE_ID_LENGTH : nat := 128.
Definition SHORT_TOKEN_HEAD_LENGTH : nat := 64.

Inductive TodoTaskId := IdText (s : str) | IdNumber (n : number).
Record TodoEntry := mkTodoEntry { entry_id : option TodoTaskId; entry_subject : option str; entry_status : option str }.
Record TodoWriteEntry := mkWriteEntry { entry_content : option str; write_status : option str; entry_activeForm : option str }.
Record TodoCallInput := mkInput
  { input_subject : option str; input_activeForm : option str; input_status : option str; input_taskId : option TodoTaskId;
    input_todos : option (list TodoWriteEntry); todosBeyondCap : option nat }.
Record TodoCallResponse := mkResponse
  { response_task : option (option TodoTaskId * option str); response_taskId : option TodoTaskId; response_success : option bool;
    response_toStatus : option str; response_tasks : option (list TodoEntry); tasksBeyondCap : option nat }.
Record NarrowedTodoCall := mkNarrowed { narrowed_input : TodoCallInput; narrowed_response : option TodoCallResponse }.
Record TodoHookCall := mkHookCall { hook_toolUseId : str; hook_name : TodoToolName; hook_call : NarrowedTodoCall }.

Definition isPlainObject (v : value) : bool := match v with VObject _ | VInstance => true | _ => false end.
Definition member (v : value) (name : string) : value := default VUndefined (own_member v (js name)).
Definition isTodoToolName (v : value) : option TodoToolName := match v with VString s => get TODO_TOOL_NAMES s | _ => None end.

Definition textOf (v : value) : option str :=
  match v with
  | VString s => let text := normalisedTodoText s in if Nat.ltb 0 (length text) then Some text else None
  | _ => None
  end.
Definition headOfShortToken (v : value) : option str := match v with VString s => Some (take SHORT_TOKEN_HEAD_LENGTH s) | _ => None end.
Definition idOf (v : value) : option TodoTaskId :=
  match v with VNumber n => if isFinite n then Some (IdNumber n) else None | _ => IdText <$> headOfShortToken v end.
Definition flagOf (v : value) : option bool := match v with VBool b => Some b | _ => None end.

Definition firstEntriesOf {T} (list_value : value) (limit : nat) (readEntry : value → T) : option (list T * nat) :=
  match list_value with
  | VArray elements => Some ((λ e, readEntry (default VUndefined e)) <$> take limit elements, length elements - limit)
  | _ => None
  end.
Definition positive (n : nat) : option nat := if Nat.ltb 0 n then Some n else None.

Definition todoEntryOf (entry : value) : TodoEntry :=
  if isPlainObject entry then mkTodoEntry (idOf (member entry "id")) (textOf (member entry "subject")) (headOfShortToken (member entry "status"))
  else mkTodoEntry None None None.
Definition todoWriteEntryOf (entry : value) : TodoWriteEntry :=
  if isPlainObject entry then mkWriteEntry (textOf (member entry "content")) (headOfShortToken (member entry "status")) (textOf (member entry "activeForm"))
  else mkWriteEntry None None None.
Definition no_input : TodoCallInput := mkInput None None None None None None.
Definition narrowedInput (input : value) : TodoCallInput :=
  if isPlainObject input then
    let todos := firstEntriesOf (member input "todos") MAX_TODO_ITEMS todoWriteEntryOf in
    mkInput (textOf (member input "subject")) (textOf (member input "activeForm")) (headOfShortToken (member input "status"))
      (idOf (member input "taskId")) (fst <$> todos) (todos ≫= λ t, positive t.2)
  else no_input.
Definition narrowedResponse (response : value) : option TodoCallResponse :=
  if isPlainObject response then
    let task := member response "task" in
    let statusChange := member response "statusChange" in
    let tasks := firstEntriesOf (member response "tasks") MAX_HOOK_LIST_ENTRIES todoEntryOf in
    Some (mkResponse
      (if isPlainObject task then Some (idOf (member task "id"), textOf (member task "subject")) else None)
      (idOf (member response "taskId")) (flagOf (member response "success"))
      (if isPlainObject statusChange then headOfShortToken (member statusChange "to") else None)
      (fst <$> tasks) (tasks ≫= λ t, positive t.2))
  else None.
Definition narrowTodoCall (rawInput rawResponse : value) : NarrowedTodoCall :=
  mkNarrowed (narrowedInput rawInput) (narrowedResponse rawResponse).

(** The fields of a PostToolUse event that are read. *)
Record PostToolUse := mkPostToolUse { tool_name : value; tool_use_id : value; tool_input : value; tool_response : value }.
Definition narrowTodoHookCall (event : PostToolUse) : option TodoHookCall :=
  match isTodoToolName (tool_name event), tool_use_id event with
  | Some name, VString toolUseId =>
      if Nat.ltb 0 (length toolUseId) && Nat.leb (length toolUseId) MAX_TOOL_USE_ID_LENGTH
      then Some (mkHookCall toolUseId name (narrowTodoCall (tool_input event) (tool_response event)))
      else None
  | _, _ => None
  end.
End Narrowing.

(** ** Bounds *)
Lemma cutToMaxText_length text : length (cutToMaxText text) ≤ MAX_TODO_TEXT.
Proof.
  unfold cutToMaxText. destruct (Nat.leb_spec (length text) MAX_TODO_TEXT) as [?|?]; [done|].
  rewrite length_app. etransitivity; [apply Nat.add_le_mono_r, firstn_le_length|].
  change (length ELLIPSIS) with 1. destruct (match _ with Some _ => _ | None => _ end); unfold MAX_TODO_TEXT; lia.
Qed.
Lemma normalisedTodoText_length `{TextTools} raw : length (normalisedTodoText raw) ≤ MAX_TODO_TEXT.
Proof. apply cutToMaxText_length. Qed.
