(* ===== verification/TodoFold.v ===== *)
(** * The fold of todo calls

    Model of [packages/core/src/todos/todoFold.ts]: the list of tasks a session holds, rebuilt
    from the completed calls a hook or a transcript delivers.  A [Map] is its entries in
    insertion order and a [Set] the list of its members; rows are only reachable through the
    map, so an update in place is a [put].  [now] gives the successive readings of the clock;
    [Date.parse] and [JSON.parse] are parameters.  Dates are epoch milliseconds. *)
From S2P Require Import Prelude JsText Regex PolicyTypes PlaybookKernel TodoCalls.

Definition MAX_TRANSCRIPT_LINE_CHARS : Z := 1024 * 1024.
Definition FUTURE_TOLERANCE_MS : Z := 60000.
Definition MAX_SAFE_INTEGER : Z := 9007199254740991.
Definition task_id_unit (c : N) : bool := is_alnum c || mem_chr c (js "_.:-").
Definition TASK_ID (s : str) : bool := Nat.leb 1 (length s) && Nat.leb (length s) 32 && forallb task_id_unit s.
(** [/Task #(\d{1,9})\b/] at the start of a text: backtracking over the digits never helps, as
    a digit is a word character. *)
Definition created_id_at (s : str) : option str :=
  if startsWith s (js "Task #") then
    let digits := take_while is_digit (drop 6 s) in
    let next_is_word := match drop (6 + length digits) s with c :: _ => is_word c | [] => false end in
    if Nat.leb 1 (length digits) && Nat.leb (length digits) 9 && negb next_is_word then Some digits else None
  else None.
Fixpoint CREATED_TASK_ID_IN_RESULT_TEXT (s : str) : option str :=
  match created_id_at s with
  | Some id => Some id
  | None => match s with [] => None | _ :: rest => CREATED_TASK_ID_IN_RESULT_TEXT rest end
  end.
Definition DELETED_STATUS : str := js "deleted".

Record TaskRow := mkRow { id : str; content : str; status : TodoStatus; activeForm : option str; unnamed : bool; unverified : bool }.

Section Fold.
Context `{JsNumbers} `{TextTools}.
Variable now : nat → Z.
Variable Date_parse : str → option Z.
Variable JSON_parse : str → option value.

Record PendingCall := mkPending { pending_name : TodoToolName; pending_input : TodoCallInput }.
Record TodoFold := mkFold
  { notBefore : option Z; tasks : rec TaskRow; untrackedTasks : nat; untrackedTaskIds : list str; seenCalls : list str;
    pendingCalls : rec PendingCall; source : option TodoSource; updatedAt : option Z; readings : nat }.
Record CompletedCall := mkCall
  { toolUseId : str; name : TodoToolName; input : TodoCallInput; response : option TodoCallResponse; at_ : option str }.

Definition createTodoFold (not_before : option Z) : TodoFold := mkFold not_before [] 0 [] [] [] None None 0.

Definition set_tasks (f : TodoFold) (t : rec TaskRow) : TodoFold :=
  mkFold (notBefore f) t (untrackedTasks f) (untrackedTaskIds f) (seenCalls f) (pendingCalls f) (source f) (updatedAt f) (readings f).
Definition set_untracked (f : TodoFold) (n : nat) (ids : list str) : TodoFold :=
  mkFold (notBefore f) (tasks f) n ids (seenCalls f) (pendingCalls f) (source f) (updatedAt f) (readings f).
Definition set_seen (f : TodoFold) (seen : list str) : TodoFold :=
  mkFold (notBefore f) (tasks f) (untrackedTasks f) (untrackedTaskIds f) seen (pendingCalls f) (source f) (updatedAt f) (readings f).
Definition set_pending (f : TodoFold) (p : rec PendingCall) : TodoFold :=
  mkFold (notBefore f) (tasks f) (untrackedTasks f) (untrackedTaskIds f) (seenCalls f) p (source f) (updatedAt f) (readings f).

(** ** Reading the scalars of a call *)
Definition optionalText (v : option str) : option str :=
  match v with Some s => let text := normalisedTodoText s in if Nat.ltb 0 (length text) then Some text else None | None => None end.
Definition taskIdOf (v : option TodoTaskId) : option str :=
  match v with
  | Some (IdNumber n) => if isSafeInteger n then (if TASK_ID (number_text n) then Some (number_text n) else None) else None
  | Some (IdText s) => if TASK_ID s then Some s else None
  | None => None
  end.
Definition statusOf (v : option str) : option TodoStatus := v ≫= get TODO_STATUSES.
Definition rowOf (row_id row_content : str) (row_status : TodoStatus) (form : option str) (is_unnamed : bool) : TaskRow :=
  mkRow row_id row_content row_status (match form with Some [] => None | _ => form end) is_unnamed false.
Definition countOfExcess (v : option nat) : nat :=
  match v with Some n => if Z.leb (Z.of_nat n) MAX_SAFE_INTEGER && Nat.ltb 0 n then n else 0 | None => 0 end.

(** ** Untracked tasks *)
Definition remove_str (s : str) (l : list str) : list str := filter (λ x, x ≠ s) l.
Definition hasRoomForANewTask (f : TodoFold) : bool := Nat.ltb (length (tasks f)) MAX_TRACKED_TASKS.
Definition countAsUntracked (f : TodoFold) (task_id : str) : TodoFold :=
  if mem_str task_id (untrackedTaskIds f) then f
  else if Nat.ltb (length (untrackedTaskIds f)) MAX_TRACKED_TASKS then set_untracked f (untrackedTasks f) (untrackedTaskIds f ++ [task_id])
  else set_untracked f (untrackedTasks f + 1) (untrackedTaskIds f).
Definition forgetUntrackedTasks (f : TodoFold) (overflow : nat) : TodoFold := set_untracked f overflow [].

Definition stampOf (f : TodoFold) (at_text : option str) : Z :=
  let current := now (readings f) in
  let claimedTime := match at_text with Some t => if Nat.leb (length t) 64 then Date_parse t else None | None => None end in
  match claimedTime with
  | Some t =>
      let isNotInTheFuture := Z.leb t (current + FUTURE_TOLERANCE_MS) in
      let isNotBeforeTheSession := match notBefore f with None => true | Some b => Z.leb b t end in
      if isNotInTheFuture && isNotBeforeTheSession then t else current
  | None => current
  end.

(** ** Unverified rows *)
Definition with_unverified (flag : bool) (r : TaskRow) : TaskRow :=
  mkRow (id r) (content r) (status r) (activeForm r) (unnamed r) flag.
Definition markRowsUnverified (f : TodoFold) : TodoFold := set_tasks f ((λ e : str * TaskRow, (e.1, with_unverified true e.2)) <$> tasks f).
Definition clearUnverified (f : TodoFold) (task_id : option str) : TodoFold :=
  match task_id with
  | Some k => match get (tasks f) k with Some row => set_tasks f (put (tasks f) k (with_unverified false row)) | None => f end
  | None => f
  end.
Definition listedIdsOf (r : option TodoCallResponse) : list (option str) :=
  match r ≫= response_tasks with Some listed => (λ e, taskIdOf (entry_id e)) <$> listed | None => [] end.
Definition or_else {A} (a b : option A) : option A := match a with Some _ => a | None => b end.
Definition CONCERNED_IDS_OF_TOOL (tool : TodoToolName) (f : TodoFold) (i : TodoCallInput) (r : option TodoCallResponse) : list (option str) :=
  match tool with
  | TaskCreate => [taskIdOf ((r ≫= response_task) ≫= fst)]
  | TaskUpdate => [or_else (taskIdOf (r ≫= response_taskId)) (taskIdOf (input_taskId i))]
  | TaskList => listedIdsOf r
  | TodoWrite => Some <$> (tasks f).*1
  end.
Definition failed (r : option TodoCallResponse) : bool := match r ≫= response_success with Some false => true | _ => false end.
Definition confirmSeenCall (f : TodoFold) (call : TodoHookCall) : TodoFold :=
  let r := narrowed_response (hook_call call) in
  if failed r then f
  else fold_left clearUnverified (CONCERNED_IDS_OF_TOOL (hook_name call) f (narrowed_input (hook_call call)) r) f.
Definition forgetGhostRow (f : TodoFold) (task_id : str) : TodoFold * bool :=
  let isGhost := match get (tasks f) task_id with Some row => unverified row | None => false end in
  (if isGhost then set_tasks f (del (tasks f) task_id) else f, isGhost).

(** ** Applying a call *)
Definition add_row (f : TodoFold) (row : TaskRow) : TodoFold :=
  set_tasks (set_untracked f (untrackedTasks f) (remove_str (id row) (untrackedTaskIds f))) (put (tasks f) (id row) row).

Definition applyTaskCreate (f : TodoFold) (i : TodoCallInput) (r : option TodoCallResponse) : TodoFold * bool :=
  match taskIdOf ((r ≫= response_task) ≫= fst) with
  | None => (f, false)
  | Some k =>
      let text := or_else (optionalText (input_subject i)) (optionalText ((r ≫= response_task) ≫= snd)) in
      let form := optionalText (input_activeForm i) in
      match get (tasks f) k, text with
      | Some existing, Some t =>
          if unnamed existing then (set_tasks f (put (tasks f) k (rowOf k t (status existing) (or_else form (activeForm existing)) false)), true)
          else (set_tasks f (put (tasks f) k (rowOf k t Pending form false)), true)
      | Some _, None => (f, true)
      | None, None => (f, false)
      | None, Some t =>
          if str_eqb t [] then (f, false)
          else if negb (hasRoomForANewTask f) then (countAsUntracked f k, true)
          else (add_row f (rowOf k t Pending form false), true)
      end
  end.

(** The row after an update of the fields the call gives. *)
Definition updated_row (row : TaskRow) (new_status : option TodoStatus) (subject form : option str) : TaskRow :=
  mkRow (id row)
    (match subject with Some s => if str_eqb s [] then content row else s | None => content row end)
    (default (status row) new_status)
    (match form with Some s => if str_eqb s [] then activeForm row else form | None => activeForm row end)
    (match subject with Some s => if str_eqb s [] then unnamed row else false | None => unnamed row end)
    false.

Definition applyTaskUpdate (f : TodoFold) (i : TodoCallInput) (r : option TodoCallResponse) : TodoFold * bool :=
  match r with
  | None => (f, false)
  | Some answer =>
      match or_else (taskIdOf (response_taskId answer)) (taskIdOf (input_taskId i)) with
      | None => (f, false)
      | Some k =>
          if failed r then forgetGhostRow f k
          else
            let requestedStatus := or_else (input_status i) (response_toStatus answer) in
            if bool_decide (requestedStatus = Some DELETED_STATUS)
            then (set_tasks (set_untracked f (untrackedTasks f) (remove_str k (untrackedTaskIds f))) (del (tasks f) k), true)
            else
              let new_status := statusOf requestedStatus in
              let subject := optionalText (input_subject i) in
              let form := optionalText (input_activeForm i) in
              match get (tasks f) k with
              | Some existing => (set_tasks f (put (tasks f) k (updated_row existing new_status subject form)), true)
              | None =>
                  if negb (hasRoomForANewTask f) then (countAsUntracked f k, true)
                  else (add_row f (rowOf k (default (js "Task #" ++ k) subject) (default Pending new_status) form
                          (match subject with Some (_ :: _) => false | _ => true end)), true)
              end
      end
  end.

Definition listed_row (old : rec TaskRow) (entry : TodoEntry) : option TaskRow :=
  let entry_state := if bool_decide (entry_status entry = Some DELETED_STATUS) then None else Some (default Pending (statusOf (entry_status entry))) in
  match taskIdOf (entry_id entry), optionalText (entry_subject entry), entry_state with
  | Some k, Some t, Some s => Some (rowOf k t s (get old k ≫= activeForm) false)
  | _, _, _ => None
  end.
Definition put_row (rows : rec TaskRow) (row : option TaskRow) : rec TaskRow :=
  match row with Some r => put rows (id r) r | None => rows end.
Definition applyTaskList (f : TodoFold) (_ : TodoCallInput) (r : option TodoCallResponse) : TodoFold * bool :=
  match r ≫= response_tasks with
  | None => (f, false)
  | Some listed =>
      let entries := take MAX_TRACKED_TASKS listed in
      let replacement := fold_left (λ rows entry, put_row rows (listed_row (tasks f) entry)) entries [] in
      (forgetUntrackedTasks (set_tasks f replacement) (length listed - length entries + countOfExcess (r ≫= tasksBeyondCap)), true)
  end.

Definition written_row (position : nat) (entry : TodoWriteEntry) : option TaskRow :=
  t ← optionalText (entry_content entry);
  Some (rowOf (String_of_nat position) t (default Pending (statusOf (write_status entry))) (optionalText (entry_activeForm entry)) false).
Definition applyTodoWrite (f : TodoFold) (i : TodoCallInput) (_ : option TodoCallResponse) : TodoFold * bool :=
  match input_todos i with
  | None => (f, false)
  | Some written =>
      let entries := take MAX_TRACKED_TASKS written in
      let replacement := fold_left put_row (imap written_row entries) [] in
      (forgetUntrackedTasks (set_tasks f replacement) (length written - length entries + countOfExcess (todosBeyondCap i)), true)
  end.

Definition APPLIER_OF_TOOL (tool : TodoToolName) : TodoFold → TodoCallInput → option TodoCallResponse → TodoFold * bool :=
  match tool with TaskCreate => applyTaskCreate | TaskUpdate => applyTaskUpdate | TaskList => applyTaskList | TodoWrite => applyTodoWrite end.
Definition SOURCE_OF_TOOL (tool : TodoToolName) : TodoSource := match tool with TodoWrite => TodoWriteTool | _ => TaskTools end.

(** [set.add(x)], then the oldest member is dropped beyond [kept]. *)
Definition add_member (x : str) (l : list str) : list str := if mem_str x l then l else l ++ [x].
Definition drop_oldest {A} (kept : nat) (l : list A) : list A := if Nat.leb (length l) kept then l else tail l.
Definition rememberCall (f : TodoFold) (call_id : str) : TodoFold := set_seen f (drop_oldest SEEN_CALLS_KEPT (add_member call_id (seenCalls f))).

Definition applyCompletedCall (f : TodoFold) (call : CompletedCall) : TodoFold * bool :=
  if str_eqb (toolUseId call) [] then (f, false)
  else if mem_str (toolUseId call) (seenCalls f) then (f, false)
  else
    let '(f', isApplied) := APPLIER_OF_TOOL (name call) f (input call) (response call) in
    if negb isApplied then (f', false)
    else
      let g := rememberCall f' (toolUseId call) in
      (mkFold (notBefore g) (tasks g) (untrackedTasks g) (untrackedTaskIds g) (seenCalls g) (pendingCalls g)
         (Some (SOURCE_OF_TOOL (name call))) (Some (stampOf g (at_ call))) (S (readings g)), true).

Definition foldHookPayload (f : TodoFold) (call : TodoHookCall) : TodoFold * bool :=
  applyCompletedCall f (mkCall (hook_toolUseId call) (hook_name call) (narrowed_input (hook_call call)) (narrowed_response (hook_call call)) None).

(** ** The transcript *)
Definition parsedObjectOf (line : str) : option value := p ← JSON_parse line; if isPlainObject p then Some p else None.
Definition contentBlocksOf (record : value) : list value :=
  match (if isPlainObject (member record "message") then member (member record "message") "content" else VUndefined) with
  | VArray elements => filter (λ v, isPlainObject v = true) (omap (λ e, e) elements)
  | _ => []
  end.
Definition textOfPart (part : value) : str :=
  match (if isPlainObject part then member part "text" else VUndefined) with VString s => s | _ => [] end.
Definition textOfResultContent (c : value) : str :=
  match c with
  | VString s => s
  | VArray elements => join [LF] ((λ e, match e with Some part => textOfPart part | None => [] end) <$> elements)
  | _ => []
  end.
Definition createdTaskOfResultText (resultContent : value) : option TodoCallResponse :=
  task_id ← CREATED_TASK_ID_IN_RESULT_TEXT (take TODO_TEXT_HEAD_LENGTH (textOfResultContent resultContent));
  Some (mkResponse (Some (Some (IdText task_id), None)) None None None None None).

Definition has_type (block : value) (type : string) : bool := match member block "type" with VString s => str_eqb s (js type) | _ => false end.
Definition rememberPendingCall (f : TodoFold) (block : value) : TodoFold :=
  match isTodoToolName (member block "name"), member block "id" with
  | Some tool, VString k =>
      if has_type block "tool_use" && Nat.ltb 0 (length k) && Nat.leb (length k) MAX_TOOL_USE_ID_LENGTH && negb (mem_str k (seenCalls f))
      then set_pending f (drop_oldest MAX_PENDING_CALLS (put (pendingCalls f) k (mkPending tool (narrowed_input (narrowTodoCall (member block "input") VUndefined)))))
      else f
  | _, _ => f
  end.
Definition is_true (v : value) : bool := match v with VBool b => b | _ => false end.
Definition string_value (v : value) : option str := match v with VString s => Some s | _ => None end.
Definition settlePendingCall (record : value) (f : TodoFold) (block : value) : TodoFold :=
  match (if has_type block "tool_result" then string_value (member block "tool_use_id") else None) with
  | None => f
  | Some k =>
      match get (pendingCalls f) k with
      | None => f
      | Some pending =>
          let g := set_pending f (del (pendingCalls f) k) in
          if is_true (member block "is_error") then g
          else
            let answer := or_else (narrowed_response (narrowTodoCall VUndefined (member record "toolUseResult")))
              (if bool_decide (pending_name pending = TaskCreate) then createdTaskOfResultText (member block "content") else None) in
            (applyCompletedCall g (mkCall k (pending_name pending) (pending_input pending) answer (string_value (member record "timestamp")))).1
      end
  end.
Definition mightConcernTheList (f : TodoFold) (line : str) : bool :=
  existsb (λ tool, includes line tool) TODO_TOOL_NAMES.*1 || existsb (λ k, includes line k) (pendingCalls f).*1.
Definition foldTranscriptLine (f : TodoFold) (line : str) : TodoFold :=
  if str_eqb line [] || Z.ltb MAX_TRANSCRIPT_LINE_CHARS (Z.of_nat (length line)) || negb (mightConcernTheList f line) then f
  else
    match parsedObjectOf line with
    | None => f
    | Some record =>
        if is_true (member record "isSidechain") then f
        else
          let blocks := contentBlocksOf record in
          let g := if has_type record "assistant" then fold_left rememberPendingCall blocks f else f in
          if has_type record "user" then fold_left (settlePendingCall record) blocks g else g
    end.
Definition foldTranscriptText (f : TodoFold) (text : str) : TodoFold := fold_left foldTranscriptLine (split_on LF text) f.

(** ** Snapshots *)
Record TodoCounts := mkCounts { total : nat; completed : nat; inProgress : nat; pending : nat }.
Record SessionTodos := mkTodos
  { sessionId : str; items : list TaskRow; counts : TodoCounts; omitted : nat; todos_source : option TodoSource;
    todos_updatedAt : option Z; stale : bool; incomplete : bool }.
Definition countOf (rows : list TaskRow) (s : TodoStatus) : nat := length (filter (λ row, status row = s) rows).
Definition snapshotOf (f : TodoFold) (session : str) : SessionTodos :=
  let rows := (tasks f).*2 in
  let shown := take MAX_TODO_ITEMS rows in
  mkTodos session shown (mkCounts (length rows) (countOf rows Completed) (countOf rows InProgress) (countOf rows Pending))
    (length rows - length shown + untrackedTasks f + length (untrackedTaskIds f)) (source f) (updatedAt f) false (existsb unnamed rows).
End Fold.

(** [SessionTodosSchema], as a check of a snapshot: what the types do not say already. *)
Definition TodoItemSchema (row : TaskRow) : bool :=
  Nat.leb (length (content row)) MAX_TODO_TEXT && match activeForm row with Some a => Nat.leb (length a) MAX_TODO_TEXT | None => true end.
Definition SessionTodosSchema (todos : SessionTodos) : bool :=
  Nat.leb (length (items todos)) MAX_TODO_ITEMS && forallb TodoItemSchema (items todos).
