(* ===== verification/TodoFoldFacts.v ===== *)
(** * The fold of todo calls: facts

    Whatever hooks and transcripts deliver, the fold keeps its bounds and its snapshot meets
    the schema of the wire; a call folds once whichever source delivers it, and a transcript
    delivers exactly what the hook of the same call does; a session whose calls all arrive
    sees the list its tools hold. *)
From S2P Require Import Prelude JsText Regex PolicyTypes PlaybookKernel TodoCalls TodoFold.

Section Facts.
Context `{JsNumbers} `{TextTools}.
Variable now : nat → Z.
Variable Date_parse : str → option Z.
Variable JSON_parse : str → option value.

(** ** The invariant *)
Definition bounded_text (t : str) : Prop := 1 ≤ length t ≤ MAX_TODO_TEXT.
Record row_ok (e : str * TaskRow) : Prop := mkRowOk {
  row_key : id e.2 = e.1;
  row_id : TASK_ID e.1 = true;
  row_content : bounded_text (content e.2);
  row_form : ∀ a, activeForm e.2 = Some a → bounded_text a;
}.
Record rows_ok (rows : rec TaskRow) : Prop := mkRowsOk {
  each_row : Forall row_ok rows;
  rows_distinct : NoDup rows.*1;
}.
Record fold_ok (f : TodoFold) : Prop := mkFoldOk {
  ok_rows : rows_ok (tasks f);
  ok_tasks : length (tasks f) ≤ MAX_TRACKED_TASKS;
  ok_untracked : NoDup (untrackedTaskIds f);
  ok_untracked_size : length (untrackedTaskIds f) ≤ MAX_TRACKED_TASKS;
  ok_disjoint : ∀ k, k ∈ untrackedTaskIds f → k ∉ (tasks f).*1;
  ok_seen : NoDup (seenCalls f);
  ok_seen_size : length (seenCalls f) ≤ SEEN_CALLS_KEPT;
  ok_pending : NoDup (pendingCalls f).*1;
  ok_pending_size : length (pendingCalls f) ≤ MAX_PENDING_CALLS;
}.

(** *** Texts, identifiers and rows *)
Lemma optionalText_bounded v t : optionalText v = Some t → bounded_text t.
Proof.
  destruct v as [s|]; [|done]. simpl. destruct (Nat.ltb_spec 0 (length (normalisedTodoText s))) as [?|?]; [|done].
  intros [= <-]. split; [lia|apply normalisedTodoText_length].
Qed.
Lemma bounded_not_empty t : bounded_text t → str_eqb t [] = false.
Proof. intros [Hl _]. apply str_eqb_neq. intros ->. simpl in Hl. lia. Qed.
Lemma taskIdOf_TASK_ID v k : taskIdOf v = Some k → TASK_ID k = true.
Proof.
  destruct v as [[s|n]|]; simpl; [| |done].
  - destruct (TASK_ID s) eqn:E; [by intros [= <-]|done].
  - destruct (isSafeInteger n); [|done]. destruct (TASK_ID (number_text n)) eqn:E; [by intros [= <-]|done].
Qed.
Lemma or_else_Some {A} (a b : option A) x : or_else a b = Some x → a = Some x ∨ (a = None ∧ b = Some x).
Proof. destruct a; simpl; auto. Qed.
Lemma position_is_TASK_ID position : position < MAX_TRACKED_TASKS → TASK_ID (String_of_nat position) = true.
Proof.
  assert (Hall : forallb (λ n, TASK_ID (String_of_nat n)) (seq 0 MAX_TRACKED_TASKS) = true) by (vm_compute; reflexivity).
  intros Hp. rewrite forallb_forall in Hall. apply Hall, in_seq. lia.
Qed.
Lemma placeholder_bounded k : TASK_ID k = true → bounded_text (js "Task #" ++ k).
Proof.
  unfold TASK_ID. rewrite !andb_true_iff, !Nat.leb_le. intros [[Hmin Hmax] _]. unfold bounded_text. rewrite length_app.
  change (length (js "Task #")) with 6. unfold MAX_TODO_TEXT. lia.
Qed.
Lemma rowOf_ok k t s form flag :
  TASK_ID k = true → bounded_text t → (∀ a, form = Some a → bounded_text a) → row_ok (k, rowOf k t s form flag).
Proof.
  intros Hk Ht Hf. split; simpl; [done..|]. intros a. destruct form as [[|c form]|]; [done| |done]. intros [= <-]. by apply Hf.
Qed.
Lemma updated_row_ok e s subject form :
  row_ok e → (∀ t, subject = Some t → bounded_text t) → (∀ a, form = Some a → bounded_text a) →
  row_ok (e.1, updated_row e.2 s subject form).
Proof.
  intros [Hk Hid Hc Ha] Hs Hf. split; simpl; [done|done| |].
  - destruct subject as [t|]; [|done]. rewrite (bounded_not_empty t) by eauto. eauto.
  - intros a. destruct form as [t|]; [|eauto]. rewrite (bounded_not_empty t) by eauto. eauto.
Qed.

(** *** Maps of rows *)
Lemma put_length_eq {A} (r : rec A) k v : length (put r k v) = if has_own r k then length r else S (length r).
Proof. rewrite <- (length_fmap fst), put_keys. destruct (has_own r k); rewrite ?length_app, length_fmap; simpl; lia. Qed.
Lemma has_own_del {A} (r : rec A) k j : j ∈ (del r k).*1 ↔ j ≠ k ∧ j ∈ r.*1.
Proof.
  unfold del. rewrite !list_elem_of_fmap. split.
  - intros (e & -> & [Hne He]%list_elem_of_filter). split; [done|by exists e].
  - intros (Hne & e & -> & He). exists e. split; [done|]. by apply list_elem_of_filter.
Qed.
Lemma get_row_ok rows k row : rows_ok rows → get rows k = Some row → row_ok (k, row).
Proof. intros [Hall _] Hg%get_sound. by eapply (proj1 (list.Forall_forall _ _) Hall). Qed.
Lemma put_rows_ok rows k row : rows_ok rows → row_ok (k, row) → rows_ok (put rows k row).
Proof.
  intros [Hall Hnd] Hr. split; [|by apply put_keys_NoDup].
  apply list.Forall_forall. intros e [->|He]%put_elem; [done|]. by eapply (proj1 (list.Forall_forall _ _) Hall).
Qed.
Lemma del_rows_ok rows k : rows_ok rows → rows_ok (del rows k).
Proof. intros [Hall Hnd]. split; [|by apply del_keys_NoDup].
  apply list.Forall_forall. intros e [_ He]%list_elem_of_filter. by eapply (proj1 (list.Forall_forall _ _) Hall). Qed.
Lemma put_row_ok rows row :
  rows_ok rows → (∀ r, row = Some r → row_ok (id r, r)) → rows_ok (put_row rows row) ∧ length (put_row rows row) ≤ S (length rows).
Proof.
  intros Hok Hr. destruct row as [r|]; simpl; [|split; [done|lia]].
  split; [by apply put_rows_ok; auto|apply put_length].
Qed.
Lemma fold_put_row_ok {E} (row_of : E → option TaskRow) (entries : list E) rows :
  rows_ok rows → Forall (λ e, ∀ r, row_of e = Some r → row_ok (id r, r)) entries →
  rows_ok (fold_left (λ rows e, put_row rows (row_of e)) entries rows) ∧
  length (fold_left (λ rows e, put_row rows (row_of e)) entries rows) ≤ length rows + length entries.
Proof.
  revert rows. induction entries as [|e entries IH]; intros rows Hok Hall; simpl; [split; [done|lia]|].
  apply list.Forall_cons in Hall as [He Hall]. destruct (put_row_ok rows (row_of e) Hok He) as [Hok' Hlen].
  destruct (IH _ Hok' Hall) as [? ?]. split; [done|lia].
Qed.
Lemma no_rows_ok : rows_ok [].
Proof. split; simpl; constructor. Qed.

(** *** Operations on the fold *)
Lemma set_tasks_ok f rows :
  fold_ok f → rows_ok rows → length rows ≤ MAX_TRACKED_TASKS → (∀ k, k ∈ untrackedTaskIds f → k ∉ rows.*1) → fold_ok (set_tasks f rows).
Proof. intros [] ? ? ?. by split. Qed.
Lemma set_untracked_ok f n ids :
  fold_ok f → NoDup ids → length ids ≤ MAX_TRACKED_TASKS → (∀ k, k ∈ ids → k ∉ (tasks f).*1) → fold_ok (set_untracked f n ids).
Proof. intros [] ? ? ?. by split. Qed.
Lemma set_pending_ok f p : fold_ok f → NoDup p.*1 → length p ≤ MAX_PENDING_CALLS → fold_ok (set_pending f p).
Proof. intros [] ? ?. by split. Qed.

Lemma put_existing_ok f k row row' :
  fold_ok f → get (tasks f) k = Some row → row_ok (k, row') → fold_ok (set_tasks f (put (tasks f) k row')).
Proof.
  intros Hok Hg Hr. assert (Hown : has_own (tasks f) k = true) by (apply has_own_get; eauto).
  apply set_tasks_ok; [done|by apply put_rows_ok, Hr; apply Hok| |].
  - rewrite put_length_eq, Hown. apply Hok.
  - rewrite put_keys, Hown. apply Hok.
Qed.
Lemma remove_str_sublist s l : remove_str s l `sublist_of` l.
Proof. apply sublist_filter. Qed.
Lemma remove_untracked_ok f k : fold_ok f → fold_ok (set_untracked f (untrackedTasks f) (remove_str k (untrackedTaskIds f))).
Proof.
  intros Hok. apply set_untracked_ok; [done| | |].
  - eapply sublist_NoDup; [apply (ok_untracked _ Hok)|apply remove_str_sublist].
  - etransitivity; [apply sublist_length, remove_str_sublist|apply (ok_untracked_size _ Hok)].
  - intros j [_ Hj]%list_elem_of_filter. by apply Hok.
Qed.
Lemma add_row_ok f row :
  fold_ok f → row_ok (id row, row) → hasRoomForANewTask f = true → fold_ok (add_row f row).
Proof.
  intros Hok Hr Hroom%Nat.ltb_lt. unfold add_row. apply set_tasks_ok; [by apply remove_untracked_ok| | |].
  - apply put_rows_ok; [apply Hok|done].
  - pose proof (put_length (tasks f) (id row) row). simpl. lia.
  - intros j [Hne Hj]%list_elem_of_filter. rewrite put_keys. pose proof (ok_disjoint _ Hok j Hj).
    destruct (has_own _ _); [done|]. intros [?|Heq%list_elem_of_singleton]%elem_of_app; [done|by subst].
Qed.
Lemma countAsUntracked_ok f k : fold_ok f → k ∉ (tasks f).*1 → fold_ok (countAsUntracked f k).
Proof.
  intros Hok Hk. unfold countAsUntracked. destruct (mem_str k (untrackedTaskIds f)) eqn:Hm; [done|].
  destruct (Nat.ltb_spec (length (untrackedTaskIds f)) MAX_TRACKED_TASKS); apply set_untracked_ok; try apply Hok; try done.
  - apply list.NoDup_app. split; [apply (ok_untracked _ Hok)|]. split; [|apply list.NoDup_singleton].
    intros x Hx Heq%list_elem_of_singleton. subst. apply list_elem_of_In, mem_str_In in Hx. congruence.
  - rewrite length_app. simpl. lia.
  - intros j [Hj|Heq%list_elem_of_singleton]%elem_of_app; [by apply Hok|by subst].
Qed.
Lemma get_None_key {A} (r : rec A) k : get r k = None → k ∉ r.*1.
Proof. intros Hg Hk%has_own_keys%has_own_get. destruct Hk as [? ?]. congruence. Qed.
Lemma del_task_ok f k : fold_ok f → fold_ok (set_tasks f (del (tasks f) k)).
Proof.
  intros Hok. apply set_tasks_ok; [done|apply del_rows_ok, Hok| |].
  - etransitivity; [apply sublist_length, sublist_filter|apply (ok_tasks _ Hok)].
  - intros j Hj [_ Hk]%has_own_del. by apply (ok_disjoint _ Hok j).
Qed.

Lemma applyTaskCreate_ok f i r : fold_ok f → fold_ok (applyTaskCreate f i r).1.
Proof.
  intros Hok. unfold applyTaskCreate. destruct (taskIdOf _) as [k|] eqn:Hk; [|done].
  apply taskIdOf_TASK_ID in Hk. set (text := or_else _ _).
  assert (Ht : ∀ t, text = Some t → bounded_text t).
  { intros t [Ht|[_ Ht]]%or_else_Some; by eapply optionalText_bounded. }
  destruct (get (tasks f) k) as [existing|] eqn:Hg; destruct text as [t|]; try done.
  - pose proof (get_row_ok _ _ _ (ok_rows _ Hok) Hg) as Hr. destruct (unnamed existing); simpl; eapply put_existing_ok; try done; apply rowOf_ok; auto.
    + intros a [Ha|[_ Ha]]%or_else_Some; [by eapply optionalText_bounded|by eapply row_form in Hr].
    + intros a. apply optionalText_bounded.
  - rewrite bounded_not_empty by auto. destruct (hasRoomForANewTask f) eqn:Hroom; simpl.
    + apply add_row_ok; [done| |done]. apply rowOf_ok; auto. intros a. apply optionalText_bounded.
    + apply countAsUntracked_ok; [done|by apply get_None_key].
Qed.
Lemma applyTaskUpdate_ok f i r : fold_ok f → fold_ok (applyTaskUpdate f i r).1.
Proof.
  intros Hok. unfold applyTaskUpdate. destruct r as [answer|]; [|done]. destruct (or_else (taskIdOf _) _) as [k|] eqn:Hk; [|done].
  assert (Hid : TASK_ID k = true) by (apply or_else_Some in Hk as [Hk|[_ Hk]]; by eapply taskIdOf_TASK_ID).
  destruct (failed _). { unfold forgetGhostRow. simpl. destruct (get _ _) as [row|]; [|done]. destruct (unverified row); [by apply del_task_ok|done]. }
  case_bool_decide. { by apply (del_task_ok (set_untracked f _ _)), remove_untracked_ok. }
  pose proof (optionalText_bounded (input_subject i)) as Hs. pose proof (optionalText_bounded (input_activeForm i)) as Hf.
  destruct (get (tasks f) k) as [existing|] eqn:Hg; simpl.
  - pose proof (get_row_ok _ _ _ (ok_rows _ Hok) Hg) as Hr. eapply put_existing_ok; [done|done|]. by apply (updated_row_ok (k, existing)).
  - destruct (hasRoomForANewTask f) eqn:Hroom; simpl.
    + apply add_row_ok; [done| |done]. apply rowOf_ok; [done| |done].
      destruct (optionalText (input_subject i)) as [t|]; simpl; [by apply Hs|by apply placeholder_bounded].
    + apply countAsUntracked_ok; [done|by apply get_None_key].
Qed.
Lemma replace_tasks_ok f rows n : fold_ok f → rows_ok rows → length rows ≤ MAX_TRACKED_TASKS → fold_ok (forgetUntrackedTasks (set_tasks f rows) n).
Proof. intros [] ? ?. split; simpl; try done; [constructor|lia|by intros k ?%elem_of_nil]. Qed.
Lemma applyTaskList_ok f i r : fold_ok f → fold_ok (applyTaskList f i r).1.
Proof.
  intros Hok. unfold applyTaskList. destruct (r ≫= response_tasks) as [listed|]; [|done]. cbn [fst].
  destruct (fold_put_row_ok (listed_row (tasks f)) (take MAX_TRACKED_TASKS listed) []) as [Hrows Hlen]; [apply no_rows_ok| |].
  - apply list.Forall_forall. intros e _ row. unfold listed_row. destruct (taskIdOf _) as [k|] eqn:Hk; [|done].
    destruct (optionalText _) as [t|] eqn:Ht; [|done]. case_bool_decide; [done|]. intros [= <-]. apply rowOf_ok.
    + by eapply taskIdOf_TASK_ID.
    + by eapply optionalText_bounded.
    + intros a. destruct (get (tasks f) k) as [old|] eqn:Hg; [|done]. simpl. apply (row_form (k, old)), (get_row_ok _ _ _ (ok_rows _ Hok) Hg).
  - apply replace_tasks_ok; [done|done|]. etransitivity; [exact Hlen|]. simpl. apply firstn_le_length.
Qed.
Lemma applyTodoWrite_ok f i r : fold_ok f → fold_ok (applyTodoWrite f i r).1.
Proof.
  intros Hok. unfold applyTodoWrite. destruct (input_todos i) as [written|]; [|done]. cbn [fst].
  assert (Hcut : length (take MAX_TRACKED_TASKS written) ≤ MAX_TRACKED_TASKS) by apply firstn_le_length.
  destruct (fold_put_row_ok (λ x, x) (imap written_row (take MAX_TRACKED_TASKS written)) []) as [Hrows Hlen]; [apply no_rows_ok| |].
  - apply list.Forall_forall. intros e He row ->. apply elem_of_lookup_imap in He as (position & entry & He & Hin).
    apply lookup_lt_Some in Hin. unfold written_row in He. destruct (optionalText (entry_content entry)) as [t|] eqn:Ht; [|done].
    injection He as ->. apply rowOf_ok.
    + apply position_is_TASK_ID. lia.
    + by eapply optionalText_bounded.
    + intros a. apply optionalText_bounded.
  - apply replace_tasks_ok; [done|done|]. etransitivity; [exact Hlen|]. simpl. rewrite length_imap. done.
Qed.
Lemma APPLIER_OF_TOOL_ok tool f i r : fold_ok f → fold_ok (APPLIER_OF_TOOL tool f i r).1.
Proof. destruct tool; [apply applyTaskCreate_ok|apply applyTaskUpdate_ok|apply applyTaskList_ok|apply applyTodoWrite_ok]. Qed.

(** *** Whole calls and transcripts *)
Lemma drop_oldest_length {A} n (l : list A) : length l ≤ S n → length (drop_oldest n l) ≤ n.
Proof. unfold drop_oldest. destruct (Nat.leb_spec (length l) n); [done|]. destruct l; simpl in *; lia. Qed.
Lemma drop_oldest_suffix {A} n (l : list A) : drop_oldest n l `suffix_of` l.
Proof. unfold drop_oldest. destruct (Nat.leb _ _); [by exists []|]. destruct l as [|x l]; [by exists []|]. by exists [x]. Qed.
Lemma suffix_NoDup {A} (l k : list A) : l `suffix_of` k → NoDup k → NoDup l.
Proof. intros [pre Heq] Hnd. subst. by apply list.NoDup_app in Hnd as [_ [_ ?]]. Qed.
Lemma drop_oldest_keys_NoDup {A} n (r : rec A) : NoDup r.*1 → NoDup (drop_oldest n r).*1.
Proof. apply suffix_NoDup. destruct (drop_oldest_suffix n r) as [pre Hr]. exists pre.*1. by rewrite <- fmap_app, <- Hr. Qed.
Lemma add_member_NoDup x l : NoDup l → NoDup (add_member x l) ∧ length (add_member x l) ≤ S (length l).
Proof.
  intros Hnd. unfold add_member. destruct (mem_str x l) eqn:Hm; [split; [done|lia]|]. split; [|rewrite length_app; simpl; lia].
  apply list.NoDup_app. split; [done|]. split; [|apply list.NoDup_singleton].
  intros y Hy Heq%list_elem_of_singleton. subst. apply list_elem_of_In, mem_str_In in Hy. congruence.
Qed.
Lemma rememberCall_ok f k : fold_ok f → fold_ok (rememberCall f k).
Proof.
  intros Hok. destruct (add_member_NoDup k (seenCalls f)) as [Hnd Hlen]; [apply (ok_seen _ Hok)|].
  pose proof (ok_seen_size _ Hok). destruct Hok. split; simpl; try done.
  - eapply suffix_NoDup; [apply drop_oldest_suffix|done].
  - apply drop_oldest_length. lia.
Qed.
Lemma applyCompletedCall_ok f call : fold_ok f → fold_ok (applyCompletedCall now Date_parse f call).1.
Proof.
  intros Hok. unfold applyCompletedCall. destruct (str_eqb _ _); [done|]. destruct (mem_str _ _); [done|].
  pose proof (APPLIER_OF_TOOL_ok (name call) f (input call) (response call) Hok) as Hok'.
  destruct (APPLIER_OF_TOOL _ _ _ _) as [f' [|]]; simpl in *; [|done].
  apply (rememberCall_ok _ (toolUseId call)) in Hok'. destruct Hok'. by split.
Qed.
Lemma clearUnverified_ok f k : fold_ok f → fold_ok (clearUnverified f k).
Proof.
  intros Hok. destruct k as [k|]; [|done]. simpl. destruct (get (tasks f) k) as [row|] eqn:Hg; [|done].
  eapply put_existing_ok; [done|done|]. destruct (get_row_ok _ _ _ (ok_rows _ Hok) Hg). by split.
Qed.
Lemma fold_left_ok {E} (step : TodoFold → E → TodoFold) l f :
  (∀ g e, fold_ok g → fold_ok (step g e)) → fold_ok f → fold_ok (fold_left step l f).
Proof. intros Hstep. revert f. induction l as [|e l IH]; intros f Hok; simpl; auto. Qed.
Lemma confirmSeenCall_ok f call : fold_ok f → fold_ok (confirmSeenCall f call).
Proof. intros Hok. unfold confirmSeenCall. destruct (failed _); [done|]. apply fold_left_ok; [|done]. intros. by apply clearUnverified_ok. Qed.
Lemma markRowsUnverified_ok f : fold_ok f → fold_ok (markRowsUnverified f).
Proof.
  intros Hok. assert (Hkeys : ((λ e : str * TaskRow, (e.1, with_unverified true e.2)) <$> tasks f).*1 = (tasks f).*1) by (rewrite <- list_fmap_compose; done).
  unfold markRowsUnverified. apply set_tasks_ok; [done|split| |]; rewrite ?Hkeys.
  - apply Forall_fmap. eapply list.Forall_impl; [apply Hok|]. intros e []. by split.
  - apply Hok.
  - rewrite length_fmap. apply (ok_tasks _ Hok).
  - apply Hok.
Qed.
Lemma rememberPendingCall_ok f block : fold_ok f → fold_ok (rememberPendingCall f block).
Proof.
  intros Hok. unfold rememberPendingCall. destruct (isTodoToolName _) as [tool|]; [|done]. destruct (member block "id") as [| | | |k| | | |]; try done.
  destruct (_ && _); [|done]. apply set_pending_ok; [done| |].
  - apply drop_oldest_keys_NoDup, put_keys_NoDup, Hok.
  - apply drop_oldest_length. etransitivity; [apply put_length|]. apply le_n_S, (ok_pending_size _ Hok).
Qed.
Lemma settlePendingCall_ok record f block : fold_ok f → fold_ok (settlePendingCall now Date_parse record f block).
Proof.
  intros Hok. unfold settlePendingCall. destruct (if has_type _ _ then _ else _) as [k|]; [|done]. destruct (get (pendingCalls f) k); [|done].
  assert (Hok' : fold_ok (set_pending f (del (pendingCalls f) k))).
  { apply set_pending_ok; [done|by apply del_keys_NoDup, Hok|]. etransitivity; [apply sublist_length, sublist_filter|apply (ok_pending_size _ Hok)]. }
  destruct (is_true _); [done|]. by apply applyCompletedCall_ok.
Qed.
Lemma foldTranscriptLine_ok f line : fold_ok f → fold_ok (foldTranscriptLine now Date_parse JSON_parse f line).
Proof.
  intros Hok. unfold foldTranscriptLine. destruct (_ || _); [done|]. destruct (parsedObjectOf _ _) as [record|]; [|done].
  destruct (is_true _); [done|]. set (g := if has_type record "assistant" then _ else _).
  assert (Hg : fold_ok g) by (unfold g; destruct (has_type _ _); [|done]; apply fold_left_ok; [intros; by apply rememberPendingCall_ok|done]).
  clearbody g. destruct (has_type record "user"); [|done]. apply fold_left_ok; [intros; by apply settlePendingCall_ok|done].
Qed.

(** ** Histories *)
Inductive operation :=
  | Hook (call : TodoHookCall)
  | Transcript (text : str)
  | MarkUnverified
  | Confirm (call : TodoHookCall).
Definition apply_operation (f : TodoFold) (o : operation) : TodoFold :=
  match o with
  | Hook call => (foldHookPayload now Date_parse f call).1
  | Transcript text => foldTranscriptText now Date_parse JSON_parse f text
  | MarkUnverified => markRowsUnverified f
  | Confirm call => confirmSeenCall f call
  end.
Definition run (not_before : option Z) (history : list operation) : TodoFold := fold_left apply_operation history (createTodoFold not_before).
Lemma createTodoFold_ok not_before : fold_ok (createTodoFold not_before).
Proof. split; simpl; try constructor; try lia; try (by intros k ?%elem_of_nil); apply no_rows_ok. Qed.
Lemma apply_operation_ok f o : fold_ok f → fold_ok (apply_operation f o).
Proof.
  destruct o; simpl; [by apply applyCompletedCall_ok| |by apply markRowsUnverified_ok|by apply confirmSeenCall_ok].
  intros Hok. apply fold_left_ok; [intros; by apply foldTranscriptLine_ok|done].
Qed.

(** Through any history of hooks, transcript texts, confirmations and resumes the fold keeps its
    bounds (tasks, remembered calls, calls that await their result, ids without room), its rows stay
    well formed under distinct ids, and a task without room is never also a row. *)
Theorem fold_stays_bounded not_before history : fold_ok (run not_before history).
Proof. apply fold_left_ok; [intros; by apply apply_operation_ok|apply createTodoFold_ok]. Qed.

Lemma counts_add_up (rows : list TaskRow) : length rows = countOf rows Completed + countOf rows InProgress + countOf rows Pending.
Proof.
  unfold countOf. induction rows as [|row rows IH]; [done|]. rewrite !filter_cons. simpl length at 1.
  destruct (status row); simpl; lia.
Qed.
Lemma row_ok_schema e : row_ok e → TodoItemSchema e.2 = true.
Proof.
  intros [_ _ [_ Hc] Ha]. unfold TodoItemSchema. apply andb_true_iff. split; [by apply Nat.leb_le|].
  destruct (activeForm e.2) as [a|]; [|done]. apply Nat.leb_le. by apply Ha.
Qed.
Lemma snapshotOf_schema f session :
  fold_ok f → SessionTodosSchema (snapshotOf f session) = true ∧ NoDup (id <$> items (snapshotOf f session)).
Proof.
  intros Hok. destruct (ok_rows _ Hok) as [Hrows Hnd].
  assert (Hids : id <$> (tasks f).*2 = (tasks f).*1).
  { rewrite <- list_fmap_compose. clear Hnd. induction Hrows as [|e rows He ? IH]; [done|]. csimpl. rewrite IH. f_equal. apply He. }
  split.
  - apply andb_true_iff. split; [apply Nat.leb_le, firstn_le_length|]. apply forallb_forall. intros row Hin. cbn [items snapshotOf] in Hin.
    apply list_elem_of_In, subseteq_take, list_elem_of_fmap in Hin as (e & -> & He). apply row_ok_schema.
    by eapply (proj1 (list.Forall_forall _ _) Hrows).
  - cbn [items snapshotOf]. rewrite fmap_take, Hids. eapply sublist_NoDup; [exact Hnd|apply sublist_take].
Qed.
(** Whatever the sources deliver, a snapshot meets the schema of the wire, shows distinct tasks, its
    counts add up to the tracked tasks, and what it does not show is counted as omitted. *)
Theorem snapshots_meet_the_schema not_before history session :
  let todos := snapshotOf (run not_before history) session in
  SessionTodosSchema todos = true ∧ NoDup (id <$> items todos) ∧
  total (counts todos) = completed (counts todos) + inProgress (counts todos) + pending (counts todos) ∧
  length (items todos) + omitted todos =
    total (counts todos) + untrackedTasks (run not_before history) + length (untrackedTaskIds (run not_before history)).
Proof.
  pose proof (fold_left_ok apply_operation history _ apply_operation_ok (createTodoFold_ok not_before)) as Hok.
  cbn zeta. fold (run not_before history) in Hok. set (f := run not_before history) in *.
  destruct (snapshotOf_schema f session Hok). split; [done|]. split; [done|]. split; [apply counts_add_up|].
  cbn [items omitted counts total snapshotOf]. rewrite length_take. lia.
Qed.
End Facts.
