(* ===== verification/TodoDelivery.v ===== *)
(** * Todo calls: delivery

    A completed call may be delivered by its hook, by the transcript, or by both.  It folds
    once, and it folds to the same list whichever source delivers it. *)
From S2P Require Import Prelude JsText Regex PolicyTypes PlaybookKernel TodoCalls TodoFold TodoFoldFacts.

Section Delivery.
Context `{JsNumbers} `{TextTools}.
Variable now : nat → Z.
Variable Date_parse : str → option Z.

(** ** Once per call *)
Lemma APPLIER_OF_TOOL_keeps tool f i r :
  let g := (APPLIER_OF_TOOL tool f i r).1 in
  seenCalls g = seenCalls f ∧ pendingCalls g = pendingCalls f ∧ notBefore g = notBefore f ∧ readings g = readings f.
Proof.
  destruct tool; cbn [APPLIER_OF_TOOL]; unfold applyTaskCreate, applyTaskUpdate, applyTaskList, applyTodoWrite, countAsUntracked, forgetGhostRow;
    repeat case_match; simplify_eq/=; done.
Qed.

(** The ids of the calls that were applied, in order. *)
Fixpoint applied_ids (f : TodoFold) (calls : list CompletedCall) : list str :=
  match calls with
  | [] => []
  | call :: rest =>
      let '(f', isApplied) := applyCompletedCall now Date_parse f call in
      (if isApplied then [toolUseId call] else []) ++ applied_ids f' rest
  end.
Definition no_repeat_within (n : nat) (l : list str) : Prop :=
  ∀ i j a, i < j → j ≤ i + n → l !! i = Some a → l !! j = Some a → False.
Definition newest (n : nat) {A} (l : list A) : list A := drop (length l - n) l.

Lemma newest_snoc n {A} (l : list A) x : drop_oldest n (newest n l ++ [x]) = newest n (l ++ [x]).
Proof.
  destruct (decide (n = 0)) as [->|Hn].
  { unfold newest. rewrite !drop_ge; [done|rewrite length_app; simpl; lia|lia]. }
  unfold newest, drop_oldest. rewrite !length_app, length_drop. simpl length.
  destruct (Nat.leb_spec (length l - (length l - n) + 1) n) as [Hle|Hlt].
  - replace (length l - n) with 0 by lia. replace (length l + 1 - n) with 0 by lia. done.
  - rewrite drop_app_le by lia. replace (length l + 1 - n) with (length l - n + 1) by lia. rewrite <- drop_drop.
    destruct (drop (length l - n) l) as [|y t] eqn:E; [|done].
    apply (f_equal length) in E. rewrite length_drop in E. simpl in E. lia.
Qed.
Lemma no_repeat_snoc n l x : no_repeat_within n l → x ∉ newest n l → no_repeat_within n (l ++ [x]).
Proof.
  intros Hl Hx i j a Hij Hjn Hi Hj. apply lookup_app_Some in Hj as [Hj|[Hlen Hj]].
  - apply (Hl i j a); try done. rewrite lookup_app_l in Hi; [done|]. apply lookup_lt_Some in Hj. lia.
  - apply list_lookup_singleton_Some in Hj as [Hj <-]. rewrite lookup_app_l in Hi by lia.
    apply Hx, list_elem_of_lookup. exists (i - (length l - n)). unfold newest. rewrite lookup_drop, <- Hi. f_equal. lia.
Qed.
Lemma applied_ids_no_repeat f calls past :
  seenCalls f = newest SEEN_CALLS_KEPT past → no_repeat_within SEEN_CALLS_KEPT past →
  no_repeat_within SEEN_CALLS_KEPT (past ++ applied_ids f calls).
Proof.
  revert f past. induction calls as [|call calls IH]; intros f past Hseen Hpast; simpl; [by rewrite app_nil_r|].
  unfold applyCompletedCall. destruct (str_eqb _ _); [by apply IH|]. destruct (mem_str _ _) eqn:Hmem; [by apply IH|].
  destruct (APPLIER_OF_TOOL_keeps (name call) f (input call) (response call)) as [Hkeep _].
  destruct (APPLIER_OF_TOOL _ _ _ _) as [f' [|]]; simpl in *; [|apply IH; [congruence|done]].
  rewrite cons_middle, app_assoc. apply IH.
  - simpl. rewrite Hkeep, Hseen. unfold add_member. rewrite <- Hseen, Hmem, Hseen. apply newest_snoc.
  - apply no_repeat_snoc; [done|]. rewrite <- Hseen. intros Hin%list_elem_of_In%mem_str_In. congruence.
Qed.
(** A call folds once: among the calls a fold applies, in whatever order and however often the sources
    deliver them, no two of the same id are within SEEN_CALLS_KEPT of each other. *)
Theorem a_call_folds_once not_before calls i j a :
  i < j → j ≤ i + SEEN_CALLS_KEPT →
  applied_ids (createTodoFold not_before) calls !! i = Some a → applied_ids (createTodoFold not_before) calls !! j ≠ Some a.
Proof.
  intros Hij Hjn Hi Hj. eapply (applied_ids_no_repeat (createTodoFold not_before) calls []); [done| |exact Hij|exact Hjn|exact Hi|exact Hj].
  intros i' j' a' _ _ Hi'. by rewrite lookup_nil in Hi'.
Qed.

(** ** Hook and transcript *)
Variable JSON_parse : str → option value.

(** The record of an assistant turn that calls one tool, and of the result of the call. *)
Definition use_block (tool call_id : str) (raw_input : value) : value :=
  VObject [(js "type", VString (js "tool_use")); (js "id", VString call_id); (js "name", VString tool); (js "input", raw_input)].
Definition result_block (call_id : str) : value := VObject [(js "type", VString (js "tool_result")); (js "tool_use_id", VString call_id)].
Definition turn (role : string) (block : value) (more : rec value) : value :=
  VObject ((js "type", VString (js role)) :: (js "message", VObject [(js "content", VArray [Some block])]) :: more).
Definition assistant_record (tool call_id : str) (raw_input : value) : value := turn "assistant" (use_block tool call_id raw_input) [].
Definition user_record (call_id : str) (raw_result : value) (timestamp : str) : value :=
  turn "user" (result_block call_id) [(js "toolUseResult", raw_result); (js "timestamp", VString timestamp)].
Definition readable (f : TodoFold) (line : str) (record : value) : Prop :=
  JSON_parse line = Some record ∧ line ≠ [] ∧ (Z.of_nat (length line) ≤ MAX_TRANSCRIPT_LINE_CHARS)%Z ∧ mightConcernTheList f line = true.

Lemma foldTranscriptLine_readable f line record :
  readable f line record → isPlainObject record = true → is_true (member record "isSidechain") = false →
  foldTranscriptLine now Date_parse JSON_parse f line =
    let g := if has_type record "assistant" then fold_left rememberPendingCall (contentBlocksOf record) f else f in
    if has_type record "user" then fold_left (settlePendingCall now Date_parse record) (contentBlocksOf record) g else g.
Proof.
  intros (Hparse & Hne & Hlen & Hconcern) Hplain Hside. unfold foldTranscriptLine, parsedObjectOf. rewrite Hparse, Hconcern. simpl.
  rewrite Hplain, Hside. apply str_eqb_neq in Hne. rewrite Hne. destruct (Z.ltb_spec MAX_TRANSCRIPT_LINE_CHARS (Z.of_nat (length line))); [lia|done].
Qed.
Lemma del_put_fresh {A} (r : rec A) k v : k ∉ r.*1 → del (put r k v) k = r.
Proof.
  unfold del. induction r as [|[k0 v0] r IH]; csimpl; intros Hk.
  - rewrite filter_cons_False by (intros Hn; by apply Hn). done.
  - apply not_elem_of_cons in Hk as [Hk0 Hk]. assert (E : str_eqb k0 k = false) by (apply str_eqb_neq; congruence). rewrite E.
    rewrite filter_cons_True by (simpl; congruence). by rewrite IH.
Qed.
Lemma drop_oldest_small {A} n (l : list A) : length l ≤ n → drop_oldest n l = l.
Proof. intros Hl. unfold drop_oldest. by rewrite (proj2 (Nat.leb_le _ _) Hl). Qed.

Lemma assistant_line f line tool tool_name call_id raw_input :
  readable f line (assistant_record tool call_id raw_input) → get TODO_TOOL_NAMES tool = Some tool_name →
  1 ≤ length call_id ≤ MAX_TOOL_USE_ID_LENGTH → call_id ∉ seenCalls f → length (pendingCalls f) < MAX_PENDING_CALLS →
  foldTranscriptLine now Date_parse JSON_parse f line =
    set_pending f (put (pendingCalls f) call_id (mkPending tool_name (narrowedInput raw_input))).
Proof.
  intros Hline Htool [Hmin Hmax] Hseen Hroom. rewrite (foldTranscriptLine_readable _ _ _ Hline) by reflexivity.
  change (has_type _ "assistant") with true. change (has_type _ "user") with false.
  change (contentBlocksOf _) with [use_block tool call_id raw_input]. cbn [fold_left]. unfold rememberPendingCall.
  change (isTodoToolName _) with (get TODO_TOOL_NAMES tool). rewrite Htool. change (member _ "id") with (VString call_id). cbv beta iota zeta.
  change (has_type _ "tool_use") with true. rewrite (proj2 (Nat.ltb_lt 0 _)) by lia. rewrite (proj2 (Nat.leb_le _ _) Hmax).
  destruct (mem_str call_id (seenCalls f)) eqn:Hm; [by apply mem_str_In, list_elem_of_In in Hm|].
  simpl. rewrite drop_oldest_small; [done|]. etransitivity; [apply put_length|]. lia.
Qed.
Lemma user_line f line call_id raw_result timestamp pending_call :
  readable f line (user_record call_id raw_result timestamp) → get (pendingCalls f) call_id = Some pending_call → isPlainObject raw_result = true →
  foldTranscriptLine now Date_parse JSON_parse f line =
    (applyCompletedCall now Date_parse (set_pending f (del (pendingCalls f) call_id))
       (mkCall call_id (pending_name pending_call) (pending_input pending_call) (narrowedResponse raw_result) (Some timestamp))).1.
Proof.
  intros Hline Hpend Hplain. rewrite (foldTranscriptLine_readable _ _ _ Hline) by reflexivity.
  change (has_type _ "assistant") with false. change (has_type _ "user") with true.
  change (contentBlocksOf _) with [result_block call_id]. cbn [fold_left]. unfold settlePendingCall.
  change (has_type _ "tool_result") with true. change (string_value (member (result_block call_id) "tool_use_id")) with (Some call_id).
  cbv beta iota zeta. rewrite Hpend. change (is_true _) with false. cbv iota.
  change (member _ "timestamp") with (VString timestamp). change (member _ "toolUseResult") with raw_result.
  unfold narrowTodoCall, narrowedResponse. cbn [narrowed_response string_value]. by rewrite Hplain.
Qed.
Lemma set_pending_id f p q : set_pending (set_pending f p) q = set_pending f q.
Proof. done. Qed.

(** The transcript delivers what the hook does: reading the call and its result from the transcript leaves
    the fold exactly as applying the call its PostToolUse event carries, dated by the transcript. *)
Theorem transcript_delivers_what_the_hook_does f line line' tool call_id raw_input raw_result timestamp call :
  narrowTodoHookCall (mkPostToolUse (VString tool) (VString call_id) raw_input raw_result) = Some call → isPlainObject raw_result = true →
  call_id ∉ seenCalls f → call_id ∉ (pendingCalls f).*1 → length (pendingCalls f) < MAX_PENDING_CALLS →
  readable f line (assistant_record tool call_id raw_input) →
  readable (foldTranscriptLine now Date_parse JSON_parse f line) line' (user_record call_id raw_result timestamp) →
  foldTranscriptLine now Date_parse JSON_parse (foldTranscriptLine now Date_parse JSON_parse f line) line' =
  (applyCompletedCall now Date_parse f
     (mkCall call_id (hook_name call) (narrowed_input (hook_call call)) (narrowed_response (hook_call call)) (Some timestamp))).1.
Proof.
  intros Hcall Hplain Hseen Hpend Hroom Hline Hline'. unfold narrowTodoHookCall in Hcall.
  change (isTodoToolName _) with (get TODO_TOOL_NAMES tool) in Hcall. change (tool_use_id _) with (VString call_id) in Hcall.
  destruct (get TODO_TOOL_NAMES tool) as [tool_name|] eqn:Htool; [|done]. destruct (_ && _) eqn:Hid; [|done]. injection Hcall as <-.
  apply andb_true_iff in Hid as [Hmin%Nat.ltb_lt Hmax%Nat.leb_le].
  pose proof (assistant_line f line tool tool_name call_id raw_input Hline Htool (conj Hmin Hmax) Hseen Hroom) as Hfirst. rewrite Hfirst in *.
  rewrite (user_line _ _ _ _ _ (mkPending tool_name (narrowedInput raw_input)) Hline'); [| |done].
  - rewrite set_pending_id. cbn [pendingCalls set_pending]. rewrite del_put_fresh by done. by destruct f.
  - cbn [pendingCalls set_pending]. by rewrite get_put, str_eqb_refl.
Qed.
End Delivery.

(** ** Examples *)
Definition plain_texts : TextTools := {| normalizeNFC s := s; maskedSecrets s := s; maskingCutCredential s := s |}.
Section Examples.
#[local] Existing Instance integers.
#[local] Existing Instance plain_texts.
Definition sample_clock (reading : nat) : Z := 1700000000000.
Definition sample_create (call_id k : str) : CompletedCall :=
  mkCall call_id TaskCreate (mkInput (Some (js "write tests")) None None None None None)
    (Some (mkResponse (Some (Some (IdText k), None)) None None None None None)) None.
Definition sample_calls : list CompletedCall := [sample_create (js "a") (js "1"); sample_create (js "a") (js "1"); sample_create (js "b") (js "2")].
Lemma a_call_folds_once_witness :
  applied_ids sample_clock (λ _, None) (createTodoFold None) sample_calls = [js "a"; js "b"] ∧
  applied_ids sample_clock (λ _, None) (createTodoFold None) sample_calls !! 1 ≠ Some (js "a").
Proof.
  split; [vm_compute; reflexivity|]. apply (a_call_folds_once sample_clock (λ _, None) None sample_calls 0 1 (js "a"));
    [lia|unfold SEEN_CALLS_KEPT; lia|vm_compute; reflexivity].
Defined.

Definition use_line : str := js "{TaskCreate toolu_1}".
Definition result_line : str := js "{toolu_1 result}".
Definition sample_input : value := VObject [(js "subject", VString (js "write tests"))].
Definition sample_result : value := VObject [(js "task", VObject [(js "id", VString (js "1"))])].
Definition sample_parse (line : str) : option value :=
  if str_eqb line use_line then Some (assistant_record (js "TaskCreate") (js "toolu_1") sample_input)
  else if str_eqb line result_line then Some (user_record (js "toolu_1") sample_result (js "2026-01-01"))
  else None.
Lemma transcript_delivers_what_the_hook_does_witness :
  foldTranscriptLine sample_clock (λ _, None) sample_parse (foldTranscriptLine sample_clock (λ _, None) sample_parse (createTodoFold None) use_line) result_line =
  (applyCompletedCall sample_clock (λ _, None) (createTodoFold None)
    (mkCall (js "toolu_1") TaskCreate (narrowedInput sample_input) (narrowedResponse sample_result) (Some (js "2026-01-01")))).1.
Proof.
  apply (transcript_delivers_what_the_hook_does sample_clock (λ _, None) sample_parse (createTodoFold None) use_line result_line (js "TaskCreate") (js "toolu_1")
    sample_input sample_result (js "2026-01-01") (mkHookCall (js "toolu_1") TaskCreate (narrowTodoCall sample_input sample_result))).
  - reflexivity.
  - reflexivity.
  - apply not_elem_of_nil.
  - apply not_elem_of_nil.
  - vm_compute; lia.
  - repeat split; [vm_compute; discriminate..].
  - repeat split; [vm_compute; discriminate..].
Defined.
End Examples.
