(* ===== verification/TranscriptReader.v ===== *)
(** * The reader of transcripts

    Model of [packages/core/src/todos/transcriptChunkReader.ts].  What the descriptor shows is an
    argument: the file may be missing, not regular, or regular with an inode and its bytes
    then.  [decode] is [Buffer.toString('utf8')].  An open that fails otherwise throws and reads
    nothing; it has no state to change. *)
From S2P Require Import Prelude JsText Regex PolicyTypes.

Definition NEWLINE_BYTE : N := 10.
Inductive file := Missing | NotRegular | Regular (ino : Z) (bytes : list N).
Record ChunkRequest := mkRequest { offset : nat; inode : option Z; maxBytes : nat; windowBytes : nat }.
Inductive ChunkRead :=
  | Nothing
  | ResetRead
  | Chunk (text : str) (nextOffset : nat) (chunk_inode : Z) (size : nat).

Definition readBytes (bytes : list N) (from len : nat) : list N := take len (drop from bytes).

Section Reader.
Variable decode : list N → str.

Definition readTranscriptChunk (f : file) (request : ChunkRequest) : ChunkRead :=
  match f with
  | Missing | NotRegular => Nothing
  | Regular ino content =>
      let size := length content in
      let wasReplaced := match inode request with Some i => negb (Z.eqb ino i) | None => false end in
      if wasReplaced || Nat.ltb size (offset request) then ResetRead
      else
        let startsInsideALine := Nat.eqb (offset request) 0 && Nat.ltb (windowBytes request) size in
        let readStart := if startsInsideALine then size - windowBytes request - 1 else offset request in
        let bytes := readBytes content readStart (Nat.min (maxBytes request) (size - readStart)) in
        let firstWholeLine := if startsInsideALine then match indexOf bytes NEWLINE_BYTE 0 with Some i => i + 1 | None => 0 end else 0 in
        let hasNoWholeLine := startsInsideALine && Nat.eqb firstWholeLine 0 in
        let lineStart := readStart + firstWholeLine in
        if hasNoWholeLine then Chunk [] (readStart + length bytes) ino size
        else
          let wholeLines := drop firstWholeLine bytes in
          let afterLastLineBreak := match lastIndexOf NEWLINE_BYTE wholeLines with Some i => i + 1 | None => 0 end in
          let isLineLongerThanTheChunk := Nat.eqb afterLastLineBreak 0 && Nat.leb (maxBytes request) (length wholeLines) in
          if isLineLongerThanTheChunk then Chunk [] (lineStart + length wholeLines) ino size
          else Chunk (decode (take afterLastLineBreak wholeLines)) (lineStart + afterLastLineBreak) ino size
  end.

(** ** Whole lines *)
Definition whole_lines (s : list N) : list N := take (match lastIndexOf NEWLINE_BYTE s with Some i => i + 1 | None => 0 end) s.
(** Every [n] consecutive bytes hold a line break: no line is longer than [n]. *)
Definition lines_fit (n : nat) (s : list N) : Prop := ∀ pre mid post, s = pre ++ mid ++ post → length mid = n → NEWLINE_BYTE ∈ mid.

Lemma lastIndexOf_spec c s :
  match lastIndexOf c s with
  | Some i => ∃ pre post, s = pre ++ c :: post ∧ length pre = i ∧ c ∉ post
  | None => c ∉ s
  end.
Proof.
  induction s as [|d s IH]; simpl; [apply not_elem_of_nil|]. destruct (lastIndexOf c s) as [i|].
  - destruct IH as (pre & post & -> & <- & Hpost). by exists (d :: pre), post.
  - destruct (N.eqb_spec d c) as [->|Hne]; [by exists [], s|]. apply not_elem_of_cons. split; [congruence|done].
Qed.
Definition ends_line (s : list N) : Prop := s = [] ∨ ∃ t, s = t ++ [NEWLINE_BYTE].
Lemma whole_lines_spec s : ∃ rest, s = whole_lines s ++ rest ∧ NEWLINE_BYTE ∉ rest ∧ ends_line (whole_lines s).
Proof.
  unfold whole_lines. pose proof (lastIndexOf_spec NEWLINE_BYTE s) as Hs. destruct (lastIndexOf NEWLINE_BYTE s) as [i|].
  - destruct Hs as (pre & post & -> & <- & Hpost). exists post. rewrite (cons_middle _ pre post), app_assoc.
    rewrite take_app_length' by (rewrite length_app; simpl; lia). split; [done|]. split; [done|]. right. by exists pre.
  - exists s. split; [done|]. split; [done|by left].
Qed.
Lemma whole_lines_nil s : whole_lines s = [] → NEWLINE_BYTE ∉ s.
Proof. intros Hs. destruct (whole_lines_spec s) as (rest & Heq & Hrest & _). by rewrite Heq, Hs. Qed.
(** A text ends where its last line does. *)
Lemma whole_lines_app s rest : ends_line s → NEWLINE_BYTE ∉ rest → whole_lines (s ++ rest) = s.
Proof.
  intros Hs Hrest. destruct (whole_lines_spec (s ++ rest)) as (rest' & Heq & Hrest' & Hends).
  assert (Hlen : length (whole_lines (s ++ rest)) = length s); [|by apply app_inj_1 in Heq as [? _]].
  assert (Hcut : ∀ a b c d, a ++ b = c ++ d → ends_line a → NEWLINE_BYTE ∉ d → length a ≤ length c).
  { clear. intros a b c d Heq [->|[t ->]] Hd; simpl; [lia|]. destruct (decide (length (t ++ [NEWLINE_BYTE]) ≤ length c)) as [?|Hgt]; [done|].
    rewrite length_app in Hgt. simpl in Hgt. assert (Hlk : (c ++ d) !! length t = Some NEWLINE_BYTE) by (rewrite <- Heq, <- app_assoc; apply list_lookup_middle; done).
    rewrite lookup_app_r in Hlk by lia. destruct Hd. by eapply list_elem_of_lookup_2. }
  apply Nat.le_antisymm; [by eapply Hcut|by eapply Hcut].
Qed.

Section OneFile.
Variable max win : nat.
Hypothesis chunks_hold_bytes : 0 < max.

Definition piece_at (content : list N) (off : nat) : list N := whole_lines (take max (drop off content)).
Lemma piece_at_spec content off : ∃ rest, drop off content = piece_at content off ++ rest.
Proof.
  unfold piece_at. destruct (whole_lines_spec (take max (drop off content))) as (rest & Heq & _).
  exists (rest ++ drop max (drop off content)). by rewrite app_assoc, <- Heq, take_drop.
Qed.
Lemma chunk_at ino content off known :
  off ≤ length content → length content ≤ win → lines_fit max content → (known = None ∨ known = Some ino) →
  readTranscriptChunk (Regular ino content) (mkRequest off known max win) =
    Chunk (decode (piece_at content off)) (off + length (piece_at content off)) ino (length content).
Proof.
  intros Hoff Hwin Hfit Hknown. unfold readTranscriptChunk. cbn [inode offset maxBytes windowBytes].
  assert (Hsame : match known with Some i => negb (Z.eqb ino i) | None => false end = false) by (destruct Hknown as [->| ->]; [done|by rewrite Z.eqb_refl]).
  rewrite Hsame, (proj2 (Nat.ltb_ge _ _) Hoff), (proj2 (Nat.ltb_ge _ _) Hwin), andb_false_r. cbn [orb andb drop].
  assert (Hread : readBytes content off (Nat.min max (length content - off)) = take max (drop off content)).
  { unfold readBytes. destruct (Nat.min_spec max (length content - off)) as [[? ->]|[? ->]]; [done|].
    rewrite !take_ge by (rewrite length_drop; lia). done. }
  rewrite Hread, Nat.add_0_r, drop_0. unfold piece_at, whole_lines. set (s := take max (drop off content)).
  pose proof (lastIndexOf_spec NEWLINE_BYTE s) as Hs. destruct (lastIndexOf NEWLINE_BYTE s) as [i|] eqn:Hi.
  - rewrite Nat.add_1_r. cbn [Nat.eqb andb]. f_equal. f_equal. destruct Hs as (pre & post & Hs & <- & _).
    symmetry. apply length_take_le. rewrite Hs, length_app. simpl. lia.
  - destruct (Nat.leb_spec max (length s)) as [Hlong|Hshort]; [|done]. destruct Hs.
    eapply (Hfit (take off content) s (drop max (drop off content))); [by unfold s; rewrite take_drop, take_drop|].
    unfold s in *. rewrite length_take in *. lia.
Qed.

(** ** A growing file *)
Fixpoint read_while_growing (ino : Z) (content : list N) (off : nat) (appended : list (list N)) : list str * nat :=
  match appended with
  | [] => ([], off)
  | more :: rest =>
      match readTranscriptChunk (Regular ino (content ++ more)) (mkRequest off (Some ino) max win) with
      | Chunk text nextOffset _ _ =>
          let '(texts, final) := read_while_growing ino (content ++ more) nextOffset rest in (text :: texts, final)
      | _ => ([], off)
      end
  end.
Lemma lines_fit_prefix n s t : lines_fit n (s ++ t) → lines_fit n s.
Proof. intros Hfit pre mid post -> Hlen. apply (Hfit pre mid (post ++ t)); [by rewrite <- !app_assoc|done]. Qed.
Lemma read_while_growing_spec ino appended content off :
  off ≤ length content → length (content ++ concat appended) ≤ win → lines_fit max (content ++ concat appended) →
  ∃ pieces rest, (read_while_growing ino content off appended).1 = decode <$> pieces ∧
    drop off (content ++ concat appended) = concat pieces ++ rest ∧
    (read_while_growing ino content off appended).2 = off + length (concat pieces) ∧ length pieces = length appended ∧ Forall ends_line pieces.
Proof.
  revert content off. induction appended as [|more appended IH]; intros content off Hoff Hwin Hfit; cbn [read_while_growing concat] in *.
  { exists [], (drop off (content ++ [])). repeat split; [simpl; lia|constructor]. }
  rewrite app_assoc in Hwin, Hfit. assert (Hoff' : off ≤ length (content ++ more)) by (rewrite length_app; lia).
  rewrite chunk_at; [|done|rewrite length_app in Hwin; lia|by eapply lines_fit_prefix|by right].
  set (piece := piece_at (content ++ more) off). destruct (piece_at_spec (content ++ more) off) as [rest0 Hpiece]. fold piece in Hpiece.
  assert (Hlen : off + length piece ≤ length (content ++ more)).
  { apply (f_equal length) in Hpiece. rewrite length_drop, !length_app in Hpiece. rewrite !length_app in *. lia. }
  destruct (IH (content ++ more) (off + length piece) Hlen Hwin Hfit) as (pieces & rest & Ht & Hd & Hf & Hn & Hall).
  destruct (read_while_growing _ _ _ _) as [texts final]. cbn [fst snd] in *. exists (piece :: pieces), rest. split; [by rewrite Ht|].
  split.
  - assert (Hcat : concat (piece :: pieces) ++ rest = piece ++ concat pieces ++ rest) by (cbn [concat]; by rewrite app_assoc).
    rewrite Hcat, <- Hd, <- drop_drop, (app_assoc content), (drop_app_le _ _ off), Hpiece, <- app_assoc by done. by rewrite drop_app_length.
  - split; [rewrite Hf; cbn [concat]; rewrite length_app; lia|]. split; [simpl; lia|]. constructor; [|done].
    by destruct (whole_lines_spec (take max (drop off (content ++ more)))) as (? & _ & _ & ?).
Qed.
(** While a transcript grows, successive reads hand over its lines in order, each once, none lost: the
    decoded pieces are whole lines and their concatenation is the file up to the last offset. *)
Theorem growing_transcript_is_read_once ino appended :
  length (concat appended) ≤ win → lines_fit max (concat appended) →
  ∃ pieces, (read_while_growing ino [] 0 appended).1 = decode <$> pieces ∧ length pieces = length appended ∧ Forall ends_line pieces ∧
    concat pieces = take (read_while_growing ino [] 0 appended).2 (concat appended).
Proof.
  intros Hwin Hfit. destruct (read_while_growing_spec ino appended [] 0) as (pieces & rest & Ht & Hd & Hf & Hn & Hall); [simpl; lia|done|done|].
  exists pieces. repeat split; [done..|]. rewrite Hf. change ([] ++ concat appended) with (concat appended) in Hd. rewrite drop_0 in Hd.
  rewrite Hd, Nat.add_0_l. by rewrite take_app_length.
Qed.

(** ** Reading to the end *)
Fixpoint read_to_end (fuel : nat) (ino : Z) (content : list N) (off : nat) : option (list str) :=
  match fuel with
  | O => None
  | S fuel' =>
      match readTranscriptChunk (Regular ino content) (mkRequest off (Some ino) max win) with
      | Chunk text nextOffset _ size =>
          if Nat.leb size nextOffset || Nat.leb nextOffset off then Some [text]
          else texts ← read_to_end fuel' ino content nextOffset; Some (text :: texts)
      | _ => Some []
      end
  end.
Lemma read_to_end_spec fuel ino content off :
  off ≤ length content → length content ≤ win → lines_fit max content → length content - off < fuel →
  ∃ pieces rest, read_to_end fuel ino content off = Some (decode <$> pieces) ∧ drop off content = concat pieces ++ rest ∧
    NEWLINE_BYTE ∉ rest ∧ ends_line (concat pieces).
Proof.
  revert off. induction fuel as [|fuel IH]; intros off Hoff Hwin Hfit Hfuel; [lia|]. cbn [read_to_end].
  rewrite chunk_at by (done || by right). destruct (piece_at_spec content off) as [rest Hrest].
  assert (Hends : ends_line (piece_at content off)) by (by destruct (whole_lines_spec (take max (drop off content))) as (? & _ & _ & ?)).
  assert (Hlen : length content - off = length (piece_at content off) + length rest) by (rewrite <- length_drop, Hrest, length_app; done).
  destruct (Nat.leb_spec (length content) (off + length (piece_at content off))) as [Hall|Hmore]; cbn [orb].
  { exists [piece_at content off], rest. cbn [concat]. rewrite app_nil_r. repeat split; [done| |done].
    destruct rest; [apply not_elem_of_nil|simpl in Hlen; lia]. }
  destruct (Nat.leb_spec (off + length (piece_at content off)) off) as [Hstuck|Hgo].
  - exists [piece_at content off], rest. cbn [concat]. rewrite app_nil_r. repeat split; [done| |done].
    assert (Hnil : piece_at content off = []) by (destruct (piece_at content off); [done|simpl in Hstuck; lia]).
    rewrite Hnil in *. simpl in Hrest. rewrite <- Hrest. unfold piece_at in Hnil. apply whole_lines_nil in Hnil.
    rewrite <- (take_drop max (drop off content)). intros [?|Hin]%elem_of_app; [done|]. apply Hnil.
    apply (Hfit (take off content) (take max (drop off content)) (drop max (drop off content))); [by rewrite take_drop, take_drop|].
    rewrite length_take, length_drop. destruct (Nat.min_spec max (length content - off)) as [[? ->]|[? _]]; [done|].
    rewrite drop_ge in Hin by (rewrite length_drop; lia). by apply elem_of_nil in Hin.
  - destruct (IH (off + length (piece_at content off))) as (pieces & rest' & -> & Hd & Hnl & He); [lia|done|done|lia|].
    exists (piece_at content off :: pieces), rest'. split; [done|]. cbn [concat]. split; [|split; [done|]].
    + rewrite <- app_assoc, <- Hd, <- drop_drop, Hrest. by rewrite drop_app_length.
    + destruct He as [->|[t ->]]; [by rewrite app_nil_r|]. right. exists (piece_at content off ++ t). by rewrite app_assoc.
Qed.
(** Reading a transcript chunk by chunk ends, and hands over exactly its complete lines: a partial last line
    waits for the next read. *)
Theorem reading_ends_with_every_whole_line ino content fuel :
  length content ≤ win → lines_fit max content → length content < fuel →
  ∃ pieces, read_to_end fuel ino content 0 = Some (decode <$> pieces) ∧ concat pieces = whole_lines content.
Proof.
  intros Hwin Hfit Hfuel. destruct (read_to_end_spec fuel ino content 0) as (pieces & rest & Hr & Hd & Hnl & He); [lia|done|done|lia|].
  exists pieces. split; [done|]. rewrite drop_0 in Hd. rewrite Hd. symmetry. by apply whole_lines_app.
Qed.
End OneFile.
End Reader.

(** ** Examples *)
Definition long_line_file : file := Regular 1 (js "abcdef" ++ [NEWLINE_BYTE] ++ js "xy" ++ [NEWLINE_BYTE]).
(** Only the part of a long line that fills whole chunks is skipped: its tail reads as a line of its own. *)
Example tail_of_a_long_line_is_read :
  readTranscriptChunk (λ b, b) long_line_file (mkRequest 0 None 4 100) = Chunk [] 4 1 10 ∧
  readTranscriptChunk (λ b, b) long_line_file (mkRequest 4 (Some 1%Z) 4 100) = Chunk (js "ef" ++ [NEWLINE_BYTE]) 7 1 10.
Proof. split; reflexivity. Qed.
Definition sample_bytes : list (list N) := [js "ab"; NEWLINE_BYTE :: js "cd"; [NEWLINE_BYTE; NEWLINE_BYTE]].
Lemma sample_bytes_fit : lines_fit 4 (concat sample_bytes).
Proof.
  intros pre mid post Heq Hlen. assert (Hpre : length pre ≤ 3) by (apply (f_equal length) in Heq; rewrite !length_app in Heq; simpl in Heq; lia).
  do 4 (destruct mid as [|? mid]; [simpl in Hlen; lia|]). destruct mid; [|simpl in Hlen; lia].
  do 4 (destruct pre as [|? pre]; [injection Heq as <- <- <- <-; apply (bool_decide_unpack _); vm_compute; exact I|injection Heq as <- Heq]). simpl in Hpre. lia.
Qed.
Lemma growing_transcript_is_read_once_witness :
  ∃ pieces, (read_while_growing (λ b, b) 4 100 7 [] 0 sample_bytes).1 = (λ b, b) <$> pieces ∧ length pieces = length sample_bytes ∧ Forall ends_line pieces ∧
    concat pieces = take (read_while_growing (λ b, b) 4 100 7 [] 0 sample_bytes).2 (concat sample_bytes).
Proof. apply (growing_transcript_is_read_once (λ b, b) 4 100 ltac:(lia) 7 sample_bytes); [vm_compute; lia|apply sample_bytes_fit]. Defined.
Lemma reading_ends_with_every_whole_line_witness :
  ∃ pieces, read_to_end (λ b, b) 4 100 20 7 (concat sample_bytes) 0 = Some ((λ b, b) <$> pieces) ∧ concat pieces = whole_lines (concat sample_bytes).
Proof. apply (reading_ends_with_every_whole_line (λ b, b) 4 100 ltac:(lia) 7 (concat sample_bytes) 20); [vm_compute; lia|apply sample_bytes_fit|vm_compute; lia]. Defined.
