(* ===== verification/TodoTracker.v ===== *)
(** * The tracker of todo lists

    Model of [packages/core/src/todos/todoTracker.ts]: per session a queue of hooks and reads, the
    fold, the cursor in the transcript, the live calls kept until the history is read, the
    fallback reads and the last emitted snapshot.  The event loop is a sequence of events: one
    task of a queue runs at a time, and a timer fires only while its session is live.  A state
    detached by a reopening acts on nothing, so it is dropped.  [readings] of files and paths
    come with the events.  Promises handed to waiting readers are not modelled. *)
From S2P Require Import Prelude JsText Regex PolicyTypes PlaybookKernel TodoCalls TodoFold TranscriptReader.

Definition FALLBACK_READ_DELAYS_MS : list Z := [150; 300; 600; 1200; 2400]%Z.
Definition MAX_FALLBACK_TOOL_USE_IDS : nat := 50.
Definition TODO_CHUNK_BYTES : nat := Z.to_nat (4 * 1024 * 1024).
Definition MAX_FOLD_BYTES : nat := Z.to_nat (64 * 1024 * 1024).
Definition MAX_CHUNKS_PER_READ : nat := 16.
Definition MAX_QUEUED_HOOKS : nat := 200.
Definition CLOSED_SNAPSHOTS_KEPT : nat := 50.
Inductive WarnCode := TodoFoldFailed | TodoReadFailed | TodoEmitFailed | TodoTranscriptUnreadable | TodoListenerFailed.
#[export] Instance WarnCode_eq_dec : EqDecision WarnCode.
Proof. solve_decision. Defined.
#[export] Instance TodoSource_eq_dec : EqDecision TodoSource.
Proof. solve_decision. Defined.
#[export] Instance TaskRow_eq_dec : EqDecision TaskRow.
Proof. solve_decision. Defined.
#[export] Instance TodoCounts_eq_dec : EqDecision TodoCounts.
Proof. solve_decision. Defined.
#[export] Instance SessionTodos_eq_dec : EqDecision SessionTodos.
Proof. solve_decision. Defined.

(** The text [JSON.stringify] writes of a snapshot determines it: a key is the snapshot itself. *)
Definition keyOf (t : SessionTodos) : SessionTodos :=
  mkTodos (sessionId t) (items t) (counts t) (omitted t) (todos_source t) None (stale t) (incomplete t).
Definition with_stale (t : SessionTodos) : SessionTodos :=
  mkTodos (sessionId t) (items t) (counts t) (omitted t) (todos_source t) (todos_updatedAt t) true (incomplete t).

Section Tracker.
Context `{JsNumbers} `{TextTools}.
Variable now : nat → Z.
Variable Date_parse : str → option Z.
Variable JSON_parse : str → option value.
Variable decode : list N → str.

Inductive Task := HookTask (call : TodoHookCall) | ReadTask.
Record Cursor := mkCursor { cursor_path : str; cursor_inode : Z; cursor_offset : nat }.
Record Fallback := mkFallback { toolUseIds : list str; attempt : nat; isTimerPending : bool; snapshotKeyAtStart : SessionTodos }.
Record SessionState := mkState
  { session : str; fold : TodoFold; cursor : option Cursor; hasReconciledTheHistory : bool; liveCallsAwaitingTheHistory : list TodoHookCall;
    evictedLiveCallIds : list str; queue : list Task; hasQueuedARead : bool; isRunning : bool; isClosing : bool; isStale : bool;
    lastEmittedKey : SessionTodos; isEmitPending : bool; fallback : option Fallback; warnedReasons : list WarnCode }.

(** *** Updates of one field *)
Definition set_fold (s : SessionState) (f : TodoFold) : SessionState :=
  mkState (session s) f (cursor s) (hasReconciledTheHistory s) (liveCallsAwaitingTheHistory s) (evictedLiveCallIds s) (queue s) (hasQueuedARead s)
    (isRunning s) (isClosing s) (isStale s) (lastEmittedKey s) (isEmitPending s) (fallback s) (warnedReasons s).
Definition set_cursor (s : SessionState) (c : option Cursor) : SessionState :=
  mkState (session s) (fold s) c (hasReconciledTheHistory s) (liveCallsAwaitingTheHistory s) (evictedLiveCallIds s) (queue s) (hasQueuedARead s)
    (isRunning s) (isClosing s) (isStale s) (lastEmittedKey s) (isEmitPending s) (fallback s) (warnedReasons s).
Definition set_live (s : SessionState) (reconciled : bool) (calls : list TodoHookCall) (evicted : list str) : SessionState :=
  mkState (session s) (fold s) (cursor s) reconciled calls evicted (queue s) (hasQueuedARead s)
    (isRunning s) (isClosing s) (isStale s) (lastEmittedKey s) (isEmitPending s) (fallback s) (warnedReasons s).
Definition set_queue (s : SessionState) (q : list Task) (queuedARead running : bool) : SessionState :=
  mkState (session s) (fold s) (cursor s) (hasReconciledTheHistory s) (liveCallsAwaitingTheHistory s) (evictedLiveCallIds s) q queuedARead
    running (isClosing s) (isStale s) (lastEmittedKey s) (isEmitPending s) (fallback s) (warnedReasons s).
Definition set_closing (s : SessionState) : SessionState :=
  mkState (session s) (fold s) (cursor s) (hasReconciledTheHistory s) (liveCallsAwaitingTheHistory s) (evictedLiveCallIds s) (queue s) (hasQueuedARead s)
    (isRunning s) true (isStale s) (lastEmittedKey s) (isEmitPending s) (fallback s) (warnedReasons s).
Definition set_stale (s : SessionState) (flag : bool) (warned : list WarnCode) : SessionState :=
  mkState (session s) (fold s) (cursor s) (hasReconciledTheHistory s) (liveCallsAwaitingTheHistory s) (evictedLiveCallIds s) (queue s) (hasQueuedARead s)
    (isRunning s) (isClosing s) flag (lastEmittedKey s) (isEmitPending s) (fallback s) warned.
Definition set_emit (s : SessionState) (key : SessionTodos) (emitPending : bool) : SessionState :=
  mkState (session s) (fold s) (cursor s) (hasReconciledTheHistory s) (liveCallsAwaitingTheHistory s) (evictedLiveCallIds s) (queue s) (hasQueuedARead s)
    (isRunning s) (isClosing s) (isStale s) key emitPending (fallback s) (warnedReasons s).
Definition set_fallback (s : SessionState) (f : option Fallback) : SessionState :=
  mkState (session s) (fold s) (cursor s) (hasReconciledTheHistory s) (liveCallsAwaitingTheHistory s) (evictedLiveCallIds s) (queue s) (hasQueuedARead s)
    (isRunning s) (isClosing s) (isStale s) (lastEmittedKey s) (isEmitPending s) f (warnedReasons s).

Definition newState (session_id : str) (createdAt : option str) : SessionState :=
  let f := createTodoFold (createdAt ≫= Date_parse) in
  mkState session_id f None false [] [] [] false false false false (keyOf (snapshotOf f session_id)) false None [].

(** ** Snapshots and warnings *)
Definition snapshotOfState (s : SessionState) : SessionTodos :=
  let snapshot := snapshotOf (fold s) (session s) in
  if isStale s || Nat.ltb 0 (length (evictedLiveCallIds s)) then with_stale snapshot else snapshot.
Definition warnOnce (code : WarnCode) (warned : list WarnCode) : list WarnCode := if bool_decide (code ∈ warned) then warned else warned ++ [code].
Definition markStale (s : SessionState) (code : WarnCode) : SessionState := set_stale s true (warnOnce code (warnedReasons s)).

(** ** The queue *)
Definition is_hook (t : Task) : bool := match t with HookTask _ => true | ReadTask => false end.
Definition hookCount (q : list Task) : nat := length (filter (λ t, is_hook t = true) q).
Fixpoint without_first_hook (q : list Task) : list Task :=
  match q with [] => [] | HookTask _ :: rest => rest | ReadTask :: rest => ReadTask :: without_first_hook rest end.
Definition hasReadQueued (q : list Task) : bool := existsb (λ t, negb (is_hook t)) q.
(** [enqueue] and [enqueueRead] call each other; a read enqueued by an overflowing queue finds itself
    queued, so one level is enough. *)
Fixpoint enqueue_within (depth : nat) (s : SessionState) (task : Task) : SessionState :=
  let q := queue s ++ [task] in
  if Nat.ltb MAX_QUEUED_HOOKS (hookCount q) then
    let q' := without_first_hook q in
    let dropped := set_queue s q' true (isRunning s) in
    let s' := if hasReadQueued q' then dropped else match depth with S d => enqueue_within d dropped ReadTask | O => dropped end in
    set_queue s' (queue s') (hasQueuedARead s') true
  else set_queue s q (hasQueuedARead s) true.
Definition enqueue (s : SessionState) (task : Task) : SessionState := enqueue_within 1 s task.
Definition enqueueRead (s : SessionState) : SessionState :=
  let s' := set_queue s (queue s) true (isRunning s) in
  if hasReadQueued (queue s) then s' else enqueue s' ReadTask.

(** ** Fallback reads *)
Definition scheduleFallbackRead (trusted : option str) (s : SessionState) (f : Fallback) : SessionState :=
  match FALLBACK_READ_DELAYS_MS !! attempt f with
  | None => let s' := set_fallback s None in match trusted with None => markStale s' TodoTranscriptUnreadable | Some _ => s' end
  | Some _ => set_fallback s (Some (mkFallback (toolUseIds f) (attempt f) true (snapshotKeyAtStart f)))
  end.
Definition startFallback (trusted : option str) (s : SessionState) (call_id : option str) : SessionState :=
  let f := default (mkFallback [] 0 false (keyOf (snapshotOf (fold s) (session s)))) (fallback s) in
  let ids := match call_id with Some k => if Nat.ltb (length (toolUseIds f)) MAX_FALLBACK_TOOL_USE_IDS then add_member k (toolUseIds f) else toolUseIds f | None => toolUseIds f end in
  let f' := mkFallback ids 0 (isTimerPending f) (snapshotKeyAtStart f) in
  scheduleFallbackRead trusted (set_fallback s (Some f')) f'.
Definition continueFallback (trusted : option str) (s : SessionState) : SessionState :=
  match fallback s with
  | None => s
  | Some f =>
      if isTimerPending f || Nat.eqb (attempt f) 0 then s
      else
        let hasFoundTheCalls :=
          if Nat.ltb 0 (length (toolUseIds f)) then forallb (λ k, mem_str k (seenCalls (fold s))) (toolUseIds f)
          else negb (bool_decide (keyOf (snapshotOf (fold s) (session s)) = snapshotKeyAtStart f)) in
        if hasFoundTheCalls then set_fallback s None else scheduleFallbackRead trusted s f
  end.
Definition fallbackTimer (s : SessionState) : SessionState :=
  match fallback s with
  | Some f => if isTimerPending f then enqueueRead (set_fallback s (Some (mkFallback (toolUseIds f) (S (attempt f)) false (snapshotKeyAtStart f)))) else s
  | None => s
  end.

(** ** Folding a hook *)
Definition rememberEvictedLiveCall (evicted : list str) (call_id : str) : list str := drop_oldest SEEN_CALLS_KEPT (add_member call_id evicted).
Definition keepLiveCallUntilTheHistoryIsReconciled (s : SessionState) (call : TodoHookCall) : SessionState :=
  match liveCallsAwaitingTheHistory s ++ [call] with
  | first :: rest =>
      if Nat.leb (length (first :: rest)) MAX_QUEUED_HOOKS then set_live s (hasReconciledTheHistory s) (first :: rest) (evictedLiveCallIds s)
      else set_live s (hasReconciledTheHistory s) rest (rememberEvictedLiveCall (evictedLiveCallIds s) (hook_toolUseId first))
  | [] => s
  end.
Definition foldHook (trusted : option str) (s : SessionState) (call : TodoHookCall) : SessionState :=
  let wasAlreadyFolded := mem_str (hook_toolUseId call) (seenCalls (fold s)) in
  let s1 := if wasAlreadyFolded then set_fold s (confirmSeenCall (fold s) call) else s in
  let s2 := if hasReconciledTheHistory s1 then s1 else keepLiveCallUntilTheHistoryIsReconciled s1 call in
  let '(f, isApplied) := foldHookPayload now Date_parse (fold s2) call in
  let s3 := set_fold s2 f in
  let wasRejectedByTheCli := failed (narrowed_response (hook_call call)) in
  if negb isApplied && negb wasAlreadyFolded && negb wasRejectedByTheCli then startFallback trusted s3 (Some (hook_toolUseId call)) else s3.

(** ** Reading the transcript *)
Definition replay_live_call (f : TodoFold) (call : TodoHookCall) : TodoFold :=
  if mem_str (hook_toolUseId call) (seenCalls f) then confirmSeenCall f call else (foldHookPayload now Date_parse f call).1.
Definition reconcileLiveCallsWithTheHistory (s : SessionState) : SessionState :=
  let f := fold_left replay_live_call (liveCallsAwaitingTheHistory s) (fold s) in
  set_live (set_fold s f) true [] (filter (λ k, mem_str k (seenCalls f) = false) (evictedLiveCallIds s)).

(** The loop of a read: [rebuilt] is the fold under construction, [None] while the read folds into the
    fold of the state itself. *)
Record ReadLoop := mkLoop
  { loop_state : SessionState; rebuilt : option TodoFold; loop_cursor : option Cursor; hasReadHistoryText : bool; sizeAtStart : option nat; chunksRead : nat }.
Inductive read_outcome := ReadOn (l : ReadLoop) | ReadEnds (l : ReadLoop) | ReadThrows (l : ReadLoop).

Definition read_step (path : str) (view : option file) (l : ReadLoop) : read_outcome :=
  let off := match loop_cursor l with Some c => cursor_offset c | None => 0 end in
  match view with
  | None => ReadThrows l
  | Some f =>
      match readTranscriptChunk decode f (mkRequest off (cursor_inode <$> loop_cursor l) TODO_CHUNK_BYTES MAX_FOLD_BYTES) with
      | Nothing => ReadEnds l
      | ResetRead => ReadOn (mkLoop (loop_state l) (Some (createTodoFold (notBefore (fold (loop_state l))))) None (hasReadHistoryText l) None (chunksRead l))
      | Chunk text nextOffset chunk_inode size =>
          let c := mkCursor path chunk_inode nextOffset in
          let s := match rebuilt l with
                   | Some _ => loop_state l
                   | None => set_cursor (set_fold (loop_state l) (foldTranscriptText now Date_parse JSON_parse (fold (loop_state l)) text)) (Some c)
                   end in
          let start := default size (sizeAtStart l) in
          let next := mkLoop s ((λ t, foldTranscriptText now Date_parse JSON_parse t text) <$> rebuilt l) (Some c)
                        (hasReadHistoryText l || Nat.ltb 0 (length text)) (Some start) (S (chunksRead l)) in
          if Nat.leb start nextOffset || Nat.leb MAX_CHUNKS_PER_READ (S (chunksRead l)) || negb (Nat.ltb off nextOffset) then ReadEnds next else ReadOn next
      end
  end.
Fixpoint read_loop (fuel : nat) (path : str) (views : nat → option file) (l : ReadLoop) : option (bool * ReadLoop) :=
  match fuel with
  | O => None
  | S fuel' =>
      match read_step path (views 0) l with
      | ReadOn l' => read_loop fuel' path (λ n, views (S n)) l'
      | ReadEnds l' => Some (true, l')
      | ReadThrows l' => Some (false, l')
      end
  end.
(** A reset is followed by a chunk or ends the read, so twice the budget of chunks is enough. *)
Definition READ_FUEL : nat := 2 * MAX_CHUNKS_PER_READ + 2.

Definition start_of_read (s : SessionState) (path : str) : ReadLoop :=
  let hasMovedToAnotherFile := match cursor s with Some c => negb (str_eqb (cursor_path c) path) | None => false end in
  let mustRebuildUnderLiveCalls := negb (hasReconciledTheHistory s) && Nat.ltb 0 (length (liveCallsAwaitingTheHistory s)) in
  mkLoop s (if mustRebuildUnderLiveCalls then Some (createTodoFold (notBefore (fold s))) else None)
    (if hasMovedToAnotherFile || mustRebuildUnderLiveCalls then None else cursor s) false None 0.
Definition end_of_read (isAwaitingTheHistory : bool) (l : ReadLoop) : SessionState :=
  let s := loop_state l in
  let historyArrivedForTheFirstTime := isAwaitingTheHistory && hasReadHistoryText l in
  let canReplace := negb isAwaitingTheHistory || hasReadHistoryText l in
  let s1 := match rebuilt l, loop_cursor l with
            | Some target, Some c => if canReplace then set_cursor (set_fold s target) (Some c) else s
            | _, _ => s
            end in
  let hasReadTheReplacement := match rebuilt l, loop_cursor l with Some _, Some _ => canReplace | _, _ => false end in
  let s2 := if hasReadTheReplacement || historyArrivedForTheFirstTime then set_fold s1 (markRowsUnverified (fold s1)) else s1 in
  let s3 := if historyArrivedForTheFirstTime then reconcileLiveCallsWithTheHistory s2 else s2 in
  set_stale s3 false (warnedReasons s3).
Definition readTranscript (trusted : option str) (views : nat → option file) (s : SessionState) : SessionState :=
  match trusted with
  | None => s
  | Some path =>
      match read_loop READ_FUEL path views (start_of_read s path) with
      | Some (true, l) => end_of_read (negb (hasReconciledTheHistory s)) l
      | Some (false, l) => markStale (loop_state l) TodoReadFailed
      | None => s
      end
  end.

(** ** The tracker *)
Record TodoTracker := mkTracker { states : rec SessionState; closedSnapshots : rec SessionTodos; emitted : list SessionTodos }.
Definition set_state (t : TodoTracker) (s : SessionState) : TodoTracker := mkTracker (put (states t) (session s) s) (closedSnapshots t) (emitted t).
Definition stateOf (t : TodoTracker) (session_id : str) (createdAt : option str) : SessionState :=
  default (newState session_id createdAt) (get (states t) session_id).
Definition emitIfChanged (s : SessionState) : SessionState * list SessionTodos :=
  let snapshot := snapshotOfState s in
  if bool_decide (keyOf snapshot = lastEmittedKey s) then (s, []) else (set_emit s (keyOf snapshot) (isEmitPending s), [snapshot]).
Definition finalizeClosedSession (t : TodoTracker) (s : SessionState) : TodoTracker :=
  let '(s', out) := emitIfChanged s in
  mkTracker (del (states t) (session s)) (drop_oldest CLOSED_SNAPSHOTS_KEPT (put (closedSnapshots t) (session s) (snapshotOfState s'))) (emitted t ++ out).
Definition requestEmit (s : SessionState) : SessionState := set_emit s (lastEmittedKey s) true.
Definition afterRun (trusted : option str) (t : TodoTracker) (s : SessionState) : TodoTracker :=
  if isClosing s then finalizeClosedSession t s else set_state t (requestEmit (continueFallback trusted s)).
(** One turn of [run]: the next task, or the end of the loop. *)
Definition run_step (trusted : option str) (views : nat → option file) (t : TodoTracker) (s : SessionState) : TodoTracker :=
  match queue s with
  | [] => afterRun trusted t (set_queue s [] (hasQueuedARead s) false)
  | HookTask call :: rest => set_state t (foldHook trusted (set_queue s rest (hasQueuedARead s) (isRunning s)) call)
  | ReadTask :: rest => set_state t (readTranscript trusted views (set_queue s rest (hasQueuedARead s) (isRunning s)))
  end.

Definition on_state (t : TodoTracker) (session_id : str) (act : SessionState → TodoTracker) : TodoTracker :=
  match get (states t) session_id with Some s => act s | None => t end.
Definition emitTimer (t : TodoTracker) (k : str) : TodoTracker :=
  on_state t k (λ s, if isEmitPending s && negb (isClosing s) then
    let '(s', out) := emitIfChanged (set_emit s (lastEmittedKey s) false) in
    mkTracker (put (states t) k s') (closedSnapshots t) (emitted t ++ out) else t).
Definition closeSession (t : TodoTracker) (k : str) : TodoTracker :=
  on_state t k (λ s, let s' := set_closing s in
    if negb (isRunning s') && Nat.eqb (length (queue s')) 0 then finalizeClosedSession t s' else set_state t s').
Definition reopenSession (t : TodoTracker) (k : str) : TodoTracker :=
  let t' := mkTracker (states t) (del (closedSnapshots t) k) (emitted t) in
  on_state t' k (λ s, if isClosing s then mkTracker (del (states t') k) (closedSnapshots t') (emitted t') else t').
Definition applyHook (t : TodoTracker) (k : str) (createdAt : option str) (call : TodoHookCall) : TodoTracker :=
  let s := stateOf t k createdAt in
  set_state t (enqueue (if hasQueuedARead s then s else enqueueRead s) (HookTask call)).
Definition repair (t : TodoTracker) (k : str) (createdAt : option str) : TodoTracker := set_state t (enqueueRead (stateOf t k createdAt)).
Definition catchUp (t : TodoTracker) (k : str) : TodoTracker := on_state t k (λ s, set_state t (enqueueRead s)).
Definition readAfterHookWithoutPayload (t : TodoTracker) (k : str) (createdAt trusted : option str) (call_id : option str) : TodoTracker :=
  set_state t (startFallback trusted (stateOf t k createdAt) call_id).

Inductive event :=
  | ApplyHook (session_id : str) (createdAt : option str) (call : TodoHookCall)
  | Repair (session_id : str) (createdAt : option str)
  | CatchUp (session_id : str)
  | ReadAfterHookWithoutPayload (session_id : str) (createdAt trusted : option str) (call_id : option str)
  | RunStep (session_id : str) (trusted : option str) (views : nat → option file)
  | EmitTimer (session_id : str)
  | FallbackTimer (session_id : str)
  | CloseSession (session_id : str)
  | ReopenSession (session_id : str).
Definition handle (t : TodoTracker) (e : event) : TodoTracker :=
  match e with
  | ApplyHook k createdAt call => applyHook t k createdAt call
  | Repair k createdAt => repair t k createdAt
  | CatchUp k => catchUp t k
  | ReadAfterHookWithoutPayload k createdAt trusted call_id => readAfterHookWithoutPayload t k createdAt trusted call_id
  | RunStep k trusted views => on_state t k (λ s, if isRunning s then run_step trusted views t s else t)
  | EmitTimer k => emitTimer t k
  | FallbackTimer k => on_state t k (λ s, if isClosing s then t else set_state t (fallbackTimer s))
  | CloseSession k => closeSession t k
  | ReopenSession k => reopenSession t k
  end.
Definition new_tracker : TodoTracker := mkTracker [] [] [].

Definition get_todos (t : TodoTracker) (session_id : str) : option SessionTodos :=
  match get (states t) session_id with Some s => Some (snapshotOfState s) | None => get (closedSnapshots t) session_id end.
Record TodoSummary := mkSummary { summary_session : str; summary_counts : TodoCounts; summary_updatedAt : Z }.
Definition summaries (t : TodoTracker) : list TodoSummary :=
  omap (λ todos, match todos_source todos, todos_updatedAt todos with Some _, Some at_ => Some (mkSummary (sessionId todos) (counts todos) at_) | _, _ => None end)
    ((snapshotOfState <$> (states t).*2) ++ (closedSnapshots t).*2).
End Tracker.
