(* ===== verification/TodoTrackerFacts.v ===== *)
(** * The tracker of todo lists: facts

    A read of the transcript ends whatever happens to the file meanwhile; through any sequence of
    events every session keeps its bounds, and what is emitted or kept meets the wire schema. *)
From S2P Require Import Prelude JsText Regex PolicyTypes PlaybookKernel TodoCalls TodoFold TodoFoldFacts TranscriptReader TodoTracker.

Section Facts.
Context `{JsNumbers} `{TextTools}.
Variable now : nat → Z.
Variable Date_parse : str → option Z.
Variable JSON_parse : str → option value.
Variable decode : list N → str.

(** ** A read ends *)
Definition turns_left (l : ReadLoop) : nat := 2 * (MAX_CHUNKS_PER_READ - chunksRead l) + match loop_cursor l with Some _ => 1 | None => 0 end.
Lemma first_read_is_no_reset f max win : readTranscriptChunk decode f (mkRequest 0 None max win) ≠ ResetRead.
Proof. destruct f as [| |ino content]; [done..|]. simpl. repeat case_match; done. Qed.
Lemma read_step_progress path view l l' :
  chunksRead l < MAX_CHUNKS_PER_READ → read_step now Date_parse JSON_parse decode path view l = ReadOn l' →
  chunksRead l' < MAX_CHUNKS_PER_READ ∧ turns_left l' < turns_left l.
Proof.
  intros Hc. unfold read_step. destruct view as [f|]; [|done].
  destruct (readTranscriptChunk _ _ _) as [| |text next ino size] eqn:Hread; [done| |].
  - intros [= <-]. unfold turns_left. cbn [chunksRead loop_cursor]. destruct (loop_cursor l); [lia|].
    by destruct (first_read_is_no_reset f TODO_CHUNK_BYTES MAX_FOLD_BYTES).
  - destruct (Nat.leb_spec MAX_CHUNKS_PER_READ (S (chunksRead l))) as [?|Hbudget]; [by rewrite orb_true_r|].
    destruct (_ || _); [done|]. intros [= <-]. unfold turns_left. cbn [chunksRead loop_cursor]. destruct (loop_cursor l); lia.
Qed.
Lemma read_loop_ends fuel path views l :
  chunksRead l < MAX_CHUNKS_PER_READ → turns_left l < fuel → ∃ r, read_loop now Date_parse JSON_parse decode fuel path views l = Some r.
Proof.
  revert views l. induction fuel as [|fuel IH]; intros views l Hc Hfuel; [lia|]. cbn [read_loop].
  destruct (read_step _ _ _ _ _ _ _) as [l'|l'|l'] eqn:Hstep; [|by eexists..].
  apply read_step_progress in Hstep as [? ?]; [|done]. apply IH; [done|lia].
Qed.
(** A read of the transcript ends, whatever the file becomes between its chunks: replaced, truncated,
    growing or gone. *)
Theorem a_read_ends path views s :
  ∃ r, read_loop now Date_parse JSON_parse decode READ_FUEL path views (start_of_read s path) = Some r.
Proof.
  apply read_loop_ends; [simpl; unfold MAX_CHUNKS_PER_READ; lia|]. unfold turns_left. cbn [chunksRead start_of_read].
  unfold READ_FUEL, MAX_CHUNKS_PER_READ. destruct (loop_cursor _); lia.
Qed.

(** ** The invariant of a session *)
Definition readCount (q : list Task) : nat := length (filter (λ t, is_hook t = false) q).
Record state_ok (s : SessionState) : Prop := mkStateOk {
  ok_fold : fold_ok (fold s);
  ok_hooks : hookCount (queue s) ≤ MAX_QUEUED_HOOKS;
  ok_reads : readCount (queue s) ≤ 1;
  ok_live : length (liveCallsAwaitingTheHistory s) ≤ MAX_QUEUED_HOOKS;
  ok_evicted : NoDup (evictedLiveCallIds s) ∧ length (evictedLiveCallIds s) ≤ SEEN_CALLS_KEPT;
  ok_fallback : ∀ f, fallback s = Some f → length (toolUseIds f) ≤ MAX_FALLBACK_TOOL_USE_IDS ∧ attempt f ≤ length FALLBACK_READ_DELAYS_MS ∧
                  (isTimerPending f = true → attempt f < length FALLBACK_READ_DELAYS_MS);
  ok_running : queue s ≠ [] → isRunning s = true;
}.
Lemma set_fold_ok s f : state_ok s → fold_ok f → state_ok (set_fold s f).
Proof. intros [] ?. by split. Qed.
Lemma set_cursor_ok s c : state_ok s → state_ok (set_cursor s c).
Proof. intros []. by split. Qed.
Lemma set_stale_ok s flag warned : state_ok s → state_ok (set_stale s flag warned).
Proof. intros []. by split. Qed.
Lemma set_emit_ok s key flag : state_ok s → state_ok (set_emit s key flag).
Proof. intros []. by split. Qed.
Lemma set_closing_ok s : state_ok s → state_ok (set_closing s).
Proof. intros []. by split. Qed.
Lemma set_queue_ok s q flag running :
  state_ok s → hookCount q ≤ MAX_QUEUED_HOOKS → readCount q ≤ 1 → (q ≠ [] → running = true) → state_ok (set_queue s q flag running).
Proof. intros [] ? ? ?. by split. Qed.
Lemma set_live_ok s flag calls evicted :
  state_ok s → length calls ≤ MAX_QUEUED_HOOKS → NoDup evicted → length evicted ≤ SEEN_CALLS_KEPT → state_ok (set_live s flag calls evicted).
Proof. intros [] ? ? ?. by split. Qed.
#[local] Hint Resolve set_fold_ok set_cursor_ok set_stale_ok set_emit_ok set_closing_ok : tracker.

(** *** The queue *)
Lemma hookCount_app q q' : hookCount (q ++ q') = hookCount q + hookCount q'.
Proof. unfold hookCount. by rewrite list.filter_app, length_app. Qed.
Lemma readCount_app q q' : readCount (q ++ q') = readCount q + readCount q'.
Proof. unfold readCount. by rewrite list.filter_app, length_app. Qed.
Lemma one_hook call : hookCount [HookTask call] = 1 ∧ readCount [HookTask call] = 0.
Proof. done. Qed.
Lemma one_read : hookCount [ReadTask] = 0 ∧ readCount [ReadTask] = 1.
Proof. done. Qed.
Lemma without_first_hook_counts q : hookCount (without_first_hook q) = hookCount q - 1 ∧ readCount (without_first_hook q) = readCount q.
Proof.
  induction q as [|[call|] q [IHh IHr]]; [done| |].
  - unfold hookCount, readCount. cbn [without_first_hook]. rewrite !filter_cons. simpl. split; [lia|done].
  - unfold hookCount, readCount in *. cbn [without_first_hook]. rewrite !filter_cons. simpl. split; [done|lia].
Qed.
Lemma hasReadQueued_count q : hasReadQueued q = false → readCount q = 0.
Proof. induction q as [|[call|] q IH]; [done| |done]. unfold readCount in *. rewrite filter_cons. simpl. done. Qed.
Definition may_enqueue (s : SessionState) (t : Task) : Prop := match t with HookTask _ => True | ReadTask => hasReadQueued (queue s) = false end.
Lemma enqueue_ok s t : state_ok s → may_enqueue s t → state_ok (enqueue s t).
Proof.
  intros Hok Hmay. pose proof (ok_hooks _ Hok) as Hh. pose proof (ok_reads _ Hok) as Hr.
  assert (Hcounts : hookCount (queue s ++ [t]) ≤ S MAX_QUEUED_HOOKS ∧ readCount (queue s ++ [t]) ≤ 1).
  { rewrite hookCount_app, readCount_app. destruct t as [call|]; [destruct (one_hook call); lia|]. destruct one_read. apply hasReadQueued_count in Hmay. lia. }
  destruct Hcounts as [Hh' Hr']. destruct (without_first_hook_counts (queue s ++ [t])) as [Hwh Hwr].
  unfold enqueue. cbn [enqueue_within]. destruct (Nat.ltb_spec MAX_QUEUED_HOOKS (hookCount (queue s ++ [t]))) as [Hover|Hroom].
  - destruct (hasReadQueued _) eqn:Hq.
    + change (state_ok (set_queue s (without_first_hook (queue s ++ [t])) true true)). apply set_queue_ok; [done|lia|lia|done].
    + cbn [queue set_queue]. rewrite (proj2 (Nat.ltb_ge _ _)) by (rewrite hookCount_app; destruct one_read; lia). apply hasReadQueued_count in Hq.
      change (state_ok (set_queue s (without_first_hook (queue s ++ [t]) ++ [ReadTask]) true true)).
      destruct one_read. apply set_queue_ok; [done|rewrite hookCount_app; lia|rewrite readCount_app; lia|done].
  - apply set_queue_ok; [done|lia|lia|done].
Qed.
Lemma enqueueRead_ok s : state_ok s → state_ok (enqueueRead s).
Proof.
  intros Hok. unfold enqueueRead. assert (Hs : state_ok (set_queue s (queue s) true (isRunning s))) by (destruct Hok; by split).
  destruct (hasReadQueued (queue s)) eqn:Hq; [done|]. by apply enqueue_ok.
Qed.
Lemma hasReadQueued_iff q : 0 < readCount q → hasReadQueued q = true.
Proof. intros Hq. destruct (hasReadQueued q) eqn:E; [done|]. apply hasReadQueued_count in E. lia. Qed.
(** An overflowing queue drops its oldest hook only with a read of the transcript queued. *)
Lemma a_dropped_hook_is_read_again s call :
  MAX_QUEUED_HOOKS < hookCount (queue s ++ [HookTask call]) → hasReadQueued (queue (enqueue s (HookTask call))) = true.
Proof.
  intros Hover%Nat.ltb_lt. unfold enqueue. cbn [enqueue_within]. rewrite Hover. set (q := without_first_hook (queue s ++ [HookTask call])).
  destruct (hasReadQueued q) eqn:Hq; [done|]. cbn [queue set_queue]. apply hasReadQueued_iff. destruct one_read as [_ Hone].
  destruct (without_first_hook_counts (q ++ [ReadTask])) as [_ Hr]. rewrite readCount_app in Hr.
  repeat case_match; cbn [queue set_queue]; rewrite ?readCount_app; lia.
Qed.

(** *** Fallback reads *)
Definition fallback_ok (f : Fallback) : Prop :=
  length (toolUseIds f) ≤ MAX_FALLBACK_TOOL_USE_IDS ∧ attempt f ≤ length FALLBACK_READ_DELAYS_MS ∧
  (isTimerPending f = true → attempt f < length FALLBACK_READ_DELAYS_MS).
Lemma set_fallback_ok s f : state_ok s → (∀ g, f = Some g → fallback_ok g) → state_ok (set_fallback s f).
Proof. intros [] ?. by split. Qed.
Lemma scheduleFallbackRead_ok trusted s f : state_ok s → fallback_ok f → state_ok (scheduleFallbackRead trusted s f).
Proof.
  intros Hok (Hids & Hatt & Hpend). unfold scheduleFallbackRead. destruct (FALLBACK_READ_DELAYS_MS !! attempt f) eqn:Hdelay.
  - apply set_fallback_ok; [done|]. intros g [= <-]. apply lookup_lt_Some in Hdelay. by split.
  - assert (state_ok (set_fallback s None)) by (by apply set_fallback_ok). destruct trusted; [done|]. by apply set_stale_ok.
Qed.
Lemma startFallback_ok trusted s k : state_ok s → state_ok (startFallback trusted s k).
Proof.
  intros Hok. unfold startFallback. set (f := default _ (fallback s)).
  assert (Hf : length (toolUseIds f) ≤ MAX_FALLBACK_TOOL_USE_IDS).
  { unfold f. destruct (fallback s) as [g|] eqn:Hg; simpl; [by apply (ok_fallback _ Hok)|lia]. }
  set (ids := match k with Some _ => _ | None => _ end).
  assert (Hids : length ids ≤ MAX_FALLBACK_TOOL_USE_IDS).
  { unfold ids. destruct k as [k|]; [|done]. destruct (Nat.ltb_spec (length (toolUseIds f)) MAX_FALLBACK_TOOL_USE_IDS); [|done].
    unfold add_member. destruct (mem_str k (toolUseIds f)); [done|]. rewrite length_app. simpl. lia. }
  assert (Hnew : fallback_ok (mkFallback ids 0 (isTimerPending f) (snapshotKeyAtStart f))) by (split; simpl; [done|lia]).
  apply scheduleFallbackRead_ok; [|done]. apply set_fallback_ok; [done|]. by intros g [= <-].
Qed.
Lemma continueFallback_ok trusted s : state_ok s → state_ok (continueFallback trusted s).
Proof.
  intros Hok. unfold continueFallback. destruct (fallback s) as [f|] eqn:Hf; [|done]. destruct (_ || _); [done|].
  case_match; [by apply set_fallback_ok|]. apply scheduleFallbackRead_ok; [done|]. by apply (ok_fallback _ Hok).
Qed.
Lemma fallbackTimer_ok s : state_ok s → state_ok (fallbackTimer s).
Proof.
  intros Hok. unfold fallbackTimer. destruct (fallback s) as [f|] eqn:Hf; [|done]. destruct (isTimerPending f) eqn:Hp; [|done].
  destruct (ok_fallback _ Hok f Hf) as (Hids & _ & Hlt). apply enqueueRead_ok, set_fallback_ok; [done|]. intros g [= <-].
  specialize (Hlt Hp). split; simpl; [done|]. simpl in Hlt. lia.
Qed.

(** *** Hooks and reads *)
Lemma keepLiveCall_ok s call : state_ok s → state_ok (keepLiveCallUntilTheHistoryIsReconciled s call).
Proof.
  intros Hok. unfold keepLiveCallUntilTheHistoryIsReconciled. destruct (_ ++ [call]) as [|first rest] eqn:Hl; [done|].
  pose proof (ok_live _ Hok) as Hlen. apply (f_equal length) in Hl. rewrite length_app in Hl. simpl in Hl. destruct (ok_evicted _ Hok) as [Hnd Hsize].
  destruct (Nat.leb_spec (length (first :: rest)) MAX_QUEUED_HOOKS); [by apply set_live_ok|].
  destruct (add_member_NoDup (hook_toolUseId first) _ Hnd) as [Hnd' Hsize']. apply set_live_ok; [done|lia| |].
  - eapply suffix_NoDup; [apply drop_oldest_suffix|done].
  - apply drop_oldest_length. lia.
Qed.
Lemma foldHook_ok trusted s call : state_ok s → state_ok (foldHook now Date_parse trusted s call).
Proof.
  intros Hok. unfold foldHook. set (s1 := if mem_str _ _ then _ else s).
  assert (H1 : state_ok s1) by (unfold s1; destruct (mem_str _ _); [apply set_fold_ok, confirmSeenCall_ok; [done|apply Hok]|done]).
  set (s2 := if hasReconciledTheHistory s1 then s1 else _).
  assert (H2 : state_ok s2) by (unfold s2; destruct (hasReconciledTheHistory s1); [done|by apply keepLiveCall_ok]).
  pose proof (applyCompletedCall_ok now Date_parse (fold s2) (mkCall (hook_toolUseId call) (hook_name call) (narrowed_input (hook_call call)) (narrowed_response (hook_call call)) None) (ok_fold _ H2)) as Hf.
  change (fold_ok (foldHookPayload now Date_parse (fold s2) call).1) in Hf.
  destruct (foldHookPayload _ _ _ _) as [f applied]. simpl in Hf. case_match; [apply startFallback_ok|]; by apply set_fold_ok.
Qed.
Lemma reconcile_ok s : state_ok s → state_ok (reconcileLiveCallsWithTheHistory now Date_parse s).
Proof.
  intros Hok. unfold reconcileLiveCallsWithTheHistory. destruct (ok_evicted _ Hok) as [Hnd Hsize]. apply set_live_ok.
  - apply set_fold_ok; [done|]. apply fold_left_ok; [|apply Hok]. intros f call Hf. unfold replay_live_call.
    destruct (mem_str _ _); [by apply confirmSeenCall_ok|by apply applyCompletedCall_ok].
  - simpl. lia.
  - by apply list.NoDup_filter.
  - etransitivity; [apply sublist_length, sublist_filter|done].
Qed.
Lemma foldTranscriptText_ok f text : fold_ok f → fold_ok (foldTranscriptText now Date_parse JSON_parse f text).
Proof. intros Hf. apply fold_left_ok; [intros; by apply foldTranscriptLine_ok|done]. Qed.
Definition loop_ok (l : ReadLoop) : Prop := state_ok (loop_state l) ∧ ∀ f, rebuilt l = Some f → fold_ok f.
Lemma read_step_ok path view l :
  loop_ok l → match read_step now Date_parse JSON_parse decode path view l with ReadOn l' | ReadEnds l' | ReadThrows l' => loop_ok l' end.
Proof.
  intros [Hs Hf]. unfold read_step. destruct view as [file|]; [|done]. destruct (readTranscriptChunk _ _ _) as [| |text next ino size]; [done| |].
  - split; [done|]. simpl. intros f [= <-]. apply createTodoFold_ok.
  - match goal with |- context [mkLoop ?s' ?r' _ _ _ _] => assert (Hl : ∀ c b z n, loop_ok (mkLoop s' r' c b z n)) end.
    { intros c b z n. split; simpl; destruct (rebuilt l) as [t|]; simpl; [done| | |done].
      - apply set_cursor_ok, set_fold_ok; [done|]. apply foldTranscriptText_ok, Hs.
      - intros f [= <-]. apply foldTranscriptText_ok. by apply Hf. }
    destruct (_ || _); apply Hl.
Qed.
Lemma read_loop_ok fuel path views l r : loop_ok l → read_loop now Date_parse JSON_parse decode fuel path views l = Some r → loop_ok r.2.
Proof.
  revert views l. induction fuel as [|fuel IH]; intros views l Hl; [done|]. cbn [read_loop].
  pose proof (read_step_ok path (views 0) l Hl) as Hstep. destruct (read_step _ _ _ _ _ _ _); [by apply IH|by intros [= <-]..].
Qed.
Lemma end_of_read_ok flag l : loop_ok l → state_ok (end_of_read now Date_parse flag l).
Proof.
  intros [Hs Hf]. unfold end_of_read. apply set_stale_ok.
  pose proof (ok_fold _ Hs) as Hold. destruct (rebuilt l) as [t|] eqn:Hr; destruct (loop_cursor l) as [c|]; destruct flag, (hasReadHistoryText l); cbn [negb orb andb];
    repeat first [done | apply reconcile_ok | apply set_fold_ok | apply set_cursor_ok | apply markRowsUnverified_ok | by apply Hf].
Qed.
Lemma readTranscript_ok trusted views s : state_ok s → state_ok (readTranscript now Date_parse JSON_parse decode trusted views s).
Proof.
  intros Hok. unfold readTranscript. destruct trusted as [path|]; [|done].
  assert (Hstart : loop_ok (start_of_read s path)).
  { split; simpl; [done|]. intros f. destruct (_ && _); [|done]. intros [= <-]. apply createTodoFold_ok. }
  destruct (read_loop _ _ _ _ _ _ _ _) as [[[|] l]|] eqn:Hl; [| |done]; apply read_loop_ok in Hl; simpl in Hl; try done.
  - by apply end_of_read_ok.
  - by apply set_stale_ok, Hl.
Qed.

(** ** The invariant of the tracker *)
Record tracker_ok (t : TodoTracker) : Prop := mkTrackerOk {
  ok_states : Forall (λ e : str * SessionState, session e.2 = e.1 ∧ state_ok e.2) (states t);
  ok_sessions : NoDup (states t).*1;
  ok_closed : length (closedSnapshots t) ≤ CLOSED_SNAPSHOTS_KEPT ∧ NoDup (closedSnapshots t).*1;
  ok_wire : Forall (λ todos, SessionTodosSchema todos = true) ((closedSnapshots t).*2 ++ emitted t);
}.
Lemma newState_ok k createdAt : state_ok (newState Date_parse k createdAt).
Proof. split; simpl; try done; try lia; [apply createTodoFold_ok|unfold hookCount; simpl; lia|unfold readCount; simpl; lia|split; [constructor|lia]]. Qed.
Lemma snapshotOfState_schema s : state_ok s → SessionTodosSchema (snapshotOfState s) = true.
Proof.
  intros Hok. destruct (snapshotOf_schema (fold s) (session s) (ok_fold _ Hok)) as [Hschema _].
  unfold snapshotOfState. destruct (_ || _); done.
Qed.
Lemma get_state_ok t k s : tracker_ok t → get (states t) k = Some s → session s = k ∧ state_ok s.
Proof. intros Hok Hg%get_sound. by apply (proj1 (list.Forall_forall _ _) (ok_states _ Hok) (k, s)). Qed.
Lemma stateOf_ok t k createdAt : tracker_ok t → session (stateOf Date_parse t k createdAt) = k ∧ state_ok (stateOf Date_parse t k createdAt).
Proof.
  intros Hok. unfold stateOf. destruct (get (states t) k) as [s|] eqn:Hg; simpl; [by apply (get_state_ok t)|]. split; [done|apply newState_ok].
Qed.
Lemma put_state_ok t k s out :
  tracker_ok t → session s = k → state_ok s → Forall (λ todos, SessionTodosSchema todos = true) out →
  tracker_ok (mkTracker (put (states t) k s) (closedSnapshots t) (emitted t ++ out)).
Proof.
  intros [Hall Hnd Hclosed Hwire] Hk Hs Hout. split; simpl; [|by apply put_keys_NoDup|done|].
  - apply list.Forall_forall. intros e [->|He]%put_elem; [done|]. by apply (proj1 (list.Forall_forall _ _) Hall).
  - rewrite app_assoc. by apply list.Forall_app.
Qed.
Lemma set_state_ok t s : tracker_ok t → state_ok s → tracker_ok (set_state t s).
Proof. intros Hok Hs. unfold set_state. rewrite <- (app_nil_r (emitted t)). by apply put_state_ok; [| | |constructor]. Qed.
Lemma emitIfChanged_ok s : state_ok s → state_ok (emitIfChanged s).1 ∧ session (emitIfChanged s).1 = session s ∧
  Forall (λ todos, SessionTodosSchema todos = true) (emitIfChanged s).2.
Proof.
  intros Hok. unfold emitIfChanged. case_bool_decide; simpl; [split; [done|split; [done|constructor]]|].
  split; [by apply set_emit_ok|]. split; [done|]. constructor; [by apply snapshotOfState_schema|constructor].
Qed.
Lemma del_states_ok t k : tracker_ok t → tracker_ok (mkTracker (del (states t) k) (closedSnapshots t) (emitted t)).
Proof.
  intros [Hall Hnd Hclosed Hwire]. split; simpl; [|by apply del_keys_NoDup|done|done].
  apply list.Forall_forall. intros e [_ He]%list_elem_of_filter. by apply (proj1 (list.Forall_forall _ _) Hall).
Qed.
Lemma sublist_values {A} (r r' : rec A) : r `sublist_of` r' → ∀ v, v ∈ r.*2 → v ∈ r'.*2.
Proof. intros Hsub v Hv. eapply elem_of_submseteq; [exact Hv|]. apply sublist_submseteq, fmap_sublist, Hsub. Qed.
Lemma drop_oldest_sublist {A} n (l : list A) : drop_oldest n l `sublist_of` l.
Proof. unfold drop_oldest. destruct (Nat.leb _ _); [done|]. destruct l as [|x l]; [done|]. by apply sublist_cons. Qed.
Lemma finalize_ok t s : tracker_ok t → state_ok s → tracker_ok (finalizeClosedSession t s).
Proof.
  intros Hok Hs. unfold finalizeClosedSession. destruct (emitIfChanged_ok s Hs) as (Hs' & _ & Hout).
  destruct (emitIfChanged s) as [s' out]. simpl in *. destruct (ok_closed _ Hok) as [Hlen Hnd]. pose proof (ok_wire _ Hok) as Hwire. apply list.Forall_app in Hwire as [Hc He].
  split; simpl; [apply (ok_states _ (del_states_ok t (session s) Hok))|by apply del_keys_NoDup, Hok| |].
  - split; [|by apply drop_oldest_keys_NoDup, put_keys_NoDup]. apply drop_oldest_length. etransitivity; [apply put_length|]. lia.
  - apply list.Forall_app. split; [|by apply list.Forall_app]. apply list.Forall_forall. intros v Hv.
    apply (sublist_values _ (put (closedSnapshots t) (session s) (snapshotOfState s'))) in Hv; [|apply drop_oldest_sublist].
    apply list_elem_of_fmap in Hv as (e & -> & [->|Hin]%put_elem); [by apply snapshotOfState_schema|].
    apply (proj1 (list.Forall_forall _ _) Hc), list_elem_of_fmap. by exists e.
Qed.
Lemma on_state_ok t k act : tracker_ok t → (∀ s, session s = k → state_ok s → tracker_ok (act s)) → tracker_ok (on_state t k act).
Proof. intros Hok Hact. unfold on_state. destruct (get (states t) k) as [s|] eqn:Hg; [|done]. destruct (get_state_ok t k s Hok Hg). by apply Hact. Qed.
Lemma count_tail q x : hookCount q ≤ hookCount (x :: q) ∧ readCount q ≤ readCount (x :: q).
Proof. unfold hookCount, readCount. rewrite !filter_cons. split; case_decide; simpl; lia. Qed.
Lemma run_step_ok trusted views t s :
  tracker_ok t → state_ok s → isRunning s = true → tracker_ok (run_step now Date_parse JSON_parse decode trusted views t s).
Proof.
  intros Hok Hs Hrun. unfold run_step. destruct (queue s) as [|x rest] eqn:Hq.
  - unfold afterRun. assert (Hidle : state_ok (set_queue s [] (hasQueuedARead s) false)) by (apply set_queue_ok; [done|vm_compute; lia|vm_compute; lia|done]).
    destruct (isClosing _); [by apply finalize_ok|]. by apply set_state_ok, set_emit_ok, continueFallback_ok.
  - destruct (count_tail rest x) as [Hh Hr]. pose proof (ok_hooks _ Hs) as Hhooks. pose proof (ok_reads _ Hs) as Hreads. rewrite Hq in Hhooks, Hreads.
    assert (Hnext : state_ok (set_queue s rest (hasQueuedARead s) (isRunning s))) by (apply set_queue_ok; [done|lia|lia|done]).
    destruct x as [call|]; apply set_state_ok; [done|by apply foldHook_ok|done|by apply readTranscript_ok].
Qed.
Lemma handle_ok t e : tracker_ok t → tracker_ok (handle now Date_parse JSON_parse decode t e).
Proof.
  intros Hok. destruct e as [k createdAt call|k createdAt|k|k createdAt trusted call_id|k trusted views|k|k|k|k];
    cbn [handle]; unfold applyHook, repair, catchUp, readAfterHookWithoutPayload, emitTimer, closeSession, reopenSession.
  - destruct (stateOf_ok t k createdAt Hok) as [_ Hs]. apply set_state_ok; [done|]. apply enqueue_ok; [|done]. destruct (hasQueuedARead _); [done|by apply enqueueRead_ok].
  - destruct (stateOf_ok t k createdAt Hok) as [_ Hs]. by apply set_state_ok, enqueueRead_ok.
  - apply on_state_ok; [done|]. intros s _ Hs. by apply set_state_ok, enqueueRead_ok.
  - destruct (stateOf_ok t k createdAt Hok) as [_ Hs]. by apply set_state_ok, startFallback_ok.
  - apply on_state_ok; [done|]. intros s _ Hs. destruct (isRunning s) eqn:Hrun; [by apply run_step_ok|done].
  - apply on_state_ok; [done|]. intros s Hk Hs. destruct (_ && _); [|done].
    destruct (emitIfChanged_ok (set_emit s (lastEmittedKey s) false) (set_emit_ok _ _ _ Hs)) as (Hs' & Hk' & Hout).
    destruct (emitIfChanged _) as [s' out]. by apply put_state_ok; [|simpl in Hk'; congruence| |].
  - apply on_state_ok; [done|]. intros s _ Hs. destruct (isClosing s); [done|]. by apply set_state_ok, fallbackTimer_ok.
  - apply on_state_ok; [done|]. intros s _ Hs. destruct (_ && _); [apply finalize_ok|apply set_state_ok]; auto using set_closing_ok.
  - assert (Hok' : tracker_ok (mkTracker (states t) (del (closedSnapshots t) k) (emitted t))).
    { destruct Hok as [Hall Hnd [Hlen Hkeys] Hwire]. apply list.Forall_app in Hwire as [Hc He]. split; simpl; [done|done| |].
      - split; [etransitivity; [apply sublist_length, sublist_filter|done]|by apply del_keys_NoDup].
      - apply list.Forall_app. split; [|done]. apply list.Forall_forall. intros v Hv.
        apply (sublist_values _ (closedSnapshots t)) in Hv; [|apply sublist_filter]. by apply (proj1 (list.Forall_forall _ _) Hc). }
    apply on_state_ok; [done|]. intros s _ Hs. destruct (isClosing s); [by apply (del_states_ok _ k Hok')|done].
Qed.
(** Through any sequence of hooks, reads, timers, closings and reopenings, with the transcripts behaving as
    they may, every session keeps its bounds (queued hooks and reads, live calls, evicted calls, fallback reads,
    the fold), at most CLOSED_SNAPSHOTS_KEPT closed lists are kept, and every snapshot that is emitted or kept
    meets the schema of the wire. *)
Theorem tracker_stays_bounded events : tracker_ok (fold_left (handle now Date_parse JSON_parse decode) events new_tracker).
Proof.
  assert (Hnew : tracker_ok new_tracker) by (split; simpl; try constructor; try constructor; lia).
  revert Hnew. generalize (new_tracker). induction events as [|e events IH]; intros t Hok; [done|]. simpl. by apply IH, handle_ok.
Qed.

(** ** Live calls and the history *)
Definition replayed (history : TodoFold) (calls : list TodoHookCall) : TodoFold := fold_left (replay_live_call now Date_parse) calls history.
(** Hooks that arrive before the history is read fold after it: reading a whole transcript rebuilds the list
    from its text alone, flags those rows as unverified, and replays over them the live calls it does not hold,
    in the order they came; whatever the list was before does not matter. *)
Theorem live_calls_replay_over_the_history s path views f text next ino size :
  hasReconciledTheHistory s = false → liveCallsAwaitingTheHistory s ≠ [] → views 0 = Some f →
  readTranscriptChunk decode f (mkRequest 0 None TODO_CHUNK_BYTES MAX_FOLD_BYTES) = Chunk text next ino size → size ≤ next → text ≠ [] →
  let s' := readTranscript now Date_parse JSON_parse decode (Some path) views s in
  fold s' = replayed (markRowsUnverified (foldTranscriptText now Date_parse JSON_parse (createTodoFold (notBefore (fold s))) text)) (liveCallsAwaitingTheHistory s) ∧
  hasReconciledTheHistory s' = true ∧ liveCallsAwaitingTheHistory s' = [] ∧ isStale s' = false ∧ cursor s' = Some (mkCursor path ino next) ∧
  ∀ k, k ∈ evictedLiveCallIds s' ↔ k ∈ evictedLiveCallIds s ∧ k ∉ seenCalls (fold s').
Proof.
  intros Hrec Hlive Hview Hread Hsize Htext. cbn zeta. unfold readTranscript. change READ_FUEL with (S (2 * MAX_CHUNKS_PER_READ + 1)). cbn [read_loop]. unfold read_step, start_of_read.
  rewrite Hrec, Hview. assert (Hl : Nat.ltb 0 (length (liveCallsAwaitingTheHistory s)) = true) by (destruct (liveCallsAwaitingTheHistory s); done).
  rewrite Hl. cbn [negb andb orb]. rewrite orb_true_r. cbn [loop_cursor fmap option_fmap option_map rebuilt loop_state sizeAtStart chunksRead hasReadHistoryText]. rewrite Hread.
  cbn [default]. unfold default. rewrite (proj2 (Nat.leb_le _ _) Hsize). cbn [orb].
  assert (Ht : Nat.ltb 0 (length text) = true) by (destruct text; done). rewrite Ht.
  unfold end_of_read. cbn [loop_cursor rebuilt loop_state hasReadHistoryText negb orb andb]. do 5 (split; [done|]).
  intros k. cbn [fold evictedLiveCallIds set_live set_fold set_stale reconcileLiveCallsWithTheHistory]. rewrite list_elem_of_filter.
  assert (Hmem : ∀ l, mem_str k l = false ↔ k ∉ l) by (intros l; rewrite <- not_true_iff_false, mem_str_In, list_elem_of_In; done).
  rewrite Hmem. tauto.
Qed.
End Facts.

(** ** Example *)
Section Example.
#[local] Existing Instance integers.
#[local] Instance plain_texts_of_the_example : TextTools := {| normalizeNFC s := s; maskedSecrets s := s; maskingCutCredential s := s |}.
Definition sample_hook : TodoHookCall := mkHookCall (js "toolu_2") TodoWrite (mkNarrowed no_input None).
Definition waiting_state : SessionState :=
  keepLiveCallUntilTheHistoryIsReconciled (newState (λ _, None) (js "s1") None) sample_hook.
Definition sample_content : list N := js "line one" ++ [NEWLINE_BYTE].
Lemma sample_content_chunk :
  readTranscriptChunk (λ b, b) (Regular 7 sample_content) (mkRequest 0 None TODO_CHUNK_BYTES MAX_FOLD_BYTES) = Chunk sample_content 9 7 9.
Proof.
  assert (Hlen : length sample_content = 9) by reflexivity. assert (Hmax : 9 < TODO_CHUNK_BYTES) by (unfold TODO_CHUNK_BYTES; lia).
  rewrite (chunk_at (λ b, b) TODO_CHUNK_BYTES MAX_FOLD_BYTES); [|lia|lia|unfold MAX_FOLD_BYTES; rewrite Hlen; lia| |by left].
  - unfold piece_at. rewrite drop_0, take_ge by lia. reflexivity.
  - intros pre mid post Heq Hmid. apply (f_equal length) in Heq. rewrite !length_app in Heq. lia.
Qed.
Lemma live_calls_replay_over_the_history_witness :
  let s' := readTranscript (λ _, 0%Z) (λ _, None) (λ _, None) (λ b, b) (Some (js "t.jsonl")) (λ _, Some (Regular 7 sample_content)) waiting_state in
  hasReconciledTheHistory s' = true ∧ liveCallsAwaitingTheHistory s' = [] ∧ cursor s' = Some (mkCursor (js "t.jsonl") 7 9).
Proof.
  destruct (live_calls_replay_over_the_history (λ _, 0%Z) (λ _, None) (λ _, None) (λ b, b) waiting_state (js "t.jsonl") (λ _, Some (Regular 7 sample_content))
    (Regular 7 sample_content) sample_content 9 7 9) as (_ & Hrec & Hlive & _ & Hcursor & _);
    [reflexivity|discriminate|reflexivity|apply sample_content_chunk|lia|discriminate|]. exact (conj Hrec (conj Hlive Hcursor)).
Defined.
End Example.
