(* ===== verification/HumanDraft.v ===== *)
(** * The draft of the human

    Model of [packages/core/src/sessions/humanDraft.ts]: whether the prompt of a terminal may hold
    text the human typed and did not send, read from the bytes of the keyboard.  The record is
    the fields of the class, every method a function on it.  A character is its code point, as
    [for (const character of keys)] iterates a string; [None] is the empty [lastCharacter]. *)
From S2P Require Import Prelude JsText Regex PolicyTypes PlaybookKernel.

Definition ESCAPE : N := 27.
Definition CARRIAGE_RETURN : N := 13.
Definition LINE_FEED : N := 10.
Definition BACKSPACE : N := 8.
Definition DELETE : N := 127.
Definition BACKSLASH_KEY : N := 92.
Definition CTRL_C : N := 3.
Definition CTRL_U : N := 21.
Definition BRACKETED_PASTE_PARAMETERS : list N := js "200".
Definition BRACKETED_PASTE_END : list N := ESCAPE :: js "[201~".
Definition EDITING_CONTROLS : list N := [4; 11; 20; 23; 25]%N.
Definition CURSOR_CONTROLS : list N := [1; 2; 5; 6]%N.
Definition HISTORY_FINAL_BYTES : list N := js "AB".
Definition CURSOR_FINAL_BYTES : list N := js "CDHF".
Definition CURSOR_TILDE_PARAMETERS : list (list N) := [js "1"; js "4"; js "7"; js "8"].
Definition FIRST_PRINTABLE_CODE_POINT : N := 32.
Definition DOUBLE_ESCAPE_WINDOW_MS : Z := 1000.
Definition ESCAPE_FOLLOW_UP_WINDOW_MS : Z := 250.

Definition isControl (character : N) : bool := N.ltb character FIRST_PRINTABLE_CODE_POINT.
Definition isParameterByteOfControlSequence (character : N) : bool := in_range 32 63 character.
Definition isFinalByteOfControlSequence (character : N) : bool := in_range 64 126 character.

Inductive ReadingMode := Keys | EscapeMode | ControlSequence | SingleShift | PasteMode.
#[export] Instance ReadingMode_eq_dec : EqDecision ReadingMode.
Proof. solve_decision. Defined.

Record HumanDraft := mkDraft
  { typedCharacterCount : nat; mayHoldUnseenText : bool; eraseMayLeaveText : bool; lastCharacter : option N; lastLoneEscapeAt : option Z;
    mode : ReadingMode; pendingEscapeAt : Z; controlSequenceParameters : list N; pasteEndCandidate : list N }.
Definition new_draft : HumanDraft := mkDraft 0 false false None None Keys 0 [] [].

Definition isPresent (d : HumanDraft) : bool := Nat.ltb 0 (typedCharacterCount d) || mayHoldUnseenText d.

(** *** Updates of one field *)
Definition set_count (n : nat) (d : HumanDraft) : HumanDraft :=
  mkDraft n (mayHoldUnseenText d) (eraseMayLeaveText d) (lastCharacter d) (lastLoneEscapeAt d) (mode d) (pendingEscapeAt d) (controlSequenceParameters d) (pasteEndCandidate d).
Definition set_unseen (d : HumanDraft) : HumanDraft :=
  mkDraft (typedCharacterCount d) true (eraseMayLeaveText d) (lastCharacter d) (lastLoneEscapeAt d) (mode d) (pendingEscapeAt d) (controlSequenceParameters d) (pasteEndCandidate d).
Definition set_erase (d : HumanDraft) : HumanDraft :=
  mkDraft (typedCharacterCount d) (mayHoldUnseenText d) true (lastCharacter d) (lastLoneEscapeAt d) (mode d) (pendingEscapeAt d) (controlSequenceParameters d) (pasteEndCandidate d).
Definition set_last (c : N) (d : HumanDraft) : HumanDraft :=
  mkDraft (typedCharacterCount d) (mayHoldUnseenText d) (eraseMayLeaveText d) (Some c) (lastLoneEscapeAt d) (mode d) (pendingEscapeAt d) (controlSequenceParameters d) (pasteEndCandidate d).
Definition set_lone (at_ : option Z) (d : HumanDraft) : HumanDraft :=
  mkDraft (typedCharacterCount d) (mayHoldUnseenText d) (eraseMayLeaveText d) (lastCharacter d) at_ (mode d) (pendingEscapeAt d) (controlSequenceParameters d) (pasteEndCandidate d).
Definition set_mode (m : ReadingMode) (d : HumanDraft) : HumanDraft :=
  mkDraft (typedCharacterCount d) (mayHoldUnseenText d) (eraseMayLeaveText d) (lastCharacter d) (lastLoneEscapeAt d) m (pendingEscapeAt d) (controlSequenceParameters d) (pasteEndCandidate d).
Definition set_pendingAt (at_ : Z) (d : HumanDraft) : HumanDraft :=
  mkDraft (typedCharacterCount d) (mayHoldUnseenText d) (eraseMayLeaveText d) (lastCharacter d) (lastLoneEscapeAt d) (mode d) at_ (controlSequenceParameters d) (pasteEndCandidate d).
Definition set_parameters (p : list N) (d : HumanDraft) : HumanDraft :=
  mkDraft (typedCharacterCount d) (mayHoldUnseenText d) (eraseMayLeaveText d) (lastCharacter d) (lastLoneEscapeAt d) (mode d) (pendingEscapeAt d) p (pasteEndCandidate d).
Definition set_candidate (c : list N) (d : HumanDraft) : HumanDraft :=
  mkDraft (typedCharacterCount d) (mayHoldUnseenText d) (eraseMayLeaveText d) (lastCharacter d) (lastLoneEscapeAt d) (mode d) (pendingEscapeAt d) (controlSequenceParameters d) c.

(** *** What a key does *)
Definition empty (d : HumanDraft) : HumanDraft :=
  mkDraft 0 false false None None (mode d) (pendingEscapeAt d) (controlSequenceParameters d) (pasteEndCandidate d).
Definition moveCursorAway (d : HumanDraft) : HumanDraft := if isPresent d then set_erase d else d.
Definition addLine (d : HumanDraft) : HumanDraft := let d := set_last LINE_FEED d in if isPresent d then set_erase d else d.
Definition killToLineStart (d : HumanDraft) : HumanDraft := if eraseMayLeaveText d then set_unseen d else empty d.
Definition eraseBackward (d : HumanDraft) : HumanDraft := if eraseMayLeaveText d then set_unseen d else set_count (typedCharacterCount d - 1) d.
Definition recallHistory (d : HumanDraft) : HumanDraft := set_erase (set_unseen d).
Definition isNewLineKey (c : N) : bool := N.eqb c CARRIAGE_RETURN || N.eqb c LINE_FEED.
Definition isEraseKey (c : N) : bool := N.eqb c DELETE || N.eqb c BACKSPACE.

Definition press (key : N) (d0 : HumanDraft) : HumanDraft :=
  let d := set_lone None d0 in
  let isSubmit := isNewLineKey key in
  let isLineContinuation := isSubmit && bool_decide (lastCharacter d = Some BACKSLASH_KEY) in
  if isLineContinuation then addLine d
  else if isSubmit || N.eqb key CTRL_C then empty d
  else if N.eqb key CTRL_U then killToLineStart d
  else
    let d' :=
      if isEraseKey key then eraseBackward d
      else if mem_chr key EDITING_CONTROLS then set_unseen d
      else if mem_chr key CURSOR_CONTROLS then moveCursorAway d
      else if negb (isControl key) then set_count (typedCharacterCount d + 1) d
      else d in
    if isPresent d' then set_last key d' else d'.

(** *** Reading the stream *)
Definition beginEscape (nowMs : Z) (d : HumanDraft) : HumanDraft :=
  let isSecondEscape := match lastLoneEscapeAt d with Some t => Z.leb (nowMs - t) DOUBLE_ESCAPE_WINDOW_MS | None => false end in
  if isSecondEscape then empty d else set_pendingAt nowMs (set_mode EscapeMode d).
Definition readKey (character : N) (nowMs : Z) (d : HumanDraft) : HumanDraft :=
  if N.eqb character ESCAPE then beginEscape nowMs d else press character d.
Definition settleStalePendingEscape (nowMs : Z) (d : HumanDraft) : HumanDraft :=
  if bool_decide (mode d = EscapeMode) && Z.ltb ESCAPE_FOLLOW_UP_WINDOW_MS (nowMs - pendingEscapeAt d)
  then set_mode Keys (set_lone (Some (pendingEscapeAt d)) d) else d.
Definition beginControlSequence (d : HumanDraft) : HumanDraft := set_parameters [] (set_mode ControlSequence d).
Definition readAfterEscape (character : N) (nowMs : Z) (d0 : HumanDraft) : HumanDraft :=
  if N.eqb character ESCAPE then beginEscape nowMs (set_mode Keys (set_lone (Some (pendingEscapeAt d0)) d0))
  else
    let d := set_lone None d0 in
    if N.eqb character (chr "[") then beginControlSequence d
    else if N.eqb character (chr "O") then set_mode SingleShift d
    else
      let d' := set_mode Keys d in
      if isNewLineKey character then addLine d'
      else if isEraseKey character then set_unseen d'
      else moveCursorAway d'.
Definition beginPaste (d : HumanDraft) : HumanDraft := set_candidate [] (set_mode PasteMode d).
Definition finishControlSequence (parameters : list N) (finalByte : N) (d : HumanDraft) : HumanDraft :=
  let isTilde := N.eqb finalByte (chr "~") in
  if isTilde && str_eqb parameters BRACKETED_PASTE_PARAMETERS then beginPaste d
  else if mem_chr finalByte HISTORY_FINAL_BYTES then recallHistory d
  else if str_eqb parameters (js "3") && isTilde then set_unseen d
  else if mem_chr finalByte CURSOR_FINAL_BYTES || (isTilde && mem_str parameters CURSOR_TILDE_PARAMETERS) then moveCursorAway d
  else d.
Definition readControlSequenceByte (character : N) (nowMs : Z) (d : HumanDraft) : HumanDraft :=
  if isParameterByteOfControlSequence character then set_parameters (controlSequenceParameters d ++ [character]) d
  else
    let d' := set_mode Keys d in
    if isFinalByteOfControlSequence character then finishControlSequence (controlSequenceParameters d') character d' else readKey character nowMs d'.
Definition readSingleShiftByte (finalByte : N) (d0 : HumanDraft) : HumanDraft :=
  let d := set_mode Keys d0 in
  if mem_chr finalByte HISTORY_FINAL_BYTES then recallHistory d else if mem_chr finalByte CURSOR_FINAL_BYTES then moveCursorAway d else d.
Definition finishPaste (d : HumanDraft) : HumanDraft := set_candidate [] (set_mode Keys d).
Definition countPastedCharacter (d : HumanDraft) (character : N) : HumanDraft :=
  let d' := set_last character (set_count (typedCharacterCount d + 1) d) in
  if isNewLineKey character then set_erase d' else d'.
Definition readPastedCharacter (character : N) (d : HumanDraft) : HumanDraft :=
  let candidate := pasteEndCandidate d ++ [character] in
  if str_eqb candidate BRACKETED_PASTE_END then finishPaste d
  else if startsWith BRACKETED_PASTE_END candidate then set_candidate candidate d
  else
    let d' := fold_left countPastedCharacter (pasteEndCandidate d) d in
    if N.eqb character ESCAPE then set_candidate [character] d' else countPastedCharacter (set_candidate [] d') character.
Definition read (nowMs : Z) (d : HumanDraft) (character : N) : HumanDraft :=
  match mode d with
  | Keys => readKey character nowMs d
  | EscapeMode => readAfterEscape character nowMs d
  | ControlSequence => readControlSequenceByte character nowMs d
  | SingleShift => readSingleShiftByte character d
  | PasteMode => readPastedCharacter character d
  end.
(** The code points of a string: a surrogate pair is one. *)
Fixpoint characters (s : str) : list N :=
  match s with
  | h :: ((l :: rest) as tail) =>
      if is_high_surrogate h && is_low_surrogate l then (65536 + (h - 55296) * 1024 + (l - 56320))%N :: characters rest else h :: characters tail
  | _ => s
  end.
Definition observe_characters (keys : list N) (nowMs : Z) (d : HumanDraft) : HumanDraft := fold_left (read nowMs) keys (settleStalePendingEscape nowMs d).
Definition observe (keys : str) (nowMs : Z) (d : HumanDraft) : HumanDraft := observe_characters (characters keys) nowMs d.
