(* ===== verification/HumanDraftFacts.v ===== *)
(** * The draft of the human: facts

    The stream reads the same however it is cut, and a draft that is not present means an empty
    prompt: the prompt of the terminal is specified by [prompt_step], what each key does to its text and
    cursor, and every run of it is tracked by the draft. *)
From S2P Require Import Prelude JsText Regex PolicyTypes PlaybookKernel HumanDraft.

(** ** Chunks *)
Definition fresh (nowMs : Z) (d : HumanDraft) : Prop := mode d = EscapeMode → (nowMs - pendingEscapeAt d ≤ ESCAPE_FOLLOW_UP_WINDOW_MS)%Z.
Lemma settle_fresh nowMs d : fresh nowMs (settleStalePendingEscape nowMs d).
Proof.
  unfold settleStalePendingEscape, fresh. case_bool_decide; simpl; [|done]. destruct (Z.ltb_spec ESCAPE_FOLLOW_UP_WINDOW_MS (nowMs - pendingEscapeAt d)); done.
Qed.
Lemma settle_id nowMs d : fresh nowMs d → settleStalePendingEscape nowMs d = d.
Proof.
  unfold settleStalePendingEscape, fresh. case_bool_decide as Hm; [|done]. intros Hf. specialize (Hf Hm).
  destruct (Z.ltb_spec ESCAPE_FOLLOW_UP_WINDOW_MS (nowMs - pendingEscapeAt d)); [lia|done].
Qed.
Lemma keys_fresh nowMs d : mode d = Keys → fresh nowMs d.
Proof. unfold fresh. congruence. Qed.
Lemma press_mode key d : mode (press key d) = mode d.
Proof. unfold press, addLine, killToLineStart, eraseBackward, moveCursorAway, empty. repeat case_match; simplify_eq/=; congruence. Qed.
Lemma readKey_fresh c nowMs d : mode d = Keys → fresh nowMs (readKey c nowMs d).
Proof.
  intros Hm. unfold readKey. destruct (N.eqb c ESCAPE); [|apply keys_fresh; by rewrite press_mode].
  unfold beginEscape. case_match; [by apply keys_fresh|]. unfold fresh, ESCAPE_FOLLOW_UP_WINDOW_MS. simpl. lia.
Qed.
Lemma fold_count_mode cs d : mode (fold_left countPastedCharacter cs d) = mode d.
Proof. revert d. induction cs as [|c cs IH]; intros d; simpl; [done|]. rewrite IH. unfold countPastedCharacter. by destruct (isNewLineKey c). Qed.
Lemma read_fresh nowMs c d : fresh nowMs (read nowMs d c).
Proof.
  unfold read. destruct (mode d) eqn:Hm.
  - by apply readKey_fresh.
  - unfold readAfterEscape, beginEscape, addLine, moveCursorAway, beginControlSequence, fresh, ESCAPE_FOLLOW_UP_WINDOW_MS.
    repeat case_match; simplify_eq/=; intros; first [done|congruence|lia].
  - unfold readControlSequenceByte. destruct (isParameterByteOfControlSequence c); [unfold fresh; simpl; congruence|].
    destruct (isFinalByteOfControlSequence c); [|by apply readKey_fresh].
    unfold finishControlSequence, beginPaste, recallHistory, moveCursorAway, fresh. repeat case_match; simplify_eq/=; intros; congruence.
  - unfold readSingleShiftByte, recallHistory, moveCursorAway, fresh. repeat case_match; simplify_eq/=; intros; congruence.
  - unfold readPastedCharacter, fresh. case_match; [done|]. case_match; [simpl; congruence|]. case_match; [cbn [mode set_candidate]; rewrite fold_count_mode; congruence|].
    unfold countPastedCharacter. case_match; cbn [mode set_candidate set_last set_count set_erase]; rewrite fold_count_mode; congruence.
Qed.
Lemma fold_read_fresh nowMs keys d : fresh nowMs d → fresh nowMs (fold_left (read nowMs) keys d).
Proof. revert d. induction keys as [|c keys IH]; intros d Hd; simpl; [done|]. apply IH, read_fresh. Qed.
(** The bytes are one stream: an escape sequence or a paste cut by a chunk boundary reads as the uncut one. *)
Lemma observe_characters_app keys keys' nowMs d :
  observe_characters (keys ++ keys') nowMs d = observe_characters keys' nowMs (observe_characters keys nowMs d).
Proof.
  unfold observe_characters. rewrite fold_left_app. f_equal. symmetry. apply settle_id, fold_read_fresh, settle_fresh.
Qed.
Definition cuts_no_pair (s s' : str) : Prop := ∀ h l, list.last s = Some h → head s' = Some l → is_high_surrogate h && is_low_surrogate l = false.
Lemma characters_cons h l rest :
  characters (h :: l :: rest) =
    if is_high_surrogate h && is_low_surrogate l then (65536 + (h - 55296) * 1024 + (l - 56320))%N :: characters rest else h :: characters (l :: rest).
Proof. done. Qed.
Lemma characters_app s s' : cuts_no_pair s s' → characters (s ++ s') = characters s ++ characters s'.
Proof.
  remember (length s) as n eqn:Hn. revert s Hn. induction (lt_wf n) as [n _ IH]. intros s -> Hcut.
  destruct s as [|h [|l s]]; [done| |].
  - destruct s' as [|l s']; [done|]. cbn [app]. rewrite characters_cons. by rewrite (Hcut h l).
  - cbn [app]. rewrite !characters_cons. destruct (is_high_surrogate h && is_low_surrogate l) eqn:Hp.
    + cbn [app]. f_equal. apply (IH (length s)); [simpl; lia|done|]. intros h' l' Hl Hh. apply Hcut; [|done]. destruct s; [done|exact Hl].
    + cbn [app]. f_equal. apply (IH (length (l :: s)) ltac:(simpl; lia) (l :: s) eq_refl). intros h' l' Hl Hh. by apply Hcut.
Qed.
(** A stream reads the same however it is cut into chunks, escape sequences and pastes included, as long as no
    chunk boundary splits a surrogate pair. *)
Theorem cut_streams_read_alike keys keys' nowMs d :
  cuts_no_pair keys keys' → observe (keys ++ keys') nowMs d = observe keys' nowMs (observe keys nowMs d).
Proof. intros Hcut. unfold observe. rewrite characters_app by done. apply observe_characters_app. Qed.

(** ** The prompt of the terminal *)
Record Prompt := mkPrompt { before : list N; after : list N; last_typed : option N; last_escape : option Z }.
Definition empty_prompt : Prompt := mkPrompt [] [] None None.
Definition is_text (c : N) : Prop := isNewLineKey c = false.
#[export] Instance is_text_dec c : Decision (is_text c).
Proof. unfold is_text. apply _. Defined.
Definition text_in (l : list N) : list N := filter is_text l.
(** What a human would lose: the characters of the prompt other than line breaks. *)
Definition text (p : Prompt) : list N := text_in (before p ++ after p).
(** A single line with the cursor at its end, line breaks around it at most. *)
Definition plain (p : Prompt) : Prop :=
  text_in (after p) = [] ∧ ∃ breaks line, before p = breaks ++ line ∧ text_in breaks = [] ∧ Forall is_text line.

Inductive key :=
  | Char (c : N) | Enter (c : N) | CtrlC | CtrlU | Erase (c : N) | EditControl (c : N) | CursorControl (c : N) | OtherControl (c : N)
  | EscapeKey | ShiftEnter (c : N) | AltErase (c : N) | AltKey (c : N) | Sequence (parameters : list N) (final : N) | Shifted (final : N) | Paste (pasted : list N).
Definition bytes_of (k : key) : list N :=
  match k with
  | Char c | Enter c | Erase c | EditControl c | CursorControl c | OtherControl c => [c]
  | CtrlC => [CTRL_C] | CtrlU => [CTRL_U] | EscapeKey => [ESCAPE]
  | ShiftEnter c | AltErase c | AltKey c => [ESCAPE; c]
  | Sequence parameters final => ESCAPE :: chr "[" :: parameters ++ [final]
  | Shifted final => [ESCAPE; chr "O"; final]
  | Paste pasted => ESCAPE :: js "[200~" ++ pasted ++ BRACKETED_PASTE_END
  end.
Definition named_controls : list N := [ESCAPE; CARRIAGE_RETURN; LINE_FEED; CTRL_C; CTRL_U; BACKSPACE] ++ EDITING_CONTROLS ++ CURSOR_CONTROLS.
Definition valid (k : key) : Prop :=
  match k with
  | Char c => isControl c = false ∧ c ≠ DELETE
  | Enter c | ShiftEnter c => isNewLineKey c = true
  | Erase c | AltErase c => isEraseKey c = true
  | EditControl c => c ∈ EDITING_CONTROLS
  | CursorControl c => c ∈ CURSOR_CONTROLS
  | OtherControl c => isControl c = true ∧ c ∉ named_controls
  | AltKey c => c ∉ [ESCAPE; chr "["; chr "O"; CARRIAGE_RETURN; LINE_FEED; DELETE; BACKSPACE]
  | Sequence parameters final =>
      forallb isParameterByteOfControlSequence parameters = true ∧ isFinalByteOfControlSequence final = true ∧
      (parameters, final) ≠ (BRACKETED_PASTE_PARAMETERS, chr "~")
  | Paste pasted => ∀ pre post, pasted ≠ pre ++ BRACKETED_PASTE_END ++ post
  | CtrlC | CtrlU | EscapeKey | Shifted _ => True
  end.
(** A key sequence that starts with Escape is told from an Escape pressed before it by the time between them. *)
Definition starts_with_escape (k : key) : bool :=
  match k with ShiftEnter _ | AltErase _ | AltKey _ | Sequence _ _ | Shifted _ | Paste _ => true | _ => false end.
Definition apart (nowMs : Z) (p : Prompt) (k : key) : Prop :=
  k = EscapeKey ∨ ∀ t, last_escape p = Some t →
    ((if starts_with_escape k then DOUBLE_ESCAPE_WINDOW_MS else ESCAPE_FOLLOW_UP_WINDOW_MS) < nowMs - t)%Z.

(** What the source relies on the CLI to do with a key, as the comments of [humanDraft.ts] say it: [prompt_step nowMs p k p'] is a prompt that may follow.  Recalls may put
    anything in the prompt; an edit the daemon cannot count keeps a plain line plain; a motion only moves the cursor; two Escapes within DOUBLE_ESCAPE_WINDOW_MS, a submit and Ctrl-C empty
    it; a backslash before Enter continues the line.  It is the hypothesis on the CLI, whose code is not in the repository. *)
Definition recalls (final : N) : Prop := final ∈ HISTORY_FINAL_BYTES.
Definition deletes_forward (parameters : list N) (final : N) : Prop := parameters = js "3" ∧ final = chr "~".
Definition moves (parameters : list N) (final : N) : Prop :=
  final ∈ CURSOR_FINAL_BYTES ∨ (final = chr "~" ∧ parameters ∈ CURSOR_TILDE_PARAMETERS).
Definition edited (p p' : Prompt) : Prop := (plain p → plain p') ∧ last_typed p' = None ∧ last_escape p' = None.
Definition moved (p p' : Prompt) : Prop := before p' ++ after p' `sublist_of` before p ++ after p ∧ last_typed p' = None ∧ last_escape p' = None.
Inductive prompt_step (nowMs : Z) (p : Prompt) : key → Prompt → Prop :=
  | step_char c : prompt_step nowMs p (Char c) (mkPrompt (before p ++ [c]) (after p) (Some c) None)
  | step_submit c : last_typed p ≠ Some BACKSLASH_KEY → prompt_step nowMs p (Enter c) empty_prompt
  | step_continue c : last_typed p = Some BACKSLASH_KEY →
      prompt_step nowMs p (Enter c) (mkPrompt (take (length (before p) - 1) (before p) ++ [LINE_FEED]) (after p) None None)
  | step_ctrl_c : prompt_step nowMs p CtrlC empty_prompt
  | step_ctrl_u kept killed : before p = kept ++ killed → (kept = [] ∨ ∃ l c, kept = l ++ [c] ∧ isNewLineKey c = true) →
      prompt_step nowMs p CtrlU (mkPrompt kept (after p) None None)
  | step_erase c : prompt_step nowMs p (Erase c) (mkPrompt (take (length (before p) - 1) (before p)) (after p) None None)
  | step_edit c p' : edited p p' → prompt_step nowMs p (EditControl c) p'
  | step_cursor c p' : moved p p' → prompt_step nowMs p (CursorControl c) p'
  | step_other c : prompt_step nowMs p (OtherControl c) (mkPrompt (before p) (after p) None None)
  | step_escape_twice t : last_escape p = Some t → (nowMs - t ≤ DOUBLE_ESCAPE_WINDOW_MS)%Z → prompt_step nowMs p EscapeKey empty_prompt
  | step_escape : (∀ t, last_escape p = Some t → (DOUBLE_ESCAPE_WINDOW_MS < nowMs - t)%Z) →
      prompt_step nowMs p EscapeKey (mkPrompt (before p) (after p) None (Some nowMs))
  | step_shift_enter c : prompt_step nowMs p (ShiftEnter c) (mkPrompt (before p ++ [LINE_FEED]) (after p) None None)
  | step_alt_erase c p' : edited p p' → prompt_step nowMs p (AltErase c) p'
  | step_alt c p' : moved p p' → prompt_step nowMs p (AltKey c) p'
  | step_recall parameters final p' : recalls final → last_typed p' = None → last_escape p' = None → prompt_step nowMs p (Sequence parameters final) p'
  | step_forward_delete parameters final p' : deletes_forward parameters final → edited p p' → prompt_step nowMs p (Sequence parameters final) p'
  | step_move parameters final p' : moves parameters final → moved p p' → prompt_step nowMs p (Sequence parameters final) p'
  | step_ignored parameters final : ¬ recalls final → ¬ deletes_forward parameters final → ¬ moves parameters final →
      prompt_step nowMs p (Sequence parameters final) (mkPrompt (before p) (after p) None None)
  | step_shifted_recall final p' : recalls final → last_typed p' = None → last_escape p' = None → prompt_step nowMs p (Shifted final) p'
  | step_shifted_move final p' : final ∈ CURSOR_FINAL_BYTES → moved p p' → prompt_step nowMs p (Shifted final) p'
  | step_shifted_ignored final : ¬ recalls final → final ∉ CURSOR_FINAL_BYTES → prompt_step nowMs p (Shifted final) (mkPrompt (before p) (after p) None None)
  | step_paste pasted : prompt_step nowMs p (Paste pasted) (mkPrompt (before p ++ pasted) (after p) (list.last pasted) None).

Definition watch (keys : list (Z * key)) (d : HumanDraft) : HumanDraft := fold_left (λ d timed, observe_characters (bytes_of timed.2) timed.1 d) keys d.

(** ** The simulation *)
Record tracked (d : HumanDraft) (p : Prompt) : Prop := mkTracked {
  tracked_mode : (mode d = Keys ∧ lastLoneEscapeAt d = last_escape p) ∨ (mode d = EscapeMode ∧ last_escape p = Some (pendingEscapeAt d));
  tracked_text : mayHoldUnseenText d = false → length (text p) ≤ typedCharacterCount d;
  tracked_plain : eraseMayLeaveText d = false → plain p;
  tracked_last : last_typed p = Some BACKSLASH_KEY → lastCharacter d = Some BACKSLASH_KEY;
}.
Lemma absent_is_empty d p : tracked d p → isPresent d = false → text p = [].
Proof.
  intros Ht Hp. unfold isPresent in Hp. apply orb_false_iff in Hp as [Hc%Nat.ltb_ge Hu]. apply (tracked_text _ _ Ht) in Hu.
  apply nil_length_inv. lia.
Qed.
Lemma text_in_app l l' : text_in (l ++ l') = text_in l ++ text_in l'.
Proof. apply list.filter_app. Qed.
Lemma no_text_plain p : text p = [] → plain p.
Proof.
  unfold text, plain. rewrite text_in_app. intros [Hb Ha]%app_nil. split; [done|]. exists (before p), []. rewrite app_nil_r. split; [done|]. split; [done|constructor].
Qed.
Ltac no_such_key := repeat match goal with |- context [N.eqb ?a ?b] => destruct (N.eqb_spec a b); [exfalso; subst; lia|] end.

(** *** The draft after a key *)
Lemma settled nowMs d p :
  tracked d p → (∀ t, last_escape p = Some t → (ESCAPE_FOLLOW_UP_WINDOW_MS < nowMs - t)%Z) →
  tracked (settleStalePendingEscape nowMs d) p ∧ mode (settleStalePendingEscape nowMs d) = Keys.
Proof.
  intros [Hmode Htext Hplain Hlast] Hapart. unfold settleStalePendingEscape. destruct Hmode as [[Hm Hl]|[Hm Hl]]; rewrite Hm; simpl.
  - split; [|done]. split; [by left|done..].
  - rewrite (proj2 (Z.ltb_lt _ _)) by (by apply Hapart). split; [|done]. split; [by left|done..].
Qed.
Lemma press_char c d : isControl c = false → c ≠ DELETE → press c d = set_last c (set_count (typedCharacterCount d + 1) (set_lone None d)).
Proof.
  unfold isControl, FIRST_PRINTABLE_CODE_POINT. intros Hc%N.ltb_ge Hdel. unfold press, isNewLineKey, isEraseKey, mem_chr, EDITING_CONTROLS, CURSOR_CONTROLS, isControl.
  unfold CARRIAGE_RETURN, LINE_FEED, CTRL_C, CTRL_U, BACKSPACE, FIRST_PRINTABLE_CODE_POINT, DELETE in *. cbn [existsb]. no_such_key. cbn [orb andb].
  rewrite (proj2 (N.ltb_ge _ _) Hc). cbn [negb]. unfold isPresent. cbn [typedCharacterCount set_count]. by rewrite (proj2 (Nat.ltb_lt _ _)) by lia.
Qed.
Lemma press_enter c d : isNewLineKey c = true →
  press c d = if bool_decide (lastCharacter d = Some BACKSLASH_KEY) then addLine (set_lone None d) else empty (set_lone None d).
Proof. intros Hc. unfold press. rewrite Hc. cbn [andb orb lastCharacter set_lone]. by destruct (bool_decide _). Qed.
Lemma press_erase c d : isEraseKey c = true →
  let d' := eraseBackward (set_lone None d) in press c d = if isPresent d' then set_last c d' else d'.
Proof.
  unfold isEraseKey. intros [Hc|Hc]%orb_true_iff; apply N.eqb_eq in Hc as ->; reflexivity.
Qed.
Lemma press_edit c d : c ∈ EDITING_CONTROLS → press c d = set_last c (set_unseen (set_lone None d)).
Proof.
  intros Hc. unfold EDITING_CONTROLS in Hc. rewrite !elem_of_cons in Hc.
  destruct Hc as [->|[->|[->|[->|[->|[]%elem_of_nil]]]]]; unfold press; cbn; unfold isPresent; cbn; by rewrite orb_true_r.
Qed.
Lemma press_cursor c d : c ∈ CURSOR_CONTROLS →
  let d' := moveCursorAway (set_lone None d) in press c d = if isPresent d' then set_last c d' else d'.
Proof.
  intros Hc. unfold CURSOR_CONTROLS in Hc. rewrite !elem_of_cons in Hc.
  destruct Hc as [->|[->|[->|[->|[]%elem_of_nil]]]]; reflexivity.
Qed.
Lemma press_other c d : isControl c = true → c ∉ named_controls →
  let d' := set_lone None d in press c d = if isPresent d' then set_last c d' else d'.
Proof.
  intros Hc Hn. unfold press. assert (Hne : ∀ k, k ∈ named_controls → N.eqb c k = false) by (intros k Hk; apply N.eqb_neq; by intros ->).
  unfold isNewLineKey, isEraseKey. rewrite Hc.
  rewrite (Hne CARRIAGE_RETURN), (Hne LINE_FEED), (Hne CTRL_C), (Hne CTRL_U) by (apply (bool_decide_unpack _); vm_compute; exact I). assert (Hdel : N.eqb c DELETE = false).
  { apply N.eqb_neq. intros ->. by vm_compute in Hc. }
  assert (Hmem : ∀ l, l ⊆ named_controls → mem_chr c l = false).
  { intros l Hl. unfold mem_chr. apply not_true_is_false. intros (k & Hk%list_elem_of_In & Heq)%existsb_exists. rewrite Hne in Heq; [done|]. by apply Hl. }
  rewrite Hdel, (Hne BACKSPACE), (Hmem EDITING_CONTROLS), (Hmem CURSOR_CONTROLS); [done|..|apply (bool_decide_unpack _); vm_compute; exact I];
    unfold named_controls; intros k Hk; apply elem_of_app; right; apply elem_of_app; auto.
Qed.
Lemma escape_begins nowMs d : mode d = Keys → (∀ t, lastLoneEscapeAt d = Some t → (DOUBLE_ESCAPE_WINDOW_MS < nowMs - t)%Z) →
  read nowMs d ESCAPE = set_pendingAt nowMs (set_mode EscapeMode d).
Proof.
  intros Hm Hl. unfold read. rewrite Hm. unfold readKey. rewrite N.eqb_refl. unfold beginEscape. destruct (lastLoneEscapeAt d) as [t|]; [|done].
  rewrite (proj2 (Z.leb_gt _ _)); [done|]. by apply Hl.
Qed.

(** *** What a key does to the text *)
Definition calm (d : HumanDraft) : Prop := mode d = Keys ∧ lastLoneEscapeAt d = None.
Lemma tracked_intro d p :
  calm d → last_escape p = None → (mayHoldUnseenText d = false → length (text p) ≤ typedCharacterCount d) → (eraseMayLeaveText d = false → plain p) →
  (last_typed p = Some BACKSLASH_KEY → lastCharacter d = Some BACKSLASH_KEY) → tracked d p.
Proof. intros [Hm Hl] He Ht Hp Hlast. split; [left; split; [done|congruence]|done..]. Qed.
Lemma plain_empty : plain empty_prompt.
Proof. by apply no_text_plain. Qed.
Lemma tracked_empty d : calm d → tracked (empty d) empty_prompt.
Proof. intros [Hm Hl]. apply tracked_intro; [by split|done|simpl; lia|intros _; apply plain_empty|done]. Qed.
(** A key that only adds line breaks or moves the cursor. *)
Lemma tracked_loosened d d' p p' :
  tracked d p → calm d' → typedCharacterCount d' = typedCharacterCount d → mayHoldUnseenText d' = mayHoldUnseenText d →
  eraseMayLeaveText d' = isPresent d || eraseMayLeaveText d → length (text p') ≤ length (text p) → last_typed p' = None → last_escape p' = None → tracked d' p'.
Proof.
  intros Ht Hcalm Hc Hu He Hlen Hl Hesc. apply tracked_intro; [done|done| | |congruence].
  - intros Hseen. rewrite Hc. etransitivity; [exact Hlen|]. apply (tracked_text _ _ Ht). congruence.
  - rewrite He. intros [Hp _]%orb_false_iff. apply (absent_is_empty d p Ht) in Hp. apply no_text_plain, nil_length_inv. rewrite Hp in Hlen. simpl in Hlen. lia.
Qed.
Lemma tracked_edited d d' p p' :
  tracked d p → calm d' → mayHoldUnseenText d' = true → eraseMayLeaveText d' = eraseMayLeaveText d → edited p p' → tracked d' p'.
Proof.
  intros Ht Hcalm Hu He (Hplain & Hl & Hesc). apply tracked_intro; [done|done|congruence| |congruence]. rewrite He. intros Hf. by apply Hplain, (tracked_plain _ _ Ht).
Qed.
Lemma tracked_recalled d p : calm d → mayHoldUnseenText d = true → eraseMayLeaveText d = true → last_typed p = None → last_escape p = None → tracked d p.
Proof. intros Hcalm Hu He Hl Hesc. apply tracked_intro; [done|done|congruence|congruence|congruence]. Qed.

Lemma moved_length p p' : moved p p' → length (text p') ≤ length (text p).
Proof. intros [Hsub _]. apply sublist_length. unfold text, text_in. clear -Hsub. induction Hsub as [|x l k _ IH|x l k _ IH]; [done|..]; rewrite !filter_cons; repeat case_decide; (done || by constructor). Qed.
Lemma text_break p c : isNewLineKey c = true → text (mkPrompt (before p ++ [c]) (after p) None None) = text p.
Proof.
  intros Hc. unfold text. simpl. rewrite <- app_assoc, !text_in_app. f_equal. unfold text_in. simpl. rewrite filter_cons_False; [done|]. unfold is_text. by rewrite Hc.
Qed.
Lemma Forall_text_filter l : Forall is_text l → text_in l = l.
Proof. intros Hl. induction Hl as [|c l Hc _ IH]; [done|]. unfold text_in in *. by rewrite filter_cons_True, IH. Qed.
(** Killing to the start of a plain line leaves no text. *)
Lemma kill_plain p kept killed :
  plain p → before p = kept ++ killed → (kept = [] ∨ ∃ l c, kept = l ++ [c] ∧ isNewLineKey c = true) → text (mkPrompt kept (after p) None None) = [].
Proof.
  intros (Ha & breaks & line & Hb & Hbreaks & Hline) Heq Hkept. unfold text. simpl. rewrite text_in_app, Ha, app_nil_r.
  destruct Hkept as [->|(l & c & -> & Hc)]; [done|]. assert (Hlen : length (l ++ [c]) ≤ length breaks).
  { destruct (decide (length (l ++ [c]) ≤ length breaks)) as [?|Hgt]; [done|]. rewrite length_app in Hgt. simpl in Hgt.
    assert (Hlk : (breaks ++ line) !! length l = Some c) by (rewrite <- Hb, Heq, <- app_assoc; by apply list_lookup_middle).
    rewrite lookup_app_r in Hlk by lia. apply list_elem_of_lookup_2 in Hlk. apply (proj1 (list.Forall_forall _ _) Hline) in Hlk. unfold is_text in Hlk. congruence. }
  assert (Hpre : l ++ [c] `prefix_of` breaks).
  { rewrite Hb in Heq. exists (drop (length (l ++ [c])) breaks). rewrite <- (take_drop (length (l ++ [c])) breaks) at 1. f_equal.
    apply (f_equal (take (length (l ++ [c])))) in Heq. rewrite take_app_length, take_app_le in Heq by done. done. }
  destruct Hpre as [rest ->]. rewrite text_in_app in Hbreaks. by apply app_nil in Hbreaks as [? _].
Qed.
(** Erasing the last character of a plain line. *)
Lemma erase_plain p :
  plain p → let p' := mkPrompt (take (length (before p) - 1) (before p)) (after p) None None in plain p' ∧ length (text p') ≤ length (text p) - 1.
Proof.
  intros (Ha & breaks & line & Hb & Hbreaks & Hline). cbn zeta. destruct (decide (line = [])) as [->|Hne].
  - rewrite app_nil_r in Hb. assert (Hnone : text (mkPrompt (take (length (before p) - 1) (before p)) (after p) None None) = []).
    { unfold text. simpl. rewrite text_in_app, Ha, app_nil_r, Hb. rewrite <- (take_drop (length breaks - 1) breaks), text_in_app in Hbreaks. by apply app_nil in Hbreaks as [? _]. }
    split; [by apply no_text_plain|]. rewrite Hnone. simpl. lia.
  - destruct (exists_last Hne) as (line' & c & ->). apply list.Forall_app in Hline as [Hline Hc].
    assert (Htake : take (length (before p) - 1) (before p) = breaks ++ line').
    { rewrite Hb, app_assoc. apply take_app_length'. rewrite !length_app. simpl. lia. }
    rewrite Htake. split.
    + split; [done|]. exists breaks, line'. done.
    + unfold text. simpl. rewrite Hb, !text_in_app, Hbreaks, Ha, !app_nil_r. cbn [app]. rewrite !length_app.
      rewrite (Forall_text_filter [c] Hc). simpl. lia.
Qed.

(** *** Reading the bytes of a key *)
Definition same_draft (d d' : HumanDraft) : Prop :=
  typedCharacterCount d = typedCharacterCount d' ∧ mayHoldUnseenText d = mayHoldUnseenText d' ∧ eraseMayLeaveText d = eraseMayLeaveText d' ∧ lastCharacter d = lastCharacter d'.
Lemma isPresent_same d d' : same_draft d d' → isPresent d = isPresent d'.
Proof. intros (Hc & Hu & _). unfold isPresent. by rewrite Hc, Hu. Qed.
Lemma read_press c nowMs d : mode d = Keys → c ≠ ESCAPE → read nowMs d c = press c d.
Proof. intros Hm Hc. unfold read. rewrite Hm. unfold readKey. by rewrite (proj2 (N.eqb_neq _ _) Hc). Qed.
Definition far_from_escape (nowMs : Z) (d : HumanDraft) : Prop := ∀ t, lastLoneEscapeAt d = Some t → (DOUBLE_ESCAPE_WINDOW_MS < nowMs - t)%Z.
(** Escape and the character that follows it. *)
Lemma read_escaped c nowMs d : mode d = Keys → far_from_escape nowMs d → c ≠ ESCAPE → c ≠ chr "[" → c ≠ chr "O" →
  ∃ d1, calm d1 ∧ same_draft d1 d ∧ fold_left (read nowMs) [ESCAPE; c] d =
    (if isNewLineKey c then addLine d1 else if isEraseKey c then set_unseen d1 else moveCursorAway d1).
Proof.
  intros Hm Hfar Hesc Hbr Ho. exists (set_mode Keys (set_lone None (set_pendingAt nowMs (set_mode EscapeMode d)))). split; [done|]. split; [done|].
  cbn [fold_left]. rewrite escape_begins by done. unfold read. cbn [mode set_pendingAt set_mode]. unfold readAfterEscape.
  rewrite (proj2 (N.eqb_neq _ _) Hesc), (proj2 (N.eqb_neq _ _) Hbr), (proj2 (N.eqb_neq _ _) Ho). done.
Qed.
Lemma read_shifted final nowMs d : mode d = Keys → far_from_escape nowMs d →
  ∃ d1, calm d1 ∧ same_draft d1 d ∧ fold_left (read nowMs) [ESCAPE; chr "O"; final] d =
    (if mem_chr final HISTORY_FINAL_BYTES then recallHistory d1 else if mem_chr final CURSOR_FINAL_BYTES then moveCursorAway d1 else d1).
Proof.
  intros Hm Hfar. exists (set_mode Keys (set_mode SingleShift (set_lone None (set_pendingAt nowMs (set_mode EscapeMode d))))). split; [done|]. split; [done|].
  cbn [fold_left]. rewrite escape_begins by done. reflexivity.
Qed.
Lemma read_parameters nowMs ps d : mode d = ControlSequence → forallb isParameterByteOfControlSequence ps = true →
  fold_left (read nowMs) ps d = set_parameters (controlSequenceParameters d ++ ps) d.
Proof.
  revert d. induction ps as [|c ps IH]; intros d Hm Hps; cbn [fold_left]; [rewrite app_nil_r; by destruct d|].
  cbn [forallb] in Hps. apply andb_true_iff in Hps as [Hc Hps]. assert (Hread : read nowMs d c = set_parameters (controlSequenceParameters d ++ [c]) d).
  { unfold read. rewrite Hm. unfold readControlSequenceByte. by rewrite Hc. }
  rewrite Hread, IH by done. cbn [controlSequenceParameters set_parameters]. by rewrite <- app_assoc.
Qed.
Lemma final_is_no_parameter c : isFinalByteOfControlSequence c = true → isParameterByteOfControlSequence c = false.
Proof.
  unfold isFinalByteOfControlSequence, isParameterByteOfControlSequence, in_range. rewrite andb_true_iff, !N.leb_le. intros [Hlo _].
  apply andb_false_iff. right. apply N.leb_gt. lia.
Qed.
Lemma read_sequence parameters final nowMs d : mode d = Keys → far_from_escape nowMs d →
  forallb isParameterByteOfControlSequence parameters = true → isFinalByteOfControlSequence final = true →
  ∃ d1, calm d1 ∧ same_draft d1 d ∧ fold_left (read nowMs) (ESCAPE :: chr "[" :: parameters ++ [final]) d = finishControlSequence parameters final d1.
Proof.
  intros Hm Hfar Hps Hf. set (d0 := beginControlSequence (set_lone None (set_pendingAt nowMs (set_mode EscapeMode d)))).
  exists (set_mode Keys (set_parameters parameters d0)). split; [done|]. split; [done|]. cbn [fold_left]. rewrite escape_begins by done.
  change (read nowMs (set_pendingAt nowMs (set_mode EscapeMode d)) (chr "[")) with d0. rewrite fold_left_app, (read_parameters nowMs parameters d0) by done.
  cbn [fold_left]. unfold read. cbn [mode set_parameters]. unfold readControlSequenceByte. by rewrite final_is_no_parameter, Hf.
Qed.

(** *** A paste *)
Lemma count_set_candidate d cs x : fold_left countPastedCharacter cs (set_candidate x d) = set_candidate x (fold_left countPastedCharacter cs d).
Proof.
  revert d. induction cs as [|c cs IH]; intros d; [done|]. cbn [fold_left]. rewrite <- IH. f_equal. unfold countPastedCharacter. by destruct (isNewLineKey c).
Qed.
Lemma end_prefixes cand c :
  cand `prefix_of` BRACKETED_PASTE_END → cand ++ [c] ≠ BRACKETED_PASTE_END → startsWith BRACKETED_PASTE_END (cand ++ [c]) = true → cand ++ [c] `prefix_of` BRACKETED_PASTE_END.
Proof.
  intros _ _ Hs. revert Hs. generalize (cand ++ [c]) BRACKETED_PASTE_END. intros q. induction q as [|x q IH]; intros s Hs; [by exists s|].
  destruct s as [|y s]; [done|]. simpl in Hs. apply andb_true_iff in Hs as [->%N.eqb_eq Hs]. apply prefix_cons. by apply IH.
Qed.
Definition counting (d : HumanDraft) (consumed cand : list N) : HumanDraft := set_candidate cand (fold_left countPastedCharacter consumed d).
Lemma read_counting nowMs d consumed cand c : mode d = PasteMode → cand ++ [c] ≠ BRACKETED_PASTE_END →
  read nowMs (counting d consumed cand) c =
    if startsWith BRACKETED_PASTE_END (cand ++ [c]) then counting d consumed (cand ++ [c])
    else if N.eqb c ESCAPE then counting d (consumed ++ cand) [c] else counting d (consumed ++ cand ++ [c]) [].
Proof.
  intros Hm Hend. unfold read, counting. cbn [mode set_candidate]. rewrite fold_count_mode, Hm. unfold readPastedCharacter. cbn [pasteEndCandidate set_candidate].
  rewrite (proj2 (str_eqb_neq _ _) Hend). destruct (startsWith _ _); [done|]. rewrite count_set_candidate, <- fold_left_app.
  destruct (N.eqb c ESCAPE); [done|]. rewrite app_assoc, (fold_left_app _ (consumed ++ cand)). cbn [fold_left].
  unfold countPastedCharacter. by destruct (isNewLineKey c).
Qed.
Lemma read_pasted_text nowMs pasted d consumed cand :
  mode d = PasteMode → cand `prefix_of` BRACKETED_PASTE_END → cand ≠ BRACKETED_PASTE_END →
  (∀ pre post, cand ++ pasted ≠ pre ++ BRACKETED_PASTE_END ++ post) →
  ∃ consumed' cand', fold_left (read nowMs) pasted (counting d consumed cand) = counting d consumed' cand' ∧ consumed ++ cand ++ pasted = consumed' ++ cand' ∧
    cand' `prefix_of` BRACKETED_PASTE_END ∧ cand' ≠ BRACKETED_PASTE_END.
Proof.
  intros Hm. revert consumed cand. induction pasted as [|c pasted IH]; intros consumed cand Hpre Hne Hno.
  { exists consumed, cand. rewrite app_nil_r. done. }
  assert (Hend : cand ++ [c] ≠ BRACKETED_PASTE_END).
  { intros Heq. apply (Hno [] pasted). cbn [app]. rewrite <- Heq, <- app_assoc. done. }
  cbn [fold_left]. rewrite read_counting by done. destruct (startsWith BRACKETED_PASTE_END (cand ++ [c])) eqn:Hs.
  - destruct (IH consumed (cand ++ [c])) as (consumed' & cand' & Hf & Heq & Hp & Hn).
    + by apply end_prefixes.
    + done.
    + intros pre post Heq. apply (Hno pre post). rewrite <- Heq, <- app_assoc. done.
    + exists consumed', cand'. split; [exact Hf|]. split; [|done]. rewrite <- Heq, <- !app_assoc. done.
  - destruct (N.eqb_spec c ESCAPE) as [->|Hc].
    + destruct (IH (consumed ++ cand) [ESCAPE]) as (consumed' & cand' & Hf & Heq & Hp & Hn); [by exists (js "[201~")|done| |].
      * intros pre post Heq. apply (Hno (cand ++ pre) post). rewrite <- !app_assoc. cbn [app] in *. by rewrite <- Heq.
      * exists consumed', cand'. split; [exact Hf|]. split; [|done]. rewrite <- Heq, <- !app_assoc. done.
    + destruct (IH (consumed ++ cand ++ [c]) []) as (consumed' & cand' & Hf & Heq & Hp & Hn); [by apply prefix_nil|done| |].
      * intros pre post Heq. cbn [app] in Heq. apply (Hno (cand ++ [c] ++ pre) post). rewrite Heq, <- !app_assoc. done.
      * exists consumed', cand'. split; [exact Hf|]. split; [|done]. rewrite <- Heq, <- !app_assoc. done.
Qed.
Lemma escape_only_first : ESCAPE ∉ js "[201~".
Proof. apply (bool_decide_unpack _). vm_compute. exact I. Qed.
Lemma escape_restarts x cand rest : BRACKETED_PASTE_END ≠ (x :: cand ++ [ESCAPE]) ++ rest.
Proof. intros Heq. injection Heq as _ Heq. apply escape_only_first. rewrite Heq. apply elem_of_app. left. apply elem_of_app. right. left. Qed.
Lemma read_progress nowMs d consumed cand c : mode d = PasteMode → cand ++ [c] ≠ BRACKETED_PASTE_END → startsWith BRACKETED_PASTE_END (cand ++ [c]) = true →
  read nowMs (counting d consumed cand) c = counting d consumed (cand ++ [c]).
Proof. intros Hm Hne Hs. rewrite read_counting by done. by rewrite Hs. Qed.
(** The end marker of a paste, whatever part of it the text ended with. *)
Lemma read_end_marker nowMs d consumed cand : mode d = PasteMode → cand `prefix_of` BRACKETED_PASTE_END → cand ≠ BRACKETED_PASTE_END →
  fold_left (read nowMs) BRACKETED_PASTE_END (counting d consumed cand) = set_candidate [] (set_mode Keys (fold_left countPastedCharacter (consumed ++ cand) d)).
Proof.
  intros Hm Hpre Hne.
  assert (Hfirst : read nowMs (counting d consumed cand) ESCAPE = counting d (consumed ++ cand) [ESCAPE]).
  { destruct cand as [|x cand]; [rewrite app_nil_r; by apply (read_progress nowMs d consumed [])|]. rewrite read_counting; [|done|intros Heq; by apply (escape_restarts x cand []); rewrite app_nil_r].
    destruct (startsWith BRACKETED_PASTE_END ((x :: cand) ++ [ESCAPE])) eqn:Hs; [|done]. exfalso.
    apply end_prefixes in Hs as [rest Hrest]; [by apply (escape_restarts x cand rest)|done|]. intros Heq. by apply (escape_restarts x cand []); rewrite app_nil_r. }
  unfold BRACKETED_PASTE_END. cbn [fold_left]. rewrite Hfirst. change (js "[201~") with [91; 50; 48; 49; 126]%N. cbn [fold_left].
  do 4 (rewrite read_progress by (done || discriminate)). cbn [app]. unfold read, counting. cbn [mode set_candidate]. rewrite fold_count_mode, Hm. reflexivity.
Qed.
Lemma count_fields cs d :
  let d' := fold_left countPastedCharacter cs d in
  typedCharacterCount d' = typedCharacterCount d + length cs ∧ mayHoldUnseenText d' = mayHoldUnseenText d ∧
  (eraseMayLeaveText d' = false → eraseMayLeaveText d = false ∧ Forall is_text cs) ∧ (∀ c, list.last cs = Some c → lastCharacter d' = Some c) ∧
  lastLoneEscapeAt d' = lastLoneEscapeAt d.
Proof.
  revert d. induction cs as [|c cs IH]; intros d; cbn [fold_left]; [simpl; split; [lia|]; repeat split; try done; constructor|].
  destruct (IH (countPastedCharacter d c)) as (Hc & Hu & He & Hl & Ho). cbn zeta in *.
  assert (Hone : typedCharacterCount (countPastedCharacter d c) = typedCharacterCount d + 1 ∧ mayHoldUnseenText (countPastedCharacter d c) = mayHoldUnseenText d ∧
    (eraseMayLeaveText (countPastedCharacter d c) = false → eraseMayLeaveText d = false ∧ is_text c) ∧ lastCharacter (countPastedCharacter d c) = Some c ∧
    lastLoneEscapeAt (countPastedCharacter d c) = lastLoneEscapeAt d) by (unfold countPastedCharacter, is_text; destruct (isNewLineKey c) eqn:?; done).
  destruct Hone as (Hc1 & Hu1 & He1 & Hl1 & Ho1). split; [rewrite Hc, Hc1; simpl; lia|]. split; [congruence|]. split; [|split; [|congruence]].
  - intros [Hd Hcs]%He. apply He1 in Hd as [? ?]. split; [done|by constructor].
  - intros x Hx. destruct cs as [|y cs]; [simpl in *; congruence|]. by apply Hl.
Qed.
Lemma read_paste pasted nowMs d : mode d = Keys → far_from_escape nowMs d → valid (Paste pasted) →
  ∃ d1, calm d1 ∧ same_draft d1 d ∧ fold_left (read nowMs) (bytes_of (Paste pasted)) d = set_candidate [] (set_mode Keys (fold_left countPastedCharacter pasted d1)) ∧ mode d1 = Keys.
Proof.
  intros Hm Hfar Hvalid. cbn [bytes_of]. rewrite app_comm_cons, fold_left_app.
  change (js "[200~") with (chr "[" :: js "200" ++ [chr "~"]). destruct (read_sequence (js "200") (chr "~") nowMs d Hm Hfar) as (d1 & Hcalm & Hsame & Hread); [done|done|].
  rewrite Hread. change (finishControlSequence (js "200") (chr "~") d1) with (counting (set_mode PasteMode d1) [] []).
  rewrite fold_left_app. destruct (read_pasted_text nowMs pasted (set_mode PasteMode d1) [] []) as (consumed & cand & Hf & Heq & Hp & Hn); [done|by apply prefix_nil|done|exact Hvalid|].
  rewrite Hf, read_end_marker by done. rewrite <- Heq. cbn [app]. exists d1. split; [done|]. split; [done|]. split; [|apply Hcalm].
  assert (Hmode : ∀ cs m m' x, set_mode m' (fold_left countPastedCharacter cs (set_mode m x)) = set_mode m' (fold_left countPastedCharacter cs x)).
  { clear. intros cs. induction cs as [|c cs IH]; intros m m' x; [done|]. cbn [fold_left]. rewrite <- (IH m m' (countPastedCharacter x c)). do 2 f_equal.
    unfold countPastedCharacter. by destruct (isNewLineKey c). }
  by rewrite Hmode.
Qed.

(** ** Every key keeps the draft tracking the prompt *)
Lemma calm_set_last c d : calm d → calm (set_last c d).
Proof. done. Qed.
(** A key that leaves [last_typed] empty may be remembered or not. *)
Lemma tracked_set_last c d p : tracked d p → last_typed p = None → tracked (if isPresent d then set_last c d else d) p.
Proof. intros [] Hl. destruct (isPresent d); split; simpl; try done. congruence. Qed.
Lemma tracked_char c d p : tracked d p → mode d = Keys → valid (Char c) →
  tracked (press c d) (mkPrompt (before p ++ [c]) (after p) (Some c) None).
Proof.
  intros Ht Hm [Hc Hdel]. rewrite press_char by done. assert (Htext : is_text c).
  { unfold is_text, isNewLineKey. unfold isControl, FIRST_PRINTABLE_CODE_POINT in Hc. apply N.ltb_ge in Hc. unfold CARRIAGE_RETURN, LINE_FEED. no_such_key. done. }
  apply tracked_intro; [done|done| | |simpl; congruence].
  - intros Hu. apply (tracked_text _ _ Ht) in Hu. revert Hu. unfold text. cbn [before after]. rewrite <- app_assoc, !text_in_app, !length_app.
    rewrite (Forall_text_filter [c]) by (by constructor). simpl. lia.
  - intros He. destruct (tracked_plain _ _ Ht He) as (Ha & breaks & line & Hb & Hbr & Hl). split; [done|]. exists breaks, (line ++ [c]).
    cbn [before]. rewrite Hb, <- app_assoc. split; [done|]. split; [done|]. apply list.Forall_app. split; [done|by constructor].
Qed.
Lemma addLine_loosened d d1 p p' :
  tracked d p → calm d1 → same_draft d1 d → length (text p') ≤ length (text p) → last_typed p' = None → last_escape p' = None → tracked (addLine d1) p'.
Proof.
  intros Ht Hcalm Hsame Hlen Hl He. pose proof (isPresent_same _ _ Hsame) as Hpres. destruct Hsame as (Hc & Hu & Her & Hlast).
  apply (tracked_loosened d (addLine d1) p p'); try done; unfold addLine; change (isPresent (set_last LINE_FEED d1)) with (isPresent d1); rewrite Hpres; destruct (isPresent d); done.
Qed.
Lemma moveCursorAway_loosened d d1 p p' : tracked d p → calm d1 → same_draft d1 d → moved p p' → tracked (moveCursorAway d1) p'.
Proof.
  intros Ht Hcalm Hsame Hmoved. pose proof (isPresent_same _ _ Hsame) as Hpres. destruct Hsame as (Hc & Hu & Her & Hlast).
  apply (tracked_loosened d (moveCursorAway d1) p p'); try done; try (by apply moved_length); try (by apply Hmoved); unfold moveCursorAway; rewrite Hpres; destruct (isPresent d); done.
Qed.
Lemma unchanged_loosened d d1 p : tracked d p → calm d1 → same_draft d1 d → tracked d1 (mkPrompt (before p) (after p) None None).
Proof.
  intros [_ Htext Hplain _] Hcalm (Hc & Hu & Her & Hlast). apply tracked_intro; [done|done| | |done]; [rewrite Hc, Hu; exact Htext|rewrite Her; exact Hplain].
Qed.
Lemma tracked_enter c d p p' nowMs : tracked d p → mode d = Keys → isNewLineKey c = true → prompt_step nowMs p (Enter c) p' → tracked (press c d) p'.
Proof.
  intros Ht Hm Hc Hstep. rewrite press_enter by done. inversion Hstep as [|c' Hlast|c' Hlast| | | | | | | | | | | | | | | | | | | ]; subst.
  - case_bool_decide; [|by apply tracked_empty]. apply (addLine_loosened d (set_lone None d) p); [done|done|done| |done|done]. unfold text, empty_prompt. simpl. lia.
  - rewrite bool_decide_true by (by apply (tracked_last _ _ Ht)). apply (addLine_loosened d (set_lone None d) p); [done|done|done| |done|done].
    unfold text. cbn [before after]. assert (Hlen : length (text_in (take (length (before p) - 1) (before p))) ≤ length (text_in (before p))).
    { rewrite <- (take_drop (length (before p) - 1) (before p)) at 3. rewrite text_in_app, length_app. lia. }
    rewrite <- !app_assoc, !text_in_app, !length_app. change (text_in [LINE_FEED]) with (@nil N). cbn [length]. lia.
Qed.
Lemma tracked_ctrl_u d p p' nowMs : tracked d p → mode d = Keys → prompt_step nowMs p CtrlU p' → tracked (press CTRL_U d) p'.
Proof.
  intros Ht Hm Hstep. change (press CTRL_U d) with (killToLineStart (set_lone None d)). inversion Hstep as [| | | |kept killed Hb Hkept| | | | | | | | | | | | | | | | | ]; subst.
  unfold killToLineStart. cbn [eraseMayLeaveText set_lone]. destruct (eraseMayLeaveText d) eqn:He.
  - apply tracked_intro; [done|done|done|simpl; congruence|done].
  - pose proof (kill_plain p kept killed (tracked_plain _ _ Ht He) Hb Hkept) as Hnone.
    apply tracked_intro; [done|done|intros _; rewrite Hnone; simpl; lia|intros _; by apply no_text_plain|done].
Qed.
Lemma tracked_erase c d p p' nowMs : tracked d p → mode d = Keys → isEraseKey c = true → prompt_step nowMs p (Erase c) p' → tracked (press c d) p'.
Proof.
  intros Ht Hm Hc Hstep. rewrite press_erase by done. inversion Hstep; subst. apply tracked_set_last; [|done]. unfold eraseBackward. cbn [eraseMayLeaveText set_lone].
  destruct (eraseMayLeaveText d) eqn:He.
  - apply tracked_intro; [done|done|done|simpl; congruence|done].
  - destruct (erase_plain p (tracked_plain _ _ Ht He)) as [Hplain Hlen]. apply tracked_intro; [done|done| |done|done].
    intros Hu. apply (tracked_text _ _ Ht) in Hu. etransitivity; [exact Hlen|]. cbn [typedCharacterCount set_count set_lone]. lia.
Qed.
Lemma tracked_escape nowMs d p p' : tracked d p → prompt_step nowMs p EscapeKey p' → tracked (observe_characters [ESCAPE] nowMs d) p'.
Proof.
  intros Ht Hstep. set (base := set_mode Keys (set_lone (last_escape p) d)).
  assert (Hread : observe_characters [ESCAPE] nowMs d = beginEscape nowMs base).
  { unfold observe_characters, base. cbn [fold_left]. destruct (tracked_mode _ _ Ht) as [[Hm Hl]|[Hm Hl]].
    - rewrite settle_id by (by apply keys_fresh). unfold read. rewrite Hm. unfold readKey. rewrite N.eqb_refl. f_equal. rewrite <- Hl, <- Hm. by destruct d.
    - rewrite Hl. unfold settleStalePendingEscape. rewrite bool_decide_true by done. cbn [andb]. destruct (Z.ltb _ _); [done|].
      unfold read. rewrite Hm. unfold readAfterEscape. by rewrite N.eqb_refl. }
  rewrite Hread. unfold beginEscape. cbn [lastLoneEscapeAt base set_mode set_lone]. destruct Ht as [_ Htext Hplain _].
  inversion Hstep as [| | | | | | | | |t Hl Hle|Hfar| | | | | | | | | | | ]; subst.
  - rewrite Hl. rewrite (proj2 (Z.leb_le _ _) Hle). apply tracked_intro; [done|done|simpl; lia|intros _; apply plain_empty|done].
  - assert (Hno : match last_escape p with Some t => Z.leb (nowMs - t) DOUBLE_ESCAPE_WINDOW_MS | None => false end = false).
    { destruct (last_escape p) as [t|]; [|done]. apply Z.leb_gt. by apply Hfar. }
    rewrite Hno. split; [right; done|exact Htext|exact Hplain|done].
Qed.
Lemma recall_tracked d1 p : calm d1 → last_typed p = None → last_escape p = None → tracked (recallHistory d1) p.
Proof. intros Hcalm Hl He. by apply tracked_recalled. Qed.
Lemma mem_chr_iff c l : mem_chr c l = true ↔ c ∈ l.
Proof.
  unfold mem_chr. rewrite existsb_exists. setoid_rewrite N.eqb_eq. setoid_rewrite <- list_elem_of_In. split; [by intros (x & Hx & ->)|by eexists].
Qed.
Lemma mem_chr_false c l : c ∉ l → mem_chr c l = false.
Proof. intros Hc. apply not_true_is_false. by rewrite mem_chr_iff. Qed.
Lemma history_is_no_tilde final : recalls final → N.eqb final (chr "~") = false.
Proof. unfold recalls, HISTORY_FINAL_BYTES. change (js "AB") with [65; 66]%N. intros Hf. rewrite !elem_of_cons in Hf. destruct Hf as [->|[->|[]%elem_of_nil]]; reflexivity. Qed.
Lemma cursor_final final : final ∈ CURSOR_FINAL_BYTES → N.eqb final (chr "~") = false ∧ mem_chr final HISTORY_FINAL_BYTES = false.
Proof. unfold CURSOR_FINAL_BYTES. change (js "CDHF") with [67; 68; 72; 70]%N. intros Hf. rewrite !elem_of_cons in Hf. destruct Hf as [->|[->|[->|[->|[]%elem_of_nil]]]]; done. Qed.
Lemma tracked_sequence parameters final d d1 p p' nowMs :
  tracked d p → calm d1 → same_draft d1 d → valid (Sequence parameters final) → prompt_step nowMs p (Sequence parameters final) p' →
  tracked (finishControlSequence parameters final d1) p'.
Proof.
  intros Ht Hcalm Hsame (_ & _ & Hpaste) Hstep. unfold finishControlSequence.
  inversion Hstep as [| | | | | | | | | | | | | |ps f q Hr Hl He|ps f q Hd Hed|ps f q Hmv Hmd|ps f Hnr Hnd Hnm| | | | ]; subst.
  - rewrite (history_is_no_tilde _ Hr), (proj2 (mem_chr_iff _ _) Hr). by apply recall_tracked.
  - destruct Hd as [-> ->]. cbn. destruct Hsame as (Hc & Hu & Her & Hlast). by apply (tracked_edited d _ p).
  - assert (Hgoal : tracked (moveCursorAway d1) p') by (by apply (moveCursorAway_loosened d d1 p)). destruct Hmv as [Hf|[-> Hps]].
    + destruct (cursor_final _ Hf) as [Htilde Hhist]. rewrite Htilde, Hhist, (proj2 (mem_chr_iff _ _) Hf), andb_false_r. done.
    + unfold CURSOR_TILDE_PARAMETERS in Hps. rewrite !elem_of_cons in Hps. destruct Hps as [->|[->|[->|[->|[]%elem_of_nil]]]]; exact Hgoal.
  - assert (Hp : N.eqb final (chr "~") && str_eqb parameters BRACKETED_PASTE_PARAMETERS = false).
    { apply not_true_is_false. intros [Hf%N.eqb_eq Hq%str_eqb_eq]%andb_true_iff. by subst. }
    assert (Hd : str_eqb parameters (js "3") && N.eqb final (chr "~") = false).
    { apply not_true_is_false. intros [Hq%str_eqb_eq Hf%N.eqb_eq]%andb_true_iff. by apply Hnd. }
    assert (Hm : mem_chr final CURSOR_FINAL_BYTES || (N.eqb final (chr "~") && mem_str parameters CURSOR_TILDE_PARAMETERS) = false).
    { apply not_true_is_false. intros [Hf%mem_chr_iff|[Hf%N.eqb_eq Hq%mem_str_In]%andb_true_iff]%orb_true_iff; apply Hnm; [by left|right; split; [done|by apply list_elem_of_In]]. }
    rewrite Hp, (mem_chr_false _ _ Hnr), Hd, Hm. by apply (unchanged_loosened d d1 p).
Qed.
Lemma tracked_shifted final d d1 p p' nowMs : tracked d p → calm d1 → same_draft d1 d → prompt_step nowMs p (Shifted final) p' →
  tracked (if mem_chr final HISTORY_FINAL_BYTES then recallHistory d1 else if mem_chr final CURSOR_FINAL_BYTES then moveCursorAway d1 else d1) p'.
Proof.
  intros Ht Hcalm Hsame Hstep. inversion Hstep as [| | | | | | | | | | | | | | | | | |f q Hr Hl He|f q Hf Hmd|f Hnr Hnf| ]; subst.
  - rewrite (proj2 (mem_chr_iff _ _) Hr). by apply recall_tracked.
  - destruct (cursor_final _ Hf) as [_ Hhist]. rewrite Hhist, (proj2 (mem_chr_iff _ _) Hf). by apply (moveCursorAway_loosened d d1 p).
  - rewrite (mem_chr_false _ _ Hnr), (mem_chr_false _ _ Hnf). by apply (unchanged_loosened d d1 p).
Qed.
Lemma tracked_pasted pasted d d1 p : tracked d p → calm d1 → same_draft d1 d → mode d1 = Keys →
  tracked (set_candidate [] (set_mode Keys (fold_left countPastedCharacter pasted d1))) (mkPrompt (before p ++ pasted) (after p) (list.last pasted) None).
Proof.
  intros Ht [_ Hlone] (Hc & Hu & Her & Hlast) Hm. destruct (count_fields pasted d1) as (Hcount & Hunseen & Herase & Hl & Ho).
  apply tracked_intro; [split; [done|cbn; congruence]|done| | |cbn; apply Hl].
  - cbn. rewrite Hunseen, Hcount, Hu, Hc. intros Hs%(tracked_text _ _ Ht). revert Hs. unfold text. cbn [before after].
    rewrite <- app_assoc, !text_in_app, !length_app. assert (length (text_in pasted) ≤ length pasted) by apply sublist_length, sublist_filter. lia.
  - cbn. intros [He Htext]%Herase. rewrite Her in He. destruct (tracked_plain _ _ Ht He) as (Ha & breaks & line & Hb & Hbr & Hline). split; [done|].
    exists breaks, (line ++ pasted). cbn [before]. rewrite Hb, <- app_assoc. split; [done|]. split; [done|]. by apply list.Forall_app.
Qed.

(** Before a key other than Escape the pending Escape, if any, is settled as a key of its own. *)
Lemma settled_before nowMs k d p : tracked d p → k ≠ EscapeKey → apart nowMs p k →
  let d0 := settleStalePendingEscape nowMs d in tracked d0 p ∧ mode d0 = Keys ∧ (starts_with_escape k = true → far_from_escape nowMs d0).
Proof.
  intros Ht Hk [?|Hapart]; [done|]. destruct (settled nowMs d p Ht) as [Ht0 Hm0].
  - intros t Hl. specialize (Hapart t Hl). destruct (starts_with_escape k); unfold DOUBLE_ESCAPE_WINDOW_MS, ESCAPE_FOLLOW_UP_WINDOW_MS in *; lia.
  - split; [done|]. split; [done|]. intros Hs t Hl. rewrite Hs in Hapart. apply Hapart.
    destruct (tracked_mode _ _ Ht0) as [[_ Heq]|[Hm _]]; congruence.
Qed.
Lemma escaped_tracks c nowMs d p p' :
  tracked d p → mode d = Keys → far_from_escape nowMs d → c ∉ [ESCAPE; chr "["; chr "O"] →
  (isNewLineKey c = true → p' = mkPrompt (before p ++ [LINE_FEED]) (after p) None None) → (isNewLineKey c = false → isEraseKey c = true → edited p p') →
  (isNewLineKey c = false → isEraseKey c = false → moved p p') → tracked (fold_left (read nowMs) [ESCAPE; c] d) p'.
Proof.
  intros Ht Hm Hfar Hc Hline Hedit Hmove. rewrite !not_elem_of_cons in Hc. destruct Hc as (H1 & H2 & H3 & _).
  destruct (read_escaped c nowMs d Hm Hfar H1 H2 H3) as (d1 & Hcalm & Hsame & ->). destruct (isNewLineKey c).
  - rewrite (Hline eq_refl). apply (addLine_loosened d d1 p); [done|done|done| |done|done]. by rewrite text_break.
  - destruct (isEraseKey c); [|apply (moveCursorAway_loosened d d1 p); auto]. destruct Hsame as (Hc & Hu & Her & Hlast). by apply (tracked_edited d _ p); auto.
Qed.
Lemma newline_or_erase c : isNewLineKey c = true ∨ isEraseKey c = true → c ∉ [ESCAPE; chr "["; chr "O"] ∧ (isNewLineKey c = true → isEraseKey c = false) ∧ c ≠ ESCAPE.
Proof.
  unfold isNewLineKey, isEraseKey. rewrite !orb_true_iff, !N.eqb_eq. intros [[->| ->]|[->| ->]]; (split; [apply (bool_decide_unpack _); vm_compute; exact I|split; vm_compute; intuition discriminate]).
Qed.
Lemma tracked_simple c d p p' nowMs k :
  tracked d p → mode d = Keys → bytes_of k = [c] → k ≠ EscapeKey → valid k → prompt_step nowMs p k p' → c ≠ ESCAPE ∧ tracked (press c d) p'.
Proof.
  intros Ht Hm Hbytes Hk Hvalid Hstep. destruct k; simplify_eq/=.
  - split; [|inversion Hstep; subst; by apply tracked_char]. destruct Hvalid as [Hc _]. by intros ->.
  - split; [by apply newline_or_erase; left|by eapply tracked_enter].
  - split; [done|]. inversion Hstep; subst. by apply (tracked_empty (set_lone None d)).
  - split; [done|]. by eapply tracked_ctrl_u.
  - split; [by apply newline_or_erase; right|by eapply tracked_erase].
  - split; [intros ->; revert Hvalid; apply (bool_decide_unpack _); vm_compute; exact I|]. rewrite press_edit by done. inversion Hstep; subst. by apply (tracked_edited d _ p).
  - split; [intros ->; revert Hvalid; apply (bool_decide_unpack _); vm_compute; exact I|]. rewrite press_cursor by done. inversion Hstep as [| | | | | | |c' q Hmoved| | | | | | | | | | | | | | ]; subst.
    apply tracked_set_last; [|apply Hmoved]. by apply (moveCursorAway_loosened d _ p).
  - destruct Hvalid as [Hc Hn]. split; [intros ->; apply Hn; apply (bool_decide_unpack _); vm_compute; exact I|]. rewrite press_other by done. inversion Hstep; subst.
    apply tracked_set_last; [|done]. by apply (unchanged_loosened d _ p).
Qed.
Lemma observe_tracks nowMs k d p p' : tracked d p → valid k → apart nowMs p k → prompt_step nowMs p k p' → tracked (observe_characters (bytes_of k) nowMs d) p'.
Proof.
  intros Ht Hvalid Hapart Hstep. assert (Hesc : k = EscapeKey ∨ k ≠ EscapeKey) by (destruct k; (by left) || (by right)).
  destruct Hesc as [->|Hk]; [by apply (tracked_escape nowMs d p p')|].
  destruct (settled_before nowMs k d p Ht Hk Hapart) as (Ht0 & Hm0 & Hfar). unfold observe_characters. set (d0 := settleStalePendingEscape nowMs d) in *.
  assert (Hsimple : ∀ c, bytes_of k = [c] → tracked (fold_left (read nowMs) (bytes_of k) d0) p').
  { intros c Hb. destruct (tracked_simple c d0 p p' nowMs k) as [Hc Hpress]; try done. rewrite Hb. cbn [fold_left]. by rewrite read_press. }
  destruct k as [c|c| | |c|c|c|c| |c|c|c|ps f|f|pasted]; try (by eapply Hsimple); try done; specialize (Hfar eq_refl); cbn [bytes_of].
  - destruct (newline_or_erase c) as (Hin & _ & _); [by left|]. inversion Hstep; subst. simpl in Hvalid. eapply escaped_tracks; try done; intros; congruence.
  - destruct (newline_or_erase c) as (Hin & Hex & _); [by right|]. inversion Hstep; subst. simpl in Hvalid. eapply escaped_tracks; try done; intros; [|congruence].
    exfalso. rewrite Hex in Hvalid; done.
  - inversion Hstep; subst. simpl in Hvalid. rewrite !not_elem_of_cons in Hvalid. destruct Hvalid as (H1 & H2 & H3 & H4 & H5 & H6 & H7 & _).
    assert (Hnl : isNewLineKey c = false) by (unfold isNewLineKey; by rewrite (proj2 (N.eqb_neq _ _) H4), (proj2 (N.eqb_neq _ _) H5)).
    assert (Her : isEraseKey c = false) by (unfold isEraseKey; by rewrite (proj2 (N.eqb_neq _ _) H6), (proj2 (N.eqb_neq _ _) H7)).
    eapply escaped_tracks; try done; try congruence. rewrite !not_elem_of_cons. repeat split; try done. apply not_elem_of_nil.
  - destruct (read_sequence ps f nowMs d0 Hm0 Hfar) as (d1 & Hcalm & Hsame & ->); [apply Hvalid|apply Hvalid|]. by eapply tracked_sequence.
  - destruct (read_shifted f nowMs d0 Hm0 Hfar) as (d1 & Hcalm & Hsame & ->). by eapply tracked_shifted.
  - destruct (read_paste pasted nowMs d0 Hm0 Hfar Hvalid) as (d1 & Hcalm & Hsame & Hread & Hm1). cbn [bytes_of] in Hread. rewrite Hread. inversion Hstep; subst. by eapply tracked_pasted.
Qed.

(** ** Any CLI that does what the source relies on
    [shows] is the prompt of a state of the CLI, [reacts] what it does with a key pressed at a time. *)
Section Cli.
Context {Cli : Type} (shows : Cli → Prompt) (reacts : Z → Cli → key → Cli).
Definition follows_its_keys : Prop := ∀ nowMs c k, valid k → prompt_step nowMs (shows c) k (shows (reacts nowMs c k)).
Definition after_keys (c : Cli) (keys : list (Z * key)) : Cli := fold_left (λ c timed, reacts timed.1 c timed.2) keys c.
(** The keys are whole keys, each told apart by its time from an Escape pressed before it. *)
Fixpoint pressed_apart (c : Cli) (keys : list (Z * key)) : Prop :=
  match keys with
  | [] => True
  | (nowMs, k) :: rest => valid k ∧ apart nowMs (shows c) k ∧ pressed_apart (reacts nowMs c k) rest
  end.

End Cli.

(** A line editor that does what is relied on: recalls bring nothing back, edits it cannot count change nothing. *)
Definition quietly (p : Prompt) : Prompt := mkPrompt (before p) (after p) None None.
Definition line_editor (nowMs : Z) (p : Prompt) (k : key) : Prompt :=
  match k with
  | Char c => mkPrompt (before p ++ [c]) (after p) (Some c) None
  | Enter _ => if bool_decide (last_typed p = Some BACKSLASH_KEY) then mkPrompt (take (length (before p) - 1) (before p) ++ [LINE_FEED]) (after p) None None else empty_prompt
  | CtrlC => empty_prompt
  | CtrlU => mkPrompt [] (after p) None None
  | Erase _ => mkPrompt (take (length (before p) - 1) (before p)) (after p) None None
  | EscapeKey => if match last_escape p with Some t => Z.leb (nowMs - t) DOUBLE_ESCAPE_WINDOW_MS | None => false end then empty_prompt else mkPrompt (before p) (after p) None (Some nowMs)
  | ShiftEnter _ => mkPrompt (before p ++ [LINE_FEED]) (after p) None None
  | Paste pasted => mkPrompt (before p ++ pasted) (after p) (list.last pasted) None
  | _ => quietly p
  end.
Lemma line_editor_follows : follows_its_keys (λ p, p) line_editor.
Proof.
  intros nowMs p k _. assert (He : edited p (quietly p)) by done. assert (Hm : moved p (quietly p)) by (split; [done|done]).
  destruct k as [c|c| | |c|c|c|c| |c|c|c|ps f|f|pasted]; cbn [line_editor]; try (constructor; done).
  - case_bool_decide; by constructor.
  - apply (step_ctrl_u _ _ [] (before p)); [done|by left].
  - destruct (last_escape p) as [t|] eqn:Hl; [destruct (Z.leb_spec (nowMs - t) DOUBLE_ESCAPE_WINDOW_MS)|]; [by eapply step_escape_twice|apply step_escape; rewrite Hl; intros ? [= <-]; lia|apply step_escape; by rewrite Hl].
  - destruct (decide (f ∈ HISTORY_FINAL_BYTES)); [by apply step_recall|]. destruct (decide (ps = js "3" ∧ f = chr "~")); [by apply step_forward_delete|].
    destruct (decide (f ∈ CURSOR_FINAL_BYTES ∨ (f = chr "~" ∧ ps ∈ CURSOR_TILDE_PARAMETERS))); [by apply step_move|by apply step_ignored].
  - destruct (decide (f ∈ HISTORY_FINAL_BYTES)); [by apply step_shifted_recall|]. destruct (decide (f ∈ CURSOR_FINAL_BYTES)); [by apply step_shifted_move|by apply step_shifted_ignored].
Qed.
Definition typed_and_erased : list (Z * key) := [(0, Char 104); (100, EscapeKey); (600, EscapeKey); (900, Char 105); (950, Erase DELETE)]%Z.

(** An arrow key within a second of a lone Escape: the Escape byte of the arrow counts as the second Escape, the rest of
    the sequence as two typed characters, and two backspaces declare empty a prompt that still holds text. *)
Definition text_escape_arrow : list (Z * key) :=
  [(0, Paste (js "keep")); (100, EscapeKey); (600, Sequence [] (chr "D")); (900, Erase DELETE); (950, Erase DELETE)]%Z.
Example an_arrow_after_an_escape_loses_the_draft :
  isPresent (watch (take 2 text_escape_arrow) new_draft) = true ∧ isPresent (watch text_escape_arrow new_draft) = false.
Proof. split; reflexivity. Qed.
