(* ===== verification/TriggerService.v ===== *)
(** * The trigger service

    Model of [packages/core/src/triggers/triggerService.ts] on top of the repository of
    [TriggerLedger], with the schema of a condition ([shared/triggers.ts]),
    [kernelConditions.ts] and the human proof ([humanProofVerifier.ts],
    [secrets/operatorHumanProof.ts]).  An operation is a program in a state and exception
    monad: [inl] is the error it throws.  Every call of the database and every listener may throw
    ([service_throws]).  The verifier of human proofs is an interface, of
    which the ledger of operator nonces is the implementation the daemon uses.  What a listener does
    to the tables (a fire that opens the breaker disarms) is an event of its own. *)
From S2P Require Import Prelude JsText Regex PolicyTypes PolicyDocument Sorting Tickets TriggerLedger PlaybookKernel Conditions.

(** ** Conditions *)
Record TriggerCondition := mkTriggerCondition
  { condition_id : str; lhs : str; op : str; rhs : option json; condition_join : Join; condition_caseInsensitive : bool }.
Definition MAX_TRIGGER_CONDITIONS : nat := 32.
Definition MAX_TEXT_CHARS : nat := 8192.
Definition MAX_NAME_CHARS : nat := 200.
Definition TRIGGER_CONDITION_OPERATORS : list str :=
  [js "contains"; js "ends_with"; js "eq"; js "exists"; js "gt"; js "gte"; js "lt"; js "lte"; js "neq"; js "not_contains"; js "not_exists"; js "starts_with"].
Definition OPERATORS_WITHOUT_VALUE : list str := [js "exists"; js "not_exists"].

Definition path_unit (c : N) : bool := is_alnum c || N.eqb c (chr "_") || N.eqb c (chr "-").
Definition path_segment (s : str) : bool := negb (bool_decide (s = [])) && forallb path_unit s.
Definition CONDITION_PATH (path : str) : bool :=
  match split_on (chr ".") path with
  | (first :: _) as segments =>
      forallb path_segment segments && match first with c :: _ => is_alpha c || N.eqb c (chr "_") | [] => false end
  | [] => false
  end.
Definition allowed_rhs (r : json) : bool :=
  match r with JStr s => bool_decide (length s ≤ MAX_TEXT_CHARS) | JNum _ | JBool _ => true | _ => false end.
Definition join_of (j : json) : option Join :=
  match j with
  | JStr s => if str_eqb s (js "and") then Some JoinAnd else if str_eqb s (js "or") then Some JoinOr else None
  | _ => None
  end.
Definition join_text (j : Join) : str := match j with JoinAnd => js "and" | JoinOr => js "or" end.
Definition bool_of (j : json) : option bool := match j with JBool b => Some b | _ => None end.
Definition needsValue (op : str) (rhs : option json) : bool := mem_str op OPERATORS_WITHOUT_VALUE || bool_decide (is_Some rhs).
Definition withoutValueForExistence (op : str) (rhs : option json) : option json := if mem_str op OPERATORS_WITHOUT_VALUE then None else rhs.
Definition condition_keys : list str := [js "lhs"; js "op"; js "rhs"; js "join"; js "caseInsensitive"].
(** [TriggerConditionInputSchema.parse]: [None] when it throws. *)
Definition parseConditionInput (id : str) (input : rec json) : option TriggerCondition :=
  if negb (forallb (λ k, mem_str k condition_keys) input.*1) then None
  else
    path ← match get input (js "lhs") with
           | Some (JStr s) => if bool_decide (length s ≤ MAX_NAME_CHARS) && CONDITION_PATH s then Some s else None
           | _ => None
           end;
    operator ← match get input (js "op") with Some (JStr s) => if mem_str s TRIGGER_CONDITION_OPERATORS then Some s else None | _ => None end;
    value ← match get input (js "rhs") with
            | None => Some None
            | Some r => if allowed_rhs r then Some (Some r) else None
            end;
    join ← match get input (js "join") with None => Some JoinAnd | Some j => join_of j end;
    caseInsensitive ← match get input (js "caseInsensitive") with None => Some false | Some b => bool_of b end;
    if needsValue operator value
    then Some (mkTriggerCondition id path operator (withoutValueForExistence operator value) join caseInsensitive)
    else None.

(** What the repository stores: [JSON.stringify] of a condition and what [JSON.parse] gives back. *)
Definition json_of_condition (c : TriggerCondition) : json :=
  JObj ([(js "id", JStr (condition_id c)); (js "lhs", JStr (lhs c)); (js "op", JStr (op c))]
    ++ match rhs c with Some r => [(js "rhs", r)] | None => [] end
    ++ [(js "join", JStr (join_text (condition_join c))); (js "caseInsensitive", JBool (condition_caseInsensitive c))]).
Definition stored_text (fields : rec json) (k : str) : option str := match get fields k with Some (JStr s) => Some s | _ => None end.
Definition condition_of_json (j : json) : option TriggerCondition :=
  match j with
  | JObj fields =>
      id ← stored_text fields (js "id"); path ← stored_text fields (js "lhs"); operator ← stored_text fields (js "op");
      join ← get fields (js "join") ≫= join_of; caseInsensitive ← get fields (js "caseInsensitive") ≫= bool_of;
      Some (mkTriggerCondition id path operator (get fields (js "rhs")) join caseInsensitive)
  | _ => None
  end.
Definition json_of_conditions (l : list TriggerCondition) : json := JArr (json_of_condition <$> l).
Definition conditions_of_json (j : json) : option (list TriggerCondition) := match j with JArr l => mapM condition_of_json l | _ => None end.

(** The join of the first condition has nothing to join to. *)
Definition with_join (j : Join) (c : TriggerCondition) : TriggerCondition :=
  mkTriggerCondition (condition_id c) (lhs c) (op c) (rhs c) j (condition_caseInsensitive c).
Definition withFirstJoinForced (l : list TriggerCondition) : list TriggerCondition :=
  match l with [] => [] | c :: rest => with_join JoinAnd c :: rest end.

(** ** The event of a source *)
Inductive TriggerWhenSource := SessionStateSource | SilentRunSource | DataStoreQuerySource | CronSource | IntegrationRecordsSource.
Definition sourceOf (w : json) : option TriggerWhenSource :=
  match w with
  | JObj fields =>
      stored_text fields (js "source") ≫=
        get [(js "session_state", SessionStateSource); (js "silent_run", SilentRunSource); (js "data_store_query", DataStoreQuerySource);
             (js "cron", CronSource); (js "integration_records", IntegrationRecordsSource)]
  | _ => None
  end.
Definition EVENT_PREFIXES_BY_SOURCE (s : TriggerWhenSource) : list str :=
  match s with
  | SessionStateSource | SilentRunSource => [js "event.session."]
  | DataStoreQuerySource => [js "event.row."; js "event.previous."]
  | CronSource => [js "event.slot."]
  | IntegrationRecordsSource => [js "event.record."; js "event.previous."]
  end.
Definition DEFAULT_TRIGGER_WHEN : json := JObj [(js "source", JStr (js "session_state")); (js "state", JStr (js "idle")); (js "minutes", JNum 10)].
Definition DEFAULT_TRIGGER_RUN : json :=
  JObj [(js "kind", JStr (js "notify")); (js "title", JStr (js "Trigger fired")); (js "message", JStr (js "A trigger fired."))].

(** ** Errors *)
Inductive ServiceError :=
  | TriggerNotFound | StaleRevision (currentRev : Z) | InvalidBody | TooManyTriggerConditions | TriggerFieldPrefix
  | ProjectNotFound | HumanProofRequired
  (** An exception that is not an [OpenFleetError]: the schema, the digest or the database refused. *)
  | Uncaught.

(** ** Titles and policies *)
Definition DEFAULT_TITLE : str := js "Untitled Trigger".
Definition MAX_TITLE_CHARS : nat := 200.
Definition NUL : N := 0.
Definition without_nul (s : str) : str := filter (λ c, c ≠ NUL) s.
Definition titleOf (requested : option str) : ServiceError + str :=
  let trimmed := match requested with Some t => trim (without_nul t) | None => [] end in
  let title := if bool_decide (trimmed = []) then DEFAULT_TITLE else trimmed in
  if bool_decide (MAX_TITLE_CHARS < length title) then inl InvalidBody else inr title.
Record PartialPolicy := mkPartialPolicy
  { partial_cooldown : option Z; partial_maxFires : option nat; partial_batchMode : option TriggerBatchMode;
    partial_backlogPolicy : option TriggerBacklogPolicy; partial_maxAge : option Z }.
Definition MAX_SAFE_INTEGER : Z := 9007199254740991.
Definition int_at_least (low : Z) (n : option Z) : bool := match n with Some n => Z.leb low n && Z.leb n MAX_SAFE_INTEGER | None => true end.
(** [TriggerPolicySchema.parse]: [None] when it throws. *)
Definition parsePolicy (p : PartialPolicy) : option TriggerPolicy :=
  if int_at_least 0 (partial_cooldown p) && int_at_least 1 (Z.of_nat <$> partial_maxFires p) && int_at_least 1 (partial_maxAge p)
  then Some (mkTriggerPolicy (default 0%Z (partial_cooldown p)) (partial_maxFires p) (default PerEvent (partial_batchMode p))
               (default FireAll (partial_backlogPolicy p)) (partial_maxAge p))
  else None.

(** ** The human proof *)
Class HumanProofVerifier := { proofs : Type; consume_proof : proofs → Z → option str → str → proofs * bool }.
(** The binding of the arming of a trigger, and the verifier over the ledger of operator nonces. *)
Definition triggerBinding (triggerId : str) : Nonces.OperatorBinding := Nonces.mkBinding Nonces.ArmTrigger (js "trigger") triggerId triggerId.
Definition createOperatorHumanProof : HumanProofVerifier :=
  {| proofs := rec Nonces.live;
     consume_proof nonces now proof triggerId :=
       match proof with None => (nonces, false) | Some nonce => Nonces.redeem nonces now nonce (triggerBinding triggerId) end |}.
(** A daemon without a desktop app. *)
Definition refusingHumanProof : HumanProofVerifier := {| proofs := unit; consume_proof s _ _ _ := (s, false) |}.

(** ** The service *)
Class TriggerServiceDeps := { humanProof :: HumanProofVerifier; projectExists : str → bool; service_clock : nat → Z; service_newId : nat → str; service_throws : nat → bool }.

Section Service.
Context `{JsNumbers} `{TriggerServiceDeps}.
(** The number a stored integer denotes, the lower case of the language and the hash function of the digest. *)
Variable number_of : Z → number.
Variable toLowerCase : str → str.
Variable sha256 : str → str.

Fixpoint value_of_json (j : json) : value :=
  match j with
  | JNull => VNull
  | JBool b => VBool b
  | JNum n => VNumber (number_of n)
  | JStr s => VString s
  | JArr l => VArray (map (λ x, Some (value_of_json x)) l)
  | JObj fields => VObject (map (λ member, (member.1, value_of_json member.2)) fields)
  end.
Definition kernelConditionOf (c : TriggerCondition) : Condition :=
  mkCondition (lhs c) (op c) (match rhs c with Some r => value_of_json r | None => VUndefined end) (condition_caseInsensitive c) (Some (condition_join c)).
Definition kernelConditionsOf (l : list TriggerCondition) : list Condition := kernelConditionOf <$> l.

(** *** The checks of a document *)
Definition assertEvaluableByTheKernel (l : list TriggerCondition) : ServiceError + unit :=
  match evaluateConditions toLowerCase (kernelConditionsOf l) (VObject []) with Returns _ => inr () | Throws _ => inl InvalidBody end.
Definition assertWithinTheCap (count : nat) : ServiceError + unit :=
  if bool_decide (MAX_TRIGGER_CONDITIONS < count) then inl TooManyTriggerConditions else inr ().
Definition readsAnotherEvent (prefixes : list str) (c : TriggerCondition) : bool := negb (existsb (startsWith (lhs c)) prefixes).
Definition assertEveryPathReadsTheEventOfTheSource (w : json) (l : list TriggerCondition) : ServiceError + unit :=
  match l, sourceOf w with
  | [], _ => inr ()
  | _, None => inl Uncaught
  | _, Some source => if existsb (readsAnotherEvent (EVENT_PREFIXES_BY_SOURCE source)) l then inl TriggerFieldPrefix else inr ()
  end.
Definition assertDocumentIsSound (w : json) (l : list TriggerCondition) : ServiceError + unit :=
  match assertWithinTheCap (length l) with
  | inl e => inl e
  | inr _ => match assertEvaluableByTheKernel l with inl e => inl e | inr _ => assertEveryPathReadsTheEventOfTheSource w l end
  end.

(** *** What a human approves, as the digest reads it *)
Definition policy_value (p : TriggerPolicy) : value :=
  VObject ([(js "cooldownSeconds", VNumber (number_of (cooldownSeconds p)))]
    ++ match maxFiresPerDay p with Some n => [(js "maxFiresPerDay", VNumber (number_of (Z.of_nat n)))] | None => [] end
    ++ [(js "batchMode", VString (match batchMode p with PerEvent => js "per_event" | PerBatch => js "per_batch" end));
        (js "backlogPolicy", VString (match backlogPolicy p with
           FireAll => js "fire_all" | FireLatestOnly => js "fire_latest_only" | DiscardStale => js "discard_stale" end))]
    ++ match backlogMaxAgeMinutes p with Some n => [(js "backlogMaxAgeMinutes", VNumber (number_of n))] | None => [] end).
Definition approvedGraphOf (g : ApprovedGraph) : value :=
  VObject [(js "ownerManagerId", match ownerManagerId g with Some m => VString m | None => VNull end); (js "when", value_of_json (when_ g));
           (js "conditions", value_of_json (conditions g)); (js "run", value_of_json (run_ g)); (js "policy", policy_value (policy g))].

(** *** State and programs *)
Inductive Notice := OnArmed (trigger : TriggerRecord) | OnChanged (triggerId : str).
Record service := mkService
  { repository : triggers_table; ledger_rows : fires; live_proofs : proofs; clock_reads : nat; ids_minted : nat; notices : list Notice; calls_made : nat }.
Definition Op (A : Type) : Type := service → service * (ServiceError + A).
#[export] Instance Op_ret : MRet Op := λ A a s, (s, inr a).
#[export] Instance Op_bind : MBind Op := λ A B k m s, match m s with (s', inr a) => k a s' | (s', inl e) => (s', inl e) end.
Definition atomic {A} (f : service → service * (ServiceError + A)) : Op A := f.
Definition throws {A} (e : ServiceError) : Op A := λ s, (s, inl e).
Definition lift {A} (r : ServiceError + A) : Op A := λ s, (s, r).
Definition orUncaught {A} (r : option A) : Op A := λ s, (s, match r with Some a => inr a | None => inl Uncaught end).
Definition clock : Op Z := λ s,
  (mkService (repository s) (ledger_rows s) (live_proofs s) (S (clock_reads s)) (ids_minted s) (notices s) (calls_made s), inr (service_clock (clock_reads s))).
Definition newId : Op str := λ s,
  (mkService (repository s) (ledger_rows s) (live_proofs s) (clock_reads s) (S (ids_minted s)) (notices s) (calls_made s), inr (service_newId (ids_minted s))).
(** A call of the database, or of a listener: it may throw. *)
Definition may_throw : Op unit := λ s,
  (mkService (repository s) (ledger_rows s) (live_proofs s) (clock_reads s) (ids_minted s) (notices s) (S (calls_made s)), if service_throws (calls_made s) then inl Uncaught else inr ()).
Definition notify (n : Notice) : Op unit := λ s,
  may_throw (mkService (repository s) (ledger_rows s) (live_proofs s) (clock_reads s) (ids_minted s) (notices s ++ [n]) (calls_made s)).
Definition write {A} (change : triggers_table → triggers_table * A) : Op A :=
  _ ← may_throw;
  atomic (λ s, let '(t, a) := change (repository s) in (mkService t (ledger_rows s) (live_proofs s) (clock_reads s) (ids_minted s) (notices s) (calls_made s), inr a)).
Definition consume (now : Z) (proof : option str) (triggerId : str) : Op bool := λ s,
  let '(p, verdict) := consume_proof (live_proofs s) now proof triggerId in
  (mkService (repository s) (ledger_rows s) p (clock_reads s) (ids_minted s) (notices s) (calls_made s), inr verdict).

Definition getById (id : str) : Op TriggerRecord :=
  _ ← may_throw;
  atomic (λ s, (s, match getTrigger (repository s) id with Some trigger => inr trigger | None => inl TriggerNotFound end)).

(** *** Operations *)
Fixpoint parseInputs (inputs : list (rec json)) : Op (list TriggerCondition) :=
  match inputs with
  | [] => mret []
  | input :: rest =>
      id ← (match get input (js "id") with Some (JStr id) => mret id | _ => newId end);
      c ← orUncaught (parseConditionInput id (del input (js "id")));
      l ← parseInputs rest;
      mret (c :: l)
  end.
Definition conditionsWithIds (inputs : list (rec json)) : Op (list TriggerCondition) :=
  _ ← lift (assertWithinTheCap (length inputs));
  l ← parseInputs inputs;
  mret (withFirstJoinForced l).

Record CreateInput := mkCreateInput
  { input_projectId : str; input_ownerManagerId : option str; input_title : option str; input_when : option json;
    input_conditions : option (list (rec json)); input_run : option json; input_policy : option PartialPolicy }.
Definition create (input : CreateInput) : Op TriggerRecord :=
  _ ← may_throw;
  if negb (projectExists (input_projectId input)) then throws ProjectNotFound
  else
    let w := default DEFAULT_TRIGGER_WHEN (input_when input) in
    l ← conditionsWithIds (default [] (input_conditions input));
    _ ← lift (assertDocumentIsSound w l);
    id ← newId;
    title ← lift (titleOf (input_title input));
    policy ← orUncaught (parsePolicy (default (mkPartialPolicy None None None None None) (input_policy input)));
    createdAt ← clock;
    let graph := mkGraph (input_ownerManagerId input) w (json_of_conditions l) (default DEFAULT_TRIGGER_RUN (input_run input)) policy in
    inserted ← write (λ t, match insertTrigger t id (input_projectId input) title graph createdAt with Some t' => (t', true) | None => (t, false) end);
    if inserted : bool then getById id else throws Uncaught.

(** The trigger of the project named by its id or its exact title. *)
Definition getInProject (projectId reference : str) : Op TriggerRecord :=
  _ ← may_throw;
  atomic (λ s, let ofProject := listOfProject (repository s) projectId in
  (s, match find (λ r, str_eqb (trigger_id r) reference) ofProject with
      | Some byId => inr byId
      | None =>
          match filter (λ r, trigger_title r = reference) ofProject with
          | _ :: _ :: _ => inl InvalidBody
          | [] => inl TriggerNotFound
          | [only] => inr only
          end
      end)).
Definition list_triggers (projectId : str) : Op triggers_table := _ ← may_throw; atomic (λ s, (s, inr (listOfProject (repository s) projectId))).
Definition delete (id : str) : Op unit :=
  _ ← may_throw;
  atomic (λ s, let '(t, rows, wasDeleted) := deleteTrigger (repository s) (ledger_rows s) id in
  if wasDeleted then notify (OnChanged id) (mkService t rows (live_proofs s) (clock_reads s) (ids_minted s) (notices s) (calls_made s)) else (s, inl TriggerNotFound)).

(** What a caller edits; the conditions as records, the rest as the repository takes it. *)
Record Edited := mkEdited
  { edited_title : option str; edited_when : option json; edited_conditions : option (list TriggerCondition); edited_run : option json;
    edited_policy : option TriggerPolicy; edited_owner : option (option str) }.
Definition stale {A} (id : str) : Op A := current ← getById id; throws (StaleRevision (contentRev current)).
Definition edit (id : str) (change : TriggerRecord → ServiceError + Edited) (expectedRev : option Z) : Op TriggerRecord :=
  current ← getById id;
  if match expectedRev with Some rev => negb (Z.eqb rev (contentRev current)) | None => false end then throws (StaleRevision (contentRev current))
  else
    edited ← lift (change current);
    let forced := withFirstJoinForced <$> edited_conditions edited in
    l ← orUncaught (match forced with Some l => Some l | None => conditions_of_json (conditions (trigger_graph current)) end);
    _ ← lift (assertDocumentIsSound (default (when_ (trigger_graph current)) (edited_when edited)) l);
    title ← lift (match edited_title edited with Some t => match titleOf (Some t) with inr t' => inr (Some t') | inl e => inl e end | None => inr None end);
    now ← clock;
    let content := mkContent title (edited_when edited) (json_of_conditions <$> forced) (edited_run edited) (edited_policy edited) (edited_owner edited) in
    wasReplaced ← write (λ t, replaceContent t id (contentRev current) content now);
    if wasReplaced : bool then _ ← notify (OnChanged id); getById id else stale id.

Definition digest_of (g : ApprovedGraph) : attempt str := canonicalDigestOf sha256 (approvedGraphOf g).
(** [proofAt]: the reading of the monotonic clock when the proof is consumed. *)
Definition arm_trigger (id : str) (rev : Z) (proof : option str) (proofAt : Z) : Op TriggerRecord :=
  trigger ← getById id;
  if negb (Z.eqb rev (contentRev trigger)) then throws (StaleRevision (contentRev trigger))
  else
    isProvenHuman ← consume proofAt proof (trigger_id trigger);
    if negb isProvenHuman then throws HumanProofRequired
    else
      digest ← orUncaught (match digest_of (trigger_graph trigger) with Returns d => Some d | Throws _ => None end);
      now ← clock;
      wasArmed ← write (λ t, arm t (trigger_id trigger) rev digest now);
      if wasArmed : bool then
        armed ← getById (trigger_id trigger);
        _ ← notify (OnArmed armed);
        mret armed
      else stale (trigger_id trigger).
Definition disarm_trigger (id : str) : Op TriggerRecord :=
  _ ← getById id;
  _ ← write (λ t, (disarm t id, ()));
  _ ← notify (OnChanged id);
  getById id.
End Service.
