(* ===== verification/TriggerServiceFacts.v ===== *)
(** * The trigger service: facts

    What each operation does on success and on every refusal; the documents it stores are
    sound; and, over the ledger of operator nonces, a trigger is armed only by a human: each
    armed trigger goes back to an arming that spent a nonce the desktop app minted for that very
    trigger, on the very graph it now holds, and one nonce arms at most once. *)
From S2P Require Import Prelude JsText Regex PolicyTypes PolicyDocument Sorting Tickets TriggerLedger PlaybookKernel Conditions TriggerService.

(** ** Conditions survive their storage *)
Lemma condition_roundtrip c : condition_of_json (json_of_condition c) = Some c.
Proof. destruct c as [id path o [r|] [|] ci]; reflexivity. Qed.
Lemma conditions_roundtrip l : conditions_of_json (json_of_conditions l) = Some l.
Proof. apply mapM_fmap_Some. apply condition_roundtrip. Qed.
(** The operators of the schema are the ones of the kernel. *)
Lemma schema_operators_are_the_kernels : TRIGGER_CONDITION_OPERATORS = CONDITION_OPERATORS.*1.
Proof. reflexivity. Qed.

(** ** Tables *)
Lemma getTrigger_Some t id r : getTrigger t id = Some r → r ∈ t ∧ trigger_id r = id.
Proof. unfold getTrigger. intros [Hr Hid]%find_some. apply str_eqb_eq in Hid. split; [by apply list_elem_of_In|done]. Qed.
Lemma getTrigger_None t id : getTrigger t id = None → id ∉ (trigger_id <$> t).
Proof.
  unfold getTrigger. intros Hn (r & -> & Hr)%list_elem_of_fmap. apply list_elem_of_In in Hr. apply (find_none _ _ Hn) in Hr. by rewrite str_eqb_refl in Hr.
Qed.
Lemma getTrigger_unique t r r' : NoDup (trigger_id <$> t) → r ∈ t → r' ∈ t → trigger_id r = trigger_id r' → r = r'.
Proof.
  intros Hnd Hr Hr' Heq. induction t as [|x t IH]; [by apply elem_of_nil in Hr|]. csimpl in Hnd. apply list.NoDup_cons in Hnd as [Hx Hnd].
  assert (Hin : ∀ w, w ∈ t → trigger_id w ≠ trigger_id x) by (intros w Hw E; apply Hx; rewrite <- E; by apply list_elem_of_fmap_2).
  apply elem_of_cons in Hr as [->|Hr], Hr' as [->|Hr']; [done| | |by apply IH]; exfalso; eapply Hin; eauto.
Qed.
Lemma getTrigger_elem t r : NoDup (trigger_id <$> t) → r ∈ t → getTrigger t (trigger_id r) = Some r.
Proof.
  intros Hnd Hr. destruct (getTrigger t (trigger_id r)) as [r'|] eqn:Hg.
  - apply getTrigger_Some in Hg as [Hr' Hid]. f_equal. by apply (getTrigger_unique t).
  - apply getTrigger_None in Hg. destruct Hg. by apply list_elem_of_fmap_2.
Qed.
Lemma getTrigger_snoc t r : getTrigger t (trigger_id r) = None → getTrigger (t ++ [r]) (trigger_id r) = Some r.
Proof.
  unfold getTrigger. induction t as [|x t IH]; simpl; [by rewrite str_eqb_refl|]. destruct (str_eqb (trigger_id x) (trigger_id r)); [done|exact IH].
Qed.
Lemma existsb_getTrigger t r rev : getTrigger t (trigger_id r) = Some r → contentRev r = rev →
  existsb (λ x, str_eqb (trigger_id x) (trigger_id r) && Z.eqb (contentRev x) rev) t = true.
Proof.
  intros [Hr _]%getTrigger_Some Hrev. apply existsb_exists. exists r. split; [by apply list_elem_of_In|]. by rewrite str_eqb_refl, Hrev, Z.eqb_refl.
Qed.
(** The updates of rows keep the ids. *)
Lemma update_ids (f : TriggerRecord → TriggerRecord) (t : triggers_table) : (∀ r, trigger_id (f r) = trigger_id r) → trigger_id <$> (f <$> t) = trigger_id <$> t.
Proof. intros Hf. rewrite <- list_fmap_compose. apply list_fmap_ext. intros i r _. apply Hf. Qed.
Lemma replaceContent_ids t id rev content now : trigger_id <$> (replaceContent t id rev content now).1 = trigger_id <$> t.
Proof. apply update_ids. intros r. by destruct (_ && _). Qed.
Lemma arm_ids t id rev d now : trigger_id <$> (arm t id rev d now).1 = trigger_id <$> t.
Proof. apply update_ids. intros r. by destruct (_ && _). Qed.
Lemma disarm_ids t id : trigger_id <$> disarm t id = trigger_id <$> t.
Proof. apply update_ids. intros r. by destruct (str_eqb _ _). Qed.

(** ** Programs *)
Section Facts.
Context `{JsNumbers} `{TriggerServiceDeps}.
Variable number_of : Z → number.
Variable toLowerCase : str → str.
Variable sha256 : str → str.
Local Abbreviation create := (create number_of toLowerCase).
Local Abbreviation edit := (edit number_of toLowerCase).
Local Abbreviation arm_trigger := (arm_trigger number_of sha256).
Local Abbreviation assertDocumentIsSound := (assertDocumentIsSound number_of toLowerCase).
Local Abbreviation digest_of := (digest_of number_of sha256).

(** The table, the fires, the proofs and what was announced are as they were. *)
Definition untouched (s s' : service) : Prop :=
  repository s' = repository s ∧ ledger_rows s' = ledger_rows s ∧ live_proofs s' = live_proofs s ∧ notices s' = notices s.
#[export] Instance untouched_preorder : PreOrder untouched.
Proof. split; [done|]. unfold untouched. intros s1 s2 s3 (?&?&?&?) (?&?&?&?). split_and!; congruence. Qed.
Lemma bind_inv {A B} (m : Op A) (k : A → Op B) s s' r :
  (m ≫= k) s = (s', r) → (∃ e, m s = (s', inl e) ∧ r = inl e) ∨ ∃ s1 a, m s = (s1, inr a) ∧ k a s1 = (s', r).
Proof. unfold mbind, Op_bind. destruct (m s) as [s1 [e|a]] eqn:Hm; [intros [= <- <-]; left; eauto|right; eauto]. Qed.
Ltac step_in H := apply bind_inv in H as [(? & H & ->)|(? & ? & ? & H)].

Lemma parseInputs_untouched inputs s s' r : parseInputs inputs s = (s', r) → untouched s s'.
Proof.
  revert s s' r. induction inputs as [|input rest IH]; intros s s' r Hp; cbn [parseInputs] in Hp; [by injection Hp as <- <-|].
  assert (Hid : ∀ s s' r, (match get input (js "id") with Some (JStr id) => mret id | _ => newId end) s = (s', r) → untouched s s').
  { clear. intros s s' r Hm. destruct (get input (js "id")) as [[]|]; injection Hm as <- <-; done. }
  apply bind_inv in Hp as [(e & Hp & ->)|(s1 & id & Hm & Hp)]; [by eapply Hid|]. apply Hid in Hm. transitivity s1; [done|].
  apply bind_inv in Hp as [(e & Hp & ->)|(s2 & c & Hc & Hp)]; [by injection Hp as <- _|]. injection Hc as <- _.
  apply bind_inv in Hp as [(e & Hp & ->)|(s2 & l & Hl & Hp)]; [by eapply IH|]. injection Hp as <- _. by eapply IH.
Qed.
Lemma conditionsWithIds_untouched inputs s s' r : conditionsWithIds inputs s = (s', r) → untouched s s'.
Proof.
  unfold conditionsWithIds. intros Hc. apply bind_inv in Hc as [(e & Hc & ->)|(s1 & [] & Hcap & Hc)]; [by injection Hc as <- _|].
  injection Hcap as <- _. apply bind_inv in Hc as [(e & Hc & ->)|(s1 & l & Hl & Hc)]; [by eapply parseInputs_untouched|].
  injection Hc as <- _. by eapply parseInputs_untouched.
Qed.
Definition first_join_is_and (l : list TriggerCondition) : Prop := ∀ c, head l = Some c → condition_join c = JoinAnd.
Lemma forced_first_join l : first_join_is_and (withFirstJoinForced l).
Proof. destruct l as [|c l]; intros c' [= <-]. done. Qed.
Lemma conditionsWithIds_forced inputs s s' l : conditionsWithIds inputs s = (s', inr l) → first_join_is_and l.
Proof.
  unfold conditionsWithIds. intros Hc. apply bind_inv in Hc as [(e & _ & [=])|(s1 & [] & _ & Hc)].
  apply bind_inv in Hc as [(e & _ & [=])|(s2 & l' & _ & Hc)]. injection Hc as _ <-. apply forced_first_join.
Qed.

(** ** What the checks of a document accept *)
Definition known_operator (c : TriggerCondition) : Prop := is_Some (get CONDITION_OPERATORS (op c)).
(** What a condition compares to: a text, a number, a boolean or nothing. *)
Definition scalar_rhs (c : TriggerCondition) : Prop := ∀ r, rhs c = Some r → allowed_rhs r = true.
Lemma scalar_verdict c : scalar_rhs c → known_operator c → ∀ event, ∃ b, verdictOfCondition toLowerCase (kernelConditionOf number_of c) event = Returns b.
Proof.
  intros Hs [o Ho] event. unfold verdictOfCondition. cbn [operator kernelConditionOf]. rewrite Ho. cbn [condition_value condition_path caseInsensitive kernelConditionOf].
  set (expected := match rhs c with Some r => value_of_json number_of r | None => VUndefined end).
  assert (Hexp : ∀ ci, isJsonStructure (foldedCase toLowerCase expected ci) = false).
  { intros ci. unfold expected. destruct (rhs c) as [r|] eqn:Hr; [|done]. specialize (Hs r Hr). destruct r; try done. by destruct ci. }
  assert (Heq : ∀ actual ci, ∃ b, areEqual toLowerCase (mkComparison actual expected ci) = Returns b).
  { intros a ci. unfold areEqual. cbn [actual Conditions.expected comparison_caseInsensitive]. rewrite Hexp, andb_false_r. eauto. }
  assert (Hholds : ∀ actual ci, ∃ b, holds toLowerCase (mkComparison actual expected ci) = Returns b).
  { intros a ci. unfold holds. cbn [actual Conditions.expected comparison_caseInsensitive].
    destruct a as [| | | |t|elements| | |]; eauto; [destruct expected; eauto|].
    induction elements as [|[e|] elements IH]; cbn [some_element]; eauto. destruct (Heq e ci) as [b ->]. cbn [attempt_bind]. destruct b; eauto. }
  clearbody expected. unfold OPERATOR_VERDICTS. destruct o; eauto.
  all: try (destruct (Heq (valueAtDottedPath event (lhs c)) (condition_caseInsensitive c)) as [b ->]; cbn; eauto; fail).
  all: try (destruct (Hholds (valueAtDottedPath event (lhs c)) (condition_caseInsensitive c)) as [b ->]; cbn; eauto; fail).
  all: unfold onStrings, ordering; cbn [actual Conditions.expected]; destruct (valueAtDottedPath event (lhs c)), expected; eauto.
Qed.
Lemma groups_verdicts l event : (∀ c, c ∈ l → ∃ b, verdictOfCondition toLowerCase c event = Returns b) → ∃ b, evaluateConditions toLowerCase l event = Returns b ∨ MAX_CONDITIONS < length l.
Proof.
  intros Hl. unfold evaluateConditions. case_bool_decide; [exists false; by right|]. 
  assert (Hg : ∀ position groups, ∃ gs, groups_from toLowerCase position groups l event = Returns gs).
  { clear -Hl. induction l as [|c l IH]; intros position groups; cbn [groups_from]; [by eexists|].
    destruct (Hl c) as [b ->]; [by left|]. cbn [attempt_bind]. apply IH. intros c' Hc'. apply Hl. by right. }
  destruct (Hg 0 [[]]) as [gs ->]. cbn [attempt_bind]. eauto.
Qed.
Lemma groups_known l event gs position groups : groups_from toLowerCase position groups l event = Returns gs → Forall (λ c, is_Some (get CONDITION_OPERATORS (operator c))) l.
Proof.
  revert position groups. induction l as [|c l IH]; intros position groups; cbn [groups_from]; [constructor|].
  unfold verdictOfCondition. destruct (get CONDITION_OPERATORS (operator c)) as [o|] eqn:Ho; [|done].
  destruct (OPERATOR_VERDICTS toLowerCase o _); [|done]. cbn [attempt_bind]. intros Hg. constructor; [by rewrite Ho|by eapply IH].
Qed.
Record sound_document (w : json) (l : list TriggerCondition) : Prop := mkSoundDocument
  { sound_cap : length l ≤ MAX_TRIGGER_CONDITIONS;
    sound_operators : Forall known_operator l;
    sound_paths : l ≠ [] → ∃ source, sourceOf w = Some source ∧ Forall (λ c, ∃ prefix, prefix ∈ EVENT_PREFIXES_BY_SOURCE source ∧ startsWith (lhs c) prefix = true) l }.
Lemma assertDocumentIsSound_sound w l : assertDocumentIsSound w l = inr () → sound_document w l.
Proof.
  unfold TriggerService.assertDocumentIsSound, assertWithinTheCap. case_bool_decide as Hcap; [done|].
  unfold assertEvaluableByTheKernel. destruct (evaluateConditions _ _ _) as [b|] eqn:He; [|done]. intros Hpath. split; [lia| |].
  - unfold evaluateConditions in He. case_bool_decide; [done|]. destruct (groups_from _ _ _ _ _) as [gs|] eqn:Hg; [|done]. apply groups_known in Hg.
    unfold kernelConditionsOf in Hg. by rewrite Forall_fmap in Hg.
  - intros Hl. unfold assertEveryPathReadsTheEventOfTheSource in Hpath. destruct l as [|c l]; [done|]. destruct (sourceOf w) as [source|]; [|done].
    exists source. split; [done|]. destruct (existsb _ (c :: l)) eqn:Hex; [done|]. apply list.Forall_forall. intros x Hx.
    destruct (existsb (startsWith (lhs x)) (EVENT_PREFIXES_BY_SOURCE source)) eqn:Hp.
    + apply existsb_exists in Hp as (p & Hp & Hstart). exists p. split; [by apply list_elem_of_In|done].
    + apply not_true_iff_false in Hex. destruct Hex. apply existsb_exists. exists x. split; [by apply list_elem_of_In|]. unfold readsAnotherEvent. by rewrite Hp.
Qed.
(** What the service accepts never throws when the engine evaluates it: the check against an empty event is
    enough for every event, since a condition compares to a text, a number, a boolean or nothing. *)
Theorem accepted_conditions_never_throw w l event :
  assertDocumentIsSound w l = inr () → Forall scalar_rhs l → ∃ b, evaluateConditions toLowerCase (kernelConditionsOf number_of l) event = Returns b.
Proof.
  intros [Hcap Hops _]%assertDocumentIsSound_sound Hscalar. destruct (groups_verdicts (kernelConditionsOf number_of l) event) as (b & [Hb|Hlen]); [|by exists b|].
  - intros k (c & -> & Hc)%list_elem_of_fmap. rewrite list.Forall_forall in Hops, Hscalar. apply scalar_verdict; auto.
  - unfold kernelConditionsOf in Hlen. rewrite length_fmap in Hlen. unfold MAX_CONDITIONS, MAX_TRIGGER_CONDITIONS in *. lia.
Qed.

(** ** What each operation does *)
Definition sound_title (title : str) : Prop := title ≠ [] ∧ length title ≤ MAX_TITLE_CHARS ∧ NUL ∉ title.
Lemma titleOf_sound requested title : titleOf requested = inr title → sound_title title.
Proof.
  unfold titleOf. set (trimmed := match requested with Some t => _ | None => _ end).
  assert (Hnul : NUL ∉ trimmed).
  { unfold trimmed. destruct requested as [t|]; [|apply not_elem_of_nil]. intros Hin.
    apply trim_elem, list_elem_of_filter in Hin as [Hin _]. by destruct Hin. }
  clearbody trimmed. destruct (bool_decide_reflect (trimmed = [])) as [->|Hne]; case_bool_decide as Hlen; intros [= <-]; (split; [done|]; split; [lia|]).
  - apply (bool_decide_unpack _). vm_compute. exact I.
  - done.
Qed.
(** The calls that may throw. *)
Lemma may_throw_inv s s' r : may_throw s = (s', r) → untouched s s' ∧ (r = inr () ∨ r = inl Uncaught).
Proof. unfold may_throw. intros [= <- <-]. split; [done|]. destruct (service_throws _); auto. Qed.
Lemma after_throw {B} (k : Op B) s s' r : (may_throw ≫= λ _, k) s = (s', r) → untouched s s' ∧ r = inl Uncaught ∨ ∃ s1, untouched s s1 ∧ k s1 = (s', r).
Proof. intros [(e & [Hu [[=]|[= <-]]]%may_throw_inv & ->)|(s1 & [] & [Hu _]%may_throw_inv & Hk)]%bind_inv; [by left|right; eauto]. Qed.
Lemma getById_inv id s s' r : getById id s = (s', r) →
  untouched s s' ∧ match r with inl e => e = Uncaught ∨ e = TriggerNotFound ∧ getTrigger (repository s) id = None | inr trigger => getTrigger (repository s) id = Some trigger end.
Proof.
  unfold getById. intros [[Hu ->]|(s1 & Hu & Hk)]%after_throw; [by split; [|left]|]. unfold atomic in Hk. injection Hk as <- <-. split; [done|]. destruct Hu as [-> _]. destruct (getTrigger (repository s) id); [done|by right].
Qed.
(** After a write the trigger is there: reading it answers it, or throws. *)
Definition answers {A} (a : A) (r : ServiceError + A) : Prop := r = inr a ∨ r = inl Uncaught.
Lemma getById_there id s s' r trigger : getTrigger (repository s) id = Some trigger → getById id s = (s', r) → untouched s s' ∧ answers trigger r.
Proof. intros Hg [Hu Hr]%getById_inv. split; [done|]. destruct r as [e|x]; [destruct Hr as [->|[_ ?]]; [by right|congruence]|left; congruence]. Qed.
Lemma write_inv {A} (change : triggers_table → triggers_table * A) s s' r : write change s = (s', r) →
  untouched s s' ∧ r = inl Uncaught ∨ r = inr (change (repository s)).2 ∧ repository s' = (change (repository s)).1 ∧ ledger_rows s' = ledger_rows s ∧ live_proofs s' = live_proofs s ∧ notices s' = notices s.
Proof.
  unfold write. intros [[Hu ->]|(s1 & (E1 & E2 & E3 & E4) & Hk)]%after_throw; [by left|right]. unfold atomic in Hk. rewrite E1 in Hk. destruct (change (repository s)) as [t a]. injection Hk as <- <-. cbn. by rewrite E2, E3, E4.
Qed.
Lemma notify_inv n s s' r : notify n s = (s', r) →
  answers () r ∧ repository s' = repository s ∧ ledger_rows s' = ledger_rows s ∧ live_proofs s' = live_proofs s ∧ notices s' = notices s ++ [n].
Proof. unfold notify. intros [(-> & -> & -> & ->) Hr]%may_throw_inv. by destruct Hr as [->| ->]; [split; [left|]|split; [right|]]. Qed.
(** An operation that throws before it writes. *)
Definition refused {A} (s s' : service) (r : ServiceError + A) : Prop := untouched s s' ∧ ∃ e, r = inl e.
Lemma refused_after {A} s s1 s' (r : ServiceError + A) : untouched s s1 → refused s1 s' r → refused s s' r.
Proof. intros H1 [H2 ?]. split; [by transitivity s1|done]. Qed.


Lemma create_spec input s s' r : create input s = (s', r) → refused s s' r ∨ ∃ trigger l,
  answers trigger r ∧ repository s' = repository s ++ [trigger] ∧ ledger_rows s' = ledger_rows s ∧ live_proofs s' = live_proofs s ∧ notices s' = notices s ∧
  trigger_id trigger ∉ (trigger_id <$> repository s) ∧ projectExists (trigger_projectId trigger) = true ∧ sound_title (trigger_title trigger) ∧
  contentRev trigger = 1%Z ∧ armedAt trigger = None ∧ approvedRev trigger = None ∧ approvedGraphDigest trigger = None ∧
  conditions (trigger_graph trigger) = json_of_conditions l ∧ first_join_is_and l ∧ assertDocumentIsSound (when_ (trigger_graph trigger)) l = inr ().
Proof.
  unfold TriggerService.create. intros [[Hu ->]|(s0 & Hu0 & Hc)]%after_throw; [left; split; eauto|]. destruct (projectExists (input_projectId input)) eqn:Hproject; cbn [negb] in Hc; [|injection Hc as <- <-; left; split; eauto].
  apply bind_inv in Hc as [(e & Hc & ->)|(s1 & l & Hl & Hc)]; [left; split; [transitivity s0; [done|by eapply conditionsWithIds_untouched]|eauto]|].
  pose proof (conditionsWithIds_untouched _ _ _ _ Hl) as Hs1. pose proof (conditionsWithIds_forced _ _ _ _ Hl) as Hjoin. assert (Hu1 : untouched s s1) by (by transitivity s0). clear Hl Hs1 Hu0.
  assert (Hstop : ∀ e, refused s s1 (inl e : ServiceError + TriggerRecord)) by (intros e; split; eauto).
  apply bind_inv in Hc as [(e & Hc & ->)|(s2 & [] & Hsound & Hc)]; [injection Hc as <- _; by left|]. injection Hsound as <- Hsound.
  apply bind_inv in Hc as [(e & Hc & ->)|(s2 & id & Hid & Hc)]; [done|]. injection Hid as <- _.
  apply bind_inv in Hc as [(e & Hc & ->)|(s2 & title & Htitle & Hc)]; [injection Hc as <- _; left; apply Hstop|]. injection Htitle as <- Htitle.
  apply bind_inv in Hc as [(e & Hc & ->)|(s2 & pol & Hpol & Hc)]; [injection Hc as <- _; left; apply Hstop|]. injection Hpol as <- _.
  apply bind_inv in Hc as [(e & Hc & ->)|(s2 & now & Hnow & Hc)]; [done|]. injection Hnow as <- _. destruct Hu1 as (Hrepo & Hrows & Hproofs & Hnotices).
  apply bind_inv in Hc as [(e & Hc & ->)|(s2 & ins & Hw & Hc)]; [apply write_inv in Hc as [[(E1 & E2 & E3 & E4) _]|[[=] _]]; left; split; [split_and!; cbn in *; congruence|eauto]|].
  apply write_inv in Hw as [[_ [=]]|(Hins & Hw & E2 & E3 & E4)]. cbn [repository ledger_rows live_proofs notices] in *. rewrite Hrepo in Hins, Hw. unfold insertTrigger in Hins, Hw.
  destruct (getTrigger (repository s) id) as [taken|] eqn:Hget; cbn [fst snd] in Hins, Hw; injection Hins as ->; [injection Hc as <- <-; left; split; [split_and!; congruence|eauto]|].
  match type of Hw with _ = repository s ++ [?row] => set (trigger := row) in Hw end. right. apply (getById_there id s2 s' r trigger) in Hc as [(E5 & E6 & E7 & E8) Hr]; [|rewrite Hw; change id with (trigger_id trigger); by apply getTrigger_snoc].
  exists trigger, l. rewrite E5, E6, E7, E8, Hw. split_and!; try done; try congruence; [by apply getTrigger_None|by eapply titleOf_sound].
Qed.
Lemma getTrigger_update (f : TriggerRecord → TriggerRecord) (t : triggers_table) id r :
  (∀ r, trigger_id (f r) = trigger_id r) → getTrigger t id = Some r → getTrigger (f <$> t) id = Some (f r).
Proof.
  intros Hf. unfold getTrigger. induction t as [|x t IH]; csimpl; [done|]. rewrite Hf. destruct (str_eqb (trigger_id x) id); [by intros [= ->]|exact IH].
Qed.
Definition replaced (current : TriggerRecord) (content : TriggerContent) (now : Z) : TriggerRecord :=
  mkTrigger (trigger_id current) (trigger_projectId current) (default (trigger_title current) (content_title content))
    (edited_graph content (trigger_graph current)) (contentRev current + 1) None None None (trigger_createdAt current) now.
Lemma edit_spec id change expectedRev s s' r : edit id change expectedRev s = (s', r) → refused s s' r ∨ ∃ current content l now,
  answers (replaced current content now) r ∧ getTrigger (repository s) id = Some current ∧ (∀ rev, expectedRev = Some rev → rev = contentRev current) ∧
  repository s' = (replaceContent (repository s) id (contentRev current) content now).1 ∧
  ledger_rows s' = ledger_rows s ∧ live_proofs s' = live_proofs s ∧ notices s' = notices s ++ [OnChanged id] ∧
  (content_conditions content = Some (json_of_conditions l) ∧ first_join_is_and l ∨
   content_conditions content = None ∧ conditions_of_json (conditions (trigger_graph current)) = Some l) ∧
  assertDocumentIsSound (when_ (trigger_graph (replaced current content now))) l = inr () ∧ (∀ title, content_title content = Some title → sound_title title).
Proof.
  unfold TriggerService.edit. intros Hc. apply bind_inv in Hc as [(e & Hc & ->)|(s1 & current & Hget & Hc)]; [apply getById_inv in Hc as [? _]; left; split; eauto|].
  apply getById_inv in Hget as [Hu1 Hget]. assert (Hstop : ∀ e, refused s s1 (inl e : ServiceError + TriggerRecord)) by (intros e; split; eauto).
  destruct (match expectedRev with Some _ => _ | None => _ end) eqn:Hrev; [injection Hc as <- <-; by left|].
  apply bind_inv in Hc as [(e & Hc & ->)|(s2 & ed & Hed & Hc)]; [injection Hc as <- _; by left|]. injection Hed as <- _.
  apply bind_inv in Hc as [(e & Hc & ->)|(s2 & l & Hl & Hc)]; [injection Hc as <- _; by left|]. injection Hl as <- Hl.
  apply bind_inv in Hc as [(e & Hc & ->)|(s2 & [] & Hsound & Hc)]; [injection Hc as <- _; by left|]. injection Hsound as <- Hsound.
  apply bind_inv in Hc as [(e & Hc & ->)|(s2 & title & Htitle & Hc)]; [injection Hc as <- _; by left|]. injection Htitle as <- Htitle.
  apply bind_inv in Hc as [(e & Hc & ->)|(s2 & now & Hnow & Hc)]; [done|]. injection Hnow as <- _. destruct Hu1 as (Hrepo & Hrows & Hproofs & Hnotices).
  pose proof (getTrigger_Some _ _ _ Hget) as [_ <-]. set (content := mkContent title _ _ _ _ _) in Hc.
  apply bind_inv in Hc as [(e & Hc & ->)|(s2 & was & Hw & Hc)]; [apply write_inv in Hc as [[(E1 & E2 & E3 & E4) _]|[[=] _]]; left; split; [split_and!; cbn in *; congruence|eauto]|].
  apply write_inv in Hw as [[_ [=]]|(Hwas & Hw & E2 & E3 & E4)]. cbn [repository ledger_rows live_proofs notices] in *. rewrite Hrepo in Hwas, Hw.
  unfold replaceContent in Hwas. cbn [snd] in Hwas. rewrite existsb_getTrigger in Hwas by done. injection Hwas as ->.
  assert (Hthere : getTrigger (repository s2) (trigger_id current) = Some (replaced current content now)).
  { rewrite Hw. unfold replaceContent. cbn [fst]. erewrite getTrigger_update; [|intros r0; by destruct (_ && _)|done]. by rewrite str_eqb_refl, Z.eqb_refl. }
  assert (Hdone : answers (replaced current content now) r ∧ repository s' = repository s2 ∧ ledger_rows s' = ledger_rows s2 ∧ live_proofs s' = live_proofs s2 ∧ notices s' = notices s2 ++ [OnChanged (trigger_id current)]).
  { apply bind_inv in Hc as [(e & Hc & ->)|(s3 & [] & Hn & Hc)]; [apply notify_inv in Hc as ([[=]|[= ->]] & ?); split; [by right|done]|]. apply notify_inv in Hn as (_ & E5 & E6 & E7 & E8).
    rewrite <- E5 in Hthere. apply (getById_there _ _ _ _ _ Hthere) in Hc as [(? & ? & ? & ?) ?]. split_and!; try done; congruence. }
  destruct Hdone as (Hans & F1 & F2 & F3 & F4). right. exists current, content, l, now. rewrite F1, F2, F3, F4. split_and!; try done; try congruence.
  - intros rev ->. by apply negb_false_iff, Z.eqb_eq in Hrev.
  - destruct (edited_conditions ed) as [l'|]; simpl in Hl |- *.
    + left. injection Hl as <-. split; [done|apply forced_first_join].
    + right. split; [done|]. destruct (conditions_of_json _); [by injection Hl as <-|done].
  - intros title' E. change (title = Some title') in E. subst title. destruct (edited_title ed) as [t|]; [|done]. destruct (titleOf (Some t)) eqn:Ht; [done|]. injection Htitle as <-. by eapply titleOf_sound.
Qed.
Definition armed_as (current : TriggerRecord) (digest : str) (now : Z) : TriggerRecord :=
  mkTrigger (trigger_id current) (trigger_projectId current) (trigger_title current) (trigger_graph current) (contentRev current)
    (Some now) (Some (contentRev current)) (Some digest) (trigger_createdAt current) (trigger_updatedAt current).
(** A refusal to arm may have spent the proof, nothing else. *)
Definition proof_apart (s s' : service) : Prop := repository s' = repository s ∧ ledger_rows s' = ledger_rows s ∧ notices s' = notices s.
Lemma arm_spec id rev proof proofAt s s' r : arm_trigger id rev proof proofAt s = (s', r) →
  proof_apart s s' ∧ (live_proofs s' = live_proofs s ∨ live_proofs s' = (consume_proof (live_proofs s) proofAt proof id).1) ∧ (∃ e, r = inl e) ∨
  ∃ current digest now,
    answers (armed_as current digest now) r ∧ getTrigger (repository s) id = Some current ∧ rev = contentRev current ∧ consume_proof (live_proofs s) proofAt proof id = (live_proofs s', true) ∧
    digest_of (trigger_graph current) = Returns digest ∧ repository s' = (arm (repository s) id rev digest now).1 ∧ ledger_rows s' = ledger_rows s ∧
    (notices s' = notices s ++ [OnArmed (armed_as current digest now)] ∨ r = inl Uncaught ∧ notices s' = notices s).
Proof.
  unfold TriggerService.arm_trigger. intros Hc. apply bind_inv in Hc as [(e & Hc & ->)|(s1 & current & Hget & Hc)]; [apply getById_inv in Hc as [(?&?&?&?) _]; left; split_and!; eauto; done|].
  apply getById_inv in Hget as [(Hrepo & Hrows & Hproofs & Hnotices) Hget]. destruct (Z.eqb_spec rev (contentRev current)) as [->|Hrev]; cbn [negb] in Hc; [|injection Hc as <- <-; left; split_and!; eauto; done].
  pose proof (getTrigger_Some _ _ _ Hget) as [_ <-]. unfold mbind at 1, Op_bind at 1, consume at 1 in Hc. rewrite Hproofs in Hc.
  destruct (consume_proof (live_proofs s) proofAt proof (trigger_id current)) as [ps verdict] eqn:Hproof.
  match type of Hc with _ ?s0 = _ => set (s2 := s0) in Hc end. assert (Hs2 : proof_apart s s2 ∧ live_proofs s2 = ps) by (unfold s2; by split; [split_and!|]).
  assert (Hstop : ∀ e, proof_apart s s2 ∧ (live_proofs s2 = live_proofs s ∨ live_proofs s2 = ps) ∧ ∃ e', (inl e : ServiceError + TriggerRecord) = inl e') by (intros e; split_and!; [apply Hs2|right; apply Hs2|eauto]). cbn [fst].
  destruct verdict; cbn [negb] in Hc; [|injection Hc as <- <-; by left].
  apply bind_inv in Hc as [(e & Hc & ->)|(s3 & digest & Hd & Hc)]; [injection Hc as <- _; by left|]. injection Hd as <- Hd.
  apply bind_inv in Hc as [(e & Hc & ->)|(s3 & now & Hnow & Hc)]; [done|]. injection Hnow as <- _.
  apply bind_inv in Hc as [(e & Hc & ->)|(s3 & was & Hw & Hc)]; [apply write_inv in Hc as [[(E1 & E2 & E3 & E4) _]|[[=] _]]; left; cbn in *; split_and!; [split_and!; congruence|right; congruence|eauto]|].
  apply write_inv in Hw as [[_ [=]]|(Hwas & Hw & E2 & E3 & E4)]. cbn [repository ledger_rows live_proofs notices] in *. rewrite Hrepo in Hwas, Hw. unfold arm in Hwas. cbn [snd] in Hwas. rewrite existsb_getTrigger in Hwas by done. injection Hwas as ->.
  assert (Hthere : getTrigger (repository s3) (trigger_id current) = Some (armed_as current digest now)).
  { rewrite Hw. unfold arm. cbn [fst]. erewrite getTrigger_update; [|intros r0; by destruct (_ && _)|done]. by rewrite str_eqb_refl, Z.eqb_refl. }
  assert (Hdig : digest_of (trigger_graph current) = Returns digest) by (destruct (TriggerService.digest_of _ _ _); [by injection Hd as <-|done]). right. exists current, digest, now.
  apply bind_inv in Hc as [(e & Hc & ->)|(s4 & armed & Ha & Hc)].
  { apply (getById_there _ _ _ _ _ Hthere) in Hc as [(? & ? & ? & ?) [[=]|[= ->]]]. split_and!; try done; [by right|congruence..|right; split; [done|congruence]]. }
  apply (getById_there _ _ _ _ _ Hthere) in Ha as [(E5 & E6 & E7 & E8) [[= ->]|[=]]]. apply bind_inv in Hc as [(e & Hc & ->)|(s5 & [] & Hn & Hc)].
  - apply notify_inv in Hc as ([[=]|[= ->]] & F1 & F2 & F3 & F4). split_and!; try done; [by right|congruence..|left; congruence].
  - apply notify_inv in Hn as (_ & F1 & F2 & F3 & F4). injection Hc as <- <-. split_and!; try done; [by left|congruence..|left; congruence].
Qed.
Lemma disarm_spec id s s' r : disarm_trigger id s = (s', r) → refused s s' r ∨
  is_Some (getTrigger (repository s) id) ∧ (r = inl Uncaught ∨ ∃ trigger, r = inr trigger) ∧ repository s' = disarm (repository s) id ∧ ledger_rows s' = ledger_rows s ∧
  live_proofs s' = live_proofs s ∧ notices s' = notices s ++ [OnChanged id].
Proof.
  unfold disarm_trigger. intros Hc. apply bind_inv in Hc as [(e & Hc & ->)|(s1 & current & Hget & Hc)]; [apply getById_inv in Hc as [? _]; left; split; eauto|].
  apply getById_inv in Hget as [(Hrepo & Hrows & Hproofs & Hnotices) Hget].
  apply bind_inv in Hc as [(e & Hc & ->)|(s2 & [] & Hw & Hc)]; [apply write_inv in Hc as [[(E1 & E2 & E3 & E4) _]|[[=] _]]; left; split; [split_and!; congruence|eauto]|].
  apply write_inv in Hw as [[_ [=]]|(_ & Hw & E2 & E3 & E4)]. cbn [fst] in Hw. rewrite Hrepo in Hw. right.
  apply bind_inv in Hc as [(e & Hc & ->)|(s3 & [] & Hn & Hc)]; [apply notify_inv in Hc as ([[=]|[= ->]] & F1 & F2 & F3 & F4); split_and!; [by rewrite Hget|by left|congruence..]|].
  apply notify_inv in Hn as (_ & F1 & F2 & F3 & F4). assert (Hthere : is_Some (getTrigger (repository s3) id)).
  { rewrite F1, Hw. unfold disarm. erewrite getTrigger_update; [done|intros r0; by destruct (str_eqb _ _)|done]. }
  destruct Hthere as [found Hfound]. destruct (getById_there _ _ _ _ _ Hfound Hc) as [(G1 & G2 & G3 & G4) Hans]. split_and!; [by rewrite Hget|destruct Hans as [->| ->]; eauto|congruence..].
Qed.
Lemma delete_spec id s s' r : delete id s = (s', r) → refused s s' r ∨
  is_Some (getTrigger (repository s) id) ∧ answers () r ∧ repository s' = filter (λ r, trigger_id r ≠ id) (repository s) ∧
  ledger_rows s' = filter (λ f, fire_triggerId f ≠ id) (ledger_rows s) ∧ live_proofs s' = live_proofs s ∧ notices s' = notices s ++ [OnChanged id].
Proof.
  unfold delete. intros [[Hu ->]|(s1 & (E1 & E2 & E3 & E4) & Hc)]%after_throw; [left; split; eauto|]. unfold atomic, deleteTrigger in Hc. rewrite E1 in Hc. destruct (existsb _ (repository s)) eqn:Hex.
  - apply notify_inv in Hc as (Hr & F1 & F2 & F3 & F4). cbn [repository ledger_rows live_proofs notices] in *. right. split_and!; try done; try congruence. apply existsb_exists in Hex as (x & Hx & Hid). unfold getTrigger.
    destruct (find _ (repository s)) eqn:Hf; [done|]. apply (find_none _ _ Hf) in Hx. congruence.
  - injection Hc as <- <-. left. split; [done|eauto].
Qed.

(** ** Requests *)
Inductive request :=
  | Create (input : CreateInput)
  | Edit (id : str) (change : TriggerRecord → ServiceError + Edited) (expectedRev : option Z)
  | Delete (id : str)
  | Arm (id : str) (rev : Z) (proof : option str) (proofAt : Z)
  | Disarm (id : str).
Definition forget_result {A} (m : Op A) : Op unit := _ ← m; mret ().
Definition handle (q : request) : Op unit :=
  match q with
  | Create input => forget_result (create input)
  | Edit id change expectedRev => forget_result (edit id change expectedRev)
  | Delete id => delete id
  | Arm id rev proof proofAt => forget_result (arm_trigger id rev proof proofAt)
  | Disarm id => forget_result (disarm_trigger id)
  end.
Lemma forget_inv {A} (m : Op A) s : forget_result m s = ((m s).1, match (m s).2 with inr _ => inr () | inl e => inl e end).
Proof. unfold forget_result, mbind, Op_bind. by destruct (m s) as [s' [e|a]]. Qed.

(** What a request writes when it passed its checks: one trigger more, the trigger with its content replaced and its arming cleared, the rows without the trigger and its fires, the trigger armed at its revision with the digest of its graph on an accepted proof,
    or the trigger disarmed. *)
Definition writes (q : request) (s s' : service) : Prop :=
  match q with
  | Create input => ∃ trigger, repository s' = repository s ++ [trigger] ∧ trigger_id trigger ∉ (trigger_id <$> repository s) ∧ armedAt trigger = None ∧ ledger_rows s' = ledger_rows s ∧ live_proofs s' = live_proofs s
  | Edit id _ expectedRev => ∃ current content now, getTrigger (repository s) id = Some current ∧ (∀ rev, expectedRev = Some rev → rev = contentRev current)
      ∧ repository s' = (λ r, if str_eqb (trigger_id r) id && Z.eqb (contentRev r) (contentRev current) then replaced r content now else r) <$> repository s ∧ ledger_rows s' = ledger_rows s ∧ live_proofs s' = live_proofs s
  | Delete id => is_Some (getTrigger (repository s) id) ∧ repository s' = filter (λ r, trigger_id r ≠ id) (repository s) ∧ ledger_rows s' = filter (λ f, fire_triggerId f ≠ id) (ledger_rows s) ∧ live_proofs s' = live_proofs s
  | Arm id rev proof proofAt => ∃ current digest now, getTrigger (repository s) id = Some current ∧ rev = contentRev current ∧ consume_proof (live_proofs s) proofAt proof id = (live_proofs s', true)
      ∧ digest_of (trigger_graph current) = Returns digest ∧ repository s' = (λ r, if str_eqb (trigger_id r) id && Z.eqb (contentRev r) rev then armed_as r digest now else r) <$> repository s ∧ ledger_rows s' = ledger_rows s
  | Disarm id => is_Some (getTrigger (repository s) id) ∧ repository s' = disarm (repository s) id ∧ ledger_rows s' = ledger_rows s ∧ live_proofs s' = live_proofs s
  end.
Lemma arm_rows t id rev digest now : (arm t id rev digest now).1 = (λ r, if str_eqb (trigger_id r) id && Z.eqb (contentRev r) rev then armed_as r digest now else r) <$> t.
Proof. unfold arm. cbn [fst]. apply list_fmap_ext. intros i r _. destruct (str_eqb (trigger_id r) id); [|done]. destruct (Z.eqb_spec (contentRev r) rev) as [<-|]; done. Qed.
Lemma handled q s s' r : handle q s = (s', r) →
  (proof_apart s s' ∧ (live_proofs s' = live_proofs s ∨ ∃ id rev proof proofAt, q = Arm id rev proof proofAt) ∧ ∃ e, r = inl e) ∨ (writes q s s' ∧ (r = inr () ∨ r = inl Uncaught)).
Proof.
  assert (Hquiet : ∀ A (x : ServiceError + A), refused s s' x → r = match x with inr _ => inr () | inl e => inl e end → proof_apart s s' ∧ (live_proofs s' = live_proofs s ∨ ∃ id rev proof proofAt, q = Arm id rev proof proofAt) ∧ ∃ e, r = inl e).
  { intros A x [(?&?&?&?) [e ->]] ->. split; [done|]. split; [by left|eauto]. }
  destruct q as [input|id change rev|id|id rev proof at_|id]; cbn [handle writes]; rewrite ?forget_inv.
  - destruct (create input s) as [s1 x] eqn:Hq. intros [= -> <-]. apply create_spec in Hq as [Hq|(trigger & l & Hans & ? & ? & ? & ? & ? & ? & ? & ? & ? & _)]; [left; by eapply Hquiet|right]. split; [eauto 10|]. destruct Hans as [->| ->]; auto.
  - destruct (edit id change rev s) as [s1 x] eqn:Hq. intros [= -> <-]. apply edit_spec in Hq as [Hq|(current & content & l & now & Hans & ? & ? & Hrepo & ? & ? & _)]; [left; by eapply Hquiet|right]. split; [exists current, content, now; split_and!; done|]. destruct Hans as [->| ->]; auto.
  - intros [Hq|(? & Hans & ? & ? & ? & _)]%delete_spec; [left; eapply (Hquiet _ _ Hq); by destruct r as [|[]]|right; done].
  - destruct (arm_trigger id rev proof at_ s) as [s1 x] eqn:Hq. intros [= -> <-]. apply arm_spec in Hq as [(? & ? & e & ->)|(current & digest & now & Hans & ? & ? & ? & ? & Hrepo & ? & _)]; [left; split_and!; eauto 8|right].
    split; [exists current, digest, now; rewrite <- arm_rows; split_and!; done|]. destruct Hans as [->| ->]; auto.
  - destruct (disarm_trigger id s) as [s1 x] eqn:Hq. intros [= -> <-]. apply disarm_spec in Hq as [Hq|(? & Hans & ? & ? & ? & _)]; [left; by eapply Hquiet|right]. split; [done|]. destruct Hans as [->|[? ->]]; auto.
Qed.

(** ** The stored triggers *)
Record sound_trigger (r : TriggerRecord) : Prop := mkSoundTrigger
  { trigger_titled : sound_title (trigger_title r);
    trigger_revised : (1 ≤ contentRev r)%Z;
    trigger_document : ∃ l, conditions_of_json (conditions (trigger_graph r)) = Some l ∧ first_join_is_and l ∧ sound_document (when_ (trigger_graph r)) l;
    trigger_approval : match armedAt r with
                       | None => approvedRev r = None ∧ approvedGraphDigest r = None
                       | Some _ => approvedRev r = Some (contentRev r) ∧ ∃ d, approvedGraphDigest r = Some d ∧ digest_of (trigger_graph r) = Returns d
                       end }.
Definition sound_table (t : triggers_table) : Prop := NoDup (trigger_id <$> t) ∧ Forall sound_trigger t.
Lemma update_sound (t t' : triggers_table) (f : TriggerRecord → TriggerRecord) :
  sound_table t → t' = f <$> t → (∀ r, trigger_id (f r) = trigger_id r) → (∀ r, r ∈ t → sound_trigger r → sound_trigger (f r)) → sound_table t'.
Proof.
  intros [Hnd Hall] -> Hid Hf. split; [by rewrite update_ids|]. apply list.Forall_forall. intros r (r0 & -> & Hr)%list_elem_of_fmap.
  apply Hf; [done|]. by eapply list.Forall_forall in Hall.
Qed.
Lemma disarm_sound t id : sound_table t → sound_table (disarm t id).
Proof.
  intros Hs. eapply update_sound; [exact Hs|reflexivity|intros r; simpl; by case_match|]. intros r _ Hr. simpl. case_match; [|done]. by destruct Hr; split.
Qed.
Lemma filter_sound (P : TriggerRecord → Prop) `{∀ r, Decision (P r)} t : sound_table t → sound_table (filter P t).
Proof.
  intros [Hnd Hall]. split.
  - clear Hall. induction t as [|r t IH]; [done|]. csimpl in Hnd. apply list.NoDup_cons in Hnd as [Hr Hnd]. rewrite filter_cons. case_decide; [|by apply IH].
    csimpl. apply list.NoDup_cons. split; [|by apply IH]. intros (r' & Heq & [_ Hr']%list_elem_of_filter)%list_elem_of_fmap.
    apply Hr, list_elem_of_fmap. by exists r'.
  - apply list.Forall_forall. intros r [_ Hr]%list_elem_of_filter. by eapply list.Forall_forall in Hall.
Qed.
Lemma create_sound input s : sound_table (repository s) → sound_table (repository (create input s).1).
Proof.
  intros [Hnd Hall]. destruct (create input s) as [s' r] eqn:Hq; cbn [fst]. apply create_spec in Hq as [[(-> & _) _]|Hq]; [done|].
  destruct Hq as (trigger & l & _ & -> & _ & _ & _ & Hnew & _ & Htitle & Hrev & Harmed & Happ & Hdig & Hcond & Hjoin & Hsound). split.
  - rewrite fmap_app. apply list.NoDup_app. split; [done|]. split; [|apply list.NoDup_singleton]. intros x Hx ->%list_elem_of_singleton. done.
  - apply list.Forall_app. split; [done|]. constructor; [|constructor]. split; [done|lia| |by rewrite Harmed].
    exists l. rewrite Hcond, conditions_roundtrip. split; [done|]. split; [done|]. by eapply assertDocumentIsSound_sound.
Qed.
Lemma edit_sound id change rev s : sound_table (repository s) → sound_table (repository (edit id change rev s).1).
Proof.
  intros Hs. destruct (edit id change rev s) as [s' r] eqn:Hq; cbn [fst]. apply edit_spec in Hq as [[(-> & _) _]|Hq]; [done|].
  destruct Hq as (current & content & l & now & _ & Hget & _ & Hrepo & _ & _ & _ & Hcond & Hsound & Htitle). apply assertDocumentIsSound_sound in Hsound.
  apply getTrigger_Some in Hget as [Hin Hid]. eapply update_sound; [exact Hs|exact Hrepo|intros r0; simpl; by case_match|]. intros r0 Hr Hsr. simpl.
  destruct (str_eqb (trigger_id r0) id) eqn:E; [|done]. destruct (Z.eqb (contentRev r0) (contentRev current)); [|done]. simpl.
  apply str_eqb_eq in E. assert (r0 = current) as -> by (apply (getTrigger_unique (repository s)); [apply Hs|done|done|congruence]).
  destruct Hsr as [Ht Hrev (l0 & Hl0 & Hj0 & Hd0) _]. split; [|simpl; lia| |done].
  - simpl. destruct (content_title content); [by apply Htitle|done].
  - exists l. cbn [trigger_graph edited_graph conditions when_]. destruct Hcond as [[-> Hj]|[-> Hl]]; cbn [from_option Datatypes.id].
    + rewrite conditions_roundtrip. done.
    + rewrite Hl. simplify_eq. done.
Qed.
Lemma arm_sound id rev proof at_ s : sound_table (repository s) → sound_table (repository (arm_trigger id rev proof at_ s).1).
Proof.
  intros Hs. destruct (arm_trigger id rev proof at_ s) as [s' r] eqn:Hq; cbn [fst]. apply arm_spec in Hq as [[(-> & _) _]|Hq]; [done|].
  destruct Hq as (current & d & now & _ & Hget & -> & _ & Hd & Hrepo & _ & _). apply getTrigger_Some in Hget as [Hin Hid].
  eapply update_sound; [exact Hs|exact Hrepo|intros r0; simpl; by case_match|]. intros r0 Hr Hsr. simpl.
  destruct (str_eqb (trigger_id r0) id) eqn:E; [|done]. destruct (Z.eqb (contentRev r0) (contentRev current)) eqn:Erev; [|done]. simpl.
  apply str_eqb_eq in E. assert (r0 = current) as -> by (apply (getTrigger_unique (repository s)); [apply Hs|done|done|congruence]).
  destruct Hsr as [Ht Hrev Hdoc _]. split; [done|done|done|]. simpl. split; [done|]. eauto.
Qed.
Lemma handle_sound q s : sound_table (repository s) → sound_table (repository (handle q s).1).
Proof.
  intros Hs. destruct q as [input|id change rev|id|id rev proof at_|id]; cbn [handle]; rewrite ?forget_inv; cbn [fst];
    [by apply create_sound|by apply edit_sound| |by apply arm_sound|].
  - destruct (delete id s) as [s' r] eqn:Hq; cbn [fst]. apply delete_spec in Hq as [[(-> & _) _]|(_ & _ & -> & _)]; [done|]. by apply filter_sound.
  - destruct (disarm_trigger id s) as [s' r] eqn:Hq; cbn [fst]. apply disarm_spec in Hq as [[(-> & _) _]|(_ & _ & -> & _)]; [done|]. by apply disarm_sound.
Qed.
(** The request armed this record: it is the trigger it names, at the revision it names, with the digest of its graph, and the proof was accepted; it answers the record, or a call that came after the write threw. *)
Definition arming (rev : Z) (proof : option str) (at_ : Z) (s : service) (r : TriggerRecord) : Prop :=
  ∃ current digest now, getTrigger (repository s) (trigger_id r) = Some current ∧ rev = contentRev current ∧ consume_proof (live_proofs s) at_ proof (trigger_id r) = (live_proofs (arm_trigger (trigger_id r) rev proof at_ s).1, true)
    ∧ digest_of (trigger_graph current) = Returns digest ∧ r = armed_as current digest now ∧ r ∈ repository (arm_trigger (trigger_id r) rev proof at_ s).1 ∧ answers r (arm_trigger (trigger_id r) rev proof at_ s).2.
(** A trigger found armed after a request was there before it, armed, or the request armed it. *)
Lemma armed_since q s r : sound_table (repository s) → r ∈ repository (handle q s).1 → armedAt r ≠ None →
  r ∈ repository s ∨ ∃ rev proof at_, q = Arm (trigger_id r) rev proof at_ ∧ arming rev proof at_ s r.
Proof.
  intros Hs. destruct q as [input|id change rev|id|id rev proof at_|id]; cbn [handle]; rewrite ?forget_inv; cbn [fst].
  - destruct (create input s) as [s' x] eqn:Hq; cbn [fst]; apply create_spec in Hq as [[(-> & _) _]|Hq]; [by left|].
    destruct Hq as (trigger & l & _ & -> & _ & _ & _ & _ & _ & _ & _ & Harmed & _). intros [Hr|Heq%list_elem_of_singleton]%elem_of_app Ha; [by left|]. by subst.
  - destruct (edit id change rev s) as [s' x] eqn:Hq; cbn [fst]; apply edit_spec in Hq as [[(-> & _) _]|Hq]; [by left|].
    destruct Hq as (current & content & l & now & _ & _ & _ & -> & _). intros (r0 & -> & Hr)%list_elem_of_fmap. case_match; [done|by left].
  - destruct (delete id s) as [s' x] eqn:Hq; cbn [fst]; apply delete_spec in Hq as [[(-> & _) _]|(_ & _ & -> & _)]; [by left|]. intros [_ Hr]%list_elem_of_filter _. by left.
  - destruct (arm_trigger id rev proof at_ s) as [s' x] eqn:Hq; cbn [fst]; pose proof Hq as Hspec; apply arm_spec in Hspec as [[(-> & _) _]|Hspec]; [by left|].
    destruct Hspec as (current & d & now & Hans & Hget & -> & Hp & Hd & Hrepo & _). intros Hin' Ha. pose proof Hin' as Hstored. rewrite Hrepo in Hin'. apply list_elem_of_fmap in Hin' as (r0 & Heq & Hr).
    destruct (str_eqb (trigger_id r0) id && Z.eqb (contentRev r0) (contentRev current)) eqn:Hc; [|left; by subst].
    apply andb_true_iff in Hc as [Hid%str_eqb_eq _]. pose proof Hget as Hget'. apply getTrigger_Some in Hget as [Hin Hcur].
    assert (r0 = current) as -> by (apply (getTrigger_unique (repository s)); [apply Hs|done|done|congruence]).
    right. exists (contentRev current), proof, at_. assert (trigger_id r = id) as Hrid by (by subst). rewrite Hrid. split; [done|]. exists current, d, now. rewrite Hrid, Hq. cbn [fst snd]. assert (r = armed_as current d now) as -> by (by subst r). split_and!; done.
  - destruct (disarm_trigger id s) as [s' x] eqn:Hq; cbn [fst]; apply disarm_spec in Hq as [[(-> & _) _]|(_ & _ & -> & _)]; [by left|].
    intros (r0 & -> & Hr)%list_elem_of_fmap. case_match; [done|by left].
Qed.
End Facts.

(** ** Arming needs a human *)
Definition operator_deps (projectExists : str → bool) (service_clock : nat → Z) (service_newId : nat → str) (service_throws : nat → bool) : TriggerServiceDeps :=
  {| humanProof := createOperatorHumanProof; projectExists := projectExists; service_clock := service_clock; service_newId := service_newId; service_throws := service_throws |}.
Section Operator.
Context `{JsNumbers} (number_of : Z → number) (toLowerCase : str → str) (sha256 : str → str).
Context (projectExists : str → bool) (service_clock : nat → Z) (service_newId : nat → str) (service_throws : nat → bool).
#[local] Instance the_deps : TriggerServiceDeps := operator_deps projectExists service_clock service_newId service_throws.
Local Abbreviation handle := (handle number_of toLowerCase sha256).
Local Abbreviation arm_trigger := (arm_trigger number_of sha256).

(** What happens to the daemon: a request, a nonce the desktop app mints for a binding, a nonce presented for something
    else (a secret), the breaker of the engine that disarms a trigger. *)
Inductive happening :=
  | Asked (q : request)
  | Minted (reading : str → Z) (now : Z) (nonce : str) (binding : Nonces.OperatorBinding)
  | Presented (now : Z) (nonce : str) (binding : Nonces.OperatorBinding)
  | BreakerOpened (id : str).
Definition with_state (t : triggers_table) (nonces : rec Nonces.live) (s : service) : service :=
  mkService t (ledger_rows s) (nonces : proofs) (clock_reads s) (ids_minted s) (notices s) (calls_made s).
Definition nonces_of (s : service) : rec Nonces.live := live_proofs s.
Definition occur (s : service) (e : happening) : service :=
  match e with
  | Asked q => (handle q s).1
  | Minted reading now nonce binding => with_state (repository s) (Nonces.register (nonces_of s) reading now nonce binding).1 s
  | Presented now nonce binding => with_state (repository s) (Nonces.redeem (nonces_of s) now nonce binding).1 s
  | BreakerOpened id => with_state (disarm (repository s) id) (nonces_of s) s
  end.
Definition at_boot : service := mkService [] [] ([] : rec Nonces.live) 0 0 [] 0.
Definition after (h : list happening) : service := fold_left occur h at_boot.
Lemma after_snoc h e : after (h ++ [e]) = occur (after h) e.
Proof. unfold after. by rewrite fold_left_app. Qed.

Lemma after_sound h : sound_table number_of sha256 (repository (after h)).
Proof.
  induction h as [|e h IH] using rev_ind; [split; constructor|]. rewrite after_snoc.
  destruct e as [q|reading now nonce binding|now nonce binding|id]; cbn [occur with_state repository]; [by apply handle_sound|done|done|by apply disarm_sound].
Qed.
(** Through any history of requests, minted and presented nonces and breaker trips, every stored trigger is sound: its
    id is its own, its title is not blank nor too long, its conditions are within the cap, use operators of the kernel,
    read the event of its source and start with an and, and it is armed exactly when it carries the approval of its
    current revision and the digest of its current graph. *)
Theorem stored_triggers_are_sound h : sound_table number_of sha256 (repository (after h)).
Proof. apply after_sound. Qed.

(** The live nonces go back to mintings. *)
Definition minted_in (h : list happening) (nonce : str) (binding : Nonces.OperatorBinding) (now : Z) : Prop :=
  ∃ reading, Minted reading now nonce binding ∈ h ∧ Nonces.isWellFormed nonce = true.
Definition nonces_minted (h : list happening) (m : rec Nonces.live) : Prop :=
  NoDup m.*1 ∧ ∀ nonce l, get m nonce = Some l → ∃ now, minted_in h nonce (Nonces.bindingKey l) now ∧ Nonces.expiresAt l = (now + Nonces.NONCE_LIFETIME_MS)%Z.
Lemma minted_in_app h h' nonce binding now : minted_in h nonce binding now → minted_in (h ++ h') nonce binding now.
Proof. intros (reading & Hin & Hw). exists reading. split; [|done]. apply elem_of_app. by left. Qed.
Lemma nonces_minted_app h h' m : nonces_minted h m → nonces_minted (h ++ h') m.
Proof. intros [Hnd Hm]. split; [done|]. intros nonce l Hg. destruct (Hm nonce l Hg) as (now & Hin & He). exists now. split; [by apply minted_in_app|done]. Qed.
Lemma nonces_redeemed h m now nonce binding : nonces_minted h m → nonces_minted h (Nonces.redeem m now nonce binding).1.
Proof.
  intros [Hnd Hm]. unfold Nonces.redeem. destruct (get m nonce) as [l|]; [|done]. cbn [fst]. split; [by apply del_keys_NoDup|].
  intros k l' Hg. apply get_filter_Some in Hg as [Hg _]; [|done]. by apply Hm.
Qed.
Lemma nonces_registered h m reading now nonce binding :
  nonces_minted h m → nonces_minted (h ++ [Minted reading now nonce binding]) (Nonces.register m reading now nonce binding).1.
Proof.
  intros Hm. pose proof (nonces_minted_app h [Minted reading now nonce binding] m Hm) as [_ Hold]. destruct Hm as [Hnd _].
  unfold Nonces.register. destruct (Nonces.isWellFormed nonce) eqn:Hw; cbn [negb fst]; [|done].
  unfold Nonces.dropOldestBeyondTheCap. rewrite Nonces.fold_del_filter. split; [apply del_keys_NoDup, put_keys_NoDup, del_keys_NoDup, Hnd|].
  intros k l Hg. apply get_filter_Some in Hg as [Hg _]; [|apply put_keys_NoDup, del_keys_NoDup, Hnd]. rewrite get_put in Hg. destruct (str_eqb nonce k) eqn:Hk.
  - apply str_eqb_eq in Hk as <-. injection Hg as <-. exists now. split; [|done]. exists reading. split; [|done]. apply elem_of_app. right. by apply list_elem_of_singleton.
  - apply get_filter_Some in Hg as [Hg _]; [|done]. by apply Hold.
Qed.
Lemma handle_nonces q s : nonces_of (handle q s).1 = nonces_of s ∨ ∃ now nonce binding, nonces_of (handle q s).1 = (Nonces.redeem (nonces_of s) now nonce binding).1.
Proof.
  unfold nonces_of. destruct q as [input|id change rev|id|id rev proof at_|id]; cbn [TriggerServiceFacts.handle]; rewrite ?forget_inv; cbn [fst].
  - left. destruct (create _ _ _ _) as [s' x] eqn:Hq; cbn [fst]; apply create_spec in Hq as [[(_&_& -> &_) _]|(t&l&_&_&_& -> &_)]; done.
  - left. destruct (edit _ _ _ _ _ _) as [s' x] eqn:Hq; cbn [fst]; apply edit_spec in Hq as [[(_&_& -> &_) _]|(c&k&l&n&_&_&_&_&_& -> &_)]; done.
  - left. destruct (delete _ _) as [s' x] eqn:Hq; cbn [fst]; apply delete_spec in Hq as [[(_&_& -> &_) _]|(_&_&_&_& -> &_)]; done.
  - destruct (arm_trigger id rev proof at_ s) as [s' x] eqn:Hq; cbn [fst]; apply arm_spec in Hq as [[_ [[-> | ->] _]]|Hq]; [by left| |].
    + destruct proof as [nonce|]; [right|by left]. by exists at_, nonce, (triggerBinding id).
    + destruct Hq as (c & d & now & _ & _ & _ & Hp & _). destruct proof as [nonce|]; [|done]. right. exists at_, nonce, (triggerBinding id). cbn in Hp. by rewrite Hp.
  - left. destruct (disarm_trigger _ _) as [s' x] eqn:Hq; cbn [fst]; apply disarm_spec in Hq as [[(_&_& -> &_) _]|(_&_&_&_& -> &_)]; done.
Qed.
Lemma nonces_after h : nonces_minted h (nonces_of (after h)).
Proof.
  induction h as [|e h IH] using rev_ind; [split; [constructor|done]|]. rewrite after_snoc.
  destruct e as [q|reading now nonce binding|now nonce binding|id]; cbn [occur].
  - destruct (handle_nonces q (after h)) as [->|(now & nonce & binding & ->)]; apply nonces_minted_app; [done|by apply nonces_redeemed].
  - by apply nonces_registered.
  - by apply nonces_minted_app, nonces_redeemed.
  - by apply nonces_minted_app.
Qed.

(** The trigger was armed by a request of the history that presented a nonce the desktop app had minted for that very
    trigger less than its lifetime before, and what the human saw armed is the trigger as it stands. *)
Definition approved_by_a_human (h : list happening) (r : TriggerRecord) : Prop :=
  ∃ before later_ rev nonce at_ minted_at,
    h = before ++ Asked (Arm (trigger_id r) rev (Some nonce) at_) :: later_ ∧
    minted_in before nonce (triggerBinding (trigger_id r)) minted_at ∧ (at_ < minted_at + Nonces.NONCE_LIFETIME_MS)%Z ∧
    arming number_of sha256 rev (Some nonce) at_ (after before) r.
Lemma arming_spends_a_minted_nonce before rev proof at_ r :
  arming number_of sha256 rev proof at_ (after before) r →
  ∃ nonce minted_at, proof = Some nonce ∧ minted_in before nonce (triggerBinding (trigger_id r)) minted_at ∧ (at_ < minted_at + Nonces.NONCE_LIFETIME_MS)%Z.
Proof.
  intros (c & d & now & _ & _ & Hp & _).
  destruct proof as [nonce|]; [|done]. cbn in Hp. unfold Nonces.redeem in Hp. destruct (nonces_after before) as [_ Hm]. unfold nonces_of in Hm.
  destruct (get (live_proofs (after before)) nonce) as [l|] eqn:Hg; [|done]. injection Hp as _ [Hb%bool_decide_eq_true Ht%bool_decide_eq_true]%andb_true_iff.
  destruct (Hm nonce l Hg) as (minted_at & Hin & He). exists nonce, minted_at. rewrite Hb in Hin. split; [done|]. split; [done|]. lia.
Qed.
(** C5. Only a human arms a trigger.  Through any history of the daemon, every armed trigger goes back to an arming that spent a
    nonce the desktop app minted for that very trigger in the thirty seconds before, and the record armed then, with its
    graph, revision and digest, is the record stored now: no edit since, no approval of another trigger or of
    another revision, no spent or forged nonce can have armed it. *)
Theorem armed_triggers_were_approved_by_a_human h r :
  r ∈ repository (after h) → armedAt r ≠ None → approved_by_a_human h r.
Proof.
  induction h as [|e h IH] using rev_ind; [by intros ?%elem_of_nil|]. rewrite after_snoc. intros Hr Ha.
  assert (Hold : r ∈ repository (after h) → approved_by_a_human (h ++ [e]) r).
  { intros Hin. destruct (IH Hin Ha) as (before & later_ & rev & nonce & at_ & minted_at & -> & Hrest).
    exists before, (later_ ++ [e]), rev, nonce, at_, minted_at. split; [by rewrite <- app_assoc|done]. }
  destruct e as [q|reading now nonce binding|now nonce binding|id]; cbn [occur with_state repository] in Hr; [|by apply Hold|by apply Hold|].
  - apply armed_since in Hr as [Hr|(rev & proof & at_ & -> & Harm)]; [by apply Hold| |apply after_sound|done].
    destruct (arming_spends_a_minted_nonce _ _ _ _ _ Harm) as (nonce & minted_at & -> & Hminted & Hlive).
    exists h, [], rev, nonce, at_, minted_at. done.
  - apply list_elem_of_fmap in Hr as (r0 & -> & Hr0). revert Ha Hold. case_match; [done|]. intros _ Hold. by apply Hold.
Qed.

(** ** One gesture, one arming *)
Definition arms_with (nonce : str) (s : service) (e : happening) : bool :=
  match e with
  | Asked (Arm id rev proof at_) =>
      bool_decide (proof = Some nonce) && negb (bool_decide (armedAt <$> getTrigger (repository (arm_trigger id rev proof at_ s).1) id = armedAt <$> getTrigger (repository s) id))
  | _ => false
  end.
Fixpoint armings (nonce : str) (s : service) (h : list happening) : nat :=
  match h with [] => 0 | e :: rest => (if arms_with nonce s e then 1 else 0) + armings nonce (occur s e) rest end.
Definition mints (nonce : str) (e : happening) : bool := match e with Minted _ _ n _ => str_eqb n nonce | _ => false end.
Fixpoint mintings (nonce : str) (h : list happening) : nat := match h with [] => 0 | e :: rest => (if mints nonce e then 1 else 0) + mintings nonce rest end.
Definition is_live (nonce : str) (s : service) : nat := if get (nonces_of s) nonce then 1 else 0.
Lemma get_filter_None {A} (P : str * A → Prop) `{∀ e, Decision (P e)} (r : rec A) k : get r k = None → get (filter P r) k = None.
Proof.
  induction r as [|[k0 v] r IH]; [done|]. cbn [get]. destruct (str_eqb k0 k) eqn:Hk; [done|]. intros Hg. rewrite filter_cons.
  case_decide; cbn [get]; rewrite ?Hk; by apply IH.
Qed.
Lemma live_le s s' nonce : (get (nonces_of s) nonce = None → get (nonces_of s') nonce = None) → is_live nonce s' ≤ is_live nonce s.
Proof. unfold is_live. destruct (get (nonces_of s) nonce); [destruct (get (nonces_of s') nonce); lia|]. intros ->; [lia|done]. Qed.
Lemma redeem_absent m now nonce' binding nonce : get m nonce = None → get (Nonces.redeem m now nonce' binding).1 nonce = None.
Proof. intros Hn. unfold Nonces.redeem. destruct (get m nonce'); [|done]. by apply get_filter_None. Qed.
Lemma arming_spends nonce s e : (if arms_with nonce s e then 1 else 0) + is_live nonce (occur s e) ≤ (if mints nonce e then 1 else 0) + is_live nonce s.
Proof.
  destruct e as [q|reading now nonce' binding|now nonce' binding|id].
  - cbn [mints]. destruct (arms_with nonce s (Asked q)) eqn:Harms.
    + destruct q as [| | |id rev proof at_|]; try done. cbn in Harms. apply andb_true_iff in Harms as [->%bool_decide_eq_true Harms].
      cbn [occur TriggerServiceFacts.handle]. rewrite forget_inv. cbn [fst].
      apply negb_true_iff, bool_decide_eq_false in Harms. destruct (arm_trigger id rev (Some nonce) at_ s) as [s' x] eqn:Hq. cbn [fst] in Harms. apply arm_spec in Hq as [[(E & _) _]|(c & d & n & _ & _ & _ & Hp & _)]; [by rewrite E in Harms|].
      cbn in Hp. unfold Nonces.redeem in Hp. unfold is_live, nonces_of. cbn [fst].
      destruct (get (live_proofs s) nonce); [|done]. injection Hp as <- _. rewrite get_del_eq. lia.
    + apply live_le. cbn [occur]. intros Hn. destruct (handle_nonces q s) as [->|(now & nonce' & binding & ->)]; [done|by apply redeem_absent].
  - cbn [arms_with mints]. destruct (str_eqb nonce' nonce) eqn:Hk.
    + unfold is_live. destruct (get (nonces_of (occur _ _)) nonce); lia.
    + apply live_le. cbn [occur]. unfold nonces_of at 2. cbn [with_state live_proofs]. intros Hn. unfold Nonces.register.
      destruct (Nonces.isWellFormed nonce'); cbn [negb fst]; [|done]. unfold Nonces.dropOldestBeyondTheCap. rewrite Nonces.fold_del_filter.
      apply get_filter_None. rewrite get_put, Hk. by apply get_filter_None.
  - cbn [arms_with mints]. apply live_le. cbn [occur]. intros Hn. by apply redeem_absent.
  - cbn [arms_with mints]. apply live_le. done.
Qed.
(** One gesture, one arming: through any history a nonce arms at most as many times as the desktop app minted it. *)
Theorem one_gesture_arms_once nonce h : armings nonce at_boot h ≤ mintings nonce h.
Proof.
  assert (Hgo : ∀ s, armings nonce s h ≤ mintings nonce h + is_live nonce s); [|specialize (Hgo at_boot); unfold is_live in Hgo; cbn in Hgo; lia].
  induction h as [|e h IH]; intros s; cbn [armings mintings]; [lia|]. specialize (IH (occur s e)). pose proof (arming_spends nonce s e). lia.
Qed.
End Operator.

(** ** A concrete history: a trigger on the state of sessions is created, a nonce minted for it, and it is armed. *)
#[local] Existing Instance integers.
Definition sample_input : CreateInput :=
  mkCreateInput (js "p") None (Some (js " When idle ")) None
    (Some [[(js "lhs", JStr (js "event.session.name")); (js "op", JStr (js "eq")); (js "rhs", JStr (js "worker")); (js "join", JStr (js "or"))]]) None None.
Definition sample_ids (n : nat) : str := js "id" ++ [(48 + N.of_nat n)%N].
Definition sample_nonce : str := js "abcdefghijklmnop".
Definition sample_history : list happening :=
  [Asked (Create sample_input); Minted (λ _, 0%Z) 1000 sample_nonce (triggerBinding (js "id1"));
   Asked (Arm (js "id1") 1 (Some sample_nonce) 2000); Asked (Arm (js "id1") 1 (Some sample_nonce) 2001)].
Definition sample_condition : TriggerCondition :=
  mkTriggerCondition (js "id0") (js "event.session.name") (js "eq") (Some (JStr (js "worker"))) JoinAnd false.
Definition sample_graph : ApprovedGraph :=
  mkGraph None DEFAULT_TRIGGER_WHEN (json_of_conditions [sample_condition]) DEFAULT_TRIGGER_RUN (mkTriggerPolicy 0 None PerEvent FireAll None).
Definition sample_armed : TriggerRecord := mkTrigger (js "id1") (js "p") (js "When idle") sample_graph 1 (Some 1%Z) (Some 1%Z) (Some (js "d")) 0 0.
Definition as_number (n : Z) : number (JsNumbers := integers) := n.
Local Abbreviation sample_after := (after as_number (λ s, s) (λ _, js "d") (λ _, true) Z.of_nat sample_ids (λ _, false)).
Lemma sample_table : repository (sample_after sample_history) = [sample_armed].
Proof. reflexivity. Qed.
Lemma armed_triggers_were_approved_by_a_human_witness :
  approved_by_a_human as_number (λ s, s) (λ _, js "d") (λ _, true) Z.of_nat sample_ids (λ _, false) sample_history sample_armed.
Proof. apply armed_triggers_were_approved_by_a_human; [rewrite sample_table; left|discriminate]. Defined.
Lemma accepted_conditions_never_throw_witness :
  ∃ b, evaluateConditions (λ s, s) (kernelConditionsOf as_number [sample_condition]) (VObject [(js "event", VNull)]) = Returns b.
Proof.
  apply (accepted_conditions_never_throw as_number (λ s, s) DEFAULT_TRIGGER_WHEN); [reflexivity|]. constructor; [|constructor]. intros r [= <-]. reflexivity.
Defined.
(** The listener of the arming throws: the seventh call that may throw.  The answer is an error, and the trigger is armed. *)
Local Abbreviation failing := (operator_deps (λ _, true) Z.of_nat sample_ids (λ n, Nat.eqb n 6)).
Local Abbreviation failing_after := (after as_number (λ s, s) (λ _, js "d") (λ _, true) Z.of_nat sample_ids (λ n, Nat.eqb n 6)).
Example a_listener_that_throws_leaves_the_arming :
  (handle (H0 := failing) as_number (λ s, s) (λ _, js "d") (Arm (js "id1") 1 (Some sample_nonce) 2000) (failing_after (take 2 sample_history))).2 = inl Uncaught
  ∧ repository (failing_after (take 3 sample_history)) = [sample_armed] ∧ notices (failing_after (take 3 sample_history)) = [OnArmed sample_armed].
Proof. vm_compute. split_and!; reflexivity. Qed.
