(* ===== verification/Lineage.v ===== *)
(** * Lineages of sessions

    Model of [packages/core/src/managers/lineage.ts]: the topmost ancestor of a session and the
    sessions beneath one, over parent links that may dangle or form a cycle.  A session is the
    part of [shared/src/session.ts] the triggers read. *)
From S2P Require Import Prelude JsText PolicyTypes SessionState.

Inductive SessionCloseReason :=
  | LaunchFailed | ResumeTimeout | ConversationNotFound | HarnessExited | OtherCloseReason (reason : str).
#[export] Instance SessionCloseReason_eq_dec : EqDecision SessionCloseReason.
Proof. solve_decision. Defined.
Record Session := mkSession
  { session_id : str; session_name : str; emoji : str; parentId : option str; session_projectId : option str;
    state : SessionState; stateSince : Z; closeReason : option SessionCloseReason; closedAt : option Z }.
(** [sessions.get] and [sessions.list]: the table is the list. *)
Definition getSession (sessions : list Session) (id : str) : option Session := find (λ s, str_eqb (session_id s) id) sessions.

(** ** The root *)
Definition climb_step (sessions : list Session) (st : list str * (str * option str)) : list str * (str * option str) + str :=
  let '(climbed, (id, parent)) := st in
  match parent with
  | None => inr id
  | Some p =>
      match getSession sessions p with
      | None => inr p
      | Some above =>
          if mem_str (session_id above) climbed then inr id
          else inl (session_id above :: climbed, (session_id above, parentId above))
      end
  end.
Definition lineageRootIdOf (sessions : list Session) (id : str) (parent : option str) : str :=
  run_loop (climb_step sessions) (S (length sessions)) ([id], (id, parent)) id.

(** ** The sessions beneath *)
Definition childrenByParent (sessions : list Session) : rec (list str) :=
  fold_left (λ m s, match parentId s with None => m | Some p => put m p (default [] (get m p) ++ [session_id s]) end) sessions [].
Definition visit_child (st : list str * list str * list str) (childId : str) : list str * list str * list str :=
  let '(toVisit, visited, descendants) := st in
  if mem_str childId visited then st else (toVisit ++ [childId], childId :: visited, descendants ++ [childId]).
Definition visit_step (children : rec (list str)) (st : list str * list str * list str) : list str * list str * list str + list str :=
  let '(toVisit, visited, descendants) := st in
  match toVisit with
  | [] => inr descendants
  | parent :: rest => inl (fold_left visit_child (default [] (get children parent)) (rest, visited, descendants))
  end.
Definition descendantSessionIdsOf (sessions : list Session) (ancestorId : str) : list str :=
  run_loop (visit_step (childrenByParent sessions)) (2 * length sessions + 2) ([ancestorId], [ancestorId], []) [].

(** ** What the root is *)
Lemma getSession_Some sessions id s : getSession sessions id = Some s → s ∈ sessions ∧ session_id s = id.
Proof. unfold getSession. intros [Hs Hid]%find_some. apply str_eqb_eq in Hid. split; [by apply list_elem_of_In|done]. Qed.
(** [climbs sessions a met b]: parent links lead from [a] to [b] through the distinct ids [met], latest first. *)
Inductive climbs (sessions : list Session) (a : str * option str) : list str → str * option str → Prop :=
  | climbs_start : climbs sessions a [a.1] a
  | climbs_up met id p above : climbs sessions a met (id, Some p) → getSession sessions p = Some above → session_id above ∉ met →
      climbs sessions a (session_id above :: met) (session_id above, parentId above).
(** Where the climb ends: at a session without a parent, at the id of a parent that is gone, or below a parent already met. *)
Inductive root_of (sessions : list Session) (a : str * option str) : str → Prop :=
  | root_top met id : climbs sessions a met (id, None) → root_of sessions a id
  | root_gone met id p : climbs sessions a met (id, Some p) → getSession sessions p = None → root_of sessions a p
  | root_cycle met id p above : climbs sessions a met (id, Some p) → getSession sessions p = Some above → session_id above ∈ met → root_of sessions a id.

Lemma mem_str_iff s l : mem_str s l = true ↔ s ∈ l.
Proof. rewrite mem_str_In. symmetry. apply list_elem_of_In. Qed.
Lemma unmet_decreases (sessions : list Session) s met : s ∈ sessions → session_id s ∉ met →
  length (filter (λ x, session_id x ∉ session_id s :: met) sessions) < length (filter (λ x, session_id x ∉ met) sessions).
Proof.
  intros Hs Hmet. induction sessions as [|x sessions IH]; [by apply elem_of_nil in Hs|].
  assert (Hle : ∀ l, length (filter (λ x, session_id x ∉ session_id s :: met) l) ≤ length (filter (λ x, session_id x ∉ met) l)).
  { clear. induction l as [|y l IH]; [done|]. rewrite !filter_cons. repeat case_decide; simpl; try lia. set_solver. }
  rewrite !filter_cons. apply elem_of_cons in Hs as [<-|Hs].
  - rewrite decide_False, decide_True by set_solver. simpl. specialize (Hle sessions). lia.
  - specialize (IH Hs). repeat case_decide; simpl; try lia. set_solver.
Qed.
Lemma lineage_root sessions id parent : root_of sessions (id, parent) (lineageRootIdOf sessions id parent).
Proof.
  unfold lineageRootIdOf. apply (run_loop_spec (climb_step sessions) (λ st, climbs sessions (id, parent) st.1 st.2)
    (λ st, length (filter (λ x, session_id x ∉ st.1) sessions)) (root_of sessions (id, parent))).
  - intros [met [i p]] st' Hc Hb. simpl in Hc. unfold climb_step in Hb. destruct p as [p|]; [|done].
    destruct (getSession sessions p) as [above|] eqn:Hg; [|done]. destruct (mem_str (session_id above) met) eqn:Hmem; [done|]. injection Hb as <-.
    assert (Hn : session_id above ∉ met) by (intros Hin%mem_str_iff; congruence). split; [by eapply climbs_up|]. apply unmet_decreases; [by apply getSession_Some in Hg as [? _]|done].
  - intros [met [i p]] r Hc Hb. simpl in Hc. unfold climb_step in Hb. destruct p as [p|]; [|injection Hb as <-; by eapply root_top].
    destruct (getSession sessions p) as [above|] eqn:Hg; [|injection Hb as <-; by eapply root_gone].
    destruct (mem_str (session_id above) met) eqn:Hmem; [|done]. injection Hb as <-. eapply root_cycle; [done|done|by apply mem_str_iff].
  - apply climbs_start.
  - apply Nat.lt_succ_r. apply length_filter.
Qed.
(** The climb to the root of a lineage always ends, dangling parents and cycles included, at the topmost ancestor: the last
    session without a parent, the id of the first parent that is gone, or the last session before a cycle closes. *)
Theorem lineageRootIdOf_correct sessions id parent : root_of sessions (id, parent) (lineageRootIdOf sessions id parent).
Proof. apply lineage_root. Qed.

(** ** What the sessions beneath are *)
Lemma childrenByParent_get sessions p : default [] (get (childrenByParent sessions) p) = session_id <$> filter (λ s, parentId s = Some p) sessions.
Proof.
  unfold childrenByParent. induction sessions as [|s sessions IH] using rev_ind; [done|].
  rewrite fold_left_app, list.filter_app, fmap_app, <- IH. cbn [fold_left]. rewrite filter_cons. destruct (parentId s) as [q|].
  - rewrite get_put. destruct (str_eqb q p) eqn:Hq.
    + apply str_eqb_eq in Hq as ->. rewrite decide_True by done. done.
    + apply str_eqb_neq in Hq. rewrite decide_False by congruence. simpl. by rewrite app_nil_r.
  - rewrite decide_False by done. simpl. by rewrite app_nil_r.
Qed.
Lemma fold_visit cs toVisit visited descendants : ∃ new,
  fold_left visit_child cs (toVisit, visited, descendants) = (toVisit ++ new, reverse new ++ visited, descendants ++ new) ∧
  NoDup new ∧ (∀ x, x ∈ new → x ∈ cs ∧ x ∉ visited) ∧ (∀ x, x ∈ cs → x ∈ visited ∨ x ∈ new).
Proof.
  revert toVisit visited descendants. induction cs as [|c cs IH]; intros toVisit visited descendants; cbn [fold_left].
  - exists []. rewrite !app_nil_r. split; [done|]. split; [constructor|]. split; [by intros x ?%elem_of_nil|by intros x ?%elem_of_nil].
  - unfold visit_child at 2. destruct (mem_str c visited) eqn:Hc.
    + destruct (IH toVisit visited descendants) as (new & -> & Hnd & Hnew & Hall). exists new. split; [done|]. split; [done|].
      apply mem_str_iff in Hc. split; [intros x Hx; split; [right|]; by apply Hnew|]. intros x [->|Hx]%elem_of_cons; [by left|by apply Hall].
    + assert (Hnc : c ∉ visited) by (intros Hin%mem_str_iff; congruence).
      destruct (IH (toVisit ++ [c]) (c :: visited) (descendants ++ [c])) as (new & -> & Hnd & Hnew & Hall). exists (c :: new).
      rewrite reverse_cons, <- !app_assoc. split; [done|]. split; [|split].
      * constructor; [|done]. intros Hin%Hnew. set_solver.
      * intros x [->|Hx]%elem_of_cons; [split; [left|done]|]. destruct (Hnew x Hx) as [Hx1 Hx2]. split; [by right|set_solver].
      * intros x [->|Hx]%elem_of_cons; [right; left|]. destruct (Hall x Hx) as [Hv|Hn]; [|right; by right]. apply elem_of_cons in Hv as [->|Hv]; [right; left|by left].
Qed.
Lemma unmet_all (sessions : list Session) new met : NoDup new → (∀ x, x ∈ new → x ∈ (session_id <$> sessions) ∧ x ∉ met) →
  length (filter (λ s, session_id s ∉ reverse new ++ met) sessions) + length new ≤ length (filter (λ s, session_id s ∉ met) sessions).
Proof.
  revert met. induction new as [|x new IH]; intros met Hnd Hnew; [simpl; lia|]. apply list.NoDup_cons in Hnd as [Hx Hnd].
  destruct (Hnew x) as [(s & -> & Hs)%list_elem_of_fmap Hmet]; [left|]. pose proof (unmet_decreases sessions s met Hs Hmet) as Hlt.
  rewrite reverse_cons, <- app_assoc. specialize (IH (session_id s :: met) Hnd). simpl app in *. simpl length at 2.
  assert (Hrest : ∀ y, y ∈ new → y ∈ (session_id <$> sessions) ∧ y ∉ session_id s :: met); [|specialize (IH Hrest); lia].
  intros y Hy. destruct (Hnew y) as [Hin Hout]; [by right|]. split; [done|]. intros [->|Hin']%elem_of_cons; done.
Qed.

(** [x] is a child, a child of a child, and so on, of [a]. *)
Inductive below (sessions : list Session) (a : str) : str → Prop :=
  | below_child s : s ∈ sessions → parentId s = Some a → below sessions a (session_id s)
  | below_deeper x s : below sessions a x → s ∈ sessions → parentId s = Some x → below sessions a (session_id s).
Record traversal (sessions : list Session) (a : str) (st : list str * list str * list str) : Prop := mkTraversal
  { traversal_nodup : NoDup st.2;
    traversal_visited : ∀ x, x ∈ st.1.2 ↔ x = a ∨ x ∈ st.2;
    traversal_apart : a ∉ st.2;
    traversal_queue : ∀ x, x ∈ st.1.1 → x ∈ st.1.2;
    traversal_below : ∀ x, x ∈ st.2 → below sessions a x;
    traversal_closed : ∀ x s, x ∈ st.1.2 → x ∉ st.1.1 → s ∈ sessions → parentId s = Some x → session_id s ∈ st.1.2 }.
Lemma child_elem (sessions : list Session) p c : c ∈ (session_id <$> filter (λ s, parentId s = Some p) sessions) ↔ ∃ s, s ∈ sessions ∧ parentId s = Some p ∧ session_id s = c.
Proof. rewrite list_elem_of_fmap. setoid_rewrite list_elem_of_filter. naive_solver. Qed.
Lemma traversal_step sessions a st st' : traversal sessions a st → visit_step (childrenByParent sessions) st = inl st' →
  traversal sessions a st' ∧
  length st'.1.1 + 2 * length (filter (λ s, session_id s ∉ st'.1.2) sessions) < length st.1.1 + 2 * length (filter (λ s, session_id s ∉ st.1.2) sessions).
Proof.
  destruct st as [[toVisit visited] descendants]. intros [Hnd Hvis Hap Hq Hb Hcl] Hstep. simpl in *. destruct toVisit as [|p rest]; [done|]. injection Hstep as <-.
  rewrite childrenByParent_get. destruct (fold_visit (session_id <$> filter (λ s, parentId s = Some p) sessions) rest visited descendants) as (new & -> & Hnn & Hnew & Hall).
  assert (Hbelow : ∀ x, x ∈ new → below sessions a x).
  { intros x Hx. apply Hnew in Hx as [(s & Hs & Hp & <-)%child_elem _]. assert (Hpv : p ∈ visited) by (apply Hq; left).
    apply Hvis in Hpv as [->|Hpd]; [by apply below_child|]. eapply below_deeper; [by apply Hb|done|done]. }
  split; [split; simpl|].
  - apply list.NoDup_app. split; [done|]. split; [|done]. intros x Hx Hin. apply Hnew in Hin as [_ Hv]. apply Hv, Hvis. by right.
  - intros x. rewrite elem_of_app, elem_of_reverse, elem_of_app, Hvis. tauto.
  - rewrite not_elem_of_app. split; [done|]. intros Hin%Hnew. destruct Hin as [_ Hv]. apply Hv, Hvis. by left.
  - intros x. rewrite !elem_of_app, elem_of_reverse. intros [Hx|Hx]; [right; apply Hq; by right|by left].
  - intros x [Hx|Hx]%elem_of_app; [by apply Hb|by apply Hbelow].
  - intros x s Hx Hn Hs Hp. rewrite elem_of_app, elem_of_reverse in Hx |- *. rewrite not_elem_of_app in Hn. destruct Hn as [Hn1 Hn2].
    destruct Hx as [Hx|Hx]; [done|]. destruct (decide (x = p)) as [->|Hne].
    + destruct (Hall (session_id s)) as [Hv|Hv]; [apply child_elem; eauto|by right|by left].
    + right. apply (Hcl x); [done| |done|done]. rewrite not_elem_of_cons. done.
  - simpl. rewrite length_app. pose proof (unmet_all sessions new visited Hnn) as Hu.
    assert (Hin : ∀ x, x ∈ new → x ∈ (session_id <$> sessions) ∧ x ∉ visited).
    { intros x Hx. apply Hnew in Hx as [(s & Hs & _ & <-)%child_elem Hv]. split; [|done]. by apply list_elem_of_fmap_2. }
    specialize (Hu Hin). lia.
Qed.
(** The sessions beneath one are exactly its children, their children and so on, itself left out, each once, even
    when the parent links form a cycle; the traversal always ends. *)
Theorem descendantSessionIdsOf_correct sessions a :
  NoDup (descendantSessionIdsOf sessions a) ∧ ∀ x, x ∈ descendantSessionIdsOf sessions a ↔ below sessions a x ∧ x ≠ a.
Proof.
  unfold descendantSessionIdsOf. apply (run_loop_spec (visit_step (childrenByParent sessions)) (traversal sessions a)
    (λ st, length st.1.1 + 2 * length (filter (λ s, session_id s ∉ st.1.2) sessions)) (λ l, NoDup l ∧ ∀ x, x ∈ l ↔ below sessions a x ∧ x ≠ a)).
  - intros st st' Ht Hb. by apply traversal_step.
  - intros [[[|p rest] visited] descendants] r [Hnd Hvis Hap Hq Hb Hcl] Hr; [|done]. injection Hr as <-. simpl in *. split; [done|].
    intros x. split; [intros Hx; split; [by apply Hb|congruence]|]. intros [Hx Hne].
    assert (Hin : x ∈ visited); [|apply Hvis in Hin as [->|Hin]; done]. clear Hne.
    induction Hx as [s Hs Hp|x s _ IH Hs Hp]; [apply (Hcl a); [apply Hvis; by left|apply not_elem_of_nil|done|done]|].
    apply (Hcl x); [done|apply not_elem_of_nil|done|done].
  - split; simpl; [constructor|set_solver|apply not_elem_of_nil|done|by intros x ?%elem_of_nil|]. intros x s -> %list_elem_of_singleton Hn. destruct Hn. left.
  - simpl. pose proof (length_filter (λ s, session_id s ∉ [a]) sessions). lia.
Qed.
