(* ===== verification/TriggerActions.v ===== *)
(** * What a trigger does

    Models of [packages/core/src/triggers/triggerActions.ts] (the RUN of a trigger: prompting a
    manager or a session, notifying, closing a session), [triggerMessage.ts] (the message it
    sends) and [sessionTriggerScope.ts] (the sessions its events may be about).  The sessions
    and managers are tables; what an action does to the outside is a list of effects. *)
From S2P Require Import Prelude JsText Regex PolicyTypes PolicyDocument MessageEnvelope Sorting SessionState Tickets TriggerLedger TriggerEngine PlaybookKernel Conditions SecretMasker TriggerService Lineage.

(** ** The message *)
Definition MAX_TOKEN_VALUE_CHARS : nat := 120.
Definition MAX_PROMPT_CHARS : nat := 6000.
(** The horizontal ellipsis. *)
Definition ELLIPSIS : str := [8230%N].
Definition EVENT_TOKEN_PATHS_BY_SOURCE (s : TriggerWhenSource) : list str :=
  match s with
  | SessionStateSource => [js "event.session.id"; js "event.session.name"; js "event.session.state"; js "event.session.parentId"; js "event.session.minutes"]
  | SilentRunSource => [js "event.session.id"; js "event.session.name"; js "event.session.minutes"]
  | DataStoreQuerySource | TriggerService.CronSource | IntegrationRecordsSource => []
  end.
Definition SESSION_STATES_OF_THE_HEADER : list str := [js "waiting_permission"; js "idle"; js "closed_with_error"].

(** [\p{Cc}] *)
Definition isControlCode (code : N) : bool := in_range 0 31 code || in_range 127 159 code.
Definition point_is (p : N → bool) (point : str) : bool := match code_of point with Some code => p code | None => false end.
Definition truncated (text : str) (maxChars : nat) : str :=
  let characters := code_points text in
  if bool_decide (length characters ≤ maxChars) then text else concat (take maxChars characters) ++ ELLIPSIS.
(** [replace(/p+/g, ' ')] *)
Fixpoint runs_to_one_space (p : str → bool) (inside : bool) (points : list str) : list str :=
  match points with
  | [] => []
  | point :: rest =>
      if p point then (if inside then runs_to_one_space p true rest else js " " :: runs_to_one_space p true rest)
      else point :: runs_to_one_space p false rest
  end.
Definition replace_points (p : str → bool) (text : str) : str := concat (runs_to_one_space p false (code_points text)).
Definition promptWithoutControlsOf (prompt : str) : str :=
  concat (filter (λ point, point_is isControlCode point = false ∨ point = [LF] ∨ point = [9%N]) (code_points (normalizeLineEndings prompt))).

(** A token at the start of a text: what is written, the path and what follows. *)
Definition path_chars (c : N) : bool := is_alnum c || mem_chr c (js "_.-").
Definition token_at (s : str) : option (str * str) :=
  if startsWith s (js "{{") then
    let inner := drop_while is_space (drop 2 s) in
    if startsWith inner (js "event.") then
      let path := take_while path_chars (drop 6 inner) in
      let closing := drop_while is_space (drop (6 + length path) inner) in
      if negb (bool_decide (path = [])) && startsWith closing (js "}}")
      then Some (take (length s - (length closing - 2)) s, js "event." ++ path) else None
    else None
  else None.

Section Message.
Context `{JsNumbers}.
Variable number_of : Z → number.
(** [\p{Cf}], [\p{Zl}] and [\p{Zp}]: the Unicode categories of a code point; [strip] as in [MessageEnvelope]. *)
Variable isFormat : N → bool.
Variable strip : str → str.

Definition CONTROL_OR_FORMAT (point : str) : bool := point_is (λ code, isControlCode code || isFormat code) point.
Definition inertValueOf (v : value) : str :=
  let text := match v with VString s => s | VNumber n => number_text n | VBool b => if b then js "true" else js "false" | _ => [] end in
  truncated (trim (replace_points (λ point, str_eqb point (js " ")) (replace_points CONTROL_OR_FORMAT text))) MAX_TOKEN_VALUE_CHARS.
(** [replace(TOKEN, ...)]: leftmost tokens, in one pass; every turn consumes a unit. *)
Fixpoint replace_tokens (fuel : nat) (value_at : str → option str) (s : str) : str :=
  match fuel with
  | O => s
  | S fuel' =>
      match s with
      | [] => []
      | c :: rest =>
          match token_at s with
          | Some (written, path) => default written (value_at path) ++ replace_tokens fuel' value_at (drop (length written) s)
          | None => c :: replace_tokens fuel' value_at rest
          end
      end
  end.
Definition promptWithTokensOf (prompt : str) (source : TriggerWhenSource) (event : json) : str :=
  let allowed := EVENT_TOKEN_PATHS_BY_SOURCE source in
  let value_at path := if mem_str path allowed then Some (inertValueOf (valueAtDottedPath (VObject [(js "event", value_of_json number_of event)]) path)) else None in
  let readable := promptWithoutControlsOf prompt in
  truncated (replace_tokens (S (length readable)) value_at readable) MAX_PROMPT_CHARS.
Definition source_text (s : TriggerWhenSource) : str :=
  match s with
  | SessionStateSource => js "session_state" | SilentRunSource => js "silent_run" | DataStoreQuerySource => js "data_store_query"
  | TriggerService.CronSource => js "cron" | IntegrationRecordsSource => js "integration_records"
  end.
Definition when_field (w : json) (k : str) : option json := match w with JObj fields => get fields k | _ => None end.
Definition when_text (w : json) (k : str) : option str := match when_field w k with Some (JStr s) => Some s | _ => None end.
Definition headerOf (trigger : TriggerRecord) (fire : TriggerFire) (source : TriggerWhenSource) (batchSize : nat) : str :=
  let state := match source with SessionStateSource => when_text (when_ (trigger_graph trigger)) (js "state") | _ => None end in
  let stateField := match state with Some st => if mem_str st SESSION_STATES_OF_THE_HEADER then js " state=" ++ st else [] | None => [] end in
  js "trigger.fired trigger=" ++ trigger_id trigger ++ js " fire=" ++ fire_id fire ++ js " source=" ++ source_text source ++ stateField
    ++ js " batch=" ++ String_of_nat batchSize.
Definition triggerMessageOf (trigger : TriggerRecord) (fire : TriggerFire) (event : json) (prompt : str) (batchSize : nat) : option str :=
  source ← sourceOf (when_ (trigger_graph trigger));
  Some (wrapTriggerMessage strip (headerOf trigger fire source batchSize) (promptWithTokensOf prompt source event)).
End Message.

(** ** The run *)
Inductive TriggerRun :=
  | PromptManager (managerId : option str) (prompt : str) | NotifyRun | PromptSession (sessionId prompt : str) | CloseSessionRun (sessionId : str)
  | RunPlaybook.
(** The stored [run] of a trigger passed [TriggerRunSchema]. *)
Definition runOf (r : json) : option TriggerRun :=
  kind ← when_text r (js "kind");
  if str_eqb kind (js "prompt_manager") then prompt ← when_text r (js "prompt"); Some (PromptManager (when_text r (js "managerId")) prompt)
  else if str_eqb kind (js "notify") then Some NotifyRun
  else if str_eqb kind (js "prompt_session") then sessionId ← when_text r (js "sessionId"); prompt ← when_text r (js "prompt"); Some (PromptSession sessionId prompt)
  else if str_eqb kind (js "close_session") then sessionId ← when_text r (js "sessionId"); Some (CloseSessionRun sessionId)
  else if str_eqb kind (js "run_playbook") then Some RunPlaybook
  else None.
Definition ERROR_CLOSE_REASONS : list SessionCloseReason := [LaunchFailed; ResumeTimeout; ConversationNotFound; HarnessExited].
Inductive Effect := SendMessage (sessionId messageId body : str) | Announce (triggerId fireId : str) | CloseSession (sessionId : str).

Definition event_member (event : json) (k : str) : option str :=
  match when_field event (js "session") with Some session => when_text session k | None => None end.
Definition sessionIdsOfEvent (event : json) : list str :=
  match event_member event (js "parentId") with Some p => [p] | None => [] end ++ match event_member event (js "id") with Some i => [i] | None => [] end.
Definition when_minutes (w : json) : option Z := match when_field w (js "minutes") with Some (JNum n) => Some n | _ => None end.
Definition idleMinutesOf (trigger : TriggerRecord) : option Z :=
  let w := when_ (trigger_graph trigger) in
  match sourceOf w with
  | Some SilentRunSource => when_minutes w
  | Some SessionStateSource => if bool_decide (when_text w (js "state") = Some (js "idle")) then when_minutes w else None
  | _ => None
  end.

Section Actions.
Context `{JsNumbers}.
Variable number_of : Z → number.
Variable isFormat : N → bool.
Variable strip : str → str.
(** The tables, the reading of the clock, the event of a fire ([JSON.parse] of its column) and whether [sendMessage] throws. *)
Variable sessions : list Session.
Variable managers : list str.
Variable now : Z.
Variable eventOf : TriggerFire → json.
Variable sendThrows : str → bool.

Definition isOpenSessionOfTheProject (trigger : TriggerRecord) (session : Session) : bool :=
  negb (bool_decide (state session = Closed)) && bool_decide (session_projectId session = Some (trigger_projectId trigger)).
Definition isManager (sessionId : str) : bool := mem_str sessionId managers.
Definition sessionOfEvent (event : json) : option Session := event_member event (js "id") ≫= getSession sessions.
Definition rootOf (session : Session) : str := lineageRootIdOf sessions (session_id session) (parentId session).
Definition isInLineageOf (ownerId : str) (session : Session) : bool := str_eqb (rootOf session) ownerId.
Definition isChildOfManagerInLineageOf (ownerId : str) (session : Session) : bool :=
  match parentId session with Some p => isManager p && isInLineageOf ownerId session | None => false end.
Definition ownerOf (trigger : TriggerRecord) : option str :=
  owner ← ownerManagerId (trigger_graph trigger); if isManager owner then Some owner else None.

(** An action: its result, or [None] when it throws, and its effects. *)
Abbreviation action := (option ActionResult * list Effect)%type.
Definition cancelledAs (reason : TriggerFireReason) : action := (Some (ActionCancelled reason), []).
Definition send (session : Session) (message : option str) (fire : TriggerFire) : action :=
  match message with
  | Some body => if sendThrows (session_id session) then (None, []) else (Some (ActionCompleted None), [SendMessage (session_id session) (fire_id fire) body])
  | None => (None, [])
  end.
Definition promptManager (trigger : TriggerRecord) (fire : TriggerFire) (batchSize : nat) (managerId : option str) (prompt : str) : action :=
  let ownerId := ownerOf trigger in
  let ownerIsGone := bool_decide (is_Some (ownerManagerId (trigger_graph trigger))) && bool_decide (ownerId = None) in
  if ownerIsGone then cancelledAs TargetNotEligible
  else
    let sessionIdsOfTheEvent := sessionIdsOfEvent (eventOf fire) in
    let managerIdsOfTheOwner := match sessionIdsOfTheEvent, ownerId with [], Some owner => [owner] | _, _ => [] end in
    let candidateIds := match managerId with None => sessionIdsOfTheEvent ++ managerIdsOfTheOwner | Some m => [m] end in
    match find (λ session, isOpenSessionOfTheProject trigger session && isManager (session_id session)) (omap (getSession sessions) candidateIds) with
    | None => cancelledAs TargetUnavailable
    | Some manager =>
        if match ownerId with Some owner => negb (isInLineageOf owner manager) | None => false end then cancelledAs TargetNotEligible
        else send manager (triggerMessageOf number_of isFormat strip trigger fire (eventOf fire) prompt batchSize) fire
    end.
Definition promptSession (trigger : TriggerRecord) (fire : TriggerFire) (batchSize : nat) (sessionId prompt : str) : action :=
  match ownerOf trigger with
  | None => cancelledAs TargetNotEligible
  | Some ownerId =>
      match getSession sessions sessionId with
      | Some target =>
          if negb (isOpenSessionOfTheProject trigger target) then cancelledAs TargetUnavailable
          else if negb (isInLineageOf ownerId target) then cancelledAs TargetNotEligible
          else send target (triggerMessageOf number_of isFormat strip trigger fire (eventOf fire) prompt batchSize) fire
      | None => cancelledAs TargetUnavailable
      end
  end.
Definition notify (trigger : TriggerRecord) (fire : TriggerFire) : action := (Some (ActionCompleted None), [Announce (trigger_id trigger) (fire_id fire)]).
Definition closeSession (trigger : TriggerRecord) (fire : TriggerFire) (sessionId : str) : action :=
  match ownerOf trigger, getSession sessions sessionId with
  | Some ownerId, Some target =>
      if negb (bool_decide (session_projectId target = Some (trigger_projectId trigger)) && isChildOfManagerInLineageOf ownerId target) then cancelledAs TargetNotEligible
      else if negb (match sessionOfEvent (eventOf fire) with Some eventSession => isChildOfManagerInLineageOf ownerId eventSession | None => false end) then cancelledAs TargetNotEligible
      else
        let hasClosedWithError := bool_decide (state target = Closed) && match closeReason target with Some r => bool_decide (r ∈ ERROR_CLOSE_REASONS) | None => false end in
        if hasClosedWithError then (Some (ActionCompleted None), [])
        else
          let idleForMs := (now - stateSince target)%Z in
          let hasBeenIdleLongEnough := bool_decide (state target = Idle)
            && match idleMinutesOf trigger with Some minutes => Z.leb (minutes * MINUTE_MS) idleForMs | None => false end in
          if negb hasBeenIdleLongEnough then cancelledAs TargetNotEligible
          else (Some (ActionCompleted None), [CloseSession (session_id target)])
  | _, _ => cancelledAs TargetNotEligible
  end.
Definition perform_run (trigger : TriggerRecord) (fire : TriggerFire) (batchSize : nat) : action :=
  match runOf (run_ (trigger_graph trigger)) with
  | Some (PromptManager managerId prompt) => promptManager trigger fire batchSize managerId prompt
  | Some (PromptSession sessionId prompt) => promptSession trigger fire batchSize sessionId prompt
  | Some NotifyRun => notify trigger fire
  | Some (CloseSessionRun sessionId) => closeSession trigger fire sessionId
  | Some RunPlaybook | None => (None, [])
  end.

(** ** The sessions an event may be about *)
Definition isChildInScopeOfTrigger (trigger : TriggerRecord) (session : Session) : bool :=
  match parentId session with
  | None => false
  | Some managerId =>
      match getSession sessions managerId with
      | None => false
      | Some manager =>
          if negb (isManager managerId) then false
          else
            let isInProject := bool_decide (session_projectId session = Some (trigger_projectId trigger)) && bool_decide (session_projectId manager = Some (trigger_projectId trigger)) in
            let namesAnotherManager := match runOf (run_ (trigger_graph trigger)) with Some (PromptManager (Some m) _) => negb (str_eqb m managerId) | _ => false end in
            let isOutsideTheLineageOfTheOwner :=
              match ownerManagerId (trigger_graph trigger) with
              | None => false
              | Some owner => negb (bool_decide (is_Some (getSession sessions owner)) && isManager owner) || negb (str_eqb owner (rootOf session))
              end in
            isInProject && negb namesAnotherManager && negb isOutsideTheLineageOfTheOwner
      end
  end.
End Actions.

(** * Facts about the actions

    Every effect of a trigger is permitted by its project, its owner and the lineage of its
    target; the message it sends keeps what a record holds between its markers and inert. *)
Section Permissions.
Context `{JsNumbers} (number_of : Z → number) (isFormat : N → bool) (strip : str → str).
Context (sessions : list Session) (managers : list str) (now : Z) (eventOf : TriggerFire → json) (sendThrows : str → bool).
Local Abbreviation perform_run := (perform_run number_of isFormat strip sessions managers now eventOf sendThrows).

(** The target of an owned trigger is in the lineage of its owner, which is still a manager. *)
Definition in_the_lineage (trigger : TriggerRecord) (session : Session) : Prop :=
  ∀ owner, ownerManagerId (trigger_graph trigger) = Some owner → owner ∈ managers ∧ root_of sessions (session_id session, parentId session) owner.
(** An open session of the project of the trigger, in the lineage of its owner. *)
Definition reachable (trigger : TriggerRecord) (session : Session) : Prop :=
  state session ≠ Closed ∧ session_projectId session = Some (trigger_projectId trigger) ∧ in_the_lineage trigger session.
(** A child of a manager, in the lineage of the owner of the trigger. *)
Definition owned_child (trigger : TriggerRecord) (session : Session) : Prop :=
  is_Some (ownerManagerId (trigger_graph trigger)) ∧ in_the_lineage trigger session ∧ ∃ parent, parentId session = Some parent ∧ parent ∈ managers.
(** The manager the RUN names; when it names none, the parent of the session the event is about or that session, and the owner when the event is about no session. *)
Definition chosen_manager (trigger : TriggerRecord) (fire : TriggerFire) (managerId : option str) (id : str) : Prop :=
  match managerId with
  | Some named => id = named
  | None => event_member (eventOf fire) (js "parentId") = Some id ∨ event_member (eventOf fire) (js "id") = Some id
            ∨ (event_member (eventOf fire) (js "parentId") = None ∧ event_member (eventOf fire) (js "id") = None ∧ ownerManagerId (trigger_graph trigger) = Some id)
  end.
(** What the RUN of a trigger allows one fire to do. *)
Definition permitted (trigger : TriggerRecord) (fire : TriggerFire) (batchSize : nat) (e : Effect) : Prop :=
  match runOf (run_ (trigger_graph trigger)), e with
  | Some (PromptManager managerId prompt), SendMessage id messageId body =>
      messageId = fire_id fire ∧ triggerMessageOf number_of isFormat strip trigger fire (eventOf fire) prompt batchSize = Some body ∧ chosen_manager trigger fire managerId id ∧ id ∈ managers
      ∧ ∃ session, getSession sessions id = Some session ∧ reachable trigger session
  | Some (PromptSession sessionId prompt), SendMessage id messageId body =>
      messageId = fire_id fire ∧ triggerMessageOf number_of isFormat strip trigger fire (eventOf fire) prompt batchSize = Some body ∧ id = sessionId ∧ is_Some (ownerManagerId (trigger_graph trigger))
      ∧ ∃ session, getSession sessions id = Some session ∧ reachable trigger session
  | Some NotifyRun, Announce triggerId fireId => triggerId = trigger_id trigger ∧ fireId = fire_id fire
  | Some (CloseSessionRun sessionId), CloseSession id =>
      id = sessionId ∧ (∃ session minutes, getSession sessions id = Some session ∧ session_projectId session = Some (trigger_projectId trigger) ∧ owned_child trigger session
        ∧ state session = Idle ∧ idleMinutesOf trigger = Some minutes ∧ (minutes * MINUTE_MS ≤ now - stateSince session)%Z)
      ∧ ∃ about eventSession, event_member (eventOf fire) (js "id") = Some about ∧ getSession sessions about = Some eventSession ∧ owned_child trigger eventSession
  | _, _ => False
  end.
Definition lawful (trigger : TriggerRecord) (fire : TriggerFire) (batchSize : nat) (a : option ActionResult * list Effect) : Prop :=
  (∀ e, e ∈ a.2 → permitted trigger fire batchSize e) ∧ length a.2 ≤ 1 ∧ (∀ reason, a.1 = Some (ActionCancelled reason) → a.2 = []).
Lemma lawful_quiet trigger fire n r : lawful trigger fire n (r, []).
Proof. split; [by intros e ?%elem_of_nil|]. split; [simpl; lia|done]. Qed.
Lemma lawful_one trigger fire n e : permitted trigger fire n e → lawful trigger fire n (Some (ActionCompleted None), [e]).
Proof. intros He. split; [by intros e' Hin%list_elem_of_singleton; subst|]. split; [simpl; lia|done]. Qed.
Ltac next_guard E := match goal with |- lawful _ _ _ (if ?b then _ else _) => destruct b eqn:E; [apply lawful_quiet|] end.
Lemma ownerOf_Some trigger owner : ownerOf managers trigger = Some owner → ownerManagerId (trigger_graph trigger) = Some owner ∧ owner ∈ managers.
Proof.
  unfold ownerOf. destruct (ownerManagerId (trigger_graph trigger)) as [o|]; [|done]. simpl. destruct (isManager managers o) eqn:Hm; [|done].
  intros [= <-]. split; [done|]. by apply mem_str_iff.
Qed.
Lemma lineage_of trigger owner session : ownerOf managers trigger = Some owner → isInLineageOf sessions owner session = true → in_the_lineage trigger session.
Proof.
  intros [Ho Hm]%ownerOf_Some Hl%str_eqb_eq owner' Ho'. rewrite Ho in Ho'. injection Ho' as <-. split; [done|]. rewrite <- Hl. apply lineage_root.
Qed.
Lemma open_session trigger session : isOpenSessionOfTheProject trigger session = true → in_the_lineage trigger session → reachable trigger session.
Proof. unfold isOpenSessionOfTheProject. rewrite andb_true_iff, negb_true_iff, bool_decide_eq_false, bool_decide_eq_true. by intros [? ?] ?. Qed.
Lemma child_of trigger owner session : ownerOf managers trigger = Some owner → isChildOfManagerInLineageOf sessions managers owner session = true → owned_child trigger session.
Proof.
  intros Ho Hc. unfold isChildOfManagerInLineageOf in Hc. destruct (parentId session) as [parent|] eqn:Hpar; [|done]. apply andb_true_iff in Hc as [Hpm%mem_str_iff Hl].
  split; [apply ownerOf_Some in Ho as [-> _]; done|]. split; [by eapply lineage_of|]. by exists parent.
Qed.
Lemma candidate trigger fire managerId id :
  id ∈ match managerId with
       | None => sessionIdsOfEvent (eventOf fire) ++ match sessionIdsOfEvent (eventOf fire), ownerOf managers trigger with [], Some owner => [owner] | _, _ => [] end
       | Some m => [m]
       end → chosen_manager trigger fire managerId id.
Proof.
  destruct managerId as [m|]; [by intros ->%list_elem_of_singleton|]. unfold chosen_manager, sessionIdsOfEvent.
  destruct (event_member (eventOf fire) (js "parentId")) as [p|], (event_member (eventOf fire) (js "id")) as [i|]; cbn [app]; rewrite ?elem_of_cons, ?elem_of_nil; try naive_solver.
  destruct (ownerOf managers trigger) as [owner|] eqn:Ho; [|by intros ?%elem_of_nil]. intros ->%list_elem_of_singleton. apply ownerOf_Some in Ho as [-> _]. auto.
Qed.
Lemma lawful_send trigger fire n session message :
  (∀ body, message = Some body → permitted trigger fire n (SendMessage (session_id session) (fire_id fire) body)) → lawful trigger fire n (send sendThrows session message fire).
Proof. intros Hp. unfold send. destruct message as [body|]; [|apply lawful_quiet]. destruct (sendThrows _); [apply lawful_quiet|]. by apply lawful_one, Hp. Qed.
Lemma getSession_self id session : getSession sessions id = Some session → session_id session = id.
Proof. intros Hg. by pose proof (getSession_Some _ _ _ Hg) as [_ <-]. Qed.
Lemma promptManager_lawful trigger fire n managerId prompt : runOf (run_ (trigger_graph trigger)) = Some (PromptManager managerId prompt) →
  lawful trigger fire n (promptManager number_of isFormat strip sessions managers eventOf sendThrows trigger fire n managerId prompt).
Proof.
  intros Hrun. unfold promptManager. next_guard Hgone. destruct (find _ _) as [manager|] eqn:Hfind; [|apply lawful_quiet].
  apply find_some in Hfind as [Hin [Hopen Hman]%andb_true_iff]. apply list_elem_of_In, list_elem_of_omap in Hin as (id & Hc%candidate & Hg).
  pose proof (getSession_self _ _ Hg) as <-. apply mem_str_iff in Hman.
  assert (Hsend : in_the_lineage trigger manager → lawful trigger fire n (send sendThrows manager (triggerMessageOf number_of isFormat strip trigger fire (eventOf fire) prompt n) fire)).
  { intros Hlin. apply lawful_send. intros body Hb. unfold permitted. rewrite Hrun. split_and!; try done. exists manager. split; [done|]. by apply open_session. }
  destruct (ownerOf managers trigger) as [owner|] eqn:Ho.
  - destruct (isInLineageOf sessions owner manager) eqn:Hl; cbn [negb]; [|apply lawful_quiet]. apply Hsend. by eapply lineage_of.
  - apply Hsend. intros owner Howner. rewrite Howner, !bool_decide_true in Hgone by done. done.
Qed.
Lemma promptSession_lawful trigger fire n sessionId prompt : runOf (run_ (trigger_graph trigger)) = Some (PromptSession sessionId prompt) →
  lawful trigger fire n (promptSession number_of isFormat strip sessions managers eventOf sendThrows trigger fire n sessionId prompt).
Proof.
  intros Hrun. unfold promptSession. destruct (ownerOf managers trigger) as [owner|] eqn:Ho; [|apply lawful_quiet].
  destruct (getSession sessions sessionId) as [target|] eqn:Hg; [|apply lawful_quiet]. destruct (isOpenSessionOfTheProject trigger target) eqn:Hopen; cbn [negb]; [|apply lawful_quiet].
  destruct (isInLineageOf sessions owner target) eqn:Hl; cbn [negb]; [|apply lawful_quiet]. pose proof (getSession_self _ _ Hg) as <-.
  apply lawful_send. intros body Hb. unfold permitted. rewrite Hrun. split_and!; try done; [apply ownerOf_Some in Ho as [-> _]; done|]. exists target. split; [done|]. apply open_session; [done|]. by eapply lineage_of.
Qed.
Lemma closeSession_lawful trigger fire n sessionId : runOf (run_ (trigger_graph trigger)) = Some (CloseSessionRun sessionId) →
  lawful trigger fire n (closeSession sessions managers now eventOf trigger fire sessionId).
Proof.
  intros Hrun. unfold closeSession. destruct (ownerOf managers trigger) as [owner|] eqn:Ho; [|apply lawful_quiet].
  destruct (getSession sessions sessionId) as [target|] eqn:Hg; [|apply lawful_quiet].
  destruct (bool_decide_reflect (session_projectId target = Some (trigger_projectId trigger))) as [Hp|]; cbn [andb negb]; [|apply lawful_quiet].
  destruct (isChildOfManagerInLineageOf sessions managers owner target) eqn:Hc; cbn [negb]; [|apply lawful_quiet].
  next_guard Hevent. next_guard Hclosed. next_guard Hidle.
  apply negb_false_iff, andb_true_iff in Hidle as [Hstate%bool_decide_eq_true Hlong]. destruct (idleMinutesOf trigger) as [minutes|] eqn:Hm; [|done]. apply Z.leb_le in Hlong.
  pose proof (getSession_self _ _ Hg) as <-. apply lawful_one. unfold permitted. rewrite Hrun. split; [done|]. split.
  - exists target, minutes. split_and!; try done. by eapply child_of.
  - apply negb_false_iff in Hevent. unfold sessionOfEvent in Hevent. destruct (event_member (eventOf fire) (js "id")) as [about|]; [|done]. cbn in Hevent. destruct (getSession sessions about) as [eventSession|] eqn:Hs; [|done].
    exists about, eventSession. split_and!; try done. by eapply child_of.
Qed.
(** C35. A trigger acts only as its RUN says.  Whatever the event and the tables, a fire has at most one effect and none when it is cancelled.  A prompt of a manager goes to the manager the RUN names, or, when it names none, to the parent of the
    session of the event, to that session or (when the event is about no session) to the owner; it is an open session of the project and a manager.  A prompt of a session goes to the session the RUN names, open, of the project, and only for an owned trigger.
    The target of an owned trigger is in the lineage of its owner, which is still a manager.  The message is the prompt of the RUN in its envelope.  Only the session a RUN names is closed, for an owned trigger, as the child of a manager in the lineage of the owner,
    when the event is about such a child too, after the idle minutes of the trigger.  A notice tells of that trigger and fire. *)
Theorem actions_are_permitted trigger fire batchSize :
  (∀ e, e ∈ (perform_run trigger fire batchSize).2 → permitted trigger fire batchSize e) ∧ length (perform_run trigger fire batchSize).2 ≤ 1 ∧
  (∀ reason, (perform_run trigger fire batchSize).1 = Some (ActionCancelled reason) → (perform_run trigger fire batchSize).2 = []).
Proof.
  change (lawful trigger fire batchSize (perform_run trigger fire batchSize)). unfold TriggerActions.perform_run.
  destruct (runOf (run_ (trigger_graph trigger))) as [[m p| |s p|s| ]|] eqn:Hrun; try apply lawful_quiet;
    [by apply promptManager_lawful|apply lawful_one; unfold permitted; by rewrite Hrun|by apply promptSession_lawful|by apply closeSession_lawful].
Qed.
End Permissions.

(** ** The message *)
Definition is_surrogate (c : N) : bool := is_high_surrogate c || is_low_surrogate c.
Lemma code_points_cons c d s :
  code_points (c :: d :: s) = if is_high_surrogate c && is_low_surrogate d then [c; d] :: code_points s else [c] :: code_points (d :: s).
Proof. done. Qed.
Lemma code_points_ind (P : str → list str → Prop) :
  P [] [] → (∀ c s, P s (code_points s) → P (c :: s) ([c] :: code_points s)) →
  (∀ c d s, is_high_surrogate c = true → is_low_surrogate d = true → P s (code_points s) → P (c :: d :: s) ([c; d] :: code_points s)) → ∀ s, P s (code_points s).
Proof.
  intros Hnil Hone Htwo s. remember (length s) as n eqn:Hn. revert s Hn. induction (lt_wf n) as [n _ IH]. intros s ->.
  destruct s as [|c [|d s]]; [done|apply (Hone c []), Hnil|]. rewrite code_points_cons.
  destruct (is_high_surrogate c) eqn:Hc; cbn [andb]; [destruct (is_low_surrogate d) eqn:Hd|].
  - apply Htwo; [done|done|]. apply (IH (length s)); [simpl; lia|done].
  - apply Hone, (IH (length (d :: s))); [simpl; lia|done].
  - apply Hone, (IH (length (d :: s))); [simpl; lia|done].
Qed.
Lemma concat_code_points s : concat (code_points s) = s.
Proof. apply (code_points_ind (λ s l, concat l = s)); [done| |]; intros; simpl; congruence. Qed.
(** A unit that is no surrogate is a code point of its own. *)
Lemma point_of_unit s point c : point ∈ code_points s → c ∈ point → is_surrogate c = false → point = [c].
Proof.
  apply (code_points_ind (λ _ l, point ∈ l → c ∈ point → is_surrogate c = false → point = [c])); [by intros ?%elem_of_nil| |].
  - intros x s' IH [->|Hp]%elem_of_cons; [|by apply IH]. by intros ->%list_elem_of_singleton.
  - intros x y s' Hx Hy IH [->|Hp]%elem_of_cons; [|by apply IH]. unfold is_surrogate. rewrite !elem_of_cons, elem_of_nil. intros [->|[->|[]]]; [by rewrite Hx|by rewrite Hy, orb_true_r].
Qed.
Lemma points_length s : length s ≤ 2 * length (code_points s) ∧ Forall (λ point, length point ≤ 2) (code_points s).
Proof.
  apply (code_points_ind (λ s l, length s ≤ 2 * length l ∧ Forall (λ point, length point ≤ 2) l)); [split; [done|constructor]| |];
    intros; simpl in *; (split; [lia|]; constructor; [simpl; lia|tauto]).
Qed.
Lemma elem_of_concat (c : N) (ls : list str) : c ∈ concat ls ↔ ∃ l, l ∈ ls ∧ c ∈ l.
Proof.
  induction ls as [|l ls IH]; simpl; [split; [by intros ?%elem_of_nil|by intros (l & ?%elem_of_nil & _)]|]. rewrite elem_of_app, IH.
  setoid_rewrite elem_of_cons. naive_solver.
Qed.
Lemma truncated_elem c text n : c ∈ truncated text n → c ∈ text ∨ c = 8230%N.
Proof.
  unfold truncated. case_bool_decide; [by left|]. intros [Hc|Hc%list_elem_of_singleton]%elem_of_app; [left|by right].
  rewrite <- (concat_code_points text). apply elem_of_concat in Hc as (point & Hp & Hc). apply elem_of_concat. exists point. split; [|done]. by eapply elem_of_take in Hp as (i & Hi%list_elem_of_lookup_2 & _).
Qed.
Lemma truncated_length text n : length (truncated text n) ≤ 2 * n + 1.
Proof.
  unfold truncated. destruct (points_length text) as [Hlen Hall]. case_bool_decide as Hn; [lia|]. rewrite length_app. cbn [length ELLIPSIS].
  assert (Hgo : ∀ ls : list str, Forall (λ point, length point ≤ 2) ls → length (concat ls) ≤ 2 * length ls).
  { clear. intros ls Hls. induction Hls as [|l ls Hl _ IH]; simpl; [lia|]. rewrite length_app. lia. }
  specialize (Hgo (take n (code_points text)) (Forall_take _ _ _ Hall)). rewrite length_take in Hgo. lia.
Qed.
Lemma runs_elem p c points inside : c ∈ concat (runs_to_one_space p inside points) → c = 32%N ∨ ∃ point, point ∈ points ∧ p point = false ∧ c ∈ point.
Proof.
  revert inside. induction points as [|x points IH]; intros inside; cbn [runs_to_one_space]; [by intros ?%elem_of_nil|].
  assert (Hmore : ∀ inside, c ∈ concat (runs_to_one_space p inside points) → c = 32%N ∨ ∃ point, point ∈ x :: points ∧ p point = false ∧ c ∈ point).
  { intros i [->|(q & Hq & Hrest)]%IH; [by left|]. right. exists q. split; [by right|done]. }
  destruct (p x) eqn:Hx; [destruct inside; [by apply Hmore|]|]; cbn [concat]; intros [Hc|Hc]%elem_of_app; try (by eapply Hmore).
  - left. by apply list_elem_of_singleton in Hc.
  - right. exists x. split; [left|done].
Qed.
Lemma replace_points_elem p c text : c ∈ replace_points p text → c = 32%N ∨ ∃ point, point ∈ code_points text ∧ p point = false ∧ c ∈ point.
Proof. apply runs_elem. Qed.

Section Inert.
Context `{JsNumbers} (number_of : Z → number) (isFormat : N → bool).
(** A value taken from a record is one line, without control or format characters, cut short. *)
Lemma inertValueOf_inert v :
  length (inertValueOf isFormat v) ≤ 2 * MAX_TOKEN_VALUE_CHARS + 1 ∧
  ∀ c, c ∈ inertValueOf isFormat v → is_surrogate c = false → isControlCode c = false ∧ (isFormat c = false ∨ c = 32%N ∨ c = 8230%N).
Proof.
  split; [apply truncated_length|]. unfold inertValueOf. set (text := match v with VString s => s | _ => _ end). clearbody text.
  intros c [Hc| ->]%truncated_elem Hs; [|split; [done|by right; right]].
  apply trim_elem, replace_points_elem in Hc as [->|(point & Hp & _ & Hc)]; [split; [done|by right; left]|].
  assert (Hin : c ∈ replace_points (CONTROL_OR_FORMAT isFormat) text) by (rewrite <- (concat_code_points (replace_points _ text)); apply elem_of_concat; eauto).
  apply replace_points_elem in Hin as [->|(q & Hq & Hcf & Hcq)]; [split; [done|by right; left]|]. pose proof (point_of_unit _ _ _ Hq Hcq Hs) as ->.
  unfold CONTROL_OR_FORMAT, point_is, code_of in Hcf. unfold is_surrogate in Hs. rewrite Hs in Hcf. apply orb_false_iff in Hcf as [? ?]. split; [done|by left].
Qed.

Lemma token_at_prefix s written path : token_at s = Some (written, path) → ∃ n, written = take n s.
Proof. unfold token_at. repeat case_match; try done. intros [= <- _]. eauto. Qed.
Lemma replace_tokens_elem fuel value_at c s : c ∈ replace_tokens fuel value_at s → c ∈ s ∨ ∃ path v, value_at path = Some v ∧ c ∈ v.
Proof.
  revert s. induction fuel as [|fuel IH]; intros s; cbn [replace_tokens]; [by left|]. destruct s as [|x s]; [by left|].
  destruct (token_at (x :: s)) as [[written path]|] eqn:Ht.
  - apply token_at_prefix in Ht as [n ->]. intros [Hc|Hc]%elem_of_app.
    + destruct (value_at path) as [v|] eqn:Hv; [right; by exists path, v|left]. cbn [default from_option Datatypes.id] in Hc.
      by apply elem_of_take in Hc as (i & Hi%list_elem_of_lookup_2 & _).
    + apply IH in Hc as [Hc|Hc]; [left|by right]. eapply elem_of_sublist; [exact Hc|apply sublist_drop].
  - intros [->|Hc]%elem_of_cons; [left; left|]. apply IH in Hc as [Hc|Hc]; [left; by right|by right].
Qed.
(** A unit a reader of the terminal can take: no control character but a line break or a tab. *)
Definition readable_unit (c : N) : Prop := is_surrogate c = false → isControlCode c = false ∨ c = LF ∨ c = 9%N.
Lemma promptWithoutControlsOf_readable prompt c : c ∈ promptWithoutControlsOf prompt → readable_unit c.
Proof.
  unfold promptWithoutControlsOf. rewrite elem_of_concat. intros (point & [Hkeep Hp]%list_elem_of_filter & Hc) Hs. pose proof (point_of_unit _ _ _ Hp Hc Hs) as ->.
  destruct Hkeep as [Hk|[[= ->]|[= ->]]]; [left|by right; left|by right; right]. unfold point_is, code_of in Hk. unfold is_surrogate in Hs. by rewrite Hs in Hk.
Qed.
Lemma promptWithTokensOf_readable prompt source event c : c ∈ promptWithTokensOf number_of isFormat prompt source event → readable_unit c.
Proof.
  unfold promptWithTokensOf. intros [Hc| ->]%truncated_elem; [|by left]. apply replace_tokens_elem in Hc as [Hc|(path & v & Hv & Hc)].
  - by eapply promptWithoutControlsOf_readable.
  - case_match; [|done]. injection Hv as <-. intros Hs. left. by apply (proj2 (inertValueOf_inert _)) in Hc as [? _].
Qed.
Lemma normalizeLineEndings_elem c s : c ∈ normalizeLineEndings s → c = LF ∨ c ∈ s ∧ c ≠ CR.
Proof.
  remember (length s) as n eqn:Hn. revert s Hn. induction (lt_wf n) as [n _ IH]. intros s ->. destruct s as [|x s]; [by intros ?%elem_of_nil|].
  cbn [normalizeLineEndings]. destruct (N.eqb_spec x CR) as [->|Hx].
  - destruct s as [|d s]; [intros ->%list_elem_of_singleton; by left|]. destruct (N.eqb d LF).
    + intros [->|Hc]%elem_of_cons; [by left|]. apply (IH (length s)) in Hc as [->|[Hc Hne]]; [by left|right; split; [by do 2 right|done]|simpl; lia|done].
    + intros [->|Hc]%elem_of_cons; [by left|]. apply (IH (length (d :: s))) in Hc as [->|[Hc Hne]]; [by left|right; split; [by right|done]|simpl; lia|done].
  - intros [->|Hc]%elem_of_cons; [right; split; [left|done]|]. apply (IH (length s)) in Hc as [->|[Hc Hne]]; [by left|right; split; [by right|done]|simpl; lia|done].
Qed.
Lemma split_on_elem_of c sep s line : line ∈ split_on sep s → c ∈ line → c ∈ s.
Proof.
  intros Hl Hc. rewrite <- (join_split_on sep s). revert Hl. generalize (split_on sep s) as ls. induction ls as [|x ls IH]; [by intros ?%elem_of_nil|].
  destruct ls as [|y ls]; [by intros ->%list_elem_of_singleton|]. intros [->|Hl]%elem_of_cons; apply elem_of_app; [by left|right]. apply elem_of_app. right. by apply IH.
Qed.
End Inert.

Section Envelope.
Context `{JsNumbers} (number_of : Z → number) (isFormat : N → bool) (strip : str → str).
Hypothesis strip_keeps_markers : ∀ marker, marker ∈ ENVELOPE_MARKERS → strip marker = marker.
(** Nothing of a record leaves the envelope: the first line of the message of a trigger is the header the daemon wrote from ids and
    enumerations, then come the begin marker, the prompt and the end marker; no line between them is a marker, and none
    holds a control character but tabs, whatever the event and the prompt. *)
Theorem records_stay_in_the_envelope trigger fire event prompt batchSize source message :
  sourceOf (when_ (trigger_graph trigger)) = Some source → LF ∉ headerOf trigger fire source batchSize →
  triggerMessageOf number_of isFormat strip trigger fire event prompt batchSize = Some message →
  ∃ inside, split_on LF message = [headerOf trigger fire source batchSize; TRIGGER_MESSAGE_BEGIN] ++ inside ++ [TRIGGER_MESSAGE_END] ∧
    ∀ line, line ∈ inside → line ∉ ENVELOPE_MARKERS ∧ ∀ c, c ∈ line → is_surrogate c = false → isControlCode c = false ∨ c = 9%N.
Proof.
  intros Hsource Hheader. unfold triggerMessageOf. rewrite Hsource. intros [= <-]. unfold wrapTriggerMessage.
  assert (Hfield : splitHeaderField (headerOf trigger fire source batchSize) = (headerOf trigger fire source batchSize, None)).
  { unfold splitHeaderField. by rewrite split_on_no_sep. }
  rewrite Hfield. set (body := normalizeLineEndings (promptWithTokensOf number_of isFormat prompt source event)).
  change (join [LF] (present [None; Some body])) with body. rewrite envelope_lines, neutralize_lines by (try done; apply no_LF_in; reflexivity).
  eexists. split; [done|]. intros line (l & -> & Hl)%list_elem_of_fmap. split; [intros Hm; by eapply neutralized_is_no_marker|].
  intros c Hc Hs. assert (Hcl : c = BACKSLASH ∨ c ∈ l).
  { unfold neutralize_line in Hc. case_match; [|by right]. apply elem_of_cons in Hc as [->|Hc]; [by left|by right]. }
  destruct Hcl as [->|Hcl]; [by left|]. assert (Hlf : c ≠ LF).
  { intros ->. destruct (split_on_lines LF body) as [Hall _]. rewrite list.Forall_forall in Hall. by apply (Hall l). }
  apply (split_on_elem_of _ _ _ _ Hl) in Hcl. apply normalizeLineEndings_elem in Hcl as [->|[Hcl _]]; [done|].
  apply promptWithTokensOf_readable in Hcl. destruct (Hcl Hs) as [?|[?|?]]; [by left|done|by right].
Qed.
End Envelope.

(** ** A concrete trigger: it prompts the manager of a session that went idle, whose name carries a marker and an escape. *)
#[local] Existing Instance integers.
Definition sample_number (n : Z) : number (JsNumbers := integers) := n.
Definition sample_when : json := JObj [(js "source", JStr (js "session_state")); (js "state", JStr (js "idle")); (js "minutes", JNum 10)].
Definition sample_run : json := JObj [(js "kind", JStr (js "prompt_manager")); (js "prompt", JStr (js "Look at {{ event.session.name }}."))].
Definition sample_trigger : TriggerRecord :=
  mkTrigger (js "t1") (js "p") (js "title") (mkGraph (Some (js "m")) sample_when (JArr []) sample_run (mkTriggerPolicy 0 None PerEvent FireAll None)) 1 None None None 0 0.
Definition sample_fire : TriggerFire := mkFire (js "f1") (js "t1") (js "k") Attempted 0 None None None [] [] 1 (Some 0%Z).
Definition hostile_event : json :=
  JObj [(js "session", JObj [(js "id", JStr (js "s1")); (js "parentId", JStr (js "m")); (js "name", JStr ([27%N] ++ js "x" ++ [LF] ++ TRIGGER_MESSAGE_END))])].
Definition sample_sessions : list Session :=
  [mkSession (js "m") (js "boss") [] None (Some (js "p")) Idle 0 None None; mkSession (js "s1") (js "worker") [] (Some (js "m")) (Some (js "p")) Idle 0 None None].
Example hostile_prompt :
  (perform_run sample_number (λ _, false) (λ s, s) sample_sessions [js "m"] 0 (λ _, hostile_event) (λ _, false) sample_trigger sample_fire 1).2 =
  [SendMessage (js "m") (js "f1") (join [LF] [headerOf sample_trigger sample_fire SessionStateSource 1; TRIGGER_MESSAGE_BEGIN;
     BACKSLASH :: js "Look at x " ++ TRIGGER_MESSAGE_END ++ js "."; TRIGGER_MESSAGE_END])].
Proof. vm_compute. reflexivity. Qed.
Lemma records_stay_in_the_envelope_witness : ∃ inside,
  split_on LF (default [] (triggerMessageOf sample_number (λ _, false) (λ s, s) sample_trigger sample_fire hostile_event (js "{{event.session.name}}") 1))
  = [headerOf sample_trigger sample_fire SessionStateSource 1; TRIGGER_MESSAGE_BEGIN] ++ inside ++ [TRIGGER_MESSAGE_END] ∧
  ∀ line, line ∈ inside → line ∉ ENVELOPE_MARKERS ∧ ∀ c, c ∈ line → is_surrogate c = false → isControlCode c = false ∨ c = 9%N.
Proof.
  eapply (records_stay_in_the_envelope sample_number (λ _, false) (λ s, s) (λ _ _, eq_refl) sample_trigger sample_fire hostile_event (js "{{event.session.name}}") 1 SessionStateSource).
  - reflexivity.
  - apply (bool_decide_unpack _). vm_compute. exact I.
  - reflexivity.
Defined.

(** * What a source remembers between two boots

    Model of [packages/core/src/triggers/triggerCursors.ts]: the table [trigger_cursors], one row per
    trigger.  The text of a row is its parsed JSON, or [None] when it is not valid JSON. *)
Definition TABLE_CURSOR_KIND : str := js "table".
Definition CRON_CURSOR_KIND : str := js "cron".
Definition PERMANENT_CURSOR_KINDS : list str := [TABLE_CURSOR_KIND; CRON_CURSOR_KIND].
Definition isPermanentCursor (v : json) : bool :=
  match v with
  | JObj fields => match get fields (js "kind") with Some (JStr kind) => mem_str kind PERMANENT_CURSOR_KINDS | _ => false end
  | _ => false
  end.
Abbreviation cursor_rows := (rec (option json)).
Definition save_cursor (rows : cursor_rows) (triggerId : str) (v : json) : cursor_rows := put rows triggerId (Some v).
Definition read_cursor (rows : cursor_rows) (triggerId : str) : option json := match get rows triggerId with Some v => v | None => None end.
(** The cursors of waits, which the caller owns from then on; the other rows stay. *)
Definition taken (row : str * option json) : option (str * json) :=
  match row.2 with Some v => if isPermanentCursor v then None else Some (row.1, v) | None => None end.
Definition takeAll (rows : cursor_rows) : cursor_rows * list (str * json) :=
  let parsedCursors := omap taken rows in (fold_left del parsedCursors.*1 rows, parsedCursors).

Lemma filter_agree {A} (P Q : A → Prop) `{∀ x, Decision (P x), ∀ x, Decision (Q x)} (l : list A) : (∀ x, x ∈ l → P x ↔ Q x) → filter P l = filter Q l.
Proof.
  induction l as [|x l IH]; intros Hl; [done|]. rewrite !filter_cons. assert (Hx : P x ↔ Q x) by (apply Hl; left). rewrite IH by (intros y Hy; apply Hl; by right).
  do 2 case_decide; tauto.
Qed.
Lemma fold_del_rows {A} (ks : list str) (m : rec A) : fold_left del ks m = filter (λ e : str * A, e.1 ∉ ks) m.
Proof.
  revert m. induction ks as [|k ks IH]; intros m; cbn [fold_left].
  - induction m as [|e m IHm]; [done|]. rewrite filter_cons_True by set_solver. by rewrite <- IHm.
  - rewrite IH. unfold del. rewrite list_filter_filter. apply list_filter_iff. intros e. rewrite not_elem_of_cons. tauto.
Qed.
(** Taking hands over every cursor of a wait, once, and leaves every other row as it was: permanent cursors and corrupted ones. *)
Theorem takeAll_correct rows : NoDup rows.*1 →
  (takeAll rows).2 = omap taken rows ∧ (takeAll rows).1 = filter (λ row, taken row = None) rows ∧ (takeAll (takeAll rows).1).2 = [].
Proof.
  intros Hnd. split; [done|]. assert (Hrest : (takeAll rows).1 = filter (λ row, taken row = None) rows).
  { unfold takeAll. cbn [fst]. rewrite fold_del_rows. apply filter_agree. intros [k v] Hrow. cbn [fst]. rewrite list_elem_of_fmap. split.
    - intros Hout. destruct (taken (k, v)) as [[k' v']|] eqn:Ht; [|done]. destruct Hout. exists (k', v'). split; [|apply list_elem_of_omap; by exists (k, v)].
      unfold taken in Ht. simpl in Ht. destruct v as [j|]; [|done]. destruct (isPermanentCursor j); [done|]. by injection Ht as <- <-.
    - intros Hnone ([k' v'] & -> & Hin). apply list_elem_of_omap in Hin as ([k2 w] & Hin & Ht). assert (k2 = k').
      { unfold taken in Ht. simpl in Ht. destruct w as [j|]; [|done]. destruct (isPermanentCursor j); [done|]. by injection Ht as -> _. }
      subst k2. cbn [fst] in *. assert (w = v) as ->; [|congruence].
      assert (Hg : get rows k' = Some v) by (by apply get_elem). apply get_elem in Hin; [|done]. congruence. }
  split; [done|]. rewrite Hrest. unfold takeAll. cbn [snd]. clear Hrest Hnd. induction rows as [|row rows IH]; [done|].
  rewrite filter_cons. case_decide as Ht; [|exact IH]. cbn. by rewrite Ht.
Qed.
