(* ===== verification/SilentRun.v ===== *)
(** * The silent run source

    Model of [packages/core/src/triggers/silentRunSource.ts]: each armed [silent_run] trigger polls
    the children it watches and offers the engine the ones that generate without a sign of
    life.  What the source reads and calls is the class [SilentWorld]: sessions, managers,
    progress of the processes, armed triggers, causes and [submit], which may throw.  The state of
    the source is its watches, each with its observations and its timer. *)
From S2P Require Import Prelude JsText Regex PolicyTypes PolicyDocument Sorting SessionState Tickets TriggerLedger TriggerEngine PlaybookKernel Conditions TriggerService Lineage TriggerActions.
Open Scope Z_scope.

Definition MAX_NAME_CHARS : nat := 200.
Definition SILENT_RUN_POLL_MS : Z := 30000.
Definition SLEEP_GAP_MS : Z := 4 * SILENT_RUN_POLL_MS.
Definition MAX_OFFERS_PER_TICK : nat := 20.

Record TranscriptCursor := mkTranscriptCursor { identity : str; offset : Z }.
Record RuntimeProgress := mkProgress { launchId : str; hookSequence : Z; transcriptCursor : option TranscriptCursor }.
Record Observation := mkObservation
  { seen_launchId : str; seen_stateSince : Z; seen_hookSequence : Z; seen_transcript : option TranscriptCursor; silentSinceMs : Z; hasBeenOffered : bool }.
Record Watch := mkWatch { lastPollAtMs : Z; observations : gmap str Observation; timerSet : bool }.

(** What the source is given; [submitTo] tells with [false] that the call threw. *)
Class SilentWorld (E : Type) := mkSilentWorld
  { sessionsOf : E → list Session;
    managersOf : E → list str;
    progressOf : E → str → option RuntimeProgress;
    armedOf : E → list TriggerRecord;
    causesIn : E → str → Z → Z → list (str * Z);
    submitTo : E → str → str → json → option Z → E * bool;
    suppressedByCause : E → str → E }.

Definition isSilentRunTrigger (trigger : TriggerRecord) : option Z :=
  match sourceOf (when_ (trigger_graph trigger)) with Some SilentRunSource => when_minutes (when_ (trigger_graph trigger)) | _ => None end.
Definition observationOf (session : Session) (progress : RuntimeProgress) (since : Z) : Observation :=
  mkObservation (launchId progress) (stateSince session) (hookSequence progress) (transcriptCursor progress) since false.
Definition hasTranscriptGrown (before now : option TranscriptCursor) : bool :=
  match before, now with Some b, Some n => str_eqb (identity n) (identity b) && Z.ltb (offset b) (offset n) | _, _ => false end.
Definition transcriptBaseAfter (before now : option TranscriptCursor) : option TranscriptCursor := match now with Some _ => now | None => before end.
Definition showsSignOfLife (o : Observation) (session : Session) (progress : RuntimeProgress) : bool :=
  negb (str_eqb (launchId progress) (seen_launchId o)) || negb (Z.eqb (stateSince session) (seen_stateSince o))
  || Z.ltb (seen_hookSequence o) (hookSequence progress) || hasTranscriptGrown (seen_transcript o) (transcriptCursor progress).
Definition state_text (s : SessionState) : str :=
  match s with
  | Starting => js "starting" | Generating => js "generating" | WaitingPermission => js "waiting_permission" | WaitingInput => js "waiting_input"
  | Idle => js "idle" | Closed => js "closed"
  end.
Definition silentRunEventOf (session : Session) (minutes : Z) : json :=
  JObj [(js "session", JObj ([(js "id", JStr (session_id session)); (js "name", JStr (take MAX_NAME_CHARS (session_name session)))]
    ++ match parentId session with Some p => [(js "parentId", JStr p)] | None => [] end
    ++ [(js "state", JStr (state_text (state session))); (js "minutes", JNum minutes)]))].

Section Source.
Context {E : Type} `{SilentWorld E}.
Variable isoOf : Z → str.

(** A silent run trigger with its minutes. *)
Definition armedSilentRunTriggers (e : E) : list TriggerRecord := filter (λ t, is_Some (isSilentRunTrigger t)) (armedOf e).
Definition armedSilentRun (e : E) (triggerId : str) : option TriggerRecord := find (λ t, str_eqb (trigger_id t) triggerId) (armedSilentRunTriggers e).
Definition causesOfTheSilence (e : E) (session : Session) (o : Observation) (now : Z) : list (str * Z) :=
  causesIn e (session_id session) (silentSinceMs o - CHAIN_CAUSE_WINDOW_MINUTES * MINUTE_MS) now.
Definition dedupKeyOf (session : Session) (since : Z) : str := js "silent_run:" ++ session_id session ++ js ":" ++ isoOf since.

Definition set_base (base : option TranscriptCursor) (o : Observation) : Observation :=
  mkObservation (seen_launchId o) (seen_stateSince o) (seen_hookSequence o) base (silentSinceMs o) (hasBeenOffered o).
Definition set_since (since : Z) (o : Observation) : Observation :=
  mkObservation (seen_launchId o) (seen_stateSince o) (seen_hookSequence o) (seen_transcript o) since (hasBeenOffered o).
Definition set_offered (o : Observation) : Observation :=
  mkObservation (seen_launchId o) (seen_stateSince o) (seen_hookSequence o) (seen_transcript o) (silentSinceMs o) true.

(** One child of a look.  [inr] leaves the loop: by [break] ([true]) or by the exception of [submit] ([false]). *)
Definition look_at (trigger : TriggerRecord) (minutes now : Z) (hasSlept : bool) (session : Session) (e : E) (seen : gmap str Observation) (offersLeft : nat)
  : (E * gmap str Observation * nat) + (E * gmap str Observation * bool) :=
  let id := session_id session in
  match progressOf e id with
  | None => inl (e, base.delete id seen, offersLeft)
  | Some progress =>
      match seen !! id with
      | None => inl (e, <[id := observationOf session progress now]> seen, offersLeft)
      | Some o =>
          if showsSignOfLife o session progress then inl (e, <[id := observationOf session progress now]> seen, offersLeft)
          else
            let o := set_base (transcriptBaseAfter (seen_transcript o) (transcriptCursor progress)) o in
            if hasBeenOffered o then inl (e, <[id := o]> seen, offersLeft)
            else if hasSlept then inl (e, <[id := set_since now o]> seen, offersLeft)
            else if Z.ltb (now - silentSinceMs o) (minutes * MINUTE_MS) then inl (e, <[id := o]> seen, offersLeft)
            else
              match offersLeft with
              | O => inr (e, <[id := o]> seen, true)
              | S remaining =>
                  let seen := <[id := set_offered o]> seen in
                  let causes := causesOfTheSilence e session o now in
                  if existsb (λ cause, str_eqb cause.1 (trigger_id trigger)) causes then inl (suppressedByCause e (trigger_id trigger), seen, offersLeft)
                  else
                    let depth := fold_left Z.max causes.*2 0 in
                    let '(e', ok) := submitTo e (trigger_id trigger) (dedupKeyOf session (silentSinceMs o)) (silentRunEventOf session minutes)
                                       (if Z.ltb 0 depth then Some depth else None) in
                    if ok then inl (e', seen, remaining) else inr (e', seen, false)
              end
      end
  end.
Fixpoint look_loop (trigger : TriggerRecord) (minutes now : Z) (hasSlept : bool) (children : list Session) (e : E) (seen : gmap str Observation) (offersLeft : nat)
  : E * gmap str Observation * bool :=
  match children with
  | [] => (e, seen, true)
  | session :: rest =>
      match look_at trigger minutes now hasSlept session e seen offersLeft with
      | inl (e', seen', remaining) => look_loop trigger minutes now hasSlept rest e' seen' remaining
      | inr done => done
      end
  end.
Definition generatingChildren (e : E) (trigger : TriggerRecord) : list Session :=
  filter (λ s, state s = Generating ∧ isChildInScopeOfTrigger (sessionsOf e) (managersOf e) trigger s = true) (sessionsOf e).
Definition look (e : E) (trigger : TriggerRecord) (minutes : Z) (watch : Watch) (now : Z) : E * Watch * bool :=
  let hasSlept := Z.ltb SLEEP_GAP_MS (now - lastPollAtMs watch) in
  let children := generatingChildren e trigger in
  let generatingIds := session_id <$> children in
  let kept := filter (λ entry, entry.1 ∈ generatingIds) (observations watch) in
  let '(e', seen, ok) := look_loop trigger minutes now hasSlept children e kept MAX_OFFERS_PER_TICK in
  (e', mkWatch now seen (timerSet watch), ok).

(** *** Watches and timers *)
Definition watches := gmap str Watch.
Definition stopWatching (triggerId : str) (w : watches) : watches := base.delete triggerId w.
Definition setTimer (e : E) (triggerId : str) (w : watches) : watches :=
  match w !! triggerId with
  | None => w
  | Some watch =>
      match armedSilentRun e triggerId with
      | None => stopWatching triggerId w
      | Some _ => <[triggerId := mkWatch (lastPollAtMs watch) (observations watch) true]> w
      end
  end.
(** One poll, then the next timer, also when the look throws. *)
Definition poll (e : E) (triggerId : str) (now : Z) (w : watches) : E * watches :=
  match w !! triggerId, armedSilentRun e triggerId with
  | Some watch, Some trigger =>
      match isSilentRunTrigger trigger with
      | Some minutes => let '(e', watch', _) := look e trigger minutes watch now in (e', setTimer e' triggerId (<[triggerId := watch']> w))
      | None => (e, w)
      end
  | _, _ => (e, stopWatching triggerId w)
  end.
(** [startedAt] and [now]: the readings of the clock of the watch and of its first look. *)
Definition startWatching (e : E) (trigger : TriggerRecord) (startedAt now : Z) (w : watches) : E * watches :=
  poll e (trigger_id trigger) now (<[trigger_id trigger := mkWatch startedAt ∅ false]> (stopWatching (trigger_id trigger) w)).
Definition startFromNow (e : E) (trigger : TriggerRecord) (startedAt now : Z) (w : watches) : E * watches :=
  match isSilentRunTrigger trigger with Some _ => startWatching e trigger startedAt now w | None => (e, w) end.
Fixpoint start_all (clock : nat → Z * Z) (i : nat) (armed : list TriggerRecord) (e : E) (w : watches) : E * watches :=
  match armed with
  | [] => (e, w)
  | trigger :: rest => let '(e', w') := startWatching e trigger (clock i).1 (clock i).2 w in start_all clock (S i) rest e' w'
  end.
Definition start (clock : nat → Z * Z) (e : E) (w : watches) : E * watches := start_all clock 0 (armedSilentRunTriggers e) e w.
Definition stop (w : watches) : watches := fold_left (λ w triggerId, stopWatching triggerId w) (map_to_list w).*1 w.
Definition sync (e : E) (triggerId : str) (w : watches) : watches :=
  match armedSilentRun e triggerId with Some _ => w | None => stopWatching triggerId w end.
End Source.

(** * Facts about the watches

    What is offered was silent: behind each offer there is a stretch of polls, none of them late, at the looks of which the
    child was generating in the scope of the trigger and showed no sign of life, as long as the minutes of the trigger; and
    one silence is offered once.  The world may change in any way between two polls and with
    every call of the source. *)
Open Scope Z_scope.

(** ** A world that remembers what was submitted to it *)
#[export] Instance logged_world {E} `{SilentWorld E} : SilentWorld (E * list (str * str)) :=
  {| sessionsOf e := sessionsOf e.1; managersOf e := managersOf e.1; progressOf e := progressOf e.1; armedOf e := armedOf e.1; causesIn e := causesIn e.1;
     submitTo e triggerId key event cause := let '(e', ok) := submitTo e.1 triggerId key event cause in ((e', e.2 ++ [(triggerId, key)]), ok);
     suppressedByCause e triggerId := (suppressedByCause e.1 triggerId, e.2) |}.

Section Looks.
Context {E : Type} `{SilentWorld E} (isoOf : Z → str) (trigger : TriggerRecord) (minutes : Z).
Abbreviation poll_of := (E * Z)%type.

(** The worlds the calls of a look may lead to. *)
Inductive during (e : E) : E → Prop :=
  | during_refl : during e e
  | during_submit e' triggerId key event cause : during e e' → during e (submitTo e' triggerId key event cause).1
  | during_suppress e' triggerId : during e e' → during e (suppressedByCause e' triggerId).
(** At a look the child [id] generates in the scope of the trigger and its process, turn and hooks are the ones observed. *)
Definition reads_quiet (id : str) (o : Observation) (p : poll_of) (progress : RuntimeProgress) : Prop :=
  ∃ session e', session ∈ generatingChildren p.1 trigger ∧ session_id session = id ∧ during p.1 e' ∧ progressOf e' id = Some progress ∧
    launchId progress = seen_launchId o ∧ stateSince session = seen_stateSince o ∧ hookSequence progress ≤ seen_hookSequence o.
(** Looks without a sign of life, and the cursor the next one is compared with. *)
Inductive quiet (id : str) (o : Observation) : list poll_of → option TranscriptCursor → Prop :=
  | quiet_first p progress base : reads_quiet id o p progress → quiet id o [p] (transcriptBaseAfter base (transcriptCursor progress))
  | quiet_next looks base p progress : quiet id o looks base → reads_quiet id o p progress → hasTranscriptGrown base (transcriptCursor progress) = false →
      quiet id o (looks ++ [p]) (transcriptBaseAfter base (transcriptCursor progress)).
(** Polls none of which comes later than [SLEEP_GAP_MS] after the one before. *)
Definition awake (polls : list poll_of) : Prop := ∀ before a b after, polls = before ++ a :: b :: after → b.2 - a.2 ≤ SLEEP_GAP_MS.
Definition increasing (polls : list poll_of) : Prop := ∀ before a b after, polls = before ++ a :: b :: after → a.2 < b.2.
(** The silence of an observation: the polls since it began, the looks at the child among them. *)
Definition silence (id : str) (o : Observation) (base : option TranscriptCursor) (since : Z) (polls : list poll_of) : Prop :=
  ∃ looks, looks `sublist_of` polls ∧ head looks = head polls ∧ (∃ e, head polls = Some (e, since)) ∧ awake polls ∧ quiet id o looks base.

Lemma quiet_nonempty id o looks base : quiet id o looks base → looks ≠ [].
Proof. destruct 1 as [|looks base p progress _ _ _]; [done|]. by destruct looks. Qed.
Lemma awake_snoc polls p q : awake polls → list.last polls = Some q → p.2 - q.2 ≤ SLEEP_GAP_MS → awake (polls ++ [p]).
Proof.
  intros Haw Hlast Hgap before a b after Heq. destruct after as [|x after _] using rev_ind.
  - assert (Hpre : polls = before ++ [a] ∧ p = b).
    { change (before ++ a :: [b]) with (before ++ [a] ++ [b]) in Heq. rewrite app_assoc in Heq. apply app_inj_tail in Heq. naive_solver. }
    destruct Hpre as [-> ->]. rewrite last_snoc in Hlast. injection Hlast as <-. done.
  - replace (before ++ a :: b :: after ++ [x]) with ((before ++ a :: b :: after) ++ [x]) in Heq by (by rewrite <- app_assoc).
    apply app_inj_tail in Heq as [-> _]. by eapply Haw.
Qed.
Lemma awake_one p : awake [p].
Proof. intros before a b after Heq. by destruct before as [|? [|? ?]]. Qed.
Lemma silence_last id o base since polls : silence id o base since polls → ∃ q, list.last polls = Some q.
Proof. intros (looks & _ & _ & (e & Hh) & _). destruct polls as [|p polls]; [done|]. destruct (list.last (p :: polls)) eqn:Hl; [eauto|]. by apply last_None in Hl. Qed.
(** A poll at which the child is not looked at. *)
Lemma silence_skip id o base since polls p q : silence id o base since polls → list.last polls = Some q → p.2 - q.2 ≤ SLEEP_GAP_MS → silence id o base since (polls ++ [p]).
Proof.
  intros (looks & Hsub & Hhead & Hsince & Haw & Hq) Hlast Hgap. exists looks. split; [by apply sublist_inserts_r|].
  assert (Hpolls : head (polls ++ [p]) = head polls) by (by destruct polls). rewrite Hpolls. split; [done|]. split; [done|]. split; [by eapply awake_snoc|done].
Qed.
Lemma silence_next id o base since polls p q progress :
  silence id o base since polls → list.last polls = Some q → p.2 - q.2 ≤ SLEEP_GAP_MS → reads_quiet id o p progress → hasTranscriptGrown base (transcriptCursor progress) = false →
  silence id o (transcriptBaseAfter base (transcriptCursor progress)) since (polls ++ [p]).
Proof.
  intros (looks & Hsub & Hhead & Hsince & Haw & Hq) Hlast Hgap Hread Hgrow. exists (looks ++ [p]). split; [by apply sublist_app|].
  destruct looks as [|l looks]; [by apply quiet_nonempty in Hq|]. destruct polls as [|x polls]; [done|].
  split; [exact Hhead|]. split; [exact Hsince|]. split; [by eapply awake_snoc|by apply quiet_next].
Qed.
Lemma silence_start id o base since p progress : p.2 = since → reads_quiet id o p progress → silence id o (transcriptBaseAfter base (transcriptCursor progress)) since [p].
Proof.
  intros Hp Hread. exists [p]. split; [done|]. split; [done|]. split; [exists p.1; simpl; f_equal; by destruct p as [e t]; simpl in *; subst|]. split; [apply awake_one|by apply quiet_first].
Qed.

(** *** One look *)
Definition key_of (id : str) (since : Z) : str * str := (trigger_id trigger, js "silent_run:" ++ id ++ js ":" ++ isoOf since).
(** A silence behind an observation not offered yet, and behind an offer. *)
Definition justified (h : list poll_of) (id : str) (o : Observation) : Prop :=
  hasBeenOffered o = false → ∃ before polls, h = before ++ polls ∧ silence id o (seen_transcript o) (silentSinceMs o) polls.
Definition offered (h : list poll_of) (k : str * str) : Prop :=
  ∃ before polls after id o base since p progress, h = before ++ polls ++ after ∧ silence id o base since polls ∧ list.last polls = Some p ∧
    reads_quiet id o p progress ∧ minutes * MINUTE_MS ≤ p.2 - since ∧ k = key_of id since.
Lemma quiet_same id o o' looks base :
  seen_launchId o' = seen_launchId o → seen_stateSince o' = seen_stateSince o → seen_hookSequence o' = seen_hookSequence o → quiet id o looks base → quiet id o' looks base.
Proof.
  intros H1 H2 H3. assert (Hr : ∀ p progress, reads_quiet id o p progress → reads_quiet id o' p progress) by (intros p progress; unfold reads_quiet; by rewrite H1, H2, H3).
  induction 1; [by apply quiet_first; auto|]. apply quiet_next; auto.
Qed.
Lemma silence_same id o o' base since polls :
  seen_launchId o' = seen_launchId o → seen_stateSince o' = seen_stateSince o → seen_hookSequence o' = seen_hookSequence o → silence id o base since polls → silence id o' base since polls.
Proof. intros H1 H2 H3 (looks & Hs & Hh & Hsince & Ha & Hq). exists looks. split_and!; try done. by eapply quiet_same. Qed.
Lemma offered_later h p k : offered h k → offered (h ++ [p]) k.
Proof.
  intros (before & polls & after & id & o & base & since & q & progress & -> & Hrest). exists before, polls, (after ++ [p]), id, o, base, since, q, progress.
  split; [by rewrite <- !app_assoc|done].
Qed.

Context (h : list poll_of) (lastAt : Z) (e0 : E) (now : Z).
Context (Hlast : ∀ q, list.last h = Some q → q.2 = lastAt).
Abbreviation slept := (Z.ltb SLEEP_GAP_MS (now - lastAt)).
Abbreviation h' := (h ++ [(e0, now)]).
Lemma last_of_suffix before polls q : h = before ++ polls → list.last polls = Some q → q.2 = lastAt.
Proof. intros Hh Hq. apply Hlast. rewrite Hh, last_app, Hq. done. Qed.
Lemma justified_skip id o : slept = false → justified h id o → justified h' id o.
Proof.
  intros Hs%Z.ltb_ge Hj Hoff. destruct (Hj Hoff) as (before & polls & Hh & Hsil). destruct (silence_last _ _ _ _ _ Hsil) as [q Hq].
  exists before, (polls ++ [(e0, now)]). split; [by rewrite Hh, app_assoc|]. eapply silence_skip; [done|done|]. rewrite (last_of_suffix _ _ _ Hh Hq). exact Hs.
Qed.
Lemma justified_new id session progress e' : session ∈ generatingChildren e0 trigger → session_id session = id → during e0 e' → progressOf e' id = Some progress →
  justified h' id (observationOf session progress now).
Proof.
  intros Hin Hid Hd Hp _. exists h, [(e0, now)]. split; [done|].
  replace (seen_transcript _) with (transcriptBaseAfter None (transcriptCursor progress)) by (simpl; by destruct (transcriptCursor progress)).
  apply silence_start; [done|]. exists session, e'. split_and!; done.
Qed.
Section Child.
Context (session : Session) (e : E) (progress : RuntimeProgress) (o : Observation).
Context (Hin : session ∈ generatingChildren e0 trigger) (Hd : during e0 e) (Hp : progressOf e (session_id session) = Some progress).
Context (Hsign : showsSignOfLife o session progress = false).
Definition based : Observation := set_base (transcriptBaseAfter (seen_transcript o) (transcriptCursor progress)) o.
Lemma no_sign : reads_quiet (session_id session) o (e0, now) progress ∧ hasTranscriptGrown (seen_transcript o) (transcriptCursor progress) = false.
Proof.
  unfold showsSignOfLife in Hsign. rewrite !orb_false_iff, !negb_false_iff in Hsign. destruct Hsign as [[[H1%str_eqb_eq H2%Z.eqb_eq] H3%Z.ltb_ge] H4].
  split; [|done]. exists session, e. split_and!; done.
Qed.
Lemma justified_woken : justified h' (session_id session) (set_since now based).
Proof.
  intros _. exists h, [(e0, now)]. split; [done|]. destruct no_sign as [Hread _]. apply (silence_same _ o); [done..|]. by apply silence_start.
Qed.
Lemma silent_now : slept = false → justified h (session_id session) o → hasBeenOffered o = false →
  ∃ before polls, h' = before ++ polls ∧ list.last polls = Some (e0, now) ∧ silence (session_id session) o (seen_transcript based) (silentSinceMs o) polls.
Proof.
  intros Hs%Z.ltb_ge Hj Hoff. destruct (Hj Hoff) as (before & polls & Hh & Hsil). destruct (silence_last _ _ _ _ _ Hsil) as [q Hq]. destruct no_sign as [Hread Hgrow].
  exists before, (polls ++ [(e0, now)]). split; [by rewrite Hh, app_assoc|]. split; [by rewrite last_snoc|].
  eapply silence_next; [done|done| |done|done]. rewrite (last_of_suffix _ _ _ Hh Hq). exact Hs.
Qed.
Lemma justified_quiet : slept = false → justified h (session_id session) o → justified h' (session_id session) based.
Proof.
  intros Hs Hj Hoff. destruct (silent_now Hs Hj Hoff) as (before & polls & Hh & _ & Hsil). exists before, polls. split; [done|]. by apply (silence_same _ o).
Qed.
Lemma offered_now : slept = false → justified h (session_id session) o → hasBeenOffered o = false → minutes * MINUTE_MS ≤ now - silentSinceMs o →
  offered h' (key_of (session_id session) (silentSinceMs o)).
Proof.
  intros Hs Hj Hoff Hlong. destruct (silent_now Hs Hj Hoff) as (before & polls & Hh & Hl & Hsil). destruct no_sign as [Hread _].
  exists before, polls, [], (session_id session), o, (seen_transcript based), (silentSinceMs o), (e0, now), progress. rewrite app_nil_r. done.
Qed.
End Child.

(** The silences known before the look began at [bound] or earlier. *)
Context (bound : Z).
(** The state of a look: the children still to look at, the world with its log, the observations, and the silences offered. *)
Record in_look (pending : list str) (w : E * list (str * str)) (seen : gmap str Observation) (pairs : list (str * Z)) : Prop := mkInLook
  { look_during : during e0 w.1;
    look_pending : ∀ id o, id ∈ pending → seen !! id = Some o → justified h id o ∧ silentSinceMs o ≤ bound;
    look_done : ∀ id o, id ∉ pending → seen !! id = Some o → justified h' id o ∧ silentSinceMs o ≤ now;
    look_log : w.2 = (λ x, key_of x.1 x.2) <$> pairs;
    look_offered : ∀ k, k ∈ w.2 → offered h' k;
    look_once : NoDup pairs;
    look_bound : ∀ id since, (id, since) ∈ pairs → since ≤ bound;
    look_order : ∀ id since o, (id, since) ∈ pairs → seen !! id = Some o → if hasBeenOffered o then since ≤ silentSinceMs o else since < silentSinceMs o }.
Context (Hclock : bound < now).
Lemma looked id pending w w' seen seen' pairs :
  in_look (id :: pending) w seen pairs → id ∉ pending → (∀ j, j ≠ id → seen' !! j = seen !! j) → w'.2 = w.2 → during e0 w'.1 →
  (∀ o, seen' !! id = Some o → justified h' id o ∧ silentSinceMs o ≤ now ∧
     ∀ since, (id, since) ∈ pairs → if hasBeenOffered o then since ≤ silentSinceMs o else since < silentSinceMs o) →
  in_look pending w' seen' pairs.
Proof.
  intros [Hdur Hpend Hdone Hlog Hoff Honce Hbound Horder] Hid Hsame Hw Hdur' Hnew. split; rewrite ?Hw; try done.
  - intros j o Hj Ho. assert (j ≠ id) by congruence. rewrite Hsame in Ho by done. apply Hpend; [by right|done].
  - intros j o Hj Ho. destruct (decide (j = id)) as [->|Hne]; [by destruct (Hnew o Ho) as (? & ? & _)|]. rewrite Hsame in Ho by done.
    apply Hdone; [|done]. rewrite not_elem_of_cons. done.
  - intros j since o Hin Ho. destruct (decide (j = id)) as [->|Hne]; [by apply (Hnew o Ho)|]. rewrite Hsame in Ho by done. by eapply Horder.
Qed.
Lemma looked_offer id pending w e' seen o pairs :
  in_look (id :: pending) w seen pairs → id ∉ pending → during e0 e' → offered h' (key_of id (silentSinceMs o)) → hasBeenOffered o = true → silentSinceMs o ≤ bound →
  (∀ since, (id, since) ∈ pairs → since < silentSinceMs o) →
  in_look pending (e', w.2 ++ [key_of id (silentSinceMs o)]) (<[id := o]> seen) (pairs ++ [(id, silentSinceMs o)]).
Proof.
  intros Hl Hid Hdur' Hnew Ho Hle Hlt. assert (Hl' : in_look pending (e', w.2) (<[id := o]> seen) pairs).
  { eapply looked; [done|done|intros j Hj; by rewrite lookup_insert_ne by done|done|done|]. intros o'. rewrite lookup_insert_eq. intros [= <-].
    split; [intros Hno; congruence|]. split; [lia|]. intros since Hin%Hlt. rewrite Ho. lia. }
  destruct Hl' as [Hdur Hpend Hdone Hlog Hoff Honce Hbound Horder]. split; try done; cbn [fst snd] in *.
  - rewrite fmap_app, Hlog. done.
  - intros k [Hk|Hk%list_elem_of_singleton]%elem_of_app; [by apply Hoff|by subst].
  - apply list.NoDup_app. split; [done|]. split; [|apply list.NoDup_singleton]. intros [j since] Hin Heq%list_elem_of_singleton. injection Heq as -> ->. apply Hlt in Hin. lia.
  - intros j since [Hin|Heq%list_elem_of_singleton]%elem_of_app; [by eapply Hbound|]. by injection Heq as -> ->.
  - intros j since o' [Hin|Heq%list_elem_of_singleton]%elem_of_app Hget; [by eapply Horder|]. injection Heq as -> ->. rewrite lookup_insert_eq in Hget. injection Hget as <-. by rewrite Ho.
Qed.
Lemma look_at_keeps session pending w seen pairs offersLeft :
  in_look (session_id session :: pending) w seen pairs → session_id session ∉ pending → session ∈ generatingChildren e0 trigger →
  match look_at isoOf trigger minutes now slept session w seen offersLeft with
  | inl (w', seen', _) => ∃ pairs', in_look pending w' seen' pairs'
  | inr (w', seen', _) => slept = false ∧ ∃ pairs', in_look pending w' seen' pairs'
  end.
Proof.
  intros Hl Hid Hin. pose proof Hl as [Hdur Hpend _ _ _ _ Hbound Horder]. unfold look_at. set (id := session_id session) in *. cbn [progressOf logged_world].
  assert (Hput : ∀ o', justified h' id o' ∧ silentSinceMs o' ≤ now ∧ (∀ since, (id, since) ∈ pairs → if hasBeenOffered o' then since ≤ silentSinceMs o' else since < silentSinceMs o') →
    in_look pending w (<[id := o']> seen) pairs).
  { intros o' Ho'. eapply looked; [done|done|intros j Hj; by rewrite lookup_insert_ne by done|done|done|]. intros o. rewrite lookup_insert_eq. by intros [= <-]. }
  destruct (progressOf w.1 id) as [progress|] eqn:Hp.
  2: { exists pairs. eapply looked; [done|done|intros j Hj; by rewrite lookup_delete_ne by done|done|done|]. intros o. by rewrite lookup_delete_eq. }
  assert (Hfresh : in_look pending w (<[id := observationOf session progress now]> seen) pairs).
  { apply Hput. split; [by eapply justified_new|]. simpl. split; [lia|]. intros since Hs%Hbound. lia. }
  destruct (seen !! id) as [o|] eqn:Ho; [|by exists pairs]. destruct (Hpend id o) as [Hj Hsince]; [left|done|].
  destruct (showsSignOfLife o session progress) eqn:Hsign; [by exists pairs|]. cbn [hasBeenOffered set_base silentSinceMs].
  fold (based progress o). pose proof (λ since Hs, Horder id since o Hs Ho) as Hord.
  destruct (hasBeenOffered o) eqn:Hoff; [exists pairs; apply Hput; split; [intros Hno; simpl in Hno; congruence|]; simpl; rewrite Hoff; split; [lia|done]|].
  destruct slept eqn:Hslept; [exists pairs; apply Hput; split; [by eapply justified_woken|]; simpl; rewrite Hoff; split; [lia|]; intros since Hs%Hbound; lia|].
  assert (Hquiet : in_look pending w (<[id := based progress o]> seen) pairs) by (apply Hput; split; [by eapply justified_quiet|]; simpl; rewrite Hoff; split; [lia|done]).
  destruct (Z.ltb_spec (now - silentSinceMs o) (minutes * MINUTE_MS)) as [|Hlong]; [by exists pairs|]. destruct offersLeft as [|remaining]; [split; [done|by exists pairs]|].
  match goal with |- context [if existsb ?f ?l then _ else _] => destruct (existsb f l) end.
  - exists pairs. eapply looked; [done|done|intros j Hj'; by rewrite lookup_insert_ne by done|done|by apply during_suppress|]. intros o'. rewrite lookup_insert_eq. intros [= <-].
    split; [by intros|]. simpl. split; [lia|]. intros since Hs%Hord. lia.
  - cbn [submitTo logged_world]. match goal with |- context [submitTo w.1 ?a ?b ?c ?d] => pose proof (during_submit e0 w.1 a b c d Hdur) as Hdur'; destruct (submitTo w.1 a b c d) as [e' ok] end.
    assert (Hoffer : in_look pending (e', w.2 ++ [key_of id (silentSinceMs o)]) (<[id := set_offered (based progress o)]> seen) (pairs ++ [(id, silentSinceMs o)])).
    { apply (looked_offer id pending w e' seen (set_offered (based progress o)) pairs); [done|done|exact Hdur'|exact (offered_now session w.1 progress o Hin Hdur Hp Hsign Hslept Hj Hoff Hlong)|done|simpl; lia|]. intros since Hs%Hord. simpl. lia. }
    destruct ok; [by exists (pairs ++ [(id, silentSinceMs o)])|split; [done|by exists (pairs ++ [(id, silentSinceMs o)])]].
Qed.
Lemma look_loop_keeps children w seen pairs offersLeft :
  Forall (λ session, session ∈ generatingChildren e0 trigger) children → NoDup (session_id <$> children) → in_look (session_id <$> children) w seen pairs →
  let '(w', seen', _) := look_loop isoOf trigger minutes now slept children w seen offersLeft in ∃ pairs', in_look [] w' seen' pairs'.
Proof.
  revert w seen pairs offersLeft. induction children as [|session children IH]; intros w seen pairs offersLeft Hall Hnd Hl; cbn [look_loop]; [by exists pairs|].
  apply list.Forall_cons in Hall as [Hin Hall]. csimpl in Hnd. csimpl in Hl. apply list.NoDup_cons in Hnd as [Hid Hnd].
  pose proof (look_at_keeps session (session_id <$> children) w seen pairs offersLeft Hl Hid Hin) as Hone.
  destruct (look_at _ _ _ _ _ _ _ _ _) as [[[w' seen'] remaining]|[[w' seen'] ok]].
  - destruct Hone as [pairs' Hl']. by eapply IH.
  - destruct Hone as [Hslept [pairs' [Hdur Hpend Hdone Hlog Hoff Honce Hbound Horder]]]. exists pairs'. split; try done; [by intros id o ?%elem_of_nil|].
    intros id o _ Ho. destruct (decide (id ∈ (session_id <$> children))) as [Hin'|Hout]; [|by apply Hdone].
    destruct (Hpend id o Hin' Ho) as [Hj Hs]. split; [by apply justified_skip|lia].
Qed.
End Looks.

(** ** A history of polls *)
Section History.
Context {E : Type} `{SilentWorld E} (isoOf : Z → str) (trigger : TriggerRecord) (minutes : Z).
Local Abbreviation poll_of := (E * Z)%type.
(** The polls of one watch, in the worlds they find, and what they submit. *)
Definition poll_step (st : Watch * list (str * str)) (p : poll_of) : Watch * list (str * str) :=
  let '(w, watch, _) := look isoOf (p.1, st.2) trigger minutes st.1 p.2 in (watch, w.2).
Definition polled (startedAt : Z) (polls : list poll_of) : Watch * list (str * str) := fold_left poll_step polls (mkWatch startedAt ∅ false, []).
Record between (h : list poll_of) (bound : Z) (st : Watch * list (str * str)) (pairs : list (str * Z)) : Prop := mkBetween
  { between_last : ∀ q, list.last h = Some q → q.2 = lastPollAtMs st.1;
    between_seen : ∀ id o, observations st.1 !! id = Some o → justified trigger h id o ∧ silentSinceMs o ≤ bound;
    between_log : st.2 = (λ x, key_of isoOf trigger x.1 x.2) <$> pairs;
    between_offered : ∀ k, k ∈ st.2 → offered isoOf trigger minutes h k;
    between_once : NoDup pairs;
    between_bound : ∀ id since, (id, since) ∈ pairs → since ≤ bound;
    between_order : ∀ id since o, (id, since) ∈ pairs → observations st.1 !! id = Some o → if hasBeenOffered o then since ≤ silentSinceMs o else since < silentSinceMs o }.
Lemma poll_step_keeps h bound st pairs p :
  between h bound st pairs → bound < p.2 → NoDup (session_id <$> sessionsOf p.1) → ∃ pairs', between (h ++ [p]) p.2 (poll_step st p) pairs'.
Proof.
  destruct st as [watch log], p as [e now]. intros [Hlast Hseen Hlog Hoff Honce Hbound Horder] Hclock Hids. simpl in *. unfold poll_step, look. cbn [fst snd].
  change (generatingChildren (e, log) trigger) with (generatingChildren e trigger).
  set (kept := filter _ (observations watch)). assert (Hkept : ∀ id o, kept !! id = Some o → observations watch !! id = Some o ∧ id ∈ (session_id <$> generatingChildren e trigger)).
  { intros id o Ho. unfold kept in Ho. by apply map_lookup_filter_Some in Ho as [? ?]. }
  assert (Hl : in_look isoOf trigger minutes h e now bound (session_id <$> generatingChildren e trigger) (e, log) kept pairs).
  { split; cbn [fst snd]; try done.
    - apply during_refl.
    - intros id o _ [Ho _]%Hkept. by apply Hseen.
    - intros id o Hout [_ Hin]%Hkept. done.
    - intros k Hk. by apply offered_later, Hoff.
    - intros id since o Hin [Ho _]%Hkept. by eapply Horder. }
  assert (Hall : Forall (λ session, session ∈ generatingChildren e trigger) (generatingChildren e trigger)) by (by apply list.Forall_forall).
  assert (Hnd : NoDup (session_id <$> generatingChildren e trigger)).
  { eapply sublist_NoDup; [exact Hids|]. apply fmap_sublist, sublist_filter. }
  pose proof (look_loop_keeps isoOf trigger minutes h (lastPollAtMs watch) e now Hlast bound Hclock _ (e, log) kept pairs MAX_OFFERS_PER_TICK Hall Hnd Hl) as Hgo.
  destruct (look_loop _ _ _ _ _ _ _ _ _) as [[w' seen'] ok]. destruct Hgo as [pairs' [_ _ Hdone Hlog' Hoff' Honce' Hbound' Horder']]. exists pairs'. split; cbn [fst snd]; try done.
  - intros q. rewrite last_snoc. by intros [= <-].
  - intros id o Ho. apply Hdone; [apply not_elem_of_nil|done].
  - intros id since Hin%Hbound'. lia.
Qed.
Definition unique_sessions (p : poll_of) : Prop := NoDup (session_id <$> sessionsOf p.1).
Lemma polled_keeps startedAt polls : increasing polls → Forall unique_sessions polls →
  ∃ bound pairs, between polls bound (polled startedAt polls) pairs ∧ ∀ q, list.last polls = Some q → bound = q.2.
Proof.
  induction polls as [|p polls IH] using rev_ind; intros Hinc Hids.
  - exists 0, []. split; [|done]. split; simpl; try done; try (by constructor); intros; exfalso; by eapply not_elem_of_nil.
  - apply list.Forall_app in Hids as [Hids Hp]. apply list.Forall_cons in Hp as [Hp _]. destruct IH as (bound & pairs & Hb & Hlast); [|done|].
    { intros before a b after ->. apply (Hinc before a b (after ++ [p])). by rewrite <- app_assoc. }
    unfold polled. rewrite fold_left_app. cbn [fold_left]. fold (polled startedAt polls).
    assert (Hready : ∃ bound, between polls bound (polled startedAt polls) pairs ∧ bound < p.2).
    { destruct polls as [|q polls _] using rev_ind.
      - exists (p.2 - 1). split; [|lia]. destruct Hb as [H1 H2 H3 H4 H5 H6 H7]. cbn in *. assert (pairs = []) as -> by (by destruct pairs). split; try done; intros; exfalso; by eapply not_elem_of_nil.
      - exists bound. split; [done|]. rewrite (Hlast q) by (by rewrite last_snoc). apply (Hinc polls q p []). by rewrite <- app_assoc. }
    destruct Hready as (bound' & Hb' & Hlt). destruct (poll_step_keeps polls bound' _ pairs p Hb' Hlt Hp) as [pairs' Hb'']. exists p.2, pairs'.
    split; [done|]. intros q. rewrite last_snoc. by intros [= <-].
Qed.
(** What is offered was silent.  Through any polls of a watch, in any worlds, each submitted key is the one of a child and of the start of a
    silence: polls none of which came late, from that start to the offer, as long as the minutes of the trigger; at the
    first and at the last, and at each one that looked at the child, it was generating in the scope of the trigger with the same
    process and turn, no new hook and no growth of its transcript. *)
Theorem offered_children_were_silent startedAt polls k :
  increasing polls → Forall unique_sessions polls → k ∈ (polled startedAt polls).2 → offered isoOf trigger minutes polls k.
Proof. intros Hinc Hids Hk. destruct (polled_keeps startedAt polls Hinc Hids) as (bound & pairs & Hb & _). by apply (between_offered _ _ _ _ Hb). Qed.
(** A silence is offered once: no key is submitted twice through any polls of a watch ([toISOString] gives texts of one length, one per
    instant). *)
Theorem a_silence_is_offered_once startedAt polls :
  (∀ t t', isoOf t = isoOf t' → t = t') → (∀ t t', length (isoOf t) = length (isoOf t')) → increasing polls → Forall unique_sessions polls →
  NoDup (polled startedAt polls).2.
Proof.
  intros Hinj Hlen Hinc Hids. destruct (polled_keeps startedAt polls Hinc Hids) as (bound & pairs & [_ _ -> _ Honce _ _] & _).
  apply NoDup_fmap_2; [|done]. intros [id since] [id' since']. unfold key_of. cbn [fst snd]. intros Heq. apply (f_equal snd) in Heq. cbn [snd] in Heq.
  apply app_inv_head in Heq. rewrite !app_assoc in Heq. apply app_inj_2 in Heq as [Hid Hiso]; [|apply Hlen]. apply Hinj in Hiso as ->. apply (inj (.++ js ":")) in Hid. by subst.
Qed.
End History.

(** ** A concrete watch: a child that generates without a sign of life, polled every thirty seconds for a trigger of one minute. *)
Definition sample_graph : ApprovedGraph :=
  mkGraph None (JObj [(js "source", JStr (js "silent_run")); (js "minutes", JNum 1)]) (JArr []) (JObj [(js "kind", JStr (js "notify"))]) (mkTriggerPolicy 0 None PerEvent FireAll None).
Definition sample_trigger : TriggerRecord := mkTrigger (js "t1") (js "p") (js "title") sample_graph 1 (Some 0) (Some 1) (Some []) 0 0.
Definition sample_sessions : list Session :=
  [mkSession (js "m") (js "boss") [] None (Some (js "p")) Idle 0 None None; mkSession (js "s1") (js "worker") [] (Some (js "m")) (Some (js "p")) Generating 5 None None].
#[local] Instance sample_world : SilentWorld unit :=
  {| sessionsOf _ := sample_sessions; managersOf _ := [js "m"]; progressOf _ _ := Some (mkProgress (js "l") 7 None); armedOf _ := [sample_trigger];
     causesIn _ _ _ _ := []; submitTo e _ _ _ _ := (e, true); suppressedByCause e _ := e |}.
Definition sample_iso (t : Z) : str := [Npos (encode t)].
Definition sample_polls : list (unit * Z) := [((), 1000); ((), 31000); ((), 61000); ((), 91000)].
Lemma sample_increasing : increasing sample_polls.
Proof.
  intros before a b after Heq. destruct before as [|x1 [|x2 [|x3 [|x4 [|x5 before]]]]]; unfold sample_polls in Heq; simplify_eq/=; lia.
Qed.
Lemma sample_unique : Forall unique_sessions sample_polls.
Proof. repeat constructor; apply (bool_decide_unpack _); vm_compute; exact I. Qed.
Lemma offered_children_were_silent_witness :
  offered sample_iso sample_trigger 1 sample_polls (key_of sample_iso sample_trigger (js "s1") 1000).
Proof.
  apply (offered_children_were_silent sample_iso sample_trigger 1 1000 sample_polls); [apply sample_increasing|apply sample_unique|].
  apply (bool_decide_unpack _). vm_compute. exact I.
Defined.
Lemma a_silence_is_offered_once_witness : NoDup (polled sample_iso sample_trigger 1 1000 sample_polls).2.
Proof.
  apply a_silence_is_offered_once; [|reflexivity|apply sample_increasing|apply sample_unique]. intros t t' [= Heq]. by apply (inj encode).
Defined.
