(* ===== verification/TableSource.v ===== *)
(** * The table source

    Model of [packages/core/src/triggers/tableSource.ts]: the changes of a data store, read from the
    cursor of a trigger page by page and offered to the engine.  What the source reads and
    calls is the class [TableWorld]; a call of the engine may throw and may change anything, the
    history of the store included.  An exception leaves the state as it is at that
    point.  A write made by a call of the engine is noted for the trigger being polled
    ([note_writes]); the polls of other triggers it causes are polls of their own.  The [value] of
    a row count is an integer, as every number of a stored document is here. *)
From S2P Require Import Prelude JsText Regex PolicyTypes PolicyDocument Sorting Tickets TriggerLedger TriggerEngine PlaybookKernel Conditions TriggerService SessionState Lineage TriggerActions.

Definition CHANGES_PER_PAGE : nat := 200.
Definition MAX_PAGES_PER_RUN : nat := 10.
Definition MAX_OFFERS_PER_RUN : nat := 500.

(** ** Data *)
Inductive DsRowChange := Creation | Deletion | OtherKind (kind : str) | CellDiff (cells : list (str * (json * json))).
Record DsRowHistoryEntry := mkEntry
  { seq : Z; entry_id : str; rowId : str; byAgent : bool; actorLabel : str; change : DsRowChange; createdAt : str }.
Inductive StoreEvent := NewMatchingRows | RowCount | RowUpdated.
#[export] Instance StoreEvent_eq_dec : EqDecision StoreEvent.
Proof. solve_decision. Defined.
Inductive RowCountOp := CountEq | CountGt | CountGte | CountLt | CountLte.
Record TableWhen := mkTableWhen { storeId : str; store_event : StoreEvent; count_op : option RowCountOp; count_value : option Z }.
Definition event_of_text (s : str) : option StoreEvent :=
  get [(js "new_matching_rows", NewMatchingRows); (js "row_count", RowCount); (js "row_updated", RowUpdated)] s.
Definition op_of_text (s : str) : option RowCountOp :=
  get [(js "eq", CountEq); (js "gt", CountGt); (js "gte", CountGte); (js "lt", CountLt); (js "lte", CountLte)] s.
(** The stored [when] of a trigger passed [DataStoreQueryWhenSchema]. *)
Definition tableWhenOf (trigger : TriggerRecord) : option TableWhen :=
  let w := when_ (trigger_graph trigger) in
  match sourceOf w with
  | Some DataStoreQuerySource =>
      store ← when_text w (js "storeId"); event ← when_text w (js "event") ≫= event_of_text;
      Some (mkTableWhen store event (when_text w (js "op") ≫= op_of_text) (match when_field w (js "value") with Some (JNum n) => Some n | _ => None end))
  | _ => None
  end.
Record TableCursor := mkTableCursor { cursor_seq : Z; cursor_count : Z; cursor_tooLarge : Z }.
Definition isCount (v : option json) : option Z :=
  match v with Some (JNum n) => if Z.leb 0 n && Z.leb n MAX_SAFE_INTEGER then Some n else None | _ => None end.
Definition isTableCursor (v : json) : option TableCursor :=
  match v with
  | JObj fields =>
      if bool_decide (stored_text fields (js "kind") = Some TABLE_CURSOR_KIND) then
        s ← isCount (get fields (js "seq")); c ← isCount (get fields (js "count")); t ← isCount (get fields (js "tooLarge")); Some (mkTableCursor s c t)
      else None
  | _ => None
  end.
Definition json_of_cursor (c : TableCursor) : json :=
  JObj [(js "kind", JStr TABLE_CURSOR_KIND); (js "seq", JNum (cursor_seq c)); (js "count", JNum (cursor_count c)); (js "tooLarge", JNum (cursor_tooLarge c))].

Definition isCreation (c : DsRowChange) : bool := match c with Creation => true | _ => false end.
Definition isDeletion (c : DsRowChange) : bool := match c with Deletion => true | _ => false end.
Definition cellsOf (c : DsRowChange) : option (list (str * (json * json))) := match c with CellDiff cells => Some cells | _ => None end.
Definition COMPARISONS (op : RowCountOp) (count value : Z) : bool :=
  match op with
  | CountEq => Z.eqb count value | CountGt => Z.ltb value count | CountGte => Z.leb value count | CountLt => Z.ltb count value | CountLte => Z.leb count value
  end.
Definition rowCountChangeOf (c : DsRowChange) : Z := if isCreation c then 1 else if isDeletion c then -1 else 0.
Definition actorLabelOf (session : Session) : str := emoji session ++ js " " ++ session_name session.

(** ** The world *)
Class TableWorld (E : Type) := mkTableWorld
  { storeProject : E → str → option str;
    historyIn : E → str → list DsRowHistoryEntry;
    rowIn : E → str → str → option (rec json);
    countRowsIn : E → str → Z;
    armedIn : E → list TriggerRecord;
    sessionsIn : E → list Session;
    causesOfSessions : E → list str → Z → Z → list (str * Z);
    submitOffer : E → str → Offer → E * bool;
    submitOffers : E → str → list Offer → E * bool;
    suppressedBy : E → str → E }.
(** What the source holds: cursors, catch-ups, ticks to come, triggers being polled and changed meanwhile, subscription. *)
Record source := mkTableSource
  { cursors : cursor_rows; catchUps : gmap str Z; pendingTicks : gset str; polling : gset str; changedWhilePolling : gset str; subscribed : bool }.

Section Source.
Context {E : Type} `{TableWorld E} `{JsNumbers}.
Variable number_of : Z → number.
Variable toLowerCase : str → str.
(** [JSON.stringify] of an event and [Date.parse] ([None] is [NaN]). *)
Variable stringify : json → str.
Variable dateParse : str → option Z.

Definition changesAfter (e : E) (store : str) (after : Z) (limit : nat) : list DsRowHistoryEntry :=
  take limit (filter (λ c, (after < seq c)%Z) (historyIn e store)).
Definition latestSeq (e : E) (store : str) : Z := fold_left Z.max (seq <$> historyIn e store) 0%Z.
Definition armedTableTriggers (e : E) : list TriggerRecord := filter (λ t, is_Some (tableWhenOf t)) (armedIn e).
Definition isStoreOfTheProject (e : E) (trigger : TriggerRecord) (w : TableWhen) : bool := bool_decide (storeProject e (storeId w) = Some (trigger_projectId trigger)).
Definition cursorOf (s : source) (trigger : TriggerRecord) : option TableCursor := read_cursor (cursors s) (trigger_id trigger) ≫= isTableCursor.

(** *** The author of a change *)
Fixpoint climb_authors (fuel : nat) (e : E) (projectId : str) (current : option Session) (found : list str) : list str :=
  match fuel, current with
  | S fuel', Some session =>
      if bool_decide (session_projectId session = Some projectId) && negb (mem_str (session_id session) found)
      then climb_authors fuel' e projectId (parentId session ≫= getSession (sessionsIn e)) (found ++ [session_id session])
      else found
  | _, _ => found
  end.
Definition authorSessionIdsOf (e : E) (label projectId : str) : list str :=
  let namesakes := filter (λ s, session_projectId s = Some projectId ∧ actorLabelOf s = label) (sessionsIn e) in
  fold_left (λ found s, climb_authors (S (length (sessionsIn e))) e projectId (Some s) found) namesakes [].
Record Causes := mkCauses { causing : list str; causes_depth : Z }.
Definition causesRead (e : E) (c : DsRowHistoryEntry) (projectId : str) : Causes :=
  let authorIds := authorSessionIdsOf e (actorLabel c) projectId in
  let causes := match dateParse (createdAt c), authorIds with
                | Some writtenAtMs, _ :: _ => causesOfSessions e authorIds (writtenAtMs - CHAIN_CAUSE_WINDOW_MINUTES * MINUTE_MS) writtenAtMs
                | _, _ => []
                end in
  mkCauses causes.*1 (fold_left Z.max causes.*2 0%Z).
Definition cause_key (c : DsRowHistoryEntry) : str := actorLabel c ++ js "|" ++ createdAt c.
Definition causesOf (e : E) (c : DsRowHistoryEntry) (projectId : str) (cache : rec Causes) : Causes * rec Causes :=
  if negb (byAgent c) then (mkCauses [] 0, cache)
  else
    match get cache (cause_key c) with
    | Some known => (known, cache)
    | None => let result := causesRead e c projectId in (result, put cache (cause_key c) result)
    end.

(** *** The event of a change *)
Definition eventOf (e : E) (w : TableWhen) (c : DsRowHistoryEntry) (countBefore countAfter : Z) : option json :=
  let store := (js "store", JObj [(js "id", JStr (storeId w))]) in
  match store_event w with
  | RowCount =>
      let hasCrossed := match count_op w, count_value w with Some op, Some value => COMPARISONS op countAfter value && negb (COMPARISONS op countBefore value) | _, _ => false end in
      if hasCrossed then Some (JObj [store; (js "row", JObj [(js "count", JNum countAfter)])]) else None
  | event =>
      let isWanted := match event with NewMatchingRows => isCreation (change c) | _ => bool_decide (is_Some (cellsOf (change c))) end in
      if negb isWanted then None
      else
        match rowIn e (rowId c) (storeId w) with
        | None => None
        | Some data =>
            let previous := match cellsOf (change c) with Some cells => [(js "previous", JObj ((λ cell, (cell.1, cell.2.1)) <$> cells))] | None => [] end in
            Some (JObj ([store; (js "row", JObj (spread [(js "id", JStr (rowId c))] data))] ++ previous))
        end
  end.

(** *** A page *)
Record Walk := mkWalk { walk_world : E; walk_offers : list Offer; walk_cache : rec Causes; walk_count : Z; walk_tooLarge : Z }.
Definition dedupKeyOf (w : TableWhen) (c : DsRowHistoryEntry) : str :=
  match store_event w with RowCount => js "row_count:" ++ String_of_Z (seq c) | _ => js "row:" ++ entry_id c end.
Definition walk_change (trigger : TriggerRecord) (w : TableWhen) (st : Walk) (c : DsRowHistoryEntry) : Walk :=
  let '(mkWalk e offers cache count tooLarge) := st in
  let countAfter := (count + rowCountChangeOf (change c))%Z in
  match eventOf e w c count countAfter with
  | None => mkWalk e offers cache countAfter tooLarge
  | Some event =>
      let '(causes, cache') := causesOf e c (trigger_projectId trigger) cache in
      if mem_str (trigger_id trigger) (causing causes) then mkWalk (suppressedBy e (trigger_id trigger)) offers cache' countAfter tooLarge
      else if bool_decide (MAX_EVENT_JSON_CHARS < length (stringify event)) then mkWalk e offers cache' countAfter (tooLarge + 1)
      else
        let depth := if Z.ltb 0 (causes_depth causes) then Some (causes_depth causes) else None in
        mkWalk e (offers ++ [mkOffer (dedupKeyOf w c) event (default 0%Z (dateParse (createdAt c))) depth]) cache' countAfter tooLarge
  end.
(** [changes.at(-1)!.seq]: a page is never empty. *)
Definition last_seq (from : Z) (changes : list DsRowHistoryEntry) : Z := match list.last changes with Some c => seq c | None => from end.
Definition walk (trigger : TriggerRecord) (w : TableWhen) (e : E) (from : TableCursor) (changes : list DsRowHistoryEntry) : E * list Offer * TableCursor :=
  let st := fold_left (walk_change trigger w) changes (mkWalk e [] [] (cursor_count from) (cursor_tooLarge from)) in
  (walk_world st, walk_offers st, mkTableCursor (last_seq (cursor_seq from) changes) (walk_count st) (walk_tooLarge st)).

(** *** Changes of the state of the source *)
Definition set_cursor (triggerId : str) (c : TableCursor) (s : source) : source :=
  mkTableSource (save_cursor (cursors s) triggerId (json_of_cursor c)) (catchUps s) (pendingTicks s) (polling s) (changedWhilePolling s) (subscribed s).
Definition set_catchUps (m : gmap str Z) (s : source) : source := mkTableSource (cursors s) m (pendingTicks s) (polling s) (changedWhilePolling s) (subscribed s).
Definition set_ticks (t : gset str) (s : source) : source := mkTableSource (cursors s) (catchUps s) t (polling s) (changedWhilePolling s) (subscribed s).
Definition set_polling (p : gset str) (s : source) : source := mkTableSource (cursors s) (catchUps s) (pendingTicks s) p (changedWhilePolling s) (subscribed s).
Definition set_changed (c : gset str) (s : source) : source := mkTableSource (cursors s) (catchUps s) (pendingTicks s) (polling s) c (subscribed s).
Definition endCatchUp (triggerId : str) (s : source) : source := set_catchUps (base.delete triggerId (catchUps s)) s.

Definition startFromNow (trigger : TriggerRecord) (e : E) (s : source) : source :=
  match tableWhenOf trigger with
  | None => s
  | Some w =>
      if negb (isStoreOfTheProject e trigger w) then s
      else
        let s := endCatchUp (trigger_id trigger) s in
        let previous := cursorOf s trigger in
        let newest := Z.max (default 0%Z (cursor_seq <$> previous)) (latestSeq e (storeId w)) in
        set_cursor (trigger_id trigger) (mkTableCursor newest (countRowsIn e (storeId w)) (default 0%Z (cursor_tooLarge <$> previous))) s
  end.

(** A write recorded while the trigger is polled, as the listener notes it: the history of the store grew during a call. *)
Definition note_writes (trigger : TriggerRecord) (w : TableWhen) (before after : E) (s : source) : source :=
  let grew := bool_decide (length (historyIn before (storeId w)) < length (historyIn after (storeId w))) in
  let isListening := subscribed s && existsb (λ t, str_eqb (trigger_id t) (trigger_id trigger) && bool_decide (storeId <$> tableWhenOf t = Some (storeId w))) (armedIn after) in
  if grew && isListening && bool_decide (catchUps s !! trigger_id trigger = None) then set_changed (changedWhilePolling s ∪ {[trigger_id trigger]}) s else s.
Fixpoint submit_all (trigger : TriggerRecord) (w : TableWhen) (offers : list Offer) (e : E) (s : source) : E * source * bool :=
  match offers with
  | [] => (e, s, true)
  | offer :: rest =>
      let '(e', ok) := submitOffer e (trigger_id trigger) offer in
      let s' := note_writes trigger w e e' s in
      if ok then submit_all trigger w rest e' s' else (e', s', false)
  end.
Definition offer (trigger : TriggerRecord) (w : TableWhen) (offers : list Offer) (isBacklog : bool) (e : E) (s : source) : E * source * bool :=
  if isBacklog then
    match offers with
    | [] => (e, s, true)
    | _ => let '(e', ok) := submitOffers e (trigger_id trigger) offers in (e', note_writes trigger w e e' s, ok)
    end
  else submit_all trigger w offers e s.
(** [evaluateConditions] on the event of an offer; [None] when it throws. *)
Definition passesTheConditions (trigger : TriggerRecord) (o : Offer) : option bool :=
  l ← conditions_of_json (conditions (trigger_graph trigger));
  match evaluateConditions toLowerCase (kernelConditionsOf number_of l) (VObject [(js "event", value_of_json number_of (offer_event o))]) with
  | Returns b => Some b
  | Throws _ => None
  end.
Fixpoint latest_passing (trigger : TriggerRecord) (offers : list Offer) (latest : option Offer) : option (option Offer) :=
  match offers with
  | [] => Some latest
  | o :: rest => b ← passesTheConditions trigger o; latest_passing trigger rest (if b : bool then Some o else latest)
  end.

(** *** One run *)
Record Run := mkRun { run_cursor : TableCursor; run_latest : option Offer; run_holding : bool; run_offersLeft : nat }.
Inductive Ending := EndReached | BudgetSpent | Thrown.
Definition offerTheLatestOfTheCatchUp (trigger : TriggerRecord) (w : TableWhen) (r : Run) (e : E) (s : source) : E * source * Run * bool :=
  if negb (run_holding r) then (e, s, r, true)
  else
    let '(e', s', ok) := offer trigger w (match run_latest r with Some o => [o] | None => [] end) true e s in
    if ok then (e', set_cursor (trigger_id trigger) (run_cursor r) s', mkRun (run_cursor r) None false (run_offersLeft r), true) else (e', s', r, false).
Fixpoint read_pages (trigger : TriggerRecord) (w : TableWhen) (pagesLeft : nat) (r : Run) (e : E) (s : source) : E * source * Run * Ending :=
  match pagesLeft, run_offersLeft r with
  | O, _ | _, O => (e, s, r, BudgetSpent)
  | S pages, S _ =>
      let catchUpEnd := catchUps s !! trigger_id trigger in
      let isCatchingUp := match catchUpEnd with Some end_ => Z.ltb (cursor_seq (run_cursor r)) end_ | None => false end in
      let '(e1, s1, r1, ok) :=
        if bool_decide (is_Some catchUpEnd) && negb isCatchingUp then
          let '(e1, s1, r1, ok) := offerTheLatestOfTheCatchUp trigger w r e s in (e1, if ok : bool then endCatchUp (trigger_id trigger) s1 else s1, r1, ok)
        else (e, s, r, true) in
      if negb ok then (e1, s1, r1, Thrown)
      else
        let keepsOnlyTheLatestOffer := isCatchingUp && bool_decide (backlogPolicy (policy (trigger_graph trigger)) = FireLatestOnly) in
        let pageSize := if keepsOnlyTheLatestOffer then CHANGES_PER_PAGE else Nat.min CHANGES_PER_PAGE (run_offersLeft r1) in
        let changesRead := changesAfter e1 (storeId w) (cursor_seq (run_cursor r1)) pageSize in
        let changes := if isCatchingUp then filter (λ c, match catchUpEnd with Some end_ => Z.leb (seq c) end_ | None => true end = true) changesRead else changesRead in
        match changes with
        | [] => (e1, s1, r1, EndReached)
        | _ =>
            let '(e2, offers, cursor) := walk trigger w e1 (run_cursor r1) changes in
            if keepsOnlyTheLatestOffer then
              match latest_passing trigger offers (run_latest r1) with
              | Some latest => read_pages trigger w pages (mkRun cursor latest true (run_offersLeft r1)) e2 s1
              | None => (e2, s1, r1, Thrown)
              end
            else
              let '(e3, s3, ok) := offer trigger w offers isCatchingUp e2 s1 in
              if ok then
                read_pages trigger w pages (mkRun cursor (run_latest r1) (run_holding r1) (run_offersLeft r1 - length offers)) e3 (set_cursor (trigger_id trigger) cursor s3)
              else (e3, s3, r1, Thrown)
        end
  end.
Definition continueOnTheNextTick (triggerId : str) (s : source) : source := set_ticks (pendingTicks s ∪ {[triggerId]}) s.
Definition readChangesOf (trigger : TriggerRecord) (w : TableWhen) (e : E) (s : source) : E * source * bool :=
  if negb (isStoreOfTheProject e trigger w) then (e, endCatchUp (trigger_id trigger) s, true)
  else
    match cursorOf s trigger with
    | None => (e, startFromNow trigger e s, true)
    | Some cursor =>
        let '(e1, s1, r1, ending) := read_pages trigger w MAX_PAGES_PER_RUN (mkRun cursor None false MAX_OFFERS_PER_RUN) e s in
        match ending with
        | Thrown => (e1, s1, false)
        | _ =>
            let '(e2, s2, _, ok) := offerTheLatestOfTheCatchUp trigger w r1 e1 s1 in
            if negb ok then (e2, s2, false)
            else
              match ending with
              | EndReached => (e2, endCatchUp (trigger_id trigger) s2, true)
              | _ =>
                  let s3 := match catchUps s2 !! trigger_id trigger with
                            | Some _ => s2
                            | None => set_catchUps (<[trigger_id trigger := latestSeq e2 (storeId w)]> (catchUps s2)) s2
                            end in
                  (e2, continueOnTheNextTick (trigger_id trigger) s3, true)
              end
        end
    end.

(** *** Polls *)
(** [do ... while]: [rounds] bounds the turns a run of writes by the engine itself can cause. *)
Fixpoint poll_rounds (rounds : nat) (trigger : TriggerRecord) (w : TableWhen) (e : E) (s : source) : E * source :=
  match rounds with
  | O => (e, s)
  | S rounds' =>
      let '(e', s', ok) := readChangesOf trigger w e (set_changed (changedWhilePolling s ∖ {[trigger_id trigger]}) s) in
      if ok && bool_decide (trigger_id trigger ∈ changedWhilePolling s') then poll_rounds rounds' trigger w e' s' else (e', s')
  end.
Definition poll (rounds : nat) (trigger : TriggerRecord) (fromWrite : bool) (e : E) (s : source) : E * source :=
  match tableWhenOf trigger with
  | None => (e, s)
  | Some w =>
      if fromWrite && bool_decide (is_Some (catchUps s !! trigger_id trigger)) then (e, s)
      else if bool_decide (trigger_id trigger ∈ polling s) then (e, set_changed (changedWhilePolling s ∪ {[trigger_id trigger]}) s)
      else
        let '(e', s') := poll_rounds rounds trigger w e (set_polling (polling s ∪ {[trigger_id trigger]}) s) in
        (e', set_polling (polling s' ∖ {[trigger_id trigger]}) s')
  end.
Definition pollStore (rounds : nat) (store : str) (e : E) (s : source) : E * source :=
  fold_left (λ st trigger, poll rounds trigger true st.1 st.2) (filter (λ t, storeId <$> tableWhenOf t = Some store) (armedTableTriggers e)) (e, s).
(** The callback of a tick. *)
Definition tick (rounds : nat) (triggerId : str) (e : E) (s : source) : E * source :=
  let s := set_ticks (pendingTicks s ∖ {[triggerId]}) s in
  match find (λ t, str_eqb (trigger_id t) triggerId) (armedTableTriggers e) with
  | None => (e, endCatchUp triggerId s)
  | Some trigger => poll rounds trigger false e s
  end.
Definition start_trigger (rounds : nat) (st : E * source) (trigger : TriggerRecord) : E * source :=
  let '(e, s) := st in
  match tableWhenOf trigger with
  | None => st
  | Some w =>
      let newest := latestSeq e (storeId w) in
      let s := match cursorOf s trigger with
               | Some cursor => if Z.ltb (cursor_seq cursor) newest then set_catchUps (<[trigger_id trigger := newest]> (catchUps s)) s else s
               | None => s
               end in
      poll rounds trigger false e s
  end.
Definition start (rounds : nat) (e : E) (s : source) : E * source :=
  fold_left (start_trigger rounds) (armedTableTriggers e)
    (e, mkTableSource (cursors s) (catchUps s) (pendingTicks s) (polling s) (changedWhilePolling s) true).
Definition stop (s : source) : source := mkTableSource (cursors s) ∅ ∅ (polling s) (changedWhilePolling s) false.
End Source.
