(* ===== verification/TableSourceFacts.v ===== *)
(** * The table source: facts

    The world changes freely between the calls of the source and during them: rows come and go, sessions are renamed, the
    engine writes to the store it is fired from.  Whatever happens, what the cursor of a trigger has
    passed was judged in a world the source met, and what was due was handed to the engine. *)
From stdpp Require Import sorting.
From S2P Require Import Prelude JsText Regex PolicyTypes PolicyDocument Sorting Tickets TriggerLedger TriggerEngine PlaybookKernel Conditions TriggerService SessionState Lineage TriggerActions TableSource.
Open Scope Z_scope.

(** ** A world that remembers
    The world now, the worlds met so far, the offers of the submissions that returned, and the triggers whose submissions threw. *)
Record met (E : Type) := mkMet { now : E; worlds : list E; accepted : list (str * Offer); refused : list str }.
Arguments mkMet {E}. Arguments now {E}. Arguments worlds {E}. Arguments accepted {E}. Arguments refused {E}.
Definition meets {E} (e' : E) (m : met E) : met E := mkMet e' (worlds m ++ [e']) (accepted m) (refused m).
Definition submitted {E} (u : str) (os : list Offer) (r : E * bool) (m : met E) : met E * bool :=
  (mkMet r.1 (worlds m ++ [r.1]) (if r.2 then accepted m ++ ((λ o, (u, o)) <$> os) else accepted m) (if r.2 then refused m else refused m ++ [u]), r.2).
#[export] Instance met_world {E} `{TableWorld E} : TableWorld (met E) :=
  {| storeProject m := storeProject (now m); historyIn m := historyIn (now m); rowIn m := rowIn (now m); countRowsIn m := countRowsIn (now m);
     armedIn m := armedIn (now m); sessionsIn m := sessionsIn (now m); causesOfSessions m := causesOfSessions (now m);
     submitOffer m u o := submitted u [o] (submitOffer (now m) u o) m;
     submitOffers m u os := submitted u os (submitOffers (now m) u os) m;
     suppressedBy m u := meets (suppressedBy (now m) u) m |}.
Definition offered_to {E} (u : str) (m : met E) : list Offer := (filter (λ p : str * Offer, p.1 = u) (accepted m)).*2.

Lemma offered_app {E} u t (os : list Offer) (m m' : met E) : accepted m' = accepted m ++ ((λ o, (t, o)) <$> os) →
  offered_to u m' = offered_to u m ++ (if decide (t = u) then os else []).
Proof.
  intros Heq. unfold offered_to. rewrite Heq, list.filter_app, fmap_app. f_equal. clear Heq. induction os as [|o os IH]; [by case_decide|].
  rewrite fmap_cons, filter_cons. cbn [fst]. case_decide; [|exact IH]. rewrite fmap_cons. cbn [snd]. by rewrite IH.
Qed.
Lemma bar_inj (x : N) (a a' b b' : str) : x ∉ b → x ∉ b' → a ++ x :: b = a' ++ x :: b' → a = a' ∧ b = b'.
Proof.
  revert a'. induction a as [|y a IH]; intros [|y' a'] Hb Hb' [=]; subst; [done|set_solver..|].
  destruct (IH a') as [-> ->]; done.
Qed.
Lemma filter_all {A} (P : A → Prop) `{∀ x, Decision (P x)} (l : list A) : (∀ x, x ∈ l → P x) → filter P l = l.
Proof. induction l as [|x l IH]; intros Hl; [done|]. rewrite filter_cons_True by (apply Hl; left). f_equal. apply IH. intros y Hy. apply Hl. by right. Qed.
Lemma filter_none {A} (P : A → Prop) `{∀ x, Decision (P x)} (l : list A) : (∀ x, x ∈ l → ¬ P x) → filter P l = [].
Proof. induction l as [|x l IH]; intros Hl; [done|]. rewrite filter_cons_False by (apply Hl; left). apply IH. intros y Hy. apply Hl. by right. Qed.
Lemma bool_decide_iff P Q `{Decision P, Decision Q} : bool_decide P = bool_decide Q → P ↔ Q.
Proof. intros Heq. do 2 case_bool_decide; done. Qed.

Section Reading.
Context {E : Type} `{TableWorld E} `{JsNumbers} (number_of : Z → number) (toLowerCase : str → str) (stringify : json → str) (dateParse : str → option Z).

(** ** What a change is worth
    Read in one world for the event and in one for the author, as the source may do. *)
Inductive verdict := NotAwaited | OwnEffect | TooLarge | Due (o : Offer).
Definition judge (trigger : TriggerRecord) (w : TableWhen) (e e' : E) (count : Z) (c : DsRowHistoryEntry) : verdict :=
  match eventOf e w c count (count + rowCountChangeOf (change c)) with
  | None => NotAwaited
  | Some event =>
      let causes := if byAgent c then causesRead dateParse e' c (trigger_projectId trigger) else mkCauses [] 0 in
      if mem_str (trigger_id trigger) (causing causes) then OwnEffect
      else if bool_decide (MAX_EVENT_JSON_CHARS < length (stringify event))%nat then TooLarge
      else Due (mkOffer (dedupKeyOf w c) event (default 0 (dateParse (createdAt c))) (if Z.ltb 0 (causes_depth causes) then Some (causes_depth causes) else None))
  end.
Definition count_after (count : Z) (changes : list DsRowHistoryEntry) : Z := fold_left (λ n c, n + rowCountChangeOf (change c)) changes count.
(** The verdicts of the changes of a journal, each read in worlds that were met and hold the change. *)
Inductive judged (trigger : TriggerRecord) (w : TableWhen) (met_worlds : list E) : Z → list DsRowHistoryEntry → list verdict → Prop :=
  | judged_nil count : judged trigger w met_worlds count [] []
  | judged_cons count c rest e e' v vs : e ∈ met_worlds → e' ∈ met_worlds → c ∈ historyIn e (storeId w) → c ∈ historyIn e' (storeId w) →
      judge trigger w e e' count c = v → judged trigger w met_worlds (count + rowCountChangeOf (change c)) rest vs →
      judged trigger w met_worlds count (c :: rest) (v :: vs).
Definition due_of (vs : list verdict) : list Offer := omap (λ v, match v with Due o => Some o | _ => None end) vs.
Definition large_in (vs : list verdict) : Z := Z.of_nat (length (filter (λ v, match v with TooLarge => true | _ => false end = true) vs)).
(** Of the offers that are due, those that are handed over.  Only a trigger that fires the latest of a backlog drops one: when its conditions do not
    hold for it, or for a later one that is handed over and for which they hold. *)
Definition fires_latest (trigger : TriggerRecord) : Prop := backlogPolicy (policy (trigger_graph trigger)) = FireLatestOnly.
Inductive thinned (trigger : TriggerRecord) : list Offer → list Offer → Prop :=
  | thinned_nil : thinned trigger [] []
  | thinned_keep o os ks : thinned trigger os ks → thinned trigger (o :: os) (o :: ks)
  | thinned_drop o os ks : fires_latest trigger → thinned trigger os ks →
      (passesTheConditions number_of toLowerCase trigger o = Some false ∨ ∃ o' ks', ks = o' :: ks' ∧ passesTheConditions number_of toLowerCase trigger o' = Some true) →
      thinned trigger (o :: os) ks.

Lemma judged_more trigger w ws ws' count l vs : ws ⊆ ws' → judged trigger w ws count l vs → judged trigger w ws' count l vs.
Proof. intros Hsub. induction 1 as [|count c rest e e' v vs He He' Hc Hc' Hv _ IH]; [constructor|]. apply (judged_cons _ _ _ _ _ _ e e'); [by apply Hsub..|done|done|done|done]. Qed.
Lemma judged_app trigger w ws count a b va vb : judged trigger w ws count a va → judged trigger w ws (count_after count a) b vb → judged trigger w ws count (a ++ b) (va ++ vb).
Proof. induction 1 as [|count c rest e e' v vs He He' Hc Hc' Hv _ IH]; intros Hb; [done|]. cbn [app]. apply (judged_cons _ _ _ _ _ _ e e'); try done. by apply IH. Qed.
Lemma count_after_app count a b : count_after count (a ++ b) = count_after (count_after count a) b.
Proof. apply fold_left_app. Qed.
Lemma due_app va vb : due_of (va ++ vb) = due_of va ++ due_of vb.
Proof. apply omap_app. Qed.
Lemma large_app va vb : large_in (va ++ vb) = large_in va + large_in vb.
Proof. unfold large_in. rewrite list.filter_app, length_app. lia. Qed.
Lemma large_bound trigger w ws count l vs : judged trigger w ws count l vs → 0 ≤ large_in vs ≤ Z.of_nat (length l).
Proof. induction 1 as [|count c rest e e' v vs He He' Hc Hc' Hv _ IH]; [done|]. unfold large_in in *. rewrite filter_cons. cbn [length]. case_decide; cbn [length]; lia. Qed.
Lemma thinned_app trigger a b ka kb : thinned trigger a ka → thinned trigger b kb → thinned trigger (a ++ b) (ka ++ kb).
Proof.
  induction 1 as [|o os ks _ IH|o os ks Hf _ IH Hd]; intros Hb; [done|by apply thinned_keep, IH|]. apply thinned_drop; [done|by apply IH|].
  destruct Hd as [?|(o' & ks' & -> & ?)]; [by left|right]. by exists o', (ks' ++ kb).
Qed.
Lemma thinned_all trigger os : thinned trigger os os.
Proof. induction os; by constructor. Qed.
(** The latest offer that passes the conditions stands for all of a backlog. *)
Lemma latest_thinned trigger os prev latest : fires_latest trigger → latest_passing number_of toLowerCase trigger os prev = Some latest →
  (∀ o, prev = Some o → passesTheConditions number_of toLowerCase trigger o = Some true) →
  (latest = prev ∧ thinned trigger os []) ∨ ∃ o, latest = Some o ∧ passesTheConditions number_of toLowerCase trigger o = Some true ∧ thinned trigger os [o].
Proof.
  intros Hf. revert prev. induction os as [|o os IH]; intros prev Hl Hprev; cbn [latest_passing] in Hl; [injection Hl as <-; left; split; [done|constructor]|].
  destruct (passesTheConditions number_of toLowerCase trigger o) as [[]|] eqn:Hp; cbn in Hl; [| |done].
  - apply IH in Hl as [[-> Hno]|(o' & -> & Hp' & Hth)]; [| |by intros ? [= <-]].
    + right. exists o. split_and!; [done|done|by apply thinned_keep].
    + right. exists o'. split_and!; [done|done|]. apply thinned_drop; [done|done|]. right. by exists o', [].
  - apply IH in Hl as [[-> Hno]|(o' & -> & Hp' & Hth)]; [| |done].
    + left. split; [done|]. apply thinned_drop; [done|done|by left].
    + right. exists o'. split_and!; [done|done|]. apply thinned_drop; [done|done|by left].
Qed.
Lemma latest_passing_app trigger a b prev : latest_passing number_of toLowerCase trigger (a ++ b) prev = latest_passing number_of toLowerCase trigger a prev ≫= latest_passing number_of toLowerCase trigger b.
Proof. revert prev. induction a as [|o a IH]; intros prev; [done|]. cbn [app latest_passing]. destruct (passesTheConditions _ _ _ _) as [[]|]; cbn; [apply IH|apply IH|done]. Qed.

(** The remembering world reads what the world it is in reads. *)
Lemma climb_now fuel (m : met E) p current found : climb_authors fuel m p current found = climb_authors fuel (now m) p current found.
Proof. revert current found. induction fuel as [|fuel IH]; intros current found; [done|]. cbn [climb_authors]. destruct current; [|done]. destruct (_ && _); [apply IH|done]. Qed.
Lemma causesRead_now (m : met E) c p : causesRead dateParse m c p = causesRead dateParse (now m) c p.
Proof.
  assert (Hauthors : authorSessionIdsOf m (actorLabel c) p = authorSessionIdsOf (now m) (actorLabel c) p).
  { unfold authorSessionIdsOf. change (sessionsIn m) with (sessionsIn (now m)). generalize (@nil str). induction (filter _ _) as [|x l IH]; intros found; [done|].
    cbn [fold_left]. rewrite climb_now. apply IH. }
  unfold causesRead. by rewrite Hauthors.
Qed.
Lemma cause_key_inj c c' : 124%N ∉ createdAt c → 124%N ∉ createdAt c' → cause_key c = cause_key c' → actorLabel c = actorLabel c' ∧ createdAt c = createdAt c'.
Proof. intros Hc Hc' Heq. by apply (bar_inj 124%N) in Heq. Qed.

(** ** Worlds in which a journal only grows
    [sound] tells the worlds a run may meet.  In each of them the changes of the store after the cursor [c0] are numbered upwards and leave the cursor a cursor, the
    trigger that has this id is this one, and no call of the engine takes a change of the store back. *)
Section Worlds.
Context (trigger0 : TriggerRecord) (w0 : TableWhen) (c0 : TableCursor) (sound : E → Prop).
Abbreviation t0 := (trigger_id trigger0).
Abbreviation store0 := (storeId w0).
Definition changes_of (e : E) : list DsRowHistoryEntry := filter (λ c, cursor_seq c0 < seq c) (historyIn e store0).
Record orderly (changes : list DsRowHistoryEntry) : Prop := mkOrderly
  { o_sorted : StronglySorted (λ a b, seq a < seq b) changes;
    o_each : Forall (λ c, cursor_seq c0 < seq c ≤ MAX_SAFE_INTEGER ∧ 124%N ∉ createdAt c) changes;
    o_counts : ∀ n, 0 ≤ count_after (cursor_count c0) (take n changes) ≤ MAX_SAFE_INTEGER;
    o_large : 0 ≤ cursor_tooLarge c0 ∧ cursor_tooLarge c0 + Z.of_nat (length changes) ≤ MAX_SAFE_INTEGER;
    o_seq : 0 ≤ cursor_seq c0 ≤ MAX_SAFE_INTEGER }.
Record lawful : Prop := mkLawful
  { l_orderly e : sound e → orderly (changes_of e);
    l_unedited e tr : sound e → tr ∈ armedIn e → trigger_id tr = t0 → tr = trigger0;
    l_ids e : sound e → NoDup (trigger_id <$> armedIn e);
    l_submit e u o : sound e → sound (submitOffer e u o).1 ∧ historyIn e store0 `prefix_of` historyIn (submitOffer e u o).1 store0;
    l_submits e u os : sound e → sound (submitOffers e u os).1 ∧ historyIn e store0 `prefix_of` historyIn (submitOffers e u os).1 store0;
    l_suppressed e u : sound e → sound (suppressedBy e u) ∧ historyIn e store0 `prefix_of` historyIn (suppressedBy e u) store0 }.
Context (law : lawful).
(** The fires of the other triggers leave the store alone. *)
Record quiet : Prop := mkQuiet
  { q_submit e u o : u ≠ t0 → historyIn (submitOffer e u o).1 store0 = historyIn e store0;
    q_submits e u os : u ≠ t0 → historyIn (submitOffers e u os).1 store0 = historyIn e store0;
    q_suppressed e u : u ≠ t0 → historyIn (suppressedBy e u) store0 = historyIn e store0 }.

(** A step of the world. *)
Definition fine (m : met E) : Prop := sound (now m) ∧ now m ∈ worlds m.
Record evolves (m m' : met E) : Prop := mkEvolves
  { ev_fine : fine m'; ev_worlds : worlds m ⊆ worlds m'; ev_history : historyIn (now m) store0 `prefix_of` historyIn (now m') store0;
    ev_accepted : offered_to t0 m `sublist_of` offered_to t0 m'; ev_refused : t0 ∈ refused m → t0 ∈ refused m' }.
Lemma evolves_refl m : fine m → evolves m m.
Proof. intros Hm. by constructor. Qed.
Lemma evolves_trans m1 m2 m3 : evolves m1 m2 → evolves m2 m3 → evolves m1 m3.
Proof. intros [H1 H2 H3 H4 H5] [H6 H7 H8 H9 H10]. constructor; [done|set_solver|by trans (historyIn (now m2) store0)|by trans (offered_to t0 m2)|auto]. Qed.
Lemma meets_evolves e' m : sound e' → historyIn (now m) store0 `prefix_of` historyIn e' store0 → evolves m (meets e' m).
Proof. intros Hs Hp. constructor; cbn [meets now worlds refused]; [split; [done|cbn; set_solver]|set_solver|done|done|done]. Qed.
Lemma submitted_evolves u os r m : sound r.1 → historyIn (now m) store0 `prefix_of` historyIn r.1 store0 → evolves m (submitted u os r m).1.
Proof.
  destruct r as [e' []]; cbn [fst]; intros Hs Hp; (constructor; cbn [submitted fst snd now worlds refused]; [split; [done|cbn; set_solver]|set_solver|done| |set_solver]); [|done].
  match goal with |- _ `sublist_of` offered_to _ ?m' => rewrite (offered_app t0 u os m m') by done end. by apply sublist_inserts_r.
Qed.
Lemma submitted_offered u os r (m : met E) : r.2 = true → offered_to t0 (submitted u os r m).1 = offered_to t0 m ++ (if decide (u = t0) then os else []).
Proof. intros Hr. apply offered_app. cbn. by rewrite Hr. Qed.
Lemma submitted_refused u os r (m : met E) : r.2 = false → u ∈ refused (submitted u os r m).1 ∧ offered_to t0 (submitted u os r m).1 = offered_to t0 m.
Proof. destruct r as [e' []]; [done|]. intros _. split; [cbn; set_solver|done]. Qed.

(** ** A poll of another trigger leaves this one alone *)
Definition view (s : source) := (get (cursors s) t0, catchUps s !! t0, bool_decide (t0 ∈ pendingTicks s), bool_decide (t0 ∈ polling s), bool_decide (t0 ∈ changedWhilePolling s), subscribed s).
Record leaves (m : met E) (s : source) (m' : met E) (s' : source) : Prop := mkLeaves
  { lv_view : view s' = view s; lv_evolves : evolves m m'; lv_offered : offered_to t0 m' = offered_to t0 m; lv_refused : t0 ∈ refused m' → t0 ∈ refused m;
    lv_quiet : quiet → historyIn (now m') store0 = historyIn (now m) store0 }.
Lemma leaves_view_only m s s' : fine m → view s' = view s → leaves m s m s'.
Proof. intros Hm Hv. constructor; [done|by apply evolves_refl|done|done|done]. Qed.
Lemma leaves_trans m s m1 s1 m2 s2 : leaves m s m1 s1 → leaves m1 s1 m2 s2 → leaves m s m2 s2.
Proof. intros [H1 H2 H3 H4 H5] [H6 H7 H8 H9 H10]. constructor; [congruence|by eapply evolves_trans|congruence|auto|intros Hq; rewrite H10, H5; done]. Qed.

Section Other.
Context (trigger : TriggerRecord) (w : TableWhen).
Abbreviation t := (trigger_id trigger).
Hypothesis other : t0 ≠ t.

Lemma view_set_cursor c s : view (set_cursor t c s) = view s.
Proof. unfold view, set_cursor, save_cursor. cbn. rewrite get_put. destruct (str_eqb t t0) eqn:Hk; [|done]. by apply str_eqb_eq in Hk. Qed.
Lemma view_set_catchUps x s : x !! t0 = catchUps s !! t0 → view (set_catchUps x s) = view s.
Proof. intros Heq. unfold view. cbn. by rewrite Heq. Qed.
Lemma view_set_ticks x s : (t0 ∈ x ↔ t0 ∈ pendingTicks s) → view (set_ticks x s) = view s.
Proof. intros Heq. unfold view. cbn. by rewrite (bool_decide_ext _ _ Heq). Qed.
Lemma view_set_polling x s : (t0 ∈ x ↔ t0 ∈ polling s) → view (set_polling x s) = view s.
Proof. intros Heq. unfold view. cbn. by rewrite (bool_decide_ext _ _ Heq). Qed.
Lemma view_set_changed x s : (t0 ∈ x ↔ t0 ∈ changedWhilePolling s) → view (set_changed x s) = view s.
Proof. intros Heq. unfold view. cbn. by rewrite (bool_decide_ext _ _ Heq). Qed.
Lemma view_endCatchUp s : view (endCatchUp t s) = view s.
Proof. apply view_set_catchUps. by rewrite lookup_delete_ne. Qed.
Lemma view_note_writes (m m' : met E) s : view (note_writes trigger w m m' s) = view s.
Proof. unfold note_writes. destruct (_ && _); [|done]. apply view_set_changed. set_solver. Qed.
(** A submission for another trigger. *)
Lemma submitted_leaves os r m s s' : fine m → sound r.1 ∧ historyIn (now m) store0 `prefix_of` historyIn r.1 store0 →
  (quiet → historyIn r.1 store0 = historyIn (now m) store0) → view s' = view s → leaves m s (submitted t os r m).1 s'.
Proof.
  intros Hm [Hs Hp] Hq Hv. constructor; [done|by apply submitted_evolves| | |done].
  - destruct r.2 eqn:Hr; [|by apply submitted_refused]. rewrite submitted_offered by done. rewrite decide_False by done. apply app_nil_r.
  - cbn [submitted fst refused]. destruct r.2; set_solver.
Qed.
Lemma offer_leaves offers isBacklog m s m' s' ok : fine m → offer trigger w offers isBacklog m s = (m', s', ok) → leaves m s m' s'.
Proof.
  intros Hm. unfold offer. destruct isBacklog.
  - destruct offers as [|o offers]; [intros [= <- <- <-]; by apply leaves_view_only|]. destruct (submitOffers m t (o :: offers)) as [m1 ok1] eqn:Hs. intros [= <- <- <-].
    assert (m1 = (submitted t (o :: offers) (submitOffers (now m) t (o :: offers)) m).1) as -> by (symmetry; exact (f_equal fst Hs)). apply submitted_leaves; [done|by apply (l_submits law), Hm|intros Hq; by apply (q_submits Hq)|apply view_note_writes].
  - revert m s Hm. induction offers as [|o offers IH]; intros m s Hm; cbn [submit_all]; [intros [= <- <- <-]; by apply leaves_view_only|].
    destruct (submitOffer m t o) as [m1 ok1] eqn:Hs. apply (f_equal fst) in Hs.
    assert (Hl : leaves m s m1 (note_writes trigger w m m1 s)).
    { assert (m1 = (submitted t [o] (submitOffer (now m) t o) m).1) as -> by (symmetry; exact Hs). apply submitted_leaves; [done|by apply (l_submit law), Hm|intros Hq; by apply (q_submit Hq)|apply view_note_writes]. }
    destruct ok1; [|by intros [= <- <- <-]]. intros Hrest. apply IH in Hrest; [by eapply leaves_trans|apply Hl].
Qed.
Lemma walk_leaves from changes m s : fine m → leaves m s (walk stringify dateParse trigger w m from changes).1.1 s.
Proof.
  intros Hm. unfold walk. cbn [fst]. generalize (mkWalk m [] [] (cursor_count from) (cursor_tooLarge from)) (eq_refl : walk_world (mkWalk m [] [] (cursor_count from) (cursor_tooLarge from)) = m).
  intros st Hst. assert (Hsame : leaves m s (walk_world st) s) by (rewrite Hst; by apply leaves_view_only). clear Hst. revert st Hsame. induction changes as [|c changes IH]; intros st Hsame; [done|].
  cbn [fold_left]. apply IH. destruct st as [m1 offers cache count tooLarge]. unfold walk_change. destruct (eventOf _ _ _ _ _); [|exact Hsame].
  destruct (causesOf _ _ _ _ _) as [causes cache']. destruct (mem_str _ _); [|by destruct (bool_decide _)]. cbn [walk_world] in *. eapply leaves_trans; [exact Hsame|].
  assert (Hf1 : fine m1) by apply Hsame. destruct (l_suppressed law (now m1) t) as [H1 H2]; [apply Hf1|]. constructor; try done; [by apply meets_evolves|intros Hq; by apply (q_suppressed Hq)].
Qed.
Lemma latest_leaves r m s m' s' r' ok : fine m → offerTheLatestOfTheCatchUp trigger w r m s = (m', s', r', ok) → leaves m s m' s'.
Proof.
  intros Hm. unfold offerTheLatestOfTheCatchUp. destruct (negb _); [intros [= <- <- <- <-]; by apply leaves_view_only|].
  destruct (offer _ _ _ _ _ _) as [[m1 s1] ok1] eqn:Ho. apply offer_leaves in Ho; [|done]. destruct ok1; intros [= <- <- <- <-]; [|done].
  eapply leaves_trans; [exact Ho|]. apply leaves_view_only; [apply Ho|apply view_set_cursor].
Qed.
Lemma read_pages_leaves pages r m s m' s' r' ending : fine m →
  read_pages number_of toLowerCase stringify dateParse trigger w pages r m s = (m', s', r', ending) → leaves m s m' s'.
Proof.
  revert r m s. induction pages as [|pages IH]; intros r m s Hm; cbn [read_pages]; [intros [= <- <- <- <-]; by apply leaves_view_only|].
  destruct (run_offersLeft r) as [|left_]; [intros [= <- <- <- <-]; by apply leaves_view_only|].
  match goal with |- (let '(_, _) := ?b in _) = _ → _ => destruct b as [[[m1 s1] r1] ok] eqn:Hcatch end.
  assert (Hl1 : leaves m s m1 s1).
  { match type of Hcatch with (if ?b then _ else _) = _ => destruct b end; [|injection Hcatch as <- <- <- <-; by apply leaves_view_only]. destruct (offerTheLatestOfTheCatchUp _ _ _ _ _) as [[[m2 s2] r2] ok2] eqn:Hlat.
    apply latest_leaves in Hlat; [|done]. injection Hcatch as <- <- <- <-. destruct ok2; [|done]. eapply leaves_trans; [exact Hlat|]. apply leaves_view_only; [apply Hlat|apply view_endCatchUp]. }
  destruct ok; cbn [negb]; [|by intros [= <- <- <- <-]].
  match goal with |- match ?c with _ => _ end = _ → _ => destruct c as [|c1 changes] end; [by intros [= <- <- <- <-]|].
  pose proof (walk_leaves (run_cursor r1) (c1 :: changes) m1 s1 ltac:(apply Hl1)) as Hw. destruct (walk _ _ _ _ _ _ _) as [[m2 offers] cursor]. cbn [fst] in Hw.
  assert (Hl2 := leaves_trans _ _ _ _ _ _ Hl1 Hw). assert (Hf2 : fine m2) by apply Hl2.
  match goal with |- (if ?b then _ else _) = _ → _ => destruct b end; [destruct (latest_passing _ _ _ _ _) as [latest|]; [|by intros [= <- <- <- <-]]; intros Hr; apply IH in Hr; [by eapply leaves_trans|done]|].
  destruct (offer _ _ _ _ _ _) as [[m3 s3] ok3] eqn:Ho. apply offer_leaves in Ho; [|done]. assert (Hl3 := leaves_trans _ _ _ _ _ _ Hl2 Ho).
  destruct ok3; [|by intros [= <- <- <- <-]]. intros Hr. apply IH in Hr; [|apply Hl3]. eapply leaves_trans; [|exact Hr]. eapply leaves_trans; [exact Hl3|].
  apply leaves_view_only; [apply Hl3|apply view_set_cursor].
Qed.
Lemma startFromNow_leaves m s : fine m → leaves m s m (startFromNow trigger m s).
Proof.
  intros Hm. apply leaves_view_only; [done|]. unfold startFromNow. destruct (tableWhenOf trigger); [|done]. destruct (negb _); [done|]. by rewrite view_set_cursor, view_endCatchUp.
Qed.
Lemma readChangesOf_leaves m s m' s' ok : fine m → readChangesOf number_of toLowerCase stringify dateParse trigger w m s = (m', s', ok) → leaves m s m' s'.
Proof.
  intros Hm. unfold readChangesOf. destruct (negb _); [intros [= <- <- <-]; apply leaves_view_only; [done|apply view_endCatchUp]|].
  destruct (cursorOf s trigger) as [cursor|]; [|intros [= <- <- <-]; by apply startFromNow_leaves].
  destruct (read_pages _ _ _ _ _ _ _ _ _ _) as [[[m1 s1] r1] ending] eqn:Hr. apply read_pages_leaves in Hr; [|done].
  destruct (offerTheLatestOfTheCatchUp _ _ _ _ _) as [[[m2 s2] r2] ok2] eqn:Hl. apply latest_leaves in Hl; [|apply Hr].
  assert (Hl2 := leaves_trans _ _ _ _ _ _ Hr Hl).
  destruct ending; [destruct ok2; intros [= <- <- <-]; [|done]|destruct ok2; cbn [negb]; [|by intros [= <- <- <-]]|by intros [= <- <- <-]].
  - eapply leaves_trans; [exact Hl2|]. apply leaves_view_only; [apply Hl2|apply view_endCatchUp].
  - intros [= <- <- <-]. eapply leaves_trans; [exact Hl2|]. apply leaves_view_only; [apply Hl2|]. unfold continueOnTheNextTick. rewrite view_set_ticks by set_solver.
    destruct (catchUps s2 !! t); [done|]. apply view_set_catchUps. by rewrite lookup_insert_ne.
Qed.
Lemma poll_rounds_leaves rounds m s : fine m →
  let '(m', s') := poll_rounds number_of toLowerCase stringify dateParse rounds trigger w m s in leaves m s m' s'.
Proof.
  revert m s. induction rounds as [|rounds IH]; intros m s Hm; cbn [poll_rounds]; [by apply leaves_view_only|].
  destruct (readChangesOf _ _ _ _ _ _ _ _) as [[m1 s1] ok] eqn:Hr. apply readChangesOf_leaves in Hr; [|done].
  assert (Hl : leaves m s m1 s1). { eapply leaves_trans; [|exact Hr]. apply leaves_view_only; [done|]. apply view_set_changed. set_solver. }
  destruct (_ && _); [|done]. specialize (IH m1 s1 ltac:(apply Hl)). destruct (poll_rounds _ _ _ _ _ _ _ _ _). by eapply leaves_trans.
Qed.
End Other.

Lemma poll_leaves rounds trigger fromWrite m s : fine m → t0 ≠ trigger_id trigger →
  let '(m', s') := poll number_of toLowerCase stringify dateParse rounds trigger fromWrite m s in leaves m s m' s'.
Proof.
  intros Hm Hne. unfold poll. destruct (tableWhenOf trigger) as [w|]; [|by apply leaves_view_only]. destruct (_ && _); [by apply leaves_view_only|].
  destruct (bool_decide _); [apply leaves_view_only; [done|]; apply view_set_changed; set_solver|].
  pose proof (poll_rounds_leaves trigger w Hne rounds m (set_polling (polling s ∪ {[trigger_id trigger]}) s) Hm) as Hp.
  destruct (poll_rounds _ _ _ _ _ _ _ _ _) as [m1 s1]. eapply leaves_trans; [apply leaves_view_only; [done|]; apply (view_set_polling (polling s ∪ {[trigger_id trigger]}) s); set_solver|].
  eapply leaves_trans; [exact Hp|]. apply leaves_view_only; [apply Hp|]. apply view_set_polling. set_solver.
Qed.

(** ** A page of this trigger *)
Definition hands_nothing (m m' : met E) : Prop := offered_to t0 m' = offered_to t0 m ∧ (t0 ∈ refused m' → t0 ∈ refused m).
Definition holds_page (page : list DsRowHistoryEntry) (e : E) : Prop := ∀ c, c ∈ page → c ∈ historyIn e store0.
Lemma holds_later page m m' : evolves m m' → holds_page page (now m) → holds_page page (now m').
Proof. intros He Hp c Hc. eapply elem_of_prefix; [by apply Hp|apply (ev_history _ _ He)]. Qed.
(** The cache of the causes holds readings made while the page was read. *)
Definition cache_ok (page : list DsRowHistoryEntry) (ws : list E) (cache : rec Causes) : Prop :=
  ∀ c v, 124%N ∉ createdAt c → get cache (cause_key c) = Some v → ∃ e', e' ∈ ws ∧ holds_page page e' ∧ v = causesRead dateParse e' c (trigger_projectId trigger0).
Lemma causesOf_memo page m c cache : fine m → holds_page page (now m) → 124%N ∉ createdAt c → cache_ok page (worlds m) cache →
  ∃ e' cache', e' ∈ worlds m ∧ holds_page page e' ∧ cache_ok page (worlds m) cache' ∧
    causesOf dateParse m c (trigger_projectId trigger0) cache = (if byAgent c then causesRead dateParse e' c (trigger_projectId trigger0) else mkCauses [] 0, cache').
Proof.
  intros [Hs Hin] Hp Hc Hcache. unfold causesOf. destruct (byAgent c); cbn [negb]; [|by exists (now m), cache].
  destruct (get cache (cause_key c)) as [v|] eqn:Hget; [destruct (Hcache c v Hc Hget) as (e' & He' & Hp' & ->); by exists e', cache|].
  rewrite causesRead_now. eexists (now m), _. split_and!; [done|done| |reflexivity]. intros c' v Hc' Hget'. rewrite get_put in Hget'.
  destruct (str_eqb (cause_key c) (cause_key c')) eqn:Hk; [|by apply Hcache]. apply str_eqb_eq in Hk. apply cause_key_inj in Hk as [Hl Hd]; [|done..].
  injection Hget' as <-. exists (now m). split_and!; [done|done|]. unfold causesRead. by rewrite Hl, Hd.
Qed.
Lemma cache_later page ws ws' cache : ws ⊆ ws' → cache_ok page ws cache → cache_ok page ws' cache.
Proof. intros Hsub Hc c v Hb Hg. destruct (Hc c v Hb Hg) as (e' & He' & ?). exists e'. split; [by apply Hsub|done]. Qed.
Ltac walk_eq := f_equal; first [cbn; by rewrite ?app_nil_r|match goal with |- context [large_in ?x] => first [change (large_in x) with 0|change (large_in x) with 1] end; lia].
Lemma walk_step page m c offers cache count large : fine m → holds_page page (now m) → c ∈ page → 124%N ∉ createdAt c → cache_ok page (worlds m) cache →
  ∃ m' e e' v cache', walk_change stringify dateParse trigger0 w0 (mkWalk m offers cache count large) c
      = mkWalk m' (offers ++ due_of [v]) cache' (count + rowCountChangeOf (change c)) (large + large_in [v]) ∧
    evolves m m' ∧ hands_nothing m m' ∧ e ∈ worlds m' ∧ e' ∈ worlds m' ∧ c ∈ historyIn e store0 ∧ c ∈ historyIn e' store0 ∧ judge trigger0 w0 e e' count c = v ∧ cache_ok page (worlds m') cache'.
Proof.
  intros Hm Hp Hc Hb Hcache. pose proof Hm as [Hs Hin]. destruct (causesOf_memo page m c cache Hm Hp Hb Hcache) as (e' & cache' & He' & Hp' & Hcache' & Hcauses).
  unfold walk_change, judge. change (eventOf m) with (eventOf (now m)).
  destruct (eventOf (now m) w0 c _ _) as [event|] eqn:Hev; [rewrite Hcauses|].
  2: { exists m, (now m), e', NotAwaited, cache. rewrite Hev. split_and!; [walk_eq|by apply evolves_refl|done|done|done|by apply Hp|by apply Hp'|done|done]. }
  destruct (mem_str _ _) eqn:Hmem; [|destruct (bool_decide _) eqn:Hlarge].
  - destruct (l_suppressed law (now m) t0 Hs) as [Hs' Hpre]. exists (meets (suppressedBy (now m) t0) m), (now m), e', OwnEffect, cache'. rewrite Hev, Hmem.
    assert (Hsub : worlds m ⊆ worlds m ++ [suppressedBy (now m) t0]) by set_solver.
    split_and!; [walk_eq|by apply meets_evolves|done|by apply Hsub|by apply Hsub|by apply Hp|by apply Hp'|done|by eapply cache_later].
  - exists m, (now m), e', TooLarge, cache'. rewrite Hev, Hmem, Hlarge. split_and!; [walk_eq|by apply evolves_refl|done|done|done|by apply Hp|by apply Hp'|done|done].
  - eexists m, (now m), e', (Due _), cache'. rewrite Hev, Hmem, Hlarge. split_and!; [|by apply evolves_refl|done|done|done|by apply Hp|by apply Hp'|reflexivity|done]. walk_eq.
Qed.
Lemma hands_nothing_trans m1 m2 m3 : hands_nothing m1 m2 → hands_nothing m2 m3 → hands_nothing m1 m3.
Proof. intros [H1 H2] [H3 H4]. split; [congruence|auto]. Qed.
Lemma walk_fold page changes : changes ⊆ page → Forall (λ c, 124%N ∉ createdAt c) changes → ∀ m offers cache count large, fine m → holds_page page (now m) → cache_ok page (worlds m) cache →
  ∃ m' cache' vs, fold_left (walk_change stringify dateParse trigger0 w0) changes (mkWalk m offers cache count large)
      = mkWalk m' (offers ++ due_of vs) cache' (count_after count changes) (large + large_in vs) ∧
    evolves m m' ∧ hands_nothing m m' ∧ judged trigger0 w0 (worlds m') count changes vs.
Proof.
  intros Hsub Hb. induction Hb as [|c changes Hc _ IH]; intros m offers cache count large Hm Hp Hcache.
  { exists m, cache, []. cbn [fold_left]. rewrite app_nil_r, Z.add_0_r. split_and!; [done|by apply evolves_refl|done|constructor]. }
  destruct (walk_step page m c offers cache count large Hm Hp ltac:(set_solver) Hc Hcache) as (m1 & e & e' & v & cache1 & Hstep & Hev & Hno & He & He' & Hce & Hce' & Hv & Hcache1).
  cbn [fold_left]. rewrite Hstep. destruct (IH ltac:(set_solver) m1 (offers ++ due_of [v]) cache1 (count + rowCountChangeOf (change c)) (large + large_in [v])) as (m2 & cache2 & vs & Heq & Hev2 & Hno2 & Hj);
    [apply Hev|by eapply holds_later|done|]. exists m2, cache2, (v :: vs).
  split_and!; [|by eapply evolves_trans|by eapply hands_nothing_trans|].
  - rewrite Heq, <- app_assoc. change (v :: vs) with ([v] ++ vs). rewrite due_app, large_app. f_equal. lia.
  - pose proof (ev_worlds _ _ Hev2) as Hw. by apply (judged_cons _ _ _ _ _ _ e e'); [apply Hw..| | | |].
Qed.
(** A page gives the offers of its verdicts. *)
Lemma walk_judged m from changes : fine m → holds_page changes (now m) → Forall (λ c, 124%N ∉ createdAt c) changes →
  ∃ m' vs, walk stringify dateParse trigger0 w0 m from changes
      = (m', due_of vs, mkTableCursor (last_seq (cursor_seq from) changes) (count_after (cursor_count from) changes) (cursor_tooLarge from + large_in vs)) ∧
    evolves m m' ∧ hands_nothing m m' ∧ judged trigger0 w0 (worlds m') (cursor_count from) changes vs.
Proof.
  intros Hm Hp Hb. destruct (walk_fold changes changes ltac:(done) Hb m [] [] (cursor_count from) (cursor_tooLarge from) Hm Hp ltac:(done)) as (m' & cache' & vs & Heq & Hev & Hno & Hj).
  exists m', vs. unfold walk. rewrite Heq. done.
Qed.

(** ** A submission of this trigger *)
Lemma note_writes_keeps (m m' : met E) s : let s' := note_writes trigger0 w0 m m' s in
  cursors s' = cursors s ∧ catchUps s' = catchUps s ∧ pendingTicks s' = pendingTicks s ∧ polling s' = polling s ∧ subscribed s' = subscribed s.
Proof. cbv zeta. unfold note_writes. by destruct (_ && _). Qed.
Definition same_source (s s' : source) : Prop :=
  cursors s' = cursors s ∧ catchUps s' = catchUps s ∧ pendingTicks s' = pendingTicks s ∧ polling s' = polling s ∧ subscribed s' = subscribed s.
Lemma same_source_trans s1 s2 s3 : same_source s1 s2 → same_source s2 s3 → same_source s1 s3.
Proof. unfold same_source. intuition congruence. Qed.
Lemma submission_outcome os r m : sound r.1 ∧ historyIn (now m) store0 `prefix_of` historyIn r.1 store0 →
  evolves m (submitted t0 os r m).1 ∧ (if r.2 then offered_to t0 (submitted t0 os r m).1 = offered_to t0 m ++ os ∧ refused (submitted t0 os r m).1 = refused m else t0 ∈ refused (submitted t0 os r m).1).
Proof.
  intros [Hs Hp]. split; [by apply submitted_evolves|]. destruct r.2 eqn:Hr; [|by apply submitted_refused]. rewrite submitted_offered, decide_True by done. split; [done|]. cbn. by rewrite Hr.
Qed.
Lemma offer_outcome offers isBacklog m s m' s' ok : fine m → offer trigger0 w0 offers isBacklog m s = (m', s', ok) →
  evolves m m' ∧ same_source s s' ∧ (if ok then offered_to t0 m' = offered_to t0 m ++ offers ∧ (t0 ∈ refused m' → t0 ∈ refused m) else t0 ∈ refused m').
Proof.
  intros Hm. unfold offer. destruct isBacklog.
  - destruct offers as [|o offers]; [intros [= <- <- <-]; rewrite app_nil_r; split_and!; by try apply evolves_refl|].
    destruct (submitOffers m t0 (o :: offers)) as [m1 ok1] eqn:Hs. intros [= <- <- <-].
    destruct (submission_outcome (o :: offers) (submitOffers (now m) t0 (o :: offers)) m) as [He Hr]; [by apply (l_submits law), Hm|].
    assert (Heq : submitted t0 (o :: offers) (submitOffers (now m) t0 (o :: offers)) m = (m1, ok1)) by exact Hs. pose proof (f_equal snd Heq) as Hok. cbn [submitted snd] in Hok. rewrite Heq, Hok in *. cbn [fst] in *.
    split_and!; [done|apply note_writes_keeps|]. destruct ok1; [|done]. destruct Hr as [? ->]. done.
  - revert m s Hm. induction offers as [|o offers IH]; intros m s Hm; cbn [submit_all]; [intros [= <- <- <-]; rewrite app_nil_r; split_and!; by try apply evolves_refl|].
    destruct (submitOffer m t0 o) as [m1 ok1] eqn:Hs. destruct (submission_outcome [o] (submitOffer (now m) t0 o) m) as [He Hr]; [by apply (l_submit law), Hm|].
    assert (Heq : submitted t0 [o] (submitOffer (now m) t0 o) m = (m1, ok1)) by exact Hs. pose proof (f_equal snd Heq) as Hok. cbn [submitted snd] in Hok. rewrite Heq, Hok in *. cbn [fst] in *.
    destruct ok1; [|intros [= <- <- <-]; split_and!; [done|apply note_writes_keeps|done]]. intros Hrest. apply IH in Hrest as (He2 & Hs2 & Hr2); [|apply He].
    split_and!; [by eapply evolves_trans|eapply same_source_trans; [apply note_writes_keeps|done]|]. destruct ok; [|done]. destruct Hr as [Hr1 Hr1'], Hr2 as [Hr2 Hr2']. rewrite Hr2, Hr1, <- app_assoc.
    split; [done|]. rewrite <- Hr1'. done.
Qed.

(** ** The cursor and what is behind it *)
Definition cursor_at (done_ : list DsRowHistoryEntry) (vs : list verdict) : TableCursor :=
  mkTableCursor (last_seq (cursor_seq c0) done_) (count_after (cursor_count c0) done_) (cursor_tooLarge c0 + large_in vs).
(** The changes [done_] are behind the saved cursor with the verdicts [vs], those of [rest] are to come. *)
Record reading (done_ : list DsRowHistoryEntry) (vs : list verdict) (rest : list DsRowHistoryEntry) (m : met E) (s : source) : Prop := mkReading
  { r_fine : fine m;
    r_changes : changes_of (now m) = done_ ++ rest;
    r_cursor : cursorOf s trigger0 = Some (cursor_at done_ vs);
    r_catchUp : ∀ end_, catchUps s !! t0 = Some end_ → end_ ≤ cursor_seq c0 ∨ ∃ c, c ∈ done_ ++ rest ∧ seq c = end_;
    r_judged : judged trigger0 w0 (worlds m) (cursor_count c0) done_ vs;
    r_handed : ∃ ks, thinned trigger0 (due_of vs) ks ∧ ks `sublist_of` offered_to t0 m ∧ (t0 ∉ refused m → offered_to t0 m = ks) }.
Lemma r_orderly done_ vs rest m s : reading done_ vs rest m s → orderly (done_ ++ rest).
Proof. intros Hr. rewrite <- (r_changes _ _ _ _ _ Hr). apply (l_orderly law), (r_fine _ _ _ _ _ Hr). Qed.
Lemma last_seq_app n a b : last_seq n (a ++ b) = last_seq (last_seq n a) b.
Proof. destruct b as [|x b _] using rev_ind; [by rewrite app_nil_r|]. unfold last_seq. by rewrite app_assoc, !last_snoc. Qed.
Lemma orderly_le done_ rest : orderly (done_ ++ rest) → cursor_seq c0 ≤ last_seq (cursor_seq c0) done_ ∧
  (∀ c, c ∈ done_ → seq c ≤ last_seq (cursor_seq c0) done_) ∧ (∀ c, c ∈ rest → last_seq (cursor_seq c0) done_ < seq c).
Proof.
  intros [Hs Hall _ _ _]. rewrite list.Forall_app in Hall. destruct Hall as [Hd Hr]. rewrite list.Forall_forall in Hd, Hr.
  destruct done_ as [|x done_ _] using rev_ind; cbn [last_seq list.last].
  - split; [lia|]. split; [intros c Hc; by apply not_elem_of_nil in Hc|]. intros c Hc. by apply Hr.
  - unfold last_seq. rewrite last_snoc. split; [specialize (Hd x); set_solver by lia|]. apply StronglySorted_app in Hs as (Hx & Hs & _). split.
    + intros c Hc. apply StronglySorted_app in Hs as (Hc' & _). apply elem_of_app in Hc as [Hc|Hc%list_elem_of_singleton]; [|by subst]. specialize (Hc' c x Hc). set_solver by lia.
    + intros c Hc. apply Hx; set_solver.
Qed.
Lemma cursor_is_cursor s c : 0 ≤ cursor_seq c ≤ MAX_SAFE_INTEGER → 0 ≤ cursor_count c ≤ MAX_SAFE_INTEGER → 0 ≤ cursor_tooLarge c ≤ MAX_SAFE_INTEGER →
  cursorOf (set_cursor t0 c s) trigger0 = Some c.
Proof.
  intros H1 H2 H3. unfold cursorOf, set_cursor, read_cursor, save_cursor. cbn [cursors]. rewrite get_put, str_eqb_refl. destruct c as [a b d]. cbn [cursor_seq cursor_count cursor_tooLarge] in *.
  assert (Hc : ∀ n, 0 ≤ n ≤ MAX_SAFE_INTEGER → isCount (Some (JNum n)) = Some n).
  { intros n Hn. unfold isCount. destruct (Z.leb_spec 0 n), (Z.leb_spec n MAX_SAFE_INTEGER); cbn [andb]; [done|lia..]. }
  cbn [mbind option_bind]. unfold isTableCursor, json_of_cursor. rewrite bool_decide_true by done. cbn [cursor_seq cursor_count cursor_tooLarge].
  change (get _ (js "seq")) with (Some (JNum a)). change (get _ (js "count")) with (Some (JNum b)). change (get _ (js "tooLarge")) with (Some (JNum d)). by rewrite !Hc.
Qed.
Lemma saved_cursor done_ vs rest ws s : orderly (done_ ++ rest) → judged trigger0 w0 ws (cursor_count c0) done_ vs →
  cursorOf (set_cursor t0 (cursor_at done_ vs) s) trigger0 = Some (cursor_at done_ vs).
Proof.
  intros Hord Hj. pose proof (orderly_le _ _ Hord) as (Hle & _). destruct Hord as [_ Hall Hcount [Hl0 Hl] Hseq]. apply cursor_is_cursor; cbn [cursor_at cursor_seq cursor_count cursor_tooLarge].
  - split; [lia|]. destruct done_ as [|x done_ _] using rev_ind; [cbn; lia|]. unfold last_seq. rewrite last_snoc. rewrite !list.Forall_app in Hall. destruct Hall as [[_ Hx] _].
    apply list.Forall_singleton in Hx as [? _]. lia.
  - specialize (Hcount (length done_)). by rewrite take_app_length in Hcount.
  - apply large_bound in Hj. rewrite length_app in Hl. lia.
Qed.
Lemma changes_grow m m' : evolves m m' → ∃ new, changes_of (now m') = changes_of (now m) ++ new.
Proof. intros He. destruct (ev_history _ _ He) as [new Hnew]. exists (filter (λ c, cursor_seq c0 < seq c) new). unfold changes_of. by rewrite Hnew, list.filter_app. Qed.
(** What happens elsewhere only adds changes. *)
Lemma reading_later done_ vs rest m s m' s' : reading done_ vs rest m s → evolves m m' → (t0 ∉ refused m' → offered_to t0 m' = offered_to t0 m) →
  cursorOf s' trigger0 = cursorOf s trigger0 → (∀ end_, catchUps s' !! t0 = Some end_ → catchUps s !! t0 = Some end_) →
  ∀ new, changes_of (now m') = changes_of (now m) ++ new → reading done_ vs (rest ++ new) m' s'.
Proof.
  intros [Hf Hch Hcur Hcu Hj (ks & Hth & Hsub & Hex)] He Hoff Hcur' Hcu' new Hnew. constructor.
  - apply He.
  - by rewrite Hnew, Hch, app_assoc.
  - congruence.
  - intros end_ Hend. destruct (Hcu end_ (Hcu' _ Hend)) as [?|(c & Hc & Hs)]; [by left|right]. exists c. split; [|done]. rewrite app_assoc. apply elem_of_app. by left.
  - eapply judged_more; [apply He|done].
  - exists ks. split_and!; [done|trans (offered_to t0 m); [done|apply He]|]. intros Hno. rewrite Hoff by done. apply Hex. intros Hin. by apply Hno, (ev_refused _ _ He).
Qed.
(** A page handed over moves the cursor. *)
Lemma reading_advance done_ vs page vsp rest m s m' s' kp : reading done_ vs (page ++ rest) m s → evolves m m' →
  judged trigger0 w0 (worlds m') (count_after (cursor_count c0) done_) page vsp → thinned trigger0 (due_of vsp) kp → offered_to t0 m' = offered_to t0 m ++ kp → (t0 ∈ refused m' → t0 ∈ refused m) →
  (∀ end_, catchUps s' !! t0 = Some end_ → catchUps s !! t0 = Some end_) → ∀ new, changes_of (now m') = changes_of (now m) ++ new →
  reading (done_ ++ page) (vs ++ vsp) (rest ++ new) m' (set_cursor t0 (cursor_at (done_ ++ page) (vs ++ vsp)) s').
Proof.
  intros [Hf Hch Hcur Hcu Hj (ks & Hth & Hsub & Hex)] He Hjp Hkp Hoff Href Hcu' new Hnew.
  assert (Hall : changes_of (now m') = (done_ ++ page) ++ rest ++ new) by (by rewrite Hnew, Hch, <- !app_assoc).
  assert (Hjall : judged trigger0 w0 (worlds m') (cursor_count c0) (done_ ++ page) (vs ++ vsp)) by (apply judged_app; [eapply judged_more; [apply He|done]|done]).
  constructor; [apply He|done| | |done|].
  - eapply saved_cursor; [|exact Hjall]. rewrite <- Hall. apply (l_orderly law), He.
  - intros end_ Hend. destruct (Hcu end_ (Hcu' _ Hend)) as [?|(c & Hc & Hs)]; [by left|right]. exists c. split; [|done]. set_solver.
  - exists (ks ++ kp). rewrite due_app, Hoff. split_and!; [by apply thinned_app|by apply sublist_app|]. intros Hno. rewrite Hex; [done|]. contradict Hno. by apply (ev_refused _ _ He).
Qed.
Lemma to_come done_ rest m n : fine m → changes_of (now m) = done_ ++ rest → changesAfter m store0 (last_seq (cursor_seq c0) done_) n = take n rest.
Proof.
  intros Hf Hch. pose proof (l_orderly law _ (proj1 Hf)) as Hord. rewrite Hch in Hord. apply orderly_le in Hord as (Hle & Hdone & Hrest). unfold changesAfter. f_equal. change (historyIn m) with (historyIn (now m)).
  trans (filter (λ c, last_seq (cursor_seq c0) done_ < seq c) (changes_of (now m))).
  - unfold changes_of. rewrite list_filter_filter. apply list_filter_iff. intros c. lia.
  - rewrite Hch, list.filter_app, filter_none, filter_all; [done|done|]. intros c Hc. specialize (Hdone c Hc). lia.
Qed.
Lemma filter_prefix (end_ : Z) (l : list DsRowHistoryEntry) : StronglySorted (λ a b, seq a < seq b) l → ∃ k, filter (λ c, Z.leb (seq c) end_ = true) l = take k l.
Proof.
  induction 1 as [|c l Hl IH Hc]; [by exists 0%nat|]. destruct IH as [k Hk]. destruct (Z.leb (seq c) end_) eqn:Hle.
  - exists (S k). rewrite filter_cons_True by done. cbn. by f_equal.
  - exists 0%nat. rewrite filter_none; [done|]. intros x [-> |Hx]%elem_of_cons; [congruence|]. rewrite list.Forall_forall in Hc. specialize (Hc x Hx). lia.
Qed.
(** The page of a turn is a prefix of what is to come, empty only at the end. *)
Lemma page_is_prefix done_ rest m n catchUpEnd : fine m → changes_of (now m) = done_ ++ rest → (0 < n)%nat →
  let isCatchingUp := match catchUpEnd with Some end_ => Z.ltb (last_seq (cursor_seq c0) done_) end_ | None => false end in
  (isCatchingUp = true → ∀ end_, catchUpEnd = Some end_ → end_ ≤ cursor_seq c0 ∨ ∃ c, c ∈ done_ ++ rest ∧ seq c = end_) →
  let changesRead := changesAfter m store0 (last_seq (cursor_seq c0) done_) n in
  ∃ k, (if isCatchingUp then filter (λ c, match catchUpEnd with Some end_ => Z.leb (seq c) end_ | None => true end = true) changesRead else changesRead) = take k rest ∧
    (take k rest = [] → rest = []).
Proof.
  intros Hf Hch Hn. cbv zeta. intros Hcu. rewrite (to_come _ _ _ n Hf Hch). pose proof (l_orderly law _ (proj1 Hf)) as Hord. rewrite Hch in Hord. pose proof (orderly_le _ _ Hord) as (Hle & Hdone & Hrest).
  assert (Hs : StronglySorted (λ a b, seq a < seq b) rest) by (destruct Hord as [Hs _ _ _ _]; by apply StronglySorted_app in Hs as (_ & _ & Hs)).
  destruct catchUpEnd as [end_|]; [destruct (Z.ltb_spec (last_seq (cursor_seq c0) done_) end_) as [Hlt|_]|].
  - assert (Hin : ∃ c, c ∈ rest ∧ seq c = end_).
    { destruct (Hcu eq_refl end_ eq_refl) as [?|(c & Hin & Heq)]; [lia|]. exists c. split; [|done]. apply elem_of_app in Hin as [Hin|Hin]; [|done]. specialize (Hdone c Hin). lia. }
    destruct Hin as (c & Hin & Heq). destruct rest as [|x rest]; [by apply not_elem_of_nil in Hin|].
    assert (Hx : Z.leb (seq x) end_ = true).
    { apply Z.leb_le. apply StronglySorted_cons in Hs as [Hx _]. rewrite list.Forall_forall in Hx. apply elem_of_cons in Hin as [-> |Hin]; [lia|]. specialize (Hx c Hin). lia. }
    destruct n as [|n]; [lia|]. cbn [take]. rewrite filter_cons_True by done. apply StronglySorted_cons in Hs as [_ Hs].
    destruct (filter_prefix end_ (take n rest)) as [k Hk]; [rewrite <- (take_drop n rest) in Hs; by apply StronglySorted_app_1_l in Hs|].
    exists (S (min k n)). cbn [take]. rewrite Hk, take_take. done.
  - exists n. split; [done|]. destruct n; [lia|]. by destruct rest.
  - exists n. split; [done|]. destruct n; [lia|]. by destruct rest.
Qed.

(** ** One run
    The changes [held] were read since the cursor was saved, for the latest offer of a catch-up. *)
Record running (done_ : list DsRowHistoryEntry) (vs : list verdict) (held : list DsRowHistoryEntry) (vsh : list verdict) (rest : list DsRowHistoryEntry) (r : Run) (m : met E) (s : source) : Prop := mkRunning
  { n_reading : reading done_ vs (held ++ rest) m s;
    n_cursor : run_cursor r = cursor_at (done_ ++ held) (vs ++ vsh);
    n_judged : judged trigger0 w0 (worlds m) (count_after (cursor_count c0) done_) held vsh;
    n_holding : if run_holding r then fires_latest trigger0 ∧ latest_passing number_of toLowerCase trigger0 (due_of vsh) None = Some (run_latest r) ∧ is_Some (catchUps s !! t0)
                else held = [] ∧ vsh = [] ∧ run_latest r = None }.
(** The conditions of a trigger that fires the latest of a backlog can be read. *)
Definition readable : Prop := fires_latest trigger0 → ∀ o, passesTheConditions number_of toLowerCase trigger0 o ≠ None.
Definition same_flags (s s' : source) : Prop := pendingTicks s' = pendingTicks s ∧ polling s' = polling s ∧ subscribed s' = subscribed s.
Lemma same_source_flags s s' : same_source s s' → same_flags s s'.
Proof. by intros (_ & _ & ? & ? & ?). Qed.
Lemma cursorOf_same s s' : cursors s' = cursors s → cursorOf s' trigger0 = cursorOf s trigger0.
Proof. unfold cursorOf. by intros ->. Qed.
(** The latest of a catch-up is handed over for all that was held. *)
Lemma release done_ vs held vsh rest r m s m' s' r' ok : running done_ vs held vsh rest r m s → offerTheLatestOfTheCatchUp trigger0 w0 r m s = (m', s', r', ok) →
  evolves m m' ∧ same_flags s s' ∧ catchUps s' = catchUps s ∧ ∃ new, changes_of (now m') = changes_of (now m) ++ new ∧
    if ok then running (done_ ++ held) (vs ++ vsh) [] [] (rest ++ new) r' m' s' ∧ run_holding r' = false ∧ run_offersLeft r' = run_offersLeft r ∧ (run_holding r = false → new = [])
    else reading done_ vs (held ++ rest ++ new) m' s' ∧ t0 ∈ refused m'.
Proof.
  intros [Hr Hcur Hj Hhold]. unfold offerTheLatestOfTheCatchUp. destruct (run_holding r) eqn:Hh; cbn [negb].
  2: { intros [= <- <- <- <-]. destruct Hhold as (-> & -> & Hl). split_and!; [apply evolves_refl, Hr|done|done|]. exists []. rewrite !app_nil_r in *. split_and!; try done.
       constructor; [done|by rewrite !app_nil_r|constructor|]. by rewrite Hh. }
  destruct Hhold as (Hf & Hl & Hcu). destruct (offer _ _ _ _ _ _) as [[m1 s1] ok1] eqn:Ho. apply offer_outcome in Ho as (He & Hsame & Hout); [|apply Hr].
  pose proof Hsame as (Hs1 & Hs2 & Hs3 & Hs4 & Hs5). destruct (changes_grow _ _ He) as [new Hnew].
  destruct ok1; intros [= <- <- <- <-]; (split; [done|]; split; [by apply (same_source_flags s s1)|]; split; [done|]; exists new; split; [done|]).
  - destruct Hout as [Hoff Href]. assert (Hth : thinned trigger0 (due_of vsh) (match run_latest r with Some o => [o] | None => [] end)).
    { destruct (latest_thinned _ _ _ _ Hf Hl) as [[-> ?]|(o & -> & _ & ?)]; done. }
    rewrite Hcur. assert (Hadv : reading (done_ ++ held) (vs ++ vsh) (rest ++ new) m1 (set_cursor t0 (cursor_at (done_ ++ held) (vs ++ vsh)) s1)).
    { apply (reading_advance done_ vs held vsh rest m s m1 s1 (match run_latest r with Some o => [o] | None => [] end)); try done; [eapply judged_more; [apply He|done]|by rewrite Hs2]. }
    split_and!; [|done|done|done]. constructor; [done|cbn; by rewrite !app_nil_r|constructor|done].
  - split; [|done]. rewrite app_assoc. apply (reading_later done_ vs (held ++ rest) m s); try done; [by apply cursorOf_same|by rewrite Hs2].
Qed.
Lemma reading_endCatchUp done_ vs rest m s : reading done_ vs rest m s → reading done_ vs rest m (endCatchUp t0 s).
Proof. intros [Hf Hch Hcur Hc Hj Hh]. constructor; try done. intros end_. unfold endCatchUp. cbn. by rewrite lookup_delete_eq. Qed.
Lemma page_no_bar a page b : orderly (a ++ page ++ b) → Forall (λ c, 124%N ∉ createdAt c) page.
Proof. intros [_ Hall _ _ _]. rewrite !list.Forall_app in Hall. destruct Hall as (_ & Hp & _). eapply list.Forall_impl; [exact Hp|]. by intros c [_ Hc]. Qed.
Lemma page_held a page b m : changes_of (now m) = a ++ page ++ b → holds_page page (now m).
Proof. intros Hch c Hc. assert (Hin : c ∈ changes_of (now m)) by (rewrite Hch; set_solver). by apply list_elem_of_filter in Hin as [_ ?]. Qed.
(** The start of a turn: the held offers of a catch-up that ended are handed over. *)
Lemma turn_starts done_ vs held vsh rest r m s m1 s1 r1 ok : running done_ vs held vsh rest r m s →
  let catchUpEnd := catchUps s !! t0 in
  let isCatchingUp := match catchUpEnd with Some end_ => Z.ltb (cursor_seq (run_cursor r)) end_ | None => false end in
  (if bool_decide (is_Some catchUpEnd) && negb isCatchingUp then
     let '(m1, s1, r1, ok) := offerTheLatestOfTheCatchUp trigger0 w0 r m s in (m1, if ok : bool then endCatchUp t0 s1 else s1, r1, ok)
   else (m, s, r, true)) = (m1, s1, r1, ok) →
  evolves m m1 ∧ same_flags s s1 ∧
  if ok then ∃ done1 vs1 held1 vsh1 rest1, running done1 vs1 held1 vsh1 rest1 r1 m1 s1 ∧ run_offersLeft r1 = run_offersLeft r ∧ done1 ++ held1 = done_ ++ held ∧ done_ `prefix_of` done1 ∧
         (if isCatchingUp then catchUps s1 = catchUps s else run_holding r1 = false ∧ catchUps s1 !! t0 = None)
  else ∃ rest1, reading done_ vs rest1 m1 s1 ∧ t0 ∈ refused m1.
Proof.
  intros Hrun. cbv zeta. pose proof Hrun as [Hr Hcur Hj Hhold]. destruct (catchUps s !! t0) as [end_|] eqn:Hcu; [destruct (Z.ltb (cursor_seq (run_cursor r)) end_)|].
  - rewrite andb_false_r. intros [= <- <- <- <-]. split_and!; [apply evolves_refl, Hr|done..|]. exists done_, vs, held, vsh, rest. by split_and!.
  - rewrite bool_decide_true by done. cbn [andb negb]. destruct (offerTheLatestOfTheCatchUp _ _ _ _ _) as [[[m2 s2] r2] ok2] eqn:Hl. intros [= <- <- <- <-].
    apply (release done_ vs held vsh rest) in Hl as (He & Hfl & Hcu2 & new & Hnew & Hout); [|done]. split; [done|]. destruct ok2.
    + destruct Hout as ([Hr2 Hc2 Hj2 Hh2] & Hno & Hleft & _). split; [done|]. exists (done_ ++ held), (vs ++ vsh), [], [], (rest ++ new). rewrite Hno in Hh2. split_and!; [|done|by rewrite app_nil_r|by eexists|done|apply lookup_delete_eq].
      constructor; [by apply reading_endCatchUp|done|done|by rewrite Hno].
    + destruct Hout as [Hr2 Href]. split; [done|]. by eexists.
  - rewrite bool_decide_false by (by intros [? ?]). cbn [andb]. intros [= <- <- <- <-]. split_and!; [apply evolves_refl, Hr|done..|]. exists done_, vs, held, vsh, rest. split_and!; try done.
    destruct (run_holding r); [|done]. destruct Hhold as (_ & _ & []). congruence.
Qed.
Lemma read_pages_own pages : ∀ r m s done_ vs held vsh rest m' s' r' ending, running done_ vs held vsh rest r m s →
  read_pages number_of toLowerCase stringify dateParse trigger0 w0 pages r m s = (m', s', r', ending) →
  evolves m m' ∧ same_flags s s' ∧ ∃ done', done_ `prefix_of` done' ∧
    match ending with
    | Thrown => (readable → t0 ∈ refused m') ∧ ∃ vs' rest', reading done' vs' rest' m' s'
    | EndReached => ∃ vs', running done' vs' [] [] [] r' m' s' ∧ run_holding r' = false
    | BudgetSpent => ∃ vs' held' vsh' rest', running done' vs' held' vsh' rest' r' m' s' ∧ (length (done_ ++ held) ≤ length (done' ++ held'))%nat ∧ (pages = 0%nat ∨ run_offersLeft r = 0%nat ∨ (length (done_ ++ held) < length (done' ++ held'))%nat)
    end.
Proof.
  induction pages as [|pages IH]; intros r m s done_ vs held vsh rest m' s' r' ending Hrun; cbn [read_pages].
  { intros [= <- <- <- <-]. split_and!; [apply evolves_refl, (n_reading _ _ _ _ _ _ _ _ Hrun)|done..|]. exists done_. split; [done|]. exists vs, held, vsh, rest. split_and!; [done|done|by left]. }
  destruct (run_offersLeft r) as [|left_] eqn:Hleft.
  { intros [= <- <- <- <-]. split_and!; [apply evolves_refl, (n_reading _ _ _ _ _ _ _ _ Hrun)|done..|]. exists done_. split; [done|]. exists vs, held, vsh, rest. split_and!; [done|done|by right; left]. }
  match goal with |- (let '(_, _) := ?b in _) = _ → _ => destruct b as [[[m1 s1] r1] ok] eqn:Hstart end.
  apply (turn_starts done_ vs held vsh rest) in Hstart as (He1 & Hfl1 & Hout1); [|done].
  destruct ok; cbn [negb]; [|intros [= <- <- <- <-]; destruct Hout1 as (rest1 & Hr1 & Href); split_and!; [done..|]; exists done_; split; [done|]; split; [done|by eexists _, _]].
  destruct Hout1 as (done1 & vs1 & held1 & vsh1 & rest1 & Hrun1 & Hleft1 & Hsame1 & Hpre1 & Hcatch). pose proof Hrun1 as [Hr1 Hcur1 Hj1 Hhold1]. pose proof Hrun as [_ Hcur _ _].
  assert (Hseq : cursor_seq (run_cursor r) = last_seq (cursor_seq c0) (done1 ++ held1)) by (by rewrite Hcur, Hsame1).
  assert (Hseq1 : cursor_seq (run_cursor r1) = last_seq (cursor_seq c0) (done1 ++ held1)) by (by rewrite Hcur1). rewrite Hseq, Hseq1, Hleft1, Hleft in *.
  set (catchUpEnd := catchUps s !! t0) in *. set (isCatchingUp := match catchUpEnd with Some end_ => Z.ltb (last_seq (cursor_seq c0) (done1 ++ held1)) end_ | None => false end) in *.
  set (keeps := isCatchingUp && bool_decide (backlogPolicy (policy (trigger_graph trigger0)) = FireLatestOnly)).
  set (pageSize := if keeps then CHANGES_PER_PAGE else Nat.min CHANGES_PER_PAGE (S left_)).
  assert (Hpos : (0 < pageSize)%nat) by (unfold pageSize, CHANGES_PER_PAGE; destruct keeps; lia).
  assert (Hch1 : changes_of (now m1) = (done1 ++ held1) ++ rest1) by (by rewrite (r_changes _ _ _ _ _ Hr1), app_assoc).
  destruct (page_is_prefix (done1 ++ held1) rest1 m1 pageSize catchUpEnd) as (k & Hpage & Hempty); [apply Hr1|done|done| |].
  { fold isCatchingUp. intros Hc end_ Hend. rewrite Hc in Hcatch. rewrite <- app_assoc. apply (r_catchUp _ _ _ _ _ Hr1). rewrite Hcatch. done. }
  fold isCatchingUp in Hpage. rewrite Hpage. clear Hpage.
  destruct (take k rest1) as [|c page] eqn:Htake.
  { intros [= <- <- <- <-]. split_and!; [done..|]. rewrite Hempty in * by done. assert (Hno : run_holding r1 = false).
    { destruct isCatchingUp eqn:Hc; [|by apply Hcatch]. exfalso. unfold isCatchingUp in Hc. destruct catchUpEnd as [end_|] eqn:Hcu; [|done]. apply Z.ltb_lt in Hc.
      assert (Hend : catchUps s1 !! t0 = Some end_) by (by rewrite Hcatch). pose proof (r_orderly _ _ _ _ _ Hr1) as Hord. rewrite app_nil_r in *. rewrite <- (app_nil_r (done1 ++ held1)) in Hord.
      destruct (orderly_le _ _ Hord) as (Hle & Hdone & _). destruct (r_catchUp _ _ _ _ _ Hr1 _ Hend) as [?|(x & Hx & Hxs)]; [lia|]. specialize (Hdone x Hx). lia. }
    rewrite Hno in Hhold1. destruct Hhold1 as (-> & -> & _). exists done1. split; [done|]. exists vs1. split; [done|done]. }
  assert (Hsplit : rest1 = (c :: page) ++ drop k rest1) by (by rewrite <- Htake, take_drop). set (rest2 := drop k rest1) in *. clearbody rest2. subst rest1. clear Htake Hempty. set (pg := c :: page) in *.
  destruct (walk_judged m1 (run_cursor r1) pg) as (m2 & vsp & Hwalk & He2 & Hno2 & Hjp).
  { apply Hr1. } { by eapply page_held. } { eapply (page_no_bar (done1 ++ held1)). rewrite <- Hch1. apply (l_orderly law), Hr1. }
  rewrite Hwalk. clear Hwalk. assert (Hcount : cursor_count (run_cursor r1) = count_after (cursor_count c0) (done1 ++ held1)) by (by rewrite Hcur1). rewrite Hcount in *.
  set (cursor := mkTableCursor _ _ _). assert (Hcursor : cursor = cursor_at (done1 ++ held1 ++ pg) (vs1 ++ vsh1 ++ vsp)).
  { unfold cursor, cursor_at. rewrite Hcur1. cbn [cursor_at cursor_seq cursor_tooLarge]. rewrite !app_assoc, !last_seq_app, !count_after_app, !large_app. f_equal. lia. }
  clearbody cursor. subst cursor. destruct (changes_grow _ _ He2) as [new2 Hnew2].
  assert (Hr2 : reading done1 vs1 ((held1 ++ pg) ++ rest2 ++ new2) m2 s1).
  { rewrite !app_assoc in *. apply (reading_later done1 vs1 _ m1 s1); try done. by destruct Hno2. }
  assert (Hlen : (length (done_ ++ held) < length (done1 ++ held1 ++ pg))%nat) by (rewrite <- Hsame1, app_assoc, !length_app; cbn; lia).
  destruct keeps eqn:Hkeep.
  - (* the latest offer of the catch-up is kept *)
    apply andb_true_iff in Hkeep as [Hc Hf%bool_decide_eq_true]. rewrite Hc in Hcatch. destruct (latest_passing number_of toLowerCase trigger0 (due_of vsp) (run_latest r1)) as [latest|] eqn:Hlat.
    2: { intros [= <- <- <- <-]. split_and!; [by eapply evolves_trans|done..|]. exists done1. split; [done|]. split; [|by eexists _, _].
         intros Hread. exfalso. clear -Hlat Hread Hf. revert Hlat. generalize (run_latest r1). induction (due_of vsp) as [|o os IH]; intros prev; [done|]. cbn [latest_passing].
         destruct (passesTheConditions number_of toLowerCase trigger0 o) as [b|] eqn:Hp; [cbn; apply IH|by apply Hread in Hp]. }
    intros Hrest. apply (IH _ _ _ done1 vs1 (held1 ++ pg) (vsh1 ++ vsp) (rest2 ++ new2)) in Hrest as (He3 & Hfl3 & done3 & Hpre3 & Hout3).
    + split; [eapply evolves_trans; [exact He1|by eapply evolves_trans]|]. split; [unfold same_flags in *; intuition congruence|]. exists done3. split; [by trans done1|].
      destruct ending; [done| |done]. destruct Hout3 as (vs3 & held3 & vsh3 & rest3 & Hrun3 & Hb & _). exists vs3, held3, vsh3, rest3. split_and!; [done|lia|right; right; lia].
    + constructor; [done|done| |].
      * apply judged_app; [eapply judged_more; [apply He2|done]|]. by rewrite <- count_after_app.
      * cbn [run_holding run_latest]. split; [done|]. split; [|rewrite Hcatch; change (is_Some catchUpEnd); unfold isCatchingUp in Hc; destruct catchUpEnd; [by eexists|done]].
        rewrite due_app, latest_passing_app. destruct (run_holding r1); [destruct Hhold1 as (_ & -> & _); done|]. destruct Hhold1 as (_ & -> & Hl). cbn. by rewrite <- Hl.
  - (* the page is handed over *)
    assert (Hno : run_holding r1 = false).
    { destruct (run_holding r1); [|done]. destruct Hhold1 as (Hf & _ & _). destruct isCatchingUp; [|by destruct Hcatch]. unfold keeps in Hkeep. by rewrite bool_decide_true in Hkeep. }
    rewrite Hno in Hhold1. destruct Hhold1 as (-> & -> & Hl). cbn [app] in *. rewrite !app_nil_r in *.
    destruct (offer _ _ _ _ _ _) as [[m3 s3] ok3] eqn:Ho. apply offer_outcome in Ho as (He3 & Hsame3 & Hout3); [|apply Hr2]. pose proof Hsame3 as (Hs1 & Hs2 & _). destruct (changes_grow _ _ He3) as [new3 Hnew3].
    assert (He : evolves m m3) by (eapply evolves_trans; [exact He1|by eapply evolves_trans]). assert (Hfl : same_flags s s3) by (apply same_source_flags in Hsame3; unfold same_flags in *; intuition congruence).
    destruct ok3.
    + destruct Hout3 as [Hoff Href]. intros Hrest.
      assert (Hr3 : reading (done1 ++ pg) (vs1 ++ vsp) ((rest2 ++ new2) ++ new3) m3 (set_cursor t0 (cursor_at (done1 ++ pg) (vs1 ++ vsp)) s3)).
      { apply (reading_advance done1 vs1 pg vsp (rest2 ++ new2) m2 s1 m3 s3 (due_of vsp)); try done; [eapply judged_more; [apply He3|done]|apply thinned_all|by rewrite Hs2]. }
      apply (IH _ _ _ (done1 ++ pg) (vs1 ++ vsp) [] [] ((rest2 ++ new2) ++ new3)) in Hrest as (He4 & Hfl4 & done4 & Hpre4 & Hout4).
      * split; [by eapply evolves_trans|]. split; [unfold same_flags in *; cbn in Hfl4; intuition congruence|]. exists done4. split; [trans done1; [done|]; by trans (done1 ++ pg); [by eexists|]|].
        destruct ending; [done| |done]. destruct Hout4 as (vs4 & held4 & vsh4 & rest4 & Hrun4 & Hb & _). rewrite app_nil_r in Hb. exists vs4, held4, vsh4, rest4. split_and!; [done|lia|right; right; lia].
      * constructor; [done|by rewrite !app_nil_r|constructor|]. cbn [run_holding run_latest]. by rewrite Hno.
    + intros [= <- <- <- <-]. split_and!; [done|apply Hfl..|]. exists done1. split; [done|]. split; [done|]. exists vs1, ((pg ++ rest2 ++ new2) ++ new3). apply (reading_later done1 vs1 (pg ++ rest2 ++ new2) m2 s1); try done; [by apply cursorOf_same|by rewrite Hs2].
Qed.

(** ** Polls of this trigger *)
Hypothesis is_table : tableWhenOf trigger0 = Some w0.
(** In every world of the run the trigger is armed and its store belongs to its project. *)
Definition followed : Prop := ∀ e, sound e → trigger0 ∈ armedIn e ∧ storeProject e store0 = Some (trigger_projectId trigger0).
(** A tick is to come, or everything was read and no catch-up is under way. *)
Definition settled (rest : list DsRowHistoryEntry) (s : source) : Prop := t0 ∈ pendingTicks s ∨ (rest = [] ∧ catchUps s !! t0 = None).
Lemma latestSeq_reached (m : met E) store : latestSeq m store ≤ 0 ∨ ∃ c, c ∈ historyIn (now m) store ∧ seq c = latestSeq m store.
Proof.
  unfold latestSeq. change (historyIn m store) with (historyIn (now m) store). generalize (historyIn (now m) store) as l. intros l.
  cut (∀ x, fold_left Z.max (seq <$> l) x = x ∨ ∃ c, c ∈ l ∧ seq c = fold_left Z.max (seq <$> l) x). { intros Hl. destruct (Hl 0) as [-> |?]; [left; lia|by right]. }
  induction l as [|c l IH]; intros x; [by left|]. rewrite fmap_cons. cbn [fold_left]. destruct (IH (Z.max x (seq c))) as [Heq|(y & Hy & Heq)].
  - destruct (Z.max_spec x (seq c)) as [[_ Hm]|[_ Hm]]; rewrite Hm in *; [right; exists c; split; [left|done]|by left].
  - right. exists y. split; [by right|done].
Qed.
Lemma reading_newest done_ vs rest m s : reading done_ vs rest m s → latestSeq m store0 ≤ cursor_seq c0 ∨ ∃ c, c ∈ done_ ++ rest ∧ seq c = latestSeq m store0.
Proof.
  intros Hr. destruct (latestSeq_reached m store0) as [Hle|(c & Hin & Heq)]; [left; pose proof (o_seq _ (r_orderly _ _ _ _ _ Hr)); lia|].
  destruct (decide (cursor_seq c0 < seq c)) as [Hlt|]; [|left; lia]. right. exists c. split; [|done]. rewrite <- (r_changes _ _ _ _ _ Hr). by apply list_elem_of_filter.
Qed.
Lemma reading_catchUp done_ vs rest m s x : reading done_ vs rest m s → (∀ end_, x !! t0 = Some end_ → catchUps s !! t0 = Some end_ ∨ latestSeq m store0 = end_) → reading done_ vs rest m (set_catchUps x s).
Proof.
  intros Hr Hm. pose proof (reading_newest _ _ _ _ _ Hr) as Hnew. destruct Hr as [Hf Hch Hcur Hc Hj Hh]. constructor; try done. intros end_ Hend. cbn in Hend.
  destruct (Hm _ Hend) as [?|<-]; [by apply Hc|done].
Qed.
Lemma reading_set (g : source → source) done_ vs rest m s : (∀ s, cursors (g s) = cursors s ∧ catchUps (g s) = catchUps s) → reading done_ vs rest m s → reading done_ vs rest m (g s).
Proof. intros Hg [Hf Hch Hcur Hc Hj Hh]. destruct (Hg s) as [H1 H2]. constructor; try done; [rewrite <- Hcur; by apply cursorOf_same|by rewrite H2]. Qed.
Lemma readChangesOf_own done_ vs rest m s m' s' ok : reading done_ vs rest m s → readChangesOf number_of toLowerCase stringify dateParse trigger0 w0 m s = (m', s', ok) →
  evolves m m' ∧ polling s' = polling s ∧ subscribed s' = subscribed s ∧ ∃ done' vs' rest', done_ `prefix_of` done' ∧ reading done' vs' rest' m' s' ∧
    (followed → readable → t0 ∉ refused m' → ok = true ∧ settled rest' s' ∧ (t0 ∉ pendingTicks s → t0 ∈ pendingTicks s' → (length done_ < length done')%nat)).
Proof.
  intros Hr. unfold readChangesOf. destruct (negb (isStoreOfTheProject m trigger0 w0)) eqn:Hproj.
  { intros [= <- <- <-]. split_and!; [apply evolves_refl, Hr|done..|]. exists done_, vs, rest. split_and!; [done|by apply reading_endCatchUp|]. intros Hfol. exfalso.
    unfold isStoreOfTheProject in Hproj. rewrite bool_decide_true in Hproj; [done|]. apply Hfol, Hr. }
  rewrite (r_cursor _ _ _ _ _ Hr). destruct (read_pages _ _ _ _ _ _ _ _ _ _) as [[[m1 s1] r1] ending] eqn:Hrun.
  apply (read_pages_own _ _ _ _ done_ vs [] [] rest) in Hrun as (He1 & (Hft & Hfp & Hfs) & done1 & Hpre & Hout1); [|constructor; [done|by rewrite !app_nil_r|constructor|done]].
  destruct ending.
  - destruct Hout1 as (vs1 & Hrun1 & Hno). unfold offerTheLatestOfTheCatchUp. rewrite Hno. cbn [negb]. intros [= <- <- <-]. split_and!; [done..|]. exists done1, vs1, [].
    split_and!; [done|apply reading_endCatchUp, (n_reading _ _ _ _ _ _ _ _ Hrun1)|]. intros _ _ _. split_and!; [done|right; split; [done|apply lookup_delete_eq]|]. cbn. by rewrite Hft.
  - destruct Hout1 as (vs1 & held1 & vsh1 & rest1 & Hrun1 & _ & Hb). assert (Hlen : (length done_ < length (done1 ++ held1))%nat) by (rewrite app_nil_r in Hb; by destruct Hb as [?|[?|?]]).
    destruct (offerTheLatestOfTheCatchUp _ _ _ _ _) as [[[m2 s2] r2] ok2] eqn:Hlat. apply (release done1 vs1 held1 vsh1 rest1) in Hlat as (He2 & (Hft2 & Hfp2 & Hfs2) & Hcu2 & new & Hnew & Hout2); [|done].
    assert (He : evolves m m2) by (by eapply evolves_trans). destruct ok2; cbn [negb]; intros [= <- <- <-].
    + destruct Hout2 as (Hrun2 & _ & _ & _). pose proof (n_reading _ _ _ _ _ _ _ _ Hrun2) as Hr2. cbn [app] in Hr2.
      split_and!; [done|destruct (catchUps s2 !! t0); cbn; congruence..|]. exists (done1 ++ held1), (vs1 ++ vsh1), (rest1 ++ new). split_and!; [by apply prefix_app_r| |].
      * unfold continueOnTheNextTick. match goal with |- reading _ _ _ _ (set_ticks ?x ?y) => apply (reading_set (set_ticks x)); [done|] end. destruct (catchUps s2 !! t0) eqn:Hc; [done|].
        apply reading_catchUp; [done|]. intros end_. rewrite lookup_insert_eq. intros [= <-]. by right.
      * intros _ _ _. split_and!; [done|left; cbn; set_solver|done].
    + destruct Hout2 as [Hr2 Href]. split_and!; [done|congruence..|]. exists done1, vs1, (held1 ++ rest1 ++ new). split_and!; [done|done|]. intros _ _ Hno. done.
  - destruct Hout1 as (Hthr & vs1 & rest1 & Hr1). intros [= <- <- <-]. split_and!; [done..|]. exists done1, vs1, rest1. split_and!; [done|done|]. intros _ Hread Hno. by destruct (Hno (Hthr Hread)).
Qed.
Lemma poll_rounds_own rounds : ∀ done_ vs rest m s m' s', reading done_ vs rest m s → poll_rounds number_of toLowerCase stringify dateParse rounds trigger0 w0 m s = (m', s') →
  evolves m m' ∧ polling s' = polling s ∧ subscribed s' = subscribed s ∧ ∃ done' vs' rest', done_ `prefix_of` done' ∧ reading done' vs' rest' m' s' ∧
    match rounds with
    | O => m' = m ∧ s' = s ∧ done' = done_ ∧ rest' = rest
    | S _ => followed → readable → t0 ∉ refused m' → settled rest' s' ∧ (t0 ∉ pendingTicks s → t0 ∈ pendingTicks s' → (length done_ < length done')%nat)
    end.
Proof.
  induction rounds as [|rounds IH]; intros done_ vs rest m s m' s' Hr; cbn [poll_rounds]; [intros [= <- <-]; split_and!; [apply evolves_refl, Hr|done..|]; by exists done_, vs, rest|].
  destruct (readChangesOf _ _ _ _ _ _ _ _) as [[m1 s1] ok] eqn:Hread.
  apply (readChangesOf_own done_ vs rest) in Hread as (He1 & Hp1 & Hs1 & done1 & vs1 & rest1 & Hpre1 & Hr1 & Hset1); [|by apply (reading_set (set_changed (changedWhilePolling s ∖ {[t0]})))].
  cbn [polling subscribed pendingTicks set_changed] in *. destruct (ok && bool_decide (t0 ∈ changedWhilePolling s1)) eqn:Hagain.
  - intros Hrest. apply (IH done1 vs1 rest1) in Hrest as (He2 & Hp2 & Hs2 & done2 & vs2 & rest2 & Hpre2 & Hr2 & Hset2); [|done].
    split_and!; [by eapply evolves_trans|congruence..|]. exists done2, vs2, rest2. split_and!; [by trans done1|done|]. intros Hfol Hreadable Hno.
    assert (Hno1 : t0 ∉ refused m1) by (contradict Hno; by apply (ev_refused _ _ He2)). destruct (Hset1 Hfol Hreadable Hno1) as (_ & Hs & Hprog). apply prefix_length in Hpre1, Hpre2.
    destruct rounds as [|rounds]; [destruct Hset2 as (-> & -> & -> & ->); done|]. destruct (Hset2 Hfol Hreadable Hno) as [Hs' Hprog']. split; [done|]. intros Hout Hin.
    destruct (decide (t0 ∈ pendingTicks s1)) as [Hin1|Hout1]; [specialize (Hprog Hout Hin1)|specialize (Hprog' Hout1 Hin)]; lia.
  - intros [= <- <-]. split_and!; [done..|]. exists done1, vs1, rest1. split_and!; [done|done|]. intros Hfol Hreadable Hno. by destruct (Hset1 Hfol Hreadable Hno) as (_ & ? & ?).
Qed.
(** What a poll of the trigger leaves. *)
Lemma poll_own rounds fromWrite done_ vs rest m s m' s' : reading done_ vs rest m s → t0 ∉ polling s → poll number_of toLowerCase stringify dateParse (S rounds) trigger0 fromWrite m s = (m', s') →
  evolves m m' ∧ t0 ∉ polling s' ∧ subscribed s' = subscribed s ∧ ∃ done' vs' rest', done_ `prefix_of` done' ∧ reading done' vs' rest' m' s' ∧
    (followed → readable → t0 ∉ refused m' → (fromWrite = true → is_Some (catchUps s !! t0) → t0 ∈ pendingTicks s) →
     settled rest' s' ∧ (t0 ∉ pendingTicks s → t0 ∈ pendingTicks s' → (length done_ < length done')%nat)).
Proof.
  intros Hr Hidle. unfold poll. rewrite is_table. destruct (fromWrite && bool_decide (is_Some (catchUps s !! t0))) eqn:Hskip.
  { intros [= <- <-]. apply andb_true_iff in Hskip as [-> Hsome%bool_decide_eq_true]. split_and!; [apply evolves_refl, Hr|done..|]. exists done_, vs, rest. split_and!; [done|done|].
    intros _ _ _ Hw. split; [left; by apply Hw|done]. }
  rewrite bool_decide_false by done. destruct (poll_rounds _ _ _ _ _ _ _ _ _) as [m1 s1] eqn:Hpoll.
  apply (poll_rounds_own _ done_ vs rest) in Hpoll as (He & Hp & Hs & done' & vs' & rest' & Hpre & Hr' & Hset); [|by apply (reading_set (set_polling (polling s ∪ {[t0]})))].
  intros [= <- <-]. split_and!; [done|cbn; set_solver|done|]. exists done', vs', rest'. split_and!; [done|by apply (reading_set (set_polling (polling s1 ∖ {[t0]})))|].
  intros Hfol Hreadable Hno _. by apply Hset.
Qed.

(** ** Histories
    The world moves on (and the listener is told of a write), a tick fires, the process ends, it starts again, another trigger is armed. *)
Inductive happening := Moves (e' : E) (told : option str) | Tick (id : str) | Goes_down | Comes_up | Rearmed (tr : TriggerRecord).
Abbreviation state := (met E * source)%type.
Abbreviation poll_all := (pollStore number_of toLowerCase stringify dateParse).
Definition table_step (rounds : nat) (st : state) (h : happening) : state :=
  match h with
  | Moves e' told =>
      match told with
      | Some store => if subscribed st.2 then poll_all (S rounds) store (meets e' st.1) st.2 else (meets e' st.1, st.2)
      | None => (meets e' st.1, st.2)
      end
  | Tick id => if decide (id ∈ pendingTicks st.2) then tick number_of toLowerCase stringify dateParse (S rounds) id st.1 st.2 else st
  | Goes_down => (st.1, mkTableSource (cursors st.2) ∅ ∅ ∅ ∅ false)
  | Comes_up => if subscribed st.2 then st else start number_of toLowerCase stringify dateParse (S rounds) st.1 st.2
  | Rearmed tr => (st.1, startFromNow tr st.1 st.2)
  end.
(** The world stays sound and takes no change of the store back, the listener is told of a change of the store, and this trigger is not armed again. *)
Definition may_happen (m : met E) (h : happening) : Prop :=
  match h with
  | Moves e' told => sound e' ∧ historyIn (now m) store0 `prefix_of` historyIn e' store0 ∧ (historyIn e' store0 ≠ historyIn (now m) store0 → told = Some store0)
  | Rearmed tr => trigger_id tr ≠ t0
  | _ => True
  end.
Inductive reached (rounds : nat) (start_ : state) : state → Prop :=
  | reached_start : reached rounds start_ start_
  | reached_step st h : reached rounds start_ st → may_happen st.1 h → reached rounds start_ (table_step rounds st h).
(** A process that is about to start, with a cursor and nothing handed over yet. *)
Definition about_to_start (st : state) : Prop :=
  sound (now st.1) ∧ worlds st.1 = [now st.1] ∧ accepted st.1 = [] ∧ refused st.1 = [] ∧ cursorOf st.2 trigger0 = Some c0 ∧ st.2 = mkTableSource (cursors st.2) ∅ ∅ ∅ ∅ false.

Definition reported : Prop := followed ∧ quiet ∧ readable.
Record watched (done_ : list DsRowHistoryEntry) (vs : list verdict) (rest : list DsRowHistoryEntry) (st : state) : Prop := mkWatched
  { w_reading : reading done_ vs rest st.1 st.2; w_idle : t0 ∉ polling st.2;
    w_settled : reported → t0 ∉ refused st.1 → subscribed st.2 = true → settled rest st.2 }.
Definition on_watch (st : state) : Prop := ∃ done_ vs rest, watched done_ vs rest st.
Abbreviation keeps st st' := (leaves (fst st) (snd st) (fst st') (snd st')).

Lemma leaves_view m s m' s' : leaves m s m' s' →
  cursorOf s' trigger0 = cursorOf s trigger0 ∧ catchUps s' !! t0 = catchUps s !! t0 ∧ (t0 ∈ pendingTicks s' ↔ t0 ∈ pendingTicks s) ∧ (t0 ∈ polling s' ↔ t0 ∈ polling s) ∧ subscribed s' = subscribed s.
Proof.
  intros [Hview _ _ _ _]. unfold view in Hview. injection Hview as Hg Hcu Ht Hp _ Hu. apply bool_decide_iff in Ht. apply bool_decide_iff in Hp.
  split_and!; [unfold cursorOf, read_cursor; by rewrite Hg|done..].
Qed.
Lemma reading_leaves done_ vs rest m s m' s' : leaves m s m' s' → reading done_ vs rest m s → ∃ new, reading done_ vs (rest ++ new) m' s' ∧ (quiet → new = []).
Proof.
  intros Hl Hr. destruct (leaves_view _ _ _ _ Hl) as (Hcur & Hcu & _). destruct Hl as [_ He Hoff _ Hq]. destruct (changes_grow _ _ He) as [new Hnew]. exists new. split.
  - apply (reading_later done_ vs rest m s); try done. intros end_. by rewrite Hcu.
  - intros Hquiet. unfold changes_of in Hnew. rewrite (Hq Hquiet) in Hnew. destruct new; [done|]. apply (f_equal length) in Hnew. rewrite length_app in Hnew. cbn in Hnew. lia.
Qed.
Lemma watched_leaves done_ vs rest st st' : keeps st st' → watched done_ vs rest st → ∃ rest', watched done_ vs rest' st'.
Proof.
  intros Hl [Hr Hidle Hset]. destruct (leaves_view _ _ _ _ Hl) as (_ & Hcu & Ht & Hp & Hu). destruct (reading_leaves _ _ _ _ _ _ _ Hl Hr) as (new & Hr' & Hnew). exists (rest ++ new).
  constructor; [done|by rewrite Hp|]. intros Hrep Hno Hsub. unfold settled. rewrite Ht, Hcu. rewrite Hnew, app_nil_r by apply Hrep. apply Hset; [done| |congruence].
  contradict Hno. by apply (ev_refused _ _ (lv_evolves _ _ _ _ Hl)).
Qed.
Lemma on_watch_leaves st st' : keeps st st' → on_watch st → on_watch st'.
Proof. intros Hl (done_ & vs & rest & Hw). destruct (watched_leaves _ _ _ _ _ Hl Hw) as [rest' Hw']. by exists done_, vs, rest'. Qed.
Lemma poll_keeps rounds fromWrite st tr : fine st.1 → t0 ≠ trigger_id tr → keeps st (poll number_of toLowerCase stringify dateParse rounds tr fromWrite st.1 st.2).
Proof. intros Hf Hne. pose proof (poll_leaves rounds tr fromWrite st.1 st.2 Hf Hne) as Hp. by destruct (poll _ _ _ _ _ _ _ _ _). Qed.
Lemma fold_leaves (g : state → TriggerRecord → state) l st : fine st.1 → (∀ st' tr, fine st'.1 → tr ∈ l → keeps st' (g st' tr)) → keeps st (fold_left g l st).
Proof.
  revert st. induction l as [|tr l IH]; intros st Hf Hg; [by apply leaves_view_only|]. cbn [fold_left]. assert (Hl : keeps st (g st tr)) by (apply Hg; [done|left]).
  eapply leaves_trans; [exact Hl|]. apply IH; [apply Hl|]. intros st' tr' Hf' Hin. apply Hg; [done|by right].
Qed.
Lemma fold_own (g : state → TriggerRecord → state) l st : fine st.1 → (∀ st' tr, fine st'.1 → t0 ≠ trigger_id tr → keeps st' (g st' tr)) → NoDup (trigger_id <$> l) → trigger0 ∈ l →
  ∃ st1, keeps st st1 ∧ (fine (g st1 trigger0).1 → keeps (g st1 trigger0) (fold_left g l st)).
Proof.
  intros Hf Hg Hnd Hin. apply list_elem_of_split in Hin as (l1 & l2 & ->). rewrite fmap_app, fmap_cons in Hnd. apply list.NoDup_app in Hnd as (_ & Hd & Hnd).
  apply list.NoDup_cons in Hnd as [Ht _]. exists (fold_left g l1 st). rewrite fold_left_app. cbn [fold_left]. split; [|intros Hf1]; (apply fold_leaves; [done|]; intros st' tr Hf' Hin; apply Hg; [done|]).
  - intros Heq. apply (Hd t0); [|left]. rewrite Heq. by apply list_elem_of_fmap_2.
  - intros Heq. apply Ht. rewrite Heq. by apply list_elem_of_fmap_2.
Qed.
Lemma armed_ids (m : met E) l : fine m → l `sublist_of` armedIn (now m) → NoDup (trigger_id <$> l).
Proof. intros Hf Hs. eapply sublist_NoDup; [apply (l_ids law), Hf|]. by apply fmap_sublist. Qed.
(** The triggers a store is polled for, this one among them or not. *)
Lemma fold_watch (g : state → TriggerRecord → state) l st : fine st.1 → l `sublist_of` armedIn (now st.1) →
  (∀ st' tr, fine st'.1 → t0 ≠ trigger_id tr → keeps st' (g st' tr)) → (∀ st', keeps st st' → fine (g st' trigger0).1 ∧ on_watch (g st' trigger0)) →
  (trigger0 ∉ l → on_watch st) → on_watch (fold_left g l st).
Proof.
  intros Hf Hl Hg Hown Hout. assert (Hsame : ∀ tr, tr ∈ l → t0 = trigger_id tr → tr = trigger0).
  { intros tr Hin Heq. apply (l_unedited law (now st.1) tr); [apply Hf| |done]. eapply elem_of_submseteq; [exact Hin|by apply sublist_submseteq]. }
  destruct (decide (t0 ∈ trigger_id <$> l)) as [Hin|Hnot].
  - apply list_elem_of_fmap in Hin as (tr & Heq & Hin). rewrite (Hsame tr Hin Heq) in Hin.
    destruct (fold_own g l st Hf Hg (armed_ids _ _ Hf Hl) Hin) as (st1 & Hk1 & Hk2). destruct (Hown st1 Hk1) as [Hf1 Hw1]. eapply on_watch_leaves; [by apply Hk2|done].
  - eapply on_watch_leaves; [|apply Hout; contradict Hnot; by apply list_elem_of_fmap_2]. apply fold_leaves; [done|]. intros st' tr Hf' Hin. apply Hg; [done|]. intros Heq. apply Hnot. rewrite Heq. by apply list_elem_of_fmap_2.
Qed.
(** *** What each happening leaves *)
Lemma poll_watch rounds fromWrite done_ vs rest m s : reading done_ vs rest m s → t0 ∉ polling s →
  (fromWrite = true → reported → t0 ∉ refused m → is_Some (catchUps s !! t0) → t0 ∈ pendingTicks s) →
  let st' := poll number_of toLowerCase stringify dateParse (S rounds) trigger0 fromWrite m s in fine st'.1 ∧ on_watch st'.
Proof.
  intros Hr Hidle Hcu. cbv zeta. destruct (poll _ _ _ _ _ _ _ _ _) as [m' s'] eqn:Hpoll.
  apply (poll_own _ _ done_ vs rest) in Hpoll as (He & Hidle' & Hsub & done' & vs' & rest' & Hpre & Hr' & Hset'); [|done..]. split; [apply He|].
  exists done', vs', rest'. constructor; [done|done|]. cbn [fst snd]. intros Hrep Hno _. pose proof Hrep as (Hfol & _ & Hread). apply Hset'; try done. intros Hfw Hsome. apply Hcu; try done.
  contradict Hno. by apply (ev_refused _ _ He).
Qed.
Lemma moves_watch rounds st e' told : on_watch st → may_happen st.1 (Moves e' told) → on_watch (table_step rounds st (Moves e' told)).
Proof.
  destruct st as [m s]. intros (done_ & vs & rest & [Hr Hidle Hset]) (Hs & Hp & Htold). cbn [fst snd table_step] in *.
  pose proof (meets_evolves e' m Hs Hp) as He. destruct (changes_grow _ _ He) as [new Hnew].
  assert (Hr1 : reading done_ vs (rest ++ new) (meets e' m) s) by (by apply (reading_later done_ vs rest m s)).
  assert (Hstill : told ≠ Some store0 ∨ subscribed s = false → on_watch (meets e' m, s)).
  { intros Hwhy. exists done_, vs, (rest ++ new). constructor; [done|done|]. cbn [fst snd refused meets]. intros Hrep Hno Hsub. destruct Hwhy as [Hne|?]; [|congruence].
    replace new with (@nil DsRowHistoryEntry); [rewrite app_nil_r; by apply Hset|]. destruct new as [|c new]; [done|]. exfalso. apply Hne, Htold. intros Heq. unfold changes_of in Hnew. cbn [now meets] in Hnew.
    rewrite Heq in Hnew. apply (f_equal length) in Hnew. rewrite length_app in Hnew. cbn in Hnew. lia. }
  destruct told as [store|]; [|by apply Hstill; left]. destruct (subscribed s) eqn:Hsub; [|by apply Hstill; right]. unfold pollStore.
  apply fold_watch; cbn [fst snd].
  - apply He.
  - trans (armedTableTriggers (meets e' m)); apply sublist_filter.
  - intros st' tr Hf Hne. by apply poll_keeps.
  - intros [m1 s1] Hk. cbn [fst snd] in *. destruct (leaves_view _ _ _ _ Hk) as (_ & Hcu & Ht & Hpo & Hu). destruct (reading_leaves _ _ _ _ _ _ _ Hk Hr1) as (new1 & Hr2 & _).
    apply (poll_watch rounds true done_ vs ((rest ++ new) ++ new1)); [done|by rewrite Hpo|]. intros _ Hrep Hno [end_ Hsome]. rewrite Ht. destruct (Hset Hrep) as [?|[_ Hnone]]; [|done|done|congruence].
    contradict Hno. apply (ev_refused _ _ (lv_evolves _ _ _ _ Hk)). done.
  - intros Hnot. destruct (decide (store = store0)) as [->|Hne]; [|apply Hstill; left; congruence]. exists done_, vs, (rest ++ new). constructor; [done|done|]. intros (Hfol & _) _ _. exfalso. apply Hnot.
    apply list_elem_of_filter. split; [by rewrite is_table|]. apply list_elem_of_filter. split; [by rewrite is_table|]. by apply Hfol.
Qed.
Lemma find_armed m : fine m → trigger0 ∈ armedIn (now m) → find (λ tr, str_eqb (trigger_id tr) t0) (armedTableTriggers m) = Some trigger0.
Proof.
  intros Hf Hin. destruct (find _ _) as [tr|] eqn:Hfind.
  - apply find_some in Hfind as [Htr Hid]. apply str_eqb_eq in Hid. apply list_elem_of_In, list_elem_of_filter in Htr as [_ Htr]. f_equal. by apply (l_unedited law (now m)); [apply Hf|..].
  - pose proof (find_none _ _ Hfind trigger0) as Hno. cbn in Hno. rewrite str_eqb_refl in Hno. assert (Ht : trigger0 ∈ armedTableTriggers m) by (apply list_elem_of_filter; split; [by rewrite is_table|done]).
    apply list_elem_of_In in Ht. by specialize (Hno Ht).
Qed.
Lemma tick_watch rounds st id : on_watch st → on_watch (table_step rounds st (Tick id)).
Proof.
  destruct st as [m s]. intros Hon. pose proof Hon as (done_ & vs & rest & [Hr Hidle Hset]). cbn [fst snd table_step] in *. case_decide as Hin; [|done]. unfold tick.
  destruct (decide (id = t0)) as [->|Hne].
  - set (s1 := set_ticks (pendingTicks s ∖ {[t0]}) s). assert (Hr1 : reading done_ vs rest m s1) by (by apply (reading_set (set_ticks (pendingTicks s ∖ {[t0]})))).
    destruct (find _ _) as [tr|] eqn:Hfind.
    + apply find_some in Hfind as [Htr Hid]. apply str_eqb_eq in Hid. apply list_elem_of_In, list_elem_of_filter in Htr as [_ Htr]. rewrite (l_unedited law (now m) tr); [|apply Hr|done|done].
      by apply (poll_watch rounds false done_ vs rest).
    + exists done_, vs, rest. constructor; [by apply reading_endCatchUp|done|]. cbn [fst]. intros (Hfol & _) _ _. exfalso. rewrite find_armed in Hfind; [done|apply Hr|apply Hfol, Hr].
  - eapply (on_watch_leaves (m, s)); [|done]. eapply leaves_trans; [apply (leaves_view_only m s (set_ticks (pendingTicks s ∖ {[id]}) s)); [apply Hr|apply view_set_ticks; set_solver]|].
    destruct (find _ _) as [tr|] eqn:Hfind.
    + apply find_some in Hfind as [_ Hid]. apply str_eqb_eq in Hid. apply (poll_keeps _ _ (m, set_ticks (pendingTicks s ∖ {[id]}) s)); [apply Hr|congruence].
    + apply leaves_view_only; [apply Hr|]. apply view_set_catchUps. by rewrite lookup_delete_ne.
Qed.
Lemma start_watch rounds st : on_watch st → on_watch (table_step rounds st Comes_up).
Proof.
  destruct st as [m s]. intros Hon. cbn [fst snd table_step] in *. destruct (subscribed s) eqn:Hsub; [done|]. destruct Hon as (done_ & vs & rest & [Hr Hidle Hset]). cbn [fst snd] in *. unfold start.
  set (s0 := mkTableSource _ _ _ _ _ true). assert (Hr0 : reading done_ vs rest m s0) by (apply (reading_set (λ s, mkTableSource (cursors s) (catchUps s) (pendingTicks s) (polling s) (changedWhilePolling s) true)); done).
  apply fold_watch; cbn [fst snd].
  - apply Hr.
  - apply sublist_filter.
  - intros [m1 s1] tr Hf Hne. unfold start_trigger. destruct (tableWhenOf tr); [|by apply leaves_view_only]. set (s2 := match cursorOf s1 tr with Some _ => _ | None => _ end). eapply leaves_trans; [|apply (poll_keeps _ _ (m1, s2) tr Hf Hne)]. cbn [fst snd].
    apply leaves_view_only; [done|]. unfold s2. destruct (cursorOf s1 tr); [|done]. destruct (Z.ltb _ _); [|done]. apply view_set_catchUps. by rewrite lookup_insert_ne.
  - intros [m1 s1] Hk. cbn [fst snd] in Hk. destruct (leaves_view _ _ _ _ Hk) as (_ & Hcu & Ht & Hpo & Hu). destruct (reading_leaves _ _ _ _ _ _ _ Hk Hr0) as (new1 & Hr1 & _).
    unfold start_trigger. rewrite is_table, (r_cursor _ _ _ _ _ Hr1). set (s2 := if Z.ltb _ _ then _ else s1). assert (Hr2 : reading done_ vs (rest ++ new1) m1 s2).
    { unfold s2. destruct (Z.ltb _ _); [|done]. apply reading_catchUp; [done|]. intros end_. rewrite lookup_insert_eq. intros [= <-]. by right. }
    apply (poll_watch rounds false done_ vs (rest ++ new1)); [done| |done]. unfold s2. destruct (Z.ltb _ _); cbn; by rewrite Hpo.
  - intros Hnot. exists done_, vs, rest. constructor; [done|done|]. intros (Hfol & _) _ _. exfalso. apply Hnot. apply list_elem_of_filter. split; [by rewrite is_table|]. apply Hfol, Hr.
Qed.
Lemma reached_watch rounds st0 st : about_to_start st0 → reached rounds st0 st → on_watch st.
Proof.
  intros (Hs & Hws & Hacc & Href & Hcur & Hsrc). induction 1 as [|st h _ IH Hmay].
  - exists [], [], (changes_of (now st0.1)). constructor; [|by rewrite Hsrc|by rewrite Hsrc]. constructor; try done.
    + split; [done|]. rewrite Hws. left.
    + rewrite Hcur. f_equal. unfold cursor_at. destruct c0. cbn. f_equal. unfold large_in. cbn. lia.
    + by rewrite Hsrc.
    + constructor.
    + exists []. unfold offered_to. rewrite Hacc. split_and!; [constructor|done|done].
  - destruct h as [e' told|id| | |tr].
    + by apply moves_watch.
    + by apply tick_watch.
    + destruct IH as (done_ & vs & rest & [Hr Hidle Hset]). exists done_, vs, rest. constructor; cbn [table_step fst snd]; [|cbn; set_solver|done]. destruct Hr as [Hf Hch Hc Hcu Hj Hh]. constructor; done.
    + by apply start_watch.
    + eapply on_watch_leaves; [|exact IH]. destruct IH as (done_ & vs & rest & [Hr _ _]). apply (startFromNow_leaves tr); [|apply Hr]. cbn in Hmay. congruence.
Qed.

(** C31. No change that is due is skipped. Take a trigger on a table, with any backlog policy, that is neither edited nor armed again, and any history from a process about to
    start: the world changes as it likes between the calls of the source and during them (rows come and go, sessions change, the engine writes to the store, other triggers are armed
    and polled), as long as no change is taken out of the history of the store and its numbers keep growing; ticks fire, the process ends at any point between two events and starts again, and any submission
    may throw. Then the saved cursor always stands behind a prefix of the changes; each of them was judged, in order, with the row count of the journal, in worlds the source met and that hold it; and the
    offers that were due were handed to the engine in that order by calls that returned, but for those that a trigger set to fire only the latest of a backlog drops, because its conditions do not hold for them or
    because a later one for which they hold is handed over. *)
Theorem no_due_change_is_skipped rounds st0 st : about_to_start st0 → reached rounds st0 st →
  ∃ done_ rest vs ks, changes_of (now st.1) = done_ ++ rest ∧ cursorOf st.2 trigger0 = Some (cursor_at done_ vs) ∧
    judged trigger0 w0 (worlds st.1) (cursor_count c0) done_ vs ∧ thinned trigger0 (due_of vs) ks ∧ ks `sublist_of` offered_to t0 st.1.
Proof.
  intros Hstart Hreach. destruct (reached_watch rounds st0 st Hstart Hreach) as (done_ & vs & rest & [[_ Hch Hcur _ Hj (ks & Hth & Hsub & _)] _ _]). by exists done_, rest, vs, ks.
Qed.
Lemma cursor_moves a b rest vs vs' : orderly (b ++ rest) → a `prefix_of` b → (length a < length b)%nat → cursor_seq (cursor_at a vs) < cursor_seq (cursor_at b vs').
Proof.
  intros Hord [more ->] Hlen. cbn [cursor_at cursor_seq]. rewrite last_seq_app. destruct more as [|x more _] using rev_ind; [rewrite app_nil_r in Hlen; lia|]. unfold last_seq at 2. rewrite last_snoc.
  rewrite <- !app_assoc in Hord. destruct (orderly_le _ _ Hord) as (_ & _ & Hrest). apply Hrest. set_solver.
Qed.
(** C32. Nothing is left behind, and each offer is handed over once. Take the histories of the previous statement in which the trigger stays armed on a store of its project, the fires of the other triggers do
    not write to that store (those of this one may), the conditions of a trigger that fires only the latest of a backlog can be evaluated, and no submission of this trigger has thrown. Then the offers handed to
    the engine for it are exactly those due for the changes behind its cursor, each once and in order; while the process runs, either the cursor is at the end of the history or a tick is to come; and a
    tick that asks for another one has moved the cursor forward. *)
Theorem nothing_is_left_behind rounds st0 st : reported → about_to_start st0 → reached rounds st0 st → t0 ∉ refused st.1 →
  ∃ done_ rest vs ks, changes_of (now st.1) = done_ ++ rest ∧ cursorOf st.2 trigger0 = Some (cursor_at done_ vs) ∧
    judged trigger0 w0 (worlds st.1) (cursor_count c0) done_ vs ∧ thinned trigger0 (due_of vs) ks ∧ offered_to t0 st.1 = ks ∧
    (subscribed st.2 = true → t0 ∈ pendingTicks st.2 ∨ rest = []) ∧
    let st' := table_step rounds st (Tick t0) in
    (t0 ∈ pendingTicks st.2 → t0 ∉ refused st'.1 → t0 ∈ pendingTicks st'.2 → ∃ cursor', cursorOf st'.2 trigger0 = Some cursor' ∧ cursor_seq (cursor_at done_ vs) < cursor_seq cursor').
Proof.
  intros Hrep Hstart Hreach Hno. destruct (reached_watch rounds st0 st Hstart Hreach) as (done_ & vs & rest & [Hr Hidle Hset]). pose proof Hr as [_ Hch Hcur _ Hj (ks & Hth & _ & Hex)].
  exists done_, rest, vs, ks. split_and!; try done; [by apply Hex|intros Hsub; destruct (Hset Hrep Hno Hsub) as [?|[? _]]; [by left|by right]|].
  cbv zeta. intros Hin. destruct st as [m s]. cbn [fst snd table_step] in *. rewrite decide_True by done. unfold tick. pose proof Hrep as (Hfol & _ & Hread). rewrite find_armed; [|apply Hr|apply Hfol, Hr].
  destruct (poll _ _ _ _ _ _ _ _ _) as [m' s'] eqn:Hpoll. cbn [fst snd].
  apply (poll_own _ _ done_ vs rest) in Hpoll as (He & _ & _ & done' & vs' & rest' & Hpre & Hr' & Hset'); [|by apply (reading_set (set_ticks (pendingTicks s ∖ {[t0]})))|done]. intros Hno' Hin'.
  exists (cursor_at done' vs'). split; [apply Hr'|]. eapply (cursor_moves done_ done' rest'); [by eapply r_orderly|done|]. apply Hset'; try done. cbn. set_solver.
Qed.
End Worlds.
End Reading.

(** ** A concrete store
    The trigger waits for new rows.  The engine writes a second row when it is handed the first, and a row that was created is gone before it is read. *)
#[local] Existing Instance integers.
Definition plain_number (n : Z) : number (JsNumbers := integers) := n.
Definition rows_when : TableWhen := mkTableWhen (js "d") NewMatchingRows None None.
Definition rows_trigger : TriggerRecord :=
  mkTrigger (js "t1") (js "p") (js "title")
    (mkGraph None (JObj [(js "source", JStr (js "data_store_query")); (js "storeId", JStr (js "d")); (js "event", JStr (js "new_matching_rows"))]) (JArr [])
       (JObj [(js "kind", JStr (js "notify"))]) (mkTriggerPolicy 0 None PerEvent FireAll None)) 1 (Some 0) (Some 1) (Some []) 0 0.
Definition created (n : Z) (row : str) : DsRowHistoryEntry := mkEntry n (js "c" ++ row) row false (js "someone") Creation (js "today").
(** The world is the number of changes recorded; row [b] is gone. *)
Definition rows_history : list DsRowHistoryEntry := [created 1 (js "a"); created 2 (js "b"); created 3 (js "c")].
Definition rows_world : TableWorld nat :=
  {| storeProject _ _ := Some (js "p"); historyIn n _ := take n rows_history; rowIn _ id _ := if str_eqb id (js "b") then None else Some [(js "name", JStr id)];
     countRowsIn _ _ := 0; armedIn _ := [rows_trigger]; sessionsIn _ := []; causesOfSessions _ _ _ _ := [];
     submitOffer n u _ := (if str_eqb u (js "t1") && Nat.eqb n 1 then 3%nat else n, true); submitOffers n _ _ := (n, true); suppressedBy n _ := n |}.
#[local] Existing Instance rows_world.
Definition rows_cursor : TableCursor := mkTableCursor 0 0 0.
Definition rows_start : met nat * source := (mkMet 0%nat [0%nat] [] [], mkTableSource [(js "t1", Some (json_of_cursor rows_cursor))] ∅ ∅ ∅ ∅ false).
Abbreviation rows_step := (table_step plain_number (λ s, s) (λ _, []) (λ _, Some 0) 1).
Definition rows_end : met nat * source := rows_step (rows_step rows_start Comes_up) (Moves 1%nat (Some (js "d"))).
Lemma rows_lawful : lawful rows_trigger rows_when rows_cursor (λ n, n ∈ [0; 1; 3]%nat).
Proof.
  constructor.
  - intros n Hn. rewrite !elem_of_cons in Hn. destruct Hn as [->|[->|[->|[]%elem_of_nil]]].
    + change (changes_of _ _ _) with (@nil DsRowHistoryEntry). constructor; [constructor|constructor|intros []; done|done|done].
    + change (changes_of _ _ _) with [created 1 (js "a")]. constructor; [repeat constructor; cbn; lia|repeat constructor; try (cbn; lia); apply (bool_decide_unpack _); vm_compute; exact I|intros [|[|n]]; done|done|done].
    + change (changes_of _ _ _) with rows_history. constructor; [repeat constructor; cbn; lia|repeat constructor; try (cbn; lia); apply (bool_decide_unpack _); vm_compute; exact I|intros [|[|[|[|n]]]]; done|done|done].
  - intros n tr _ Hin _. by apply list_elem_of_singleton in Hin.
  - intros n _. repeat constructor. apply not_elem_of_nil.
  - intros n u o Hn. cbn [submitOffer rows_world fst]. destruct (str_eqb u (js "t1")); cbn [andb]; [|by split]. rewrite !elem_of_cons in Hn. destruct Hn as [->|[->|[->|[]%elem_of_nil]]]; (split; [apply (bool_decide_unpack _); vm_compute; exact I|]); eexists; reflexivity.
  - intros n u o Hn. by split.
  - intros n u Hn. by split.
Qed.
Lemma rows_reached : reached plain_number (λ s, s) (λ _, []) (λ _, Some 0) rows_trigger rows_when (λ n, n ∈ [0; 1; 3]%nat) 1 rows_start rows_end.
Proof.
  apply reached_step; [apply reached_step; [apply reached_start|exact I]|]. cbn [may_happen]. split_and!; [apply (bool_decide_unpack _); vm_compute; exact I|eexists; reflexivity|done].
Qed.
Lemma rows_about_to_start : about_to_start rows_trigger rows_cursor (λ n, n ∈ [0; 1; 3]%nat) rows_start.
Proof. split_and!; try reflexivity. left. Qed.
Lemma no_due_change_is_skipped_witness :
  offer_dedupKey <$> offered_to (js "t1") rows_end.1 = [js "row:ca"; js "row:cc"] ∧
  ∃ done_ rest vs ks, changes_of rows_when rows_cursor (now rows_end.1) = done_ ++ rest ∧ cursorOf rows_end.2 rows_trigger = Some (cursor_at rows_cursor done_ vs) ∧
    judged (λ _, []) (λ _, Some 0) rows_trigger rows_when (worlds rows_end.1) 0 done_ vs ∧ thinned plain_number (λ s, s) rows_trigger (due_of vs) ks ∧ ks `sublist_of` offered_to (js "t1") rows_end.1.
Proof.
  split; [vm_compute; reflexivity|].
  exact (no_due_change_is_skipped plain_number (λ s, s) (λ _, []) (λ _, Some 0) rows_trigger rows_when rows_cursor (λ n, n ∈ [0; 1; 3]%nat) rows_lawful eq_refl 1 rows_start rows_end rows_about_to_start rows_reached).
Defined.
Lemma nothing_is_left_behind_witness : ∃ done_ rest vs ks, changes_of rows_when rows_cursor (now rows_end.1) = done_ ++ rest ∧ cursorOf rows_end.2 rows_trigger = Some (cursor_at rows_cursor done_ vs) ∧
    thinned plain_number (λ s, s) rows_trigger (due_of vs) ks ∧ offered_to (js "t1") rows_end.1 = ks ∧ rest = [].
Proof.
  destruct (nothing_is_left_behind plain_number (λ s, s) (λ _, []) (λ _, Some 0) rows_trigger rows_when rows_cursor (λ n, n ∈ [0; 1; 3]%nat) rows_lawful eq_refl 1 rows_start rows_end)
    as (done_ & rest & vs & ks & H1 & H2 & H3 & H4 & H5 & H6 & _).
  - split_and!; [intros n Hn; split; [left|reflexivity]| |discriminate]. constructor; intros n u; [intros o Hu; cbn [submitOffer rows_world]; by rewrite (proj2 (str_eqb_neq u (js "t1")) Hu)|reflexivity|reflexivity].
  - apply rows_about_to_start.
  - apply rows_reached.
  - apply (bool_decide_unpack _). vm_compute. exact I.
  - exists done_, rest, vs, ks. split_and!; [exact H1|exact H2|exact H4|exact H5|]. destruct (H6 eq_refl) as [Hin|Hr]; [|exact Hr]. exfalso. revert Hin. apply (bool_decide_unpack _). vm_compute. exact I.
Defined.

(** A submission that fails during a catch-up leaves the catch-up open with no tick to carry it on: the writes that follow are left to a tick that never
    comes, and nothing is offered until the next restart.  The world is the number of changes and the number of submissions, of which the first two throw. *)
Definition failing_world : TableWorld (nat * nat) :=
  {| storeProject _ _ := Some (js "p"); historyIn e _ := take e.1 rows_history; rowIn _ id _ := Some [(js "name", JStr id)];
     countRowsIn _ _ := 0; armedIn _ := [rows_trigger]; sessionsIn _ := []; causesOfSessions _ _ _ _ := [];
     submitOffer e _ _ := ((e.1, S e.2), Nat.leb 2 e.2); submitOffers e _ _ := ((e.1, S e.2), Nat.leb 2 e.2); suppressedBy e _ := e |}.
Abbreviation failing_run := (fold_left (table_step (H := failing_world) plain_number (λ s, s) (λ _, []) (λ _, Some 0) 1)).
Definition failing_start : met (nat * nat) * source := (mkMet (0, 0)%nat [(0, 0)%nat] [] [], rows_start.2).
Example a_failed_catch_up_ignores_the_writes :
  let told := Some (js "d") in
  let st := failing_run [Comes_up; Moves (1, 0)%nat told; Goes_down; Comes_up; Moves (2, 2)%nat told; Moves (3, 2)%nat told] failing_start in
  offered_to (js "t1") st.1 = [] ∧ elements (pendingTicks st.2) = [] ∧ catchUps st.2 !! js "t1" = Some 1 ∧ (now st.1).2 = 2%nat ∧
  offer_dedupKey <$> offered_to (js "t1") (failing_run [Goes_down; Comes_up] st).1 = [js "row:ca"; js "row:cb"; js "row:cc"].
Proof. vm_compute. repeat split; reflexivity. Qed.
