(* ===== verification/DeliveryReconciler.v ===== *)
(** * The delivery reconciler

    Model of [packages/core/src/sessions/deliveryReconciler.ts] and [packages/core/src/harness/textTypedByPaste.ts]: which prompts each CLI session
    took and which messages the daemon submitted, by digest, and whether a submitted message is
    typed again.  The hash, [JSON.parse] and [Date.parse] ([None] is [NaN]) are parameters. *)
From S2P Require Import Prelude JsText Regex PolicyTypes PolicyDocument MessageEnvelope.

Inductive SubmissionVerdict := Confirmed | Redeliver | Settled.
#[export] Instance SubmissionVerdict_eq_dec : EqDecision SubmissionVerdict.
Proof. solve_decision. Defined.

(** ** The text of a paste *)
Definition pasted_control (c : N) : bool := in_range 0 8 c || in_range 11 31 c || in_range 127 159 c.
Definition textTypedByPaste (body : str) : str := filter (λ c, pasted_control c = false) (normalizeLineEndings body).

(** ** The tables *)
Record PromptDigest := mkPromptDigest { pd_cliSessionId : str; pd_digest : str; pd_recordedAt : Z }.
Record MessageDelivery := mkMessageDelivery
  { md_messageId : str; md_sessionId : str; md_digest : str; md_submittedAt : Z; md_confirmedAt : option Z; md_redeliveredAt : option Z }.
Record reconciler := mkReconciler { prompt_digests : list PromptDigest; message_deliveries : list MessageDelivery }.
Definition confirm (now : Z) (d : MessageDelivery) : MessageDelivery :=
  mkMessageDelivery (md_messageId d) (md_sessionId d) (md_digest d) (md_submittedAt d) (Some now) (md_redeliveredAt d).
Definition resubmit (now : Z) (d : MessageDelivery) : MessageDelivery :=
  mkMessageDelivery (md_messageId d) (md_sessionId d) (md_digest d) now (md_confirmedAt d) (md_redeliveredAt d).
Definition redelivered (now : Z) (d : MessageDelivery) : MessageDelivery :=
  mkMessageDelivery (md_messageId d) (md_sessionId d) (md_digest d) (md_submittedAt d) (md_confirmedAt d) (Some now).
Definition update_deliveries (p : MessageDelivery → bool) (change : MessageDelivery → MessageDelivery) (rows : list MessageDelivery) : list MessageDelivery :=
  (λ d, if p d then change d else d) <$> rows.
Definition delivery_of (r : reconciler) (messageId : str) : option MessageDelivery := find (λ d, str_eqb (md_messageId d) messageId) (message_deliveries r).

Section Reconciler.
Variable sha256 : str → str.
Variable parseJson : str → option json.
Variable dateParse : str → option Z.

Definition digestOfPrompt (prompt : str) : str := sha256 (trim (textTypedByPaste prompt)).
Definition isLocalSlashCommand (body : str) : bool := startsWith (trim body) (js "/").

(** ** The prompts of a transcript *)
Definition parseObject (value : option json) : option (rec json) :=
  match value with
  | Some (JStr text) => match parseJson text with Some (JObj fields) => Some fields | _ => None end
  | Some (JObj fields) => Some fields
  | _ => None
  end.
Definition text_of_part (part : json) : list str :=
  match parseObject (Some part) with
  | Some block => match get block (js "type"), get block (js "text") with Some (JStr t), Some (JStr text) => if str_eqb t (js "text") then [text] else [] | _, _ => [] end
  | None => []
  end.
Definition userTextsOfLine (line : str) (since : option str) : list str :=
  let entry := parseObject (Some (JStr line)) in
  let isStampedBeforeSince :=
    match since, entry ≫= λ e, get e (js "timestamp") with
    | Some s, Some (JStr stamp) => match dateParse stamp, dateParse s with Some a, Some b => Z.ltb a b | _, _ => false end
    | _, _ => false
    end in
  if isStampedBeforeSince then []
  else
    match entry with
    | Some e =>
        let isMainChainUserLine := match get e (js "type") with Some (JStr t) => str_eqb t (js "user") | _ => false end
                                   && negb (match get e (js "isSidechain") with Some (JBool true) => true | _ => false end) in
        if negb isMainChainUserLine then []
        else
          match parseObject (get e (js "message")) ≫= λ m, get m (js "content") with
          | Some (JStr content) => [content]
          | Some (JArr parts) => parts ≫= text_of_part
          | _ => []
          end
    | None => []
    end.
Definition promptDigestsInTranscript (tail : str) (since : option str) : list str := digestOfPrompt <$> (split_on LF tail ≫= λ line, userTextsOfLine line since).

(** ** The operations; [now] is the clock of the call *)
Definition recordPromptTaken (r : reconciler) (sessionId cliSessionId prompt : str) (now : Z) : reconciler :=
  let digest := digestOfPrompt prompt in
  let same p := str_eqb (pd_cliSessionId p) cliSessionId && str_eqb (pd_digest p) digest in
  mkReconciler
    (if existsb same (prompt_digests r) then (λ p, if same p then mkPromptDigest cliSessionId digest now else p) <$> prompt_digests r
     else prompt_digests r ++ [mkPromptDigest cliSessionId digest now])
    (update_deliveries (λ d, str_eqb (md_sessionId d) sessionId && str_eqb (md_digest d) digest && bool_decide (md_confirmedAt d = None)) (confirm now) (message_deliveries r)).
Definition recordSubmission (r : reconciler) (messageId sessionId body : str) (now : Z) : reconciler :=
  if isLocalSlashCommand body then r
  else
    mkReconciler (prompt_digests r)
      (if bool_decide (is_Some (delivery_of r messageId)) then update_deliveries (λ d, str_eqb (md_messageId d) messageId) (resubmit now) (message_deliveries r)
       else message_deliveries r ++ [mkMessageDelivery messageId sessionId (digestOfPrompt body) now None None]).
Definition judgeSubmission (r : reconciler) (messageId cliSessionId : str) (transcriptDigestsSince : Z → list str) (now : Z) : reconciler * SubmissionVerdict :=
  match delivery_of r messageId with
  | None => (r, Settled)
  | Some delivery =>
      if bool_decide (is_Some (md_confirmedAt delivery)) then (r, Settled)
      else
        let isDigestRecordedSinceSubmission :=
          existsb (λ p, str_eqb (pd_cliSessionId p) cliSessionId && str_eqb (pd_digest p) (md_digest delivery) && Z.leb (md_submittedAt delivery) (pd_recordedAt p)) (prompt_digests r) in
        let isConfirmed := isDigestRecordedSinceSubmission || mem_str (md_digest delivery) (transcriptDigestsSince (md_submittedAt delivery)) in
        let change f := mkReconciler (prompt_digests r) (update_deliveries (λ d, str_eqb (md_messageId d) messageId) f (message_deliveries r)) in
        if isConfirmed then (change (confirm now), Confirmed)
        else if bool_decide (is_Some (md_redeliveredAt delivery)) then (r, Settled)
        else (change (redelivered now), Redeliver)
  end.
End Reconciler.

(** ** Once *)
(** The message was judged to be typed again. *)
Definition was_redelivered (r : reconciler) (id : str) : bool := match delivery_of r id with Some d => bool_decide (is_Some (md_redeliveredAt d)) | None => false end.
Lemma delivery_of_update r p change id : (∀ d, md_messageId (change d) = md_messageId d) →
  delivery_of (mkReconciler (prompt_digests r) (update_deliveries p change (message_deliveries r))) id = (λ d, if p d then change d else d) <$> delivery_of r id.
Proof.
  intros Hid. unfold delivery_of, update_deliveries. cbn [message_deliveries]. induction (message_deliveries r) as [|d rows IH]; [done|].
  rewrite fmap_cons. cbn [find]. assert (Heq : md_messageId (if p d then change d else d) = md_messageId d) by (by destruct (p d)). rewrite Heq.
  by destruct (str_eqb (md_messageId d) id).
Qed.
Lemma delivery_of_digests r ps id : delivery_of (mkReconciler ps (message_deliveries r)) id = delivery_of r id.
Proof. done. Qed.
Lemma recordPromptTaken_redelivered sha r s c p now id : was_redelivered (recordPromptTaken sha r s c p now) id = was_redelivered r id.
Proof.
  unfold was_redelivered, recordPromptTaken. match goal with |- context [mkReconciler ?ps (update_deliveries ?q ?f _)] =>
    change (delivery_of (mkReconciler ps (update_deliveries q f (message_deliveries r))) id) with (delivery_of (mkReconciler (prompt_digests r) (update_deliveries q f (message_deliveries r))) id) end.
  rewrite delivery_of_update by done. destruct (delivery_of r id) as [d|]; [|done]. cbn. by destruct (_ && _).
Qed.
Lemma recordSubmission_redelivered sha r m s b now id : was_redelivered (recordSubmission sha r m s b now) id = was_redelivered r id.
Proof.
  unfold was_redelivered, recordSubmission. destruct (isLocalSlashCommand b); [done|]. case_bool_decide as Hsome.
  - rewrite delivery_of_update by done. destruct (delivery_of r id) as [d|]; [|done]. cbn. by destruct (str_eqb _ _).
  - unfold delivery_of. cbn [message_deliveries]. induction (message_deliveries r) as [|d rows IH]; cbn [find app].
    + cbn [md_messageId]. by destruct (str_eqb m id).
    + destruct (str_eqb (md_messageId d) id); [done|]. done.
Qed.
(** [Redeliver] is answered once per message. *)
Lemma judgeSubmission_redelivered r m c f now id :
  was_redelivered (judgeSubmission r m c f now).1 id = if decide ((judgeSubmission r m c f now).2 = Redeliver ∧ id = m) then true else was_redelivered r id.
Proof.
  unfold judgeSubmission. destruct (delivery_of r m) as [d|] eqn:Hd; [|by rewrite decide_False by naive_solver].
  case_bool_decide as Hc; [by rewrite decide_False by naive_solver|]. destruct (_ || _).
  { rewrite decide_False by naive_solver. unfold was_redelivered. cbn [fst]. rewrite delivery_of_update by done. destruct (delivery_of r id) as [d'|]; [|done]. cbn. by destruct (str_eqb _ _). }
  case_bool_decide as Hr; [by rewrite decide_False by naive_solver|]. unfold was_redelivered. cbn [fst snd]. rewrite delivery_of_update by done.
  destruct (decide (id = m)) as [->|Hne].
  - rewrite decide_True by done. rewrite Hd. cbn. assert (Hid : md_messageId d = m) by (apply find_some in Hd as [_ Hid]; by apply str_eqb_eq in Hid). by rewrite Hid, str_eqb_refl.
  - rewrite decide_False by naive_solver. destruct (delivery_of r id) as [d'|] eqn:Hd'; [|done]. cbn.
    assert (Hid : md_messageId d' = id) by (apply find_some in Hd' as [_ Hid]; by apply str_eqb_eq in Hid). rewrite Hid. destruct (str_eqb id m) eqn:He; [by apply str_eqb_eq in He|done].
Qed.
Lemma judgeSubmission_once r m c f now : (judgeSubmission r m c f now).2 = Redeliver → was_redelivered r m = false.
Proof.
  unfold judgeSubmission, was_redelivered. destruct (delivery_of r m) as [d|]; [|done]. case_bool_decide; [done|]. destruct (_ || _); [done|]. by case_bool_decide.
Qed.
