(* ===== verification/Delivery.v ===== *)
(** * Delivery of messages to a session

    Model of the delivery machine of [packages/core/src/sessions/sessionService.ts]: sending, typing, submitting, reviewing,
    reconciling and retrying, with the raw keys of the human, the output of the terminal, the inputs of the CLI and the
    relaunches that interleave with it.  The state is what the service holds for one session [sid], the queue of messages
    and the tables of the reconciler.  A process is a number.  A call of the database, of the terminal or of the listeners of the
    event bus may throw: [faults] tells which, [readFaults] for the reads of one message by its id; a call that throws changes nothing.
    What an [await] separates is a separate event, and so is what a hook tells of the transcript and of the CLI session and what other
    parts of the daemon decide (holds, obsolete messages, a start that failed).  The fields of the service that delivery
    does not read (tokens, models, interrupt watches) are left out. *)
From S2P Require Import Prelude JsText Regex PolicyTypes PolicyDocument SecretMasker SessionState Lineage TriggerActions HumanDraft MessageEnvelope Sorting MessageQueue DeliveryReconciler.

Definition OUTPUT_BUFFER_LIMIT : nat := 200 * 1024.
Definition REVIEW_NOTICE_SPLIT_ACROSS_CHUNKS_MARGIN : nat := 256.
Definition MAX_REVIEW_CONFIRMATIONS : nat := 3.
Definition MAX_PENDING_AGENT_MESSAGES_PER_SENDER : nat := 20.
Definition MAX_DELIVERY_RETRIES : nat := 3.
Definition DEFAULT_CLEAR_IN_FLIGHT_TIMEOUT_MS : Z := 3000.
Definition ESCAPE_KEY : N := 27.
Definition INTERRUPT_KEYS : list N := [27; 3]%N.

(** ** What the terminal drew *)
Definition is_csi_parameter (c : N) : bool := in_range 48 57 c || N.eqb c 59 || N.eqb c 63.
Definition is_csi_intermediate (c : N) : bool := in_range 32 47 c.
Definition is_csi_final (c : N) : bool := in_range 64 126 c.
(** The text after an escape sequence that starts here: a control sequence, or an operating system command closed by a bell. *)
Fixpoint after_bell (s : str) : option str := match s with [] => None | c :: rest => if N.eqb c 7 then Some rest else after_bell rest end.
Definition after_escape_sequence (s : str) : option str :=
  match s with
  | 27%N :: 91%N :: rest => match drop_while is_csi_intermediate (drop_while is_csi_parameter rest) with c :: rest' => if is_csi_final c then Some rest' else None | [] => None end
  | 27%N :: 93%N :: rest => after_bell rest
  | _ => None
  end.
Definition textDrawn_step (st : str * str) : str * str + str :=
  let '(done_, rest) := st in
  match rest with
  | [] => inr (reverse done_)
  | c :: rest' => match after_escape_sequence rest with Some rest'' => inl (done_, rest'') | None => inl (c :: done_, rest') end
  end.
Definition textDrawnBy (rawOutput : str) : str := run_loop textDrawn_step (S (length rawOutput)) ([], rawOutput) [].

(** The length of the longest prefix of [s] that [r] matches, for an expression whose greedy match is its longest. *)
Fixpoint match_length (p : option N) (r : re) (s : str) : option nat :=
  match s with
  | [] => if nullable p None r then Some 0 else None
  | c :: rest =>
      match match_length (Some c) (deriv p c r) rest with
      | Some n => Some (S n)
      | None => if nullable p (Some c) r then Some 0 else None
      end
  end.
Definition count_step (r : re) (st : nat * option N * str) : nat * option N * str + nat :=
  let '(n, p, s) := st in
  match s with
  | [] => inr n
  | c :: rest => match match_length p r s with Some (S k) => inl (S n, s !! k, drop (S k) s) | _ => inl (n, Some c, rest) end
  end.
Definition countMatches (r : re) (rawOutput : str) : nat :=
  let text := textDrawnBy rawOutput in run_loop (count_step r) (S (length text)) (0, None, text) 0.
Definition words (l : list string) : re := r_seq (match l with [] => [] | w :: rest => r_lit (js w) :: (rest ≫= λ v, [r_space_star; r_lit (js v)]) end).
Definition INVISIBLE_CHARACTERS_REVIEW_NOTICE : re :=
  r_alt [r_seq [r_lit (js "Removed"); r_space_star; r_plus (RChr is_digit); r_space_star; words ["invisible"; "character"]%string; r_opt (r_lit (js "s"))];
         words ["review"; "and"; "press"; "Enter"; "to"; "send"]%string;
         r_seq [words ["press"; "Enter"]%string; r_space_star; r_opt (r_seq [r_lit (js "to"); r_space_star; r_opt (r_lit (js "s"))]); r_space_star; RChr (N.eqb 8230)]].
Definition GENERATING_MARKER : re := words ["esc"; "to"; "interrupt"]%string.
(** [text.slice(-n)] for a positive [n]. *)
Definition tail_slice (n : nat) (text : str) : str := drop (length text - n) text.
Definition trimToTail (text : str) (maxLength : nat) : str :=
  if Nat.leb (length text) maxLength then text
  else
    let start := length text - maxLength in
    let startsMidSurrogatePair := match text !! start with Some c => in_range 56320 57343 c | None => false end in
    drop (if startsMidSurrogatePair then S start else start) text.
Definition drawnAgain (r : re) (previousOutput data : str) : bool :=
  Nat.ltb (countMatches r (tail_slice REVIEW_NOTICE_SPLIT_ACROSS_CHUNKS_MARGIN previousOutput))
          (countMatches r (tail_slice (length data + REVIEW_NOTICE_SPLIT_ACROSS_CHUNKS_MARGIN) (previousOutput ++ data))).

(** ** The state *)
Inductive Stage := Watching | Confirming | Clearing | Exhausted.
Record ReviewingPhase := mkReview
  { rv_messageId : str; rv_handle : nat; rv_stage : Stage; rv_confirmations : nat; rv_isDeliveryRecorded : bool; rv_deferredRaw : list str;
    rv_isNoticeRedrawn : bool; rv_isGeneratingSeen : bool; rv_isHumanInterruptPassedThrough : bool }.
Inductive DeliveryPhase :=
  | Ready | Typing (messageId : str) (handle : nat) (deferredRaw : list str) | Typed (messageId : str) (handle : nat) (deferredRaw : list str)
  | Submitted (messageId : str) | Reviewing (review : ReviewingPhase) | Closing | Relaunching.
(** The step a delivery timer runs, and the one of a draft. *)
Inductive TimerStep := FinishTyping | StopAwaitingTurnStart | SettleWithoutNotice | ConfirmReview | ReleaseUnconfirmedReview | AbandonReview | RetryAdvance.
Inductive DraftTimer := AnnounceAbandonedDraft | AdvanceAfterDraft.
Record DraftWatch := mkDraftWatch { dw_handle : nat; dw_draft : HumanDraft; dw_timer : option DraftTimer }.
(** What leaves the service: to the terminal, to the listeners, to the queue. *)
Inductive Act :=
  | TypedBody (h : nat) (id body : str) | PressedEnter (h : nat) (id : str) | ConfirmedByEnter (h : nat) (id : str) | PressedEscape (h : nat) | WroteRaw (h : nat) (data : str)
  | AnnouncedDelivered (id : str) | AnnouncedError | AnnouncedQueued (id : str) | AnnouncedHeld (id : str) | AnnouncedState (state : SessionState) | AgentMessageSent (from : str) | AnnouncedClosed (reason : option SessionCloseReason)
  | Enqueued (id : str) | Requeued (id : str).
Inductive Failure := Fault | SessionNotFoundError | SessionClosedError | MessageIdAlreadyUsedError | HeldForReviewError | TooManyPendingMessagesError | DaemonShuttingDownError.
Inductive CloseCause := Shutdown | SessionEndCause.
#[export] Instance CloseCause_eq_dec : EqDecision CloseCause.
Proof. solve_decision. Defined.
Record delivery := mkDelivery
  { queue : table; row : option SessionState; handle : option nat; active : option nat; phase : DeliveryPhase; timer : option TimerStep; failedAttempts : nat; unrecorded : option str; abandoned : list str; pendingRelaunch : bool; unfinishedTurn : bool; relaunchInFlight : bool; clearHold : option bool; clearStartedAt : option Z; draft : option DraftWatch; outputBuffer : str; deliveries_db : reconciler; cliSessionId : str; transcriptTail : option str; deliveryHeld : bool; obsolete : list str; failedToStart : bool; closingByParent : bool; closeCause : option CloseCause; shuttingDown : bool; clock : Z; calls : nat; trace : list Act }.
Definition set_queue (v : table) (s : delivery) : delivery :=
  mkDelivery v (row s) (handle s) (active s) (phase s) (timer s) (failedAttempts s) (unrecorded s) (abandoned s) (pendingRelaunch s) (unfinishedTurn s) (relaunchInFlight s) (clearHold s) (clearStartedAt s) (draft s) (outputBuffer s) (deliveries_db s) (cliSessionId s) (transcriptTail s) (deliveryHeld s) (obsolete s) (failedToStart s) (closingByParent s) (closeCause s) (shuttingDown s) (clock s) (calls s) (trace s).
Definition set_row (v : option SessionState) (s : delivery) : delivery :=
  mkDelivery (queue s) v (handle s) (active s) (phase s) (timer s) (failedAttempts s) (unrecorded s) (abandoned s) (pendingRelaunch s) (unfinishedTurn s) (relaunchInFlight s) (clearHold s) (clearStartedAt s) (draft s) (outputBuffer s) (deliveries_db s) (cliSessionId s) (transcriptTail s) (deliveryHeld s) (obsolete s) (failedToStart s) (closingByParent s) (closeCause s) (shuttingDown s) (clock s) (calls s) (trace s).
Definition set_handle (v : option nat) (s : delivery) : delivery :=
  mkDelivery (queue s) (row s) v (active s) (phase s) (timer s) (failedAttempts s) (unrecorded s) (abandoned s) (pendingRelaunch s) (unfinishedTurn s) (relaunchInFlight s) (clearHold s) (clearStartedAt s) (draft s) (outputBuffer s) (deliveries_db s) (cliSessionId s) (transcriptTail s) (deliveryHeld s) (obsolete s) (failedToStart s) (closingByParent s) (closeCause s) (shuttingDown s) (clock s) (calls s) (trace s).
Definition set_active (v : option nat) (s : delivery) : delivery :=
  mkDelivery (queue s) (row s) (handle s) v (phase s) (timer s) (failedAttempts s) (unrecorded s) (abandoned s) (pendingRelaunch s) (unfinishedTurn s) (relaunchInFlight s) (clearHold s) (clearStartedAt s) (draft s) (outputBuffer s) (deliveries_db s) (cliSessionId s) (transcriptTail s) (deliveryHeld s) (obsolete s) (failedToStart s) (closingByParent s) (closeCause s) (shuttingDown s) (clock s) (calls s) (trace s).
Definition set_phase (v : DeliveryPhase) (s : delivery) : delivery :=
  mkDelivery (queue s) (row s) (handle s) (active s) v (timer s) (failedAttempts s) (unrecorded s) (abandoned s) (pendingRelaunch s) (unfinishedTurn s) (relaunchInFlight s) (clearHold s) (clearStartedAt s) (draft s) (outputBuffer s) (deliveries_db s) (cliSessionId s) (transcriptTail s) (deliveryHeld s) (obsolete s) (failedToStart s) (closingByParent s) (closeCause s) (shuttingDown s) (clock s) (calls s) (trace s).
Definition set_timer (v : option TimerStep) (s : delivery) : delivery :=
  mkDelivery (queue s) (row s) (handle s) (active s) (phase s) v (failedAttempts s) (unrecorded s) (abandoned s) (pendingRelaunch s) (unfinishedTurn s) (relaunchInFlight s) (clearHold s) (clearStartedAt s) (draft s) (outputBuffer s) (deliveries_db s) (cliSessionId s) (transcriptTail s) (deliveryHeld s) (obsolete s) (failedToStart s) (closingByParent s) (closeCause s) (shuttingDown s) (clock s) (calls s) (trace s).
Definition set_failedAttempts (v : nat) (s : delivery) : delivery :=
  mkDelivery (queue s) (row s) (handle s) (active s) (phase s) (timer s) v (unrecorded s) (abandoned s) (pendingRelaunch s) (unfinishedTurn s) (relaunchInFlight s) (clearHold s) (clearStartedAt s) (draft s) (outputBuffer s) (deliveries_db s) (cliSessionId s) (transcriptTail s) (deliveryHeld s) (obsolete s) (failedToStart s) (closingByParent s) (closeCause s) (shuttingDown s) (clock s) (calls s) (trace s).
Definition set_unrecorded (v : option str) (s : delivery) : delivery :=
  mkDelivery (queue s) (row s) (handle s) (active s) (phase s) (timer s) (failedAttempts s) v (abandoned s) (pendingRelaunch s) (unfinishedTurn s) (relaunchInFlight s) (clearHold s) (clearStartedAt s) (draft s) (outputBuffer s) (deliveries_db s) (cliSessionId s) (transcriptTail s) (deliveryHeld s) (obsolete s) (failedToStart s) (closingByParent s) (closeCause s) (shuttingDown s) (clock s) (calls s) (trace s).
Definition set_abandoned (v : list str) (s : delivery) : delivery :=
  mkDelivery (queue s) (row s) (handle s) (active s) (phase s) (timer s) (failedAttempts s) (unrecorded s) v (pendingRelaunch s) (unfinishedTurn s) (relaunchInFlight s) (clearHold s) (clearStartedAt s) (draft s) (outputBuffer s) (deliveries_db s) (cliSessionId s) (transcriptTail s) (deliveryHeld s) (obsolete s) (failedToStart s) (closingByParent s) (closeCause s) (shuttingDown s) (clock s) (calls s) (trace s).
Definition set_pendingRelaunch (v : bool) (s : delivery) : delivery :=
  mkDelivery (queue s) (row s) (handle s) (active s) (phase s) (timer s) (failedAttempts s) (unrecorded s) (abandoned s) v (unfinishedTurn s) (relaunchInFlight s) (clearHold s) (clearStartedAt s) (draft s) (outputBuffer s) (deliveries_db s) (cliSessionId s) (transcriptTail s) (deliveryHeld s) (obsolete s) (failedToStart s) (closingByParent s) (closeCause s) (shuttingDown s) (clock s) (calls s) (trace s).
Definition set_unfinishedTurn (v : bool) (s : delivery) : delivery :=
  mkDelivery (queue s) (row s) (handle s) (active s) (phase s) (timer s) (failedAttempts s) (unrecorded s) (abandoned s) (pendingRelaunch s) v (relaunchInFlight s) (clearHold s) (clearStartedAt s) (draft s) (outputBuffer s) (deliveries_db s) (cliSessionId s) (transcriptTail s) (deliveryHeld s) (obsolete s) (failedToStart s) (closingByParent s) (closeCause s) (shuttingDown s) (clock s) (calls s) (trace s).
Definition set_relaunchInFlight (v : bool) (s : delivery) : delivery :=
  mkDelivery (queue s) (row s) (handle s) (active s) (phase s) (timer s) (failedAttempts s) (unrecorded s) (abandoned s) (pendingRelaunch s) (unfinishedTurn s) v (clearHold s) (clearStartedAt s) (draft s) (outputBuffer s) (deliveries_db s) (cliSessionId s) (transcriptTail s) (deliveryHeld s) (obsolete s) (failedToStart s) (closingByParent s) (closeCause s) (shuttingDown s) (clock s) (calls s) (trace s).
Definition set_clearHold (v : option bool) (s : delivery) : delivery :=
  mkDelivery (queue s) (row s) (handle s) (active s) (phase s) (timer s) (failedAttempts s) (unrecorded s) (abandoned s) (pendingRelaunch s) (unfinishedTurn s) (relaunchInFlight s) v (clearStartedAt s) (draft s) (outputBuffer s) (deliveries_db s) (cliSessionId s) (transcriptTail s) (deliveryHeld s) (obsolete s) (failedToStart s) (closingByParent s) (closeCause s) (shuttingDown s) (clock s) (calls s) (trace s).
Definition set_clearStartedAt (v : option Z) (s : delivery) : delivery :=
  mkDelivery (queue s) (row s) (handle s) (active s) (phase s) (timer s) (failedAttempts s) (unrecorded s) (abandoned s) (pendingRelaunch s) (unfinishedTurn s) (relaunchInFlight s) (clearHold s) v (draft s) (outputBuffer s) (deliveries_db s) (cliSessionId s) (transcriptTail s) (deliveryHeld s) (obsolete s) (failedToStart s) (closingByParent s) (closeCause s) (shuttingDown s) (clock s) (calls s) (trace s).
Definition set_draft (v : option DraftWatch) (s : delivery) : delivery :=
  mkDelivery (queue s) (row s) (handle s) (active s) (phase s) (timer s) (failedAttempts s) (unrecorded s) (abandoned s) (pendingRelaunch s) (unfinishedTurn s) (relaunchInFlight s) (clearHold s) (clearStartedAt s) v (outputBuffer s) (deliveries_db s) (cliSessionId s) (transcriptTail s) (deliveryHeld s) (obsolete s) (failedToStart s) (closingByParent s) (closeCause s) (shuttingDown s) (clock s) (calls s) (trace s).
Definition set_outputBuffer (v : str) (s : delivery) : delivery :=
  mkDelivery (queue s) (row s) (handle s) (active s) (phase s) (timer s) (failedAttempts s) (unrecorded s) (abandoned s) (pendingRelaunch s) (unfinishedTurn s) (relaunchInFlight s) (clearHold s) (clearStartedAt s) (draft s) v (deliveries_db s) (cliSessionId s) (transcriptTail s) (deliveryHeld s) (obsolete s) (failedToStart s) (closingByParent s) (closeCause s) (shuttingDown s) (clock s) (calls s) (trace s).
Definition set_deliveries_db (v : reconciler) (s : delivery) : delivery :=
  mkDelivery (queue s) (row s) (handle s) (active s) (phase s) (timer s) (failedAttempts s) (unrecorded s) (abandoned s) (pendingRelaunch s) (unfinishedTurn s) (relaunchInFlight s) (clearHold s) (clearStartedAt s) (draft s) (outputBuffer s) v (cliSessionId s) (transcriptTail s) (deliveryHeld s) (obsolete s) (failedToStart s) (closingByParent s) (closeCause s) (shuttingDown s) (clock s) (calls s) (trace s).
Definition set_cliSessionId (v : str) (s : delivery) : delivery :=
  mkDelivery (queue s) (row s) (handle s) (active s) (phase s) (timer s) (failedAttempts s) (unrecorded s) (abandoned s) (pendingRelaunch s) (unfinishedTurn s) (relaunchInFlight s) (clearHold s) (clearStartedAt s) (draft s) (outputBuffer s) (deliveries_db s) v (transcriptTail s) (deliveryHeld s) (obsolete s) (failedToStart s) (closingByParent s) (closeCause s) (shuttingDown s) (clock s) (calls s) (trace s).
Definition set_transcriptTail (v : option str) (s : delivery) : delivery :=
  mkDelivery (queue s) (row s) (handle s) (active s) (phase s) (timer s) (failedAttempts s) (unrecorded s) (abandoned s) (pendingRelaunch s) (unfinishedTurn s) (relaunchInFlight s) (clearHold s) (clearStartedAt s) (draft s) (outputBuffer s) (deliveries_db s) (cliSessionId s) v (deliveryHeld s) (obsolete s) (failedToStart s) (closingByParent s) (closeCause s) (shuttingDown s) (clock s) (calls s) (trace s).
Definition set_deliveryHeld (v : bool) (s : delivery) : delivery :=
  mkDelivery (queue s) (row s) (handle s) (active s) (phase s) (timer s) (failedAttempts s) (unrecorded s) (abandoned s) (pendingRelaunch s) (unfinishedTurn s) (relaunchInFlight s) (clearHold s) (clearStartedAt s) (draft s) (outputBuffer s) (deliveries_db s) (cliSessionId s) (transcriptTail s) v (obsolete s) (failedToStart s) (closingByParent s) (closeCause s) (shuttingDown s) (clock s) (calls s) (trace s).
Definition set_obsolete (v : list str) (s : delivery) : delivery :=
  mkDelivery (queue s) (row s) (handle s) (active s) (phase s) (timer s) (failedAttempts s) (unrecorded s) (abandoned s) (pendingRelaunch s) (unfinishedTurn s) (relaunchInFlight s) (clearHold s) (clearStartedAt s) (draft s) (outputBuffer s) (deliveries_db s) (cliSessionId s) (transcriptTail s) (deliveryHeld s) v (failedToStart s) (closingByParent s) (closeCause s) (shuttingDown s) (clock s) (calls s) (trace s).
Definition set_failedToStart (v : bool) (s : delivery) : delivery :=
  mkDelivery (queue s) (row s) (handle s) (active s) (phase s) (timer s) (failedAttempts s) (unrecorded s) (abandoned s) (pendingRelaunch s) (unfinishedTurn s) (relaunchInFlight s) (clearHold s) (clearStartedAt s) (draft s) (outputBuffer s) (deliveries_db s) (cliSessionId s) (transcriptTail s) (deliveryHeld s) (obsolete s) v (closingByParent s) (closeCause s) (shuttingDown s) (clock s) (calls s) (trace s).
Definition set_closingByParent (v : bool) (s : delivery) : delivery :=
  mkDelivery (queue s) (row s) (handle s) (active s) (phase s) (timer s) (failedAttempts s) (unrecorded s) (abandoned s) (pendingRelaunch s) (unfinishedTurn s) (relaunchInFlight s) (clearHold s) (clearStartedAt s) (draft s) (outputBuffer s) (deliveries_db s) (cliSessionId s) (transcriptTail s) (deliveryHeld s) (obsolete s) (failedToStart s) v (closeCause s) (shuttingDown s) (clock s) (calls s) (trace s).
Definition set_closeCause (v : option CloseCause) (s : delivery) : delivery :=
  mkDelivery (queue s) (row s) (handle s) (active s) (phase s) (timer s) (failedAttempts s) (unrecorded s) (abandoned s) (pendingRelaunch s) (unfinishedTurn s) (relaunchInFlight s) (clearHold s) (clearStartedAt s) (draft s) (outputBuffer s) (deliveries_db s) (cliSessionId s) (transcriptTail s) (deliveryHeld s) (obsolete s) (failedToStart s) (closingByParent s) v (shuttingDown s) (clock s) (calls s) (trace s).
Definition set_shuttingDown (v : bool) (s : delivery) : delivery :=
  mkDelivery (queue s) (row s) (handle s) (active s) (phase s) (timer s) (failedAttempts s) (unrecorded s) (abandoned s) (pendingRelaunch s) (unfinishedTurn s) (relaunchInFlight s) (clearHold s) (clearStartedAt s) (draft s) (outputBuffer s) (deliveries_db s) (cliSessionId s) (transcriptTail s) (deliveryHeld s) (obsolete s) (failedToStart s) (closingByParent s) (closeCause s) v (clock s) (calls s) (trace s).
Definition set_clock (v : Z) (s : delivery) : delivery :=
  mkDelivery (queue s) (row s) (handle s) (active s) (phase s) (timer s) (failedAttempts s) (unrecorded s) (abandoned s) (pendingRelaunch s) (unfinishedTurn s) (relaunchInFlight s) (clearHold s) (clearStartedAt s) (draft s) (outputBuffer s) (deliveries_db s) (cliSessionId s) (transcriptTail s) (deliveryHeld s) (obsolete s) (failedToStart s) (closingByParent s) (closeCause s) (shuttingDown s) v (calls s) (trace s).
Definition set_calls (v : nat) (s : delivery) : delivery :=
  mkDelivery (queue s) (row s) (handle s) (active s) (phase s) (timer s) (failedAttempts s) (unrecorded s) (abandoned s) (pendingRelaunch s) (unfinishedTurn s) (relaunchInFlight s) (clearHold s) (clearStartedAt s) (draft s) (outputBuffer s) (deliveries_db s) (cliSessionId s) (transcriptTail s) (deliveryHeld s) (obsolete s) (failedToStart s) (closingByParent s) (closeCause s) (shuttingDown s) (clock s) v (trace s).
Definition set_trace (v : list Act) (s : delivery) : delivery :=
  mkDelivery (queue s) (row s) (handle s) (active s) (phase s) (timer s) (failedAttempts s) (unrecorded s) (abandoned s) (pendingRelaunch s) (unfinishedTurn s) (relaunchInFlight s) (clearHold s) (clearStartedAt s) (draft s) (outputBuffer s) (deliveries_db s) (cliSessionId s) (transcriptTail s) (deliveryHeld s) (obsolete s) (failedToStart s) (closingByParent s) (closeCause s) (shuttingDown s) (clock s) (calls s) v.

(** ** Programs: the state is kept when a call throws *)
Definition Op (A : Type) : Type := delivery → delivery * (Failure + A).
#[export] Instance Op_ret : MRet Op := λ A a s, (s, inr a).
#[export] Instance Op_bind : MBind Op := λ A B k m s, match m s with (s', inr a) => k a s' | (s', inl e) => (s', inl e) end.
Definition throws {A} (e : Failure) : Op A := λ s, (s, inl e).
Definition gets {A} (f : delivery → A) : Op A := λ s, (s, inr (f s)).
Definition modify (f : delivery → delivery) : Op unit := λ s, (f s, inr ()).
(** [try { m } catch { log }] *)
Definition attempt (m : Op unit) : Op unit := λ s, ((m s).1, inr ()).
(** [try { m } catch { k }] *)
Definition rescue (m k : Op unit) : Op unit := λ s, match m s with (s', inl _) => k s' | r => r end.
(** [try { m } finally { f }] *)
Definition finally {A} (m : Op A) (f : delivery → delivery) : Op A := λ s, let '(s', r) := m s in (f s', r).
Definition act (a : Act) : Op unit := modify (λ s, set_trace (trace s ++ [a]) s).

Section Delivery.
Variable sid : str.
(** What the daemon reads and does not contain. *)
Variable strip : str → str.
Variable isFormat : N → bool.
Variable sha256 : str → str.
Variable parseJson : str → option json.
Variable dateParse : str → option Z.
Variable isoOf : Z → str.
Variable faults readFaults : nat → bool.

(** A call that may throw. *)
Definition fallible (which : nat → bool) : Op unit := λ s, (set_calls (S (calls s)) s, if which (calls s) then inl Fault else inr ()).
Definition call {A} (f : delivery → delivery * A) : Op A := fallible faults ≫= λ _ s, let '(s', a) := f s in (s', inr a).
Definition onQueue {A} (f : table → table * A) : Op A := call (λ s, let '(t, a) := f (queue s) in (set_queue t s, a)).
Definition repo_get : Op (option SessionState) := fallible faults ≫= λ _, gets row.
Definition queue_getById (id : str) : Op (option QueuedMessage) := fallible readFaults ≫= λ _, gets (λ s, MessageQueue.getById (queue s) id).
Definition terminal (a : Act) : Op unit := fallible faults ≫= λ _, act a.

(** ** Delivery records *)
Definition liveHandle (s : delivery) : option nat := match handle s with Some h => if bool_decide (active s = Some h) then Some h else None | None => None end.
Definition isLive (h : nat) (s : delivery) : bool := bool_decide (liveHandle s = Some h).
Definition enter (p : DeliveryPhase) (t : option TimerStep) : Op unit := modify (λ s, set_failedAttempts 0 (set_timer t (set_phase p s))).
Definition stopDelivery : Op unit := enter Ready None.
Definition retryAfterFailure : Op unit :=
  attempts ← gets failedAttempts;
  _ ← (if Nat.eqb attempts 0 then act AnnouncedError else mret ());
  modify (λ s, set_failedAttempts (S attempts) (set_timer (if bool_decide (is_Some (handle s)) then Some RetryAdvance else None) s)).
Definition guarded (step : Op unit) : Op unit := λ s, match step s with (s', inr _) => (s', inr ()) | (s', inl _) => retryAfterFailure s' end.

(** ** The draft of the human *)
Definition forgetHumanDraft : Op unit := modify (set_draft None).
Definition hasUnsentHumanDraft : Op bool :=
  w ← gets draft;
  match w with
  | None => mret false
  | Some watch =>
      isOfLiveProcess ← gets (isLive (dw_handle watch));
      _ ← (if isOfLiveProcess : bool then mret () else forgetHumanDraft);
      mret (isOfLiveProcess && isPresent (dw_draft watch))
  end.
Definition humanDraftWatchOf (h : nat) : Op DraftWatch :=
  w ← gets draft;
  match w with
  | Some watch => if Nat.eqb (dw_handle watch) h then mret watch else modify (set_draft (Some (mkDraftWatch h new_draft None))) ≫= λ _, mret (mkDraftWatch h new_draft None)
  | None => modify (set_draft (Some (mkDraftWatch h new_draft None))) ≫= λ _, mret (mkDraftWatch h new_draft None)
  end.
Definition observeHumanKeys (h : nat) (keys : str) : Op unit :=
  watch ← humanDraftWatchOf h;
  now ← gets clock;
  let wasPresent := isPresent (dw_draft watch) in
  let d := observe keys now (dw_draft watch) in
  let isJustEmptied := wasPresent && negb (isPresent d) in
  modify (set_draft (Some (mkDraftWatch h d (if isPresent d then Some AnnounceAbandonedDraft else if isJustEmptied then Some AdvanceAfterDraft else None)))).
Definition heldMessagesOf : Op (list QueuedMessage) :=
  unsent ← hasUnsentHumanDraft; if unsent : bool then onQueue (λ t, (t, listQueued t sid)) else mret [].
Definition announceAbandonedDraft : Op unit :=
  held ← heldMessagesOf; modify (λ s, set_trace (trace s ++ (AnnouncedHeld ∘ msg_id <$> held)) s).

(** ** Raw keys *)
(** An Escape reads the session first, to watch for the end of its turn. *)
Definition writeRawChunkAndArm (h : nat) (data : str) : Op unit :=
  _ ← (if mem_chr ESCAPE_KEY data then fallible faults else mret ()); terminal (WroteRaw h data) ≫= λ _, observeHumanKeys h data.
Fixpoint flush (h : nat) (deferredRaw : list str) : Op unit :=
  match deferredRaw with [] => mret () | raw :: rest => writeRawChunkAndArm h raw ≫= λ _, flush h rest end.
Definition flushDeferredRaw (h : nat) (deferredRaw : list str) : Op unit := attempt (flush h deferredRaw).
Definition with_deferred (raw : list str) (r : ReviewingPhase) : ReviewingPhase :=
  mkReview (rv_messageId r) (rv_handle r) (rv_stage r) (rv_confirmations r) (rv_isDeliveryRecorded r) raw (rv_isNoticeRedrawn r) (rv_isGeneratingSeen r) (rv_isHumanInterruptPassedThrough r).
Definition interrupted_by_human (r : ReviewingPhase) : ReviewingPhase :=
  mkReview (rv_messageId r) (rv_handle r) (rv_stage r) (rv_confirmations r) (rv_isDeliveryRecorded r) [] (rv_isNoticeRedrawn r) (rv_isGeneratingSeen r) true.
Definition setPhase (p : DeliveryPhase) : Op unit := modify (set_phase p).
Definition writeRaw (data : str) : Op unit :=
  p ← gets phase;
  match p with
  | Typing id h raw => setPhase (Typing id h (raw ++ [data]))
  | _ =>
      hd ← gets handle;
      match hd with
      | None => mret ()
      | Some h =>
          match p with
          | Reviewing r =>
              let isInterruptIntent := existsb (λ key, mem_chr key data) INTERRUPT_KEYS in
              if negb isInterruptIntent then setPhase (Reviewing (with_deferred (rv_deferredRaw r ++ [data]) r))
              else
                setPhase (Reviewing (interrupted_by_human r)) ≫= λ _,
                flushDeferredRaw h (rv_deferredRaw r) ≫= λ _,
                writeRawChunkAndArm h data
          | _ => writeRawChunkAndArm h data
          end
      end
  end.

(** ** The record of a delivery *)
Definition recordSubmittedDigest (id : str) : Op unit :=
  m ← queue_getById id;
  match m with
  | None => mret ()
  | Some message => attempt (call (λ s, (set_deliveries_db (recordSubmission sha256 (deliveries_db s) id sid (msg_body message) (clock s)) s, ())))
  end.
Definition recordDelivery : Op unit :=
  u ← gets unrecorded;
  match u with
  | None => mret ()
  | Some id =>
      now ← gets clock;
      _ ← onQueue (λ t, (markDelivered t id now, ()));
      _ ← modify (set_unrecorded None);
      _ ← recordSubmittedDigest id;
      attempt (terminal (AnnouncedDelivered id))
  end.
Definition mayDrawReviewNotice (id : str) : Op bool :=
  m ← queue_getById id;
  let body := match m with Some message => msg_body message | None => [] end in
  mret (existsb (CONTROL_OR_FORMAT isFormat) (code_points (filter (λ c, c ≠ 10%N ∧ c ≠ 13%N ∧ c ≠ 9%N) body))).

(** ** Reviews *)
Definition releaseDeferredRaw (r : ReviewingPhase) : Op unit :=
  live ← gets (isLive (rv_handle r)); if live : bool then flushDeferredRaw (rv_handle r) (rv_deferredRaw r) else mret ().
Definition commitSubmission (id : str) : Op unit :=
  _ ← modify (set_unrecorded (Some id)); _ ← enter (Submitted id) (Some StopAwaitingTurnStart); attempt recordDelivery.
Definition watchForReviewNotice (id : str) (h : nat) (raw : list str) : Op unit :=
  enter (Reviewing (mkReview id h Watching 0 false raw false false false)) (Some SettleWithoutNotice).
Definition settleWithoutNotice : Op unit :=
  p ← gets phase;
  match p with
  | Reviewing r =>
      match rv_stage r with
      | Watching =>
          live ← gets (isLive (rv_handle r));
          if negb live then enter Ready None else commitSubmission (rv_messageId r) ≫= λ _, releaseDeferredRaw r
      | _ => mret ()
      end
  | _ => mret ()
  end.
(** [{ ...phase, stage }], [{ ...phase, confirmations }] *)
Definition with_stage (stage : Stage) (r : ReviewingPhase) : ReviewingPhase :=
  mkReview (rv_messageId r) (rv_handle r) stage (rv_confirmations r) (rv_isDeliveryRecorded r) (rv_deferredRaw r) (rv_isNoticeRedrawn r) (rv_isGeneratingSeen r) (rv_isHumanInterruptPassedThrough r).
Definition not_redrawn (r : ReviewingPhase) : ReviewingPhase :=
  mkReview (rv_messageId r) (rv_handle r) (rv_stage r) (rv_confirmations r) (rv_isDeliveryRecorded r) (rv_deferredRaw r) false (rv_isGeneratingSeen r) (rv_isHumanInterruptPassedThrough r).
Definition confirmed_again (r : ReviewingPhase) : ReviewingPhase :=
  mkReview (rv_messageId r) (rv_handle r) (rv_stage r) (S (rv_confirmations r)) (rv_isDeliveryRecorded r) (rv_deferredRaw r) (rv_isNoticeRedrawn r) (rv_isGeneratingSeen r) (rv_isHumanInterruptPassedThrough r).
Definition drawn (notice generating : bool) (r : ReviewingPhase) : ReviewingPhase :=
  mkReview (rv_messageId r) (rv_handle r) (rv_stage r) (rv_confirmations r) (rv_isDeliveryRecorded r) (rv_deferredRaw r) (rv_isNoticeRedrawn r || notice) (rv_isGeneratingSeen r || generating) (rv_isHumanInterruptPassedThrough r).
Definition acceptReviewedMessage (r : ReviewingPhase) : Op unit :=
  _ ← enter Ready None; _ ← releaseDeferredRaw r;
  if rv_isDeliveryRecorded r then mret () else modify (set_unrecorded (Some (rv_messageId r))) ≫= λ _, attempt recordDelivery.
Definition clearStuckComposer (r : ReviewingPhase) : Op unit := terminal (PressedEscape (rv_handle r)) ≫= λ _, enter (Reviewing (with_stage Clearing r)) (Some AbandonReview).
Definition endConfirmations (r : ReviewingPhase) : Op unit :=
  let isComposerProvenHeld := rv_isNoticeRedrawn r && negb (rv_isGeneratingSeen r) && negb (rv_isHumanInterruptPassedThrough r) in
  if isComposerProvenHeld then clearStuckComposer r else enter (Reviewing (with_stage Exhausted r)) (Some ReleaseUnconfirmedReview).
Definition confirmReview : Op unit :=
  p ← gets phase;
  match p with
  | Reviewing r =>
      match rv_stage r with
      | Confirming =>
          live ← gets (isLive (rv_handle r));
          if negb live then enter Ready None
          else if Nat.leb MAX_REVIEW_CONFIRMATIONS (rv_confirmations r) then endConfirmations r
          else
            setPhase (Reviewing (not_redrawn r)) ≫= λ _, terminal (ConfirmedByEnter (rv_handle r) (rv_messageId r)) ≫= λ _,
            enter (Reviewing (confirmed_again (not_redrawn r))) (Some ConfirmReview)
      | _ => mret ()
      end
  | _ => mret ()
  end.
Definition startConfirmingReview : Op unit :=
  p ← gets phase; live ← gets liveHandle;
  match live, p with
  | Some h, Submitted id =>
      m ← queue_getById id;
      if Nat.ltb 0 (countMatches INVISIBLE_CHARACTERS_REVIEW_NOTICE (match m with Some message => msg_body message | None => [] end)) then mret ()
      else enter (Reviewing (mkReview id h Confirming 0 true [] false false false)) (Some ConfirmReview)
  | Some h, Reviewing r =>
      match rv_stage r with
      | Watching => enter (Reviewing (mkReview (rv_messageId r) h Confirming 0 false (rv_deferredRaw r) false (rv_isGeneratingSeen r) (rv_isHumanInterruptPassedThrough r))) (Some ConfirmReview)
      | _ => mret ()
      end
  | _, _ => mret ()
  end.
Definition appendOutput (data : str) : Op unit :=
  previousOutput ← gets outputBuffer;
  _ ← modify (set_outputBuffer (trimToTail (previousOutput ++ data) OUTPUT_BUFFER_LIMIT));
  let isNoticeDrawn := drawnAgain INVISIBLE_CHARACTERS_REVIEW_NOTICE previousOutput data in
  let isGeneratingMarkerDrawn := drawnAgain GENERATING_MARKER previousOutput data in
  if negb isNoticeDrawn && negb isGeneratingMarkerDrawn then mret ()
  else
    p ← gets phase;
    _ ← (match p with Reviewing r => setPhase (Reviewing (drawn isNoticeDrawn isGeneratingMarkerDrawn r)) | _ => mret () end);
    if isNoticeDrawn then startConfirmingReview else mret ().

(** ** Typing and submitting *)
Definition submit (id : str) (h : nat) (raw : list str) : Op unit :=
  live ← gets (isLive h);
  if negb live then enter Ready None
  else
    _ ← terminal (PressedEnter h id);
    _ ← modify (set_unfinishedTurn true);
    mayDraw ← mayDrawReviewNotice id;
    if mayDraw : bool then watchForReviewNotice id h raw else commitSubmission id ≫= λ _, flushDeferredRaw h raw.
(** A message that became obsolete is dropped and the next one is looked at ([again]). *)
Definition type_once (again : Op unit) : Op unit :=
  _ ← recordDelivery;
  live ← gets liveHandle;
  match live with
  | None => mret ()
  | Some h =>
      unsent ← hasUnsentHumanDraft;
      if unsent : bool then mret ()
      else
        held ← gets deliveryHeld;
        if held : bool then mret ()
        else
          state ← repo_get;
          let isWaitingOnHuman := bool_decide (state = Some WaitingInput) in
          next ← onQueue (λ t, (t, nextPending t sid isWaitingOnHuman));
          match next with
          | None => mret ()
          | Some message =>
              isObsolete ← gets (λ s, mem_str (msg_id message) (obsolete s));
              if isObsolete : bool then
                _ ← onQueue (λ t, discardQueued t sid (msg_id message));
                again
              else terminal (TypedBody h (msg_id message) (msg_body message)) ≫= λ _, enter (Typing (msg_id message) h []) (Some FinishTyping)
          end
  end.
(** [fuel] bounds how many obsolete messages are dropped: there are no more than rows. *)
Fixpoint type_next (fuel : nat) : Op unit := type_once (match fuel with O => mret () | S fuel' => type_next fuel' end).
Definition typeNextMessage : Op unit := λ s, type_next (length (queue s)) s.
(** *** Closing *)
Definition daemon_shutdown : SessionCloseReason := OtherCloseReason (js "daemon_shutdown").
Definition closed_by_user : SessionCloseReason := OtherCloseReason (js "closed_by_user").
Definition is_closing (s : delivery) : bool := match phase s with Closing => true | _ => false end.
Definition reasonOfProcessExit (exitCode : option Z) (s : delivery) : option SessionCloseReason :=
  let isFailureExit := match exitCode with Some code => negb (Z.eqb code 0) | None => false end in
  match closeCause s with
  | Some Shutdown => Some daemon_shutdown
  | Some SessionEndCause => Some (if isFailureExit then HarnessExited else closed_by_user)
  | None => if is_closing s || closingByParent s then Some closed_by_user else if isFailureExit then Some HarnessExited else None
  end.
Definition reasonOfRequestedClose (s : delivery) : SessionCloseReason := if bool_decide (closeCause s = Some Shutdown) then daemon_shutdown else closed_by_user.
Definition isCloseRequested (s : delivery) : bool := is_closing s || closingByParent s || bool_decide (closeCause s = Some Shutdown).
Definition recordCloseCause (cause : option CloseCause) : Op unit := modify (λ s, if bool_decide (closeCause s = Some Shutdown) then s else set_closeCause cause s).
Definition markClosed (reason : option SessionCloseReason) : Op unit :=
  _ ← modify (λ s, set_transcriptTail None (set_failedToStart false s));
  _ ← stopDelivery; _ ← forgetHumanDraft;
  _ ← modify (λ s, set_closeCause None (set_clearStartedAt None (set_clearHold None (set_unfinishedTurn false (set_pendingRelaunch false s)))));
  state ← repo_get;
  match state with
  | None | Some Closed => modify (set_closingByParent false)
  | Some _ =>
      _ ← call (λ s, (set_row (Some Closed) s, ())); _ ← modify (λ s, set_active None (set_handle None s));
      finally (terminal (AnnouncedClosed reason)) (set_closingByParent false)
  end.
Definition closeAfterFailedLaunch : Op unit :=
  state ← repo_get; _ ← markClosed (Some LaunchFailed);
  if bool_decide (state = Some Closed) then fallible faults ≫= λ _, terminal (AnnouncedClosed (Some LaunchFailed)) else mret ().
(** [catch]: the process is detached and killed, the row closed; the row was open, so that no close by a shutdown is rewritten. *)
Definition failResume : Op unit :=
  _ ← modify (λ s, match handle s with Some _ => set_active None s | None => s end); attempt (fallible faults ≫= λ _, markClosed (Some LaunchFailed)).
Definition retireForRelaunch : Op unit :=
  _ ← modify (set_transcriptTail None); _ ← fallible faults; _ ← fallible faults;
  modify (λ s, match handle s with Some _ => set_active None (set_handle None s) | None => s end).
(** The synchronous part: the old process is detached; [RelaunchEnds] is the rest. *)
Definition startRelaunch : Op unit :=
  down ← gets shuttingDown;
  if down : bool then throws DaemonShuttingDownError
  else
    _ ← modify (set_pendingRelaunch false); _ ← enter Relaunching None; _ ← modify (set_relaunchInFlight true);
    rescue retireForRelaunch failResume.
Definition relaunchOrDefer (state : SessionState) : Op bool :=
  isIdleConfirmed ← gets (λ s, canDeliverNow state && match phase s with Ready => true | _ => false end && negb (unfinishedTurn s) && negb (bool_decide (is_Some (clearHold s))));
  if isIdleConfirmed : bool then startRelaunch ≫= λ _, mret true else modify (set_pendingRelaunch true) ≫= λ _, mret false.
Definition updateModel : Op bool :=
  down ← gets shuttingDown;
  if down : bool then throws DaemonShuttingDownError
  else
    state ← repo_get;
    match state with
    | None => throws SessionNotFoundError
    | Some Closed => throws SessionClosedError
    | Some st => fallible faults ≫= λ _, fallible faults ≫= λ _, relaunchOrDefer st
    end.

(** *** The end of a review, which moves on *)
Definition giveUpOnReview (advance : Op unit) (r : ReviewingPhase) : Op unit :=
  _ ← modify (set_unfinishedTurn false); _ ← enter Ready None; _ ← releaseDeferredRaw r;
  now ← gets clock;
  _ ← attempt (if rv_isDeliveryRecorded r then mret () else onQueue (λ t, (markDelivered t (rv_messageId r) now, ())));
  _ ← modify (λ s, set_abandoned (rv_messageId r :: abandoned s) s);
  _ ← act AnnouncedError;
  advance.
Definition abandonReview (advance : Op unit) : Op unit :=
  p ← gets phase;
  match p with
  | Reviewing r =>
      match rv_stage r with
      | Clearing =>
          live ← gets (isLive (rv_handle r));
          let isTakenByTheCliMeanwhile := rv_isGeneratingSeen r || rv_isHumanInterruptPassedThrough r in
          _ ← (if live && negb isTakenByTheCliMeanwhile then terminal (PressedEscape (rv_handle r)) else mret ());
          giveUpOnReview advance r
      | _ => mret ()
      end
  | _ => mret ()
  end.
Definition releaseUnconfirmedReview (advance : Op unit) : Op unit :=
  p ← gets phase;
  match p with Reviewing r => match rv_stage r with Exhausted => giveUpOnReview advance r | _ => mret () end | _ => mret () end.
(** A phase moved by [advance]: a review that failed ends and moves on from [Ready] ([rest]). *)
Definition advance_from (rest : Op unit) : Op unit :=
  state ← repo_get;
  if negb (match state with Some st => canDeliverNow st | None => false end) then mret ()
  else
    p ← gets phase; attempts ← gets failedAttempts;
    match p with
    | Typed id h raw => submit id h raw
    | Reviewing r =>
        if Nat.eqb attempts 0 then mret ()
        else match rv_stage r with Confirming => confirmReview | Clearing => abandonReview rest | _ => mret () end
    | Ready =>
        isRelaunchPending ← gets pendingRelaunch; isTurnUnfinished ← gets unfinishedTurn; isClearInFlight ← gets (λ s, bool_decide (is_Some (clearHold s)));
        if isRelaunchPending && (isTurnUnfinished || isClearInFlight) then mret ()
        else if isRelaunchPending : bool then startRelaunch else typeNextMessage
    | _ => mret ()
    end.
(** [advance] calls itself once at most, from the end of a review, in the phase [Ready]. *)
Definition advance : Op unit := advance_from (advance_from (mret ())).

Definition finishTyping : Op unit :=
  p ← gets phase;
  match p with
  | Typing id h raw =>
      _ ← enter (Typed id h raw) None;
      state ← repo_get;
      _ ← (if negb (match state with Some st => canDeliverNow st | None => false end) then
             live ← gets (isLive h); _ ← enter (Typed id h []) None; if live : bool then flushDeferredRaw h raw else mret ()
           else mret ());
      advance
  | _ => mret ()
  end.
Definition reconcileUnstartedTurn (id : str) : Op unit :=
  tail ← gets transcriptTail;
  match tail with
  | None => mret ()
  | Some transcript =>
      attempt (
        verdict ← call (λ s, let '(r, v) := judgeSubmission (deliveries_db s) id (cliSessionId s)
                                  (λ since, promptDigestsInTranscript sha256 parseJson dateParse transcript (Some (isoOf since))) (clock s) in (set_deliveries_db r s, v));
        match verdict with
        | Redeliver => requeued ← onQueue (λ t, requeueDelivered t id); if requeued : bool then act (Requeued id) else mret ()
        | _ => mret ()
        end)
  end.
Definition stopAwaitingTurnStart : Op unit :=
  p ← gets phase; live ← gets liveHandle;
  match p with
  | Submitted id =>
      mayDraw ← (match live with Some _ => mayDrawReviewNotice id | None => mret false end);
      match live with
      | Some h =>
          if mayDraw : bool then enter (Reviewing (mkReview id h Exhausted 0 true [] false false false)) (Some ReleaseUnconfirmedReview)
          else reconcileUnstartedTurn id ≫= λ _, enter Ready None ≫= λ _, advance
      | None => reconcileUnstartedTurn id ≫= λ _, enter Ready None ≫= λ _, advance
      end
  | _ => enter Ready None ≫= λ _, advance
  end.
Definition run_timer (t : TimerStep) : Op unit :=
  match t with
  | FinishTyping => finishTyping | StopAwaitingTurnStart => stopAwaitingTurnStart | SettleWithoutNotice => settleWithoutNotice | ConfirmReview => confirmReview
  | ReleaseUnconfirmedReview => releaseUnconfirmedReview advance | AbandonReview => abandonReview advance | RetryAdvance => advance
  end.

(** ** Requests *)
Definition heldForHumanDraft (status : MessageStatus) : Op bool := match status with Queued => hasUnsentHumanDraft | Delivered => mret false end.
Definition isMessageReachingSession (id : str) (s : delivery) : bool :=
  match phase s with
  | Typing m _ _ | Typed m _ _ | Submitted m => str_eqb m id
  | Reviewing r => str_eqb (rv_messageId r) id
  | _ => false
  end || bool_decide (unrecorded s = Some id).
Definition replaceQueuedMessageBody (id body : str) : Op bool :=
  reaching ← gets (isMessageReachingSession id); if reaching : bool then mret false else onQueue (λ t, replaceQueuedBody t id body).
Definition discardQueuedMessage (id : str) : Op bool :=
  reaching ← gets (isMessageReachingSession id); if reaching : bool then mret false else onQueue (λ t, discardQueued t sid id).
Definition discardHeldMessage (id : str) : Op bool :=
  held ← heldMessagesOf; if existsb (λ m, str_eqb (msg_id m) id) held then onQueue (λ t, discardQueued t sid id) else mret false.
Definition releaseHeldMessage (id : str) : Op bool :=
  held ← heldMessagesOf;
  if existsb (λ m, str_eqb (msg_id m) id) held then forgetHumanDraft ≫= λ _, guarded advance ≫= λ _, mret true else mret false.
Record SendResult := mkSendResult { sent_status : MessageStatus; sent_id : str; sent_heldFor : bool }.
Definition senderBranchOf (fromSessionId : str) : option str := None.
(** An absent or an empty text is falsy. *)
Definition truthy (text : option str) : option str := match text with Some [] => None | t => t end.
(** [replayId]: the id the caller gave; [freshId]: the one minted otherwise. *)
Definition sendMessage (body : str) (fromSessionId replayId : option str) (freshId : str) : Op SendResult :=
  state ← repo_get;
  match state with
  | None => throws SessionNotFoundError
  | Some Closed => throws SessionClosedError
  | Some _ =>
      let id := default freshId replayId in
      let body := match truthy fromSessionId with Some from => wrapAgentMessage strip from (senderBranchOf from) id body | None => body end in
      existing ← (match truthy replayId with Some given => queue_getById given | None => mret None end);
      match existing with
      | Some m =>
          let isSameSend := str_eqb (msg_sessionId m) sid && bool_decide (msg_fromSessionId m = fromSessionId) && str_eqb (msg_body m) body in
          if negb isSameSend then throws MessageIdAlreadyUsedError
          else
            gone ← gets (λ s, mem_str (msg_id m) (abandoned s));
            if gone : bool then throws HeldForReviewError else held ← heldForHumanDraft (msg_status m); mret (mkSendResult (msg_status m) (msg_id m) held)
      | None =>
          isSenderAtPendingLimit ← (match fromSessionId with
                                    | Some from => onQueue (λ t, (t, Nat.leb MAX_PENDING_AGENT_MESSAGES_PER_SENDER (countPendingFromSender t sid from)))
                                    | None => mret false
                                    end);
          if isSenderAtPendingLimit : bool then throws TooManyPendingMessagesError
          else
            now ← gets clock;
            inserted ← onQueue (λ t, match enqueue t id sid fromSessionId body now with Some (t', _) => (t', true) | None => (t, false) end);
            if negb inserted then throws Fault
            else
              _ ← act (Enqueued id);
              _ ← (match fromSessionId with Some from => act (AgentMessageSent from) | None => mret () end);
              _ ← guarded advance;
              isHandedToTerminal ← gets (λ s, match phase s with Typing m _ _ => str_eqb m id | _ => false end);
              if isHandedToTerminal : bool then mret (mkSendResult Delivered id false)
              else _ ← terminal (AnnouncedQueued id); held ← heldForHumanDraft Queued; mret (mkSendResult Queued id held)
      end
  end.

(** ** Closing and launching *)
(** The end of a close, once a flush that was waited for is over: the process is killed, which [Exited] or [OutlivedTheKill] ends. *)
Definition closeNow (cause : option CloseCause) : Op unit :=
  hd ← gets handle;
  match hd with
  | Some _ => mret ()
  | None => _ ← (if bool_decide (cause = None) then fallible faults else mret ()); reason ← gets reasonOfRequestedClose; markClosed (Some reason)
  end.
Definition close (closedByParent : bool) (cause : option CloseCause) : Op unit :=
  requested ← gets isCloseRequested;
  if bool_decide (cause = Some SessionEndCause) && requested then mret ()
  else
    _ ← (if closedByParent then modify (set_closingByParent true) else mret ());
    _ ← recordCloseCause cause;
    relaunching ← gets relaunchInFlight;
    if relaunching : bool then enter Closing None
    else
      hd ← gets handle;
      _ ← (match hd with Some _ => enter Closing None | None => mret () end);
      hold ← gets clearHold;
      if bool_decide (hold = Some true) then mret () else closeNow cause.
(** The process exits. *)
Definition processExited (h : nat) (exitCode : option Z) (wasConversationNotFound : bool) : Op unit :=
  a ← gets active;
  if bool_decide (a = Some h) then
    reasonOfExit ← gets (reasonOfProcessExit exitCode);
    let isRefusedResume := wasConversationNotFound && bool_decide (reasonOfExit = Some HarnessExited) in
    markClosed (if isRefusedResume then Some ConversationNotFound else reasonOfExit)
  else mret ().
(** What the harness makes of a launch: it may throw, or the row may miss its tokens. *)
Inductive Launch := NoStoredTokens | LaunchThrows | Launched (h : nat).
Definition resumeOne (launch : Launch) : Op bool :=
  down ← gets shuttingDown;
  if down : bool then throws DaemonShuttingDownError
  else
    _ ← fallible faults;
    match launch with
    | NoStoredTokens => mret false
    | LaunchThrows => closeAfterFailedLaunch ≫= λ _, mret false
    | Launched h =>
        _ ← fallible faults;
        _ ← modify (λ s, set_active (Some h) (set_handle (Some h) s)); _ ← call (λ s, (set_row (Some Starting) s, ())); _ ← terminal (AnnouncedState Starting);
        mret true
    end.
(** The second half of [performRelaunch]: the old process is gone or not. *)
Definition performRelaunch (hasOldProcessExited : bool) (launch : Launch) : Op unit :=
  _ ← rescue (
    state ← repo_get;
    match state with
    | None | Some Closed => mret ()
    | Some _ =>
        isCloseRequested ← gets is_closing;
        if isCloseRequested : bool then reason ← gets reasonOfRequestedClose; markClosed (Some reason)
        else if negb hasOldProcessExited then markClosed (Some LaunchFailed)
        else _ ← fallible faults; launched ← resumeOne launch; if launched : bool then enter Ready None else mret ()
    end) failResume;
  modify (set_relaunchInFlight false).

(** ** Inputs of the CLI *)
Definition holdRelaunchesFor (isFlushGrace : bool) : Op unit := modify (set_clearHold (Some isFlushGrace)).
Definition consumeClearStartedJustBefore : Op bool :=
  startedAt ← gets clearStartedAt; now ← gets clock; _ ← modify (set_clearStartedAt None);
  mret (match startedAt with Some at_ => Z.leb (now - at_) DEFAULT_CLEAR_IN_FLIGHT_TIMEOUT_MS | None => false end).
Definition isAwaitingQueuedClear : Op bool :=
  p ← gets phase;
  match p with
  | Submitted id => m ← queue_getById id; mret (match m with Some message => str_eqb (trim (msg_body message)) (js "/clear") | None => false end)
  | _ => mret false
  end.
Definition isHook (input : SessionInput) (p : ClaudeHookEvent → bool) : bool := match input with Hook event _ => p event | _ => false end.
Definition isUserPromptSubmit (event : ClaudeHookEvent) : bool := match event with UserPromptSubmit => true | _ => false end.
Definition isSessionStart (event : ClaudeHookEvent) : bool := match event with SessionStart _ => true | _ => false end.
(** [prompt]: the CLI session and the text a [UserPromptSubmit] carries. *)
Definition recordPromptDigest (prompt : option (str * str)) : Op unit :=
  match prompt with
  | None => mret ()
  | Some (cli, text) => attempt (call (λ s, (set_deliveries_db (recordPromptTaken sha256 (deliveries_db s) sid cli text (clock s)) s, ())))
  end.
Definition applyInput (input : SessionInput) (prompt : option (str * str)) : Op unit :=
  current ← repo_get;
  match current with
  | None => throws SessionNotFoundError
  | Some session_state =>
      failed ← gets failedToStart;
      if failed && negb (match input with HarnessExit => true | _ => false end) then mret ()
      else if isHook input isClear then
        justBefore ← consumeClearStartedJustBefore; holdRelaunchesFor justBefore
      else
        _ ← (if isHook input isSessionStart then
               _ ← fallible faults; hold ← gets clearHold; now ← gets clock;
               _ ← (if bool_decide (hold = None) && isHook input startsClearedConversation then modify (set_clearStartedAt (Some now)) else mret ());
               if bool_decide (hold = Some false) then holdRelaunchesFor true else mret ()
             else mret ());
        _ ← (if isHook input isUserPromptSubmit then
               fallible faults ≫= λ _, recordPromptDigest prompt
             else mret ());
        _ ← fallible faults;
        _ ← (if isHook input isUserPromptSubmit then p ← gets phase; match p with Ready => forgetHumanDraft | _ => mret () end else mret ());
        unfinished ← gets unfinishedTurn;
        let endsUnfinishedTurn := provesTurnEnded input && unfinished in
        _ ← (if endsUnfinishedTurn then modify (set_unfinishedTurn false) else mret ());
        let state := nextState session_state input in
        if bool_decide (state = session_state) then
          clears ← (if isHook input startsClearedConversation then isAwaitingQueuedClear else mret false);
          _ ← (if clears : bool then enter Ready None else mret ());
          if clears || endsUnfinishedTurn then guarded advance else mret ()
        else
          p ← gets phase;
          _ ← (match p with
               | Reviewing r => if bool_decide (state = Generating) || bool_decide (state = WaitingPermission) then acceptReviewedMessage r else mret ()
               | Submitted _ => enter Ready None
               | _ => mret ()
               end);
          if bool_decide (state = Closed) then match input with HarnessExit => reason ← gets (reasonOfProcessExit None); markClosed reason | _ => attempt (close false (Some SessionEndCause)) end
          else
            _ ← call (λ s, (set_row (Some state) s, ())); _ ← terminal (AnnouncedState state); _ ← fallible faults; guarded advance
  end.

(** ** Events *)
Inductive event :=
  | Send (body : str) (from replayId : option str) (freshId : str) | ReplaceBody (id body : str) | Discard (id : str) | DiscardHeld (id : str) | ReleaseHeld (id : str)
  | Keys_ (data : str) | Output (data : str) | Input_ (input : SessionInput) (prompt : option (str * str))
  | TimerFires | DraftTimerFires | ClearHoldEnds | ResumeHeldDelivery | ChangeModel | RelaunchEnds (exited : bool) (launch : Launch)
  | CloseRequested (closedByParent : bool) (cause : option CloseCause) | FlushEnds (cause : option CloseCause) | Exited (h : nat) (exitCode : option Z) (wasConversationNotFound : bool) | OutlivedTheKill (reason : SessionCloseReason) | Resumed (launch : Launch) | StartFails
  | HeldBy (held : bool) | ObsoleteAre (ids : list str) | TranscriptIs (tail : option str) | CliSessionIs (id : str) | Detached (owner : option nat) | ShutsDown.
Definition ignoring {A} (m : Op A) : Op unit := m ≫= λ _, mret ().
Definition handle_event (ev : event) : Op unit :=
  match ev with
  | Send body from replayId freshId => ignoring (sendMessage body from replayId freshId)
  | ReplaceBody id body => ignoring (replaceQueuedMessageBody id body)
  | Discard id => ignoring (discardQueuedMessage id)
  | DiscardHeld id => ignoring (discardHeldMessage id)
  | ReleaseHeld id => ignoring (releaseHeldMessage id)
  | Keys_ data => writeRaw data
  | Output data => appendOutput data
  | Input_ input prompt => applyInput input prompt
  | TimerFires => t ← gets timer; match t with Some step => modify (set_timer None) ≫= λ _, guarded (run_timer step) | None => mret () end
  | DraftTimerFires =>
      w ← gets draft;
      match w with
      | Some watch =>
          _ ← modify (set_draft (Some (mkDraftWatch (dw_handle watch) (dw_draft watch) None)));
          match dw_timer watch with Some AnnounceAbandonedDraft => announceAbandonedDraft | Some AdvanceAfterDraft => guarded advance | None => mret () end
      | None => mret ()
      end
  | ClearHoldEnds => hold ← gets clearHold; match hold with Some _ => modify (set_clearHold None) ≫= λ _, guarded advance | None => mret () end
  | ResumeHeldDelivery => guarded advance
  | ChangeModel => ignoring updateModel
  | RelaunchEnds exited launch => performRelaunch exited launch
  | CloseRequested closedByParent cause => close closedByParent cause
  | FlushEnds cause => closeNow cause
  | Exited h exitCode wasConversationNotFound => processExited h exitCode wasConversationNotFound
  | OutlivedTheKill reason => markClosed (Some reason)
  | Resumed launch => rescue (ignoring (resumeOne launch)) failResume
  | StartFails => modify (set_failedToStart true)
  | HeldBy held => modify (set_deliveryHeld held)
  | ObsoleteAre ids => modify (set_obsolete ids)
  | TranscriptIs tail => modify (set_transcriptTail tail)
  | CliSessionIs id => modify (set_cliSessionId id)
  | Detached owner => modify (set_active owner)
  | ShutsDown => modify (set_shuttingDown true)
  end.
(** An event at a time; an exception ends it. *)
Definition step (s : delivery) (ev : Z * event) : delivery := (handle_event ev.2 (set_clock ev.1 s)).1.
Definition run (s : delivery) (evs : list (Z * event)) : delivery := fold_left step evs s.
End Delivery.
