(* ===== verification/DeliveryFacts.v ===== *)
(** * Delivery of messages: facts

    Through any events, with any call of the database or of the terminal failing: what is announced or recorded as delivered was
    typed and submitted; a message without invisible characters is submitted once, and once more when the
    reconciler queues it again; without failures no delivery is left without its timer. *)
From S2P Require Import Prelude JsText Regex PolicyTypes PolicyDocument SecretMasker SessionState Lineage TriggerActions HumanDraft MessageEnvelope Sorting MessageQueue DeliveryReconciler Delivery.

(** ** Programs and their outcomes *)
Definition wp {A} (m : Op A) (Q : A → delivery → Prop) (E : delivery → Prop) (s : delivery) : Prop :=
  match m s with (s', inr a) => Q a s' | (s', inl _) => E s' end.
Lemma wp_bind {A B} (m : Op A) (k : A → Op B) Q E s : wp m (λ a s', wp (k a) Q E s') E s → wp (m ≫= k) Q E s.
Proof. unfold wp, mbind, Op_bind. by destruct (m s) as [s' [e|a]]. Qed.
Lemma wp_ret {A} (a : A) (Q : A → delivery → Prop) E s : Q a s → wp (mret a) Q E s.
Proof. done. Qed.
Lemma wp_gets {A} (f : delivery → A) (Q : A → delivery → Prop) E s : Q (f s) s → wp (gets f) Q E s.
Proof. done. Qed.
Lemma wp_modify f (Q : unit → delivery → Prop) E s : Q () (f s) → wp (modify f) Q E s.
Proof. done. Qed.
Lemma wp_throws {A} e (Q : A → delivery → Prop) (E : delivery → Prop) s : E s → wp (throws e) Q E s.
Proof. done. Qed.
Lemma wp_act a (Q : unit → delivery → Prop) E s : Q () (set_trace (trace s ++ [a]) s) → wp (act a) Q E s.
Proof. done. Qed.
Lemma wp_attempt m (Q : unit → delivery → Prop) E s : wp m (λ _ s', Q () s') (Q ()) s → wp (attempt m) Q E s.
Proof. unfold wp, attempt. by destruct (m s) as [s' [e|a]]. Qed.
Lemma wp_rescue m k (Q : unit → delivery → Prop) E s : wp m Q (wp k Q E) s → wp (rescue m k) Q E s.
Proof. unfold wp, rescue. by destruct (m s) as [s' [e|a]]. Qed.
Lemma wp_fallible which (Q : unit → delivery → Prop) (E : delivery → Prop) s :
  (which (calls s) = true → E (set_calls (S (calls s)) s)) → (which (calls s) = false → Q () (set_calls (S (calls s)) s)) → wp (fallible which) Q E s.
Proof. unfold wp, fallible. destruct (which (calls s)); naive_solver. Qed.
Lemma wp_enter p t (Q : unit → delivery → Prop) E s : Q () (set_failedAttempts 0 (set_timer t (set_phase p s))) → wp (enter p t) Q E s.
Proof. done. Qed.
Lemma wp_mono {A} (m : Op A) (Q Q' : A → delivery → Prop) (E E' : delivery → Prop) s :
  wp m Q E s → (∀ a s', Q a s' → Q' a s') → (∀ s', E s' → E' s') → wp m Q' E' s.
Proof. unfold wp. destruct (m s) as [s' [e|a]]; naive_solver. Qed.

(** ** The protocol *)
(** What a phase says of a message: nothing, in the composer of a process, submitted, held for review. *)
Inductive shape := Free | InComposer (id : str) (h : nat) | Sent (id : str) | InReview (id : str) (recorded : bool).
Definition shape_of (p : DeliveryPhase) : shape :=
  match p with
  | Ready | Closing | Relaunching => Free
  | Typing id h _ | Typed id h _ => InComposer id h
  | Submitted id => Sent id
  | Reviewing r => InReview (rv_messageId r) (match rv_stage r with Watching => false | _ => rv_isDeliveryRecorded r end)
  end.
Definition quiet (a : Act) : Prop :=
  match a with TypedBody _ _ _ | PressedEnter _ _ | AnnouncedDelivered _ | Enqueued _ | Requeued _ => False | _ => True end.
(** What the protocol sees of a state. *)
Record seen := mkSeen { sn_queue : table; sn_shape : shape; sn_unrecorded : option str; sn_db : reconciler; sn_trace : list Act }.
Definition see (s : delivery) : seen := mkSeen (queue s) (shape_of (phase s)) (unrecorded s) (deliveries_db s) (trace s).

Section Protocol.
Context (sid : str) (draws : str → bool) (readFaults : nat → bool) (allowed : str → str → Prop).
Inductive proto : seen → seen → Prop :=
  | pr_quiet q sh u db db' tr acts : (∀ id, was_redelivered db' id = was_redelivered db id) → Forall quiet acts → proto (mkSeen q sh u db tr) (mkSeen q sh u db' (tr ++ acts))
  | pr_drop q sh u db tr : proto (mkSeen q sh u db tr) (mkSeen q Free u db tr)
  | pr_type q db tr h m : m ∈ q → msg_status m = Queued → msg_sessionId m = sid →
      proto (mkSeen q Free None db tr) (mkSeen q (InComposer (msg_id m) h) None db (tr ++ [TypedBody h (msg_id m) (msg_body m)]))
  | pr_submit q u db tr id h : proto (mkSeen q (InComposer id h) u db tr) (mkSeen q (Sent id) (Some id) db (tr ++ [PressedEnter h id]))
  | pr_submit_held q u db tr id h m : m ∈ q → msg_id m = id → draws (msg_body m) = true →
      proto (mkSeen q (InComposer id h) u db tr) (mkSeen q (InReview id false) u db (tr ++ [PressedEnter h id]))
  | pr_submit_lost q u db tr id h n : readFaults n = true → proto (mkSeen q (InComposer id h) u db tr) (mkSeen q (InComposer id h) u db (tr ++ [PressedEnter h id]))
  | pr_commit q u db tr id : proto (mkSeen q (InReview id false) u db tr) (mkSeen q (Sent id) (Some id) db tr)
  | pr_review q u db tr id : proto (mkSeen q (Sent id) u db tr) (mkSeen q (InReview id true) u db tr)
  | pr_accept q u db tr id acts : Forall quiet acts → proto (mkSeen q (InReview id false) u db tr) (mkSeen q Free (Some id) db (tr ++ acts))
  | pr_give_up q u db tr id acts now : Forall quiet acts → proto (mkSeen q (InReview id false) u db tr) (mkSeen (markDelivered q id now) Free u db (tr ++ acts))
  | pr_record q sh db db' tr id now acts : (∀ id', was_redelivered db' id' = was_redelivered db id') → acts = [] ∨ acts = [AnnouncedDelivered id] →
      proto (mkSeen q sh (Some id) db tr) (mkSeen (markDelivered q id now) sh None db' (tr ++ acts))
  | pr_requeue q u db db' tr id : was_redelivered db id = false → (∀ id', was_redelivered db' id' = if decide (id' = id) then true else was_redelivered db id') →
      proto (mkSeen q (Sent id) u db tr) (mkSeen (requeueDelivered q id).1 (Sent id) u db' (tr ++ [Requeued id]))
  | pr_judged q sh u db db' tr id : (∀ id', was_redelivered db' id' = if decide (id' = id) then true else was_redelivered db id') → proto (mkSeen q sh u db tr) (mkSeen q sh u db' tr)
  | pr_enqueue q sh u db tr m : m ∉ q → getById q (msg_id m) = None → msg_status m = Queued → allowed (msg_id m) (msg_body m) →
      proto (mkSeen q sh u db tr) (mkSeen (q ++ [m]) sh u db (tr ++ [Enqueued (msg_id m)]))
  | pr_discard q sh u db tr id : proto (mkSeen q sh u db tr) (mkSeen (discardQueued q sid id).1 sh u db tr)
  | pr_replace q sh u db tr id body : allowed id body → proto (mkSeen q sh u db tr) (mkSeen (replaceQueuedBody q id body).1 sh u db tr).

(** Runs of the protocol, and programs that stay within it wherever they end. *)
Definition runs (s s' : delivery) : Prop := rtc proto (see s) (see s').
Definition follows {A} (m : Op A) : Prop := ∀ s, wp m (λ _, runs s) (runs s) s.
Lemma runs_refl s : runs s s.
Proof. apply rtc_refl. Qed.
Lemma runs_trans s1 s2 s3 : runs s1 s2 → runs s2 s3 → runs s1 s3.
Proof. unfold runs. intros ??. by etrans. Qed.
Lemma runs_once s s' : proto (see s) (see s') → runs s s'.
Proof. apply rtc_once. Qed.
Lemma runs_quiet s s' acts : queue s' = queue s → shape_of (phase s') = shape_of (phase s) → unrecorded s' = unrecorded s → (∀ id, was_redelivered (deliveries_db s') id = was_redelivered (deliveries_db s) id) →
  trace s' = trace s ++ acts → Forall quiet acts → runs s s'.
Proof. intros Hq Hp Hu Hd Ht Ha. apply runs_once. unfold see. rewrite Hq, Hp, Hu, Ht. by constructor. Qed.
Lemma runs_same s s' : see s' = see s → runs s s'.
Proof. intros Heq. unfold runs. rewrite Heq. apply rtc_refl. Qed.
Lemma wp_follows {A} (m : Op A) s0 s : follows m → runs s0 s → wp m (λ _, runs s0) (runs s0) s.
Proof. intros Hm Hr. eapply wp_mono; [apply Hm|intros a s' Hs'|intros s' Hs']; by eapply runs_trans. Qed.
Lemma follows_bind {A B} (m : Op A) (k : A → Op B) : follows m → (∀ a, follows (k a)) → follows (m ≫= k).
Proof. intros Hm Hk s. apply wp_bind. eapply wp_mono; [apply Hm|intros a s' Hs'; by apply wp_follows|done]. Qed.
Lemma follows_ret {A} (a : A) : follows (mret a).
Proof. intros s. apply runs_refl. Qed.
Lemma follows_gets {A} (f : delivery → A) : follows (gets f).
Proof. intros s. apply runs_refl. Qed.
Lemma follows_throws {A} e : follows (throws (A := A) e).
Proof. intros s. apply runs_refl. Qed.
Lemma follows_attempt m : follows m → follows (attempt m).
Proof. intros Hm s. apply wp_attempt. apply Hm. Qed.
Lemma follows_rescue m k : follows m → follows k → follows (rescue m k).
Proof. intros Hm Hk s. apply wp_rescue. eapply wp_mono; [apply Hm|done|intros s' Hs'; by apply wp_follows]. Qed.
Lemma follows_modify f : (∀ s, see (f s) = see s) → follows (modify f).
Proof. intros Hf s. by apply runs_same. Qed.
Lemma follows_act a : quiet a → follows (act a).
Proof. intros Ha s. apply (runs_quiet s _ [a]); try done. by repeat constructor. Qed.
Lemma follows_fallible which : follows (fallible which).
Proof. intros s. apply wp_fallible; intros _; by apply runs_same. Qed.
(** A program may rely on what it read. *)
Lemma follows_read {A B} (f : delivery → A) (k : A → Op B) : (∀ s, wp (k (f s)) (λ _, runs s) (runs s) s) → follows (gets f ≫= k).
Proof. intros Hk s. apply wp_bind, wp_gets. apply Hk. Qed.
End Protocol.

(** ** The machine follows the protocol *)
Definition draws_notice (isFormat : N → bool) (body : str) : bool := existsb (CONTROL_OR_FORMAT isFormat) (code_points (filter (λ c, c ≠ 10%N ∧ c ≠ 13%N ∧ c ≠ 9%N) body)).
Section Machine.
Context (sid : str) (strip : str → str) (isFormat : N → bool) (sha256 : str → str) (parseJson : str → option json) (dateParse : str → option Z) (isoOf : Z → str) (faults readFaults : nat → bool).
Context (allowed : str → str → Prop).
Abbreviation follows_ := (follows sid (draws_notice isFormat) readFaults allowed).
Abbreviation runs_ := (runs sid (draws_notice isFormat) readFaults allowed).
Abbreviation proto_ := (proto sid (draws_notice isFormat) readFaults allowed).
Create HintDb delivery.
#[local] Hint Resolve follows_ret follows_gets follows_throws follows_attempt follows_rescue follows_fallible follows_bind : delivery.
#[local] Hint Extern 2 (follows _ _ _ _ (modify _)) => (apply follows_modify; intros; reflexivity) : delivery.
#[local] Hint Extern 2 (follows _ _ _ _ (act _)) => (apply follows_act; exact I) : delivery.
Ltac follow := auto with delivery; repeat (match goal with
  | |- follows _ _ _ _ (mbind _ _) => apply follows_bind; [|intros ?]
  | |- follows _ _ _ _ (if ?b then _ else _) => destruct b
  | |- follows _ _ _ _ (match ?x with _ => _ end) => destruct x
  | |- follows _ _ _ _ (let '(_, _) := ?x in _) => destruct x
  end; auto with delivery).

Lemma call_same {A} (f : delivery → delivery * A) : (∀ s, see (f s).1 = see s) → follows_ (call faults f).
Proof. intros Hf. unfold call. apply follows_bind; [apply follows_fallible|]. intros _ s. unfold wp. specialize (Hf s). destruct (f s) as [s' a]. by apply runs_same. Qed.
Lemma onQueue_read {A} (f : table → A) : follows_ (onQueue faults (λ t, (t, f t))).
Proof. apply call_same. intros s. by destruct s. Qed.
Lemma repo_get_follows : follows_ (repo_get faults).
Proof. unfold repo_get. follow. Qed.
Lemma getById_follows id : follows_ (queue_getById readFaults id).
Proof. unfold queue_getById. follow. Qed.
Lemma terminal_follows a : quiet a → follows_ (terminal faults a).
Proof. intros Ha. unfold terminal. follow. by apply follows_act. Qed.
#[local] Hint Resolve onQueue_read repo_get_follows getById_follows : delivery.
#[local] Hint Extern 2 (follows _ _ _ _ (terminal _ _)) => (apply terminal_follows; exact I) : delivery.
Lemma enter_free p t : shape_of p = Free → follows_ (enter p t).
Proof.
  intros Hp s. apply runs_once. unfold see. cbn. rewrite Hp. apply pr_drop.
Qed.
#[local] Hint Extern 2 (follows _ _ _ _ (enter _ _)) => (apply enter_free; reflexivity) : delivery.
Lemma retryAfterFailure_follows : follows_ retryAfterFailure.
Proof. unfold retryAfterFailure. follow. Qed.
Lemma guarded_follows m : follows_ m → follows_ (guarded m).
Proof.
  intros Hm s. pose proof (Hm s) as Hs. unfold wp, guarded in *. destruct (m s) as [s' [e|a]]; [|done].
  apply (wp_follows _ _ _ _ retryAfterFailure); [apply retryAfterFailure_follows|done].
Qed.
#[local] Hint Resolve guarded_follows : delivery.
(** *** Drafts and keys *)
Lemma hasUnsentHumanDraft_follows : follows_ hasUnsentHumanDraft.
Proof. unfold hasUnsentHumanDraft, forgetHumanDraft. follow. Qed.
Lemma observeHumanKeys_follows h keys : follows_ (observeHumanKeys h keys).
Proof. unfold observeHumanKeys, humanDraftWatchOf. follow. Qed.
#[local] Hint Resolve hasUnsentHumanDraft_follows observeHumanKeys_follows : delivery.
Lemma heldMessagesOf_follows : follows_ (heldMessagesOf sid faults).
Proof. unfold heldMessagesOf. follow. Qed.
Lemma writeRawChunk_follows h data : follows_ (writeRawChunkAndArm faults h data).
Proof. unfold writeRawChunkAndArm. follow. Qed.
#[local] Hint Resolve heldMessagesOf_follows writeRawChunk_follows : delivery.
Lemma flush_follows h raw : follows_ (flush faults h raw).
Proof. induction raw as [|r raw IH]; cbn [flush]; follow. Qed.
#[local] Hint Resolve flush_follows : delivery.
Lemma flushDeferredRaw_follows h raw : follows_ (flushDeferredRaw faults h raw).
Proof. unfold flushDeferredRaw. follow. Qed.
#[local] Hint Resolve flushDeferredRaw_follows : delivery.
Lemma announceAbandonedDraft_follows : follows_ (announceAbandonedDraft sid faults).
Proof.
  unfold announceAbandonedDraft. follow. intros s. apply (runs_quiet _ _ _ _ s _ (AnnouncedHeld ∘ msg_id <$> a)); try done. apply list.Forall_forall. intros x Hx.
  apply list_elem_of_fmap in Hx as (m & -> & _). done.
Qed.
Lemma releaseDeferredRaw_follows r : follows_ (releaseDeferredRaw faults r).
Proof. unfold releaseDeferredRaw. follow. Qed.
#[local] Hint Resolve announceAbandonedDraft_follows releaseDeferredRaw_follows : delivery.
(** A phase changed in place keeps its shape. *)
Lemma setPhase_same p s : shape_of p = shape_of (phase s) → wp (setPhase p) (λ _, runs_ s) (runs_ s) s.
Proof. intros Hp. apply runs_same. unfold see. cbn. by rewrite Hp. Qed.
Lemma enter_same p t s : shape_of p = shape_of (phase s) → wp (enter p t) (λ _, runs_ s) (runs_ s) s.
Proof. intros Hp. apply runs_same. unfold see. cbn. by rewrite Hp. Qed.
Lemma writeRaw_follows data : follows_ (writeRaw faults data).
Proof.
  unfold writeRaw. apply follows_read. intros s. destruct (phase s) as [|id h raw|id h raw|id|r| |] eqn:Hp; try (apply setPhase_same; by rewrite Hp).
  all: apply wp_bind, wp_gets; destruct (handle s) as [hd|]; [|apply runs_refl]; try apply writeRawChunk_follows.
  destruct (negb _); [apply setPhase_same; by rewrite Hp|]. apply wp_bind. eapply wp_mono; [apply setPhase_same; by rewrite Hp| |done].
  intros u s' Hs'. apply wp_follows; [|done]. follow.
Qed.
(** *** Records *)
Lemma recordDelivery_follows : follows_ (recordDelivery sid sha256 faults readFaults).
Proof.
  intros s. unfold recordDelivery. apply wp_bind, wp_gets. destruct (unrecorded s) as [id|] eqn:Hu; [|apply runs_refl].
  apply wp_bind, wp_gets. apply wp_bind. unfold onQueue, call. apply wp_bind, wp_fallible; intros _; [by apply runs_same|]. unfold wp at 1. cbv beta iota zeta.
  apply wp_bind, wp_modify.
  assert (Hrec : ∀ s' db' acts, queue s' = markDelivered (queue s) id (clock s) → phase s' = phase s → unrecorded s' = None → deliveries_db s' = db' →
            (∀ id', was_redelivered db' id' = was_redelivered (deliveries_db s) id') → trace s' = trace s ++ acts → acts = [] ∨ acts = [AnnouncedDelivered id] → runs_ s s').
  { intros s' db' acts Hq Hp Hu' Hd Hre Ht Ha. apply runs_once. unfold see. rewrite Hq, Hp, Hu', Hd, Ht, Hu. by apply pr_record. }
  assert (Hann : ∀ s', queue s' = markDelivered (queue s) id (clock s) → phase s' = phase s → unrecorded s' = None →
            (∀ id', was_redelivered (deliveries_db s') id' = was_redelivered (deliveries_db s) id') → trace s' = trace s →
            wp (attempt (terminal faults (AnnouncedDelivered id))) (λ _, runs_ s) (runs_ s) s').
  { intros s' Hq Hp Hu' Hre Ht. apply wp_attempt. unfold terminal. apply wp_bind, wp_fallible; intros _; [|apply wp_act].
    - apply (Hrec _ (deliveries_db s') []); try done; [by cbn; rewrite app_nil_r|by left].
    - apply (Hrec _ (deliveries_db s') [AnnouncedDelivered id]); try done; [by cbn; rewrite Ht|by right]. }
  apply wp_bind. unfold recordSubmittedDigest, queue_getById. apply wp_bind, wp_bind, wp_fallible; intros _.
  { apply (Hrec _ (deliveries_db s) []); try done; [by cbn; rewrite app_nil_r|by left]. }
  apply wp_gets. cbv beta. destruct (getById _ id) as [m|]; [|by apply Hann].
  apply wp_attempt. unfold call. apply wp_bind, wp_fallible; intros _; [by apply Hann|]. unfold wp at 1. cbv beta iota zeta. apply Hann; try done.
  intros id'. apply recordSubmission_redelivered.
Qed.
#[local] Hint Resolve recordDelivery_follows : delivery.
(** *** Submissions and reviews *)
Lemma mayDraw_wp id (Q : bool → delivery → Prop) (E : delivery → Prop) s :
  (∀ n, readFaults n = true → E (set_calls (S (calls s)) s)) →
  (∀ b, (b = true → ∃ m, m ∈ queue s ∧ msg_id m = id ∧ draws_notice isFormat (msg_body m) = true) → Q b (set_calls (S (calls s)) s)) → wp (mayDrawReviewNotice isFormat readFaults id) Q E s.
Proof.
  intros HE HQ. unfold mayDrawReviewNotice, queue_getById. apply wp_bind, wp_bind, wp_fallible; intros Hf; [by eapply HE|]. apply wp_gets. cbv beta. apply wp_ret.
  apply HQ. change (queue (set_calls (S (calls s)) s)) with (queue s). destruct (getById (queue s) id) as [m|] eqn:Hm; [|done]. intros Hb.
  unfold getById in Hm. apply find_some in Hm as [Hin Hid]. apply str_eqb_eq in Hid. exists m. split; [by apply list_elem_of_In|done].
Qed.
Lemma commitSubmission_wp s0 s id : shape_of (phase s) ≠ Free → (∀ s', see s' = mkSeen (queue s) (Sent id) (Some id) (deliveries_db s) (trace s) → runs_ s0 s') →
  wp (commitSubmission sid sha256 faults readFaults id) (λ _, runs_ s0) (runs_ s0) s.
Proof.
  intros _ Hc. unfold commitSubmission. apply wp_bind, wp_modify. apply wp_bind, wp_enter. apply wp_follows; [follow|]. by apply Hc.
Qed.
Lemma submit_wp s id h raw : shape_of (phase s) = InComposer id h → wp (submit sid isFormat sha256 faults readFaults id h raw) (λ _, runs_ s) (runs_ s) s.
Proof.
  intros Hp. unfold submit. apply wp_bind, wp_gets. destruct (negb _); [by apply enter_free|]. unfold terminal.
  apply wp_bind, wp_bind, wp_fallible; intros _; [by apply runs_same|]. apply wp_act. apply wp_bind, wp_modify. apply wp_bind. apply mayDraw_wp.
  - intros n Hn. apply runs_once. unfold see. cbn. rewrite Hp. by eapply pr_submit_lost.
  - intros [] Hdraw.
    + destruct (Hdraw eq_refl) as (m & Hin & Hid & Hd). apply runs_once. unfold see. cbn. rewrite Hp. by eapply pr_submit_held.
    + apply wp_bind. eapply wp_mono; [apply (commitSubmission_wp s)|intros u s' Hs'; apply wp_follows; [follow|done]|done]; [cbn; by rewrite Hp|].
      intros s' Hs'. unfold runs. rewrite Hs'. apply rtc_once. unfold see. cbn. rewrite Hp. apply pr_submit.
Qed.
Lemma settleWithoutNotice_follows : follows_ (settleWithoutNotice sid sha256 faults readFaults).
Proof.
  unfold settleWithoutNotice. apply follows_read. intros s. destruct (phase s) as [|? ? ?|? ? ?|?|r| |] eqn:Hp; try apply runs_refl. destruct (rv_stage r) eqn:Hst; try apply runs_refl.
  apply wp_bind, wp_gets. destruct (negb _); [by apply enter_free|]. apply wp_bind.
  eapply wp_mono; [apply (commitSubmission_wp s)|intros u s' Hs'; apply wp_follows; [follow|done]|done]; [by rewrite Hp|].
  intros s' Hs'. unfold runs. rewrite Hs'. unfold see. rewrite Hp. cbn. rewrite Hst. apply rtc_once, pr_commit.
Qed.
#[local] Hint Resolve settleWithoutNotice_follows : delivery.
(** What [follows_] programs do to a state seen otherwise: nothing but quiet acts. *)
Definition hushed {A} (m : Op A) : Prop := ∀ s, wp m (λ _ s', ∃ acts, Forall quiet acts ∧ see s' = mkSeen (queue s) (shape_of (phase s)) (unrecorded s) (deliveries_db s) (trace s ++ acts))
                                                       (λ s', ∃ acts, Forall quiet acts ∧ see s' = mkSeen (queue s) (shape_of (phase s)) (unrecorded s) (deliveries_db s) (trace s ++ acts)) s.
Lemma hushed_same {A} (m : Op A) : (∀ s, wp m (λ _ s', see s' = see s) (λ s', see s' = see s) s) → hushed m.
Proof. intros Hm s. eapply wp_mono; [apply Hm|intros a s' Hs'|intros s' Hs']; exists []; rewrite app_nil_r; split; try done; constructor. Qed.
Lemma hushed_bind {A B} (m : Op A) (k : A → Op B) : hushed m → (∀ a, hushed (k a)) → hushed (m ≫= k).
Proof.
  intros Hm Hk s. apply wp_bind. eapply wp_mono; [apply Hm| |done]. intros a s1 (acts & Ha & Hs1). unfold see in Hs1. injection Hs1 as Hq Hp Hu Hd Ht.
  eapply wp_mono; [apply Hk|intros b s2|intros s2]; intros (acts2 & Ha2 & Hs2); exists (acts ++ acts2); (split; [by apply list.Forall_app|]); rewrite Hs2, Hq, Hp, Hu, Hd, Ht, app_assoc; done.
Qed.
Lemma hushed_terminal a : quiet a → hushed (terminal faults a).
Proof.
  intros Ha s. unfold terminal. apply wp_bind, wp_fallible; intros _; [exists []; rewrite app_nil_r; split; [constructor|done]|]. apply wp_act. exists [a]. split; [by repeat constructor|done].
Qed.
Lemma hushed_observe h keys : hushed (observeHumanKeys h keys).
Proof. apply hushed_same. intros s. unfold observeHumanKeys, humanDraftWatchOf. apply wp_bind, wp_bind, wp_gets. destruct (draft s) as [watch|]; [destruct (Nat.eqb _ _)|]; done. Qed.
Lemma hushed_flush h raw : hushed (flushDeferredRaw faults h raw).
Proof.
  assert (Hf : hushed (flush faults h raw)).
  { induction raw as [|r raw IH]; cbn [flush]; [by apply hushed_same|]. apply hushed_bind; [|done]. unfold writeRawChunkAndArm.
    apply hushed_bind; [apply hushed_same; intros s; destruct (mem_chr _ _); [by apply wp_fallible|done]|]. intros _. apply hushed_bind; [by apply hushed_terminal|intros _; apply hushed_observe]. }
  intros s. unfold flushDeferredRaw. apply wp_attempt. apply Hf.
Qed.
Lemma hushed_release r : hushed (releaseDeferredRaw faults r).
Proof. unfold releaseDeferredRaw. apply hushed_bind; [by apply hushed_same|]. intros []; [apply hushed_flush|by apply hushed_same]. Qed.

Lemma acceptReviewedMessage_wp s r : phase s = Reviewing r → wp (acceptReviewedMessage sid sha256 faults readFaults r) (λ _, runs_ s) (runs_ s) s.
Proof.
  intros Hp. unfold acceptReviewedMessage. destruct (rv_isDeliveryRecorded r) eqn:Hrec; [apply (wp_follows _ _ _ _ _ s s); [|apply runs_refl]; follow|].
  apply wp_bind, wp_enter. apply wp_bind. eapply wp_mono; [apply hushed_release|intros u s1 (acts & Ha & Hs1)|intros s1 (acts & Ha & Hs1)].
  - unfold see in Hs1. injection Hs1 as Hq Hsh Hu Hd Ht. apply wp_bind, wp_modify. apply wp_follows; [follow|]. apply runs_once. unfold see. cbn. cbn in Hsh. rewrite Hq, Hsh, Hd, Ht, Hp. cbn.
    assert (Hfalse : match rv_stage r with Watching => false | _ => rv_isDeliveryRecorded r end = false) by (by destruct (rv_stage r)). rewrite Hfalse. by apply pr_accept.
  - unfold runs. rewrite Hs1. cbn. eapply rtc_l; [apply (pr_drop _ _ _ _ (queue s) (shape_of (phase s)))|]. apply rtc_once. by apply pr_quiet.
Qed.
Lemma endConfirmations_wp s r : phase s = Reviewing r → rv_stage r = Confirming → wp (endConfirmations faults r) (λ _, runs_ s) (runs_ s) s.
Proof.
  intros Hp Hst. unfold endConfirmations, clearStuckComposer. destruct (_ && _); [|apply enter_same; rewrite Hp; cbn; by rewrite Hst].
  unfold terminal. apply wp_bind, wp_bind, wp_fallible; intros _; [by apply runs_same|]. apply wp_act. apply wp_enter.
  apply (runs_quiet _ _ _ _ s _ [PressedEscape (rv_handle r)]); try done; [cbn; rewrite Hp; cbn; by rewrite Hst|by repeat constructor].
Qed.
Lemma confirmReview_follows : follows_ (confirmReview faults).
Proof.
  unfold confirmReview. apply follows_read. intros s. destruct (phase s) as [|? ? ?|? ? ?|?|r| |] eqn:Hp; try apply runs_refl. destruct (rv_stage r) eqn:Hst; try apply runs_refl.
  apply wp_bind, wp_gets. destruct (negb _); [by apply enter_free|]. destruct (Nat.leb _ _); [by apply endConfirmations_wp|].
  unfold setPhase, terminal. apply wp_bind, wp_modify. apply wp_bind, wp_bind, wp_fallible; intros _; [apply runs_same; unfold see; cbn; by rewrite Hp|]. apply wp_act, wp_enter.
  apply (runs_quiet _ _ _ _ s _ [ConfirmedByEnter (rv_handle r) (rv_messageId r)]); try done; [cbn; by rewrite Hp|by repeat constructor].
Qed.
Lemma startConfirmingReview_follows : follows_ (startConfirmingReview readFaults).
Proof.
  unfold startConfirmingReview. apply follows_read. intros s. apply wp_bind, wp_gets. destruct (liveHandle s) as [h|]; [|apply runs_refl].
  destruct (phase s) as [|? ? ?|? ? ?|id|r| |] eqn:Hp; try apply runs_refl.
  - unfold queue_getById. apply wp_bind, wp_bind, wp_fallible; intros _; [by apply runs_same|]. apply wp_gets. destruct (Nat.ltb _ _); [by apply runs_same|].
    apply wp_enter. apply runs_once. unfold see. cbn. rewrite Hp. apply pr_review.
  - destruct (rv_stage r) eqn:Hst; try apply runs_refl. apply wp_enter. apply runs_same. unfold see. cbn. rewrite Hp. cbn. by rewrite Hst.
Qed.
#[local] Hint Resolve confirmReview_follows startConfirmingReview_follows : delivery.
Lemma appendOutput_follows data : follows_ (appendOutput readFaults data).
Proof.
  unfold appendOutput. apply follows_bind; [follow|]. intros previous. apply follows_bind; [follow|]. intros _. destruct (_ && _); [follow|].
  apply follows_read. intros s. apply wp_bind. eapply wp_mono with (Q := λ _, runs_ s) (E := runs_ s); [|intros u s' Hs'; apply wp_follows; [destruct (drawnAgain _ _ _); follow|done]|done].
  destruct (phase s) eqn:Hp; try apply runs_refl. apply setPhase_same. by rewrite Hp.
Qed.
(** *** Typing *)
Lemma nextPending_elem t b m : nextPending t sid b = Some m → m ∈ t ∧ msg_status m = Queued ∧ msg_sessionId m = sid.
Proof.
  intros Hm. unfold nextPending in Hm. assert (Hin : m ∈ sort_by msg_createdAt (select (λ m, pending_of sid m && (if b then negb (isDaemonLine (msg_body m)) else true)) t)).
  { destruct (sort_by _ _); [done|]. injection Hm as ->. left. }
  rewrite sort_by_perm in Hin. unfold select in Hin. apply list_elem_of_filter in Hin as [Hb Hin]. apply andb_true_iff in Hb as [Hb _]. unfold pending_of, is_queued in Hb.
  rewrite andb_true_iff, str_eqb_eq, bool_decide_eq_true in Hb. naive_solver.
Qed.
(** Programs that leave what the protocol sees as it is. *)
Definition unseen {A} (m : Op A) : Prop := ∀ s, wp m (λ _ s', see s' = see s) (λ s', see s' = see s) s.
Lemma unseen_draft : unseen hasUnsentHumanDraft.
Proof. intros s. unfold hasUnsentHumanDraft. apply wp_bind, wp_gets. destruct (draft s) as [watch|]; [|done]. apply wp_bind, wp_gets. by destruct (isLive _ s). Qed.
Lemma unseen_repo_get : unseen (repo_get faults).
Proof. intros s. unfold repo_get. apply wp_bind, wp_fallible; done. Qed.
Lemma unseen_queue {A} (f : table → A) : unseen (onQueue faults (λ t, (t, f t))).
Proof. intros s. unfold onQueue, call. apply wp_bind, wp_fallible; done. Qed.
Lemma unseen_next {A B} (m : Op A) (k : A → Op B) (P : delivery → Prop) s0 s : unseen m → runs_ s0 s → (∀ a s', see s' = see s → runs_ s0 s' → wp (k a) (λ _, runs_ s0) (runs_ s0) s') → wp (m ≫= k) (λ _, runs_ s0) (runs_ s0) s.
Proof.
  intros Hm Hr Hk. apply wp_bind. assert (Hs : ∀ s', see s' = see s → runs_ s0 s') by (intros s' Hs'; unfold runs; rewrite Hs'; exact Hr).
  eapply wp_mono; [apply Hm|intros a s' Hs'; by apply Hk, Hs|done].
Qed.
Lemma recordDelivery_clears s : wp (recordDelivery sid sha256 faults readFaults) (λ _ s', unrecorded s' = None ∧ phase s' = phase s) (λ _, True) s.
Proof.
  unfold recordDelivery. apply wp_bind, wp_gets. destruct (unrecorded s) as [id|] eqn:Hu; [|done].
  apply wp_bind, wp_gets. apply wp_bind. unfold onQueue, call. apply wp_bind, wp_fallible; intros _; [done|]. unfold wp at 1. cbv beta iota zeta. apply wp_bind, wp_modify.
  assert (Hann : ∀ s', unrecorded s' = None ∧ phase s' = phase s → wp (attempt (terminal faults (AnnouncedDelivered id))) (λ _ s', unrecorded s' = None ∧ phase s' = phase s) (λ _, True) s').
  { intros s' Hs'. apply wp_attempt. unfold terminal. apply wp_bind, wp_fallible; done. }
  apply wp_bind. unfold recordSubmittedDigest, queue_getById. apply wp_bind, wp_bind, wp_fallible; intros _; [done|]. apply wp_gets. cbv beta.
  destruct (getById _ id) as [m|]; [|by apply Hann]. apply wp_attempt. unfold call. apply wp_bind, wp_fallible; intros _; by apply Hann.
Qed.
Lemma wp_both {A} (m : Op A) (Q Q' : A → delivery → Prop) (E E' : delivery → Prop) s : wp m Q E s → wp m Q' E' s → wp m (λ a s', Q a s' ∧ Q' a s') (λ s', E s' ∧ E' s') s.
Proof. unfold wp. destruct (m s) as [s' [e|a]]; naive_solver. Qed.
Lemma discard_follows id : follows_ (onQueue faults (λ t, discardQueued t sid id)).
Proof.
  intros s. unfold onQueue, call. apply wp_bind, wp_fallible; intros _; [by apply runs_same|]. apply runs_once. unfold see. cbn. apply pr_discard.
Qed.
#[local] Hint Resolve discard_follows : delivery.
Lemma discard_wp s0 s id : runs_ s0 s → shape_of (phase s) = Free →
  wp (onQueue faults (λ t, discardQueued t sid id)) (λ _ s', runs_ s0 s' ∧ shape_of (phase s') = Free) (runs_ s0) s.
Proof.
  intros Hr Hp. unfold onQueue, call. apply wp_bind, wp_fallible; intros _; [by eapply runs_trans; [exact Hr|apply runs_same]|]. split; [|done].
  eapply runs_trans; [exact Hr|]. apply runs_once. unfold see. cbn. apply pr_discard.
Qed.
Lemma type_once_wp again s : (∀ s', shape_of (phase s') = Free → wp again (λ _, runs_ s') (runs_ s') s') → shape_of (phase s) = Free →
  wp (type_once sid sha256 faults readFaults again) (λ _, runs_ s) (runs_ s) s.
Proof.
  intros Hagain Hp. unfold type_once. apply wp_bind.
  eapply wp_mono; [apply wp_both; [apply recordDelivery_follows|apply recordDelivery_clears]|intros u s1 [Hr1 [Hu1 Hp1]]|by intros s1 [Hr1 _]].
  apply wp_bind, wp_gets. destruct (liveHandle s1) as [h|]; [|done].
  apply (unseen_next _ _ (λ _, True) s s1 unseen_draft Hr1). intros unsent s2 Hs2 Hr2. destruct unsent; [done|].
  apply wp_bind, wp_gets. destruct (deliveryHeld s2); [done|].
  apply (unseen_next _ _ (λ _, True) s s2 unseen_repo_get Hr2). intros state s3 Hs3 Hr3.
  apply wp_bind. unfold onQueue at 1, call at 1. apply wp_bind, wp_fallible; intros _; [by eapply runs_trans; [exact Hr3|apply runs_same]|].
  unfold wp at 1. cbv beta iota zeta. set (s4 := set_queue _ _). assert (Hs4 : see s4 = see s1) by (trans (see s3); [done|congruence]).
  assert (Hr4 : runs_ s s4) by (by eapply runs_trans; [exact Hr3|apply runs_same]).
  assert (Hsee : queue s4 = queue s1 ∧ shape_of (phase s4) = Free ∧ unrecorded s4 = None ∧ deliveries_db s4 = deliveries_db s1 ∧ trace s4 = trace s1).
  { split_and!; [exact (f_equal sn_queue Hs4)|trans (shape_of (phase s1)); [exact (f_equal sn_shape Hs4)|by rewrite Hp1]|trans (unrecorded s1); [exact (f_equal sn_unrecorded Hs4)|done]|exact (f_equal sn_db Hs4)|exact (f_equal sn_trace Hs4)]. }
  destruct (nextPending _ sid _) as [m|] eqn:Hm; [|done]. apply wp_bind, wp_gets. destruct (mem_str _ _).
  - apply wp_bind. eapply wp_mono; [apply (discard_wp s); [done|apply Hsee]|intros b s5 [Hr5 Hp5]|done].
    eapply wp_mono; [by apply Hagain|intros c s6 Hs6|intros s6 Hs6]; by eapply runs_trans.
  - apply nextPending_elem in Hm as (Hin & Hq & Hsid). destruct Hsee as (Hsq & Hsp & Hsu & _). unfold terminal.
    apply wp_bind, wp_bind, wp_fallible; intros _; [by eapply runs_trans; [exact Hr4|apply runs_same]|]. apply wp_act, wp_enter.
    assert (Hin4 : m ∈ queue s4) by exact Hin. clear Hin. clearbody s4. eapply runs_trans; [exact Hr4|]. apply runs_once. unfold see. cbn. rewrite Hsp, Hsu. by apply pr_type.
Qed.
Lemma type_next_wp fuel s : shape_of (phase s) = Free → wp (type_next sid sha256 faults readFaults fuel) (λ _, runs_ s) (runs_ s) s.
Proof.
  revert s. induction fuel as [|fuel IH]; intros s Hp; cbn [type_next]; apply type_once_wp; try done. intros s' Hs'. apply runs_refl.
Qed.
Lemma typeNextMessage_wp s : shape_of (phase s) = Free → wp (typeNextMessage sid sha256 faults readFaults) (λ _, runs_ s) (runs_ s) s.
Proof. apply type_next_wp. Qed.
(** *** Relaunches and closings *)
Lemma finally_follows {A} (m : Op A) f : follows_ m → (∀ s, see (f s) = see s) → follows_ (finally m f).
Proof.
  intros Hm Hf s. pose proof (Hm s) as Hs. unfold wp, finally in *. destruct (m s) as [s' [e|a]]; (eapply runs_trans; [exact Hs|by apply runs_same]).
Qed.
Lemma set_row_follows r : follows_ (call faults (λ s, (set_row r s, ()))).
Proof. apply call_same. intros s. by destruct s. Qed.
#[local] Hint Resolve set_row_follows : delivery.
Lemma markClosed_follows reason : follows_ (markClosed faults reason).
Proof. unfold markClosed, stopDelivery, forgetHumanDraft. follow. all: apply finally_follows; [follow|done]. Qed.
#[local] Hint Resolve markClosed_follows : delivery.
#[local] Hint Extern 3 (follows _ _ _ _ (modify _)) => (apply follows_modify; intros s; cbv beta; destruct (handle s); reflexivity) : delivery.
Lemma closeAfterFailedLaunch_follows : follows_ (closeAfterFailedLaunch faults).
Proof. unfold closeAfterFailedLaunch. follow. Qed.
#[local] Hint Resolve closeAfterFailedLaunch_follows : delivery.
Lemma failResume_follows : follows_ (failResume faults).
Proof. unfold failResume. follow. Qed.
Lemma retireForRelaunch_follows : follows_ (retireForRelaunch faults).
Proof. unfold retireForRelaunch. follow. Qed.
#[local] Hint Resolve failResume_follows retireForRelaunch_follows : delivery.
Lemma startRelaunch_follows : follows_ (startRelaunch faults).
Proof. unfold startRelaunch. follow. Qed.
#[local] Hint Resolve startRelaunch_follows : delivery.
Lemma updateModel_follows : follows_ (updateModel faults).
Proof. unfold updateModel, relaunchOrDefer. follow. Qed.
Lemma closeNow_follows cause : follows_ (closeNow faults cause).
Proof. unfold closeNow. follow. Qed.
#[local] Hint Resolve closeNow_follows : delivery.
Lemma close_follows b cause : follows_ (close faults b cause).
Proof. unfold close, recordCloseCause. follow. apply follows_modify. intros s. by destruct (bool_decide _). Qed.
Lemma resumeOne_follows launch : follows_ (resumeOne faults launch).
Proof. unfold resumeOne. follow. Qed.
#[local] Hint Resolve updateModel_follows close_follows resumeOne_follows : delivery.
Lemma performRelaunch_follows exited launch : follows_ (performRelaunch faults exited launch).
Proof. unfold performRelaunch. follow. apply follows_rescue; [|follow]. follow. Qed.
Lemma processExited_follows h code nf : follows_ (processExited faults h code nf).
Proof. unfold processExited. follow. Qed.
#[local] Hint Resolve performRelaunch_follows processExited_follows : delivery.
(** *** Moving on *)
Lemma giveUpOnReview_wp advance s r : phase s = Reviewing r → rv_stage r ≠ Watching → follows_ advance → wp (giveUpOnReview faults advance r) (λ _, runs_ s) (runs_ s) s.
Proof.
  intros Hp Hst Hadv. unfold giveUpOnReview. apply wp_bind, wp_modify. apply wp_bind, wp_enter. apply wp_bind.
  assert (Hdrop : ∀ s1 acts, Forall quiet acts → see s1 = mkSeen (queue s) Free (unrecorded s) (deliveries_db s) (trace s ++ acts) → runs_ s s1).
  { intros s1 acts Ha Hs1. unfold runs. rewrite Hs1. eapply rtc_l; [apply (pr_drop _ _ _ _ (queue s) (shape_of (phase s)))|]. apply rtc_once. by apply pr_quiet. }
  eapply wp_mono; [apply hushed_release|intros u s1 (acts & Ha & Hs1)|intros s1 (acts & Ha & Hs1)]; cbn in Hs1; [|by eapply Hdrop].
  apply wp_bind, wp_gets. apply wp_bind.
  assert (Hrest : ∀ s2, runs_ s s2 → wp (modify (λ s3, set_abandoned (rv_messageId r :: abandoned s3) s3) ≫= λ _, act AnnouncedError ≫= λ _, advance) (λ _, runs_ s) (runs_ s) s2)
    by (intros s2 Hs2; apply wp_follows; [follow|done]).
  apply wp_attempt. destruct (rv_isDeliveryRecorded r) eqn:Hrec; [apply wp_ret, Hrest; by eapply Hdrop|].
  unfold onQueue, call. apply wp_bind, wp_fallible; intros _; [apply Hrest; by eapply (Hdrop _ acts)|]. unfold wp at 1. cbv beta iota zeta. apply Hrest.
  apply runs_once. unfold see in *. injection Hs1 as Hq Hsh Hu Hd Ht. cbn. rewrite Hq, Hsh, Hu, Hd, Ht, Hp. cbn.
  assert (Hfalse : match rv_stage r with Watching => false | _ => rv_isDeliveryRecorded r end = false) by (by destruct (rv_stage r)). rewrite Hfalse. by apply pr_give_up.
Qed.
Lemma abandonReview_follows advance : follows_ advance → follows_ (abandonReview faults advance).
Proof.
  intros Hadv. unfold abandonReview. apply follows_read. intros s. destruct (phase s) as [|? ? ?|? ? ?|?|r| |] eqn:Hp; try apply runs_refl. destruct (rv_stage r) eqn:Hst; try apply runs_refl.
  apply wp_bind, wp_gets. apply wp_bind. destruct (_ && _); [|apply wp_ret, giveUpOnReview_wp; [done|by rewrite Hst|done]].
  unfold terminal. apply wp_bind, wp_fallible; intros _; [by apply runs_same|]. apply wp_act.
  set (s1 := set_trace _ _). assert (Hr : runs_ s s1) by (apply (runs_quiet _ _ _ _ s s1 [PressedEscape (rv_handle r)]); try done; by repeat constructor).
  eapply wp_mono; [apply (giveUpOnReview_wp advance s1 r); [exact Hp|by rewrite Hst|done]|intros u s2 Hs2|intros s2 Hs2]; by eapply runs_trans.
Qed.
Lemma releaseUnconfirmedReview_follows advance : follows_ advance → follows_ (releaseUnconfirmedReview faults advance).
Proof.
  intros Hadv. unfold releaseUnconfirmedReview. apply follows_read. intros s. destruct (phase s) as [|? ? ?|? ? ?|?|r| |] eqn:Hp; try apply runs_refl.
  destruct (rv_stage r) eqn:Hst; try apply runs_refl. apply giveUpOnReview_wp; [done|by rewrite Hst|done].
Qed.
#[local] Hint Resolve abandonReview_follows releaseUnconfirmedReview_follows : delivery.
Lemma advance_from_follows rest : follows_ rest → follows_ (advance_from sid isFormat sha256 faults readFaults rest).
Proof.
  intros Hrest. unfold advance_from. apply follows_bind; [follow|]. intros state. destruct (negb _); [follow|].
  apply follows_read. intros s. apply wp_bind, wp_gets. destruct (phase s) as [|id h raw|id h raw|id|r| |] eqn:Hp; try apply runs_refl.
  - apply wp_bind, wp_gets. apply wp_bind, wp_gets. apply wp_bind, wp_gets. destruct (_ && _); [apply runs_refl|]. destruct (pendingRelaunch s); [apply startRelaunch_follows|].
    apply typeNextMessage_wp. by rewrite Hp.
  - apply submit_wp. by rewrite Hp.
  - destruct (Nat.eqb _ _); [apply runs_refl|]. destruct (rv_stage r); try apply runs_refl; [apply confirmReview_follows|by apply abandonReview_follows].
Qed.
Lemma advance_follows : follows_ (advance sid isFormat sha256 faults readFaults).
Proof. unfold advance. apply advance_from_follows, advance_from_follows. follow. Qed.
#[local] Hint Resolve advance_follows : delivery.
Lemma finishTyping_follows : follows_ (finishTyping sid isFormat sha256 faults readFaults).
Proof.
  unfold finishTyping. apply follows_read. intros s. destruct (phase s) as [|id h raw|id h raw|id|r| |] eqn:Hp; try apply runs_refl.
  apply wp_bind, wp_enter. set (s1 := set_failedAttempts _ _). assert (Hs1 : see s1 = see s) by (unfold see; cbn; by rewrite Hp). assert (Hp1 : shape_of (phase s1) = InComposer id h) by done. clearbody s1.
  assert (Hr1 : runs_ s s1) by (by apply runs_same).
  apply (unseen_next _ _ (λ _, True) s s1 unseen_repo_get Hr1). intros state s2 Hs2 Hr2. assert (Hp2 : shape_of (phase s2) = InComposer id h) by (rewrite <- Hp1; exact (f_equal sn_shape Hs2)).
  destruct (negb _); [|apply wp_bind, wp_ret, wp_follows; [follow|done]]. apply wp_bind, wp_bind, wp_gets. apply wp_bind, wp_enter.
  assert (Hr3 : runs_ s (set_failedAttempts 0 (set_timer None (set_phase (Typed id h []) s2)))) by (eapply runs_trans; [exact Hr2|]; apply runs_same; unfold see; cbn; by rewrite Hp2).
  assert (Hadv : ∀ s', runs_ s s' → wp (advance sid isFormat sha256 faults readFaults) (λ _, runs_ s) (runs_ s) s') by (intros s' Hs'; apply wp_follows; [follow|done]).
  destruct (isLive h s2); [|by apply wp_ret, Hadv]. eapply wp_mono; [apply (wp_follows _ _ _ _ _ s _ (flushDeferredRaw_follows h raw) Hr3)|intros u s' Hs'; by apply Hadv|done].
Qed.
Lemma reconcile_wp s id : shape_of (phase s) = Sent id → wp (reconcileUnstartedTurn sha256 parseJson dateParse isoOf faults id) (λ _, runs_ s) (runs_ s) s.
Proof.
  intros Hp. unfold reconcileUnstartedTurn. apply wp_bind, wp_gets. destruct (transcriptTail s) as [transcript|]; [|apply runs_refl].
  apply wp_attempt. apply wp_bind. unfold call at 1. apply wp_bind, wp_fallible; intros _; [by apply runs_same|]. unfold wp at 1. cbv beta.
  match goal with |- context [judgeSubmission ?db id ?cli ?f ?now] =>
    pose proof (judgeSubmission_redelivered db id cli f now) as Hre; pose proof (judgeSubmission_once db id cli f now) as Honce; destruct (judgeSubmission db id cli f now) as [db' v] end.
  cbn [fst snd] in Hre, Honce. change (deliveries_db (set_calls (S (calls s)) s)) with (deliveries_db s) in Hre, Honce.
  assert (Hquiet : v ≠ Redeliver → runs_ s (set_deliveries_db db' (set_calls (S (calls s)) s))).
  { intros Hv. apply (runs_quiet _ _ _ _ s _ []); try done; [|cbn; by rewrite app_nil_r]. intros id'. cbn. rewrite Hre. by rewrite decide_False by naive_solver. }
  destruct v; [by apply Hquiet| |by apply Hquiet]. specialize (Honce eq_refl).
  assert (Hre' : ∀ id', was_redelivered db' id' = if decide (id' = id) then true else was_redelivered (deliveries_db s) id').
  { intros id'. rewrite Hre. destruct (decide (id' = id)); [by rewrite decide_True|by rewrite decide_False by naive_solver]. }
  assert (Hjudged : ∀ s', queue s' = queue s → phase s' = phase s → unrecorded s' = unrecorded s → deliveries_db s' = db' → trace s' = trace s → runs_ s s').
  { intros s' Hq Hph Hu Hd Ht. apply runs_once. unfold see. rewrite Hq, Hph, Hu, Hd, Ht. by eapply pr_judged. }
  apply wp_bind. unfold onQueue, call. apply wp_bind, wp_fallible; intros _; [by apply Hjudged|]. unfold wp at 1. cbv beta.
  destruct (requeueDelivered _ id) as [q' b] eqn:Hq. cbv beta iota zeta. destruct b.
  - apply runs_once. unfold see. cbn. rewrite Hp. assert (Hq' : q' = (requeueDelivered (queue s) id).1) by (symmetry; exact (f_equal fst Hq)). rewrite Hq'. by apply pr_requeue.
  - apply Hjudged; try done. cbn. unfold requeueDelivered in Hq. injection Hq as <- Hno. cbn. clear -Hno. change (queue (set_calls _ _)) with (queue s) in *.
    induction (queue s) as [|m q IH]; [done|]. cbn in Hno. apply orb_false_iff in Hno as [Hm Hno]. unfold update_where in *. rewrite fmap_cons. rewrite Hm. f_equal. by apply IH.
Qed.
Lemma stopAwaitingTurnStart_follows : follows_ (stopAwaitingTurnStart sid isFormat sha256 parseJson dateParse isoOf faults readFaults).
Proof.
  unfold stopAwaitingTurnStart. apply follows_read. intros s. apply wp_bind, wp_gets. assert (Hrest : follows_ (enter Ready None ≫= λ _, advance sid isFormat sha256 faults readFaults)) by follow.
  destruct (phase s) as [|? ? ?|? ? ?|id|r| |] eqn:Hp; try apply Hrest.
  assert (Hnext : ∀ s', see s' = see s → wp (reconcileUnstartedTurn sha256 parseJson dateParse isoOf faults id ≫= λ _, enter Ready None ≫= λ _, advance sid isFormat sha256 faults readFaults) (λ _, runs_ s) (runs_ s) s').
  { intros s' Hs'. assert (Hr : runs_ s s') by (by apply runs_same). apply wp_bind. assert (Hp' : shape_of (phase s') = Sent id) by (trans (shape_of (phase s)); [exact (f_equal sn_shape Hs')|by rewrite Hp]).
    eapply wp_mono; [by apply reconcile_wp|intros u s2 Hs2; apply wp_follows; [done|by eapply runs_trans]|intros s2 Hs2; by eapply runs_trans]. }
  destruct (liveHandle s) as [h|]; [|apply wp_bind, wp_ret; by apply Hnext]. apply wp_bind. apply mayDraw_wp; [intros n _; by apply runs_same|]. intros [] _; [|by apply Hnext].
  apply wp_enter. apply runs_once. unfold see. cbn. rewrite Hp. apply pr_review.
Qed.
#[local] Hint Resolve finishTyping_follows stopAwaitingTurnStart_follows : delivery.
Lemma run_timer_follows t : follows_ (run_timer sid isFormat sha256 parseJson dateParse isoOf faults readFaults t).
Proof. destruct t; cbn [run_timer]; follow. Qed.
#[local] Hint Resolve run_timer_follows : delivery.
(** *** Requests, inputs, events *)
Lemma replace_follows id body : allowed id body → follows_ (replaceQueuedMessageBody faults id body).
Proof.
  intros Ha. unfold replaceQueuedMessageBody. follow. intros s. unfold onQueue, call. apply wp_bind, wp_fallible; intros _; [by apply runs_same|].
  apply runs_once. unfold see. cbn. by apply pr_replace.
Qed.
Lemma discardQueuedMessage_follows id : follows_ (discardQueuedMessage sid faults id).
Proof. unfold discardQueuedMessage. follow. Qed.
Lemma discardHeldMessage_follows id : follows_ (discardHeldMessage sid faults id).
Proof. unfold discardHeldMessage. follow. Qed.
Lemma releaseHeldMessage_follows id : follows_ (releaseHeldMessage sid isFormat sha256 faults readFaults id).
Proof. unfold releaseHeldMessage, forgetHumanDraft. follow. Qed.
Lemma heldForHumanDraft_follows status : follows_ (heldForHumanDraft status).
Proof. unfold heldForHumanDraft. follow. Qed.
#[local] Hint Resolve replace_follows discardQueuedMessage_follows discardHeldMessage_follows releaseHeldMessage_follows heldForHumanDraft_follows : delivery.
(** The body that reaches the queue. *)
Definition sent_body (id body : str) (from : option str) : str := match truthy from with Some f => wrapAgentMessage strip f (senderBranchOf f) id body | None => body end.
Lemma sendMessage_follows body from replayId freshId : allowed (default freshId replayId) (sent_body (default freshId replayId) body from) →
  follows_ (sendMessage sid strip isFormat sha256 faults readFaults body from replayId freshId).
Proof.
  intros Ha. unfold sendMessage. apply follows_bind; [follow|]. intros [[]|]; try apply follows_throws.
  all: apply follows_bind; [follow|]; intros [m|]; [follow|].
  all: apply follows_bind; [follow|]; intros []; [follow|]; apply follows_bind; [follow|]; intros now.
  all: intros s; apply wp_bind; unfold onQueue at 1, call at 1; apply wp_bind, wp_fallible; intros _; [by apply runs_same|]; unfold wp at 1; cbv beta zeta.
  all: fold (sent_body (default freshId replayId) body from); set (id := default freshId replayId) in *; set (b := sent_body id body from) in *.
  all: change (queue (set_calls (S (calls s)) s)) with (queue s); unfold enqueue; destruct (getById (queue s) id) as [m|] eqn:Hget; cbv beta iota zeta; [apply wp_throws; by apply runs_same|].
  all: cbn [negb]; apply wp_bind, wp_act.
  all: apply wp_follows; [follow|].
  all: apply runs_once; unfold see; cbn; apply (pr_enqueue _ _ _ _ (queue s) _ _ _ _ (mkMessage id sid from b Queued now None)); try done.
  all: intros Hin; unfold getById in Hget; apply list_elem_of_In in Hin; pose proof (find_none _ _ Hget _ Hin) as Hno; cbn in Hno; by rewrite str_eqb_refl in Hno.
Qed.
Lemma recordPromptDigest_follows prompt : follows_ (recordPromptDigest sid sha256 faults prompt).
Proof.
  unfold recordPromptDigest. destruct prompt as [[cli text]|]; [|follow]. apply follows_attempt. unfold call. apply follows_bind; [follow|]. intros u s. unfold wp. cbv beta iota zeta.
  apply (runs_quiet _ _ _ _ s _ []); try done; [|cbn; by rewrite app_nil_r]. intros id. apply recordPromptTaken_redelivered.
Qed.
#[local] Hint Resolve recordPromptDigest_follows appendOutput_follows writeRaw_follows : delivery.
Lemma isAwaitingQueuedClear_follows : follows_ (isAwaitingQueuedClear readFaults).
Proof. unfold isAwaitingQueuedClear. follow. Qed.
#[local] Hint Resolve isAwaitingQueuedClear_follows : delivery.
Lemma applyInput_follows input prompt : follows_ (applyInput sid isFormat sha256 faults readFaults input prompt).
Proof.
  unfold applyInput. apply follows_bind; [follow|]. intros [current|]; [|follow]. apply follows_bind; [follow|]. intros failed. destruct (failed && _); [follow|]. destruct (isHook input isClear); [unfold consumeClearStartedJustBefore, holdRelaunchesFor; follow|].
  apply follows_bind; [unfold holdRelaunchesFor; follow|]. intros _. do 2 (apply follows_bind; [follow|]; intros _). apply follows_bind; [unfold forgetHumanDraft; follow|]. intros _. apply follows_bind; [follow|]. intros unfinished.
  apply follows_bind; [follow|]. intros _. destruct (bool_decide _); [follow|].
  apply follows_read. intros s. apply wp_bind. eapply wp_mono with (Q := λ _, runs_ s) (E := runs_ s).
  - destruct (phase s) as [|? ? ?|? ? ?|id|r| |] eqn:Hp; try apply runs_refl; [by apply enter_free|]. destruct (_ || _); [by apply acceptReviewedMessage_wp|apply runs_refl].
  - intros u s' Hs'. apply wp_follows; [|done]. destruct (bool_decide _); [destruct input; follow|follow].
  - done.
Qed.
#[local] Hint Resolve applyInput_follows : delivery.
Definition covered (ev : event) : Prop :=
  match ev with
  | Send body from replayId freshId => allowed (default freshId replayId) (sent_body (default freshId replayId) body from)
  | ReplaceBody id body => allowed id body
  | _ => True
  end.
Lemma handle_event_follows ev : covered ev → follows_ (handle_event sid strip isFormat sha256 parseJson dateParse isoOf faults readFaults ev).
Proof.
  intros Hc. destruct ev; cbn [handle_event]; unfold ignoring; try (follow; fail); (apply follows_bind; [|follow]); auto with delivery. by apply sendMessage_follows.
Qed.
(** Whatever happens at a time, the protocol explains it. *)
Lemma run_follows s evs : Forall (λ ev, covered ev.2) evs → runs_ s (run sid strip isFormat sha256 parseJson dateParse isoOf faults readFaults s evs).
Proof.
  unfold run. intros Hall. revert s. induction Hall as [|[at_ ev] evs Hc _ IH]; intros s; [apply runs_refl|]. cbn [fold_left]. eapply runs_trans; [|apply IH].
  unfold step. cbn [fst snd]. pose proof (handle_event_follows ev Hc (set_clock at_ s)) as Hw. unfold wp in Hw. apply (runs_trans _ _ _ _ s (set_clock at_ s)); [by apply runs_same|].
  destruct (handle_event _ _ _ _ _ _ _ _ _ ev (set_clock at_ s)) as [s' [e|a]]; exact Hw.
Qed.
End Machine.
