(* ===== verification/DeliveryClaims.v ===== *)
(** * Delivery of messages: theorems

    What the protocol of [DeliveryFacts] implies for every run of the machine: nothing is announced or recorded as delivered before it
    was typed and submitted to one process; a message without invisible characters is submitted once per time it was queued.
    Examples follow: where a failed call of the database, or the discard of a message in the composer, breaks what the comments say. *)
From S2P Require Import Prelude JsText Regex PolicyTypes PolicyDocument SecretMasker SessionState Lineage TriggerActions HumanDraft MessageEnvelope Sorting MessageQueue DeliveryReconciler Delivery DeliveryFacts.

(** ** Submitted messages *)
(** The trace holds the body typed to a process and, later, the Enter pressed there for it. *)
Definition submitted (tr : list Act) (id : str) : Prop :=
  ∃ h body pre mid post, tr = pre ++ TypedBody h id body :: mid ++ PressedEnter h id :: post.
Definition typed_to (tr : list Act) (h : nat) (id : str) : Prop := ∃ body, TypedBody h id body ∈ tr.
(** Every announcement follows the submission it announces. *)
Definition announced_after (tr : list Act) : Prop := ∀ pre id post, tr = pre ++ AnnouncedDelivered id :: post → submitted pre id.
Lemma submitted_app tr acts id : submitted tr id → submitted (tr ++ acts) id.
Proof. intros (h & body & pre & mid & post & ->). exists h, body, pre, mid, (post ++ acts). by simplify_list_eq. Qed.
Lemma typed_app tr acts h id : typed_to tr h id → typed_to (tr ++ acts) h id.
Proof. intros [body Hin]. exists body. set_solver. Qed.
Lemma typed_submitted tr h id : typed_to tr h id → submitted (tr ++ [PressedEnter h id]) id.
Proof. intros [body Hin]. apply list_elem_of_split in Hin as (pre & mid & ->). exists h, body, pre, mid, []. by simplify_list_eq. Qed.
Lemma announced_app tr acts : announced_after tr → (∀ id, AnnouncedDelivered id ∈ acts → submitted tr id) → announced_after (tr ++ acts).
Proof.
  intros Htr Hacts pre id post Heq. apply app_eq_inv in Heq as [(k & -> & Hk)|(k & -> & Hk)].
  - destruct k as [|a k]; [rewrite app_nil_r in Hacts; apply Hacts; cbn in Hk; rewrite <- Hk; left|]. injection Hk as <- ->. by apply (Htr _ _ k).
  - apply submitted_app, Hacts. rewrite Hk. set_solver.
Qed.
Lemma announced_other tr acts : announced_after tr → Forall (λ a, ∀ id, a ≠ AnnouncedDelivered id) acts → announced_after (tr ++ acts).
Proof. intros Htr Hall. apply announced_app; [done|]. intros id Hin. rewrite list.Forall_forall in Hall. by destruct (Hall _ Hin id). Qed.
Lemma quiet_other acts : Forall quiet acts → Forall (λ a, ∀ id, a ≠ AnnouncedDelivered id) acts.
Proof. intros Hq. eapply list.Forall_impl; [exact Hq|]. by intros [] ? ?. Qed.

(** *** Rows *)
Definition delivered_in (q : table) (id : str) : Prop := ∃ m, m ∈ q ∧ msg_id m = id ∧ msg_status m = Delivered.
Lemma update_where_elem p change (q : table) m : m ∈ update_where p change q → ∃ m0, m0 ∈ q ∧ m = if p m0 then change m0 else m0.
Proof. intros (m0 & -> & Hin)%list_elem_of_fmap. by exists m0. Qed.
Lemma delivered_markDelivered q id now id' : delivered_in (markDelivered q id now) id' → delivered_in q id' ∨ id' = id.
Proof.
  intros (m & (m0 & Hin & ->)%update_where_elem & Hid & Hst). destruct (str_eqb (msg_id m0) id) eqn:Heq.
  - right. apply str_eqb_eq in Heq. by rewrite <- Hid.
  - left. by exists m0.
Qed.
Lemma delivered_requeue q id id' : delivered_in (requeueDelivered q id).1 id' → delivered_in q id'.
Proof. intros (m & (m0 & Hin & ->)%update_where_elem & Hid & Hst). destruct (_ && _); [done|by exists m0]. Qed.
Lemma delivered_replace q id body id' : delivered_in (replaceQueuedBody q id body).1 id' → delivered_in q id'.
Proof. intros (m & (m0 & Hin & ->)%update_where_elem & Hid & Hst). exists m0. by destruct (_ && _). Qed.
Lemma delivered_discard q sid id id' : delivered_in (discardQueued q sid id).1 id' → delivered_in q id'.
Proof. intros (m & Hin & Hid & Hst). exists m. split; [|done]. apply list_elem_of_filter in Hin. tauto. Qed.
Lemma delivered_enqueue q m id' : msg_status m = Queued → delivered_in (q ++ [m]) id' → delivered_in q id'.
Proof. intros Hq (m' & Hin & Hid & Hst). exists m'. split; [|done]. apply elem_of_app in Hin as [Hin|Hin]; [done|]. apply list_elem_of_singleton in Hin as ->. congruence. Qed.

Section Submitted.
Context (sid : str) (draws : str → bool) (readFaults : nat → bool) (allowed : str → str → Prop) (old : str → Prop).
Definition shape_sound (sh : shape) (tr : list Act) : Prop :=
  match sh with Free => True | InComposer id h => typed_to tr h id | Sent id | InReview id _ => submitted tr id end.
Definition rows_sound (q : table) (tr : list Act) : Prop := ∀ id, delivered_in q id → old id ∨ submitted tr id.
Record sound (sn : seen) : Prop := {
  so_shape : shape_sound (sn_shape sn) (sn_trace sn);
  so_unrecorded : ∀ id, sn_unrecorded sn = Some id → submitted (sn_trace sn) id;
  so_announced : announced_after (sn_trace sn);
  so_rows : rows_sound (sn_queue sn) (sn_trace sn) }.
Lemma shape_app sh tr acts : shape_sound sh tr → shape_sound sh (tr ++ acts).
Proof. destruct sh; cbn; eauto using submitted_app, typed_app. Qed.
Lemma rows_app q tr acts : rows_sound q tr → rows_sound q (tr ++ acts).
Proof. intros Hq id Hid. destruct (Hq id Hid); eauto using submitted_app. Qed.
Lemma rows_fewer q q' tr : (∀ id, delivered_in q' id → delivered_in q id) → rows_sound q tr → rows_sound q' tr.
Proof. unfold rows_sound. naive_solver. Qed.
Lemma rows_mark q tr id now : submitted tr id → rows_sound q tr → rows_sound (markDelivered q id now) tr.
Proof. intros Hs Hq id' [Hid| -> ]%delivered_markDelivered; [by apply Hq|by right]. Qed.
Lemma typed_now tr h id body : typed_to (tr ++ [TypedBody h id body]) h id.
Proof. exists body. set_solver. Qed.
Create HintDb sound.
#[local] Hint Resolve submitted_app typed_app typed_submitted typed_now announced_other quiet_other shape_app rows_app rows_mark : sound.
#[local] Hint Extern 1 (Forall _ [_]) => (repeat constructor; discriminate) : sound.
Lemma proto_sound sn sn' : proto sid draws readFaults allowed sn sn' → sound sn → sound sn'.
Proof.
  intros Hstep [Hsh Hun Han Hro].
  destruct Hstep; cbn in Hsh, Hun, Han, Hro; split; cbn; auto with sound; try (intros id' Hid'; simplify_eq; eauto with sound; fail).
  - destruct H0 as [-> | ->]; [by rewrite app_nil_r|]. apply announced_app; [done|]. intros id' Hin. apply list_elem_of_singleton in Hin. simplify_eq. by apply Hun.
  - apply rows_app. eapply rows_fewer; [apply delivered_requeue|done].
  - apply rows_app. eapply rows_fewer; [|done]. intros id'. by apply delivered_enqueue.
  - eapply rows_fewer; [apply delivered_discard|done].
  - eapply rows_fewer; [apply delivered_replace|done].
Qed.
Lemma protocol_sound sn sn' : rtc (proto sid draws readFaults allowed) sn sn' → sound sn → sound sn'.
Proof. induction 1; eauto using proto_sound. Qed.
End Submitted.

(** ** Submissions are counted *)
Definition tally (p : Act → bool) (tr : list Act) : nat := length (List.filter p tr).
Definition pressed_for (id : str) (a : Act) : bool := match a with PressedEnter _ id' => str_eqb id' id | _ => false end.
Definition enqueued_as (id : str) (a : Act) : bool := match a with Enqueued id' => str_eqb id' id | _ => false end.
Definition requeued_as (id : str) (a : Act) : bool := match a with Requeued id' => str_eqb id' id | _ => false end.
#[global] Arguments tally : simpl never.
Lemma tally_one p a : tally p [a] = if p a then 1 else 0.
Proof. unfold tally. cbn. by destruct (p a). Qed.
Lemma tally_app p tr acts : tally p (tr ++ acts) = tally p tr + tally p acts.
Proof. unfold tally. by rewrite List.filter_app, length_app. Qed.
Lemma tally_none p acts : Forall (λ a, p a = false) acts → tally p acts = 0.
Proof. induction 1 as [|a acts Ha _ IH]; [done|]. change (a :: acts) with ([a] ++ acts). by rewrite tally_app, tally_one, Ha. Qed.
Lemma quiet_tally p acts : (∀ a, quiet a → p a = false) → Forall quiet acts → tally p acts = 0.
Proof. intros Hp Hq. apply tally_none. by eapply list.Forall_impl. Qed.

Section Once.
Context (sid : str) (draws : str → bool) (readFaults : nat → bool) (id : str).
Definition plain (id' body : str) : Prop := id' = id → draws body = false.
Definition waits (q : table) : Prop := ∃ m, m ∈ q ∧ msg_id m = id ∧ msg_status m = Queued.
(** The message may be submitted once more without being queued again. *)
Definition available (sn : seen) : Prop :=
  match sn_shape sn with InComposer id' _ => id' = id | _ => False end ∨ (waits (sn_queue sn) ∧ sn_unrecorded sn ≠ Some id).
Record counted (sn : seen) : Prop := {
  co_spent : tally (pressed_for id) (sn_trace sn) ≤ tally (enqueued_as id) (sn_trace sn) + tally (requeued_as id) (sn_trace sn);
  co_available : available sn → tally (pressed_for id) (sn_trace sn) < tally (enqueued_as id) (sn_trace sn) + tally (requeued_as id) (sn_trace sn);
  co_requeued : tally (requeued_as id) (sn_trace sn) ≤ if was_redelivered (sn_db sn) id then 1 else 0;
  co_plain : ∀ m, m ∈ sn_queue sn → plain (msg_id m) (msg_body m);
  co_shape : match sn_shape sn with InComposer _ _ => sn_unrecorded sn = None | InReview id' false => id' ≠ id ∧ sn_unrecorded sn = None | _ => True end }.
Lemma waits_mark q id' now : waits (markDelivered q id' now) → waits q ∧ id' ≠ id.
Proof.
  intros (m & (m0 & Hin & ->)%update_where_elem & Hid & Hst). destruct (str_eqb (msg_id m0) id') eqn:Heq; [done|].
  split; [by exists m0|]. intros ->. rewrite <- Hid, str_eqb_refl in Heq. done.
Qed.
Lemma waits_requeue q id' : waits (requeueDelivered q id').1 → waits q ∨ id' = id.
Proof.
  intros (m & (m0 & Hin & ->)%update_where_elem & Hid & Hst). destruct (str_eqb (msg_id m0) id') eqn:Heq.
  - right. apply str_eqb_eq in Heq. destruct (_ && _); cbn in Hid; congruence.
  - left. by exists m0.
Qed.
Lemma waits_replace q id' body : waits (replaceQueuedBody q id' body).1 → waits q.
Proof. intros (m & (m0 & Hin & ->)%update_where_elem & Hid & Hst). exists m0. by destruct (_ && _). Qed.
Lemma waits_discard q id' : waits (discardQueued q sid id').1 → waits q.
Proof. intros (m & Hin & Hid & Hst). exists m. split; [|done]. apply list_elem_of_filter in Hin. tauto. Qed.
Lemma waits_enqueue q m : waits (q ++ [m]) → waits q ∨ msg_id m = id.
Proof. intros (m' & Hin & Hid & Hst). apply elem_of_app in Hin as [Hin|Hin]; [left; by exists m'|]. apply list_elem_of_singleton in Hin as ->. by right. Qed.
Lemma getById_no_wait q : getById q id = None → ~ waits q.
Proof. intros Hget (m & Hin & Hid & _). apply list_elem_of_In in Hin. pose proof (find_none _ _ Hget _ Hin) as Hno. cbn in Hno. by rewrite Hid, str_eqb_refl in Hno. Qed.

(** *** Every step keeps the count *)
Definition plain_rows (q : table) : Prop := ∀ m, m ∈ q → plain (msg_id m) (msg_body m).
Lemma plain_update p change q : (∀ m, msg_id (change m) = msg_id m) → (∀ m, p m = true → plain (msg_id m) (msg_body m) → plain (msg_id m) (msg_body (change m))) →
  plain_rows q → plain_rows (update_where p change q).
Proof. intros Hid Hb Hq m (m0 & Hin & ->)%update_where_elem. destruct (p m0) eqn:Hp; [rewrite Hid; auto|auto]. Qed.
Definition unrelated (acts : list Act) : Prop := Forall (λ a, pressed_for id a = false ∧ enqueued_as id a = false ∧ requeued_as id a = false) acts.
Lemma quiet_unrelated acts : Forall quiet acts → unrelated acts.
Proof. intros Hq. eapply list.Forall_impl; [exact Hq|]. by intros []. Qed.
Lemma unrelated_tally acts : unrelated acts → tally (pressed_for id) acts = 0 ∧ tally (enqueued_as id) acts = 0 ∧ tally (requeued_as id) acts = 0.
Proof. intros Hu. split_and!; apply tally_none; (eapply list.Forall_impl; [exact Hu|]); cbn; tauto. Qed.
Lemma other_unrelated id' h : id' ≠ id → unrelated [PressedEnter h id'] ∧ unrelated [Requeued id'] ∧ unrelated [Enqueued id'].
Proof. intros Hne. assert (Heq : str_eqb id' id = false) by (by apply not_true_is_false; rewrite str_eqb_eq). split_and!; repeat constructor; done. Qed.
Definition shape_counted (sh : shape) (u : option str) : Prop :=
  match sh with InComposer _ _ => u = None | InReview id' false => id' ≠ id ∧ u = None | _ => True end.
(** A step that neither submits the message nor queues it. *)
Lemma counted_keep q sh u db tr q' sh' u' db' acts : counted (mkSeen q sh u db tr) → unrelated acts →
  (available (mkSeen q' sh' u' db' (tr ++ acts)) → available (mkSeen q sh u db tr)) →
  (was_redelivered db id = true → was_redelivered db' id = true) → plain_rows q' → shape_counted sh' u' → counted (mkSeen q' sh' u' db' (tr ++ acts)).
Proof.
  intros [Hs Ha Hr Hp Hsh] (Hp0 & He0 & Hr0)%unrelated_tally Hav Hdb Hp' Hsh'. split; cbn in *; rewrite ?tally_app, ?Hp0, ?He0, ?Hr0, ?Nat.add_0_r; auto.
  destruct (was_redelivered db id); [by rewrite Hdb by done|]. destruct (was_redelivered db' id); lia.
Qed.
Lemma counted_keep_nil q sh u db tr q' sh' u' db' : counted (mkSeen q sh u db tr) →
  (available (mkSeen q' sh' u' db' tr) → available (mkSeen q sh u db tr)) →
  (was_redelivered db id = true → was_redelivered db' id = true) → plain_rows q' → shape_counted sh' u' → counted (mkSeen q' sh' u' db' tr).
Proof. intros. rewrite <- (app_nil_r tr). eapply counted_keep; rewrite ?app_nil_r; eauto. constructor. Qed.
Lemma counted_submit q db tr h : counted (mkSeen q (InComposer id h) None db tr) → counted (mkSeen q (Sent id) (Some id) db (tr ++ [PressedEnter h id])).
Proof.
  intros [Hs Ha Hr Hp Hsh]. assert (Hlt := Ha (or_introl eq_refl)). split; cbn in *; rewrite ?tally_app, ?tally_one; cbn; rewrite ?str_eqb_refl; cbn; auto; try lia.
  intros [[]|[_ []]]. done.
Qed.
Lemma counted_requeue q u db db' tr : was_redelivered db id = false → was_redelivered db' id = true → plain_rows (requeueDelivered q id).1 →
  counted (mkSeen q (Sent id) u db tr) → counted (mkSeen (requeueDelivered q id).1 (Sent id) u db' (tr ++ [Requeued id])).
Proof.
  intros Hfirst Hdb Hrows [Hs Ha Hr Hp Hsh]. cbn in *. rewrite Hfirst in Hr. split; cbn; rewrite ?tally_app, ?tally_one; cbn; rewrite ?str_eqb_refl, ?Hdb; cbn; auto; lia.
Qed.
Lemma counted_enqueue q sh u db tr m : msg_id m = id → plain_rows (q ++ [m]) →
  counted (mkSeen q sh u db tr) → counted (mkSeen (q ++ [m]) sh u db (tr ++ [Enqueued id])).
Proof. intros Hm Hrows [Hs Ha Hr Hp Hsh]. cbn in *. split; cbn; rewrite ?tally_app, ?tally_one; cbn; rewrite ?str_eqb_refl; cbn; auto; try lia. Qed.
Lemma pressed_other q sh u db tr u' sh' h id' : id' ≠ id → u = None → u' = None ∨ u' = Some id' → (∀ h', sh' ≠ InComposer id h') → shape_counted sh' u' →
  counted (mkSeen q sh u db tr) → counted (mkSeen q sh' u' db (tr ++ [PressedEnter h id'])).
Proof.
  intros Hne -> Hu' Hsh' Hc' Hc. eapply counted_keep; eauto; [by apply other_unrelated| |exact (co_plain _ Hc)].
  unfold available. cbn. intros [Hin|[Hw Hu]]; [destruct sh'; try done; subst; by edestruct Hsh'|by right].
Qed.
Lemma proto_counted sn sn' : (∀ n, readFaults n = false) → proto sid draws readFaults plain sn sn' → counted sn → counted sn'.
Proof.
  intros Hno Hstep Hc. pose proof (co_shape _ Hc) as Hsh. pose proof (co_plain _ Hc) as Hp. destruct Hstep; cbn in Hsh, Hp.
  - eapply counted_keep; eauto using quiet_unrelated.
  - eapply counted_keep_nil; eauto; [|done]. unfold available. cbn. tauto.
  - eapply counted_keep; eauto; [by repeat constructor| |done]. unfold available. cbn. intros [Hid|Hw]; right; [|done]. split; [by exists m|done].
  - subst u. destruct (decide (id0 = id)) as [->|Hne]; [by apply counted_submit|]. eapply pressed_other; eauto; done.
  - subst u id0. assert (Hne : msg_id m ≠ id) by (intros Heq; pose proof (Hp m H Heq); congruence). eapply pressed_other; eauto; done.
  - by rewrite Hno in H.
  - destruct Hsh as [Hne ->]. eapply counted_keep_nil; eauto; [|done]. unfold available. cbn. intros [[]|[Hw _]]. by right.
  - eapply counted_keep_nil; [done|unfold available; cbn; tauto|done..].
  - destruct Hsh as [Hne ->]. eapply counted_keep; eauto using quiet_unrelated; [|done]. unfold available. cbn. intros [[]|[Hw _]]. by right.
  - eapply counted_keep; eauto using quiet_unrelated; [| |done].
    + unfold available. cbn. intros [[]|[Hw Hu]]. right. split; [by apply waits_mark in Hw as []|done].
    + by eapply plain_update; eauto.
  - eapply counted_keep; eauto.
    + destruct H0 as [-> | ->]; repeat constructor.
    + unfold available. cbn. intros [Hin|[[Hw Hne]%waits_mark Hu]]; [by left|]. right. split; [done|congruence].
    + by eapply plain_update; eauto.
    + destruct sh as [| | |? []]; cbn in *; naive_solver.
  - assert (Hrows : plain_rows (requeueDelivered q id0).1) by (eapply plain_update; eauto; done).
    destruct (decide (id0 = id)) as [->|Hne]; [eapply counted_requeue; eauto; by rewrite H0, decide_True|].
    eapply counted_keep; eauto; [by apply (other_unrelated _ 0)| |by rewrite H0, decide_False by done].
    unfold available. cbn. intros [[]|[[Hw|Heq]%waits_requeue Hu]]; [by right|done].
  - eapply counted_keep_nil; eauto. rewrite H. by case_decide.
  - assert (Hrows : plain_rows (q ++ [m])) by (intros m' [Hin|Hin%list_elem_of_singleton]%elem_of_app; [by apply Hp|by subst]).
    destruct (decide (msg_id m = id)) as [Heq|Hne]; [rewrite Heq; by apply counted_enqueue|].
    eapply counted_keep; eauto; [by apply (other_unrelated _ 0)|]. unfold available. cbn. intros [Hin|[[Hw|Hw]%waits_enqueue Hu]]; [by left|by right|done].
  - eapply counted_keep_nil; eauto.
    + unfold available. cbn. intros [Hin|[Hw%waits_discard Hu]]; [by left|by right].
    + intros m [_ Hin]%list_elem_of_filter. by apply Hp.
  - eapply counted_keep_nil; eauto.
    + unfold available. cbn. intros [Hin|[Hw%waits_replace Hu]]; [by left|by right].
    + eapply plain_update; eauto. cbn. intros m Hm _ Heq. apply andb_true_iff in Hm as [Hm%str_eqb_eq _]. apply H. congruence.
Qed.
Lemma protocol_counted sn sn' : (∀ n, readFaults n = false) → rtc (proto sid draws readFaults plain) sn sn' → counted sn → counted sn'.
Proof. intros Hno. induction 1; eauto using proto_counted. Qed.
End Once.

(** ** Every run of the machine *)
(** A service that has nothing in flight for the session. *)
Definition at_rest (s : delivery) : Prop := trace s = [] ∧ unrecorded s = None ∧ shape_of (phase s) = Free.
Section Claims.
Context (sid : str) (strip : str → str) (isFormat : N → bool) (sha256 : str → str) (parseJson : str → option json) (dateParse : str → option Z) (isoOf : Z → str).
Context (faults readFaults : nat → bool).
Abbreviation machine := (run sid strip isFormat sha256 parseJson dateParse isoOf faults readFaults).

(** C9. Whatever the events and whichever calls of the database and of the terminal fail, each run of the delivery machine is a run of
    the protocol: a message is typed only from its queued row and while no other is in flight, the Enter is
    pressed only for the message in the composer and for the process it was typed to, a row is marked delivered only for a message that was submitted or
    given up in review, and a message is queued again once at most. *)
Theorem delivery_refines_the_protocol (allowed : str → str → Prop) s evs :
  Forall (λ ev, covered strip allowed ev.2) evs → rtc (proto sid (draws_notice isFormat) readFaults allowed) (see s) (see (machine s evs)).
Proof. intros Hall. by apply run_follows. Qed.

(** C6. From rest, and whatever fails, what is announced as delivered was before that typed to a process and submitted there by its Enter;
    and the rows marked delivered are those of messages that were submitted, or that were delivered at the start. *)
Theorem delivered_messages_were_submitted s evs : at_rest s →
  announced_after (trace (machine s evs)) ∧ ∀ id, delivered_in (queue (machine s evs)) id → delivered_in (queue s) id ∨ submitted (trace (machine s evs)) id.
Proof.
  intros (Htr & Hun & Hsh). assert (Hruns := run_follows sid strip isFormat sha256 parseJson dateParse isoOf faults readFaults (λ _ _, True) s evs).
  destruct (protocol_sound _ _ _ _ (delivered_in (queue s)) _ _ (Hruns ltac:(apply list.Forall_forall; by intros [? []]))) as [_ _ Han Hrows]; [|done].
  unfold see. rewrite Htr, Hun, Hsh. split; [done|done| |by left]. cbn. intros pre id post Heq. by destruct pre.
Qed.

(** C7. From rest, when no read of a message by its id fails, a message that never carries an invisible character is
    submitted at most once per time it is queued: once for each send that queued it and once more if the reconciler judged that the CLI
    never took it, which it does at most once. *)
Theorem plain_messages_are_submitted_once s evs id : at_rest s → (∀ n, readFaults n = false) → getById (queue s) id = None →
  Forall (λ ev, covered strip (plain (draws_notice isFormat) id) ev.2) evs →
  tally (pressed_for id) (trace (machine s evs)) ≤ tally (enqueued_as id) (trace (machine s evs)) + tally (requeued_as id) (trace (machine s evs))
  ∧ tally (requeued_as id) (trace (machine s evs)) ≤ 1.
Proof.
  intros (Htr & Hun & Hsh) Hno Hget Hall. assert (Hruns := run_follows sid strip isFormat sha256 parseJson dateParse isoOf faults readFaults _ s evs Hall).
  destruct (protocol_counted _ _ _ _ _ _ Hno Hruns) as [Hs _ Hr _ _]; [|split; [exact Hs|]; cbn in Hr; destruct (was_redelivered _ _); lia].
  unfold see. rewrite Htr, Hun, Hsh. split; cbn; try done; try lia.
  - intros [[]|[Hw _]]. by apply getById_no_wait in Hw.
  - unfold tally. cbn. lia.
  - intros m Hin Heq. exfalso. unfold getById in Hget. apply list_elem_of_In in Hin. pose proof (find_none _ _ Hget _ Hin) as Hm. cbn in Hm. by rewrite Heq, str_eqb_refl in Hm.
Qed.
End Claims.

(** ** Concrete runs *)
(** A live process of an idle session, with a queue; the hash, the parsers and the dates are not consulted. *)
Definition idle_session (q : table) : delivery :=
  mkDelivery q (Some Idle) (Some 0) (Some 0) Ready None 0 None [] false false false None None None [] (mkReconciler [] []) (js "cli") None false [] false false None false 0 0 [].
Definition sample_run (faults readFaults : nat → bool) (evs : list (Z * event)) : delivery :=
  run (js "s") Datatypes.id (λ c, N.eqb c 8203) Datatypes.id (λ _, None) (λ _, None) (λ _, []) faults readFaults (idle_session []) evs.
Definition one_send : list (Z * event) := [(0%Z, Send (js "hi") None None (js "m")); (1%Z, TimerFires)].

Lemma delivery_refines_the_protocol_witness :
  rtc (proto (js "s") (draws_notice (λ c, N.eqb c 8203)) (λ _, false) (λ _ _, True)) (see (idle_session [])) (see (sample_run (λ _, false) (λ _, false) one_send))
  ∧ trace (sample_run (λ _, false) (λ _, false) one_send) = [Enqueued (js "m"); TypedBody 0 (js "m") (js "hi"); PressedEnter 0 (js "m"); AnnouncedDelivered (js "m")].
Proof.
  split; [|vm_compute; reflexivity]. apply (delivery_refines_the_protocol (js "s") Datatypes.id (λ c, N.eqb c 8203) Datatypes.id (λ _, None) (λ _, None) (λ _, []) (λ _, false) (λ _, false) (λ _ _, True)).
  repeat constructor.
Defined.
Lemma delivered_messages_were_submitted_witness : submitted (trace (sample_run (λ _, false) (λ _, false) one_send)) (js "m").
Proof.
  destruct (delivered_messages_were_submitted (js "s") Datatypes.id (λ c, N.eqb c 8203) Datatypes.id (λ _, None) (λ _, None) (λ _, []) (λ _, false) (λ _, false) (idle_session []) one_send) as [_ Hrows]; [by split_and!|].
  destruct (Hrows (js "m")) as [(m & Hin & _)|Hs]; [|by apply elem_of_nil in Hin|exact Hs].
  eexists (mkMessage (js "m") (js "s") None (js "hi") Delivered 0 (Some 1%Z)). split; [|done]. apply list_elem_of_In. vm_compute. left. reflexivity.
Defined.
(** The reconciler cannot vouch for the message and queues it once more: two submissions. *)
Definition one_send_unconfirmed : list (Z * event) :=
  [(0%Z, TranscriptIs (Some [])); (0%Z, Send (js "hi") None None (js "m")); (1%Z, TimerFires); (2%Z, TimerFires); (3%Z, TimerFires); (4%Z, TimerFires); (5%Z, TimerFires)].
Lemma plain_messages_are_submitted_once_witness :
  tally (pressed_for (js "m")) (trace (sample_run (λ _, false) (λ _, false) one_send_unconfirmed)) = 2
  ∧ tally (requeued_as (js "m")) (trace (sample_run (λ _, false) (λ _, false) one_send_unconfirmed)) ≤ 1.
Proof.
  split; [vm_compute; reflexivity|].
  apply (plain_messages_are_submitted_once (js "s") Datatypes.id (λ c, N.eqb c 8203) Datatypes.id (λ _, None) (λ _, None) (λ _, []) (λ _, false) (λ _, false) (idle_session []) one_send_unconfirmed (js "m")); try done.
  repeat constructor.
Defined.

(** The hypothesis on reads is needed: [submit] reads the message after its Enter, and a read that fails there leaves the message in the composer, so that the retry presses Enter
    again, although the comment at that line says that nothing past it may lead to a second one. *)
Example a_failed_read_presses_enter_twice :
  trace (sample_run (λ _, false) (Nat.eqb 9) (one_send ++ [(2%Z, TimerFires)])) =
    [Enqueued (js "m"); TypedBody 0 (js "m") (js "hi"); PressedEnter 0 (js "m"); AnnouncedError; PressedEnter 0 (js "m"); AnnouncedDelivered (js "m")].
Proof. vm_compute. reflexivity. Qed.
(** A read of the session that fails in [advance] while a message is being typed replaces the timer that would finish the typing by a retry of
    [advance], which does not move the phase [typing]: the message is never submitted, later messages and keys wait for ever. *)
Example a_failed_read_strands_the_typing :
  let s := sample_run (Nat.eqb 6) (λ _, false)
    [(0%Z, Send (js "hi") None None (js "m")); (1%Z, ResumeHeldDelivery); (2%Z, Keys_ (js "a")); (3%Z, TimerFires); (4%Z, TimerFires); (5%Z, Input_ (Hook Stop false) None); (6%Z, Send (js "yo") None None (js "n"))] in
  phase s = Typing (js "m") 0 [js "a"] ∧ timer s = None
  ∧ trace s = [Enqueued (js "m"); TypedBody 0 (js "m") (js "hi"); AnnouncedError; Enqueued (js "n"); AnnouncedQueued (js "n")].
Proof. vm_compute. split_and!; reflexivity. Qed.
(** [discardHeldMessage] does not ask whether the message is already in the composer: it answers that the message was dropped, and the message is submitted. *)
Example a_discarded_message_is_submitted :
  let s := sample_run (λ _, false) (λ _, false)
    [(0%Z, Send (js "hi") None None (js "m")); (1%Z, Input_ (Hook UserPromptSubmit false) None); (2%Z, TimerFires); (3%Z, Keys_ (js "a"))] in
  (discardHeldMessage (js "s") (λ _, false) (js "m") s).2 = inr true
  ∧ tally (pressed_for (js "m")) (trace (run (js "s") Datatypes.id (λ _, false) Datatypes.id (λ _, None) (λ _, None) (λ _, []) (λ _, false) (λ _, false) s
      [(4%Z, DiscardHeld (js "m")); (5%Z, Input_ (Hook Stop false) None)])) = 1.
Proof. vm_compute. split; reflexivity. Qed.
