(* ===== verification/DeliveryLiveness.v ===== *)
(** * Delivery of messages: progress

    A session that answers takes every message of its queue, oldest first: each turn of the CLI submits one. *)
From S2P Require Import Prelude JsText Regex PolicyTypes PolicyDocument SecretMasker SessionState Lineage TriggerActions HumanDraft MessageEnvelope Sorting MessageQueue DeliveryReconciler Delivery DeliveryFacts.

Definition never (n : nat) : bool := false.
Section Progress.
Context (sid : str) (strip : str → str) (isFormat : N → bool) (sha256 : str → str) (parseJson : str → option json) (dateParse : str → option Z) (isoOf : Z → str).
Abbreviation machine := (run sid strip isFormat sha256 parseJson dateParse isoOf never never).

(** Nothing holds the queue back: the process lives, it started, no draft, no hold, no relaunch. *)
Record unhindered (h : nat) (s : delivery) : Prop := {
  un_handle : handle s = Some h; un_active : active s = Some h; un_unrecorded : unrecorded s = None; un_draft : draft s = None;
  un_held : deliveryHeld s = false; un_obsolete : obsolete s = []; un_relaunch : pendingRelaunch s = false; un_clear : clearHold s = None; un_started : failedToStart s = false }.
(** The CLI takes the message that was submitted, then ends its turn. *)
Definition turn (at_ : Z * Z * Z * option (str * str)) : list (Z * event) :=
  let '(t1, t2, t3, prompt) := at_ in [(t1, TimerFires)] ++ [(t2, Input_ (Hook UserPromptSubmit false) prompt)] ++ [(t3, Input_ (Hook Stop false) None)].
(** What a turn shows for a message. *)
Definition delivery_trace (h : nat) (m : QueuedMessage) : list Act :=
  [TypedBody h (msg_id m) (msg_body m); PressedEnter h (msg_id m); AnnouncedDelivered (msg_id m); AnnouncedState Generating; AnnouncedState Idle].

(** What an idle session does next. *)
Record moved_on (h : nat) (before s : delivery) : Prop := {
  mo_unhindered : unhindered h s; mo_row : row s = Some Idle; mo_queue : queue s = queue before;
  mo_next : match listQueued (queue before) sid with
            | [] => phase s = Ready ∧ trace s = trace before
            | m :: _ => phase s = Typing (msg_id m) h [] ∧ timer s = Some FinishTyping ∧ trace s = trace before ++ [TypedBody h (msg_id m) (msg_body m)]
            end }.
(** Calls that do not fail. *)
Lemma wp_no_fault (Q : unit → delivery → Prop) E s : Q () (set_calls (S (calls s)) s) → wp (fallible never) Q E s.
Proof. done. Qed.
Lemma wp_repo_get (Q : option SessionState → delivery → Prop) E s : Q (row s) (set_calls (S (calls s)) s) → wp (repo_get never) Q E s.
Proof. done. Qed.
Lemma wp_onQueue {A} (f : table → table * A) (Q : A → delivery → Prop) E s : Q (f (queue s)).2 (set_queue (f (queue s)).1 (set_calls (S (calls s)) s)) → wp (onQueue never f) Q E s.
Proof. unfold onQueue, call, wp, fallible, mbind, Op_bind, never. cbn. by destruct (f (queue s)). Qed.
Lemma wp_terminal a (Q : unit → delivery → Prop) E s : Q () (set_trace (trace s ++ [a]) (set_calls (S (calls s)) s)) → wp (terminal never a) Q E s.
Proof. done. Qed.
Lemma wp_getById id (Q : option QueuedMessage → delivery → Prop) E s : Q (getById (queue s) id) (set_calls (S (calls s)) s) → wp (queue_getById never id) Q E s.
Proof. done. Qed.
Ltac go := cbv beta; repeat (lazymatch goal with
  | |- wp (mbind _ _) _ _ _ => apply wp_bind
  | |- wp (mret _) _ _ _ => apply wp_ret
  | |- wp (gets _) _ _ _ => apply wp_gets
  | |- wp (repo_get _) _ _ _ => apply wp_repo_get
  | |- wp (onQueue _ _) _ _ _ => apply wp_onQueue
  | |- wp (terminal _ _) _ _ _ => apply wp_terminal
  | |- wp (queue_getById _ _) _ _ _ => apply wp_getById
  | |- wp (enter _ _) _ _ _ => apply wp_enter
  | |- wp (modify _) _ _ _ => apply wp_modify
  | |- wp (act _) _ _ _ => apply wp_act
  | |- wp (attempt _) _ _ _ => apply wp_attempt
  | |- wp (fallible _) _ _ _ => apply wp_no_fault
  end; cbv beta).
Ltac on H := rewrite ?(un_handle _ _ H), ?(un_active _ _ H), ?(un_unrecorded _ _ H), ?(un_draft _ _ H), ?(un_held _ _ H), ?(un_obsolete _ _ H), ?(un_relaunch _ _ H), ?(un_clear _ _ H).
Lemma live_unhindered h s : unhindered h s → liveHandle s = Some h.
Proof. intros Hu. unfold liveHandle. on Hu. by rewrite bool_decide_true. Qed.
Lemma typeNext_wp h s : unhindered h s → row s = Some Idle → phase s = Ready → wp (typeNextMessage sid sha256 never never) (λ _, moved_on h s) (λ _, False) s.
Proof.
  intros Hu Hrow Hph. pose proof (nextPending_head (queue s) sid) as Hnext. change (wp (type_next sid sha256 never never (length (queue s))) (λ _, moved_on h s) (λ _, False) s).
  destruct (length (queue s)) as [|fuel]; cbn [type_next]; unfold type_once, recordDelivery, hasUnsentHumanDraft.
  all: go; on Hu; go; rewrite (live_unhindered h s Hu); go; on Hu; go; on Hu; go; cbn [row set_calls]; rewrite Hrow, bool_decide_false by done; go; cbn [fst snd queue set_calls]; rewrite Hnext.
  all: destruct (listQueued (queue s) sid) as [|m rest] eqn:Hq; cbn [list.head]; go.
  all: try (cbn [obsolete set_queue set_calls]; rewrite (un_obsolete _ _ Hu); cbn [mem_str existsb]; go).
  all: split; [by destruct Hu|done|done|by rewrite Hq].
Qed.
Lemma advance_types h s : unhindered h s → row s = Some Idle → phase s = Ready → wp (advance sid isFormat sha256 never never) (λ _, moved_on h s) (λ _, False) s.
Proof.
  intros Hu Hrow Hph. unfold advance, advance_from at 1. go. rewrite Hrow. cbn [canDeliverNow negb]. go. cbn [phase set_calls]. rewrite Hph. go. cbn [pendingRelaunch set_calls]. rewrite (un_relaunch _ _ Hu). cbn [andb].
  eapply wp_mono; [apply typeNext_wp; [by destruct Hu|done|done]|intros u s' [Hu' Hr' Hq' Hn']; by split|done].
Qed.
(** ** One turn *)
Definition plain_table (q : table) : Prop := ∀ m, m ∈ q → draws_notice isFormat (msg_body m) = false.
Lemma mayDraw_plain id s (Q : bool → delivery → Prop) E : plain_table (queue s) → Q false (set_calls (S (calls s)) s) → wp (mayDrawReviewNotice isFormat never id) Q E s.
Proof.
  intros Hplain HQ. unfold mayDrawReviewNotice. go. destruct (getById (queue s) id) as [m|] eqn:Hget; [|done].
  assert (Hm : draws_notice isFormat (msg_body m) = false) by (apply Hplain, list_elem_of_In; by apply find_some in Hget as []). unfold draws_notice in Hm. by rewrite Hm.
Qed.
Lemma wp_digest_call (f : delivery → reconciler) (Q : unit → delivery → Prop) E s : (∀ db n, Q () (set_deliveries_db db (set_calls n s))) →
  wp (attempt (call never (λ s, (set_deliveries_db (f s) s, ())))) Q E s.
Proof. intros HQ. apply HQ. Qed.
Lemma wp_digests id (Q : unit → delivery → Prop) E s : (∀ db n, Q () (set_deliveries_db db (set_calls n s))) → wp (recordSubmittedDigest sid sha256 never never id) Q E s.
Proof.
  intros HQ. unfold recordSubmittedDigest. go. destruct (getById (queue s) id) as [m|]; [apply wp_digest_call; intros db n; apply HQ|].
  specialize (HQ (deliveries_db s) (S (calls s))). apply wp_ret. destruct s. exact HQ.
Qed.
Record submitted_now (h : nat) (id : str) (before s : delivery) : Prop := {
  sn_unhindered : unhindered h s; sn_row : row s = Some Idle; sn_queue : queue s = markDelivered (queue before) id (clock before); sn_unfinished : unfinishedTurn s = true;
  sn_phase : phase s = Submitted id; sn_trace : trace s = trace before ++ [PressedEnter h id; AnnouncedDelivered id] }.
Lemma finishTyping_submits h id s : unhindered h s → row s = Some Idle → phase s = Typing id h [] → plain_table (queue s) →
  wp (finishTyping sid isFormat sha256 never never) (λ _, submitted_now h id s) (λ _, False) s.
Proof.
  intros Hu Hrow Hph Hplain. unfold finishTyping. go. rewrite Hph. go. cbn [row set_failedAttempts set_timer set_phase set_calls]. rewrite Hrow. cbn [canDeliverNow negb]. go.
  unfold advance, advance_from at 1. go. cbn [row set_failedAttempts set_timer set_phase set_calls]. rewrite Hrow. cbn [canDeliverNow negb]. go. cbn [phase set_failedAttempts set_timer set_phase set_calls].
  unfold submit. go. set (s1 := set_calls _ _). assert (Hu1 : unhindered h s1) by (by destruct Hu). unfold isLive. rewrite (live_unhindered h s1 Hu1), bool_decide_true by done. cbn [negb]. go.
  apply mayDraw_plain; [done|]. unfold commitSubmission. go. unfold recordDelivery. go. cbn [unrecorded set_failedAttempts set_timer set_phase set_unrecorded]. go.
  apply wp_digests. intros db n. go. cbn [flushDeferredRaw flush]. unfold flushDeferredRaw. cbn [flush]. go. split; try done; [by destruct Hu|]. cbn. by simplify_list_eq.
Qed.
(** The CLI takes the prompt, then ends its turn. *)
Record taken_now (h : nat) (before s : delivery) : Prop := {
  tn_unhindered : unhindered h s; tn_row : row s = Some Generating; tn_queue : queue s = queue before; tn_unfinished : unfinishedTurn s = unfinishedTurn before; tn_phase : phase s = Ready; tn_trace : trace s = trace before ++ [AnnouncedState Generating] }.
Lemma wp_set_row r (Q : unit → delivery → Prop) E s : (∀ n, Q () (set_row r (set_calls n s))) → wp (call never (λ s, (set_row r s, ()))) Q E s.
Proof. intros HQ. apply HQ. Qed.
Lemma guarded_wp m (Q : unit → delivery → Prop) E s : wp m Q (λ _, False) s → wp (guarded m) Q E s.
Proof. unfold wp, guarded. destruct (m s) as [s' [e|[]]]; [done|done]. Qed.
Lemma wp_prompt prompt (Q : unit → delivery → Prop) E s : (∀ db n, Q () (set_deliveries_db db (set_calls n s))) → wp (recordPromptDigest sid sha256 never prompt) Q E s.
Proof.
  intros HQ. unfold recordPromptDigest. destruct prompt as [[cli text]|]; [apply wp_digest_call; intros db n; apply HQ|].
  specialize (HQ (deliveries_db s) (calls s)). apply wp_ret. destruct s. exact HQ.
Qed.
Lemma prompt_taken h id prompt s : unhindered h s → row s = Some Idle → phase s = Submitted id →
  wp (applyInput sid isFormat sha256 never never (Hook UserPromptSubmit false) prompt) (λ _, taken_now h s) (λ _, False) s.
Proof.
  intros Hu Hrow Hph. unfold applyInput. go. rewrite Hrow. go. cbn [failedToStart set_calls]. rewrite (un_started _ _ Hu). cbn [andb isHook isClear isSessionStart isUserPromptSubmit startsClearedConversation]. go.
  apply wp_prompt. intros db n. go. cbn [phase set_deliveries_db set_calls]. rewrite Hph. go. cbn [provesTurnEnded andb]. go. change (nextState Idle (Hook UserPromptSubmit false)) with Generating.
  rewrite !bool_decide_false by done. go. cbn [phase set_deliveries_db set_calls]. rewrite Hph. go. apply wp_set_row. intros n'. go. apply guarded_wp.
  unfold advance, advance_from at 1. go. cbn [row set_row set_trace canDeliverNow negb]. go. by split; [destruct Hu|..].
Qed.
Lemma turn_ends h s : unhindered h s → row s = Some Generating → phase s = Ready → unfinishedTurn s = true →
  wp (applyInput sid isFormat sha256 never never (Hook Stop false) None) (λ _, moved_on h (set_trace (trace s ++ [AnnouncedState Idle]) s)) (λ _, False) s.
Proof.
  intros Hu Hrow Hph Hunf. unfold applyInput. go. rewrite Hrow. go. cbn [failedToStart set_calls]. rewrite (un_started _ _ Hu). cbn [andb isHook isClear isSessionStart isUserPromptSubmit startsClearedConversation]. go.
  cbn [unfinishedTurn set_calls]. rewrite Hunf. cbn [provesTurnEnded andb]. go. change (nextState Generating (Hook Stop false)) with Idle.
  rewrite !bool_decide_false by done. go. cbn [phase set_unfinishedTurn set_calls]. rewrite Hph. go. apply wp_set_row. intros n'. go. apply guarded_wp.
  eapply wp_mono; [apply (advance_types h); [by destruct Hu|done|done]|intros u s' [Hu' Hr' Hq' Hn']; by split|done].
Qed.
(** ** The queue *)
Lemma markDelivered_unique q id now : ids_unique q → ids_unique (markDelivered q id now).
Proof.
  unfold ids_unique, markDelivered, update_where. rewrite <- list_fmap_compose. intros Hnd. erewrite list_fmap_ext; [exact Hnd|]. intros i m _. cbn. by destruct (str_eqb _ _).
Qed.
Lemma markDelivered_plain q id now : plain_table q → plain_table (markDelivered q id now).
Proof. intros Hp m (m0 & -> & Hin)%list_elem_of_fmap. pose proof (Hp m0 Hin). by destruct (str_eqb _ _). Qed.
(** The head of the queue is in the composer. *)
Definition typed_head (h : nat) (q : table) : list Act := match listQueued q sid with [] => [] | m :: _ => [TypedBody h (msg_id m) (msg_body m)] end.
Record poised (h : nat) (s : delivery) : Prop := {
  po_unhindered : unhindered h s; po_row : row s = Some Idle; po_plain : plain_table (queue s); po_unique : ids_unique (queue s);
  po_next : match listQueued (queue s) sid with [] => phase s = Ready | m :: _ => phase s = Typing (msg_id m) h [] ∧ timer s = Some FinishTyping end }.
Lemma moved_on_poised h before s : plain_table (queue before) → ids_unique (queue before) → moved_on h before s → poised h s ∧ trace s = trace before ++ typed_head h (queue s).
Proof.
  intros Hp Hnd [Hu Hr Hq Hn]. unfold typed_head. rewrite Hq. split; [split; rewrite ?Hq; try done|]; destruct (listQueued (queue before) sid); rewrite ?app_nil_r; naive_solver.
Qed.
Lemma run_app s evs evs' : machine s (evs ++ evs') = machine (machine s evs) evs'.
Proof. unfold run. apply fold_left_app. Qed.
Lemma step_wp (at_ : Z) ev s Q : wp (handle_event sid strip isFormat sha256 parseJson dateParse isoOf never never ev) (λ _, Q) (λ _, False) (set_clock at_ s) → Q (machine s [(at_, ev)]).
Proof. unfold run, wp. cbn [fold_left]. unfold step. cbn [fst snd]. by destruct (handle_event _ _ _ _ _ _ _ _ _ ev _) as [s' [e|u]]. Qed.
Lemma turn_delivers h s m rest at_ : poised h s → listQueued (queue s) sid = m :: rest →
  let s' := machine s (turn at_) in poised h s' ∧ listQueued (queue s') sid = rest ∧ trace s' = trace s ++ tail (delivery_trace h m) ++ typed_head h (queue s').
Proof.
  intros [Hu Hrow Hplain Hnd Hnext] Hq s'. rewrite Hq in Hnext. destruct Hnext as [Hph Hti]. subst s'. destruct at_ as [[[t1 t2] t3] prompt]. cbn [turn].
  rewrite !run_app.
  assert (H1 : submitted_now h (msg_id m) (set_clock t1 s) (machine s [(t1, TimerFires)])).
  { apply step_wp. cbn [handle_event]. go. cbn [timer set_clock]. rewrite Hti. go. apply guarded_wp. cbn [run_timer].
    eapply wp_mono; [apply (finishTyping_submits h (msg_id m)); [by destruct Hu|done|done|done]|intros u s1 []; by split|done]. }
  revert H1. generalize (machine s [(t1, TimerFires)]). intros s1 [Hu1 Hrow1 Hq1 Hun1 Hph1 Htr1].
  assert (H2 : taken_now h (set_clock t2 s1) (machine s1 [(t2, Input_ (Hook UserPromptSubmit false) prompt)])).
  { apply step_wp. cbn [handle_event]. eapply prompt_taken; [by destruct Hu1|done|exact Hph1]. }
  revert H2. generalize (machine s1 [(t2, Input_ (Hook UserPromptSubmit false) prompt)]). intros s2 [Hu2 Hrow2 Hq2 Hun2 Hph2 Htr2].
  assert (H3 : moved_on h (set_trace (trace (set_clock t3 s2) ++ [AnnouncedState Idle]) (set_clock t3 s2)) (machine s2 [(t3, Input_ (Hook Stop false) None)])).
  { apply step_wp. cbn [handle_event]. eapply turn_ends; [by destruct Hu2|done|done|]. cbn. rewrite Hun2. exact Hun1. }
  revert H3. generalize (machine s2 [(t3, Input_ (Hook Stop false) None)]). intros s3 H3. cbn [queue trace clock set_clock] in Hq1, Hq2, Htr1, Htr2.
  pose proof (mo_queue _ _ _ H3) as Hq3. cbn [queue set_trace set_clock] in Hq3.
  apply moved_on_poised in H3 as [H3 Htr3]; [|cbn [queue set_trace set_clock]; rewrite Hq2, Hq1; by apply markDelivered_plain|cbn [queue set_trace set_clock]; rewrite Hq2, Hq1; by apply markDelivered_unique].
  split; [done|]. split.
  - rewrite Hq3, Hq2, Hq1, markDelivered_queue, Hq. apply remove_head_id. rewrite <- Hq. by apply listQueued_ids.
  - rewrite Htr3. cbn [trace set_trace set_clock]. rewrite Htr2, Htr1. cbn [tail delivery_trace]. by simplify_list_eq.
Qed.
Lemma turns_deliver h s ats pre : poised h s → trace s = pre ++ typed_head h (queue s) → length ats = length (listQueued (queue s) sid) →
  let s' := machine s (ats ≫= turn) in listQueued (queue s') sid = [] ∧ trace s' = pre ++ (listQueued (queue s) sid ≫= delivery_trace h).
Proof.
  intros Hpo Htr Hlen s'. subst s'. revert s pre Hpo Htr Hlen. induction ats as [|at_ ats IH]; intros s pre Hpo Htr Hlen.
  - symmetry in Hlen. apply nil_length_inv in Hlen. change (machine s ([] ≫= turn)) with s. rewrite Htr. unfold typed_head. by rewrite Hlen.
  - destruct (listQueued (queue s) sid) as [|m rest] eqn:Hq; [done|]. rewrite bind_cons, run_app. destruct (turn_delivers h s m rest at_ Hpo Hq) as (Hpo' & Hq' & Htr').
    destruct (IH (machine s (turn at_)) (pre ++ delivery_trace h m)) as [IHq IHtr].
    + done.
    + rewrite Htr', Htr. unfold typed_head at 1. rewrite Hq. cbn [delivery_trace tail]. by simplify_list_eq.
    + rewrite Hq'. cbn in Hlen. lia.
    + split; [done|]. rewrite IHtr, Hq'. rewrite bind_cons. by rewrite <- app_assoc.
Qed.
(** C8. A responsive session gets its whole queue. From an idle session that is ready and has nothing to hold delivery back (its process lives and
    started, no unsent human draft, no hold, no relaunch or clear pending, no obsolete message), when no call of the database or of the terminal fails,
    when no message of the table has a character that draws a review notice, and when delivery is resumed and the CLI then takes each prompt and ends
    each turn (the typing timer, the prompt hook, the stop hook, once per queued message, at any instants and with any prompt payload), no message is
    left queued, and what is typed, submitted and announced is each message of the queue, oldest first, one per turn. *)
Theorem a_responsive_session_gets_every_message h s t0 ats :
  unhindered h s → row s = Some Idle → phase s = Ready → plain_table (queue s) → ids_unique (queue s) → length ats = length (listQueued (queue s) sid) →
  let s' := machine s ((t0, ResumeHeldDelivery) :: (ats ≫= turn)) in
  listQueued (queue s') sid = [] ∧ trace s' = trace s ++ (listQueued (queue s) sid ≫= delivery_trace h).
Proof.
  intros Hu Hrow Hph Hp Hnd Hlen s'. subst s'. change ((t0, ResumeHeldDelivery) :: (ats ≫= turn)) with ([(t0, ResumeHeldDelivery)] ++ (ats ≫= turn)). rewrite run_app.
  assert (H0 : moved_on h (set_clock t0 s) (machine s [(t0, ResumeHeldDelivery)])) by (apply step_wp; cbn [handle_event]; apply guarded_wp; apply advance_types; [by destruct Hu|done|done]).
  pose proof (mo_queue _ _ _ H0) as Hq. cbn in Hq. apply moved_on_poised in H0 as [H0 Htr]; [|done|done]. rewrite <- Hq. apply (turns_deliver h); [done|exact Htr|by rewrite Hq].
Qed.
End Progress.

(** Two queued messages, the older one last in the table, and two turns. *)
Definition two_waiting : delivery :=
  mkDelivery [mkMessage (js "b") (js "s") None (js "second") Queued 2 None; mkMessage (js "a") (js "s") None (js "first") Queued 1 None] (Some Idle) (Some 0) (Some 0) Ready None 0 None [] false false false None None None []
    (mkReconciler [] []) (js "cli") None false [] false false None false 0 0 [].
Lemma a_responsive_session_gets_every_message_witness :
  trace (run (js "s") Datatypes.id (λ _, false) Datatypes.id (λ _, None) (λ _, None) (λ _, []) never never two_waiting
    ((3%Z, ResumeHeldDelivery) :: ([(4, 5, 6, None); (7, 8, 9, None)]%Z ≫= turn))) = delivery_trace 0 (mkMessage (js "a") (js "s") None (js "first") Queued 1 None) ++ delivery_trace 0 (mkMessage (js "b") (js "s") None (js "second") Queued 2 None).
Proof.
  destruct (a_responsive_session_gets_every_message (js "s") Datatypes.id (λ _, false) Datatypes.id (λ _, None) (λ _, None) (λ _, []) 0 two_waiting 3 [(4, 5, 6, None); (7, 8, 9, None)]%Z) as [_ Htr]; try done.
  - intros m Hm. apply list_elem_of_In in Hm. destruct Hm as [<- | [<- | []]]; reflexivity.
  - apply (bool_decide_unpack _). vm_compute. exact I.
Defined.

(** ** The fuel of [typeNextMessage] is enough *)
Section Fuel.
Context (sid : str) (sha256 : str → str) (faults readFaults : nat → bool).
Lemma bind_ext {A B} (m : Op A) (k k' : A → Op B) s : wp m (λ a s', k a s' = k' a s') (λ _, True) s → (m ≫= k) s = (m ≫= k') s.
Proof. unfold wp, mbind, Op_bind. destruct (m s) as [s' [e|a]]; [done|]. by intros ->. Qed.
(** Programs that keep the number of rows. *)
Definition sized {A} (m : Op A) : Prop := ∀ s, wp m (λ _ s', length (queue s') = length (queue s)) (λ s', length (queue s') = length (queue s)) s.
Lemma sized_bind {A B} (m : Op A) (k : A → Op B) : sized m → (∀ a, sized (k a)) → sized (m ≫= k).
Proof.
  intros Hm Hk s. apply wp_bind. eapply wp_mono; [apply Hm| |done]. intros a s1 Hs1. eapply wp_mono; [apply Hk|intros b s2 Hs2|intros s2 Hs2]; congruence.
Qed.
Lemma sized_fallible which : sized (fallible which).
Proof. intros s. by apply wp_fallible. Qed.
Lemma sized_call {A} (f : delivery → delivery * A) : (∀ s, length (queue (f s).1) = length (queue s)) → sized (call faults f).
Proof. intros Hf. apply sized_bind; [apply sized_fallible|]. intros _ s. unfold wp. specialize (Hf s). by destruct (f s). Qed.
Lemma sized_attempt m : sized m → sized (attempt m).
Proof. intros Hm s. apply wp_attempt, Hm. Qed.
Lemma sized_record : sized (recordDelivery sid sha256 faults readFaults).
Proof.
  unfold recordDelivery. apply sized_bind; [done|]. intros [id|]; [|done]. apply sized_bind; [done|]. intros now.
  apply sized_bind; [apply sized_call; intros s; cbn; unfold markDelivered, update_where; by rewrite length_fmap|]. intros _. apply sized_bind; [done|]. intros _.
  apply sized_bind; [|intros _; apply sized_attempt, sized_bind; [apply sized_fallible|done]].
  unfold recordSubmittedDigest. apply sized_bind; [apply sized_bind; [apply sized_fallible|done]|]. intros [m|]; [|done]. by apply sized_attempt, sized_call.
Qed.
Lemma discard_shrinks q skip m : nextPending q sid skip = Some m → length (discardQueued q sid (msg_id m)).1 < length q.
Proof.
  intros Hm. unfold nextPending in Hm. assert (Hin : m ∈ select (λ m, pending_of sid m && (if skip then negb (isDaemonLine (msg_body m)) else true)) q).
  { rewrite <- (sort_by_perm msg_createdAt). destruct (sort_by _ _); [done|]. injection Hm as ->. left. }
  unfold select in Hin. apply list_elem_of_filter in Hin as [[Hp _]%andb_true_iff Hin]. cbn. unfold delete_where, select.
  apply (length_filter_lt _ _ m Hin). rewrite str_eqb_refl, Hp. done.
Qed.
Lemma sized_draft : sized hasUnsentHumanDraft.
Proof. unfold hasUnsentHumanDraft. apply sized_bind; [done|]. intros [w|]; [|done]. apply sized_bind; [done|]. intros []; by apply sized_bind. Qed.
Lemma type_once_ext again again' s : (∀ s', length (queue s') < length (queue s) → again s' = again' s') → type_once sid sha256 faults readFaults again s = type_once sid sha256 faults readFaults again' s.
Proof.
  intros Hagain. unfold type_once. apply bind_ext. eapply wp_mono; [apply sized_record| |done]. intros u s1 Hs1. cbv beta in Hs1. apply bind_ext, wp_gets. destruct (liveHandle s1) as [h|]; [|done].
  apply bind_ext. eapply wp_mono; [apply sized_draft| |done]. intros [] s2 Hs2; [done|]. apply bind_ext, wp_gets. destruct (deliveryHeld s2); [done|].
  apply bind_ext, wp_bind, wp_fallible; intros _; [done|]. apply wp_gets. apply bind_ext. unfold onQueue at 1, call at 1. apply wp_bind, wp_fallible; intros _; [done|]. unfold wp at 1. cbv beta iota zeta.
  destruct (nextPending _ _ _) as [m|] eqn:Hm; [|done]. apply bind_ext, wp_gets. destruct (mem_str _ _); [|done]. apply bind_ext. unfold onQueue at 1, call at 1. apply wp_bind, wp_fallible; intros _; [done|].
  unfold wp at 1. cbv beta iota zeta. apply discard_shrinks in Hm. revert Hm. change (queue (set_calls _ _)) with (queue s2). change (queue (set_queue _ _)) with (queue s2).
  destruct (discardQueued (queue s2) sid (msg_id m)) as [q' b]. intros Hm. apply Hagain. cbn [fst queue set_queue set_calls] in Hm |- *. lia.
Qed.
(** One more round changes nothing once there is a round per row. *)
Lemma type_next_enough fuel s : length (queue s) ≤ fuel → type_next sid sha256 faults readFaults (S fuel) s = type_next sid sha256 faults readFaults fuel s.
Proof.
  revert s. induction fuel as [|fuel IH]; intros s Hlen; cbn [type_next]; apply type_once_ext; intros s' Hs'; [lia|]. apply IH. lia.
Qed.
End Fuel.
