(* ===== verification/FloorClasses.v ===== *)
(** * Classes of a plan question, and who answers it

    Models of [packages/core/src/escalation/floorClasses.ts], [packages/core/src/escalation/questionRouting.ts] and of the classes of
    [packages/shared/src/escalation.ts]: the escalating classes that the words and the paths of a question put in its
    floor, and the route of a question.  Unicode ([\p{Cf}], NFC, [toLowerCase]) is a parameter. *)
From S2P Require Import Prelude JsText Regex PathGlob SecretMasker TriggerActions.

Inductive EscalatingClass := Contract | Security | Deployment | HistoryRewrite | DodWaiver | Spend | VisualQa.
#[export] Instance EscalatingClass_eq_dec : EqDecision EscalatingClass.
Proof. solve_decision. Defined.
Definition ESCALATING_CLASSES : list EscalatingClass := [Contract; Security; Deployment; HistoryRewrite; DodWaiver; Spend; VisualQa].
Definition class_text (c : EscalatingClass) : str :=
  match c with
  | Contract => js "contract" | Security => js "security" | Deployment => js "deployment" | HistoryRewrite => js "history_rewrite"
  | DodWaiver => js "dod_waiver" | Spend => js "spend" | VisualQa => js "visual_qa"
  end.
(** The class a manager declares; [None] is a text outside the vocabulary. *)
Inductive QuestionClass := Factual | Technical | Escalating (c : EscalatingClass).
#[export] Instance QuestionClass_eq_dec : EqDecision QuestionClass.
Proof. solve_decision. Defined.
Definition questionClassOf (text : str) : option QuestionClass :=
  if str_eqb text (js "factual") then Some Factual
  else if str_eqb text (js "technical") then Some Technical
  else Escalating <$> find (λ c, str_eqb text (class_text c)) ESCALATING_CLASSES.
Definition UNREMOVABLE_ESCALATING_CLASSES : list EscalatingClass := [Contract; Security].
Definition keepsUnremovableClasses (humanClasses : list EscalatingClass) : bool := forallb (λ c, bool_decide (c ∈ humanClasses)) UNREMOVABLE_ESCALATING_CLASSES.

Record FloorRule := mkFloorRule { escalatingClass : EscalatingClass; pathGlobs : list str; keywords : list str }.
Record ExtraRule := mkExtraRule { rule_class : EscalatingClass; rule_pathGlob : option str; rule_keyword : option str }.
Definition asRule (r : ExtraRule) : FloorRule := mkFloorRule (rule_class r) (option_list (rule_pathGlob r)) (option_list (rule_keyword r)).
Definition E_ACUTE : str := [233%N].
Definition U_CIRCUMFLEX : str := [251%N].
Definition BUILT_IN_RULES : list FloorRule :=
  [mkFloorRule Contract
     [js "packages/shared/src/mcpContract.ts"; js "**/contract.pinned.json"; js "**/db/migrations/**"; js "docs/mcp-contract.md"; js "docs/errors.md"; js "**/api/**Routes.ts"]
     [js "contract_version"; js "migration"; js "breaking change"; js "public api"; js "sch" ++ E_ACUTE ++ js "ma d'api"; js "nouveau code d'erreur"];
   mkFloorRule Security [js "**/policy/**"; js "**/redact*"; js "**/auth/**"; js "**/*token*"; js "**/harness/**/*Hooks.ts"]
     [js "secret"; js "token"; js "credential"; js "permission"; js "sandbox"; js "redaction"; js "injection"; js "authentification"];
   mkFloorRule Deployment [js ".github/workflows/**"; js "**/Dockerfile*"; js "**/tauri.conf.json"; js "scripts/release*"]
     [js "deploy"; js "release"; js "device"; js "install"; js "signing"; js "appareil"];
   mkFloorRule HistoryRewrite [] [js "force-push"; js "rebase"; js "filter-branch"; js "reset --hard"; js "amend"; js "r" ++ E_ACUTE ++ E_ACUTE ++ js "criture d'historique"];
   mkFloorRule DodWaiver [] [js "waive"; js "waiver"; js "skip qa"; js "skip the test"; js "without qa"; js "d" ++ E_ACUTE ++ js "rogation"; js "ignore the criterion"];
   mkFloorRule Spend [] [js "budget"; js "billing"; js "paid plan"; js "purchase"; js "subscription"; js "d" ++ E_ACUTE ++ js "pense"; js "co" ++ U_CIRCUMFLEX ++ js "t"];
   mkFloorRule VisualQa [] [js "visual qa"; js "human qa"; js "pixel"; js "design review"; js "qa visuelle"]].

(** ** One segment *)
(** The locals of [matchesSegment], as [PathGlob.cursor]; [?] has no special meaning here. *)
Definition floor_step (patternSegment segment : str) (s : cursor) : cursor + bool :=
  match segment !! textIndex s with
  | None => inr (bool_decide (filter (λ c, c ≠ STAR) (drop (patternIndex s) patternSegment) = []))
  | Some c =>
      if negb (bool_decide (patternSegment !! patternIndex s = Some STAR)) && bool_decide (patternSegment !! patternIndex s = Some c) then
        inl (mkCursor (patternIndex s + 1) (textIndex s + 1) (star s))
      else if bool_decide (patternSegment !! patternIndex s = Some STAR) then inl (mkCursor (patternIndex s + 1) (textIndex s) (Some (patternIndex s, textIndex s)))
      else
        match star s with
        | Some (starPatternIndex, starSegmentIndex) => inl (mkCursor (starPatternIndex + 1) (starSegmentIndex + 1) (Some (starPatternIndex, starSegmentIndex + 1)))
        | None => inr false
        end
  end.
Definition matchesSegment (patternSegment segment : str) : bool :=
  run_loop (floor_step patternSegment segment) (segment_fuel patternSegment segment) (mkCursor 0 0 None) false.

(** ** A path *)
(** The cells of a row from a path index on, computed from the last one backwards; [below] is the row of the next glob segment. *)
Fixpoint floor_row (globSegment : str) (pathSegments : list str) (below : list bool) : list bool :=
  let isAnyDepth := str_eqb globSegment (js "**") in
  match pathSegments with
  | [] => [isAnyDepth && default false (head below)]
  | pathSegment :: rest =>
      let cells := floor_row globSegment rest (tail below) in
      (if isAnyDepth then default false (head below) || default false (head cells)
       else matchesSegment globSegment pathSegment && default false (head (tail below))) :: cells
  end.
Definition matchesPath (globSegments pathSegments : list str) : bool :=
  default false (head (foldr (λ globSegment below, floor_row globSegment pathSegments below) (replicate (length pathSegments) false ++ [true]) globSegments)).

Record FloorInput := mkFloorInput { in_text : str; in_options : list str; in_recommendation : option str; in_paths : list str }.
Section Floor.
(** [\p{Cf}], NFC and the lower case of a text. *)
Variable isFormat : N → bool.
Variable normalizeNFC : str → str.
Variable toLowerCase : str → str.

(** [replace(/\s+/g, ' ')], then [replace(/[\p{Cc}\p{Cf}]/gu, '')]. *)
Definition without_points (p : N → bool) (text : str) : str := concat (filter (λ point, point_is p point = false) (code_points text)).
Definition comparable (text : str) : str :=
  trim (toLowerCase (normalizeNFC (without_points (λ code, isControlCode code || isFormat code) (replace_points (point_is is_space) text)))).
Definition segmentsOfPath (path : str) : list str :=
  filter (λ segment, segment ≠ [] ∧ segment ≠ js ".") (split_on (chr "/") ((λ c, if N.eqb c BACKSLASH then chr "/" else c) <$> comparable path)).
Definition mentionsKeyword (fields : list str) (keyword : str) : bool := existsb (λ field, includes field (comparable keyword)) fields.
Definition isInFloor (fields : list str) (pathsAsSegments : list (list str)) (rule : FloorRule) : bool :=
  existsb (mentionsKeyword fields) (keywords rule)
  || existsb (λ globSegments, existsb (matchesPath globSegments) pathsAsSegments) (segmentsOfPath <$> pathGlobs rule).
Definition computeFloorClasses (input : FloorInput) (extraRules : list ExtraRule) : list EscalatingClass :=
  let rules := BUILT_IN_RULES ++ (asRule <$> extraRules) in
  let fields := comparable <$> in_text input :: in_options input ++ option_list (in_recommendation input) ++ in_paths input in
  let classesInFloor := escalatingClass <$> filter (λ rule, isInFloor fields (segmentsOfPath <$> in_paths input) rule = true) rules in
  filter (λ c, c ∈ classesInFloor) ESCALATING_CLASSES.

(** ** The route *)
Inductive QuestionRoute := ToHuman | ToSelf | ToArbiter.
#[export] Instance QuestionRoute_eq_dec : EqDecision QuestionRoute.
Proof. solve_decision. Defined.
Record QuestionRouting := mkRouting
  { declared : option QuestionClass; computed : list EscalatingClass; effective : list EscalatingClass; disabledByProject : list EscalatingClass; route : QuestionRoute }.
(** What a question says of its route: its class, the floor input, whether it reopens a decision and whether its resolution stands on a run. *)
Definition routeOf (isUnknown hasClassOnHumanList isEscalatingOnlyThroughDisabledClasses isFactualAndProvenByARun : bool) : QuestionRoute :=
  if isUnknown || hasClassOnHumanList then ToHuman
  else if isEscalatingOnlyThroughDisabledClasses then ToArbiter
  else if isFactualAndProvenByARun then ToSelf
  else ToArbiter.
Definition routeQuestion (class : str) (input : FloorInput) (isReopening isExecuted : bool) (humanClasses : list EscalatingClass) (extraRules : list ExtraRule) : QuestionRouting :=
  let declared := questionClassOf class in
  let computed := computeFloorClasses input extraRules in
  let effective := filter (λ c, c ∈ computed ∨ declared = Some (Escalating c)) ESCALATING_CLASSES in
  let disabledByProject := filter (λ c, c ∉ humanClasses) effective in
  let isUnknown := bool_decide (declared = None) in
  let hasClassOnHumanList := Nat.ltb (length disabledByProject) (length effective) in
  let isFactualAndProvenByARun := negb isReopening && bool_decide (declared = Some Factual) && isExecuted in
  let isEscalatingOnlyThroughDisabledClasses := Nat.ltb 0 (length effective) && negb hasClassOnHumanList in
  mkRouting declared computed effective disabledByProject (routeOf isUnknown hasClassOnHumanList isEscalatingOnlyThroughDisabledClasses isFactualAndProvenByARun).
End Floor.

(** * Facts about the floor

    The matchers decide what the globs mean, and the route never lets a question of a human class, or of no known class, past the human. *)
(** ** What a glob of the floor means *)
Inductive star_glob : str → str → Prop :=
  | st_nil : star_glob [] []
  | st_stop p t : star_glob p t → star_glob (STAR :: p) t
  | st_eat p c t : star_glob (STAR :: p) t → star_glob (STAR :: p) (c :: t)
  | st_char p c t : c ≠ STAR → star_glob p t → star_glob (c :: p) (c :: t).
Inductive floor_glob : list str → list str → Prop :=
  | fg_nil : floor_glob [] []
  | fg_any gs l1 l2 : floor_glob gs l2 → floor_glob (js "**" :: gs) (l1 ++ l2)
  | fg_segment g gs s l : g ≠ js "**" → star_glob g s → floor_glob gs l → floor_glob (g :: gs) (s :: l).

(** ** Segments, through the matcher of [PathGlob] *)
(** A renaming of the code units that keeps the star and gives no question mark: without question marks the two matchers are the same. *)
Definition renamed (c : N) : N := if N.eqb c STAR then STAR else (c + 64)%N.
Lemma renamed_star c : renamed c = STAR ↔ c = STAR.
Proof. unfold renamed. destruct (N.eqb_spec c STAR) as [->|Hne]; [done|]. unfold STAR, chr in *. cbn in *. lia. Qed.
Lemma renamed_question c : renamed c ≠ QUESTION.
Proof. unfold renamed. destruct (N.eqb_spec c STAR); unfold QUESTION, STAR, chr in *; cbn in *; lia. Qed.
#[local] Instance renamed_inj : Inj (=) (=) renamed.
Proof. intros c d. unfold renamed. destruct (N.eqb_spec c STAR), (N.eqb_spec d STAR); unfold STAR, chr in *; cbn in *; lia. Qed.
Lemma star_glob_renamed p t : star_glob p t ↔ segment_glob (renamed <$> p) (renamed <$> t).
Proof.
  split.
  - induction 1 as [|p t _ IH|p c t _ IH|p c t Hc _ IH]; cbn.
    + constructor.
    + by apply sg_star_stop.
    + by apply sg_star_eat.
    + apply sg_char; [by rewrite renamed_star|done].
  - remember (renamed <$> p) as p' eqn:Hp. remember (renamed <$> t) as t' eqn:Ht. intros H. revert p t Hp Ht.
    induction H as [|p' t' H IH|p' c t' H IH|p' c t' H IH|p' c t' Hc H IH]; intros p t Hp Ht.
    + symmetry in Hp, Ht. apply fmap_nil_inv in Hp, Ht. subst. constructor.
    + symmetry in Hp. apply fmap_cons_inv in Hp as (c & q & Hs & Hq & ->). symmetry in Hs. apply renamed_star in Hs as ->. apply st_stop. by apply IH.
    + symmetry in Ht. apply fmap_cons_inv in Ht as (d & u & _ & Hu & ->). pose proof Hp as Hp2. symmetry in Hp2. apply fmap_cons_inv in Hp2 as (c' & q & Hs & Hq & ->). symmetry in Hs. apply renamed_star in Hs as ->.
      apply st_eat. by apply IH.
    + symmetry in Hp. apply fmap_cons_inv in Hp as (c' & q & Hs & _ & _). symmetry in Hs. by apply renamed_question in Hs.
    + symmetry in Hp, Ht. apply fmap_cons_inv in Hp as (c' & q & Hs & Hq & ->). apply fmap_cons_inv in Ht as (d & u & Hd & Hu & ->).
      assert (d = c') as -> by (apply (inj renamed); congruence). apply st_char; [intros ->; apply Hc; by rewrite Hs|]. by apply IH.
Qed.
Lemma floor_step_renamed p t s : floor_step p t s = segment_step (renamed <$> p) (renamed <$> t) s.
Proof.
  unfold floor_step, segment_step. rewrite !list_lookup_fmap. destruct (t !! textIndex s) as [c|]; cbn.
  - destruct (p !! patternIndex s) as [d|]; cbn; [|by rewrite !bool_decide_false].
    rewrite (bool_decide_false (Some (renamed d) = Some QUESTION)) by (intros [=]; by apply (renamed_question d)). cbn.
    assert (Hstar : bool_decide (Some (renamed d) = Some STAR) = bool_decide (Some d = Some STAR)) by (apply bool_decide_ext; split; intros [= Hd]; f_equal; by apply renamed_star).
    assert (Heq : bool_decide (Some (renamed d) = Some (renamed c)) = bool_decide (Some d = Some c)) by (apply bool_decide_ext; split; [intros [= Hd%(inj renamed)]; by f_equal|by intros [= ->]]).
    rewrite Hstar, Heq. by destruct (bool_decide (Some d = Some STAR)).
  - f_equal. rewrite <- fmap_drop. induction (drop (patternIndex s) p) as [|d q IH]; [done|]. rewrite fmap_cons. cbn [drop_while]. destruct (decide (d = STAR)) as [->|Hne].
    + rewrite filter_cons_False by tauto. cbn. exact IH.
    + rewrite filter_cons_True by done. destruct (N.eqb_spec STAR (renamed d)) as [Hd|Hd]; [by destruct Hne; apply renamed_star|]. by rewrite !bool_decide_false by done.
Qed.
Lemma run_loop_ext {St R} (b b' : St → St + R) fuel s fb : (∀ s, b s = b' s) → run_loop b fuel s fb = run_loop b' fuel s fb.
Proof.
  intros Hext. unfold run_loop. f_equal. revert s. induction fuel as [|fuel IH]; intros s; [done|]. cbn. rewrite Hext. destruct (b' s); [apply IH|done].
Qed.
Lemma matchesSegment_decides p t : matchesSegment p t = true ↔ star_glob p t.
Proof.
  rewrite star_glob_renamed, <- segmentMatches_decides. unfold matchesSegment, segmentMatches, segment_fuel. rewrite !length_fmap. by rewrite (run_loop_ext _ _ _ _ _ (floor_step_renamed p t)).
Qed.

(** ** Paths *)
(** A row is right when its cell at a path index tells whether the globs match from there. *)
Definition row_right (gs : list str) (path : list str) (row : list bool) : Prop := length row = S (length path) ∧ ∀ k b, row !! k = Some b → b = true ↔ floor_glob gs (drop k path).
Lemma floor_glob_any_inv gs l : floor_glob (js "**" :: gs) l ↔ floor_glob gs l ∨ ∃ s l', l = s :: l' ∧ floor_glob (js "**" :: gs) l'.
Proof.
  split.
  - inversion 1 as [|? l1 l2 Hm|]; subst; [|done]. destruct l1 as [|s l1]; [by left|]. right. exists s, (l1 ++ l2). split; [done|by constructor].
  - intros [Hm|(s & l' & -> & Hm)]; [by apply (fg_any gs [])|]. inversion Hm as [|? l1 l2 Hm'|]; subst; [|done]. by apply (fg_any gs (s :: l1)).
Qed.
Lemma floor_glob_segment_inv g gs l : g ≠ js "**" → floor_glob (g :: gs) l ↔ ∃ s l', l = s :: l' ∧ star_glob g s ∧ floor_glob gs l'.
Proof. intros Hg. split; [inversion 1; subst; naive_solver|]. intros (s & l' & -> & ? & ?). by constructor. Qed.
Lemma row_right_cons gs s path b row : row_right gs (s :: path) (b :: row) ↔ (b = true ↔ floor_glob gs (s :: path)) ∧ row_right gs path row.
Proof.
  unfold row_right. split.
  - intros [Hl Hk]. split; [by apply (Hk 0)|]. split; [cbn in Hl; lia|]. intros k c Hc. by apply (Hk (S k)).
  - intros [Hb [Hl Hk]]. split; [cbn; lia|]. intros [|k] c Hc; [cbn in Hc; by simplify_eq|]. by apply Hk.
Qed.
Lemma row_right_head gs path row : row_right gs path row → default false (head row) = true ↔ floor_glob gs path.
Proof. intros [Hl Hk]. destruct row as [|b row]; [done|]. cbn. by apply (Hk 0). Qed.
Lemma floor_row_right g gs path below : row_right gs path below → row_right (g :: gs) path (floor_row g path below).
Proof.
  revert below. induction path as [|s path IH]; intros below Hb; cbn [floor_row].
  - split; [done|]. intros [|k] b Hk; [|done]. cbn in Hk. simplify_eq. rewrite andb_true_iff, (row_right_head _ _ _ Hb). unfold str_eqb. rewrite bool_decide_eq_true. cbn. split.
    + intros [-> Hm]. by apply (fg_any gs []).
    + destruct (decide (g = js "**")) as [->|Hg]; [intros Hm; split; [done|]|intros (? & ? & ? & _)%(floor_glob_segment_inv _ _ _ Hg); done].
      apply floor_glob_any_inv in Hm as [Hm|(? & ? & ? & _)]; done.
  - destruct below as [|b below]; [by destruct Hb|]. apply row_right_cons in Hb as [Hbb Hbelow]. apply row_right_cons. specialize (IH below Hbelow). cbn [tail head default]. split; [|exact IH].
    unfold str_eqb. case_bool_decide as Hg.
    + subst g. rewrite orb_true_iff, (row_right_head _ _ _ IH), (floor_glob_any_inv _ (s :: path)). change (Datatypes.id b) with b. rewrite Hbb. split; [intros [H|H]; [by left|right; eauto]|intros [H|(s' & l' & [= -> ->] & H)]; [by left|by right]].
    + rewrite andb_true_iff, matchesSegment_decides, (row_right_head _ _ _ Hbelow), floor_glob_segment_inv by done. split; [intros [? ?]; eauto|intros (s' & l' & [= -> ->] & ? & ?); done].
Qed.
Lemma last_row_right path : row_right [] path (replicate (length path) false ++ [true]).
Proof.
  induction path as [|s path IH]; cbn.
  - split; [done|]. intros [|k] b Hk; [|done]. cbn in Hk. simplify_eq. split; [constructor|done].
  - apply row_right_cons. split; [|exact IH]. split; [done|]. by inversion 1.
Qed.
(** The matcher of the floor, filled from the end of the path, decides what its globs mean: [**] stands for any run of segments, [*] for any run of characters within one, and every other character for itself. *)
Lemma matchesPath_correct globs path : matchesPath globs path = true ↔ floor_glob globs path.
Proof.
  unfold matchesPath. apply row_right_head. induction globs as [|g gs IH]; cbn [foldr]; [apply last_row_right|]. by apply floor_row_right.
Qed.

(** ** Floors and routes *)
Section Routes.
Context (isFormat : N → bool) (normalizeNFC toLowerCase : str → str).
Abbreviation comparable_ := (comparable isFormat normalizeNFC toLowerCase).
Abbreviation segments_ := (segmentsOfPath isFormat normalizeNFC toLowerCase).
Abbreviation floor_ := (computeFloorClasses isFormat normalizeNFC toLowerCase).
(** A rule is met: one of its words is in a text of the question, or one of its globs matches a path of it. *)
Definition meets (input : FloorInput) (rule : FloorRule) : Prop :=
  (∃ keyword text, keyword ∈ keywords rule ∧ text ∈ in_text input :: in_options input ++ option_list (in_recommendation input) ++ in_paths input ∧ includes (comparable_ text) (comparable_ keyword) = true)
  ∨ (∃ glob path, glob ∈ pathGlobs rule ∧ path ∈ in_paths input ∧ floor_glob (segments_ glob) (segments_ path)).
Lemma all_classes c : c ∈ ESCALATING_CLASSES.
Proof. apply (bool_decide_unpack _). by destruct c. Qed.
Lemma existsb_elem {A} (f : A → bool) l : existsb f l = true ↔ ∃ x, x ∈ l ∧ f x = true.
Proof. rewrite existsb_exists. split; intros (x & Hx & Hf); exists x; by rewrite list_elem_of_In in *. Qed.
Lemma isInFloor_meets input rule :
  isInFloor isFormat normalizeNFC toLowerCase (comparable_ <$> in_text input :: in_options input ++ option_list (in_recommendation input) ++ in_paths input) (segments_ <$> in_paths input) rule = true ↔ meets input rule.
Proof.
  unfold isInFloor, meets. rewrite orb_true_iff, !existsb_elem. f_equiv.
  - split.
    + intros (keyword & Hk & Hm). unfold mentionsKeyword in Hm. apply existsb_elem in Hm as (field & Hf & Hin). apply list_elem_of_fmap in Hf as (text & -> & Ht). by exists keyword, text.
    + intros (keyword & text & Hk & Ht & Hin). exists keyword. split; [done|]. apply existsb_elem. exists (comparable_ text). split; [|done]. apply list_elem_of_fmap. by exists text.
  - split.
    + intros (gs & Hg & Hm). apply list_elem_of_fmap in Hg as (glob & -> & Hg). apply existsb_elem in Hm as (ps & Hps & Hm). apply list_elem_of_fmap in Hps as (path & -> & Hp). apply matchesPath_correct in Hm. by exists glob, path.
    + intros (glob & path & Hg & Hp & Hm). exists (segments_ glob). split; [apply list_elem_of_fmap; by exists glob|]. apply existsb_elem. exists (segments_ path). split; [apply list_elem_of_fmap; by exists path|]. by apply matchesPath_correct.
Qed.
Lemma floor_elem input extra c : c ∈ floor_ input extra ↔ ∃ rule, rule ∈ BUILT_IN_RULES ++ (asRule <$> extra) ∧ escalatingClass rule = c ∧ meets input rule.
Proof.
  unfold computeFloorClasses. rewrite list_elem_of_filter. split.
  - intros [(rule & -> & [Hm Hin]%list_elem_of_filter)%list_elem_of_fmap _]. exists rule. by rewrite <- isInFloor_meets.
  - intros (rule & Hin & <- & Hm). split; [|apply all_classes]. apply list_elem_of_fmap. exists rule. split; [done|]. apply list_elem_of_filter. split; [|done]. by apply isInFloor_meets.
Qed.
Lemma filter_shorter {A} (P : A → Prop) `{!∀ x, Decision (P x)} (l : list A) : length (filter P l) < length l ↔ ∃ x, x ∈ l ∧ ~ P x.
Proof.
  split.
  - induction l as [|x l IH]; [cbn; lia|]. destruct (decide (P x)) as [Hx|Hx]; [rewrite filter_cons_True by done|intros _; exists x; split; [left|done]].
    cbn. intros Hlt. destruct IH as (y & Hy & HPy); [lia|]. exists y. split; [by right|done].
  - intros (x & Hx & HP). by apply (length_filter_lt _ _ x).
Qed.
(** A question goes to a human exactly when its declared class is unknown or when a class on the human list of the project was declared or is in its
    floor, which is made of the words and paths of the delivered rules and of the project; it is its own answer exactly when it is factual, carries an executed
    proof, contests no decision and has no escalating class; and a project that keeps the two unremovable classes cannot keep a contract or security question from the human. *)
Theorem routeQuestion_correct class input isReopening isExecuted humanClasses extra :
  let r := routeQuestion isFormat normalizeNFC toLowerCase class input isReopening isExecuted humanClasses extra in
  let touches c := (∃ rule, rule ∈ BUILT_IN_RULES ++ (asRule <$> extra) ∧ escalatingClass rule = c ∧ meets input rule) ∨ questionClassOf class = Some (Escalating c) in
  (route r = ToHuman ↔ questionClassOf class = None ∨ ∃ c, c ∈ humanClasses ∧ touches c)
  ∧ (route r = ToSelf ↔ questionClassOf class = Some Factual ∧ isExecuted = true ∧ isReopening = false ∧ ∀ c, ~ touches c)
  ∧ (keepsUnremovableClasses humanClasses = true → touches Contract ∨ touches Security → route r = ToHuman).
Proof.
  intros r touches. subst r. unfold routeQuestion. cbn [route]. set (eff := filter _ ESCALATING_CLASSES).
  assert (Heff : ∀ c, c ∈ eff ↔ touches c) by (intros c; unfold eff, touches; rewrite list_elem_of_filter, floor_elem; split; [tauto|]; intros ?; split; [done|apply all_classes]).
  assert (Hlist : Nat.ltb (length (filter (λ c, c ∉ humanClasses) eff)) (length eff) = true ↔ ∃ c, c ∈ humanClasses ∧ touches c).
  { rewrite Nat.ltb_lt, filter_shorter. split; intros (c & H1 & H2); exists c; [split; [by apply dec_stable|by apply Heff]|split; [by apply Heff|tauto]]. }
  assert (Hnone : Nat.ltb 0 (length eff) = false ↔ ∀ c, ~ touches c).
  { rewrite Nat.ltb_ge. split; [intros Hl c Hc%Heff; destruct eff; [by apply elem_of_nil in Hc|cbn in Hl; lia]|]. intros Hno. destruct eff as [|c l] eqn:E; [done|]. destruct (Hno c). apply Heff. left. }
  clearbody eff. unfold routeOf. destruct (Nat.ltb _ (length eff)) eqn:El.
  - pose proof (proj1 Hlist eq_refl) as Hex. rewrite orb_true_r. split_and!; [tauto|split; [done|intros (_ & _ & _ & Hno); destruct Hex as (c & _ & Hc); by destruct (Hno c)]|done].
  - assert (Hex : ~ ∃ c, c ∈ humanClasses ∧ touches c) by (intros Hc; apply Hlist in Hc; done). rewrite orb_false_r, andb_true_r. split_and!.
    + case_bool_decide as Hd; [tauto|]. repeat case_match; split; try done; tauto.
    + case_bool_decide as Hd; [split; [done|]; intros [H _]; congruence|]. destruct (Nat.ltb 0 (length eff)) eqn:E0; [split; [done|]; intros (_ & _ & _ & Hno); apply Hnone in Hno; done|].
      destruct isReopening, isExecuted; cbn [negb andb]; try (split; [done|]; intros (_ & ? & ? & _); done); [|rewrite andb_false_r; split; [done|]; by intros (_ & ? & _)].
      rewrite andb_true_r. case_bool_decide as Hf; split; try done; [intros _; split_and!; [done|done|done|by apply Hnone]|by intros (? & _)].
    + intros Hkeep Ht. exfalso. apply Hex. unfold keepsUnremovableClasses in Hkeep. cbn in Hkeep. rewrite !andb_true_iff, !bool_decide_eq_true in Hkeep. destruct Ht as [Ht|Ht]; [exists Contract|exists Security]; tauto.
Qed.
End Routes.
