(* ===== verification/Escalation.v ===== *)
(** * The escalation of plan questions

    Models of [packages/core/src/escalation/escalationService.ts], [packages/core/src/escalation/escalationRepository.ts],
    [packages/core/src/escalation/escalationBody.ts], [packages/core/src/escalation/criteriaApproval.ts] (the check of the opinion) and
    [packages/core/src/review/sanitizedReproClaim.ts]: the tables of batches, questions, escalations and arbiter decisions as
    lists of rows in rowid order, each method of the service as a function on them.  A transaction either gives the new
    tables or an error and the old ones ([Tx]).  Ids and dates are arguments.  The list of questions for the human is part of the working state
    of the manager: [fits] tells whether the whole state stays under its byte limit.  What the daemon writes to notes and journals
    does not throw and is given by [Notice]s. *)
From S2P Require Import Prelude Transaction JsText Regex Sorting MessageEnvelope PolicyTypes PolicyEvaluator SecretMasker TriggerActions FloorClasses.

(** ** Rows *)
Inductive ReproStatus := Proven | Plausible | NotReproduced.
#[export] Instance ReproStatus_eq_dec : EqDecision ReproStatus.
Proof. solve_decision. Defined.
Record ReproClaim := mkClaim { claim : str; repro_status : ReproStatus; command : option str; output : option str }.
Inductive QuestionStatus := Open | Decided | SelfResolved | PendingHuman | Answered.
#[export] Instance QuestionStatus_eq_dec : EqDecision QuestionStatus.
Proof. solve_decision. Defined.
Inductive CriteriaOpinion := Favourable | Unfavourable | NotAsked.
#[export] Instance CriteriaOpinion_eq_dec : EqDecision CriteriaOpinion.
Proof. solve_decision. Defined.
Record StoredBatch := mkBatch
  { batch_id : str; batch_managerId : str; batch_ticket : str; planNoteId : str; planNoteRev : Z; batch_createdAt : Z; arbiterRuns : nat; criteriaOpinion : option (CriteriaOpinion * list str) }.
Record StoredQuestion := mkQuestion
  { q_batchId : str; q_questionId : str; q_text : str; declaredClass : str; computedClasses : list EscalatingClass; effectiveClasses : list EscalatingClass; q_route : QuestionRoute;
    q_status : QuestionStatus; q_reason : option str; q_options : option (list str); q_recommendation : option str; q_paths : option (list str); q_resolution : option ReproClaim;
    q_reopens : option (str * str); escalationId : option str; humanAnswer : option str; answeredAt : option Z }.
Record HandoverRefusal := mkRefusal { refusal_reason : str; refusal_text : str; refusal_hint : option str; refusal_at : Z }.
Inductive EscalationStatus := EscPending | EscAnswered.
#[export] Instance EscalationStatus_eq_dec : EqDecision EscalationStatus.
Proof. solve_decision. Defined.
Record StoredEscalation := mkEscalation
  { esc_id : str; esc_managerId : str; esc_ticket : str; esc_body : str; esc_createdAt : Z; esc_status : EscalationStatus; resolvedAt : option Z; handoverRefusal : option HandoverRefusal }.
Inductive ArbiterVerdict := VerdictDecided | VerdictNeedsHuman.
#[export] Instance ArbiterVerdict_eq_dec : EqDecision ArbiterVerdict.
Proof. solve_decision. Defined.
Record ArbiterDecision := mkDecision
  { dec_batchId : str; dec_questionId : str; dec_verdict : ArbiterVerdict; dec_decision : str; dec_rationale : str; dec_raiseTo : option EscalatingClass; dec_evidence : option ReproClaim;
    dec_arbiter : str; dec_planNoteRev : Z; dec_createdAt : Z }.
(** [questions_for_human] per manager. *)
Record tables := mkTables { batches : list StoredBatch; questions : list StoredQuestion; escalations : list StoredEscalation; decisions : list ArbiterDecision; humanLists : rec (list str) }.

(** ** Errors and transactions *)
Inductive EscalationError := EscalationNotFound | AlreadyResolved | InvalidBody | EscalationOpen | CriteriaStale | StateTooLarge | SchemaError | ConstraintFailed | TypeError.
#[export] Instance EscalationError_eq_dec : EqDecision EscalationError.
Proof. solve_decision. Defined.
Abbreviation Tx := (Txn tables EscalationError).
Definition set_batches (v : list StoredBatch) (t : tables) : tables := mkTables v (questions t) (escalations t) (decisions t) (humanLists t).
Definition set_questions (v : list StoredQuestion) (t : tables) : tables := mkTables (batches t) v (escalations t) (decisions t) (humanLists t).
Definition set_escalations (v : list StoredEscalation) (t : tables) : tables := mkTables (batches t) (questions t) v (decisions t) (humanLists t).
Definition set_decisions (v : list ArbiterDecision) (t : tables) : tables := mkTables (batches t) (questions t) (escalations t) v (humanLists t).
Definition set_humanLists (v : rec (list str)) (t : tables) : tables := mkTables (batches t) (questions t) (escalations t) (decisions t) v.

(** ** The repository *)
Definition findBatch (t : tables) (id : str) : option StoredBatch := find (λ b, str_eqb (batch_id b) id) (batches t).
(** The primary key, and the check that the ticket is not made of spaces. *)
Definition insertBatch (b : StoredBatch) : Tx unit :=
  isAllowed ← reads (λ t, negb (bool_decide (is_Some (findBatch t (batch_id b)))) && negb (forallb (N.eqb (chr " ")) (batch_ticket b)));
  if isAllowed : bool then writes (λ t, set_batches (batches t ++ [b]) t) else refuse ConstraintFailed.
Definition batchesOfTicket (t : tables) (managerId ticket : str) : list StoredBatch :=
  filter (λ b, str_eqb (batch_managerId b) managerId && str_eqb (batch_ticket b) ticket = true) (batches t).
Definition update_batch (id : str) (f : StoredBatch → StoredBatch) (t : tables) : tables := set_batches ((λ b, if str_eqb (batch_id b) id then f b else b) <$> batches t) t.
Definition addArbiterRun (id : str) : Tx unit :=
  writes (update_batch id (λ b, mkBatch (batch_id b) (batch_managerId b) (batch_ticket b) (planNoteId b) (planNoteRev b) (batch_createdAt b) (S (arbiterRuns b)) (criteriaOpinion b))).
Definition arbiterRunsOfTicket (t : tables) (managerId ticket : str) : nat := sum_list_with arbiterRuns (batchesOfTicket t managerId ticket).
Definition recordCriteriaOpinion (id : str) (opinion : CriteriaOpinion) (reasons : list str) : Tx unit :=
  writes (update_batch id (λ b, mkBatch (batch_id b) (batch_managerId b) (batch_ticket b) (planNoteId b) (planNoteRev b) (batch_createdAt b) (arbiterRuns b) (Some (opinion, reasons)))).
Definition is_question (batchId questionId : str) (q : StoredQuestion) : bool := str_eqb (q_batchId q) batchId && str_eqb (q_questionId q) questionId.
(** The primary key and the reference to the batch. *)
Definition insertQuestion (q : StoredQuestion) : Tx unit :=
  isAllowed ← reads (λ t, negb (existsb (is_question (q_batchId q) (q_questionId q)) (questions t)) && bool_decide (is_Some (findBatch t (q_batchId q))));
  if isAllowed : bool then writes (λ t, set_questions (questions t ++ [q]) t) else refuse ConstraintFailed.
Definition isOfTicket (t : tables) (managerId ticket : str) (q : StoredQuestion) : bool :=
  match findBatch t (q_batchId q) with Some b => str_eqb (batch_managerId b) managerId && str_eqb (batch_ticket b) ticket | None => false end.
Definition decidedQuestionForReopen (t : tables) (managerId ticket questionId : str) : option StoredQuestion :=
  list.last (filter (λ q, isOfTicket t managerId ticket q && str_eqb (q_questionId q) questionId && bool_decide (q_status q = Decided) = true) (questions t)).
Definition isReopened (t : tables) (key : str * str) : bool := existsb (λ q, bool_decide (q_reopens q = Some key)) (questions t).
Definition questionsOfBatch (t : tables) (batchId : str) : list StoredQuestion := filter (λ q, str_eqb (q_batchId q) batchId = true) (questions t).
Definition questionsOfEscalation (t : tables) (id : str) : list StoredQuestion := filter (λ q, bool_decide (escalationId q = Some id) = true) (questions t).
(** An update that changes one row answers true. *)
Definition update_question (condition : StoredQuestion → bool) (f : StoredQuestion → StoredQuestion) : Tx bool :=
  changed ← reads (λ t, length (filter (λ q, condition q = true) (questions t)));
  _ ← writes (λ t, set_questions ((λ q, if condition q then f q else q) <$> questions t) t);
  mret (Nat.eqb changed 1).
Definition with_q_status (status : QuestionStatus) (reason : option str) (answer : option str) (at_ : option Z) (q : StoredQuestion) : StoredQuestion :=
  mkQuestion (q_batchId q) (q_questionId q) (q_text q) (declaredClass q) (computedClasses q) (effectiveClasses q) (q_route q) status (match reason with Some r => Some r | None => q_reason q end) (q_options q)
    (q_recommendation q) (q_paths q) (q_resolution q) (q_reopens q) (escalationId q) (match answer with Some a => Some a | None => humanAnswer q end) (match at_ with Some a => Some a | None => answeredAt q end).
Definition transitionQuestion (batchId questionId : str) (from to : QuestionStatus) (answer : option str) (at_ : option Z) : Tx bool :=
  update_question (λ q, is_question batchId questionId q && bool_decide (q_status q = from)) (with_q_status to None answer at_).
Definition deferred (classes : list EscalatingClass) (reason : str) (q : StoredQuestion) : StoredQuestion :=
  mkQuestion (q_batchId q) (q_questionId q) (q_text q) (declaredClass q) (computedClasses q) classes (q_route q) PendingHuman (Some reason) (q_options q)
    (q_recommendation q) (q_paths q) (q_resolution q) (q_reopens q) (escalationId q) (humanAnswer q) (answeredAt q).
Definition deferOpenQuestionToHuman (batchId questionId : str) (classes : list EscalatingClass) (reason : str) : Tx bool :=
  update_question (λ q, is_question batchId questionId q && bool_decide (q_status q = Open)) (deferred classes reason).
Definition attached (id : str) (q : StoredQuestion) : StoredQuestion :=
  mkQuestion (q_batchId q) (q_questionId q) (q_text q) (declaredClass q) (computedClasses q) (effectiveClasses q) (q_route q) (q_status q) (q_reason q) (q_options q)
    (q_recommendation q) (q_paths q) (q_resolution q) (q_reopens q) (Some id) (humanAnswer q) (answeredAt q).
Definition attachQuestionToEscalation (batchId questionId id : str) : Tx unit := update_question (is_question batchId questionId) (attached id) ≫= λ _, mret ().
Definition findEscalation (t : tables) (id : str) : option StoredEscalation := find (λ e, str_eqb (esc_id e) id) (escalations t).
Definition is_pending_of (managerId ticket : str) (e : StoredEscalation) : bool :=
  str_eqb (esc_managerId e) managerId && str_eqb (esc_ticket e) ticket && bool_decide (esc_status e = EscPending).
Definition findPendingEscalation (t : tables) (managerId ticket : str) : option StoredEscalation := find (is_pending_of managerId ticket) (escalations t).
(** The primary key, the check of the ticket and the unique index on pending escalations. *)
Definition insertEscalation (id managerId ticket body : str) (now : Z) : Tx unit :=
  isTaken ← reads (λ t, bool_decide (is_Some (findEscalation t id)) || forallb (N.eqb (chr " ")) ticket || bool_decide (is_Some (findPendingEscalation t managerId ticket)));
  if isTaken : bool then refuse ConstraintFailed else writes (λ t, set_escalations (escalations t ++ [mkEscalation id managerId ticket body now EscPending None None]) t).
Definition update_escalation (id : str) (f : StoredEscalation → StoredEscalation) (t : tables) : tables :=
  set_escalations ((λ e, if str_eqb (esc_id e) id && bool_decide (esc_status e = EscPending) then f e else e) <$> escalations t) t.
Definition updateEscalationBody (id body : str) : Tx unit :=
  writes (update_escalation id (λ e, mkEscalation (esc_id e) (esc_managerId e) (esc_ticket e) body (esc_createdAt e) (esc_status e) (resolvedAt e) (handoverRefusal e))).
Definition setHandoverRefusal (id : str) (refusal : option HandoverRefusal) : Tx unit :=
  writes (update_escalation id (λ e, mkEscalation (esc_id e) (esc_managerId e) (esc_ticket e) (esc_body e) (esc_createdAt e) (esc_status e) (resolvedAt e) refusal)).
Definition answerEscalationIfPending (id : str) (now : Z) : Tx unit :=
  writes (update_escalation id (λ e, mkEscalation (esc_id e) (esc_managerId e) (esc_ticket e) (esc_body e) (esc_createdAt e) EscAnswered (Some now) (handoverRefusal e))).
Definition insertArbiterDecision (d : ArbiterDecision) : Tx unit := writes (λ t, set_decisions (decisions t ++ [d]) t).
Definition decisionsOfBatch (t : tables) (batchId : str) : list ArbiterDecision := filter (λ d, str_eqb (dec_batchId d) batchId = true) (decisions t).
Definition batchIdsWithOpenArbiterQuestions (t : tables) : list str :=
  unique (q_batchId <$> filter (λ q, bool_decide (q_route q = ToArbiter) && bool_decide (q_status q = Open) = true) (questions t)).
(** The escalations in the given status, and those of a manager, by date and then by rowid. *)
Definition by_creation (l : list StoredEscalation) : list StoredEscalation := sort_by esc_createdAt l.
Definition escalationsWithStatus (t : tables) (status : EscalationStatus) : list StoredEscalation := by_creation (filter (λ e, esc_status e = status) (escalations t)).
Definition escalationsOfManager (t : tables) (managerId : str) : list StoredEscalation := by_creation (filter (λ e, esc_managerId e = managerId) (escalations t)).

(** ** Texts *)
(** A terminal sequence at the start of a text: what follows it. *)
Definition sequence_at (isParameter : N → bool) (s : str) : option str :=
  if startsWith s [27%N; chr "["] then
    match drop_while (in_range 32 47) (drop_while isParameter (drop 2 s)) with
    | final :: rest => if in_range 64 126 final then Some rest else None
    | [] => None
    end
  else None.
Fixpoint without_sequences (isParameter : N → bool) (fuel : nat) (s : str) : str :=
  match fuel, s with
  | S fuel', c :: s' => match sequence_at isParameter s with Some rest => without_sequences isParameter fuel' rest | None => c :: without_sequences isParameter fuel' s' end
  | _, _ => []
  end.
Definition isLineOrParagraphSeparator (code : N) : bool := in_range 8232 8233 code.
Definition oneLine (text : str) : str := trim (replace_points (point_is is_space) text).
Definition withLfLineBreaks (text : str) : str := (λ c, if isLineOrParagraphSeparator c then LF else c) <$> normalizeLineEndings text.
Definition MAX_BODY_CHARS : nat := Z.to_nat 2000.
Definition UNCLASSIFIED_LABEL : str := js "unclassified".
Definition ESCALATION_ITEM_PREFIX : str := js "[esc:".
Definition cappedAt (text : str) (maxChars : nat) : str := if Nat.ltb maxChars (length text) then slice text 0 (maxChars - 1) ++ ELLIPSIS else text.
Definition classLabelsOf (qs : list StoredQuestion) : list str :=
  let effectiveClasses_ := class_text <$> filter (λ c, existsb (λ q, bool_decide (c ∈ effectiveClasses q)) qs = true) ESCALATING_CLASSES in
  if existsb (λ q, bool_decide (q_reason q = Some UNCLASSIFIED_LABEL)) qs then effectiveClasses_ ++ [UNCLASSIFIED_LABEL] else effectiveClasses_.
Definition lineOfQuestion (q : StoredQuestion) (position : nat) : list str :=
  let classes := if Nat.ltb 0 (length (effectiveClasses q)) then join (js ", ") (class_text <$> effectiveClasses q) else default (declaredClass q) (q_reason q) in
  let options := match q_options q with Some l => [js "   options: " ++ join (js " | ") l] | None => [] end in
  let recommendation := match q_recommendation q with Some (c :: s) => [js "   the manager recommends: " ++ c :: s] | _ => [] end in
  [String_of_nat position ++ js ". [" ++ q_questionId q ++ js " " ++ [183%N] ++ js " " ++ classes ++ js "] " ++ q_text q] ++ options ++ recommendation.
Definition renderEscalationBody (id ticket : str) (qs : list StoredQuestion) : str :=
  let header := js "Escalation " ++ id ++ js " on " ++ ticket ++ js ": " ++ String_of_nat (length qs) ++ js " question(s) " ++ [8212%N] ++ js " " ++ join (js ", ") (classLabelsOf qs) in
  cappedAt (join [LF] ([header; []] ++ concat (imap (λ index q, lineOfQuestion q (index + 1)) qs))) MAX_BODY_CHARS.
Definition escalationItemOf (id ticket : str) : str := ESCALATION_ITEM_PREFIX ++ id ++ js "] Escalation on " ++ ticket ++ js ": a human answer is needed, see the Inbox".

(** ** The list of questions for the human *)
Definition WORKING_STATE_MAX_ITEMS_PER_SECTION : nat := 20.
Definition WORKING_STATE_MAX_ITEM_CHARACTERS : nat := 300.
Definition isRefusedCodePoint (code : N) : bool :=
  existsb (λ range, in_range range.1 range.2 code) [(0, 8); (10, 31); (127, 127); (133, 133); (8232, 8233); (8234, 8238); (8294, 8297)]%N.
Definition isPrintableSingleLine (item : str) : bool := negb (existsb (point_is isRefusedCodePoint) (code_points item)).
Definition isNotHeading (item : str) : bool := negb (startsWith item (js "#")).
Definition section_item (item : str) : option str :=
  let trimmed := trim item in
  if Nat.leb 1 (length trimmed) && Nat.leb (length trimmed) WORKING_STATE_MAX_ITEM_CHARACTERS && isPrintableSingleLine trimmed && isNotHeading trimmed then Some trimmed else None.
Definition SectionSchema (items : list str) : option (list str) :=
  if Nat.leb (length items) WORKING_STATE_MAX_ITEMS_PER_SECTION then mapM section_item items else None.

(** ** Requests and answers *)
Record PlanQuestion := mkPlanQuestion
  { pq_id : str; pq_text : str; pq_class : str; pq_options : option (list str); pq_recommendation : option str; pq_paths : option (list str); pq_resolution : option ReproClaim; pq_reopens : option str }.
Record PlanQuestionBatch := mkPlanBatch
  { pb_managerId : str; pb_ticket : str; pb_planNoteId : str; pb_planNoteRev : Z; pb_questions : list PlanQuestion; humanClasses : list EscalatingClass; extraRules : list ExtraRule }.
Record OpinionDecision := mkOpinionDecision
  { od_question_id : str; od_verdict : ArbiterVerdict; od_decision : str; od_rationale : str; od_raise_to : option EscalatingClass; od_evidence : option ReproClaim }.
Record ArbiterOpinion := mkOpinion { op_batch_id : str; op_decisions : list OpinionDecision; op_criteria : CriteriaOpinion; op_reasons : list str }.
(** The listing refusal: its text and its hint. *)
Record EscalatedToHuman := mkEscalated { ea_escalationId : str; ea_questionIds : list str; ea_listRefusal : option (str * str) }.
Inductive ReopenKind := Review | Dispute.
#[export] Instance ReopenKind_eq_dec : EqDecision ReopenKind.
Proof. solve_decision. Defined.
Record ReopenPlan := mkReopenPlan { rp_kind : ReopenKind; rp_evidence : ReproClaim; rp_contested : option (str * str) }.
Record SubmittedPlanQuestions := mkSubmitted
  { sub_batchId : str; selfResolvedQuestionIds : list str; arbiterQuestionIds : list str; sub_human : option EscalatedToHuman; sub_reopened : list (str * ReopenKind * option str) }.
Record AuditedDecision := mkAudited
  { ad_questionId : str; ad_questionText : str; ad_verdict : ArbiterVerdict; ad_decision : str; ad_rationale : str; ad_raiseTo : option EscalatingClass; ad_evidence : option ReproClaim }.
Record RecordedOpinion := mkRecorded { ro_batchId : str; decidedQuestionIds : list str; escalatedQuestionIds : list str; ignoredQuestionIds : list str; ro_warnings : list str }.
(** What the service tells once its transaction is committed. *)
Inductive Notice := Journal (managerId : str) (entries : list str) | TellManager (managerId : str) (fromSessionId : option str) (body : str) | Raised (escalationId : str) | Resolved (escalationId : str).
Record EscalationQuestionView := mkQuestionView
  { qv_questionId : str; qv_text : str; qv_declaredClass : str; qv_effectiveClasses : list EscalatingClass; qv_status : QuestionStatus; qv_reason : option str; qv_options : option (list str);
    qv_recommendation : option str; qv_humanAnswer : option str; qv_answeredAt : option Z }.
Record EscalationView := mkView
  { ev_id : str; ev_managerId : str; ev_ticket : str; ev_status : EscalationStatus; ev_body : str; ev_createdAt : Z; ev_resolvedAt : option Z; ev_handoverRefusal : option HandoverRefusal; ev_questions : list EscalationQuestionView }.
(** What one call meets: the date, the ids it draws, which working states keep under the byte limit, the reopened ids whose decision cannot be read,
    the plan note (whether it is the mission note of a manager, its revision, whether an append throws and the revision after the appends) and the warnings of the journal. *)
Record Call := mkCall
  { now : Z; newBatchId : str; newEscalationId : str; fits : str → list str → bool; isUnreadable : str → bool;
    isMissionNote : bool; noteRev : option Z; appendThrows : bool; noteRevAfter : option Z; journalWarnings : list str }.

Definition CLASS_DISABLED_BY_PROJECT_REASON : str := js "class_disabled_by_project".
Definition ARBITER_DEFERRED_REASON : str := js "arbiter_deferred".
Definition ARBITER_UNAVAILABLE_REASON : str := js "arbiter_unavailable".
Definition ARBITER_QUOTA_REASON : str := js "arbiter_quota".
Definition ARBITER_DISPUTE_REASON : str := js "arbiter_dispute".
Definition PLAN_NOTE_UNAVAILABLE_WARNING : str := js "plan_note_unavailable".
Definition STATUS_OF_ROUTE (r : QuestionRoute) : QuestionStatus := match r with ToHuman => PendingHuman | ToSelf => SelfResolved | ToArbiter => Open end.
Definition reasonOf (routing : QuestionRouting) (reopen : option ReopenPlan) : option str :=
  if bool_decide (rp_kind <$> reopen = Some Dispute) then Some ARBITER_DISPUTE_REASON
  else if bool_decide (declared routing = None) then Some UNCLASSIFIED_LABEL
  else if bool_decide (route routing = ToArbiter) && Nat.ltb 0 (length (disabledByProject routing)) then Some CLASS_DISABLED_BY_PROJECT_REASON
  else None.
Definition withClass (classes : list EscalatingClass) (addedClass : EscalatingClass) : list EscalatingClass :=
  if bool_decide (addedClass ∈ classes) then classes else classes ++ [addedClass].
Definition handsToAHuman (verdict : ArbiterVerdict) (raiseTo : option EscalatingClass) : bool := bool_decide (verdict = VerdictNeedsHuman) || bool_decide (is_Some raiseTo).
Definition DASH : str := js " " ++ [8212%N] ++ js " ".
Definition journalEntryOf (ticket : str) (d : AuditedDecision) : str :=
  let outcome := if handsToAHuman (ad_verdict d) (ad_raiseTo d) then js "handed to the human" ++ match ad_raiseTo d with Some c => js " as " ++ class_text c | None => [] end else js "decided" in
  oneLine (ticket ++ js " " ++ ad_questionId d ++ js " " ++ outcome ++ js ": " ++ ad_decision d ++ DASH ++ ad_rationale d).
Definition opinion_text (o : CriteriaOpinion) : str := match o with Favourable => js "favourable" | Unfavourable => js "unfavourable" | NotAsked => js "not_asked" end.
Definition opinionMessageOf (ticket : str) (result : RecordedOpinion) (criteria : CriteriaOpinion) : str :=
  let decided := if Nat.ltb 0 (length (decidedQuestionIds result)) then js "decided " ++ join (js ",") (decidedQuestionIds result) else js "decided none" in
  let escalated := if Nat.ltb 0 (length (escalatedQuestionIds result)) then js "; handed to the human: " ++ join (js ",") (escalatedQuestionIds result) else [] in
  js "[arbiter] " ++ decided ++ js " on " ++ ticket ++ escalated ++ js "; criteria " ++ opinion_text criteria.
(** An empty text is falsy. *)
Definition truthy (text : option str) : option str := match text with Some [] => None | other => other end.
Definition questionViewOf (q : StoredQuestion) : EscalationQuestionView :=
  mkQuestionView (q_questionId q) (q_text q) (declaredClass q) (effectiveClasses q) (if bool_decide (q_status q = Answered) then Answered else PendingHuman) (truthy (q_reason q)) (q_options q)
    (truthy (q_recommendation q)) (truthy (humanAnswer q)) (answeredAt q).
Definition viewOfStored (t : tables) (e : StoredEscalation) : EscalationView :=
  mkView (esc_id e) (esc_managerId e) (esc_ticket e) (esc_status e) (esc_body e) (esc_createdAt e) (resolvedAt e) (handoverRefusal e) (questionViewOf <$> questionsOfEscalation t (esc_id e)).
Definition viewOf (id : str) : Tx EscalationView := found ← reads (λ t, findEscalation t id); match found with Some e => reads (λ t, viewOfStored t e) | None => refuse TypeError end.
Definition listByStatus (t : tables) (status : EscalationStatus) : list EscalationView := viewOfStored t <$> escalationsWithStatus t status.
Definition listOfManager (t : tables) (managerId : str) : list EscalationView := viewOfStored t <$> escalationsOfManager t managerId.

(** ** The working state *)
Definition listOf (t : tables) (managerId : str) : list str := default [] (get (humanLists t) managerId).
Definition update (call : Call) (managerId : str) (items : list str) : Tx unit :=
  match SectionSchema items with
  | None => refuse SchemaError
  | Some parsed => if fits call managerId parsed then writes (λ t, set_humanLists (put (humanLists t) managerId parsed) t) else refuse StateTooLarge
  end.
Definition ensureItemInQuestionsForHuman (call : Call) (managerId : str) (escalation : StoredEscalation) : Tx unit :=
  let item := escalationItemOf (esc_id escalation) (esc_ticket escalation) in
  items ← reads (λ t, listOf t managerId);
  if mem_str item items then mret ()
  else if Nat.leb WORKING_STATE_MAX_ITEMS_PER_SECTION (length items) then refuse InvalidBody
  else update call managerId (items ++ [item]).
Definition removeItemFromQuestionsForHuman (call : Call) (managerId id : str) : Tx unit :=
  state ← reads (λ t, get (humanLists t) managerId);
  match state with
  | None => mret ()
  | Some items =>
      let kept := filter (λ item, startsWith item (ESCALATION_ITEM_PREFIX ++ id ++ js "]") = false) items in
      if Nat.eqb (length kept) (length items) then mret () else update call managerId kept
  end.
Definition removeItemWithoutFailingTheAnswer (call : Call) (managerId id : str) : Tx unit :=
  λ t, match removeItemFromQuestionsForHuman call managerId id t with inr r => inr r | inl _ => inr (t, ()) end.

(** ** Joining an escalation *)
Definition LIST_FULL_REFUSAL : str :=
  js "questions_for_human already holds " ++ String_of_nat WORKING_STATE_MAX_ITEMS_PER_SECTION ++ js " items, so the escalation cannot be listed there".
Definition LIST_FULL_HINT : str := js "Remove the answered questions with update_working_state, then submit again.".
(** [markCardWith] is none for a submission, which a full list refuses. *)
Definition listItemOrRefusal (call : Call) (managerId : str) (escalation : StoredEscalation) (markCardWith : option str) : Tx (option (str * str)) :=
  λ t, match ensureItemInQuestionsForHuman call managerId escalation t with
       | inr (t', _) => inr (t', None)
       | inl error =>
           match error, markCardWith with
           | InvalidBody, Some reason =>
               (_ ← setHandoverRefusal (esc_id escalation) (Some (mkRefusal reason LIST_FULL_REFUSAL (Some LIST_FULL_HINT) (now call)));
                mret (Some (LIST_FULL_REFUSAL, LIST_FULL_HINT))) t
           | _, _ => inl error
           end
       end.
Definition openEscalation (call : Call) (managerId ticket : str) : Tx StoredEscalation :=
  _ ← insertEscalation (newEscalationId call) managerId ticket [] (now call);
  found ← reads (λ t, findEscalation t (newEscalationId call));
  match found with Some e => mret e | None => refuse TypeError end.
Definition joinEscalation (call : Call) (batchId managerId ticket : str) (questionIds : list str) (markCardWith : option str) : Tx EscalatedToHuman :=
  open ← reads (λ t, findPendingEscalation t managerId ticket);
  escalation ← match open with Some e => mret e | None => openEscalation call managerId ticket end;
  _ ← each (λ questionId, attachQuestionToEscalation batchId questionId (esc_id escalation)) questionIds;
  carried ← reads (λ t, questionsOfEscalation t (esc_id escalation));
  _ ← updateEscalationBody (esc_id escalation) (renderEscalationBody (esc_id escalation) ticket carried);
  listRefusal ← listItemOrRefusal call managerId escalation markCardWith;
  _ ← (if bool_decide (listRefusal = None) && bool_decide (is_Some (handoverRefusal escalation)) then setHandoverRefusal (esc_id escalation) None else mret ());
  mret (mkEscalated (esc_id escalation) questionIds listRefusal).

Section Service.
(** [\p{Cf}], [\p{Z}] and [\p{Default_Ignorable_Code_Point}], NFC, the lower case of a text and the masking of the secrets a text shows. *)
Variable isFormat isSeparator isIgnorable : N → bool.
Variable normalizeNFC toLowerCase maskedSecrets : str → str.

(** ** Cleaning texts *)
Definition visibleTextOf (text : str) : str :=
  let plain := normalizeLineEndings (without_sequences (in_range 48 63) (length text) text) in
  let printable := without_points (λ code, isControlCode code && negb (mem_chr code [LF; TAB])) plain in
  trim (without_points (λ code, mem_chr code [10240; 12644; 4447; 4448; 65440]%N) (without_points (λ code, isFormat code || isLineOrParagraphSeparator code) printable)).
Definition humanReadableText (text : str) : str := maskedSecrets (visibleTextOf text).
Definition withoutControlCharacters (text : str) : str :=
  let uncoloured := without_sequences (λ c, is_digit c || mem_chr c (js ";?")) (length text) text in
  let printable := filter (λ c, (in_range 0 8 c || in_range 11 31 c || N.eqb c 127) = false) uncoloured in
  without_points (λ code, in_range 128 159 code || in_range 917504 917631 code || isFormat code) printable.
Definition claimOf (text : str) : str := maskedSecrets (oneLine (withoutControlCharacters text)).
Definition commandOf (text : str) : str := maskedSecrets (oneLine (withoutControlCharacters text)).
Definition outputOf (text : str) : str := maskedSecrets (trim (withoutControlCharacters (withLfLineBreaks text))).
Definition sanitizedReproClaim (c : ReproClaim) : ReproClaim :=
  mkClaim (claimOf (claim c)) (repro_status c) (truthy (commandOf <$> command c)) (truthy (outputOf <$> output c)).
Definition isBlankText (text : str) : bool :=
  forallb (point_is (λ code, isSeparator code || isFormat code || isControlCode code || isIgnorable code || is_space code || mem_chr code [10240; 65532]%N)) (code_points text).
Definition hasBlankClaim (c : ReproClaim) : bool := isBlankText (claim c).
Definition isExecutedClaim (c : ReproClaim) : bool := negb (bool_decide (repro_status c = NotReproduced)).
Definition lacksExecutedEvidence (c : ReproClaim) : bool :=
  let showsTheRun := match command c, output c with Some ran, Some shown => negb (isBlankText ran) && negb (isBlankText shown) | _, _ => false end in
  isExecutedClaim c && negb showsTheRun.

(** ** Submitting a batch *)
(** None is a refusal. *)
Definition clean_claim (raw : ReproClaim) : option ReproClaim :=
  let clean := sanitizedReproClaim raw in
  if hasBlankClaim clean || lacksExecutedEvidence clean then None else Some clean.
Definition cleanResolutionOf (q : PlanQuestion) : option (option ReproClaim) :=
  match pq_resolution q with None => Some None | Some raw => Some <$> clean_claim raw end.
Definition with_resolution (q : PlanQuestion) (resolution : option ReproClaim) : PlanQuestion :=
  mkPlanQuestion (pq_id q) (pq_text q) (pq_class q) (pq_options q) (pq_recommendation q) (pq_paths q) resolution (pq_reopens q).
Definition withCleanResolutions (b : PlanQuestionBatch) : option PlanQuestionBatch :=
  cleaned ← mapM (λ q, with_resolution q <$> cleanResolutionOf q) (pb_questions b);
  Some (mkPlanBatch (pb_managerId b) (pb_ticket b) (pb_planNoteId b) (pb_planNoteRev b) cleaned (humanClasses b) (extraRules b)).
Definition executedEvidenceOf (q : PlanQuestion) : option ReproClaim :=
  raw ← pq_resolution q;
  let evidence := sanitizedReproClaim raw in
  if negb (hasBlankClaim evidence) && isExecutedClaim evidence && negb (lacksExecutedEvidence evidence) then Some evidence else None.
(** The plans of the questions so far and the decisions they contest; an id holds no slash, so the pair of ids stands for the key the code builds with one. *)
Definition plan_reopen (call : Call) (b : PlanQuestionBatch) (t : tables) (q : PlanQuestion) (plans : rec ReopenPlan) (contestedKeys : list (str * str)) : EscalationError + rec ReopenPlan * list (str * str) :=
  match pq_reopens q with
  | None => inr (plans, contestedKeys)
  | Some reopens =>
      match executedEvidenceOf q with
      | None => inl InvalidBody
      | Some evidence =>
          if isUnreadable call reopens then inr (put plans (pq_id q) (mkReopenPlan Dispute evidence None), contestedKeys)
          else
            match decidedQuestionForReopen t (pb_managerId b) (pb_ticket b) reopens with
            | None => inl InvalidBody
            | Some target =>
                let contested := (q_batchId target, q_questionId target) in
                if bool_decide (contested ∈ contestedKeys) || isReopened t contested then inl InvalidBody
                else
                  let kind := if bool_decide (is_Some (q_reopens target)) then Dispute else Review in
                  inr (put plans (pq_id q) (mkReopenPlan kind evidence (Some contested)), contested :: contestedKeys)
            end
      end
  end.
Fixpoint plan_reopens (call : Call) (b : PlanQuestionBatch) (t : tables) (qs : list PlanQuestion) (plans : rec ReopenPlan) (contestedKeys : list (str * str)) : EscalationError + rec ReopenPlan :=
  match qs with
  | [] => inr plans
  | q :: rest => match plan_reopen call b t q plans contestedKeys with inl e => inl e | inr (plans', keys') => plan_reopens call b t rest plans' keys' end
  end.
Definition planReopens (call : Call) (b : PlanQuestionBatch) : Tx (rec ReopenPlan) :=
  λ t, match plan_reopens call b t (pb_questions b) [] [] with inl e => inl e | inr plans => inr (t, plans) end.
Definition floor_input (q : PlanQuestion) : FloorInput := mkFloorInput (pq_text q) (default [] (pq_options q)) (pq_recommendation q) (default [] (pq_paths q)).
Definition routingOf (b : PlanQuestionBatch) (q : PlanQuestion) (reopen : option ReopenPlan) : QuestionRouting :=
  let isExecuted := match pq_resolution q with Some resolution => isExecutedClaim resolution | None => false end in
  let routing := routeQuestion isFormat normalizeNFC toLowerCase (pq_class q) (floor_input q) (bool_decide (is_Some (pq_reopens q))) isExecuted (humanClasses b) (extraRules b) in
  if bool_decide (rp_kind <$> reopen = Some Dispute) then mkRouting (declared routing) (computed routing) (effective routing) (disabledByProject routing) ToHuman else routing.
Definition newQuestionOf (batchId : str) (q : PlanQuestion) (routing : QuestionRouting) (reopen : option ReopenPlan) : StoredQuestion :=
  mkQuestion batchId (pq_id q) (humanReadableText (pq_text q)) (humanReadableText (pq_class q)) (computed routing) (effective routing) (route routing) (STATUS_OF_ROUTE (route routing))
    (reasonOf routing reopen) (option_map (map humanReadableText) (pq_options q)) (truthy (humanReadableText <$> pq_recommendation q)) (option_map (map humanReadableText) (pq_paths q))
    (match reopen with Some plan => Some (rp_evidence plan) | None => pq_resolution q end) (match reopen with Some plan => rp_contested plan | None => None end) None None None.
Definition routed_questions (b : PlanQuestionBatch) (plans : rec ReopenPlan) : list (PlanQuestion * option ReopenPlan * QuestionRouting) :=
  (λ q, let reopen := get plans (pq_id q) in (q, reopen, routingOf b q reopen)) <$> pb_questions b.
Definition idsOfRoute (routed : list (PlanQuestion * option ReopenPlan * QuestionRouting)) (r : QuestionRoute) : list str :=
  (λ x, pq_id x.1.1) <$> filter (λ x, route x.2 = r) routed.
Definition storeBatch (call : Call) (b : PlanQuestionBatch) : Tx SubmittedPlanQuestions :=
  _ ← insertBatch (mkBatch (newBatchId call) (pb_managerId b) (pb_ticket b) (pb_planNoteId b) (pb_planNoteRev b) (now call) 0 None);
  plans ← planReopens call b;
  let routed := routed_questions b plans in
  _ ← each (λ x, insertQuestion (newQuestionOf (newBatchId call) x.1.1 x.2 x.1.2)) routed;
  let humanQuestionIds := idsOfRoute routed ToHuman in
  human ← (if Nat.eqb (length humanQuestionIds) 0 then mret None else joined ← joinEscalation call (newBatchId call) (pb_managerId b) (pb_ticket b) humanQuestionIds None; mret (Some joined));
  let reopened := omap (λ x, (λ plan, (pq_id x.1.1, rp_kind plan, snd <$> rp_contested plan)) <$> x.1.2) routed in
  mret (mkSubmitted (newBatchId call) (idsOfRoute routed ToSelf) (idsOfRoute routed ToArbiter) human reopened).
Definition status_text (s : ReproStatus) : str := match s with Proven => js "proven" | Plausible => js "plausible" | NotReproduced => js "not_reproduced" end.
Definition self_resolved_line (ticket : str) (q : StoredQuestion) : option str :=
  (λ r, ticket ++ js " " ++ q_questionId q ++ js " self-resolved: " ++ claim r ++ js " (" ++ status_text (repro_status r)
        ++ match truthy (command r) with Some ran => js ", " ++ ran | None => [] end ++ js ")") <$> q_resolution q.
(** A self-resolved question has a resolution ([self_resolved_has_resolution] in [EscalationFacts]). *)
Definition journalSelfResolved (managerId ticket : str) (submitted : SubmittedPlanQuestions) : Tx (list Notice) :=
  if Nat.eqb (length (selfResolvedQuestionIds submitted)) 0 then mret []
  else
    selfResolved ← reads (λ t, filter (λ q, q_route q = ToSelf) (questionsOfBatch t (sub_batchId submitted)));
    mret [Journal managerId (omap (self_resolved_line ticket) selfResolved)].
Definition reopened_line (ticket : str) (r : str * ReopenKind * option str) : str :=
  let subject := match r.2 with None => js "an arbiter decision that could not be checked" | Some contestedQuestionId => js "the arbiter decision of " ++ contestedQuestionId end in
  match r.1.2 with
  | Review => ticket ++ js " " ++ r.1.1 ++ js " reopens " ++ subject ++ js ": sent back to the arbiter with new evidence"
  | Dispute => ticket ++ js " " ++ r.1.1 ++ js " contests " ++ subject ++ js ": escalated to the human (" ++ ARBITER_DISPUTE_REASON ++ js ")"
  end.
Definition journalReopened (managerId ticket : str) (submitted : SubmittedPlanQuestions) : list Notice :=
  if Nat.eqb (length (sub_reopened submitted)) 0 then [] else [Journal managerId (reopened_line ticket <$> sub_reopened submitted)].
Definition submitBatch (call : Call) (b : PlanQuestionBatch) : Tx (SubmittedPlanQuestions * list Notice) :=
  match withCleanResolutions b with
  | None => refuse InvalidBody
  | Some clean =>
      submitted ← storeBatch call clean;
      journaled ← journalSelfResolved (pb_managerId b) (pb_ticket b) submitted;
      mret (submitted, journaled ++ journalReopened (pb_managerId b) (pb_ticket b) submitted ++ match sub_human submitted with Some human => [Raised (ea_escalationId human)] | None => [] end)
  end.

(** ** The opinion of the arbiter *)
Definition arbiter_ids (qs : list StoredQuestion) : list str := q_questionId <$> filter (λ q, q_route q = ToArbiter) qs.
Definition decidesExactlyTheArbiterQuestions (opinion : ArbiterOpinion) (qs : list StoredQuestion) : bool :=
  let reportedIds := od_question_id <$> op_decisions opinion in
  Nat.eqb (length (filter (λ id, id ∉ reportedIds) (arbiter_ids qs))) 0 && Nat.eqb (length (filter (λ id, id ∉ arbiter_ids qs) reportedIds)) 0.
Definition leavesNothingToAHuman (opinion : ArbiterOpinion) (qs : list StoredQuestion) : bool :=
  let waitingForAHuman := q_questionId <$> filter (λ q, q_status q = PendingHuman) qs in
  let handedToAHuman := od_question_id <$> filter (λ d, handsToAHuman (od_verdict d) (od_raise_to d) = true) (op_decisions opinion) in
  negb (bool_decide (op_criteria opinion = Favourable)) || Nat.eqb (length (waitingForAHuman ++ handedToAHuman)) 0.
Fixpoint cleanEvidenceOf (ds : list OpinionDecision) (cleanByQuestionId : rec ReproClaim) : option (rec ReproClaim) :=
  match ds with
  | [] => Some cleanByQuestionId
  | d :: rest =>
      match od_evidence d with
      | None => cleanEvidenceOf rest cleanByQuestionId
      | Some raw => match clean_claim raw with Some clean => cleanEvidenceOf rest (put cleanByQuestionId (od_question_id d) clean) | None => None end
      end
  end.
(** The four lists the loop of [applyOpinion] fills. *)
Record Applied := mkApplied { appliedDecisions : list AuditedDecision; ap_decided : list str; ap_escalated : list str; ap_ignored : list str }.
Definition audited_of (q : StoredQuestion) (d : OpinionDecision) (evidence : option ReproClaim) : AuditedDecision :=
  mkAudited (q_questionId q) (q_text q) (od_verdict d) (humanReadableText (od_decision d)) (humanReadableText (od_rationale d)) (od_raise_to d) evidence.
Definition apply_decision (batchId : str) (qs : list StoredQuestion) (evidenceByQuestionId : rec ReproClaim) (d : OpinionDecision) (a : Applied) : Tx Applied :=
  match find (λ q, str_eqb (q_questionId q) (od_question_id d)) qs with
  | None => refuse TypeError
  | Some q =>
      let hands := handsToAHuman (od_verdict d) (od_raise_to d) in
      let classes := match od_raise_to d with None => effectiveClasses q | Some c => withClass (effectiveClasses q) c end in
      isApplied ← (if hands then deferOpenQuestionToHuman batchId (q_questionId q) classes ARBITER_DEFERRED_REASON else transitionQuestion batchId (q_questionId q) Open Decided None None);
      mret (if isApplied : bool then
              mkApplied (appliedDecisions a ++ [audited_of q d (get evidenceByQuestionId (q_questionId q))]) (if hands then ap_decided a else ap_decided a ++ [q_questionId q])
                (if hands then ap_escalated a ++ [q_questionId q] else ap_escalated a) (ap_ignored a)
            else mkApplied (appliedDecisions a) (ap_decided a) (ap_escalated a) (ap_ignored a ++ [q_questionId q]))
  end.
Fixpoint apply_decisions (batchId : str) (qs : list StoredQuestion) (evidenceByQuestionId : rec ReproClaim) (ds : list OpinionDecision) (a : Applied) : Tx Applied :=
  match ds with
  | [] => mret a
  | d :: rest => a' ← apply_decision batchId qs evidenceByQuestionId d a; apply_decisions batchId qs evidenceByQuestionId rest a'
  end.
(** The revision of the plan note after the sections of the decisions, and the warnings. *)
Definition appendDecisionSections (call : Call) (batch : StoredBatch) : Z * list str :=
  if isMissionNote call || bool_decide (noteRev call = None) then (planNoteRev batch, [PLAN_NOTE_UNAVAILABLE_WARNING])
  else (default (planNoteRev batch) (noteRevAfter call), if appendThrows call then [PLAN_NOTE_UNAVAILABLE_WARNING] else []).
Definition decision_row (call : Call) (batchId arbiterSessionId : str) (rev : Z) (d : AuditedDecision) : ArbiterDecision :=
  mkDecision batchId (ad_questionId d) (ad_verdict d) (ad_decision d) (ad_rationale d) (ad_raiseTo d) (ad_evidence d) arbiterSessionId rev (now call).
Definition applyOpinion (call : Call) (batch : StoredBatch) (qs : list StoredQuestion) (opinion : ArbiterOpinion) (arbiterSessionId : str) (evidenceByQuestionId : rec ReproClaim)
  : Tx (RecordedOpinion * list AuditedDecision * option str) :=
  a ← apply_decisions (batch_id batch) qs evidenceByQuestionId (op_decisions opinion) (mkApplied [] [] [] []);
  if Nat.eqb (length (appliedDecisions a)) 0 then mret (mkRecorded (batch_id batch) (ap_decided a) (ap_escalated a) (ap_ignored a) [], appliedDecisions a, None)
  else
    let trail := appendDecisionSections call batch in
    _ ← each (λ d, insertArbiterDecision (decision_row call (batch_id batch) arbiterSessionId trail.1 d)) (appliedDecisions a);
    _ ← recordCriteriaOpinion (batch_id batch) (op_criteria opinion) (humanReadableText <$> op_reasons opinion);
    joined ← (if Nat.eqb (length (ap_escalated a)) 0 then mret None
              else j ← joinEscalation call (batch_id batch) (batch_managerId batch) (batch_ticket batch) (ap_escalated a) None; mret (Some (ea_escalationId j)));
    mret (mkRecorded (batch_id batch) (ap_decided a) (ap_escalated a) (ap_ignored a) trail.2, appliedDecisions a, joined).
Definition recordArbiterOpinion (call : Call) (managerId arbiterSessionId : str) (opinion : ArbiterOpinion) : Tx (RecordedOpinion * list Notice) :=
  found ← reads (λ t, findBatch t (op_batch_id opinion));
  match found with
  | None => refuse EscalationNotFound
  | Some batch =>
      if negb (str_eqb (batch_managerId batch) managerId) then refuse EscalationNotFound
      else
        qs ← reads (λ t, questionsOfBatch t (batch_id batch));
        if negb (decidesExactlyTheArbiterQuestions opinion qs) then refuse InvalidBody
        else if negb (leavesNothingToAHuman opinion qs) then refuse InvalidBody
        else
          match cleanEvidenceOf (op_decisions opinion) [] with
          | None => refuse InvalidBody
          | Some evidenceByQuestionId =>
              recorded ← applyOpinion call batch qs opinion arbiterSessionId evidenceByQuestionId;
              let '(result, applied, raised) := recorded in
              let raisedNotice := match raised with Some id => [Raised id] | None => [] end in
              if Nat.eqb (length applied) 0 then mret (result, raisedNotice)
              else mret (mkRecorded (ro_batchId result) (decidedQuestionIds result) (escalatedQuestionIds result) (ignoredQuestionIds result) (ro_warnings result ++ journalWarnings call),
                         raisedNotice ++ [Journal managerId (journalEntryOf (batch_ticket batch) <$> applied);
                                          TellManager managerId (Some arbiterSessionId) (opinionMessageOf (batch_ticket batch) result (op_criteria opinion))])
          end
  end.

(** ** The hand-over to the human *)
Definition isWaiting (q : StoredQuestion) : bool := bool_decide (q_route q = ToArbiter) && bool_decide (q_status q = Open).
Definition handWaitingQuestionsToHuman (call : Call) (batch : StoredBatch) (reason : str) : Tx (option EscalatedToHuman) :=
  waiting ← reads (λ t, filter (λ q, isWaiting q = true) (questionsOfBatch t (batch_id batch)));
  handed ← filterTx (λ q, deferOpenQuestionToHuman (batch_id batch) (q_questionId q) (effectiveClasses q) reason) waiting;
  if Nat.eqb (length handed) 0 then mret None
  else joined ← joinEscalation call (batch_id batch) (batch_managerId batch) (batch_ticket batch) (q_questionId <$> handed) (Some reason); mret (Some joined).
Definition handover_notices (batch : StoredBatch) (reason : str) (escalated : EscalatedToHuman) : list Notice :=
  let managerId := batch_managerId batch in
  let ticket := batch_ticket batch in
  let handedIds := join (js ",") (ea_questionIds escalated) in
  match ea_listRefusal escalated with
  | None => [Journal managerId [ticket ++ js " " ++ handedIds ++ js " escalated to the human: " ++ reason];
             TellManager managerId None (js "[arbiter] escalated " ++ handedIds ++ js " on " ++ ticket ++ js " to the human: " ++ reason)]
  | Some (refusal, _) =>
      let line := ticket ++ js " " ++ handedIds ++ js " escalated to the human (" ++ reason ++ js ") but not listed in questions_for_human: " ++ refusal in
      [Journal managerId [line]; TellManager managerId None (js "[arbiter] " ++ line ++ js ". The card waits in the Inbox; a human can answer it or retry the listing.")]
  end.
Definition escalateBatchToHuman (call : Call) (batchId reason : str) : Tx (option EscalatedToHuman * list Notice) :=
  found ← reads (λ t, findBatch t batchId);
  match found with
  | None => mret (None, [])
  | Some batch =>
      escalated ← handWaitingQuestionsToHuman call batch reason;
      mret (escalated, match escalated with None => [] | Some e => Raised (ea_escalationId e) :: handover_notices batch reason e end)
  end.
Definition journalMissingEarlierDecision (batchId questionId : str) : Tx (list Notice) :=
  found ← reads (λ t, findBatch t batchId);
  mret match found with
       | None => []
       | Some batch => [Journal (batch_managerId batch) [batch_ticket batch ++ js " " ++ questionId
                          ++ js " reopens an arbiter decision that is no longer stored: the arbiter reviews it without the earlier decision"]]
       end.
Definition pendingEscalation (id : str) : Tx StoredEscalation :=
  found ← reads (λ t, findEscalation t id);
  match found with
  | None => refuse EscalationNotFound
  | Some escalation => if bool_decide (esc_status escalation = EscAnswered) then refuse AlreadyResolved else mret escalation
  end.
Definition retryHandover (call : Call) (id : str) : Tx (EscalationView * list Notice) :=
  escalation ← pendingEscalation id;
  match handoverRefusal escalation with
  | None => refuse InvalidBody
  | Some _ =>
      _ ← ensureItemInQuestionsForHuman call (esc_managerId escalation) escalation;
      _ ← setHandoverRefusal id None;
      view ← viewOf id;
      mret (view, [Raised id; Journal (esc_managerId escalation) [esc_ticket escalation ++ js " escalation listed in questions_for_human after a human retried the hand-over"]])
  end.

(** ** The answer of the human *)
(** One answer per question id; the escalation carries every question that is answered. *)
Definition matchesTheQuestions (pendingQuestions : list StoredQuestion) (answers : list (str * str)) : bool :=
  let expectedIds := q_questionId <$> pendingQuestions in
  let answeredIds := answers.*1 in
  forallb (λ id, mem_str id expectedIds) answeredIds && bool_decide (NoDup answeredIds) && forallb (λ id, mem_str id answeredIds) expectedIds.
Definition answer_question (call : Call) (pendingQuestions : list StoredQuestion) (a : str * str) : Tx unit :=
  each (λ q, transitionQuestion (q_batchId q) a.1 PendingHuman Answered (Some (humanReadableText a.2)) (Some (now call)) ≫= λ _, mret ()) (filter (λ q, q_questionId q = a.1) pendingQuestions).
Definition answer (call : Call) (id : str) (answers : list (str * str)) : Tx (EscalationView * list Notice) :=
  _ ← pendingEscalation id;
  pendingQuestions ← reads (λ t, filter (λ q, q_status q = PendingHuman) (questionsOfEscalation t id));
  if negb (matchesTheQuestions pendingQuestions answers) then refuse InvalidBody
  else
    _ ← each (answer_question call pendingQuestions) answers;
    _ ← answerEscalationIfPending id (now call);
    resolved ← viewOf id;
    _ ← removeItemWithoutFailingTheAnswer call (ev_managerId resolved) id;
    mret (resolved, [Resolved id]).

(** ** The approval of the criteria *)
Definition auditedRevisionOf (ds : list ArbiterDecision) (batch : StoredBatch) : Z := fold_left (λ latest d, Z.max latest (dec_planNoteRev d)) ds (planNoteRev batch).
Definition isFavourableOn (noteId : str) (b : StoredBatch) : bool := str_eqb (planNoteId b) noteId && bool_decide (fst <$> criteriaOpinion b = Some Favourable).
Definition favourableBatchOnCurrentRevision (t : tables) (managerId ticket noteId : str) (currentRev : option Z) : EscalationError + StoredBatch :=
  let bs := batchesOfTicket t managerId ticket in
  let qs := concat ((λ b, questionsOfBatch t (batch_id b)) <$> bs) in
  if Nat.eqb (length bs) 0 then inl EscalationNotFound
  else if existsb (λ q, bool_decide (q_status q = PendingHuman)) qs then inl EscalationOpen
  else if existsb (λ q, bool_decide (q_status q = Open)) qs then inl CriteriaStale
  else
    let favourableBatches := filter (λ b, isFavourableOn noteId b = true) bs in
    if Nat.eqb (length favourableBatches) 0 then inl CriteriaStale
    else
      match list.last (filter (λ b, Some (auditedRevisionOf (decisionsOfBatch t (batch_id b)) b) = currentRev) favourableBatches) with
      | None => inl CriteriaStale
      | Some latest => inr latest
      end.

(** ** What happens to the tables *)
(** The calls of the tools and routes, the runs of the arbiter runner and the manager who writes its own list. *)
Inductive EscalationEvent :=
  | Submitted (call : Call) (b : PlanQuestionBatch)
  | Reported (call : Call) (managerId arbiterSessionId : str) (opinion : ArbiterOpinion)
  | HandedOver (call : Call) (batchId reason : str)
  | Retried (call : Call) (id : str)
  | HumanAnswered (call : Call) (id : str) (answers : list (str * str))
  | RunStarted (batchId : str)
  | ListWritten (call : Call) (managerId : str) (items : list str).
Definition take_event (t : tables) (e : EscalationEvent) : tables :=
  match e with
  | Submitted call b => after (submitBatch call b) t
  | Reported call managerId arbiterSessionId opinion => after (recordArbiterOpinion call managerId arbiterSessionId opinion) t
  | HandedOver call batchId reason => after (escalateBatchToHuman call batchId reason) t
  | Retried call id => after (retryHandover call id) t
  | HumanAnswered call id answers => after (answer call id answers) t
  | RunStarted batchId => after (addArbiterRun batchId) t
  | ListWritten call managerId items => after (update call managerId items) t
  end.
Definition no_tables : tables := mkTables [] [] [] [] [].
Definition tables_after (events : list EscalationEvent) : tables := fold_left take_event events no_tables.
End Service.
