(* ===== verification/EscalationFacts.v ===== *)
(** * The escalation ladder stays in step

    Facts about [Escalation]: whatever the managers submit, the arbiters report and the humans answer, in any order and with any
    refusal in between, the tables stay well formed ([wf]): the questions that wait for a human hang on the one pending escalation of
    their ticket, the decisions are those of settled arbiter questions and no decision is contested twice. *)
From S2P Require Import Prelude Transaction JsText Regex Sorting MessageEnvelope PolicyTypes PolicyEvaluator SecretMasker TriggerActions FloorClasses Escalation.

(** ** Keys and rows *)
Definition key (q : StoredQuestion) : str * str := (q_batchId q, q_questionId q).
Definition dkey (d : ArbiterDecision) : str * str := (dec_batchId d, dec_questionId d).
(** What never changes of a batch, and what the ladder reads of an escalation. *)
Definition bcore (b : StoredBatch) : str * str * str := (batch_id b, batch_managerId b, batch_ticket b).
Record core := mkCore { c_id : str; c_manager : str; c_ticket : str; c_status : EscalationStatus }.
Definition core_of (e : StoredEscalation) : core := mkCore (esc_id e) (esc_managerId e) (esc_ticket e) (esc_status e).
Definition bcores (t : tables) : list (str * str * str) := bcore <$> batches t.
Definition cores (t : tables) : list core := core_of <$> escalations t.

Lemma is_question_key b i q : is_question b i q = true ↔ key q = (b, i).
Proof. unfold is_question, key. rewrite andb_true_iff, !str_eqb_eq. naive_solver. Qed.
Lemma filter_true {A} (P : A → Prop) `{∀ x, Decision (P x)} (l : list A) : (∀ x, x ∈ l → P x) → filter P l = l.
Proof.
  induction l as [|x l IH]; intros Hl; [done|]. rewrite filter_cons. rewrite decide_True by (apply Hl, list_elem_of_here). f_equal. apply IH. intros y Hy. apply Hl. by right.
Qed.
Lemma filter_false {A} (P : A → Prop) `{∀ x, Decision (P x)} (l : list A) : (∀ x, x ∈ l → ¬ P x) → filter P l = [].
Proof.
  induction l as [|x l IH]; intros Hl; [done|]. rewrite filter_cons. rewrite decide_False by (apply Hl, list_elem_of_here). apply IH. intros y Hy. apply Hl. by right.
Qed.
Lemma find_elem {A} (f : A → bool) l x : find f l = Some x → x ∈ l ∧ f x = true.
Proof. intros H. apply find_some in H as [H1 H2]. by apply list_elem_of_In in H1. Qed.
Lemma find_is_None {A} (f : A → bool) l : find f l = None ↔ ∀ x, x ∈ l → f x = false.
Proof.
  split; [intros H x Hx; by apply (find_none _ _ H), list_elem_of_In|]. intros H.
  destruct (find f l) as [x|] eqn:E; [|done]. apply find_elem in E as [Hx Hf]. by rewrite (H _ Hx) in Hf.
Qed.
Lemma find_last {A} (f : A → bool) l x : find f l = None → f x = true → find f (l ++ [x]) = Some x.
Proof. induction l as [|a l IH]; cbn; [by intros _ ->|]. by destruct (f a). Qed.
Lemma findBatch_core t id b : findBatch t id = Some b → b ∈ batches t ∧ batch_id b = id ∧ (id, batch_managerId b, batch_ticket b) ∈ bcores t.
Proof.
  intros H. apply find_elem in H as [Hb Hid]. apply str_eqb_eq in Hid as <-. split_and!; try done.
  unfold bcores. apply list_elem_of_fmap. by exists b.
Qed.
Lemma unique_core t x m k m' k' : NoDup ((λ c : str * str * str, c.1.1) <$> bcores t) → (x, m, k) ∈ bcores t → (x, m', k') ∈ bcores t → (m', k') = (m, k).
Proof.
  intros Hnd H1 H2. apply list_elem_of_lookup in H1 as [i H1], H2 as [j H2].
  assert (i = j) as ->; [|naive_solver]. eapply NoDup_lookup; [done|..]; rewrite list_lookup_fmap; [by rewrite H1|by rewrite H2].
Qed.

(** ** What a row may become *)
Definition st_le (a b : QuestionStatus) : bool :=
  match a, b with Open, Open | Open, Decided | Open, PendingHuman | Open, Answered | PendingHuman, PendingHuman | PendingHuman, Answered | Decided, Decided | SelfResolved, SelfResolved | Answered, Answered => true | _, _ => false end.
Definition is_settled (s : QuestionStatus) : bool := match s with Decided | SelfResolved | Answered => true | _ => false end.
(** A row keeps what the manager wrote and its route, its status goes forward and a settled row never changes. *)
Record row_adv (q q' : StoredQuestion) : Prop := mkRowAdv
  { ra_key : key q' = key q; ra_text : q_text q' = q_text q; ra_route : q_route q' = q_route q; ra_reopens : q_reopens q' = q_reopens q; ra_resolution : q_resolution q' = q_resolution q;
    ra_status : st_le (q_status q) (q_status q') = true; ra_esc : escalationId q = None ∨ escalationId q' = escalationId q; ra_settled : is_settled (q_status q) = true → q' = q }.
#[export] Instance row_adv_preorder : PreOrder row_adv.
Proof.
  split.
  - intros q. split; try done; [by destruct (q_status q)|by right].
  - intros a b c [k1 x1 r1 o1 s1 l1 e1 f1] [k2 x2 r2 o2 s2 l2 e2 f2]. split; try congruence.
    + clear -l1 l2. by destruct (q_status a), (q_status b), (q_status c).
    + destruct e1 as [?|e1]; [by left|]. rewrite <- e1. destruct e2 as [?|e2]; [left; congruence|by right].
    + intros Ha. rewrite (f1 Ha) in *. auto.
Qed.
(** The rows of a table move forward, rows and decisions are only added. *)
Record adv (t t' : tables) : Prop := mkAdv
  { adv_rows : ∃ rows new, questions t' = rows ++ new ∧ Forall2 row_adv (questions t) rows;
    adv_decisions : ∃ ds, decisions t' = decisions t ++ ds; adv_batches : ∃ bs, bcores t' = bcores t ++ bs }.
#[export] Instance adv_preorder : PreOrder adv.
Proof.
  split.
  - intros t. split; [exists (questions t), []|exists []|exists []]; rewrite ?app_nil_r; try done.
  - intros t1 t2 t3 [(r1&n1&H1&F1) [d1 D1] [b1 B1]] [(r2&n2&H2&F2) [d2 D2] [b2 B2]]. split.
    + rewrite H1 in F2. apply Forall2_app_inv_l in F2 as (l1&l2&G1&G2&->). exists l1, (l2 ++ n2). rewrite H2, app_assoc. split; [done|].
      clear -F1 G1. revert l1 G1. induction F1 as [|x y l l' Hxy _ IH]; intros l1 G1; [by inversion G1|].
      inversion G1; subst. constructor; [by etrans|auto].
    + exists (d1 ++ d2). by rewrite D2, D1, app_assoc.
    + exists (b1 ++ b2). by rewrite B2, B1, app_assoc.
Qed.

(** ** Well-formed tables *)
Definition hangs (cs : list core) (m k : str) (s : EscalationStatus) (q : StoredQuestion) : Prop :=
  ∃ c, c ∈ cs ∧ escalationId q = Some (c_id c) ∧ c_manager c = m ∧ c_ticket c = k ∧ c_status c = s.
(** Where a question of the ticket [k] of the manager [m] stands. *)
Definition placed (cs : list core) (m k : str) (q : StoredQuestion) : Prop :=
  match q_status q with
  | Open | Decided => q_route q = ToArbiter ∧ escalationId q = None
  | SelfResolved => q_route q = ToSelf ∧ escalationId q = None ∧ is_Some (q_resolution q)
  | PendingHuman => q_route q ≠ ToSelf ∧ hangs cs m k EscPending q
  | Answered => q_route q ≠ ToSelf ∧ hangs cs m k EscAnswered q ∧ is_Some (humanAnswer q) ∧ is_Some (answeredAt q)
  end.
(** Within a transaction the questions of [W] are handed to the human and not attached yet. *)
Definition fine (W : list (str * str)) (cs : list core) (m k : str) (q : StoredQuestion) : Prop :=
  (key q ∈ W ∧ q_status q = PendingHuman ∧ escalationId q = None ∧ q_route q ≠ ToSelf) ∨ (key q ∉ W ∧ placed cs m k q).
Record wf (W : list (str * str)) (t : tables) : Prop := mkWf
  { wf_batches : NoDup ((λ c : str * str * str, c.1.1) <$> bcores t);
    wf_keys : NoDup (key <$> questions t);
    wf_ids : NoDup (c_id <$> cores t);
    wf_rows : ∀ q, q ∈ questions t → ∃ m k, (q_batchId q, m, k) ∈ bcores t ∧ fine W (cores t) m k q;
    wf_pending : ∀ c1 c2, c1 ∈ cores t → c2 ∈ cores t → c_status c1 = EscPending → c_status c2 = EscPending → c_manager c1 = c_manager c2 → c_ticket c1 = c_ticket c2 → c1 = c2;
    wf_carries : ∀ c, c ∈ cores t → ∃ q, q ∈ questions t ∧ escalationId q = Some (c_id c) }.
(** The decisions of the arbiter: one per question it settled or handed to the human. *)
Record dec_ok (qs : list StoredQuestion) (ds : list ArbiterDecision) : Prop := mkDecOk
  { dec_once : NoDup (dkey <$> ds);
    dec_of : ∀ d, d ∈ ds → ∃ q, q ∈ qs ∧ key q = dkey d ∧ q_route q = ToArbiter ∧ q_status q ≠ Open ∧ (q_status q = Decided ↔ handsToAHuman (dec_verdict d) (dec_raiseTo d) = false);
    dec_for : ∀ q, q ∈ qs → q_status q = Decided → ∃ d, d ∈ ds ∧ dkey d = key q }.
(** The contests: each decision once, on its own ticket, and a second round with the human. *)
Record reopen_ok (t : tables) : Prop := mkReopenOk
  { reopen_once : NoDup (omap q_reopens (questions t));
    reopen_of : ∀ q x, q ∈ questions t → q_reopens q = Some x →
      ∃ q0 m k, q0 ∈ questions t ∧ key q0 = x ∧ q_status q0 = Decided ∧ (is_Some (q_reopens q0) → q_route q = ToHuman) ∧ (q_batchId q, m, k) ∈ bcores t ∧ (q_batchId q0, m, k) ∈ bcores t }.
(** The check of the table on the ticket of a batch. *)
Definition tickets_ok (t : tables) : Prop := ∀ c, c ∈ bcores t → forallb (N.eqb (chr " ")) c.2 = false.
Definition lists_ok (t : tables) : Prop := ∀ m l, get (humanLists t) m = Some l → SectionSchema l = Some l.
Record good (t : tables) : Prop := mkGood { good_wf : wf [] t; good_dec : dec_ok (questions t) (decisions t); good_reopen : reopen_ok t; good_lists : lists_ok t; good_tickets : tickets_ok t }.

Lemma Forall2_elem_r {A B} (R : A → B → Prop) l l' y : Forall2 R l l' → y ∈ l' → ∃ x, x ∈ l ∧ R x y.
Proof. intros H Hy. apply list_elem_of_lookup in Hy as [i Hi]. destruct (Forall2_lookup_r _ _ _ _ _ H Hi) as (x&Hx&Hr). exists x. split; [by eapply list_elem_of_lookup_2|done]. Qed.
Lemma Forall2_elem_l {A B} (R : A → B → Prop) l l' x : Forall2 R l l' → x ∈ l → ∃ y, y ∈ l' ∧ R x y.
Proof. intros H Hx. apply list_elem_of_lookup in Hx as [i Hi]. destruct (Forall2_lookup_l _ _ _ _ _ H Hi) as (y&Hy&Hr). exists y. split; [by eapply list_elem_of_lookup_2|done]. Qed.
Lemma Forall2_map_r {A B} (R : A → B → Prop) (g : A → B) l : (∀ x, x ∈ l → R x (g x)) → Forall2 R l (g <$> l).
Proof. intros H. apply Forall2_fmap_r, Forall_Forall2_diag, list.Forall_forall. exact H. Qed.
Lemma Forall2_weaken {A B} (R R' : A → B → Prop) l l' : Forall2 R l l' → (∀ x y, R x y → R' x y) → Forall2 R' l l'.
Proof. intros H HR. induction H; constructor; auto. Qed.
Lemma rows_keys qs qs' : Forall2 row_adv qs qs' → key <$> qs' = key <$> qs.
Proof. induction 1 as [|q q' ?? H _ IH]; [done|]. cbn. by rewrite (ra_key _ _ H), IH. Qed.
Lemma rows_reopens qs qs' : Forall2 row_adv qs qs' → omap q_reopens qs' = omap q_reopens qs.
Proof. induction 1 as [|q q' ?? H _ IH]; [done|]. cbn. by rewrite (ra_reopens _ _ H), IH. Qed.
Lemma row_batch q q' : row_adv q q' → q_batchId q' = q_batchId q.
Proof. intros H. by pose proof (ra_key _ _ H) as [= ? ?]. Qed.

(** Rows move within the same batches. *)
Lemma wf_rows_move W W' t t' : wf W t → bcores t' = bcores t →
  Forall2 (λ q q', row_adv q q' ∧ ∀ m k, (q_batchId q, m, k) ∈ bcores t → fine W (cores t) m k q → fine W' (cores t') m k q') (questions t) (questions t') →
  NoDup (c_id <$> cores t') →
  (∀ c1 c2, c1 ∈ cores t' → c2 ∈ cores t' → c_status c1 = EscPending → c_status c2 = EscPending → c_manager c1 = c_manager c2 → c_ticket c1 = c_ticket c2 → c1 = c2) →
  (∀ c, c ∈ cores t' → ∃ q, q ∈ questions t' ∧ escalationId q = Some (c_id c)) → wf W' t'.
Proof.
  intros Hwf Hb Hq Hids Hp Hc. split; try done; try (rewrite Hb; apply Hwf).
  - rewrite (rows_keys (questions t)); [apply Hwf|]. eapply Forall2_weaken; [exact Hq|by intros ?? [? _]].
  - intros q' Hq'. destruct (Forall2_elem_r _ _ _ _ Hq Hq') as (q&Hin&Hadv&Hfine).
    destruct (wf_rows _ _ Hwf _ Hin) as (m&k&Hm&Hf). exists m, k. rewrite Hb, (row_batch _ _ Hadv). auto.
Qed.
Lemma carries_move t t' c : Forall2 row_adv (questions t) (questions t') →
  (∃ q, q ∈ questions t ∧ escalationId q = Some (c_id c)) → ∃ q, q ∈ questions t' ∧ escalationId q = Some (c_id c).
Proof.
  intros HF (q&Hq&He). destruct (Forall2_elem_l _ _ _ _ HF Hq) as (q'&Hq'&Ha). exists q'. split; [done|].
  destruct (ra_esc _ _ Ha); congruence.
Qed.
(** Rows move and the escalations stay. *)
Lemma wf_rows_step W W' t t' : wf W t → bcores t' = bcores t → cores t' = cores t →
  Forall2 (λ q q', row_adv q q' ∧ ∀ m k, fine W (cores t) m k q → fine W' (cores t) m k q') (questions t) (questions t') → wf W' t'.
Proof.
  intros Hwf Hb Hc Hq. apply (wf_rows_move W W' t t'); try done; try (rewrite Hc; apply Hwf).
  - eapply Forall2_weaken; [exact Hq|]. rewrite Hc. intros q q' [? Hx]. split; [done|]. intros m k _. apply Hx.
  - intros c. rewrite Hc. intros Hin. apply (carries_move t); [|by apply (wf_carries _ _ Hwf)]. eapply Forall2_weaken; [exact Hq|by intros ?? [? _]].
Qed.
Lemma wf_same W t t' : wf W t → bcores t' = bcores t → cores t' = cores t → questions t' = questions t → wf W t'.
Proof.
  intros Hwf Hb Hc Hq. destruct Hwf. by split; rewrite ?Hb, ?Hc, ?Hq.
Qed.
Lemma dec_move qs qs' ds : Forall2 row_adv qs qs' → (∀ q, q ∈ qs' → q_status q = Decided → ∃ q0, q0 ∈ qs ∧ key q0 = key q ∧ q_status q0 = Decided) → dec_ok qs ds → dec_ok qs' ds.
Proof.
  intros HF Hnew [Ho Hof Hfor]. split; [done|..].
  - intros d Hd. destruct (Hof _ Hd) as (q&Hq&Hk&Hr&Hs&Hi). destruct (Forall2_elem_l _ _ _ _ HF Hq) as (q'&Hq'&Ha). exists q'.
    rewrite (ra_key _ _ Ha), (ra_route _ _ Ha). pose proof (ra_status _ _ Ha) as Hst. pose proof (ra_settled _ _ Ha) as Hse.
    split_and!; try done.
    + destruct (q_status q), (q_status q'); naive_solver.
    + destruct (q_status q) eqn:E, (q_status q') eqn:E'; naive_solver.
  - intros q' Hq' Hd'. destruct (Hnew _ Hq' Hd') as (q&Hq&Hk&Hd). destruct (Hfor _ Hq Hd) as (d&Hdi&Hdk). exists d. by rewrite Hdk.
Qed.
Lemma reopen_move t t' : reopen_ok t → Forall2 row_adv (questions t) (questions t') → bcores t' = bcores t → reopen_ok t'.
Proof.
  intros [Ho Hof] HF Hb. split; [by rewrite (rows_reopens _ _ HF)|]. intros q' x Hq' Hx. destruct (Forall2_elem_r _ _ _ _ HF Hq') as (q&Hq&Ha).
  rewrite (ra_reopens _ _ Ha) in Hx. destruct (Hof _ _ Hq Hx) as (q0&m&k&Hq0&Hk&Hd&Hr&Hm&Hm0). destruct (Forall2_elem_l _ _ _ _ HF Hq0) as (q0'&Hq0'&Ha0).
  assert (q0' = q0) as -> by (apply (ra_settled _ _ Ha0); by rewrite Hd).
  exists q0, m, k. rewrite Hb, (ra_route _ _ Ha), (row_batch _ _ Ha). done.
Qed.

(** Calls that add no row and decide nothing. *)
Definition undecided (q q' : StoredQuestion) : Prop := row_adv q q' ∧ (q_status q' = Decided → q_status q = Decided).
Record moved (t t' : tables) : Prop := mkMoved
  { moved_rows : Forall2 undecided (questions t) (questions t'); moved_batches : bcores t' = bcores t; moved_decisions : decisions t' = decisions t; moved_lists : lists_ok t → lists_ok t' }.
Lemma moved_adv_rows t t' : moved t t' → Forall2 row_adv (questions t) (questions t').
Proof. intros [Hr _ _ _]. eapply Forall2_weaken; [exact Hr|by intros ?? [? _]]. Qed.
#[export] Instance moved_preorder : PreOrder moved.
Proof.
  split.
  - intros t. split; try done. induction (questions t); constructor; [by split|done].
  - intros t1 t2 t3 [r1 b1 d1 l1] [r2 b2 d2 l2]. split; [|congruence|congruence|auto].
    revert r2. generalize (questions t3). induction r1 as [|x y l l' [Hxy Hxy'] _ IH]; intros l3 r2; inversion r2 as [|? z ? ? [Hyz Hyz']]; subst; constructor; [split; [by etrans|auto]|auto].
Qed.
Lemma moved_keys t t' : moved t t' → key <$> questions t' = key <$> questions t.
Proof. intros Hm. by apply rows_keys, moved_adv_rows. Qed.
Lemma moved_dec t t' : moved t t' → dec_ok (questions t) (decisions t) → dec_ok (questions t') (decisions t').
Proof.
  intros Hm. rewrite (moved_decisions _ _ Hm). apply dec_move; [by apply moved_adv_rows|]. intros q' Hq' Hs. destruct (Forall2_elem_r _ _ _ _ (moved_rows _ _ Hm) Hq') as (q&Hq&Ha&Hd').
  exists q. split_and!; [done|by rewrite (ra_key _ _ Ha)|auto].
Qed.
Lemma moved_good t t' : moved t t' → wf [] t' → dec_ok (questions t) (decisions t) → reopen_ok t → lists_ok t → tickets_ok t → good t'.
Proof.
  intros Hm Hw Hd Hr Hl Ht. split; [done|by apply (moved_dec t)|by eapply reopen_move; [done|apply moved_adv_rows|apply moved_batches]|by eapply moved_lists|].
  unfold tickets_ok. by rewrite (moved_batches _ _ Hm).
Qed.

(** ** The statements that change one row *)
Definition rewritten (condition : StoredQuestion → bool) (f : StoredQuestion → StoredQuestion) (t : tables) : tables :=
  set_questions ((λ q, if condition q then f q else q) <$> questions t) t.
Lemma same_row qs q q' : NoDup (key <$> qs) → q ∈ qs → q' ∈ qs → key q = key q' → q = q'.
Proof.
  intros Hnd Hq Hq' Hk. apply list_elem_of_lookup in Hq as [i Hi], Hq' as [j Hj].
  assert (i = j) as ->; [|congruence]. eapply NoDup_lookup; [done|..]; rewrite list_lookup_fmap; [by rewrite Hi|rewrite Hj; cbn; by rewrite Hk].
Qed.
Lemma one_key x qs q : NoDup (key <$> qs) → q ∈ qs → key q = x → filter (λ q', key q' = x) qs = [q].
Proof.
  intros Hnd Hq Hk. apply list_elem_of_split in Hq as (l1&l2&->). rewrite fmap_app in Hnd. cbn in Hnd. apply list.NoDup_app in Hnd as (_&H1&H2).
  apply list.NoDup_cons in H2 as [H2 _]. rewrite list.filter_app, filter_cons_True by done.
  assert (∀ l, key q ∉ key <$> l → filter (λ q', key q' = x) l = []) as Hnil.
  { intros l Hl. induction l as [|a l IH]; [done|]. cbn in Hl. apply not_elem_of_cons in Hl as [Ha Hl].
    rewrite filter_cons_False by congruence. auto. }
  rewrite (Hnil l1), (Hnil l2); [done|done|]. intros Hin. by apply (H1 _ Hin), elem_of_cons; left.
Qed.
Lemma update_effect x condition f t t' r : NoDup (key <$> questions t) → (∀ q, condition q = true → key q = x) → update_question condition f t = inr (t', r) →
  t' = rewritten condition f t ∧ (if r then ∃ q, q ∈ questions t ∧ condition q = true else ∀ q, q ∈ questions t → condition q = false).
Proof.
  intros Hnd Hc H. unfold update_question in H. tx_inv. split; [done|].
  destruct (filter (λ q, condition q = true) (questions t)) as [|q l] eqn:E; cbn.
  - intros q Hq. destruct (condition q) eqn:Eq; [|done]. exfalso. assert (q ∈ filter (λ q, condition q = true) (questions t)) as Hin by (by apply list_elem_of_filter).
    rewrite E in Hin. by apply elem_of_nil in Hin.
  - assert (q ∈ filter (λ q, condition q = true) (questions t)) as Hin by (rewrite E; apply elem_of_cons; by left).
    apply list_elem_of_filter in Hin as [Hq Hin]. assert (l = []) as ->; [|cbn; by exists q].
    assert (q :: l `sublist_of` [q]) as Hs.
    { rewrite <- E, <- (one_key x (questions t) q); [|done..|by apply Hc]. clear -Hc. induction (questions t) as [|a qs IH]; [done|].
      rewrite !filter_cons. destruct (decide (condition a = true)) as [Ha|]; [rewrite decide_True by (by apply Hc); by constructor|].
      destruct (decide (key a = x)); [by constructor|done]. }
    apply sublist_length in Hs. destruct l; [done|cbn in Hs; lia].
Qed.
Lemma rewritten_same condition f t : (∀ q, q ∈ questions t → condition q = false) → rewritten condition f t = t.
Proof.
  intros H. destruct t as [b q e d h]. unfold rewritten, set_questions. cbn in *. f_equal. rewrite <- (list_fmap_id q) at 2.
  apply list_fmap_ext. intros i x Hx. cbn. rewrite H; [done|]. by eapply list_elem_of_lookup_2.
Qed.
Lemma rewritten_adv condition f t : (∀ q, q ∈ questions t → condition q = true → row_adv q (f q)) → Forall2 row_adv (questions t) (questions (rewritten condition f t)).
Proof. intros H. apply Forall2_map_r. intros q Hq. destruct (condition q) eqn:E; [auto|reflexivity]. Qed.
Lemma moved_adv t t' : moved t t' → adv t t'.
Proof.
  intros Hm. split; [exists (questions t'), []|exists []|exists []]; rewrite ?app_nil_r; [by split; [|apply moved_adv_rows]|by apply moved_decisions|by apply moved_batches].
Qed.
Lemma adv_of_rows t t' : Forall2 row_adv (questions t) (questions t') → decisions t' = decisions t → bcores t' = bcores t → adv t t'.
Proof. intros HF Hd Hb. split; [exists (questions t'), []|exists []|exists []]; by rewrite ?app_nil_r. Qed.

(** A question that is open is handed to the human. *)
Lemma deferred_adv c r q : q_status q = Open → row_adv q (deferred c r q).
Proof. intros H. split; cbn; rewrite ?H; auto; done. Qed.
Lemma decided_adv a at_ q : q_status q = Open → row_adv q (with_q_status Decided None a at_ q).
Proof. intros H. split; cbn; rewrite ?H; auto; done. Qed.
Lemma open_condition b i q : is_question b i q && bool_decide (q_status q = Open) = true ↔ key q = (b, i) ∧ q_status q = Open.
Proof. by rewrite andb_true_iff, is_question_key, bool_decide_eq_true. Qed.
Lemma fine_key_other W x cs m k q : key q ≠ x → fine W cs m k q → fine (x :: W) cs m k q.
Proof. unfold fine. rewrite elem_of_cons. naive_solver. Qed.
Lemma fine_open W cs m k q : q_status q = Open → fine W cs m k q → key q ∉ W ∧ q_route q = ToArbiter ∧ escalationId q = None.
Proof. intros Hs [(_&?&_)|[? Hp]]; [congruence|]. unfold placed in Hp. by rewrite Hs in Hp. Qed.
Lemma defer_wf W b i c reason t t' r : wf W t → deferOpenQuestionToHuman b i c reason t = inr (t', r) →
  t' = rewritten (λ q, is_question b i q && bool_decide (q_status q = Open)) (deferred c reason) t
  ∧ (r = false → t' = t) ∧ (r = true → wf ((b, i) :: W) t' ∧ (∃ q, q ∈ questions t ∧ key q = (b, i) ∧ q_status q = Open)).
Proof.
  intros Hwf H. eapply (update_effect (b, i)) in H as [-> H]; [|apply Hwf|by intros q [??]%open_condition].
  split; [done|]. split; [intros ->; by apply rewritten_same|]. intros ->. destruct H as (q0&Hq0&[Hk0 Ho0]%open_condition). split; [|by exists q0].
  apply (wf_rows_step W _ t); try done. apply Forall2_map_r. intros q Hq.
  destruct (is_question b i q && bool_decide (q_status q = Open)) eqn:E.
  - apply open_condition in E as [Hk Ho]. split; [by apply deferred_adv|]. intros m k (Hw&Hr&He)%(fine_open _ _ _ _ _ Ho). left.
    split_and!; try done; [apply elem_of_cons; by left|cbn; by rewrite Hr].
  - split; [reflexivity|]. intros m k Hf. apply fine_key_other; [|done]. intros Hk. assert (q = q0) as ->.
    { apply (same_row (questions t)); [apply Hwf|done..|congruence]. }
    apply not_true_iff_false in E. apply E, open_condition. done.
Qed.
Lemma decide_wf W b i t t' r : wf W t → transitionQuestion b i Open Decided None None t = inr (t', r) →
  t' = rewritten (λ q, is_question b i q && bool_decide (q_status q = Open)) (with_q_status Decided None None None) t
  ∧ (r = false → t' = t) ∧ (r = true → wf W t' ∧ (∃ q, q ∈ questions t ∧ key q = (b, i) ∧ q_status q = Open)).
Proof.
  intros Hwf H. eapply (update_effect (b, i)) in H as [-> H]; [|apply Hwf|by intros q [??]%open_condition].
  split; [done|]. split; [intros ->; by apply rewritten_same|]. intros ->. destruct H as (q0&Hq0&[Hk0 Ho0]%open_condition). split; [|by exists q0].
  apply (wf_rows_step W _ t); try done. apply Forall2_map_r. intros q Hq.
  destruct (is_question b i q && bool_decide (q_status q = Open)) eqn:E; [|by split].
  apply open_condition in E as [Hk Ho]. split; [by apply decided_adv|]. intros m k (Hw&Hr&He)%(fine_open _ _ _ _ _ Ho). right. split; [done|]. by unfold placed.
Qed.

(** ** The escalations *)
Lemma cores_update id f t : (∀ e, core_of (f e) = core_of e) → cores (update_escalation id f t) = cores t.
Proof.
  intros H. unfold cores, update_escalation. cbn. rewrite <- list_fmap_compose. apply list_fmap_ext. intros ? e _. cbn. by destruct (_ && _).
Qed.
Lemma findPending_Some t m k e : findPendingEscalation t m k = Some e → core_of e ∈ cores t ∧ esc_managerId e = m ∧ esc_ticket e = k ∧ esc_status e = EscPending ∧ e ∈ escalations t.
Proof.
  intros H. apply find_elem in H as [He Hp]. unfold is_pending_of in Hp. rewrite !andb_true_iff, !str_eqb_eq, bool_decide_eq_true in Hp.
  destruct Hp as [[? ?] ?]. split_and!; try done. apply list_elem_of_fmap. by exists e.
Qed.
Lemma findPending_None t m k c : findPendingEscalation t m k = None → c ∈ cores t → c_manager c = m → c_ticket c = k → c_status c = EscPending → False.
Proof.
  intros H Hc Hm Hk Hs. apply list_elem_of_fmap in Hc as (e&->&He). unfold findPendingEscalation in H. rewrite find_is_None in H. specialize (H _ He). unfold is_pending_of in H.
  cbn in *. rewrite bool_decide_true in H by done. subst m k. by rewrite !str_eqb_refl in H.
Qed.
Lemma findEscalation_None t id : findEscalation t id = None ↔ id ∉ c_id <$> cores t.
Proof.
  unfold findEscalation. rewrite find_is_None, list_elem_of_fmap. split.
  - intros H (c&->&Hc). apply list_elem_of_fmap in Hc as (e&->&He). specialize (H _ He). apply str_eqb_neq in H. by apply H.
  - intros H e He. apply str_eqb_neq. intros <-. apply H. exists (core_of e). split; [done|]. apply list_elem_of_fmap. by exists e.
Qed.
Lemma findEscalation_Some t id e : findEscalation t id = Some e → e ∈ escalations t ∧ esc_id e = id ∧ core_of e ∈ cores t.
Proof. intros H. apply find_elem in H as [He Hi]. apply str_eqb_eq in Hi. split_and!; try done. apply list_elem_of_fmap. by exists e. Qed.
(** The row a call reads after it inserted it. *)
Lemma openEscalation_effect call m k t t' e : openEscalation call m k t = inr (t', e) →
  t' = set_escalations (escalations t ++ [e]) t ∧ e = mkEscalation (newEscalationId call) m k [] (now call) EscPending None None
  ∧ findEscalation t (newEscalationId call) = None ∧ findPendingEscalation t m k = None.
Proof.
  unfold openEscalation, insertEscalation. intros H. tx_inv. destruct (_ || _) eqn:E; tx_inv.
  apply orb_false_iff in E as [[E1 _]%orb_false_iff E2]. rewrite bool_decide_eq_false in E1, E2. rewrite <- eq_None_not_Some in E1, E2.
  match goal with H : (match ?x with _ => _ end) _ = _ |- _ => destruct x as [e'|] eqn:Ef end; tx_inv.
  assert (e' = mkEscalation (newEscalationId call) m k [] (now call) EscPending None None) as ->; [|done].
  unfold findEscalation in *. cbn in Ef. rewrite find_last in Ef; [by injection Ef|done|apply str_eqb_refl].
Qed.
Definition attach_condition (b : str) (ids : list str) (q : StoredQuestion) : bool := str_eqb (q_batchId q) b && mem_str (q_questionId q) ids.
Lemma attach_condition_spec b ids q : attach_condition b ids q = true ↔ key q ∈ pair b <$> ids.
Proof.
  unfold attach_condition, key. rewrite andb_true_iff, str_eqb_eq, mem_str_In, <- list_elem_of_In, list_elem_of_fmap. naive_solver.
Qed.
Lemma rewritten_rewritten c1 f c2 g t : rewritten c2 g (rewritten c1 f t) = set_questions ((λ q, let q' := if c1 q then f q else q in if c2 q' then g q' else q') <$> questions t) t.
Proof. unfold rewritten, set_questions. cbn. by rewrite <- list_fmap_compose. Qed.
Lemma attach_all b ids id t t' u : each (λ i, attachQuestionToEscalation b i id) ids t = inr (t', u) → t' = rewritten (attach_condition b ids) (attached id) t.
Proof.
  revert t t'. induction ids as [|i ids IH]; intros t t' H; cbn in H; tx_inv.
  - symmetry. apply rewritten_same. intros q _. unfold attach_condition. cbn. apply andb_false_r.
  - apply IH in H as ->. unfold attachQuestionToEscalation, update_question in *. tx_inv.
    change (set_questions _ t) with (rewritten (is_question b i) (attached id) t). rewrite rewritten_rewritten. unfold rewritten. f_equal.
    apply list_fmap_ext. intros ? q _. cbn. unfold attach_condition, is_question. cbn.
    destruct (str_eqb (q_batchId q) b) eqn:Eb, (str_eqb (q_questionId q) i) eqn:Ei; cbn; rewrite ?Eb; cbn; try done.
    by destruct (mem_str _ _).
Qed.

(** ** Calls that change no question and no status *)
Record calm (t t' : tables) : Prop := mkCalm
  { calm_batches : bcores t' = bcores t; calm_questions : questions t' = questions t; calm_cores : cores t' = cores t; calm_decisions : decisions t' = decisions t; calm_lists : lists_ok t → lists_ok t' }.
#[export] Instance calm_preorder : PreOrder calm.
Proof.
  split; [by intros t|]. intros a b c [b1 q1 e1 d1 l1] [b2 q2 e2 d2 l2]. split; [by rewrite b2|by rewrite q2|by rewrite e2|by rewrite d2|auto].
Qed.
Lemma calm_escalation id f t : (∀ e, core_of (f e) = core_of e) → calm t (update_escalation id f t).
Proof. intros H. split; try done. by apply cores_update. Qed.
Lemma calm_batch id f t : (∀ b, bcore (f b) = bcore b) → calm t (update_batch id f t).
Proof.
  intros H. split; try done. unfold bcores, update_batch. cbn. rewrite <- list_fmap_compose. apply list_fmap_ext. intros ? b _. cbn. by destruct (str_eqb _ _).
Qed.
Lemma drop_while_head f s : match drop_while f s with [] => True | c :: _ => f c = false end.
Proof. induction s as [|c s IH]; cbn; [done|]. by destruct (f c) eqn:E. Qed.
Lemma drop_while_clean f s : (match s with [] => True | c :: _ => f c = false end) → drop_while f s = s.
Proof. destruct s; cbn; [done|]. by intros ->. Qed.
Lemma drop_while_last f s d : f d = false → ∃ s', drop_while f (s ++ [d]) = s' ++ [d].
Proof. intros Hd. induction s as [|c s IH]; cbn; [rewrite Hd; by exists []|]. destruct (f c); [done|by exists (c :: s)]. Qed.
Lemma trim_trim s : trim (trim s) = trim s.
Proof.
  unfold trim. set (u := drop_while is_space s). set (v := drop_while is_space (reverse u)).
  assert (drop_while is_space (reverse v) = reverse v) as Hv.
  { destruct u as [|c u'] eqn:Eu; [by unfold v|]. assert (is_space c = false) as Hc.
    { pose proof (drop_while_head is_space s) as Hh. change (drop_while is_space s) with u in Hh. by rewrite Eu in Hh. }
    unfold v. rewrite reverse_cons. destruct (drop_while_last is_space (reverse u') c Hc) as [s' ->]. rewrite reverse_snoc. by apply drop_while_clean. }
  rewrite Hv, reverse_involutive. f_equal. apply drop_while_clean. apply drop_while_head.
Qed.
Lemma section_item_idem i i' : section_item i = Some i' → section_item i' = Some i'.
Proof. unfold section_item. destruct (_ && _) eqn:E; [|done]. intros [= <-]. rewrite trim_trim. by rewrite E. Qed.
Lemma SectionSchema_idem l l' : SectionSchema l = Some l' → SectionSchema l' = Some l'.
Proof.
  unfold SectionSchema. destruct (Nat.leb _ _) eqn:E; [|done]. intros H. pose proof (length_mapM _ _ _ H) as Hl. rewrite <- Hl, E.
  apply mapM_Some in H. apply mapM_Some. clear -H. induction H; constructor; eauto using section_item_idem.
Qed.
Lemma calm_update call m l t t' u : update call m l t = inr (t', u) → calm t t'.
Proof.
  unfold update. destruct (SectionSchema l) as [p|] eqn:E; [|done]. destruct (fits _ _ _); [|done]. intros H. tx_inv. split; try done.
  intros Hl m' l'. cbn. rewrite get_put. destruct (str_eqb m m'); [intros [= <-]; by eapply SectionSchema_idem|apply Hl].
Qed.
Lemma calm_ensure call m e t t' u : ensureItemInQuestionsForHuman call m e t = inr (t', u) → calm t t'.
Proof. unfold ensureItemInQuestionsForHuman. intros H. tx_inv. destruct (mem_str _ _); tx_inv; [done|]. destruct (Nat.leb _ _); tx_inv. by eapply calm_update. Qed.
Lemma calm_list call m e mark t t' r : listItemOrRefusal call m e mark t = inr (t', r) → calm t t'.
Proof.
  unfold listItemOrRefusal. destruct (ensureItemInQuestionsForHuman _ _ _ _) as [err|[t1 u]] eqn:E.
  - destruct err, mark; try done. intros H. unfold setHandoverRefusal in H. tx_inv. by apply calm_escalation.
  - intros [= <- _]. by eapply calm_ensure.
Qed.
Lemma calm_remove call m id t t' u : removeItemWithoutFailingTheAnswer call m id t = inr (t', u) → calm t t'.
Proof.
  unfold removeItemWithoutFailingTheAnswer. destruct (removeItemFromQuestionsForHuman _ _ _ _) as [e|[t1 u1]] eqn:E; intros [= <- <-]; [done|].
  unfold removeItemFromQuestionsForHuman in E. tx_inv. destruct (get _ _) as [l|]; tx_inv; [|done]. destruct (Nat.eqb _ _); tx_inv; [done|]. by eapply calm_update.
Qed.
Lemma calm_wf W t t' : calm t t' → wf W t → wf W t'.
Proof. intros [b q e d l] H. by eapply wf_same. Qed.
Lemma calm_good t t' : calm t t' → good t → good t'.
Proof.
  intros Hc [Hw Hd Hr Hl Ht]. split; [by eapply calm_wf|by rewrite (calm_questions _ _ Hc), (calm_decisions _ _ Hc)| |by eapply calm_lists|unfold tickets_ok; by rewrite (calm_batches _ _ Hc)].
  destruct Hr as [Ho Hof]. split; rewrite (calm_questions _ _ Hc); [done|]. by rewrite (calm_batches _ _ Hc).
Qed.
Lemma calm_adv t t' : calm t t' → adv t t'.
Proof. intros [b q e d l]. apply adv_of_rows; [by rewrite q|done..]. Qed.

(** ** Joining the escalation of a ticket *)
(** The escalation [c] that takes the questions: the pending one of the ticket, or a new one. *)
Definition joins (m k : str) (cs cs' : list core) (c : core) : Prop :=
  c ∈ cs' ∧ c_manager c = m ∧ c_ticket c = k ∧ c_status c = EscPending
  ∧ (cs' = cs ∨ cs' = cs ++ [c] ∧ c_id c ∉ c_id <$> cs ∧ ∀ c0, c0 ∈ cs → c_manager c0 = m → c_ticket c0 = k → c_status c0 = EscPending → False).
Lemma join_effect call b m k ids mark t t' j : joinEscalation call b m k ids mark t = inr (t', j) →
  ∃ c, joins m k (cores t) (cores t') c ∧ ea_escalationId j = c_id c ∧ ea_questionIds j = ids ∧ bcores t' = bcores t ∧ decisions t' = decisions t ∧ (lists_ok t → lists_ok t')
    ∧ questions t' = questions (rewritten (attach_condition b ids) (attached (c_id c)) t).
Proof.
  unfold joinEscalation. intros H. apply bind_inr in H as (t1&o&[-> ->]%reads_inr&H). apply bind_inr in H as (t1&e&Hopen&H).
  apply bind_inr in H as (t2&u&->%attach_all&H). apply bind_inr in H as (t3&qs&[-> ->]%reads_inr&H). apply bind_inr in H as (t3&u'&Hb&H).
  apply bind_inr in H as (t4&r&Hlist&H). apply bind_inr in H as (t5&u''&Hclear&H). apply ret_inr in H as [-> ->].
  set (t2 := rewritten _ _ t1) in *.
  assert (calm t2 t5) as Hcalm.
  { etrans; [|etrans; [by eapply calm_list|]].
    - unfold updateEscalationBody in Hb. apply writes_inr in Hb as ->. by apply calm_escalation.
    - destruct (_ && _); [|by apply ret_inr in Hclear as [-> _]]. apply writes_inr in Hclear as ->. by apply calm_escalation. }
  destruct Hcalm as [cb cq ce cd cl]. exists (core_of e). change (cores t2) with (cores t1) in ce. change (bcores t2) with (bcores t1) in cb. change (decisions t2) with (decisions t1) in cd.
  destruct (findPendingEscalation t m k) as [e0|] eqn:Ef.
  - apply ret_inr in Hopen as [-> ->]. apply findPending_Some in Ef as (?&?&?&?&?). split_and!; try done. unfold joins. rewrite ce. split_and!; try done. by left.
  - apply openEscalation_effect in Hopen as (->&He&Hf&_). assert (cores (set_escalations (escalations t ++ [e]) t) = cores t ++ [core_of e]) as Hce by (unfold cores; cbn; by rewrite fmap_app).
    split_and!; try done. unfold joins. rewrite ce, Hce. split; [apply elem_of_app; right; by apply list_elem_of_singleton|].
    split; [by rewrite He|]. split; [by rewrite He|]. split; [by rewrite He|]. right. split; [done|]. split; [rewrite He; by apply findEscalation_None|].
    intros c0. by apply findPending_None.
Qed.
Lemma attached_adv id q : q_status q = PendingHuman → escalationId q = None → row_adv q (attached id q).
Proof. intros H He. split; cbn; rewrite ?H; auto; done. Qed.
Lemma attach_rows b ids id W t : wf W t → W = pair b <$> ids → Forall2 row_adv (questions t) (questions (rewritten (attach_condition b ids) (attached id) t)).
Proof.
  intros Hwf ->. apply rewritten_adv. intros q Hq Hc. apply attach_condition_spec in Hc.
  destruct (wf_rows _ _ Hwf _ Hq) as (m&k&_&[(_&?&?&_)|[? _]]); [by apply attached_adv|done].
Qed.
Lemma joins_elem m k cs cs' c x : joins m k cs cs' c → x ∈ cs' → x ∈ cs ∨ x = c.
Proof. intros (_&_&_&_&[->|(->&_)]) Hx; [by left|]. apply elem_of_app in Hx as [?|?%list_elem_of_singleton]; auto. Qed.
Lemma joins_weak m k cs cs' c x : joins m k cs cs' c → x ∈ cs → x ∈ cs'.
Proof. intros (_&_&_&_&[->|(->&_)]) Hx; [done|]. apply elem_of_app. by left. Qed.
Lemma hangs_weak m0 k0 cs cs' c m k s q : joins m0 k0 cs cs' c → hangs cs m k s q → hangs cs' m k s q.
Proof. intros Hj (x&Hx&?). exists x. split; [by eapply joins_weak|done]. Qed.
Lemma join_fine b ids m k W t cs' c q m' k' : wf W t → W = pair b <$> ids → (b, m, k) ∈ bcores t → joins m k (cores t) cs' c → (q_batchId q, m', k') ∈ bcores t → fine W (cores t) m' k' q →
  fine [] cs' m' k' (if attach_condition b ids q then attached (c_id c) q else q).
Proof.
  intros Hwf -> Hb Hj Hq Hf. right. split; [apply not_elem_of_nil|]. destruct (attach_condition b ids q) eqn:E.
  - apply attach_condition_spec in E as Hin. destruct Hf as [(_&Hs&He&Hr)|[? _]]; [|done]. unfold placed. cbn. rewrite Hs. split; [done|].
    apply list_elem_of_fmap in Hin as (i&Hi&_). injection Hi as Hbq _. rewrite Hbq in Hq. pose proof (unique_core _ _ _ _ _ _ (wf_batches _ _ Hwf) Hb Hq) as [= -> ->].
    destruct Hj as (?&?&?&?&_). by exists c.
  - apply not_true_iff_false in E. rewrite attach_condition_spec in E. destruct Hf as [(?&_)|[_ Hp]]; [done|]. unfold placed in *.
    destruct (q_status q); try done; [destruct Hp as [? Hp]|destruct Hp as (?&Hp&?&?)]; eauto using hangs_weak.
Qed.
Lemma joins_pending W m k t cs' c : wf W t → joins m k (cores t) cs' c →
  NoDup (c_id <$> cs') ∧ (∀ c1 c2, c1 ∈ cs' → c2 ∈ cs' → c_status c1 = EscPending → c_status c2 = EscPending → c_manager c1 = c_manager c2 → c_ticket c1 = c_ticket c2 → c1 = c2).
Proof.
  intros Hwf Hj. pose proof Hj as (_&Hm&Hk&_&[->|(->&Hid&Hno)]); [split; apply Hwf|]. split.
  - rewrite fmap_app. apply list.NoDup_app. split_and!; [apply Hwf| |apply NoDup_singleton]. intros x Hx Hx'. cbn in Hx'. apply list_elem_of_singleton in Hx' as ->. done.
  - intros c1 c2 H1 H2 S1 S2 Em Ek. apply (joins_elem _ _ _ _ _ _ Hj) in H1 as [H1|H1], H2 as [H2|H2]; [by apply (wf_pending _ _ Hwf)| | |congruence]; exfalso; subst.
    + by eapply (Hno c1).
    + by eapply (Hno c2).
Qed.
Lemma join_wf call b m k ids mark W t t' j : wf W t → W = pair b <$> ids → (b, m, k) ∈ bcores t → (∃ q, q ∈ questions t ∧ key q ∈ W) →
  joinEscalation call b m k ids mark t = inr (t', j) →
  wf [] t' ∧ moved t t'.
Proof.
  intros Hwf HW Hb (q0&Hq0&Hk0) H. apply join_effect in H as (c&Hj&_&_&Hbs&Hds&Hl&Hqs). pose proof (attach_rows b ids (c_id c) W t Hwf HW) as Hadv. rewrite <- Hqs in Hadv.
  destruct (joins_pending _ _ _ _ _ _ Hwf Hj) as [Hnd Hpend].
  assert (∀ q, q ∈ questions t → undecided q (if attach_condition b ids q then attached (c_id c) q else q)) as Hund.
  { intros q Hq. destruct (attach_condition b ids q) eqn:E; [|by split]. apply attach_condition_spec in E. rewrite <- HW in E.
    destruct (wf_rows _ _ Hwf _ Hq) as (m1&k1&_&[(_&?&?&_)|[? _]]); [|done]. split; [by apply attached_adv|done]. }
  split; [|split; try done; rewrite Hqs; by apply Forall2_map_r].
  apply (wf_rows_move W [] t t'); try done.
  - rewrite Hqs. apply Forall2_map_r. intros q Hq. split; [by apply Hund|]. intros m' k' Hm' Hf. by eapply join_fine.
  - intros x Hx. apply (joins_elem _ _ _ _ _ _ Hj) in Hx as [Hx| ->]; [by apply (carries_move t), (wf_carries _ _ Hwf)|].
    exists (attached (c_id c) q0). split; [|done]. rewrite Hqs. unfold rewritten. cbn. apply list_elem_of_fmap. exists q0. split; [|done].
    rewrite HW in Hk0. by rewrite (proj2 (attach_condition_spec b ids q0) Hk0).
Qed.
Lemma wf_waiting W W' t : (∀ x, x ∈ W ↔ x ∈ W') → wf W t → wf W' t.
Proof.
  intros HW Hwf. destruct Hwf as [Hb Hk Hi Hr Hp Hc]. split; try done. intros q Hq. destruct (Hr _ Hq) as (m&k&Hm&Hf). exists m, k. split; [done|]. unfold fine in *. by rewrite <- HW.
Qed.

(** ** The hand-over *)
Lemma defer_moved W b i c reason t t' r : wf W t → deferOpenQuestionToHuman b i c reason t = inr (t', r) → moved t t'.
Proof.
  intros Hwf H. apply (defer_wf W) in H as (->&_&_); [|done]. split; try done. apply Forall2_map_r. intros q Hq. destruct (_ && _) eqn:E; [|by split].
  apply open_condition in E as [_ Ho]. split; [by apply deferred_adv|done].
Qed.
Lemma defer_after W b i c reason t t' r : wf W t → deferOpenQuestionToHuman b i c reason t = inr (t', r) → ∀ q, q ∈ questions t' → key q = (b, i) → q_status q ≠ Open.
Proof.
  intros Hwf H q Hq Hk. apply (defer_wf W) in H as (->&_&_); [|done]. apply list_elem_of_fmap in Hq as (q0&->&Hq0). destruct (_ && _) eqn:E; [done|].
  apply not_true_iff_false in E. rewrite open_condition in E. naive_solver.
Qed.
Lemma moved_not_open t t' x : moved t t' → (∀ q, q ∈ questions t → key q = x → q_status q ≠ Open) → ∀ q, q ∈ questions t' → key q = x → q_status q ≠ Open.
Proof.
  intros Hm H q' Hq' Hk'. destruct (Forall2_elem_r _ _ _ _ (moved_rows _ _ Hm) Hq') as (q&Hq&Ha&_). rewrite (ra_key _ _ Ha) in Hk'. specialize (H _ Hq Hk').
  pose proof (ra_status _ _ Ha) as Hs. by destruct (q_status q), (q_status q').
Qed.
Lemma defer_all b reason W qs t t' handed : wf W t → filterTx (λ q, deferOpenQuestionToHuman b (q_questionId q) (effectiveClasses q) reason) qs t = inr (t', handed) →
  moved t t' ∧ (∀ x, x ∈ qs → ∀ q, q ∈ questions t' → key q = (b, q_questionId x) → q_status q ≠ Open) ∧
  (∀ h, h ∈ handed → (b, q_questionId h) ∈ key <$> questions t) ∧
  ∃ W', wf W' t' ∧ (∀ x, x ∈ W' ↔ x ∈ W ∨ x ∈ pair b <$> (q_questionId <$> handed)).
Proof.
  revert W t t' handed. induction qs as [|q qs IH]; intros W t t' handed Hwf H; cbn in H; tx_inv.
  - split_and!; [done|by intros x ?%elem_of_nil|by intros x ?%elem_of_nil|]. exists W. split; [done|]. intros x. cbn. rewrite elem_of_nil. tauto.
  - match goal with H1 : deferOpenQuestionToHuman _ _ _ _ t = inr (?s, ?r) |- _ => rename H1 into Hd; rename s into t1; rename r into isKept end.
    match goal with H1 : filterTx _ _ t1 = inr (?s, ?k) |- _ => rename H1 into Hrest; rename s into t2; rename k into kept end.
    pose proof (defer_moved _ _ _ _ _ _ _ _ Hwf Hd) as Hm1. pose proof (defer_after _ _ _ _ _ _ _ _ Hwf Hd) as Ha. pose proof (defer_wf _ _ _ _ _ _ _ _ Hwf Hd) as (_&Hf&Ht).
    assert (wf (if isKept then (b, q_questionId q) :: W else W) t1) as Hwf1 by (destruct isKept; [by apply Ht|by rewrite Hf]).
    destruct (IH _ _ _ _ Hwf1 Hrest) as (Hm2&Hn&Hh&W'&HW'&Hin). split_and!; [by etrans| | |].
    + intros x [->|Hx]%elem_of_cons; [by eapply moved_not_open|by apply Hn].
    + rewrite (moved_keys _ _ Hm1) in Hh. destruct isKept; [|done]. intros h [->|?]%elem_of_cons; [|by apply Hh].
      destruct Ht as (_&q0&Hq0&Hk0&_); [done|]. apply list_elem_of_fmap. by exists q0.
    + exists W'. split; [done|]. intros x. rewrite Hin. destruct isKept; [|done]. cbn. rewrite !elem_of_cons. tauto.
Qed.
Lemma handOver_effect call b reason t t' r : wf [] t → (batch_id b, batch_managerId b, batch_ticket b) ∈ bcores t → handWaitingQuestionsToHuman call b reason t = inr (t', r) → wf [] t' ∧ moved t t'.
Proof.
  intros Hwf Hb H. unfold handWaitingQuestionsToHuman in H. apply bind_inr in H as (t0&qs&[-> ->]%reads_inr&H). apply bind_inr in H as (t1&handed&Hd&H).
  apply (defer_all _ _ []) in Hd as (Hm&_&Hh&W'&HW'&Hin); [|done]. setoid_rewrite elem_of_nil in Hin.
  destruct handed as [|h handed]; cbn [length Nat.eqb] in H.
  - apply ret_inr in H as [-> ->]. split; [|done]. eapply wf_waiting; [|exact HW']. intros x. rewrite Hin. cbn. rewrite elem_of_nil. tauto.
  - apply bind_inr in H as (t2&j&Hj&H). apply ret_inr in H as [-> ->].
    apply (wf_waiting _ (pair (batch_id b) <$> (q_questionId <$> h :: handed))) in HW'; [|intros x; rewrite Hin; tauto].
    eapply join_wf in Hj as [? Hm2]; [split; [done|by etrans]|done|done|by rewrite (moved_batches _ _ Hm)|].
    rewrite <- (moved_keys _ _ Hm) in Hh. destruct (proj1 (list_elem_of_fmap _ _ _) (Hh h (list_elem_of_here _ _))) as (q0&Hk0&Hq0).
    exists q0. split; [done|]. rewrite <- Hk0. cbn. apply elem_of_cons. by left.
Qed.

(** ** The answer of the human *)
Definition answered_by (text : str) (at_ : Z) (q : StoredQuestion) : StoredQuestion := with_q_status Answered None (Some text) (Some at_) q.
Definition pending_in (keys : list (str * str)) (q : StoredQuestion) : bool := bool_decide (q_status q = PendingHuman) && bool_decide (key q ∈ keys).
Lemma pending_in_spec keys q : pending_in keys q = true ↔ q_status q = PendingHuman ∧ key q ∈ keys.
Proof. unfold pending_in. by rewrite andb_true_iff, !bool_decide_eq_true. Qed.
Lemma answer_each text at_ i qs t t' u :
  each (λ q, transitionQuestion (q_batchId q) i PendingHuman Answered (Some text) (Some at_) ≫= λ _, mret ()) qs t = inr (t', u) →
  t' = rewritten (pending_in ((λ q, (q_batchId q, i)) <$> qs)) (answered_by text at_) t.
Proof.
  revert t t'. induction qs as [|p qs IH]; intros t t' H; cbn in H; tx_inv.
  - symmetry. apply rewritten_same. intros q _. apply not_true_iff_false. rewrite pending_in_spec. intros [_ []%elem_of_nil].
  - apply IH in H as ->. unfold transitionQuestion, update_question in *. tx_inv.
    match goal with |- rewritten _ _ (set_questions _ t) = _ => change (set_questions _ t) with (rewritten (λ q, is_question (q_batchId p) i q && bool_decide (q_status q = PendingHuman)) (answered_by text at_) t) end.
    rewrite rewritten_rewritten. unfold rewritten. f_equal. apply list_fmap_ext. intros ? q _. cbn.
    destruct (pending_in ((q_batchId p, i) :: _) q) eqn:E1; [apply pending_in_spec in E1 as [Hs Hk]|apply not_true_iff_false in E1; rewrite pending_in_spec in E1];
      (destruct (is_question _ _ _ && _) eqn:E2; [apply andb_true_iff in E2 as [E2%is_question_key E3%bool_decide_eq_true]|apply not_true_iff_false in E2; rewrite andb_true_iff, is_question_key, bool_decide_eq_true in E2]).
    + by destruct (pending_in _ _) eqn:E; [apply pending_in_spec in E as [? _]|].
    + rewrite (proj2 (pending_in_spec _ _)); [done|]. split; [done|]. apply elem_of_cons in Hk as [?|?]; [naive_solver|done].
    + exfalso. apply E1. split; [done|]. rewrite E2. apply elem_of_cons. by left.
    + destruct (pending_in _ _) eqn:E; [|done]. apply pending_in_spec in E as [??]. exfalso. apply E1. split; [done|]. apply elem_of_cons. by right.
Qed.
Lemma viewOf_same id t t' v : viewOf id t = inr (t', v) → t' = t.
Proof. unfold viewOf. intros H. apply bind_inr in H as (t1&o&[-> ->]%reads_inr&H). by destruct (findEscalation t id); tx_inv. Qed.
Definition core_answered (id : str) (c : core) : core := if str_eqb (c_id c) id && bool_decide (c_status c = EscPending) then mkCore (c_id c) (c_manager c) (c_ticket c) EscAnswered else c.
Definition waiting_in (t : tables) (id : str) : list StoredQuestion := filter (λ q, q_status q = PendingHuman) (questionsOfEscalation t id).
Lemma waiting_in_spec t id q : q ∈ waiting_in t id ↔ q ∈ questions t ∧ q_status q = PendingHuman ∧ escalationId q = Some id.
Proof. unfold waiting_in, questionsOfEscalation. rewrite !list_elem_of_filter, bool_decide_eq_true. naive_solver. Qed.
Lemma core_answered_id id c : c_id (core_answered id c) = c_id c.
Proof. unfold core_answered. by destruct (_ && _). Qed.
Lemma answered_cores id at_ t t' u : answerEscalationIfPending id at_ t = inr (t', u) → cores t' = core_answered id <$> cores t ∧ questions t' = questions t ∧ bcores t' = bcores t ∧ decisions t' = decisions t ∧ humanLists t' = humanLists t.
Proof.
  unfold answerEscalationIfPending. intros H. tx_inv. split_and!; try done. unfold cores, update_escalation. cbn. rewrite <- !list_fmap_compose. apply list_fmap_ext. intros ? e _. cbn.
  unfold core_answered. cbn. by destruct (_ && _).
Qed.
Section Answers.
Variable isFormat : N → bool.
Variable maskedSecrets : str → str.
Local Abbreviation readable := (humanReadableText isFormat maskedSecrets).
(** What a set of answers does to a question. *)
Definition row_answered (pend : list (str * str)) (answers : list (str * str)) (at_ : Z) (q : StoredQuestion) : StoredQuestion :=
  if pending_in pend q then match find (λ a, str_eqb a.1 (q_questionId q)) answers with Some a => answered_by (readable a.2) at_ q | None => q end else q.
Lemma answers_effect call P answers t t' u : each (answer_question isFormat maskedSecrets call P) answers t = inr (t', u) →
  t' = set_questions (row_answered (key <$> P) answers (now call) <$> questions t) t.
Proof.
  revert t t'. induction answers as [|a answers IH]; intros t t' H; cbn in H; tx_inv.
  - destruct t as [bs qs es ds hl]. unfold set_questions. cbn. f_equal. rewrite <- (list_fmap_id qs) at 1. apply list_fmap_ext. intros ? q _. unfold row_answered. cbn. by destruct (pending_in _ _).
  - apply IH in H as ->. unfold answer_question in *. match goal with H1 : each _ _ _ = inr _ |- _ => apply answer_each in H1 as -> end.
    unfold rewritten, set_questions. cbn. f_equal. rewrite <- list_fmap_compose. apply list_fmap_ext. intros ? q _. cbn.
    unfold row_answered. cbn [find]. destruct (pending_in ((λ p, (q_batchId p, a.1)) <$> _) q) eqn:E.
    + apply pending_in_spec in E as [Hs Hk]. apply list_elem_of_fmap in Hk as (p&Hk&[Hp1 Hp2]%list_elem_of_filter).
      assert (pending_in (key <$> P) q = true) as ->. { apply pending_in_spec. split; [done|]. apply list_elem_of_fmap. exists p. split; [|done]. rewrite Hk. unfold key. by rewrite Hp1. }
      injection Hk as _ Hi. rewrite Hi, str_eqb_refl. by destruct (pending_in _ (answered_by _ _ _)) eqn:E'; [apply pending_in_spec in E' as [? _]|].
    + destruct (pending_in (key <$> P) q) eqn:E'; [|done]. apply pending_in_spec in E' as [Hs Hk]. destruct (str_eqb a.1 (q_questionId q)) eqn:Ei; [|done].
      exfalso. apply str_eqb_eq in Ei. apply not_true_iff_false in E. apply E, pending_in_spec. split; [done|].
      apply list_elem_of_fmap in Hk as (p&Hkp&Hp). apply list_elem_of_fmap. exists p. injection Hkp as Hb Hi. split; [unfold key; congruence|]. apply list_elem_of_filter. split; congruence.
Qed.

Lemma answer_effect call id answers t t' r : answer isFormat maskedSecrets call id answers t = inr (t', r) →
  ∃ e, findEscalation t id = Some e ∧ esc_status e = EscPending ∧ matchesTheQuestions (waiting_in t id) answers = true
    ∧ questions t' = row_answered (key <$> waiting_in t id) answers (now call) <$> questions t ∧ cores t' = core_answered id <$> cores t
    ∧ bcores t' = bcores t ∧ decisions t' = decisions t ∧ (lists_ok t → lists_ok t').
Proof.
  unfold answer. intros H. apply bind_inr in H as (t0&e&Hp&H). unfold pendingEscalation in Hp. apply bind_inr in Hp as (t00&o&[-> ->]%reads_inr&Hp).
  destruct (findEscalation t id) as [e0|] eqn:Ef; [|done]. destruct (bool_decide (esc_status e0 = EscAnswered)) eqn:Es; [done|]. apply ret_inr in Hp as [-> ->].
  apply bind_inr in H as (t0&P&[-> ->]%reads_inr&H). fold (waiting_in t id) in *. destruct (matchesTheQuestions _ _) eqn:Em; [|done]. cbn [negb] in H.
  apply bind_inr in H as (t1&u&->%answers_effect&H). apply bind_inr in H as (t2&u2&Ha&H). apply bind_inr in H as (t3&view&Hv&H).
  assert (t3 = t2) as ->. { by eapply viewOf_same. }
  apply bind_inr in H as (t4&u4&Hr&H). apply ret_inr in H as [-> _]. apply calm_remove in Hr as [cb cq ce cd cl]. apply answered_cores in Ha as (Hac&Haq&Hab&Had&Hl).
  exists e0. split; [done|]. split; [apply bool_decide_eq_false in Es; by destruct (esc_status e0)|]. split; [done|]. split; [by rewrite cq, Haq|]. split; [by rewrite ce, Hac|].
  split; [by rewrite cb, Hab|]. split; [by rewrite cd, Had|]. intros Hok. apply cl. unfold lists_ok. rewrite Hl. exact Hok.
Qed.
Lemma answered_row_adv text at_ q : q_status q = PendingHuman → row_adv q (answered_by text at_ q).
Proof. intros H. split; cbn; rewrite ?H; auto; done. Qed.
Lemma row_answered_cases pend answers at_ q : row_answered pend answers at_ q = q ∨ q_status q = PendingHuman ∧ ∃ a, a ∈ answers ∧ a.1 = q_questionId q ∧ row_answered pend answers at_ q = answered_by (readable a.2) at_ q.
Proof.
  unfold row_answered. destruct (pending_in pend q) eqn:E; [|by left]. apply pending_in_spec in E as [Hs _]. destruct (find _ _) as [a|] eqn:Ef; [|by left].
  right. split; [done|]. apply find_elem in Ef as [Ha Hi]. apply str_eqb_eq in Hi. by exists a.
Qed.
Lemma row_answered_done t id answers at_ q : matchesTheQuestions (waiting_in t id) answers = true → q ∈ questions t → q_status q = PendingHuman → escalationId q = Some id →
  ∃ a, a ∈ answers ∧ a.1 = q_questionId q ∧ row_answered (key <$> waiting_in t id) answers at_ q = answered_by (readable a.2) at_ q.
Proof.
  intros Hm Hq Hs He. assert (q ∈ waiting_in t id) as Hw by (by apply waiting_in_spec). unfold matchesTheQuestions in Hm. rewrite !andb_true_iff in Hm. destruct Hm as [_ Hm].
  rewrite forallb_forall in Hm. specialize (Hm (q_questionId q)). rewrite <- list_elem_of_In, mem_str_In, <- list_elem_of_In in Hm.
  assert (q_questionId q ∈ answers.*1) as Hin by (apply Hm, list_elem_of_fmap; by exists q). apply list_elem_of_fmap in Hin as (a0&Hi&Ha0).
  unfold row_answered. rewrite (proj2 (pending_in_spec _ _)) by (split; [done|apply list_elem_of_fmap; by exists q]).
  destruct (find _ _) as [a|] eqn:Ef; [apply find_elem in Ef as [Ha Ha']; apply str_eqb_eq in Ha'; by exists a|].
  rewrite find_is_None in Ef. specialize (Ef _ Ha0). apply str_eqb_neq in Ef. congruence.
Qed.
Lemma answer_wf t t' id answers call r : wf [] t → answer isFormat maskedSecrets call id answers t = inr (t', r) → wf [] t' ∧ moved t t'.
Proof.
  intros Hwf H. apply answer_effect in H as (e&He&Hs&Hm&Hq&Hc&Hb&Hd&Hl).
  assert (∀ q, q ∈ questions t → undecided q (row_answered (key <$> waiting_in t id) answers (now call) q)) as Hund.
  { intros q Hin. destruct (row_answered_cases (key <$> waiting_in t id) answers (now call) q) as [->|(Hp&a&_&_&->)]; [by split|]. split; [by apply answered_row_adv|done]. }
  assert (moved t t') as Hmoved by (split; try done; rewrite Hq; by apply Forall2_map_r). split; [|done].
  apply (wf_rows_move [] [] t t'); try done.
  - rewrite Hq. apply Forall2_map_r. intros q Hin. split; [by apply Hund|]. intros m k _ [(?%elem_of_nil&_)|[_ Hp]]; [done|]. right. split; [apply not_elem_of_nil|].
    assert (∀ s, hangs (cores t) m k s q → (s = EscPending → escalationId q ≠ Some id) → hangs (cores t') m k s q) as Hkeep.
    { intros s (c&Hci&Hce&Hcm&Hck&Hcs) Hne. exists c. split_and!; try done. rewrite Hc. apply list_elem_of_fmap. exists c. split; [|done]. unfold core_answered.
      destruct (str_eqb (c_id c) id) eqn:Ei; [|done]. apply str_eqb_eq in Ei. rewrite bool_decide_false; [done|]. intros Hsp. subst s. apply (Hne Hsp). congruence. }
    destruct (decide (q_status q = PendingHuman ∧ escalationId q = Some id)) as [[Hqs Hqe]|Hno].
    + destruct (row_answered_done t id answers (now call) q Hm Hin Hqs Hqe) as (a&_&_&->). unfold placed in *. cbn. rewrite Hqs in Hp. destruct Hp as (Hr&c&Hci&Hce&Hcm&Hck&Hcs).
      split_and!; [done| |by eexists|by eexists]. exists (core_answered id c). rewrite core_answered_id. rewrite Hqe in Hce. injection Hce as Hid.
      split_and!; [rewrite Hc; apply list_elem_of_fmap; by exists c|cbn; by rewrite Hqe, Hid|..]; unfold core_answered; rewrite <- Hid, str_eqb_refl, Hcs; done.
    + assert (row_answered (key <$> waiting_in t id) answers (now call) q = q) as ->.
      { unfold row_answered. destruct (pending_in _ q) eqn:E; [|done]. apply pending_in_spec in E as [Es Ek]. apply list_elem_of_fmap in Ek as (p&Hk&Hp'). apply waiting_in_spec in Hp' as (Hp1&Hp2&Hp3).
        assert (q = p) as -> by (eapply same_row; [apply Hwf|done..]). naive_solver. }
      unfold placed in *. destruct (q_status q); try done; [destruct Hp as [? Hp]|destruct Hp as (?&Hp&?&?)]; split_and!; try done; apply Hkeep; try done. naive_solver.
  - rewrite Hc, <- list_fmap_compose. erewrite list_fmap_ext; [apply Hwf|]. intros ? c _. apply core_answered_id.
  - rewrite Hc. intros c1 c2 H1 H2. apply list_elem_of_fmap in H1 as (d1&->&H1), H2 as (d2&->&H2). unfold core_answered.
    destruct (str_eqb (c_id d1) id && _), (str_eqb (c_id d2) id && _); cbn; try done. by apply (wf_pending _ _ Hwf).
  - rewrite Hc. intros c (c0&->&Hc0)%list_elem_of_fmap. rewrite core_answered_id. apply (carries_move t t' c0); [by apply moved_adv_rows|by apply (wf_carries _ _ Hwf)].
Qed.
End Answers.
