(* ===== verification/EscalationHistory.v ===== *)
(** * Every history of the escalation ladder

    The opinions of the arbiter and the submissions keep the tables of [Escalation] well formed ([good]) and only move rows
    forward ([adv]); the claims about every history follow. *)
From S2P Require Import Prelude Transaction JsText Regex Sorting MessageEnvelope PolicyTypes PolicyEvaluator SecretMasker TriggerActions FloorClasses Escalation EscalationFacts.

(** ** The opinion of the arbiter *)
Lemma dec_add W b i f s ds d t : wf W t → dec_ok (questions t) ds → (∃ q, q ∈ questions t ∧ key q = (b, i) ∧ q_status q = Open) →
  (∀ q, q_status q = Open → row_adv q (f q) ∧ q_status (f q) = s) → s ≠ Open → dkey d = (b, i) → (s = Decided ↔ handsToAHuman (dec_verdict d) (dec_raiseTo d) = false) →
  dec_ok (questions (rewritten (λ q, is_question b i q && bool_decide (q_status q = Open)) f t)) (ds ++ [d]).
Proof.
  intros Hwf [Ho Hof Hfor] (q0&Hq0&Hk0&Hs0) Hf Hs Hd Hi.
  set (g := λ q, if is_question b i q && bool_decide (q_status q = Open) then f q else q).
  assert (∀ q, q ∈ questions t → key q = (b, i) → q = q0) as Hq by (intros q Hin Hk; eapply same_row; [apply Hwf|done..|congruence]).
  assert (g q0 = f q0) as Hg0. { unfold g. by rewrite (proj2 (open_condition b i q0)). }
  assert (∀ q, key q ≠ (b, i) → g q = q) as Hg. { intros q Hk. unfold g. destruct (_ && _) eqn:E; [|done]. by apply open_condition in E as [? _]. }
  destruct (Hf q0 Hs0) as [Ha0 Hs0'].
  assert (q_route q0 = ToArbiter) as Hr0. { destruct (wf_rows _ _ Hwf _ Hq0) as (m&k&_&Hfine). by apply (fine_open _ _ _ _ _ Hs0) in Hfine as (_&?&_). }
  assert (∀ x, x ∈ ds → dkey x ≠ (b, i)) as Hnew. { intros x Hx Hk. destruct (Hof _ Hx) as (q&Hin&Hkq&_&Hno&_). rewrite Hk in Hkq. apply Hno. by rewrite (Hq q). }
  split.
  - rewrite fmap_app. apply list.NoDup_app. split_and!; [done| |apply NoDup_singleton]. intros x Hx Hx'. cbn in Hx'. apply list_elem_of_singleton in Hx' as ->.
    apply list_elem_of_fmap in Hx as (x&Hk&Hx). rewrite Hd in Hk. by apply (Hnew x).
  - intros x [Hx| ->%list_elem_of_singleton]%elem_of_app.
    + destruct (Hof _ Hx) as (q&Hin&Hkq&?). exists q. split; [|done]. apply list_elem_of_fmap. exists q. split; [|done]. symmetry. apply Hg. rewrite Hkq. by apply Hnew.
    + exists (f q0). rewrite (ra_key _ _ Ha0), (ra_route _ _ Ha0), Hs0', Hk0. split_and!; try done. apply list_elem_of_fmap. by exists q0.
  - intros q (q1&->&Hq1)%list_elem_of_fmap. fold (g q1). destruct (decide (key q1 = (b, i))) as [Hk|Hk].
    + intros _. exists d. split; [apply elem_of_app; right; by apply list_elem_of_singleton|]. rewrite (Hq _ Hq1 Hk), Hg0, (ra_key _ _ Ha0). congruence.
    + rewrite (Hg _ Hk). intros Hdec. destruct (Hfor _ Hq1 Hdec) as (x&Hx&?). exists x. split; [apply elem_of_app; by left|done].
Qed.

Lemma one_dkey ds d : NoDup (dkey <$> ds) → d ∈ ds → filter (λ d', dkey d' = dkey d) ds = [d].
Proof.
  induction ds as [|a ds IH]; intros Hnd Hd; [by apply elem_of_nil in Hd|]. cbn in Hnd. apply list.NoDup_cons in Hnd as [Ha Hnd]. apply elem_of_cons in Hd as [->|Hd].
  - rewrite filter_cons_True by done. f_equal. destruct (filter _ ds) as [|x l] eqn:E; [done|]. exfalso. assert (x ∈ filter (λ d', dkey d' = dkey a) ds) as [Hk Hx]%list_elem_of_filter by (rewrite E; apply elem_of_cons; by left).
    apply Ha. rewrite <- Hk. apply list_elem_of_fmap. by exists x.
  - rewrite filter_cons_False; [by apply IH|]. intros Hk. apply Ha. rewrite Hk. apply list_elem_of_fmap. by exists d.
Qed.
Lemma NoDup_omap_inj {A B} (f : A → option B) l x y c : NoDup (omap f l) → x ∈ l → y ∈ l → f x = Some c → f y = Some c → x = y.
Proof.
  induction l as [|a l IH]; intros Hnd Hx Hy Fx Fy; [by apply elem_of_nil in Hx|]. cbn in Hnd. apply elem_of_cons in Hx as [->|Hx], Hy as [->|Hy]; try done.
  - exfalso. rewrite Fx in Hnd. apply list.NoDup_cons in Hnd as [Hc _]. apply Hc, list_elem_of_omap. by exists y.
  - exfalso. rewrite Fy in Hnd. apply list.NoDup_cons in Hnd as [Hc _]. apply Hc, list_elem_of_omap. by exists x.
  - apply IH; try done. destruct (f a); [by apply list.NoDup_cons in Hnd as [_ ?]|done].
Qed.

Section History.
Variable isFormat isSeparator isIgnorable : N → bool.
Variable normalizeNFC toLowerCase maskedSecrets : str → str.

(** The tables within the loop over the decisions: the decisions applied so far are still to be written. *)
Record applying (call : Call) (b arb : str) (rev : Z) (a : Applied) (t0 t : tables) : Prop := mkApplying
  { ap_wf : ∃ W, wf W t ∧ ∀ x, x ∈ W ↔ x ∈ pair b <$> ap_escalated a;
    ap_dec : dec_ok (questions t) (decisions t ++ (decision_row call b arb rev <$> appliedDecisions a));
    ap_rows : Forall2 row_adv (questions t0) (questions t); ap_batches : bcores t = bcores t0; ap_decisions : decisions t = decisions t0; ap_lists : humanLists t = humanLists t0;
    ap_exists : ∀ i, i ∈ ap_escalated a → (b, i) ∈ key <$> questions t; ap_some : appliedDecisions a = [] → ap_escalated a = [] }.
Lemma Forall2_row_adv_trans l1 l2 l3 : Forall2 row_adv l1 l2 → Forall2 row_adv l2 l3 → Forall2 row_adv l1 l3.
Proof. intros H. revert l3. induction H; intros l3 H3; inversion H3; subst; constructor; [by etrans|auto]. Qed.
Lemma apply_decision_step call b arb rev qs ev d a a' t0 t t' : applying call b arb rev a t0 t → apply_decision isFormat maskedSecrets b qs ev d a t = inr (t', a') → applying call b arb rev a' t0 t'.
Proof.
  intros [(W&Hwf&HW) Hdec Hrows Hb Hds Hl Hex Hsome] H. unfold apply_decision in H. destruct (find _ qs) as [q|]; [|done].
  apply bind_inr in H as (t1&r&Hm&H). apply ret_inr in H as [-> ->].
  set (i := q_questionId q) in *. set (hands := handsToAHuman _ _) in *.
  assert (∃ f s, t1 = rewritten (λ q, is_question b i q && bool_decide (q_status q = Open)) f t ∧ (∀ q, q_status q = Open → row_adv q (f q) ∧ q_status (f q) = s)
     ∧ s = (if hands then PendingHuman else Decided) ∧ (r = false → t1 = t) ∧ (r = true → (∃ W', wf W' t1 ∧ ∀ x, x ∈ W' ↔ x ∈ W ∨ hands = true ∧ x = (b, i)) ∧ ∃ q, q ∈ questions t ∧ key q = (b, i) ∧ q_status q = Open)) as (f&s&Ht1&Hf&Hs&Hno&Hyes).
  { destruct hands.
    - apply (defer_wf W) in Hm as (Ht1&Hno&Hyes); [|done]. eexists _, PendingHuman. split; [exact Ht1|]. split; [intros q' Hq'; split; [by apply deferred_adv|reflexivity]|]. split; [done|]. split; [done|].
      intros Hr. destruct (Hyes Hr) as [Hw ?]. split; [|done]. eexists. split; [exact Hw|]. intros x. rewrite elem_of_cons. naive_solver.
    - apply (decide_wf W) in Hm as (Ht1&Hno&Hyes); [|done]. eexists _, Decided. split; [exact Ht1|]. split; [intros q' Hq'; split; [by apply decided_adv|reflexivity]|]. split; [done|]. split; [done|].
      intros Hr. destruct (Hyes Hr) as [Hw ?]. split; [|done]. eexists. split; [exact Hw|]. naive_solver. }
  destruct r; [|rewrite (Hno eq_refl); split; try done; by exists W]. destruct (Hyes eq_refl) as [(W'&HW'&Hin) Hq0].
  assert (Forall2 row_adv (questions t) (questions t1)) as Hadv. { rewrite Ht1. apply rewritten_adv. intros q' _ [_ Ho]%open_condition. by apply Hf. }
  split; cbn.
  - exists W'. split; [done|]. intros x. rewrite Hin, HW. destruct hands; rewrite ?fmap_app, ?elem_of_app; cbn; rewrite ?list_elem_of_singleton; naive_solver.
  - rewrite fmap_app. cbn. rewrite app_assoc. assert (decisions t1 = decisions t) as -> by (by rewrite Ht1). rewrite Ht1.
    apply (dec_add W _ _ _ s); try done; [by destruct hands; rewrite Hs|]. cbn. fold hands. rewrite Hs. destruct hands; naive_solver.
  - by eapply Forall2_row_adv_trans.
  - by rewrite Ht1.
  - by rewrite Ht1.
  - by rewrite Ht1.
  - rewrite (rows_keys _ _ Hadv). destruct hands; [|done]. intros j [?| ->%list_elem_of_singleton]%elem_of_app; [by apply Hex|]. destruct Hq0 as (q0&?&?&_). apply list_elem_of_fmap. by exists q0.
  - intros Hnil. by destruct (appliedDecisions a).
Qed.
Lemma apply_decisions_all call b arb rev qs ev ds a a' t0 t t' : applying call b arb rev a t0 t → apply_decisions isFormat maskedSecrets b qs ev ds a t = inr (t', a') → applying call b arb rev a' t0 t'.
Proof.
  revert a t. induction ds as [|d ds IH]; intros a t Ha H; cbn in H; [by apply ret_inr in H as [-> ->]|].
  apply bind_inr in H as (t1&a1&H1&H). eapply IH; [|done]. by eapply apply_decision_step.
Qed.
Lemma insert_decisions {A} (f : A → ArbiterDecision) l t t' u : each (λ d, insertArbiterDecision (f d)) l t = inr (t', u) → t' = set_decisions (decisions t ++ (f <$> l)) t.
Proof.
  revert t. induction l as [|d l IH]; intros t H; cbn in H; tx_inv; [destruct t; unfold set_decisions; cbn; by rewrite app_nil_r|].
  apply IH in H as ->. unfold insertArbiterDecision in *. tx_inv. unfold set_decisions. cbn. by rewrite <- app_assoc.
Qed.
Lemma opinion_good call m arb o t t' r : good t → recordArbiterOpinion isFormat isSeparator isIgnorable maskedSecrets call m arb o t = inr (t', r) → good t' ∧ adv t t'.
Proof.
  intros [Hwf Hdec Hre Hl Htk] H. unfold recordArbiterOpinion in H. apply bind_inr in H as (t0&ob&[-> ->]%reads_inr&H). destruct (findBatch t _) as [b|] eqn:Eb; [|done].
  destruct (negb (str_eqb _ _)); [done|]. apply bind_inr in H as (t0&qs&[-> ->]%reads_inr&H). destruct (negb _); [done|]. destruct (negb _); [done|].
  destruct (cleanEvidenceOf _ _ _ _ _ _) as [ev|]; [|done]. apply bind_inr in H as (t1&rec&H1&H). destruct rec as [[res applied] raised].
  assert (t' = t1) as -> by (destruct (Nat.eqb _ _); by apply ret_inr in H as [-> _]). clear H. apply findBatch_core in Eb as (_&Hid&Hb). rewrite <- Hid in Hb.
  unfold applyOpinion in H1. apply bind_inr in H1 as (t2&a&Ha&H1). set (rev := (appendDecisionSections call b).1) in *.
  assert (applying call (batch_id b) arb rev a t t2) as [(W&Hwf2&HW) Hdec2 Hrows Hbs Hds Hls Hex Hsome].
  { eapply apply_decisions_all; [|exact Ha]. split; try done; cbn; [by exists []|by rewrite app_nil_r|by intros i ?%elem_of_nil]. }
  assert (tickets_ok t2) as Ht2 by (unfold tickets_ok; by rewrite Hbs).
  assert (reopen_ok t2) as Hre2 by (by eapply reopen_move). assert (lists_ok t2) as Hl2 by (unfold lists_ok; by rewrite Hls).
  destruct (Nat.eqb (length (appliedDecisions a)) 0) eqn:E0.
  { apply Nat.eqb_eq, length_zero_iff_nil in E0. rewrite E0 in *. cbn in Hdec2. rewrite app_nil_r in Hdec2. rewrite (Hsome eq_refl) in HW. cbn in HW.
    apply ret_inr in H1 as [-> _]. split; [|by apply adv_of_rows]. split; try done. eapply wf_waiting; [|exact Hwf2]. done. }
  clear E0. apply bind_inr in H1 as (t3&u&->%insert_decisions&H1). apply bind_inr in H1 as (t4&u4&Hop&H1). unfold recordCriteriaOpinion in Hop. apply writes_inr in Hop as ->.
  set (t3 := set_decisions _ t2) in *. match type of H1 with context [update_batch ?i ?f t3] => assert (calm t3 (update_batch i f t3)) as Hc4 by (by apply calm_batch); set (t4 := update_batch i f t3) in * end.
  assert (wf W t3) as Hwf3 by (by eapply wf_same). pose proof (calm_wf _ _ _ Hc4 Hwf3) as Hwf4.
  assert (dec_ok (questions t4) (decisions t4)) as Hdec4 by (by rewrite (calm_questions _ _ Hc4), (calm_decisions _ _ Hc4)).
  assert (reopen_ok t4) as Hre4 by (destruct Hre2 as [Ho Hof]; split; [done|]; rewrite (calm_batches _ _ Hc4); exact Hof).
  assert (tickets_ok t4) as Ht4 by (unfold tickets_ok; by rewrite (calm_batches _ _ Hc4)).
  assert (lists_ok t4) as Hl4 by (apply (calm_lists _ _ Hc4); exact Hl2).
  assert (adv t t4) as Hadv. { split; [exists (questions t4), []|exists (decision_row call (batch_id b) arb rev <$> appliedDecisions a)|exists []]; rewrite ?app_nil_r; [done|cbn; by rewrite Hds|by rewrite (calm_batches _ _ Hc4)]. }
  apply bind_inr in H1 as (t5&joined&Hj&H1). apply ret_inr in H1 as [-> _]. destruct (ap_escalated a) as [|i ids] eqn:Ee; cbn [length Nat.eqb] in Hj.
  { apply ret_inr in Hj as [-> _]. split; [|done]. split; try done. by eapply wf_waiting. }
  apply bind_inr in Hj as (t6&j&Hj&Hr). apply ret_inr in Hr as [-> _]. apply (wf_waiting _ (pair (batch_id b) <$> i :: ids)) in Hwf4; [|done].
  eapply join_wf in Hj as [Hwf6 Hm]; [|done|done|by rewrite (calm_batches _ _ Hc4); change (bcores t3) with (bcores t2); rewrite Hbs|].
  - split; [by eapply moved_good|etrans; [done|by apply moved_adv]].
  - destruct (proj1 (list_elem_of_fmap _ _ _) (Hex i (list_elem_of_here _ _))) as (q0&Hk0&Hq0). exists q0. split; [done|]. rewrite <- Hk0. cbn. apply elem_of_cons. by left.
Qed.

(** ** The submission *)
Lemma insert_all {A} (f : A → StoredQuestion) l t t' u : each (λ x, insertQuestion (f x)) l t = inr (t', u) →
  t' = set_questions (questions t ++ (f <$> l)) t ∧ (NoDup (key <$> questions t) → NoDup (key <$> questions t')).
Proof.
  revert t. induction l as [|x l IH]; intros t H; cbn in H; tx_inv; [destruct t; unfold set_questions; cbn; by rewrite app_nil_r|].
  unfold insertQuestion in *. tx_inv. destruct (_ && _) eqn:E; tx_inv. apply IH in H as [-> Hnd]. unfold set_questions in *. cbn in *. rewrite <- app_assoc. cbn. split; [done|].
  rewrite <- app_assoc in Hnd. intros Ho. apply Hnd. rewrite fmap_app. apply list.NoDup_app. split_and!; [done| |apply NoDup_singleton]. intros y Hy Hy'. cbn in Hy'. apply list_elem_of_singleton in Hy' as ->.
  apply andb_true_iff in E as [E _]. apply negb_true_iff, not_true_iff_false in E. apply E, existsb_exists. apply list_elem_of_fmap in Hy as (q&Hk&Hq). exists q.
  split; [by apply list_elem_of_In|]. apply is_question_key. by rewrite <- Hk.
Qed.
(** The decision a plan contests: decided on the ticket, contested by no stored question, and a second round is a dispute. *)
Definition contestable (t : tables) (m k : str) (c : str * str) (p : ReopenPlan) : Prop :=
  c ∉ omap q_reopens (questions t) ∧ ∃ q0, q0 ∈ questions t ∧ key q0 = c ∧ q_status q0 = Decided ∧ (q_batchId q0, m, k) ∈ bcores t ∧ (is_Some (q_reopens q0) → rp_kind p = Dispute).
Record planned (t : tables) (m k : str) (plans : rec ReopenPlan) (keys : list (str * str)) : Prop := mkPlanned
  { planned_of : ∀ i p c, get plans i = Some p → rp_contested p = Some c → c ∈ keys ∧ contestable t m k c p;
    planned_once : ∀ i j p p' c, get plans i = Some p → get plans j = Some p' → rp_contested p = Some c → rp_contested p' = Some c → i = j }.
Lemma plan_one call b t q plans keys plans' keys' : planned t (pb_managerId b) (pb_ticket b) plans keys →
  plan_reopen isFormat isSeparator isIgnorable maskedSecrets call b t q plans keys = inr (plans', keys') → planned t (pb_managerId b) (pb_ticket b) plans' keys'.
Proof.
  intros [Hof Honce] H. unfold plan_reopen in H. destruct (pq_reopens q) as [r|]; [|by injection H as <- <-]. destruct (executedEvidenceOf _ _ _ _ _) as [ev|]; [|done].
  destruct (isUnreadable call r).
  { injection H as <- <-. split.
    - intros i p c. rewrite get_put. destruct (str_eqb _ _); [by intros [= <-]|apply Hof].
    - intros i j p p' c. rewrite !get_put. destruct (str_eqb (pq_id q) i), (str_eqb (pq_id q) j); [by intros [= <-]|by intros [= <-]|by intros _ [= <-]|apply Honce]. }
  destruct (decidedQuestionForReopen _ _ _ _) as [q0|] eqn:Eq; [|done]. destruct (bool_decide _ || _) eqn:E; [done|]. injection H as <- <-.
  apply orb_false_iff in E as [E1%bool_decide_eq_false E2].
  assert (contestable t (pb_managerId b) (pb_ticket b) (key q0) (mkReopenPlan (if bool_decide (is_Some (q_reopens q0)) then Dispute else Review) ev (Some (key q0)))) as Hc.
  { unfold decidedQuestionForReopen in Eq. apply last_Some_elem_of, list_elem_of_filter in Eq as [Hcond Hq0]. rewrite !andb_true_iff, bool_decide_eq_true in Hcond. destruct Hcond as [[Ht _] Hd]. split.
    - rewrite list_elem_of_omap. intros (q1&Hq1&Hr1). apply not_true_iff_false in E2. apply E2, existsb_exists. exists q1. split; [by apply list_elem_of_In|]. by apply bool_decide_eq_true.
    - exists q0. split_and!; try done; [|cbn; intros ?; by rewrite bool_decide_true]. unfold isOfTicket in Ht. destruct (findBatch t _) as [bb|] eqn:Eb; [|done].
      apply andb_true_iff in Ht as [<-%str_eqb_eq <-%str_eqb_eq]. by apply findBatch_core in Eb as (_&_&?). }
  split.
  - intros i p c. rewrite get_put. destruct (str_eqb _ _); [intros [= <-] [= <-]; split; [apply elem_of_cons; by left|done]|]. intros Hg Hp. destruct (Hof _ _ _ Hg Hp). split; [apply elem_of_cons; by right|done].
  - intros i j p p' c. rewrite !get_put. destruct (str_eqb (pq_id q) i) eqn:Ei, (str_eqb (pq_id q) j) eqn:Ej; [apply str_eqb_eq in Ei, Ej; congruence|..|apply Honce].
    + intros [= <-] Hg [= <-] Hp. by destruct (Hof _ _ _ Hg Hp).
    + intros Hg [= <-] Hp [= <-]. by destruct (Hof _ _ _ Hg Hp).
Qed.
Lemma plan_all call b t qs plans keys plans' : planned t (pb_managerId b) (pb_ticket b) plans keys →
  plan_reopens isFormat isSeparator isIgnorable maskedSecrets call b t qs plans keys = inr plans' → ∃ keys', planned t (pb_managerId b) (pb_ticket b) plans' keys'.
Proof.
  revert plans keys. induction qs as [|q qs IH]; intros plans keys Hp H; cbn in H; [injection H as <-; by exists keys|].
  destruct (plan_reopen _ _ _ _ _ _ _ _ _ _) as [e|[p1 k1]] eqn:E; [done|]. eapply IH; [|done]. by eapply plan_one.
Qed.
(** The tables once the batch and its questions are inserted. *)
Definition stored (t : tables) (b : StoredBatch) (new : list StoredQuestion) : tables := set_questions (questions t ++ new) (set_batches (batches t ++ [b]) t).
Lemma stored_bcores t b new : bcores (stored t b new) = bcores t ++ [bcore b].
Proof. unfold bcores, stored. cbn. by rewrite fmap_app. Qed.
Lemma new_batch_id t id m k : findBatch t id = None → (id, m, k) ∈ bcores t → False.
Proof. intros H Hin. apply list_elem_of_fmap in Hin as (b&Hb&Hbin). unfold findBatch in H. rewrite find_is_None in H. specialize (H _ Hbin). apply str_eqb_neq in H. by injection Hb. Qed.
Record fresh (b : StoredBatch) (q : StoredQuestion) : Prop := mkFresh
  { fresh_batch : q_batchId q = batch_id b; fresh_esc : escalationId q = None; fresh_status : q_status q = STATUS_OF_ROUTE (q_route q); fresh_self : q_route q = ToSelf → is_Some (q_resolution q) }.
Lemma stored_wf W t b new : wf [] t → findBatch t (batch_id b) = None → NoDup (key <$> questions (stored t b new)) → (∀ q, q ∈ new → fresh b q) →
  (∀ x, x ∈ W ↔ ∃ q, q ∈ new ∧ key q = x ∧ q_route q = ToHuman) → wf W (stored t b new).
Proof.
  intros Hwf Hb Hnd Hnew HW. destruct Hwf as [Hbs Hks Hi Hr Hp Hc]. split; try done.
  - rewrite stored_bcores, fmap_app. apply list.NoDup_app. split_and!; [done| |apply NoDup_singleton]. intros x Hx Hx'. cbn in Hx'. apply list_elem_of_singleton in Hx' as ->.
    apply list_elem_of_fmap in Hx as ([[i m] k]&Hx&Hin). cbn in Hx. subst i. by eapply new_batch_id.
  - intros q [Hq|Hq]%elem_of_app.
    + destruct (Hr _ Hq) as (m&k&Hm&[(?%elem_of_nil&_)|[_ Hpl]]); [done|]. exists m, k. rewrite stored_bcores. split; [apply elem_of_app; by left|]. right. split; [|done].
      rewrite HW. intros (q'&Hq'&Hk&_). injection Hk as Hkb _. rewrite (fresh_batch _ _ (Hnew _ Hq')) in Hkb. rewrite <- Hkb in Hm. by eapply new_batch_id.
    + exists (batch_managerId b), (batch_ticket b). destruct (Hnew _ Hq) as [Hqb Hqe Hqs Hself]. rewrite stored_bcores, Hqb. split; [apply elem_of_app; right; by apply list_elem_of_singleton|].
      unfold fine. rewrite HW. destruct (q_route q) eqn:Er; cbn in Hqs; [left|right|right].
      * split_and!; try done. by exists q.
      * split; [|unfold placed; rewrite Hqs; auto]. intros (q'&Hq'&Hk&Hr'). assert (q' = q) as ->; [|congruence]. eapply same_row; [exact Hnd|apply elem_of_app; by right|apply elem_of_app; by right|done].
      * split; [|unfold placed; rewrite Hqs; auto]. intros (q'&Hq'&Hk&Hr'). assert (q' = q) as ->; [|congruence]. eapply same_row; [exact Hnd|apply elem_of_app; by right|apply elem_of_app; by right|done].
  - intros c Hcin. destruct (Hc c Hcin) as (q&Hq&?). exists q. split; [apply elem_of_app; by left|done].
Qed.
Lemma stored_dec t b new : dec_ok (questions t) (decisions t) → (∀ q, q ∈ new → fresh b q) → dec_ok (questions (stored t b new)) (decisions (stored t b new)).
Proof.
  intros [Ho Hof Hfor] Hnew. split; [done|..].
  - intros d Hd. destruct (Hof _ Hd) as (q&Hq&?). exists q. split; [apply elem_of_app; by left|done].
  - intros q [Hq|Hq]%elem_of_app Hs; [by apply Hfor|]. pose proof (fresh_status _ _ (Hnew _ Hq)) as Hst. rewrite Hs in Hst. by destruct (q_route q).
Qed.
Lemma stored_reopen t b new : reopen_ok t → (∀ q, q ∈ new → fresh b q) → NoDup (omap q_reopens new) →
  (∀ q x, q ∈ new → q_reopens q = Some x → x ∉ omap q_reopens (questions t) ∧
     ∃ q0, q0 ∈ questions t ∧ key q0 = x ∧ q_status q0 = Decided ∧ (q_batchId q0, batch_managerId b, batch_ticket b) ∈ bcores t ∧ (is_Some (q_reopens q0) → q_route q = ToHuman)) → reopen_ok (stored t b new).
Proof.
  intros [Ho Hof] Hnew Hnd Hre. split.
  - cbn. rewrite omap_app. apply list.NoDup_app. split_and!; [done| |done]. intros x Hx (q&Hq&Hr)%list_elem_of_omap. by destruct (Hre _ _ Hq Hr).
  - intros q x [Hq|Hq]%elem_of_app Hr.
    + destruct (Hof _ _ Hq Hr) as (q0&m&k&Hq0&?&?&?&?&?). exists q0, m, k. rewrite stored_bcores. split_and!; try done; apply elem_of_app; by left.
    + destruct (Hre _ _ Hq Hr) as (_&q0&Hq0&?&?&?&?). exists q0, (batch_managerId b), (batch_ticket b). rewrite stored_bcores, (fresh_batch _ _ (Hnew _ Hq)).
      split_and!; try done; apply elem_of_app; [by left|right; by apply list_elem_of_singleton|by left].
Qed.
Lemma stored_adv t b new : adv t (stored t b new).
Proof. split; [exists (questions t), new|exists []|exists [bcore b]]; rewrite ?app_nil_r; [split; [done|]; by induction (questions t); constructor|done|apply stored_bcores]. Qed.
Local Abbreviation routing_of := (routingOf isFormat normalizeNFC toLowerCase).
Lemma dispute_route b q p : rp_kind p = Dispute → route (routing_of b q (Some p)) = ToHuman.
Proof. intros H. unfold routingOf. cbv zeta. rewrite bool_decide_true; [done|]. change (Some (rp_kind p) = Some Dispute). by rewrite H. Qed.
Lemma self_route b q r : route (routing_of b q r) = ToSelf → is_Some (pq_resolution q).
Proof.
  unfold routingOf. cbv zeta. destruct (bool_decide _); [done|]. destruct (pq_resolution q) as [c|]; [done|].
  unfold routeQuestion. cbv zeta. cbn [route]. rewrite andb_false_r. unfold routeOf. destruct (_ || _); [done|]. by destruct (_ && _).
Qed.
Lemma NoDup_omap_key {B} (f : StoredQuestion → option B) l : NoDup (key <$> l) → (∀ x y c, x ∈ l → y ∈ l → f x = Some c → f y = Some c → key x = key y) → NoDup (omap f l).
Proof.
  induction l as [|x l IH]; intros Hnd Hinj; [constructor|]. cbn in Hnd. apply list.NoDup_cons in Hnd as [Hx Hnd]. cbn. destruct (f x) as [c|] eqn:E.
  - apply list.NoDup_cons. split.
    + intros (y&Hy&Hc)%list_elem_of_omap. apply Hx, list_elem_of_fmap. exists y. split; [|done]. eapply Hinj; [apply elem_of_cons; by left|apply elem_of_cons; by right|done..].
    + apply IH; [done|]. intros y z d Hy Hz. apply Hinj; apply elem_of_cons; by right.
  - apply IH; [done|]. intros y z d Hy Hz. apply Hinj; apply elem_of_cons; by right.
Qed.
Local Abbreviation new_question id := (λ x : PlanQuestion * option ReopenPlan * QuestionRouting, newQuestionOf isFormat maskedSecrets id x.1.1 x.2 x.1.2).
Lemma routed_elem b plans x : x ∈ routed_questions isFormat normalizeNFC toLowerCase b plans → x.1.2 = get plans (pq_id x.1.1) ∧ x.2 = routing_of b x.1.1 x.1.2.
Proof. unfold routed_questions. intros (q&->&_)%list_elem_of_fmap. done. Qed.
Lemma routed_fresh b plans sb x : x ∈ routed_questions isFormat normalizeNFC toLowerCase b plans → fresh sb (new_question (batch_id sb) x).
Proof.
  intros [_ Hr]%routed_elem. split; try done. cbn. intros Hs. rewrite Hr in Hs. apply self_route in Hs. destruct x.1.2; [by eexists|done].
Qed.
Lemma store_good call b t t' r : good t → storeBatch isFormat isSeparator isIgnorable normalizeNFC toLowerCase maskedSecrets call b t = inr (t', r) → good t' ∧ adv t t'.
Proof.
  intros [Hwf Hdec Hre Hl Htk] H. unfold storeBatch in H. apply bind_inr in H as (t1&u&Hb&H). unfold insertBatch in Hb. apply bind_inr in Hb as (t0&a&[-> ->]%reads_inr&Hb).
  set (sb := mkBatch _ _ _ _ _ _ _ _) in *. destruct (negb _ && _) eqn:E; [|done]. apply writes_inr in Hb as ->. apply andb_true_iff in E as [E Hblank%negb_true_iff]. apply negb_true_iff, bool_decide_eq_false in E.
  rewrite <- eq_None_not_Some in E. apply bind_inr in H as (t1&plans&Hplan&H). unfold planReopens in Hplan. destruct (plan_reopens _ _ _ _ _ _ _ _ _ _) as [|plans'] eqn:Ep; [done|]. injection Hplan as <- <-.
  eapply plan_all in Ep as (keys&Hof&Honce); [|by split; intros]. apply bind_inr in H as (t2&u2&Hins&H). set (routed := routed_questions _ _ _ b plans') in *.
  apply insert_all in Hins as [-> Hnd]. change (set_questions _ _) with (stored t sb (new_question (newBatchId call) <$> routed)) in *. set (new := new_question (newBatchId call) <$> routed) in *.
  specialize (Hnd (wf_keys _ _ Hwf)).
  assert (∀ q, q ∈ new → fresh sb q) as Hnew. { intros q (x&->&Hx)%list_elem_of_fmap. by apply (routed_fresh b plans' sb). }
  assert (∀ q x, q ∈ new → q_reopens q = Some x → ∃ p, get plans' (q_questionId q) = Some p ∧ rp_contested p = Some x ∧ (rp_kind p = Dispute → q_route q = ToHuman)) as Hplan.
  { intros q x (y&->&Hy)%list_elem_of_fmap Hr. destruct (routed_elem _ _ _ Hy) as [Hg Hro]. cbn in Hr |- *. rewrite Hg in Hr. destruct (get plans' _) as [p|] eqn:Eg; [|done].
    exists p. split_and!; try done. intros Hk. rewrite Hro, Hg. by apply dispute_route. }
  set (humanIds := idsOfRoute routed ToHuman) in *.
  assert (wf (pair (newBatchId call) <$> humanIds) (stored t sb new)) as Hwf2.
  { apply stored_wf; try done. intros x. unfold humanIds, idsOfRoute. rewrite list_elem_of_fmap. split.
    - intros (i&->&(y&->&[Hr Hy]%list_elem_of_filter)%list_elem_of_fmap). exists (new_question (newBatchId call) y). split_and!; try done. apply list_elem_of_fmap. by exists y.
    - intros (q&(y&->&Hy)%list_elem_of_fmap&<-&Hr). exists (pq_id y.1.1). split; [done|]. apply list_elem_of_fmap. exists y. split; [done|]. by apply list_elem_of_filter. }
  assert (dec_ok (questions (stored t sb new)) (decisions (stored t sb new))) as Hdec2 by (by apply stored_dec).
  assert (reopen_ok (stored t sb new)) as Hre2.
  { apply stored_reopen; try done.
    - apply NoDup_omap_key; [cbn in Hnd; rewrite fmap_app in Hnd; by apply list.NoDup_app in Hnd as (_&_&?)|]. intros x y c Hx Hy Hcx Hcy. destruct (Hplan _ _ Hx Hcx) as (p&Hp&Hpc&_), (Hplan _ _ Hy Hcy) as (p'&Hp'&Hpc'&_).
      pose proof (Honce _ _ _ _ _ Hp Hp' Hpc Hpc') as Hi. unfold key. by rewrite Hi, (fresh_batch _ _ (Hnew _ Hx)), (fresh_batch _ _ (Hnew _ Hy)).
    - intros q x Hq Hx. destruct (Hplan _ _ Hq Hx) as (p&Hp&Hpc&Hd). destruct (Hof _ _ _ Hp Hpc) as [_ (Hno&q0&Hq0&Hk0&Hs0&Hb0&Hr0)]. split; [done|]. exists q0. split_and!; try done; [|auto].
      destruct (wf_rows _ _ Hwf _ Hq0) as (m&k&Hm&_). change (bcores _) with (bcores (stored t sb new)) in Hb0. rewrite stored_bcores in Hb0. apply elem_of_app in Hb0 as [?|Heq%list_elem_of_singleton]; [done|]. injection Heq as Hbid. rewrite Hbid in Hm. exfalso. by eapply new_batch_id. }
  assert (tickets_ok (stored t sb new)) as Ht2. { unfold tickets_ok. rewrite stored_bcores. intros c [?| ->%list_elem_of_singleton]%elem_of_app; [by apply Htk|exact Hblank]. }
  assert (lists_ok (stored t sb new)) as Hl2 by done.
  apply bind_inr in H as (t3&human&Hj&H). apply ret_inr in H as [-> _]. destruct humanIds as [|i ids] eqn:Eh; cbn [length Nat.eqb] in Hj.
  { apply ret_inr in Hj as [-> _]. split; [by split|apply stored_adv]. }
  apply bind_inr in Hj as (t4&j&Hj&Hr). apply ret_inr in Hr as [-> _]. eapply join_wf in Hj as [Hwf4 Hm]; [|done|done|..].
  - split; [by eapply moved_good|etrans; [apply stored_adv|by apply moved_adv]].
  - rewrite stored_bcores. apply elem_of_app. right. by apply list_elem_of_singleton.
  - assert (i ∈ humanIds) as Hi by (rewrite Eh; apply elem_of_cons; by left). unfold humanIds, idsOfRoute in Hi. apply list_elem_of_fmap in Hi as (y&->&[Hr Hy]%list_elem_of_filter).
    exists (new_question (newBatchId call) y). split; [apply elem_of_app; right; apply list_elem_of_fmap; by exists y|]. cbn. apply elem_of_cons. by left.
Qed.

(** ** Every history *)
Local Abbreviation step := (take_event isFormat isSeparator isIgnorable normalizeNFC toLowerCase maskedSecrets).
Local Abbreviation tables_of := (tables_after isFormat isSeparator isIgnorable normalizeNFC toLowerCase maskedSecrets).
Lemma calm_step t t' : good t → calm t t' → good t' ∧ adv t t'.
Proof. intros Hg Hc. split; [by eapply calm_good|by apply calm_adv]. Qed.
Lemma moved_step t t' : good t → wf [] t' ∧ moved t t' → good t' ∧ adv t t'.
Proof. intros [Hwf Hd Hr Hl Ht] [Hw Hm]. split; [by eapply moved_good|by apply moved_adv]. Qed.
Lemma retry_calm call id t t' r : retryHandover call id t = inr (t', r) → calm t t'.
Proof.
  intros H. unfold retryHandover in H. apply bind_inr in H as (t1&esc&Hp&H). unfold pendingEscalation in Hp. apply bind_inr in Hp as (t2&o&[-> ->]%reads_inr&Hp).
  destruct (findEscalation t id) as [e0|]; [|done]. destruct (bool_decide _); [done|]. apply ret_inr in Hp as [-> ->]. destruct (handoverRefusal e0); [|done].
  apply bind_inr in H as (t1&u&He%calm_ensure&H). apply bind_inr in H as (t2&u2&Hs&H). unfold setHandoverRefusal in Hs. apply writes_inr in Hs as ->.
  apply bind_inr in H as (t3&v&->%viewOf_same&H). apply ret_inr in H as [-> _]. etrans; [done|]. by apply calm_escalation.
Qed.
Lemma step_good t e : good t → good (step t e) ∧ adv t (step t e).
Proof.
  intros Hg. destruct e; cbn [take_event]; apply (after_keeps _ _ (λ t', good t' ∧ adv t t')); try done; intros t' a H.
  - unfold submitBatch in H. destruct (withCleanResolutions _ _ _ _ _) as [clean|]; [|done]. apply bind_inr in H as (t1&sub&Hs&H). apply bind_inr in H as (t2&n&Hn&H). apply ret_inr in H as [-> _].
    assert (t2 = t1) as ->. { unfold journalSelfResolved in Hn. destruct (Nat.eqb _ _); by tx_inv. } by eapply store_good.
  - by eapply opinion_good.
  - unfold escalateBatchToHuman in H. apply bind_inr in H as (t1&o&[-> ->]%reads_inr&H). destruct (findBatch t _) as [b|] eqn:Eb; [|by apply ret_inr in H as [-> _]].
    apply bind_inr in H as (t1&r&Hh&H). apply ret_inr in H as [-> _]. apply findBatch_core in Eb as (_&<-&Hb). apply moved_step; [done|]. eapply handOver_effect; [apply Hg|done|exact Hh].
  - apply calm_step; [done|]. by eapply retry_calm.
  - apply moved_step; [done|]. eapply answer_wf; [apply Hg|exact H].
  - unfold addArbiterRun in H. apply writes_inr in H as ->. apply calm_step; [done|]. by apply calm_batch.
  - apply calm_step; [done|]. by eapply calm_update.
Qed.
Lemma no_tables_good : good no_tables.
Proof. split; [split|split|split|..]; unfold tickets_ok; try done; try apply base.NoDup_nil_2; intros; match goal with H : _ ∈ _ |- _ => by apply elem_of_nil in H end. Qed.
Lemma history_good es t : good t → good (fold_left step es t) ∧ adv t (fold_left step es t).
Proof.
  revert t. induction es as [|e es IH]; intros t Hg; cbn; [done|]. destruct (step_good t e Hg) as [Hg1 Ha1]. destruct (IH _ Hg1). split; [done|by etrans].
Qed.
Lemma reached_good es : good (tables_of es).
Proof. apply history_good, no_tables_good. Qed.
Lemma self_resolved_has_resolution es q : q ∈ questions (tables_of es) → q_route q = ToSelf → is_Some (q_resolution q).
Proof. intros Hq Hs. destruct (wf_rows _ _ (good_wf _ (reached_good es)) _ Hq) as (m&k&_&[(?%elem_of_nil&_)|[_ Hp]]); [done|]. unfold placed in Hp. rewrite Hs in Hp. by destruct (q_status q), Hp as [? Hp]; try destruct Hp. Qed.

(** ** What holds after any history *)
(** C10. After any history of submissions, arbiter opinions, hand-overs, retries, answers and edits of the list, with any refusals in between: a question waits for the human exactly when it hangs on
    a pending escalation of the manager and the ticket of its batch, an answered question hangs on an answered escalation and has its answer, every escalation carries a question, and a manager has at most one
    pending escalation per ticket. *)
Theorem the_ladder_stays_in_step es : let t := tables_after isFormat isSeparator isIgnorable normalizeNFC toLowerCase maskedSecrets es in
  (∀ q, q ∈ questions t → ∃ b, b ∈ batches t ∧ batch_id b = q_batchId q ∧
     match escalationId q with
     | Some id => ∃ e, e ∈ escalations t ∧ esc_id e = id ∧ esc_managerId e = batch_managerId b ∧ esc_ticket e = batch_ticket b
                    ∧ match esc_status e with EscPending => q_status q = PendingHuman | EscAnswered => q_status q = Answered ∧ is_Some (humanAnswer q) end
     | None => q_status q ≠ PendingHuman ∧ q_status q ≠ Answered
     end)
  ∧ (∀ e, e ∈ escalations t → ∃ q, q ∈ questions t ∧ escalationId q = Some (esc_id e))
  ∧ (∀ e1 e2, e1 ∈ escalations t → e2 ∈ escalations t → esc_status e1 = EscPending → esc_status e2 = EscPending →
       esc_managerId e1 = esc_managerId e2 → esc_ticket e1 = esc_ticket e2 → esc_id e1 = esc_id e2).
Proof.
  intros t. pose proof (good_wf _ (reached_good es)) as Hwf. fold t in Hwf. split_and!.
  - intros q Hq. destruct (wf_rows _ _ Hwf _ Hq) as (m&k&Hb&[(?%elem_of_nil&_)|[_ Hp]]); [done|]. apply list_elem_of_fmap in Hb as (b&[= Hid -> ->]&Hb). exists b. split; [done|]. split; [done|].
    unfold placed in Hp. destruct (q_status q) eqn:Es; [by destruct Hp as [_ ->]|by destruct Hp as [_ ->]|by destruct Hp as (_&->&_)|..].
    + destruct Hp as (_&c&(e&->&He)%list_elem_of_fmap&->&?&?&Hs). exists e. cbn in *. split_and!; try done. by rewrite Hs.
    + destruct Hp as (_&(c&(e&->&He)%list_elem_of_fmap&->&?&?&Hs)&?&_). exists e. cbn in *. split_and!; try done. by rewrite Hs.
  - intros e He. apply (wf_carries _ _ Hwf (core_of e)). apply list_elem_of_fmap. by exists e.
  - intros e1 e2 H1 H2 S1 S2 Hm Hk. apply (f_equal c_id (x := core_of e1) (y := core_of e2)). apply (wf_pending _ _ Hwf); try done; apply list_elem_of_fmap; eauto.
Qed.
(** A question only moves forward: whatever happens later, its row keeps its key, its text, its route and the decision it contests, its status never goes back, a question that is decided, self-resolved or
    answered never changes again, and the decisions of the arbiter are never removed or rewritten. *)
Theorem settled_questions_never_change es later : let t := tables_of es in let t' := tables_of (es ++ later) in
  (∀ i q, questions t !! i = Some q → ∃ q', questions t' !! i = Some q' ∧ key q' = key q ∧ q_text q' = q_text q ∧ q_route q' = q_route q ∧ q_reopens q' = q_reopens q
     ∧ st_le (q_status q) (q_status q') = true ∧ (is_settled (q_status q) = true → q' = q))
  ∧ ∃ ds, decisions t' = decisions t ++ ds.
Proof.
  intros t t'. assert (adv t t') as [(rows&new&Hq&HF) Hds _]. { unfold t', t, tables_after. rewrite fold_left_app. apply history_good, reached_good. }
  split; [|done]. intros i q Hi. destruct (Forall2_lookup_l _ _ _ _ _ HF Hi) as (q'&Hi'&[]). exists q'. split; [|done]. rewrite Hq. by apply lookup_app_l_Some.
Qed.
(** C11. There is no third round: a decision is contested by one question at most, of the same manager and ticket, after the arbiter decided it and recorded one decision on it; the contest of a contest is routed to the human,
    and nothing can contest it. *)
Theorem there_is_no_third_round es : let t := tables_of es in
  (∀ q x, q ∈ questions t → q_reopens q = Some x → ∃ q0 d, q0 ∈ questions t ∧ key q0 = x ∧ q_status q0 = Decided ∧ filter (λ d, dkey d = x) (decisions t) = [d] ∧ handsToAHuman (dec_verdict d) (dec_raiseTo d) = false)
  ∧ (∀ q q' x, q ∈ questions t → q' ∈ questions t → q_reopens q = Some x → q_reopens q' = Some x → q = q')
  ∧ (∀ q0 q1 q2, q0 ∈ questions t → q1 ∈ questions t → q2 ∈ questions t → q_reopens q1 = Some (key q0) → q_reopens q2 = Some (key q1) →
       q_route q2 = ToHuman ∧ ∀ q3, q3 ∈ questions t → q_reopens q3 ≠ Some (key q2)).
Proof.
  intros t. pose proof (reached_good es) as [Hwf Hdec Hre _ _]. fold t in Hwf, Hdec, Hre. split_and!.
  - intros q x Hq Hx. destruct (reopen_of _ Hre _ _ Hq Hx) as (q0&_&_&Hq0&Hk&Hd&_). destruct (dec_for _ _ Hdec _ Hq0 Hd) as (d&Hdi&Hdk). exists q0, d. split_and!; try done.
    + rewrite <- Hk, <- Hdk. apply one_dkey; [apply Hdec|done].
    + destruct (dec_of _ _ Hdec _ Hdi) as (q1&Hq1&Hk1&_&_&Hi). apply Hi. assert (q1 = q0) as ->; [|done]. eapply same_row; [apply Hwf|done..|congruence].
  - intros q q' x Hq Hq' Hx Hx'. eapply NoDup_omap_inj; [apply Hre|done..].
  - intros q0 q1 q2 H0 H1 H2 R1 R2. destruct (reopen_of _ Hre _ _ H2 R2) as (q1'&_&_&H1'&Hk1&_&Hr&_). assert (q1' = q1) as -> by (eapply same_row; [apply Hwf|done..]).
    assert (q_route q2 = ToHuman) as Hh by (apply Hr; by eexists). split; [done|]. intros q3 H3 R3. destruct (reopen_of _ Hre _ _ H3 R3) as (q2'&_&_&H2'&Hk2&Hd&_).
    assert (q2' = q2) as -> by (eapply same_row; [apply Hwf|done..]). destruct (wf_rows _ _ Hwf _ H2) as (m&k&_&[(?%elem_of_nil&_)|[_ Hp]]); [done|]. unfold placed in Hp. rewrite Hd in Hp. destruct Hp; congruence.
Qed.
End History.
