(* ===== verification/EscalationClaims.v ===== *)
(** * The hand-over, the answer and the approval

    What one call of [Escalation] does in tables reached by any history: a hand-over to the human leaves no question with the arbiter,
    an answer gives every question of the escalation its text, and criteria are approved only when every question of the ticket is settled. *)
From S2P Require Import Prelude Transaction JsText Regex Sorting MessageEnvelope PolicyTypes PolicyEvaluator SecretMasker TriggerActions FloorClasses Escalation EscalationFacts EscalationHistory.

(** ** A hand-over that cannot be refused *)
Definition listable (ticket id : str) : Prop := section_item (escalationItemOf id ticket) = Some (escalationItemOf id ticket).
Definition roomy (call : Call) (m : str) : Prop := ∀ items, fits call m items = true.
Lemma listOf_schema t m : lists_ok t → SectionSchema (listOf t m) = Some (listOf t m).
Proof. intros Hl. unfold listOf. destruct (get _ m) as [l|] eqn:E; [by apply Hl in E|done]. Qed.
Lemma ensure_runs call m e t : lists_ok t → roomy call m → listable (esc_ticket e) (esc_id e) →
  (∃ t', ensureItemInQuestionsForHuman call m e t = inr (t', ()) ∧ escalationItemOf (esc_id e) (esc_ticket e) ∈ listOf t' m) ∨ ensureItemInQuestionsForHuman call m e t = inl InvalidBody.
Proof.
  intros Hl Hr Hi. unfold ensureItemInQuestionsForHuman. set (item := escalationItemOf _ _) in *. rewrite (bind_run _ _ t t (listOf t m)) by done.
  destruct (mem_str item (listOf t m)) eqn:Em; [left; exists t; split; [done|]; by apply mem_str_In, list_elem_of_In in Em|].
  destruct (Nat.leb _ _) eqn:E; [by right|]. left. apply Nat.leb_gt in E. pose proof (listOf_schema t m Hl) as Hs. unfold update.
  assert (SectionSchema (listOf t m ++ [item]) = Some (listOf t m ++ [item])) as ->.
  { unfold SectionSchema in *. destruct (Nat.leb _ _) eqn:El in Hs; [|done]. rewrite (proj2 (Nat.leb_le _ _)) by (rewrite length_app; cbn; lia).
    apply mapM_Some in Hs. apply mapM_Some. apply Forall2_app; [done|]. by constructor. }
  rewrite Hr. eexists. split; [done|]. unfold listOf at 1. cbn. rewrite get_put, str_eqb_refl. cbn. apply elem_of_app. right. by apply list_elem_of_singleton.
Qed.
(** The card of an escalation is listed for its manager, or carries the refusal with the reason of the hand-over. *)
Definition shown (t : tables) (m id : str) (reason : str) : Prop :=
  ∃ e, e ∈ escalations t ∧ esc_id e = id ∧ esc_managerId e = m ∧ esc_status e = EscPending
    ∧ (escalationItemOf id (esc_ticket e) ∈ listOf t m ∨ ∃ refusal, handoverRefusal e = Some refusal ∧ refusal_reason refusal = reason).
Lemma shown_core t t' m id k : cores t' = cores t → (∃ e, e ∈ escalations t ∧ core_of e = mkCore id m k EscPending) → ∃ e, e ∈ escalations t' ∧ core_of e = mkCore id m k EscPending.
Proof.
  intros Hc (e&He&Hce). assert (core_of e ∈ cores t') as Hin by (rewrite Hc; apply list_elem_of_fmap; by exists e). apply list_elem_of_fmap in Hin as (e'&He'&Hin). exists e'. split; [done|congruence].
Qed.
Lemma list_runs call m e reason t : lists_ok t → roomy call m → listable (esc_ticket e) (esc_id e) → (∃ e0, e0 ∈ escalations t ∧ core_of e0 = mkCore (esc_id e) m (esc_ticket e) EscPending) →
  ∃ t1 t2 r u, listItemOrRefusal call m e (Some reason) t = inr (t1, r) ∧
    (if bool_decide (r = None) && bool_decide (is_Some (handoverRefusal e)) then setHandoverRefusal (esc_id e) None else mret ()) t1 = inr (t2, u) ∧ shown t2 m (esc_id e) reason.
Proof.
  intros Hl Hr Hi He. unfold listItemOrRefusal. destruct (ensure_runs call m e t Hl Hr Hi) as [(t1&H1&Hin)|H1]; rewrite H1.
  - set (b := bool_decide (is_Some _)). exists t1, (if b then update_escalation (esc_id e) (λ e, mkEscalation (esc_id e) (esc_managerId e) (esc_ticket e) (esc_body e) (esc_createdAt e) (esc_status e) (resolvedAt e) None) t1 else t1), None, ().
    split; [done|]. split; [by destruct b|]. assert (cores (if b then update_escalation (esc_id e) (λ e, mkEscalation (esc_id e) (esc_managerId e) (esc_ticket e) (esc_body e) (esc_createdAt e) (esc_status e) (resolvedAt e) None) t1 else t1) = cores t) as Hc.
    { transitivity (cores t1); [destruct b; [by apply cores_update|done]|]. by apply calm_ensure, calm_cores in H1. }
    destruct (shown_core _ _ _ _ _ Hc He) as (e1&He1&[= Hid Hm Hk Hs]). exists e1. split_and!; try done. left. rewrite Hk. by destruct b.
  - set (f := λ e, mkEscalation (esc_id e) (esc_managerId e) (esc_ticket e) (esc_body e) (esc_createdAt e) (esc_status e) (resolvedAt e) (Some (mkRefusal reason LIST_FULL_REFUSAL (Some LIST_FULL_HINT) (now call)))).
    exists (update_escalation (esc_id e) f t), (update_escalation (esc_id e) f t), (Some (LIST_FULL_REFUSAL, LIST_FULL_HINT)), (). split; [done|]. split; [done|].
    destruct He as (e1&He1&[= Hid Hm Hk Hs]). exists (f e1). split_and!; try done; [|right; by eexists]. unfold update_escalation. cbn [escalations set_escalations]. apply list_elem_of_fmap. exists e1. split; [|done].
    by rewrite Hid, str_eqb_refl, bool_decide_true.
Qed.
Lemma openEscalation_runs call m k t : forallb (N.eqb (chr " ")) k = false → findEscalation t (newEscalationId call) = None → findPendingEscalation t m k = None →
  let e := mkEscalation (newEscalationId call) m k [] (now call) EscPending None None in openEscalation call m k t = inr (set_escalations (escalations t ++ [e]) t, e).
Proof.
  intros Hk Hf Ef e. set (t1 := set_escalations _ t). unfold openEscalation. rewrite (bind_run _ _ t t1 ()).
  - rewrite (bind_run _ _ t1 t1 (Some e)); [done|]. unfold reads. f_equal. f_equal. unfold findEscalation in *. apply find_last; [done|apply str_eqb_refl].
  - unfold insertEscalation. rewrite (bind_run _ _ t t false); [done|]. unfold reads. by rewrite Hf, Ef, Hk.
Qed.
Lemma join_runs call b m k ids reason t : lists_ok t → roomy call m → forallb (N.eqb (chr " ")) k = false → findEscalation t (newEscalationId call) = None → listable k (newEscalationId call) → (∀ e, findPendingEscalation t m k = Some e → listable k (esc_id e)) →
  ∃ t' j, joinEscalation call b m k ids (Some reason) t = inr (t', j) ∧ shown t' m (ea_escalationId j) reason.
Proof.
  intros Hl Hr Hk Hf Hi Hip. unfold joinEscalation. rewrite (bind_run _ _ t t (findPendingEscalation t m k)) by done.
  assert (∃ t1 e, match findPendingEscalation t m k with Some e => mret e | None => openEscalation call m k end t = inr (t1, e) ∧ e ∈ escalations t1 ∧ core_of e = mkCore (esc_id e) m k EscPending ∧ lists_ok t1 ∧ listable k (esc_id e)) as (t1&e&H1&He&Hce&Hl1&Hie).
  { destruct (findPendingEscalation t m k) as [e|] eqn:Ef.
    - apply findPending_Some in Ef as (_&Hm&Hk'&Hs&He). exists t, e. split_and!; try done; [unfold core_of; congruence|by apply Hip].
    - set (e := mkEscalation (newEscalationId call) m k [] (now call) EscPending None None). exists (set_escalations (escalations t ++ [e]) t), e. split_and!; try done; [|cbn; apply elem_of_app; right; by apply list_elem_of_singleton].
      by apply openEscalation_runs. }
  rewrite (bind_run _ _ _ _ _ H1). destruct (each_runs (λ i, attachQuestionToEscalation b i (esc_id e)) ids t1) as [t2 H2]; [intros i s; by eexists|].
  rewrite (bind_run _ _ _ _ _ H2). apply attach_all in H2. rewrite (bind_run _ _ t2 t2 (questionsOfEscalation t2 (esc_id e))) by done.
  set (body := renderEscalationBody _ _ _). set (t3 := update_escalation (esc_id e) (λ e, mkEscalation (esc_id e) (esc_managerId e) (esc_ticket e) body (esc_createdAt e) (esc_status e) (resolvedAt e) (handoverRefusal e)) t2).
  rewrite (bind_run _ _ t2 t3 ()) by done. assert (esc_ticket e = k) as Hke by (by injection Hce).
  destruct (list_runs call m e reason t3) as (t4&t5&r&u&H4&H5&Hsh).
  - subst t2. exact Hl1.
  - done.
  - by rewrite Hke.
  - apply (shown_core t2); [by apply cores_update|]. exists e. subst t2. split; [done|]. by rewrite Hke.
  - rewrite (bind_run _ _ _ _ _ H4), (bind_run _ _ _ _ _ H5). by eexists _, _.
Qed.

Lemma defer_run b i c reason t : ∃ r, deferOpenQuestionToHuman b i c reason t = inr (rewritten (λ q, is_question b i q && bool_decide (q_status q = Open)) (deferred c reason) t, r).
Proof. by eexists. Qed.
(** A question the hand-over defers. *)
Definition handed_row (reason : str) (q q' : StoredQuestion) : Prop := key q' = key q ∧ q_status q' = PendingHuman ∧ q_reason q' = Some reason ∧ escalationId q' = escalationId q.
Lemma defer_marks b reason qs t t' handed : filterTx (λ q, deferOpenQuestionToHuman b (q_questionId q) (effectiveClasses q) reason) qs t = inr (t', handed) →
  ∀ q, q ∈ questions t → (q_status q ≠ Open → q ∈ questions t') ∧ (q_status q = Open → (∃ x, x ∈ qs ∧ key q = (b, q_questionId x)) → ∃ q', q' ∈ questions t' ∧ handed_row reason q q').
Proof.
  revert t handed. induction qs as [|x qs IH]; intros t handed H q Hq; cbn in H.
  - apply ret_inr in H as [-> _]. split; [done|]. intros _ (x&Hx&_). by apply elem_of_nil in Hx.
  - apply bind_inr in H as (t1&r&Hd&H). apply bind_inr in H as (t2&kept&H2&H). apply ret_inr in H as [-> _].
    destruct (defer_run b (q_questionId x) (effectiveClasses x) reason t) as [r' Hd']. rewrite Hd' in Hd. injection Hd as <- _. specialize (IH _ _ H2).
    set (g := λ q, if is_question b (q_questionId x) q && bool_decide (q_status q = Open) then deferred (effectiveClasses x) reason q else q).
    assert (g q ∈ questions (rewritten (λ q, is_question b (q_questionId x) q && bool_decide (q_status q = Open)) (deferred (effectiveClasses x) reason) t)) as Hg by (apply list_elem_of_fmap; by exists q).
    specialize (IH _ Hg) as [IH1 IH2]. unfold g in *. destruct (_ && _) eqn:E.
    + apply open_condition in E as [Hk Ho]. split; [done|]. intros _ _. eexists. split; [by apply IH1|]. by split_and!.
    + split; [done|]. intros Ho (y&[->|Hy]%elem_of_cons&Hk); [|by apply IH2; eauto]. apply not_true_iff_false in E. exfalso. by apply E, open_condition.
Qed.

Lemma defer_escalations b reason qs t t' handed : filterTx (λ q, deferOpenQuestionToHuman b (q_questionId q) (effectiveClasses q) reason) qs t = inr (t', handed) → escalations t' = escalations t.
Proof.
  revert t handed. induction qs as [|x qs IH]; intros t handed H; cbn in H; [by apply ret_inr in H as [-> _]|].
  apply bind_inr in H as (t1&r&Hd&H). apply bind_inr in H as (t2&kept&H2&H). apply ret_inr in H as [-> _]. rewrite (IH _ _ H2).
  destruct (defer_run b (q_questionId x) (effectiveClasses x) reason t) as [r' Hd']. rewrite Hd' in Hd. by injection Hd as <- _.
Qed.
Lemma moved_closed b t t' : moved t t' → (∀ q, q ∈ questions t → q_batchId q = b → q_status q ≠ Open) → ∀ q, q ∈ questionsOfBatch t' b → q_status q ≠ Open.
Proof.
  intros Hm H q' [Hb%str_eqb_eq Hq']%list_elem_of_filter Ho. destruct (Forall2_elem_r _ _ _ _ (moved_rows _ _ Hm) Hq') as (q&Hq&Ha&_).
  apply (H q Hq); [by rewrite <- (row_batch _ _ Ha)|]. pose proof (ra_status _ _ Ha) as Hs. rewrite Ho in Hs. by destruct (q_status q).
Qed.
(** In well-formed tables every question of the batch that is open is handed over. *)
Definition waiting_of (t : tables) (b : str) : list StoredQuestion := filter (λ q, isWaiting q = true) (questionsOfBatch t b).
Lemma waiting_of_open t b q : wf [] t → q ∈ questions t → q_batchId q = b → q_status q = Open → q ∈ waiting_of t b.
Proof.
  intros Hwf Hq Hb Ho. unfold waiting_of, questionsOfBatch. rewrite !list_elem_of_filter, str_eqb_eq. split_and!; try done. unfold isWaiting. rewrite andb_true_iff, !bool_decide_eq_true.
  destruct (wf_rows _ _ Hwf _ Hq) as (m&k&_&Hf). by apply (fine_open _ _ _ _ _ Ho) in Hf as (_&?&_).
Qed.
Lemma hand_over_runs call b reason t : good t → bcore b ∈ bcores t → roomy call (batch_managerId b) → findEscalation t (newEscalationId call) = None → listable (batch_ticket b) (newEscalationId call) →
  (∀ e, findPendingEscalation t (batch_managerId b) (batch_ticket b) = Some e → listable (batch_ticket b) (esc_id e)) →
  ∃ t' r, handWaitingQuestionsToHuman call b reason t = inr (t', r)
    ∧ (∀ q, q ∈ questionsOfBatch t' (batch_id b) → q_status q ≠ Open)
    ∧ (∀ q, q ∈ questionsOfBatch t (batch_id b) → q_status q = Open → ∃ q' id, q' ∈ questionsOfBatch t' (batch_id b) ∧ key q' = key q ∧ q_status q' = PendingHuman ∧ q_reason q' = Some reason
         ∧ escalationId q' = Some id ∧ shown t' (batch_managerId b) id reason).
Proof.
  intros Hg Hbc Hroom Hnew Hitem Hpend. unfold handWaitingQuestionsToHuman. rewrite (bind_run _ _ t t (waiting_of t (batch_id b))) by done.
  destruct (filterTx_runs (λ q, deferOpenQuestionToHuman (batch_id b) (q_questionId q) (effectiveClasses q) reason) (waiting_of t (batch_id b)) t) as [[t1 handed] Hd]; [intros q s; by eexists|].
  rewrite (bind_run _ _ _ _ _ Hd). pose proof (defer_marks _ _ _ _ _ _ Hd) as Hmarks. pose proof (defer_escalations _ _ _ _ _ _ Hd) as Hesc. destruct (defer_all _ _ _ _ _ _ _ (good_wf _ Hg) Hd) as (Hm&Hclosed&Hh&W&HW&Hin).
  assert (∀ q, q ∈ questions t1 → q_batchId q = batch_id b → q_status q ≠ Open) as Hno.
  { intros q' Hq' Hb' Ho. destruct (Forall2_elem_r _ _ _ _ (moved_rows _ _ Hm) Hq') as (q&Hq&Ha&_). pose proof (ra_status _ _ Ha) as Hs. rewrite Ho in Hs.
    rewrite (row_batch _ _ Ha) in Hb'. assert (q_status q = Open) as Hqo by (by destruct (q_status q)). apply (Hclosed q (waiting_of_open _ _ _ (good_wf _ Hg) Hq Hb' Hqo) q' Hq'); [|done].
    rewrite (ra_key _ _ Ha). unfold key. by rewrite Hb'. }
  assert (∀ q, q ∈ questionsOfBatch t (batch_id b) → q_status q = Open → ∃ q', q' ∈ questions t1 ∧ handed_row reason q q' ∧ key q' ∈ pair (batch_id b) <$> (q_questionId <$> handed)) as Hrow.
  { intros q [Hqb%str_eqb_eq Hq]%list_elem_of_filter Ho. destruct (proj2 (Hmarks q Hq) Ho) as (q'&Hq'&Hr).
    { exists q. split; [by apply waiting_of_open; [apply Hg|..]|]. unfold key. by rewrite Hqb. }
    exists q'. split; [done|]. split; [done|]. destruct Hr as (Hk&Hs&_&He). destruct (wf_rows _ _ HW _ Hq') as (m&k&_&[(Hw&_)|[_ Hp]]).
    - apply Hin in Hw as [?%elem_of_nil|]; done.
    - exfalso. unfold placed in Hp. rewrite Hs in Hp. destruct Hp as (_&c&_&He'&_). destruct (wf_rows _ _ (good_wf _ Hg) _ Hq) as (m'&k'&_&Hf). apply (fine_open _ _ _ _ _ Ho) in Hf as (_&_&?). congruence. }
  destruct handed as [|h handed]; cbn [length Nat.eqb].
  { exists t1, None. split; [done|]. split; [by apply (moved_closed _ t1 t1)|]. intros q Hq Ho. destruct (Hrow q Hq Ho) as (q'&_&_&[]%elem_of_nil). }
  destruct (join_runs call (batch_id b) (batch_managerId b) (batch_ticket b) (q_questionId <$> h :: handed) reason t1) as (t2&j&Hj&Hsh).
  { apply (moved_lists _ _ Hm), Hg. } { done. } { by apply (good_tickets _ Hg (bcore b)). } { unfold findEscalation. by rewrite Hesc. } { done. } { unfold findPendingEscalation. by rewrite Hesc. }
  rewrite (bind_run _ _ _ _ _ Hj). exists t2, (Some j). split; [done|]. pose proof (join_effect _ _ _ _ _ _ _ _ _ Hj) as (c&_&Hcid&_&_&_&_&Hq2).
  apply (wf_waiting _ (pair (batch_id b) <$> (q_questionId <$> h :: handed))) in HW; [|intros x; rewrite Hin; rewrite elem_of_nil; tauto].
  assert (moved t1 t2) as Hm2. { eapply join_wf; [exact HW|done| | |exact Hj]; [by rewrite (moved_batches _ _ Hm)|]. destruct (proj1 (list_elem_of_fmap _ _ _) (Hh h (list_elem_of_here _ _))) as (q0&Hk0&Hq0).
    rewrite <- (moved_keys _ _ Hm) in Hh. destruct (proj1 (list_elem_of_fmap _ _ _) (Hh h (list_elem_of_here _ _))) as (q1&Hk1&Hq1). exists q1. split; [done|]. rewrite <- Hk1. cbn. apply elem_of_cons. by left. }
  split; [by apply (moved_closed _ t1 t2)|]. intros q Hq Ho. destruct (Hrow q Hq Ho) as (q'&Hq'&(Hk&Hs&Hre&He)&Hin'). exists (attached (c_id c) q'), (ea_escalationId j).
  split; [|split; [done|split; [done|split; [done|split; [cbn; by rewrite Hcid|done]]]]].
  apply list_elem_of_filter. split; [apply str_eqb_eq; cbn; apply list_elem_of_filter in Hq as [Hqb%str_eqb_eq _]; injection Hk; congruence|].
  rewrite Hq2. apply list_elem_of_fmap. exists q'. split; [|done]. by rewrite (proj2 (attach_condition_spec _ _ _) Hin').
Qed.

(** ** The answer commits *)
Lemma remove_runs call m id t : ∃ t', removeItemWithoutFailingTheAnswer call m id t = inr (t', ()).
Proof. unfold removeItemWithoutFailingTheAnswer. destruct (removeItemFromQuestionsForHuman call m id t) as [e|[t' []]]; by eexists. Qed.
Lemma viewOf_runs id t : is_Some (findEscalation t id) → ∃ v, viewOf id t = inr (t, v).
Proof. intros [e He]. unfold viewOf. rewrite (bind_run _ _ t t (Some e)) by (unfold reads; by rewrite He). by eexists. Qed.
Lemma find_core t id : is_Some (findEscalation t id) ↔ id ∈ c_id <$> cores t.
Proof.
  rewrite <- not_eq_None_Some, findEscalation_None. split; [|tauto]. intros H. destruct (decide (id ∈ c_id <$> cores t)); tauto.
Qed.
Lemma answer_runs isFormat maskedSecrets call id answers t e : findEscalation t id = Some e → esc_status e = EscPending → matchesTheQuestions (waiting_in t id) answers = true →
  ∃ t' r, answer isFormat maskedSecrets call id answers t = inr (t', r).
Proof.
  intros He Hs Hm. unfold answer. rewrite (bind_run _ _ t t e).
  - rewrite (bind_run _ _ t t (waiting_in t id)) by done. rewrite Hm. cbn [negb].
    destruct (each_runs (answer_question isFormat maskedSecrets call (waiting_in t id)) answers t) as [t1 H1]; [intros a s; apply each_runs; intros q s'; by eexists|].
    rewrite (bind_run _ _ _ _ _ H1). apply answers_effect in H1. assert (∃ t2, answerEscalationIfPending id (now call) t1 = inr (t2, ())) as [t2 H2] by (by eexists). rewrite (bind_run _ _ _ _ _ H2).
    destruct (viewOf_runs id t2) as [v Hv].
    { apply find_core. apply answered_cores in H2 as (->&_). rewrite <- list_fmap_compose. rewrite (list_fmap_ext _ c_id (cores t1)); [|intros ? c _; apply core_answered_id]. subst t1. apply (find_core t). by eexists. }
    rewrite (bind_run _ _ _ _ _ Hv). destruct (remove_runs call (ev_managerId v) id t2) as [t3 H3]. rewrite (bind_run _ _ _ _ _ H3). by eexists _, _.
  - unfold pendingEscalation. rewrite (bind_run _ _ t t (Some e)) by (unfold reads; by rewrite He). rewrite bool_decide_false; [done|]. by rewrite Hs.
Qed.

Section Claims.
Variable isFormat isSeparator isIgnorable : N → bool.
Variable normalizeNFC toLowerCase maskedSecrets : str → str.
Local Abbreviation tables_of := (tables_after isFormat isSeparator isIgnorable normalizeNFC toLowerCase maskedSecrets).

(** C12. The hand-over fails closed: in tables reached by any history, when the working state of the manager stays under its byte limit, the item of the card is one printable line and the drawn id is new, the hand-over
    of a batch commits even when the list of the manager is full; after it no question of the batch waits for the arbiter, and each one that did waits for the human with the reason of the hand-over, on a pending card of its manager
    that is listed for the human or carries the refusal of the listing with that reason. *)
Theorem the_hand_over_fails_closed es call batchId reason b :
  findBatch (tables_of es) batchId = Some b → roomy call (batch_managerId b) → findEscalation (tables_of es) (newEscalationId call) = None → listable (batch_ticket b) (newEscalationId call) →
  (∀ e, findPendingEscalation (tables_of es) (batch_managerId b) (batch_ticket b) = Some e → listable (batch_ticket b) (esc_id e)) →
  ∃ t' r, escalateBatchToHuman call batchId reason (tables_of es) = inr (t', r)
    ∧ (∀ q, q ∈ questionsOfBatch t' batchId → q_status q ≠ Open)
    ∧ (∀ q, q ∈ questionsOfBatch (tables_of es) batchId → q_status q = Open →
         ∃ q' id, q' ∈ questionsOfBatch t' batchId ∧ key q' = key q ∧ q_status q' = PendingHuman ∧ q_reason q' = Some reason ∧ escalationId q' = Some id ∧ shown t' (batch_managerId b) id reason).
Proof.
  intros Hb Hroom Hnew Hitem Hpend. pose proof (findBatch_core _ _ _ Hb) as (_&<-&Hbc).
  destruct (hand_over_runs call b reason (tables_of es)) as (t'&r&Hh&Hrest); try done; [by apply reached_good|]. exists t'. eexists.
  split; [|exact Hrest]. unfold escalateBatchToHuman. rewrite (bind_run _ _ (tables_of es) (tables_of es) (Some b)) by (unfold reads; by rewrite Hb). by rewrite (bind_run _ _ _ _ _ Hh).
Qed.

(** The human answers an escalation at once: in tables reached by any history, when the escalation is pending and the answers name each of its question ids once and no other, the answer commits; every question of the
    escalation is answered with the readable text given for its id, every other question is left as it was, and the escalation is answered. *)
Theorem an_answer_settles_the_escalation es call id answers e :
  findEscalation (tables_of es) id = Some e → esc_status e = EscPending → matchesTheQuestions (waiting_in (tables_of es) id) answers = true →
  ∃ t' r, answer isFormat maskedSecrets call id answers (tables_of es) = inr (t', r)
    ∧ (∀ q, q ∈ questionsOfEscalation (tables_of es) id → ∃ a, a ∈ answers ∧ a.1 = q_questionId q ∧ answered_by (humanReadableText isFormat maskedSecrets a.2) (now call) q ∈ questionsOfEscalation t' id)
    ∧ (∀ q, q ∈ questions (tables_of es) → escalationId q ≠ Some id → q ∈ questions t')
    ∧ ∃ e', findEscalation t' id = Some e' ∧ esc_status e' = EscAnswered.
Proof.
  intros He Hs Hm. set (t := tables_of es) in *. destruct (answer_runs isFormat maskedSecrets call id answers t e He Hs Hm) as (t'&r&H). exists t', r. split; [done|].
  pose proof (reached_good isFormat isSeparator isIgnorable normalizeNFC toLowerCase maskedSecrets es) as Hg. fold t in Hg. pose proof (good_wf _ Hg) as Hwf.
  apply answer_effect in H as (_&_&_&_&Hq&Hc&_). destruct (findEscalation_Some _ _ _ He) as (Hei&Hid&Hec). split_and!.
  - intros q [Hqe%bool_decide_eq_true Hqi]%list_elem_of_filter. assert (q_status q = PendingHuman) as Hp.
    { destruct (wf_rows _ _ Hwf _ Hqi) as (m&k&_&[(?%elem_of_nil&_)|[_ Hp]]); [done|]. unfold placed in Hp. destruct (q_status q); [destruct Hp; congruence|destruct Hp; congruence|destruct Hp as (_&?&_); congruence|done|].
      destruct Hp as (_&(c&Hci&Hce&_&_&Hcs)&_). exfalso. assert (c = core_of e) as ->; [|cbn in Hcs; congruence].
      apply list_elem_of_lookup in Hci as [i Hi], Hec as [j Hj]. assert (i = j) as ->; [|congruence]. eapply NoDup_lookup; [apply (wf_ids _ _ Hwf)|..]; rewrite list_lookup_fmap; [by rewrite Hi|rewrite Hj; cbn; congruence]. }
    destruct (row_answered_done isFormat maskedSecrets t id answers (now call) q Hm Hqi Hp Hqe) as (a&Ha&Hai&Hrow). exists a. split_and!; try done. apply list_elem_of_filter.
    split; [by apply bool_decide_eq_true|]. rewrite Hq, <- Hrow. apply list_elem_of_fmap. by exists q.
  - intros q Hqi Hne. rewrite Hq. apply list_elem_of_fmap. exists q. split; [|done]. unfold row_answered. destruct (pending_in _ q) eqn:E; [|done].
    apply pending_in_spec in E as [_ (p&Hk&Hp)%list_elem_of_fmap]. apply waiting_in_spec in Hp as (Hp&_&Hpe). assert (q = p) as -> by (eapply same_row; [apply Hwf|done..]). congruence.
  - assert (is_Some (findEscalation t' id)) as [e' He'] by (apply find_core; rewrite Hc, <- list_fmap_compose, (list_fmap_ext _ c_id (cores t)) by (intros ? c _; apply core_answered_id); apply (find_core t); by eexists).
    exists e'. split; [done|]. destruct (findEscalation_Some _ _ _ He') as (_&Hid'&Hec'). rewrite Hc in Hec'. apply list_elem_of_fmap in Hec' as (c&Hcc&_). apply (f_equal c_status) in Hcc as Hst. apply (f_equal c_id) in Hcc.
    rewrite core_answered_id in Hcc. cbn in Hcc, Hst. rewrite Hst. unfold core_answered. rewrite <- Hcc, Hid', str_eqb_refl. cbn [andb].
    destruct (bool_decide (c_status c = EscPending)) eqn:Eb; [done|]. apply bool_decide_eq_false in Eb. by destruct (c_status c).
Qed.
(** C25. Criteria are approved only when the ladder of the ticket is settled: in tables reached by any history, the batch the approval stands on belongs to the manager, the ticket and the plan note, has a favourable opinion and was audited
    at the current revision of the note; every question the manager submitted on the ticket is settled, those routed to the human have an answer of the human, and those the arbiter decided have exactly one decision. *)
Theorem approval_needs_every_answer es m k note rev b : favourableBatchOnCurrentRevision (tables_of es) m k note rev = inr b →
  b ∈ batchesOfTicket (tables_of es) m k ∧ planNoteId b = note ∧ (∃ reasons, criteriaOpinion b = Some (Favourable, reasons)) ∧ rev = Some (auditedRevisionOf (decisionsOfBatch (tables_of es) (batch_id b)) b)
  ∧ ∀ b' q, b' ∈ batchesOfTicket (tables_of es) m k → q ∈ questionsOfBatch (tables_of es) (batch_id b') →
      is_settled (q_status q) = true ∧ (q_route q = ToHuman → is_Some (humanAnswer q)) ∧ (q_status q = Decided → ∃ d, filter (λ d, dkey d = key q) (decisions (tables_of es)) = [d]).
Proof.
  set (t := tables_of es) in *. intros H. pose proof (reached_good isFormat isSeparator isIgnorable normalizeNFC toLowerCase maskedSecrets es) as Hg. fold t in Hg.
  unfold favourableBatchOnCurrentRevision in H. cbv zeta in H. set (qs := concat _) in H. destruct (Nat.eqb _ _); [done|]. destruct (existsb _ qs) eqn:E1; [done|]. destruct (existsb (λ q, bool_decide (q_status q = Open)) qs) eqn:E2; [done|].
  destruct (Nat.eqb _ _); [done|]. destruct (list.last _) as [b0|] eqn:El; [|done]. injection H as ->. apply last_Some_elem_of, list_elem_of_filter in El as [Hrev [Hfav Hb]%list_elem_of_filter].
  apply andb_true_iff in Hfav as [Hn%str_eqb_eq Hf%bool_decide_eq_true]. split_and!; try done.
  { destruct (criteriaOpinion b) as [[o rs]|]; cbn in Hf; [|done]. injection Hf as ->. by eexists. }
  intros b' q Hb' Hq. assert (q ∈ qs) as Hqs. { apply list_elem_of_In, in_concat. exists (questionsOfBatch t (batch_id b')). split; [|by apply list_elem_of_In]. apply list_elem_of_In, list_elem_of_fmap. by exists b'. }
  assert (∀ s, existsb (λ q, bool_decide (q_status q = s)) qs = false → q_status q ≠ s) as Hex.
  { intros s Hs He. apply not_true_iff_false in Hs. apply Hs, existsb_exists. exists q. split; [by apply list_elem_of_In|by apply bool_decide_eq_true]. }
  apply Hex in E1, E2. apply list_elem_of_filter in Hq as [_ Hq]. destruct (wf_rows _ _ (good_wf _ Hg) _ Hq) as (m'&k'&_&[(?%elem_of_nil&_)|[_ Hp]]); [done|]. unfold placed in Hp.
  split_and!.
  - by destruct (q_status q).
  - intros Hr. destruct (q_status q); [done|destruct Hp; congruence|destruct Hp; congruence|done|by destruct Hp as (_&_&?&_)].
  - intros Hd. destruct (dec_for _ _ (good_dec _ Hg) _ Hq Hd) as (d&Hdi&Hdk). exists d. rewrite <- Hdk. apply one_dkey; [apply Hg|done].
Qed.
End Claims.

(** ** One ticket from end to end *)
Definition plain (c : N) : bool := false.
Definition call_of (n : Z) (bid eid : str) : Call := mkCall n bid eid (λ _ _, true) (λ _, false) false (Some 3%Z) false (Some 4%Z) [].
Definition RUN : ReproClaim := mkClaim (js "the list is ordered") Proven (Some (js "pnpm test list")) (Some (js "3 passed")).
Definition asks (qid text class : str) (resolution : option ReproClaim) (reopens : option str) : PlanQuestion := mkPlanQuestion qid text class None None None resolution reopens.
Definition submission (qs : list PlanQuestion) : PlanQuestionBatch := mkPlanBatch (js "m1") (js "KB-1") (js "note") 3 qs ESCALATING_CLASSES [].
Definition settles (qid : str) : OpinionDecision := mkOpinionDecision qid VerdictDecided (js "keep the list") (js "it is ordered") None None.
Abbreviation history_of := (tables_after plain plain plain Datatypes.id Datatypes.id Datatypes.id).
Definition FIRST_ROUND : list EscalationEvent :=
  [Submitted (call_of 1 (js "b1") (js "e1")) (submission [asks (js "q1") (js "Which list?") (js "technical") None None; asks (js "q2") (js "May we change it?") (js "contract") None None])].
Definition SECOND_ROUND : list EscalationEvent :=
  FIRST_ROUND ++
  [Reported (call_of 2 [] []) (js "m1") (js "a1") (mkOpinion (js "b1") [settles (js "q1")] NotAsked []);
   Submitted (call_of 3 (js "b2") (js "e2")) (submission [asks (js "q3") (js "Is it the other one?") (js "technical") (Some RUN) (Some (js "q1"))]);
   Reported (call_of 4 [] []) (js "m1") (js "a2") (mkOpinion (js "b2") [settles (js "q3")] NotAsked [])].
Definition THIRD_ROUND : list EscalationEvent :=
  SECOND_ROUND ++ [Submitted (call_of 5 (js "b3") (js "e3")) (submission [asks (js "q4") (js "Is it really?") (js "technical") (Some RUN) (Some (js "q3"))])].
Definition ANSWERS : list (str * str) := [(js "q4", js "yes"); (js "q2", js "no")].
Definition LAST_ROUND : list EscalationEvent :=
  THIRD_ROUND ++
  [HumanAnswered (call_of 6 [] []) (js "e1") ANSWERS;
   Submitted (call_of 7 (js "b4") (js "e4")) (submission [asks (js "q5") (js "Which page?") (js "technical") None None]);
   Reported (call_of 8 [] []) (js "m1") (js "a3") (mkOpinion (js "b4") [settles (js "q5")] Favourable [])].
(** The first contest goes back to the arbiter, the second one to the human on the one card of the ticket. *)
Example the_rounds_of_a_ticket :
  ((λ q, (q_questionId q, q_route q, q_status q, escalationId q)) <$> questions (history_of THIRD_ROUND))
  = [(js "q1", ToArbiter, Decided, None); (js "q2", ToHuman, PendingHuman, Some (js "e1")); (js "q3", ToArbiter, Decided, None); (js "q4", ToHuman, PendingHuman, Some (js "e1"))]
  ∧ ((λ e, (esc_id e, esc_status e)) <$> escalations (history_of THIRD_ROUND)) = [(js "e1", EscPending)]
  ∧ (q_status <$> questions (history_of LAST_ROUND)) = [Decided; Answered; Decided; Answered; Decided].
Proof. by vm_compute. Qed.
(** A third contest is refused. *)
Example a_third_contest_is_refused :
  questions (history_of (LAST_ROUND ++ [Submitted (call_of 9 (js "b5") (js "e5")) (submission [asks (js "q6") (js "Again?") (js "technical") (Some RUN) (Some (js "q4"))])]))
  = questions (history_of LAST_ROUND).
Proof. by vm_compute. Qed.
(** A working state over its byte limit refuses the hand-over as a whole: the batch keeps waiting for an arbiter it no longer has, and no card is raised. *)
Definition tight_call : Call := mkCall 2 [] (js "e9") (λ _ _, false) (λ _, false) false (Some 3%Z) false (Some 4%Z) [].
Definition ARBITER_ONLY : list EscalationEvent := [Submitted (call_of 1 (js "b1") (js "e1")) (submission [asks (js "q1") (js "Which list?") (js "technical") None None])].
Example a_large_working_state_refuses_the_hand_over :
  escalateBatchToHuman tight_call (js "b1") ARBITER_UNAVAILABLE_REASON (history_of ARBITER_ONLY) = inl StateTooLarge
  ∧ (q_status <$> questions (history_of (ARBITER_ONLY ++ [HandedOver tight_call (js "b1") ARBITER_UNAVAILABLE_REASON]))) = [Open]
  ∧ escalations (history_of (ARBITER_ONLY ++ [HandedOver tight_call (js "b1") ARBITER_UNAVAILABLE_REASON])) = [].
Proof. by vm_compute. Qed.
(** Two batches that name a question alike share one answer on the card. *)
Example questions_of_one_name_share_their_answer :
  (humanAnswer <$> questions (history_of
     [Submitted (call_of 1 (js "b1") (js "e1")) (submission [asks (js "q1") (js "May we change the route?") (js "contract") None None]);
      Submitted (call_of 2 (js "b2") (js "e2")) (submission [asks (js "q1") (js "May we spend more?") (js "spend") None None]);
      HumanAnswered (call_of 3 [] []) (js "e1") [(js "q1", js "yes")]])) = [Some (js "yes"); Some (js "yes")].
Proof. by vm_compute. Qed.
Lemma the_hand_over_fails_closed_witness :
  ∃ t' r, escalateBatchToHuman (call_of 2 [] (js "e2")) (js "b1") ARBITER_UNAVAILABLE_REASON (history_of FIRST_ROUND) = inr (t', r)
    ∧ (∀ q, q ∈ questionsOfBatch t' (js "b1") → q_status q ≠ Open)
    ∧ (∀ q, q ∈ questionsOfBatch (history_of FIRST_ROUND) (js "b1") → q_status q = Open →
         ∃ q' id, q' ∈ questionsOfBatch t' (js "b1") ∧ key q' = key q ∧ q_status q' = PendingHuman ∧ q_reason q' = Some ARBITER_UNAVAILABLE_REASON ∧ escalationId q' = Some id ∧ shown t' (js "m1") id ARBITER_UNAVAILABLE_REASON).
Proof.
  apply (the_hand_over_fails_closed plain plain plain Datatypes.id Datatypes.id Datatypes.id FIRST_ROUND (call_of 2 [] (js "e2")) (js "b1") ARBITER_UNAVAILABLE_REASON (mkBatch (js "b1") (js "m1") (js "KB-1") (js "note") 3 1 0 None)).
  - by vm_compute.
  - by intros items.
  - by vm_compute.
  - by vm_compute.
  - intros e He. vm_compute in He. injection He as <-. by vm_compute.
Defined.
Lemma an_answer_settles_the_escalation_witness :
  ∃ t' r, answer plain Datatypes.id (call_of 6 [] []) (js "e1") ANSWERS (history_of THIRD_ROUND) = inr (t', r)
    ∧ (∀ q, q ∈ questionsOfEscalation (history_of THIRD_ROUND) (js "e1") → ∃ a, a ∈ ANSWERS ∧ a.1 = q_questionId q ∧ answered_by (humanReadableText plain Datatypes.id a.2) 6 q ∈ questionsOfEscalation t' (js "e1"))
    ∧ (∀ q, q ∈ questions (history_of THIRD_ROUND) → escalationId q ≠ Some (js "e1") → q ∈ questions t')
    ∧ ∃ e', findEscalation t' (js "e1") = Some e' ∧ esc_status e' = EscAnswered.
Proof.
  destruct (findEscalation (history_of THIRD_ROUND) (js "e1")) as [e|] eqn:E; [|by vm_compute in E].
  apply (an_answer_settles_the_escalation plain plain plain Datatypes.id Datatypes.id Datatypes.id THIRD_ROUND (call_of 6 [] []) (js "e1") ANSWERS e).
  - exact E.
  - vm_compute in E. by injection E as <-.
  - by vm_compute.
Defined.
Lemma approval_needs_every_answer_witness : ∃ b,
  b ∈ batchesOfTicket (history_of LAST_ROUND) (js "m1") (js "KB-1") ∧ planNoteId b = js "note" ∧ (∃ reasons, criteriaOpinion b = Some (Favourable, reasons))
  ∧ Some 4%Z = Some (auditedRevisionOf (decisionsOfBatch (history_of LAST_ROUND) (batch_id b)) b)
  ∧ ∀ b' q, b' ∈ batchesOfTicket (history_of LAST_ROUND) (js "m1") (js "KB-1") → q ∈ questionsOfBatch (history_of LAST_ROUND) (batch_id b') →
      is_settled (q_status q) = true ∧ (q_route q = ToHuman → is_Some (humanAnswer q)) ∧ (q_status q = Decided → ∃ d, filter (λ d, dkey d = key q) (decisions (history_of LAST_ROUND)) = [d]).
Proof.
  exists (mkBatch (js "b4") (js "m1") (js "KB-1") (js "note") 3 7 0 (Some (Favourable, []))).
  apply (approval_needs_every_answer plain plain plain Datatypes.id Datatypes.id Datatypes.id LAST_ROUND (js "m1") (js "KB-1") (js "note") (Some 4%Z)). by vm_compute.
Defined.
