(* ===== verification/ArbiterRunner.v ===== *)
(** * The runs of the arbiter

    Models of [packages/core/src/escalation/arbiterRunner.ts] and of the two tools that drive it ([packages/core/src/mcp/escalationTools.ts],
    [packages/core/src/mcp/arbiterTools.ts]): an arbiter per batch of plan questions, retried once when it is lost, then the hand-over to the human.
    The daemon runs one piece of code at a time: an event is what happens between two waits, and [tasks] holds the waits that are still to
    end, a creation or a close of a session, in any order.  The database is the one of [Escalation].  What a creation is given (the directory to read and the
    prompt) is left out. *)
From S2P Require Import Prelude Transaction JsText Regex Sorting MessageEnvelope PolicyTypes PolicyEvaluator SecretMasker TriggerActions FloorClasses Escalation.

Definition MINUTE_MS : Z := 60000.
Definition SLEEPING_MANAGER_EXPIRY_MS : Z := 30 * MINUTE_MS.
Definition MIN_EXPIRY_MS : Z := 10 * MINUTE_MS.
Definition PULSES_BEFORE_EXPIRY : Z := 2.
Definition MS_PER_SECOND : Z := 1000.
Definition MAX_REFUSED_OPINIONS : nat := 3.
Definition FAILURES_BEFORE_FAIL_CLOSED : nat := 2.
Definition MAX_CLOSE_ATTEMPTS : nat := 3.
Definition BATCH_TAG_LENGTH : nat := 8.
Definition batchTagOf (batchId : str) : str := js "[" ++ slice batchId 0 BATCH_TAG_LENGTH ++ js "]".
Definition expiryMsOf (isSleeping : bool) (pulseSeconds : Z) : Z :=
  if isSleeping then SLEEPING_MANAGER_EXPIRY_MS else Z.max MIN_EXPIRY_MS (PULSES_BEFORE_EXPIRY * pulseSeconds * MS_PER_SECOND).

Record Run := mkRun { run_batchId : str; run_managerId : str; refusedOpinions : nat }.
(** What the daemon waits for: [sessions.create] for a batch in a workspace, a start that threw before it and whose rejection is on its way, [sessions.close] of an arbiter given up on,
    [sessions.close] nobody waits for, and the timer of its next attempt. *)
Inductive Task := Spawning (batchId managerId workspace : str) | SpawnThrown (batchId : str) | Retiring (sessionId batchId : str) | Closing (sessionId : str) (attempt : nat) | CloseRetry (sessionId : str) (attempt : nat).
#[export] Instance Task_eq_dec : EqDecision Task.
Proof. solve_decision. Defined.
Record runner := mkRunner
  { db : tables; runBySessionId : rec Run; failuresByBatchId : rec nat; journaledMissingDecisions : list (str * str); workspaceBySessionId : rec str; isStopped : bool; tasks : list Task;
    (** The batches whose hand-over threw, as the log or the caller of the tool hears it. *)
    unrecovered : list str }.
Definition set_db (v : tables) (r : runner) : runner := mkRunner v (runBySessionId r) (failuresByBatchId r) (journaledMissingDecisions r) (workspaceBySessionId r) (isStopped r) (tasks r) (unrecovered r).
Definition set_runs (v : rec Run) (r : runner) : runner := mkRunner (db r) v (failuresByBatchId r) (journaledMissingDecisions r) (workspaceBySessionId r) (isStopped r) (tasks r) (unrecovered r).
Definition set_failures (v : rec nat) (r : runner) : runner := mkRunner (db r) (runBySessionId r) v (journaledMissingDecisions r) (workspaceBySessionId r) (isStopped r) (tasks r) (unrecovered r).
Definition set_journaled (v : list (str * str)) (r : runner) : runner := mkRunner (db r) (runBySessionId r) (failuresByBatchId r) v (workspaceBySessionId r) (isStopped r) (tasks r) (unrecovered r).
Definition set_workspaces (v : rec str) (r : runner) : runner := mkRunner (db r) (runBySessionId r) (failuresByBatchId r) (journaledMissingDecisions r) v (isStopped r) (tasks r) (unrecovered r).
Definition set_stopped (v : bool) (r : runner) : runner := mkRunner (db r) (runBySessionId r) (failuresByBatchId r) (journaledMissingDecisions r) (workspaceBySessionId r) v (tasks r) (unrecovered r).
Definition set_tasks (v : list Task) (r : runner) : runner := mkRunner (db r) (runBySessionId r) (failuresByBatchId r) (journaledMissingDecisions r) (workspaceBySessionId r) (isStopped r) v (unrecovered r).
Definition set_unrecovered (v : list str) (r : runner) : runner := mkRunner (db r) (runBySessionId r) (failuresByBatchId r) (journaledMissingDecisions r) (workspaceBySessionId r) (isStopped r) (tasks r) v.
Definition await (task : Task) (r : runner) : runner := set_tasks (tasks r ++ [task]) r.
(** The first task of the list that is this one. *)
Fixpoint without_task (task : Task) (l : list Task) : list Task :=
  match l with [] => [] | x :: rest => if bool_decide (x = task) then rest else x :: without_task task rest end.

(** What a call of the runner meets: the call of the escalation service a hand-over makes, the quota of the project, whether the manager and its session are known and the directory
    and the workspace are there ([None] when one of them throws). *)
Record RunnerCall := mkRunnerCall { rc_call : Call; maxArbiterRunsPerTicket : nat; newWorkspace : option str }.

Definition batchOf (r : runner) (sessionId : str) : option str := run_batchId <$> get (runBySessionId r) sessionId.
Definition waitingQuestionsOf (t : tables) (batchId : str) : list StoredQuestion := filter (λ q, isWaiting q = true) (questionsOfBatch t batchId).

(** ** Giving up *)
Definition failClosed (c : RunnerCall) (batchId reason : str) (r : runner) : runner :=
  let forgotten := set_failures (del (failuresByBatchId r) batchId) r in
  match escalateBatchToHuman (rc_call c) batchId reason (db r) with
  | inr (t, _) => set_db t forgotten
  | inl _ => set_unrecovered (batchId :: unrecovered r) forgotten
  end.
Definition forget (sessionId : str) (r : runner) : runner * option Run :=
  match get (runBySessionId r) sessionId with
  | None => (r, None)
  | Some run => (set_runs (del (runBySessionId r) sessionId) r, Some run)
  end.
Definition removeWorkspaceOf (sessionId : str) (r : runner) : runner := set_workspaces (del (workspaceBySessionId r) sessionId) r.
Definition track (sessionId batchId managerId : str) (r : runner) : runner :=
  if isStopped r then r else set_runs (put (runBySessionId r) sessionId (mkRun batchId managerId 0)) r.

(** ** Starting *)
(** The questions that contest a decision which is no longer stored are journaled once. *)
Definition journal_missing (batchId : str) (r : runner) (q : StoredQuestion) : runner :=
  match q_reopens q with
  | None => r
  | Some (reopensBatchId, reopensQuestionId) =>
      let earlier := list.last (filter (λ d, dec_questionId d = reopensQuestionId) (decisionsOfBatch (db r) reopensBatchId)) in
      match earlier with
      | Some _ => r
      | None => if bool_decide ((batchId, q_questionId q) ∈ journaledMissingDecisions r) then r else set_journaled ((batchId, q_questionId q) :: journaledMissingDecisions r) r
      end
  end.
Definition earlierDecisionsOf (batchId : str) (qs : list StoredQuestion) (r : runner) : runner := fold_left (journal_missing batchId) qs r.
(** Up to the wait for the creation. *)
Definition spawnFor (c : RunnerCall) (batchId managerId : str) (r : runner) : runner :=
  match newWorkspace c with
  | None => await (SpawnThrown batchId) r
  | Some workspace => await (Spawning batchId managerId workspace) (earlierDecisionsOf batchId (waitingQuestionsOf (db r) batchId) r)
  end.
Definition launch (c : RunnerCall) (batchId : str) (r : runner) : runner :=
  if isStopped r then r
  else
    match findBatch (db r) batchId with
    | None => r
    | Some batch =>
        if Nat.eqb (length (waitingQuestionsOf (db r) batchId)) 0 then r
        else if Nat.leb (maxArbiterRunsPerTicket c) (arbiterRunsOfTicket (db r) (batch_managerId batch) (batch_ticket batch)) then failClosed c batchId ARBITER_QUOTA_REASON r
        else spawnFor c batchId (batch_managerId batch) (set_db (after (addArbiterRun batchId) (db r)) r)
    end.
Definition onArbiterLost (c : RunnerCall) (batchId : str) (r : runner) : runner :=
  if isStopped r then r
  else
    let failures := S (default 0 (get (failuresByBatchId r) batchId)) in
    let counted := set_failures (put (failuresByBatchId r) batchId failures) r in
    if Nat.leb FAILURES_BEFORE_FAIL_CLOSED failures then failClosed c batchId ARBITER_UNAVAILABLE_REASON counted else launch c batchId counted.
(** The creation ends: it threw, or it gave a session, which may be closed already. *)
Definition spawn_ended (c : RunnerCall) (batchId managerId workspace : str) (created : option (str * bool)) (r : runner) : runner :=
  match created with
  | None => onArbiterLost c batchId r
  | Some (sessionId, hasClosedWhileStarting) =>
      let placed := set_workspaces (put (workspaceBySessionId r) sessionId workspace) r in
      if isStopped r then await (Closing sessionId 1) placed
      else if hasClosedWhileStarting : bool then onArbiterLost c batchId (removeWorkspaceOf sessionId placed)
      else track sessionId batchId managerId placed
  end.

(** ** Losing *)
Definition retire (sessionId : str) (r : runner) : runner :=
  match forget sessionId r with
  | (_, None) => r
  | (forgotten, Some run) => await (Retiring sessionId (run_batchId run)) forgotten
  end.
Definition settle (sessionId : str) (r : runner) : runner :=
  match forget sessionId r with
  | (_, None) => r
  | (forgotten, Some run) => await (Closing sessionId 1) (set_failures (del (failuresByBatchId r) (run_batchId run)) forgotten)
  end.
Definition noteRefusedOpinion (sessionId : str) (r : runner) : runner :=
  match get (runBySessionId r) sessionId with
  | None => r
  | Some run =>
      let counted := set_runs (put (runBySessionId r) sessionId (mkRun (run_batchId run) (run_managerId run) (S (refusedOpinions run)))) r in
      if Nat.leb MAX_REFUSED_OPINIONS (S (refusedOpinions run)) then retire sessionId counted else counted
  end.
Definition onSessionClosed (c : RunnerCall) (sessionId : str) (isDaemonShutdown : bool) (r : runner) : runner :=
  let cleaned := if isDaemonShutdown then r else removeWorkspaceOf sessionId r in
  match forget sessionId cleaned with
  | (_, None) => cleaned
  | (forgotten, Some run) => if isDaemonShutdown then forgotten else onArbiterLost c (run_batchId run) forgotten
  end.
(** A close that throws is tried again by a timer, unless the runner is stopped. *)
Definition close_failed (sessionId : str) (attempt : nat) (r : runner) : runner :=
  if Nat.ltb attempt MAX_CLOSE_ATTEMPTS && negb (isStopped r) then await (CloseRetry sessionId (S attempt)) r else r.
Definition is_retry (task : Task) : bool := match task with CloseRetry _ _ => true | _ => false end.
Definition stop (r : runner) : runner := set_runs [] (set_tasks (filter (λ task, is_retry task = false) (tasks r)) (set_stopped true r)).

(** ** After a boot *)
Record LiveArbiter := mkLive { la_id : str; la_directory : str; la_parentId : str; la_name : str }.
Definition resumedArbiter (live : list LiveArbiter) (batch : StoredBatch) : option LiveArbiter :=
  find (λ s, str_eqb (la_parentId s) (batch_managerId batch) && endsWith (la_name s) (batchTagOf (batch_id batch))) live.
(** Each batch comes with what its call meets and whether its manager is known. *)
Definition recover_batch (live : list LiveArbiter) (world : str → RunnerCall * bool) (r : runner) (batchId : str) : runner :=
  match findBatch (db r) batchId with
  | None => r
  | Some batch =>
      match resumedArbiter live batch with
      | Some s => if (world batchId).2 then track (la_id s) batchId (batch_managerId batch) r else onArbiterLost (world batchId).1 batchId r
      | None => onArbiterLost (world batchId).1 batchId r
      end
  end.
Definition recover (live : list LiveArbiter) (world : str → RunnerCall * bool) (r : runner) : runner :=
  let placed := fold_left (λ r s, set_workspaces (put (workspaceBySessionId r) (la_id s) (la_directory s)) r) live r in
  let recovered := fold_left (recover_batch live world) (batchIdsWithOpenArbiterQuestions (db r)) placed in
  let untracked := filter (λ s, has_own (runBySessionId recovered) (la_id s) = false) live in
  fold_left (λ r s, await (Closing (la_id s) 1) r) untracked recovered.
(** The state of a new process over the tables the last one left. *)
Definition booted (t : tables) : runner := mkRunner t [] [] [] [] false [] [].

(** ** The tools and the events *)
Section Tools.
Variable isFormat isSeparator isIgnorable : N → bool.
Variable normalizeNFC toLowerCase maskedSecrets : str → str.

(** [submit_plan_questions], once its input is parsed: the batch is stored and its arbiter launched in the same turn. *)
Definition submit_plan_questions (call : Call) (b : PlanQuestionBatch) (c : RunnerCall) (r : runner) : runner :=
  match submitBatch isFormat isSeparator isIgnorable normalizeNFC toLowerCase maskedSecrets call b (db r) with
  | inl _ => r
  | inr (t, (submitted, _)) => launch c (sub_batchId submitted) (set_db t r)
  end.
(** [report_arbiter_opinion] of an arbiter of the manager; [None] is an opinion of the wrong shape. *)
Definition report_arbiter_opinion (call : Call) (sessionId managerId : str) (parsed : option ArbiterOpinion) (r : runner) : runner :=
  match parsed with
  | None => noteRefusedOpinion sessionId r
  | Some opinion =>
      if negb (bool_decide (batchOf r sessionId = Some (op_batch_id opinion))) then r
      else
        match recordArbiterOpinion isFormat isSeparator isIgnorable maskedSecrets call managerId sessionId opinion (db r) with
        | inr (t, _) => settle sessionId (set_db t r)
        | inl InvalidBody => noteRefusedOpinion sessionId r
        | inl _ => r
        end
  end.
Inductive RunnerEvent :=
  | SubmitTool (call : Call) (b : PlanQuestionBatch) (c : RunnerCall)
  | ReportTool (call : Call) (sessionId managerId : str) (parsed : option ArbiterOpinion)
  | RetryRoute (call : Call) (id : str)
  | AnswerRoute (call : Call) (id : str) (answers : list (str * str))
  | ListTool (call : Call) (managerId : str) (items : list str)
  | SpawnEnds (batchId managerId workspace : str) (created : option (str * bool)) (c : RunnerCall)
  | ThrownSeen (batchId : str) (c : RunnerCall)
  | RetireEnds (sessionId batchId : str) (hasFailed : bool) (c : RunnerCall)
  | CloseEnds (sessionId : str) (attempt : nat) (hasFailed : bool)
  | RetryFires (sessionId : str) (attempt : nat)
  | Expires (sessionId : str)
  | SessionCloses (sessionId : str) (isDaemonShutdown : bool) (c : RunnerCall)
  | Stops
  | Boots (live : list LiveArbiter) (world : str → RunnerCall * bool).
Definition ended (task : Task) (k : runner → runner) (r : runner) : runner :=
  if bool_decide (task ∈ tasks r) then k (set_tasks (without_task task (tasks r)) r) else r.
Definition runner_step (r : runner) (e : RunnerEvent) : runner :=
  match e with
  | SubmitTool call b c => submit_plan_questions call b c r
  | ReportTool call sessionId managerId parsed => report_arbiter_opinion call sessionId managerId parsed r
  | RetryRoute call id => set_db (after (retryHandover call id) (db r)) r
  | AnswerRoute call id answers => set_db (after (answer isFormat maskedSecrets call id answers) (db r)) r
  | ListTool call managerId items => set_db (after (update call managerId items) (db r)) r
  | SpawnEnds batchId managerId workspace created c => ended (Spawning batchId managerId workspace) (spawn_ended c batchId managerId workspace created) r
  | ThrownSeen batchId c => ended (SpawnThrown batchId) (onArbiterLost c batchId) r
  | RetireEnds sessionId batchId hasFailed c =>
      ended (Retiring sessionId batchId) (λ r, onArbiterLost c batchId (if hasFailed then close_failed sessionId 1 r else r)) r
  | CloseEnds sessionId attempt hasFailed => ended (Closing sessionId attempt) (λ r, if hasFailed then close_failed sessionId attempt r else r) r
  | RetryFires sessionId attempt => ended (CloseRetry sessionId attempt) (await (Closing sessionId attempt)) r
  | Expires sessionId => retire sessionId r
  | SessionCloses sessionId isDaemonShutdown c => onSessionClosed c sessionId isDaemonShutdown r
  | Stops => stop r
  | Boots live world => recover live world (booted (db r))
  end.
(** What a run of the daemon meets: a session that is created is not one that is tracked, the runner is stopped before the daemon closes the sessions to shut down
    ([close] in [daemon.ts]), and at a boot the live arbiters have distinct ids and
    the ids of the batches, of eight characters at least, give distinct tags for the names of their arbiters. *)
Definition admissible (r : runner) (e : RunnerEvent) : Prop :=
  match e with
  | SpawnEnds _ _ _ (Some (sessionId, _)) _ => has_own (runBySessionId r) sessionId = false
  | SessionCloses _ true _ => isStopped r = true
  | Boots live _ => NoDup (la_id <$> live) ∧ NoDup (batchTagOf <$> (batch_id <$> batches (db r))) ∧ Forall (λ b, BATCH_TAG_LENGTH ≤ length (batch_id b)) (batches (db r))
  | _ => True
  end.
Inductive runner_reached : runner → Prop :=
  | reached_first : runner_reached (booted no_tables)
  | reached_step r e : runner_reached r → admissible r e → runner_reached (runner_step r e).
End Tools.
