(* ===== verification/ArbiterRunnerFacts.v ===== *)
(** * No batch is left behind, and the quota holds

    Facts about [ArbiterRunner]: through any history of calls, waits, closes, stops and boots, a batch with a question for the arbiter has
    an arbiter, or one on its way, or a hand-over that threw; and the arbiters started on a ticket stay within the quota. *)
From S2P Require Import Prelude Transaction JsText Regex PolicyTypes PolicyEvaluator MessageEnvelope Sorting SecretMasker TriggerActions FloorClasses Escalation EscalationFacts EscalationHistory EscalationClaims ArbiterRunner.

(** ** Which batches wait for an arbiter *)
Definition waits (t : tables) (b : str) : Prop := ∃ q, q ∈ questions t ∧ q_batchId q = b ∧ q_status q = Open.
Lemma waits_waiting t b : wf [] t → waits t b ↔ waitingQuestionsOf t b ≠ [].
Proof.
  intros Hwf. split.
  - intros (q&Hq&Hb&Ho) Hnil. pose proof (waiting_of_open t b q Hwf Hq Hb Ho) as Hin. unfold waiting_of in Hin. unfold waitingQuestionsOf in Hnil. rewrite Hnil in Hin. by apply elem_of_nil in Hin.
  - intros Hne. destruct (waitingQuestionsOf t b) as [|q l] eqn:E; [done|]. assert (q ∈ waitingQuestionsOf t b) as Hq by (rewrite E; apply elem_of_cons; by left).
    apply list_elem_of_filter in Hq as [Hw [Hb%str_eqb_eq Hq]%list_elem_of_filter]. unfold isWaiting in Hw. rewrite andb_true_iff, !bool_decide_eq_true in Hw. exists q. naive_solver.
Qed.
Lemma moved_waits t t' b : moved t t' → waits t' b → waits t b.
Proof.
  intros Hm (q'&Hq'&Hb&Ho). destruct (Forall2_elem_r _ _ _ _ (moved_rows _ _ Hm) Hq') as (q&Hq&Ha&_). exists q. split; [done|]. rewrite <- (row_batch _ _ Ha). split; [done|].
  pose proof (ra_status _ _ Ha) as Hs. rewrite Ho in Hs. by destruct (q_status q).
Qed.
Lemma calm_waits t t' b : calm t t' → waits t' b → waits t b.
Proof. intros Hc (q&Hq&?). exists q. by rewrite <- (calm_questions _ _ Hc). Qed.
(** A hand-over that commits leaves no question of its batch with the arbiter. *)
Lemma handOver_closes call b reason t t' r : wf [] t → (batch_id b, batch_managerId b, batch_ticket b) ∈ bcores t → handWaitingQuestionsToHuman call b reason t = inr (t', r) → ¬ waits t' (batch_id b).
Proof.
  intros Hwf Hb H. pose proof (handOver_effect _ _ _ _ _ _ Hwf Hb H) as [_ Hm]. unfold handWaitingQuestionsToHuman in H. apply bind_inr in H as (t0&qs&[-> ->]%reads_inr&H). apply bind_inr in H as (t1&handed&Hd&H).
  change (filter _ _) with (waiting_of t (batch_id b)) in Hd. destruct (defer_all _ _ _ _ _ _ _ Hwf Hd) as (Hm1&Hclosed&Hh&W&HW&Hin).
  assert (¬ waits t1 (batch_id b)) as Hno.
  { intros (q'&Hq'&Hb'&Ho). destruct (Forall2_elem_r _ _ _ _ (moved_rows _ _ Hm1) Hq') as (q&Hq&Ha&_). pose proof (ra_status _ _ Ha) as Hs. rewrite Ho in Hs.
    rewrite (row_batch _ _ Ha) in Hb'. assert (q_status q = Open) as Hqo by (by destruct (q_status q)). apply (Hclosed q (waiting_of_open _ _ _ Hwf Hq Hb' Hqo) q' Hq'); [|done].
    rewrite (ra_key _ _ Ha). unfold key. by rewrite Hb'. }
  destruct (Nat.eqb _ _); [by apply ret_inr in H as [-> _]|]. apply bind_inr in H as (t2&j&Hj&H). apply ret_inr in H as [-> _]. apply join_effect in Hj as (c&_&_&_&_&_&_&Hq). intros (q'&Hq'&Hb'&Ho). apply Hno.
  rewrite Hq in Hq'. apply list_elem_of_fmap in Hq' as (q&->&Hq1). exists q. by destruct (attach_condition _ _ _).
Qed.
Lemma escalate_closes call b reason t t' r : good t → escalateBatchToHuman call b reason t = inr (t', r) → good t' ∧ (∀ x, waits t' x → waits t x ∧ x ≠ b).
Proof.
  intros Hg H. unfold escalateBatchToHuman in H. apply bind_inr in H as (t1&o&[-> ->]%reads_inr&H). destruct (findBatch t b) as [sb|] eqn:Eb.
  - apply bind_inr in H as (t1&r1&Hh&H). apply ret_inr in H as [-> _]. destruct (findBatch_core _ _ _ Eb) as (_&<-&Hb). pose proof (handOver_effect _ _ _ _ _ _ (good_wf _ Hg) Hb Hh) as Hwm.
    split; [by apply (moved_step t)|]. intros x Hx. split; [eapply moved_waits; [apply Hwm|done]|]. intros ->. by eapply handOver_closes; [apply Hg|..].
  - apply ret_inr in H as [-> _]. split; [done|]. intros x Hx. split; [done|]. intros ->. destruct Hx as (q&Hq&Hqb&_). destruct (wf_rows _ _ (good_wf _ Hg) _ Hq) as (m&k&Hm&_).
    rewrite Hqb in Hm. by eapply new_batch_id.
Qed.
Section Store.
Variable isFormat isSeparator isIgnorable : N → bool.
Variable normalizeNFC toLowerCase maskedSecrets : str → str.
Lemma submit_waits call b t t' sub ns : submitBatch isFormat isSeparator isIgnorable normalizeNFC toLowerCase maskedSecrets call b t = inr (t', (sub, ns)) →
  sub_batchId sub = newBatchId call ∧ ∀ x, waits t' x → waits t x ∨ x = newBatchId call.
Proof.
  intros H. unfold submitBatch in H. destruct (withCleanResolutions _ _ _ _ _) as [clean|]; [|done]. apply bind_inr in H as (t1&sub1&Hs&H). apply bind_inr in H as (t2&n&Hn&H). apply ret_inr in H as [-> [= -> _]].
  assert (t2 = t1) as ->. { unfold journalSelfResolved in Hn. destruct (Nat.eqb _ _); by tx_inv. } clear Hn. unfold storeBatch in Hs. apply bind_inr in Hs as (ta&u&Hb&Hs). unfold insertBatch in Hb. apply bind_inr in Hb as (t0&a&[-> ->]%reads_inr&Hb).
  destruct (negb _ && _); [|done]. apply writes_inr in Hb as ->. apply bind_inr in Hs as (tb&plans&Hplan&Hs). unfold planReopens in Hplan. destruct (plan_reopens _ _ _ _ _ _ _ _ _ _) as [|plans']; [done|]. injection Hplan as <- <-.
  apply bind_inr in Hs as (tc&u2&Hins&Hs). apply insert_all in Hins as [-> _]. apply bind_inr in Hs as (td&human&Hj&Hs). apply ret_inr in Hs as [-> ->]. split; [done|].
  intros x (q'&Hq'&Hqb&Ho).
  assert (∃ q, q ∈ questions t ++ ((λ y, newQuestionOf isFormat maskedSecrets (newBatchId call) y.1.1 y.2 y.1.2) <$> routed_questions isFormat normalizeNFC toLowerCase clean plans') ∧ q_batchId q = x ∧ q_status q = Open) as (q&Hq&Hqx&Hqo).
  { destruct (Nat.eqb _ _); [apply ret_inr in Hj as [-> _]; by exists q'|]. apply bind_inr in Hj as (te&j&Hj&Hr). apply ret_inr in Hr as [-> _]. apply join_effect in Hj as (c&_&_&_&_&_&_&Hq). rewrite Hq in Hq'.
    apply list_elem_of_fmap in Hq' as (q&->&Hq1). exists q. split; [done|]. by destruct (attach_condition _ _ _). }
  apply elem_of_app in Hq as [Hq|(y&->&_)%list_elem_of_fmap]; [left; by exists q|by right].
Qed.
End Store.

(** ** Coverage *)
Definition task_batch (task : Task) : option str := match task with Spawning b _ _ | SpawnThrown b | Retiring _ b => Some b | _ => None end.
Definition covered (r : runner) (b : str) : Prop := (∃ s run, get (runBySessionId r) s = Some run ∧ run_batchId run = b) ∨ ∃ task, task ∈ tasks r ∧ task_batch task = Some b.
(** Every batch that waits for an arbiter is covered or was given up on with an error; the batches of [X] are about to be. *)
Definition kept (X : list str) (r : runner) : Prop := isStopped r = false → ∀ b, waits (db r) b → b ∈ X ∨ covered r b ∨ b ∈ unrecovered r.
Definition sound (X : list str) (r : runner) : Prop := good (db r) ∧ kept X r.
Lemma sound_weaken X Y r : (∀ b, b ∈ X → b ∈ Y) → sound X r → sound Y r.
Proof. intros HXY [Hg Hk]. split; [done|]. intros Hs b Hb. destruct (Hk Hs b Hb) as [?|[?|?]]; auto. Qed.
(** A change of the database that opens no question, with at least the same runs and tasks. *)
Lemma sound_step X Y r r' : sound X r → good (db r') → isStopped r' = isStopped r → (∀ b, waits (db r') b → waits (db r) b ∨ b ∈ Y) →
  (∀ b, b ∈ X → waits (db r') b → b ∈ Y ∨ covered r' b ∨ b ∈ unrecovered r') → (∀ b, covered r b → covered r' b ∨ b ∈ Y) → (∀ b, b ∈ unrecovered r → b ∈ unrecovered r') → sound Y r'.
Proof.
  intros [Hg Hk] Hg' Hs Hw HX Hc Hu. split; [done|]. intros Hst b Hb. rewrite Hs in Hst. destruct (Hw b Hb) as [Hwb|?]; [|by left].
  destruct (Hk Hst b Hwb) as [HbX|[Hcb|Hub]]; [by apply HX|destruct (Hc b Hcb); auto|auto].
Qed.
Lemma covered_same r r' b : runBySessionId r' = runBySessionId r → tasks r' = tasks r → covered r b → covered r' b.
Proof. unfold covered. by intros -> ->. Qed.
Lemma covered_await task r b : covered r b → covered (await task r) b.
Proof. intros [H|(x&Hx&?)]; [by left|]. right. exists x. split; [apply elem_of_app; by left|done]. Qed.
Lemma sound_await X task r : sound X r → sound X (await task r).
Proof. intros H. eapply (sound_step X); try done; [apply H|by left|by left|]. intros b Hb. left. by apply covered_await. Qed.
Lemma sound_workspaces X v r : sound X r → sound X (set_workspaces v r).
Proof. done. Qed.
Lemma sound_failures X v r : sound X r → sound X (set_failures v r).
Proof. done. Qed.
Lemma failClosed_sound c b reason X r : sound (b :: X) r → sound X (failClosed c b reason r).
Proof.
  intros H. unfold failClosed. destruct (escalateBatchToHuman _ b reason (db r)) as [e|[t out]] eqn:E.
  - eapply (sound_step (b :: X)); [exact H|apply H|done|by left| |by left|]; cbn.
    + intros x [->|Hx]%elem_of_cons _; [right; right; apply elem_of_cons; by left|by left].
    + intros x Hx. apply elem_of_cons. by right.
  - apply escalate_closes in E as [Hg Hw]; [|apply H]. eapply (sound_step (b :: X)); [exact H|done|done| | |by left|done]; cbn.
    + intros x Hx. left. by apply Hw.
    + intros x [->|Hx]%elem_of_cons Hwx; [by destruct (Hw _ Hwx)|by left].
Qed.
Lemma journal_missing_same b r qs : let r' := earlierDecisionsOf b qs r in
  db r' = db r ∧ runBySessionId r' = runBySessionId r ∧ tasks r' = tasks r ∧ unrecovered r' = unrecovered r ∧ isStopped r' = isStopped r.
Proof.
  unfold earlierDecisionsOf. revert r. induction qs as [|q qs IH]; intros r; [done|]. cbn. destruct (IH (journal_missing b r q)) as (->&->&->&->&->).
  unfold journal_missing. destruct (q_reopens q) as [[x y]|]; [|done]. destruct (list.last _); [done|]. by destruct (bool_decide _).
Qed.
Lemma addRun_good b t : good t → good (after (addArbiterRun b) t) ∧ ∀ x, waits (after (addArbiterRun b) t) x → waits t x.
Proof.
  intros Hg. assert (calm t (after (addArbiterRun b) t)) as Hc by (by apply calm_batch). split; [by eapply calm_good|intros x; by apply calm_waits].
Qed.
Lemma spawnFor_sound c b m X r : sound (b :: X) r → sound X (spawnFor c b m r).
Proof.
  intros H. unfold spawnFor. destruct (newWorkspace c) as [w|].
  - destruct (journal_missing_same b r (waitingQuestionsOf (db r) b)) as (Hd&Hr&Ht&Hu&Hs). eapply (sound_step (b :: X)); [exact H|cbn; rewrite Hd; apply H|done|cbn; rewrite Hd; by left| | |cbn; by rewrite Hu].
    + intros x [->|Hx]%elem_of_cons _; [|by left]. right. left. right. eexists. split; [apply elem_of_app; right; by apply list_elem_of_singleton|done].
    + intros x Hx. left. by apply covered_await, (covered_same r).
  - eapply (sound_step (b :: X)); [exact H|apply H|done|by left| | |done].
    + intros x [->|Hx]%elem_of_cons _; [|by left]. right. left. right. eexists. split; [apply elem_of_app; right; by apply list_elem_of_singleton|done].
    + intros x Hx. left. by apply covered_await.
Qed.
Lemma launch_sound c b X r : sound (b :: X) r → sound X (launch c b r).
Proof.
  intros H. unfold launch. destruct (isStopped r) eqn:Es; [split; [apply H|intros ?; congruence]|].
  assert (¬ waits (db r) b → sound X r) as Hnone.
  { intros Hno. eapply (sound_step (b :: X)); [exact H|apply H|done|by left| |by left|done]. intros x [->|Hx]%elem_of_cons ?; [done|by left]. }
  destruct (findBatch (db r) b) as [sb|] eqn:Eb.
  - destruct (Nat.eqb _ _) eqn:E0.
    + apply Hnone. rewrite waits_waiting by apply H. apply Nat.eqb_eq, length_zero_iff_nil in E0. rewrite E0. intros Hn. by apply Hn.
    + destruct (Nat.leb _ _); [by apply failClosed_sound|]. apply spawnFor_sound. destruct (addRun_good b (db r)) as [Hg Hw]; [apply H|].
      eapply (sound_step (b :: X)); [exact H|done|done|intros x Hx; left; by apply Hw|by left|by left|done].
  - apply Hnone. intros (q&Hq&Hqb&_). destruct (wf_rows _ _ (good_wf _ (proj1 H)) _ Hq) as (m&k&Hm&_). rewrite Hqb in Hm. by eapply new_batch_id.
Qed.
Lemma lost_sound c b X r : sound (b :: X) r → sound X (onArbiterLost c b r).
Proof.
  intros H. unfold onArbiterLost. destruct (isStopped r) eqn:Es; [split; [apply H|intros ?; congruence]|]. destruct (Nat.leb _ _); [by apply failClosed_sound|by apply launch_sound].
Qed.
Lemma forget_sound s X r r' run : sound X r → forget s r = (r', Some run) → sound (run_batchId run :: X) r' ∧ isStopped r' = isStopped r ∧ tasks r' = tasks r.
Proof.
  intros H Hf. unfold forget in Hf. destruct (get _ s) as [x|] eqn:Eg; [|done]. injection Hf as <- ->. split; [|done].
  eapply (sound_step X); [exact H|apply H|done|by left| | |done].
  - intros b Hb _. left. apply elem_of_cons. by right.
  - intros b [(s'&run'&Hg&Hb)|Ht]; [|left; by right]. destruct (decide (s = s')) as [<-|Hne]; [right; apply elem_of_cons; left; congruence|]. left. left. exists s', run'. split; [|done]. cbn. by rewrite get_del_ne.
Qed.
Lemma track_sound s b m X r : sound (b :: X) r → has_own (runBySessionId r) s = false → sound X (track s b m r).
Proof.
  intros H Hs. unfold track. destruct (isStopped r) eqn:Es; [split; [apply H|intros ?; congruence]|]. assert (get (runBySessionId r) s = None) as Hn.
  { apply eq_None_not_Some. rewrite <- has_own_get, Hs. done. }
  eapply (sound_step (b :: X)); [exact H|apply H|done|by left| | |done]; cbn.
  - intros x [->|Hx]%elem_of_cons _; [|by left]. right. left. left. exists s. eexists. cbn. rewrite get_put, str_eqb_refl. done.
  - intros x [(s'&run'&Hg&Hb)|Ht]; [|left; by right]. left. left. exists s', run'. split; [|done]. cbn. rewrite get_put. destruct (str_eqb s s') eqn:E; [|done]. apply str_eqb_eq in E as <-. congruence.
Qed.
Lemma without_task_elem task x l : x ∈ l → x = task ∨ x ∈ without_task task l.
Proof.
  induction l as [|y l IH]; [by intros ?%elem_of_nil|]. cbn. intros [->|Hx]%elem_of_cons; (destruct (bool_decide (y = task)) eqn:E; [apply bool_decide_eq_true in E|]).
  - by left.
  - right. apply elem_of_cons. by left.
  - by right.
  - destruct (IH Hx); [by left|]. right. apply elem_of_cons. by right.
Qed.
(** The wait for a task ends, and what follows takes care of its batch. *)
Lemma ended_sound task k r : sound [] r → (∀ r', sound (option_list (task_batch task)) r' → runBySessionId r' = runBySessionId r → sound [] (k r')) → sound [] (ended task k r).
Proof.
  intros H Hk. unfold ended. destruct (bool_decide _); [|done]. apply Hk; [|done]. eapply (sound_step []); [exact H|apply H|done|by left|by intros b ?%elem_of_nil| |done].
  intros b [Hr|(x&Hx&Hb)]; [left; by left|]. destruct (without_task_elem task _ _ Hx) as [->|Hx']; [right; rewrite Hb; by apply list_elem_of_singleton|]. left. right. by exists x.
Qed.
Lemma retire_sound s r : sound [] r → sound [] (retire s r).
Proof.
  intros H. unfold retire. destruct (forget s r) as [r' [run|]] eqn:E; [|done]. apply (forget_sound _ []) in E as (Hs&_&_); [|done].
  eapply (sound_step [run_batchId run]); [exact Hs|apply Hs|done|by left| | |done].
  - intros b ->%list_elem_of_singleton _. right. left. right. eexists. split; [apply elem_of_app; right; by apply list_elem_of_singleton|done].
  - intros b Hb. left. by apply covered_await.
Qed.
(** The run of a settled arbiter may go: its batch has no question left for an arbiter. *)
Lemma settle_sound s r run : sound [] r → get (runBySessionId r) s = Some run → ¬ waits (db r) (run_batchId run) → sound [] (settle s r).
Proof.
  intros H Hg Hno. unfold settle. destruct (forget s r) as [r' [run'|]] eqn:E; [|done]. assert (run' = run ∧ db r' = db r) as [-> Hd]. { unfold forget in E. rewrite Hg in E. by injection E as <- ->. }
  apply (forget_sound _ []) in E as (Hs&_&_); [|done]. apply sound_await, sound_failures. eapply (sound_step [run_batchId run]); [exact Hs|apply Hs|done|by left| |by left|done].
  intros b ->%list_elem_of_singleton. by rewrite Hd.
Qed.
Lemma refused_sound s r : sound [] r → sound [] (noteRefusedOpinion s r).
Proof.
  intros H. unfold noteRefusedOpinion. destruct (get _ s) as [run|] eqn:Eg; [|done]. set (r1 := set_runs _ r). assert (sound [] r1) as H1; [|destruct (Nat.leb _ _); [by apply retire_sound|done]].
  eapply (sound_step []); [exact H|apply H|done|by left|by intros b ?%elem_of_nil| |done]. intros b [(s'&run'&Hg&Hb)|Ht]; [|left; by right]. left. left. cbn.
  destruct (str_eqb s s') eqn:E.
  - apply str_eqb_eq in E as <-. exists s. eexists. cbn. rewrite get_put, str_eqb_refl. split; [done|]. cbn. congruence.
  - exists s', run'. cbn. by rewrite get_put, E.
Qed.
Lemma closed_sound c s shutdown r : sound [] r → (shutdown = true → isStopped r = true) → sound [] (onSessionClosed c s shutdown r).
Proof.
  intros H Hst. unfold onSessionClosed. set (cleaned := if shutdown then r else _). assert (sound [] cleaned ∧ isStopped cleaned = isStopped r) as [Hc Hcs] by (by destruct shutdown).
  destruct (forget s cleaned) as [r' [run|]] eqn:E; [|done]. apply (forget_sound _ []) in E as (Hs&Hss&_); [|done]. destruct shutdown; [|by apply lost_sound].
  split; [apply Hs|]. intros Hf. rewrite Hss, Hcs, (Hst eq_refl) in Hf. done.
Qed.

(** ** Boot *)
Lemma unique_loop_elem ids seen x : x ∈ ids ∨ x ∈ seen ↔ x ∈ fold_left (λ seen i, if mem_str i seen then seen else seen ++ [i]) ids seen.
Proof.
  revert seen. induction ids as [|i ids IH]; intros seen; cbn; [rewrite elem_of_nil; tauto|]. rewrite <- IH, elem_of_cons. destruct (mem_str i seen) eqn:E.
  - apply mem_str_In, list_elem_of_In in E. naive_solver.
  - rewrite elem_of_app, list_elem_of_singleton. tauto.
Qed.
Lemma unique_loop_NoDup ids seen : NoDup seen → NoDup (fold_left (λ seen i, if mem_str i seen then seen else seen ++ [i]) ids seen).
Proof.
  revert seen. induction ids as [|i ids IH]; intros seen Hs; cbn; [done|]. apply IH. destruct (mem_str i seen) eqn:E; [done|]. apply list.NoDup_app. split_and!; [done| |apply NoDup_singleton].
  intros x Hx ->%list_elem_of_singleton. apply not_true_iff_false in E. apply E, mem_str_In. by apply list_elem_of_In.
Qed.
Lemma open_batches_spec t b : wf [] t → b ∈ batchIdsWithOpenArbiterQuestions t ↔ waits t b.
Proof.
  intros Hwf. unfold batchIdsWithOpenArbiterQuestions, unique. rewrite <- unique_loop_elem, elem_of_nil, list_elem_of_fmap. split.
  - intros [(q&->&[Hc Hq]%list_elem_of_filter)|[]]. rewrite andb_true_iff, !bool_decide_eq_true in Hc. exists q. naive_solver.
  - intros (q&Hq&<-&Ho). left. exists q. split; [done|]. apply list_elem_of_filter. split; [|done]. rewrite andb_true_iff, !bool_decide_eq_true. split; [|done].
    destruct (wf_rows _ _ Hwf _ Hq) as (m&k&_&Hf). by apply (fine_open _ _ _ _ _ Ho) in Hf as (_&?&_).
Qed.
(** The tags of two names that end alike are the same. *)
Lemma endsWith_length s p1 p2 : length p1 = length p2 → endsWith s p1 = true → endsWith s p2 = true → p1 = p2.
Proof.
  unfold endsWith. intros Hl H1 H2. apply (inj reverse). revert H1 H2. assert (length (reverse p1) = length (reverse p2)) as Hl' by (by rewrite !length_reverse). revert Hl'.
  generalize (reverse p1) (reverse p2) (reverse s). clear. intros l1. induction l1 as [|a l1 IH]; intros [|b l2] [|c s]; cbn; try done. intros [= Hl].
  destruct (N.eqb c a) eqn:Ea, (N.eqb c b) eqn:Eb; cbn; try done. apply N.eqb_eq in Ea, Eb. subst. intros. f_equal. by eapply IH.
Qed.
Lemma failClosed_runs c b reason r : runBySessionId (failClosed c b reason r) = runBySessionId r.
Proof. unfold failClosed. by destruct (escalateBatchToHuman _ _ _ _) as [?|[? ?]]. Qed.
Lemma launch_runs c b r : runBySessionId (launch c b r) = runBySessionId r.
Proof.
  unfold launch. destruct (isStopped r); [done|]. destruct (findBatch _ b); [|done]. destruct (Nat.eqb _ _); [done|]. destruct (Nat.leb _ _); [apply failClosed_runs|].
  unfold spawnFor. destruct (newWorkspace c); [|done]. set (r1 := set_db _ r).
  change (runBySessionId (earlierDecisionsOf b (waitingQuestionsOf (db r1) b) r1) = runBySessionId r). by destruct (journal_missing_same b r1 (waitingQuestionsOf (db r1) b)) as (_&->&_).
Qed.
Lemma lost_runs c b r : runBySessionId (onArbiterLost c b r) = runBySessionId r.
Proof. unfold onArbiterLost. destruct (isStopped r); [done|]. destruct (Nat.leb _ _); [by rewrite failClosed_runs|by rewrite launch_runs]. Qed.
Section Boot.
Variable live : list LiveArbiter.
Variable world : str → RunnerCall * bool.
Variable ids : list str.
Hypothesis live_ids : NoDup (la_id <$> live).
Hypothesis tags : NoDup (batchTagOf <$> ids).
Hypothesis long_ids : Forall (λ b, BATCH_TAG_LENGTH ≤ length b) ids.
Lemma tag_length b : b ∈ ids → length (batchTagOf b) = BATCH_TAG_LENGTH + 2.
Proof.
  intros Hb. pose proof (proj1 (list.Forall_forall _ _) long_ids b Hb) as Hlen. cbn beta in Hlen. unfold batchTagOf, slice. rewrite !length_app, length_take, length_drop.
  change (length (js "[")) with 1. change (length (js "]")) with 1. unfold BATCH_TAG_LENGTH in *. lia.
Qed.
Lemma same_tag b b' s : b ∈ ids → b' ∈ ids → endsWith s (batchTagOf b) = true → endsWith s (batchTagOf b') = true → b = b'.
Proof.
  intros Hb Hb' H1 H2. assert (batchTagOf b = batchTagOf b') as Ht by (eapply endsWith_length; [by rewrite !tag_length|done..]).
  apply list_elem_of_lookup in Hb as [i Hi], Hb' as [j Hj]. assert (i = j) as ->; [|congruence]. eapply NoDup_lookup; [exact tags|..]; rewrite list_lookup_fmap; [by rewrite Hi|rewrite Hj; cbn; by rewrite Ht].
Qed.
(** The runs tracked so far are those of live arbiters named after batches that were recovered already. *)
Definition tracked (rest : list str) (r : runner) : Prop :=
  ∀ s run, get (runBySessionId r) s = Some run → run_batchId run ∈ ids ∧ run_batchId run ∉ rest ∧ ∃ a, a ∈ live ∧ la_id a = s ∧ endsWith (la_name a) (batchTagOf (run_batchId run)) = true.
Lemma tracked_same rest b r r' : tracked (b :: rest) r → runBySessionId r' = runBySessionId r → tracked rest r'.
Proof. intros H Hr s run Hg. rewrite Hr in Hg. destruct (H s run Hg) as (?&Hn&?). split; [done|]. split; [|done]. intros ?. apply Hn, elem_of_cons. by right. Qed.
Lemma recover_one b rest r : b ∈ ids → b ∉ rest → sound (b :: rest) r → tracked (b :: rest) r → sound rest (recover_batch live world r b) ∧ tracked rest (recover_batch live world r b).
Proof.
  intros Hb Hrest H Ht. unfold recover_batch. destruct (findBatch (db r) b) as [sb|] eqn:Eb.
  2:{ split; [|by eapply tracked_same]. eapply (sound_step (b :: rest)); [exact H|apply H|done|by left| |by left|done]. intros x [->|Hx]%elem_of_cons Hw; [|by left].
    exfalso. destruct Hw as (q&Hq&Hqb&_). destruct (wf_rows _ _ (good_wf _ (proj1 H)) _ Hq) as (m&k&Hm&_). rewrite Hqb in Hm. by eapply new_batch_id. }
  assert (sound rest (onArbiterLost (world b).1 b r) ∧ tracked rest (onArbiterLost (world b).1 b r)) as Hlost by (split; [by apply lost_sound|eapply tracked_same; [exact Ht|apply lost_runs]]).
  destruct (resumedArbiter live sb) as [a|] eqn:Ea; [|done]. destruct (world b).2; [|done]. apply find_elem in Ea as [Ha [_ Hn]%andb_true_iff]. apply findBatch_core in Eb as (_&Hid&_). rewrite Hid in Hn.
  assert (get (runBySessionId r) (la_id a) = None) as Hfree.
  { destruct (get _ (la_id a)) as [run|] eqn:Eg; [|done]. exfalso. destruct (Ht _ _ Eg) as (Hr1&Hr2&a'&Ha'&Hida&Hn'). assert (a' = a) as ->.
    { apply list_elem_of_lookup in Ha as [i Hi], Ha' as [j Hj]. assert (i = j) as ->; [|congruence]. eapply NoDup_lookup; [exact live_ids|..]; rewrite list_lookup_fmap; [by rewrite Hi|rewrite Hj; cbn; by rewrite Hida]. }
    apply Hr2. rewrite (same_tag _ _ _ Hr1 Hb Hn' Hn). apply elem_of_cons. by left. }
  split; [apply track_sound; [done|]; apply not_true_iff_false; rewrite has_own_get, Hfree; by intros []|].
  unfold track. destruct (isStopped r); [by eapply tracked_same|]. intros s run. cbn. rewrite get_put. destruct (str_eqb (la_id a) s) eqn:E.
  - apply str_eqb_eq in E as <-. intros [= <-]. split_and!; try done. by exists a.
  - by apply (tracked_same _ _ _ r Ht).
Qed.
Lemma recover_all bs r : Forall (λ b, b ∈ ids) bs → NoDup bs → sound bs r → tracked bs r → sound [] (fold_left (recover_batch live world) bs r).
Proof.
  revert r. induction bs as [|b bs IH]; intros r Hin Hnd Hs Ht; [done|]. cbn. apply list.Forall_cons in Hin as [Hb Hin]. apply list.NoDup_cons in Hnd as [Hn Hnd]. destruct (recover_one b bs r) as [? ?]; auto.
Qed.
End Boot.
Lemma fold_sound {A} (f : runner → A → runner) l X r : (∀ r x, sound X r → sound X (f r x)) → sound X r → sound X (fold_left f l r).
Proof. intros Hf. revert r. induction l as [|x l IH]; intros r Hr; [done|]. cbn. auto. Qed.
Lemma place_same live r : let r' := fold_left (λ r s, set_workspaces (put (workspaceBySessionId r) (la_id s) (la_directory s)) r) live r in db r' = db r ∧ runBySessionId r' = runBySessionId r.
Proof. revert r. induction live as [|a live IH]; intros r; [done|]. cbn. by destruct (IH (set_workspaces (put (workspaceBySessionId r) (la_id a) (la_directory a)) r)) as [-> ->]. Qed.
Lemma recover_sound live world t : good t → NoDup (la_id <$> live) → NoDup (batchTagOf <$> (batch_id <$> batches t)) → Forall (λ b, BATCH_TAG_LENGTH ≤ length (batch_id b)) (batches t) → sound [] (recover live world (booted t)).
Proof.
  intros Hg Hl Ht Hlong. unfold recover. apply fold_sound; [intros; by apply sound_await|]. set (bs := batchIdsWithOpenArbiterQuestions _). set (placed := fold_left _ live (booted t)).
  destruct (place_same live (booted t)) as [Hd Hr]. fold placed in Hd, Hr. apply (recover_all live world (batch_id <$> batches t)); try done.
  - by apply Forall_fmap.
  - apply list.Forall_forall. intros b Hb. apply open_batches_spec in Hb; [|apply Hg]. destruct Hb as (q&Hq&<-&_). destruct (wf_rows _ _ (good_wf _ Hg) _ Hq) as (m&k&Hm&_).
    apply list_elem_of_fmap in Hm as (sb&[= Hid _ _]&Hsb). apply list_elem_of_fmap. by exists sb.
  - apply unique_loop_NoDup. apply base.NoDup_nil_2.
  - apply fold_sound; [intros; by apply sound_workspaces|]. split; [done|]. intros _ b Hb. left. apply open_batches_spec; [apply Hg|done].
  - intros s run. by rewrite Hr.
Qed.

(** ** The opinion of the arbiter settles its batch *)
Section Opinion.
Variable isFormat isSeparator isIgnorable : N → bool.
Variable normalizeNFC toLowerCase maskedSecrets : str → str.
(** The rows an opinion changes: those of its batch that are open, each to a status of its decision. *)
Lemma apply_one_rows b qs ev d a a' t t' : apply_decision isFormat maskedSecrets b qs ev d a t = inr (t', a') →
  Forall2 (λ q q', key q' = key q ∧ (q_status q' = Open → q_status q = Open ∧ key q ≠ (b, od_question_id d))) (questions t) (questions t').
Proof.
  intros H. unfold apply_decision in H. destruct (find _ qs) as [q0|] eqn:Ef; [|done]. apply find_elem in Ef as [_ Hi%str_eqb_eq]. apply bind_inr in H as (t1&r&Hm&H). apply ret_inr in H as [-> _].
  assert (∃ f, t1 = rewritten (λ q, is_question b (q_questionId q0) q && bool_decide (q_status q = Open)) f t ∧ ∀ q, key (f q) = key q ∧ q_status (f q) ≠ Open) as (f&->&Hf).
  { destruct (handsToAHuman _ _); unfold deferOpenQuestionToHuman, transitionQuestion, update_question in Hm; tx_inv; by eexists. }
  rewrite Hi. apply Forall2_map_r. intros q _. destruct (_ && _) eqn:E; [destruct (Hf q); split; [done|congruence]|]. split; [done|]. intros Ho. split; [done|]. intros Hk.
  apply not_true_iff_false in E. by apply E, open_condition.
Qed.
Lemma apply_all_rows b qs ev ds a a' t t' : apply_decisions isFormat maskedSecrets b qs ev ds a t = inr (t', a') →
  Forall2 (λ q q', key q' = key q ∧ (q_status q' = Open → q_status q = Open ∧ ∀ d, d ∈ ds → key q ≠ (b, od_question_id d))) (questions t) (questions t').
Proof.
  revert a t. induction ds as [|d ds IH]; intros a t H; cbn in H.
  - apply ret_inr in H as [-> _]. rewrite <- (list_fmap_id (questions t)) at 2. apply Forall2_map_r. intros q _. split; [done|]. intros Ho. split; [done|]. by intros d ?%elem_of_nil.
  - apply bind_inr in H as (t1&a1&H1&H). apply apply_one_rows in H1. specialize (IH _ _ H). clear H. revert IH. generalize (questions t'). induction H1 as [|q q1 l l1 [Hk Ho] _ IHl]; intros l2 H2; inversion H2 as [|? q2 ? ? [Hk2 Ho2]]; subst; constructor; [|auto].
    split; [congruence|]. intros Hop. destruct (Ho2 Hop) as [Ho1 Hd]. destruct (Ho Ho1) as [? ?]. split; [done|]. intros x [->|Hx]%elem_of_cons; [done|]. rewrite <- Hk. auto.
Qed.
Lemma opinion_closes call m arb o t t' r : good t → recordArbiterOpinion isFormat isSeparator isIgnorable maskedSecrets call m arb o t = inr (t', r) →
  ∀ x, waits t' x → waits t x ∧ x ≠ op_batch_id o.
Proof.
  intros Hg H. unfold recordArbiterOpinion in H. apply bind_inr in H as (t0&ob&[-> ->]%reads_inr&H). destruct (findBatch t _) as [b|] eqn:Eb; [|done].
  destruct (negb (str_eqb _ _)); [done|]. apply bind_inr in H as (t0&qs&[-> ->]%reads_inr&H). destruct (decidesExactlyTheArbiterQuestions _ _) eqn:Edec; [|done]. cbn [negb] in H. destruct (negb _); [done|].
  destruct (cleanEvidenceOf _ _ _ _ _ _) as [ev|]; [|done]. apply bind_inr in H as (t1&rec&H1&H). destruct rec as [[res applied] raised].
  assert (t' = t1) as -> by (destruct (Nat.eqb _ _); by apply ret_inr in H as [-> _]). clear H. apply findBatch_core in Eb as (_&Hid&_).
  unfold applyOpinion in H1. apply bind_inr in H1 as (t2&a&Ha&H1). apply apply_all_rows in Ha as HF.
  assert (∀ q', q' ∈ questions t1 → q_status q' = Open → ∃ q, q ∈ questions t2 ∧ key q = key q' ∧ q_status q = Open) as Hback.
  { intros q' Hq' Ho. destruct (Nat.eqb _ _); [apply ret_inr in H1 as [-> _]; by exists q'|]. apply bind_inr in H1 as (t3&u&->%insert_decisions&H1). apply bind_inr in H1 as (t4&u4&Hop&H1).
    unfold recordCriteriaOpinion in Hop. apply writes_inr in Hop as ->. apply bind_inr in H1 as (t5&joined&Hj&H1). apply ret_inr in H1 as [-> _]. destruct (Nat.eqb _ _); [apply ret_inr in Hj as [-> _]; by exists q'|].
    apply bind_inr in Hj as (t6&j&Hj&Hr). apply ret_inr in Hr as [-> _]. apply join_effect in Hj as (c&_&_&_&_&_&_&Hq). rewrite Hq in Hq'. apply list_elem_of_fmap in Hq' as (q&->&Hq1). exists q. split; [done|]. by destruct (attach_condition _ _ _). }
  intros x (q'&Hq'&Hx&Ho). destruct (Hback q' Hq' Ho) as (q1&Hq1&Hk1&Ho1). destruct (Forall2_elem_r _ _ _ _ HF Hq1) as (q&Hq&Hk&Hop). destruct (Hop Ho1) as [Hqo Hds].
  assert (q_batchId q = x) as Hqx by (rewrite <- Hx; unfold key in *; congruence). split; [by exists q|]. intros ->. apply andb_true_iff in Edec as [Edec _]. apply Nat.eqb_eq, length_zero_iff_nil in Edec.
  assert (q_questionId q ∈ od_question_id <$> op_decisions o) as Hrep.
  { destruct (decide (q_questionId q ∈ od_question_id <$> op_decisions o)); [done|]. exfalso. assert (q_questionId q ∈ filter (λ id, id ∉ od_question_id <$> op_decisions o) (arbiter_ids (questionsOfBatch t (batch_id b)))) as Hin.
    { apply list_elem_of_filter. split; [done|]. apply list_elem_of_fmap. exists q. split; [done|]. apply list_elem_of_filter. split.
      - destruct (wf_rows _ _ (good_wf _ Hg) _ Hq) as (mm&k&_&Hf). by apply (fine_open _ _ _ _ _ Hqo) in Hf as (_&?&_).
      - apply list_elem_of_filter. split; [|done]. apply str_eqb_eq. congruence. }
    rewrite Edec in Hin. by apply elem_of_nil in Hin. }
  apply list_elem_of_fmap in Hrep as (d&Hdi&Hd). apply (Hds d Hd). unfold key. congruence.
Qed.
End Opinion.

(** * The runs of a ticket

    How many arbiters [ArbiterRunner] starts for the batches of a ticket: the operations of the service store new batches without a run and
    change no count, and [launch] counts a run only below the quota. *)
Definition row_of (b : StoredBatch) : str * (str * str) * nat := (batch_id b, (batch_managerId b, batch_ticket b), arbiterRuns b).
Definition rows (t : tables) : list (str * (str * str) * nat) := row_of <$> batches t.
(** An operation that stores batches without a run, under new ids, and changes no other. *)
Definition appends (t t' : tables) : Prop := ∃ new, rows t' = rows t ++ new ∧ Forall (λ x, x.2 = 0) new ∧ (NoDup (rows t).*1.*1 → NoDup (rows t').*1.*1).
#[export] Instance appends_preorder : PreOrder appends.
Proof.
  split.
  - intros t. exists []. rewrite app_nil_r. split_and!; [done|constructor|done].
  - intros t1 t2 t3 (n1&E1&F1&D1) (n2&E2&F2&D2). exists (n1 ++ n2). split_and!; [by rewrite E2, E1, app_assoc|by apply list.Forall_app|auto].
Qed.
Lemma appends_rows t t' : rows t' = rows t → appends t t'.
Proof. intros E. exists []. rewrite E, app_nil_r. split_and!; [done|constructor|done]. Qed.
Abbreviation quiet := (preserves appends).
Lemma rows_batch id f t : (∀ b, row_of (f b) = row_of b) → rows (update_batch id f t) = rows t.
Proof. intros Hf. unfold rows, update_batch. cbn. rewrite <- list_fmap_compose. apply list_fmap_ext. intros i b _. cbn. destruct (str_eqb _ _); [apply Hf|done]. Qed.
#[local] Hint Extern 1 (preserves appends (writes _)) => (apply preserves_writes; intros ?; by apply appends_rows) : tx.

(** ** The operations *)
Lemma quiet_insertBatch b : arbiterRuns b = 0 → quiet (insertBatch b).
Proof.
  intros Hb t t' a H. unfold insertBatch in H. apply bind_inr in H as (t1&ok&[-> ->]%reads_inr&H). destruct (negb _ && negb _) eqn:E; [|done]. apply writes_inr in H as ->.
  exists [row_of b]. unfold rows. cbn. rewrite fmap_app. split_and!; [done|by repeat constructor|]. rewrite !fmap_app. intros Hn. apply list.NoDup_app. split_and!; [done| |apply NoDup_singleton].
  intros x Hx ->%list_elem_of_singleton. apply andb_true_iff in E as [E _]. apply negb_true_iff, bool_decide_eq_false in E. apply E. rewrite <- !list_fmap_compose in Hx. apply list_elem_of_fmap in Hx as (b'&Hid&Hb').
  unfold findBatch. destruct (find _ _) eqn:Ef; [by eexists|]. eapply find_none in Ef; [|by apply list_elem_of_In]. cbn in Ef, Hid. by rewrite <- Hid, str_eqb_refl in Ef.
Qed.
Lemma quiet_insertQuestion q : quiet (insertQuestion q).
Proof. unfold insertQuestion. tx_preserves. Qed.
Lemma quiet_update_question c f : quiet (update_question c f).
Proof. unfold update_question. tx_preserves. Qed.
#[local] Hint Resolve quiet_insertQuestion quiet_update_question : tx.
Lemma quiet_criteria id o rs : quiet (recordCriteriaOpinion id o rs).
Proof. apply preserves_writes. intros t. by apply appends_rows, rows_batch. Qed.
Lemma quiet_list call m l : quiet (update call m l).
Proof. unfold update. tx_preserves. Qed.
#[local] Hint Resolve quiet_criteria quiet_list : tx.
Lemma quiet_ensure call m e : quiet (ensureItemInQuestionsForHuman call m e).
Proof. unfold ensureItemInQuestionsForHuman. tx_preserves. Qed.
Lemma quiet_remove call m id : quiet (removeItemWithoutFailingTheAnswer call m id).
Proof.
  intros t t' a H. unfold removeItemWithoutFailingTheAnswer in H. destruct (removeItemFromQuestionsForHuman _ _ _ _) as [e|[t1 u]] eqn:E.
  - injection H as <-. reflexivity.
  - injection H as <- _. revert E. assert (quiet (removeItemFromQuestionsForHuman call m id)) as Hq by (unfold removeItemFromQuestionsForHuman; tx_preserves). apply Hq.
Qed.
Lemma quiet_refusal id r : quiet (setHandoverRefusal id r).
Proof. apply preserves_writes. intros t. by apply appends_rows. Qed.
#[local] Hint Resolve quiet_ensure quiet_remove quiet_refusal : tx.
Lemma quiet_listItem call m e mark : quiet (listItemOrRefusal call m e mark).
Proof.
  intros t t' a H. unfold listItemOrRefusal in H. destruct (ensureItemInQuestionsForHuman _ _ _ _) as [er|[t1 u]] eqn:E.
  - destruct er; try done. destruct mark; [|done]. revert H. apply preserves_bind; [apply _|tx_preserves..].
  - injection H as <- _. by eapply quiet_ensure.
Qed.
#[local] Hint Resolve quiet_listItem : tx.
Lemma quiet_join call b m k qs mark : quiet (joinEscalation call b m k qs mark).
Proof. unfold joinEscalation, openEscalation, insertEscalation, attachQuestionToEscalation, updateEscalationBody. tx_preserves. Qed.
Lemma quiet_view id : quiet (viewOf id).
Proof. unfold viewOf. tx_preserves. Qed.
Lemma quiet_pending id : quiet (pendingEscalation id).
Proof. unfold pendingEscalation. tx_preserves. Qed.
#[local] Hint Resolve quiet_join quiet_view quiet_pending : tx.
Lemma quiet_escalate call b reason : quiet (escalateBatchToHuman call b reason).
Proof. unfold escalateBatchToHuman, handWaitingQuestionsToHuman, deferOpenQuestionToHuman. tx_preserves. Qed.
Lemma quiet_retry call id : quiet (retryHandover call id).
Proof. unfold retryHandover. tx_preserves. Qed.

Section Service.
Variable isFormat isSeparator isIgnorable : N → bool.
Variable normalizeNFC toLowerCase maskedSecrets : str → str.
Local Abbreviation rstep := (runner_step isFormat isSeparator isIgnorable normalizeNFC toLowerCase maskedSecrets).
Lemma quiet_answer call id answers : quiet (answer isFormat maskedSecrets call id answers).
Proof. unfold answer, answer_question, transitionQuestion, answerEscalationIfPending. tx_preserves. Qed.
Lemma quiet_decisions b qs ev ds a : quiet (apply_decisions isFormat maskedSecrets b qs ev ds a).
Proof. revert a. induction ds as [|d ds IH]; intros a; cbn; [eauto with tx typeclass_instances|]. apply preserves_bind; [apply _| |done]. unfold apply_decision, deferOpenQuestionToHuman, transitionQuestion. tx_preserves. Qed.
#[local] Hint Resolve quiet_decisions : tx.
Lemma quiet_opinion call m s o : quiet (recordArbiterOpinion isFormat isSeparator isIgnorable maskedSecrets call m s o).
Proof. unfold recordArbiterOpinion, applyOpinion, insertArbiterDecision. tx_preserves. Qed.
Lemma quiet_reopens call b : quiet (planReopens isFormat isSeparator isIgnorable maskedSecrets call b).
Proof. apply preserves_same; [apply _|]. intros t t' a H. unfold planReopens in H. destruct (plan_reopens _ _ _ _ _ _ _ _ _ _); [done|]. by injection H as <- _. Qed.
#[local] Hint Resolve quiet_reopens : tx.
#[local] Hint Extern 1 (quiet (insertBatch _)) => (by apply quiet_insertBatch) : tx.
Lemma quiet_submit call b : quiet (submitBatch isFormat isSeparator isIgnorable normalizeNFC toLowerCase maskedSecrets call b).
Proof. unfold submitBatch, storeBatch, journalSelfResolved. tx_preserves. Qed.
End Service.

(** ** The counts *)
Definition is_of (m k : str) (x : str * (str * str) * nat) : bool := str_eqb x.1.2.1 m && str_eqb x.1.2.2 k.
Definition spent (m k : str) (l : list (str * (str * str) * nat)) : nat := sum_list_with snd (filter (λ x, is_of m k x = true) l).
Lemma spent_cons m k x l : spent m k (x :: l) = (if is_of m k x then x.2 else 0) + spent m k l.
Proof. unfold spent. rewrite filter_cons. destruct (decide (is_of m k x = true)) as [->|E]; [done|]. apply not_true_iff_false in E. by rewrite E. Qed.
Lemma spent_rows m k t : arbiterRunsOfTicket t m k = spent m k (rows t).
Proof.
  unfold arbiterRunsOfTicket, batchesOfTicket, rows. induction (batches t) as [|b l IH]; [done|]. rewrite fmap_cons, spent_cons, filter_cons. unfold is_of at 1. cbn.
  rewrite <- IH. destruct (decide _) as [E|E]; [by rewrite E|]. apply not_true_iff_false in E. by rewrite E.
Qed.
Lemma spent_app m k l new : Forall (λ x, x.2 = 0) new → spent m k (l ++ new) = spent m k l.
Proof.
  intros Hz. induction l as [|x l IH]; cbn [app]; [|by rewrite !spent_cons, IH]. induction Hz as [|x new Hx _ IH]; [done|]. rewrite spent_cons, IH, Hx. by destruct (is_of m k x).
Qed.
(** The rows after [addArbiterRun]. *)
Definition bumped (id : str) (x : str * (str * str) * nat) : str * (str * str) * nat := if str_eqb x.1.1 id then (x.1, S x.2) else x.
Lemma rows_run id t : rows (after (addArbiterRun id) t) = bumped id <$> rows t.
Proof. unfold rows, after. cbn. rewrite <- !list_fmap_compose. apply list_fmap_ext. intros i b _. unfold bumped. cbn. by destruct (str_eqb _ _). Qed.
Lemma bumped_ids id l : (bumped id <$> l).*1.*1 = l.*1.*1.
Proof. rewrite <- !list_fmap_compose. apply list_fmap_ext. intros i x _. unfold bumped. cbn. by destruct (str_eqb _ _). Qed.
Lemma spent_bumped_other m k id l : id ∉ l.*1.*1 → spent m k (bumped id <$> l) = spent m k l.
Proof.
  induction l as [|x l IH]; [done|]. cbn [fmap list_fmap]. intros Hn. apply not_elem_of_cons in Hn as [Hx Hn]. rewrite !spent_cons, IH by done.
  unfold bumped. destruct (str_eqb _ _) eqn:E; [|done]. by apply str_eqb_eq in E.
Qed.
Lemma spent_bumped m k x l : NoDup l.*1.*1 → x ∈ l → spent m k (bumped x.1.1 <$> l) = (if is_of m k x then 1 else 0) + spent m k l.
Proof.
  induction l as [|y l IH]; intros Hn Hx; [by apply elem_of_nil in Hx|]. rewrite !fmap_cons in Hn. apply list.NoDup_cons in Hn as [Hy Hn]. cbn [fmap list_fmap]. rewrite !spent_cons. apply elem_of_cons in Hx as [->|Hx].
  - rewrite spent_bumped_other by done. unfold bumped. rewrite str_eqb_refl. unfold is_of. cbn. destruct (_ && _); lia.
  - rewrite (IH Hn Hx). unfold bumped at 1 2. destruct (str_eqb _ _) eqn:E; [|lia]. apply str_eqb_eq in E. exfalso. apply Hy. rewrite E, <- list_fmap_compose. apply list_elem_of_fmap. by exists x.
Qed.

(** ** The quota *)
Definition within (M : nat) (t : tables) : Prop := NoDup (rows t).*1.*1 ∧ ∀ m k, arbiterRunsOfTicket t m k ≤ M.
Lemma quiet_within {A} (m : Tx A) M t t' a : quiet m → m t = inr (t', a) → within M t → within M t'.
Proof. intros Hq H [Hn Hm]. destruct (Hq _ _ _ H) as (new&E&Hz&Hd). split; [auto|]. intros i k. rewrite spent_rows, E, spent_app, <- spent_rows by done. apply Hm. Qed.
Lemma after_within {A} (m : Tx A) M t : quiet m → within M t → within M (after m t).
Proof. intros Hq Ht. unfold after. destruct (m t) as [e|[t' a]] eqn:E; [done|]. by eapply quiet_within. Qed.
Lemma failClosed_within c b reason M r : within M (db r) → within M (db (failClosed c b reason r)).
Proof. intros H. unfold failClosed. destruct (escalateBatchToHuman _ _ _ _) as [e|[t a]] eqn:E; [done|]. eapply quiet_within; [|exact E|done]. apply quiet_escalate. Qed.
Lemma journaled_db b qs r : db (earlierDecisionsOf b qs r) = db r.
Proof.
  unfold earlierDecisionsOf. revert r. induction qs as [|q qs IH]; intros r; [done|]. cbn. rewrite IH. unfold journal_missing. destruct (q_reopens q) as [[? ?]|]; [|done].
  cbv zeta. destruct (list.last _); [done|]. by destruct (bool_decide _).
Qed.
Lemma run_within b sb M t : findBatch t b = Some sb → arbiterRunsOfTicket t (batch_managerId sb) (batch_ticket sb) < M → within M t → within M (after (addArbiterRun b) t).
Proof.
  intros Hb Hlt [Hn Hm]. split; [by rewrite rows_run, bumped_ids|]. intros m k. rewrite spent_rows, rows_run. apply find_elem in Hb as [Hin Hid%str_eqb_eq]. cbn in Hid. rewrite <- Hid.
  change (batch_id sb) with (row_of sb).1.1. rewrite spent_bumped; [|done|by apply list_elem_of_fmap_2]. rewrite <- spent_rows. destruct (is_of m k _) eqn:E; [|apply Hm].
  apply andb_true_iff in E as [Em%str_eqb_eq Ek%str_eqb_eq]. cbn in Em, Ek. subst. lia.
Qed.
Lemma launch_within c b M r : maxArbiterRunsPerTicket c ≤ M → within M (db r) → within M (db (launch c b r)).
Proof.
  intros Hc H. unfold launch. destruct (isStopped r); [done|]. destruct (findBatch (db r) b) as [sb|] eqn:Eb; [|done]. destruct (Nat.eqb _ _); [done|]. destruct (Nat.leb _ _) eqn:El; [by apply failClosed_within|].
  apply Nat.leb_gt in El. assert (within M (after (addArbiterRun b) (db r))) as Hw by (eapply run_within; [done|lia|done]). unfold spawnFor. destruct (newWorkspace c); [|done]. cbn [await set_tasks db]. by rewrite journaled_db.
Qed.
Lemma lost_within c b M r : maxArbiterRunsPerTicket c ≤ M → within M (db r) → within M (db (onArbiterLost c b r)).
Proof. intros Hc H. unfold onArbiterLost. destruct (isStopped r); [done|]. destruct (Nat.leb _ _); [by apply failClosed_within|by apply launch_within]. Qed.

(** * Every history of the arbiter runner

    The claims about [ArbiterRunner] that hold in every state its events reach. *)
Section Claims.
Variable isFormat isSeparator isIgnorable : N → bool.
Variable normalizeNFC toLowerCase maskedSecrets : str → str.
Local Abbreviation rstep := (runner_step isFormat isSeparator isIgnorable normalizeNFC toLowerCase maskedSecrets).
Local Abbreviation reached := (runner_reached isFormat isSeparator isIgnorable normalizeNFC toLowerCase maskedSecrets).

Lemma db_sound r t : sound [] r → good t → (∀ b, waits t b → waits (db r) b) → sound [] (set_db t r).
Proof. intros H Hg Hw. eapply (sound_step []); [exact H|done|done|intros b Hb; left; by apply Hw|by intros b ?%elem_of_nil|by left|done]. Qed.
Lemma run_sound {A} (m : Tx A) r : sound [] r → (∀ t' a, m (db r) = inr (t', a) → good t' ∧ ∀ b, waits t' b → waits (db r) b) → sound [] (set_db (after m (db r)) r).
Proof. intros H Hm. unfold after. destruct (m (db r)) as [e|[t' a]] eqn:E; [by apply db_sound; [|apply H|]|]. destruct (Hm t' a eq_refl). by apply db_sound. Qed.
Lemma submit_sound call b c r : sound [] r → sound [] (submit_plan_questions isFormat isSeparator isIgnorable normalizeNFC toLowerCase maskedSecrets call b c r).
Proof.
  intros H. unfold submit_plan_questions. destruct (submitBatch _ _ _ _ _ _ _ _ _) as [e|[t [sub ns]]] eqn:E; [done|]. apply launch_sound.
  assert (good t) as Hg. { pose proof (step_good isFormat isSeparator isIgnorable normalizeNFC toLowerCase maskedSecrets (db r) (Submitted call b) (proj1 H)) as [Hg _]. cbn in Hg. unfold after in Hg. by rewrite E in Hg. }
  apply submit_waits in E as [-> Hw]. eapply (sound_step []); [exact H|done|done| |by intros x ?%elem_of_nil|by left|done]. intros x Hx. destruct (Hw x Hx) as [?| ->]; [by left|right; by apply list_elem_of_singleton].
Qed.
Lemma report_sound call s m parsed r : sound [] r → sound [] (report_arbiter_opinion isFormat isSeparator isIgnorable maskedSecrets call s m parsed r).
Proof.
  intros H. unfold report_arbiter_opinion. destruct parsed as [o|]; [|by apply refused_sound]. destruct (negb _) eqn:Eb; [done|]. apply negb_false_iff, bool_decide_eq_true in Eb.
  destruct (recordArbiterOpinion _ _ _ _ _ _ _ _ _) as [e|[t out]] eqn:E; [destruct e; try done; by apply refused_sound|].
  unfold batchOf in Eb. destruct (get _ s) as [run|] eqn:Eg; [|done]. injection Eb as Hrun. assert (good t) as Hg. { pose proof (step_good isFormat isSeparator isIgnorable normalizeNFC toLowerCase maskedSecrets (db r) (Reported call m s o) (proj1 H)) as [Hg _]. cbn in Hg. unfold after in Hg. by rewrite E in Hg. }
  assert (∀ x, waits t x → waits (db r) x ∧ x ≠ op_batch_id o) as Hw by (eapply opinion_closes; [apply H|exact E]).
  apply (settle_sound _ _ run); [|done|rewrite Hrun; intros Hx; by destruct (Hw _ Hx)]. apply db_sound; [done|done|]. intros b Hb. by apply Hw.
Qed.
Lemma spawned_sound c b m w created r : sound [b] r → (∀ s closed, created = Some (s, closed) → has_own (runBySessionId r) s = false) → sound [] (spawn_ended c b m w created r).
Proof.
  intros H Hs. unfold spawn_ended. destruct created as [[s closed]|]; [|by apply lost_sound]. destruct (isStopped r) eqn:Est.
  - apply sound_await. split; [apply H|]. intros Hf. cbn in Hf. by rewrite Est in Hf.
  - destruct closed; [by apply lost_sound|]. apply track_sound; [done|]. by apply (Hs s false).
Qed.
Lemma close_failed_sound s n X r : sound X r → sound X (close_failed s n r).
Proof. intros H. unfold close_failed. destruct (_ && _); [by apply sound_await|done]. Qed.
Lemma rstep_sound r e : sound [] r → admissible r e → sound [] (rstep r e).
Proof.
  intros H Ha. destruct e; cbn [runner_step].
  - by apply submit_sound.
  - by apply report_sound.
  - apply run_sound; [done|]. intros t' a E%retry_calm. split; [by eapply calm_good; [|apply H]|intros b; by apply calm_waits].
  - apply run_sound; [done|]. intros t' a E. apply answer_wf in E as [Hw Hm]; [|apply H]. split; [by apply (moved_step (db r)); [apply H|]|intros b; by apply moved_waits].
  - apply run_sound; [done|]. intros t' a E%calm_update. split; [by eapply calm_good; [|apply H]|intros b; by apply calm_waits].
  - apply ended_sound; [done|]. intros r' Hr' Hruns. apply spawned_sound; [done|]. intros s closed ->. by rewrite Hruns.
  - apply ended_sound; [done|]. intros r' Hr' _. by apply lost_sound.
  - apply ended_sound; [done|]. intros r' Hr' _. apply lost_sound. destruct hasFailed; [by apply close_failed_sound|done].
  - apply ended_sound; [done|]. intros r' Hr' _. destruct hasFailed; [by apply close_failed_sound|done].
  - apply ended_sound; [done|]. intros r' Hr' _. by apply sound_await.
  - by apply retire_sound.
  - apply closed_sound; [done|]. by intros ->.
  - split; [apply H|done].
  - destruct Ha as (?&?&?). by apply recover_sound; [apply H|..].
Qed.
Lemma reached_sound r : reached r → sound [] r.
Proof. induction 1 as [|r e _ IH Ha]; [split; [apply no_tables_good|]|by apply rstep_sound]. intros _ b (q&Hq&_). by apply elem_of_nil in Hq. Qed.
(** C13. No batch is left behind: in every state the runner reaches, through submissions, opinions, refused opinions, creations and closes that end in any order or fail, expiries, sessions that close, crashes and boots, and until it is stopped, a batch with a
    question that waits for the arbiter has an arbiter that runs for it, or one that is being created or closed to be replaced, or its hand-over to the human threw and was reported. *)
Theorem no_batch_is_left_behind r b : reached r → isStopped r = false → waitingQuestionsOf (db r) b ≠ [] →
  (∃ s run, get (runBySessionId r) s = Some run ∧ run_batchId run = b) ∨ (∃ task, task ∈ tasks r ∧ task_batch task = Some b) ∨ b ∈ unrecovered r.
Proof.
  intros Hr Hs Hw. pose proof (reached_sound r Hr) as [Hg Hk]. apply waits_waiting in Hw; [|apply Hg]. destruct (Hk Hs b Hw) as [?%elem_of_nil|[[?|?]|?]]; [done|by left|right; by left|right; by right].
Qed.

(** ** The quota *)
Lemma ended_within M task k r : (∀ r', db r' = db r → within M (db (k r'))) → within M (db r) → within M (db (ended task k r)).
Proof. intros Hk H. unfold ended. destruct (bool_decide _); [by apply Hk|done]. Qed.
Lemma forget_db s r : db (forget s r).1 = db r.
Proof. unfold forget. by destruct (get _ s). Qed.
Lemma retire_db s r : db (retire s r) = db r.
Proof. unfold retire. pose proof (forget_db s r) as H. by destruct (forget s r) as [r' [run|]]. Qed.
Lemma settle_db s r : db (settle s r) = db r.
Proof. unfold settle. pose proof (forget_db s r) as H. by destruct (forget s r) as [r' [run|]]. Qed.
Lemma refused_db s r : db (noteRefusedOpinion s r) = db r.
Proof. unfold noteRefusedOpinion. destruct (get _ s); [|done]. cbv zeta. destruct (Nat.leb _ _); [by rewrite retire_db|done]. Qed.
Lemma close_failed_db s n r : db (close_failed s n r) = db r.
Proof. unfold close_failed. by destruct (_ && _). Qed.
Lemma track_db s b m r : db (track s b m r) = db r.
Proof. unfold track. by destruct (isStopped r). Qed.
Lemma fold_within {A} M (f : runner → A → runner) l r : (∀ r x, within M (db r) → within M (db (f r x))) → within M (db r) → within M (db (fold_left f l r)).
Proof. intros Hf. revert r. induction l as [|x l IH]; intros r Hr; [done|]. cbn. auto. Qed.
Lemma recover_within M live world t : (∀ b, maxArbiterRunsPerTicket (world b).1 ≤ M) → within M t → within M (db (recover live world (booted t))).
Proof.
  intros Hq Ht. unfold recover. apply fold_within; [done|]. apply fold_within; [|by apply fold_within]. intros r b Hr. unfold recover_batch.
  destruct (findBatch (db r) b); [|done]. destruct (resumedArbiter _ _); [destruct (world b).2; [by rewrite track_db|]|]; by apply lost_within.
Qed.
(** The quota of every project an event meets. *)
Definition quota_within (M : nat) (e : RunnerEvent) : Prop :=
  match e with
  | SubmitTool _ _ c | SpawnEnds _ _ _ _ c | ThrownSeen _ c | RetireEnds _ _ _ c | SessionCloses _ _ c => maxArbiterRunsPerTicket c ≤ M
  | Boots _ world => ∀ b, maxArbiterRunsPerTicket (world b).1 ≤ M
  | _ => True
  end.
Lemma rstep_within M r e : quota_within M e → within M (db r) → within M (db (rstep r e)).
Proof.
  intros Hq H. destruct e; cbn [runner_step quota_within] in *; try (apply ended_within; [intros r' Hr'|done]).
  - unfold submit_plan_questions. destruct (submitBatch _ _ _ _ _ _ _ _ _) as [e|[t [sub ns]]] eqn:E; [done|]. apply launch_within; [done|]. eapply quiet_within; [|exact E|done]. apply quiet_submit.
  - unfold report_arbiter_opinion. destruct parsed as [o|]; [|by rewrite refused_db]. destruct (negb _); [done|]. destruct (recordArbiterOpinion _ _ _ _ _ _ _ _ _) as [e|[t out]] eqn:E.
    + destruct e; try done. by rewrite refused_db.
    + rewrite settle_db. eapply quiet_within; [|exact E|done]. apply quiet_opinion.
  - apply after_within; [apply quiet_retry|done].
  - apply after_within; [apply quiet_answer|done].
  - apply after_within; [apply quiet_list|done].
  - unfold spawn_ended. rewrite <- Hr' in H. destruct created as [[s closed]|]; [|by apply lost_within]. cbv zeta. destruct (isStopped r'); [done|]. destruct closed; [by apply lost_within|by rewrite track_db].
  - apply lost_within; [done|by rewrite Hr'].
  - apply lost_within; [done|]. destruct hasFailed; rewrite ?close_failed_db, Hr'; done.
  - destruct hasFailed; rewrite ?close_failed_db, Hr'; done.
  - cbn. by rewrite Hr'.
  - by rewrite retire_db.
  - unfold onSessionClosed. set (cleaned := if isDaemonShutdown then r else _). assert (db cleaned = db r) as Hc by (by destruct isDaemonShutdown). pose proof (forget_db sessionId cleaned) as Hf.
    destruct (forget _ _) as [r' [run|]]; cbn in Hf; [|by rewrite Hc]. destruct isDaemonShutdown; [by rewrite Hf, Hc|]. apply lost_within; [done|by rewrite Hf, Hc].
  - done.
  - by apply recover_within.
Qed.
(** C14. The arbiters of a ticket are bounded: whatever happens to the runner, crashes and boots included, and in any order, the runs started over all the batches of a ticket never exceed the largest quota it met. *)
Theorem the_arbiters_of_a_ticket_are_bounded M es m k : Forall (quota_within M) es → arbiterRunsOfTicket (db (fold_left rstep es (booted no_tables))) m k ≤ M.
Proof.
  intros H. assert (within M (db (fold_left rstep es (booted no_tables)))) as Hw; [|apply Hw]. assert (within M (db (booted no_tables))) as H0 by (split; [apply base.NoDup_nil_2|intros; cbn; lia]).
  revert H0. generalize (booted no_tables). induction H as [|e es He _ IH]; intros r Hr; [done|]. cbn. by apply IH, rstep_within.
Qed.
End Claims.

(** ** A batch whose arbiter is lost twice *)
Abbreviation the_runner := (runner_step plain plain plain Datatypes.id Datatypes.id Datatypes.id).
Definition world_of (n : Z) : RunnerCall := mkRunnerCall (call_of n [] (js "e9")) 3 (Some (js "/tmp/w")).
Definition ASKED : PlanQuestionBatch := submission [asks (js "q1") (js "Which list?") (js "technical") None None].
Definition BATCH : str := js "batch-01".
Definition STARTED : list RunnerEvent := [SubmitTool (call_of 1 BATCH (js "e1")) ASKED (world_of 1); SpawnEnds BATCH (js "m1") (js "/tmp/w") (Some (js "s1", false)) (world_of 2)].
Definition LOST_ONCE : list RunnerEvent := STARTED ++ [SessionCloses (js "s1") false (world_of 3)].
Definition LOST_TWICE : list RunnerEvent := LOST_ONCE ++ [SpawnEnds BATCH (js "m1") (js "/tmp/w") None (world_of 4)].
(** The first arbiter is replaced; after the second failure the question is the human's. *)
Example the_second_failure_goes_to_the_human :
  let one := fold_left the_runner LOST_ONCE (booted no_tables) in
  let two := fold_left the_runner LOST_TWICE (booted no_tables) in
  (tasks one, q_status <$> questions (db one)) = ([Spawning BATCH (js "m1") (js "/tmp/w")], [Open])
  ∧ (tasks two, q_status <$> questions (db two), q_reason <$> questions (db two), arbiterRuns <$> batches (db two)) = ([], [PendingHuman], [Some ARBITER_UNAVAILABLE_REASON], [2]).
Proof. by vm_compute. Qed.
Abbreviation lost_once := (fold_left the_runner LOST_ONCE (booted no_tables)).
Lemma no_batch_is_left_behind_witness :
  (∃ s run, get (runBySessionId lost_once) s = Some run ∧ run_batchId run = BATCH) ∨ (∃ task, task ∈ tasks lost_once ∧ task_batch task = Some BATCH) ∨ BATCH ∈ unrecovered lost_once.
Proof.
  apply (no_batch_is_left_behind plain plain plain Datatypes.id Datatypes.id Datatypes.id (fold_left the_runner LOST_ONCE (booted no_tables)) BATCH).
  - cbn [LOST_ONCE STARTED app fold_left]. repeat (apply reached_step; [|by vm_compute]). apply reached_first.
  - by vm_compute.
  - by vm_compute.
Defined.
Lemma the_arbiters_of_a_ticket_are_bounded_witness : arbiterRunsOfTicket (db (fold_left the_runner LOST_TWICE (booted no_tables))) (js "m1") (js "KB-1") ≤ 3.
Proof. apply (the_arbiters_of_a_ticket_are_bounded plain plain plain Datatypes.id Datatypes.id Datatypes.id 3 LOST_TWICE (js "m1") (js "KB-1")). repeat constructor. Defined.
