(* ===== verification/Governance.v ===== *)
(** * The governance queue

    Models of [packages/core/src/governance/proposalInput.ts], [proposalRepository.ts], [waitingProposalRepository.ts], [lawRepository.ts] and
    [governanceQueueService.ts]: the proposals a manager files and a human answers, the list where they wait for a place, the laws and the grants an
    approval records.  A payload is stored as its JSON text, which the code writes with its keys in one order, so that two texts are the same exactly when the payloads are; the kind is the one of the payload. *)
From S2P Require Import Prelude Transaction JsText Regex Sorting PolicyTypes PolicyEvaluator CommandPredicates Escalation.

Definition MAX_PENDING_PROPOSALS_PER_MANAGER : nat := 10.
Definition MAX_QUEUED_PROPOSALS_PER_MANAGER : nat := 50.
Definition MAX_DENIED_HISTORY_PER_MANAGER : nat := 20.
Definition MAX_AUDIT_HISTORY_PER_MANAGER : nat := 50.
Definition MAX_LAW_TEXT_CHARS : nat := 2000.
Definition MAX_PERMISSION_FIELD_CHARS : nat := 500.
Definition MAX_INCIDENT_CHARS : nat := 1000.
Definition MAX_ROLE_CHARS : nat := 80.
Definition MAX_DENIAL_REASON_CHARS : nat := 500.
Definition HUMAN_ACTOR : str := js "admin".

Inductive ResourceType := DataStore | Note | Playbook | Integration.
Inductive ResourceAccess := ReadAccess | ReadWriteAccess | AppendAccess | RunAccess | UseAccess.
Inductive ProposalKind := KindLaw | KindPermission | KindResourceAccess.
Inductive ProposalPayload :=
  | LawPayload (text : str)
  | PermissionPayload (action scope condition exclusions : str)
  | ResourceAccessPayload (resourceType : ResourceType) (resourceId : str) (access : ResourceAccess) (role : str).
Inductive ProposalStatus := Pending | Approved | Denied | Withdrawn.
Inductive LawStatus := LawActive | LawWithdrawn.
Inductive LawSourceKind := SourceProposal | SourceLegacy | SourceImport.
#[export] Instance ResourceType_eq_dec : EqDecision ResourceType.
Proof. solve_decision. Defined.
#[export] Instance ResourceAccess_eq_dec : EqDecision ResourceAccess.
Proof. solve_decision. Defined.
#[export] Instance ProposalPayload_eq_dec : EqDecision ProposalPayload.
Proof. solve_decision. Defined.
#[export] Instance ProposalStatus_eq_dec : EqDecision ProposalStatus.
Proof. solve_decision. Defined.
#[export] Instance LawStatus_eq_dec : EqDecision LawStatus.
Proof. solve_decision. Defined.
Definition kind_of (p : ProposalPayload) : ProposalKind :=
  match p with LawPayload _ => KindLaw | PermissionPayload _ _ _ _ => KindPermission | ResourceAccessPayload _ _ _ _ => KindResourceAccess end.
Definition ACCESSES_BY_RESOURCE_TYPE (t : ResourceType) : list ResourceAccess :=
  match t with DataStore => [ReadAccess; ReadWriteAccess] | Note => [ReadAccess; ReadWriteAccess; AppendAccess] | Playbook => [RunAccess] | Integration => [UseAccess] end.
Definition GRANTABLE_RESOURCE_TYPES : list ResourceType := [DataStore; Note].
Definition resource_type_of (s : str) : option ResourceType :=
  if str_eqb s (js "dataStore") then Some DataStore else if str_eqb s (js "note") then Some Note else if str_eqb s (js "playbook") then Some Playbook
  else if str_eqb s (js "integration") then Some Integration else None.
Definition resource_access_of (s : str) : option ResourceAccess :=
  if str_eqb s (js "read") then Some ReadAccess else if str_eqb s (js "readWrite") then Some ReadWriteAccess else if str_eqb s (js "append") then Some AppendAccess
  else if str_eqb s (js "run") then Some RunAccess else if str_eqb s (js "use") then Some UseAccess else None.

(** ** The tables *)
Record Proposal := mkProposal
  { p_id : str; p_managerId : str; p_payload : ProposalPayload; p_status : ProposalStatus; p_incident : str; denialReason : option str; p_createdAt : Z; decidedAt : option Z }.
Record WaitingProposal := mkWaiting { w_id : str; w_managerId : str; w_payload : ProposalPayload; w_incident : str; w_createdAt : Z }.
Record ResourceGrant := mkGrant { g_id : str; g_managerId : str; g_resourceType : ResourceType; g_resourceId : str; g_role : str; g_access : ResourceAccess; g_proposalId : option str; grantedAt : Z }.
Record Law := mkLaw
  { law_id : str; law_managerId : str; law_text : str; law_status : LawStatus; law_revision : Z; law_createdAt : Z; law_updatedAt : Z; withdrawnAt : option Z; approvedBy : option str;
    updatedBy : option str; withdrawnBy : option str; law_source : LawSourceKind; source_key : option str; sourceCreatedAt : option Z; law_proposalId : option str }.
(** The managers come with the denials evicted of their history. *)
Record governance := mkGovernance
  { proposals : list Proposal; waiting : list WaitingProposal; grants : list ResourceGrant; laws : list Law; managers : rec nat }.
Definition set_proposals (v : list Proposal) (t : governance) : governance := mkGovernance v (waiting t) (grants t) (laws t) (managers t).
Definition set_waiting (v : list WaitingProposal) (t : governance) : governance := mkGovernance (proposals t) v (grants t) (laws t) (managers t).
Definition set_grants (v : list ResourceGrant) (t : governance) : governance := mkGovernance (proposals t) (waiting t) v (laws t) (managers t).
Definition set_laws (v : list Law) (t : governance) : governance := mkGovernance (proposals t) (waiting t) (grants t) v (managers t).
Definition set_managers (v : rec nat) (t : governance) : governance := mkGovernance (proposals t) (waiting t) (grants t) (laws t) v.

Inductive GovernanceError :=
  | NotAManager | BadBody | GovernanceQueueFull | ProposalNotFound | ProposalAlreadyResolved | LawNotFound | LawIsWithdrawn | LawRevisionConflict (currentRev : Z)
  | ResourceNotFound (resourceType : ResourceType) (resourceId : str) | ConstraintBroken | MissingRow.
Abbreviation Gx := (Txn governance GovernanceError).

(** ** Proposals *)
Definition isSpaces (s : str) : bool := forallb (N.eqb (chr " ")) s.
Definition findProposal (t : governance) (id : str) : option Proposal := find (λ p, str_eqb (p_id p) id) (proposals t).
Definition is_pending_of_manager (managerId : str) (p : Proposal) : bool := str_eqb (p_managerId p) managerId && bool_decide (p_status p = Pending).
(** The primary key, the check of the incident and the reference to the manager. *)
Definition insertProposal (id managerId : str) (payload : ProposalPayload) (incident : str) (createdAt : Z) : Gx unit :=
  isAllowed ← reads (λ t, negb (bool_decide (is_Some (findProposal t id))) && negb (isSpaces incident) && has_own (managers t) managerId);
  if isAllowed : bool then writes (λ t, set_proposals (proposals t ++ [mkProposal id managerId payload Pending incident None createdAt None]) t) else refuse ConstraintBroken.
Definition findPendingTwin (t : governance) (managerId : str) (payload : ProposalPayload) : option Proposal :=
  find (λ p, is_pending_of_manager managerId p && bool_decide (p_payload p = payload)) (proposals t).
Definition pending_rows (t : governance) (managerId : str) : list Proposal := filter (λ p, is_pending_of_manager managerId p = true) (proposals t).
Definition countPending (t : governance) (managerId : str) : nat := length (pending_rows t managerId).
Definition answered (status : ProposalStatus) (reason : option str) (now : Z) (p : Proposal) : Proposal :=
  mkProposal (p_id p) (p_managerId p) (p_payload p) status (p_incident p) reason (p_createdAt p) (Some now).
Definition is_pending_id (id : str) (p : Proposal) : bool := str_eqb (p_id p) id && bool_decide (p_status p = Pending).
Definition answerIfPending (id : str) (status : ProposalStatus) (reason : option str) (now : Z) : Gx bool :=
  changes ← reads (λ t, length (filter (λ p, is_pending_id id p = true) (proposals t)));
  _ ← writes (λ t, set_proposals ((λ p, if is_pending_id id p then answered status reason now p else p) <$> proposals t) t);
  mret (Nat.eqb changes 1).
Definition oldest_filing_first (l : list Proposal) : list Proposal := sort_by p_createdAt l.
(** A row without an answer is not in these lists. *)
Definition newest_answer_first (l : list Proposal) : list Proposal := reverse (sort_by (λ p, default 0%Z (decidedAt p)) l).
Definition rows_of (t : governance) (managerId : str) (statuses : list ProposalStatus) : list Proposal :=
  filter (λ p, str_eqb (p_managerId p) managerId && bool_decide (p_status p ∈ statuses) = true) (proposals t).
Definition allWithStatus (t : governance) (status : ProposalStatus) : list Proposal :=
  let rows := filter (λ p, p_status p = status) (proposals t) in
  if bool_decide (status = Pending) then oldest_filing_first rows else newest_answer_first rows.
Definition pendingOf (t : governance) (managerId : str) : list Proposal := oldest_filing_first (rows_of t managerId [Pending]).
Definition deniedOf (t : governance) (managerId : str) : list Proposal := newest_answer_first (rows_of t managerId [Denied]).
Definition auditHistoryOf (t : governance) (managerId : str) : list Proposal := newest_answer_first (rows_of t managerId [Approved; Withdrawn]).
(** A deleted proposal leaves its grants and its law, which forget it. *)
Definition forget_proposal (ids : list str) (proposalId : option str) : option str :=
  match proposalId with Some id => if mem_str id ids then None else Some id | None => None end.
Definition deleteProposals (ids : list str) (t : governance) : governance :=
  mkGovernance (filter (λ p, mem_str (p_id p) ids = false) (proposals t)) (waiting t)
    ((λ g, mkGrant (g_id g) (g_managerId g) (g_resourceType g) (g_resourceId g) (g_role g) (g_access g) (forget_proposal ids (g_proposalId g)) (grantedAt g)) <$> grants t)
    ((λ l, mkLaw (law_id l) (law_managerId l) (law_text l) (law_status l) (law_revision l) (law_createdAt l) (law_updatedAt l) (withdrawnAt l) (approvedBy l) (updatedBy l) (withdrawnBy l)
             (law_source l) (source_key l) (sourceCreatedAt l) (forget_proposal ids (law_proposalId l))) <$> laws t)
    (managers t).
Definition evictOldestBeyond (managerId : str) (statuses : list ProposalStatus) (keep : nat) : Gx nat :=
  ids ← reads (λ t, p_id <$> drop keep (newest_answer_first (rows_of t managerId statuses)));
  _ ← writes (deleteProposals ids);
  mret (length ids).
Definition evictedDenialsOf (t : governance) (managerId : str) : nat := default 0 (get (managers t) managerId).
Definition addEvictedDenials (managerId : str) (count : nat) : Gx unit :=
  writes (λ t, if has_own (managers t) managerId then set_managers (put (managers t) managerId (evictedDenialsOf t managerId + count)) t else t).
Definition is_grant_on (managerId : str) (resourceType : ResourceType) (resourceId : str) (g : ResourceGrant) : bool :=
  str_eqb (g_managerId g) managerId && bool_decide (g_resourceType g = resourceType) && str_eqb (g_resourceId g) resourceId.
Definition upsertGrant (grant : ResourceGrant) : Gx unit :=
  isTaken ← reads (λ t, existsb (λ g, str_eqb (g_id g) (g_id grant)) (grants t));
  if isTaken : bool then refuse ConstraintBroken
  else
    let isSame := is_grant_on (g_managerId grant) (g_resourceType grant) (g_resourceId grant) in
    writes (λ t, if existsb isSame (grants t)
                 then set_grants ((λ g, if isSame g then mkGrant (g_id g) (g_managerId g) (g_resourceType g) (g_resourceId g) (g_role grant) (g_access grant) (g_proposalId grant) (grantedAt grant) else g) <$> grants t) t
                 else set_grants (grants t ++ [grant]) t).
Definition grantsOf (t : governance) (managerId : str) : list ResourceGrant := sort_by grantedAt (filter (λ g, g_managerId g = managerId) (grants t)).

(** ** The waiting list *)
Definition waitingOf (t : governance) (managerId : str) : list WaitingProposal := filter (λ w, str_eqb (w_managerId w) managerId = true) (waiting t).
Definition listWaitingOf (t : governance) (managerId : str) : list WaitingProposal := sort_by w_createdAt (waitingOf t managerId).
Definition countWaitingOf (t : governance) (managerId : str) : nat := length (waitingOf t managerId).
Definition insertWaiting (id managerId : str) (payload : ProposalPayload) (incident : str) (createdAt : Z) : Gx unit :=
  isAllowed ← reads (λ t, negb (existsb (λ w, str_eqb (w_id w) id) (waiting t)) && negb (isSpaces incident) && has_own (managers t) managerId);
  if isAllowed : bool then writes (λ t, set_waiting (waiting t ++ [mkWaiting id managerId payload incident createdAt]) t) else refuse ConstraintBroken.
Definition findWaitingTwin (t : governance) (managerId : str) (payload : ProposalPayload) : option WaitingProposal :=
  find (λ w, bool_decide (w_payload w = payload)) (waitingOf t managerId).
(** The rank of a waiting proposal in the list of its manager, from 1. *)
Fixpoint rank_in (l : list WaitingProposal) (id : str) : nat :=
  match l with [] => 0 | w :: rest => if str_eqb (w_id w) id then 1 else S (rank_in rest id) end.
Definition positionOf (t : governance) (managerId id : str) : nat := rank_in (listWaitingOf t managerId) id.
Definition countsByManager (t : governance) : list (str * nat) := (λ m, (m, countWaitingOf t m)) <$> unique (w_managerId <$> waiting t).
Definition releaseOldest (managerId : str) : Gx (option str) :=
  oldest ← reads (λ t, list.head (listWaitingOf t managerId));
  match oldest with
  | None => mret None
  | Some row =>
      _ ← insertProposal (w_id row) (w_managerId row) (w_payload row) (w_incident row) (w_createdAt row);
      _ ← writes (λ t, set_waiting (filter (λ w, str_eqb (w_id w) (w_id row) = false) (waiting t)) t);
      mret (Some (w_id row))
  end.
Definition is_own_waiting (managerId id : str) (w : WaitingProposal) : bool := str_eqb (w_id w) id && str_eqb (w_managerId w) managerId.
Definition deleteWaitingOf (managerId id : str) : Gx bool :=
  changes ← reads (λ t, length (filter (λ w, is_own_waiting managerId id w = true) (waiting t)));
  _ ← writes (λ t, set_waiting (filter (λ w, is_own_waiting managerId id w = false) (waiting t)) t);
  mret (Nat.eqb changes 1).

(** ** Laws *)
Definition findLaw (t : governance) (id : str) : option Law := find (λ l, str_eqb (law_id l) id) (laws t).
(** The primary key, the check of the text (SQLite counts code points), the unique proposal and source key, and the reference to the manager; [approved_by] is never blank here. *)
Definition insertLaw (law : Law) : Gx unit :=
  isAllowed ← reads (λ t, negb (bool_decide (is_Some (findLaw t (law_id law)))) && negb (isSpaces (law_text law)) && Nat.leb (length (code_points (law_text law))) 2000
    && negb (bool_decide (is_Some (law_proposalId law)) && existsb (λ l, bool_decide (law_proposalId l = law_proposalId law)) (laws t))
    && negb (bool_decide (is_Some (source_key law)) && existsb (λ l, bool_decide (source_key l = source_key law)) (laws t)) && has_own (managers t) (law_managerId law));
  if isAllowed : bool then writes (λ t, set_laws (laws t ++ [law]) t) else refuse ConstraintBroken.
Definition insertOfApprovedProposal (id managerId text by_ proposalId : str) (approvedAt : Z) : Gx unit :=
  insertLaw (mkLaw id managerId text LawActive 1 approvedAt approvedAt None (Some by_) (Some by_) None SourceProposal None None (Some proposalId)).
Definition insertFromImport (id managerId text sourceKey importedBy : str) (createdAt sourceAt : Z) : Gx unit :=
  insertLaw (mkLaw id managerId text LawActive 1 createdAt createdAt None (Some importedBy) (Some importedBy) None SourceImport (Some sourceKey) (Some sourceAt) None).
Definition findBySourceKey (t : governance) (key : str) : option Law := find (λ l, bool_decide (source_key l = Some key)) (laws t).
Definition with_text (text by_ : str) (now : Z) (l : Law) : Law :=
  mkLaw (law_id l) (law_managerId l) text (law_status l) (law_revision l + 1) (law_createdAt l) now (withdrawnAt l) (approvedBy l) (Some by_) (withdrawnBy l) (law_source l) (source_key l) (sourceCreatedAt l) (law_proposalId l).
Definition as_withdrawn (by_ : str) (now : Z) (l : Law) : Law :=
  mkLaw (law_id l) (law_managerId l) (law_text l) LawWithdrawn (law_revision l + 1) (law_createdAt l) now (Some now) (approvedBy l) (Some by_) (Some by_) (law_source l) (source_key l) (sourceCreatedAt l) (law_proposalId l).
(** An [UPDATE] of the laws that meet a condition answers whether it changed one; a text the table refuses throws. *)
Definition update_laws (condition : Law → bool) (f : Law → Law) : Gx bool :=
  changes ← reads (λ t, length (filter (λ l, condition l = true) (laws t)));
  isAllowed ← reads (λ t, forallb (λ l, negb (condition l) || negb (isSpaces (law_text (f l))) && Nat.leb (length (code_points (law_text (f l)))) 2000) (laws t));
  if isAllowed : bool then _ ← writes (λ t, set_laws ((λ l, if condition l then f l else l) <$> laws t) t); mret (Nat.ltb 0 changes) else refuse ConstraintBroken.
Definition is_active_at (lawId : str) (revision : Z) (l : Law) : bool := str_eqb (law_id l) lawId && Z.eqb (law_revision l) revision && bool_decide (law_status l = LawActive).
Definition replaceTextIfRevision (lawId : str) (expectedRevision : Z) (text by_ : str) (now : Z) : Gx bool := update_laws (is_active_at lawId expectedRevision) (with_text text by_ now).
Definition withdrawIfRevision (lawId : str) (expectedRevision : Z) (by_ : str) (now : Z) : Gx bool := update_laws (is_active_at lawId expectedRevision) (as_withdrawn by_ now).
Definition replaceTextFromImport (lawId text importedBy : str) (now : Z) : Gx bool :=
  update_laws (λ l, str_eqb (law_id l) lawId && bool_decide (law_status l = LawActive) && bool_decide (updatedBy l = Some importedBy)) (with_text text importedBy now).
Definition lawsOf (t : governance) (managerId : str) : list Law := sort_by law_createdAt (filter (λ l, law_managerId l = managerId) (laws t)).

(** ** The service *)
Section Service.
(** [\p{Cf}] and the masking of the secrets a text shows. *)
Variable isFormat : N → bool.
Variable maskedSecrets : str → str.

(** None is [invalid_body]. *)
Definition requiredText (value : str) (maxChars : nat) : option str :=
  let visibleText := visibleTextOf isFormat value in
  if Nat.eqb (length visibleText) 0 then None else if Nat.ltb maxChars (length visibleText) then None else Some visibleText.
Definition storedText (value : str) (maxChars : nat) : option str :=
  visibleText ← requiredText value maxChars;
  let masked := maskedSecrets visibleText in
  if Nat.ltb maxChars (length masked) then None else Some masked.
Definition storedIncident (incident : str) : option str := storedText incident MAX_INCIDENT_CHARS.
Definition storedDenialReason (reason : option str) : option str := match reason with None => None | Some r => requiredText r MAX_DENIAL_REASON_CHARS end.
Definition storedLawText (text : str) : option str := storedText text MAX_LAW_TEXT_CHARS.
Definition lawPayloadOf (text : str) : option ProposalPayload := LawPayload <$> storedText text MAX_LAW_TEXT_CHARS.
Definition permissionPayloadOf (action scope condition exclusions : str) : option ProposalPayload :=
  a ← storedText action MAX_PERMISSION_FIELD_CHARS;
  s ← storedText scope MAX_PERMISSION_FIELD_CHARS;
  c ← storedText condition MAX_PERMISSION_FIELD_CHARS;
  e ← storedText exclusions MAX_PERMISSION_FIELD_CHARS;
  Some (PermissionPayload a s c e).
Definition resourceAccessPayloadOf (resourceType resourceId access role : str) : option ProposalPayload :=
  t ← resource_type_of resourceType;
  a ← resource_access_of access;
  if negb (bool_decide (t ∈ GRANTABLE_RESOURCE_TYPES)) then None
  else if negb (bool_decide (a ∈ ACCESSES_BY_RESOURCE_TYPE t)) then None
  else
    i ← requiredText resourceId MAX_PERMISSION_FIELD_CHARS;
    r ← storedText role MAX_ROLE_CHARS;
    Some (ResourceAccessPayload t i a r).

(** What a call meets: the readings of the clock and of the ids, and the projects of sessions, tables and notes. *)
Record GovCall := mkGovCall { gc_now : Z; gc_later : Z; gc_newId : str; projectIdOf : str → option str; storeProjectId : str → option str; noteProjectId : str → option str }.
Inductive GovNotice :=
  | GovProposed (p : Proposal) | GovQueueChanged (managerId : str) (queuedCount : nat) | GovResolved (p : Proposal)
  | LawCreated (l : Law) | LawUpdated (l : Law) | LawWithdrawnNotice (l : Law) | DecisionNotice (p : Proposal) (reason : option str) (released : list str).
(** The proposal of a filing is pending or waits. *)
Record ProposalFiled := mkFiled { filed_id : str; deduplicated : bool; filed_status : ProposalStatus + nat; filed_queuedCount : nat }.

Definition requireManager (managerId : str) : Gx unit := isManager ← reads (λ t, has_own (managers t) managerId); if isManager : bool then mret () else refuse NotAManager.
Definition valid {A} (o : option A) : Gx A := match o with Some a => mret a | None => refuse BadBody end.
Definition isInManagerProject (call : GovCall) (managerId : str) (resourceType : ResourceType) (resourceId : str) : bool :=
  let ownerProjectId := if bool_decide (resourceType = DataStore) then storeProjectId call resourceId else noteProjectId call resourceId in
  bool_decide (is_Some ownerProjectId) && bool_decide (ownerProjectId = projectIdOf call managerId).
Definition requireResourceOfManagerProject (call : GovCall) (managerId : str) (payload : ProposalPayload) : Gx unit :=
  match payload with
  | ResourceAccessPayload resourceType resourceId _ _ => if isInManagerProject call managerId resourceType resourceId then mret () else refuse (ResourceNotFound (if bool_decide (resourceType = DataStore) then DataStore else Note) resourceId)
  | _ => mret ()
  end.
(** [inl Pending] is a pending proposal, [inr position] one that waits. *)
Definition enqueueUnlessDuplicate (call : GovCall) (managerId : str) (incident : str) (payload : ProposalPayload) : Gx (ProposalFiled * list GovNotice) :=
  queuedCountBefore ← reads (λ t, countWaitingOf t managerId);
  identicalPending ← reads (λ t, findPendingTwin t managerId payload);
  match identicalPending with
  | Some twin => mret (mkFiled (p_id twin) true (inl Pending) queuedCountBefore, [])
  | None =>
      identicalWaiting ← reads (λ t, (λ twin, (twin, positionOf t managerId (w_id twin))) <$> findWaitingTwin t managerId payload);
      match identicalWaiting with
      | Some (twin, position) => mret (mkFiled (w_id twin) true (inr position) queuedCountBefore, [])
      | None =>
          hasFreePendingPlace ← reads (λ t, Nat.ltb (countPending t managerId) MAX_PENDING_PROPOSALS_PER_MANAGER);
          if (hasFreePendingPlace : bool) && negb (Nat.ltb 0 queuedCountBefore) then
            _ ← insertProposal (gc_newId call) managerId payload incident (gc_now call);
            inserted ← reads (λ t, findProposal t (gc_newId call));
            match inserted with
            | None => refuse MissingRow
            | Some p => mret (mkFiled (p_id p) false (inl Pending) 0, [GovProposed p])
            end
          else if Nat.leb MAX_QUEUED_PROPOSALS_PER_MANAGER queuedCountBefore then refuse GovernanceQueueFull
          else
            _ ← insertWaiting (gc_newId call) managerId payload incident (gc_now call);
            parked ← reads (λ t, (λ w, (w_id w, length (listWaitingOf t managerId))) <$> list.last (listWaitingOf t managerId));
            match parked with
            | None => refuse MissingRow
            | Some (id, position) => mret (mkFiled id false (inr position) position, [GovQueueChanged managerId position])
            end
      end
  end.
Definition proposeLaw (call : GovCall) (managerId text incident : str) : Gx (ProposalFiled * list GovNotice) :=
  _ ← requireManager managerId; i ← valid (storedIncident incident); payload ← valid (lawPayloadOf text); enqueueUnlessDuplicate call managerId i payload.
Definition proposePermission (call : GovCall) (managerId action scope condition exclusions incident : str) : Gx (ProposalFiled * list GovNotice) :=
  _ ← requireManager managerId; i ← valid (storedIncident incident); payload ← valid (permissionPayloadOf action scope condition exclusions); enqueueUnlessDuplicate call managerId i payload.
Definition requestResourceAccess (call : GovCall) (managerId resourceType resourceId access role incident : str) : Gx (ProposalFiled * list GovNotice) :=
  _ ← requireManager managerId; i ← valid (storedIncident incident); payload ← valid (resourceAccessPayloadOf resourceType resourceId access role);
  _ ← requireResourceOfManagerProject call managerId payload; enqueueUnlessDuplicate call managerId i payload.

(** ** Answers *)
(** The places of a manager are filled with the oldest of its waiting proposals; the list shrinks each time, so its length is enough fuel. *)
Fixpoint release_loop (fuel : nat) (managerId : str) (releasedIds : list str) : Gx (list str) :=
  match fuel with
  | 0 => mret releasedIds
  | S fuel =>
      hasFreePlace ← reads (λ t, Nat.ltb (countPending t managerId) MAX_PENDING_PROPOSALS_PER_MANAGER);
      if negb hasFreePlace then mret releasedIds
      else
        releasedId ← releaseOldest managerId;
        match releasedId with None => mret releasedIds | Some id => release_loop fuel managerId (releasedIds ++ [id]) end
  end.
Definition releaseWaitingIntoFreePlaces (managerId : str) : Gx (list Proposal * nat) :=
  fuel ← reads (λ t, S (length (waiting t)));
  releasedIds ← release_loop fuel managerId [];
  reads (λ t, (omap (findProposal t) releasedIds, countWaitingOf t managerId)).
Definition announceQueueChange (managerId : str) (released : list Proposal) (queuedCount : nat) (didQueueChange : bool) : list GovNotice :=
  (GovProposed <$> released) ++ (if didQueueChange then [GovQueueChanged managerId queuedCount] else []).
Definition answer_proposal (call : GovCall) (proposalId : str) (status : ProposalStatus) (reason : option str) : Gx unit :=
  wasPending ← answerIfPending proposalId status reason (gc_now call);
  if wasPending : bool then mret ()
  else exists_ ← reads (λ t, bool_decide (is_Some (findProposal t proposalId))); if exists_ : bool then refuse ProposalAlreadyResolved else refuse ProposalNotFound.
Definition evictOldestAudit (managerId : str) : Gx unit := _ ← evictOldestBeyond managerId [Approved; Withdrawn] MAX_AUDIT_HISTORY_PER_MANAGER; mret ().
Definition evictOldestDenials (managerId : str) : Gx unit :=
  evictedCount ← evictOldestBeyond managerId [Denied] MAX_DENIED_HISTORY_PER_MANAGER;
  if Nat.ltb 0 evictedCount then addEvictedDenials managerId evictedCount else mret ().
Definition recordGrantOfApproved (call : GovCall) (approved : Proposal) : Gx unit :=
  match p_payload approved with
  | ResourceAccessPayload resourceType resourceId access role =>
      _ ← requireResourceOfManagerProject call (p_managerId approved) (p_payload approved);
      upsertGrant (mkGrant (gc_newId call) (p_managerId approved) resourceType resourceId role access (Some (p_id approved)) (gc_later call))
  | _ => mret ()
  end.
Definition recordLawOfApproved (call : GovCall) (approved : Proposal) : Gx (option Law) :=
  match p_payload approved with
  | LawPayload text =>
      _ ← insertOfApprovedProposal (gc_newId call) (p_managerId approved) text HUMAN_ACTOR (p_id approved) (default 0%Z (decidedAt approved));
      reads (λ t, findLaw t (gc_newId call))
  | _ => mret None
  end.
Definition withdraw (call : GovCall) (managerId proposalId : str) : Gx (list GovNotice) :=
  _ ← requireManager managerId;
  wasWaiting ← deleteWaitingOf managerId proposalId;
  if wasWaiting : bool then queuedCount ← reads (λ t, countWaitingOf t managerId); mret (announceQueueChange managerId [] queuedCount true)
  else
    current ← reads (λ t, findProposal t proposalId);
    if negb (bool_decide (p_managerId <$> current = Some managerId)) then refuse ProposalNotFound
    else
      _ ← answer_proposal call proposalId Withdrawn None;
      _ ← evictOldestAudit managerId;
      resolved ← reads (λ t, findProposal t proposalId);
      releases ← releaseWaitingIntoFreePlaces managerId;
      mret (match resolved with Some p => [GovResolved p] | None => [] end ++ announceQueueChange managerId releases.1 releases.2 (Nat.ltb 0 (length releases.1))).
Definition decide_proposal (call : GovCall) (proposalId : str) (isApproval : bool) (reason : option str) : Gx (Proposal * list GovNotice) :=
  shown ← (match reason with None => mret None | Some r => stored ← valid (storedDenialReason (Some r)); mret (Some stored) end : Gx (option str));
  denialReason ← (if isApproval then mret None else stored ← valid (storedDenialReason reason); mret (Some stored) : Gx (option str));
  _ ← answer_proposal call proposalId (if isApproval then Approved else Denied) denialReason;
  found ← reads (λ t, findProposal t proposalId);
  match found with
  | None => refuse MissingRow
  | Some p =>
      enacted ← (if isApproval then _ ← recordGrantOfApproved call p; law ← recordLawOfApproved call p; _ ← evictOldestAudit (p_managerId p); mret law
                 else _ ← evictOldestDenials (p_managerId p); mret None : Gx (option Law));
      releases ← releaseWaitingIntoFreePlaces (p_managerId p);
      mret (p, GovResolved p :: match enacted with Some law => [LawCreated law] | None => [] end
                 ++ announceQueueChange (p_managerId p) releases.1 releases.2 (Nat.ltb 0 (length releases.1)) ++ [DecisionNotice p shown (p_id <$> releases.1)])
  end.

(** ** Changes of laws *)
Definition changeLaw (lawId : str) (change : Gx bool) : Gx Law :=
  wasChanged ← change;
  law ← reads (λ t, findLaw t lawId);
  match law with
  | None => if wasChanged : bool then refuse MissingRow else refuse LawNotFound
  | Some l => if wasChanged : bool then mret l else if bool_decide (law_status l = LawWithdrawn) then refuse LawIsWithdrawn else refuse (LawRevisionConflict (law_revision l))
  end.
Definition editLaw (call : GovCall) (lawId text : str) (expectedRevision : Z) : Gx (Law * list GovNotice) :=
  newText ← valid (storedLawText text);
  edited ← changeLaw lawId (replaceTextIfRevision lawId expectedRevision newText HUMAN_ACTOR (gc_now call));
  mret (edited, [LawUpdated edited]).
Definition withdrawLaw (call : GovCall) (lawId : str) (expectedRevision : Z) : Gx (Law * list GovNotice) :=
  l ← changeLaw lawId (withdrawIfRevision lawId expectedRevision HUMAN_ACTOR (gc_now call));
  mret (l, [LawWithdrawnNotice l]).
Record GovernanceView := mkGovernanceView
  { gv_laws : list Law; gv_grants : list ResourceGrant; gv_pending : list Proposal; gv_queued : list WaitingProposal; gv_denied : list Proposal; gv_history : list Proposal; gv_evictedDenials : nat }.
Definition governanceViewOf (managerId : str) : Gx GovernanceView :=
  _ ← requireManager managerId;
  reads (λ t, mkGovernanceView (lawsOf t managerId) (grantsOf t managerId) (pendingOf t managerId) (listWaitingOf t managerId) (deniedOf t managerId) (auditHistoryOf t managerId) (evictedDenialsOf t managerId)).

(** ** What happens to the tables *)
Inductive GovEvent :=
  | ManagerAdded (managerId : str)
  | LawProposed (call : GovCall) (managerId text incident : str)
  | PermissionProposed (call : GovCall) (managerId action scope condition exclusions incident : str)
  | AccessRequested (call : GovCall) (managerId resourceType resourceId access role incident : str)
  | ProposalTakenBack (call : GovCall) (managerId proposalId : str)
  | HumanDecided (call : GovCall) (proposalId : str) (isApproval : bool) (reason : option str)
  | HumanEditedLaw (call : GovCall) (lawId text : str) (expectedRevision : Z)
  | HumanWithdrewLaw (call : GovCall) (lawId : str) (expectedRevision : Z)
  | LawImported (id managerId text sourceKey importedBy : str) (createdAt sourceAt : Z)
  | LawReimported (lawId text importedBy : str) (now : Z).
Definition gov_step (t : governance) (e : GovEvent) : governance :=
  match e with
  | ManagerAdded m => if has_own (managers t) m then t else set_managers (put (managers t) m 0) t
  | LawProposed call m text incident => after (proposeLaw call m text incident) t
  | PermissionProposed call m action scope condition exclusions incident => after (proposePermission call m action scope condition exclusions incident) t
  | AccessRequested call m resourceType resourceId access role incident => after (requestResourceAccess call m resourceType resourceId access role incident) t
  | ProposalTakenBack call m id => after (withdraw call m id) t
  | HumanDecided call id isApproval reason => after (decide_proposal call id isApproval reason) t
  | HumanEditedLaw call id text rev => after (editLaw call id text rev) t
  | HumanWithdrewLaw call id rev => after (withdrawLaw call id rev) t
  | LawImported id m text key by_ createdAt sourceAt => after (insertFromImport id m text key by_ createdAt sourceAt) t
  | LawReimported id text by_ now => after (replaceTextFromImport id text by_ now) t
  end.
Definition no_governance : governance := mkGovernance [] [] [] [] [].
Definition governance_after (es : list GovEvent) : governance := fold_left gov_step es no_governance.
End Service.
