(* ===== verification/GovernanceFacts.v ===== *)
(** * What the statements of the governance queue do

    The effect of each operation of [Governance] on what a manager has: its pending rows, its waiting list and its two histories. *)
From S2P Require Import Prelude Transaction JsText Regex Sorting PolicyTypes PolicyEvaluator CommandPredicates Escalation EscalationFacts Governance.

(** ** Selections *)
Lemma filter_filter_comm {A} (P Q : A → Prop) `{∀ x, Decision (P x)} `{∀ x, Decision (Q x)} (l : list A) : filter P (filter Q l) = filter Q (filter P l).
Proof. rewrite !list_filter_filter. apply list_filter_iff. tauto. Qed.
Lemma filter_ext_elem {A} (P Q : A → Prop) `{∀ x, Decision (P x)} `{∀ x, Decision (Q x)} (l : list A) : (∀ x, x ∈ l → P x ↔ Q x) → filter P l = filter Q l.
Proof.
  induction l as [|x l IH]; intros Hl; [done|]. rewrite !filter_cons. rewrite IH by (intros y Hy; apply Hl; by right). pose proof (Hl x (list_elem_of_here _ _)). repeat case_decide; tauto.
Qed.
Lemma filter_one {A} (P : A → Prop) `{∀ x, Decision (P x)} (l : list A) x : NoDup l → x ∈ l → (∀ y, y ∈ l → P y ↔ y = x) → filter P l = [x].
Proof.
  induction l as [|y l IH]; intros Hn Hx Hp; [by apply elem_of_nil in Hx|]. apply list.NoDup_cons in Hn as [Hy Hn]. rewrite filter_cons. pose proof (Hp y (list_elem_of_here _ _)) as Hpy. apply elem_of_cons in Hx as [<-|Hx].
  - rewrite decide_True by (by apply Hpy). f_equal. apply filter_false. intros z Hz. rewrite Hp by (by right). naive_solver.
  - rewrite decide_False by (rewrite Hpy; naive_solver). apply IH; [done..|]. intros z Hz. apply Hp. by right.
Qed.
Lemma fmap_filter {A B} (f : A → B) (P : B → Prop) `{∀ x, Decision (P x)} (l : list A) : f <$> filter (λ x, P (f x)) l = filter P (f <$> l).
Proof. induction l as [|x l IH]; [done|]. rewrite fmap_cons, !filter_cons. case_decide; csimpl; by rewrite IH. Qed.
Lemma sort_by_id {A} (k : A → Z) l : sorted k l → sort_by k l = l.
Proof.
  induction l as [|x l IH] using rev_ind; intros Hs; [done|]. rewrite sort_by_snoc.
  assert (sorted k l ∧ ∀ y, y ∈ l → (k y ≤ k x)%Z) as [Hl Hx].
  { clear IH. induction l as [|y l IHl]; [split; [constructor|by intros ? ?%elem_of_nil]|]. inversion Hs as [|? ? Hy Hs']; subst. destruct (IHl Hs') as [H1 H2]. split.
    - constructor; [|done]. intros z Hz. apply Hy, elem_of_app. by left.
    - intros z [->|Hz]%elem_of_cons; [apply Hy, elem_of_app; right; by apply list_elem_of_singleton|auto]. }
  rewrite IH by done. by apply insert_by_last.
Qed.
Definition pids (t : governance) : list str := p_id <$> proposals t.
Definition wids (t : governance) : list str := w_id <$> waiting t.
Lemma pid_inj t p p' : NoDup (pids t) → p ∈ proposals t → p' ∈ proposals t → p_id p = p_id p' → p = p'.
Proof.
  intros Hn Hp Hp' He. apply list_elem_of_lookup in Hp as [i Hi], Hp' as [j Hj]. assert (i = j) as ->; [|congruence].
  eapply NoDup_lookup; [exact Hn|..]; unfold pids; rewrite list_lookup_fmap; [by rewrite Hi|rewrite Hj; cbn; by rewrite He].
Qed.
Lemma pending_elem t m p : p ∈ pending_rows t m ↔ p ∈ proposals t ∧ p_managerId p = m ∧ p_status p = Pending.
Proof. unfold pending_rows. rewrite list_elem_of_filter. unfold is_pending_of_manager. rewrite andb_true_iff, bool_decide_eq_true, str_eqb_eq. tauto. Qed.
Lemma rows_elem t m sts p : p ∈ rows_of t m sts ↔ p ∈ proposals t ∧ p_managerId p = m ∧ p_status p ∈ sts.
Proof. unfold rows_of. rewrite list_elem_of_filter, andb_true_iff, bool_decide_eq_true, str_eqb_eq. tauto. Qed.
Lemma rows_pending t m : rows_of t m [Pending] = pending_rows t m.
Proof. unfold rows_of, pending_rows. apply list_filter_iff. intros p. unfold is_pending_of_manager. rewrite !andb_true_iff, !bool_decide_eq_true, list_elem_of_singleton. done. Qed.
Lemma listWaiting_perm t m : listWaitingOf t m ≡ₚ waitingOf t m.
Proof. apply sort_by_perm. Qed.
Lemma listWaiting_length t m : length (listWaitingOf t m) = countWaitingOf t m.
Proof. unfold countWaitingOf. by rewrite listWaiting_perm. Qed.

(** ** Filing *)
Definition new_proposal (id m : str) (pl : ProposalPayload) (inc : str) (c : Z) : Proposal := mkProposal id m pl Pending inc None c None.
Lemma insertProposal_inr id m pl inc c t t' u : insertProposal id m pl inc c t = inr (t', u) → findProposal t id = None ∧ t' = set_proposals (proposals t ++ [new_proposal id m pl inc c]) t.
Proof.
  unfold insertProposal. intros H. apply bind_inr in H as (t1&ok&[-> ->]%reads_inr&H). destruct (_ && _ && _) eqn:E; [|done]. apply writes_inr in H as ->. split; [|done].
  apply andb_true_iff in E as [[E _]%andb_true_iff _]. apply negb_true_iff, bool_decide_eq_false in E. by apply eq_None_not_Some.
Qed.
Lemma find_proposal_none t id : findProposal t id = None ↔ id ∉ pids t.
Proof.
  unfold findProposal. rewrite find_is_None. split.
  - intros H (p&->&Hp)%list_elem_of_fmap. specialize (H p Hp). cbn in H. by rewrite str_eqb_refl in H.
  - intros H p Hp. apply not_true_iff_false. intros He%str_eqb_eq. apply H. rewrite <- He. by apply list_elem_of_fmap_2.
Qed.
Lemma pending_insert t p m : p_status p = Pending → pending_rows (set_proposals (proposals t ++ [p]) t) m = pending_rows t m ++ (if str_eqb (p_managerId p) m then [p] else []).
Proof.
  intros Hp. unfold pending_rows. cbn. rewrite list.filter_app, filter_cons, filter_nil. f_equal. unfold is_pending_of_manager. rewrite Hp, (bool_decide_true (Pending = Pending)) by done. rewrite andb_true_r.
  destruct (str_eqb _ m); [by rewrite decide_True|by rewrite decide_False].
Qed.
Lemma rows_insert t p m sts : p_status p ∉ sts → rows_of (set_proposals (proposals t ++ [p]) t) m sts = rows_of t m sts.
Proof. intros Hp. unfold rows_of. cbn. rewrite list.filter_app, filter_cons, filter_nil, decide_False; [by rewrite app_nil_r|]. rewrite andb_true_iff, bool_decide_eq_true. tauto. Qed.
Definition new_waiting (id m : str) (pl : ProposalPayload) (inc : str) (c : Z) : WaitingProposal := mkWaiting id m pl inc c.
Lemma insertWaiting_inr id m pl inc c t t' u : insertWaiting id m pl inc c t = inr (t', u) → id ∉ wids t ∧ t' = set_waiting (waiting t ++ [new_waiting id m pl inc c]) t.
Proof.
  unfold insertWaiting. intros H. apply bind_inr in H as (t1&ok&[-> ->]%reads_inr&H). destruct (_ && _ && _) eqn:E; [|done]. apply writes_inr in H as ->. split; [|done].
  apply andb_true_iff in E as [[E _]%andb_true_iff _]. apply negb_true_iff in E. intros (w&->&Hw)%list_elem_of_fmap. apply not_true_iff_false in E. apply E, existsb_exists. exists w. split; [by apply list_elem_of_In|apply str_eqb_refl].
Qed.
Lemma waiting_insert t w m : waitingOf (set_waiting (waiting t ++ [w]) t) m = waitingOf t m ++ (if str_eqb (w_managerId w) m then [w] else []).
Proof. unfold waitingOf. cbn. rewrite list.filter_app, filter_cons, filter_nil. f_equal. destruct (str_eqb _ m); [by rewrite decide_True|by rewrite decide_False]. Qed.

(** ** Answering *)
Definition answer_rows (id : str) (st : ProposalStatus) (r : option str) (now : Z) (ps : list Proposal) : list Proposal := (λ p, if is_pending_id id p then answered st r now p else p) <$> ps.
Lemma answer_rows_ids id st r now ps : p_id <$> answer_rows id st r now ps = p_id <$> ps.
Proof. unfold answer_rows. rewrite <- list_fmap_compose. apply list_fmap_ext. intros i p _. cbn. by destruct (is_pending_id id p). Qed.
Lemma answer_inr call id st r t t' u : answer_proposal call id st r t = inr (t', u) →
  length (filter (λ p, is_pending_id id p = true) (proposals t)) = 1 ∧ t' = set_proposals (answer_rows id st r (gc_now call) (proposals t)) t.
Proof.
  unfold answer_proposal, answerIfPending. intros H. apply bind_inr in H as (t1&b&H1&H). apply bind_inr in H1 as (t2&n&[-> ->]%reads_inr&H1). apply bind_inr in H1 as (t3&u3&->%writes_inr&H1).
  apply ret_inr in H1 as [-> ->]. destruct (Nat.eqb _ 1) eqn:E.
  - apply ret_inr in H as [-> _]. by apply Nat.eqb_eq in E.
  - apply bind_inr in H as (t4&b&[-> ->]%reads_inr&H). by destruct (bool_decide _).
Qed.
Lemma answered_exists id ps : length (filter (λ p, is_pending_id id p = true) ps) = 1 → ∃ p, p ∈ ps ∧ p_id p = id ∧ p_status p = Pending.
Proof.
  intros H. destruct (filter _ ps) as [|p l] eqn:E; [done|]. assert (p ∈ p :: l) as Hp by apply list_elem_of_here. rewrite <- E in Hp. apply list_elem_of_filter in Hp as [Hc Hp].
  unfold is_pending_id in Hc. rewrite andb_true_iff, str_eqb_eq, bool_decide_eq_true in Hc. exists p. tauto.
Qed.
Lemma one_pending t p : NoDup (pids t) → p ∈ proposals t → p_status p = Pending → length (filter (λ q, is_pending_id (p_id p) q = true) (proposals t)) = 1.
Proof.
  intros Hn Hp Hs. rewrite (filter_one _ _ p); [done|by eapply NoDup_fmap_1|done|]. intros q Hq. unfold is_pending_id. rewrite andb_true_iff, str_eqb_eq, bool_decide_eq_true. split; [intros [Hi _]; by eapply pid_inj|by intros ->].
Qed.
Lemma answer_pending id st r now t m : st ≠ Pending → pending_rows (set_proposals (answer_rows id st r now (proposals t)) t) m = filter (λ p, p_id p ≠ id) (pending_rows t m).
Proof.
  intros Hst. unfold pending_rows. cbn. induction (proposals t) as [|p ps IH]; [done|]. cbn [answer_rows fmap list_fmap]. rewrite !filter_cons. fold (answer_rows id st r now ps). rewrite IH.
  unfold is_pending_id, is_pending_of_manager. destruct (str_eqb (p_id p) id) eqn:Ei; cbn [andb].
  - apply str_eqb_eq in Ei. destruct (bool_decide (p_status p = Pending)) eqn:Ep; cbn.
    + rewrite decide_False by (rewrite (bool_decide_false (st = Pending)) by done; by rewrite andb_false_r). rewrite andb_true_r. destruct (str_eqb _ m); [rewrite decide_True by done|by rewrite decide_False].
      rewrite filter_cons, decide_False; naive_solver.
    + rewrite andb_false_r. rewrite !decide_False by (by rewrite ?Ep, ?andb_false_r). done.
  - assert (p_id p ≠ id) as Hne by (intros He%str_eqb_eq; congruence). destruct (str_eqb _ m && _); [rewrite !decide_True by done|by rewrite !decide_False]. by rewrite filter_cons, decide_True.
Qed.
Lemma answer_rows_other id st r now t m sts : st ∉ sts → Pending ∉ sts → rows_of (set_proposals (answer_rows id st r now (proposals t)) t) m sts = rows_of t m sts.
Proof.
  intros Hst Hp. unfold rows_of. cbn. induction (proposals t) as [|p ps IH]; [done|]. cbn [answer_rows fmap list_fmap]. rewrite !filter_cons. fold (answer_rows id st r now ps). rewrite IH.
  unfold is_pending_id. destruct (str_eqb (p_id p) id); cbn [andb]; [|done]. destruct (bool_decide (p_status p = Pending)) eqn:E; [|done]. apply bool_decide_eq_true in E.
  rewrite !decide_False; [done|rewrite andb_true_iff, bool_decide_eq_true, E; tauto|cbn; rewrite andb_true_iff, bool_decide_eq_true; tauto].
Qed.
Lemma answer_rows_more id st r now t m sts :
  length (rows_of (set_proposals (answer_rows id st r now (proposals t)) t) m sts) ≤ length (rows_of t m sts) + length (filter (λ p, is_pending_id id p = true) (proposals t)).
Proof.
  unfold rows_of. cbn. induction (proposals t) as [|p ps IH]; [done|]. cbn [answer_rows fmap list_fmap]. rewrite !filter_cons. fold (answer_rows id st r now ps).
  destruct (is_pending_id id p) eqn:E; [rewrite (decide_True (P:=true = true)) by done|rewrite (decide_False (P:=false = true)) by done]; repeat case_decide; cbn; lia.
Qed.
Lemma answer_find id st r now t p : NoDup (pids t) → p ∈ proposals t → p_id p = id → p_status p = Pending →
  findProposal (set_proposals (answer_rows id st r now (proposals t)) t) id = Some (answered st r now p).
Proof.
  intros Hn Hp Hi Hs. unfold findProposal, pids in *. cbn. induction (proposals t) as [|q ps IH]; [by apply elem_of_nil in Hp|]. cbn in Hn. apply list.NoDup_cons in Hn as [Hq Hn].
  cbn [answer_rows fmap list_fmap find]. apply elem_of_cons in Hp as [->|Hp].
  - unfold is_pending_id. rewrite Hi, Hs, str_eqb_refl, bool_decide_true by done. cbn. by rewrite Hi, str_eqb_refl.
  - assert (str_eqb (p_id q) id = false) as Eq. { apply not_true_iff_false. intros Hqi%str_eqb_eq. apply Hq. rewrite Hqi, <- Hi. by apply list_elem_of_fmap_2. }
    unfold is_pending_id at 1 2. rewrite Eq. cbn [andb]. rewrite Eq. fold (answer_rows id st r now ps). auto.
Qed.

(** ** Evicting *)
Lemma delete_rows ids t m sts : rows_of (deleteProposals ids t) m sts = filter (λ p, mem_str (p_id p) ids = false) (rows_of t m sts).
Proof. unfold rows_of. cbn. apply filter_filter_comm. Qed.
Lemma delete_pending ids t m : pending_rows (deleteProposals ids t) m = filter (λ p, mem_str (p_id p) ids = false) (pending_rows t m).
Proof. unfold pending_rows. cbn. apply filter_filter_comm. Qed.
Definition victims (t : governance) (m : str) (sts : list ProposalStatus) (keep : nat) : list str := p_id <$> drop keep (newest_answer_first (rows_of t m sts)).
Lemma evict_inr m sts keep t t' n : evictOldestBeyond m sts keep t = inr (t', n) → t' = deleteProposals (victims t m sts keep) t.
Proof. unfold evictOldestBeyond. intros H. apply bind_inr in H as (t1&ids&[-> ->]%reads_inr&H). apply bind_inr in H as (t2&u&->%writes_inr&H). by apply ret_inr in H as [-> _]. Qed.
Lemma newest_perm l : newest_answer_first l ≡ₚ l.
Proof. unfold newest_answer_first. rewrite reverse_Permutation. apply sort_by_perm. Qed.
Lemma victim_row t m sts keep id : id ∈ victims t m sts keep → ∃ p, p ∈ rows_of t m sts ∧ p_id p = id.
Proof.
  intros (p&->&Hp)%list_elem_of_fmap. exists p. split; [|done]. rewrite <- (newest_perm (rows_of t m sts)), <- (take_drop keep (newest_answer_first _)). apply elem_of_app. by right.
Qed.
Lemma evict_pending t m sts keep m' : NoDup (pids t) → Pending ∉ sts → pending_rows (deleteProposals (victims t m sts keep) t) m' = pending_rows t m'.
Proof.
  intros Hn Hs. rewrite delete_pending. apply filter_true. intros p Hp. apply pending_elem in Hp as (Hp&_&Hst). apply not_true_iff_false. intros Hm%mem_str_In%list_elem_of_In.
  apply victim_row in Hm as (q&(Hq&_&Hqs)%rows_elem&Hi). assert (q = p) as -> by (by eapply pid_inj). rewrite Hst in Hqs. done.
Qed.
Lemma evict_bound t m sts keep : length (rows_of (deleteProposals (victims t m sts keep) t) m sts) ≤ keep.
Proof.
  rewrite delete_rows. rewrite <- (newest_perm (rows_of t m sts)) at 1. rewrite <- (take_drop keep (newest_answer_first _)) at 1. rewrite list.filter_app, length_app.
  rewrite (filter_false _ (drop _ _)); [|intros p Hp; apply not_false_iff_true, mem_str_In, list_elem_of_In; unfold victims; by apply list_elem_of_fmap_2].
  cbn [length]. rewrite Nat.add_0_r. etrans; [apply length_filter|]. rewrite length_take. lia.
Qed.
Lemma delete_le ids t m sts : length (rows_of (deleteProposals ids t) m sts) ≤ length (rows_of t m sts).
Proof. rewrite delete_rows. apply length_filter. Qed.
Lemma delete_pids ids t : pids (deleteProposals ids t) = filter (λ i, mem_str i ids = false) (pids t).
Proof. exact (fmap_filter p_id (λ i, mem_str i ids = false) (proposals t)). Qed.

(** ** Releasing *)
Definition released (w : WaitingProposal) : Proposal := new_proposal (w_id w) (w_managerId w) (w_payload w) (w_incident w) (w_createdAt w).
Lemma waiting_elem t m w : w ∈ listWaitingOf t m ↔ w ∈ waiting t ∧ w_managerId w = m.
Proof. rewrite listWaiting_perm. unfold waitingOf. rewrite list_elem_of_filter, str_eqb_eq. tauto. Qed.
Lemma wid_inj t w w' : NoDup (wids t) → w ∈ waiting t → w' ∈ waiting t → w_id w = w_id w' → w = w'.
Proof.
  intros Hn Hp Hp' He. apply list_elem_of_lookup in Hp as [i Hi], Hp' as [j Hj]. assert (i = j) as ->; [|congruence].
  eapply NoDup_lookup; [exact Hn|..]; unfold wids; rewrite list_lookup_fmap; [by rewrite Hi|rewrite Hj; cbn; by rewrite He].
Qed.
Definition without_id (id : str) (l : list WaitingProposal) : list WaitingProposal := filter (λ w, str_eqb (w_id w) id = false) l.
Lemma list_without_id id t m : listWaitingOf (set_waiting (without_id id (waiting t)) t) m = without_id id (listWaitingOf t m).
Proof.
  unfold listWaitingOf, waitingOf, without_id. cbn. rewrite filter_filter_comm. assert (∀ l : list WaitingProposal, filter (λ w, str_eqb (w_id w) id = false) l = filter (λ w, negb (str_eqb (w_id w) id) = true) l) as Hb.
  { intros l. apply list_filter_iff. intros w. by rewrite negb_true_iff. }
  rewrite !Hb. apply (sort_by_filter w_createdAt (λ w, negb (str_eqb (w_id w) id))).
Qed.
Lemma wids_without id t : w_id <$> without_id id (waiting t) = filter (λ i, str_eqb i id = false) (wids t).
Proof. exact (fmap_filter w_id (λ i, str_eqb i id = false) (waiting t)). Qed.
Lemma filter_out_one id l : NoDup l → id ∈ l → id :: filter (λ i, str_eqb i id = false) l ≡ₚ l.
Proof.
  induction l as [|x l IH]; intros Hn Hin; [by apply elem_of_nil in Hin|]. apply list.NoDup_cons in Hn as [Hx Hn]. rewrite filter_cons. destruct (str_eqb x id) eqn:E.
  - apply str_eqb_eq in E as ->. rewrite decide_False by done. rewrite filter_true; [done|]. intros y Hy. apply not_true_iff_false. intros He%str_eqb_eq. congruence.
  - rewrite decide_True by done. apply elem_of_cons in Hin as [->|Hin]; [by rewrite str_eqb_refl in E|]. by rewrite Permutation_swap, IH.
Qed.
(** The rows of the manager that go from the waiting list to the pending rows, oldest first. *)
Record moved_in (m : str) (t t' : governance) (l : list WaitingProposal) : Prop := mkMoved
  { mv_list : listWaitingOf t m = l ++ listWaitingOf t' m;
    mv_pending : pending_rows t' m = pending_rows t m ++ (released <$> l);
    mv_other : ∀ m', m' ≠ m → pending_rows t' m' = pending_rows t m' ∧ listWaitingOf t' m' = listWaitingOf t m';
    mv_rows : ∀ m' sts, Pending ∉ sts → rows_of t' m' sts = rows_of t m' sts;
    mv_rest : grants t' = grants t ∧ laws t' = laws t ∧ managers t' = managers t;
    mv_ids : pids t' ++ wids t' ≡ₚ pids t ++ wids t;
    mv_pids : NoDup (pids t) → NoDup (pids t');
    mv_wids : NoDup (wids t) → NoDup (wids t');
    mv_old : ∀ p, p ∈ proposals t → p ∈ proposals t' }.
Lemma moved_none m t : moved_in m t t [].
Proof. split; try done. by rewrite app_nil_r. Qed.
Lemma moved_trans m t1 t2 t3 l1 l2 : moved_in m t1 t2 l1 → moved_in m t2 t3 l2 → moved_in m t1 t3 (l1 ++ l2).
Proof.
  intros [A1 A2 A3 A4 A5 A6 A7 A8 A9] [B1 B2 B3 B4 B5 B6 B7 B8 B9]. split; auto.
  - by rewrite A1, B1, app_assoc.
  - by rewrite B2, A2, fmap_app, app_assoc.
  - intros m' Hm. destruct (A3 m' Hm), (B3 m' Hm). split; congruence.
  - intros m' sts Hs. rewrite B4 by done. by apply A4.
  - destruct A5 as (?&?&?), B5 as (?&?&?). split_and!; congruence.
  - by rewrite B6, A6.
Qed.
Lemma releaseOldest_inr m t t' o : NoDup (wids t) → releaseOldest m t = inr (t', o) →
  (o = None ∧ t' = t ∧ listWaitingOf t m = []) ∨ ∃ w, o = Some (w_id w) ∧ moved_in m t t' [w].
Proof.
  intros Hw H. unfold releaseOldest in H. apply bind_inr in H as (t1&oldest&[-> ->]%reads_inr&H). destruct (listWaitingOf t m) as [|w rest] eqn:El; cbn [list.head] in H.
  { left. by apply ret_inr in H as [-> ->]. }
  apply bind_inr in H as (t2&u&[Hnew ->]%insertProposal_inr&H). apply bind_inr in H as (t3&u3&->%writes_inr&H). apply ret_inr in H as [-> ->]. right. exists w. split; [done|].
  assert (w ∈ waiting t ∧ w_managerId w = m) as [Hin Hm]. { apply waiting_elem. rewrite El. apply list_elem_of_here. }
  fold (released w). fold (without_id (w_id w) (waiting t)) in *. apply find_proposal_none in Hnew.
  set (t1 := set_proposals (proposals t ++ [released w]) t). change (moved_in m t (set_waiting (without_id (w_id w) (waiting t)) t1) [w]).
  assert (∀ m', listWaitingOf (set_waiting (without_id (w_id w) (waiting t)) t1) m' = without_id (w_id w) (listWaitingOf t m')) as Hlist by (intros m'; apply (list_without_id (w_id w) t1 m')).
  assert (∀ m', pending_rows (set_waiting (without_id (w_id w) (waiting t)) t1) m' = pending_rows t m' ++ if str_eqb m m' then [released w] else []) as Hpend.
  { intros m'. change (pending_rows (set_waiting (without_id (w_id w) (waiting t)) t1) m') with (pending_rows t1 m'). unfold t1. rewrite pending_insert by done. cbn. by rewrite Hm. }
  assert (pids (set_waiting (without_id (w_id w) (waiting t)) t1) = pids t ++ [w_id w]) as Hpids by apply (fmap_app p_id (proposals t) [released w]).
  assert (wids (set_waiting (without_id (w_id w) (waiting t)) t1) = filter (λ i, str_eqb i (w_id w) = false) (wids t)) as Hwids by apply (wids_without (w_id w) t).
  split.
  - rewrite Hlist, El. cbn [app]. f_equal. unfold without_id. rewrite filter_cons, decide_False by (by rewrite str_eqb_refl). symmetry. apply filter_true. intros w' Hw'. apply not_true_iff_false. intros He%str_eqb_eq.
    assert (w' ∈ waiting t). { apply (waiting_elem t m). rewrite El. by right. } assert (w' = w) as -> by (by eapply wid_inj).
    assert (NoDup (listWaitingOf t m)) as Hnd. { rewrite listWaiting_perm. apply list.NoDup_filter. by eapply NoDup_fmap_1. } rewrite El in Hnd. by apply list.NoDup_cons in Hnd as [].
  - rewrite Hpend. by rewrite str_eqb_refl.
  - intros m' Hm'. rewrite Hpend, Hlist. destruct (str_eqb m m') eqn:E; [by apply str_eqb_eq in E|]. rewrite app_nil_r. split; [done|]. apply filter_true. intros w' Hw'. apply not_true_iff_false. intros He%str_eqb_eq.
    apply waiting_elem in Hw' as [? ?]. assert (w' = w) as -> by (by eapply wid_inj). congruence.
  - intros m' sts Hs. change (rows_of t1 m' sts = rows_of t m' sts). by apply rows_insert.
  - done.
  - rewrite Hpids, Hwids, <- app_assoc. apply Permutation_app_head. apply filter_out_one; [done|]. by apply list_elem_of_fmap_2.
  - intros Hn. rewrite Hpids. apply list.NoDup_app. split_and!; [done| |apply NoDup_singleton]. by intros i Hi ->%list_elem_of_singleton.
  - intros _. rewrite Hwids. by apply list.NoDup_filter.
  - intros p Hp. cbn. apply elem_of_app. by left.
Qed.
Lemma release_loop_inr fuel m acc t t' ids : NoDup (wids t) → release_loop fuel m acc t = inr (t', ids) → ∃ l, ids = acc ++ (w_id <$> l) ∧ moved_in m t t' l
  ∧ countPending t' m ≤ Nat.max (countPending t m) MAX_PENDING_PROPOSALS_PER_MANAGER ∧ (countWaitingOf t m < fuel → MAX_PENDING_PROPOSALS_PER_MANAGER ≤ countPending t' m ∨ listWaitingOf t' m = []).
Proof.
  revert acc t. induction fuel as [|fuel IH]; intros acc t Hw H; cbn [release_loop] in H.
  { apply ret_inr in H as [-> ->]. exists []. split_and!; [by rewrite app_nil_r|apply moved_none|lia|lia]. }
  apply bind_inr in H as (t1&free&[-> ->]%reads_inr&H). destruct (Nat.ltb_spec (countPending t m) MAX_PENDING_PROPOSALS_PER_MANAGER) as [Hlt|Hge]; cbn [negb] in H.
  2:{ apply ret_inr in H as [-> ->]. exists []. split_and!; [by rewrite app_nil_r|apply moved_none|lia|by left]. }
  apply bind_inr in H as (t1&o&Ho&H). apply releaseOldest_inr in Ho as [(->&->&Hl)|(w&->&Hmv)]; [|..|done].
  { apply ret_inr in H as [-> ->]. exists []. split_and!; [by rewrite app_nil_r|apply moved_none|lia|by right]. }
  destruct (IH _ _ (mv_wids _ _ _ _ Hmv Hw) H) as (l&->&Hl&Hc&Hend). exists (w :: l). split_and!.
  - by rewrite <- app_assoc.
  - by apply (moved_trans _ _ _ _ [w] l Hmv).
  - unfold countPending in *. rewrite (mv_pending _ _ _ _ Hmv) in Hc. rewrite length_app in Hc. cbn in Hc. lia.
  - intros Hf. apply Hend. pose proof (mv_list _ _ _ _ Hmv) as Hlist. rewrite <- !listWaiting_length in *. rewrite Hlist in Hf. cbn in Hf. lia.
Qed.
Lemma release_inr m t t' r : NoDup (wids t) → releaseWaitingIntoFreePlaces m t = inr (t', r) → ∃ l, moved_in m t t' l
  ∧ countPending t' m ≤ Nat.max (countPending t m) MAX_PENDING_PROPOSALS_PER_MANAGER ∧ (MAX_PENDING_PROPOSALS_PER_MANAGER ≤ countPending t' m ∨ listWaitingOf t' m = []).
Proof.
  intros Hw H. unfold releaseWaitingIntoFreePlaces in H. apply bind_inr in H as (t1&fuel&[-> ->]%reads_inr&H). apply bind_inr in H as (t1&ids&Hl&H). apply reads_inr in H as [-> _].
  apply release_loop_inr in Hl as (l&_&Hm&Hc&He); [|done]. exists l. split_and!; [done|done|]. apply He. unfold countWaitingOf, waitingOf. pose proof (length_filter (λ w, str_eqb (w_managerId w) m = true) (waiting t)). lia.
Qed.

(** ** What every statement keeps *)
(** A relation between tables that the statements on the proposals keep, whatever their arguments: the operations that are made of them keep it too. *)
Class KeepsStatements (R : relation governance) : Prop := {
  ks_insertProposal id m pl inc c : preserves R (insertProposal id m pl inc c);
  ks_insertWaiting id m pl inc c : preserves R (insertWaiting id m pl inc c);
  ks_without id : preserves R (writes (λ t, set_waiting (filter (λ w, str_eqb (w_id w) id = false) (waiting t)) t) : Gx unit);
  ks_deleteWaiting m id : preserves R (deleteWaitingOf m id);
  ks_answer id st r now : preserves R (answerIfPending id st r now);
  ks_evict m sts keep : preserves R (evictOldestBeyond m sts keep);
  ks_addEvicted m n : preserves R (addEvictedDenials m n) }.
(** The same for the statements on laws and grants. *)
Class KeepsWrites (R : relation governance) : Prop := {
  kw_insertLaw l : preserves R (insertLaw l);
  kw_upsert g : preserves R (upsertGrant g);
  kw_replace id rev text by_ now : preserves R (replaceTextIfRevision id rev text by_ now);
  kw_withdraw id rev by_ now : preserves R (withdrawIfRevision id rev by_ now);
  kw_reimport id text by_ now : preserves R (replaceTextFromImport id text by_ now) }.
Section Keeps.
Context (R : relation governance) `{!PreOrder R, !KeepsStatements R}.
#[local] Hint Resolve ks_insertProposal ks_insertWaiting ks_without ks_deleteWaiting ks_answer ks_evict ks_addEvicted : tx.
Lemma keeps_release m : preserves R (releaseOldest m).
Proof. unfold releaseOldest. tx_preserves. Qed.
#[local] Hint Resolve keeps_release : tx.
Lemma keeps_loop fuel m acc : preserves R (release_loop fuel m acc).
Proof. revert acc. induction fuel as [|fuel IH]; intros acc; cbn [release_loop]; tx_preserves. Qed.
#[local] Hint Resolve keeps_loop : tx.
Lemma keeps_releases m : preserves R (releaseWaitingIntoFreePlaces m).
Proof. unfold releaseWaitingIntoFreePlaces. tx_preserves. Qed.
Lemma keeps_answer call id st r : preserves R (answer_proposal call id st r).
Proof. unfold answer_proposal. tx_preserves. Qed.
Lemma keeps_audit m : preserves R (evictOldestAudit m).
Proof. unfold evictOldestAudit. tx_preserves. Qed.
Lemma keeps_denials m : preserves R (evictOldestDenials m).
Proof. unfold evictOldestDenials. tx_preserves. Qed.
Lemma keeps_enqueue call m inc pl : preserves R (enqueueUnlessDuplicate call m inc pl).
Proof. unfold enqueueUnlessDuplicate. tx_preserves. Qed.
Lemma keeps_manager m : preserves R (requireManager m).
Proof. unfold requireManager. tx_preserves. Qed.
Lemma keeps_valid {A} (o : option A) : preserves R (valid o).
Proof. unfold valid. tx_preserves. Qed.
Lemma keeps_project call m pl : preserves R (requireResourceOfManagerProject call m pl).
Proof. unfold requireResourceOfManagerProject. tx_preserves. Qed.
#[local] Hint Resolve keeps_releases keeps_answer keeps_audit keeps_denials keeps_enqueue keeps_manager keeps_valid keeps_project : tx.
Lemma keeps_filings isFormat maskedSecrets call m : (∀ text inc, preserves R (proposeLaw isFormat maskedSecrets call m text inc)) ∧ (∀ a s c e inc, preserves R (proposePermission isFormat maskedSecrets call m a s c e inc))
  ∧ (∀ ty id a r inc, preserves R (requestResourceAccess isFormat maskedSecrets call m ty id a r inc)).
Proof. split_and!; intros; [unfold proposeLaw|unfold proposePermission|unfold requestResourceAccess]; tx_preserves. Qed.
Lemma keeps_withdraw call m id : preserves R (withdraw call m id).
Proof. unfold withdraw. tx_preserves. Qed.
(** A relation that the statements keep and a new manager keeps is kept by every event. *)
Lemma keeps_step `{!KeepsWrites R} isFormat maskedSecrets t e : (∀ m, R t (set_managers (put (managers t) m 0) t)) → R t (gov_step isFormat maskedSecrets t e).
Proof.
  intros Hnew. destruct e; cbn [gov_step]; [|apply preserves_after; [done|]..].
  - destruct (has_own _ _); [reflexivity|done].
  - destruct (keeps_filings isFormat maskedSecrets call managerId) as (V&_&_). apply V.
  - destruct (keeps_filings isFormat maskedSecrets call managerId) as (_&V&_). apply V.
  - destruct (keeps_filings isFormat maskedSecrets call managerId) as (_&_&V). apply V.
  - apply keeps_withdraw.
  - unfold decide_proposal, recordGrantOfApproved, recordLawOfApproved, insertOfApprovedProposal. pose proof kw_insertLaw. pose proof kw_upsert. tx_preserves.
  - unfold editLaw, changeLaw. pose proof kw_replace. tx_preserves.
  - unfold withdrawLaw, changeLaw. pose proof kw_withdraw. tx_preserves.
  - apply kw_insertLaw.
  - apply kw_reimport.
Qed.
End Keeps.
