(* ===== verification/GovernanceQueue.v ===== *)
(** * The pending places and the waiting list

    What each event of [Governance] does to the proposals, the bounds every history keeps, and the two tables as one queue. *)
From S2P Require Import Prelude Transaction JsText Regex PolicyTypes CommandPredicates PolicyEvaluator Sorting Escalation EscalationFacts Governance GovernanceFacts.

(** The proposals and the waiting list are the same. *)
Definition framed (t t' : governance) : Prop := proposals t' = proposals t ∧ waiting t' = waiting t.
(** An answer, the history it is kept in and how many of them are kept. *)
Definition answer_kinds : list (ProposalStatus * (list ProposalStatus * nat)) :=
  [(Approved, ([Approved; Withdrawn], MAX_AUDIT_HISTORY_PER_MANAGER)); (Withdrawn, ([Approved; Withdrawn], MAX_AUDIT_HISTORY_PER_MANAGER)); (Denied, ([Denied], MAX_DENIED_HISTORY_PER_MANAGER))].
(** Who may answer. *)
Definition answers (e : GovEvent) (p : Proposal) (st : ProposalStatus) : Prop :=
  (∃ call isApproval reason, e = HumanDecided call (p_id p) isApproval reason ∧ st = if isApproval then Approved else Denied) ∨ (∃ call, e = ProposalTakenBack call (p_managerId p) (p_id p) ∧ st = Withdrawn).
(** The clock and the id a filing reads. *)
Definition filing_of (e : GovEvent) : option (GovCall * str) :=
  match e with LawProposed call m _ _ | PermissionProposed call m _ _ _ _ _ | AccessRequested call m _ _ _ _ _ => Some (call, m) | _ => None end.
Inductive gov_effect (e : GovEvent) (t t' : governance) : Prop :=
  | eff_none : framed t t' → gov_effect e t t'
  | eff_filed call m pl inc : filing_of e = Some (call, m) → gc_newId call ∉ pids t → listWaitingOf t m = [] → countPending t m < MAX_PENDING_PROPOSALS_PER_MANAGER → pl ∉ p_payload <$> pending_rows t m →
      t' = set_proposals (proposals t ++ [new_proposal (gc_newId call) m pl inc (gc_now call)]) t → gov_effect e t t'
  | eff_parked call m pl inc : filing_of e = Some (call, m) → gc_newId call ∉ wids t → (listWaitingOf t m ≠ [] ∨ MAX_PENDING_PROPOSALS_PER_MANAGER ≤ countPending t m) → countWaitingOf t m < MAX_QUEUED_PROPOSALS_PER_MANAGER →
      pl ∉ (p_payload <$> pending_rows t m) ++ (w_payload <$> listWaitingOf t m) → t' = set_waiting (waiting t ++ [new_waiting (gc_newId call) m pl inc (gc_now call)]) t → gov_effect e t t'
  | eff_dropped call w : e = ProposalTakenBack call (w_managerId w) (w_id w) → w ∈ waiting t → t' = set_waiting (without_id (w_id w) (waiting t)) t → gov_effect e t t'
  | eff_answered p st sts keep r now t1 t2 l : p ∈ proposals t → p_status p = Pending → answers e p st → (st, (sts, keep)) ∈ answer_kinds → length (filter (λ q, is_pending_id (p_id p) q = true) (proposals t)) = 1 →
      framed (set_proposals (answer_rows (p_id p) st r now (proposals t)) t) t1 → framed (deleteProposals (victims t1 (p_managerId p) sts keep) t1) t2 → moved_in (p_managerId p) t2 t' l →
      countPending t' (p_managerId p) ≤ Nat.max (countPending t2 (p_managerId p)) MAX_PENDING_PROPOSALS_PER_MANAGER → (MAX_PENDING_PROPOSALS_PER_MANAGER ≤ countPending t' (p_managerId p) ∨ listWaitingOf t' (p_managerId p) = []) →
      gov_effect e t t'.

(** ** The effect of each operation *)
#[export] Instance framed_preorder : PreOrder framed.
Proof. split; [done|]. intros t1 t2 t3 [H1 H2] [H3 H4]. split; congruence. Qed.
Abbreviation keeps_queue := (preserves framed).
Lemma kq_insertLaw l : keeps_queue (insertLaw l).
Proof. unfold insertLaw. tx_preserves. Qed.
Lemma kq_update_laws c f : keeps_queue (update_laws c f).
Proof. unfold update_laws. tx_preserves. Qed.
Lemma kq_upsert g : keeps_queue (upsertGrant g).
Proof. unfold upsertGrant. tx_preserves. apply preserves_writes. intros u. by destruct (existsb _ _). Qed.
Lemma kq_addEvicted m n : keeps_queue (addEvictedDenials m n).
Proof. apply preserves_writes. intros t. by destruct (has_own _ _). Qed.
#[local] Hint Resolve kq_insertLaw kq_update_laws kq_upsert kq_addEvicted : tx.
Lemma kq_requireManager m : keeps_queue (requireManager m).
Proof. unfold requireManager. tx_preserves. Qed.
Lemma kq_valid {A} (o : option A) : keeps_queue (valid o).
Proof. unfold valid. tx_preserves. Qed.
Lemma kq_project call m pl : keeps_queue (requireResourceOfManagerProject call m pl).
Proof. unfold requireResourceOfManagerProject. tx_preserves. Qed.
#[local] Hint Resolve kq_requireManager kq_valid kq_project : tx.
Lemma kq_grant call p : keeps_queue (recordGrantOfApproved call p).
Proof. unfold recordGrantOfApproved. tx_preserves. Qed.
Lemma kq_law call p : keeps_queue (recordLawOfApproved call p).
Proof. unfold recordLawOfApproved, insertOfApprovedProposal. tx_preserves. Qed.
Lemma kq_edit isFormat maskedSecrets call id text rev : keeps_queue (editLaw isFormat maskedSecrets call id text rev).
Proof. unfold editLaw, changeLaw, replaceTextIfRevision. tx_preserves. Qed.
Lemma kq_withdrawLaw call id rev : keeps_queue (withdrawLaw call id rev).
Proof. unfold withdrawLaw, changeLaw, withdrawIfRevision. tx_preserves. Qed.
(** A check that passes leaves the tables as they are. *)
Lemma manager_inr m t t' u : requireManager m t = inr (t', u) → t' = t.
Proof. unfold requireManager. intros H. apply bind_inr in H as (t1&b&[-> ->]%reads_inr&H). destruct (has_own _ _); [by apply ret_inr in H as [-> _]|done]. Qed.
Lemma valid_inr {A} (o : option A) t t' a : valid o t = inr (t', a) → t' = t ∧ o = Some a.
Proof. unfold valid. destruct o; [|done]. by intros [-> ->]%ret_inr. Qed.
Lemma project_inr call m pl t t' u : requireResourceOfManagerProject call m pl t = inr (t', u) → t' = t.
Proof. unfold requireResourceOfManagerProject. destruct pl; try (by intros [-> _]%ret_inr). destruct (isInManagerProject _ _ _ _); [by intros [-> _]%ret_inr|done]. Qed.

(** Splits the branch a call has come to. *)
Ltac split_in H := match type of H with (match ?x with _ => _ end) _ = _ => destruct x end.
Lemma twin_none t m pl : findPendingTwin t m pl = None → pl ∉ p_payload <$> pending_rows t m.
Proof.
  intros H (p&->&Hp)%list_elem_of_fmap. unfold findPendingTwin in H. rewrite find_is_None in H. apply list_elem_of_filter in Hp as [Hc Hp]. specialize (H p Hp). cbn in H. by rewrite Hc, bool_decide_true in H.
Qed.
Lemma waiting_twin_none t m pl : findWaitingTwin t m pl = None → pl ∉ w_payload <$> listWaitingOf t m.
Proof.
  intros H (w&->&Hw)%list_elem_of_fmap. rewrite listWaiting_perm in Hw. unfold findWaitingTwin in H. rewrite find_is_None in H. specialize (H w Hw). cbn in H. by rewrite bool_decide_true in H.
Qed.
Lemma enqueue_effect e call m inc pl t t' r : filing_of e = Some (call, m) → enqueueUnlessDuplicate call m inc pl t = inr (t', r) → gov_effect e t t'.
Proof.
  intros He H. unfold enqueueUnlessDuplicate in H. apply bind_inr in H as (t1&n&[-> ->]%reads_inr&H). apply bind_inr in H as (t1&tw&[-> ->]%reads_inr&H).
  destruct (findPendingTwin t m pl) as [tw|] eqn:E1; [apply ret_inr in H as [-> _]; by apply eff_none|]. apply bind_inr in H as (t1&tw&[-> ->]%reads_inr&H).
  destruct (findWaitingTwin t m pl) as [tw|] eqn:E2; cbn [fmap option_fmap option_map] in H; [apply ret_inr in H as [-> _]; by apply eff_none|]. apply twin_none in E1. apply waiting_twin_none in E2.
  apply bind_inr in H as (t1&free&[-> ->]%reads_inr&H). destruct (Nat.ltb (countPending t m) MAX_PENDING_PROPOSALS_PER_MANAGER && negb (Nat.ltb 0 (countWaitingOf t m))) eqn:E.
  - apply andb_true_iff in E as [Ef%Nat.ltb_lt Eq%negb_true_iff%Nat.ltb_ge]. apply bind_inr in H as (t1&u&[Hi ->]%insertProposal_inr&H). apply bind_inr in H as (t2&o&[-> ->]%reads_inr&H).
    split_in H; [|done]. apply ret_inr in H as [-> _]. apply (eff_filed _ _ _ call m pl inc); try done; [by apply find_proposal_none|]. rewrite <- listWaiting_length in Eq. apply length_zero_iff_nil. lia.
  - destruct (Nat.leb MAX_QUEUED_PROPOSALS_PER_MANAGER (countWaitingOf t m)) eqn:El; [done|]. apply Nat.leb_gt in El. apply bind_inr in H as (t1&u&[Hi ->]%insertWaiting_inr&H). apply bind_inr in H as (t2&o&[-> ->]%reads_inr&H).
    split_in H; [|done]. split_in H. apply ret_inr in H as [-> _]. apply (eff_parked _ _ _ call m pl inc); try done; [|by rewrite elem_of_app; intros [?|?]].
    apply andb_false_iff in E as [E%Nat.ltb_ge|E%negb_false_iff%Nat.ltb_lt]; [by right|left]. rewrite <- listWaiting_length in E. destruct (listWaitingOf t m); [cbn in E; lia|done].
Qed.
Lemma audit_inr m t t' u : evictOldestAudit m t = inr (t', u) → t' = deleteProposals (victims t m [Approved; Withdrawn] MAX_AUDIT_HISTORY_PER_MANAGER) t.
Proof. unfold evictOldestAudit. intros H. apply bind_inr in H as (t1&n&->%evict_inr&H). by apply ret_inr in H as [-> _]. Qed.
Lemma denials_inr m t t' u : evictOldestDenials m t = inr (t', u) → framed (deleteProposals (victims t m [Denied] MAX_DENIED_HISTORY_PER_MANAGER) t) t'.
Proof. unfold evictOldestDenials. intros H. apply bind_inr in H as (t1&n&->%evict_inr&H). destruct (Nat.ltb 0 n); [by eapply kq_addEvicted|by apply ret_inr in H as [-> _]]. Qed.
Lemma framed_wids t t' : framed t t' → wids t' = wids t.
Proof. intros [_ H]. unfold wids. by rewrite H. Qed.
Lemma own_waiting_cases m id t : NoDup (wids t) → length (filter (λ w, is_own_waiting m id w = true) (waiting t)) = 0 ∧ filter (λ w, is_own_waiting m id w = false) (waiting t) = waiting t
  ∨ ∃ w, w ∈ waiting t ∧ w_id w = id ∧ w_managerId w = m ∧ length (filter (λ w, is_own_waiting m id w = true) (waiting t)) = 1 ∧ filter (λ w, is_own_waiting m id w = false) (waiting t) = without_id id (waiting t).
Proof.
  intros Hn. destruct (filter (λ w, is_own_waiting m id w = true) (waiting t)) as [|w l] eqn:E.
  - left. split; [done|]. apply filter_true. intros w Hw. apply not_true_iff_false. intros Hc. assert (w ∈ filter (λ w, is_own_waiting m id w = true) (waiting t)) as Hin by (by apply list_elem_of_filter). rewrite E in Hin. by apply elem_of_nil in Hin.
  - right. assert (w ∈ w :: l) as Hw by apply list_elem_of_here. rewrite <- E in Hw. apply list_elem_of_filter in Hw as [[Hi Hm]%andb_true_iff Hw]. apply str_eqb_eq in Hi, Hm. assert (l = []) as ->.
    { destruct l as [|w2 l]; [done|]. exfalso. assert (NoDup (w :: w2 :: l)) as Hnd by (rewrite <- E; apply list.NoDup_filter; by eapply NoDup_fmap_1). apply list.NoDup_cons in Hnd as [Hnd _]. apply Hnd.
      assert (w2 ∈ w :: w2 :: l) as Hw2 by (right; apply list_elem_of_here). rewrite <- E in Hw2. apply list_elem_of_filter in Hw2 as [[Hi2%str_eqb_eq _]%andb_true_iff Hw2].
      rewrite (wid_inj t w2 w) by (done || congruence). apply list_elem_of_here. }
    exists w. split_and!; try done. apply filter_ext_elem. intros w' Hw'. unfold is_own_waiting. rewrite andb_false_iff. split; [intros [?|Hne]|by left]; [done|]. apply not_true_iff_false. intros He%str_eqb_eq.
    assert (w' = w) as -> by (eapply wid_inj; [exact Hn|done|done|congruence]). rewrite Hm, str_eqb_refl in Hne. done.
Qed.
Lemma set_waiting_same t : set_waiting (waiting t) t = t.
Proof. by destruct t. Qed.
Lemma withdraw_effect call m id t t' r : NoDup (pids t) → NoDup (wids t) → withdraw call m id t = inr (t', r) → gov_effect (ProposalTakenBack call m id) t t'.
Proof.
  intros Hn Hw H. unfold withdraw in H. apply bind_inr in H as (t1&u&->%manager_inr&H). apply bind_inr in H as (t1&b&H1&H). unfold deleteWaitingOf in H1.
  apply bind_inr in H1 as (t2&n&[-> ->]%reads_inr&H1). apply bind_inr in H1 as (t2&u2&->%writes_inr&H1). apply ret_inr in H1 as [-> ->].
  destruct (own_waiting_cases m id t Hw) as [[Hlen Hf]|(w&Hin&<-&<-&Hlen&Hf)]; rewrite Hlen, Hf in H; cbn [Nat.eqb] in H.
  2:{ apply bind_inr in H as (t3&n&[-> _]%reads_inr&H). apply ret_inr in H as [-> _]. by eapply eff_dropped. }
  rewrite set_waiting_same in H. apply bind_inr in H as (t3&o&[-> ->]%reads_inr&H). destruct (negb _) eqn:E; [done|]. apply negb_false_iff, bool_decide_eq_true in E.
  apply bind_inr in H as (t1&u1&[Hone ->]%answer_inr&H). apply bind_inr in H as (t2&u3&->%audit_inr&H). apply bind_inr in H as (t3&o&[-> _]%reads_inr&H). apply bind_inr in H as (t3&rel&Hr&H). apply ret_inr in H as [-> _].
  destruct (findProposal t id) as [p|] eqn:Ef; [|done]. apply find_elem in Ef as [Hp Hi%str_eqb_eq]. cbn in E. injection E as <-. cbn in Hi. subst id.
  apply release_inr in Hr as (l&Hm&Hc&He); [|done]. destruct (answered_exists _ _ Hone) as (q&Hq&Hqi&Hqs).
  assert (q = p) as -> by (by eapply pid_inj). eapply (eff_answered _ _ _ p Withdrawn [Approved; Withdrawn] MAX_AUDIT_HISTORY_PER_MANAGER None (gc_now call) _ _ l Hp Hqs); [right; by eexists|set_solver|exact Hone|reflexivity|reflexivity|exact Hm|exact Hc|exact He].
Qed.
(** ** The bounds of a manager *)
Definition payloads (t : governance) (m : str) : list ProposalPayload := (p_payload <$> pending_rows t m) ++ (w_payload <$> listWaitingOf t m).
(** What a manager has at most; a proposal waits only when every place is taken, and no two open proposals ask for the same. *)
Record in_bounds (t : governance) (m : str) : Prop := mkInBounds
  { ib_pending : countPending t m ≤ MAX_PENDING_PROPOSALS_PER_MANAGER;
    ib_waiting : countWaitingOf t m ≤ MAX_QUEUED_PROPOSALS_PER_MANAGER;
    ib_full : listWaitingOf t m = [] ∨ countPending t m = MAX_PENDING_PROPOSALS_PER_MANAGER;
    ib_twins : NoDup (payloads t m);
    ib_denied : length (deniedOf t m) ≤ MAX_DENIED_HISTORY_PER_MANAGER;
    ib_audit : length (auditHistoryOf t m) ≤ MAX_AUDIT_HISTORY_PER_MANAGER }.
Record disciplined (t : governance) : Prop := mkDisciplined { di_pids : NoDup (pids t); di_wids : NoDup (wids t); di_bounds : ∀ m, in_bounds t m }.
Lemma denied_length t m : length (deniedOf t m) = length (rows_of t m [Denied]).
Proof. unfold deniedOf. by rewrite newest_perm. Qed.
Lemma audit_length t m : length (auditHistoryOf t m) = length (rows_of t m [Approved; Withdrawn]).
Proof. unfold auditHistoryOf. by rewrite newest_perm. Qed.
(** The open proposals of a manager and the sizes of its histories are enough to know that it keeps its bounds. *)
Lemma in_bounds_same t t' m : in_bounds t m → pending_rows t' m = pending_rows t m → listWaitingOf t' m = listWaitingOf t m →
  length (rows_of t' m [Denied]) ≤ length (rows_of t m [Denied]) → length (rows_of t' m [Approved; Withdrawn]) ≤ length (rows_of t m [Approved; Withdrawn]) → in_bounds t' m.
Proof.
  intros [A B C D E F] Hp Hl Hd Ha. rewrite <- listWaiting_length in B. rewrite denied_length in E. rewrite audit_length in F.
  split; unfold countPending, payloads in *; rewrite <- ?listWaiting_length, ?denied_length, ?audit_length, ?Hp, ?Hl; try done; lia.
Qed.
Lemma framed_views t t' m : framed t t' → pending_rows t' m = pending_rows t m ∧ listWaitingOf t' m = listWaitingOf t m ∧ (∀ sts, rows_of t' m sts = rows_of t m sts).
Proof. intros [Hp Hw]. unfold pending_rows, listWaitingOf, waitingOf, rows_of. by rewrite Hp, Hw. Qed.
Lemma framed_pids t t' : framed t t' → pids t' = pids t.
Proof. intros [H _]. unfold pids. by rewrite H. Qed.
Lemma framed_disciplined t t' : framed t t' → disciplined t → disciplined t'.
Proof.
  intros Hf [A B C]. split; [by rewrite (framed_pids _ _ Hf)|by rewrite (framed_wids _ _ Hf)|]. intros m. destruct (framed_views _ _ m Hf) as (Hp&Hl&Hr). by apply (in_bounds_same t); [|..|rewrite Hr|rewrite Hr].
Qed.
Lemma filed_disciplined t id m pl inc c : disciplined t → id ∉ pids t → listWaitingOf t m = [] → countPending t m < MAX_PENDING_PROPOSALS_PER_MANAGER → pl ∉ p_payload <$> pending_rows t m →
  disciplined (set_proposals (proposals t ++ [new_proposal id m pl inc c]) t).
Proof.
  intros [A B C] Hid Hl Hc Hpl. split; [|done|].
  - unfold pids. cbn. rewrite fmap_app. apply list.NoDup_app. split_and!; [done| |apply NoDup_singleton]. by intros i Hi ->%list_elem_of_singleton.
  - intros m'. pose proof (pending_insert t (new_proposal id m pl inc c) m' eq_refl) as Hp. cbn [p_managerId new_proposal] in Hp. destruct (str_eqb m m') eqn:E.
    + apply str_eqb_eq in E as <-. destruct (C m) as [C1 C2 C3 C4 C5 C6]. rewrite denied_length in C5. rewrite audit_length in C6. set (t' := set_proposals _ t) in *. assert (listWaitingOf t' m = []) as Hl' by done. split.
      * unfold countPending in *. rewrite Hp, length_app. cbn. lia.
      * done.
      * by left.
      * unfold payloads. rewrite Hl', Hp, fmap_app, app_nil_r. apply list.NoDup_app. split_and!; [|by intros x Hx ->%list_elem_of_singleton|apply NoDup_singleton]. unfold payloads in C4. rewrite Hl, app_nil_r in C4. done.
      * rewrite denied_length. unfold t'. rewrite rows_insert; [done|]. cbn. set_solver.
      * rewrite audit_length. unfold t'. rewrite rows_insert; [done|]. cbn. set_solver.
    + rewrite app_nil_r in Hp. apply (in_bounds_same t); [done|done|done|rewrite rows_insert; [done|cbn; set_solver]..].
Qed.
Lemma parked_list t w m : listWaitingOf (set_waiting (waiting t ++ [w]) t) m = if str_eqb (w_managerId w) m then insert_by w_createdAt w (listWaitingOf t m) else listWaitingOf t m.
Proof. unfold listWaitingOf. rewrite waiting_insert. destruct (str_eqb _ m); [by rewrite sort_by_snoc|by rewrite app_nil_r]. Qed.
Lemma parked_disciplined t id m pl inc c : disciplined t → id ∉ wids t → (listWaitingOf t m ≠ [] ∨ MAX_PENDING_PROPOSALS_PER_MANAGER ≤ countPending t m) → countWaitingOf t m < MAX_QUEUED_PROPOSALS_PER_MANAGER →
  pl ∉ payloads t m → disciplined (set_waiting (waiting t ++ [new_waiting id m pl inc c]) t).
Proof.
  intros [A B C] Hid Hc Hq Hpl. split; [done| |].
  - unfold wids. cbn. rewrite fmap_app. apply list.NoDup_app. split_and!; [done| |apply NoDup_singleton]. by intros i Hi ->%list_elem_of_singleton.
  - intros m'. pose proof (parked_list t (new_waiting id m pl inc c) m') as Hl. cbn [w_managerId new_waiting] in Hl. destruct (str_eqb m m') eqn:E; [|by apply (in_bounds_same t)].
    apply str_eqb_eq in E as <-. destruct (C m) as [C1 C2 C3 C4 C5 C6]. set (w := new_waiting id m pl inc c) in *. set (t' := set_waiting _ t) in *. assert (listWaitingOf t' m ≡ₚ w :: listWaitingOf t m) as Hperm by (rewrite Hl; apply insert_by_perm). split.
    * done.
    * rewrite <- listWaiting_length in *. rewrite Hperm. cbn. lia.
    * right. destruct Hc as [Hne|Hge]; [by destruct C3|]. change (countPending t' m) with (countPending t m). lia.
    * unfold payloads. rewrite Hperm. change (pending_rows t' m) with (pending_rows t m). rewrite fmap_cons, <- Permutation_middle. by apply list.NoDup_cons.
    * done.
    * done.
Qed.
Lemma dropped_disciplined t id : disciplined t → disciplined (set_waiting (without_id id (waiting t)) t).
Proof.
  intros [A B C]. split; [done| |].
  - change (NoDup (w_id <$> without_id id (waiting t))). rewrite wids_without. by apply list.NoDup_filter.
  - intros m. destruct (C m) as [C1 C2 C3 C4 C5 C6]. pose proof (list_without_id id t m) as Hl. split; try done.
    * rewrite <- listWaiting_length in *. rewrite Hl. etrans; [apply length_filter|done].
    * destruct C3 as [C3|C3]; [left; by rewrite Hl, C3|by right].
    * unfold payloads in *. rewrite Hl. eapply sublist_NoDup; [exact C4|]. apply sublist_app; [done|]. apply fmap_sublist. apply sublist_filter.
Qed.
(** The two histories, which no pending row is in and of which an answer enters one. *)
Lemma not_pending sts : sts ∈ [[Denied]; [Approved; Withdrawn]] → Pending ∉ sts.
Proof. intros [->|[->|[]%elem_of_nil]%elem_of_cons]%elem_of_cons; by apply (bool_decide_unpack _). Qed.
Lemma answer_kind_cases st sts keep : (st, (sts, keep)) ∈ answer_kinds → st ≠ Pending ∧
  (sts = [Denied] ∧ keep = MAX_DENIED_HISTORY_PER_MANAGER ∧ st ∉ [Approved; Withdrawn] ∨ sts = [Approved; Withdrawn] ∧ keep = MAX_AUDIT_HISTORY_PER_MANAGER ∧ st ∉ [Denied]).
Proof.
  unfold answer_kinds. rewrite !elem_of_cons, elem_of_nil. intros [[= -> -> ->]|[[= -> -> ->]|[[= -> -> ->]|[]]]]; (split; [done|]); [right|right|left]; (split_and!; [done..|by apply (bool_decide_unpack _)]).
Qed.
(** The rows of another manager are not those of the proposal that is answered. *)
Lemma answer_other t p st r now m : NoDup (pids t) → p ∈ proposals t → p_managerId p ≠ m → (∀ sts, rows_of (set_proposals (answer_rows (p_id p) st r now (proposals t)) t) m sts = rows_of t m sts)
  ∧ pending_rows (set_proposals (answer_rows (p_id p) st r now (proposals t)) t) m = pending_rows t m.
Proof.
  intros Hn Hp Hm. assert (∀ sts, rows_of (set_proposals (answer_rows (p_id p) st r now (proposals t)) t) m sts = rows_of t m sts) as H; [|split; [done|by rewrite <- !rows_pending]].
  intros sts. assert (∀ q, q ∈ proposals t → is_pending_id (p_id p) q = true → str_eqb (p_managerId q) m = false) as Hq.
  { intros q Hq [He%str_eqb_eq _]%andb_true_iff. assert (q = p) as -> by (by eapply pid_inj). apply not_true_iff_false. by intros ?%str_eqb_eq. }
  unfold rows_of. cbn. clear Hn Hp. induction (proposals t) as [|q ps IH]; [done|]. cbn [answer_rows fmap list_fmap]. fold (answer_rows (p_id p) st r now ps). rewrite !filter_cons, IH by (intros x Hx; apply Hq; by right).
  destruct (is_pending_id (p_id p) q) eqn:E; [|done]. pose proof (Hq q (list_elem_of_here _ _) E) as Hqm. cbn. by rewrite Hqm.
Qed.
(** Between the answer and the release. *)
Lemma answered_mid t p st sts keep r now t1 t2 : NoDup (pids t) → (st, (sts, keep)) ∈ answer_kinds →
  framed (set_proposals (answer_rows (p_id p) st r now (proposals t)) t) t1 → framed (deleteProposals (victims t1 (p_managerId p) sts keep) t1) t2 →
  sublist (pids t2) (pids t) ∧ wids t2 = wids t ∧ ∀ x, pending_rows t2 x = filter (λ q, p_id q ≠ p_id p) (pending_rows t x) ∧ listWaitingOf t2 x = listWaitingOf t x
    ∧ ∀ sts', length (rows_of t2 x sts') ≤ length (rows_of (set_proposals (answer_rows (p_id p) st r now (proposals t)) t) x sts').
Proof.
  intros A Hk F1 F2. apply answer_kind_cases in Hk as [Hst Hk]. set (t0 := set_proposals _ t) in *.
  assert (pids t1 = pids t) as E1 by (rewrite (framed_pids _ _ F1); unfold pids, t0; cbn; by rewrite answer_rows_ids).
  assert (wids t1 = wids t) as W1 by apply (framed_wids _ _ F1). split_and!.
  - rewrite (framed_pids _ _ F2), delete_pids, E1. apply sublist_filter.
  - rewrite (framed_wids _ _ F2). exact W1.
  - intros x. destruct (framed_views _ _ x F1) as (P1&L1&R1), (framed_views _ _ x F2) as (P2&L2&R2). rewrite P2, L2, evict_pending; [|by rewrite E1|apply not_pending; destruct Hk as [[-> _]|[-> _]]; set_solver].
    split_and!; [rewrite P1; by apply answer_pending|exact L1|]. intros sts'. rewrite R2, <- R1. apply delete_le.
Qed.
Lemma answered_disciplined t p st sts keep r now t1 t2 t' l : disciplined t → p ∈ proposals t → (st, (sts, keep)) ∈ answer_kinds → length (filter (λ q, is_pending_id (p_id p) q = true) (proposals t)) = 1 →
  framed (set_proposals (answer_rows (p_id p) st r now (proposals t)) t) t1 → framed (deleteProposals (victims t1 (p_managerId p) sts keep) t1) t2 → moved_in (p_managerId p) t2 t' l →
  countPending t' (p_managerId p) ≤ Nat.max (countPending t2 (p_managerId p)) MAX_PENDING_PROPOSALS_PER_MANAGER → (MAX_PENDING_PROPOSALS_PER_MANAGER ≤ countPending t' (p_managerId p) ∨ listWaitingOf t' (p_managerId p) = []) →
  disciplined t'.
Proof.
  intros [A B C] Hp Hk Hone F1 F2 Hmv Hc He. set (m := p_managerId p) in *. set (t0 := set_proposals _ t) in *.
  destruct (answered_mid _ _ _ _ _ _ _ _ _ A Hk F1 F2) as (S2&W2&H2). apply answer_kind_cases in Hk as [Hst Hk]. fold t0 in H2.
  assert (Pending ∉ [Denied] ∧ Pending ∉ [Approved; Withdrawn]) as (HpD&HpA) by (split; apply not_pending; set_solver).
  split; [apply (mv_pids _ _ _ _ Hmv); eapply sublist_NoDup; [exact A|exact S2]|apply (mv_wids _ _ _ _ Hmv); by rewrite W2|]. intros x. destruct (decide (x = m)) as [->|Hx].
  2:{ destruct (H2 x) as (P2&L2&R2), (mv_other _ _ _ _ Hmv x Hx) as [P3 L3]. destruct (answer_other t p st r now x A Hp) as [R0 P0]; [done|]. fold t0 in R0, P0.
    assert (pending_rows t0 x = filter (λ q, p_id q ≠ p_id p) (pending_rows t x)) as Q0 by (by apply answer_pending). apply (in_bounds_same t); [done|congruence|congruence|..]; rewrite (mv_rows _ _ _ _ Hmv) by done; etrans; [apply R2|by rewrite R0|apply R2|by rewrite R0]. }
  destruct (H2 m) as (P2&L2&R2). destruct (C m) as [C1 C2 C3 C4 C5 C6]. rewrite denied_length in C5. rewrite audit_length in C6. pose proof (mv_list _ _ _ _ Hmv) as Hlist. pose proof (mv_pending _ _ _ _ Hmv) as Hpend. rewrite L2 in Hlist. rewrite P2 in Hpend.
  assert (countPending t2 m ≤ MAX_PENDING_PROPOSALS_PER_MANAGER) as Hc2. { unfold countPending in *. rewrite P2. etrans; [apply length_filter|done]. }
  assert (length (rows_of t2 m sts) ≤ keep) as Hkeep. { destruct (framed_views _ _ m F2) as (_&_&R). rewrite R. apply evict_bound. }
  assert (length (rows_of t' m [Denied]) ≤ MAX_DENIED_HISTORY_PER_MANAGER ∧ length (rows_of t' m [Approved; Withdrawn]) ≤ MAX_AUDIT_HISTORY_PER_MANAGER) as [HD HA].
  { rewrite !(mv_rows _ _ _ _ Hmv) by done. destruct Hk as [(->&->&Hk)|(->&->&Hk)]; (split; [|try done]); try done; (etrans; [apply R2|]); unfold t0; by rewrite answer_rows_other. }
  split.
  - lia.
  - rewrite <- listWaiting_length in *. rewrite Hlist, length_app in C2. lia.
  - destruct He; [right; lia|by left].
  - unfold payloads in *. rewrite Hpend, fmap_app, <- list_fmap_compose. rewrite Hlist, fmap_app in C4. rewrite <- app_assoc. eapply sublist_NoDup; [exact C4|]. apply sublist_app; [apply fmap_sublist, sublist_filter|done].
  - by rewrite denied_length.
  - by rewrite audit_length.
Qed.
Lemma effect_disciplined e t t' : disciplined t → gov_effect e t t' → disciplined t'.
Proof.
  intros Hd []; subst.
  - by eapply framed_disciplined.
  - by apply filed_disciplined.
  - by apply parked_disciplined.
  - by apply dropped_disciplined.
  - by eapply answered_disciplined.
Qed.
Section Service.
Variable isFormat : N → bool.
Variable maskedSecrets : str → str.
Local Abbreviation step := (gov_step isFormat maskedSecrets).
Lemma decide_effect call id b reason t t' r : NoDup (pids t) → NoDup (wids t) → decide_proposal isFormat call id b reason t = inr (t', r) → gov_effect (HumanDecided call id b reason) t t'.
Proof.
  intros Hn Hw H. unfold decide_proposal in H. apply bind_inr in H as (t1&shown&H1&H). assert (t1 = t) as ->.
  { destruct reason; [|by apply ret_inr in H1 as [-> _]]. apply bind_inr in H1 as (t2&x&[-> _]%valid_inr&H1). by apply ret_inr in H1 as [-> _]. }
  clear H1. apply bind_inr in H as (t1&den&H1&H). assert (t1 = t) as ->.
  { destruct b; [by apply ret_inr in H1 as [-> _]|]. apply bind_inr in H1 as (t2&x&[-> _]%valid_inr&H1). by apply ret_inr in H1 as [-> _]. }
  clear H1. apply bind_inr in H as (t1&u&[Hone ->]%answer_inr&H). apply bind_inr in H as (t1&o&[-> ->]%reads_inr&H). destruct (answered_exists _ _ Hone) as (p&Hp&<-&Hs).
  rewrite (answer_find _ _ _ _ _ p) in H by done. apply bind_inr in H as (t2&en&H2&H). apply bind_inr in H as (t3&rel&Hr&H). apply ret_inr in H as [-> _]. cbn [answered p_managerId] in H2, Hr.
  set (t0 := set_proposals (answer_rows _ _ _ _ _) t) in *.
  assert (∃ t1, framed t0 t1 ∧ framed (deleteProposals (victims t1 (p_managerId p) (if b then [Approved; Withdrawn] else [Denied]) (if b then MAX_AUDIT_HISTORY_PER_MANAGER else MAX_DENIED_HISTORY_PER_MANAGER)) t1) t2) as (t1&F1&F2).
  { destruct b.
    - apply bind_inr in H2 as (ta&ua&Ha&H2). apply bind_inr in H2 as (tb&lb&Hb&H2). apply bind_inr in H2 as (tc&uc&->%audit_inr&H2). apply ret_inr in H2 as [-> _]. exists tb. split; [|done].
      etrans; [by eapply kq_grant|by eapply kq_law].
    - apply bind_inr in H2 as (ta&ua&Ha%denials_inr&H2). apply ret_inr in H2 as [-> _]. by exists t0. }
  apply release_inr in Hr as (l&Hm&Hc&He); [|rewrite (framed_wids _ _ F2); change (NoDup (wids t1)); by rewrite (framed_wids _ _ F1)].
  eapply (eff_answered _ _ _ p (if b then Approved else Denied) _ _ den (gc_now call) t1 t2 l Hp Hs); [left; by exists call, b, reason| |exact Hone|exact F1|exact F2|exact Hm|exact Hc|exact He]. destruct b; set_solver.
Qed.
Lemma step_effect t e : NoDup (pids t) → NoDup (wids t) → gov_effect e t (step t e).
Proof.
  intros Hn Hw. destruct e; cbn [gov_step].
  - apply eff_none. by destruct (has_own _ _).
  - apply after_keeps; [by apply eff_none|]. intros t' r H. unfold proposeLaw in H. apply bind_inr in H as (t1&u&->%manager_inr&H). apply bind_inr in H as (t1&i&[-> _]%valid_inr&H).
    apply bind_inr in H as (t1&pl&[-> _]%valid_inr&H). by eapply enqueue_effect.
  - apply after_keeps; [by apply eff_none|]. intros t' r H. unfold proposePermission in H. apply bind_inr in H as (t1&u&->%manager_inr&H). apply bind_inr in H as (t1&i&[-> _]%valid_inr&H).
    apply bind_inr in H as (t1&pl&[-> _]%valid_inr&H). by eapply enqueue_effect.
  - apply after_keeps; [by apply eff_none|]. intros t' r H. unfold requestResourceAccess in H. apply bind_inr in H as (t1&u&->%manager_inr&H). apply bind_inr in H as (t1&i&[-> _]%valid_inr&H).
    apply bind_inr in H as (t1&pl&[-> _]%valid_inr&H). apply bind_inr in H as (t1&u1&->%project_inr&H). by eapply enqueue_effect.
  - apply after_keeps; [by apply eff_none|]. intros t' r H. by eapply withdraw_effect.
  - apply after_keeps; [by apply eff_none|]. intros t' r H. by eapply decide_effect.
  - apply after_keeps; [by apply eff_none|]. intros t' r H. apply eff_none. by eapply kq_edit.
  - apply after_keeps; [by apply eff_none|]. intros t' r H. apply eff_none. by eapply kq_withdrawLaw.
  - apply after_keeps; [by apply eff_none|]. intros t' r H. apply eff_none. by eapply kq_insertLaw.
  - apply after_keeps; [by apply eff_none|]. intros t' r H. apply eff_none. by eapply kq_update_laws.
Qed.
Lemma reached_disciplined es : disciplined (governance_after isFormat maskedSecrets es).
Proof.
  unfold governance_after. assert (disciplined no_governance) as H0. { split; [apply base.NoDup_nil_2..|]. intros m. split; try (cbn; lia); [by left|apply base.NoDup_nil_2]. }
  revert H0. generalize no_governance. induction es as [|e es IH]; intros t Ht; [done|]. cbn. apply IH. eapply effect_disciplined; [done|]. apply step_effect; apply Ht.
Qed.
(** The governance queue of a manager keeps its bounds, whatever managers file and take back and humans decide, in any order and with any clock: at most ten proposals are pending and fifty wait, one waits only when all
    ten places are taken, no two open proposals ask for the same, and the two histories keep their sizes. *)
Theorem the_governance_queue_is_bounded es m : let t := governance_after isFormat maskedSecrets es in
  length (pendingOf t m) ≤ MAX_PENDING_PROPOSALS_PER_MANAGER ∧ length (listWaitingOf t m) ≤ MAX_QUEUED_PROPOSALS_PER_MANAGER
  ∧ (listWaitingOf t m ≠ [] → length (pendingOf t m) = MAX_PENDING_PROPOSALS_PER_MANAGER) ∧ NoDup ((p_payload <$> pendingOf t m) ++ (w_payload <$> listWaitingOf t m))
  ∧ length (deniedOf t m) ≤ MAX_DENIED_HISTORY_PER_MANAGER ∧ length (auditHistoryOf t m) ≤ MAX_AUDIT_HISTORY_PER_MANAGER.
Proof.
  cbv zeta. set (t := governance_after _ _ es). destruct (reached_disciplined es) as [_ _ Hb]. fold t in Hb. destruct (Hb m) as [A B C D E F]. clear Hb.
  assert (pendingOf t m ≡ₚ pending_rows t m) as Hp by (unfold pendingOf, oldest_filing_first; by rewrite sort_by_perm, rows_pending). unfold countPending in *. rewrite <- Hp in *. rewrite listWaiting_length.
  split_and!; try done; [by destruct C|]. unfold payloads in D. by rewrite Hp.
Qed.
End Service.

(** ** One queue *)
(** What the two tables keep of an open proposal: its id, what it asks for, its incident and its date. *)
Definition Entry : Type := str * ProposalPayload * str * Z.
Definition p_entry (p : Proposal) : Entry := (p_id p, p_payload p, p_incident p, p_createdAt p).
Definition w_entry (w : WaitingProposal) : Entry := (w_id w, w_payload w, w_incident w, w_createdAt w).
Definition entry_id (x : Entry) : str := x.1.1.1.
Definition entry_payload (x : Entry) : ProposalPayload := x.1.1.2.
Definition entry_at (x : Entry) : Z := x.2.
(** The open proposals of a manager, as it sees them: the pending ones, then those that wait. *)
Definition queue_of (t : governance) (m : str) : list Entry := (p_entry <$> pendingOf t m) ++ (w_entry <$> listWaitingOf t m).
(** The specification: one bounded queue per manager, of which a human may answer the first ten; a manager files at its end and takes back any of its own. *)
Inductive queue_step (e : GovEvent) (q q' : str → list Entry) : Prop :=
  | queue_same : (∀ m, q' m = q m) → queue_step e q q'
  | queue_file call m x : filing_of e = Some (call, m) → length (q m) < MAX_PENDING_PROPOSALS_PER_MANAGER + MAX_QUEUED_PROPOSALS_PER_MANAGER → entry_payload x ∉ entry_payload <$> q m →
      q' m = q m ++ [x] → (∀ m', m' ≠ m → q' m' = q m') → queue_step e q q'
  | queue_answer call m i x isApproval reason : e = HumanDecided call (entry_id x) isApproval reason → q m !! i = Some x → i < MAX_PENDING_PROPOSALS_PER_MANAGER → q' m = base.delete i (q m) → (∀ m', m' ≠ m → q' m' = q m') → queue_step e q q'
  | queue_take_back call m i x : e = ProposalTakenBack call m (entry_id x) → q m !! i = Some x → q' m = base.delete i (q m) → (∀ m', m' ≠ m → q' m' = q m') → queue_step e q q'.

(** The rows in the order of the tables, which is the order of the filings as long as the clock does not go back. *)
Definition raw_queue (t : governance) (m : str) : list Entry := (p_entry <$> pending_rows t m) ++ (w_entry <$> listWaitingOf t m).
Record in_order (z : Z) (t : governance) : Prop := mkInOrder
  { io_ids : NoDup (pids t ++ wids t);
    io_sorted : ∀ m, sorted entry_at (raw_queue t m);
    io_past : ∀ m x, x ∈ raw_queue t m → (entry_at x ≤ z)%Z }.
Lemma sorted_sublist {A} (k : A → Z) l l' : sublist l l' → sorted k l' → sorted k l.
Proof.
  induction 1 as [|x l l' Hs IH|x l l' Hs IH]; intros H; [constructor|inversion H as [|? ? Hx Hl]; subst..]; [|auto]. constructor; [|auto]. intros y Hy. apply Hx. by eapply elem_of_sublist.
Qed.
Lemma sorted_snoc {A} (k : A → Z) l x : sorted k l → (∀ y, y ∈ l → (k y ≤ k x)%Z) → sorted k (l ++ [x]).
Proof.
  induction 1 as [|y l Hy Hl IH]; intros Hx; cbn; [constructor; [by intros ? ?%elem_of_nil|constructor]|]. constructor.
  - intros z [Hz|Hz%list_elem_of_singleton]%elem_of_app; [auto|]. subst. apply Hx, list_elem_of_here.
  - apply IH. intros z Hz. apply Hx. by right.
Qed.
Lemma sorted_fmap {A B} (f : A → B) (k : B → Z) l : sorted k (f <$> l) → sorted (λ x, k (f x)) l.
Proof.
  induction l as [|x l IH]; [constructor|]. cbn. intros H. inversion H as [|? ? Hx Hl]; subst. constructor; [|auto]. intros y Hy. apply Hx. by apply list_elem_of_fmap_2.
Qed.
Lemma raw_queue_eq z t m : in_order z t → queue_of t m = raw_queue t m.
Proof.
  intros H. unfold queue_of, raw_queue, pendingOf, oldest_filing_first. rewrite rows_pending, sort_by_id; [done|]. apply (sorted_fmap p_entry entry_at). eapply sorted_sublist; [|apply (io_sorted _ _ H m)]. unfold raw_queue. by apply sublist_inserts_r.
Qed.
Lemma filter_delete (l : list Entry) i x : NoDup (entry_id <$> l) → l !! i = Some x → filter (λ y, entry_id y ≠ entry_id x) l = base.delete i l.
Proof.
  revert i. induction l as [|y l IH]; intros i Hn Hi; [done|]. cbn in Hn. apply list.NoDup_cons in Hn as [Hy Hn]. rewrite filter_cons. destruct i as [|i]; cbn in Hi |- *.
  - injection Hi as ->. rewrite decide_False by tauto. apply filter_true. intros z Hz He. apply Hy. rewrite <- He. by apply list_elem_of_fmap_2.
  - assert (entry_id y ≠ entry_id x) as Hne. { intros He. apply Hy. rewrite He. apply list_elem_of_fmap_2. by eapply list_elem_of_lookup_2. } rewrite decide_True by done. f_equal. auto.
Qed.
Lemma raw_ids t m : entry_id <$> raw_queue t m = (p_id <$> pending_rows t m) ++ (w_id <$> listWaitingOf t m).
Proof. unfold raw_queue. by rewrite fmap_app, <- !list_fmap_compose. Qed.
Lemma raw_NoDup t m : NoDup (pids t ++ wids t) → NoDup (entry_id <$> raw_queue t m).
Proof. intros H. rewrite raw_ids, listWaiting_perm. eapply sublist_NoDup; [exact H|]. apply sublist_app; apply fmap_sublist, sublist_filter. Qed.
Lemma raw_elem_ids t m x : x ∈ raw_queue t m → entry_id x ∈ pids t ++ wids t.
Proof.
  intros [(p&->&[Hp _]%pending_elem)%list_elem_of_fmap|(w&->&[Hw _]%waiting_elem)%list_elem_of_fmap]%elem_of_app; apply elem_of_app; [left; by apply (list_elem_of_fmap_2 p_id)|right; by apply (list_elem_of_fmap_2 w_id)].
Qed.
(** The manager of an open proposal is known from its id. *)
Lemma raw_owner t m m' x y : NoDup (pids t ++ wids t) → x ∈ raw_queue t m → y ∈ raw_queue t m' → entry_id x = entry_id y → m = m'.
Proof.
  intros Hn Hx Hy He. apply list.NoDup_app in Hn as (Hp&Hd&Hw).
  apply elem_of_app in Hx as [(p&->&(Hp1&Hm1&_)%pending_elem)%list_elem_of_fmap|(w&->&[Hw1 Hm1]%waiting_elem)%list_elem_of_fmap], Hy as [(p'&->&(Hp2&Hm2&_)%pending_elem)%list_elem_of_fmap|(w'&->&[Hw2 Hm2]%waiting_elem)%list_elem_of_fmap];
    cbn in He.
  - assert (p = p') as -> by (by eapply pid_inj). congruence.
  - exfalso. apply (Hd (p_id p)); [by apply list_elem_of_fmap_2|]. rewrite He. by apply list_elem_of_fmap_2.
  - exfalso. apply (Hd (p_id p')); [by apply list_elem_of_fmap_2|]. rewrite <- He. by apply list_elem_of_fmap_2.
  - assert (w = w') as -> by (by eapply wid_inj). congruence.
Qed.
(** What a step removes is one entry of one manager. *)
Lemma removed_one t t' m i x : NoDup (pids t ++ wids t) → raw_queue t m !! i = Some x → (∀ m', raw_queue t' m' = filter (λ y, entry_id y ≠ entry_id x) (raw_queue t m')) →
  raw_queue t' m = base.delete i (raw_queue t m) ∧ ∀ m', m' ≠ m → raw_queue t' m' = raw_queue t m'.
Proof.
  intros Hn Hi Hr. split; [rewrite Hr; apply filter_delete; [by apply raw_NoDup|done]|]. intros m' Hm. rewrite Hr. apply filter_true. intros y Hy He. apply Hm. eapply raw_owner; [exact Hn|exact Hy|by eapply list_elem_of_lookup_2|done].
Qed.
Lemma removed_order z t t' id : in_order z t → NoDup (pids t' ++ wids t') → (∀ m, raw_queue t' m = filter (λ y, entry_id y ≠ id) (raw_queue t m)) → in_order z t'.
Proof.
  intros [A B C] Hn Hr. split; [done|..]; intros m; rewrite Hr.
  - eapply sorted_sublist; [apply sublist_filter|done].
  - intros x [_ Hx]%list_elem_of_filter. by eapply C.
Qed.
Lemma raw_filter t m id : filter (λ y, entry_id y ≠ id) (raw_queue t m) = (p_entry <$> filter (λ p, p_id p ≠ id) (pending_rows t m)) ++ (w_entry <$> filter (λ w, w_id w ≠ id) (listWaitingOf t m)).
Proof. unfold raw_queue. by rewrite list.filter_app, <- (fmap_filter p_entry (λ y, entry_id y ≠ id)), <- (fmap_filter w_entry (λ y, entry_id y ≠ id)). Qed.
Lemma dropped_raw t w m : NoDup (pids t ++ wids t) → w ∈ waiting t → raw_queue (set_waiting (without_id (w_id w) (waiting t)) t) m = filter (λ y, entry_id y ≠ w_id w) (raw_queue t m).
Proof.
  intros Hn Hw. rewrite raw_filter. unfold raw_queue. rewrite list_without_id. f_equal; f_equal.
  - symmetry. apply filter_true. intros p [Hp _]%pending_elem He. apply list.NoDup_app in Hn as (_&Hd&_). apply (Hd (p_id p)); [by apply list_elem_of_fmap_2|]. rewrite He. by apply list_elem_of_fmap_2.
  - apply list_filter_iff. intros w'. rewrite <- not_true_iff_false, str_eqb_eq. done.
Qed.
Lemma answered_raw t p st sts keep r now t1 t2 t' l : NoDup (pids t ++ wids t) → p ∈ proposals t → (st, (sts, keep)) ∈ answer_kinds →
  framed (set_proposals (answer_rows (p_id p) st r now (proposals t)) t) t1 → framed (deleteProposals (victims t1 (p_managerId p) sts keep) t1) t2 → moved_in (p_managerId p) t2 t' l →
  NoDup (pids t' ++ wids t') ∧ ∀ m, raw_queue t' m = filter (λ y, entry_id y ≠ p_id p) (raw_queue t m).
Proof.
  intros Hn Hp Hk F1 F2 Hmv. pose proof Hn as Hn'. apply list.NoDup_app in Hn' as (A&Hd&_). destruct (answered_mid _ _ _ _ _ _ _ _ _ A Hk F1 F2) as (S2&W2&H2). split.
  - rewrite (mv_ids _ _ _ _ Hmv), W2. eapply sublist_NoDup; [exact Hn|]. by apply sublist_app.
  - intros m. rewrite raw_filter. rewrite (filter_true _ (listWaitingOf t m)).
    2:{ intros w [Hw _]%waiting_elem He. apply (Hd (p_id p)); [by apply list_elem_of_fmap_2|]. rewrite <- He. by apply list_elem_of_fmap_2. }
    destruct (H2 m) as (P2&L2&_). rewrite <- P2, <- L2. unfold raw_queue. destruct (decide (m = p_managerId p)) as [->|Hm].
    + rewrite (mv_pending _ _ _ _ Hmv), (mv_list _ _ _ _ Hmv), !fmap_app, <- list_fmap_compose. by rewrite <- app_assoc.
    + destruct (mv_other _ _ _ _ Hmv m Hm) as [-> ->]. done.
Qed.
(** What a filing reads: a clock that does not go back and an id that no open or answered proposal has. *)
Definition timely (z : Z) (t : governance) (e : GovEvent) : Prop :=
  match filing_of e with Some (call, _) => (z ≤ gc_now call)%Z ∧ gc_newId call ∉ pids t ++ wids t | None => True end.
Definition time_after (z : Z) (e : GovEvent) : Z := match filing_of e with Some (call, _) => gc_now call | None => z end.
Lemma raw_payloads t m : entry_payload <$> raw_queue t m = payloads t m.
Proof. unfold raw_queue, payloads. by rewrite fmap_app, <- !list_fmap_compose. Qed.
Lemma raw_length t m : length (raw_queue t m) = countPending t m + countWaitingOf t m.
Proof. unfold raw_queue. by rewrite length_app, !length_fmap, listWaiting_length. Qed.
Lemma appended_order z t t' m x : in_order z t → (z ≤ entry_at x)%Z → entry_id x ∉ pids t ++ wids t → pids t' ++ wids t' ≡ₚ entry_id x :: pids t ++ wids t →
  (∀ m', raw_queue t' m' = if str_eqb m m' then raw_queue t m' ++ [x] else raw_queue t m') → in_order (entry_at x) t'.
Proof.
  intros [A B C] Hz Hx Hp Hr. split; [rewrite Hp; by apply list.NoDup_cons|..]; intros m'; rewrite Hr; destruct (str_eqb m m').
  - apply sorted_snoc; [done|]. intros y Hy. specialize (C _ _ Hy). lia.
  - done.
  - intros y [Hy|Hy%list_elem_of_singleton]%elem_of_app; [specialize (C _ _ Hy); lia|by subst].
  - intros y Hy. specialize (C _ _ Hy). lia.
Qed.
Lemma appended_step e call t t' m x : filing_of e = Some (call, m) → countPending t m + countWaitingOf t m < MAX_PENDING_PROPOSALS_PER_MANAGER + MAX_QUEUED_PROPOSALS_PER_MANAGER → entry_payload x ∉ payloads t m →
  (∀ m', raw_queue t' m' = if str_eqb m m' then raw_queue t m' ++ [x] else raw_queue t m') → queue_step e (raw_queue t) (raw_queue t').
Proof.
  intros Hf Hl Hp Hr. eapply (queue_file _ _ _ call m x); [done|by rewrite raw_length|by rewrite raw_payloads|by rewrite Hr, str_eqb_refl|]. intros m' Hm. rewrite Hr. destruct (str_eqb m m') eqn:E; [by apply str_eqb_eq in E|done].
Qed.
Lemma filed_raw t id m pl inc c m' : listWaitingOf t m = [] → raw_queue (set_proposals (proposals t ++ [new_proposal id m pl inc c]) t) m' = if str_eqb m m' then raw_queue t m' ++ [(id, pl, inc, c)] else raw_queue t m'.
Proof.
  intros Hl. unfold raw_queue. rewrite pending_insert by done. change (listWaitingOf (set_proposals _ t) m') with (listWaitingOf t m'). cbn [p_managerId new_proposal]. destruct (str_eqb m m') eqn:E; [|by rewrite app_nil_r].
  apply str_eqb_eq in E as <-. by rewrite Hl, fmap_app, !app_nil_r.
Qed.
Lemma parked_raw z t id m pl inc c m' : in_order z t → (z ≤ c)%Z → raw_queue (set_waiting (waiting t ++ [new_waiting id m pl inc c]) t) m' = if str_eqb m m' then raw_queue t m' ++ [(id, pl, inc, c)] else raw_queue t m'.
Proof.
  intros Ho Hz. unfold raw_queue. rewrite parked_list. change (pending_rows (set_waiting _ t) m') with (pending_rows t m'). cbn [w_managerId new_waiting]. destruct (str_eqb m m') eqn:E; [|done].
  rewrite insert_by_last; [by rewrite fmap_app, app_assoc|]. intros w Hw. cbn. etrans; [|exact Hz]. apply (io_past _ _ Ho m' (w_entry w)). apply elem_of_app. right. by apply list_elem_of_fmap_2.
Qed.
Lemma effect_queue e z t t' : disciplined t → in_order z t → timely z t e → gov_effect e t t' → queue_step e (raw_queue t) (raw_queue t') ∧ in_order (time_after z e) t'.
Proof.
  intros Hd Ho Ht He. assert (z ≤ time_after z e)%Z as Hz by (unfold time_after, timely in *; destruct (filing_of e) as [[? ?]|]; [tauto|lia]).
  assert (∀ u, in_order z u → in_order (time_after z e) u) as Hlater by (intros u [A B C]; split; [done..|]; intros m x Hx; specialize (C m x Hx); lia). pose proof (io_ids _ _ Ho) as Hn.
  destruct He as [F|call m pl inc Hf Hid Hl Hc Hpl ->|call m pl inc Hf Hid Hc Hq Hpl ->|call w -> Hw ->|p st sts keep r now t1 t2 l Hp Hs Ha Hk Hone F1 F2 Hmv Hcount Hend].
  - assert (∀ m, raw_queue t' m = raw_queue t m) as Hr. { intros m. destruct (framed_views _ _ m F) as (P&L&_). unfold raw_queue. by rewrite P, L. }
    split; [by apply queue_same|]. apply Hlater. destruct Ho as [A B C]. split; [by rewrite (framed_pids _ _ F), (framed_wids _ _ F)|intros m; by rewrite Hr|intros m x; rewrite Hr; apply C].
  - unfold timely, time_after in *. rewrite Hf in *. destruct Ht as [Ht Hfresh]. set (x := (gc_newId call, pl, inc, gc_now call) : Entry).
    assert (∀ m', raw_queue (set_proposals (proposals t ++ [new_proposal (gc_newId call) m pl inc (gc_now call)]) t) m' = if str_eqb m m' then raw_queue t m' ++ [x] else raw_queue t m') as Hr by (intros m'; by apply filed_raw). split.
    + apply (appended_step _ call _ _ m x); [done| | |exact Hr]; [rewrite <- listWaiting_length, Hl; cbn [length]; lia|]. unfold payloads. by rewrite Hl, app_nil_r.
    + eapply (appended_order z t _ m x); try done. unfold pids. cbn. rewrite fmap_app, <- app_assoc. symmetry. apply Permutation_middle.
  - unfold timely, time_after in *. rewrite Hf in *. destruct Ht as [Ht Hfresh]. set (x := (gc_newId call, pl, inc, gc_now call) : Entry).
    assert (∀ m', raw_queue (set_waiting (waiting t ++ [new_waiting (gc_newId call) m pl inc (gc_now call)]) t) m' = if str_eqb m m' then raw_queue t m' ++ [x] else raw_queue t m') as Hr by (intros m'; by eapply parked_raw). split.
    + apply (appended_step _ call _ _ m x); [done| |exact Hpl|exact Hr]. pose proof (ib_pending _ _ (di_bounds _ Hd m)). lia.
    + eapply (appended_order z t _ m x); try done. unfold wids. cbn. rewrite fmap_app, app_assoc. symmetry. apply Permutation_cons_append.
  - assert (w_entry w ∈ raw_queue t (w_managerId w)) as Hin. { apply elem_of_app. right. apply list_elem_of_fmap_2. by apply waiting_elem. } apply list_elem_of_lookup in Hin as [i Hi].
    assert (∀ m, raw_queue (set_waiting (without_id (w_id w) (waiting t)) t) m = filter (λ y, entry_id y ≠ w_id w) (raw_queue t m)) as Hr by (intros m; by apply dropped_raw).
    destruct (removed_one _ _ _ _ _ Hn Hi Hr). split; [by apply (queue_take_back _ _ _ call (w_managerId w) i (w_entry w))|]. eapply removed_order; [done| |exact Hr].
    change (NoDup (pids t ++ (w_id <$> without_id (w_id w) (waiting t)))). rewrite wids_without. eapply sublist_NoDup; [exact Hn|]. apply sublist_app; [done|apply sublist_filter].
  - destruct (answered_raw _ _ _ _ _ _ _ _ _ _ _ Hn Hp Hk F1 F2 Hmv) as [Hn' Hr]. assert (p ∈ pending_rows t (p_managerId p)) as Hin by (by apply pending_elem). apply list_elem_of_lookup in Hin as [i Hi].
    assert (i < MAX_PENDING_PROPOSALS_PER_MANAGER) as Hlt. { apply lookup_lt_Some in Hi. pose proof (ib_pending _ _ (di_bounds _ Hd (p_managerId p))) as Hb. unfold countPending in Hb. lia. }
    assert (raw_queue t (p_managerId p) !! i = Some (p_entry p)) as Hq by (unfold raw_queue; apply lookup_app_l_Some; by rewrite list_lookup_fmap, Hi).
    destruct (removed_one _ _ _ _ _ Hn Hq Hr). split.
    + destruct Ha as [(call&b&reason&->&_)|(call&->&_)]; [by apply (queue_answer _ _ _ call (p_managerId p) i (p_entry p) b reason)|by apply (queue_take_back _ _ _ call (p_managerId p) i (p_entry p))].
    + apply Hlater. by eapply removed_order.
Qed.

(** ** What waits can be released *)
(** The checks of the table hold of what waits, and managers stay. *)
Definition fit (t : governance) : Prop := ∀ w, w ∈ waiting t → isSpaces (w_incident w) = false ∧ has_own (managers t) (w_managerId w) = true.
Definition stays_fit (t t' : governance) : Prop := (∀ m, has_own (managers t) m = true → has_own (managers t') m = true) ∧ (fit t → fit t').
#[export] Instance stays_fit_preorder : PreOrder stays_fit.
Proof. split; [done|]. intros t1 t2 t3 [H1 H2] [H3 H4]. split; auto. Qed.
Lemma fit_same t t' : (∀ w, w ∈ waiting t' → w ∈ waiting t) → managers t' = managers t → stays_fit t t'.
Proof. intros Hw Hm. split; [by rewrite Hm|]. intros H w Hin. rewrite Hm. by apply H, Hw. Qed.
#[local] Hint Extern 1 (preserves stays_fit (writes _)) => (apply preserves_writes; intros ?; by apply fit_same) : tx.
Lemma has_own_put {A} (r : rec A) k v m : has_own r m = true → has_own (put r k v) m = true.
Proof. rewrite !has_own_get, get_put. intros H. by destruct (str_eqb k m). Qed.
Lemma fit_managers t m n : stays_fit t (set_managers (put (managers t) m n) t).
Proof. split; [intros m'; by apply has_own_put|]. intros H w Hw. destruct (H w Hw). split; [done|]. by apply has_own_put. Qed.
#[export] Instance fit_statements : KeepsStatements stays_fit.
Proof.
  split; intros.
  - unfold insertProposal. tx_preserves.
  - intros t t' u H. unfold insertWaiting in H. apply bind_inr in H as (t1&ok&[-> ->]%reads_inr&H). destruct (_ && _ && _) eqn:E; [|done]. apply writes_inr in H as ->. split; [done|].
    apply andb_true_iff in E as [[_ Ei]%andb_true_iff Em]. apply negb_true_iff in Ei. intros Hf w [Hw| ->%list_elem_of_singleton]%elem_of_app; [by apply Hf|done].
  - apply preserves_writes. intros t. apply fit_same; [|done]. by intros w [_ ?]%list_elem_of_filter.
  - unfold deleteWaitingOf. tx_preserves. apply preserves_writes. intros t. apply fit_same; [|done]. by intros w [_ ?]%list_elem_of_filter.
  - unfold answerIfPending. tx_preserves.
  - unfold evictOldestBeyond. tx_preserves.
  - apply preserves_writes. intros t. destruct (has_own (managers t) m); [apply fit_managers|reflexivity].
Qed.
#[export] Instance fit_writes : KeepsWrites stays_fit.
Proof.
  split; intros; [unfold insertLaw|unfold upsertGrant|unfold replaceTextIfRevision, update_laws|unfold withdrawIfRevision, update_laws|unfold replaceTextFromImport, update_laws]; tx_preserves.
  apply preserves_writes. intros u. by destruct (existsb _ _); apply fit_same.
Qed.

(** ** Every history *)
Lemma release_runs m t : NoDup (pids t ++ wids t) → fit t → ∃ t' r, releaseWaitingIntoFreePlaces m t = inr (t', r).
Proof.
  intros Hn Hf. unfold releaseWaitingIntoFreePlaces. erewrite bind_run by done. assert (∀ fuel acc t, NoDup (pids t ++ wids t) → fit t → ∃ t' ids, release_loop fuel m acc t = inr (t', ids)) as Hloop.
  2:{ destruct (Hloop (S (length (waiting t))) [] t Hn Hf) as (t'&ids&Hr). erewrite bind_run by done. by eexists _, _. }
  clear t Hn Hf. induction fuel as [|fuel IH]; intros acc t Hn Hf; cbn [release_loop]; [by eexists _, _|]. erewrite bind_run by done. destruct (negb _); [by eexists _, _|].
  assert (∃ t1 o, releaseOldest m t = inr (t1, o)) as (t1&o&Hr).
  { unfold releaseOldest. erewrite bind_run by done. destruct (listWaitingOf t m) as [|w rest] eqn:El; cbn [list.head]; [by eexists _, _|]. assert (w ∈ listWaitingOf t m) as Hw by (rewrite El; apply list_elem_of_here).
    apply waiting_elem in Hw as [Hw _]. destruct (Hf w Hw) as [Hi Hm]. assert (findProposal t (w_id w) = None) as Hnone.
    { apply find_proposal_none. intros Hin. apply list.NoDup_app in Hn as (_&Hd&_). apply (Hd _ Hin). by apply list_elem_of_fmap_2. }
    unfold insertProposal. rewrite (bind_run _ _ t (set_proposals (proposals t ++ [released w]) t) ()); [by eexists _, _|]. erewrite bind_run by done. rewrite Hnone, Hi, Hm. done. }
  rewrite (bind_run _ _ _ _ _ Hr). destruct o as [id|]; [|by eexists _, _]. apply IH.
  - apply releaseOldest_inr in Hr as [(_&->&_)|(w&_&Hmv)]; [done|by rewrite (mv_ids _ _ _ _ Hmv)|]. by apply list.NoDup_app in Hn as (_&_&?).
  - destruct (keeps_release stays_fit _ _ _ _ Hr) as [_ Hfit]. auto.
Qed.
Section Reached.
Variable isFormat : N → bool.
Variable maskedSecrets : str → str.
Local Abbreviation step := (gov_step isFormat maskedSecrets).
(** The states the events reach, with the last date of a filing. *)
Inductive gov_reached : Z → governance → Prop :=
  | gov_first z : gov_reached z no_governance
  | gov_next z t e : gov_reached z t → timely z t e → gov_reached (time_after z e) (step t e).
Record settled (z : Z) (t : governance) : Prop := mkSettled { st_disciplined : disciplined t; st_order : in_order z t; st_fit : fit t }.
Lemma reached_settled z t : gov_reached z t → settled z t.
Proof.
  induction 1 as [z|z t e _ [Hd Ho Hf] Ht].
  - split; [|split|by intros w ?%elem_of_nil]; [apply (reached_disciplined isFormat maskedSecrets [])|apply base.NoDup_nil_2|intros m; constructor|by intros m x ?%elem_of_nil].
  - pose proof (step_effect isFormat maskedSecrets t e (di_pids _ Hd) (di_wids _ Hd)) as He. split; [by eapply effect_disciplined|by eapply effect_queue|destruct (keeps_step stays_fit isFormat maskedSecrets t e) as [_ Hfit]; [intros m; apply fit_managers|auto]].
Qed.
Lemma queue_step_ext e q q' p p' : (∀ m, p m = q m) → (∀ m, p' m = q' m) → queue_step e q q' → queue_step e p p'.
Proof.
  intros H H' [Hs|call m x Hf Hl Hx Hq Ho|call m i x b reason He Hi Hlt Hq Ho|call m i x He Hi Hq Ho].
  - apply queue_same. intros m. by rewrite H, H'.
  - apply (queue_file _ _ _ call m x); rewrite ?H, ?H'; try done. intros m' Hm. rewrite H, H'. auto.
  - apply (queue_answer _ _ _ call m i x b reason); rewrite ?H, ?H'; try done. intros m' Hm. rewrite H, H'. auto.
  - apply (queue_take_back _ _ _ call m i x); rewrite ?H, ?H'; try done. intros m' Hm. rewrite H, H'. auto.
Qed.
Lemma pending_first z t m : settled z t → p_entry <$> pendingOf t m = take MAX_PENDING_PROPOSALS_PER_MANAGER (queue_of t m).
Proof.
  intros [Hd Ho _]. destruct (di_bounds _ Hd m) as [A _ C _ _ _]. assert (length (pendingOf t m) = countPending t m) as Hlen by (unfold pendingOf, oldest_filing_first, countPending; by rewrite sort_by_perm, rows_pending).
  unfold queue_of. destruct C as [->|C]; [rewrite app_nil_r, take_ge; [done|rewrite length_fmap; lia]|]. rewrite take_app_le, take_ge; [done|rewrite length_fmap; lia..].
Qed.
(** C15. The two tables of the governance queue are one bounded queue per manager: as long as the clock of the filings does not go back and new ids are new, the proposals a human may answer are the first ten open ones in the
    order of their filing, and each event, refused or not, leaves every queue, files at the end of one that has room, lets a human answer one of its first ten, or lets its manager take one back. *)
Theorem the_two_tables_are_one_queue z t e : gov_reached z t → timely z t e →
  (∀ m, p_entry <$> pendingOf t m = take MAX_PENDING_PROPOSALS_PER_MANAGER (queue_of t m)) ∧ queue_step e (queue_of t) (queue_of (step t e)).
Proof.
  intros Hr Ht. pose proof (reached_settled _ _ Hr) as Hs. pose proof (reached_settled _ _ (gov_next _ _ _ Hr Ht)) as Hs'. split; [intros m; by eapply pending_first|].
  pose proof Hs as [Hd Ho _]. pose proof Hs' as [_ Ho' _]. eapply (queue_step_ext e (raw_queue t) (raw_queue (step t e))); [intros m; by eapply raw_queue_eq|intros m; by eapply raw_queue_eq|].
  eapply effect_queue; [done..|]. apply step_effect; apply Hd.
Qed.
(** A human can always deny what is pending: the denial of a pending proposal with a reason that may be stored commits, whatever waits behind it, removes exactly that proposal from the queue and leaves the first ten of the rest pending. *)
Theorem a_denial_always_lands z t call m p reason text : gov_reached z t → p ∈ pendingOf t m → requiredText isFormat reason MAX_DENIAL_REASON_CHARS = Some text →
  ∃ t' ns i, decide_proposal isFormat call (p_id p) false (Some reason) t = inr (t', (answered Denied (Some text) (gc_now call) p, ns))
    ∧ queue_of t m !! i = Some (p_entry p) ∧ queue_of t' m = base.delete i (queue_of t m) ∧ p_entry <$> pendingOf t' m = take MAX_PENDING_PROPOSALS_PER_MANAGER (queue_of t' m).
Proof.
  intros Hr Hp Hreason. pose proof (reached_settled _ _ Hr) as Hs. pose proof Hs as [Hd Ho Hf]. unfold pendingOf, oldest_filing_first in Hp. rewrite sort_by_perm, rows_pending in Hp. apply pending_elem in Hp as Hp'. destruct Hp' as (Hin&Hm&Hst).
  pose proof (one_pending _ _ (di_pids _ Hd) Hin Hst) as Hone. set (t0 := set_proposals (answer_rows (p_id p) Denied (Some text) (gc_now call) (proposals t)) t).
  assert (answerIfPending (p_id p) Denied (Some text) (gc_now call) t = inr (t0, true)) as H0 by (unfold answerIfPending, mbind, Txn_bind; cbn; by rewrite Hone).
  assert (answer_proposal call (p_id p) Denied (Some text) t = inr (t0, ())) as H1 by (unfold answer_proposal; by rewrite (bind_run _ _ _ _ _ H0)).
  assert (findProposal t0 (p_id p) = Some (answered Denied (Some text) (gc_now call) p)) as H2 by (by apply answer_find; [apply Hd|..]).
  assert (∃ t2, evictOldestDenials (p_managerId p) t0 = inr (t2, ())) as [t2 H3]. { unfold evictOldestDenials. erewrite bind_run by done. destruct (Nat.ltb 0 _); by eexists. }
  assert (fit t2) as Hf2. { apply (keeps_denials stays_fit _ _ _ _ H3). by apply (keeps_answer stays_fit _ _ _ _ _ _ _ H1). }
  pose proof (denials_inr _ _ _ _ H3) as F2. assert (framed t0 t0) as F1 by done. assert ((Denied, ([Denied], MAX_DENIED_HISTORY_PER_MANAGER)) ∈ answer_kinds) as Hk by (unfold answer_kinds; set_solver).
  pose proof (io_ids _ _ Ho) as Hn. destruct (answered_mid _ _ _ _ _ _ _ _ _ (di_pids _ Hd) Hk F1 F2) as (S2&W2&_).
  assert (NoDup (pids t2 ++ wids t2)) as Hn2 by (rewrite W2; eapply sublist_NoDup; [exact Hn|by apply sublist_app]). destruct (release_runs (p_managerId p) t2 Hn2 Hf2) as (t'&rel&H4).
  assert (∃ ns, decide_proposal isFormat call (p_id p) false (Some reason) t = inr (t', (answered Denied (Some text) (gc_now call) p, ns))) as [ns Hrun].
  { unfold decide_proposal, storedDenialReason. rewrite Hreason. do 2 (rewrite (bind_run _ _ t t (Some text)) by done). rewrite (bind_run _ _ _ _ _ H1). rewrite (bind_run _ _ t0 t0 _ eq_refl), H2. erewrite bind_run by (rewrite (bind_run _ _ _ _ _ H3); done). rewrite (bind_run _ _ _ _ _ H4). by eexists. }
  assert (settled z t') as Hs'.
  { assert (step t (HumanDecided call (p_id p) false (Some reason)) = t') as <- by (cbn [gov_step]; unfold after; by rewrite Hrun). by apply (reached_settled z), (gov_next _ _ (HumanDecided call (p_id p) false (Some reason)) Hr). }
  apply release_inr in H4 as (l&Hmv&_&_); [|apply list.NoDup_app in Hn2; tauto]. destruct (answered_raw _ _ _ _ _ _ _ _ _ _ _ Hn Hin Hk F1 F2 Hmv) as [_ Hraw].
  apply list_elem_of_lookup in Hp as [i Hi]. assert (raw_queue t m !! i = Some (p_entry p)) as Hq by (unfold raw_queue; apply lookup_app_l_Some; by rewrite list_lookup_fmap, Hi).
  destruct (removed_one t t' m i (p_entry p) Hn Hq Hraw) as [Hdel _]. exists t', ns, i. rewrite (raw_queue_eq z t m Ho), (raw_queue_eq z t' m (st_order _ _ Hs')). split_and!; try done. rewrite <- (raw_queue_eq z t' m (st_order _ _ Hs')). by eapply pending_first.
Qed.
(** ** Filing *)
Lemma insertProposal_runs id m pl inc c t : id ∉ pids t → isSpaces inc = false → has_own (managers t) m = true → insertProposal id m pl inc c t = inr (set_proposals (proposals t ++ [new_proposal id m pl inc c]) t, ()).
Proof. intros Hid%find_proposal_none Hi Hm. unfold insertProposal. erewrite bind_run by done. by rewrite Hid, Hi, Hm. Qed.
Lemma insertWaiting_runs id m pl inc c t : id ∉ wids t → isSpaces inc = false → has_own (managers t) m = true → insertWaiting id m pl inc c t = inr (set_waiting (waiting t ++ [new_waiting id m pl inc c]) t, ()).
Proof.
  intros Hid Hi Hm. unfold insertWaiting. erewrite bind_run by done. rewrite Hi, Hm. assert (existsb (λ w, str_eqb (w_id w) id) (waiting t) = false) as ->; [|done].
  apply not_true_iff_false. intros (w&Hw&He%str_eqb_eq)%existsb_exists. apply Hid. rewrite <- He. apply list_elem_of_fmap_2. by apply list_elem_of_In.
Qed.
Lemma find_new t p : p_id p ∉ pids t → findProposal (set_proposals (proposals t ++ [p]) t) (p_id p) = Some p.
Proof.
  intros Hn. unfold findProposal, pids in *. cbn. induction (proposals t) as [|q ps IH]; cbn; [by rewrite str_eqb_refl|]. cbn in Hn. apply not_elem_of_cons in Hn as [Hq Hn].
  destruct (str_eqb (p_id q) (p_id p)) eqn:E; [by apply str_eqb_eq in E|auto].
Qed.
Lemma no_twin t m pl : pl ∉ payloads t m → findPendingTwin t m pl = None ∧ findWaitingTwin t m pl = None.
Proof.
  unfold payloads. rewrite elem_of_app. intros Hn. split; unfold findPendingTwin, findWaitingTwin; apply find_is_None; intros x Hx; apply not_true_iff_false; intros H; apply Hn.
  - apply andb_true_iff in H as [Hc He%bool_decide_eq_true]. left. rewrite <- He. apply list_elem_of_fmap_2. by apply list_elem_of_filter.
  - apply bool_decide_eq_true in H. right. rewrite <- H, listWaiting_perm. by apply list_elem_of_fmap_2.
Qed.
Lemma twin_answers call m inc pl t : pl ∈ payloads t m → ∃ f, enqueueUnlessDuplicate call m inc pl t = inr (t, (f, [])) ∧ deduplicated f = true ∧ ∃ x, x ∈ raw_queue t m ∧ entry_id x = filed_id f ∧ entry_payload x = pl.
Proof.
  intros Hpl. unfold enqueueUnlessDuplicate. do 2 (erewrite bind_run by done). destruct (findPendingTwin t m pl) as [p|] eqn:E1.
  - apply find_elem in E1 as [Hp [Hc He%bool_decide_eq_true]%andb_true_iff]. eexists. split; [done|]. split; [done|]. exists (p_entry p). split; [|done]. apply elem_of_app. left. apply list_elem_of_fmap_2. by apply list_elem_of_filter.
  - erewrite bind_run by done. destruct (findWaitingTwin t m pl) as [w|] eqn:E2; cbn [fmap option_fmap option_map].
    + apply find_elem in E2 as [Hw He%bool_decide_eq_true]. eexists. split; [done|]. split; [done|]. exists (w_entry w). split; [|done]. apply elem_of_app. right. apply list_elem_of_fmap_2. by rewrite listWaiting_perm.
    + apply twin_none in E1. apply waiting_twin_none in E2. by apply elem_of_app in Hpl as [?|?].
Qed.
(** A filing without a twin, in the three cases. *)
Lemma enqueue_new call m inc pl t : pl ∉ payloads t m → enqueueUnlessDuplicate call m inc pl t =
  (if Nat.ltb (countPending t m) MAX_PENDING_PROPOSALS_PER_MANAGER && negb (Nat.ltb 0 (countWaitingOf t m)) then
     _ ← insertProposal (gc_newId call) m pl inc (gc_now call); inserted ← reads (λ t, findProposal t (gc_newId call));
     match inserted with None => refuse MissingRow | Some p => mret (mkFiled (p_id p) false (inl Pending) 0, [GovProposed p]) end
   else if Nat.leb MAX_QUEUED_PROPOSALS_PER_MANAGER (countWaitingOf t m) then refuse GovernanceQueueFull
   else
     _ ← insertWaiting (gc_newId call) m pl inc (gc_now call); parked ← reads (λ t, (λ w, (w_id w, length (listWaitingOf t m))) <$> list.last (listWaitingOf t m));
     match parked with None => refuse MissingRow | Some (id, position) => mret (mkFiled id false (inr position) position, [GovQueueChanged m position]) end) t.
Proof. intros [E1 E2]%no_twin. unfold enqueueUnlessDuplicate. do 2 (erewrite bind_run by done). rewrite E1. erewrite bind_run by done. rewrite E2. cbn [fmap option_fmap option_map]. by erewrite bind_run by done. Qed.
Lemma enqueue_pending call m inc pl t : pl ∉ payloads t m → gc_newId call ∉ pids t → isSpaces inc = false → has_own (managers t) m = true → countWaitingOf t m = 0 → countPending t m < MAX_PENDING_PROPOSALS_PER_MANAGER →
  enqueueUnlessDuplicate call m inc pl t = let p := new_proposal (gc_newId call) m pl inc (gc_now call) in inr (set_proposals (proposals t ++ [p]) t, (mkFiled (gc_newId call) false (inl Pending) 0, [GovProposed p])).
Proof.
  intros Hpl Hid Hi Hm H0 Hlt%Nat.ltb_lt. rewrite enqueue_new, Hlt, H0 by done. cbn [negb andb Nat.ltb Nat.leb]. rewrite (bind_run _ _ _ _ _ (insertProposal_runs _ _ _ _ _ _ Hid Hi Hm)). erewrite bind_run by done.
  pose proof (find_new t (new_proposal (gc_newId call) m pl inc (gc_now call)) Hid) as Hfind. cbn [p_id new_proposal] in Hfind. by rewrite Hfind.
Qed.
Lemma enqueue_waits z call m inc pl t : in_order z t → (z ≤ gc_now call)%Z → pl ∉ payloads t m → gc_newId call ∉ wids t → isSpaces inc = false → has_own (managers t) m = true →
  countPending t m = MAX_PENDING_PROPOSALS_PER_MANAGER → countWaitingOf t m < MAX_QUEUED_PROPOSALS_PER_MANAGER →
  enqueueUnlessDuplicate call m inc pl t = let w := new_waiting (gc_newId call) m pl inc (gc_now call) in
    inr (set_waiting (waiting t ++ [w]) t, (mkFiled (gc_newId call) false (inr (S (countWaitingOf t m))) (S (countWaitingOf t m)), [GovQueueChanged m (S (countWaitingOf t m))])).
Proof.
  intros Ho Hz Hpl Hid Hi Hm Hc Hlt. rewrite enqueue_new, Hc by done. rewrite (proj2 (Nat.leb_gt _ _)) by done. cbn [negb andb Nat.ltb Nat.leb MAX_PENDING_PROPOSALS_PER_MANAGER].
  rewrite (bind_run _ _ _ _ _ (insertWaiting_runs _ _ _ _ _ _ Hid Hi Hm)). erewrite bind_run by done. rewrite parked_list. cbn [w_managerId new_waiting]. rewrite str_eqb_refl, insert_by_last.
  - rewrite last_snoc, length_app, listWaiting_length, Nat.add_1_r. done.
  - intros w Hw. cbn. etrans; [|exact Hz]. apply (io_past _ _ Ho m (w_entry w)). apply elem_of_app. right. by apply list_elem_of_fmap_2.
Qed.
(** C38. Filing is exact. In tables reached by any history with a clock that does not go back and new ids, a filing for a manager that exists, with an incident that is not blank, an id no proposal has and a time not before the last one: when it
    asks for what an open proposal of its manager asks for, that one is the answer and nothing changes; otherwise a queue of sixty refuses it, and a shorter one takes it at its end with the payload, the incident and the time given, pending when it is
    among the first ten, else at the position it is told. *)
Theorem filing_is_exact z t call m inc pl : gov_reached z t → (z ≤ gc_now call)%Z → gc_newId call ∉ pids t ++ wids t → has_own (managers t) m = true → isSpaces inc = false →
  let n := length (queue_of t m) in
  (pl ∈ entry_payload <$> queue_of t m → ∃ f, enqueueUnlessDuplicate call m inc pl t = inr (t, (f, [])) ∧ deduplicated f = true ∧ ∃ x, x ∈ queue_of t m ∧ entry_id x = filed_id f ∧ entry_payload x = pl)
  ∧ (pl ∉ entry_payload <$> queue_of t m → n = MAX_PENDING_PROPOSALS_PER_MANAGER + MAX_QUEUED_PROPOSALS_PER_MANAGER → enqueueUnlessDuplicate call m inc pl t = inl GovernanceQueueFull)
  ∧ (pl ∉ entry_payload <$> queue_of t m → n < MAX_PENDING_PROPOSALS_PER_MANAGER + MAX_QUEUED_PROPOSALS_PER_MANAGER →
      ∃ t' ns, let position := S n - MAX_PENDING_PROPOSALS_PER_MANAGER in
        enqueueUnlessDuplicate call m inc pl t = inr (t', (mkFiled (gc_newId call) false (if Nat.ltb n MAX_PENDING_PROPOSALS_PER_MANAGER then inl Pending else inr position) position, ns))
        ∧ queue_of t' m = queue_of t m ++ [(gc_newId call, pl, inc, gc_now call)]).
Proof.
  intros Hr Hz Hid Hm Hi n. pose proof (reached_settled _ _ Hr) as [Hd Ho _]. subst n. rewrite !(raw_queue_eq z t m Ho), raw_payloads, raw_length. split; [apply twin_answers|].
  assert (gc_newId call ∉ pids t ∧ gc_newId call ∉ wids t) as [Hidp Hidw] by (rewrite elem_of_app in Hid; tauto). destruct (di_bounds _ Hd m) as [B1 B2 B3 _ _ _].
  assert (countWaitingOf t m = 0 ∨ countPending t m = MAX_PENDING_PROPOSALS_PER_MANAGER) as B4 by (rewrite <- listWaiting_length; destruct B3 as [->|?]; [by left|by right]).
  assert (∀ t' r, enqueueUnlessDuplicate call m inc pl t = inr (t', r) → queue_of t' m = raw_queue t' m) as Hq.
  { intros t' r H. eapply (raw_queue_eq (gc_now call)). eapply (effect_queue (LawProposed call m [] []) z t); [done|done|by split|]. by eapply enqueue_effect. }
  split.
  - intros Hpl Hn. rewrite enqueue_new by done. rewrite (proj2 (Nat.leb_le _ _)) by lia. rewrite (proj2 (Nat.ltb_ge _ _)) by lia. done.
  - intros Hpl Hn. destruct (Nat.ltb_spec (countPending t m + countWaitingOf t m) MAX_PENDING_PROPOSALS_PER_MANAGER) as [Hlt|Hge].
    + assert (countWaitingOf t m = 0) as H0 by lia. pose proof (enqueue_pending call m inc pl t Hpl Hidp Hi Hm H0 ltac:(lia)) as Hrun. cbv zeta in Hrun. eexists _, _. cbv zeta. split; [rewrite Hrun; repeat f_equal; lia|].
      rewrite (Hq _ _ Hrun), filed_raw, str_eqb_refl; [done|]. apply length_zero_iff_nil. by rewrite listWaiting_length.
    + pose proof (enqueue_waits z call m inc pl t Ho Hz Hpl Hidw Hi Hm ltac:(lia) ltac:(lia)) as Hrun. cbv zeta in Hrun. eexists _, _. cbv zeta. split; [rewrite Hrun; repeat f_equal; lia|].
      by rewrite (Hq _ _ Hrun), (parked_raw z), str_eqb_refl.
Qed.
End Reached.

(** ** One manager from end to end *)
Definition no_format (c : N) : bool := false.
Abbreviation gov_after := (governance_after no_format Datatypes.id).
Definition MANAGER : str := js "m1".
Definition tag (n : nat) : str := [N.of_nat (97 + n)].
Definition call_at (n : nat) : GovCall := mkGovCall (Z.of_nat n) (Z.of_nat n) (tag n) (λ _, Some (js "p")) (λ _, Some (js "p")) (λ _, Some (js "p")).
(** The [n]-th law is filed at the instant [n]. *)
Definition files (n : nat) : GovEvent := LawProposed (call_at n) MANAGER (tag n) (js "incident").
Definition FILED (n : nat) : list GovEvent := ManagerAdded MANAGER :: (files <$> seq 0 n).
Definition denies (n : nat) : GovEvent := HumanDecided (call_at 90) (tag n) false (Some (js "no")).
Abbreviation two_filed := (gov_after (FILED 2)).
Lemma two_filed_reached : gov_reached no_format Datatypes.id 1 two_filed.
Proof.
  apply (gov_next _ _ 0 (gov_after (FILED 1)) (files 1)); [apply (gov_next _ _ 0 (gov_after (FILED 0)) (files 0)); [by apply (gov_next _ _ 0 no_governance (ManagerAdded MANAGER)); [apply gov_first|]|]|];
    (split; [by vm_compute|apply (bool_decide_unpack _); vm_compute; exact I]).
Qed.
Lemma the_two_tables_are_one_queue_witness :
  (∀ m, p_entry <$> pendingOf two_filed m = take MAX_PENDING_PROPOSALS_PER_MANAGER (queue_of two_filed m)) ∧ queue_step (denies 0) (queue_of two_filed) (queue_of (gov_step no_format Datatypes.id two_filed (denies 0))).
Proof. apply (the_two_tables_are_one_queue no_format Datatypes.id 1 two_filed (denies 0)); [apply two_filed_reached|exact I]. Defined.
Definition first_filed : Proposal := mkProposal (tag 0) MANAGER (LawPayload (tag 0)) Pending (js "incident") None 0 None.
Lemma a_denial_always_lands_witness : ∃ t' ns i,
  decide_proposal no_format (call_at 90) (tag 0) false (Some (js "no")) two_filed = inr (t', (answered Denied (Some (js "no")) 90 first_filed, ns))
  ∧ queue_of two_filed MANAGER !! i = Some (p_entry first_filed) ∧ queue_of t' MANAGER = base.delete i (queue_of two_filed MANAGER) ∧ p_entry <$> pendingOf t' MANAGER = take MAX_PENDING_PROPOSALS_PER_MANAGER (queue_of t' MANAGER).
Proof.
  apply (a_denial_always_lands no_format Datatypes.id 1 two_filed (call_at 90) MANAGER first_filed (js "no") (js "no")); [apply two_filed_reached| |by vm_compute].
  replace (pendingOf two_filed MANAGER) with [first_filed; mkProposal (tag 1) MANAGER (LawPayload (tag 1)) Pending (js "incident") None 1 None] by (by vm_compute). apply list_elem_of_here.
Defined.
Lemma filing_is_exact_witness :
  ∃ t' ns, enqueueUnlessDuplicate (call_at 2) MANAGER (js "incident") (LawPayload (tag 2)) two_filed = inr (t', (mkFiled (tag 2) false (inl Pending) 0, ns))
    ∧ queue_of t' MANAGER = queue_of two_filed MANAGER ++ [(tag 2, LawPayload (tag 2), js "incident", 2%Z)].
Proof.
  destruct (filing_is_exact no_format Datatypes.id 1 two_filed (call_at 2) MANAGER (js "incident") (LawPayload (tag 2))) as (_&_&H); [apply two_filed_reached|by vm_compute|apply (bool_decide_unpack _); vm_compute; exact I|by vm_compute|by vm_compute|].
  apply H; [apply (bool_decide_unpack _); vm_compute; exact I|vm_compute; lia].
Defined.

(** * Where laws and grants come from

    What the events of [Governance] write in the laws and in the grants: each goes back to a decision of a human (or to an import), and laws only move forward. *)
(** ** What is written *)
(** What a grant gives and what a law says, without the proposal they came from, which is forgotten when it is evicted. *)
Definition grant_core (g : ResourceGrant) : str * ResourceType * str * str * ResourceAccess := (g_managerId g, g_resourceType g, g_resourceId g, g_role g, g_access g).
Definition law_core (l : Law) : str * str * str := (law_id l, law_managerId l, law_text l).
(** Every grant and every law was there, or is one that may be written. *)
Definition writes_only (G : ResourceGrant → Prop) (L : Law → Prop) (t t' : governance) : Prop :=
  (∀ g, g ∈ grants t' → (∃ g0, g0 ∈ grants t ∧ grant_core g0 = grant_core g) ∨ ∃ g0, grant_core g0 = grant_core g ∧ G g0)
  ∧ (∀ l, l ∈ laws t' → (∃ l0, l0 ∈ laws t ∧ law_core l0 = law_core l) ∨ ∃ l0, law_core l0 = law_core l ∧ L l0).
#[export] Instance writes_only_preorder G L : PreOrder (writes_only G L).
Proof.
  split.
  - intros t. split; intros x Hx; left; by exists x.
  - intros t1 t2 t3 [A1 A2] [B1 B2]. split.
    + intros g Hg. destruct (B1 g Hg) as [(g0&Hg0&E)|?]; [|by right]. destruct (A1 g0 Hg0) as [(g1&Hg1&E1)|(g1&E1&H1)]; [left|right]; exists g1; (split; [|congruence || done]); [done|congruence].
    + intros l Hl. destruct (B2 l Hl) as [(l0&Hl0&E)|?]; [|by right]. destruct (A2 l0 Hl0) as [(l1&Hl1&E1)|(l1&E1&H1)]; [left|right]; exists l1; (split; [|congruence || done]); [done|congruence].
Qed.
Section Writes.
Variable G : ResourceGrant → Prop.
Variable L : Law → Prop.
Local Abbreviation only := (preserves (writes_only G L)).
Lemma wo_same t t' : grants t' = grants t → laws t' = laws t → writes_only G L t t'.
Proof. intros Hg Hl. split; intros x; rewrite ?Hg, ?Hl; intros Hx; left; by exists x. Qed.
#[local] Hint Extern 1 (preserves (writes_only _ _) (writes _)) => (apply preserves_writes; intros ?; by apply wo_same) : tx.
Lemma wo_delete ids t : writes_only G L t (deleteProposals ids t).
Proof. split; intros x Hx; left; apply list_elem_of_fmap in Hx as (x0&->&Hx0); by exists x0. Qed.
#[export] Instance wo_statements : KeepsStatements (writes_only G L).
Proof.
  split; intros.
  - unfold insertProposal. tx_preserves.
  - unfold insertWaiting. tx_preserves.
  - tx_preserves.
  - unfold deleteWaitingOf. tx_preserves.
  - unfold answerIfPending. tx_preserves.
  - unfold evictOldestBeyond. tx_preserves. apply preserves_writes. intros t. apply wo_delete.
  - apply preserves_writes. intros t. destruct (has_own _ _); by apply wo_same.
Qed.
(** The writes themselves. *)
Lemma wo_insertLaw l : L l → only (insertLaw l).
Proof.
  intros Hl. unfold insertLaw. apply preserves_bind; [apply _|eauto with tx typeclass_instances|]. intros []; [|eauto with tx typeclass_instances]. apply preserves_writes. intros t. split; intros x Hx; [left; by exists x|].
  apply elem_of_app in Hx as [Hx| ->%list_elem_of_singleton]; [left; by exists x|right; by exists l].
Qed.
Lemma wo_update_laws c f : (∀ l, c l = true → law_core (f l) = law_core l ∨ L (f l)) → only (update_laws c f).
Proof.
  intros Hf. unfold update_laws. apply preserves_bind; [apply _|eauto with tx typeclass_instances|]. intros n. apply preserves_bind; [apply _|eauto with tx typeclass_instances|]. intros []; [|eauto with tx typeclass_instances].
  apply preserves_bind; [apply _| |eauto with tx typeclass_instances]. apply preserves_writes. intros t. split; intros x Hx; [left; by exists x|]. apply list_elem_of_fmap in Hx as (l&->&Hl).
  destruct (c l) eqn:E; [|left; by exists l]. destruct (Hf l E) as [He|HL]; [left; by exists l|right; by eexists].
Qed.
Lemma wo_upsert g : G g → only (upsertGrant g).
Proof.
  intros Hg. unfold upsertGrant. apply preserves_bind; [apply _|eauto with tx typeclass_instances|]. intros []; [eauto with tx typeclass_instances|]. cbv zeta. apply preserves_writes. intros t. destruct (existsb _ _).
  - split; intros x Hx; [|left; by exists x]. apply list_elem_of_fmap in Hx as (g0&->&Hg0). destruct (is_grant_on _ _ _ _) eqn:E; [|left; by exists g0]. right. exists g. split; [|done].
    unfold is_grant_on in E. rewrite !andb_true_iff, !str_eqb_eq, bool_decide_eq_true in E. destruct E as [[E1 E2] E3]. unfold grant_core. cbn. congruence.
  - split; intros x Hx; [|left; by exists x]. apply elem_of_app in Hx as [Hx| ->%list_elem_of_singleton]; [left; by exists x|right; by exists g].
Qed.
End Writes.

(** ** Who decides *)
Section Service.
Variable isFormat : N → bool.
Variable maskedSecrets : str → str.
Local Abbreviation step := (gov_step isFormat maskedSecrets).
Local Abbreviation after_events := (governance_after isFormat maskedSecrets).
(** The acts that give a law its text: a human approves a pending proposal of its manager with that text, or edits it; an import brings it. *)
Definition enacts (e : GovEvent) (t : governance) (l : Law) : Prop :=
  match e with
  | HumanDecided _ id true _ => ∃ p, p ∈ proposals t ∧ p_id p = id ∧ p_status p = Pending ∧ p_managerId p = law_managerId l ∧ p_payload p = LawPayload (law_text l)
  | HumanEditedLaw _ id text _ => id = law_id l ∧ storedLawText isFormat maskedSecrets text = Some (law_text l)
  | LawImported id m text _ _ _ _ => id = law_id l ∧ m = law_managerId l ∧ text = law_text l
  | LawReimported id text _ _ => id = law_id l ∧ text = law_text l
  | _ => False
  end.
(** The act that gives a grant: a human approves a pending request of its manager, for a resource that is in its project then. *)
Definition gives (e : GovEvent) (t : governance) (g : ResourceGrant) : Prop :=
  match e with
  | HumanDecided call id true _ =>
      ∃ p, p ∈ proposals t ∧ p_id p = id ∧ p_status p = Pending ∧ p_managerId p = g_managerId g ∧ p_payload p = ResourceAccessPayload (g_resourceType g) (g_resourceId g) (g_access g) (g_role g)
        ∧ isInManagerProject call (g_managerId g) (g_resourceType g) (g_resourceId g) = true
  | _ => False
  end.
Lemma grant_written e call reason p t t1 t2 u : e = HumanDecided call (p_id p) true reason → p ∈ proposals t → p_status p = Pending →
  recordGrantOfApproved call (answered Approved None (gc_now call) p) t1 = inr (t2, u) → writes_only (gives e t) (enacts e t) t1 t2.
Proof.
  intros -> Hp Hs H. unfold recordGrantOfApproved in H. cbn [p_payload p_managerId p_id answered] in H. destruct (p_payload p) as [text|a s c x|ty id acc role] eqn:Ep; [by apply ret_inr in H as [-> _]..|].
  apply bind_inr in H as (t3&u3&H3&H). unfold requireResourceOfManagerProject in H3. destruct (isInManagerProject call (p_managerId p) ty id) eqn:Ei; [|done]. apply ret_inr in H3 as [-> _].
  eapply wo_upsert; [|exact H]. cbn. exists p. by rewrite Ep.
Qed.
Lemma law_written e call reason p t t1 t2 o : e = HumanDecided call (p_id p) true reason → p ∈ proposals t → p_status p = Pending →
  recordLawOfApproved call (answered Approved None (gc_now call) p) t1 = inr (t2, o) → writes_only (gives e t) (enacts e t) t1 t2.
Proof.
  intros -> Hp Hs H. unfold recordLawOfApproved in H. cbn [p_payload p_managerId p_id answered] in H. destruct (p_payload p) as [text|a s c x|ty id acc role] eqn:Ep; [|by apply ret_inr in H as [-> _]..].
  apply bind_inr in H as (t3&u3&H3&H). apply reads_inr in H as [-> _]. eapply wo_insertLaw; [|exact H3]. cbn. exists p. by rewrite Ep.
Qed.
Lemma decide_writes call id b reason t t' r : NoDup (pids t) → decide_proposal isFormat call id b reason t = inr (t', r) → let e := HumanDecided call id b reason in writes_only (gives e t) (enacts e t) t t'.
Proof.
  intros Hn H e. unfold decide_proposal in H. apply bind_inr in H as (t1&shown&H1&H). assert (t1 = t) as ->.
  { destruct reason; [|by apply ret_inr in H1 as [-> _]]. apply bind_inr in H1 as (t2&x&[-> _]%valid_inr&H1). by apply ret_inr in H1 as [-> _]. }
  clear H1. apply bind_inr in H as (t1&den&H1&H). assert (t1 = t ∧ (b = true → den = None)) as [-> Hden].
  { destruct b; [by apply ret_inr in H1 as [-> ->]|]. apply bind_inr in H1 as (t2&x&[-> _]%valid_inr&H1). by apply ret_inr in H1 as [-> _]. }
  clear H1. apply bind_inr in H as (t1&u&H1&H). pose proof (keeps_answer (writes_only (gives e t) (enacts e t)) _ _ _ _ _ _ _ H1) as W1. apply answer_inr in H1 as [Hone ->].
  apply bind_inr in H as (t1&o&[-> ->]%reads_inr&H). destruct (answered_exists _ _ Hone) as (p&Hp&Hi&Hs). rewrite (answer_find _ _ _ _ _ p) in H by done.
  apply bind_inr in H as (t2&en&H2&H). apply bind_inr in H as (t3&rel&Hr&H). apply ret_inr in H as [-> _]. etrans; [exact W1|]. etrans; [|by eapply (keeps_releases (writes_only _ _))]. destruct b.
  - rewrite (Hden eq_refl) in H2. apply bind_inr in H2 as (ta&ua&Ha&H2). apply bind_inr in H2 as (tb&lb&Hb&H2). apply bind_inr in H2 as (tc&uc&Hc&H2). apply ret_inr in H2 as [-> _]. subst id.
    etrans; [exact (grant_written e call reason p t _ _ ua eq_refl Hp Hs Ha)|]. etrans; [exact (law_written e call reason p t _ _ lb eq_refl Hp Hs Hb)|]. by eapply (keeps_audit (writes_only _ _)).
  - apply bind_inr in H2 as (ta&ua&Ha&H2). apply ret_inr in H2 as [-> _]. by eapply (keeps_denials (writes_only _ _)).
Qed.
Lemma step_writes t e : NoDup (pids t) → writes_only (gives e t) (enacts e t) t (step t e).
Proof.
  intros Hn. pose proof (keeps_filings (writes_only (gives e t) (enacts e t)) isFormat maskedSecrets) as W.
  destruct e; cbn [gov_step]; [|apply (after_keeps _ _ (writes_only _ _ t)); [reflexivity|intros t' r H]..].
  - destruct (has_own _ _); by apply wo_same.
  - destruct (W call managerId) as (V&_&_). by eapply V.
  - destruct (W call managerId) as (_&V&_). by eapply V.
  - destruct (W call managerId) as (_&_&V). by eapply V.
  - by eapply (keeps_withdraw (writes_only _ _)).
  - by eapply decide_writes.
  - unfold editLaw, changeLaw in H. apply bind_inr in H as (t1&x&[-> Hx]%valid_inr&H). apply bind_inr in H as (t1&l&H1&H). apply ret_inr in H as [-> _]. apply bind_inr in H1 as (t2&b&H2&H1).
    apply bind_inr in H1 as (t3&o&[-> ->]%reads_inr&H1). assert (t1 = t2) as ->. { destruct (findLaw t2 lawId); destruct b; try done; [by apply ret_inr in H1 as [-> _]|]. by destruct (bool_decide _). }
    unfold replaceTextIfRevision in H2. eapply wo_update_laws; [|exact H2]. intros l0 [[He%str_eqb_eq _]%andb_true_iff _]%andb_true_iff. right. by cbn.
  - unfold withdrawLaw, changeLaw in H. apply bind_inr in H as (t1&l&H1&H). apply ret_inr in H as [-> _]. apply bind_inr in H1 as (t2&b&H2&H1).
    apply bind_inr in H1 as (t3&o&[-> ->]%reads_inr&H1). assert (t1 = t2) as ->. { destruct (findLaw t2 lawId); destruct b; try done; [by apply ret_inr in H1 as [-> _]|]. by destruct (bool_decide _). }
    unfold withdrawIfRevision in H2. eapply wo_update_laws; [|exact H2]. intros l0 _. by left.
  - unfold insertFromImport in H. eapply wo_insertLaw; [|exact H]. by cbn.
  - unfold replaceTextFromImport in H. eapply wo_update_laws; [|exact H]. intros l0 [[He%str_eqb_eq _]%andb_true_iff _]%andb_true_iff. right. by cbn.
Qed.
(** C16. Laws and grants were decided by a human: after any history, what a law says was brought by an import, written by a human who edited it, or the text of a proposal of its manager that was pending when a human approved it; and every
    grant is what a request of its manager asked for, pending when a human approved it, on a table or a note that was then in the project of the manager. *)
Theorem laws_and_grants_were_decided_by_a_human es :
  (∀ l, l ∈ laws (after_events es) → ∃ es1 e es2 l0, es = es1 ++ e :: es2 ∧ law_core l0 = law_core l ∧ enacts e (after_events es1) l0)
  ∧ (∀ g, g ∈ grants (after_events es) → ∃ es1 e es2 g0, es = es1 ++ e :: es2 ∧ grant_core g0 = grant_core g ∧ gives e (after_events es1) g0).
Proof.
  induction es as [|e es [IHl IHg]] using rev_ind; [split; intros x Hx; by apply elem_of_nil in Hx|]. destruct (step_writes (after_events es) e (di_pids _ (reached_disciplined isFormat maskedSecrets es))) as [Hg Hl].
  assert (after_events (es ++ [e]) = step (after_events es) e) as -> by (unfold governance_after; by rewrite fold_left_app). split.
  - intros l Hin. destruct (Hl l Hin) as [(l0&Hl0&E)|(l0&E&He)]; [|by exists es, e, [], l0]. destruct (IHl l0 Hl0) as (es1&e1&es2&l1&->&E1&He1). exists es1, e1, (es2 ++ [e]), l1. split_and!; [by rewrite <- app_assoc|congruence|done].
  - intros g Hin. destruct (Hg g Hin) as [(g0&Hg0&E)|(g0&E&He)]; [|by exists es, e, [], g0]. destruct (IHg g0 Hg0) as (es1&e1&es2&g1&->&E1&He1). exists es1, e1, (es2 ++ [e]), g1. split_and!; [by rewrite <- app_assoc|congruence|done].
Qed.
End Service.

(** ** Laws only move forward *)
(** What may become of a law: it keeps its name, its manager and its source, its revision grows with every change, and once withdrawn it stays as it is. *)
Definition law_moved (l l' : Law) : Prop :=
  law_id l' = law_id l ∧ law_managerId l' = law_managerId l ∧ law_source l' = law_source l ∧ law_createdAt l' = law_createdAt l ∧ approvedBy l' = approvedBy l ∧ (law_revision l ≤ law_revision l')%Z
  ∧ (law_revision l' = law_revision l → law_text l' = law_text l ∧ law_status l' = law_status l) ∧ (law_status l = LawWithdrawn → law_revision l' = law_revision l).
#[export] Instance law_moved_preorder : PreOrder law_moved.
Proof.
  split.
  - intros l. unfold law_moved. split_and!; done || lia.
  - intros l1 l2 l3 (A1&A2&A3&A4&A5&A6&A7&A8) (B1&B2&B3&B4&B5&B6&B7&B8). unfold law_moved. split_and!; try congruence; [lia| |].
    + intros H. assert (law_revision l2 = law_revision l1) as H2 by lia. destruct (A7 H2), (B7 ltac:(lia)). split; congruence.
    + intros H. assert (law_revision l2 = law_revision l1) as H2 by auto. destruct (A7 H2) as [_ Hs]. rewrite <- H2. apply B8. congruence.
Qed.
Definition laws_forward (t t' : governance) : Prop := ∀ l, l ∈ laws t → ∃ l', l' ∈ laws t' ∧ law_moved l l'.
#[export] Instance laws_forward_preorder : PreOrder laws_forward.
Proof.
  split.
  - intros t l Hl. exists l. by split.
  - intros t1 t2 t3 A B l Hl. destruct (A l Hl) as (l2&Hl2&M2), (B l2 Hl2) as (l3&Hl3&M3). exists l3. split; [done|by etrans].
Qed.
Lemma forward_same t t' : laws t' = laws t → laws_forward t t'.
Proof. intros E l Hl. exists l. split; [by rewrite E|reflexivity]. Qed.
#[local] Hint Extern 1 (preserves laws_forward (writes _)) => (apply preserves_writes; intros ?; by apply forward_same) : tx.
#[export] Instance forward_statements : KeepsStatements laws_forward.
Proof.
  split; intros.
  - unfold insertProposal. tx_preserves.
  - unfold insertWaiting. tx_preserves.
  - tx_preserves.
  - unfold deleteWaitingOf. tx_preserves.
  - unfold answerIfPending. tx_preserves.
  - unfold evictOldestBeyond. tx_preserves. apply preserves_writes. intros t l Hl. eexists. split; [cbn; by apply list_elem_of_fmap_2|]. unfold law_moved. cbn. split_and!; done || lia.
  - apply preserves_writes. intros t. destruct (has_own _ _); by apply forward_same.
Qed.
Lemma forward_update c f : (∀ l, c l = true → law_moved l (f l)) → preserves laws_forward (update_laws c f).
Proof.
  intros Hf. unfold update_laws. tx_preserves. apply preserves_writes. intros t l Hl. exists (if c l then f l else l). split; [by apply (list_elem_of_fmap_2 (λ l, if c l then f l else l))|]. destruct (c l) eqn:E; [by apply Hf|reflexivity].
Qed.
#[export] Instance forward_writes : KeepsWrites laws_forward.
Proof.
  split; intros.
  - unfold insertLaw. tx_preserves. apply preserves_writes. intros t x Hx. exists x. split; [apply elem_of_app; by left|reflexivity].
  - unfold upsertGrant. tx_preserves. apply preserves_writes. intros t. destruct (existsb _ _); by apply forward_same.
  - apply forward_update. intros l [_ Ha%bool_decide_eq_true]%andb_true_iff. unfold law_moved. cbn. split_and!; try done; [lia|lia|congruence].
  - apply forward_update. intros l [_ Ha%bool_decide_eq_true]%andb_true_iff. unfold law_moved. cbn. split_and!; try done; [lia|lia|congruence].
  - apply forward_update. intros l [[_ Ha%bool_decide_eq_true]%andb_true_iff _]%andb_true_iff. unfold law_moved. cbn. split_and!; try done; [lia|lia|congruence].
Qed.
(** Whatever happens later, a law stays in the table under its manager, its revision tells every change of its text or its status, and a withdrawn law never changes again. *)
Theorem laws_only_move_forward isFormat maskedSecrets es es' : laws_forward (governance_after isFormat maskedSecrets es) (governance_after isFormat maskedSecrets (es ++ es')).
Proof.
  unfold governance_after. rewrite fold_left_app. generalize (fold_left (gov_step isFormat maskedSecrets) es no_governance). induction es' as [|e es' IH]; intros t; [reflexivity|]. cbn. etrans; [|apply IH].
  apply (keeps_step laws_forward). intros m. by apply forward_same.
Qed.

(** ** Laws from end to end *)
Definition approves (n : nat) : GovEvent := HumanDecided (call_at 91) (tag n) true None.
(** The eleventh proposal waits, and takes the place of the one that is answered; a law is enacted only by the approval. *)
Example the_eleventh_proposal_waits :
  ((p_id <$> pendingOf (gov_after (FILED 12)) MANAGER), (w_id <$> listWaitingOf (gov_after (FILED 12)) MANAGER)) = (tag <$> seq 0 10, [tag 10; tag 11])
  ∧ ((p_id <$> pendingOf (gov_after (FILED 12 ++ [denies 3])) MANAGER), (w_id <$> listWaitingOf (gov_after (FILED 12 ++ [denies 3])) MANAGER)) = (tag <$> [0; 1; 2; 4; 5; 6; 7; 8; 9; 10], [tag 11])
  ∧ (law_text <$> laws (gov_after (FILED 12 ++ [denies 3; approves 10; denies 11]))) = [tag 10].
Proof. by vm_compute. Qed.
(** A filing that waits is told of the last row by date: when the clock went back, that row is another proposal. *)
Example a_clock_that_goes_back_answers_for_another_proposal :
  ∃ t' f ns, enqueueUnlessDuplicate (mkGovCall 5 5 (js "late") (λ _, None) (λ _, None) (λ _, None)) MANAGER (js "incident") (LawPayload (js "late")) (gov_after (FILED 12)) = inr (t', (f, ns))
    ∧ filed_id f = tag 11 ∧ w_id <$> listWaitingOf t' MANAGER = [js "late"; tag 10; tag 11].
Proof. eexists _, _, _. split; [by vm_compute|]. by vm_compute. Qed.
