(* ===== verification/DataStore.v ===== *)
(** * Data stores

    Models of [packages/core/src/stores/rowGuard.ts], [dataStoreRepository.ts] and [dataStoreService.ts], with the types of
    [packages/shared/src/dataStores.ts]: the tables agents and humans keep, their columns, rows and views, and the history of every row.  A value is
    a tree of [json], as the routes parse it; its numbers are integers.  In the cells a caller sends, [None] is [undefined].  A date is the text the clock gives.
    The id of a history entry, which nothing reads, and the observers told after a commit are left out. *)
From S2P Require Import Prelude Transaction JsText Regex PolicyTypes PolicyDocument JsDate PlaybookKernel SecretMasker TableSource.
Local Open Scope nat_scope.

Definition MAX_CELL_BYTES : nat := 64 * 1024.
Definition MAX_ROWS_PER_STORE : nat := 10 * 1000.
Definition MAX_VIEW_CONFIG_BYTES : nat := 16 * 1024.
Definition MAX_SELECT_OPTIONS : nat := 500.
Definition FIRST_ROW_REV : nat := 1.

(** ** Data *)
Inductive ColumnType := TextColumn | NumberColumn | DateColumn | SelectColumn | JsonColumn.
Inductive ColumnFormat := DatetimeFormat | LongTextFormat | UrlFormat | RankFormat.
#[export] Instance ColumnType_eq_dec : EqDecision ColumnType.
Proof. solve_decision. Defined.
#[export] Instance ColumnFormat_eq_dec : EqDecision ColumnFormat.
Proof. solve_decision. Defined.
Definition COLUMN_TYPE_BY_FORMAT (f : ColumnFormat) : ColumnType :=
  match f with DatetimeFormat => DateColumn | LongTextFormat | UrlFormat => TextColumn | RankFormat => NumberColumn end.
Record SelectOption := mkOption { opt_id : str; opt_label : str; opt_color : option str }.
Record ColumnConfig := mkConfig { symbol : option str; decimals : option Z; ratingMax : option Z; ratingIcon : option str }.
(** [{ mode: 'wrap', maxLines }] *)
Inductive ColumnWrap := Wrapped (maxLines : option Z).
(** [col_auto]: the column has [autoValue: 'created_at']. *)
Record DsColumn := mkColumn
  { col_id : str; col_storeId : str; col_name : str; col_type : ColumnType; col_format : option ColumnFormat; col_options : option (list SelectOption); col_order : nat; col_auto : bool;
    col_required : bool; col_display : option str; col_config : option ColumnConfig; col_width : option Z; col_wrap : option ColumnWrap; col_createdAt : str }.
Record DataStoreRecord := mkStore { st_id : str; st_projectId : str; st_name : str; st_naturalKey : option str; st_createdAt : str; st_updatedAt : str }.
Record DsRow := mkRow { row_id : str; row_storeId : str; row_data : rec json; row_rev : nat; row_createdAt : str; row_updatedAt : str }.
Inductive RowActorKind := Human | Agent | TriggerActor.
#[export] Instance RowActorKind_eq_dec : EqDecision RowActorKind.
Proof. solve_decision. Defined.
Record RowActor := mkActor { actor_kind : RowActorKind; actor_label : str }.
Record HistoryRow := mkHistory { h_seq : nat; h_storeId : str; h_rowId : str; h_actor : RowActor; h_change : DsRowChange; h_createdAt : str }.
Inductive WhereOp := OpEq | OpNeq | OpGt | OpGte | OpLt | OpLte | OpContains | OpIn.
Record WhereClause := mkWhere { where_column : str; where_op : WhereOp; where_value : json }.
Record OrderTerm := mkOrder { order_column : str; ascending : bool }.
Inductive ViewType := GridView | KanbanView.
#[export] Instance ViewType_eq_dec : EqDecision ViewType.
Proof. solve_decision. Defined.
Record DsViewConfig := mkViewConfig
  { cfg_where : option (list WhereClause); cfg_orderBy : option (list OrderTerm); cfg_groupBy : option str; cfg_cardTitle : option str; cfg_cardFields : option (list str);
    cfg_columnOrder : option (list str); cfg_showUngrouped : option bool }.
Record DsView := mkView { v_id : str; v_storeId : str; v_name : str; v_type : ViewType; v_config : DsViewConfig; v_order : nat; v_createdAt : str }.
Record Project := mkProject { row_guard_enabled : bool; shared_repo : bool }.
(** [ds_logs] is the log store of each manager that has one; [ds_seq] the last number the history gave, which is never given again. *)
Record datastores := mkStores
  { ds_projects : rec Project; ds_logs : list str; ds_stores : list DataStoreRecord; ds_columns : list DsColumn; ds_rows : list DsRow; ds_history : list HistoryRow; ds_views : list DsView; ds_seq : nat }.
Definition set_stores (v : list DataStoreRecord) (t : datastores) : datastores := mkStores (ds_projects t) (ds_logs t) v (ds_columns t) (ds_rows t) (ds_history t) (ds_views t) (ds_seq t).
Definition set_columns (v : list DsColumn) (t : datastores) : datastores := mkStores (ds_projects t) (ds_logs t) (ds_stores t) v (ds_rows t) (ds_history t) (ds_views t) (ds_seq t).
Definition set_rows (v : list DsRow) (t : datastores) : datastores := mkStores (ds_projects t) (ds_logs t) (ds_stores t) (ds_columns t) v (ds_history t) (ds_views t) (ds_seq t).
Definition set_views (v : list DsView) (t : datastores) : datastores := mkStores (ds_projects t) (ds_logs t) (ds_stores t) (ds_columns t) (ds_rows t) (ds_history t) v (ds_seq t).

Inductive StoreError :=
  | StoreNotFound | DuplicateName | RowNotFound | UnknownColumn (ids : list str) | InvalidCellValue (columnId : str) | InvalidName | InvalidColumnDefinition | InvalidQuery
  | NoNaturalKey | AmbiguousNaturalKey | NaturalKeyMissing | NaturalKeyOnSeveralRows | NaturalKeyNotFound | DaemonSetColumn | InvalidViewConfig | DuplicateId | ConstraintError
  | ReferencedRecordMissing | NaturalKeyConflict | NaturalKeyNotUnique | ViewNotFound | StoreHasRows (count : nat) | ColumnIsNaturalKey | ColumnUsedByView | ColumnIsDisplayColumn
  | OptionsHeldByRows | ColumnOrderMismatch | StoreRowCap | LogKindNotAllowed | BacklogWriteRefused | JournalShortened | DoneWithoutPrUrl | StaleRevision (currentRev : nat).
Abbreviation Sx := (Txn datastores StoreError).
(** A call that reads and may throw. *)
Definition check {A} (f : datastores → StoreError + A) : Sx A := λ t, match f t with inl e => inl e | inr a => inr (t, a) end.
(** [if (bad) throw e] *)
Definition refuse_when (bad : datastores → bool) (e : StoreError) : Sx unit := check (λ t, if bad t then inl e else inr ()).

(** ** Order
    [sort] of a list by a comparison ([ORDER BY], or [Array.prototype.sort]): stable, for a comparison that is an order. *)
Fixpoint insert_with {A} (cmp : A → A → comparison) (x : A) (l : list A) : list A :=
  match l with [] => [x] | y :: l' => match cmp x y with Lt => x :: l | _ => y :: insert_with cmp x l' end end.
Definition sort_with {A} (cmp : A → A → comparison) (l : list A) : list A := fold_left (λ acc x, insert_with cmp x acc) l [].
Definition compare_text (a b : str) : comparison := if str_ltb a b then Lt else if str_ltb b a then Gt else Eq.
Definition then_by (c d : comparison) : comparison := match c with Eq => d | _ => c end.

(** ** Values *)
(** [isDeepStrictEqual] of values read from JSON: the order of the keys of an object does not matter. *)
Fixpoint same_json (a b : json) : bool :=
  match a, b with
  | JNull, JNull => true
  | JBool x, JBool y => Bool.eqb x y
  | JNum x, JNum y => Z.eqb x y
  | JStr x, JStr y => str_eqb x y
  | JArr x, JArr y => (fix go x y := match x, y with [], [] => true | v :: x', w :: y' => same_json v w && go x' y' | _, _ => false end) x y
  | JObj x, JObj y => Nat.eqb (length x) (length y) && (fix go x := match x with [] => true | (k, v) :: x' => match get y k with Some w => same_json v w | None => false end && go x' end) x
  | _, _ => false
  end.
Fixpoint stringify_json (v : json) : str :=
  match v with
  | JNull => js "null"
  | JBool b => if b then js "true" else js "false"
  | JNum n => String_of_Z n
  | JStr s => json_string s
  | JArr l => js "[" ++ join comma (stringify_json <$> l) ++ js "]"
  | JObj fields => js "{" ++ join comma ((λ f, json_string f.1 ++ js ":" ++ stringify_json f.2) <$> fields) ++ js "}"
  end.
(** Half of a surrogate pair is written as U+FFFD, of three bytes. *)
Definition byteLength (s : str) : nat := sum_list_with (λ point, match code_of point with Some code => length (utf8_of code) | None => 3 end) (code_points s).
Definition exceedsCellByteCap (serialized : str) : bool := Nat.ltb MAX_CELL_BYTES (byteLength serialized).
Definition is_text_cell (v : json) : bool := match v with JStr _ => true | _ => false end.
Definition text_cell (v : json) : option str := match v with JStr s => Some s | _ => None end.
(** [data[id] ?? null] *)
Definition cell_of (data : rec json) (id : str) : json := default JNull (get data id).
Abbreviation cells := (rec (option json)).
(** [cells[id]] *)
Definition sent (c : cells) (id : str) : option json := mjoin (get c id).
(** [normalizeCells]: JSON drops an [undefined] cell. *)
Definition normalizeCells (c : cells) : rec json := omap (λ e, (λ v, (e.1, v)) <$> e.2) c.
Definition isEmptyCell (v : option json) : bool := match v with None | Some JNull => true | _ => false end.
(** [COLLATE NOCASE]: the letters of ASCII. *)
Definition nocase (s : str) : str := (λ c, if is_upper c then (c + 32)%N else c) <$> s.

(** *** Dates *)
Definition r_digit : re := RChr is_digit.
Definition r_unit (c : ascii) : re := RChr (N.eqb (chr c)).
Definition r_clock : re :=
  r_seq [r_unit "T"; r_digit; r_digit; r_unit ":"; r_digit; r_digit; r_opt (r_seq [r_unit ":"; r_digit; r_digit; r_opt (r_seq [r_unit "."; r_plus r_digit])])].
Definition r_zone : re := RAlt (r_unit "Z") (r_seq [RChr (one_of (js "+-")); r_digit; r_digit; r_unit ":"; r_digit; r_digit]).
Definition ISO_DATE : re :=
  r_seq [r_start; r_digit; r_digit; r_digit; r_digit; r_unit "-"; r_digit; r_digit; r_unit "-"; r_digit; r_digit; r_opt (r_seq [r_clock; r_opt r_zone]); r_end].
Definition TIME_WITH_OFFSET : re := r_seq [r_clock; r_zone; r_end].

Section Stores.
(** What the platform knows of Unicode and of dates ([Date.parse]; [None] is [NaN]). *)
Variable normalizeNFC : str → str.
Variable toLowerCase : str → str.
Variable dateParse : str → option Z.

Definition digits (v : str) (from to : nat) : Z := Z.of_N (Number_of (slice v from to)).
Definition isIsoDate (v : str) : bool :=
  re_test ISO_DATE v && bool_decide (is_Some (dateParse v)) &&
  (let year := digits v 0 4 in let month := digits v 5 7 in let day := digits v 8 10 in
   let calendarDay := UTC year (month - 1) day 0 0 in
   Z.eqb (getUTCFullYear calendarDay) year && Z.eqb (getUTCMonth calendarDay) (month - 1) && Z.eqb (getUTCDate calendarDay) day).
Definition option_ids (c : DsColumn) : list str := opt_id <$> default [] (col_options c).
Definition isValidCell (column : DsColumn) (v : json) : bool :=
  match v with
  | JNull => true
  | _ =>
      match col_type column, v with
      | TextColumn, JStr s => negb (exceedsCellByteCap s)
      | NumberColumn, JNum _ => true
      | DateColumn, JStr s => isIsoDate s && (negb (bool_decide (col_format column = Some DatetimeFormat)) || re_test TIME_WITH_OFFSET s)
      | SelectColumn, JStr s => mem_str s (option_ids column)
      | JsonColumn, _ => negb (exceedsCellByteCap (stringify_json v))
      | _, _ => false
      end
  end.

(** *** Comparing cells *)
Definition typeRank (v : json) : Z := match v with JNum _ => 0 | JStr _ => 1 | JBool _ => 2 | _ => 3 end.
Definition compareCells (column : DsColumn) (a b : json) : comparison :=
  match a, b with
  | JNum x, JNum y => Z.compare x y
  | JStr x, JStr y =>
      match (if bool_decide (col_type column = DateColumn) then (dateParse x, dateParse y) else (None, None)) with
      | (Some timeA, Some timeB) => Z.compare timeA timeB
      | _ => compare_text x y
      end
  | JBool x, JBool y => Z.compare (Z.b2z x) (Z.b2z y)
  | _, _ => Z.compare (typeRank a) (typeRank b)
  end.
Definition orderOf (column : DsColumn) (cell target : json) : option comparison :=
  match cell, target with
  | JNum x, JNum y => Some (Z.compare x y)
  | JStr x, JStr y =>
      if bool_decide (col_type column = DateColumn) then cellTime ← dateParse x; targetTime ← dateParse y; Some (Z.compare cellTime targetTime)
      else Some (compareCells column cell target)
  | _, _ => None
  end.
Definition matches (column : DsColumn) (cell : json) (clause : WhereClause) : bool :=
  match where_op clause with
  | OpEq => same_json cell (where_value clause)
  | OpNeq => negb (same_json cell (where_value clause))
  | OpIn => match where_value clause with JArr l => existsb (same_json cell) l | _ => false end
  | OpContains => match cell, where_value clause with JStr s, JStr p => includes (toLowerCase s) (toLowerCase p) | _, _ => false end
  | op =>
      match orderOf column cell (where_value clause), op with
      | None, _ => false
      | Some Gt, (OpGt | OpGte) | Some Eq, (OpGte | OpLte) | Some Lt, (OpLt | OpLte) => true
      | Some _, _ => false
      end
  end.

(** ** Reading the tables *)
Definition findStore (t : datastores) (id : str) : option DataStoreRecord := find (λ s, str_eqb (st_id s) id) (ds_stores t).
Definition findStoreByName (t : datastores) (projectId name : str) : option DataStoreRecord :=
  find (λ s, str_eqb (st_projectId s) projectId && str_eqb (nocase (st_name s)) (nocase name)) (ds_stores t).
Definition columns_of (t : datastores) (storeId : str) : list DsColumn := filter (λ c, col_storeId c = storeId) (ds_columns t).
(** [ORDER BY sort_order, created_at, id] *)
Definition listColumns (t : datastores) (storeId : str) : list DsColumn :=
  sort_with (λ a b, then_by (Nat.compare (col_order a) (col_order b)) (then_by (compare_text (col_createdAt a) (col_createdAt b)) (compare_text (col_id a) (col_id b)))) (columns_of t storeId).
Definition findColumnByName (t : datastores) (storeId name : str) : option DsColumn := find (λ c, str_eqb (nocase (col_name c)) (nocase name)) (columns_of t storeId).
Definition rows_of_store (t : datastores) (storeId : str) : list DsRow := filter (λ r, row_storeId r = storeId) (ds_rows t).
(** [ORDER BY created_at, rowid] *)
Definition listRows (t : datastores) (storeId : str) : list DsRow := sort_with (λ a b, compare_text (row_createdAt a) (row_createdAt b)) (rows_of_store t storeId).
Definition countRows (t : datastores) (storeId : str) : nat := length (rows_of_store t storeId).
Definition findRow (t : datastores) (rowId storeId : str) : option DsRow := find (λ r, str_eqb (row_id r) rowId && str_eqb (row_storeId r) storeId) (ds_rows t).
Definition listViews (t : datastores) (storeId : str) : list DsView :=
  sort_with (λ a b, then_by (Nat.compare (v_order a) (v_order b)) (then_by (compare_text (v_createdAt a) (v_createdAt b)) (compare_text (v_id a) (v_id b)))) (filter (λ v, v_storeId v = storeId) (ds_views t)).
Definition findView (t : datastores) (id : str) : option DsView := find (λ v, str_eqb (v_id v) id) (ds_views t).
Definition isRowGuardEnabled (t : datastores) (projectId : str) : bool := match get (ds_projects t) projectId with Some p => row_guard_enabled p | None => false end.
Definition isSharedRepo (t : datastores) (projectId : str) : bool := match get (ds_projects t) projectId with Some p => shared_repo p | None => false end.
Definition history_of (t : datastores) (storeId : str) : list HistoryRow := filter (λ h, h_storeId h = storeId) (ds_history t).
Definition latestSeq (t : datastores) (storeId : str) : nat := max_list (h_seq <$> history_of t storeId).
Definition changesAfter (t : datastores) (storeId : str) (afterSeq limit : nat) : list HistoryRow := take limit (filter (λ h, afterSeq < h_seq h) (history_of t storeId)).

(** *** Queries *)
Definition unknown_columns (columns : list DsColumn) (ids : list str) : list str := filter (λ id, mem_str id (col_id <$> columns) = false) ids.
Definition assertKnownColumns (columns : list DsColumn) (ids : list str) : StoreError + unit :=
  match unknown_columns columns ids with [] => inr () | unknown => inl (UnknownColumn unknown) end.
Definition columnById (columns : list DsColumn) (id : str) : option DsColumn := find (λ c, str_eqb (col_id c) id) columns.
Definition clause_holds (columns : list DsColumn) (row : DsRow) (clause : WhereClause) : bool :=
  match columnById columns (where_column clause) with Some column => matches column (cell_of (row_data row) (where_column clause)) clause | None => false end.
Fixpoint compare_rows (columns : list DsColumn) (orderBy : list OrderTerm) (a b : DsRow) : comparison :=
  match orderBy with
  | [] => Eq
  | term :: rest =>
      let cellA := get (row_data a) (order_column term) in let cellB := get (row_data b) (order_column term) in
      if negb (Bool.eqb (isEmptyCell cellA) (isEmptyCell cellB)) then (if isEmptyCell cellA then Gt else Lt)
      else
        let order := match columnById columns (order_column term) with Some column => compareCells column (default JNull cellA) (default JNull cellB) | None => Eq end in
        match order with Eq => compare_rows columns rest a b | _ => if ascending term then order else CompOpp order end
  end.
Definition runQuery (t : datastores) (storeId : str) (wheres : list WhereClause) (orderBy : list OrderTerm) (limit : option nat) : StoreError + list DsRow :=
  let referenced := (where_column <$> wheres) ++ (order_column <$> orderBy) in
  if mem_str [] referenced then inl InvalidQuery
  else
    let columns := listColumns t storeId in
    match assertKnownColumns columns referenced with
    | inl e => inl e
    | inr _ =>
        let filtered := filter (λ row, forallb (clause_holds columns row) wheres = true) (listRows t storeId) in
        let sorted := sort_with (compare_rows columns orderBy) filtered in
        inr (match limit with None => sorted | Some n => take n sorted end)
    end.

(** ** The row guard *)
Definition nameKey (name : str) : str := toLowerCase (trim (normalizeNFC name)).
Definition columnNamed (columns : list DsColumn) (name : str) : option DsColumn := find (λ c, str_eqb (nameKey (col_name c)) name) columns.
Definition optionIdLabelled (column : option DsColumn) (label : str) : option str :=
  c ← column; options ← col_options c; opt_id <$> find (λ o, str_eqb (nameKey (opt_label o)) label) options.
Definition textOf (cell : option json) : str := match cell with Some (JStr s) => normalizeNFC s | _ => [] end.
Definition touches (patch : cells) (column : option DsColumn) : bool := match column with Some c => bool_decide (is_Some (sent patch (col_id c))) | None => false end.
Definition resultingCell (current : DsRow) (patch : cells) (c : DsColumn) : option json := match sent patch (col_id c) with Some v => Some v | None => get (row_data current) (col_id c) end.
Definition holds_option (cell : option json) (id : option str) : bool := match cell, id with Some (JStr s), Some id => str_eqb s id | _, _ => false end.
Definition journal_kept (columns : list DsColumn) (current : DsRow) (patch : cells) : bool :=
  match columnNamed columns (js "journal") with
  | Some journal => negb (touches patch (Some journal)) || startsWith (textOf (sent patch (col_id journal))) (textOf (get (row_data current) (col_id journal)))
  | None => true
  end.
(** The cells of a row that is done without a [pr_url] and is not cancelled. *)
Definition done_without_url (columns : list DsColumn) (cell : DsColumn → option json) : bool :=
  match columnNamed columns (js "status"), columnNamed columns (js "pr_url") with
  | Some status, Some prUrl =>
      let step := columnNamed columns (js "step") in
      let isDone := holds_option (cell status) (optionIdLabelled (Some status) (js "done")) in
      let hasPrUrl := negb (bool_decide (trim (textOf (cell prUrl)) = [])) in
      let isCancelled := match step with Some s => holds_option (cell s) (optionIdLabelled step (js "cancelled")) | None => false end in
      isDone && negb hasPrUrl && negb isCancelled
  | _, _ => false
  end.
Definition rowGuardViolationOf (columns : list DsColumn) (current : DsRow) (patch : cells) : option StoreError :=
  if negb (journal_kept columns current patch) then Some JournalShortened
  else
    let touchesDoneRule := existsb (touches patch) [columnNamed columns (js "status"); columnNamed columns (js "pr_url"); columnNamed columns (js "step")] in
    if touchesDoneRule && done_without_url columns (resultingCell current patch) then Some DoneWithoutPrUrl else None.

(** ** Statements *)
Definition refuseMissingStore (storeId : str) : Sx unit := refuse_when (λ t, negb (bool_decide (is_Some (findStore t storeId)))) StoreNotFound.
Definition refuseUnknownColumns (storeId : str) (ids : list str) : Sx unit := check (λ t, assertKnownColumns (columns_of t storeId) ids).
Definition recordChange (storeId rowId : str) (actor : RowActor) (at_ : str) (change : DsRowChange) : Sx unit :=
  _ ← refuse_when (λ t, bool_decide (is_Some (findRow t rowId storeId)) && (bool_decide (actor_label actor = []) || bool_decide (rowId = []))) ConstraintError;
  _ ← refuse_when (λ t, negb (bool_decide (is_Some (findRow t rowId storeId)))) RowNotFound;
  writes (λ t, mkStores (ds_projects t) (ds_logs t) (ds_stores t) (ds_columns t) (ds_rows t) (ds_history t ++ [mkHistory (S (ds_seq t)) storeId rowId actor change at_]) (ds_views t) (S (ds_seq t))).
Definition update_store (id : str) (f : DataStoreRecord → DataStoreRecord) (t : datastores) : datastores := set_stores ((λ s, if str_eqb (st_id s) id then f s else s) <$> ds_stores t) t.
Definition repo_createStore (id projectId name at_ : str) : Sx unit :=
  _ ← refuse_when (λ t, bool_decide (is_Some (findStoreByName t projectId name))) DuplicateName;
  _ ← refuse_when (λ _, bool_decide (name = [])) ConstraintError;
  _ ← refuse_when (λ t, bool_decide (is_Some (findStore t id))) DuplicateId;
  _ ← refuse_when (λ t, negb (has_own (ds_projects t) projectId)) ReferencedRecordMissing;
  writes (λ t, set_stores (ds_stores t ++ [mkStore id projectId name None at_ at_]) t).
Definition setNaturalKeyColumn (storeId : str) (columnId : option str) (at_ : str) : Sx unit :=
  _ ← refuseMissingStore storeId;
  _ ← refuse_when (λ _, bool_decide (columnId = Some [])) ConstraintError;
  writes (update_store storeId (λ s, mkStore (st_id s) (st_projectId s) (st_name s) columnId (st_createdAt s) at_)).
Definition repo_addColumn (storeId id name : str) (type : ColumnType) (format : option ColumnFormat) (options : option (list SelectOption)) (auto : bool) (at_ : str) : Sx unit :=
  _ ← refuseMissingStore storeId;
  _ ← refuse_when (λ t, bool_decide (is_Some (findColumnByName t storeId name))) DuplicateName;
  _ ← refuse_when (λ _, bool_decide (name = [])) ConstraintError;
  _ ← refuse_when (λ t, mem_str id (col_id <$> ds_columns t)) DuplicateId;
  writes (λ t, set_columns (ds_columns t ++ [mkColumn id storeId name type format options (length (columns_of t storeId)) auto false None None None None at_]) t).
(** The rows, the columns, the views and the history go with the store; a manager whose log it was has none. *)
Definition repo_deleteStore (id : str) : Sx unit :=
  writes (λ t, mkStores (ds_projects t) (filter (λ s, s ≠ id) (ds_logs t)) (filter (λ s, st_id s ≠ id) (ds_stores t)) (filter (λ c, col_storeId c ≠ id) (ds_columns t))
    (filter (λ r, row_storeId r ≠ id) (ds_rows t)) (filter (λ h, h_storeId h ≠ id) (ds_history t)) (filter (λ v, v_storeId v ≠ id) (ds_views t)) (ds_seq t)).
Definition repo_insertView (storeId id name : str) (type : ViewType) (config : DsViewConfig) (at_ : str) : Sx unit :=
  _ ← refuseMissingStore storeId;
  _ ← refuse_when (λ t, existsb (λ v, str_eqb (v_storeId v) storeId && str_eqb (nocase (v_name v)) (nocase name)) (ds_views t)) DuplicateName;
  _ ← refuse_when (λ _, bool_decide (name = [])) ConstraintError;
  _ ← refuse_when (λ t, bool_decide (is_Some (findView t id))) DuplicateId;
  writes (λ t, set_views (ds_views t ++ [mkView id storeId name type config (length (filter (λ v, v_storeId v = storeId) (ds_views t))) at_]) t).
Definition repo_updateView (id : str) (config : DsViewConfig) : Sx unit :=
  writes (λ t, set_views ((λ v, if str_eqb (v_id v) id then mkView (v_id v) (v_storeId v) (v_name v) (v_type v) config (v_order v) (v_createdAt v) else v) <$> ds_views t) t).
Definition repo_deleteView (id : str) : Sx unit := writes (λ t, set_views (filter (λ v, v_id v ≠ id) (ds_views t)) t).
Record ColumnMetadata := mkMetadata { md_required : bool; md_format : option ColumnFormat; md_config : option ColumnConfig; md_display : option str; md_width : option Z; md_wrap : option ColumnWrap }.
Definition update_column (storeId columnId : str) (f : DsColumn → DsColumn) (t : datastores) : datastores :=
  set_columns ((λ c, if str_eqb (col_id c) columnId && str_eqb (col_storeId c) storeId then f c else c) <$> ds_columns t) t.
Definition between (lo hi n : Z) : bool := Z.leb lo n && Z.leb n hi.
Definition allowed_metadata (m : ColumnMetadata) : bool :=
  match md_width m with Some w => between 60 1200 w | None => true end && match md_wrap m with Some (Wrapped (Some n)) => between 1 100 n | _ => true end.
Definition with_metadata (name : str) (options : option (list SelectOption)) (m : ColumnMetadata) (c : DsColumn) : DsColumn :=
  mkColumn (col_id c) (col_storeId c) name (col_type c) (md_format m) options (col_order c) (col_auto c) (md_required m) (md_display m) (md_config m) (md_width m) (md_wrap m) (col_createdAt c).
Definition repo_updateColumn (storeId columnId name : str) (options : option (list SelectOption)) (m : ColumnMetadata) : Sx unit :=
  _ ← refuse_when (λ t, match findColumnByName t storeId name with Some c => negb (str_eqb (col_id c) columnId) | None => false end) DuplicateName;
  _ ← refuse_when (λ _, bool_decide (name = []) || negb (allowed_metadata m)) ConstraintError;
  writes (update_column storeId columnId (with_metadata name options m)).
Definition update_row (rowId storeId : str) (f : DsRow → DsRow) (t : datastores) : datastores :=
  set_rows ((λ r, if str_eqb (row_id r) rowId && str_eqb (row_storeId r) storeId then f r else r) <$> ds_rows t) t.
Definition clearCell (columnId : str) (actor : RowActor) (at_ : str) (row : DsRow) : Sx unit :=
  match get (row_data row) columnId with
  | None => mret ()
  | Some from =>
      _ ← writes (update_row (row_id row) (row_storeId row) (λ r, mkRow (row_id r) (row_storeId r) (del (row_data row) columnId) (S (row_rev r)) (row_createdAt r) at_));
      recordChange (row_storeId row) (row_id row) actor at_ (CellDiff [(columnId, (from, JNull))])
  end.
Definition with_order (n : nat) (c : DsColumn) : DsColumn :=
  mkColumn (col_id c) (col_storeId c) (col_name c) (col_type c) (col_format c) (col_options c) n (col_auto c) (col_required c) (col_display c) (col_config c) (col_width c) (col_wrap c) (col_createdAt c).
Definition repo_reorderColumns (storeId : str) (ids : list str) : Sx unit := each (λ e, writes (update_column storeId e.2 (with_order e.1))) (imap (λ position id, (position, id)) ids).
Definition repo_deleteColumn (storeId columnId : str) (actor : RowActor) (at_ : str) : Sx unit :=
  rows ← reads (λ t, listRows t storeId);
  _ ← each (clearCell columnId actor at_) rows;
  _ ← writes (λ t, set_columns (filter (λ c, ¬ (col_id c = columnId ∧ col_storeId c = storeId)) (ds_columns t)) t);
  ids ← reads (λ t, col_id <$> listColumns t storeId);
  repo_reorderColumns storeId ids.
Definition repo_insertRow (storeId id : str) (data : cells) (actor : RowActor) (at_ : str) : Sx DsRow :=
  let row := mkRow id storeId (normalizeCells data) FIRST_ROW_REV at_ at_ in
  _ ← refuseMissingStore storeId;
  _ ← refuseUnknownColumns storeId (row_data row).*1;
  _ ← refuse_when (λ t, mem_str id (row_id <$> ds_rows t)) DuplicateId;
  _ ← writes (λ t, set_rows (ds_rows t ++ [row]) t);
  _ ← recordChange storeId id actor at_ Creation;
  mret row.
Definition diffCells (current patch : rec json) : list (str * (json * json)) :=
  omap (λ e, let from := cell_of current e.1 in if same_json from e.2 then None else Some (e.1, (from, e.2))) patch.
Definition patched (current : DsRow) (patch : rec json) (at_ : str) : DsRow :=
  mkRow (row_id current) (row_storeId current) (spread (row_data current) patch) (S (row_rev current)) (row_createdAt current) at_.
Definition repo_updateRow (rowId storeId : str) (sentPatch : cells) (expectedRev : option nat) (actor : RowActor) (at_ : str) : Sx DsRow :=
  let patch := normalizeCells sentPatch in
  current ← check (λ t, match findRow t rowId storeId with Some r => inr r | None => inl RowNotFound end);
  _ ← refuse_when (λ _, match expectedRev with Some rev => negb (Nat.eqb rev (row_rev current)) | None => false end) (StaleRevision (row_rev current));
  _ ← refuseUnknownColumns storeId patch.*1;
  match diffCells (row_data current) patch with
  | [] => mret current
  | change =>
      _ ← writes (update_row rowId storeId (λ _, patched current patch at_));
      _ ← recordChange storeId rowId actor at_ (CellDiff change);
      mret (patched current patch at_)
  end.
Definition repo_deleteRow (rowId storeId : str) (actor : RowActor) (at_ : str) : Sx unit :=
  _ ← recordChange storeId rowId actor at_ Deletion;
  writes (λ t, set_rows (filter (λ r, ¬ (row_id r = rowId ∧ row_storeId r = storeId)) (ds_rows t)) t).

(** ** The checks of the service *)
Definition normalizeName (name : str) : Sx str := let normalized := trim (normalizeNFC name) in _ ← refuse_when (λ _, bool_decide (normalized = [])) InvalidName; mret normalized.
Definition authorize (storeId projectId : str) : Sx unit := refuse_when (λ t, negb (bool_decide (st_projectId <$> findStore t storeId = Some projectId))) StoreNotFound.
Definition requireColumn (storeId columnId : str) : Sx DsColumn := check (λ t, match columnById (listColumns t storeId) columnId with Some c => inr c | None => inl (UnknownColumn [columnId]) end).
Definition naturalKeyOf (t : datastores) (storeId : str) : option str := findStore t storeId ≫= st_naturalKey.
Definition query (storeId : str) (wheres : list WhereClause) (orderBy : list OrderTerm) (limit : option nat) : Sx (list DsRow) := check (λ t, runQuery t storeId wheres orderBy limit).
Definition keyed (columnId key : str) : WhereClause := mkWhere columnId OpEq (JStr key).
Definition refuseNaturalKeyHeldByAnotherRow (storeId rowId : str) (patch : cells) : Sx unit :=
  naturalKey ← reads (λ t, naturalKeyOf t storeId);
  match (columnId ← naturalKey; (λ v, (columnId, v)) <$> sent patch columnId) with
  | Some (columnId, JStr patchedKey) =>
      rowsHoldingKey ← query storeId [keyed columnId patchedKey] [] None;
      refuse_when (λ _, existsb (λ row, negb (str_eqb (row_id row) rowId)) rowsHoldingKey) NaturalKeyConflict
  | _ => mret ()
  end.
Definition assertRowCapacity (storeId : str) (additionalRows : nat) : Sx unit := refuse_when (λ t, Nat.ltb MAX_ROWS_PER_STORE (countRows t storeId + additionalRows)) StoreRowCap.
Definition daemonSetColumns (columns : list DsColumn) : list DsColumn := filter (λ c, col_auto c = true) columns.
Definition withDaemonSetCells (daemonSet : list DsColumn) (c : cells) (at_ : str) : cells := spread c ((λ col, (col_id col, Some (JStr at_))) <$> daemonSet).
Definition refuseDaemonSetCells (storeId : str) (patch : cells) : Sx unit :=
  refuse_when (λ t, existsb (λ col, bool_decide (is_Some (sent patch (col_id col)))) (daemonSetColumns (listColumns t storeId))) DaemonSetColumn.
Definition invalid_column (c : cells) (column : DsColumn) : bool := match sent c (col_id column) with Some v => negb (isValidCell column v) | None => false end.
Definition validateCells (columns : list DsColumn) (c : cells) : Sx unit :=
  _ ← check (λ _, assertKnownColumns columns c.*1);
  check (λ _, match find (invalid_column c) columns with Some column => inl (InvalidCellValue (col_id column)) | None => inr () end).
Definition MANAGER_LOG_KINDS : list str :=
  js <$> ["pulse"; "sleep"; "spawn"; "respawn"; "close"; "relay"; "pending_relay"; "fix"; "proposal"; "governance"; "event"; "verify"; "incident"; "decision"; "handover"; "openfleet"; "debloat"; "question"; "finding"; "blocked"]%string.
Definition isLogKindColumn (column : DsColumn) : bool := str_eqb (toLowerCase (trim (col_name column))) (js "kind").
Definition labelOfSelectedOption (column : DsColumn) (optionId : json) : json :=
  match optionId with JStr id => match find (λ o, str_eqb (opt_id o) id) (default [] (col_options column)) with Some o => JStr (opt_label o) | None => optionId end | _ => optionId end.
Definition isPermittedLogKind (kind : json) : bool := match kind with JStr k => mem_str k MANAGER_LOG_KINDS | _ => false end.
Definition refuseKindOutsideManagerLogList (storeId : str) (columns : list DsColumn) (c : cells) : Sx unit :=
  match (kindColumn ← find isLogKindColumn columns; (λ v, (kindColumn, v)) <$> sent c (col_id kindColumn)) with
  | None | Some (_, JNull) => mret ()
  | Some (kindColumn, writtenCell) =>
      let writtenKind := if bool_decide (col_type kindColumn = SelectColumn) then labelOfSelectedOption kindColumn writtenCell else writtenCell in
      if isPermittedLogKind writtenKind then mret () else refuse_when (λ t, mem_str storeId (ds_logs t)) LogKindNotAllowed
  end.
(** [replace(/\s+/g, ' ')] *)
Fixpoint squeeze_spaces (inside : bool) (s : str) : str :=
  match s with
  | [] => []
  | c :: s' => if is_space c then (if inside then squeeze_spaces true s' else chr " " :: squeeze_spaces true s') else c :: squeeze_spaces false s'
  end.
Definition storeNameKey (name : str) : str := toLowerCase (squeeze_spaces false (trim (normalizeNFC name))).
Definition BACKLOG_STORE_NAME_KEY : str := toLowerCase (js "Manager backlog").
Definition refuseInsertIntoSharedBacklog (storeId projectId : str) (actor : RowActor) (callerIsManager : bool) : Sx unit :=
  if negb (bool_decide (actor_kind actor = Agent)) || callerIsManager then mret ()
  else refuse_when (λ t, isSharedRepo t projectId && str_eqb (storeNameKey (from_option st_name [] (findStore t storeId))) BACKLOG_STORE_NAME_KEY) BacklogWriteRefused.
Definition refuseRowGuardViolation (storeId rowId projectId : str) (patch : cells) : Sx unit :=
  check (λ t, if isRowGuardEnabled t projectId then
                match findRow t rowId storeId with
                | Some current => match rowGuardViolationOf (listColumns t storeId) current patch with Some violation => inl violation | None => inr () end
                | None => inr ()
                end
              else inr ()).

(** ** Rows *)
(** One row of a batch: its cells, the clock and the id it gets. *)
Record RowInsert := mkInsert { ins_data : cells; ins_at : str; ins_id : str }.
Definition write_insert (storeId : str) (actor : RowActor) (daemonSet : list DsColumn) (i : RowInsert) : Sx DsRow :=
  let data := withDaemonSetCells daemonSet (ins_data i) (ins_at i) in
  _ ← refuseNaturalKeyHeldByAnotherRow storeId (ins_id i) data;
  repo_insertRow storeId (ins_id i) data actor (ins_at i).
Definition insertRow (storeId projectId : str) (actor : RowActor) (callerIsManager : bool) (i : RowInsert) : Sx DsRow :=
  _ ← authorize storeId projectId;
  _ ← refuseInsertIntoSharedBacklog storeId projectId actor callerIsManager;
  columns ← reads (λ t, listColumns t storeId);
  let data := withDaemonSetCells (daemonSetColumns columns) (ins_data i) (ins_at i) in
  _ ← validateCells columns data;
  _ ← refuseKindOutsideManagerLogList storeId columns data;
  _ ← assertRowCapacity storeId 1;
  write_insert storeId actor (daemonSetColumns columns) i.
Fixpoint mapTx {A B} (f : A → Sx B) (l : list A) : Sx (list B) := match l with [] => mret [] | x :: rest => y ← f x; ys ← mapTx f rest; mret (y :: ys) end.
Definition insertRows (storeId projectId : str) (actor : RowActor) (callerIsManager : bool) (items : list RowInsert) : Sx (list DsRow) :=
  _ ← authorize storeId projectId;
  _ ← refuseInsertIntoSharedBacklog storeId projectId actor callerIsManager;
  columns ← reads (λ t, listColumns t storeId);
  _ ← each (λ i, let data := withDaemonSetCells (daemonSetColumns columns) (ins_data i) (ins_at i) in
                 _ ← validateCells columns data; refuseKindOutsideManagerLogList storeId columns data) items;
  _ ← assertRowCapacity storeId (length items);
  mapTx (write_insert storeId actor (daemonSetColumns columns)) items.
Definition updateRow (storeId rowId projectId : str) (patch : cells) (actor : RowActor) (at_ : str) : Sx DsRow :=
  _ ← authorize storeId projectId;
  _ ← refuseDaemonSetCells storeId patch;
  columns ← reads (λ t, listColumns t storeId);
  _ ← validateCells columns patch;
  _ ← refuseKindOutsideManagerLogList storeId columns patch;
  _ ← refuseNaturalKeyHeldByAnotherRow storeId rowId patch;
  _ ← refuseRowGuardViolation storeId rowId projectId patch;
  repo_updateRow rowId storeId patch None actor at_.
Record RowUpdate := mkUpdate { upd_rowId : str; upd_patch : cells; upd_expectedRev : option nat; upd_at : str }.
Definition write_update (storeId projectId : str) (actor : RowActor) (u : RowUpdate) : Sx DsRow :=
  _ ← refuseNaturalKeyHeldByAnotherRow storeId (upd_rowId u) (upd_patch u);
  _ ← refuseRowGuardViolation storeId (upd_rowId u) projectId (upd_patch u);
  repo_updateRow (upd_rowId u) storeId (upd_patch u) (upd_expectedRev u) actor (upd_at u).
Definition updateRows (storeId projectId : str) (items : list RowUpdate) (actor : RowActor) : Sx (list DsRow) :=
  _ ← authorize storeId projectId;
  columns ← reads (λ t, listColumns t storeId);
  _ ← each (λ u, _ ← refuseDaemonSetCells storeId (upd_patch u); _ ← validateCells columns (upd_patch u); refuseKindOutsideManagerLogList storeId columns (upd_patch u)) items;
  mapTx (write_update storeId projectId actor) items.
(** [clock] is the instant read for each row. *)
Definition updateRowsWhere (storeId projectId : str) (wheres : list WhereClause) (set : cells) (actor : RowActor) (clock : str → str) : Sx (nat * list DsRow) :=
  _ ← authorize storeId projectId;
  _ ← refuseDaemonSetCells storeId set;
  columns ← reads (λ t, listColumns t storeId);
  _ ← validateCells columns set;
  matchedRows ← query storeId wheres [] None;
  naturalKey ← reads (λ t, naturalKeyOf t storeId);
  _ ← refuse_when (λ _, match naturalKey with Some id => has_own set id | None => false end && Nat.ltb 1 (length matchedRows)) NaturalKeyOnSeveralRows;
  updated ← updateRows storeId projectId ((λ row, mkUpdate (row_id row) set None (clock (row_id row))) <$> matchedRows) actor;
  mret (length matchedRows, updated).
Definition deleteRow (storeId rowId projectId : str) (actor : RowActor) (at_ : str) : Sx unit :=
  _ ← authorize storeId projectId;
  repo_deleteRow rowId storeId actor at_.
Definition findRowByNaturalKey (storeId projectId key : str) : Sx DsRow :=
  _ ← authorize storeId projectId;
  naturalKey ← reads (λ t, naturalKeyOf t storeId);
  match naturalKey with
  | None => refuse NoNaturalKey
  | Some columnId =>
      matchingRows ← query storeId [keyed columnId key] [] (Some 2);
      match matchingRows with [] => refuse RowNotFound | [row] => mret row | _ => refuse AmbiguousNaturalKey end
  end.
Inductive SaveMode := CreateMode | UpsertMode | UpdateMode.
#[export] Instance SaveMode_eq_dec : EqDecision SaveMode.
Proof. solve_decision. Defined.
Inductive SaveOutcome := Inserted | Updated.
Definition saveRow (storeId projectId : str) (actor : RowActor) (callerIsManager : bool) (mode : SaveMode) (i : RowInsert) : Sx (SaveOutcome * DsRow) :=
  let insert := row ← insertRow storeId projectId actor callerIsManager i; mret (Inserted, row) in
  _ ← authorize storeId projectId;
  naturalKey ← reads (λ t, naturalKeyOf t storeId);
  match naturalKey with
  | None => if bool_decide (mode = UpdateMode) then refuse NoNaturalKey else insert
  | Some columnId =>
      match sent (ins_data i) columnId with
      | None | Some JNull => if bool_decide (mode = CreateMode) then insert else refuse NaturalKeyMissing
      | Some (JStr key) =>
          rowsHoldingKey ← query storeId [keyed columnId key] [] (Some 2);
          match rowsHoldingKey with
          | _ :: _ :: _ => refuse AmbiguousNaturalKey
          | [] => if bool_decide (mode = UpdateMode) then refuse NaturalKeyNotFound else insert
          | [row] =>
              if bool_decide (mode = CreateMode) then refuse NaturalKeyConflict
              else
                daemonSet ← reads (λ t, col_id <$> daemonSetColumns (listColumns t storeId));
                let patch := filter (λ e : str * option json, mem_str e.1 daemonSet = false) (ins_data i) in
                updated ← updateRow storeId (row_id row) projectId patch actor (ins_at i);
                mret (Updated, updated)
          end
      | Some _ => refuse (InvalidCellValue columnId)
      end
  end.

(** ** Stores and columns *)
Definition createStore (id projectId name at_ : str) : Sx unit := displayName ← normalizeName name; repo_createStore id projectId displayName at_.
Definition deleteStore (storeId projectId : str) (force : bool) : Sx unit :=
  _ ← authorize storeId projectId;
  rowCount ← reads (λ t, countRows t storeId);
  _ ← refuse_when (λ _, Nat.ltb 0 rowCount && negb force) (StoreHasRows rowCount);
  repo_deleteStore storeId.
Definition is_hex (c : N) : bool := is_digit c || in_range 97 102 c || in_range 65 70 c.
Definition is_color (s : str) : bool := match s with c :: rest => N.eqb c (chr "#") && forallb is_hex rest && existsb (Nat.eqb (length rest)) [3; 6; 8] | [] => false end.
Definition valid_option (o : SelectOption) : bool := negb (bool_decide (opt_id o = [])) && negb (bool_decide (opt_label o = [])) && match opt_color o with Some c => is_color c | None => true end.
Definition validateColumnDefinition (type : ColumnType) (options : option (list SelectOption)) : Sx (option (list SelectOption)) :=
  if bool_decide (type = SelectColumn) then
    let l := default [] options in
    _ ← refuse_when (λ _, bool_decide (l = []) || Nat.ltb MAX_SELECT_OPTIONS (length l) || negb (forallb valid_option l)) InvalidColumnDefinition;
    _ ← refuse_when (λ _, negb (bool_decide (NoDup (opt_id <$> l)))) InvalidColumnDefinition;
    mret (Some l)
  else _ ← refuse_when (λ _, bool_decide (is_Some options)) InvalidColumnDefinition; mret None.
Definition addColumn (storeId projectId id name : str) (type : ColumnType) (format : option ColumnFormat) (options : option (list SelectOption)) (auto : bool) (at_ : str) : Sx unit :=
  _ ← authorize storeId projectId;
  displayName ← normalizeName name;
  validOptions ← validateColumnDefinition type options;
  _ ← refuse_when (λ _, match format with Some f => negb (bool_decide (COLUMN_TYPE_BY_FORMAT f = type)) | None => false end) InvalidColumnDefinition;
  _ ← refuse_when (λ _, auto && negb (bool_decide (type = DateColumn))) InvalidColumnDefinition;
  repo_addColumn storeId id displayName type format validOptions auto at_.
Definition selected (row : DsRow) (columnId : str) : option str := get (row_data row) columnId ≫= text_cell.
Definition held_texts (t : datastores) (storeId columnId : str) : list str := omap (λ row, selected row columnId) (listRows t storeId).
Definition setNaturalKey (storeId projectId : str) (columnId : option str) (at_ : str) : Sx unit :=
  _ ← authorize storeId projectId;
  _ ← match columnId with
      | None => mret ()
      | Some id =>
          _ ← refuse_when (λ t, negb (bool_decide (col_type <$> columnById (listColumns t storeId) id = Some TextColumn))) InvalidColumnDefinition;
          refuse_when (λ t, negb (bool_decide (NoDup (held_texts t storeId id)))) NaturalKeyNotUnique
      end;
  setNaturalKeyColumn storeId columnId at_.
(** An option as a caller sends it, with the id it gets when it matches none. *)
Record OptionReplacement := mkReplacement { rep_id : option str; rep_label : str; rep_color : option str; rep_newId : str }.
Definition replaced_option (current : list SelectOption) (r : OptionReplacement) : Sx SelectOption :=
  match rep_id r with
  | None => mret (mkOption (from_option opt_id (rep_newId r) (find (λ o, str_eqb (opt_label o) (rep_label r)) current)) (rep_label r) (rep_color r))
  | Some id => if mem_str id (opt_id <$> current) then mret (mkOption id (rep_label r) (rep_color r)) else refuse InvalidColumnDefinition
  end.
Definition replacedOptions (column : DsColumn) (replacements : list OptionReplacement) : Sx (option (list SelectOption)) :=
  _ ← refuse_when (λ _, negb (bool_decide (col_type column = SelectColumn))) InvalidColumnDefinition;
  options ← mapTx (replaced_option (default [] (col_options column))) replacements;
  _ ← refuse_when (λ _, negb (bool_decide (NoDup ((λ o, toLowerCase (opt_label o)) <$> options)))) InvalidColumnDefinition;
  validateColumnDefinition (col_type column) (Some options).
Definition refuseOptionsStillHeldByRows (storeId : str) (column : DsColumn) (options : option (list SelectOption)) : Sx unit :=
  if bool_decide (col_type column = SelectColumn) then
    refuse_when (λ t, existsb (λ id, negb (mem_str id (opt_id <$> default [] options))) (held_texts t storeId (col_id column))) OptionsHeldByRows
  else mret ().
Definition applyNaturalKeyChoice (storeId projectId columnId : str) (isNaturalKey : bool) (at_ : str) : Sx unit :=
  if isNaturalKey then setNaturalKey storeId projectId (Some columnId) at_
  else
    isCurrentKey ← reads (λ t, bool_decide (naturalKeyOf t storeId = Some columnId));
    if isCurrentKey : bool then setNaturalKey storeId projectId None at_ else mret ().
(** [undefined] is [None]; [null] is [Some None]. *)
Definition keptOrChanged {A} (change : option (option A)) (kept : option A) : option A := match change with None => kept | Some c => c end.
Inductive WrapChange := WrapTo (maxLines : option Z) | Truncate.
Record ColumnChanges := mkChanges
  { ch_name : option str; ch_naturalKey : option bool; ch_options : option (list OptionReplacement); ch_required : option bool; ch_display : option (option str); ch_format : option (option ColumnFormat);
    ch_config : option (option ColumnConfig); ch_width : option (option Z); ch_wrap : option WrapChange }.
Definition nothing_to_update (c : ColumnChanges) : bool :=
  match c with mkChanges None None None None None None None None None => true | _ => false end.
Definition wrapAfter (column : DsColumn) (change : option WrapChange) : option ColumnWrap :=
  match change with None => col_wrap column | Some Truncate => None | Some (WrapTo maxLines) => Some (Wrapped maxLines) end.
Definition display_of (columns : list DsColumn) (id : str) : option str := columnById columns id ≫= col_display.
(** One turn of the walk along the display columns: [inr] is how it ends, [true] when a cycle is met. *)
Definition display_step (columns : list DsColumn) (target : str) (s : option str * list str) : (option str * list str) + bool :=
  match s with
  | (None, _) => inr false
  | (Some followed, visited) => if str_eqb followed target || mem_str followed visited then inr true else inl (display_of columns followed, followed :: visited)
  end.
Definition meets_cycle (columns : list DsColumn) (target from : str) : bool := run_loop (display_step columns target) (S (S (length columns))) (Some from, []) true.
Definition requireDisplayColumn (storeId : str) (column : DsColumn) (displayColumnId : str) : Sx unit :=
  _ ← refuse_when (λ _, str_eqb displayColumnId (col_id column)) InvalidColumnDefinition;
  _ ← refuse_when (λ t, negb (mem_str displayColumnId (col_id <$> listColumns t storeId))) (UnknownColumn [displayColumnId]);
  refuse_when (λ t, meets_cycle (listColumns t storeId) (col_id column) displayColumnId) InvalidColumnDefinition.
Definition empty_config (c : ColumnConfig) : bool := match c with mkConfig None None None None => true | _ => false end.
Definition metadataAfter (storeId : str) (column : DsColumn) (changes : ColumnChanges) : Sx ColumnMetadata :=
  let format := keptOrChanged (ch_format changes) (col_format column) in
  _ ← refuse_when (λ _, match format with Some f => negb (bool_decide (COLUMN_TYPE_BY_FORMAT f = col_type column)) | None => false end) InvalidColumnDefinition;
  let config := keptOrChanged (ch_config changes) (col_config column) in
  _ ← refuse_when (λ _, match ch_config changes with Some (Some _) => negb (bool_decide (col_type column = NumberColumn)) | _ => false end) InvalidColumnDefinition;
  let displayColumnId := keptOrChanged (ch_display changes) (col_display column) in
  _ ← match displayColumnId with Some id => requireDisplayColumn storeId column id | None => mret () end;
  mret (mkMetadata (default (col_required column) (ch_required changes)) format (match config with Some c => if empty_config c then None else Some c | None => None end) displayColumnId
          (keptOrChanged (ch_width changes) (col_width column)) (wrapAfter column (ch_wrap changes))).
Definition updateColumn (storeId projectId columnId : str) (changes : ColumnChanges) (at_ : str) : Sx unit :=
  _ ← authorize storeId projectId;
  _ ← refuse_when (λ _, nothing_to_update changes) InvalidColumnDefinition;
  column ← requireColumn storeId columnId;
  displayName ← match ch_name changes with None => mret (col_name column) | Some name => normalizeName name end;
  options ← match ch_options changes with None => mret (col_options column) | Some l => replacedOptions column l end;
  metadata ← metadataAfter storeId column changes;
  _ ← match ch_options changes with Some _ => refuseOptionsStillHeldByRows storeId column options | None => mret () end;
  _ ← repo_updateColumn storeId columnId displayName options metadata;
  match ch_naturalKey changes with Some isNaturalKey => applyNaturalKeyChoice storeId projectId columnId isNaturalKey at_ | None => mret () end.
Definition config_columns (c : DsViewConfig) : list str :=
  (where_column <$> default [] (cfg_where c)) ++ (order_column <$> default [] (cfg_orderBy c)) ++ option_list (cfg_groupBy c) ++ option_list (cfg_cardTitle c) ++ default [] (cfg_cardFields c).
Definition deleteColumn (storeId projectId columnId : str) (actor : RowActor) (at_ : str) : Sx unit :=
  _ ← authorize storeId projectId;
  _ ← requireColumn storeId columnId;
  _ ← refuse_when (λ t, bool_decide (naturalKeyOf t storeId = Some columnId)) ColumnIsNaturalKey;
  _ ← refuse_when (λ t, existsb (λ v, mem_str columnId (config_columns (v_config v))) (listViews t storeId)) ColumnUsedByView;
  _ ← refuse_when (λ t, existsb (λ c, bool_decide (col_display c = Some columnId)) (listColumns t storeId)) ColumnIsDisplayColumn;
  repo_deleteColumn storeId columnId actor at_.
Definition reorderColumns (storeId projectId : str) (ids : list str) : Sx unit :=
  _ ← authorize storeId projectId;
  _ ← refuse_when (λ t, let stored := col_id <$> listColumns t storeId in
                        negb (forallb (λ id, mem_str id ids) stored && forallb (λ id, mem_str id stored) ids && bool_decide (NoDup ids))) ColumnOrderMismatch;
  repo_reorderColumns storeId ids.

(** ** Views *)
Definition authorizeView (viewId projectId : str) : Sx DsView :=
  check (λ t, match findView t viewId with
              | Some view => if bool_decide (st_projectId <$> findStore t (v_storeId view) = Some projectId) then inr view else inl ViewNotFound
              | None => inl ViewNotFound
              end).
(** What the schema of a config asks of the ids it holds. *)
Definition parsed_config (c : DsViewConfig) : bool :=
  forallb (λ id, negb (bool_decide (id = []))) (config_columns c ++ default [] (cfg_columnOrder c)) && bool_decide (NoDup (default [] (cfg_cardFields c))) && bool_decide (NoDup (default [] (cfg_columnOrder c))).
Definition select_column (t : datastores) (storeId : str) (id : option str) : option DsColumn :=
  match id ≫= columnById (listColumns t storeId) with Some c => if bool_decide (col_type c = SelectColumn) then Some c else None | None => None end.
(** [bytes] is the length of the config as it is stored. *)
Definition validatedConfig (storeId : str) (type : ViewType) (config : DsViewConfig) (bytes : nat) : Sx unit :=
  _ ← refuse_when (λ _, negb (parsed_config config) || Nat.ltb MAX_VIEW_CONFIG_BYTES bytes) InvalidViewConfig;
  _ ← check (λ t, assertKnownColumns (listColumns t storeId) (config_columns config));
  _ ← refuse_when (λ t, bool_decide (type = KanbanView) && negb (bool_decide (is_Some (select_column t storeId (cfg_groupBy config))))) InvalidViewConfig;
  refuse_when (λ t, match cfg_columnOrder config with
                    | None => false
                    | Some ids => match select_column t storeId (cfg_groupBy config) with Some c => existsb (λ id, negb (mem_str id (option_ids c))) ids | None => true end
                    end) InvalidViewConfig.
Definition createView (storeId projectId id name : str) (type : ViewType) (config : DsViewConfig) (bytes : nat) (at_ : str) : Sx unit :=
  _ ← authorize storeId projectId;
  displayName ← normalizeName name;
  _ ← validatedConfig storeId type config bytes;
  repo_insertView storeId id displayName type config at_.
Definition updateView (viewId projectId : str) (config : DsViewConfig) (bytes : nat) : Sx unit :=
  view ← authorizeView viewId projectId;
  _ ← validatedConfig (v_storeId view) (v_type view) config bytes;
  repo_updateView viewId config.
Definition deleteView (viewId projectId : str) : Sx unit := _ ← authorizeView viewId projectId; repo_deleteView viewId.
Definition orderedKanbanOptions (options : list SelectOption) (columnOrder : option (list str)) : list SelectOption :=
  let orderedIds := remove_dups (default [] columnOrder) in
  omap (λ id, find (λ o, str_eqb (opt_id o) id) options) orderedIds ++ filter (λ o, mem_str (opt_id o) orderedIds = false) options.
(** The bucket of the rows without option is [None]. *)
Definition kanbanGroups (viewId projectId : str) : Sx (list (option SelectOption * list DsRow)) :=
  view ← authorizeView viewId projectId;
  groupBy ← check (λ t, match select_column t (v_storeId view) (cfg_groupBy (v_config view)) with Some c => inr c | None => inl InvalidViewConfig end);
  rows ← query (v_storeId view) (default [] (cfg_where (v_config view))) (default [] (cfg_orderBy (v_config view))) None;
  let options := orderedKanbanOptions (default [] (col_options groupBy)) (cfg_columnOrder (v_config view)) in
  let groups := (λ o, (Some o, filter (λ row, selected row (col_id groupBy) = Some (opt_id o)) rows)) <$> options in
  if negb (bool_decide (cfg_showUngrouped (v_config view) = Some true)) then mret groups
  else
    let ungrouped := filter (λ row, match selected row (col_id groupBy) with Some id => mem_str id (opt_id <$> options) | None => false end = false) rows in
    mret (match ungrouped with [] => groups | _ => groups ++ [(None, ungrouped)] end).

(** ** Calls
    What the routes, the tools and the daemon do, in any order.  The last two are of other components: a project is created or its settings change, managers get their logs. *)
Inductive StoreCall :=
  | StoreCreated (id projectId name at_ : str)
  | StoreDeleted (storeId projectId : str) (force : bool)
  | ColumnAdded (storeId projectId id name : str) (type : ColumnType) (format : option ColumnFormat) (options : option (list SelectOption)) (auto : bool) (at_ : str)
  | ColumnUpdated (storeId projectId columnId : str) (changes : ColumnChanges) (at_ : str)
  | ColumnDeleted (storeId projectId columnId : str) (actor : RowActor) (at_ : str)
  | ColumnsReordered (storeId projectId : str) (ids : list str)
  | NaturalKeySet (storeId projectId : str) (columnId : option str) (at_ : str)
  | RowInserted (storeId projectId : str) (actor : RowActor) (callerIsManager : bool) (i : RowInsert)
  | RowsInserted (storeId projectId : str) (actor : RowActor) (callerIsManager : bool) (items : list RowInsert)
  | RowSaved (storeId projectId : str) (actor : RowActor) (callerIsManager : bool) (mode : SaveMode) (i : RowInsert)
  | RowUpdated_ (storeId rowId projectId : str) (patch : cells) (actor : RowActor) (at_ : str)
  | RowsUpdated (storeId projectId : str) (items : list RowUpdate) (actor : RowActor)
  | RowsUpdatedWhere (storeId projectId : str) (wheres : list WhereClause) (set : cells) (actor : RowActor) (clock : str → str)
  | RowDeleted (storeId rowId projectId : str) (actor : RowActor) (at_ : str)
  | ViewCreated (storeId projectId id name : str) (type : ViewType) (config : DsViewConfig) (bytes : nat) (at_ : str)
  | ViewUpdated (viewId projectId : str) (config : DsViewConfig) (bytes : nat)
  | ViewDeleted (viewId projectId : str)
  | ProjectSet (id : str) (project : Project)
  | LogsSet (logs : list str).
Definition ignoring {A} (m : Sx A) : Sx unit := _ ← m; mret ().
Definition run_call (e : StoreCall) : Sx unit :=
  match e with
  | StoreCreated id projectId name at_ => createStore id projectId name at_
  | StoreDeleted storeId projectId force => deleteStore storeId projectId force
  | ColumnAdded storeId projectId id name type format options auto at_ => addColumn storeId projectId id name type format options auto at_
  | ColumnUpdated storeId projectId columnId changes at_ => updateColumn storeId projectId columnId changes at_
  | ColumnDeleted storeId projectId columnId actor at_ => deleteColumn storeId projectId columnId actor at_
  | ColumnsReordered storeId projectId ids => reorderColumns storeId projectId ids
  | NaturalKeySet storeId projectId columnId at_ => setNaturalKey storeId projectId columnId at_
  | RowInserted storeId projectId actor callerIsManager i => ignoring (insertRow storeId projectId actor callerIsManager i)
  | RowsInserted storeId projectId actor callerIsManager items => ignoring (insertRows storeId projectId actor callerIsManager items)
  | RowSaved storeId projectId actor callerIsManager mode i => ignoring (saveRow storeId projectId actor callerIsManager mode i)
  | RowUpdated_ storeId rowId projectId patch actor at_ => ignoring (updateRow storeId rowId projectId patch actor at_)
  | RowsUpdated storeId projectId items actor => ignoring (updateRows storeId projectId items actor)
  | RowsUpdatedWhere storeId projectId wheres set actor clock => ignoring (updateRowsWhere storeId projectId wheres set actor clock)
  | RowDeleted storeId rowId projectId actor at_ => deleteRow storeId rowId projectId actor at_
  | ViewCreated storeId projectId id name type config bytes at_ => createView storeId projectId id name type config bytes at_
  | ViewUpdated viewId projectId config bytes => updateView viewId projectId config bytes
  | ViewDeleted viewId projectId => deleteView viewId projectId
  | ProjectSet id project => writes (λ t, mkStores (put (ds_projects t) id project) (ds_logs t) (ds_stores t) (ds_columns t) (ds_rows t) (ds_history t) (ds_views t) (ds_seq t))
  | LogsSet logs => writes (λ t, mkStores (ds_projects t) logs (ds_stores t) (ds_columns t) (ds_rows t) (ds_history t) (ds_views t) (ds_seq t))
  end.
(** A call that throws leaves the tables. *)
Definition store_step (t : datastores) (e : StoreCall) : datastores := after (run_call e) t.
End Stores.
Definition no_stores : datastores := mkStores [] [] [] [] [] [] [] 0.
