(* ===== verification/DataStoreFacts.v ===== *)
(** * What the calls of a data store do

    The calls of [DataStore] as sequences of elementary changes ([change]), each with what the code has checked when it makes it. *)
From S2P Require Import Prelude Transaction JsText Regex PolicyTypes PolicyDocument Lineage FloorClasses TableSource EscalationFacts JsDate DataStore.
Local Open Scope nat_scope.

(** ** Elementary changes *)
(** A day of the calendar: the month is numbered from 1. *)
Definition leap_year (y : Z) : Prop := (y mod 4 = 0 ∧ y mod 100 ≠ 0 ∨ y mod 400 = 0)%Z.
Definition month_days (y m d : Z) : Prop :=
  (m = 2 ∧ (d = 29 ∧ leap_year y ∨ 1 ≤ d ≤ 28) ∨ (m = 4 ∨ m = 6 ∨ m = 9 ∨ m = 11) ∧ 1 ≤ d ≤ 30 ∨ (m = 1 ∨ m = 3 ∨ m = 5 ∨ m = 7 ∨ m = 8 ∨ m = 10 ∨ m = 12) ∧ 1 ≤ d ≤ 31)%Z.
Definition number_in (s : str) : Z := Z.of_N (Number_of s).
(** A text that starts with a day of the calendar, written with four, two and two digits, and has nothing else but a time of the day after a T. *)
Definition dated (s : str) : Prop :=
  ∃ y m d rest, s = y ++ js "-" ++ m ++ js "-" ++ d ++ rest ∧ length y = 4 ∧ length m = 2 ∧ length d = 2 ∧ Forall (λ c, is_digit c = true) (y ++ m ++ d) ∧ (rest = [] ∨ ∃ h1 h2 m1 m2 seconds, rest = js "T" ++ [h1; h2] ++ js ":" ++ [m1; m2] ++ seconds ∧ Forall (λ c, is_digit c = true) [h1; h2; m1; m2])
    ∧ month_days (number_in y) (number_in m) (number_in d).
(** A value that a column takes: of its type, within the bytes of a cell, a date of the calendar and, in a select column, one of its options. *)
Definition fits (c : DsColumn) (v : json) : Prop :=
  match v with
  | JNull => True
  | _ =>
      match col_type c, v with
      | TextColumn, JStr s => byteLength s ≤ MAX_CELL_BYTES
      | NumberColumn, JNum _ => True
      | DateColumn, JStr s => dated s
      | SelectColumn, JStr s => s ∈ option_ids c
      | JsonColumn, _ => byteLength (stringify_json v) ≤ MAX_CELL_BYTES
      | _, _ => False
      end
  end.
Definition cell_ok (t : datastores) (storeId k : str) (v : json) : Prop := ∃ c, c ∈ ds_columns t ∧ col_storeId c = storeId ∧ col_id c = k ∧ fits c v.
(** The natural key that a row gets with these cells is held by no other row of the store. *)
Definition key_free (t : datastores) (storeId rowId : str) (data : rec json) : Prop :=
  ∀ k x r, naturalKeyOf t storeId = Some k → get data k = Some (JStr x) → r ∈ ds_rows t → row_storeId r = storeId → selected r k = Some x → row_id r = rowId.
Definition recorded (storeId rowId : str) (actor : RowActor) (at_ : str) (ch : DsRowChange) (t : datastores) : datastores :=
  mkStores (ds_projects t) (ds_logs t) (ds_stores t) (ds_columns t) (ds_rows t) (ds_history t ++ [mkHistory (S (ds_seq t)) storeId rowId actor ch at_]) (ds_views t) (S (ds_seq t)).
Definition dropped (id : str) (t : datastores) : datastores :=
  mkStores (ds_projects t) (filter (λ s, s ≠ id) (ds_logs t)) (filter (λ s, st_id s ≠ id) (ds_stores t)) (filter (λ c, col_storeId c ≠ id) (ds_columns t))
    (filter (λ r, row_storeId r ≠ id) (ds_rows t)) (filter (λ h, h_storeId h ≠ id) (ds_history t)) (filter (λ v, v_storeId v ≠ id) (ds_views t)) (ds_seq t).
Definition with_key (k : option str) (at_ : str) (s : DataStoreRecord) : DataStoreRecord := mkStore (st_id s) (st_projectId s) (st_name s) k (st_createdAt s) at_.
Definition cleared (row : DsRow) (columnId at_ : str) (r : DsRow) : DsRow := mkRow (row_id r) (row_storeId r) (del (row_data row) columnId) (S (row_rev r)) (row_createdAt r) at_.
Definition row_at (t : datastores) (storeId rowId : str) (r : DsRow) : Prop := r ∈ ds_rows t ∧ row_id r = rowId ∧ row_storeId r = storeId.
(** What the tables may become at once.  [new] is the store where rows may appear, and their ids. *)
Inductive change (new : str * list str) (t : datastores) : datastores → Prop :=
  | ch_settings p l : change new t (mkStores p l (ds_stores t) (ds_columns t) (ds_rows t) (ds_history t) (ds_views t) (ds_seq t))
  | ch_store_created s : st_id s ∉ st_id <$> ds_stores t → st_naturalKey s = None → change new t (set_stores (ds_stores t ++ [s]) t)
  | ch_store_dropped id : new.2 = [] → change new t (dropped id t)
  | ch_key storeId k at_ :
      (∀ id, k = Some id → id ≠ [] ∧ (∃ c, c ∈ ds_columns t ∧ col_storeId c = storeId ∧ col_id c = id ∧ col_type c = TextColumn) ∧ NoDup (held_texts t storeId id)) →
      change new t (update_store storeId (with_key k at_) t)
  | ch_column_added c : col_id c ∉ col_id <$> ds_columns t → col_display c = None → change new t (set_columns (ds_columns t ++ [c]) t)
  | ch_column_updated c name options m :
      c ∈ ds_columns t → options = col_options c ∨ (∀ x, x ∈ held_texts t (col_storeId c) (col_id c) → x ∈ opt_id <$> default [] options) →
      (∀ d, md_display m = Some d → d ∈ col_id <$> columns_of t (col_storeId c) ∧ meets_cycle (listColumns t (col_storeId c)) (col_id c) d = false) →
      change new t (update_column (col_storeId c) (col_id c) (with_metadata name options m) t)
  | ch_column_moved storeId id n : change new t (update_column storeId id (with_order n) t)
  | ch_column_removed storeId id :
      (∀ r, r ∈ ds_rows t → row_storeId r = storeId → get (row_data r) id = None) → naturalKeyOf t storeId ≠ Some id →
      (∀ v, v ∈ ds_views t → v_storeId v = storeId → id ∉ config_columns (v_config v)) → (∀ c, c ∈ columns_of t storeId → col_display c ≠ Some id) →
      change new t (set_columns (filter (λ c, ¬ (col_id c = id ∧ col_storeId c = storeId)) (ds_columns t)) t)
  | ch_row_inserted row actor at_ :
      row_storeId row = new.1 → row_id row ∈ new.2 → row_id row ∉ row_id <$> ds_rows t → row_rev row = FIRST_ROW_REV → (∀ k v, get (row_data row) k = Some v → cell_ok t (row_storeId row) k v) →
      key_free t (row_storeId row) (row_id row) (row_data row) → change new t (recorded (row_storeId row) (row_id row) actor at_ Creation (set_rows (ds_rows t ++ [row]) t))
  | ch_row_changed row patch actor at_ :
      row ∈ ds_rows t → NoDup patch.*1 → diffCells (row_data row) patch ≠ [] → (∀ k v, get patch k = Some v → cell_ok t (row_storeId row) k v) →
      key_free t (row_storeId row) (row_id row) patch →
      change new t (recorded (row_storeId row) (row_id row) actor at_ (CellDiff (diffCells (row_data row) patch)) (update_row (row_id row) (row_storeId row) (λ _, patched row patch at_) t))
  | ch_cell_cleared row columnId from actor at_ :
      row ∈ ds_rows t → get (row_data row) columnId = Some from → naturalKeyOf t (row_storeId row) ≠ Some columnId →
      change new t (recorded (row_storeId row) (row_id row) actor at_ (CellDiff [(columnId, (from, JNull))]) (update_row (row_id row) (row_storeId row) (cleared row columnId at_) t))
  | ch_row_deleted row actor at_ :
      new.2 = [] → row ∈ ds_rows t → let t1 := recorded (row_storeId row) (row_id row) actor at_ Deletion t in
      change new t (set_rows (filter (λ r, ¬ (row_id r = row_id row ∧ row_storeId r = row_storeId row)) (ds_rows t1)) t1)
  | ch_view_added v : v_id v ∉ v_id <$> ds_views t → (∀ k, k ∈ config_columns (v_config v) → k ∈ col_id <$> columns_of t (v_storeId v)) → change new t (set_views (ds_views t ++ [v]) t)
  | ch_view_updated v config :
      findView t (v_id v) = Some v → (∀ k, k ∈ config_columns config → k ∈ col_id <$> columns_of t (v_storeId v)) →
      change new t (set_views ((λ w, if str_eqb (v_id w) (v_id v) then mkView (v_id w) (v_storeId w) (v_name w) (v_type w) config (v_order w) (v_createdAt w) else w) <$> ds_views t) t)
  | ch_view_removed id : change new t (set_views (filter (λ v, v_id v ≠ id) (ds_views t)) t).
Abbreviation changes new := (rtc (change new)).
Abbreviation row_ids t := (row_id <$> ds_rows t).

(** ** Checks read, and leave what they checked *)
Lemma check_inr {A} (f : datastores → StoreError + A) t t' a : check f t = inr (t', a) ↔ t' = t ∧ f t = inr a.
Proof. unfold check. destruct (f t); naive_solver. Qed.
Lemma refuse_when_inr bad e t t' a : refuse_when bad e t = inr (t', a) ↔ t' = t ∧ bad t = false.
Proof. unfold refuse_when. rewrite check_inr. destruct (bad t), a; naive_solver. Qed.
Ltac st_inv :=
  repeat (match goal with H : mret _ _ = inr (_, ()) |- _ => apply ret_inr in H as [-> _] end || tx_inv || match goal with
  | H : check _ _ = inr _ |- _ => apply check_inr in H as [-> H]
  | H : refuse_when _ _ _ = inr _ |- _ => apply refuse_when_inr in H as [-> H]
  end).
Lemma preserves_check {A} (f : datastores → StoreError + A) : preserves eq (check f).
Proof. apply preserves_same; [apply _|]. by intros t t' a [-> _]%check_inr. Qed.
Lemma preserves_refuse_when bad e : preserves eq (refuse_when bad e).
Proof. apply preserves_check. Qed.
#[export] Hint Resolve preserves_check preserves_refuse_when : tx.
(** A call that leaves the tables. *)
Abbreviation reading := (preserves eq).

Lemma insert_with_perm {A} (cmp : A → A → comparison) x l : insert_with cmp x l ≡ₚ x :: l.
Proof. induction l as [|y l IH]; simpl; [done|]. destruct (cmp x y); [|done|]; rewrite IH; by rewrite Permutation_swap. Qed.
Lemma sort_with_perm {A} (cmp : A → A → comparison) l : sort_with cmp l ≡ₚ l.
Proof.
  unfold sort_with. assert (∀ acc, fold_left (λ acc x, insert_with cmp x acc) l acc ≡ₚ l ++ acc) as H; [|rewrite H; by rewrite app_nil_r].
  induction l as [|x l IH]; intros acc; simpl; [done|]. rewrite IH, insert_with_perm. by rewrite Permutation_middle.
Qed.
Lemma elem_of_listColumns t s c : c ∈ listColumns t s ↔ c ∈ ds_columns t ∧ col_storeId c = s.
Proof. unfold listColumns, columns_of. rewrite sort_with_perm, list_elem_of_filter. tauto. Qed.
Lemma elem_of_columns_of t s c : c ∈ columns_of t s ↔ c ∈ ds_columns t ∧ col_storeId c = s.
Proof. unfold columns_of. rewrite list_elem_of_filter. tauto. Qed.
Lemma elem_of_listRows t s r : r ∈ listRows t s ↔ r ∈ ds_rows t ∧ row_storeId r = s.
Proof. unfold listRows, rows_of_store. rewrite sort_with_perm, list_elem_of_filter. tauto. Qed.
Lemma elem_of_listViews t s v : v ∈ listViews t s ↔ v ∈ ds_views t ∧ v_storeId v = s.
Proof. unfold listViews. rewrite sort_with_perm, list_elem_of_filter. tauto. Qed.
Lemma columnById_elem l id c : columnById l id = Some c → c ∈ l ∧ col_id c = id.
Proof. intros [Hc E%str_eqb_eq]%find_elem. done. Qed.
Lemma findRow_at t id s r : findRow t id s = Some r → row_at t s id r.
Proof. intros [Hr [E1%str_eqb_eq E2%str_eqb_eq]%andb_true_iff]%find_elem. done. Qed.
Lemma assertKnown_inr columns ids a : assertKnownColumns columns ids = inr a → ∀ id, id ∈ ids → id ∈ col_id <$> columns.
Proof.
  unfold assertKnownColumns. destruct (unknown_columns columns ids) as [|x l] eqn:E; [|done]. intros _ id Hid. apply mem_str_iff. destruct (mem_str id _) eqn:Hm; [done|].
  assert (id ∈ unknown_columns columns ids) as H by (by apply list_elem_of_filter). rewrite E in H. by apply elem_of_nil in H.
Qed.
Lemma existsb_false {A} (f : A → bool) l : existsb f l = false ↔ ∀ x, x ∈ l → f x = false.
Proof.
  rewrite <- not_true_iff_false, existsb_elem. split.
  - intros H x Hx. destruct (f x) eqn:E; [|done]. exfalso. eauto.
  - intros H (x&Hx&E). by rewrite (H x Hx) in E.
Qed.

(** What has distinct keys is known by its key. *)
Lemma same_key {A} (f : A → str) l a b : NoDup (f <$> l) → a ∈ l → b ∈ l → f a = f b → a = b.
Proof.
  intros Hnd (i&Hi)%list_elem_of_lookup (j&Hj)%list_elem_of_lookup E. assert (i = j) as ->; [|congruence].
  apply (NoDup_lookup (f <$> l) i j (f a)); [done|by rewrite list_lookup_fmap, Hi|by rewrite list_lookup_fmap, Hj, E].
Qed.
Lemma selected_get r k x : selected r k = Some x ↔ get (row_data r) k = Some (JStr x).
Proof. unfold selected. destruct (get (row_data r) k) as [[]|]; cbn; naive_solver. Qed.

(** *** Dates *)
Lemma iso_date_text s : re_test ISO_DATE s = true →
  ∃ y1 y2 y3 y4 m1 m2 d1 d2 rest, s = [y1; y2; y3; y4] ++ js "-" ++ [m1; m2] ++ js "-" ++ [d1; d2] ++ rest ∧ Forall (λ c, is_digit c = true) ([y1; y2; y3; y4] ++ [m1; m2] ++ [d1; d2])
    ∧ (rest = [] ∨ ∃ h1 h2 m1 m2 seconds, rest = js "T" ++ [h1; h2] ++ js ":" ++ [m1; m2] ++ seconds ∧ Forall (λ c, is_digit c = true) [h1; h2; m1; m2]).
Proof.
  rewrite re_test_correct. intros (i&k&H). unfold ISO_DATE, r_seq, r_digit, r_unit in H. cbn [foldr] in H. apply at_seq in H as (i0&Hstart&H). apply at_assert in Hstart as [Hb ->].
  assert (i = 0) as ->. { destruct i as [|i]; [done|]. cbn in Hb. apply bool_decide_eq_true in Hb. apply at_seq in H as (?&Hc&_). apply at_chr in Hc as (c&Hc%lookup_lt_Some&_). apply lookup_ge_None in Hb. lia. }
  do 10 (apply at_seq in H as (?&Hc&H); apply at_chr in Hc as (?&?&?&->)). apply at_seq in H as (j&Hopt&H).
  assert (j = 10 ∧ s !! 10 = None ∨ ∃ h1 h2 m1 m2, s !! 10 = Some (chr "T") ∧ s !! 11 = Some h1 ∧ s !! 12 = Some h2 ∧ s !! 13 = Some (chr ":") ∧ s !! 14 = Some m1 ∧ s !! 15 = Some m2 ∧ is_digit h1 = true ∧ is_digit h2 = true ∧ is_digit m1 = true ∧ is_digit m2 = true) as Hrest.
  { apply at_alt in Hopt as [Hopt|Hopt].
    - right. apply at_seq in Hopt as (?&Hclock&_). unfold r_clock, r_seq, r_digit, r_unit in Hclock. cbn [foldr] in Hclock. do 6 (apply at_seq in Hclock as (?&Hc&Hclock); apply at_chr in Hc as (?&?&?&->)).
      repeat match goal with H : N.eqb _ _ = true |- _ => apply N.eqb_eq in H; subst end. do 4 eexists. split_and!; eassumption.
    - left. inversion Hopt; subst. split; [done|]. apply at_seq in H as (?&H&_). apply at_assert in H as [H _]. by apply bool_decide_eq_true in H. }
  repeat match goal with H : N.eqb _ _ = true |- _ => apply N.eqb_eq in H; subst end.
  do 10 (destruct s as [|? s]; [done|]; cbn [lookup list_lookup] in *). simplify_eq. do 9 eexists. split; [reflexivity|]. split; [repeat constructor; done|].
  destruct Hrest as [[_ Hn]|(h1&h2&n1&n2&E1&E2&E3&E4&E5&E6&?)]; [left; by destruct s|right]. do 6 (destruct s as [|? s]; [done|]; cbn [lookup list_lookup] in *). simplify_eq. do 5 eexists. split; [reflexivity|]. repeat constructor; naive_solver.
Qed.
Lemma real_day ms : month_days (getUTCFullYear ms) (getUTCMonth ms + 1) (getUTCDate ms).
Proof.
  pose proof (month_bounds ms) as Hm. pose proof (date_bounds ms) as Hd. unfold month_days. revert Hm Hd. generalize (getUTCMonth ms), (getUTCFullYear ms), (getUTCDate ms). intros m y d Hm Hd.
  assert (is_leap y = true → leap_year y) as Hl. { unfold is_leap, leap_year. rewrite orb_true_iff, andb_true_iff, negb_true_iff, !Z.eqb_eq, Z.eqb_neq. done. }
  assert (m = 0 ∨ m = 1 ∨ m = 2 ∨ m = 3 ∨ m = 4 ∨ m = 5 ∨ m = 6 ∨ m = 7 ∨ m = 8 ∨ m = 9 ∨ m = 10 ∨ m = 11)%Z as Hcases by lia. clear Hm.
  destruct (is_leap y); [specialize (Hl eq_refl)|clear Hl]; destruct_or! Hcases; subst m;
    match type of Hd with context [DaysInMonth ?l ?k] => let v := eval vm_compute in (DaysInMonth l k) in change (DaysInMonth l k) with v in Hd end; unfold leap_year in *; lia.
Qed.
Section Facts.
Variable normalizeNFC : str → str.
Variable toLowerCase : str → str.
Variable dateParse : str → option Z.
Abbreviation valid := (isValidCell dateParse).

Lemma iso_dated s : isIsoDate dateParse s = true → dated s.
Proof.
  unfold isIsoDate. intros [[Hr _]%andb_true_iff [[Hy Hm]%andb_true_iff Hd]%andb_true_iff]%andb_true_iff. apply Z.eqb_eq in Hy, Hm, Hd. destruct (iso_date_text s Hr) as (y1&y2&y3&y4&m1&m2&d1&d2&rest&->&Hdig&Hrest).
  exists [y1; y2; y3; y4], [m1; m2], [d1; d2], rest. split_and!; try done. match type of Hy with getUTCFullYear ?ms = _ => pose proof (real_day ms) as Hreal end. rewrite Hy, Hm, Hd in Hreal. revert Hreal. clear. unfold digits, number_in. cbn [slice drop take app Nat.sub].
  change (js "-") with [chr "-"]. cbn [app drop take]. by rewrite Z.sub_add.
Qed.
Lemma valid_fits c v : valid c v = true → fits c v.
Proof.
  unfold isValidCell, fits, exceedsCellByteCap. destruct v; try done; destruct (col_type c); try done; try (by intros H%negb_true_iff%Nat.ltb_ge).
  - intros [H _]%andb_true_iff. by apply iso_dated.
  - intros H. by apply mem_str_iff.
Qed.
(** The cells that passed [validateCells]. *)
Lemma validateCells_inr columns (c : cells) t t' a : validateCells dateParse columns c t = inr (t', a) → t' = t ∧ ∀ k v, sent c k = Some v → ∃ col, col ∈ columns ∧ col_id col = k ∧ valid col v = true.
Proof.
  unfold validateCells. intros H. st_inv. split; [done|]. intros k v Hv. match goal with H : assertKnownColumns _ _ = _ |- _ => pose proof (assertKnown_inr _ _ _ H) as Hk end.
  destruct (find (invalid_column dateParse c) columns) as [?|] eqn:Hf; [done|]. rewrite find_is_None in Hf.
  assert (k ∈ col_id <$> columns) as (col&->&Hcol)%list_elem_of_fmap. { apply Hk. unfold sent in Hv. destruct (get c k) eqn:E; [|done]. by eapply get_key. }
  exists col. split; [done|]. split; [done|]. specialize (Hf col Hcol). unfold invalid_column in Hf. rewrite Hv in Hf. by apply negb_false_iff in Hf.
Qed.
Lemma normalize_get (c : cells) k : NoDup c.*1 → get (normalizeCells c) k = sent c k.
Proof.
  unfold normalizeCells, sent. induction c as [|[k0 o] c IH]; [done|]. cbn [fmap list_fmap fst]. intros [Hn Hnd]%list.NoDup_cons. cbn [omap list_omap fst snd]. destruct o as [v|]; cbn [fmap option_fmap option_map get].
  - destruct (str_eqb k0 k); [done|]. by apply IH.
  - rewrite IH by done. destruct (str_eqb k0 k) eqn:E; [|done]. apply str_eqb_eq in E as ->. destruct (get c k) as [o|] eqn:Hg; [|done]. apply get_key in Hg. done.
Qed.
Lemma normalize_keys (c : cells) : NoDup c.*1 → NoDup (normalizeCells c).*1.
Proof.
  intros H. eapply sublist_NoDup; [exact H|]. unfold normalizeCells. induction c as [|[k o] c IH]; [constructor|]. cbn [omap list_omap fmap list_fmap fst snd].
  apply list.NoDup_cons in H as [_ H]. destruct o; cbn; [apply sublist_skip|apply sublist_cons]; by apply IH.
Qed.

(** ** Statements *)
Lemma recordChange_inr s r actor at_ ch t t' a : recordChange s r actor at_ ch t = inr (t', a) → t' = recorded s r actor at_ ch t.
Proof. unfold recordChange. intros H. by st_inv. Qed.
(** What the writes of rows leave as it is. *)
Definition schema (t : datastores) := (ds_projects t, ds_logs t, ds_stores t, ds_columns t, ds_views t).
Definition same_schema (t t' : datastores) : Prop := schema t' = schema t.
#[export] Instance same_schema_preorder : PreOrder same_schema.
Proof. split; unfold same_schema; [done|]. intros ??? -> ->. done. Qed.
Lemma schema_columns t t' s : same_schema t t' → listColumns t' s = listColumns t s.
Proof. intros [=]. unfold listColumns, columns_of. congruence. Qed.
Lemma schema_key t t' s : same_schema t t' → naturalKeyOf t' s = naturalKeyOf t s.
Proof. intros [=]. unfold naturalKeyOf, findStore. congruence. Qed.
(** Rows were written, nothing else. *)
Definition rows_only (new : str * list str) (t t' : datastores) : Prop := changes new t t' ∧ same_schema t t'.
#[export] Instance rows_only_preorder new : PreOrder (rows_only new).
Proof. split; [done|]. intros t1 t2 t3 [H1 S1] [H2 S2]. split; [by transitivity t2|by transitivity t2]. Qed.
Lemma reading_rows_only {A} new (m : Sx A) : reading m → preserves (rows_only new) m.
Proof. intros H t t' a <-%H. reflexivity. Qed.

Lemma query_inr s wheres orderBy t t' rows : query toLowerCase dateParse s wheres orderBy None t = inr (t', rows) →
  t' = t ∧ (∀ id, id ∈ (where_column <$> wheres) → id ∈ col_id <$> listColumns t s) ∧ ∀ r, r ∈ rows ↔ (r ∈ ds_rows t ∧ row_storeId r = s) ∧ forallb (clause_holds toLowerCase dateParse (listColumns t s) r) wheres = true.
Proof.
  clear normalizeNFC. unfold query, runQuery. intros [-> H]%check_inr. split; [done|]. destruct (mem_str [] _); [done|]. destruct (assertKnownColumns _ _) as [|u] eqn:E; [done|]. injection H as <-.
  split; [intros id Hid; eapply assertKnown_inr; [exact E|]; apply elem_of_app; by left|]. intros r. rewrite sort_with_perm, list_elem_of_filter, elem_of_listRows. tauto.
Qed.
Lemma keyed_holds columns r k x col : columnById columns k = Some col → selected r k = Some x → clause_holds toLowerCase dateParse columns r (keyed k x) = true.
Proof.
  intros Hcol Hs. unfold clause_holds. cbn [where_column keyed]. rewrite Hcol. unfold matches, cell_of. cbn [where_op where_value keyed]. unfold selected in Hs.
  destruct (get (row_data r) k) as [v|]; [|done]. destruct v; try done. injection Hs as ->. cbn. apply str_eqb_refl.
Qed.
Lemma columnById_known columns id : id ∈ col_id <$> columns → ∃ c, columnById columns id = Some c ∧ c ∈ columns ∧ col_id c = id.
Proof.
  intros (c&->&Hc)%list_elem_of_fmap. destruct (columnById columns (col_id c)) as [c'|] eqn:E; [exists c'; split; [done|by apply columnById_elem]|].
  unfold columnById in E. rewrite find_is_None in E. specialize (E c Hc). by rewrite str_eqb_refl in E.
Qed.
Lemma key_checked s r patch t t' a : refuseNaturalKeyHeldByAnotherRow toLowerCase dateParse s r patch t = inr (t', a) → t' = t ∧ (NoDup patch.*1 → key_free t s r (normalizeCells patch)).
Proof.
  unfold refuseNaturalKeyHeldByAnotherRow. intros H. st_inv. destruct (naturalKeyOf t s) as [k|] eqn:Hk; cbn in H.
  2: { st_inv. split; [done|]. intros _ k x r'. by rewrite Hk. }
  destruct (sent patch k) as [v|] eqn:Hv; cbn in H; [destruct v as [| | |key| |]|].
  4: { apply bind_inr in H as (t1&held&Hq&H). apply query_inr in Hq as (->&Hknown&Hrows). apply refuse_when_inr in H as [-> H]. rewrite existsb_false in H. split; [done|]. intros Hnd k' x' row [= <-]%(eq_trans (eq_sym Hk)). rewrite normalize_get, Hv by done.
       intros [= <-] Hr Hs Hx. destruct (columnById_known (listColumns t s) k) as (col&Hcol&_). { apply Hknown. left. }
       assert (row ∈ held) as Hin. { apply Hrows. split; [done|]. cbn. by erewrite keyed_holds. } specialize (H row Hin). apply negb_false_iff, str_eqb_eq in H. done. }
  all: st_inv; split; [done|]; intros Hnd k' x' row [= <-]%(eq_trans (eq_sym Hk)); rewrite normalize_get, Hv by done; done.
Qed.
Definition cells_ok (s : str) (patch : cells) (t : datastores) : Prop := NoDup patch.*1 ∧ ∀ k v, sent patch k = Some v → cell_ok t s k v.
Lemma validated s (patch : cells) t t' a : validateCells dateParse (listColumns t s) patch t = inr (t', a) → NoDup patch.*1 → t' = t ∧ cells_ok s patch t.
Proof.
  intros [-> H]%validateCells_inr Hnd. split; [done|]. split; [done|]. intros k v (c&[Hc Hs]%elem_of_listColumns&E&Hv)%H. exists c. split; [done|]. split; [done|]. split; [done|]. by apply valid_fits.
Qed.
Lemma cells_ok_get s patch t k v : cells_ok s patch t → get (normalizeCells patch) k = Some v → cell_ok t s k v.
Proof. intros [Hnd H]. rewrite normalize_get by done. apply H. Qed.
Lemma cells_ok_schema s patch t t' : same_schema t t' → cells_ok s patch t → cells_ok s patch t'.
Proof. intros [= _ _ _ E _] [Hnd H]. split; [done|]. intros k v (c&Hc&Hr)%H. exists c. by rewrite E. Qed.

Lemma repo_updateRow_rows new r s patch rev actor at_ t t' a : cells_ok s patch t → key_free t s r (normalizeCells patch) → repo_updateRow r s patch rev actor at_ t = inr (t', a) → rows_only new t t'.
Proof.
  unfold repo_updateRow. intros Hok Hkey (t1&row&[-> Hr]%check_inr&H)%bind_inr. destruct (findRow t r s) as [row'|] eqn:E; [|done]. injection Hr as ->. apply findRow_at in E as (Hr&<-&<-).
  unfold refuseUnknownColumns in H. st_inv. destruct (diffCells _ _) as [|d0 dl] eqn:Hd; [by st_inv|]. rewrite <- Hd in H. apply bind_inr in H as (t2&[]&->%writes_inr&H).
  apply bind_inr in H as (t3&[]&->%recordChange_inr&[-> _]%ret_inr). split; [|done]. apply rtc_once. apply ch_row_changed; [done|apply normalize_keys, Hok|by rewrite Hd|intros k v; by apply cells_ok_get|done].
Qed.
Lemma repo_insertRow_rows new s id data actor at_ t t' a : s = new.1 → id ∈ new.2 → cells_ok s data t → key_free t s id (normalizeCells data) → repo_insertRow s id data actor at_ t = inr (t', a) → rows_only new t t'.
Proof.
  unfold repo_insertRow, refuseMissingStore, refuseUnknownColumns. intros Hs Hnew Hok Hkey H. st_inv. match goal with H : recordChange _ _ _ _ _ _ = _ |- _ => apply recordChange_inr in H as -> end. split; [|done]. apply rtc_once.
  apply (ch_row_inserted new t (mkRow id s (normalizeCells data) FIRST_ROW_REV at_ at_)); try done.
  - cbn. intros Hin%mem_str_iff. congruence.
  - cbn. intros k v. by apply cells_ok_get.
Qed.
Lemma stamped_keys (daemonSet : list DsColumn) (c : cells) at_ : NoDup c.*1 → NoDup (withDaemonSetCells daemonSet c at_).*1.
Proof.
  unfold withDaemonSetCells, spread. revert c. induction daemonSet as [|col l IH]; intros c Hc; [done|]. cbn [fmap list_fmap fold_left]. apply IH, put_keys_NoDup, Hc.
Qed.

(** ** Loops *)
Lemma mapTx_steps {A B} (R : relation datastores) `{!PreOrder R} (f : A → Sx B) (P : A → datastores → Prop) l t t' bs :
  (∀ x t t' b, x ∈ l → P x t → f x t = inr (t', b) → R t t') → (∀ x t t', R t t' → P x t → P x t') → (∀ x, x ∈ l → P x t) → mapTx f l t = inr (t', bs) → R t t'.
Proof.
  intros Hf HP. revert t bs. induction l as [|x l IH]; intros t bs Hl H; cbn in H; [by st_inv|]. apply bind_inr in H as (t1&b&Hx&H). apply bind_inr in H as (t2&bs'&H&[-> _]%ret_inr). assert (R t t1) as H1 by (eapply (Hf x); [left|apply Hl; left|done]).
  etrans; [exact H1|]. eapply IH; [intros y t3 t4 b' Hy HPy Hfy; apply (Hf y t3 t4 b'); [by right|done|done]| |done]. intros y Hy. eapply HP; [exact H1|]. apply Hl. by right.
Qed.
Lemma each_checked {A} (f : A → Sx unit) (P : A → Prop) l t t' a : (∀ x t' a, x ∈ l → f x t = inr (t', a) → t' = t ∧ P x) → each f l t = inr (t', a) → t' = t ∧ ∀ x, x ∈ l → P x.
Proof.
  intros Hf. induction l as [|x l IH]; cbn; intros H; [st_inv; split; [done|]; by intros ? ?%elem_of_nil|]. apply bind_inr in H as (t1&[]&Hx&H). destruct (Hf _ _ _ ltac:(left) Hx) as [-> HP].
  destruct (IH ltac:(intros; eapply Hf; [by right|done]) H) as [-> Hl]. split; [done|]. intros y [->|Hy]%elem_of_cons; [done|by apply Hl].
Qed.
Lemma preserves_mapTx {A B} (R : relation datastores) `{!PreOrder R} (f : A → Sx B) l : (∀ x, preserves R (f x)) → preserves R (mapTx f l).
Proof. intros Hf t t' bs. eapply (mapTx_steps R f (λ _ _, True)); [intros; by eapply Hf|done|done]. Qed.

(** ** Calls that only read *)
Abbreviation guard_name := (normalizeName normalizeNFC).
Abbreviation guard_row := (refuseRowGuardViolation normalizeNFC toLowerCase).
Abbreviation guard_kind := (refuseKindOutsideManagerLogList toLowerCase).
Abbreviation guard_backlog := (refuseInsertIntoSharedBacklog normalizeNFC toLowerCase).
Abbreviation guard_key := (refuseNaturalKeyHeldByAnotherRow toLowerCase dateParse).
Ltac solve_reading := tx_preserves; try apply _.
Lemma reading_authorize s p : reading (authorize s p).
Proof. apply preserves_refuse_when. Qed.
Lemma reading_name n : reading (guard_name n).
Proof. unfold normalizeName. solve_reading. Qed.
Lemma reading_kind s columns c : reading (guard_kind s columns c).
Proof. unfold refuseKindOutsideManagerLogList. solve_reading. Qed.
Lemma reading_backlog s p actor b : reading (guard_backlog s p actor b).
Proof. unfold refuseInsertIntoSharedBacklog. solve_reading. Qed.
Lemma reading_row_guard s r p patch : reading (guard_row s r p patch).
Proof. apply preserves_check. Qed.
Lemma reading_capacity s n : reading (assertRowCapacity s n).
Proof. apply preserves_refuse_when. Qed.
Lemma reading_daemon_cells s patch : reading (refuseDaemonSetCells s patch).
Proof. apply preserves_refuse_when. Qed.
Lemma reading_query s wheres orderBy limit : reading (query toLowerCase dateParse s wheres orderBy limit).
Proof. apply preserves_check. Qed.
Lemma reading_definition type options : reading (validateColumnDefinition type options).
Proof. unfold validateColumnDefinition. solve_reading. Qed.
#[local] Hint Resolve reading_definition : tx.
Lemma reading_replaced column l : reading (replacedOptions toLowerCase column l).
Proof.
  unfold replacedOptions. apply preserves_bind; [apply _|auto with tx|]. intros _. apply preserves_bind; [apply _| |intros options; solve_reading].
  apply preserves_mapTx; [apply _|]. intros r. unfold replaced_option. solve_reading.
Qed.
Lemma reading_display s c d : reading (requireDisplayColumn s c d).
Proof. unfold requireDisplayColumn. solve_reading. Qed.
#[local] Hint Resolve reading_display : tx.
Lemma reading_metadata s c ch : reading (metadataAfter s c ch).
Proof. unfold metadataAfter. solve_reading. Qed.
Lemma reading_config s type config bytes : reading (validatedConfig s type config bytes).
Proof. unfold validatedConfig. solve_reading. Qed.
Lemma reading_view v p : reading (authorizeView v p).
Proof. apply preserves_check. Qed.
Lemma reading_options s c options : reading (refuseOptionsStillHeldByRows s c options).
Proof. unfold refuseOptionsStillHeldByRows. solve_reading. Qed.
#[local] Hint Resolve reading_authorize reading_name reading_kind reading_backlog reading_row_guard reading_capacity reading_daemon_cells reading_query reading_replaced reading_metadata reading_config reading_view reading_options : tx.
(** Runs a call that only reads. *)
Ltac reading_step H := let t1 := fresh "t" in let x := fresh "x" in let H1 := fresh "Hc" in let E := fresh in
  apply bind_inr in H as (t1&x&H1&H); assert (_ = t1) as E by (refine ((_ : reading _) _ _ _ H1); auto with tx); subst t1; try clear E.

(** ** Rows *)
Lemma write_insert_rows new s actor daemonSet i t t' a : s = new.1 → ins_id i ∈ new.2 → cells_ok s (withDaemonSetCells daemonSet (ins_data i) (ins_at i)) t → write_insert toLowerCase dateParse s actor daemonSet i t = inr (t', a) → rows_only new t t'.
Proof. unfold write_insert. intros Hs Hnew Hok (t1&[]&[-> Hkey]%key_checked&H)%bind_inr. eapply repo_insertRow_rows; [done|done|done|apply Hkey, Hok|exact H]. Qed.
Lemma write_update_rows new s p actor u t t' a : cells_ok s (upd_patch u) t → write_update normalizeNFC toLowerCase dateParse s p actor u t = inr (t', a) → rows_only new t t'.
Proof. unfold write_update. intros Hok (t1&[]&[-> Hkey]%key_checked&H)%bind_inr. reading_step H. eapply repo_updateRow_rows; [done|apply Hkey, Hok|exact H]. Qed.
Lemma insertRow_rows new s p actor b i t t' a : s = new.1 → ins_id i ∈ new.2 → NoDup (ins_data i).*1 → insertRow normalizeNFC toLowerCase dateParse s p actor b i t = inr (t', a) → rows_only new t t'.
Proof.
  unfold insertRow. intros Hs Hnew Hnd H. do 2 reading_step H. apply bind_inr in H as (t1&columns&[-> ->]%reads_inr&H). cbv zeta in H. apply bind_inr in H as (t1&[]&Hv&H).
  apply validated in Hv as [-> Hok]; [|by apply stamped_keys]. do 2 reading_step H. by eapply write_insert_rows.
Qed.
Lemma insertRows_rows new s p actor b items t t' a :
  s = new.1 → (∀ i, i ∈ items → ins_id i ∈ new.2 ∧ NoDup (ins_data i).*1) → insertRows normalizeNFC toLowerCase dateParse s p actor b items t = inr (t', a) → rows_only new t t'.
Proof.
  unfold insertRows. intros Hs Hitems H. do 2 reading_step H. apply bind_inr in H as (t1&columns&[-> ->]%reads_inr&H). apply bind_inr in H as (t1&[]&Hv&H).
  apply (each_checked _ (λ i, cells_ok s (withDaemonSetCells (daemonSetColumns (listColumns t s)) (ins_data i) (ins_at i)) t)) in Hv as [-> Hok].
  2: { intros i t2 [] Hi (t3&[]&Hv'&Hk)%bind_inr. apply validated in Hv' as [-> Hok]; [|by apply stamped_keys, Hitems]. split; [|done]. symmetry. exact (reading_kind _ _ _ _ _ _ Hk). }
  reading_step H. revert H. apply (mapTx_steps _ _ (λ i, cells_ok s (withDaemonSetCells (daemonSetColumns (listColumns t s)) (ins_data i) (ins_at i)))); [|intros i t1 t2 [_ Hsc]; by apply cells_ok_schema|done].
  intros i t1 t2 r Hi Hok'. apply write_insert_rows; [done|by apply Hitems|done].
Qed.
Lemma updateRow_rows new s r p patch actor at_ t t' a : NoDup patch.*1 → updateRow normalizeNFC toLowerCase dateParse s r p patch actor at_ t = inr (t', a) → rows_only new t t'.
Proof.
  unfold updateRow. intros Hnd H. do 2 reading_step H. apply bind_inr in H as (t1&columns&[-> ->]%reads_inr&H). apply bind_inr in H as (t1&[]&Hv&H). apply validated in Hv as [-> Hok]; [|done].
  reading_step H. apply bind_inr in H as (t1&[]&[-> Hkey]%key_checked&H). reading_step H. eapply repo_updateRow_rows; [done|by apply Hkey|exact H].
Qed.
Lemma updateRows_rows new s p items actor t t' a : (∀ u, u ∈ items → NoDup (upd_patch u).*1) → updateRows normalizeNFC toLowerCase dateParse s p items actor t = inr (t', a) → rows_only new t t'.
Proof.
  unfold updateRows. intros Hitems H. reading_step H. apply bind_inr in H as (t1&columns&[-> ->]%reads_inr&H). apply bind_inr in H as (t1&[]&Hv&H).
  apply (each_checked _ (λ u, cells_ok s (upd_patch u) t)) in Hv as [-> Hok].
  2: { intros u t2 [] Hu Hv'. reading_step Hv'. apply bind_inr in Hv' as (t3&[]&Hw&Hk). apply validated in Hw as [-> Hok]; [|by apply Hitems]. split; [|done]. symmetry. exact (reading_kind _ _ _ _ _ _ Hk). }
  revert H. apply (mapTx_steps _ _ (λ u, cells_ok s (upd_patch u))); [|intros u t1 t2 [_ Hs]; by apply cells_ok_schema|done]. intros u t1 t2 r Hu. apply write_update_rows.
Qed.
Lemma updateRowsWhere_rows new s p wheres set actor clock t t' a : NoDup set.*1 → updateRowsWhere normalizeNFC toLowerCase dateParse s p wheres set actor clock t = inr (t', a) → rows_only new t t'.
Proof.
  unfold updateRowsWhere. intros Hnd H. do 2 reading_step H. apply bind_inr in H as (t1&columns&[-> ->]%reads_inr&H). apply bind_inr in H as (t1&[]&Hv&H). apply validated in Hv as [-> _]; [|done].
  reading_step H. apply bind_inr in H as (t1&k&[-> ->]%reads_inr&H). reading_step H. apply bind_inr in H as (t1&rows&Hu&[-> _]%ret_inr). eapply updateRows_rows; [|exact Hu].
  by intros u (r&->&_)%list_elem_of_fmap.
Qed.
Lemma saveRow_rows new s p actor b mode i t t' a : s = new.1 → ins_id i ∈ new.2 → NoDup (ins_data i).*1 → saveRow normalizeNFC toLowerCase dateParse s p actor b mode i t = inr (t', a) → rows_only new t t'.
Proof.
  unfold saveRow. intros Hs Hnew Hnd H. reading_step H. apply bind_inr in H as (t1&k&[-> ->]%reads_inr&H).
  assert (∀ t1, (row ← insertRow normalizeNFC toLowerCase dateParse s p actor b i; mret (Inserted, row)) t = inr (t1, a) → rows_only new t t1) as Hins.
  { intros t1 (t2&row&Hi&[-> _]%ret_inr)%bind_inr. by eapply insertRow_rows. }
  destruct (naturalKeyOf t s) as [k|]; [|destruct (bool_decide _); [by st_inv|by apply Hins]]. destruct (sent (ins_data i) k) as [v|]; [|destruct (bool_decide _); [by apply Hins|by st_inv]].
  destruct v as [| | |key| |]; [destruct (bool_decide _); [by apply Hins|by st_inv]|by st_inv|by st_inv| |by st_inv|by st_inv].
  apply bind_inr in H as (t1&held&Hq&H). apply (reading_query _ _ _ _) in Hq as <-. destruct held as [|row [|]]; [destruct (bool_decide _); [by st_inv|by apply Hins]| |by st_inv].
  destruct (bool_decide _); [by st_inv|]. apply bind_inr in H as (t1&ds&[-> ->]%reads_inr&H). apply bind_inr in H as (t1&r'&Hu&[-> _]%ret_inr). eapply updateRow_rows; [|exact Hu]. by apply del_keys_NoDup.
Qed.
Lemma deleteRow_changes new s r p actor at_ t t' a : new.2 = [] → deleteRow s r p actor at_ t = inr (t', a) → changes new t t'.
Proof.
  unfold deleteRow, repo_deleteRow. intros Hnone H. reading_step H. apply bind_inr in H as (t1&[]&Hr&->%writes_inr). assert (∃ row, row_at t s r row) as (row&Hrow&<-&<-).
  { unfold recordChange in Hr. st_inv. apply negb_false_iff, bool_decide_eq_true in H0 as [row Hrow]. exists row. by apply findRow_at. }
  apply recordChange_inr in Hr as ->. apply rtc_once. by apply (ch_row_deleted new t row actor at_).
Qed.

(** ** Columns *)
Lemma elem_of_update_row t r s f x : x ∈ ds_rows (update_row r s f t) ↔ (∃ y, row_at t s r y ∧ x = f y) ∨ (x ∈ ds_rows t ∧ ¬ (row_id x = r ∧ row_storeId x = s)).
Proof.
  unfold update_row, row_at. cbn. rewrite list_elem_of_fmap. split.
  - intros (y&->&Hy). destruct (str_eqb (row_id y) r && str_eqb (row_storeId y) s) eqn:E; [left; exists y; apply andb_true_iff in E as [E1%str_eqb_eq E2%str_eqb_eq]; done|].
    right. split; [done|]. intros [<- <-]. by rewrite !str_eqb_refl in E.
  - intros [(y&(Hy&<-&<-)&->)|[Hx Hn]]; [exists y; by rewrite !str_eqb_refl|]. exists x. split; [|done]. destruct (str_eqb (row_id x) r) eqn:E1; [|done]. destruct (str_eqb (row_storeId x) s) eqn:E2; [|done].
    apply str_eqb_eq in E1, E2. by destruct Hn.
Qed.
Lemma update_row_ids t r s f : (∀ y, row_at t s r y → row_id (f y) = row_id y) → row_id <$> ds_rows (update_row r s f t) = row_id <$> ds_rows t.
Proof.
  intros Hf. unfold update_row. cbn. rewrite <- list_fmap_compose. apply list_fmap_ext. intros i y Hy%list_elem_of_lookup_2. cbn. destruct (str_eqb (row_id y) r && _) eqn:E; [|done].
  apply andb_true_iff in E as [E1%str_eqb_eq E2%str_eqb_eq]. by apply Hf.
Qed.
Lemma same_id_same_row t r1 r2 : NoDup (row_ids t) → r1 ∈ ds_rows t → r2 ∈ ds_rows t → row_id r1 = row_id r2 → r1 = r2.
Proof. apply same_key. Qed.
(** While the cells of a column are cleared: the rows to come are as they were, the others do not hold the cell. *)
Record clearing (s columnId : str) (rest : list DsRow) (t : datastores) : Prop := mkClearing
  { cl_ids : NoDup (row_ids t); cl_rest : NoDup (row_id <$> rest); cl_there : ∀ r, r ∈ rest → r ∈ ds_rows t ∧ row_storeId r = s;
    cl_done : ∀ r, r ∈ ds_rows t → row_storeId r = s → r ∈ rest ∨ get (row_data r) columnId = None }.
Lemma clearCell_step new s columnId actor at_ row rest t t' a : naturalKeyOf t s ≠ Some columnId → clearing s columnId (row :: rest) t → clearCell columnId actor at_ row t = inr (t', a) →
  rows_only new t t' ∧ clearing s columnId rest t'.
Proof.
  intros Hkey [H1 H2 H3 H4] H. cbn in H2. apply list.NoDup_cons in H2 as [Hn H2]. unfold clearCell in H. destruct (H3 row ltac:(left)) as [Hrow Hs]. destruct (get (row_data row) columnId) as [from|] eqn:Hg.
  2: { st_inv. split; [reflexivity|]. split; [done|done|intros r Hr; apply H3; by right|]. intros r Hr Hrs. destruct (H4 r Hr Hrs) as [[->|Hin]%elem_of_cons|?]; auto. }
  apply bind_inr in H as (t1&[]&->%writes_inr&->%recordChange_inr). split; [split; [|done]; apply rtc_once, ch_cell_cleared; [done|done|by rewrite Hs]|].
  pose proof (λ x, elem_of_update_row t (row_id row) (row_storeId row) (cleared row columnId at_) x) as Hup. split.
  - cbn [recorded ds_rows]. by rewrite update_row_ids.
  - done.
  - intros r Hr. destruct (H3 r ltac:(by right)) as [Hin Hrs]. split; [|done]. cbn [recorded ds_rows]. apply Hup. right. split; [done|]. intros [E _]. apply Hn. rewrite <- E. by apply list_elem_of_fmap_2.
  - cbn [recorded ds_rows]. intros r [(y&_&->)|[Hr Hne]]%Hup Hrs; [right; apply get_del_eq|]. destruct (H4 r Hr Hrs) as [[->|Hin]%elem_of_cons|?]; auto. by destruct Hne.
Qed.
Lemma clear_all new s columnId actor at_ rows t t' a : naturalKeyOf t s ≠ Some columnId → clearing s columnId rows t → each (clearCell columnId actor at_) rows t = inr (t', a) → rows_only new t t' ∧ clearing s columnId [] t'.
Proof.
  revert t. induction rows as [|row rows IH]; intros t Hkey Hcl H; cbn in H; [st_inv; by split|]. apply bind_inr in H as (t1&[]&Hx&H). eapply clearCell_step in Hx as [R1 Hcl1]; [|done|done].
  destruct (IH t1) as [R2 Hcl2]; [by rewrite (schema_key t t1) by apply R1|done|done|]. split; [by transitivity t1|done].
Qed.
Lemma reorder_changes new s ids t t' a : repo_reorderColumns s ids t = inr (t', a) → changes new t t'.
Proof. unfold repo_reorderColumns. revert t t' a. apply preserves_each; [apply _|]. intros e. apply preserves_writes. intros t. apply rtc_once, ch_column_moved. Qed.
Lemma repo_deleteColumn_changes new s id actor at_ t t' a : NoDup (row_ids t) → naturalKeyOf t s ≠ Some id → (∀ v, v ∈ ds_views t → v_storeId v = s → id ∉ config_columns (v_config v)) →
  (∀ c, c ∈ columns_of t s → col_display c ≠ Some id) → repo_deleteColumn s id actor at_ t = inr (t', a) → changes new t t'.
Proof.
  unfold repo_deleteColumn. intros Hids Hkey Hviews Hdisplay H. apply bind_inr in H as (t1&rows&[-> ->]%reads_inr&H). apply bind_inr in H as (t1&[]&Hcl&H).
  apply (clear_all new s) in Hcl as [[R1 Hs] Hcl]; [|done|].
  2: { split; [done| |by intros r Hr%elem_of_listRows|intros r Hr Hrs; left; by apply elem_of_listRows]. unfold listRows, rows_of_store. rewrite sort_with_perm. eapply sublist_NoDup; [exact Hids|]. apply fmap_sublist, sublist_filter. }
  apply bind_inr in H as (t2&[]&->%writes_inr&H). apply bind_inr in H as (t2&ids&[-> ->]%reads_inr&H). etrans; [exact R1|]. pose proof Hs as [= _ _ E1 E2 E3]. eapply rtc_l; [|by eapply reorder_changes].
  apply ch_column_removed; [intros r Hr Hrs; by destruct (cl_done _ _ _ _ Hcl r Hr Hrs) as [?%elem_of_nil|?]|by rewrite (schema_key _ _ _ Hs)|by rewrite E3|].
  intros c. unfold columns_of. rewrite E2. apply Hdisplay.
Qed.
Lemma find_none_fresh {A} (f : A → str) (l : list A) id : bool_decide (is_Some (find (λ x, str_eqb (f x) id) l)) = false → id ∉ f <$> l.
Proof.
  rewrite bool_decide_eq_false. intros H (x&->&Hx)%list_elem_of_fmap. destruct (find _ l) eqn:E; [by apply H|]. rewrite find_is_None in E. specialize (E x Hx). by rewrite str_eqb_refl in E.
Qed.
Lemma createStore_changes new id p name at_ t t' a : createStore normalizeNFC id p name at_ t = inr (t', a) → changes new t t'.
Proof.
  unfold createStore, repo_createStore. intros H. reading_step H. st_inv. apply rtc_once. apply (ch_store_created new t (mkStore id p x None at_ at_)); [by apply find_none_fresh|done].
Qed.
Lemma deleteColumn_changes new s p id actor at_ t t' a : NoDup (row_ids t) → deleteColumn s p id actor at_ t = inr (t', a) → changes new t t'.
Proof.
  unfold deleteColumn, requireColumn. intros Hids H. reading_step H. apply bind_inr in H as (t1&c&[-> _]%check_inr&H). apply bind_inr in H as (t1&[]&[-> Hkey%bool_decide_eq_false]%refuse_when_inr&H).
  apply bind_inr in H as (t1&[]&[-> Hv]%refuse_when_inr&H). apply bind_inr in H as (t1&[]&[-> Hd]%refuse_when_inr&H). rewrite existsb_false in Hv. rewrite existsb_false in Hd. eapply repo_deleteColumn_changes; [done|done| | |exact H].
  - intros v Hin Hs Hcol. specialize (Hv v (proj2 (elem_of_listViews t s v) (conj Hin Hs))). rewrite (proj2 (mem_str_iff _ _) Hcol) in Hv. done.
  - intros c' Hcol E. specialize (Hd c'). rewrite elem_of_listColumns, <- elem_of_columns_of in Hd. specialize (Hd Hcol). by rewrite bool_decide_eq_true_2 in Hd.
Qed.
Lemma setNaturalKey_changes new s p k at_ t t' a : setNaturalKey s p k at_ t = inr (t', a) → changes new t t'.
Proof.
  unfold setNaturalKey, setNaturalKeyColumn, refuseMissingStore. intros H. reading_step H. apply bind_inr in H as (t1&[]&Hk&H).
  assert (t1 = t ∧ ∀ id, k = Some id → (∃ c, c ∈ ds_columns t ∧ col_storeId c = s ∧ col_id c = id ∧ col_type c = TextColumn) ∧ NoDup (held_texts t s id)) as [-> Hready].
  { destruct k as [id|]; [|by st_inv]. apply bind_inr in Hk as (t2&[]&[-> Htype%negb_false_iff%bool_decide_eq_true]%refuse_when_inr&[-> Hn%negb_false_iff%bool_decide_eq_true]%refuse_when_inr). split; [done|]. intros id' [= <-]. split; [|done].
    destruct (columnById _ id) as [c|] eqn:E; [|done]. injection Htype as Htype. apply columnById_elem in E as [[Hin Hs]%elem_of_listColumns Hid]. by exists c. }
  st_inv. apply rtc_once, ch_key. intros id ->. split; [by intros -> |by apply Hready].
Qed.
Lemma addColumn_changes new s p id name type format options auto at_ t t' a : addColumn normalizeNFC s p id name type format options auto at_ t = inr (t', a) → changes new t t'.
Proof.
  unfold addColumn, repo_addColumn, refuseMissingStore. intros H. do 3 reading_step H. st_inv. apply rtc_once. apply ch_column_added; [|done]. cbn. intros Hin%mem_str_iff. congruence.
Qed.
Lemma requireColumn_inr s id t t' c : requireColumn s id t = inr (t', c) → t' = t ∧ c ∈ ds_columns t ∧ col_storeId c = s ∧ col_id c = id.
Proof.
  unfold requireColumn. intros [-> H]%check_inr. destruct (columnById _ id) as [c'|] eqn:E; [|done]. injection H as ->. apply columnById_elem in E as [[Hin Hs]%elem_of_listColumns Hid]. done.
Qed.
Lemma metadata_display s c ch t t' m d : metadataAfter s c ch t = inr (t', m) → md_display m = Some d → d ∈ col_id <$> columns_of t s ∧ meets_cycle (listColumns t s) (col_id c) d = false.
Proof.
  unfold metadataAfter. intros H Hd. cbv zeta in H. do 2 reading_step H. apply bind_inr in H as (t1&[]&Hdis&[-> ->]%ret_inr). cbn in Hd. rewrite Hd in Hdis. unfold requireDisplayColumn in Hdis. st_inv. split; [|done].
  match goal with H : negb _ = false |- _ => apply negb_false_iff, mem_str_iff, list_elem_of_fmap in H as (c'&->&Hc') end. apply list_elem_of_fmap_2, elem_of_columns_of. by apply elem_of_listColumns.
Qed.
Lemma updateColumn_changes new s p id changes_ at_ t t' a : updateColumn normalizeNFC toLowerCase s p id changes_ at_ t = inr (t', a) → changes new t t'.
Proof.
  unfold updateColumn. intros H. do 2 reading_step H. apply bind_inr in H as (t1&c&(->&Hcol&<-&<-)%requireColumn_inr&H). apply bind_inr in H as (t1&name&Hname&H).
  assert (t1 = t) as ->. { destruct (ch_name changes_); [symmetry; exact (reading_name _ _ _ _ Hname)|by st_inv]. } apply bind_inr in H as (t1&options&Hopt&H).
  assert (t1 = t ∧ (ch_options changes_ = None → options = col_options c)) as [-> Hkept]. { destruct (ch_options changes_); [split; [symmetry; exact (reading_replaced _ _ _ _ _ Hopt)|done]|by st_inv]. }
  apply bind_inr in H as (t1&m&Hm&H). pose proof (reading_metadata _ _ _ _ _ _ Hm) as <-. pose proof (λ d, metadata_display _ _ _ _ _ _ d Hm) as Hdisplay. apply bind_inr in H as (t1&[]&Hheld&H).
  assert (t1 = t ∧ (options = col_options c ∨ ∀ x, x ∈ held_texts t (col_storeId c) (col_id c) → x ∈ opt_id <$> default [] options)) as [-> Hoptions].
  { destruct (ch_options changes_) as [l|] eqn:E; [|st_inv; auto]. split; [symmetry; exact (reading_options _ _ _ _ _ _ Hheld)|]. unfold refuseOptionsStillHeldByRows in Hheld. destruct (bool_decide _) eqn:Et.
    - apply refuse_when_inr in Hheld as [_ Hheld]. rewrite existsb_false in Hheld. right. intros o Ho. specialize (Hheld o Ho). by apply negb_false_iff, mem_str_iff in Hheld.
    - exfalso. unfold replacedOptions in Hopt. apply bind_inr in Hopt as (t2&[]&[_ Hsel]%refuse_when_inr&_). by rewrite Et in Hsel. }
  unfold repo_updateColumn in H. apply bind_inr in H as (t1&[]&Hw&H). st_inv. eapply rtc_l; [by apply (ch_column_updated new t c name options m)|].
  destruct (ch_naturalKey changes_) as [b|]; [|st_inv; reflexivity]. unfold applyNaturalKeyChoice in H. destruct b; [by eapply setNaturalKey_changes|]. apply bind_inr in H as (t1&b&[-> ->]%reads_inr&H).
  match type of H with (if ?b then _ else _) _ = _ => destruct b end; [by eapply setNaturalKey_changes|st_inv; reflexivity].
Qed.
(** ** Views *)
Lemma config_columns_known s type config bytes t t' a : validatedConfig s type config bytes t = inr (t', a) → t' = t ∧ ∀ k, k ∈ config_columns config → k ∈ col_id <$> columns_of t s.
Proof.
  intros H. split; [symmetry; exact (reading_config _ _ _ _ _ _ _ H)|]. unfold validatedConfig in H. st_inv. match goal with H : assertKnownColumns _ _ = _ |- _ => pose proof (assertKnown_inr _ _ _ H) as Hk end.
  intros k (c&->&Hc)%Hk%list_elem_of_fmap. apply list_elem_of_fmap_2, elem_of_columns_of. by apply elem_of_listColumns.
Qed.
Lemma createView_changes new s p id name type config bytes at_ t t' a : createView normalizeNFC s p id name type config bytes at_ t = inr (t', a) → changes new t t'.
Proof.
  unfold createView, repo_insertView, refuseMissingStore. intros H. do 2 reading_step H. apply bind_inr in H as (t1&[]&[-> Hk]%config_columns_known&H). st_inv. apply rtc_once.
  apply (ch_view_added new t (mkView id s x0 type config _ at_)); [by apply find_none_fresh|done].
Qed.
Lemma authorizeView_inr v p t t' view : authorizeView v p t = inr (t', view) → t' = t ∧ findView t v = Some view ∧ v_id view = v.
Proof.
  unfold authorizeView. intros [-> H]%check_inr. split; [done|]. destruct (findView t v) as [w|] eqn:E; [|done]. destruct (bool_decide _); [|done]. injection H as ->. split; [done|].
  by apply find_elem in E as [_ E%str_eqb_eq].
Qed.
Lemma updateView_changes new v p config bytes t t' a : updateView v p config bytes t = inr (t', a) → changes new t t'.
Proof.
  unfold updateView, repo_updateView. intros H. apply bind_inr in H as (t1&view&(->&Hf&<-)%authorizeView_inr&H). apply bind_inr in H as (t1&[]&[-> Hk]%config_columns_known&H). st_inv. by apply rtc_once, ch_view_updated.
Qed.
End Facts.

(** ** Every call is a sequence of changes *)
(** The rows a call may insert, and the objects it is given. *)
Definition new_rows (e : StoreCall) : str * list str :=
  match e with RowInserted s _ _ _ i | RowSaved s _ _ _ _ i => (s, [ins_id i]) | RowsInserted s _ _ _ items => (s, ins_id <$> items) | _ => ([], []) end.
Definition objects_of (e : StoreCall) : list cells :=
  match e with
  | RowInserted _ _ _ _ i | RowSaved _ _ _ _ _ i => [ins_data i]
  | RowsInserted _ _ _ _ items => ins_data <$> items
  | RowUpdated_ _ _ _ patch _ _ => [patch]
  | RowsUpdated _ _ items _ => upd_patch <$> items
  | RowsUpdatedWhere _ _ _ set _ _ => [set]
  | _ => []
  end.
(** The keys of an object are distinct. *)
Definition well_keyed (e : StoreCall) : Prop := Forall (λ c : cells, NoDup c.*1) (objects_of e).

Section Calls.
Variable normalizeNFC : str → str.
Variable toLowerCase : str → str.
Variable dateParse : str → option Z.
Abbreviation run := (run_call normalizeNFC toLowerCase dateParse).
Abbreviation next := (store_step normalizeNFC toLowerCase dateParse).
Lemma ignoring_inr {A} (m : Sx A) t t' a : ignoring m t = inr (t', a) → ∃ b, m t = inr (t', b).
Proof. unfold ignoring. intros (t1&b&H&[-> _]%ret_inr)%bind_inr. by exists b. Qed.
Lemma call_changes e t t' a : NoDup (row_ids t) → well_keyed e → run e t = inr (t', a) → changes (new_rows e) t t'.
Proof.
  intros Hids Hw H. destruct e; cbn in H; try (apply ignoring_inr in H as [b H]); unfold well_keyed in Hw; cbn in Hw; rewrite ?Forall_singleton in Hw; cbn [new_rows].
  - by eapply createStore_changes.
  - unfold deleteStore, repo_deleteStore in H. st_inv. eapply (reading_authorize _ _) in H0 as <-. by apply rtc_once, ch_store_dropped.
  - by eapply addColumn_changes.
  - by eapply updateColumn_changes.
  - by eapply deleteColumn_changes.
  - unfold reorderColumns in H. apply bind_inr in H as (t1&[]&Ha&H). apply reading_authorize in Ha as <-. apply bind_inr in H as (t1&[]&[-> _]%refuse_when_inr&H). by eapply reorder_changes.
  - by eapply setNaturalKey_changes.
  - eapply insertRow_rows; [done|left|done|exact H].
  - eapply insertRows_rows; [done| |exact H]. intros i0 Hi. split; [by apply list_elem_of_fmap_2|]. rewrite Forall_fmap, list.Forall_forall in Hw. by apply (Hw i0).
  - eapply saveRow_rows; [done|left|done|exact H].
  - by eapply updateRow_rows.
  - eapply updateRows_rows; [|exact H]. intros u Hu. rewrite Forall_fmap, list.Forall_forall in Hw. by apply (Hw u).
  - by eapply updateRowsWhere_rows.
  - by eapply deleteRow_changes.
  - by eapply createView_changes.
  - by eapply updateView_changes.
  - unfold deleteView, repo_deleteView in H. apply bind_inr in H as (t1&w&Ha&->%writes_inr). apply reading_view in Ha as <-. apply rtc_once, ch_view_removed.
  - st_inv. apply rtc_once, ch_settings.
  - st_inv. apply rtc_once, ch_settings.
Qed.
End Calls.

(** ** Consistent tables *)
(** The walk along the display columns ends. *)
Inductive ends (columns : list DsColumn) (id : str) : Prop := ends_by : (∀ d, display_of columns id = Some d → ends columns d) → ends columns id.
Record consistent (t : datastores) : Prop := mkConsistent
  { co_rows : NoDup (row_ids t); co_columns : NoDup (col_id <$> ds_columns t); co_stores : NoDup (st_id <$> ds_stores t); co_view_ids : NoDup (v_id <$> ds_views t);
    co_cells : ∀ r k v, r ∈ ds_rows t → get (row_data r) k = Some v → cell_ok t (row_storeId r) k v;
    co_key : ∀ s k, naturalKeyOf t s = Some k → k ≠ [] ∧ ∃ c, c ∈ ds_columns t ∧ col_storeId c = s ∧ col_id c = k ∧ col_type c = TextColumn;
    co_unique : ∀ s k x r1 r2, naturalKeyOf t s = Some k → r1 ∈ ds_rows t → r2 ∈ ds_rows t → row_storeId r1 = s → row_storeId r2 = s → selected r1 k = Some x → selected r2 k = Some x → row_id r1 = row_id r2;
    co_views : ∀ v k, v ∈ ds_views t → k ∈ config_columns (v_config v) → k ∈ col_id <$> columns_of t (v_storeId v);
    co_display : ∀ c d, c ∈ ds_columns t → col_display c = Some d → d ∈ col_id <$> columns_of t (col_storeId c) }.

Lemma known_column t s k : k ∈ col_id <$> columns_of t s ↔ ∃ c, c ∈ ds_columns t ∧ col_storeId c = s ∧ col_id c = k.
Proof.
  rewrite list_elem_of_fmap. split.
  - intros (c&->&[Hc Hs]%elem_of_columns_of). by exists c.
  - intros (c&Hc&Hs&<-). exists c. split; [done|]. by apply elem_of_columns_of.
Qed.
(** Columns that are what they were to the rows, the views and the natural key. *)
Definition columns_kept (t t' : datastores) : Prop :=
  ∀ c, c ∈ ds_columns t → ∃ c', c' ∈ ds_columns t' ∧ col_id c' = col_id c ∧ col_storeId c' = col_storeId c ∧ col_type c' = col_type c ∧ (col_options c' = col_options c).
Lemma kept_cell t t' s k v : columns_kept t t' → cell_ok t s k v → cell_ok t' s k v.
Proof.
  intros H (c&Hc&<-&<-&Hf). destruct (H c Hc) as (c'&Hc'&E1&E2&E3&E4). exists c'. split; [done|]. split; [done|]. split; [done|]. unfold fits, option_ids in *. by rewrite E3, E4.
Qed.
Lemma kept_known t t' s k : columns_kept t t' → k ∈ col_id <$> columns_of t s → k ∈ col_id <$> columns_of t' s.
Proof. rewrite !known_column. intros H (c&Hc&<-&<-). destruct (H c Hc) as (c'&Hc'&E1&E2&_). by exists c'. Qed.
Lemma same_columns_kept t t' : ds_columns t' = ds_columns t → columns_kept t t'.
Proof. intros E c Hc. exists c. by rewrite E. Qed.
Lemma elem_of_update_column t s id f c : c ∈ ds_columns (update_column s id f t) → ∃ c0, c0 ∈ ds_columns t ∧ ((c = f c0 ∧ col_id c0 = id ∧ col_storeId c0 = s) ∨ c = c0).
Proof.
  unfold update_column. cbn. intros (c0&->&Hc0)%list_elem_of_fmap. exists c0. split; [done|]. destruct (str_eqb (col_id c0) id && _) eqn:E; [|by right]. left. apply andb_true_iff in E as [E1%str_eqb_eq E2%str_eqb_eq]. done.
Qed.
Lemma updated_column t s id f c : c ∈ ds_columns t → (∃ c', c' ∈ ds_columns (update_column s id f t) ∧ ((c' = f c ∧ col_id c = id ∧ col_storeId c = s) ∨ c' = c)).
Proof.
  intros Hc. eexists. split; [apply list_elem_of_fmap_2, Hc|]. cbn. destruct (str_eqb (col_id c) id && _) eqn:E; [|by right]. left. apply andb_true_iff in E as [E1%str_eqb_eq E2%str_eqb_eq]. done.
Qed.
Lemma update_column_ids t s id f : (∀ c, col_id (f c) = col_id c) → col_id <$> ds_columns (update_column s id f t) = col_id <$> ds_columns t.
Proof. intros Hf. unfold update_column. cbn. rewrite <- list_fmap_compose. apply list_fmap_ext. intros i c _. cbn. by destruct (_ && _). Qed.
Lemma naturalKeyOf_find t s k : naturalKeyOf t s = Some k → ∃ st, findStore t s = Some st ∧ st ∈ ds_stores t ∧ st_id st = s ∧ st_naturalKey st = Some k.
Proof. unfold naturalKeyOf. destruct (findStore t s) as [st|] eqn:E; [|done]. apply find_elem in E as [Hin E%str_eqb_eq]. cbn. eauto. Qed.
Lemma key_of_found (l : list DataStoreRecord) s st : NoDup (st_id <$> l) → st ∈ l → st_id st = s → find (λ x, str_eqb (st_id x) s) l = Some st.
Proof.
  intros Hnd Hin <-. induction l as [|y l IH]; [by apply elem_of_nil in Hin|]. cbn in Hnd. apply list.NoDup_cons in Hnd as [Hn Hnd]. cbn. apply elem_of_cons in Hin as [->|Hin]; [by rewrite str_eqb_refl|].
  destruct (str_eqb (st_id y) (st_id st)) eqn:E; [|by apply IH]. apply str_eqb_eq in E. exfalso. apply Hn. rewrite E. by apply list_elem_of_fmap_2.
Qed.
(** The natural key of a store after a change of the stores. *)
Lemma key_after_set t s k at_ s' : naturalKeyOf (update_store s (with_key k at_) t) s' = if decide (s' = s) then (if decide (is_Some (findStore t s)) then k else None) else naturalKeyOf t s'.
Proof.
  unfold naturalKeyOf, findStore, update_store. cbn. induction (ds_stores t) as [|st l IH]; cbn.
  { destruct (decide (s' = s)); [|done]. destruct (decide _) as [[? ?]|]; done. }
  destruct (str_eqb (st_id st) s) eqn:E1; cbn.
  - apply str_eqb_eq in E1 as <-. destruct (str_eqb (st_id st) s') eqn:E2.
    + apply str_eqb_eq in E2 as <-. rewrite decide_True by done. cbn. done.
    + apply str_eqb_neq in E2. rewrite decide_False in IH |- * by done. rewrite IH. done.
  - apply str_eqb_neq in E1. destruct (str_eqb (st_id st) s') eqn:E2; [|exact IH]. apply str_eqb_eq in E2 as <-. by rewrite decide_False.
Qed.
Lemma key_after_new t st s : st_naturalKey st = None → naturalKeyOf (set_stores (ds_stores t ++ [st]) t) s = naturalKeyOf t s.
Proof.
  intros Hk. unfold naturalKeyOf, findStore. cbn. induction (ds_stores t) as [|y l IH]; cbn; [destruct (str_eqb _ _); [exact Hk|done]|]. by destruct (str_eqb (st_id y) s).
Qed.
Lemma key_after_drop t id s k : naturalKeyOf (dropped id t) s = Some k → s ≠ id ∧ naturalKeyOf t s = Some k.
Proof.
  unfold naturalKeyOf, findStore. cbn [dropped ds_stores]. induction (ds_stores t) as [|y l IH]; [done|]. rewrite filter_cons. destruct (decide (st_id y ≠ id)) as [Hd|Hd]; cbn [find].
  - destruct (str_eqb (st_id y) s) eqn:E; [|exact IH]. apply str_eqb_eq in E as <-. done.
  - intros [Hs H]%IH. split; [done|]. destruct (str_eqb (st_id y) s) eqn:E; [|done]. apply str_eqb_eq in E as <-. by destruct Hd.
Qed.

Lemma consistent_same_rows t t' : consistent t → ds_rows t' = ds_rows t → columns_kept t t' → NoDup (col_id <$> ds_columns t') → NoDup (st_id <$> ds_stores t') → NoDup (v_id <$> ds_views t') →
  (∀ s k, naturalKeyOf t' s = Some k → naturalKeyOf t s = Some k) → (∀ v k, v ∈ ds_views t' → k ∈ config_columns (v_config v) → k ∈ col_id <$> columns_of t' (v_storeId v)) →
  (∀ c d, c ∈ ds_columns t' → col_display c = Some d → d ∈ col_id <$> columns_of t' (col_storeId c)) → consistent t'.
Proof.
  intros C Er Hc Hn1 Hn2 Hn3 Hk Hv Hd. split; rewrite ?Er; try done.
  - apply C.
  - intros r k v Hr Hg. eapply kept_cell; [done|]. by eapply C.
  - intros s k H. destruct (co_key t C s k) as (Hne&c&Hin&E1&E2&E3); [by apply Hk|]. split; [done|]. destruct (Hc c Hin) as (c'&?&?&?&?&_). exists c'. split_and!; [done|congruence..].
  - intros s k x r1 r2 H. eapply C. by apply Hk.
Qed.
Lemma consistent_same_schema t t' : consistent t → same_schema t t' → NoDup (row_ids t') → (∀ r k v, r ∈ ds_rows t' → get (row_data r) k = Some v → cell_ok t (row_storeId r) k v) →
  (∀ s k x r1 r2, naturalKeyOf t s = Some k → r1 ∈ ds_rows t' → r2 ∈ ds_rows t' → row_storeId r1 = s → row_storeId r2 = s → selected r1 k = Some x → selected r2 k = Some x → row_id r1 = row_id r2) → consistent t'.
Proof.
  intros C Hs Hn Hcells Hu. pose proof Hs as [= _ _ E1 E2 E3]. assert (columns_kept t t') as Hk by (by apply same_columns_kept). split; rewrite ?E1, ?E2, ?E3; try apply C; try done.
  - intros r k v Hr Hg. eapply kept_cell; [done|]. by eapply Hcells.
  - intros s k. rewrite (schema_key _ _ _ Hs). apply C.
  - intros s k x r1 r2. rewrite (schema_key _ _ _ Hs). apply Hu.
  - intros v k Hv Hin. eapply kept_known; [done|]. by eapply C.
  - intros c d Hc Hd. eapply kept_known; [done|]. by eapply C.
Qed.
Lemma sublist_ids {A} (f : A → str) (P : A → Prop) `{!∀ x, Decision (P x)} l : NoDup (f <$> l) → NoDup (f <$> filter P l).
Proof. intros Hl. eapply sublist_NoDup; [exact Hl|]. apply fmap_sublist, sublist_filter. Qed.
Lemma snoc_ids {A} (f : A → str) l x : NoDup (f <$> l) → f x ∉ f <$> l → NoDup (f <$> (l ++ [x])).
Proof. intros H Hx. rewrite fmap_app. apply list.NoDup_app. split; [done|]. split; [|apply list.NoDup_singleton]. intros y Hy ->%list_elem_of_singleton. done. Qed.

(** *** Rows *)
Lemma inserted_consistent t row actor at_ : consistent t → row_id row ∉ row_ids t → (∀ k v, get (row_data row) k = Some v → cell_ok t (row_storeId row) k v) → key_free t (row_storeId row) (row_id row) (row_data row) →
  consistent (recorded (row_storeId row) (row_id row) actor at_ Creation (set_rows (ds_rows t ++ [row]) t)).
Proof.
  intros C Hn Hc Hk. eapply consistent_same_schema; [exact C|done|by apply snoc_ids, Hn; apply C| |]; cbn.
  - intros r k v [Hr| ->%list_elem_of_singleton]%elem_of_app Hg; [by eapply C|by apply Hc].
  - intros s k x r1 r2 Hkey [H1| ->%list_elem_of_singleton]%elem_of_app [H2| ->%list_elem_of_singleton]%elem_of_app E1 E2 S1 S2; [by eapply C| | |done]; subst s.
    + apply (Hk k x r1); [congruence|by apply selected_get|done|congruence|done].
    + symmetry. apply (Hk k x r2); [congruence|by apply selected_get|done|congruence|done].
Qed.
(** A row of the table gives way to another of the same id and store. *)
Lemma replaced_consistent t row new_row actor at_ ch f : consistent t → row ∈ ds_rows t → (∀ y, row_at t (row_storeId row) (row_id row) y → f y = new_row) → row_id new_row = row_id row → row_storeId new_row = row_storeId row →
  (∀ k v, get (row_data new_row) k = Some v → cell_ok t (row_storeId row) k v) →
  (∀ k x r, naturalKeyOf t (row_storeId row) = Some k → selected new_row k = Some x → r ∈ ds_rows t → row_storeId r = row_storeId row → selected r k = Some x → row_id r = row_id row) →
  consistent (recorded (row_storeId row) (row_id row) actor at_ ch (update_row (row_id row) (row_storeId row) f t)).
Proof.
  intros C Hrow Hf E1 E2 Hcells Hkey. assert (∀ r, r ∈ ds_rows (update_row (row_id row) (row_storeId row) f t) → r = new_row ∨ r ∈ ds_rows t) as Hup.
  { intros r [(y&Hy&->)|[Hr _]]%elem_of_update_row; [left; by apply Hf|by right]. }
  eapply consistent_same_schema; [exact C|done| | |]; cbn [recorded ds_rows].
  - rewrite update_row_ids; [apply C|]. intros y Hy. rewrite (Hf y Hy), E1. symmetry. apply Hy.
  - intros r k v [->|Hr]%Hup Hg; [rewrite E2; by apply Hcells|by eapply C].
  - intros s k x r1 r2 Hk [->|H1]%Hup [->|H2]%Hup S1 S2 X1 X2; [done| | |by eapply C]; rewrite E1.
    + symmetry. apply (Hkey k x r2); [congruence|done|done|congruence|done].
    + apply (Hkey k x r1); [congruence|done|done|congruence|done].
Qed.
Lemma changed_consistent t row patch actor at_ ch : consistent t → row ∈ ds_rows t → NoDup patch.*1 → (∀ k v, get patch k = Some v → cell_ok t (row_storeId row) k v) → key_free t (row_storeId row) (row_id row) patch →
  consistent (recorded (row_storeId row) (row_id row) actor at_ ch (update_row (row_id row) (row_storeId row) (λ _, patched row patch at_) t)).
Proof.
  intros C Hrow Hnd Hc Hk. apply (replaced_consistent _ _ (patched row patch at_)); try done.
  - cbn. intros k v. rewrite get_spread by done. destruct (get patch k) as [w|] eqn:E; [intros [= ->]; by apply Hc|]. intros Hg. by eapply C.
  - intros k x r Hkey. rewrite selected_get. cbn [row_data patched]. rewrite get_spread by done. destruct (get patch k) as [w|] eqn:E; intros Hx Hr Hs Hsel.
    + injection Hx as ->. by eapply Hk.
    + apply (co_unique t C (row_storeId row) k x r row); try done. by apply selected_get.
Qed.
Lemma cleared_consistent t row columnId from actor at_ ch : consistent t → row ∈ ds_rows t → get (row_data row) columnId = Some from → naturalKeyOf t (row_storeId row) ≠ Some columnId →
  consistent (recorded (row_storeId row) (row_id row) actor at_ ch (update_row (row_id row) (row_storeId row) (cleared row columnId at_) t)).
Proof.
  intros C Hrow Hg Hk. assert (∀ k v, get (del (row_data row) columnId) k = Some v → get (row_data row) k = Some v) as Hdel.
  { intros k v. unfold del. clear. induction (row_data row) as [|[k0 v0] l IH]; [done|]. rewrite filter_cons. cbn [fst]. destruct (decide _) as [Hd|Hd]; cbn [get]; [by destruct (str_eqb k0 k)|].
    intros H. destruct (str_eqb k0 k) eqn:E; [|by apply IH]. apply str_eqb_eq in E as ->. assert (k = columnId) as -> by (by destruct (decide (k = columnId))). pose proof (get_del_eq l columnId) as Hnone. unfold del in Hnone. congruence. }
  apply (replaced_consistent _ _ (cleared row columnId at_ row)); try done.
  - intros y (Hy&E1&E2). by rewrite (same_id_same_row t y row (co_rows t C) Hy Hrow E1).
  - cbn. intros k v H%Hdel. by eapply C.
  - intros k x r Hkey Hx%selected_get Hr Hs Hsel. apply Hdel in Hx. apply (co_unique t C (row_storeId row) k x r row); try done. by apply selected_get.
Qed.

(** *** Columns, stores and views *)
Lemma omap_unique {A B} (f : A → option B) l a b x : NoDup (omap f l) → a ∈ l → b ∈ l → f a = Some x → f b = Some x → a = b.
Proof.
  induction l as [|y l IH]; [by intros _ ?%elem_of_nil|]. cbn [omap list_omap]. intros Hnd Ha Hb Ea Eb. apply elem_of_cons in Ha as [->|Ha], Hb as [->|Hb]; [done| | |].
  - rewrite Ea in Hnd. apply list.NoDup_cons in Hnd as [Hn _]. destruct Hn. apply list_elem_of_omap. eauto.
  - rewrite Eb in Hnd. apply list.NoDup_cons in Hnd as [Hn _]. destruct Hn. apply list_elem_of_omap. eauto.
  - apply IH; try done. destruct (f y); [by apply list.NoDup_cons in Hnd as [_ ?]|done].
Qed.
Lemma held_unique t s k r1 r2 x : NoDup (held_texts t s k) → r1 ∈ ds_rows t → r2 ∈ ds_rows t → row_storeId r1 = s → row_storeId r2 = s → selected r1 k = Some x → selected r2 k = Some x → r1 = r2.
Proof. intros Hnd H1 H2 S1 S2. apply (omap_unique (λ r, selected r k) (listRows t s)); [done|by apply elem_of_listRows..]. Qed.
Lemma keyed_consistent t s k at_ : consistent t → (∀ id, k = Some id → id ≠ [] ∧ (∃ c, c ∈ ds_columns t ∧ col_storeId c = s ∧ col_id c = id ∧ col_type c = TextColumn) ∧ NoDup (held_texts t s id)) →
  consistent (update_store s (with_key k at_) t).
Proof.
  intros C Hk. assert (∀ s' k', naturalKeyOf (update_store s (with_key k at_) t) s' = Some k' → (s' = s ∧ k = Some k') ∨ naturalKeyOf t s' = Some k') as Hkey.
  { intros s' k'. rewrite key_after_set. destruct (decide (s' = s)); [destruct (decide _); [by left|done]|by right]. }
  split; try apply C.
  - cbn. rewrite <- list_fmap_compose. erewrite list_fmap_ext; [apply (co_stores t C)|]. intros i st _. cbn. by destruct (str_eqb (st_id st) s).
  - intros s' k' [[-> ->]|H]%Hkey; [destruct (Hk k' eq_refl) as (?&?&_); done|by apply C].
  - intros s' k' x r1 r2 [[-> ->]|H]%Hkey H1 H2 S1 S2 X1 X2; [|by eapply C]. f_equal. destruct (Hk k' eq_refl) as (_&_&Hnd). by eapply held_unique.
Qed.
Lemma updated_consistent t c name options m : consistent t → c ∈ ds_columns t → options = col_options c ∨ (∀ x, x ∈ held_texts t (col_storeId c) (col_id c) → x ∈ opt_id <$> default [] options) →
  (∀ d, md_display m = Some d → d ∈ col_id <$> columns_of t (col_storeId c)) → consistent (update_column (col_storeId c) (col_id c) (with_metadata name options m) t).
Proof.
  intros C Hc Hopt Hd. set (t' := update_column _ _ _ _).
  assert (∀ c0, c0 ∈ ds_columns t → ∃ c1, c1 ∈ ds_columns t' ∧ col_id c1 = col_id c0 ∧ col_storeId c1 = col_storeId c0 ∧ col_type c1 = col_type c0 ∧ (c1 = c0 ∨ c0 = c ∧ col_options c1 = options)) as Hup.
  { intros c0 H0. destruct (updated_column t (col_storeId c) (col_id c) (with_metadata name options m) c0 H0) as (c1&H1&[(->&E&_)| ->]); (eexists; split; [exact H1|]); [|naive_solver].
    split_and!; try done. right. split; [|done]. exact (same_key col_id _ c0 c (co_columns t C) H0 Hc E). }
  assert (∀ s k, k ∈ col_id <$> columns_of t s → k ∈ col_id <$> columns_of t' s) as Hknown.
  { intros s k. rewrite !known_column. intros (c0&H0&<-&<-). destruct (Hup c0 H0) as (c1&?&?&?&_). eauto. }
  split; try apply C.
  - subst t'. rewrite update_column_ids; [apply C|done].
  - intros r k v Hr Hg. destruct (co_cells t C r k v Hr Hg) as (c0&H0&E1&E2&Hf). destruct (Hup c0 H0) as (c1&H1&E3&E4&E5&Hcase). exists c1. split; [done|]. split; [congruence|]. split; [congruence|].
    destruct Hcase as [->|[-> E6]]; [done|]. unfold fits, option_ids in *. rewrite E5, E6. destruct Hopt as [->|Hheld]; [done|]. destruct v; try done. destruct (col_type c); try done. apply Hheld.
    apply list_elem_of_omap. exists r. split; [by apply elem_of_listRows|]. apply selected_get. by rewrite E2.
  - intros s k H. destruct (co_key t C s k H) as (Hne&c0&H0&?&?&?). split; [done|]. destruct (Hup c0 H0) as (c1&?&?&?&?&_). exists c1. split_and!; [done|congruence..].
  - intros v k Hv Hk. apply Hknown. by eapply C.
  - intros c1 d (c0&H0&[(->&_&E)| ->])%elem_of_update_column Hdis; apply Hknown; [|by eapply C]. cbn in Hdis |- *. rewrite E. by apply Hd.
Qed.
Lemma removed_consistent t s id : consistent t → (∀ r, r ∈ ds_rows t → row_storeId r = s → get (row_data r) id = None) → naturalKeyOf t s ≠ Some id →
  (∀ v, v ∈ ds_views t → v_storeId v = s → id ∉ config_columns (v_config v)) → (∀ c, c ∈ columns_of t s → col_display c ≠ Some id) →
  consistent (set_columns (filter (λ c, ¬ (col_id c = id ∧ col_storeId c = s)) (ds_columns t)) t).
Proof.
  intros C Hr Hk Hv Hd. set (t' := set_columns _ _). assert (∀ c, c ∈ ds_columns t' ↔ c ∈ ds_columns t ∧ ¬ (col_id c = id ∧ col_storeId c = s)) as Hin. { intros c. cbn. rewrite list_elem_of_filter. tauto. }
  assert (∀ s' k, k ∈ col_id <$> columns_of t s' → ¬ (k = id ∧ s' = s) → k ∈ col_id <$> columns_of t' s') as Hknown.
  { intros s' k. rewrite !known_column. intros (c&Hc&<-&<-) Hn. exists c. split; [by apply Hin|done]. }
  split; try apply C.
  - cbn. apply sublist_ids, C.
  - intros r k v Hrow Hg. destruct (co_cells t C r k v Hrow Hg) as (c&Hc&E1&E2&Hf). exists c. split; [|done]. apply Hin. split; [done|]. intros [E3 E4]. assert (k = id) as -> by congruence. rewrite (Hr r) in Hg; [done|done|congruence].
  - intros s' k H. destruct (co_key t C s' k H) as (Hne&c&Hc&E1&E2&E3). split; [done|]. exists c. split; [|done]. apply Hin. split; [done|]. intros [E4 E5]. apply Hk. rewrite <- E5, E1. by rewrite <- E4, E2.
  - intros v k Hin' Hcol. apply Hknown; [by eapply C|]. intros [-> Es]. by apply (Hv v Hin' Es).
  - intros c d [Hc _]%Hin Hdis. apply Hknown; [by eapply C|]. intros [-> Es]. apply (Hd c); [by apply elem_of_columns_of|done].
Qed.
Lemma dropped_consistent t id : consistent t → consistent (dropped id t).
Proof.
  intros C. assert (∀ c, c ∈ ds_columns (dropped id t) ↔ c ∈ ds_columns t ∧ col_storeId c ≠ id) as Hc. { intros c. cbn. rewrite list_elem_of_filter. tauto. }
  assert (∀ s k, s ≠ id → k ∈ col_id <$> columns_of t s → k ∈ col_id <$> columns_of (dropped id t) s) as Hknown.
  { intros s k Hs. rewrite !known_column. intros (c&Hin&<-&<-). exists c. split; [by apply Hc|done]. }
  split; try (cbn; apply sublist_ids, C).
  - cbn. intros r k v [Hs Hr]%list_elem_of_filter Hg. destruct (co_cells t C r k v Hr Hg) as (c&Hin&E&?). exists c. split; [apply Hc; by rewrite E|done].
  - intros s k [Hs H]%key_after_drop. destruct (co_key t C s k H) as (Hne&c&Hin&E&?). split; [done|]. exists c. split; [apply Hc; by rewrite E|done].
  - intros s k x r1 r2 [Hs H]%key_after_drop [_ H1]%list_elem_of_filter [_ H2]%list_elem_of_filter. by apply (co_unique t C s k x r1 r2).
  - intros v k [Hs Hv]%list_elem_of_filter Hk. apply Hknown; [done|by eapply C].
  - intros c d [Hin Hs]%Hc Hd. apply Hknown; [done|by eapply C].
Qed.
Lemma change_consistent new t t' : consistent t → change new t t' → consistent t'.
Proof.
  intros C H. destruct H.
  - by apply (consistent_same_rows t); [|done|by apply same_columns_kept|..]; try apply C.
  - apply (consistent_same_rows t); [done|done|by apply same_columns_kept|apply C|by apply snoc_ids; [apply C|]|apply C| |apply C|apply C]. intros s0 k. by rewrite key_after_new.
  - by apply dropped_consistent.
  - by apply keyed_consistent.
  - assert (columns_kept t (set_columns (ds_columns t ++ [c]) t)) as Hk. { intros c0 H0'. exists c0. split; [cbn; apply elem_of_app; by left|done]. }
    apply (consistent_same_rows t); [done|done|done|by apply snoc_ids; [apply C|]|apply C|apply C|done| |].
    + intros v k Hv Hin. eapply kept_known; [exact Hk|]. by apply (co_views t C v).
    + intros c0 d [Hc| ->%list_elem_of_singleton]%elem_of_app Hd; [|congruence]. eapply kept_known; [exact Hk|]. by apply (co_display t C).
  - apply updated_consistent; [done|done|done|]. intros d Hd. by apply H1.
  - assert (columns_kept t (update_column storeId id (with_order n) t)) as Hk. { intros c0 Hc0. destruct (updated_column t storeId id (with_order n) c0 Hc0) as (c1&H1&[(->&_&_)| ->]); by eexists. }
    apply (consistent_same_rows t); [done|done|done|rewrite update_column_ids; [apply C|done]|apply C|apply C|done| |].
    + intros v k Hv Hin. eapply kept_known; [exact Hk|]. by apply (co_views t C v).
    + intros c1 d (c0&H0&[(->&_&_)| ->])%elem_of_update_column Hd; (eapply kept_known; [exact Hk|]); by apply (co_display t C c0).
  - by apply removed_consistent.
  - by apply inserted_consistent.
  - by apply changed_consistent.
  - by eapply cleared_consistent.
  - apply (consistent_same_schema t); [done|done| | |]; cbn [set_rows recorded ds_rows].
    + apply sublist_ids, C.
    + intros r k v [_ Hr]%list_elem_of_filter. by apply C.
    + intros s k x r1 r2 Hk [_ H1]%list_elem_of_filter [_ H2]%list_elem_of_filter. by apply (co_unique t C s k x r1 r2).
  - apply (consistent_same_rows t); [done|done|by apply same_columns_kept|apply C|apply C|by apply snoc_ids; [apply C|]|done| |apply C].
    intros w k [Hw| ->%list_elem_of_singleton]%elem_of_app Hk; [by apply (co_views t C w)|by apply H0].
  - apply (consistent_same_rows t); [done|done|by apply same_columns_kept|apply C|apply C| |done| |apply C].
    + cbn. rewrite <- list_fmap_compose. erewrite list_fmap_ext; [apply (co_view_ids t C)|]. intros i w _. cbn. by destruct (str_eqb (v_id w) (v_id v)).
    + cbn. intros w' k (w&->&Hw)%list_elem_of_fmap. destruct (str_eqb (v_id w) (v_id v)) eqn:E; [|by apply (co_views t C w)]. cbn. apply str_eqb_eq in E.
      intros Hk%H0. apply find_elem in H as [Hv _]. by rewrite (same_key v_id _ w v (co_view_ids t C) Hw Hv E).
  - apply (consistent_same_rows t); [done|done|by apply same_columns_kept|apply C|apply C|apply sublist_ids, C|done| |apply C]. intros w k [_ Hw]%list_elem_of_filter. by apply (co_views t C w).
Qed.
Lemma changes_consistent new t t' : consistent t → changes new t t' → consistent t'.
Proof. intros C H. induction H as [|t1 t2 t3 H1 _ IH]; [done|]. apply IH. by eapply change_consistent. Qed.
