(* ===== verification/DataStoreClaims.v ===== *)
(** * What holds of data stores

    What every history of the calls of [DataStore] keeps: cells in columns that take them, natural keys that name one row, revisions that name one content, a history that tells each row and counts them,
    display columns that never loop; and what the row guard refuses. *)
From S2P Require Import Prelude Transaction JsText Regex PolicyTypes PolicyDocument TemplatesFacts Lineage FloorClasses TableSource EscalationFacts DataStore DataStoreFacts.
Local Open Scope nat_scope.

(** ** Display columns *)
Lemma display_of_elem columns id d : NoDup (col_id <$> columns) → display_of columns id = Some d ↔ ∃ c, c ∈ columns ∧ col_id c = id ∧ col_display c = Some d.
Proof.
  intros Hnd. unfold display_of. split.
  - destruct (columnById columns id) as [c|] eqn:E; [|done]. apply columnById_elem in E as [Hc Hid]. cbn. eauto.
  - intros (c&Hc&<-&Hd). destruct (columnById_known columns (col_id c)) as (c'&->&Hc'&E); [by apply list_elem_of_fmap_2|]. cbn. by rewrite (same_key col_id columns c' c Hnd Hc' Hc E).
Qed.
Lemma display_in_store t s id d : consistent t → display_of (columns_of t s) id = Some d ↔ ∃ c, c ∈ ds_columns t ∧ col_storeId c = s ∧ col_id c = id ∧ col_display c = Some d.
Proof.
  intros C. rewrite display_of_elem by (apply sublist_ids, C). split.
  - intros (c&[Hc Hs]%elem_of_columns_of&?&?). eauto.
  - intros (c&Hc&Hs&?&?). exists c. split; [by apply elem_of_columns_of|done].
Qed.
(** The walk from [id] ends without meeting [target]. *)
Inductive avoids (columns : list DsColumn) (target id : str) : Prop :=
  avoids_by : id ≠ target → (∀ d, display_of columns id = Some d → avoids columns target d) → avoids columns target id.
Lemma walk_avoids columns target fuel id visited : loop (display_step columns target) fuel (Some id, visited) = Some false → avoids columns target id.
Proof.
  revert id visited. induction fuel as [|n IH]; intros id visited; cbn; [done|]. destruct (str_eqb id target) eqn:E; cbn; [done|]. destruct (mem_str id visited); [done|]. intros H. apply str_eqb_neq in E. constructor; [done|].
  intros d Hd. rewrite Hd in H. by eapply IH.
Qed.
Lemma avoids_ends columns target id : avoids columns target id → ends columns id.
Proof. induction 1 as [id _ _ IH]. by constructor. Qed.
Lemma meets_cycle_false columns target id : meets_cycle columns target id = false → avoids columns target id.
Proof. unfold meets_cycle, run_loop. destruct (loop _ _ _) as [b|] eqn:E; [|done]. cbn. intros ->. by eapply walk_avoids. Qed.
(** The walk of the code has enough turns: what it visits are distinct columns. *)
Definition walk_invariant (columns : list DsColumn) (s : option str * list str) : Prop := s.1 = None ∨ (NoDup s.2 ∧ s.2 ⊆ col_id <$> columns).
Lemma display_of_known columns id d : display_of columns id = Some d → id ∈ col_id <$> columns.
Proof. unfold display_of. destruct (columnById columns id) as [c|] eqn:E; [|done]. apply columnById_elem in E as [Hc <-]. intros _. by apply list_elem_of_fmap_2. Qed.
Lemma walk_total columns target id : is_Some (loop (display_step columns target) (S (S (length columns))) (Some id, [])).
Proof.
  apply (loop_total _ (walk_invariant columns) (λ s, match s.1 with None => 0 | Some _ => S (length columns - length s.2) end)); [|right; split; [constructor|by intros ? ?%elem_of_nil]|cbn; lia].
  intros [o visited] s' HI. destruct o as [f|]; cbn; [|done]. destruct (str_eqb f target); cbn; [done|]. destruct (mem_str f visited) eqn:Hm; [done|]. intros [= <-]. destruct HI as [?|[Hnd Hsub]]; [done|]. cbn in Hnd, Hsub |- *.
  destruct (display_of columns f) as [d|] eqn:Hd; [|split; [by left|lia]]. assert (NoDup (f :: visited) ∧ f :: visited ⊆ col_id <$> columns) as [H1 H2].
  { split; [apply list.NoDup_cons; split; [|done]; intros Hin%mem_str_iff; congruence|]. intros x [->|Hx]%elem_of_cons; [by eapply display_of_known|by apply Hsub]. }
  split; [by right|]. pose proof (submseteq_length _ _ (NoDup_submseteq _ _ H1 H2)) as Hlen. rewrite length_fmap in Hlen. cbn in Hlen. lia.
Qed.
(** A walk that ends visits no column twice. *)
Lemma avoids_acyclic columns target id : avoids columns target id → ¬ tc (λ a b, display_of columns a = Some b) id id.
Proof.
  induction 1 as [id _ _ IH]. intros H. inversion H as [? ? H1|? y ? H1 H2]; subst; [by apply (IH id)|]. apply (IH y); [done|]. by eapply tc_r.
Qed.
Lemma meets_cycle_avoids columns target id : avoids columns target id → meets_cycle columns target id = false.
Proof.
  intros Ha. unfold meets_cycle, run_loop. destruct (walk_total columns target id) as [b Hb]. rewrite Hb. cbn.
  apply (loop_inv _ (λ s, ∀ f, s.1 = Some f → avoids columns target f ∧ ∀ v, v ∈ s.2 → tc (λ a b, display_of columns a = Some b) v f) (λ b, b = false)) in Hb; [done|..].
  - intros [o visited] s' HI. destruct o as [f|]; cbn; [|done]. destruct (HI f eq_refl) as [[Hn Hnext] Hv]. destruct (str_eqb f target); cbn; [done|]. destruct (mem_str f visited); [done|]. intros [= <-] d Hd. cbn in Hd |- *.
    split; [by apply Hnext|]. intros v [->|Hin]%elem_of_cons; [by apply tc_once|]. eapply tc_r; [by apply Hv|done].
  - intros [o visited] r HI. destruct o as [f|]; cbn; [|by intros [= <-]]. destruct (HI f eq_refl) as [Hf Hv]. destruct (str_eqb f target) eqn:E; cbn; [apply str_eqb_eq in E; by destruct Hf|].
    destruct (mem_str f visited) eqn:Hm; [|done]. exfalso. apply (avoids_acyclic _ _ _ Hf), Hv, mem_str_iff, Hm.
  - cbn. intros f [= <-]. split; [done|]. by intros v ?%elem_of_nil.
Qed.
(** The tables where no display column leads back to where it came from. *)
Definition displays_end (t : datastores) : Prop := ∀ s id, ends (columns_of t s) id.
(** Edges that were there keep the walks finite. *)
Lemma ends_sub columns columns' id : (∀ i d, display_of columns' i = Some d → display_of columns i = Some d) → ends columns id → ends columns' id.
Proof. intros H. induction 1 as [id _ IH]. constructor. intros d Hd%H. by apply IH. Qed.
Lemma ends_more t t' : consistent t → consistent t' → (∀ c d, c ∈ ds_columns t' → col_display c = Some d → ∃ c0, c0 ∈ ds_columns t ∧ col_id c0 = col_id c ∧ col_storeId c0 = col_storeId c ∧ col_display c0 = Some d) →
  displays_end t → displays_end t'.
Proof.
  intros C C' H Hends s id. apply (ends_sub (columns_of t s)); [|apply Hends]. intros i d. rewrite !display_in_store by done. intros (c&Hc&<-&<-&Hd). destruct (H c d Hc Hd) as (c0&?&?&?&?). eauto.
Qed.
Lemma ends_updated t c name options m : consistent t → c ∈ ds_columns t → consistent (update_column (col_storeId c) (col_id c) (with_metadata name options m) t) →
  (∀ d, md_display m = Some d → meets_cycle (listColumns t (col_storeId c)) (col_id c) d = false) → displays_end t → displays_end (update_column (col_storeId c) (col_id c) (with_metadata name options m) t).
Proof.
  intros C Hc C' Hm Hends s. set (t' := update_column _ _ _ _). assert (∀ i d, display_of (columns_of t' s) i = Some d → (i = col_id c ∧ s = col_storeId c ∧ md_display m = Some d) ∨ display_of (columns_of t s) i = Some d) as Hedge.
  { intros i d. rewrite !display_in_store by done. intros (c1&(c0&H0&[(->&E1&E2)| ->])%elem_of_update_column&<-&<-&Hd); [by left|]. right. eauto. }
  assert (∀ i, avoids (listColumns t s) (col_id c) i → ends (columns_of t' s) i) as Havoid.
  { induction 1 as [i Hn _ IH]. constructor. intros d [[-> _]|Hd]%Hedge; [done|]. apply IH. apply display_of_elem; [unfold listColumns; rewrite sort_with_perm; apply sublist_ids, C|].
    apply display_in_store in Hd as (c0&?&?&?&?); [|done]. exists c0. by rewrite elem_of_listColumns. }
  intros id. specialize (Hends s id). induction Hends as [id _ IH]. constructor. intros d [(->&->&Hd)|Hd]%Hedge; [|by apply IH]. by apply Havoid, meets_cycle_false, Hm.
Qed.
Lemma change_displays new t t' : consistent t → change new t t' → displays_end t → displays_end t'.
Proof.
  intros C Hch. pose proof (change_consistent new t t' C Hch) as C'. destruct Hch; try (by apply ends_more; [done|done|]; cbn; intros c0 d Hc0 Hd; eauto).
  - apply ends_more; [done|done|]. cbn. intros c d [_ Hc]%list_elem_of_filter Hd. eauto.
  - apply ends_more; [done|done|]. cbn. intros c0 d [Hc0| ->%list_elem_of_singleton]%elem_of_app Hd; [eauto|congruence].
  - apply ends_updated; try done. intros d Hd. by apply H1.
  - apply ends_more; [done|done|]. intros c1 d (c0&H0&[(->&_&_)| ->])%elem_of_update_column Hd; eauto.
  - apply ends_more; [done|done|]. cbn. intros c d [_ Hc]%list_elem_of_filter Hd. eauto.
Qed.

(** ** Rows through changes *)
(** Each row is new, or the row of that id as it was, or of a greater revision. *)
Definition evolves (new : str * list str) (t t' : datastores) : Prop :=
  ∀ r', r' ∈ ds_rows t' → (row_storeId r' = new.1 ∧ row_id r' ∈ new.2) ∨ ∃ r, r ∈ ds_rows t ∧ row_id r = row_id r' ∧ row_storeId r = row_storeId r' ∧ (r' = r ∨ row_rev r < row_rev r').
#[export] Instance evolves_preorder new : PreOrder (evolves new).
Proof.
  split.
  - intros t r Hr. right. exists r. auto.
  - intros t1 t2 t3 H12 H23 r3 [?|(r2&H2&E1&E2&Hc)]%H23; [by left|]. destruct (H12 r2 H2) as [[? ?]|(r1&H1&E3&E4&Hc')]; [left; rewrite <- E1, <- E2; done|].
    right. exists r1. split; [done|]. split; [congruence|]. split; [congruence|]. destruct Hc as [->|], Hc' as [->|]; auto; right; lia.
Qed.
Lemma evolves_same new t t' : ds_rows t' = ds_rows t → evolves new t t'.
Proof. intros E r Hr. rewrite E in Hr. right. exists r. auto. Qed.
Lemma change_evolves new t t' : change new t t' → evolves new t t'.
Proof.
  destruct 1; try (by apply evolves_same); intros r' Hr'.
  - apply list_elem_of_filter in Hr' as [_ Hr']. right. exists r'. auto.
  - apply elem_of_app in Hr' as [Hr'| ->%list_elem_of_singleton]; [right; exists r'; auto|by left].
  - right. apply elem_of_update_row in Hr' as [(y&_&->)|[Hr' _]]; [|exists r'; auto]. exists row. split_and!; try done. right. cbn. lia.
  - right. apply elem_of_update_row in Hr' as [(y&(Hy&E1&E2)&->)|[Hr' _]]; [|exists r'; auto]. exists y. split_and!; try done. right. cbn. lia.
  - apply list_elem_of_filter in Hr' as [_ Hr']. right. exists r'. auto.
Qed.
Lemma changes_evolve new t t' : changes new t t' → evolves new t t'.
Proof. induction 1 as [|t1 t2 t3 H1 _ IH]; [reflexivity|]. etrans; [by apply change_evolves|done]. Qed.
Lemma changes_displays new t t' : consistent t → changes new t t' → displays_end t → displays_end t'.
Proof. intros C H. induction H as [|t1 t2 t3 H1 _ IH]; [done|]. intros Hd. apply IH; [by eapply change_consistent|by eapply change_displays]. Qed.

(** ** The number of rows *)
Lemma count_grows new t t' s : NoDup (row_ids t') → evolves new t t' → countRows t' s ≤ countRows t s + (if decide (s = new.1) then length new.2 else 0).
Proof.
  intros Hnd He. unfold countRows, rows_of_store. rewrite <- (length_fmap row_id (filter _ (ds_rows t'))), <- (length_fmap row_id (filter _ (ds_rows t))).
  assert (NoDup (row_id <$> filter (λ r, row_storeId r = s) (ds_rows t'))) as Hnd' by (by apply sublist_ids).
  assert (row_id <$> filter (λ r, row_storeId r = s) (ds_rows t') ⊆ (row_id <$> filter (λ r, row_storeId r = s) (ds_rows t)) ++ (if decide (s = new.1) then new.2 else [])) as Hsub.
  { intros id (r&->&[Hs Hr]%list_elem_of_filter)%list_elem_of_fmap. apply elem_of_app. destruct (He r Hr) as [[E Hin]|(r0&H0&E1&E2&_)]; [right; rewrite decide_True by congruence; done|left].
    rewrite <- E1. apply list_elem_of_fmap_2, list_elem_of_filter. split; [congruence|done]. }
  pose proof (submseteq_length _ _ (NoDup_submseteq _ _ Hnd' Hsub)) as Hlen. rewrite length_app in Hlen. by destruct (decide _).
Qed.
(** The sum of what the changes of a store add to its rows, as the source of the table triggers counts them. *)
Definition counted (t : datastores) (s : str) : Z := foldr Z.add 0%Z (rowCountChangeOf ∘ h_change <$> history_of t s).
Definition counts_right (t : datastores) : Prop := ∀ s, counted t s = Z.of_nat (countRows t s).
Lemma counted_app (l1 l2 : list Z) : foldr Z.add 0%Z (l1 ++ l2) = (foldr Z.add 0 l1 + foldr Z.add 0 l2)%Z.
Proof. induction l1 as [|x l IH]; cbn; [done|]. rewrite IH. lia. Qed.
Lemma counted_recorded s s0 r actor at_ ch t : counted (recorded s0 r actor at_ ch t) s = (counted t s + if decide (s0 = s) then rowCountChangeOf ch else 0)%Z.
Proof.
  unfold counted, history_of. cbn [recorded ds_history]. rewrite list.filter_app, fmap_app, counted_app, filter_cons, filter_nil. cbn [h_storeId]. destruct (decide (s0 = s)); cbn; lia.
Qed.
Lemma counts_same t t' : ds_rows t' = ds_rows t → ds_history t' = ds_history t → counts_right t → counts_right t'.
Proof. intros E1 E2 H s. specialize (H s). unfold counted, history_of, countRows, rows_of_store in *. by rewrite E1, E2. Qed.
Lemma filter_dropped {A} (f : A → str) id s (l : list A) : s ≠ id → filter (λ x, f x = s) (filter (λ x, f x ≠ id) l) = filter (λ x, f x = s) l.
Proof. intros Hs. rewrite list_filter_filter. apply list_filter_iff. intros x. split; [tauto|]. intros <-. done. Qed.
Lemma filter_dropped_same {A} (f : A → str) id (l : list A) : filter (λ x, f x = id) (filter (λ x, f x ≠ id) l) = [].
Proof. rewrite list_filter_filter. induction l as [|x l IH]; [done|]. rewrite filter_cons_False by tauto. done. Qed.
Lemma count_updated t r s f s' : (∀ y, row_at t s r y → row_storeId (f y) = s) → countRows (update_row r s f t) s' = countRows t s'.
Proof.
  intros Hf. unfold countRows, rows_of_store, update_row. cbn [set_rows ds_rows]. revert Hf. unfold row_at. induction (ds_rows t) as [|y l IH]; intros Hf; [done|]. cbn [fmap list_fmap]. rewrite !filter_cons.
  assert (row_storeId (if str_eqb (row_id y) r && str_eqb (row_storeId y) s then f y else y) = row_storeId y) as ->.
  { destruct (str_eqb (row_id y) r) eqn:E1; [|done]. destruct (str_eqb (row_storeId y) s) eqn:E2; [|done]. apply str_eqb_eq in E1, E2. cbn. rewrite E2. apply Hf. split; [left|done]. }
  destruct (decide (row_storeId y = s')); cbn [length]; rewrite IH; try done; intros z (Hz&?&?); (apply Hf; split; [by right|done]).
Qed.
Lemma count_deleted t row s : NoDup (row_ids t) → row ∈ ds_rows t → countRows t s = length (filter (λ r, row_storeId r = s) (filter (λ r, ¬ (row_id r = row_id row ∧ row_storeId r = row_storeId row)) (ds_rows t))) + (if decide (row_storeId row = s) then 1 else 0).
Proof.
  intros Hnd [l' Hl]%elem_of_Permutation. unfold countRows, rows_of_store. rewrite Hl in Hnd |- *. cbn in Hnd. apply list.NoDup_cons in Hnd as [Hn _]. rewrite (filter_cons_False (λ r, ¬ (row_id r = row_id row ∧ row_storeId r = row_storeId row)) row) by (intros Hne; by apply Hne).
  rewrite (filter_true (λ r, ¬ (row_id r = row_id row ∧ row_storeId r = row_storeId row)) l').
  2: { intros r Hr [E _]. apply Hn. rewrite <- E. by apply list_elem_of_fmap_2. }
  rewrite filter_cons. destruct (decide (row_storeId row = s)); cbn; lia.
Qed.
Lemma change_counts new t t' : consistent t → change new t t' → counts_right t → counts_right t'.
Proof.
  intros C Hch Hc. destruct Hch; try (by apply (counts_same t)); intros s'; specialize (Hc s').
  - unfold counted, history_of, countRows, rows_of_store in *. cbn [dropped ds_history ds_rows]. destruct (decide (s' = id)) as [->|Hs]; [by rewrite !filter_dropped_same|]. by rewrite !filter_dropped.
  - rewrite counted_recorded. unfold countRows, rows_of_store in *. cbn [recorded set_rows ds_rows]. rewrite list.filter_app, length_app, filter_cons, filter_nil. change (counted (set_rows (ds_rows t ++ [row]) t) s') with (counted t s').
    rewrite Hc. destruct (decide (row_storeId row = s')); cbn; lia.
  - rewrite counted_recorded. change (counted (update_row _ _ _ t) s') with (counted t s'). change (countRows (recorded ?a ?b ?c ?d ?e ?x) s') with (countRows x s'). rewrite count_updated, Hc by (by intros). destruct (decide _); cbn; lia.
  - rewrite counted_recorded. change (counted (update_row _ _ _ t) s') with (counted t s'). change (countRows (recorded ?a ?b ?c ?d ?e ?x) s') with (countRows x s'). rewrite count_updated, Hc by (by intros y (_&_&?)). destruct (decide _); cbn; lia.
  - subst t1. change (counted (set_rows ?l ?x) s') with (counted x s'). rewrite counted_recorded, Hc. rewrite (count_deleted t row) by (done || apply C). unfold countRows, rows_of_store. cbn [set_rows recorded ds_rows]. destruct (decide (row_storeId row = s')); cbn; lia.
Qed.

(** ** The history of a row *)
Section JsonInd.
Variable P : json → Prop.
Hypothesis HNull : P JNull.
Hypothesis HBool : ∀ b, P (JBool b).
Hypothesis HNum : ∀ n, P (JNum n).
Hypothesis HStr : ∀ s, P (JStr s).
Hypothesis HArr : ∀ l, Forall P l → P (JArr l).
Hypothesis HObj : ∀ f : rec json, Forall (λ e, P e.2) f → P (JObj f).
Fixpoint json_nested_ind (v : json) : P v :=
  match v with
  | JNull => HNull
  | JBool b => HBool b
  | JNum n => HNum n
  | JStr s => HStr s
  | JArr l => HArr l ((fix go l : Forall P l := match l with [] => Forall_nil _ | x :: l' => Forall_cons _ _ _ (json_nested_ind x) (go l') end) l)
  | JObj f => HObj f ((fix go f : Forall (λ e, P e.2) f := match f with [] => Forall_nil _ | e :: f' => Forall_cons _ _ _ (json_nested_ind e.2) (go f') end) f)
  end.
End JsonInd.
Lemma same_json_trans a b c : same_json a b = true → same_json b c = true → same_json a c = true.
Proof.
  revert b c. induction a as [|b0|n0|s0|l IH|f IH] using json_nested_ind; intros b c Hab Hbc; destruct b as [| | | |l'|f']; try done; destruct c as [| | | |l''|f'']; try done; cbn in *.
  - by apply eqb_prop in Hab as ->.
  - by apply Z.eqb_eq in Hab as ->.
  - by apply str_eqb_eq in Hab as ->.
  - revert l' l'' Hab Hbc. induction IH as [|x l Hx _ IHl]; intros [|y l'] [|z l''] Hab Hbc; try done. apply andb_true_iff in Hab as [H1 H2], Hbc as [H3 H4]. apply andb_true_iff. split; [by eapply Hx|by eapply IHl].
  - apply andb_true_iff in Hab as [E1%Nat.eqb_eq Hab], Hbc as [E2%Nat.eqb_eq Hbc]. apply andb_true_iff. split; [apply Nat.eqb_eq; congruence|]. clear E1 E2.
    assert (∀ k v, (k, v) ∈ f' → ∃ w, get f'' k = Some w ∧ same_json v w = true) as Hget.
    { revert Hbc. clear. induction f' as [|[k v] f' IHf]; intros Hbc k0 v0 Hin; [by apply elem_of_nil in Hin|]. apply andb_true_iff in Hbc as [H1 H2]. apply elem_of_cons in Hin as [[= -> ->]|Hin]; [|by apply IHf].
      destruct (get f'' k) as [w|]; [by exists w|done]. }
    induction IH as [|[k v] f Hv _ IHf]; [done|]. apply andb_true_iff in Hab as [H1 H2]. apply andb_true_iff. split; [|by apply IHf]. destruct (get f' k) as [w|] eqn:E; [|done].
    destruct (Hget k w (get_sound _ _ _ E)) as (w'&->&Hw). by eapply Hv.
Qed.
(** Two readings of a cell that the code does not tell apart. *)
Definition agree (a b : json) : Prop := a = b ∨ same_json a b = true.
Lemma agree_trans a b c : agree a b → agree b c → agree a c.
Proof. intros [->|H1] [->|H2]; [by left|by right|by right|]. right. by eapply same_json_trans. Qed.
(** The values a cell went from and to, one after the other, up to the value it has. *)
Inductive tells : list (json * json) → json → Prop :=
  | tells_nothing v : tells [] v
  | tells_last story from to v : tells story from → agree to v → tells (story ++ [(from, to)]) v.
Lemma tells_agree story v w : tells story v → agree v w → tells story w.
Proof. destruct 1 as [|story from to v H1 H2]; intros H; [constructor|]. constructor; [done|]. by eapply agree_trans. Qed.
Definition diff_of (h : HistoryRow) : option (list (str * (json * json))) := match h_change h with CellDiff d => Some d | _ => None end.
Definition diffs (t : datastores) (s r : str) : list (list (str * (json * json))) := omap diff_of (filter (λ h, h_storeId h = s ∧ h_rowId h = r) (ds_history t)).
Definition cell_story (k : str) (l : list (list (str * (json * json)))) : list (json * json) := omap (λ d, get d k) l.
(** What the history says of a row. *)
Definition told_row (t : datastores) (r : DsRow) : Prop :=
  row_rev r = S (length (diffs t (row_storeId r) (row_id r))) ∧ ∀ k, tells (cell_story k (diffs t (row_storeId r) (row_id r))) (cell_of (row_data r) k).
Record told (used : list str) (new : str * list str) (t : datastores) : Prop := mkTold
  { to_history : ∀ h, h ∈ ds_history t → h_rowId h ∈ used ∨ h_rowId h ∈ row_ids t; to_rows : ∀ r, r ∈ ds_rows t → row_id r ∈ used ∨ row_id r ∈ new.2; to_row : ∀ r, r ∈ ds_rows t → told_row t r }.
Lemma diffs_recorded s0 r0 actor at_ ch t s r : diffs (recorded s0 r0 actor at_ ch t) s r =
  diffs t s r ++ match ch with CellDiff d => if decide (s0 = s ∧ r0 = r) then [d] else [] | _ => [] end.
Proof.
  unfold diffs. cbn [recorded ds_history]. rewrite list.filter_app, omap_app. f_equal. rewrite filter_cons, filter_nil. cbn [h_storeId h_rowId]. destruct (decide (s0 = s ∧ r0 = r)); by destruct ch.
Qed.
Lemma get_diffCells current patch k : NoDup patch.*1 → get (diffCells current patch) k = match get patch k with Some to => if same_json (cell_of current k) to then None else Some (cell_of current k, to) | None => None end.
Proof.
  unfold diffCells. induction patch as [|[k0 v0] patch IH]; [done|]. cbn [fmap list_fmap fst]. intros [Hn Hnd]%list.NoDup_cons. cbn [omap list_omap fst snd get]. destruct (str_eqb k0 k) eqn:E.
  - apply str_eqb_eq in E as ->. destruct (same_json (cell_of current k) v0); cbn [get]; [|by rewrite str_eqb_refl]. rewrite IH by done. destruct (get patch k) eqn:Hg; [|done]. by apply get_key in Hg.
  - destruct (same_json (cell_of current k0) v0); cbn [get]; [|rewrite E]; by apply IH.
Qed.
Lemma told_same used new t t' : ds_rows t' = ds_rows t → ds_history t' = ds_history t → told used new t → told used new t'.
Proof. intros E1 E2 [H1 H2 H3]. split; unfold told_row, diffs in *; rewrite ?E1, ?E2; done. Qed.
(** A step that a diff tells. *)
Definition told_by (d : list (str * (json * json))) (before after : rec json) : Prop :=
  ∀ k, match get d k with Some (from, to) => from = cell_of before k ∧ agree to (cell_of after k) | None => agree (cell_of before k) (cell_of after k) end.
Lemma told_replaced used new t row new_row d actor at_ f : consistent t → told used new t → row ∈ ds_rows t → (∀ y, row_at t (row_storeId row) (row_id row) y → f y = new_row) → row_id new_row = row_id row → row_storeId new_row = row_storeId row →
  row_rev new_row = S (row_rev row) → told_by d (row_data row) (row_data new_row) →
  told used new (recorded (row_storeId row) (row_id row) actor at_ (CellDiff d) (update_row (row_id row) (row_storeId row) f t)).
Proof.
  intros C [H1 H2 H3] Hrow Hf E1 E2 Hrev Hd. set (t1 := update_row _ _ f t). assert (∀ r, r ∈ ds_rows t1 → r = new_row ∨ (r ∈ ds_rows t ∧ ¬ (row_id r = row_id row ∧ row_storeId r = row_storeId row))) as Hup.
  { intros r [(y&Hy&->)|Hr]%elem_of_update_row; [left; by apply Hf|by right]. }
  assert (row_ids t1 = row_ids t) as Hids. { apply update_row_ids. intros y Hy. rewrite (Hf y Hy), E1. symmetry. apply Hy. }
  assert (∀ s r, diffs t1 s r = diffs t s r) as Hdiffs by done. split.
  - cbn [recorded ds_history ds_rows]. rewrite Hids. intros h [Hh| ->%list_elem_of_singleton]%elem_of_app; [by apply H1|]. right. cbn [h_rowId]. by apply list_elem_of_fmap_2.
  - intros r [->|[Hr _]]%Hup; [rewrite E1; by apply H2|by apply H2].
  - intros r Hr. unfold told_row. rewrite diffs_recorded, Hdiffs. apply Hup in Hr as [->|[Hr Hne]].
    + rewrite E1, E2, decide_True by done. destruct (H3 row Hrow) as [Hr1 Hr2]. split; [rewrite length_app, Hrev, Hr1; cbn; lia|]. intros k. unfold cell_story. rewrite omap_app. cbn [omap list_omap]. specialize (Hd k).
      destruct (get d k) as [[from to]|]; [destruct Hd as [-> Hd]; apply tells_last; [apply Hr2|exact Hd]|]. rewrite app_nil_r. eapply tells_agree; [apply Hr2|exact Hd].
    + rewrite decide_False, app_nil_r by naive_solver. by apply H3.
Qed.
Lemma patch_told_by row patch at_ : NoDup patch.*1 → told_by (diffCells (row_data row) patch) (row_data row) (row_data (patched row patch at_)).
Proof.
  intros Hnd k. rewrite get_diffCells by done. assert (cell_of (row_data (patched row patch at_)) k = match get patch k with Some v => v | None => cell_of (row_data row) k end) as ->.
  { unfold cell_of. cbn [row_data patched]. rewrite get_spread by done. by destruct (get patch k). }
  destruct (get patch k) as [to|]; [|by left]. destruct (same_json _ to) eqn:E; [by right|]. split; [done|by left].
Qed.
Lemma clear_told_by row columnId from at_ y : get (row_data row) columnId = Some from → told_by [(columnId, (from, JNull))] (row_data row) (row_data (cleared row columnId at_ y)).
Proof.
  intros Hg k. cbn [get row_data cleared]. destruct (str_eqb columnId k) eqn:E.
  - apply str_eqb_eq in E as <-. unfold cell_of. rewrite Hg, get_del_eq. split; [done|by left].
  - apply str_eqb_neq in E. left. unfold cell_of. by rewrite get_del_ne.
Qed.
Lemma told_inserted used new t row actor at_ : told used new t → row_id row ∈ new.2 → row_id row ∉ used → row_id row ∉ row_ids t → row_rev row = FIRST_ROW_REV →
  told used new (recorded (row_storeId row) (row_id row) actor at_ Creation (set_rows (ds_rows t ++ [row]) t)).
Proof.
  intros [H1 H2 H3] Hnew Hfresh Hids Hrev. split; cbn [recorded set_rows ds_history ds_rows].
  - intros h [[Hh|Hh]%H1| ->%list_elem_of_singleton]%elem_of_app; [by left|right..]; rewrite fmap_app, elem_of_app; [by left|right; left].
  - intros r [Hr| ->%list_elem_of_singleton]%elem_of_app; [by apply H2|by right].
  - intros r Hr. unfold told_row. rewrite diffs_recorded, app_nil_r. change (diffs (set_rows ?l t)) with (diffs t). apply elem_of_app in Hr as [Hr| ->%list_elem_of_singleton]; [by apply H3|].
    assert (diffs t (row_storeId row) (row_id row) = []) as ->; [|split; [done|intros k; constructor]]. unfold diffs. rewrite filter_false; [done|]. intros h [Hh|Hh]%H1 [_ E]; rewrite E in Hh; done.
Qed.
Lemma told_fewer used new t t' : new.2 = [] → told used new t → (∀ r, r ∈ ds_rows t' → r ∈ ds_rows t) → (∀ h, h ∈ ds_history t' → h ∈ ds_history t ∨ h_rowId h ∈ row_ids t) →
  (∀ r, r ∈ ds_rows t' → diffs t' (row_storeId r) (row_id r) = diffs t (row_storeId r) (row_id r)) → told used new t'.
Proof.
  intros Hn [H1 H2 H3] Hr Hh Hd. assert (∀ id, id ∈ row_ids t → id ∈ used) as Hids. { intros id (r&->&Hin)%list_elem_of_fmap. destruct (H2 r Hin) as [?|H]; [done|]. rewrite Hn in H. by apply elem_of_nil in H. }
  split.
  - intros h [Hin|Hin]%Hh; left; [destruct (H1 h Hin); auto|auto].
  - intros r Hin. by apply H2, Hr.
  - intros r Hin. unfold told_row. rewrite Hd by done. by apply H3, Hr.
Qed.
Lemma change_told used new t t' : consistent t → (∀ id, id ∈ new.2 → id ∉ used) → change new t t' → told used new t → told used new t'.
Proof.
  intros C Hfresh Hch Ht. destruct Hch; try (by apply (told_same used new t)).
  - apply (told_fewer used new t); [done|done|by intros r [_ ?]%list_elem_of_filter|by intros h [_ ?]%list_elem_of_filter; left|]. intros r [Hs Hr]%list_elem_of_filter. unfold diffs. cbn [dropped ds_history].
    rewrite list_filter_filter. f_equal. apply list_filter_iff. intros h. split; [tauto|]. intros [E ?]. split; [done|congruence].
  - apply told_inserted; auto.
  - eapply (told_replaced _ _ _ _ (patched row patch at_)); try done. by apply patch_told_by.
  - eapply (told_replaced _ _ _ _ (cleared row columnId at_ row)); try done; [|by apply clear_told_by]. intros y (Hy&E1&_). by rewrite (same_id_same_row t y row (co_rows t C) Hy ltac:(done) E1).
  - subst t1. apply (told_fewer used new t); [done|done|by intros r [_ ?]%list_elem_of_filter| |].
    + cbn [set_rows recorded ds_history]. intros h [Hh| ->%list_elem_of_singleton]%elem_of_app; [by left|]. right. cbn [h_rowId]. by apply list_elem_of_fmap_2.
    + intros r _. change (diffs (set_rows ?l ?x)) with (diffs x). by rewrite diffs_recorded, app_nil_r.
Qed.

(** ** Histories of calls *)
Section Histories.
Variable normalizeNFC : str → str.
Variable toLowerCase : str → str.
Variable dateParse : str → option Z.
Abbreviation run := (run_call normalizeNFC toLowerCase dateParse).
Abbreviation next := (store_step normalizeNFC toLowerCase dateParse).
(** One call; [used] are the ids given to rows so far, and a new id is none of them. *)
Inductive goes : relation (list str * datastores) :=
  goes_by used t e : well_keyed e → (∀ id, id ∈ (new_rows e).2 → id ∉ used) → goes (used, t) ((new_rows e).2 ++ used, next t e).
Definition stores_reached (s : list str * datastores) : Prop := rtc goes ([], no_stores) s.

Definition within_cap (t : datastores) : Prop := ∀ s, countRows t s ≤ MAX_ROWS_PER_STORE.
Lemma capacity_inr s n t t' a : assertRowCapacity s n t = inr (t', a) → countRows t s + n ≤ MAX_ROWS_PER_STORE.
Proof. unfold assertRowCapacity. intros [_ H]%refuse_when_inr. by apply Nat.ltb_ge in H. Qed.
Lemma insertRow_room s p actor b i t t' a : insertRow normalizeNFC toLowerCase dateParse s p actor b i t = inr (t', a) → countRows t s + 1 ≤ MAX_ROWS_PER_STORE.
Proof.
  unfold insertRow. intros (t1&[]&<-%reading_authorize&H)%bind_inr. apply bind_inr in H as (t1&[]&<-%reading_backlog&H). apply bind_inr in H as (t1&columns&[-> ->]%reads_inr&H). cbv zeta in H.
  apply bind_inr in H as (t1&[]&[-> _]%validateCells_inr&H). apply bind_inr in H as (t1&[]&<-%reading_kind&H). by apply bind_inr in H as (t1&[]&Hcap%capacity_inr&_).
Qed.
Lemma insertRows_room s p actor b items t t' a : insertRows normalizeNFC toLowerCase dateParse s p actor b items t = inr (t', a) → countRows t s + length items ≤ MAX_ROWS_PER_STORE.
Proof.
  unfold insertRows. intros (t1&[]&<-%reading_authorize&H)%bind_inr. apply bind_inr in H as (t1&[]&<-%reading_backlog&H). apply bind_inr in H as (t1&columns&[-> ->]%reads_inr&H).
  apply bind_inr in H as (t1&[]&Hv&H). assert (t1 = t) as ->.
  { eapply (each_checked _ (λ _, True)) in Hv as [-> _]; [done|]. intros i t2 [] _ (t3&[]&[-> _]%validateCells_inr&<-%reading_kind)%bind_inr. done. }
  by apply bind_inr in H as (t1&[]&Hcap%capacity_inr&_).
Qed.
Lemma saveRow_room s p actor b mode i t t' a : NoDup (ins_data i).*1 → saveRow normalizeNFC toLowerCase dateParse s p actor b mode i t = inr (t', a) → countRows t s + 1 ≤ MAX_ROWS_PER_STORE ∨ rows_only ([], []) t t'.
Proof.
  unfold saveRow. intros Hnd (t1&[]&<-%reading_authorize&H)%bind_inr. apply bind_inr in H as (t1&k&[-> ->]%reads_inr&H).
  assert (∀ t1, (row ← insertRow normalizeNFC toLowerCase dateParse s p actor b i; mret (Inserted, row)) t = inr (t1, a) → countRows t s + 1 ≤ MAX_ROWS_PER_STORE ∨ rows_only ([], []) t t1) as Hins.
  { intros t1 (t2&row&Hi&_)%bind_inr. left. by eapply insertRow_room. }
  destruct (naturalKeyOf t s) as [k|]; [|destruct (bool_decide _); [by st_inv|by apply Hins]]. destruct (sent (ins_data i) k) as [v|]; [|destruct (bool_decide _); [by apply Hins|by st_inv]].
  destruct v as [| | |key| |]; [destruct (bool_decide _); [by apply Hins|by st_inv]|by st_inv|by st_inv| |by st_inv|by st_inv].
  apply bind_inr in H as (t1&held&<-%reading_query&H). destruct held as [|row [|]]; [destruct (bool_decide _); [by st_inv|by apply Hins]| |by st_inv].
  destruct (bool_decide _); [by st_inv|]. apply bind_inr in H as (t1&ds&[-> ->]%reads_inr&H). apply bind_inr in H as (t1&r'&Hu&[-> _]%ret_inr). right. eapply updateRow_rows; [|exact Hu]. by apply del_keys_NoDup.
Qed.
Lemma call_cap e t t' a : consistent t → well_keyed e → within_cap t → run e t = inr (t', a) → within_cap t'.
Proof.
  intros C Hw Hcap H s. pose proof (call_changes _ _ _ _ _ _ _ (co_rows t C) Hw H) as Hch. assert (∀ new, changes new t t' → countRows t' s ≤ countRows t s + (if decide (s = new.1) then length new.2 else 0)) as Hgrow.
  { intros new Hn. apply count_grows; [by eapply co_rows, changes_consistent|by apply changes_evolve]. }
  pose proof (Hgrow _ Hch) as Hle. specialize (Hcap s). destruct e; cbn in Hle; try (destruct (decide _); lia); cbn in H; apply ignoring_inr in H as [r H].
  - apply insertRow_room in H. destruct (decide (s = storeId)) as [->|]; lia.
  - apply insertRows_room in H. rewrite length_fmap in Hle. destruct (decide (s = storeId)) as [->|]; lia.
  - apply saveRow_room in H as [H|[H _]]; [destruct (decide (s = storeId)) as [->|]; lia| |by unfold well_keyed in Hw; cbn in Hw; rewrite Forall_singleton in Hw]. apply Hgrow in H. cbn in H. destruct (decide (s = [])); lia.
Qed.

(** Everything that every history keeps. *)
Record sound (used : list str) (t : datastores) : Prop := mkSound
  { so_consistent : consistent t; so_displays : displays_end t; so_counts : counts_right t; so_told : told used ([], []) t; so_cap : within_cap t }.
Lemma sound_first : sound [] no_stores.
Proof.
  split.
  - split; cbn; try constructor; try (by intros ??? ?%elem_of_nil); try (by intros ?? ?%elem_of_nil); try done.
  - intros s id. constructor. done.
  - done.
  - split; cbn; by intros ? ?%elem_of_nil.
  - intros s. unfold countRows. cbn. lia.
Qed.
Lemma changes_sound used new t t' : sound used t → (∀ id, id ∈ new.2 → id ∉ used) → changes new t t' → consistent t' ∧ displays_end t' ∧ counts_right t' ∧ told (new.2 ++ used) ([], []) t'.
Proof.
  intros [C D N [T1 T2 T3] _] Hfresh Hch. split; [by eapply changes_consistent|]. split; [by eapply changes_displays|]. assert (told used new t) as T. { split; [done| |done]. intros r [?|?%elem_of_nil]%T2; [by left|done]. }
  clear D T1 T2 T3. assert (counts_right t' ∧ told used new t') as [N' [T1 T2 T3]].
  { induction Hch as [|t1 t2 t3 H1 _ IH]; [done|]. apply IH; [by eapply change_consistent|by eapply change_counts|by eapply change_told]. }
  assert (∀ id, id ∈ row_ids t' → id ∈ new.2 ++ used) as Hids. { intros id (r&->&Hr)%list_elem_of_fmap. apply elem_of_app. destruct (T2 r Hr); auto. }
  split; [done|]. split; [|intros r Hr; left; apply Hids; by apply list_elem_of_fmap_2|done]. intros h [Hh|Hh]%T1; left; [apply elem_of_app; by right|by apply Hids].
Qed.
Lemma call_sound used t e : sound used t → well_keyed e → (∀ id, id ∈ (new_rows e).2 → id ∉ used) → sound ((new_rows e).2 ++ used) (next t e).
Proof.
  intros S Hw Hfresh. unfold store_step, after. destruct (run e t) as [err|[t' a]] eqn:H.
  - destruct (changes_sound used (new_rows e) t t S Hfresh ltac:(done)) as (?&?&?&?). split; try done. apply S.
  - pose proof (call_changes _ _ _ _ _ _ _ (co_rows t (so_consistent _ _ S)) Hw H) as Hch. destruct (changes_sound used (new_rows e) t t' S Hfresh Hch) as (?&?&?&?). split; try done. eapply call_cap; [|exact Hw| |exact H]; apply S.
Qed.
Lemma goes_sound s s' : goes s s' → sound s.1 s.2 → sound s'.1 s'.2.
Proof. destruct 1. intros S. by apply call_sound. Qed.
Lemma stores_reached_sound used t : stores_reached (used, t) → sound used t.
Proof.
  intros H. change (sound (used, t).1 (used, t).2). generalize sound_first. change (sound [] no_stores) with (sound ([] : list str, no_stores).1 ([] : list str, no_stores).2). unfold stores_reached in H.
  induction H as [|s1 s2 s3 H1 _ IH]; [done|]. intros S. by eapply IH, goes_sound.
Qed.

(** *** Natural keys *)
Abbreviation find_by_key := (findRowByNaturalKey toLowerCase dateParse).
Lemma keyed_exact columns r k x col : columnById columns k = Some col → clause_holds toLowerCase dateParse columns r (keyed k x) = true → selected r k = Some x.
Proof.
  intros Hcol. unfold clause_holds. cbn [where_column keyed]. rewrite Hcol. unfold matches, cell_of. cbn [where_op where_value keyed]. rewrite selected_get. destruct (get (row_data r) k) as [[]|]; cbn; try done. by intros ->%str_eqb_eq.
Qed.
(** The query by the natural key of a store: the rows that hold it, of which there is at most one. *)
Lemma key_query t s k x : consistent t → naturalKeyOf t s = Some k → ∃ l, runQuery toLowerCase dateParse t s [keyed k x] [] (Some 2) = inr l ∧ length l ≤ 1 ∧ ∀ r, r ∈ l ↔ r ∈ ds_rows t ∧ row_storeId r = s ∧ selected r k = Some x.
Proof.
  intros C Hk. destruct (co_key t C s k Hk) as (Hne&c&Hc&Hs&Hid&_). assert (k ∈ col_id <$> listColumns t s) as Hin. { rewrite <- Hid. apply list_elem_of_fmap_2, elem_of_listColumns. done. }
  destruct (columnById_known _ _ Hin) as (col&Hcol&_). unfold runQuery. cbn [where_column keyed fmap list_fmap app]. assert (mem_str [] [k] = false) as ->. { cbn. apply orb_false_iff. split; [apply str_eqb_neq; by intros <-|done]. }
  assert (assertKnownColumns (listColumns t s) [k] = inr ()) as ->. { unfold assertKnownColumns, unknown_columns. rewrite filter_cons, filter_nil, decide_False; [done|]. apply mem_str_iff in Hin. by rewrite Hin. }
  set (held := filter _ (listRows t s)). assert (∀ r, r ∈ held ↔ r ∈ ds_rows t ∧ row_storeId r = s ∧ selected r k = Some x) as Hheld.
  { intros r. subst held. rewrite list_elem_of_filter, elem_of_listRows. cbn [forallb]. rewrite andb_true_r. split; [intros [?%(keyed_exact _ _ _ _ col) ?]; tauto|]. intros (?&?&?). split; [by eapply keyed_holds|done]. }
  assert (NoDup held) as Hnd. { subst held. apply list.NoDup_filter. unfold listRows, rows_of_store. rewrite sort_with_perm. apply list.NoDup_filter. eapply NoDup_fmap_1, C. }
  assert (length held ≤ 1) as Hlen.
  { destruct held as [|a [|b l]]; [cbn; lia..|]. exfalso. apply list.NoDup_cons in Hnd as [Hn _]. apply Hn. destruct (proj1 (Hheld a) ltac:(left)) as (H1&H2&H3). destruct (proj1 (Hheld b) ltac:(right; left)) as (H4&H5&H6).
    rewrite (same_id_same_row t a b (co_rows t C) H1 H4); [left|]. by apply (co_unique t C s k x). }
  eexists. split; [done|]. assert (length (sort_with (compare_rows dateParse (listColumns t s) []) held) ≤ 1) as Hlen' by (by rewrite sort_with_perm). rewrite take_ge by lia. split; [done|]. intros r. by rewrite sort_with_perm.
Qed.
(** C18. A natural key names one row: when a store has a natural key, it is a text column of that store, and looking a text up answers the one row of the store that holds it, or that there is none; the answer that several rows hold it is never given. *)
Theorem a_natural_key_names_one_row used t s p k x : stores_reached (used, t) → st_projectId <$> findStore t s = Some p → naturalKeyOf t s = Some k →
  (∃ c, c ∈ ds_columns t ∧ col_storeId c = s ∧ col_id c = k ∧ col_type c = TextColumn)
  ∧ ((∃ row, find_by_key s p x t = inr (t, row) ∧ ∀ r, (r ∈ ds_rows t ∧ row_storeId r = s ∧ selected r k = Some x) ↔ r = row)
     ∨ (find_by_key s p x t = inl RowNotFound ∧ ∀ r, r ∈ ds_rows t → row_storeId r = s → selected r k ≠ Some x)).
Proof.
  intros C%stores_reached_sound%so_consistent Hp Hk. split; [by apply (co_key t C s k)|]. destruct (key_query t s k x C Hk) as (l&Hq&Hlen&Hl). unfold findRowByNaturalKey, authorize.
  rewrite (bind_run _ _ t t ()) by (unfold refuse_when, check; by rewrite bool_decide_eq_true_2). rewrite (bind_run _ _ t t (Some k)) by (by rewrite <- Hk).
  rewrite (bind_run _ _ t t l) by (unfold query, check; by rewrite Hq). destruct l as [|row [|]]; [| |cbn in Hlen; lia].
  - right. split; [done|]. intros r Hr Hs Hx. assert (r ∈ []) as ?%elem_of_nil by (by apply Hl). done.
  - left. exists row. split; [done|]. intros r. by rewrite <- Hl, list_elem_of_singleton.
Qed.
(** *** Display columns *)
(** C22. Display columns never lead back: in every history, following the display column of a column, and of that one, ends; and the walk that [requireDisplayColumn] makes always ends within the turns it is given here, one more than the columns, in a cycle it refuses or at a column that has none. *)
Theorem display_columns_never_loop used t s id target : stores_reached (used, t) →
  ends (columns_of t s) id ∧ is_Some (loop (display_step (listColumns t s) target) (S (S (length (listColumns t s)))) (Some id, []))
  ∧ (meets_cycle (listColumns t s) target id = false ↔ avoids (listColumns t s) target id).
Proof.
  intros [_ D _ _ _]%stores_reached_sound. split; [apply D|]. split; [apply walk_total|]. split; [apply meets_cycle_false|]. apply meets_cycle_avoids.
Qed.
(** *** Revisions *)
Lemma checked_updates s columns items t t' a : each (λ u, _ ← refuseDaemonSetCells s (upd_patch u); _ ← validateCells dateParse columns (upd_patch u); refuseKindOutsideManagerLogList toLowerCase s columns (upd_patch u)) items t = inr (t', a) → t' = t.
Proof.
  intros Hv. eapply (each_checked _ (λ _, True)) in Hv as [-> _]; [done|]. intros u t2 [] _ (t3&[]&<-%reading_daemon_cells&H')%bind_inr. apply bind_inr in H' as (t3&[]&[-> _]%validateCells_inr&<-%reading_kind). done.
Qed.
(** A row that was read: its id is never given again, and it is as it was, or of a greater revision, or gone. *)
Definition since (r : DsRow) (s : list str * datastores) : Prop := row_id r ∈ s.1 ∧ ∀ x, x ∈ ds_rows s.2 → row_id x = row_id r → x = r ∨ row_rev r < row_rev x.
Lemma goes_row s s' r : sound s.1 s.2 → goes s s' → since r s → since r s'.
Proof.
  intros S Hgo [Hu Hr]. destruct Hgo as [used t e Hw Hfresh]. cbn in *. split; [apply elem_of_app; by right|]. cbn. intros x Hx Hid. unfold store_step, after in Hx. destruct (run e t) as [|[t' []]] eqn:H; [by apply Hr|].
  pose proof (call_changes _ _ _ _ _ _ _ (co_rows t (so_consistent _ _ S)) Hw H) as Hch%changes_evolve. destruct (Hch x Hx) as [[_ Hn]|(y&Hy&E1&_&Hc)]; [rewrite Hid in Hn; by apply Hfresh in Hn|].
  destruct (Hr y Hy ltac:(congruence)) as [->|Hlt], Hc as [->|Hlt']; auto; right; lia.
Qed.
Lemma goes_rows s s' r : rtc goes s s' → sound s.1 s.2 → since r s → since r s'.
Proof. induction 1 as [|a b c H1 _ IH]; [done|]. intros S Hr. apply IH; [by eapply goes_sound|by eapply goes_row]. Qed.
Lemma row_through s s' r : stores_reached s → rtc goes s s' → r ∈ ds_rows s.2 → since r s'.
Proof.
  destruct s as [used t]. intros S%stores_reached_sound Hgo Hr. eapply goes_rows; [done|done|]. split.
  - destruct (to_rows _ _ _ (so_told _ _ S) r Hr) as [?|?%elem_of_nil]; done.
  - intros x Hx E. left. by apply (same_id_same_row t x r (co_rows t (so_consistent _ _ S))).
Qed.
(** What an update makes of a row: its row, when a cell of the update is not the one it holds, takes the cells of the update and the next revision; every other row stays. *)
Definition changes_row (u : RowUpdate) (x : DsRow) : bool := existsb (λ e, negb (same_json (cell_of (row_data x) e.1) e.2)) (normalizeCells (upd_patch u)).
Definition write_row (s : str) (u : RowUpdate) (x : DsRow) : DsRow :=
  if str_eqb (row_id x) (upd_rowId u) && str_eqb (row_storeId x) s && changes_row u x
  then mkRow (row_id x) s (spread (row_data x) (normalizeCells (upd_patch u))) (S (row_rev x)) (row_createdAt x) (upd_at u) else x.
Definition write_rows (s : str) (items : list RowUpdate) (rows : list DsRow) : list DsRow := fold_left (λ rows u, write_row s u <$> rows) items rows.
Lemma write_row_id s u x : row_id (write_row s u x) = row_id x.
Proof. unfold write_row. by destruct (_ && _). Qed.
Lemma write_row_rev s u x : write_row s u x = x ∨ row_rev x < row_rev (write_row s u x).
Proof. unfold write_row. destruct (_ && _); [right; cbn; lia|by left]. Qed.
Lemma write_rows_from s items rows x : x ∈ write_rows s items rows → ∃ x0, x0 ∈ rows ∧ row_id x = row_id x0 ∧ (x = x0 ∨ row_rev x0 < row_rev x).
Proof.
  revert rows. induction items as [|u items IH]; intros rows; [by exists x; auto|]. intros (x1&(x0&->&Hx0)%list_elem_of_fmap&Hid&Hr)%IH. exists x0. rewrite write_row_id in Hid. split; [done|]. split; [done|]. destruct (write_row_rev s u x0) as [E|E], Hr as [->|Hr]; rewrite ?E in *; auto; right; lia.
Qed.
Lemma diff_nil current (c : rec json) : diffCells current c = [] ↔ existsb (λ e, negb (same_json (cell_of current e.1) e.2)) c = false.
Proof. unfold diffCells. induction c as [|e c IH]; [done|]. cbn [omap list_omap existsb]. by destruct (same_json _ _). Qed.
Lemma repo_update_rows s u actor t t' x : NoDup (row_ids t) → repo_updateRow (upd_rowId u) s (upd_patch u) (upd_expectedRev u) actor (upd_at u) t = inr (t', x) →
  ds_rows t' = write_row s u <$> ds_rows t ∧ ∃ r, row_at t s (upd_rowId u) r ∧ x = write_row s u r ∧ ∀ rev, upd_expectedRev u = Some rev → rev = row_rev r.
Proof.
  intros Hnd. unfold repo_updateRow, refuseUnknownColumns. intros Hup. apply bind_inr in Hup as (t2&row&[-> Hf]%check_inr&Hup). destruct (findRow _ _ _) as [row'|] eqn:E; [|done]. injection Hf as ->. apply findRow_at in E as (Hin&Hid&<-).
  apply bind_inr in Hup as (t2&[]&[-> Hrev]%refuse_when_inr&Hup). assert (∀ rev, upd_expectedRev u = Some rev → rev = row_rev row) as Hread. { intros rev E. rewrite E in Hrev. by apply negb_false_iff, Nat.eqb_eq in Hrev. }
  apply bind_inr in Hup as (t2&[]&[-> _]%check_inr&Hup).
  assert (∀ y, y ∈ ds_rows t → (y = row ∧ str_eqb (row_id y) (upd_rowId u) && str_eqb (row_storeId y) (row_storeId row) = true) ∨ str_eqb (row_id y) (upd_rowId u) && str_eqb (row_storeId y) (row_storeId row) = false) as Hrows.
  { intros y Hy. destruct (str_eqb (row_id y) (upd_rowId u)) eqn:Ey; [|by right]. apply str_eqb_eq in Ey. left. assert (y = row) as -> by (apply (same_id_same_row t); [done..|congruence]). split; [done|]. apply str_eqb_refl. }
  destruct (diffCells _ _) as [|d ds] eqn:Ed.
  - apply ret_inr in Hup as [-> ->]. apply diff_nil in Ed. assert (∀ y, y ∈ ds_rows t → write_row (row_storeId row) u y = y) as Hsame. { intros y Hy. unfold write_row, changes_row. destruct (Hrows y Hy) as [[-> ->]| ->]; [|done]. by rewrite Ed. }
    split; [|exists row; by rewrite Hsame]. rewrite <- (list_fmap_id (ds_rows t)) at 1. apply list_fmap_ext. intros k y Hy%list_elem_of_lookup_2. symmetry. by apply Hsame.
  - apply bind_inr in Hup as (t2&[]&->%writes_inr&Hup). apply bind_inr in Hup as (t2&[]&->%recordChange_inr&[-> ->]%ret_inr). assert (changes_row u row = true) as Hc. { destruct (changes_row u row) eqn:E; [done|]. apply diff_nil in E. by rewrite Ed in E. }
    assert (write_row (row_storeId row) u row = patched row (normalizeCells (upd_patch u)) (upd_at u)) as Hw. { unfold write_row. rewrite Hid, !str_eqb_refl, Hc. cbn [andb]. unfold patched. by rewrite Hid. }
    split; [|by exists row]. cbn [recorded ds_rows update_row set_rows]. apply list_fmap_ext. intros k y Hy%list_elem_of_lookup_2. destruct (Hrows y Hy) as [[-> E]|E]; rewrite E; [by rewrite Hw|]. unfold write_row. by rewrite E.
Qed.
Lemma write_update_exact s p actor u t t' x : NoDup (row_ids t) → write_update normalizeNFC toLowerCase dateParse s p actor u t = inr (t', x) →
  ds_rows t' = write_row s u <$> ds_rows t ∧ ∃ r, row_at t s (upd_rowId u) r ∧ x = write_row s u r ∧ ∀ rev, upd_expectedRev u = Some rev → rev = row_rev r.
Proof. unfold write_update. intros Hnd (t2&[]&[-> _]%key_checked&Hy)%bind_inr. apply bind_inr in Hy as (t2&[]&<-%reading_row_guard&Hy). by eapply repo_update_rows. Qed.
Lemma write_rows_all s p actor items t t' out : NoDup (row_ids t) → mapTx (write_update normalizeNFC toLowerCase dateParse s p actor) items t = inr (t', out) →
  ds_rows t' = write_rows s items (ds_rows t) ∧ length out = length items
  ∧ ∀ i u, items !! i = Some u → ∃ r, r ∈ write_rows s (take i items) (ds_rows t) ∧ row_id r = upd_rowId u ∧ row_storeId r = s ∧ out !! i = Some (write_row s u r) ∧ ∀ rev, upd_expectedRev u = Some rev → rev = row_rev r.
Proof.
  revert t out. induction items as [|u items IH]; intros t out Hnd; cbn [mapTx].
  - intros [-> ->]%ret_inr. split; [done|]. split; [done|]. by intros i u ?%list_elem_of_lookup_2%elem_of_nil.
  - intros (t1&x&Hx&H)%bind_inr. apply bind_inr in H as (t2&xs&Hxs&[-> ->]%ret_inr). apply write_update_exact in Hx as (Hrows&r&(Hr&Hid&Hst)&->&Hrev); [|done]. apply IH in Hxs as (Hall&Hlen&Hi).
    2: { unfold row_ids. rewrite Hrows, <- list_fmap_compose. rewrite (list_fmap_ext _ row_id); [done|]. intros. apply write_row_id. }
    rewrite Hrows in Hall, Hi. split; [done|]. split; [cbn; by rewrite Hlen|]. intros [|i] u' Hu; cbn in Hu; [injection Hu as <-; by exists r|]. by apply Hi.
Qed.
(** C17. A write that names a revision meets what was read: whatever calls came between the readings of some rows and a batch of updates of their store, when the batch succeeds the rows of the tables are exactly those of before with each update written in turn, one answer each; and each
    update that names a row that was read with the revision it had finds it exactly as it was read, in the tables of before and when its turn comes, and answers that row, with the cells of the update and the next revision unless it held them all. *)
Theorem a_write_with_a_revision_meets_what_was_read s s' st p items actor t out : stores_reached s → rtc goes s s' →
  updateRows normalizeNFC toLowerCase dateParse st p items actor s'.2 = inr (t, out) →
  ds_rows t = write_rows st items (ds_rows s'.2) ∧ length out = length items
  ∧ ∀ i u r, items !! i = Some u → r ∈ ds_rows s.2 → row_storeId r = st → upd_rowId u = row_id r → upd_expectedRev u = Some (row_rev r) →
      r ∈ ds_rows s'.2 ∧ r ∈ write_rows st (take i items) (ds_rows s'.2) ∧ out !! i = Some (write_row st u r).
Proof.
  intros Hs Hgo H. assert (NoDup (row_ids s'.2)) as Hnd. { destruct s' as [used' t']. assert (stores_reached (used', t')) as [C _ _ _ _]%stores_reached_sound by (unfold stores_reached in *; etrans; [exact Hs|exact Hgo]). apply C. }
  unfold updateRows in H. apply bind_inr in H as (t1&[]&<-%reading_authorize&H). apply bind_inr in H as (t1&columns&[-> ->]%reads_inr&H). apply bind_inr in H as (t1&[]&->%checked_updates&H).
  apply write_rows_all in H as (Hrows&Hlen&Hi); [|done]. split; [done|]. split; [done|]. intros i u r Hu Hr Hst Hid Hrev. destruct (Hi i u Hu) as (x&Hx&Hidx&Hstx&Hout&Hread). specialize (Hread _ Hrev).
  destruct (write_rows_from _ _ _ _ Hx) as (x0&Hx0&Hid0&Hrev0). destruct (row_through s s' r Hs Hgo Hr) as [_ Hsince]. assert (x = r ∧ x0 = r) as [-> ->]; [|done].
  destruct (Hsince x0 Hx0 ltac:(congruence)) as [->|], Hrev0 as [->|]; try done; lia.
Qed.
(** *** The history *)
(** C20. The history tells every row and counts them: the revision of a row is one more than the changes recorded of it, the values a cell went from and to in those changes follow each other up to the value it has, and the changes of a store add up, as the source of the table triggers counts them, to the number of its rows. *)
Theorem the_history_tells_every_row used t : stores_reached (used, t) →
  (∀ r, r ∈ ds_rows t → row_rev r = S (length (diffs t (row_storeId r) (row_id r))) ∧ ∀ k, tells (cell_story k (diffs t (row_storeId r) (row_id r))) (cell_of (row_data r) k))
  ∧ ∀ s, foldr Z.add 0%Z (rowCountChangeOf ∘ h_change <$> history_of t s) = Z.of_nat (countRows t s).
Proof. intros [_ _ N T _]%stores_reached_sound. split; [apply T|apply N]. Qed.
(** *** The row guard *)
Abbreviation text_in J r := (textOf normalizeNFC (get (row_data r) (col_id J))).
(** The rows of a store stay, and each journal starts with what it was. *)
Definition journals_grow (s : str) (J : DsColumn) (t t' : datastores) : Prop :=
  same_schema t t' ∧ row_ids t ⊆ row_ids t' ∧ ∀ r', r' ∈ ds_rows t' → row_storeId r' = s → row_id r' ∉ row_ids t ∨ ∃ r, r ∈ ds_rows t ∧ row_id r = row_id r' ∧ row_storeId r = s ∧ startsWith (text_in J r') (text_in J r) = true.
Lemma startsWith_same x : startsWith x x = true.
Proof. apply startsWith_iff. exists []. by rewrite app_nil_r. Qed.
Lemma startsWith_more x y z : startsWith z y = true → startsWith y x = true → startsWith z x = true.
Proof. rewrite !startsWith_iff. intros [l1 ->] [l2 ->]. exists (l2 ++ l1). by rewrite app_assoc. Qed.
#[export] Instance journals_grow_preorder s J : PreOrder (journals_grow s J).
Proof.
  split.
  - intros t. split; [done|]. split; [done|]. intros r Hr Hs. right. exists r. split_and!; try done. apply startsWith_same.
  - intros t1 t2 t3 (S1&I1&H1) (S2&I2&H2). split; [by etrans|]. split; [set_solver|]. intros r3 Hr3 Hs3. destruct (H2 r3 Hr3 Hs3) as [Hn|(r2&Hr2&E2&Hs2&P2)]; [left; set_solver|].
    destruct (H1 r2 Hr2 Hs2) as [Hn|(r1&Hr1&E1&Hs1&P1)]; [left; by rewrite <- E2|]. right. exists r1. split_and!; [done|congruence|done|by eapply startsWith_more].
Qed.
(** The project of the store guards its rows, and this is the journal. *)
Definition guarded (s p : str) (J : DsColumn) (t : datastores) : Prop := isRowGuardEnabled t p = true ∧ columnNamed normalizeNFC toLowerCase (listColumns t s) (js "journal") = Some J.
Lemma guarded_stays s p J t t' : same_schema t t' → guarded s p J t → guarded s p J t'.
Proof. intros Hs [H1 H2]. split; [|by rewrite (schema_columns _ _ _ Hs)]. injection Hs as E _ _ _ _. unfold isRowGuardEnabled in *. by rewrite E. Qed.
Lemma guard_keeps s r p patch J t t' a row : guarded s p J t → findRow t r s = Some row → refuseRowGuardViolation normalizeNFC toLowerCase s r p patch t = inr (t', a) →
  startsWith (textOf normalizeNFC (resultingCell row patch J)) (text_in J row) = true.
Proof.
  intros [Hg HJ] Hrow. unfold refuseRowGuardViolation. intros [_ H]%check_inr. rewrite Hg, Hrow in H. unfold rowGuardViolationOf, journal_kept in H. rewrite HJ in H. unfold touches, resultingCell in *.
  destruct (sent patch (col_id J)) as [v|]; [|apply startsWith_same]. rewrite bool_decide_eq_true_2 in H by done. cbn [negb orb] in H. by destruct (startsWith _ _).
Qed.
Lemma resulting_get row patch at_ c : NoDup patch.*1 → get (row_data (patched row (normalizeCells patch) at_)) (col_id c) = resultingCell row patch c.
Proof. intros Hnd. unfold resultingCell. cbn [row_data patched]. rewrite get_spread by (by apply normalize_keys). rewrite normalize_get by done. by destruct (sent patch (col_id c)). Qed.
Lemma guarded_update s r p patch rev actor at_ J t t1 t' a b : guarded s p J t → NoDup patch.*1 → refuseRowGuardViolation normalizeNFC toLowerCase s r p patch t = inr (t1, b) → repo_updateRow r s patch rev actor at_ t = inr (t', a) → journals_grow s J t t'.
Proof.
  intros HG Hnd Hguard. unfold repo_updateRow, refuseUnknownColumns. intros (t2&row&[-> Hf]%check_inr&H)%bind_inr. destruct (findRow t r s) as [row'|] eqn:E; [|done]. injection Hf as ->. pose proof (guard_keeps _ _ _ _ _ _ _ _ _ HG E Hguard) as Hk.
  apply findRow_at in E as (Hin&<-&<-). st_inv. destruct (diffCells _ _) as [|d0 dl] eqn:Hd; [st_inv; reflexivity|]. apply bind_inr in H as (t2&[]&->%writes_inr&H). apply bind_inr in H as (t2&[]&->%recordChange_inr&[-> _]%ret_inr).
  split; [done|]. cbn [recorded ds_rows]. split; [rewrite update_row_ids; [done|by intros y (_&?&_)]|]. intros r' [(y&_&->)|[Hr' _]]%elem_of_update_row Hs; right; [exists row|exists r'; split_and!; try done; apply startsWith_same].
  split_and!; try done. by rewrite resulting_get.
Qed.
Lemma guarded_insert s sid id data actor at_ J t t' a : repo_insertRow sid id data actor at_ t = inr (t', a) → journals_grow s J t t'.
Proof.
  unfold repo_insertRow, refuseMissingStore, refuseUnknownColumns. intros H. cbv zeta in H. st_inv. match goal with H : recordChange _ _ _ _ _ _ = _ |- _ => apply recordChange_inr in H as -> end. split; [done|]. cbn [recorded set_rows ds_rows].
  split; [intros x Hx; rewrite fmap_app; apply elem_of_app; by left|]. intros r' [Hr'| ->%list_elem_of_singleton]%elem_of_app Hs; [right; exists r'; split_and!; try done; apply startsWith_same|left].
  cbn. intros Hin%mem_str_iff. congruence.
Qed.
Lemma guarded_write s p actor u J t t' a : guarded s p J t → NoDup (upd_patch u).*1 → write_update normalizeNFC toLowerCase dateParse s p actor u t = inr (t', a) → journals_grow s J t t'.
Proof. unfold write_update. intros HG Hnd (t1&[]&[-> _]%key_checked&H)%bind_inr. apply bind_inr in H as (t1&[]&Hg&H). pose proof (reading_row_guard _ _ _ _ _ _ _ _ _ Hg) as <-. by eapply guarded_update. Qed.
Lemma guarded_updateRow s r p patch actor at_ J t t' a : guarded s p J t → NoDup patch.*1 → updateRow normalizeNFC toLowerCase dateParse s r p patch actor at_ t = inr (t', a) → journals_grow s J t t'.
Proof.
  unfold updateRow. intros HG Hnd (t1&[]&<-%reading_authorize&H)%bind_inr. apply bind_inr in H as (t1&[]&<-%reading_daemon_cells&H). apply bind_inr in H as (t1&columns&[-> ->]%reads_inr&H).
  apply bind_inr in H as (t1&[]&[-> _]%validateCells_inr&H). apply bind_inr in H as (t1&[]&<-%reading_kind&H). apply bind_inr in H as (t1&[]&[-> _]%key_checked&H). apply bind_inr in H as (t1&[]&Hg&H).
  pose proof (reading_row_guard _ _ _ _ _ _ _ _ _ Hg) as <-. by eapply guarded_update.
Qed.
Lemma guarded_updateRows s p items actor J t t' a : guarded s p J t → (∀ u, u ∈ items → NoDup (upd_patch u).*1) → updateRows normalizeNFC toLowerCase dateParse s p items actor t = inr (t', a) → journals_grow s J t t'.
Proof.
  unfold updateRows. intros HG Hnd (t1&[]&<-%reading_authorize&H)%bind_inr. apply bind_inr in H as (t1&columns&[-> ->]%reads_inr&H). apply bind_inr in H as (t1&[]&->%checked_updates&H).
  revert H. apply (mapTx_steps _ _ (λ _, guarded s p J)); [|intros u t1 t2 [Hs _]; by apply guarded_stays|done]. intros u t1 t2 b Hu HG'. apply guarded_write; [done|by apply Hnd].
Qed.
Lemma guarded_inserts s p0 p actor b i J t t' a : insertRow normalizeNFC toLowerCase dateParse s p actor b i t = inr (t', a) → journals_grow p0 J t t'.
Proof.
  unfold insertRow. intros (t1&[]&<-%reading_authorize&H)%bind_inr. apply bind_inr in H as (t1&[]&<-%reading_backlog&H). apply bind_inr in H as (t1&columns&[-> ->]%reads_inr&H). cbv zeta in H.
  apply bind_inr in H as (t1&[]&[-> _]%validateCells_inr&H). apply bind_inr in H as (t1&[]&<-%reading_kind&H). apply bind_inr in H as (t1&[]&<-%reading_capacity&H).
  unfold write_insert in H. apply bind_inr in H as (t1&[]&[-> _]%key_checked&H). by eapply guarded_insert.
Qed.
Lemma guarded_insertRows s s0 p actor b items J t t' a : insertRows normalizeNFC toLowerCase dateParse s p actor b items t = inr (t', a) → journals_grow s0 J t t'.
Proof.
  unfold insertRows. intros (t1&[]&<-%reading_authorize&H)%bind_inr. apply bind_inr in H as (t1&[]&<-%reading_backlog&H). apply bind_inr in H as (t1&columns&[-> ->]%reads_inr&H). apply bind_inr in H as (t1&[]&Hv&H).
  eapply (each_checked _ (λ _, True)) in Hv as [-> _]. 2: { intros i t2 [] _ (t3&[]&[-> _]%validateCells_inr&<-%reading_kind)%bind_inr. done. }
  apply bind_inr in H as (t1&[]&<-%reading_capacity&H). revert H. apply preserves_mapTx; [apply _|]. intros i t1 t2 r (t3&[]&[-> _]%key_checked&H)%bind_inr. by eapply guarded_insert.
Qed.
Lemma guarded_save s p actor b mode i J t t' a : guarded s p J t → NoDup (ins_data i).*1 → saveRow normalizeNFC toLowerCase dateParse s p actor b mode i t = inr (t', a) → journals_grow s J t t'.
Proof.
  unfold saveRow. intros HG Hnd (t1&[]&<-%reading_authorize&H)%bind_inr. apply bind_inr in H as (t1&k&[-> ->]%reads_inr&H).
  assert (∀ t1, (row ← insertRow normalizeNFC toLowerCase dateParse s p actor b i; mret (Inserted, row)) t = inr (t1, a) → journals_grow s J t t1) as Hins.
  { intros t1 (t2&row&Hi&[-> _]%ret_inr)%bind_inr. by eapply guarded_inserts. }
  destruct (naturalKeyOf t s) as [k|]; [|destruct (bool_decide _); [by st_inv|by apply Hins]]. destruct (sent (ins_data i) k) as [v|]; [|destruct (bool_decide _); [by apply Hins|by st_inv]].
  destruct v as [| | |key| |]; [destruct (bool_decide _); [by apply Hins|by st_inv]|by st_inv|by st_inv| |by st_inv|by st_inv].
  apply bind_inr in H as (t1&held&<-%reading_query&H). destruct held as [|row [|]]; [destruct (bool_decide _); [by st_inv|by apply Hins]| |by st_inv].
  destruct (bool_decide _); [by st_inv|]. apply bind_inr in H as (t1&ds&[-> ->]%reads_inr&H). apply bind_inr in H as (t1&r'&Hu&[-> _]%ret_inr). eapply guarded_updateRow; [done| |exact Hu]. by apply del_keys_NoDup.
Qed.
Lemma guarded_where s p wheres set actor clock J t t' a : guarded s p J t → NoDup set.*1 → updateRowsWhere normalizeNFC toLowerCase dateParse s p wheres set actor clock t = inr (t', a) → journals_grow s J t t'.
Proof.
  unfold updateRowsWhere. intros HG Hnd (t1&[]&<-%reading_authorize&H)%bind_inr. apply bind_inr in H as (t1&[]&<-%reading_daemon_cells&H). apply bind_inr in H as (t1&columns&[-> ->]%reads_inr&H).
  apply bind_inr in H as (t1&[]&[-> _]%validateCells_inr&H). apply bind_inr in H as (t1&rows&<-%reading_query&H). apply bind_inr in H as (t1&k&[-> ->]%reads_inr&H). apply bind_inr in H as (t1&[]&[-> _]%refuse_when_inr&H).
  apply bind_inr in H as (t1&updated&Hu&[-> _]%ret_inr). eapply guarded_updateRows; [done| |exact Hu]. by intros u (r&->&_)%list_elem_of_fmap.
Qed.
(** The store and the project of a call that writes cells. *)
Definition writes_cells (e : StoreCall) : option (str * str) :=
  match e with
  | RowInserted s p _ _ _ | RowsInserted s p _ _ _ | RowSaved s p _ _ _ _ | RowUpdated_ s _ p _ _ _ | RowsUpdated s p _ _ | RowsUpdatedWhere s p _ _ _ _ => Some (s, p)
  | _ => None
  end.
(** C21. A guarded journal only grows: in a project that guards its rows, no call that writes cells of a store (one row, a batch, by a filter, by the natural key) removes a row or leaves one whose journal does not start with the journal it had. *)
Theorem a_guarded_journal_only_grows used t e s p J r : stores_reached (used, t) → well_keyed e → writes_cells e = Some (s, p) → isRowGuardEnabled t p = true →
  columnNamed normalizeNFC toLowerCase (listColumns t s) (js "journal") = Some J → r ∈ ds_rows t → row_storeId r = s →
  ∃ r', r' ∈ ds_rows (next t e) ∧ row_id r' = row_id r ∧ ∀ r'', r'' ∈ ds_rows (next t e) → row_storeId r'' = s → row_id r'' = row_id r →
    startsWith (textOf normalizeNFC (get (row_data r'') (col_id J))) (textOf normalizeNFC (get (row_data r) (col_id J))) = true.
Proof.
  intros C%stores_reached_sound%so_consistent Hw Hwr Hg HJ Hr Hs. assert (journals_grow s J t (next t e)) as (_&Hids&Hgrow).
  { unfold store_step, after. destruct (run e t) as [|[t' []]] eqn:H; [reflexivity|]. assert (guarded s p J t) as HG by done. unfold well_keyed in Hw. destruct e; try done; cbn in Hwr, Hw, H; injection Hwr as -> ->; apply ignoring_inr in H as [b H]; rewrite ?Forall_singleton in Hw.
    - by eapply guarded_inserts.
    - by eapply guarded_insertRows.
    - by eapply guarded_save.
    - by eapply guarded_updateRow.
    - eapply guarded_updateRows; [done| |exact H]. intros u Hu. rewrite Forall_fmap, list.Forall_forall in Hw. by apply (Hw u).
    - by eapply guarded_where. }
  assert (row_id r ∈ row_ids (next t e)) as (r'&E&Hr')%list_elem_of_fmap by (by apply Hids, list_elem_of_fmap_2). exists r'. split; [done|]. split; [done|]. intros r'' Hr'' Hs'' E''.
  destruct (Hgrow r'' Hr'' Hs'') as [Hn|(r0&Hr0&E0&Hs0&P0)]; [destruct Hn; rewrite E''; by apply list_elem_of_fmap_2|]. by rewrite (same_id_same_row t r r0 (co_rows t C) Hr Hr0 ltac:(congruence)).
Qed.
End Histories.

(** ** Kanban boards *)
Lemma find_by_id options o : NoDup (opt_id <$> options) → o ∈ options → find (λ x, str_eqb (opt_id x) (opt_id o)) options = Some o.
Proof.
  intros Hnd Ho. destruct (find _ options) as [o'|] eqn:E; [apply find_elem in E as [Ho' E%str_eqb_eq]; f_equal; by apply (same_key opt_id options)|]. rewrite find_is_None in E. specialize (E o Ho). by rewrite str_eqb_refl in E.
Qed.
Lemma filter_split {A} (P : A → bool) l : filter (λ x, P x = true) l ++ filter (λ x, P x = false) l ≡ₚ l.
Proof. induction l as [|x l IH]; [done|]. rewrite !filter_cons. destruct (P x); [rewrite decide_True, decide_False by done|rewrite decide_False, decide_True by done]; [cbn [app]|rewrite <- Permutation_middle]; by rewrite IH. Qed.
Lemma ordered_options_perm options order : NoDup (opt_id <$> options) → orderedKanbanOptions options order ≡ₚ options.
Proof.
  intros Hnd. unfold orderedKanbanOptions. set (ids := remove_dups (default [] order)). assert (NoDup ids) as Hids by apply NoDup_remove_dups.
  assert (omap (λ id, find (λ o, str_eqb (opt_id o) id) options) ids ≡ₚ filter (λ o, mem_str (opt_id o) ids = true) options) as ->.
  { apply NoDup_Permutation.
    - clear -Hids. induction Hids as [|id ids Hid _ IH]; [constructor|]. cbn [omap list_omap]. destruct (find _ options) as [o|] eqn:E; [|done]. apply list.NoDup_cons. split; [|done]. intros (id'&Hid'&E')%list_elem_of_omap.
      apply find_elem in E as [_ E%str_eqb_eq], E' as [_ E'%str_eqb_eq]. congruence.
    - apply list.NoDup_filter. by eapply NoDup_fmap_1.
    - intros o. rewrite list_elem_of_omap, list_elem_of_filter, mem_str_iff. split.
      + intros (id&Hid&[Ho E%str_eqb_eq]%find_elem). by rewrite E.
      + intros [Hid Ho]. exists (opt_id o). split; [done|by apply find_by_id]. }
  apply (filter_split (λ o, mem_str (opt_id o) ids)).
Qed.
(** The rows of the groups, with those of the group without option. *)
Lemma groups_partition (ids : list str) (sel : DsRow → option str) rows : NoDup ids →
  concat ((λ id, filter (λ r, sel r = Some id) rows) <$> ids) ++ filter (λ r, match sel r with Some id => mem_str id ids | None => false end = false) rows ≡ₚ rows.
Proof.
  intros Hnd. induction rows as [|r rows IH].
  - rewrite filter_nil, app_nil_r. clear. induction ids as [|id ids IH]; [done|]. cbn [fmap list_fmap concat]. rewrite filter_nil. exact IH.
  - rewrite <- IH at 2. clear IH. rewrite filter_cons. destruct (match sel r with Some id => mem_str id ids | None => false end) eqn:E; cbn [decide].
    + destruct (sel r) as [i|] eqn:Ei; [|done]. apply mem_str_iff in E. rewrite decide_False by done. rewrite app_comm_cons. apply Permutation_app_tail. induction Hnd as [|id ids Hid _ IH]; [by apply elem_of_nil in E|]. cbn [fmap list_fmap concat].
      rewrite filter_cons, Ei. destruct (decide (Some i = Some id)) as [[= <-]|Hne].
      * cbn [app]. constructor. apply Permutation_app_head. apply reflexive_eq. f_equal. apply list_fmap_ext. intros k id' Hk. cbv beta. rewrite filter_cons, Ei, decide_False; [done|]. intros [= <-]. apply Hid. by eapply list_elem_of_lookup_2.
      * rewrite IH by (apply elem_of_cons in E as [->|?]; [done|done]). by rewrite Permutation_middle.
    + rewrite decide_True by done. rewrite <- Permutation_middle. constructor. apply Permutation_app_tail. apply reflexive_eq. f_equal. apply list_fmap_ext. intros k id Hk. cbv beta. rewrite filter_cons, decide_False; [done|]. intros Es. rewrite Es in E.
      apply list_elem_of_lookup_2, mem_str_iff in Hk. congruence.
Qed.
(** A board that shows its ungrouped rows shows every row of its query once. *)
Theorem a_kanban_board_shows_every_row_once toLowerCase dateParse viewId projectId t t' groups view c rows : kanbanGroups toLowerCase dateParse viewId projectId t = inr (t', groups) → findView t viewId = Some view → cfg_showUngrouped (v_config view) = Some true →
  select_column t (v_storeId view) (cfg_groupBy (v_config view)) = Some c → NoDup (option_ids c) → runQuery toLowerCase dateParse t (v_storeId view) (default [] (cfg_where (v_config view))) (default [] (cfg_orderBy (v_config view))) None = inr rows →
  concat groups.*2 ≡ₚ rows.
Proof.
  unfold kanbanGroups, query. intros H Hv Hs Hc Hnd Hq. apply bind_inr in H as (t1&w&(->&Hw&_)%authorizeView_inr&H). rewrite Hv in Hw. injection Hw as <-. apply bind_inr in H as (t1&c'&[-> Hc']%check_inr&H). rewrite Hc in Hc'. injection Hc' as <-.
  apply bind_inr in H as (t1&rows'&[-> Hq']%check_inr&H). rewrite Hq in Hq'. injection Hq' as <-. rewrite bool_decide_eq_true_2 in H by done. cbn [negb] in H. cbv zeta in H.
  set (options := orderedKanbanOptions _ _) in *. assert (NoDup (opt_id <$> options)) as Hids by (subst options; by rewrite ordered_options_perm).
  pose proof (groups_partition (opt_id <$> options) (λ r, selected r (col_id c)) rows Hids) as Hp. rewrite <- list_fmap_compose in Hp. apply ret_inr in H as [_ ->].
  destruct (filter (λ row, match selected row (col_id c) with Some id => mem_str id (opt_id <$> options) | None => false end = false) rows) as [|x l] eqn:E.
  - rewrite app_nil_r in Hp. rewrite <- list_fmap_compose. exact Hp.
  - rewrite fmap_app, concat_app, <- list_fmap_compose. cbn. rewrite app_nil_r. exact Hp.
Qed.

(** ** A backlog from end to end *)
Section Play.
Variable normalizeNFC : str → str.
Variable toLowerCase : str → str.
Variable dateParse : str → option Z.
Definition play (s : list str * datastores) (e : StoreCall) : list str * datastores := ((new_rows e).2 ++ s.1, store_step normalizeNFC toLowerCase dateParse s.2 e).
Definition played (calls : list StoreCall) (s : list str * datastores) : list str * datastores := fold_left play calls s.
Fixpoint playable (used : list str) (calls : list StoreCall) : bool :=
  match calls with
  | [] => true
  | e :: rest => bool_decide (Forall (λ c : cells, NoDup c.*1) (objects_of e)) && bool_decide (Forall (λ id, id ∉ used) (new_rows e).2) && playable ((new_rows e).2 ++ used) rest
  end.
Lemma played_goes calls s : playable s.1 calls = true → rtc (goes normalizeNFC toLowerCase dateParse) s (played calls s).
Proof.
  revert s. induction calls as [|e calls IH]; intros s H; [done|]. cbn in H. apply andb_true_iff in H as [[H1%bool_decide_eq_true H2%bool_decide_eq_true]%andb_true_iff H3]. eapply rtc_l; [|by apply IH].
  destruct s as [used t]. apply goes_by; [done|]. intros id Hid. rewrite list.Forall_forall in H2. by apply H2.
Qed.
End Play.
(** The letters of ASCII stand for the Unicode of the platform. *)
Abbreviation play_calls := (played Datatypes.id nocase (λ _, Some 0%Z)).
Definition PROJECT : str := js "p".
Definition STORE : str := js "s".
Definition BOT : RowActor := mkActor Agent (js "bot").
Definition filed (id ticket : str) : RowInsert := mkInsert [(js "ticket", Some (JStr ticket)); (js "journal", Some (JStr (js "opened"))); (js "status", Some (JStr (js "todo")))] (js "2026-01-01") id.
Definition BACKLOG : list StoreCall :=
  [ProjectSet PROJECT (mkProject true false); StoreCreated STORE PROJECT (js "Backlog") (js "2026-01-01");
   ColumnAdded STORE PROJECT (js "ticket") (js "Ticket") TextColumn None None false (js "2026-01-01"); ColumnAdded STORE PROJECT (js "journal") (js "Journal") TextColumn None None false (js "2026-01-01");
   ColumnAdded STORE PROJECT (js "status") (js "Status") SelectColumn None (Some [mkOption (js "todo") (js "Todo") None; mkOption (js "ok") (js "Done") None]) false (js "2026-01-01");
   ColumnAdded STORE PROJECT (js "pr") (js "pr_url") TextColumn (Some UrlFormat) None false (js "2026-01-01"); NaturalKeySet STORE PROJECT (Some (js "ticket")) (js "2026-01-01");
   RowInserted STORE PROJECT BOT false (filed (js "r1") (js "T1")); RowInserted STORE PROJECT BOT false (filed (js "r2") (js "T2"))].
Abbreviation backlog := (play_calls BACKLOG ([], no_stores)).
Abbreviation patches l := ((λ e : string * json, (js e.1, Some e.2)) <$> l).
Definition patch_row (id : str) (l : list (string * json)) : StoreCall := RowUpdated_ STORE id PROJECT (patches l) BOT (js "2026-01-02").
Definition progress : StoreCall := patch_row (js "r1") [("journal"%string, JStr (js "opened, started"))].
Abbreviation answer e t := (run_call Datatypes.id nocase (λ _, Some 0%Z) e t).
(** What the calls refuse: a second row of a key, a journal that does not start as it did, a row done without a pull request, an option the column has not, a column that a row could not keep. *)
Example the_backlog_refuses :
  answer (RowInserted STORE PROJECT BOT false (filed (js "r3") (js "T1"))) backlog.2 = inl NaturalKeyConflict
  ∧ answer (patch_row (js "r1") [("ticket"%string, JStr (js "T2"))]) backlog.2 = inl NaturalKeyConflict
  ∧ answer (patch_row (js "r1") [("journal"%string, JStr (js "closed"))]) backlog.2 = inl JournalShortened
  ∧ answer (patch_row (js "r1") [("status"%string, JStr (js "ok"))]) backlog.2 = inl DoneWithoutPrUrl
  ∧ answer (patch_row (js "r1") [("status"%string, JStr (js "late"))]) backlog.2 = inl (InvalidCellValue (js "status"))
  ∧ answer (ColumnUpdated STORE PROJECT (js "status") (mkChanges None None (Some [mkReplacement None (js "Done") None (js "x")]) None None None None None None) (js "2026-01-02")) backlog.2 = inl OptionsHeldByRows
  ∧ answer (ColumnDeleted STORE PROJECT (js "ticket") BOT (js "2026-01-02")) backlog.2 = inl ColumnIsNaturalKey
  ∧ answer (RowsUpdated STORE PROJECT [mkUpdate (js "r2") (patches [("journal"%string, JStr (js "opened!"))]) None (js "2026-01-02"); mkUpdate (js "r1") (patches [("journal"%string, JStr (js "opened?"))]) (Some 7) (js "2026-01-02")] BOT) backlog.2 = inl (StaleRevision 1).
Proof. by vm_compute. Qed.
(** What they do: an upsert of a key that is held updates its row; the cells of a deleted column are recorded as cleared. *)
Example the_backlog_records :
  ((λ r, (row_id r, row_rev r, row_data r)) <$> ds_rows (play_calls [RowSaved STORE PROJECT BOT false UpsertMode (mkInsert (patches [("ticket"%string, JStr (js "T1")); ("status"%string, JStr (js "ok")); ("pr"%string, JStr (js "u"))]) (js "2026-01-02") (js "r3")); ColumnDeleted STORE PROJECT (js "journal") BOT (js "2026-01-03")] backlog).2)
    = [(js "r1", 3, [(js "ticket", JStr (js "T1")); (js "status", JStr (js "ok")); (js "pr", JStr (js "u"))]); (js "r2", 2, [(js "ticket", JStr (js "T2")); (js "status", JStr (js "todo"))])]
  ∧ ((λ h, (h_rowId h, h_change h)) <$> ds_history (play_calls [ColumnDeleted STORE PROJECT (js "journal") BOT (js "2026-01-03")] backlog).2)
    = [(js "r1", Creation); (js "r2", Creation); (js "r1", CellDiff [(js "journal", (JStr (js "opened"), JNull))]); (js "r2", CellDiff [(js "journal", (JStr (js "opened"), JNull))])].
Proof. by vm_compute. Qed.
Lemma backlog_reached : stores_reached Datatypes.id nocase (λ _, Some 0%Z) (backlog.1, backlog.2).
Proof. rewrite <- surjective_pairing. apply played_goes. by vm_compute. Qed.
Definition ROW1 : DsRow := mkRow (js "r1") STORE [(js "ticket", JStr (js "T1")); (js "journal", JStr (js "opened")); (js "status", JStr (js "todo"))] 1 (js "2026-01-01") (js "2026-01-01").
Lemma row1_there : ROW1 ∈ ds_rows backlog.2.
Proof. replace (ds_rows backlog.2) with [ROW1; mkRow (js "r2") STORE [(js "ticket", JStr (js "T2")); (js "journal", JStr (js "opened")); (js "status", JStr (js "todo"))] 1 (js "2026-01-01") (js "2026-01-01")] by (by vm_compute). apply list_elem_of_here. Qed.
Lemma a_natural_key_names_one_row_witness :
  (∃ c, c ∈ ds_columns backlog.2 ∧ col_storeId c = STORE ∧ col_id c = js "ticket" ∧ col_type c = TextColumn)
  ∧ ((∃ row, findRowByNaturalKey nocase (λ _, Some 0%Z) STORE PROJECT (js "T1") backlog.2 = inr (backlog.2, row) ∧ ∀ r, (r ∈ ds_rows backlog.2 ∧ row_storeId r = STORE ∧ selected r (js "ticket") = Some (js "T1")) ↔ r = row)
     ∨ (findRowByNaturalKey nocase (λ _, Some 0%Z) STORE PROJECT (js "T1") backlog.2 = inl RowNotFound ∧ ∀ r, r ∈ ds_rows backlog.2 → row_storeId r = STORE → selected r (js "ticket") ≠ Some (js "T1"))).
Proof. apply (a_natural_key_names_one_row Datatypes.id nocase (λ _, Some 0%Z) backlog.1 backlog.2 STORE PROJECT (js "ticket") (js "T1")); [apply backlog_reached|by vm_compute|by vm_compute]. Defined.
Lemma display_columns_never_loop_witness :
  ends (columns_of backlog.2 STORE) (js "pr") ∧ is_Some (loop (display_step (listColumns backlog.2 STORE) (js "ticket")) (S (S (length (listColumns backlog.2 STORE)))) (Some (js "pr"), []))
  ∧ (meets_cycle (listColumns backlog.2 STORE) (js "ticket") (js "pr") = false ↔ avoids (listColumns backlog.2 STORE) (js "ticket") (js "pr")).
Proof. apply (display_columns_never_loop Datatypes.id nocase (λ _, Some 0%Z) backlog.1 backlog.2), backlog_reached. Defined.
(** Another row changes between the reading and the write. *)
Abbreviation meanwhile := (play_calls [patch_row (js "r2") [("journal"%string, JStr (js "opened, read"))]] (backlog.1, backlog.2)).
Abbreviation started := [mkUpdate (js "r2") (patches [("journal"%string, JStr (js "opened, read, seen"))]) None (js "2026-01-03"); mkUpdate (js "r1") (patches [("journal"%string, JStr (js "opened, started"))]) (Some 1) (js "2026-01-03")].
Abbreviation write_back := (updateRows Datatypes.id nocase (λ _, Some 0%Z) STORE PROJECT started BOT).
Lemma a_write_with_a_revision_meets_what_was_read_witness :
  ds_rows (after write_back meanwhile.2) = write_rows STORE started (ds_rows meanwhile.2) ∧ ROW1 ∈ ds_rows meanwhile.2
    ∧ (row_rev <$> write_rows STORE started (ds_rows meanwhile.2)) = [2; 3].
Proof.
  destruct (a_write_with_a_revision_meets_what_was_read Datatypes.id nocase (λ _, Some 0%Z) (backlog.1, backlog.2) meanwhile STORE PROJECT started BOT (after write_back meanwhile.2)
    (from_option snd [] (match write_back meanwhile.2 with inr x => Some x | inl _ => None end)) backlog_reached) as (Hrows&_&Hrow); [apply played_goes; by vm_compute|by vm_compute|].
  split; [exact Hrows|]. split; [|by vm_compute]. apply (Hrow 1 (mkUpdate (js "r1") (patches [("journal"%string, JStr (js "opened, started"))]) (Some 1) (js "2026-01-03")) ROW1); [reflexivity|apply row1_there|reflexivity..].
Defined.
Lemma the_history_tells_every_row_witness :
  (∀ r, r ∈ ds_rows backlog.2 → row_rev r = S (length (diffs backlog.2 (row_storeId r) (row_id r))) ∧ ∀ k, tells (cell_story k (diffs backlog.2 (row_storeId r) (row_id r))) (cell_of (row_data r) k))
  ∧ ∀ s, foldr Z.add 0%Z (rowCountChangeOf ∘ h_change <$> history_of backlog.2 s) = Z.of_nat (countRows backlog.2 s).
Proof. apply (the_history_tells_every_row Datatypes.id nocase (λ _, Some 0%Z) backlog.1 backlog.2), backlog_reached. Defined.
Definition JOURNAL : DsColumn := mkColumn (js "journal") STORE (js "Journal") TextColumn None None 1 false false None None None None (js "2026-01-01").
Lemma a_guarded_journal_only_grows_witness :
  ∃ r', r' ∈ ds_rows (store_step Datatypes.id nocase (λ _, Some 0%Z) backlog.2 progress) ∧ row_id r' = row_id ROW1
    ∧ ∀ r'', r'' ∈ ds_rows (store_step Datatypes.id nocase (λ _, Some 0%Z) backlog.2 progress) → row_storeId r'' = STORE → row_id r'' = row_id ROW1 →
        startsWith (textOf Datatypes.id (get (row_data r'') (col_id JOURNAL))) (textOf Datatypes.id (get (row_data ROW1) (col_id JOURNAL))) = true.
Proof.
  apply (a_guarded_journal_only_grows Datatypes.id nocase (λ _, Some 0%Z) backlog.1 backlog.2 progress STORE PROJECT JOURNAL ROW1);
    [apply backlog_reached|apply (bool_decide_unpack _); vm_compute; exact I|done|by vm_compute|by vm_compute|apply row1_there|done].
Defined.
