(* ===== verification/HumanGates.v ===== *)
(** * Prompts that wait for a human

    Models of [packages/core/src/governance/approvalService.ts] (the permissions a hook waits for until a human answers, a timer fires or the session ends) and of
    [packages/core/src/governance/silentBlockDetector.ts] (the prompts nobody answers).  A promise is resolved by an entry of [answers]; a timer is in the list of the timers
    that may still fire.  What the bus delivers to the other subscribers is left out: none of them calls back. *)
From S2P Require Import Prelude JsText PolicyTypes Sorting Lineage EscalationFacts.

Module Approvals.
Inductive ApprovalStatus := Pending | Allowed | Denied | Expired.
#[export] Instance ApprovalStatus_eq_dec : EqDecision ApprovalStatus.
Proof. solve_decision. Defined.
Inductive ApprovalDecision := DecideAllow | DecideDeny | DecideAsk.
(** [toolInput] is stored as its JSON text. *)
Record Approval := mkApproval { id : str; sessionId : str; toolName : str; toolInput : str; status : ApprovalStatus; reason : option str; createdAt : Z; resolvedAt : option Z }.
(** The table, the sessions its rows may refer to, and what the process holds: the resolvers of the promises, the timers that may fire, the promises that were resolved. *)
Record service := mkService { approvals : list Approval; sessions : list str; waiters : list str; timers : list str; answers : list (str * ApprovalDecision) }.
Inductive ApprovalError := NotFound | AlreadyResolved | DatabaseError.

Definition get (s : service) (i : str) : option Approval := find (λ a, str_eqb (id a) i) (approvals s).
Definition is_pending (a : Approval) : bool := bool_decide (status a = Pending).
(** [ORDER BY created_at] *)
Definition listPending (s : service) : list Approval := sort_by createdAt (filter (λ a, is_pending a = true) (approvals s)).
Definition without (i : str) (l : list str) : list str := filter (λ x, x ≠ i) l.
(** [this.waiters.get(id)?.(decision); this.waiters.delete(id)]: the timer is cleared and the promise resolved, when there is one. *)
Definition answer (i : str) (d : ApprovalDecision) (s : service) : service :=
  if mem_str i (waiters s) then mkService (approvals s) (sessions s) (without i (waiters s)) (without i (timers s)) (answers s ++ [(i, d)]) else s.
Definition resolved (st : ApprovalStatus) (r : option str) (now : Z) (a : Approval) : Approval := mkApproval (id a) (sessionId a) (toolName a) (toolInput a) st r (createdAt a) (Some now).
Definition resolve (i : str) (st : ApprovalStatus) (r : option str) (now : Z) (s : service) : service :=
  mkService ((λ a, if str_eqb (id a) i then resolved st r now a else a) <$> approvals s) (sessions s) (waiters s) (timers s) (answers s).
Definition request (i session tool input : str) (now : Z) (s : service) : ApprovalError + service :=
  if bool_decide (is_Some (get s i)) || negb (mem_str session (sessions s)) then inl DatabaseError
  else inr (mkService (approvals s ++ [mkApproval i session tool input Pending None now None]) (sessions s) (waiters s ++ [i]) (timers s ++ [i]) (answers s)).
Definition expireWithReason (i : str) (r : str) (now : Z) (s : service) : service :=
  match get s i with Some a => if is_pending a then answer i DecideAsk (resolve i Expired (Some r) now s) else s | None => s end.
Definition expireAllPending (r : str) (now : Z) (s : service) : service := fold_left (λ s a, expireWithReason (id a) r now s) (listPending s) s.
Definition expirePendingForSession (session : str) (r : str) (now : Z) (s : service) : service :=
  fold_left (λ s a, expireWithReason (id a) r now s) (filter (λ a, sessionId a = session) (listPending s)) s.
Definition decide_approval (i : str) (isAllow : bool) (r : option str) (now : Z) (s : service) : ApprovalError + service :=
  match get s i with
  | None => inl NotFound
  | Some a => if is_pending a then inr (answer i (if isAllow then DecideAllow else DecideDeny) (resolve i (if isAllow then Allowed else Denied) r now s)) else inl AlreadyResolved
  end.
(** A restart loses what the process held; the daemon expires what is pending before any hook can reach it. *)
Definition restart (now : Z) (s : service) : service := expireAllPending (js "daemon restarted") now (mkService (approvals s) (sessions s) [] [] []).

Inductive event :=
  | SessionOpened (session : str) | Requested (i session tool input : str) (now : Z) | Decided (i : str) (isAllow : bool) (r : option str) (now : Z)
  | TimerFired (i : str) (now : Z) | SessionClosed (session : str) (now : Z) | SessionRelaunching (session : str) (now : Z) | Restarted (now : Z).
Definition kept (s : service) (r : ApprovalError + service) : service := match r with inr s' => s' | inl _ => s end.
(** A timer fires once, and only when it was not cleared. *)
Definition step (s : service) (e : event) : service :=
  match e with
  | SessionOpened session => mkService (approvals s) (sessions s ++ [session]) (waiters s) (timers s) (answers s)
  | Requested i session tool input now => kept s (request i session tool input now s)
  | Decided i isAllow r now => kept s (decide_approval i isAllow r now s)
  | TimerFired i now =>
      if mem_str i (timers s) then expireWithReason i (js "no decision before hook timeout") now (mkService (approvals s) (sessions s) (waiters s) (without i (timers s)) (answers s)) else s
  | SessionClosed session now => expirePendingForSession session (js "session closed") now s
  | SessionRelaunching session now => expirePendingForSession session (js "session relaunching") now s
  | Restarted now => restart now s
  end.
Definition no_approvals : service := mkService [] [] [] [] [].
Definition after_events (l : list event) : service := fold_left step l no_approvals.

(** ** Facts *)
Definition ids (s : service) : list str := id <$> approvals s.
Definition decision_of (st : ApprovalStatus) : option ApprovalDecision := match st with Pending => None | Allowed => Some DecideAllow | Denied => Some DecideDeny | Expired => Some DecideAsk end.
Definition status_of (s : service) (i : str) : option ApprovalStatus := status <$> get s i.
(** A promise is pending exactly when its row is, and then a timer may fire; a resolved one was resolved once, as its row says. *)
Record sound (s : service) : Prop := mkSound
  { so_ids : NoDup (ids s); so_waiters : ∀ i, i ∈ waiters s ↔ status_of s i = Some Pending; so_timers : ∀ i, i ∈ timers s ↔ i ∈ waiters s;
    so_once : NoDup (answers s).*1; so_answers : ∀ i d, (i, d) ∈ answers s → status_of s i ≫= decision_of = Some d }.
Lemma approval_elem s i a : NoDup (ids s) → get s i = Some a ↔ a ∈ approvals s ∧ id a = i.
Proof.
  intros Hnd. unfold get. split; [by intros [Ha E%str_eqb_eq]%find_elem|]. intros [Ha <-]. destruct (find _ _) as [b|] eqn:E.
  - apply find_elem in E as [Hb E%str_eqb_eq]. f_equal. apply list_elem_of_lookup in Ha as [j Hj], Hb as [k Hk]. assert (j = k) as ->; [|congruence].
    apply (NoDup_lookup (ids s) j k (id a)); [done|unfold ids; by rewrite list_lookup_fmap, Hj|unfold ids; by rewrite list_lookup_fmap, Hk, <- E].
  - rewrite find_is_None in E. specialize (E a Ha). by rewrite str_eqb_refl in E.
Qed.
Lemma resolve_ids i st r now s : ids (resolve i st r now s) = ids s.
Proof. unfold ids, resolve. cbn. rewrite <- list_fmap_compose. apply list_fmap_ext. intros k a _. cbn. by destruct (str_eqb (id a) i). Qed.
Lemma resolve_status i st r now s j : status_of (resolve i st r now s) j = if decide (j = i) then (λ _, st) <$> status_of s i else status_of s j.
Proof.
  unfold status_of, get, resolve. cbn [approvals]. induction (approvals s) as [|a l IH]; [by destruct (decide _)|]. cbn [fmap list_fmap find]. destruct (str_eqb (id a) i) eqn:Ei; cbn [id resolved].
  - apply str_eqb_eq in Ei as <-. destruct (str_eqb (id a) j) eqn:Ej; [apply str_eqb_eq in Ej as <-; by rewrite decide_True|]. apply str_eqb_neq in Ej. rewrite decide_False in IH |- * by done. exact IH.
  - apply str_eqb_neq in Ei. destruct (str_eqb (id a) j) eqn:Ej; [|exact IH]. apply str_eqb_eq in Ej as <-. by rewrite decide_False.
Qed.
Lemma elem_of_without i j l : j ∈ without i l ↔ j ≠ i ∧ j ∈ l.
Proof. unfold without. by rewrite list_elem_of_filter. Qed.
(** Resolving a row that is pending and answering its promise keeps everything right; the timer may have fired. *)
Lemma settled_sound i st d r now s : NoDup (ids s) → (∀ j, j ∈ waiters s ↔ status_of s j = Some Pending) → (∀ j, j ≠ i → j ∈ timers s ↔ j ∈ waiters s) → NoDup (answers s).*1 →
  (∀ j e, (j, e) ∈ answers s → status_of s j ≫= decision_of = Some e) → i ∈ waiters s → decision_of st = Some d → sound (answer i d (resolve i st r now s)).
Proof.
  intros H1 H2 H3 H4 H5 Hi Hst. unfold answer. cbn [waiters resolve]. rewrite (proj2 (mem_str_iff _ _) Hi). pose proof (proj1 (H2 i) Hi) as Hp.
  assert (∀ j, status_of (mkService (approvals (resolve i st r now s)) (sessions s) (without i (waiters s)) (without i (timers s)) (answers s ++ [(i, d)])) j = if decide (j = i) then Some st else status_of s j) as Hstat.
  { intros j. change (status_of (resolve i st r now s) j = if decide (j = i) then Some st else status_of s j). rewrite resolve_status, Hp. done. }
  split; cbn [waiters timers answers].
  - change (NoDup (ids (resolve i st r now s))). by rewrite resolve_ids.
  - intros j. rewrite elem_of_without, Hstat, H2. destruct (decide (j = i)) as [->|Hn]; [|tauto]. split; [by intros [? _]|]. intros [= ->]. done.
  - intros j. rewrite !elem_of_without. split; intros [? ?]; (split; [done|]); by apply H3.
  - rewrite fmap_app. apply list.NoDup_app. split; [done|]. split; [|apply list.NoDup_singleton]. intros x ([j e]&->&He)%list_elem_of_fmap Hx%list_elem_of_singleton. cbn in Hx. subst j. apply H5 in He. by rewrite Hp in He.
  - intros j e [He|[= -> ->]%list_elem_of_singleton]%elem_of_app; rewrite Hstat; [|by rewrite decide_True]. destruct (decide (j = i)) as [->|]; [apply H5 in He; by rewrite Hp in He|by apply H5].
Qed.
Lemma pending_get s i : status_of s i = Some Pending ↔ ∃ a, get s i = Some a ∧ is_pending a = true.
Proof.
  unfold status_of, is_pending. destruct (get s i) as [a|]; cbn; split; [intros [= E]; exists a; by rewrite bool_decide_eq_true_2|intros (b&[= <-]&E%bool_decide_eq_true); by f_equal|done|by intros (?&?&_)].
Qed.
Lemma expire_cases i r now s : (status_of s i = Some Pending ∧ expireWithReason i r now s = answer i DecideAsk (resolve i Expired (Some r) now s)) ∨ (status_of s i ≠ Some Pending ∧ expireWithReason i r now s = s).
Proof.
  unfold expireWithReason. pose proof (pending_get s i) as Hp. destruct (get s i) as [a|] eqn:E; [destruct (is_pending a) eqn:Ep|].
  - left. split; [apply Hp; eauto|done].
  - right. split; [|done]. intros (b&[= <-]&Eb)%Hp. congruence.
  - right. split; [|done]. by intros (b&?&_)%Hp.
Qed.
Lemma expire_sound i r now s : sound s → sound (expireWithReason i r now s).
Proof. intros S. destruct (expire_cases i r now s) as [[Hp ->]|[_ ->]]; [|done]. destruct S as [H1 H2 H3 H4 H5]. eapply settled_sound; try done. by apply H2. Qed.
Lemma decided_sound i b r now s s' : sound s → decide_approval i b r now s = inr s' → sound s' ∧ answers s' = answers s ++ [(i, if b then DecideAllow else DecideDeny)].
Proof.
  intros [H1 H2 H3 H4 H5]. unfold decide_approval. destruct (get s i) as [a|] eqn:E; [|done]. destruct (is_pending a) eqn:Ep; [|done]. intros [= <-]. assert (i ∈ waiters s) as Hi. { apply H2, pending_get. eauto. }
  split; [eapply settled_sound; try done; by destruct b|]. unfold answer. cbn [waiters resolve]. by rewrite (proj2 (mem_str_iff _ _) Hi).
Qed.
(** *** A restart *)
Lemma fold_expire_gone (l : list Approval) r now s : waiters s = [] → timers s = [] → answers s = [] → NoDup (ids s) → (∀ i, status_of s i = Some Pending → i ∈ id <$> l) →
  sound (fold_left (λ s a, expireWithReason (id a) r now s) l s).
Proof.
  revert s. induction l as [|a l IH]; intros s Hw Ht Ha Hn Hp; cbn [fold_left].
  - split; [done|..]; rewrite ?Hw, ?Ht, ?Ha; [|done|constructor|by intros ?? ?%elem_of_nil]. intros i. split; [by intros ?%elem_of_nil|]. by intros ?%Hp%elem_of_nil.
  - destruct (expire_cases (id a) r now s) as [[_ ->]|[Hne ->]].
    + unfold answer. cbn [waiters resolve]. rewrite Hw. cbn [mem_str existsb]. apply IH; try done; [by rewrite resolve_ids|]. intros i. rewrite resolve_status. destruct (decide (i = id a)) as [->|Hd].
      * by destruct (status_of s (id a)).
      * intros [->|?]%Hp%elem_of_cons; done.
    + apply IH; try done. intros i Hi. destruct (proj1 (elem_of_cons _ _ _) (Hp i Hi)) as [->|?]; done.
Qed.
Lemma restart_sound now s : NoDup (ids s) → sound (restart now s).
Proof.
  intros Hn. apply fold_expire_gone; try done. intros i (a&Hg&Hp)%pending_get. apply (approval_elem (mkService (approvals s) (sessions s) [] [] [])) in Hg as [Ha <-]; [|done].
  apply list_elem_of_fmap_2. unfold listPending. rewrite sort_by_perm. by apply list_elem_of_filter.
Qed.
(** *** Every event *)
Lemma fold_expire_sound (l : list Approval) r now s : sound s → sound (fold_left (λ s a, expireWithReason (id a) r now s) l s).
Proof. revert s. induction l as [|a l IH]; intros s S; [done|]. apply IH. by apply expire_sound. Qed.
Lemma get_snoc s a i : get (mkService (approvals s ++ [a]) (sessions s) (waiters s) (timers s) (answers s)) i = match get s i with Some b => Some b | None => if str_eqb (id a) i then Some a else None end.
Proof. unfold get. cbn [approvals]. induction (approvals s) as [|b l IH]; cbn; [done|]. by destruct (str_eqb (id b) i). Qed.
Lemma requested_sound i session tool input now s s' : sound s → request i session tool input now s = inr s' → sound s' ∧ i ∈ waiters s'.
Proof.
  intros [H1 H2 H3 H4 H5]. unfold request. destruct (bool_decide (is_Some (get s i))) eqn:E; [done|]. apply bool_decide_eq_false in E. destruct (mem_str session (sessions s)); [|done]. cbn [orb negb]. intros [= <-].
  assert (get s i = None) as Hnone by (destruct (get s i); [by destruct E|done]). set (a := mkApproval i session tool input Pending None now None).
  assert (∀ j, status_of (mkService (approvals s ++ [a]) (sessions s) (waiters s ++ [i]) (timers s ++ [i]) (answers s)) j = if decide (j = i) then Some Pending else status_of s j) as Hstat.
  { intros j. unfold status_of. change (get (mkService _ _ _ _ _) j) with (get (mkService (approvals s ++ [a]) (sessions s) (waiters s) (timers s) (answers s)) j). rewrite get_snoc. destruct (decide (j = i)) as [->|Hd].
    - rewrite Hnone. cbn [id a]. by rewrite str_eqb_refl.
    - destruct (get s j); [done|]. destruct (str_eqb (id a) j) eqn:Ej; [apply str_eqb_eq in Ej; done|done]. }
  split; [|apply elem_of_app; right; by left]. split; cbn [waiters timers answers].
  - unfold ids. cbn [approvals]. rewrite fmap_app. apply list.NoDup_app. split; [done|]. split; [|apply list.NoDup_singleton]. intros x (b&->&Hb)%list_elem_of_fmap Hx%list_elem_of_singleton. cbn in Hx.
    assert (get s i = Some b) by (by apply approval_elem). congruence.
  - intros j. rewrite elem_of_app, Hstat, H2, list_elem_of_singleton. destruct (decide (j = i)); tauto.
  - intros j. rewrite !elem_of_app, H3. done.
  - done.
  - intros j d Hin. rewrite Hstat. destruct (decide (j = i)) as [->|]; [apply H5 in Hin; unfold status_of in Hin; by rewrite Hnone in Hin|by apply H5].
Qed.
Lemma timer_sound i now s : sound s → sound (step s (TimerFired i now)) ∧ (i ∈ waiters s → answers (step s (TimerFired i now)) = answers s ++ [(i, DecideAsk)]).
Proof.
  intros S. cbn [step]. destruct (mem_str i (timers s)) eqn:Hm.
  2: { split; [done|]. intros Hi%(so_timers s S)%mem_str_iff. congruence. }
  apply mem_str_iff, (so_timers s S) in Hm. destruct S as [H1 H2 H3 H4 H5]. set (s1 := mkService _ _ _ (without i (timers s)) _). pose proof (proj1 (H2 i) Hm) as Hp.
  destruct (expire_cases i (js "no decision before hook timeout") now s1) as [[_ ->]|[Hne _]]; [|by destruct Hne]. split.
  - eapply settled_sound; try done. intros j Hj. cbn [timers waiters s1]. rewrite elem_of_without, H3. tauto.
  - intros _. unfold answer. cbn [waiters resolve s1]. by rewrite (proj2 (mem_str_iff _ _) Hm).
Qed.
Lemma approval_step_sound s e : sound s → sound (step s e).
Proof.
  intros S. destruct e; cbn [step].
  - destruct S. by split.
  - destruct (request _ _ _ _ _ s) eqn:E; [done|]. by eapply requested_sound.
  - destruct (decide_approval _ _ _ _ s) eqn:E; [done|]. by eapply decided_sound.
  - by apply timer_sound.
  - by apply fold_expire_sound.
  - by apply fold_expire_sound.
  - apply restart_sound, S.
Qed.
Lemma approvals_sound l : sound (after_events l).
Proof.
  unfold after_events. assert (sound no_approvals) as H. { split; cbn; [apply NoDup_nil_2|intros i; split; [by intros ?%elem_of_nil|done]|done|apply NoDup_nil_2|by intros ?? ?%elem_of_nil]. } revert H. generalize no_approvals. induction l as [|e l IH]; intros s S; [done|]. cbn. by apply IH, approval_step_sound.
Qed.
(** What waits still waits, or was answered. *)
Definition settles (s s' : service) : Prop := answers s `prefix_of` answers s' ∧ ∀ i, i ∈ waiters s → i ∈ waiters s' ∨ i ∈ (answers s').*1.
#[export] Instance settles_preorder : PreOrder settles.
Proof.
  split; [intros s; split; auto|]. intros s1 s2 s3 [P1 H1] [P2 H2]. split; [by etrans|]. intros i [?|(e&->&He)%list_elem_of_fmap]%H1; [by apply H2|right]. apply list_elem_of_fmap_2. destruct P2 as [k ->]. apply elem_of_app. by left.
Qed.
Lemma answer_settles i d s s' : waiters s' = waiters s → answers s' = answers s → settles s (answer i d s').
Proof.
  intros Hw Ha. unfold answer. destruct (mem_str i (waiters s')); [|split; rewrite ?Ha, ?Hw; auto]. split; cbn [answers waiters]; [rewrite Ha; by apply prefix_app_r|]. intros j Hj. rewrite elem_of_without, Hw, fmap_app, elem_of_app. destruct (decide (j = i)) as [->|]; [right; right; by left|by left].
Qed.
Lemma expire_settles i r now s : settles s (expireWithReason i r now s).
Proof. destruct (expire_cases i r now s) as [[_ ->]|[_ ->]]; [by apply answer_settles|reflexivity]. Qed.
Lemma fold_settles (l : list Approval) r now s : settles s (fold_left (λ s a, expireWithReason (id a) r now s) l s).
Proof. revert s. induction l as [|a l IH]; intros s; cbn; [reflexivity|]. etrans; [apply expire_settles|apply IH]. Qed.
Lemma step_settles s e : match e with Restarted _ => False | _ => True end → settles s (step s e).
Proof.
  destruct e; intros He; cbn [step]; try done; try apply fold_settles.
  - split; [done|auto].
  - unfold request. destruct (_ || _); cbn [kept]; [reflexivity|]. split; cbn; [done|]. intros j Hj. left. apply elem_of_app. by left.
  - unfold decide_approval. destruct (get s i) as [a|]; [|reflexivity]. destruct (is_pending a); cbn [kept]; [by apply answer_settles|reflexivity].
  - destruct (mem_str i (timers s)); [|reflexivity]. etrans; [|apply expire_settles]. split; [done|]. auto.
Qed.
(** C23. A hook that asks is answered once: after every history of requests, decisions, timers, closes, relaunches and restarts of the daemon, the requests still pending are those that wait, each with its timer; no request is answered twice, and its answer is the one its row records;
    no event but a restart, which ends the processes that wait, makes a request stop waiting without an answer, and both the timer and a decision answer it at once. *)
Theorem a_hook_is_answered_once l : let s := after_events l in
  (∀ i, i ∈ waiters s ↔ status_of s i = Some Pending) ∧ (∀ i, i ∈ timers s ↔ i ∈ waiters s) ∧ NoDup (answers s).*1 ∧ (∀ i d, (i, d) ∈ answers s → status_of s i ≫= decision_of = Some d)
  ∧ (∀ e i, match e with Restarted _ => False | _ => True end → i ∈ waiters s → i ∈ waiters (step s e) ∨ i ∈ (answers (step s e)).*1)
  ∧ (∀ i now, i ∈ waiters s → answers (step s (TimerFired i now)) = answers s ++ [(i, DecideAsk)])
  ∧ (∀ i isAllow r now, i ∈ waiters s → answers (step s (Decided i isAllow r now)) = answers s ++ [(i, if isAllow then DecideAllow else DecideDeny)]).
Proof.
  cbv zeta. pose proof (approvals_sound l) as S. split; [apply S|]. split; [apply S|]. split; [apply S|]. split; [apply S|]. split; [intros e i He; by apply step_settles|]. split; [intros i now; by apply timer_sound|].
  intros i b r now (a&Hg&Hp)%(so_waiters _ S)%pending_get. cbn [step]. destruct (decide_approval i b r now (after_events l)) as [|s'] eqn:E; [unfold decide_approval in E; rewrite Hg, Hp in E; done|]. by eapply decided_sound.
Qed.
End Approvals.

Module SilentBlocks.
Record WatchedPrompt := mkWatched { waitingSince : str; timer : nat; isRaised : bool; isUnwatched : bool }.
(** A timer that may fire: its number, the session it was set for and its delay. *)
Record Timer := mkTimer { timer_number : nat; timer_session : str; timer_delayMs : Z }.
(** [watched] is the map of the prompts; [announced] are the lists given to [onChange], [raised] what was given to [onRaised]. *)
Record detector := mkDetector { watched : rec WatchedPrompt; timers : list Timer; next_timer : nat; announced : list (list (str * str)); raised : list (str * bool) }.
Record settings := mkSettings { thresholdMinutes : Z; unattendedSeconds : option Z }.
Definition MINUTE_MS : Z := 60000.
Definition SECOND_MS : Z := 1000.
Definition block (e : str * WatchedPrompt) : str * str := (e.1, waitingSince e.2).
Definition list_blocks (d : detector) : list (str * str) := block <$> filter (λ e : str * WatchedPrompt, isRaised e.2 = true) (watched d).
Definition announce (d : detector) : detector := mkDetector (watched d) (timers d) (next_timer d) (announced d ++ [list_blocks d]) (raised d).
Definition stopWatching (session : str) (announces : bool) (d : detector) : detector :=
  match get (watched d) session with
  | None => d
  | Some w =>
      let d' := mkDetector (del (watched d) session) (filter (λ t, timer_number t ≠ timer w) (timers d)) (next_timer d) (announced d) (raised d) in
      if isRaised w && announces then announce d' else d'
  end.
(** [appliesTo]: what the question [unattended.appliesTo] answers when the prompt appears. *)
Definition watch (cfg : settings) (session since : str) (appliesTo : bool) (d : detector) : detector :=
  let unwatchedSeconds := if appliesTo then unattendedSeconds cfg else None in
  let thresholdMs := match unwatchedSeconds with Some seconds => seconds * SECOND_MS | None => thresholdMinutes cfg * MINUTE_MS end%Z in
  mkDetector (put (watched d) session (mkWatched since (next_timer d) false (bool_decide (is_Some unwatchedSeconds)))) (timers d ++ [mkTimer (next_timer d) session thresholdMs]) (S (next_timer d)) (announced d) (raised d).
Definition handleState (cfg : settings) (session since : str) (isWaitingOnPrompt appliesTo : bool) (d : detector) : detector :=
  if negb isWaitingOnPrompt then stopWatching session true d else if has_own (watched d) session then d else watch cfg session since appliesTo d.
Definition raise (session : str) (d : detector) : detector :=
  match get (watched d) session with
  | Some w =>
      if isRaised w then d
      else
        let d' := announce (mkDetector (put (watched d) session (mkWatched (waitingSince w) (timer w) true (isUnwatched w))) (timers d) (next_timer d) (announced d) (raised d)) in
        mkDetector (watched d') (timers d') (next_timer d') (announced d') (raised d' ++ [(session, isUnwatched w)])
  | None => d
  end.
Definition stop (d : detector) : detector := fold_left (λ d session, stopWatching session false d) (watched d).*1 d.
Inductive prompt_event := StateChanged (session since : str) (isWaitingOnPrompt appliesTo : bool) | PromptsEnded (session : str) | TimerFired (number : nat).
Definition detect (cfg : settings) (d : detector) (e : prompt_event) : detector :=
  match e with
  | StateChanged session since isWaitingOnPrompt appliesTo => handleState cfg session since isWaitingOnPrompt appliesTo d
  | PromptsEnded session => stopWatching session true d
  | TimerFired n =>
      match find (λ t, Nat.eqb (timer_number t) n) (timers d) with
      | Some t => raise (timer_session t) (mkDetector (watched d) (filter (λ t, timer_number t ≠ n) (timers d)) (next_timer d) (announced d) (raised d))
      | None => d
      end
  end.
Definition no_prompts : detector := mkDetector [] [] 0 [] [].
Definition after_prompts (cfg : settings) (l : list prompt_event) : detector := fold_left (detect cfg) l no_prompts.

(** ** Facts *)
Definition threshold (cfg : settings) (unwatched : bool) : Z := (if unwatched then default 0 (unattendedSeconds cfg) * SECOND_MS else thresholdMinutes cfg * MINUTE_MS)%Z.
(** Each prompt that was not raised has its timer, set for the delay its session calls for, and no other timer may fire. *)
Record ticking (cfg : settings) (d : detector) : Prop := mkTicking
  { ti_keys : NoDup (watched d).*1; ti_numbers : ∀ k w, get (watched d) k = Some w → timer w < next_timer d;
    ti_apart : ∀ k k' w w', get (watched d) k = Some w → get (watched d) k' = Some w' → timer w = timer w' → k = k';
    ti_timers : ∀ n k ms, mkTimer n k ms ∈ timers d ↔ ∃ w, get (watched d) k = Some w ∧ timer w = n ∧ isRaised w = false ∧ ms = threshold cfg (isUnwatched w) }.
(** The list last announced is the list. *)
Definition up_to_date (d : detector) : Prop := default [] (list.last (announced d)) = list_blocks d.
(** A prompt that is not raised is in no list. *)
Lemma blocks_put_quiet (r : rec WatchedPrompt) k w : get r k = None → isRaised w = false → filter (λ e : str * WatchedPrompt, isRaised e.2 = true) (put r k w) = filter (λ e : str * WatchedPrompt, isRaised e.2 = true) r.
Proof.
  intros Hg Hw. induction r as [|[k0 w0] r IH]; cbn [put]; [rewrite filter_cons, decide_False; [done|by cbn; rewrite Hw]|]. cbn [get] in Hg. destruct (str_eqb k0 k); [done|]. rewrite !filter_cons. destruct (decide _); [f_equal|]; by apply IH.
Qed.
Lemma blocks_del_quiet (r : rec WatchedPrompt) k w : NoDup r.*1 → get r k = Some w → isRaised w = false → filter (λ e : str * WatchedPrompt, isRaised e.2 = true) (del r k) = filter (λ e : str * WatchedPrompt, isRaised e.2 = true) r.
Proof.
  intros Hnd Hg Hw. unfold del. trans (filter (λ e : str * WatchedPrompt, e.1 ≠ k) (filter (λ e : str * WatchedPrompt, isRaised e.2 = true) r)); [rewrite !list_filter_filter; apply list_filter_iff; tauto|].
  apply filter_true. intros [k0 w0] [Hr Hin]%list_elem_of_filter. cbn in Hr |- *. intros ->. rewrite (get_elem r k w0 Hnd Hin) in Hg. congruence.
Qed.
(** The prompt of one session is watched anew, or no longer. *)
Lemma get_watched_put (r : rec WatchedPrompt) k w k' w' : get (put r k w) k' = Some w' ↔ (k' = k ∧ w' = w) ∨ (k' ≠ k ∧ get r k' = Some w').
Proof. rewrite get_put. destruct (str_eqb k k') eqn:E; [apply str_eqb_eq in E as ->|apply str_eqb_neq in E]; naive_solver. Qed.
Lemma get_watched_del (r : rec WatchedPrompt) k k' w' : get (del r k) k' = Some w' ↔ k' ≠ k ∧ get r k' = Some w'.
Proof. rewrite get_del. destruct (str_eqb k k') eqn:E; [apply str_eqb_eq in E as ->|apply str_eqb_neq in E]; naive_solver. Qed.
Lemma announce_last d : up_to_date (announce d).
Proof. unfold up_to_date, announce. cbn [announced]. by rewrite last_snoc. Qed.
Lemma stopWatching_get session b d k : get (watched (stopWatching session b d)) k = if str_eqb session k then None else get (watched d) k.
Proof.
  unfold stopWatching. destruct (get (watched d) session) as [w|] eqn:Hg; [destruct (isRaised w && b); cbn; apply get_del|]. destruct (str_eqb session k) eqn:E; [|done]. apply str_eqb_eq in E as <-. done.
Qed.
Lemma stopWatching_ticking cfg session b d : ticking cfg d → ticking cfg (stopWatching session b d).
Proof.
  intros [H1 H2 H3 H4]. unfold stopWatching. destruct (get (watched d) session) as [w|] eqn:Hg; [|by split]. set (d' := mkDetector _ _ _ _ _). assert (ticking cfg d') as [K1 K2 K3 K4]; [|by destruct (isRaised w && b)].
  split; cbn [watched timers next_timer d']; [by apply del_keys_NoDup|intros k v; rewrite get_watched_del; naive_solver|intros k k' v v'; rewrite !get_watched_del; naive_solver|].
  intros n k ms. rewrite list_elem_of_filter, H4. setoid_rewrite get_watched_del. cbn [timer_number]. split.
  - intros (Hn&v&Hv&<-&Hr). exists v. split_and!; try done; [|by apply Hr|by apply Hr]. intros ->. congruence.
  - intros (v&[Hk Hv]&<-&Hr). split; [|eauto]. intros E. by apply Hk, (H3 k session v w).
Qed.
Lemma stopWatching_up_to_date cfg session d : ticking cfg d → up_to_date d → up_to_date (stopWatching session true d).
Proof.
  intros T H. unfold stopWatching. destruct (get (watched d) session) as [w|] eqn:Hg; [|done]. destruct (isRaised w) eqn:Er; [apply announce_last|]. unfold up_to_date in *. cbn [andb announced]. rewrite H. unfold list_blocks. cbn [watched].
  by rewrite (blocks_del_quiet _ _ w) by (done || apply T).
Qed.
Lemma watch_ticking cfg session since applies d : ticking cfg d → get (watched d) session = None → ticking cfg (watch cfg session since applies d).
Proof.
  intros [H1 H2 H3 H4] Hg. unfold watch. cbv zeta. set (w := mkWatched _ _ _ _). split; cbn [watched timers next_timer].
  - by apply put_keys_NoDup.
  - intros k v [[-> ->]|[_ Hv%H2]]%get_watched_put; cbn; lia.
  - intros k k' v v' [[-> ->]|[_ Hv]]%get_watched_put [[-> ->]|[_ Hv']]%get_watched_put; cbn [timer w]; intros E; try done; [apply H2 in Hv'; lia|apply H2 in Hv; lia|by eapply H3].
  - intros n k ms. rewrite elem_of_app, list_elem_of_singleton, H4. setoid_rewrite get_watched_put. split.
    + intros [(v&Hv&Hr)|[= -> -> ->]]; [exists v; split; [right; split; [intros ->; congruence|done]|done]|]. exists w. split; [by left|]. split_and!; try done. cbn [isUnwatched w]. unfold threshold. by destruct applies, (unattendedSeconds cfg).
    + intros (v&[[-> ->]|[_ Hv]]&<-&Hr&->); [right|left; eauto]. f_equal. cbn [isUnwatched w]. unfold threshold. by destruct applies, (unattendedSeconds cfg).
Qed.
Lemma watch_up_to_date cfg session since applies d : get (watched d) session = None → up_to_date d → up_to_date (watch cfg session since applies d).
Proof. intros Hg H. unfold up_to_date in *. unfold watch. cbv zeta. cbn [announced]. rewrite H. unfold list_blocks. cbn [watched]. by rewrite blocks_put_quiet. Qed.
(** A prompt that is raised joins the list. *)
Lemma blocks_put_raised (r : rec WatchedPrompt) k w w' : get r k = Some w → isRaised w = false → isRaised w' = true →
  filter (λ e : str * WatchedPrompt, isRaised e.2 = true) (put r k w') ≡ₚ (k, w') :: filter (λ e : str * WatchedPrompt, isRaised e.2 = true) r.
Proof.
  intros Hg Hw Hw'. induction r as [|[k0 w0] r IH]; [done|]. cbn [get put] in *. destruct (str_eqb k0 k) eqn:E.
  - apply str_eqb_eq in E as ->. injection Hg as ->. rewrite !filter_cons, decide_True, decide_False by (cbn; congruence). done.
  - rewrite !filter_cons. destruct (decide _); [|by apply IH]. rewrite IH by done. apply Permutation_swap.
Qed.
(** What a timer does when it fires. *)
Lemma fired_find cfg d n k ms : ticking cfg d → mkTimer n k ms ∈ timers d → ∃ ms', find (λ t, Nat.eqb (timer_number t) n) (timers d) = Some (mkTimer n k ms').
Proof.
  intros [_ _ H3 H4] Hin. destruct (find _ _) as [[n' k' ms']|] eqn:Ef.
  - apply find_elem in Ef as [Hf En%Nat.eqb_eq]. cbn [timer_number] in *. subst n'. apply H4 in Hin as (w&Hw&<-&_), Hf as (w'&Hw'&Ht&_). assert (k = k') as -> by (by eapply H3). by exists ms'.
  - rewrite find_is_None in Ef. specialize (Ef _ Hin). cbn in Ef. by rewrite Nat.eqb_refl in Ef.
Qed.
Lemma fired_is cfg d n k ms : ticking cfg d → mkTimer n k ms ∈ timers d → let d' := detect cfg d (TimerFired n) in
  ∃ w, get (watched d) k = Some w ∧ isRaised w = false ∧ timer w = n ∧ watched d' = put (watched d) k (mkWatched (waitingSince w) n true (isUnwatched w)) ∧ timers d' = filter (λ t, timer_number t ≠ n) (timers d)
    ∧ next_timer d' = next_timer d ∧ up_to_date d' ∧ raised d' = raised d ++ [(k, isUnwatched w)].
Proof.
  intros T Hin. destruct (proj1 (ti_timers _ _ T n k ms) Hin) as (w&Hw&<-&Hr&_). cbv zeta. cbn [detect]. destruct (fired_find _ _ _ _ _ T Hin) as [ms' ->]. cbn [timer_session]. unfold raise. cbn [watched]. rewrite Hw, Hr. exists w. split_and!; try done. apply announce_last.
Qed.
Lemma unknown_timer cfg d n : (∀ k ms, mkTimer n k ms ∉ timers d) → detect cfg d (TimerFired n) = d.
Proof. intros Hn. cbn [detect]. destruct (find _ _) as [[n' k ms]|] eqn:Ef; [|done]. apply find_elem in Ef as [Hf En%Nat.eqb_eq]. cbn [timer_number] in En. subst n'. by destruct (Hn k ms). Qed.
Lemma fired_ticking cfg d n k ms : ticking cfg d → mkTimer n k ms ∈ timers d → ticking cfg (detect cfg d (TimerFired n)).
Proof.
  intros T Hin. destruct (fired_is _ _ _ _ _ T Hin) as (w&Hw&Hr&<-&E1&E2&E3&_). destruct T as [H1 H2 H3 H4]. split; rewrite ?E1, ?E2, ?E3.
  - by apply put_keys_NoDup.
  - intros k' v [[-> ->]|[_ Hv]]%get_watched_put; [cbn|]; by eapply H2.
  - intros k1 k2 v v' [[-> ->]|[_ Hv]]%get_watched_put [[-> ->]|[_ Hv']]%get_watched_put; cbn [timer]; intros E; by eapply H3.
  - intros n' k' ms'. rewrite list_elem_of_filter, H4. setoid_rewrite get_watched_put. cbn [timer_number]. split.
    + intros (Hn&v&Hv&<-&Hq). exists v. split; [right; split; [|done]|done]. intros ->. congruence.
    + intros (v&[[-> ->]|[Hk Hv]]&<-&Hq&->); [done|]. split; [|eauto]. intros E. by apply Hk, (H3 k' k v w).
Qed.
Lemma timer_known (d : detector) n : (∃ k ms, mkTimer n k ms ∈ timers d) ∨ (∀ k ms, mkTimer n k ms ∉ timers d).
Proof.
  destruct (find (λ t, Nat.eqb (timer_number t) n) (timers d)) as [[n' k ms]|] eqn:E; [apply find_elem in E as [Hf En%Nat.eqb_eq]; cbn [timer_number] in En; subst n'; left; eauto|]. right. intros k ms Hin. rewrite find_is_None in E. specialize (E _ Hin). cbn in E. by rewrite Nat.eqb_refl in E.
Qed.
Lemma get_has_own {A} (r : rec A) k : has_own r k = false → get r k = None.
Proof. unfold has_own. induction r as [|[k0 v] r IH]; [done|]. cbn. destruct (str_eqb k0 k); [done|]. exact IH. Qed.
Lemma detect_ticking cfg d e : ticking cfg d ∧ up_to_date d → ticking cfg (detect cfg d e) ∧ up_to_date (detect cfg d e).
Proof.
  intros [T U]. destruct e as [session since [] applies|session|n]; cbn [detect handleState negb].
  - destruct (has_own _ _) eqn:E; [done|]. apply get_has_own in E. split; [by apply watch_ticking|by apply watch_up_to_date].
  - split; [by apply stopWatching_ticking|by eapply stopWatching_up_to_date].
  - split; [by apply stopWatching_ticking|by eapply stopWatching_up_to_date].
  - destruct (timer_known d n) as [(k&ms&Hin)|Hno]; [|change (ticking cfg (detect cfg d (TimerFired n)) ∧ up_to_date (detect cfg d (TimerFired n))); by rewrite unknown_timer].
    split; [by eapply fired_ticking|]. by destruct (fired_is _ _ _ _ _ T Hin) as (w&?&?&?&?&?&?&?&?).
Qed.
Lemma after_prompts_ticking cfg l : ticking cfg (after_prompts cfg l) ∧ up_to_date (after_prompts cfg l).
Proof.
  unfold after_prompts. assert (ticking cfg no_prompts ∧ up_to_date no_prompts) as H. { split; [split|done]; cbn; [apply NoDup_nil_2|done|done|]. intros n k ms. split; [by intros ?%elem_of_nil|by intros (?&?&_)]. }
  revert H. generalize no_prompts. induction l as [|e l IH]; intros d H; [done|]. cbn [fold_left]. by apply IH, detect_ticking.
Qed.
Lemma stop_each cfg (keys : list str) d : ticking cfg d → (∀ k, is_Some (get (watched d) k) → k ∈ keys) →
  let d' := fold_left (λ d session, stopWatching session false d) keys d in ticking cfg d' ∧ (∀ k, get (watched d') k = None) ∧ announced d' = announced d ∧ raised d' = raised d.
Proof.
  cbv zeta. revert d. induction keys as [|k keys IH]; intros d T Hk; cbn [fold_left].
  - split_and!; try done. intros k. destruct (get (watched d) k) eqn:E; [|done]. exfalso. apply (not_elem_of_nil k), Hk. by rewrite E.
  - destruct (IH (stopWatching k false d)) as (T'&Hg&Ea&Er); [by apply stopWatching_ticking| |].
    + intros k'. rewrite stopWatching_get. destruct (str_eqb k k') eqn:E; [by intros [? ?]|]. intros Hs. apply str_eqb_neq in E. by destruct (proj1 (elem_of_cons _ _ _) (Hk k' Hs)) as [->|?].
    + split_and!; [done|done|..]; [rewrite Ea|rewrite Er]; unfold stopWatching; destruct (get (watched d) k); try done; by rewrite andb_false_r.
Qed.
Lemma stop_empties cfg d : ticking cfg d → watched (stop d) = [] ∧ timers (stop d) = [] ∧ announced (stop d) = announced d ∧ raised (stop d) = raised d.
Proof.
  intros T. destruct (stop_each cfg (watched d).*1 d T) as (T'&Hg&Ea&Er); [by intros k [w Hw%get_key]|]. fold (stop d) in *. split_and!; try done.
  - destruct (watched (stop d)) as [|[k w] r] eqn:E; [done|]. specialize (Hg k). cbn in Hg. by rewrite str_eqb_refl in Hg.
  - destruct (timers (stop d)) as [|[n k ms] r] eqn:E; [done|]. destruct (proj1 (ti_timers _ _ T' n k ms)) as (w&Hw&_); [rewrite E; by left|]. by rewrite Hg in Hw.
Qed.
(** C24. A prompt nobody answers is raised, and lowered when it ends: after every history of states, ends of prompts and timers, the list last announced is the list of the prompts raised, and the timers that may fire are those of the prompts not raised yet, each with the delay its
    session calls for; a timer that fires puts its prompt on the list, announces the list and tells of the prompt once, and a timer that was cancelled or already fired changes nothing; a session that leaves its prompt, closes, reopens or relaunches is off the list with no timer left;
    and stopping the detector leaves no prompt and no timer, and announces nothing. *)
Theorem a_silent_prompt_is_raised_once cfg l : let d := after_prompts cfg l in
  default [] (list.last (announced d)) = list_blocks d
  ∧ (∀ n k ms, mkTimer n k ms ∈ timers d ↔ ∃ w, get (watched d) k = Some w ∧ timer w = n ∧ isRaised w = false ∧ ms = threshold cfg (isUnwatched w))
  ∧ (∀ n k ms, mkTimer n k ms ∈ timers d → ∃ w, get (watched d) k = Some w ∧ let d' := detect cfg d (TimerFired n) in
       list_blocks d' ≡ₚ (k, waitingSince w) :: list_blocks d ∧ list.last (announced d') = Some (list_blocks d') ∧ raised d' = raised d ++ [(k, isUnwatched w)] ∧ detect cfg d' (TimerFired n) = d')
  ∧ (∀ n, (∀ k ms, mkTimer n k ms ∉ timers d) → detect cfg d (TimerFired n) = d)
  ∧ (∀ k since applies e, e = PromptsEnded k ∨ e = StateChanged k since false applies → k ∉ (list_blocks (detect cfg d e)).*1 ∧ ∀ n ms, mkTimer n k ms ∉ timers (detect cfg d e))
  ∧ watched (stop d) = [] ∧ timers (stop d) = [] ∧ announced (stop d) = announced d.
Proof.
  cbv zeta. destruct (after_prompts_ticking cfg l) as [T U]. split; [exact U|]. split; [apply T|]. split; [|split; [apply unknown_timer|split]].
  - intros n k ms Hin. pose proof (fired_ticking _ _ _ _ _ T Hin) as T'. destruct (fired_is _ _ _ _ _ T Hin) as (w&Hw&Hr&<-&E1&E2&_&U'&Er). exists w. split; [done|].
    assert (list_blocks (detect cfg (after_prompts cfg l) (TimerFired (timer w))) ≡ₚ (k, waitingSince w) :: list_blocks (after_prompts cfg l)) as Hp. { unfold list_blocks. rewrite E1, blocks_put_raised by done. done. }
    split; [exact Hp|]. split; [|split; [done|]].
    + unfold up_to_date in U'. destruct (list.last _) as [x|]; cbn [default from_option Datatypes.id] in U'; [by rewrite U'|]. rewrite <- U' in Hp. by apply Permutation_nil_cons in Hp.
    + apply unknown_timer. intros k' ms'. rewrite E2, list_elem_of_filter. by intros [? _].
  - intros k since applies e He. assert (detect cfg (after_prompts cfg l) e = stopWatching k true (after_prompts cfg l)) as -> by (by destruct He as [->| ->]).
    assert (get (watched (stopWatching k true (after_prompts cfg l))) k = None) as Hg by (by rewrite stopWatching_get, str_eqb_refl). split.
    + intros ([k' s]&->&([k0 w]&[= -> ->]&[_ Hin]%list_elem_of_filter)%list_elem_of_fmap)%list_elem_of_fmap. cbn in Hg. apply (get_elem _ _ _ (ti_keys _ _ (stopWatching_ticking cfg k0 true _ T))) in Hin. congruence.
    + intros n ms (w&Hw&_)%(ti_timers _ _ (stopWatching_ticking cfg k true _ T)). congruence.
  - by destruct (stop_empties cfg _ T) as (?&?&?&_).
Qed.
End SilentBlocks.
