(* ===== verification/SessionStateOffers.v ===== *)
(** * The session state source

    Model of [packages/core/src/triggers/sessionStateSource.ts]: the children of managers that closed on a failure, or stayed idle or on a permission prompt for the
    minutes of a trigger, are offered to the engine.  What the source reads and calls is the class [StateWorld]; each call of the engine may throw, and the world may change in
    any way between two events.  Pending waits and the timers that may still fire are the state; the cursors are the table of [TriggerActions]. *)
From S2P Require Import Prelude JsText Regex PolicyTypes PolicyDocument Sorting SessionState Tickets TriggerLedger TriggerEngine PlaybookKernel Conditions TriggerService Lineage TriggerActions SilentRun EscalationFacts.
Local Open Scope Z_scope.

Definition MAX_NAME_CHARS : nat := 200.
(** [sessionId], [state] and the text of [stateSince]. *)
Record Episode := mkEpisode { ep_sessionId : str; ep_state : SessionState; ep_stateSince : str }.
#[export] Instance Episode_eq_dec : EqDecision Episode.
Proof. solve_decision. Defined.
Definition isWaitableState (s : SessionState) : bool := match s with Idle | WaitingPermission => true | _ => false end.
Definition waitable_of_text (s : str) : option SessionState := if str_eqb s (js "idle") then Some Idle else if str_eqb s (js "waiting_permission") then Some WaitingPermission else None.
Definition two_digits : re := r_seq [RChr is_digit; RChr is_digit].
Definition ISO_DATE : re :=
  r_seq [r_start; two_digits; two_digits; r_lit (js "-"); two_digits; r_lit (js "-"); two_digits; r_lit (js "T"); two_digits; r_lit (js ":"); two_digits; r_lit (js ":"); two_digits;
         r_opt (r_seq [r_lit (js "."); r_plus (RChr is_digit)]); RAlt (r_lit (js "Z")) (r_seq [RChr (one_of (js "+-")); two_digits; r_lit (js ":"); two_digits]); r_end].
Definition episodeKeyOf (e : Episode) : str := state_text (ep_state e) ++ js ":" ++ ep_sessionId e ++ js ":" ++ ep_stateSince e.
Record LateOffer := mkLate { late_dedupKey : str; late_event : json; late_dueAtMs : Z }.

(** What the source is given; [false] tells that the call of the engine threw. *)
Class StateWorld (E : Type) := mkStateWorld
  { world_sessions : E → list Session; world_managers : E → list str; world_armed : E → list TriggerRecord;
    world_submit : E → str → str → json → E * bool; world_submitBacklog : E → str → list LateOffer → E * bool }.
Record PendingWait := mkWait { wait_triggerId : str; wait_episode : Episode; wait_timer : nat }.
(** A timer that may fire: its number, the trigger and the session of its callback, and when it is due. *)
Record WaitTimer := mkTimer { timer_number : nat; timer_trigger : TriggerRecord; timer_session : Session; timer_dueAt : Z }.
Record waits := mkWaits { pendingWaits : rec PendingWait; timers : list WaitTimer; next_timer : nat }.
(** An episode of the last run, with the trigger a cursor remembered it for. *)
Abbreviation RememberedEpisode := (option str * Episode)%type.

Section Source.
Context {E : Type} `{StateWorld E}.
(** [toISOString] and [Date.parse]; [None] is [NaN]. *)
Variable isoOf : Z → str.
Variable dateParse : str → option Z.

Definition isIsoDate (s : str) : bool := re_test ISO_DATE s && bool_decide (is_Some (dateParse s)).
Definition isEpisode (v : json) : option Episode :=
  match when_text v (js "sessionId"), when_text v (js "state") ≫= waitable_of_text, when_text v (js "stateSince") with
  | Some id, Some st, Some since => if isIsoDate since then Some (mkEpisode id st since) else None
  | _, _, _ => None
  end.
Definition json_of_episode (e : Episode) : json :=
  JObj [(js "sessionId", JStr (ep_sessionId e)); (js "state", JStr (state_text (ep_state e))); (js "stateSince", JStr (ep_stateSince e))].
Definition episodeOf (s : Session) : Episode := mkEpisode (session_id s) (state s) (isoOf (stateSince s)).
Definition isSessionStateTrigger (t : TriggerRecord) : bool := match sourceOf (when_ (trigger_graph t)) with Some SessionStateSource => true | _ => false end.
Definition minutesOf (t : TriggerRecord) : option Z := when_minutes (when_ (trigger_graph t)).
Definition triggersWatching (e : E) (session : Session) (st : str) : list TriggerRecord :=
  filter (λ t, isSessionStateTrigger t = true ∧ when_text (when_ (trigger_graph t)) (js "state") = Some st ∧ isChildInScopeOfTrigger (world_sessions e) (world_managers e) t session = true) (world_armed e).
Definition eventOf (session : Session) (st : str) (minutes : option Z) : json :=
  JObj [(js "session", JObj ([(js "id", JStr (session_id session)); (js "name", JStr (take MAX_NAME_CHARS (session_name session)))]
    ++ match parentId session with Some p => [(js "parentId", JStr p)] | None => [] end
    ++ [(js "state", JStr st)] ++ match minutes with Some m => [(js "minutes", JNum m)] | None => [] end))].
Definition dueAtOf (t : TriggerRecord) (since : Z) : Z := since + default 0 (minutesOf t) * MINUTE_MS.

(** ** Waits *)
Definition wait_key (triggerId sessionId : str) : str := triggerId ++ js "|" ++ sessionId.
Definition forgetWaitsOf (sessionId : str) (w : waits) : waits :=
  let gone := filter (λ e : str * PendingWait, endsWith e.1 (js "|" ++ sessionId) = true) (pendingWaits w) in
  mkWaits (filter (λ e : str * PendingWait, endsWith e.1 (js "|" ++ sessionId) = false) (pendingWaits w)) (filter (λ t, timer_number t ∉ (λ e, wait_timer e.2) <$> gone) (timers w)) (next_timer w).
Definition offerEpisode (e : E) (t : TriggerRecord) (session : Session) : E * bool :=
  world_submit e (trigger_id t) (episodeKeyOf (episodeOf session)) (eventOf session (state_text (state session)) (minutesOf t)).
(** [now]: what the clock reads. *)
Definition waitFor (now : Z) (t : TriggerRecord) (session : Session) (e : E) (w : waits) : E * waits * bool :=
  let dueAt := dueAtOf t (stateSince session) in
  if Z.leb (dueAt - now) 0 then let '(e', ok) := offerEpisode e t session in (e', w, ok)
  else
    (e, mkWaits (put (pendingWaits w) (wait_key (trigger_id t) (session_id session)) (mkWait (trigger_id t) (episodeOf session) (next_timer w)))
          (timers w ++ [mkTimer (next_timer w) t session dueAt]) (S (next_timer w)), true).
(** The clock is read for each trigger; a call that throws ends the loop. *)
Fixpoint wait_all (clock : str → Z) (session : Session) (l : list TriggerRecord) (e : E) (w : waits) : E * waits :=
  match l with
  | [] => (e, w)
  | t :: rest => let '(e', w', ok) := waitFor (clock (trigger_id t)) t session e w in if ok then wait_all clock session rest e' w' else (e', w')
  end.
Definition watch (clock : str → Z) (session : Session) (e : E) (w : waits) : E * waits :=
  let w := forgetWaitsOf (session_id session) w in
  if isWaitableState (state session) then wait_all clock session (triggersWatching e session (state_text (state session))) e w else (e, w).
Definition onStateChanged (clock : str → Z) (sessionId : str) (e : E) (w : waits) : E * waits :=
  match getSession (world_sessions e) sessionId with Some session => watch clock session e w | None => (e, w) end.
Definition closed_key (session : Session) : str := js "closed_with_error:" ++ session_id session ++ js ":" ++ from_option isoOf [] (closedAt session).
Fixpoint offer_closed (session : Session) (l : list TriggerRecord) (e : E) : E :=
  match l with
  | [] => e
  | t :: rest => let '(e', ok) := world_submit e (trigger_id t) (closed_key session) (eventOf session (js "closed_with_error") None) in if ok then offer_closed session rest e' else e'
  end.
Definition hasFailed (reason : option SessionCloseReason) : bool := match reason with Some r => bool_decide (r ∈ ERROR_CLOSE_REASONS) | None => false end.
Definition onClosed (sessionId : str) (reason : option SessionCloseReason) (e : E) (w : waits) : E * waits :=
  let w := forgetWaitsOf sessionId w in
  match getSession (world_sessions e) sessionId with
  | Some session => if hasFailed reason then (offer_closed session (triggersWatching e session (js "closed_with_error")) e, w) else (e, w)
  | None => (e, w)
  end.
Definition rescan (clock : str → str → Z) (e : E) (w : waits) : E * waits := fold_left (λ ew session, watch (clock (session_id session)) session ew.1 ew.2) (world_sessions e) (e, w).
Definition offerEpisodeIfUnchanged (t : TriggerRecord) (waiting : Session) (e : E) (w : waits) : E * waits :=
  let w := mkWaits (del (pendingWaits w) (wait_key (trigger_id t) (session_id waiting))) (timers w) (next_timer w) in
  match getSession (world_sessions e) (session_id waiting) with
  | Some current => if bool_decide (state current = state waiting) && Z.eqb (stateSince current) (stateSince waiting) then ((offerEpisode e t current).1, w) else (e, w)
  | None => (e, w)
  end.
(** A timer fires once, and only when it was not cancelled. *)
Definition timer_fires (n : nat) (e : E) (w : waits) : E * waits :=
  match find (λ t, Nat.eqb (timer_number t) n) (timers w) with
  | Some tm => offerEpisodeIfUnchanged (timer_trigger tm) (timer_session tm) e (mkWaits (pendingWaits w) (filter (λ t, timer_number t ≠ n) (timers w)) (next_timer w))
  | None => (e, w)
  end.

(** ** Restarts *)
Definition episodesByTrigger (armedIds : list str) (pending : list PendingWait) : rec (list Episode) :=
  fold_left (λ m p, if mem_str (wait_triggerId p) armedIds then put m (wait_triggerId p) (default [] (get m (wait_triggerId p)) ++ [wait_episode p]) else m) pending [].
(** [throws] are the triggers whose row could not be written. *)
Definition rememberPendingWaits (throws : str → bool) (e : E) (w : waits) (rows : cursor_rows) : cursor_rows :=
  fold_left (λ rows m, if throws m.1 then rows else save_cursor rows m.1 (JObj [(js "episodes", JArr (json_of_episode <$> m.2))]))
    (episodesByTrigger (trigger_id <$> world_armed e) (pendingWaits w).*2) rows.
Definition stop (throws : str → bool) (e : E) (w : waits) (rows : cursor_rows) : waits * cursor_rows :=
  (mkWaits [] (filter (λ t, timer_number t ∉ wait_timer <$> (pendingWaits w).*2) (timers w)) (next_timer w), rememberPendingWaits throws e w rows).
Definition episodes_of_cursor (c : str * json) : list RememberedEpisode :=
  match when_field c.2 (js "episodes") with Some (JArr l) => (λ ep, (Some c.1, ep)) <$> omap isEpisode l | _ => [] end.
Definition remembered_key (r : RememberedEpisode) : str := default (js "*") r.1 ++ js "|" ++ episodeKeyOf r.2.
Definition episodesOfTheLastRun (sessionsBeforeResume : list Session) (rows : cursor_rows) : cursor_rows * list RememberedEpisode :=
  let '(rows', cursors) := takeAll rows in
  let fromCursors := mjoin (episodes_of_cursor <$> cursors) in
  let fromSessions := (λ s, (None, episodeOf s)) <$> filter (λ s, isWaitableState (state s) = true) sessionsBeforeResume in
  (rows', snd <$> fold_left (λ m r, put m (remembered_key r) r) (fromCursors ++ fromSessions) []).
Definition addOffer (m : rec (list LateOffer)) (t : TriggerRecord) (offer : LateOffer) : rec (list LateOffer) :=
  let offers := default [] (get m (trigger_id t)) in
  if existsb (λ o, str_eqb (late_dedupKey o) (late_dedupKey offer)) offers then m else put m (trigger_id t) (offers ++ [offer]).
(** The offers of one remembered episode: a text that [Date.parse] does not read was filtered out. *)
Definition late_stays (e : E) (now : Z) (r : RememberedEpisode) : list (TriggerRecord * LateOffer) :=
  match getSession (world_sessions e) (ep_sessionId r.2), dateParse (ep_stateSince r.2) with
  | Some session, Some since =>
      omap (λ t, if bool_decide (r.1 = None ∨ r.1 = Some (trigger_id t)) && Z.leb (dueAtOf t since) now
                 then Some (t, mkLate (episodeKeyOf r.2) (eventOf session (state_text (ep_state r.2)) (minutesOf t)) (dueAtOf t since)) else None)
        (triggersWatching e session (state_text (ep_state r.2)))
  | _, _ => []
  end.
Definition late_closes (e : E) (session : Session) : list (TriggerRecord * LateOffer) :=
  match closedAt session with
  | Some at_ =>
      if bool_decide (state session = Closed) && hasFailed (closeReason session) then
        omap (λ t, if match armedAt t with Some a => Z.leb a at_ | None => false end then Some (t, mkLate (closed_key session) (eventOf session (js "closed_with_error") None) at_) else None)
          (triggersWatching e session (js "closed_with_error"))
      else []
  | None => []
  end.
Definition late_offers (e : E) (now : Z) (episodes : list RememberedEpisode) : rec (list LateOffer) :=
  fold_left (λ m o, addOffer m o.1 o.2) (mjoin (late_stays e now <$> episodes) ++ mjoin (late_closes e <$> world_sessions e)) [].
(** A call that throws ends the loop. *)
Fixpoint submit_batches (l : rec (list LateOffer)) (e : E) : E :=
  match l with
  | [] => e
  | (id, offers) :: rest => let '(e', ok) := world_submitBacklog e id offers in if ok then submit_batches rest e' else e'
  end.
Definition offerWhatCameDueWhileStopped (now : Z) (sessionsBeforeResume : list Session) (e : E) (rows : cursor_rows) : E * cursor_rows :=
  let '(rows', episodes) := episodesOfTheLastRun sessionsBeforeResume rows in (submit_batches (late_offers e now episodes) e, rows').
Definition start (now : Z) (clock : str → str → Z) (sessionsBeforeResume : list Session) (e : E) (w : waits) (rows : cursor_rows) : E * waits * cursor_rows :=
  let '(e', rows') := offerWhatCameDueWhileStopped now sessionsBeforeResume e rows in (rescan clock e' w, rows').
End Source.

(** * Facts

    ** A world that remembers what was submitted to it *)
Record submissions := mkSubmissions { offers_made : list (str * str); batches_made : rec (list LateOffer) }.
#[export] Instance recorded_world {E} `{StateWorld E} : StateWorld (E * submissions) :=
  {| world_sessions r := world_sessions r.1; world_managers r := world_managers r.1; world_armed r := world_armed r.1;
     world_submit r id key event := let '(e', ok) := world_submit r.1 id key event in ((e', mkSubmissions (offers_made r.2 ++ [(id, key)]) (batches_made r.2)), ok);
     world_submitBacklog r id offers := let '(e', ok) := world_submitBacklog r.1 id offers in ((e', mkSubmissions (offers_made r.2) (batches_made r.2 ++ [(id, offers)])), ok) |}.

Section Facts.
Context {E : Type} `{StateWorld E}.
Variable isoOf : Z → str.
(** The id of a trigger is its primary key. *)
Hypothesis armed_once : ∀ e : E, NoDup (trigger_id <$> world_armed e).
Local Abbreviation R := (E * submissions)%type.

(** ** Waits and their timers *)
(** What a run of the source makes of the world it found: it may have submitted to the engine. *)
Inductive submits : E → E → Prop :=
  | submits_none e : submits e e
  | submits_one e e' id key event : submits e e' → submits e (world_submit e' id key event).1.
Lemma submits_trans e1 e2 e3 : submits e1 e2 → submits e2 e3 → submits e1 e3.
Proof. intros H1 H2. induction H2; [done|]. apply submits_one. auto. Qed.
(** In this world the trigger is armed, its source is the state of sessions, that state is the one it names, and the session is a child in its scope. *)
Definition watches (e : E) (session : Session) (st : str) (t : TriggerRecord) : Prop :=
  t ∈ world_armed e ∧ sourceOf (when_ (trigger_graph t)) = Some SessionStateSource ∧ when_text (when_ (trigger_graph t)) (js "state") = Some st ∧ isChildInScopeOfTrigger (world_sessions e) (world_managers e) t session = true.
Lemma watching_iff (e : E) session st t : t ∈ triggersWatching e session st ↔ watches e session st t.
Proof. unfold triggersWatching, watches, isSessionStateTrigger. rewrite list_elem_of_filter. destruct (sourceOf _) as [[]|]; intuition congruence. Qed.
(** The session is in its state for the minutes of the trigger. *)
Definition has_lasted (t : TriggerRecord) (since now : Z) : Prop := since + default 0 (when_minutes (when_ (trigger_graph t))) * 60000 ≤ now.
(** The trigger was armed and watched the state of the session in one of these worlds, in which the session was in that state. *)
Definition watched (worlds : list E) (t : TriggerRecord) (session : Session) : Prop :=
  ∃ e e', e ∈ worlds ∧ submits e e' ∧ session ∈ world_sessions e ∧ watches e' session (state_text (state session)) t.
Definition timer_key (tm : WaitTimer) : str := wait_key (trigger_id (timer_trigger tm)) (session_id (timer_session tm)).
Definition wait_of (tm : WaitTimer) : PendingWait := mkWait (trigger_id (timer_trigger tm)) (episodeOf isoOf (timer_session tm)) (timer_number tm).
Definition timer_good (worlds : list E) (tm : WaitTimer) : Prop :=
  isWaitableState (state (timer_session tm)) = true ∧ watched worlds (timer_trigger tm) (timer_session tm) ∧ timer_dueAt tm = dueAtOf (timer_trigger tm) (stateSince (timer_session tm)).
(** The waits are those of the timers that may fire, one each, set in one of the worlds. *)
Record in_step (worlds : list E) (w : waits) : Prop := mkInStep
  { is_keys : NoDup (pendingWaits w).*1; is_numbers : NoDup (timer_number <$> timers w); is_next : ∀ tm, tm ∈ timers w → (timer_number tm < next_timer w)%nat;
    is_waits : ∀ k p, get (pendingWaits w) k = Some p ↔ ∃ tm, tm ∈ timers w ∧ k = timer_key tm ∧ p = wait_of tm; is_good : ∀ tm, tm ∈ timers w → timer_good worlds tm }.
Arguments is_keys {worlds} w _.
Arguments is_numbers {worlds} w _.
Arguments is_next {worlds} w _.
Arguments is_waits {worlds} w _.
Arguments is_good {worlds} w _.
Lemma in_step_more worlds worlds' w : worlds ⊆ worlds' → in_step worlds w → in_step worlds' w.
Proof. intros Hsub S. split; try apply S. intros tm Htm. destruct (is_good w S tm Htm) as (?&(e&e'&?&?)&?). split_and!; [done| |done]. exists e, e'. set_solver. Qed.
Lemma timer_unique {worlds} w tm tm' : in_step worlds w → tm ∈ timers w → tm' ∈ timers w → timer_number tm = timer_number tm' → tm = tm'.
Proof.
  intros S [i Hi]%list_elem_of_lookup [j Hj]%list_elem_of_lookup E0. assert (i = j) as ->; [|congruence]. apply (NoDup_lookup (timer_number <$> timers w) i j (timer_number tm)); [apply S|by rewrite list_lookup_fmap, Hi|].
  rewrite list_lookup_fmap, Hj. cbn. by rewrite E0.
Qed.
Lemma startsWith_app (a b : str) : startsWith (a ++ b) a = true.
Proof. induction a as [|c a IH]; [by destruct b|]. cbn. by rewrite N.eqb_refl, IH. Qed.
Lemma endsWith_end a b : endsWith (a ++ b) b = true.
Proof. unfold endsWith. rewrite reverse_app. apply startsWith_app. Qed.
Lemma forget_timers {worlds} id w tm : in_step worlds w → tm ∈ timers (forgetWaitsOf id w) ↔ tm ∈ timers w ∧ endsWith (timer_key tm) (js "|" ++ id) = false.
Proof.
  intros S. unfold forgetWaitsOf. cbn [timers]. rewrite list_elem_of_filter. split; intros [H1 H2]; [split; [done|]|split; [|done]].
  - apply not_true_is_false. intros He. apply H1, list_elem_of_fmap. exists (timer_key tm, wait_of tm). split; [done|]. apply list_elem_of_filter. split; [done|]. apply get_sound, (is_waits w S). eauto.
  - intros ([k p]&Hn&[He Hin]%list_elem_of_filter)%list_elem_of_fmap. cbn [fst snd] in Hn, He. apply get_elem, (is_waits w S) in Hin as (tm'&Htm'&->&->); [|apply S]. cbn [wait_timer wait_of] in Hn.
    rewrite (timer_unique w tm tm' S H1 Htm' Hn) in H2. congruence.
Qed.
Lemma forget_in_step {worlds} id w : in_step worlds w → in_step worlds (forgetWaitsOf id w).
Proof.
  intros S. pose proof (λ tm, forget_timers id w tm S) as Ht. split.
  - apply del_keys_NoDup, S.
  - eapply sublist_NoDup; [apply (is_numbers w S)|]. apply fmap_sublist, sublist_filter.
  - intros tm [Htm _]%Ht. by apply S.
  - intros k p. setoid_rewrite Ht. cbn [pendingWaits forgetWaitsOf]. split.
    + intros [Hg He]%get_filter_Some; [|apply S]. apply (is_waits w S) in Hg as (tm&Htm&->&->). eauto.
    + intros (tm&[Htm He]&->&->). apply get_elem; [apply del_keys_NoDup, S|]. apply list_elem_of_filter. split; [done|]. apply get_sound, (is_waits w S). eauto.
  - intros tm [Htm _]%Ht. by apply S.
Qed.
Lemma forgotten {worlds} id w k p : in_step worlds w → get (pendingWaits (forgetWaitsOf id w)) k = Some p → endsWith k (js "|" ++ id) = false.
Proof. intros S. cbn. by intros [_ ?]%get_filter_Some; [|apply S]. Qed.
Definition one_more (w : waits) (t : TriggerRecord) (session : Session) : waits :=
  mkWaits (put (pendingWaits w) (wait_key (trigger_id t) (session_id session)) (mkWait (trigger_id t) (episodeOf isoOf session) (next_timer w)))
    (timers w ++ [mkTimer (next_timer w) t session (dueAtOf t (stateSince session))]) (S (next_timer w)).
Lemma one_more_in_step {worlds} w t session : in_step worlds w → get (pendingWaits w) (wait_key (trigger_id t) (session_id session)) = None → isWaitableState (state session) = true → watched worlds t session →
  in_step worlds (one_more w t session).
Proof.
  intros S Hnone Hst Hw. split; cbn [pendingWaits timers next_timer one_more].
  - apply put_keys_NoDup, S.
  - rewrite fmap_app. apply list.NoDup_app. split; [apply S|]. split; [|apply list.NoDup_singleton]. intros n (tm&->&Htm%S)%list_elem_of_fmap Hn%list_elem_of_singleton. cbn in Hn. lia.
  - intros tm [Htm%S| ->%list_elem_of_singleton]%elem_of_app; cbn; lia.
  - intros k p. setoid_rewrite elem_of_app. setoid_rewrite list_elem_of_singleton. rewrite get_put. destruct (str_eqb _ k) eqn:Ek.
    + apply str_eqb_eq in Ek as <-. split; [intros [= <-]; eexists; split; [by right|done]|]. intros (tm&[Htm| ->]&Hk&->); [|done]. exfalso. assert (get (pendingWaits w) (timer_key tm) = Some (wait_of tm)) by (apply (is_waits w S); eauto). congruence.
    + apply str_eqb_neq in Ek. rewrite (is_waits w S). split; [intros (tm&Htm&->&->); eauto|]. intros (tm&[Htm| ->]&->&->); [eauto|by destruct Ek].
  - intros tm [Htm| ->%list_elem_of_singleton]%elem_of_app; [by apply S|]. by split.
Qed.
(** *** One session *)
(** A stay of the session that one of the triggers was to be offered: it lasts for the minutes of the trigger. *)
Definition due_stay (watching : TriggerRecord → Prop) (session : Session) (now : str → Z) (o : str * str) : Prop :=
  (state session = Idle ∨ state session = WaitingPermission) ∧ ∃ t, watching t ∧ o = (trigger_id t, episodeKeyOf (episodeOf isoOf session)) ∧ has_lasted t (stateSince session) (now (trigger_id t)).
Lemma due_stay_mono (P Q : TriggerRecord → Prop) session now o : (∀ t, P t → Q t) → due_stay P session now o → due_stay Q session now o.
Proof. intros HPQ (?&t&?&?). split; [done|]. exists t. split; [by apply HPQ|done]. Qed.
Lemma waitable_states st : isWaitableState st = true ↔ st = Idle ∨ st = WaitingPermission.
Proof. destruct st; cbn; intuition congruence. Qed.
Lemma watching_triggers (e : E) session st t : t ∈ triggersWatching e session st → isSessionStateTrigger t = true ∧ when_text (when_ (trigger_graph t)) (js "state") = Some st ∧ t ∈ world_armed e.
Proof. intros [(H1&H2&_) H3]%list_elem_of_filter. done. Qed.
Lemma watching_once (e : E) session st : NoDup (trigger_id <$> triggersWatching e session st).
Proof. eapply sublist_NoDup; [apply (armed_once e)|]. apply fmap_sublist, sublist_filter. Qed.
Lemma wait_key_inj a b id : wait_key a id = wait_key b id → a = b.
Proof. apply app_inv_tail. Qed.
(** Every trigger of the list was offered the stay or waits for it, unless a call threw. *)
Definition dealt (session : Session) (w : waits) (made : list (str * str)) (t : TriggerRecord) : Prop :=
  (trigger_id t, episodeKeyOf (episodeOf isoOf session)) ∈ made ∨ ∃ n, mkTimer n t session (dueAtOf t (stateSince session)) ∈ timers w.
Lemma wait_all_keeps {worlds} clock session l (r r' : R) w w' : in_step worlds w → isWaitableState (state session) = true → NoDup (trigger_id <$> l) → (∀ t, t ∈ l → watched worlds t session) →
  (∀ t, t ∈ l → get (pendingWaits w) (wait_key (trigger_id t) (session_id session)) = None) → wait_all isoOf clock session l r w = (r', w') →
  in_step worlds w' ∧ submits r.1 r'.1 ∧ (∃ more, offers_made r'.2 = offers_made r.2 ++ more ∧ ∀ o, o ∈ more → due_stay (.∈ l) session clock o) ∧ timers w `prefix_of` timers w'
  ∧ ((∀ e id key event, (world_submit (E:=E) e id key event).2 = true) → ∀ t, t ∈ l → dealt session w' (offers_made r'.2) t).
Proof.
  intros S Hst. assert (∀ (t : TriggerRecord) (l : list TriggerRecord) o, due_stay (.∈ l) session clock o → due_stay (.∈ t :: l) session clock o) as Hmore. { intros t l' o. apply due_stay_mono. intros t'. by right. }
  revert r w S. induction l as [|t l IH]; intros r w S Hnd Hw Hnone; cbn [wait_all].
  - intros [= <- <-]. split_and!; try done; [apply submits_none|exists []; rewrite app_nil_r; split; [done|by intros ? ?%elem_of_nil]|by intros _ ? ?%elem_of_nil].
  - apply list.NoDup_cons in Hnd as [Hid Hnd]. assert (watched worlds t session) as Ht by (apply Hw; by left). unfold waitFor. destruct (Z.leb_spec (dueAtOf t (stateSince session) - clock (trigger_id t)) 0) as [Hdue|Hdue].
    + unfold offerEpisode. cbn [world_submit recorded_world]. destruct (world_submit r.1 _ _ _) as [e' ok] eqn:Es.
      assert (due_stay (.∈ t :: l) session clock (trigger_id t, episodeKeyOf (episodeOf isoOf session))) as Hjust. { split; [by apply waitable_states|]. exists t. split_and!; [by left|done|]. unfold has_lasted, dueAtOf, minutesOf, MINUTE_MS in *. lia. }
      assert (submits r.1 e') as Hsub. { pose proof (submits_one r.1 r.1 (trigger_id t) (episodeKeyOf (episodeOf isoOf session)) (eventOf session (state_text (state session)) (minutesOf t)) (submits_none _)) as Hone. by rewrite Es in Hone. }
      destruct ok.
      * intros Hrest. apply IH in Hrest as (S'&Hs&(more&Hm&Hj)&Hp&Hd); [|done|done|intros; apply Hw; by right|intros; apply Hnone; by right]. cbn [fst snd offers_made] in *. split_and!; try done; [by eapply submits_trans|..].
        -- exists ((trigger_id t, episodeKeyOf (episodeOf isoOf session)) :: more). rewrite Hm, <- app_assoc. split; [done|]. intros o [->|Ho]%elem_of_cons; [done|by apply Hmore, Hj].
        -- intros Hok t' [->|Ht']%elem_of_cons; [left|by apply Hd]. rewrite Hm. apply elem_of_app. left. apply elem_of_app. right. by left.
      * intros [= <- <-]. cbn [fst snd offers_made]. split_and!; try done; [eexists; split; [done|]; by intros o ->%list_elem_of_singleton|]. intros Hok. specialize (Hok r.1 (trigger_id t) (episodeKeyOf (episodeOf isoOf session)) (eventOf session (state_text (state session)) (minutesOf t))). by rewrite Es in Hok.
    + fold (one_more w t session). intros Hrest. apply IH in Hrest as (S'&Hs&(more&Hm&Hj)&Hp&Hd); [|apply one_more_in_step; try done; apply Hnone; by left|done|intros; apply Hw; by right|].
      * split_and!; try done; [exists more; split; [done|]; intros o Ho; by apply Hmore, Hj|etrans; [|exact Hp]; by apply prefix_app_r|]. intros Hok t' [->|Ht']%elem_of_cons; [right|by apply Hd]. exists (next_timer w). destruct Hp as [rest ->]. apply elem_of_app. left. apply elem_of_app. right. by left.
      * intros t' Ht'. cbn [pendingWaits one_more]. rewrite get_put. destruct (str_eqb _ _) eqn:Ek; [|apply Hnone; by right]. apply str_eqb_eq, wait_key_inj in Ek. destruct Hid. rewrite Ek. by apply list_elem_of_fmap_2.
Qed.
Lemma forgotten_session {worlds} id w tm : in_step worlds w → tm ∈ timers (forgetWaitsOf id w) → session_id (timer_session tm) ≠ id.
Proof. intros S [_ He]%(forget_timers id w tm S) <-. unfold timer_key, wait_key in He. by rewrite endsWith_end in He. Qed.
(** [found] is the world the event found, from which the source has come to [r]. *)
Lemma watch_keeps {worlds} found clock session (r r' : R) w w' : in_step worlds w → found ∈ worlds → submits found r.1 → session ∈ world_sessions found → watch isoOf clock session r w = (r', w') →
  in_step worlds w' ∧ submits found r'.1
  ∧ (∃ more, offers_made r'.2 = offers_made r.2 ++ more ∧ ∀ o, o ∈ more → due_stay (watches r.1 session (state_text (state session))) session clock o)
  ∧ (∀ tm, tm ∈ timers w → endsWith (timer_key tm) (js "|" ++ session_id session) = false → tm ∈ timers w')
  ∧ (if isWaitableState (state session) then (∀ e id key event, (world_submit (E:=E) e id key event).2 = true) → ∀ t, watches r.1 session (state_text (state session)) t → dealt session w' (offers_made r'.2) t
     else ∀ tm, tm ∈ timers w' → session_id (timer_session tm) ≠ session_id session).
Proof.
  intros S Hfound Hsub Hin. pose proof (forget_in_step (session_id session) w S) as S1. assert (∀ tm, tm ∈ timers w → endsWith (timer_key tm) (js "|" ++ session_id session) = false → tm ∈ timers (forgetWaitsOf (session_id session) w)) as Hkept by (intros tm ? ?; by apply (forget_timers _ w tm S)).
  unfold watch. destruct (isWaitableState (state session)) eqn:Hst.
  - intros Hall. apply (wait_all_keeps (worlds:=worlds)) in Hall as (S'&Hs&Hm&Hp&Hd); [|done|done|apply (watching_once r.1)|by intros t Ht%(watching_iff r.1); exists found, r.1|].
    + split_and!; try done; [by eapply submits_trans| | |by intros Hok t Ht%(watching_iff r.1); apply Hd]. { destruct Hm as (more&Hm&Hj). exists more. split; [done|]. intros o Ho%Hj. eapply due_stay_mono, Ho. intros t. apply (watching_iff r.1). } intros tm Htm He. destruct Hp as [rest ->]. apply elem_of_app. left. by apply Hkept.
    + intros t _. destruct (get _ _) as [p|] eqn:Hg; [|done]. apply (forgotten (worlds:=worlds)) in Hg; [|done]. unfold wait_key in Hg. by rewrite endsWith_end in Hg.
  - intros [= <- <-]. split_and!; [done|done|exists []; rewrite app_nil_r; split; [done|by intros ? ?%elem_of_nil]|done|]. intros tm. by apply (forgotten_session (worlds:=worlds)).
Qed.
Lemma first_mark (c : N) (a a' b b' : str) : c ∉ a → c ∉ a' → a ++ c :: b = a' ++ c :: b' → a = a' ∧ b = b'.
Proof.
  revert a'. induction a as [|x a IH]; intros [|y a'] Ha Ha' Heq; simplify_eq/=; [done|set_solver|set_solver|]. destruct (IH a') as [-> ->]; set_solver.
Qed.
(** A key that ends with the bar and the id of a session is a key of that session, when no id has a bar. *)
Lemma key_of_another t id id' : chr "|" ∉ id → chr "|" ∉ id' → id ≠ id' → endsWith (wait_key t id) (js "|" ++ id') = false.
Proof.
  intros Hid Hid' Hne. apply not_true_is_false. unfold endsWith, wait_key. rewrite !reverse_app. change (reverse (js "|")) with [chr "|"]. intros (rest&Heq)%startsWith_iff. rewrite <- !app_assoc in Heq. apply first_mark in Heq as [Heq _]; [|by rewrite elem_of_reverse..]. by apply (inj reverse) in Heq.
Qed.
Lemma dealt_stays session w w' made made' t : (∀ tm, tm ∈ timers w → session_id (timer_session tm) = session_id session → tm ∈ timers w') → (∀ o, o ∈ made → o ∈ made') → dealt session w made t → dealt session w' made' t.
Proof. intros Hw Hm [Hin|[n Hin]]; [left; by apply Hm|right]. exists n. by apply Hw. Qed.
(** Each session of the list was watched in a world the source came to, and the triggers it found there have been dealt with. *)
Definition all_dealt (found : E) (l : list Session) (w : waits) (made : list (str * str)) : Prop :=
  ∀ session, session ∈ l → isWaitableState (state session) = true → ∃ e, submits found e ∧ ∀ t, watches e session (state_text (state session)) t → dealt session w made t.
Definition bar_free (l : list Session) : Prop := NoDup (session_id <$> l) ∧ ∀ s, s ∈ l → chr "|" ∉ session_id s.
Lemma rescan_keeps {worlds} found clock l (r r' : R) w w' : in_step worlds w → found ∈ worlds → submits found r.1 → l ⊆ world_sessions found →
  fold_left (λ ew session, watch isoOf (clock (session_id session)) session ew.1 ew.2) l (r, w) = (r', w') →
  in_step worlds w' ∧ (∃ more, offers_made r'.2 = offers_made r.2 ++ more ∧
    ∀ o, o ∈ more → ∃ session e, session ∈ l ∧ submits found e ∧ due_stay (watches e session (state_text (state session))) session (clock (session_id session)) o)
  ∧ (bar_free l → (∀ tm, tm ∈ timers w → chr "|" ∉ session_id (timer_session tm) → session_id (timer_session tm) ∉ session_id <$> l → tm ∈ timers w')
      ∧ ((∀ e id key event, (world_submit (E:=E) e id key event).2 = true) → all_dealt found l w' (offers_made r'.2))).
Proof.
  intros S Hfound. revert r w S. induction l as [|session l IH]; intros r w S Hsub Hl; cbn [fold_left].
  { intros [= <- <-]. split_and!; [done|exists []; rewrite app_nil_r; split; [done|by intros ? ?%elem_of_nil]|]. intros _. split; [done|]. by intros _ ? ?%elem_of_nil. }
  cbn [fst snd]. destruct (watch _ _ _ r w) as [r1 w1] eqn:Ew. apply (watch_keeps (worlds:=worlds) found) in Ew as (S1&Hsub1&(more1&Hm1&Hj1)&Hkept&Hd); [|done|done|done|set_solver].
  intros (S'&(more2&Hm2&Hj2)&Hrest)%IH; [|done|done|set_solver]. split_and!; [done|exists (more1 ++ more2)|].
  - split; [by rewrite Hm2, Hm1, app_assoc|]. intros o [Ho|Ho]%elem_of_app; [exists session, r.1; split_and!; [by left|done|by apply Hj1]|]. destruct (Hj2 o Ho) as (session'&e&?&?). exists session', e. split; [by right|done].
  - intros [Hnd Hbar]. cbn [fmap list_fmap] in Hnd. apply list.NoDup_cons in Hnd as [Hid Hnd]. destruct Hrest as [Htimers Hall]. { split; [done|]. intros. apply Hbar. by right. }
    split.
    + intros tm Htm Hb Hno. cbn [fmap list_fmap] in Hno. apply not_elem_of_cons in Hno as [Hne Hno]. apply Htimers; [|done|done]. apply Hkept; [done|]. apply key_of_another; [done|apply Hbar; by left|done].
    + intros Hok session' [->|Hs']%elem_of_cons Hst; [|by apply Hall]. rewrite Hst in Hd. exists r.1. split; [done|]. intros t Ht. eapply dealt_stays; [| |by apply Hd].
      * intros tm Htm Hsame. apply Htimers; [done|..]; rewrite Hsame; [apply Hbar; by left|done].
      * intros o Ho. rewrite Hm2. apply elem_of_app. by left.
Qed.
Lemma offer_closed_made session l (r : R) : ∃ more, offers_made (offer_closed isoOf session l r).2 = offers_made r.2 ++ more ∧ ∀ o, o ∈ more → ∃ t, t ∈ l ∧ o = (trigger_id t, closed_key isoOf session).
Proof.
  revert r. induction l as [|t l IH]; intros r; cbn [offer_closed]; [exists []; rewrite app_nil_r; split; [done|by intros ? ?%elem_of_nil]|]. cbn [world_submit recorded_world]. destruct (world_submit r.1 _ _ _) as [e' []].
  - destruct (IH (e', mkSubmissions (offers_made r.2 ++ [(trigger_id t, closed_key isoOf session)]) (batches_made r.2))) as (more&Hm&Hj). exists ((trigger_id t, closed_key isoOf session) :: more). rewrite Hm. cbn [snd offers_made]. rewrite <- app_assoc. split; [done|].
    intros o [->|Ho]%elem_of_cons; [exists t; split; [by left|done]|]. destruct (Hj o Ho) as (t'&?&?). exists t'. split; [by right|done].
  - exists [(trigger_id t, closed_key isoOf session)]. split; [done|]. intros o ->%list_elem_of_singleton. exists t. split; [by left|done].
Qed.
(** *** A timer *)
Lemma fired_in_step {worlds} w tm : in_step worlds w → tm ∈ timers w → in_step worlds (mkWaits (del (pendingWaits w) (timer_key tm)) (filter (λ t, timer_number t ≠ timer_number tm) (timers w)) (next_timer w)).
Proof.
  intros S Htm. split; cbn [pendingWaits timers next_timer].
  - apply del_keys_NoDup, S.
  - eapply sublist_NoDup; [apply (is_numbers w S)|]. apply fmap_sublist, sublist_filter.
  - intros tm' [_ ?]%list_elem_of_filter. by apply S.
  - intros k p. rewrite get_del. setoid_rewrite list_elem_of_filter. destruct (str_eqb _ k) eqn:Ek.
    + apply str_eqb_eq in Ek as <-. split; [done|]. intros (tm'&[Hn Htm']&Hk&->). exfalso. assert (get (pendingWaits w) (timer_key tm) = Some (wait_of tm)) as Hg by (apply (is_waits w S); eauto).
      assert (get (pendingWaits w) (timer_key tm) = Some (wait_of tm')) as Hg' by (apply (is_waits w S); eauto). rewrite Hg in Hg'. injection Hg' as _ _ Hnum. by destruct Hn.
    + apply str_eqb_neq in Ek. rewrite (is_waits w S). split; [|intros (tm'&[_ ?]&->&->); eauto]. intros (tm'&Htm'&->&->). exists tm'. split_and!; try done. intros Hn. destruct Ek. by rewrite (timer_unique w tm' tm S Htm' Htm Hn).
  - intros tm' [_ ?]%list_elem_of_filter. by apply S.
Qed.
Lemma find_timer {worlds} w tm : in_step worlds w → tm ∈ timers w → find (λ t, Nat.eqb (timer_number t) (timer_number tm)) (timers w) = Some tm.
Proof.
  intros S Htm. destruct (find _ _) as [tm'|] eqn:Ef.
  - apply find_elem in Ef as [Htm' En%Nat.eqb_eq]. f_equal. exact (timer_unique w tm' tm S Htm' Htm En).
  - rewrite find_is_None in Ef. specialize (Ef tm Htm). cbn in Ef. by rewrite Nat.eqb_refl in Ef.
Qed.
Lemma fires_keeps {worlds} n (r r' : R) w w' : in_step worlds w → timer_fires isoOf n r w = (r', w') → in_step worlds w' ∧
  ((∀ tm, tm ∈ timers w → timer_number tm ≠ n) ∧ r' = r ∧ w' = w ∨
   ∃ tm, tm ∈ timers w ∧ timer_number tm = n ∧ tm ∉ timers w' ∧
     match getSession (world_sessions r.1) (session_id (timer_session tm)) with
     | Some current =>
         if bool_decide (state current = state (timer_session tm)) && Z.eqb (stateSince current) (stateSince (timer_session tm))
         then offers_made r'.2 = offers_made r.2 ++ [(trigger_id (timer_trigger tm), episodeKeyOf (episodeOf isoOf current))] else r' = r
     | None => r' = r
     end).
Proof.
  intros S. unfold timer_fires. destruct (find _ _) as [tm|] eqn:Ef.
  2: { intros [= <- <-]. split; [done|]. left. split; [|done]. intros tm Htm Hn. rewrite find_is_None in Ef. specialize (Ef tm Htm). cbn in Ef. rewrite Hn, Nat.eqb_refl in Ef. done. }
  apply find_elem in Ef as [Htm <-%Nat.eqb_eq]. pose proof (fired_in_step w tm S Htm) as S'. unfold offerEpisodeIfUnchanged. cbn [pendingWaits timers next_timer]. fold (timer_key tm). set (w1 := mkWaits (del _ _) _ _) in *.
  assert (tm ∉ timers w1) as Hgone. { cbn. rewrite list_elem_of_filter. by intros [? _]. } cbn [world_sessions recorded_world]. intros Hr.
  destruct (getSession (world_sessions r.1) _) as [current|] eqn:Hg.
  - destruct (bool_decide _ && _) eqn:Hb; injection Hr as <- <-; (split; [done|]); right; exists tm; (split_and!; try done); rewrite Hg, Hb; [|done]. unfold offerEpisode. cbn [world_submit recorded_world]. by destruct (world_submit r.1 _ _ _).
  - injection Hr as <- <-. split; [done|]. right. exists tm. rewrite Hg. done.
Qed.
(** ** Histories
    What happens to the source, each event in the world it finds. *)
Inductive happening :=
  | StateChanged (e : E) (sessionId : str) (clock : str → Z) | SessionClosed (e : E) (sessionId : str) (reason : option SessionCloseReason)
  | Rescanned (e : E) (clock : str → str → Z) | TimerEnded (e : E) (n : nat) (now : Z).
Definition happens (st : waits * submissions) (ev : happening) : waits * submissions :=
  let '(w, made) := st in
  let '(r, w') := match ev with
                  | StateChanged e id clock => onStateChanged isoOf clock id (e, made) w
                  | SessionClosed e id reason => onClosed isoOf id reason (e, made) w
                  | Rescanned e clock => rescan isoOf clock (e, made) w
                  | TimerEnded e n _ => timer_fires isoOf n (e, made) w
                  end in (w', r.2).
(** A timer does not fire before it is due. *)
Definition on_time (w : waits) (ev : happening) : Prop := match ev with TimerEnded _ n now => ∀ tm, tm ∈ timers w → timer_number tm = n → timer_dueAt tm ≤ now | _ => True end.
Definition world_of (ev : happening) : E := match ev with StateChanged e _ _ | SessionClosed e _ _ | Rescanned e _ | TimerEnded e _ _ => e end.
(** What a run has come to, with the worlds its events found. *)
Inductive waits_reached : list E → waits * submissions → Prop :=
  | reached_first : waits_reached [] (mkWaits [] [] 0, mkSubmissions [] [])
  | reached_next worlds st ev : waits_reached worlds st → on_time st.1 ev → waits_reached (worlds ++ [world_of ev]) (happens st ev).
(** What an event may offer: a stay or a failure to a trigger that is armed and watches the session in the world the event found, or the stay of a timer that goes on, to the trigger that watched it when the timer was set. *)
Definition may_offer (worlds : list E) (w : waits) (ev : happening) (o : str * str) : Prop :=
  match ev with
  | StateChanged e id clock => ∃ session, getSession (world_sessions e) id = Some session ∧ due_stay (watches e session (state_text (state session))) session clock o
  | SessionClosed e id reason => ∃ session t, getSession (world_sessions e) id = Some session ∧ hasFailed reason = true ∧ watches e session (js "closed_with_error") t ∧ o = (trigger_id t, closed_key isoOf session)
  | Rescanned e clock => ∃ session e', session ∈ world_sessions e ∧ submits e e' ∧ due_stay (watches e' session (state_text (state session))) session (clock (session_id session)) o
  | TimerEnded e n now => ∃ tm session, tm ∈ timers w ∧ timer_number tm = n ∧ watched worlds (timer_trigger tm) (timer_session tm)
      ∧ getSession (world_sessions e) (session_id (timer_session tm)) = Some session ∧ state session = state (timer_session tm) ∧ stateSince session = stateSince (timer_session tm)
      ∧ due_stay (eq (timer_trigger tm)) session (λ _, now) o
  end.
(** What an event leaves done, when no call throws. *)
Definition must_deal (ev : happening) (w : waits) (after : waits * submissions) : Prop :=
  match ev with
  | StateChanged e id _ => ∀ session, getSession (world_sessions e) id = Some session →
      if isWaitableState (state session) then ∀ t, watches e session (state_text (state session)) t → dealt session after.1 (offers_made after.2) t
      else ∀ tm, tm ∈ timers after.1 → session_id (timer_session tm) ≠ id
  | SessionClosed _ id _ => ∀ tm, tm ∈ timers after.1 → session_id (timer_session tm) ≠ id
  | Rescanned e _ => bar_free (world_sessions e) → all_dealt e (world_sessions e) after.1 (offers_made after.2)
  | TimerEnded e n _ => ∀ tm, tm ∈ timers w → timer_number tm = n → tm ∉ timers after.1 ∧
      ∀ current, getSession (world_sessions e) (session_id (timer_session tm)) = Some current → state current = state (timer_session tm) → stateSince current = stateSince (timer_session tm) →
        (trigger_id (timer_trigger tm), episodeKeyOf (episodeOf isoOf current)) ∈ offers_made after.2
  end.
Lemma getSession_id (l : list Session) id s : getSession l id = Some s → session_id s = id.
Proof. by intros [_ ?%str_eqb_eq]%find_elem. Qed.
Lemma nothing_more (made : list (str * str)) (P : str * str → Prop) : ∃ more, made = made ++ more ∧ ∀ o, o ∈ more → P o.
Proof. exists []. rewrite app_nil_r. split; [done|]. by intros ? ?%elem_of_nil. Qed.
Lemma changed_happens worlds e id clock w made : in_step worlds w → let after := happens (w, made) (StateChanged e id clock) in
  in_step (worlds ++ [e]) after.1 ∧ (∃ more, offers_made after.2 = offers_made made ++ more ∧ ∀ o, o ∈ more → may_offer worlds w (StateChanged e id clock) o)
  ∧ ((∀ e id key event, (world_submit (E:=E) e id key event).2 = true) → must_deal (StateChanged e id clock) w after).
Proof.
  intros S. pose proof (in_step_more worlds (worlds ++ [e]) w ltac:(set_solver) S) as S1. cbn [happens]. unfold onStateChanged. cbn [world_sessions recorded_world fst]. destruct (getSession (world_sessions e) id) as [session|] eqn:Hg.
  - destruct (watch _ _ _ _ w) as [r w'] eqn:Ew. apply (watch_keeps (worlds:=worlds ++ [e]) e) in Ew as (S'&_&(more&Hm&Hj)&_&Hd); [|exact S1|set_solver|apply submits_none|by apply find_elem in Hg as [? _]]. cbn [fst snd] in *. split_and!; [done|exists more; split; [done|]; intros o Ho; exists session; by split; [|apply Hj]|].
    intros Hok session' Hs. rewrite Hg in Hs. injection Hs as <-. destruct (isWaitableState _); [by apply Hd|]. by rewrite <- (getSession_id _ _ _ Hg).
  - cbn [fst snd]. split_and!; [done|apply nothing_more|]. intros _ session Hs. congruence.
Qed.
Lemma closed_happens worlds e id reason w made : in_step worlds w → let after := happens (w, made) (SessionClosed e id reason) in
  in_step (worlds ++ [e]) after.1 ∧ (∃ more, offers_made after.2 = offers_made made ++ more ∧ ∀ o, o ∈ more → may_offer worlds w (SessionClosed e id reason) o) ∧ must_deal (SessionClosed e id reason) w after.
Proof.
  intros S. cbn [happens]. unfold onClosed. cbn [world_sessions recorded_world fst]. pose proof (in_step_more worlds (worlds ++ [e]) _ ltac:(set_solver) (forget_in_step id w S)) as S'.
  assert (∀ tm, tm ∈ timers (forgetWaitsOf id w) → session_id (timer_session tm) ≠ id) as Hgone by (intros tm; exact (forgotten_session id w tm S)).
  destruct (getSession (world_sessions e) id) as [session|] eqn:Hg; [|cbn [fst snd]; split_and!; [done|apply nothing_more|done]]. destruct (hasFailed reason) eqn:Hf; cbn [fst snd]; [|split_and!; [done|apply nothing_more|done]].
  split_and!; [done| |done]. destruct (offer_closed_made session (triggersWatching (e, made) session (js "closed_with_error")) (e, made)) as (more&Hm&Hj). exists more. split; [exact Hm|]. intros o (t&Ht%(watching_iff e)&->)%Hj. by exists session, t.
Qed.
Lemma ended_happens worlds e n now w made : in_step worlds w → on_time w (TimerEnded e n now) → let after := happens (w, made) (TimerEnded e n now) in
  in_step (worlds ++ [e]) after.1 ∧ (∃ more, offers_made after.2 = offers_made made ++ more ∧ ∀ o, o ∈ more → may_offer worlds w (TimerEnded e n now) o) ∧ must_deal (TimerEnded e n now) w after.
Proof.
  intros S Ht. cbn [happens]. destruct (timer_fires _ _ _ w) as [r w'] eqn:Ef. apply (fires_keeps (worlds:=worlds)) in Ef as [S' Hfired]; [|done]. apply (in_step_more worlds (worlds ++ [e])) in S'; [|set_solver]. destruct Hfired as [(Hno&->&->)|(tm&Htm&<-&Hgone&Hm)]; cbn [fst snd] in *; (split; [done|]).
  { split; [apply nothing_more|]. intros tm Htm Hn. by destruct (Hno tm Htm). }
  destruct (is_good w S tm Htm) as (Hst&Hw&Hdue). pose proof (Ht tm Htm eq_refl) as Hnow. rewrite Hdue in Hnow. destruct (getSession (world_sessions e) _) as [current|] eqn:Hg.
  - destruct (bool_decide _ && _) eqn:Hb.
    + apply andb_true_iff in Hb as [Hs%bool_decide_eq_true Hz%Z.eqb_eq]. split.
      * exists [(trigger_id (timer_trigger tm), episodeKeyOf (episodeOf isoOf current))]. split; [done|]. intros o ->%list_elem_of_singleton. exists tm, current. split_and!; try done. split; [rewrite Hs; by apply waitable_states|]. exists (timer_trigger tm). rewrite Hz. split_and!; done.
      * intros tm' Htm' Hn. rewrite (timer_unique w tm' tm S Htm' Htm Hn). split; [done|]. intros c Hc _ _. rewrite Hg in Hc. injection Hc as <-. cbn [snd]. rewrite Hm. apply elem_of_app. right. by left.
    + subst r. split; [apply nothing_more|]. intros tm' Htm' Hn. rewrite (timer_unique w tm' tm S Htm' Htm Hn). split; [done|]. intros c Hc Hs Hz. rewrite Hg in Hc. injection Hc as <-. rewrite Hs, Hz, bool_decide_eq_true_2, Z.eqb_refl in Hb by done. done.
  - subst r. split; [apply nothing_more|]. intros tm' Htm' Hn. rewrite (timer_unique w tm' tm S Htm' Htm Hn). split; [done|]. intros c Hc. congruence.
Qed.
Lemma every_happening worlds w made ev : in_step worlds w → on_time w ev → let after := happens (w, made) ev in
  in_step (worlds ++ [world_of ev]) after.1 ∧ (∃ more, offers_made after.2 = offers_made made ++ more ∧ ∀ o, o ∈ more → may_offer worlds w ev o) ∧ ((∀ e id key event, (world_submit (E:=E) e id key event).2 = true) → must_deal ev w after).
Proof.
  intros S Ht. destruct ev as [e id clock|e id reason|e clock|e n now].
  - by apply changed_happens.
  - destruct (closed_happens worlds e id reason w made S) as (?&?&?). done.
  - cbn [happens]. unfold rescan. destruct (fold_left _ _ _) as [r w'] eqn:Er. apply (rescan_keeps (worlds:=worlds ++ [e]) e) in Er as (S'&(more&Hm&Hj)&Hd); [|apply (in_step_more worlds); [set_solver|done]|set_solver|apply submits_none|done].
    cbn [fst snd world_of] in *. split_and!; [done|by exists more|]. intros Hok Hbar. by apply Hd.
  - destruct (ended_happens worlds e n now w made S Ht) as (?&?&?). done.
Qed.
Lemma reached_in_step worlds st : waits_reached worlds st → in_step worlds st.1.
Proof.
  induction 1 as [|worlds [w made] ev _ S Ht]; [|by apply every_happening]. split; cbn; try apply NoDup_nil_2; try by intros ? ?%elem_of_nil. intros k p. split; [done|]. by intros (?&?%elem_of_nil&_).
Qed.
(** C33. A stay is offered when it has lasted: in every history of state changes, closes, rescans and timers that do not fire early, in worlds that change in any way, a stay is offered only to a trigger that is armed and watches the session in that state, in the world the event found
    or, for a timer, in a world of the history in which the timer was set, and only when the session is in that state since at least the minutes of that trigger; a failure is offered only to a trigger that watches it, when the session closed on one; and the waits are those of
    the timers that may fire.  When no call of the engine throws, a session that enters a waited state leaves each trigger that watches it offered or with a timer due when the stay will have lasted, a rescan does so for every session when ids have no bar and none is used twice, a timer that
    fires offers the stay if it still goes on, and a session that closes or leaves those states has no timer left. *)
Theorem a_stay_is_offered_when_it_has_lasted worlds w made ev : waits_reached worlds (w, made) → on_time w ev → let after := happens (w, made) ev in
  (∀ k p, get (pendingWaits w) k = Some p ↔ ∃ tm, tm ∈ timers w ∧ k = timer_key tm ∧ p = wait_of tm)
  ∧ (∃ more, offers_made after.2 = offers_made made ++ more ∧ ∀ o, o ∈ more → may_offer worlds w ev o)
  ∧ ((∀ e id key event, (world_submit (E:=E) e id key event).2 = true) → must_deal ev w after).
Proof. intros S%reached_in_step Ht. split; [apply S|]. by apply every_happening. Qed.
(** ** A restart *)
Variable dateParse : str → option Z.
Definition plain (ep : Episode) : Prop := isWaitableState (ep_state ep) = true ∧ chr ":" ∉ ep_sessionId ep.
Lemma waitable_text st : isWaitableState st = true → chr ":" ∉ state_text st ∧ waitable_of_text (state_text st) = Some st.
Proof. destruct st; try done; intros _; (split; [apply (bool_decide_unpack _); vm_compute; exact I|done]). Qed.
Lemma episodeKey_inj ep ep' : plain ep → plain ep' → episodeKeyOf ep = episodeKeyOf ep' → ep = ep'.
Proof.
  destruct ep as [id st since], ep' as [id' st' since']. intros [Hs Hi] [Hs' Hi'] Heq. unfold episodeKeyOf in Heq. cbn [ep_state ep_sessionId ep_stateSince] in *.
  apply waitable_text in Hs as [Hn Hw], Hs' as [Hn' Hw']. apply first_mark in Heq as [Ht Heq]; [|done|done]. apply first_mark in Heq as [-> ->]; [|done|done]. rewrite Ht, Hw' in Hw. by injection Hw as ->.
Qed.
(** A remembered episode whose key tells it from the others. *)
Definition plain_id (id : str) : Prop := chr "|" ∉ id ∧ id ≠ js "*".
Definition told_apart (r : RememberedEpisode) : Prop := plain r.2 ∧ match r.1 with Some id => plain_id id | None => True end.
Lemma remembered_key_inj r r' : told_apart r → told_apart r' → remembered_key r = remembered_key r' → r = r'.
Proof.
  destruct r as [o ep], r' as [o' ep']. intros [Hp Ho] [Hp' Ho'] Heq. unfold remembered_key in Heq. cbn [fst snd] in *. assert (∀ o : option str, match o with Some id => plain_id id | None => True end → chr "|" ∉ default (js "*") o) as Hbar.
  { intros [id|] Hid; [apply Hid|]. apply (bool_decide_unpack _). vm_compute. exact I. }
  apply first_mark in Heq as [Hd Hk]; [|by apply Hbar|by apply Hbar]. apply episodeKey_inj in Hk as ->; [|done|done]. f_equal. destruct o as [id|], o' as [id'|]; cbn in Hd; subst; try done; [by destruct Ho|by destruct Ho'].
Qed.
Lemma fold_put_stays {A} (key : A → str) (l : list A) (m : rec A) x : get m (key x) = Some x → (∀ y, y ∈ l → key y = key x → y = x) → get (fold_left (λ m r, put m (key r) r) l m) (key x) = Some x.
Proof.
  revert m. induction l as [|y l IH]; intros m Hg Hy; [done|]. cbn [fold_left]. apply IH; [|intros z Hz; apply Hy; by right]. rewrite get_put. destruct (str_eqb (key y) (key x)) eqn:Ek; [|done]. apply str_eqb_eq in Ek. f_equal. apply Hy; [by left|done].
Qed.
Lemma fold_put_get {A} (key : A → str) (l : list A) (m : rec A) x : x ∈ l → (∀ y, y ∈ l → key y = key x → y = x) → get (fold_left (λ m r, put m (key r) r) l m) (key x) = Some x.
Proof.
  revert m. induction l as [|y l IH]; intros m Hx Hy; [by apply elem_of_nil in Hx|]. cbn [fold_left]. apply elem_of_cons in Hx as [->|Hx]; [|apply IH; [done|]; intros z Hz; apply Hy; by right].
  apply fold_put_stays; [by rewrite get_put, str_eqb_refl|]. intros z Hz. apply Hy. by right.
Qed.
Lemma fold_put_values {A} (key : A → str) (l : list A) (m : rec A) r : r ∈ (fold_left (λ m r, put m (key r) r) l m).*2 → r ∈ l ∨ r ∈ m.*2.
Proof.
  revert m. induction l as [|x l IH]; intros m; cbn [fold_left]; [by right|]. intros [?|Hr]%IH; [left; by right|]. apply list_elem_of_fmap in Hr as ([k v]&->&[[= -> ->]|Hin]%put_elem); [left; by left|]. right. by apply list_elem_of_fmap_2.
Qed.
(** *** What is written *)
Definition pending_of (pending : list PendingWait) (ids : list str) (m : rec (list Episode)) : Prop :=
  NoDup m.*1 ∧ (∀ k l, get m k = Some l → ∀ ep, ep ∈ l → ∃ p, p ∈ pending ∧ wait_triggerId p = k ∧ wait_episode p = ep)
  ∧ (∀ p, p ∈ pending → wait_triggerId p ∈ ids → ∃ l, get m (wait_triggerId p) = Some l ∧ wait_episode p ∈ l).
Lemma episodesByTrigger_spec ids pending : pending_of pending ids (episodesByTrigger ids pending).
Proof.
  unfold episodesByTrigger. induction pending as [|p pending IH] using rev_ind; [split_and!; [apply NoDup_nil_2|done|by intros ? ?%elem_of_nil]|]. rewrite fold_left_app. cbn [fold_left]. destruct IH as (H1&H2&H3).
  destruct (mem_str (wait_triggerId p) ids) eqn:Hm.
  - split_and!; [by apply put_keys_NoDup|..].
    + intros k l. rewrite get_put. destruct (str_eqb _ k) eqn:Ek; [|intros Hl ep Hep; destruct (H2 k l Hl ep Hep) as (q&Hq&?); exists q; split; [apply elem_of_app; by left|done]]. apply str_eqb_eq in Ek as <-. intros [= <-] ep [Hep| ->%list_elem_of_singleton]%elem_of_app.
      * destruct (get _ (wait_triggerId p)) as [l|] eqn:Hl; [|by apply elem_of_nil in Hep]. destruct (H2 _ l Hl ep Hep) as (q&Hq&?). exists q. split; [apply elem_of_app; by left|done].
      * exists p. split; [apply elem_of_app; right; by left|done].
    + intros q Hq Hid. rewrite get_put. destruct (str_eqb (wait_triggerId p) (wait_triggerId q)) eqn:Ek.
      * apply str_eqb_eq in Ek. eexists. split; [done|]. apply elem_of_app in Hq as [Hq| ->%list_elem_of_singleton]; apply elem_of_app; [left|right; by left]. destruct (H3 q Hq Hid) as (l&Hl&Hep). rewrite Ek, Hl. done.
      * apply str_eqb_neq in Ek. apply elem_of_app in Hq as [Hq| ->%list_elem_of_singleton]; [by apply H3|done].
  - split_and!; [done|..].
    + intros k l Hl ep Hep. destruct (H2 k l Hl ep Hep) as (q&Hq&?). exists q. split; [apply elem_of_app; by left|done].
    + intros q [Hq| ->%list_elem_of_singleton]%elem_of_app Hid; [by apply H3|]. apply mem_str_iff in Hid. congruence.
Qed.
Definition cursor_of (l : list Episode) : json := JObj [(js "episodes", JArr (json_of_episode <$> l))].
Lemma saved_rows throws (m : rec (list Episode)) rows : NoDup m.*1 → NoDup rows.*1 →
  let rows' := fold_left (λ rows (m : str * list Episode), if throws m.1 : bool then rows else save_cursor rows m.1 (cursor_of m.2)) m rows in
  NoDup rows'.*1 ∧ ∀ k, get rows' k = match get m k with Some l => if throws k then get rows k else Some (Some (cursor_of l)) | None => get rows k end.
Proof.
  cbv zeta. revert rows. induction m as [|[k0 l0] m IH]; intros rows Hm Hr; [done|]. cbn [fold_left fst snd]. apply list.NoDup_cons in Hm as [Hk0 Hm]. destruct (IH (if throws k0 then rows else save_cursor rows k0 (cursor_of l0)) Hm) as [H1 H2].
  { destruct (throws k0); [done|]. by apply put_keys_NoDup. }
  split; [done|]. intros k. rewrite H2. cbn [get]. destruct (str_eqb k0 k) eqn:Ek.
  - apply str_eqb_eq in Ek as <-. destruct (get m k0) as [l|] eqn:Hg; [by apply get_key in Hg|]. destruct (throws k0); [done|]. unfold save_cursor. by rewrite get_put, str_eqb_refl.
  - destruct (throws k0); [done|]. unfold save_cursor. rewrite get_put, Ek. done.
Qed.
Lemma taken_row (rows : cursor_rows) k v : NoDup rows.*1 → (k, v) ∈ omap taken rows ↔ get rows k = Some (Some v) ∧ isPermanentCursor v = false.
Proof.
  intros Hnd. rewrite list_elem_of_omap. unfold taken. split.
  - intros ([k' o]&Hin&Ht). cbn in Ht. destruct o as [v'|]; [|done]. destruct (isPermanentCursor v') eqn:Hp; [done|]. injection Ht as -> ->. split; [by apply get_elem|done].
  - intros [Hg%get_sound Hp]. exists (k, Some v). split; [done|]. cbn. by rewrite Hp.
Qed.
(** *** What is read back *)
Definition iso_read (z : Z) : Prop := dateParse (isoOf z) = Some z ∧ re_test ISO_DATE (isoOf z) = true.
Lemma read_back session : isWaitableState (state session) = true → iso_read (stateSince session) → isEpisode dateParse (json_of_episode (episodeOf isoOf session)) = Some (episodeOf isoOf session).
Proof.
  intros Hst [Hp Hr]. unfold isEpisode. set (ep := episodeOf isoOf session). change (when_text (json_of_episode ep) (js "sessionId")) with (Some (session_id session)).
  change (when_text (json_of_episode ep) (js "stateSince")) with (Some (isoOf (stateSince session))). change (when_text (json_of_episode ep) (js "state")) with (Some (state_text (state session))).
  destruct (waitable_text _ Hst) as [_ Hw]. change (Some (state_text (state session)) ≫= waitable_of_text) with (waitable_of_text (state_text (state session))). rewrite Hw. unfold isIsoDate. rewrite Hr, Hp. done.
Qed.
(** The episodes a stop leaves to the next boot are told apart, and none is lost. *)
Section Restart.
Context (worlds : list E) (w : waits) (rows : cursor_rows) (throws : str → bool) (e1 : E) (before : list Session).
Hypothesis Hw : in_step worlds w.
Hypothesis Hrows : NoDup rows.*1.
Hypothesis Hnone : omap taken rows = [].
Hypothesis Htimers : ∀ tm, tm ∈ timers w → iso_read (stateSince (timer_session tm)) ∧ plain_id (trigger_id (timer_trigger tm)) ∧ chr ":" ∉ session_id (timer_session tm).
Hypothesis Hbefore : ∀ s, s ∈ before → chr ":" ∉ session_id s.
Abbreviation rows1 := (rememberPendingWaits throws e1 w rows).
Abbreviation last_run := (episodesOfTheLastRun isoOf dateParse before rows1).2.
Lemma pending_timer p : p ∈ (pendingWaits w).*2 ↔ ∃ tm, tm ∈ timers w ∧ p = wait_of tm.
Proof.
  rewrite list_elem_of_fmap. split.
  - intros ([k q]&->&(tm&?&_&->)%(get_elem _ _ _ (is_keys w Hw))%(is_waits w Hw)). eauto.
  - intros (tm&Htm&->). exists (timer_key tm, wait_of tm). split; [done|]. apply get_sound, (is_waits w Hw). eauto.
Qed.
Lemma cursors_left k v : (k, v) ∈ omap taken rows1 → ∃ l, v = cursor_of l ∧ ∀ ep, ep ∈ l → ∃ tm, tm ∈ timers w ∧ trigger_id (timer_trigger tm) = k ∧ ep = episodeOf isoOf (timer_session tm).
Proof.
  destruct (episodesByTrigger_spec (trigger_id <$> world_armed e1) (pendingWaits w).*2) as (H1&H2&_). destruct (saved_rows throws _ rows H1 Hrows) as [Hn Hg]. intros [Hk Hp]%taken_row; [|done].
  change (get rows1 k = Some (Some v)) in Hk. unfold rememberPendingWaits in Hk. rewrite Hg in Hk. assert (get rows k ≠ Some (Some v)) as Hno. { intros Hr. assert ((k, v) ∈ omap taken rows) as Hin by (by apply taken_row). rewrite Hnone in Hin. by apply elem_of_nil in Hin. }
  destruct (get (episodesByTrigger _ _) k) as [l|] eqn:El; [|done]. destruct (throws k); [done|]. injection Hk as <-. exists l. split; [done|]. intros ep (p&(tm&Htm&->)%pending_timer&<-&<-)%(H2 k l El). eauto.
Qed.
Lemma cursor_kept tm : tm ∈ timers w → trigger_id (timer_trigger tm) ∈ (trigger_id <$> world_armed e1) → throws (trigger_id (timer_trigger tm)) = false →
  ∃ l, (trigger_id (timer_trigger tm), cursor_of l) ∈ omap taken rows1 ∧ episodeOf isoOf (timer_session tm) ∈ l ∧ ∀ ep, ep ∈ l → ∃ tm', tm' ∈ timers w ∧ ep = episodeOf isoOf (timer_session tm').
Proof.
  intros Htm Ha Ht. destruct (episodesByTrigger_spec (trigger_id <$> world_armed e1) (pendingWaits w).*2) as (H1&H2&H3). destruct (saved_rows throws _ rows H1 Hrows) as [Hn Hg].
  destruct (H3 (wait_of tm)) as (l&Hl&Hep); [apply pending_timer; eauto|done|]. exists l. split; [|split; [done|]; intros ep (p&(tm'&Htm'&->)%pending_timer&_&<-)%(H2 _ l Hl); eauto]. apply taken_row; [done|]. split; [|done]. change (get rows1 (trigger_id (timer_trigger tm)) = Some (Some (cursor_of l))). unfold rememberPendingWaits. rewrite Hg. cbn in Hl. by rewrite Hl, Ht.
Qed.
Lemma cursor_read k l : (∀ ep, ep ∈ l → ∃ tm, tm ∈ timers w ∧ ep = episodeOf isoOf (timer_session tm)) → episodes_of_cursor dateParse (k, cursor_of l) = (λ ep, (Some k, ep)) <$> l.
Proof.
  intros Hl. unfold episodes_of_cursor. change (when_field (k, cursor_of l).2 (js "episodes")) with (Some (JArr (json_of_episode <$> l))). cbn [fst]. f_equal. induction l as [|ep l IH]; [done|]. cbn [fmap list_fmap omap list_omap].
  destruct (Hl ep) as (tm&Htm&->); [by left|]. rewrite read_back; [|apply (is_good w Hw tm Htm)|by apply Htimers]. f_equal. apply IH. intros x Hx. apply Hl. by right.
Qed.
Definition remembered : list RememberedEpisode :=
  mjoin (episodes_of_cursor dateParse <$> omap taken rows1) ++ ((λ s, (None, episodeOf isoOf s)) <$> filter (λ s, isWaitableState (state s) = true) before).
Lemma remembered_apart r : r ∈ remembered → told_apart r ∧ ∃ session, r.2 = episodeOf isoOf session.
Proof.
  intros [Hr|(s&->&[Hst Hs]%list_elem_of_filter)%list_elem_of_fmap]%elem_of_app; [|split; [split; [split; [done|by apply Hbefore]|done]|by eexists]].
  apply list_elem_of_join in Hr as (rs&Hr&([k v]&->&Hin)%list_elem_of_fmap). destruct (cursors_left k v Hin) as (l&->&Hl). rewrite cursor_read in Hr; [|intros ep (tm&?&_&?)%Hl; eauto]. apply list_elem_of_fmap in Hr as (ep&->&Hep). destruct (Hl ep Hep) as (tm&Htm&<-&->).
  split; [|by eexists]. destruct (Htimers tm Htm) as (_&Hp&Hc). split; [split; [apply (is_good w Hw tm Htm)|done]|done].
Qed.
Lemma last_run_iff r : r ∈ last_run ↔ r ∈ remembered.
Proof.
  unfold episodesOfTheLastRun. cbn [takeAll snd fst]. fold remembered. split; [by intros [?|?%elem_of_nil]%fold_put_values|]. intros Hr. apply list_elem_of_fmap. exists (remembered_key r, r). split; [done|]. apply get_sound, (fold_put_get remembered_key); [exact Hr|].
  intros y Hy Hk. apply remembered_key_inj; [by apply remembered_apart|by apply remembered_apart|done].
Qed.
Lemma wait_remembered tm : tm ∈ timers w → trigger_id (timer_trigger tm) ∈ (trigger_id <$> world_armed e1) → throws (trigger_id (timer_trigger tm)) = false → (Some (trigger_id (timer_trigger tm)), episodeOf isoOf (timer_session tm)) ∈ last_run.
Proof.
  intros Htm Ha Ht. apply last_run_iff, elem_of_app. left. destruct (cursor_kept tm Htm Ha Ht) as (l&Hin&Hep&Hl). apply list_elem_of_join. eexists. split; [|by apply list_elem_of_fmap_2]. rewrite cursor_read by done. by apply list_elem_of_fmap_2.
Qed.
(** *** What is offered at the boot *)
Context (e2 : E) (now : Z).
Abbreviation late := (late_stays dateParse e2 now).
Lemma stay_offer r t o : (t, o) ∈ late r → ∃ session since, getSession (world_sessions e2) (ep_sessionId r.2) = Some session ∧ dateParse (ep_stateSince r.2) = Some since ∧ t ∈ triggersWatching e2 session (state_text (ep_state r.2))
  ∧ late_dedupKey o = episodeKeyOf r.2 ∧ late_dueAtMs o = dueAtOf t since.
Proof.
  unfold late_stays. destruct (getSession _ _) as [session|] eqn:Hg; [|by intros ?%elem_of_nil]. destruct (dateParse _) as [since|] eqn:Hd; [|by intros ?%elem_of_nil]. intros (t'&Ht&Ho)%list_elem_of_omap.
  destruct (_ && _); [|done]. injection Ho as -> <-. by exists session, since.
Qed.
Lemma close_offer session t o : (t, o) ∈ late_closes isoOf e2 session → late_dedupKey o = closed_key isoOf session.
Proof. unfold late_closes. destruct (closedAt session); [|by intros ?%elem_of_nil]. destruct (_ && _); [|by intros ?%elem_of_nil]. intros (t'&_&Ho)%list_elem_of_omap. destruct (match armedAt t' with Some _ => _ | None => _ end); [|done]. by injection Ho as _ <-. Qed.
Lemma close_key_apart session ep : isWaitableState (ep_state ep) = true → closed_key isoOf session ≠ episodeKeyOf ep.
Proof.
  intros Hst Heq. unfold closed_key, episodeKeyOf in Heq. change (js "closed_with_error:") with (js "closed_with_error" ++ js ":") in Heq. rewrite <- app_assoc in Heq. apply first_mark in Heq as [Ht _]; [by destruct (ep_state ep)|apply (bool_decide_unpack _); vm_compute; exact I|by apply waitable_text].
Qed.
Lemma armed_apart (e : E) t t' : t ∈ world_armed e → t' ∈ world_armed e → trigger_id t = trigger_id t' → t = t'.
Proof.
  intros [i Hi]%list_elem_of_lookup [j Hj]%list_elem_of_lookup E0. assert (i = j) as ->; [|congruence]. apply (NoDup_lookup (trigger_id <$> world_armed e) i j (trigger_id t)); [apply armed_once|by rewrite list_lookup_fmap, Hi|].
  rewrite list_lookup_fmap, Hj. cbn. by rewrite E0.
Qed.
Abbreviation all_late := (mjoin (late <$> last_run) ++ mjoin (late_closes isoOf e2 <$> world_sessions e2)).
(** The offers of one stay to one trigger have its deadline. *)
Lemma deadline tm t t' o : tm ∈ timers w → t ∈ world_armed e2 → (t', o) ∈ all_late → trigger_id t' = trigger_id t → late_dedupKey o = episodeKeyOf (episodeOf isoOf (timer_session tm)) →
  late_dueAtMs o = dueAtOf t (stateSince (timer_session tm)).
Proof.
  intros Htm Ht Hin Hid Hk. destruct (Htimers tm Htm) as ([Hp _]&_&Hc). destruct (is_good w Hw tm Htm) as (Hst&_&_).
  apply elem_of_app in Hin as [(os&Hin&(r&->&Hr)%list_elem_of_fmap)%list_elem_of_join|(os&Hin&(s&->&_)%list_elem_of_fmap)%list_elem_of_join]; [|apply close_offer in Hin; rewrite Hin in Hk; by apply close_key_apart in Hk].
  apply stay_offer in Hin as (session&since&_&Hd&(_&_&Ht')%watching_triggers&Hk'&->). rewrite Hk' in Hk. apply episodeKey_inj in Hk; [|by apply remembered_apart, last_run_iff|done]. rewrite Hk in Hd. cbn in Hd. rewrite Hp in Hd. injection Hd as <-. by rewrite (armed_apart e2 t' t Ht' Ht Hid).
Qed.
Lemma stay_offered tm t current : tm ∈ timers w → trigger_id (timer_trigger tm) ∈ (trigger_id <$> world_armed e1) → throws (trigger_id (timer_trigger tm)) = false → getSession (world_sessions e2) (session_id (timer_session tm)) = Some current →
  t ∈ triggersWatching e2 current (state_text (state (timer_session tm))) → trigger_id t = trigger_id (timer_trigger tm) → dueAtOf t (stateSince (timer_session tm)) ≤ now →
  ∃ o, (t, o) ∈ all_late ∧ late_dedupKey o = episodeKeyOf (episodeOf isoOf (timer_session tm)).
Proof.
  intros Htm Ha Hth Hg Ht Hid Hdue. destruct (Htimers tm Htm) as ([Hp _]&_&_). eexists (mkLate _ _ _). split; [|reflexivity]. apply elem_of_app. left. apply list_elem_of_join. exists (late (Some (trigger_id (timer_trigger tm)), episodeOf isoOf (timer_session tm))).
  split; [|by apply list_elem_of_fmap_2, wait_remembered]. unfold late_stays. cbn [snd fst ep_sessionId ep_stateSince ep_state episodeOf]. rewrite Hg, Hp. apply list_elem_of_omap. exists t. split; [done|]. rewrite bool_decide_eq_true_2 by (right; by rewrite Hid). rewrite (proj2 (Z.leb_le _ _) Hdue). reflexivity.
Qed.
End Restart.
(** *** Batches *)
Lemma addOffer_spec (l : list (TriggerRecord * LateOffer)) : let m := fold_left (λ m o, addOffer m o.1 o.2) l [] in
  NoDup m.*1 ∧ (∀ k offers, get m k = Some offers → NoDup (late_dedupKey <$> offers) ∧ ∀ o, o ∈ offers → ∃ t, trigger_id t = k ∧ (t, o) ∈ l)
  ∧ (∀ t o, (t, o) ∈ l → ∃ offers o', get m (trigger_id t) = Some offers ∧ o' ∈ offers ∧ late_dedupKey o' = late_dedupKey o).
Proof.
  cbv zeta. induction l as [|[t o] l IH] using rev_ind; [split_and!; [apply NoDup_nil_2|done|by intros ? ? ?%elem_of_nil]|]. rewrite fold_left_app. cbn [fold_left fst snd]. destruct IH as (H1&H2&H3). set (m := fold_left _ l []) in *. unfold addOffer.
  assert (∀ offers, get m (trigger_id t) = Some offers ∨ offers = [] ∧ get m (trigger_id t) = None → NoDup (late_dedupKey <$> offers) ∧ ∀ y, y ∈ offers → ∃ t', trigger_id t' = trigger_id t ∧ (t', y) ∈ l ++ [(t, o)]) as Hold.
  { intros offers [Hg|[-> _]]; [|split; [apply NoDup_nil_2|by intros ? ?%elem_of_nil]]. destruct (H2 _ _ Hg) as [Hn Ho]. split; [done|]. intros x Hx. destruct (Ho x Hx) as (t'&?&?). exists t'. split; [done|]. apply elem_of_app. by left. }
  set (offers := default [] (get m (trigger_id t))). assert (get m (trigger_id t) = Some offers ∨ offers = [] ∧ get m (trigger_id t) = None) as Hcase by (unfold offers; destruct (get m (trigger_id t)); auto).
  destruct (existsb _ offers) eqn:Hex.
  - split_and!; [done| |].
    + intros k os Hg. destruct (H2 k os Hg) as [Hn Ho]. split; [done|]. intros x Hx. destruct (Ho x Hx) as (t'&?&?). exists t'. split; [done|]. apply elem_of_app. by left.
    + intros t' o' [Hin|[= -> ->]%list_elem_of_singleton]%elem_of_app; [by apply H3|]. apply existsb_exists in Hex as (x&Hx%list_elem_of_In&Hk%str_eqb_eq). exists offers, x. destruct Hcase as [?|[E0 _]]; [done|]. rewrite E0 in Hx. by apply elem_of_nil in Hx.
  - destruct (Hold offers Hcase) as [Hn Ho]. split_and!; [by apply put_keys_NoDup|..].
    + intros k os. rewrite get_put. destruct (str_eqb _ k) eqn:Ek.
      * apply str_eqb_eq in Ek as <-. intros [= <-]. split.
        -- rewrite fmap_app. apply list.NoDup_app. split; [done|]. split; [|apply list.NoDup_singleton]. intros x (y&->&Hy)%list_elem_of_fmap Hx%list_elem_of_singleton. apply not_true_iff_false in Hex. destruct Hex. apply existsb_exists. exists y. split; [by apply list_elem_of_In|]. by apply str_eqb_eq.
        -- intros x [Hx| ->%list_elem_of_singleton]%elem_of_app; [by apply Ho|]. exists t. split; [done|]. apply elem_of_app. right. by left.
      * intros Hg. destruct (H2 k os Hg) as [Hn' Ho']. split; [done|]. intros x Hx. destruct (Ho' x Hx) as (t'&?&?). exists t'. split; [done|]. apply elem_of_app. by left.
    + intros t' o' [Hin|[= -> ->]%list_elem_of_singleton]%elem_of_app.
      * destruct (H3 t' o' Hin) as (os&x&Hg&Hx&Hk). rewrite get_put. destruct (str_eqb (trigger_id t) (trigger_id t')) eqn:Ek; [|eauto]. apply str_eqb_eq in Ek. exists (offers ++ [o]), x. split; [done|]. split; [|done]. apply elem_of_app. left. unfold offers. by rewrite Ek, Hg.
      * rewrite get_put, str_eqb_refl. eexists _, o. split; [done|]. split; [|done]. apply elem_of_app. right. by left.
Qed.
(** The batches are submitted in order, up to the first whose call throws. *)
Definition tried (batches made : rec (list LateOffer)) : Prop :=
  made = batches ∨ ∃ id offers rest e, batches = made ++ rest ∧ list.last made = Some (id, offers) ∧ (world_submitBacklog (E:=E) e id offers).2 = false.
Lemma batches_submitted (l : rec (list LateOffer)) (r : R) : ∃ made, batches_made (submit_batches l r).2 = batches_made r.2 ++ made ∧ tried l made.
Proof.
  revert r. induction l as [|[id offers] l IH]; intros r; cbn [submit_batches]; [exists []; rewrite app_nil_r; split; [done|by left]|]. cbn [world_submitBacklog recorded_world]. destruct (world_submitBacklog r.1 id offers) as [e' []] eqn:Eb.
  - destruct (IH (e', mkSubmissions (offers_made r.2) (batches_made r.2 ++ [(id, offers)]))) as (made&Hm&Ht). exists ((id, offers) :: made). rewrite Hm. cbn [snd batches_made]. rewrite <- app_assoc. split; [done|]. destruct Ht as [->|(id'&os&rest&e&->&Hl&Hf)]; [by left|]. right. exists id', os, rest, e.
    split_and!; [done| |done]. by destruct made.
  - exists [(id, offers)]. split; [done|]. right. exists id, offers, l, r.1. by rewrite Eb.
Qed.
(** What a boot may offer late: a stay that came due, to an armed trigger that watches its state, or a failure since the trigger was armed. *)
Definition may_catch_up (e : E) (now : Z) (id : str) (o : LateOffer) : Prop := ∃ t session, trigger_id t = id ∧ session ∈ world_sessions e ∧
  ((∃ ep since, ep_sessionId ep = session_id session ∧ dateParse (ep_stateSince ep) = Some since ∧ watches e session (state_text (ep_state ep)) t ∧ late_dedupKey o = episodeKeyOf ep ∧ late_dueAtMs o = dueAtOf t since ∧ has_lasted t since now)
   ∨ (watches e session (js "closed_with_error") t ∧ hasFailed (closeReason session) = true ∧ closedAt session = Some (late_dueAtMs o) ∧ late_dedupKey o = closed_key isoOf session ∧ ∃ a, armedAt t = Some a ∧ a ≤ late_dueAtMs o)).
Lemma late_offer_due e now episodes t o : (t, o) ∈ mjoin (late_stays dateParse e now <$> episodes) ++ mjoin (late_closes isoOf e <$> world_sessions e) → may_catch_up e now (trigger_id t) o.
Proof.
  intros [(os&Hin&(r&->&_)%list_elem_of_fmap)%list_elem_of_join|(os&Hin&(s&->&Hs)%list_elem_of_fmap)%list_elem_of_join]%elem_of_app.
  - unfold late_stays in Hin. destruct (getSession _ _) as [session|] eqn:Hg; [|by apply elem_of_nil in Hin]. destruct (dateParse _) as [since|] eqn:Hd; [|by apply elem_of_nil in Hin]. apply list_elem_of_omap in Hin as (t'&Ht&Ho).
    destruct (_ && _) eqn:Hb; [|done]. injection Ho as -> <-. apply andb_true_iff in Hb as [_ Hb%Z.leb_le]. exists t, session. split; [done|]. split; [by apply find_elem in Hg as [? _]|]. left. exists r.2, since. split_and!; try done; [by rewrite (getSession_id _ _ _ Hg)|by apply watching_iff].
  - unfold late_closes in Hin. destruct (closedAt s) as [at_|] eqn:Hc; [|by apply elem_of_nil in Hin]. destruct (_ && _) eqn:Hb; [|by apply elem_of_nil in Hin]. apply andb_true_iff in Hb as [_ Hb]. apply list_elem_of_omap in Hin as (t'&Ht&Ho).
    destruct (armedAt t') as [a|] eqn:Ha; [|done]. destruct (Z.leb_spec a at_); [|done]. injection Ho as -> <-. exists t, s. split_and!; try done. right. split_and!; try done; [by apply watching_iff|by exists a].
Qed.
End Facts.

(** ** A concrete history: a child that is idle since the fifth second, watched by a trigger of one minute. *)
Definition stay_graph : ApprovedGraph :=
  mkGraph None (JObj [(js "source", JStr (js "session_state")); (js "state", JStr (js "idle")); (js "minutes", JNum 1)]) (JArr []) (JObj [(js "kind", JStr (js "notify"))]) (mkTriggerPolicy 0 None PerEvent FireAll None).
Definition stay_trigger : TriggerRecord := mkTrigger (js "t1") (js "p") (js "title") stay_graph 1 (Some 0) (Some 1) (Some []) 0 0.
Definition stay_sessions (since : Z) : list Session :=
  [mkSession (js "m") (js "boss") [] None (Some (js "p")) Generating 0 None None; mkSession (js "s1") (js "worker") [] (Some (js "m")) (Some (js "p")) Idle since None None].
(** The world is the instant since which the child is idle. *)
#[local] Instance stay_world : StateWorld Z :=
  {| world_sessions := stay_sessions; world_managers _ := [js "m"]; world_armed _ := [stay_trigger]; world_submit e _ _ _ := (e, true); world_submitBacklog e _ _ := (e, true) |}.
Definition stay_iso (z : Z) : str := if Z.eqb z 5000 then js "1970-01-01T00:00:05.000Z" else js "later".
Definition stay_parse (s : str) : option Z := if str_eqb s (js "1970-01-01T00:00:05.000Z") then Some 5000 else None.
Definition stay_begun : waits * submissions := happens stay_iso (mkWaits [] [] 0, mkSubmissions [] []) (StateChanged (5000 : Z) (js "s1") (λ _, 6000)).
Definition stay_timer : WaitTimer := mkTimer 0 stay_trigger (mkSession (js "s1") (js "worker") [] (Some (js "m")) (Some (js "p")) Idle 5000 None None) 65000.
Lemma stay_armed_once (e : Z) : NoDup (trigger_id <$> world_armed e).
Proof. apply list.NoDup_singleton. Qed.
Lemma stay_begun_is : stay_begun = (mkWaits [(js "t1|s1", mkWait (js "t1") (mkEpisode (js "s1") Idle (stay_iso 5000)) 0)] [stay_timer] 1, mkSubmissions [] []).
Proof. vm_compute. reflexivity. Qed.
Lemma stay_reached : waits_reached stay_iso [5000 : Z] (stay_begun.1, stay_begun.2).
Proof. rewrite <- surjective_pairing. apply (reached_next stay_iso [] _ (StateChanged (5000 : Z) (js "s1") (λ _, 6000))); [apply reached_first|exact I]. Qed.
Lemma a_stay_is_offered_when_it_has_lasted_witness : (js "t1", js "idle:s1:1970-01-01T00:00:05.000Z") ∈ offers_made (happens stay_iso (stay_begun.1, stay_begun.2) (TimerEnded (5000 : Z) 0 65000)).2.
Proof.
  destruct (a_stay_is_offered_when_it_has_lasted stay_iso stay_armed_once [5000 : Z] stay_begun.1 stay_begun.2 (TimerEnded (5000 : Z) 0 65000) stay_reached) as (_&_&Hdeal).
  - rewrite stay_begun_is. intros tm ->%list_elem_of_singleton _. reflexivity.
  - destruct (Hdeal (λ _ _ _ _, eq_refl) stay_timer) as [_ Hoffered]; [rewrite stay_begun_is; by left|reflexivity|]. exact (Hoffered (timer_session stay_timer) eq_refl eq_refl eq_refl).
Defined.
(** A batch the engine refuses is lost with the later ones: their cursors were forgotten before any batch was submitted. *)
Definition earlier_trigger : TriggerRecord := mkTrigger (js "t0") (js "p") (js "title") stay_graph 1 (Some 0) (Some 1) (Some []) 0 0.
#[local] Instance refusing_world : StateWorld unit :=
  {| world_sessions _ := stay_sessions 90000; world_managers _ := [js "m"]; world_armed _ := [earlier_trigger; stay_trigger]; world_submit e _ _ _ := (e, true); world_submitBacklog e id _ := (e, negb (str_eqb id (js "t0"))) |}.
Definition two_cursors : cursor_rows := let c := cursor_of [mkEpisode (js "s1") Idle (stay_iso 5000)] in [(js "t0", Some c); (js "t1", Some c)].
Example a_refused_batch_loses_the_later_ones :
  let booted := offerWhatCameDueWhileStopped stay_iso stay_parse 100000 [] ((), mkSubmissions [] []) two_cursors in booted.2 = [] ∧ (batches_made booted.1.2).*1 = [js "t0"].
Proof. vm_compute. split; reflexivity. Qed.
